(* ===== verification/_CoqProject ===== *)
-Q . S2P
Prelude.v
CoreTypes.v
Publication.v
AccountCircuit.v
SnapshotBook.v
AccountQuota.v
AccountBudget.v
BudgetPublication.v
RateLimit.v
RoutingAdmission.v
RoutingFailover.v
RoutingCost.v
ModelPricing.v
RoutingPolicy.v
AccountHealth.v
AccountDomain.v
AccountSchedule.v
AccountAffinity.v
ModelDomain.v
ModelCatalog.v
RoutingDomain.v
RoutingSimulator.v
AccountPool.v
AccountProxy.v
RouteSelection.v
RoutingUsage.v
RoutingCoordinator.v
UserDomain.v
Organization.v
Rbac.v
Identity.v
Invitation.v
AuthSession.v
ApiKey.v
Encoding.v
PrincipalBinding.v
PrincipalAuthenticator.v
AuditDomain.v
AuditStore.v
Password.v
PasswordReset.v
AccountBatch.v
ConfigDomain.v
ConfigSchema.v
ConfigRuntime.v
StorageDomain.v
StorageMigration.v
StorageUpgrade.v
Cancellation.v
EventChannel.v
ApiValues.v
ApiAudio.v
ApiRealtime.v
ApiBatch.v
ProviderContract.v
ProviderStream.v
Capability.v
ModuleContract.v
DependencyOrder.v
Worker.v
Health.v
Lifecycle.v
LifecycleStart.v
LifecycleRun.v
AccountVault.v
VaultRotation.v
AccountImport.v
ImportPort.v
CircuitProbe.v
RuntimeExecution.v
RoutingRuntime.v
ApiFiles.v
FilePipe.v
PipeTransfer.v
PipeDownload.v
