(* ===== verification/Prelude.v ===== *)
(** * Ariadnion: a verification library

    Ariadnion is a modular gateway: a core ([src/crates/ariadnion-core]) that registers,
    validates, starts, watches and stops statically linked modules, and domain crates
    ([src/crates/optional]) that decide which account serves a request, whether its
    limits and budgets admit it, what it costs, and what follows from a failure.  This
    library models the domain logic of both as Rocq definitions named after the code,
    and proves what each component promises.

    *** How the code is modelled

    - Integers are [N]; a checked, saturating or wrapping operation is written out with
      its bound ([checked_add], [saturating_add], [wrapping_sub], [truncate]).  Instants
      and durations are counts of the unit the code uses.
    - [Result] is [result]; a method of a locked state is an [act]: a function from the
      state to the next state and a result, which keeps the changes made before an
      error, as [?] does.  [locked] is the [Mutex] around it, which a panic poisons.
    - Maps are [gmap]s; where the code iterates over a [BTreeMap] the model does so in
      key order ([btree_entries]).  Slices that are searched by bisection are searched
      by bisection ([binary_search]).  [Arc]s of immutable values are the values; where
      handles share a mutable value the model has a store and locations.
    - Threads appear where two locks or two threads interact: the budget and the rate
      store can be used by others between two calls of the coordinator
      ([RoutingAdmission], [interfere]), the worker of a bounded operation and its
      caller take turns in any order ([Worker]), and registrations and cancellations are
      sequences of atomic steps that interleave ([Cancellation]); the ends of a file pipe
      are critical sections, with any steps of the other threads between two of them
      ([PipeTransfer], [PipeDownload]).
    - Code outside the repository is a parameter: module factories and handles, the
      clock and the fate of threads are the class [ModuleRuntime].

    *** The files

    - [Prelude]: results, actions, locks, machine integers, orders and sorting,
      bisection, ordered maps, sums over maps, record update, automation.
    - [CoreTypes]: [ariadnion-core/src/error.rs], [ids.rs] and the identities of
      [ariadnion-account-domain].
    - [Publication]: the interface of a generation-checked owner and what follows from it
      (each generation has one winner); instances in [SnapshotBook], [AccountQuota],
      [RateLimit] and [BudgetPublication].
    - [AccountCircuit], [SnapshotBook]: [ariadnion-account-circuit]; a circuit breaker
      with leased recovery probes, and its published snapshots.
    - [AccountQuota]: [ariadnion-account-quota]; quota observations.
    - [AccountBudget], [BudgetPublication]: [ariadnion-account-budget]; the reservation
      ledger and its generation-checked policies.
    - [RateLimit]: [ariadnion-rate-limit]; rate windows, concurrency counters, leases.
    - [RoutingAdmission]: [ariadnion-routing-admission]; the lease that couples the two.
    - [AccountDomain], [AccountHealth], [AccountSchedule], [AccountAffinity],
      [AccountPool], [AccountProxy]: the crates [ariadnion-account-*] of these names:
      accounts and their lifecycle, health states, availability windows, sticky
      assignment, candidate snapshots, egress profiles.
    - [ModelDomain], [ModelCatalog], [ModelPricing]: [ariadnion-model-*]; models and their
      provider mappings, what each tenant sees of them, and prices.
    - [RoutingDomain], [RoutingPolicy], [RoutingCost], [RoutingFailover],
      [RoutingSimulator], [RoutingUsage]: the crates [ariadnion-routing-*] of these names.
    - [RouteSelection], [RoutingCoordinator]: [ariadnion-routing-coordinator]; the pipeline
      that selects an account from immutable snapshots of all the above ([engine.rs],
      [lib.rs], [retry.rs], [proxy.rs]), then the admission of the selected one, the
      assembly of its stores and the coordinator ([engine/admission.rs],
      [admission_assembly.rs]).
    - [UserDomain], [Organization], [Rbac]: [ariadnion-user-domain], [ariadnion-organization]
      and [ariadnion-rbac]; users, organizations with their memberships, teams and owners,
      policies of roles; commands, events, persisted snapshots and the authorization of requests.
    - [Identity], [Invitation], [AuthSession], [ApiKey]: [ariadnion-invitation],
      [ariadnion-auth-session] and [ariadnion-auth-api-key]; one-time invitations, browser
      session families with rotation and reuse detection, API keys with overlapping and
      retired secrets; [Identity] holds the digests and the lemmas they share.
    - [Password], [PasswordReset]: [ariadnion-auth-password]; admission, hashing and
      verification of passwords, credentials and their one-time recovery.
    - [ConfigDomain], [ConfigSchema], [ConfigRuntime]: the crates [ariadnion-config-*] of these
      names: documents and their differences, schemas and validation, and the runtime that
      publishes drafts and rolls back.
    - [StorageDomain], [StorageMigration], [StorageUpgrade]: the crates [ariadnion-storage-*]
      of these names: migration catalogs and their plans, the registry and the orchestration
      of a migration over an executor, upgrade plans and the evidence of a switch.
    - [Cancellation], [EventChannel]: [context.rs] and [event.rs] of the core: trees of
      cancellation tokens with their wakers, and bounded event channels.
    - [ApiValues], [ApiAudio], [ApiRealtime], [ApiBatch]: [ariadnion-api-domain]; the bounded
      values of requests and responses, generated audio with its WAV parser, realtime
      sessions, batch operations.
    - [ProviderContract], [ProviderStream]: [ariadnion-provider-sdk]; contracts, the evidence
      of attempts and the advice on retries, bounded streams over [EventChannel], and the
      futures that guard calls and probes.
    - [AccountVault], [VaultRotation]: [ariadnion-account-vault]; secret leases and vault
      requests, and the journal that rotates a credential over an overlap.
    - [AccountImport], [ImportPort]: [ariadnion-account-import]; batches of accounts, their dry
      run and publication by generation, and the values of the durable ports.
    - [CircuitProbe], [RuntimeExecution], [RoutingRuntime]: [ariadnion-routing-runtime]; the
      registry of circuit probes; the values and pure decisions of a run; and the run, which
      takes the attempts of a schedule one by one: it coordinates an attempt, prepares it
      (projection, probe, credential, lease), dispatches it to the provider and finalizes its
      admission and its probe.
    - [ApiFiles]: [ariadnion-api-files]; chunks, cursors, access tickets and their windows.
    - [FilePipe], [PipeTransfer], [PipeDownload]: [ariadnion-file-service/src/pipe.rs]; the
      pipe of one chunk between an asynchronous end and a blocking worker: its state, critical
      sections and calls; then what crosses an upload and a download, by one logic of
      operations that other threads interrupt.
    - [AccountBatch]: [ariadnion-account-batch]; administrative batches: plans, lifecycle,
      claims, outcomes, receipts and pages.
    - [Encoding], [PrincipalBinding], [PrincipalAuthenticator]:
      [ariadnion-principal-binding]; the binding of a principal to a user, the links of
      authenticators to it and the evidence of an authentication; [Encoding] holds the bytes
      that are hashed.
    - [AuditDomain], [AuditStore]: [ariadnion-audit-domain] and [ariadnion-audit-store];
      hash-chained security events, their verification, append and export.
    - [Capability], [ModuleContract], [Health]: [capability.rs], [resource.rs] and
      [module.rs], [health.rs] of the core.
    - [DependencyOrder], [Worker], [Lifecycle], [LifecycleStart], [LifecycleRun]:
      [lifecycle.rs] of the core: its graph algorithms, its worker protocol, the
      supervisor, what a start makes of every module, and executions.
    A component imports the components it calls: [RoutingAdmission] runs the operations
    of [AccountBudget] and [RateLimit], [Lifecycle] those of [Capability],
    [DependencyOrder], [Worker] and [Health].  [RouteSelection] reads the snapshots of the
    account, model and routing components and calls their decisions; [RoutingCoordinator]
    turns its selection into one admission of [RoutingAdmission], and its theorem combines
    the two components' lemmas.  [RoutingRuntime] runs [RoutingCoordinator],
    [RoutingAdmission], [CircuitProbe] over the circuits of [AccountCircuit], and
    [Cancellation]; the vault, the import ports, the provider and the clocks are what it finds
    outside ([Outside]), one answer per call.

    *** What is proved

    - Invariants over every reachable state: [ledger_sound], [controller_sound],
      [reachable_circuit_inv], [lifecycle_sound].
    - Refinement of an abstract specification: the circuit refines a rule-based breaker
      ([circuit_refines_breaker]); reserving, settling and expiring refine declarative
      functions of the ledger ([reserve_refines], [settlement_refines],
      [expire_refines]).
    - Composition: an admission charges everything or nothing ([admission_all_or_nothing]); a
      coupled admission holds both or nothing, a refusal takes back its own lease and no other,
      accepted work is never refunded, an ended lease holds nothing
      ([RoutingAdmission]); starting modules isolates failures ([start_isolates_failures]).
    - Exact decisions and errors: admission, failover, quotes, refreshes, registration,
      resolution, descriptors, cost tiers.
    - Algorithms: bisection, sorting, cycle search, Kahn's order and the shutdown order.
    - The routing path end to end: the selection decides every candidate by itself and
      explains it ([selection_exact]), and a coordination routes to an authoritative
      candidate with one lease and one reservation of exactly the quote, within the
      persisted concurrency of every account ([coordination_sound]).
    - Execution: a run reports exactly the attempts it dispatched that a provider accepted,
      on every path ([run_evidence_exact]); what it holds for an attempt, an admission and a
      probe, is given back or finalized once, in the order of the protocol
      ([dispatch_protocol]); it ends within its schedule ([run_terminates]); a probe lease is
      honoured once ([probe_lease_honoured_once]).
    - Accounts: health is a function of the observed history, availability is what the
      schedule says, an assignment sticks, a lifecycle is linear, the routed candidates are
      the active accounts, what is served in memory is durable.  A rotation never revokes a
      credential before the next one has served the whole overlap ([rotation_never_strands]);
      a dry run of an import predicts its publication ([dry_run_predicts_publication]).
    - Identity: the states that can be persisted are the states that can be read back, events
      replay to the transitions they record, ownership moves only on fresh evidence, and a
      request is allowed exactly when the policy says so.  An invitation is settled at most
      once; a rotated session token or a retired API-key secret never works again, and a
      rotated token presented again closes its family.  A password reset replaces the
      credential version it was issued for, once.  Equal commitments are of one subject
      and equal audit digests of one log, up to an exhibited collision of the hash function;
      an export of a log has exactly the events asked for.
    - Configuration: a document is served exactly when it conforms to the schema; versions and
      generations are never reused, and a rollback cannot fail validation.
    - Storage: a plan is the one path of the catalog, data are written only under a preflight
      that permits the plan, and an activation or a rollback only selects what was verified.
    - Concurrency: in every interleaving cancellation is observed below the token that was
      cancelled; a task that waits is woken unless another thread comes between the two
      first steps of a cancellation, in which case it may not be
      ([racing_registration_loses_wake]); a channel is first-in first-out and bounded.
      Bytes leave a file pipe as they entered it ([upload_in_order], [download_in_order]),
      and what its calls answer is true ([upload_calls_exact], [download_calls_exact]).
    - The service interface: audio is accepted exactly when it is a canonical WAV file; a realtime
      session is the fold of its contract; a batch file is accepted exactly when its
      identities differ; a provider stream is a start, deltas and an end, and nothing that has
      been answered is advised to be retried.
    - Batches: evidence is accepted exactly when it is what the account domain does, and paging
      through the outcomes reads each of them once.
    - Models: names resolve uniquely, a tenant sees exactly what is visible to it.
    - Termination and progress: a run and failover end, the latter follows a plan at most [max_attempts] times, a
      circuit recovers under every schedule of successful probes ([recovery_closes]), both sides of a bounded operation finish, the graph loops end.

    *** Fuel

    Loops that are not structural carry fuel with a proof that it suffices: [search]
    expands a module at most once and is given the number of edges; [drain] and [select]
    put each module out once and are given the number of modules; [bsearch_base] halves
    its range and is given its length; [decimal] prints a [u16] and is given its five digits;
    [run_loop] and [prepare_retry_fuel] take an attempt off the schedule in each round and are
    given one round more than it has attempts.  A blocking call of [FilePipe] waits as long as
    the other end leaves it nothing to do; its fuel is the number of rounds looked at, running
    out is the answer [StillWaiting], and its theorems hold for every fuel.

    *** Not modelled

    - Output of [Debug] and [Display] other than the versions; hashing and zeroing of
      secrets; the adapters of persistence, transport and protocols (the database
      repositories, backup, restore, queries, outbox and maintenance around the store; HTTP
      and the wire formats; the workers and tickets of the file service; dispatch and the
      providers), which is glue around databases, sockets, files and the operating system.
    - Poisoned locks are modelled as a refusal, not the panic that poisons them, other than
      those of [FilePipe], where a waker may panic and the lock recovers.
    - Two steps are coarser than the code, without effect on what is proved:
      [Cancellation.remove_inactive_waiters] tests all waiters of a node at one instant, and
      [ProviderStream.receive_event] marks a delivery in the step that receives it.
    - In [Lifecycle] a late worker acts on the world at times the model leaves to
      [ModuleRuntime]; [Worker] shows what becomes of its output.
    - The optional [wasm-policy] feature of the routing coordinator, off by default.  Hashing
      (SHA-256 in [AccountAffinity] and, as the class [Sha256], in the identity and audit files), Argon2id and the PHC parser ([Password]), comparison in constant time and stores behind traits ([AccountProxy]) are
      parameters, with what their documentation promises as hypotheses.
    - The rest of the core ([outbound.rs], [port.rs], [shutdown.rs], [bootstrap.rs]), export
      of accounts, the job runner, user service, command line and diagnostics: they compose
      ports of the modelled components with processes, time and ciphers.
*)

From Stdlib Require Export NArith Lia.
From stdpp Require Export sorting base gmap strings option fin_maps list.

(** ** Results *)

(** Rust's [Result<A, E>], success first as in the source's match arms. *)
Inductive result (E A : Type) : Type :=
| Ok (a : A)
| Err (e : E).
Arguments Ok {E A} a.
Arguments Err {E A} e.

#[export] Instance result_ret E : MRet (result E) := fun _ a => Ok a.
#[export] Instance result_bind E : MBind (result E) :=
  fun _ _ f m => match m with Ok a => f a | Err e => Err e end.
#[export] Instance result_fmap E : FMap (result E) :=
  fun _ _ f m => match m with Ok a => Ok (f a) | Err e => Err e end.

(** [Option::ok_or_else]. *)
Definition ok_or {E A} (o : option A) (e : E) : result E A :=
  match o with Some a => Ok a | None => Err e end.

(** [Option::is_some_and] and [Option::is_none_or]. *)
Definition is_some_and {A} (f : A -> bool) (o : option A) : bool :=
  match o with Some a => f a | None => false end.
Definition is_none_or {A} (f : A -> bool) (o : option A) : bool :=
  match o with Some a => f a | None => true end.

(** The early return [if condition { return Err(e) }]. *)
Definition reject_if {E} (condition : bool) (e : E) : result E unit :=
  if condition then Err e else Ok tt.

Definition is_ok {E A} (r : result E A) : bool :=
  match r with Ok _ => true | Err _ => false end.

(** [iter().map(f).collect::<Result<Vec<_>, E>>()]: the first error wins. *)
Fixpoint collect {E A B} (f : A -> result E B) (xs : list A) : result E (list B) :=
  match xs with
  | [] => Ok []
  | x :: xs' => y ← f x; ys ← collect f xs'; Ok (y :: ys)
  end.

(** ** Operations under a lock

    A method body that runs on a mutable state and may leave early with an
    error.  The state reached when the error is raised is kept: Rust's [?] does
    not roll anything back. *)
Definition act (S E A : Type) : Type := S -> S * result E A.

#[export] Instance act_ret S E : MRet (act S E) := fun _ a s => (s, Ok a).
#[export] Instance act_bind S E : MBind (act S E) :=
  fun _ _ f m s =>
    match m s with
    | (s', Ok a) => f a s'
    | (s', Err e) => (s', Err e)
    end.

Definition get {S E} : act S E S := fun s => (s, Ok s).
Definition put {S E} (s : S) : act S E unit := fun _ => (s, Ok tt).
Definition modify {S E} (f : S -> S) : act S E unit := fun s => (f s, Ok tt).
Definition fail {S E A} (e : E) : act S E A := fun s => (s, Err e).
Definition lift {S E A} (r : result E A) : act S E A := fun s => (s, r).
(** A [&self] method: it reads the state and cannot change it. *)
Definition query {S E A} (f : S -> result E A) : act S E A := fun s => (s, f s).
(** A [match] on the result of an operation, which keeps the state it reached. *)
Definition attempt {S E A} (m : act S E A) : act S E (result E A) :=
  fun s => let '(s', r) := m s in (s', Ok r).

(** [for x in xs { body(x)?; }]. *)
Fixpoint for_each {S E A} (body : A -> act S E unit) (xs : list A) : act S E unit :=
  match xs with
  | [] => mret tt
  | x :: xs' => body x ;; for_each body xs'
  end.

(** A [Mutex] or [RwLock]: poisoned by a panic of an earlier critical section. *)
Record Lock (S : Type) := mk_lock { lock_poisoned : bool; lock_data : S }.
Arguments mk_lock {S} _ _.
Arguments lock_poisoned {S} _.
Arguments lock_data {S} _.

(** [self.state.lock().map_err(|_| unavailable)?] followed by the body. *)
Definition locked {S E A} (unavailable : E) (body : act S E A) : act (Lock S) E A :=
  fun l =>
    if lock_poisoned l then (l, Err unavailable)
    else let '(s, r) := body (lock_data l) in (mk_lock false s, r).

(** ** Machine integers *)

Definition u8_max : N := 255.
Definition u16_max : N := 65535.
Definition u32_max : N := 4294967295.
Definition u64_max : N := 18446744073709551615.

Definition checked_add (max a b : N) : option N :=
  if (a + b <=? max)%N then Some (a + b)%N else None.
Definition checked_sub (a b : N) : option N :=
  if (b <=? a)%N then Some (a - b)%N else None.
(** [i64::checked_sub]. *)
Definition i64_min : Z := (-9223372036854775808)%Z.
Definition i64_max : Z := 9223372036854775807%Z.
Definition i64_checked_sub (a b : Z) : option Z :=
  if ((i64_min <=? a - b) && (a - b <=? i64_max))%Z then Some (a - b)%Z else None.
Definition checked_mul (max a b : N) : option N :=
  if (a * b <=? max)%N then Some (a * b)%N else None.
Definition saturating_add (max a b : N) : N := N.min max (a + b).
(** [saturating_sub] is the truncated subtraction of [N]. *)
Definition saturating_sub (a b : N) : N := (a - b)%N.
(** Unchecked [a - b] of the release profile, which wraps. *)
Definition wrapping_sub (max a b : N) : N := ((a + (max + 1) - b) mod (max + 1))%N.
(** [n as u16] and the like. *)
Definition truncate (max n : N) : N := (n mod (max + 1))%N.
Definition len {A} (l : list A) : N := N.of_nat (length l).

(** ** Total orders: Rust's [Ord] *)

Class Ord (A : Type) := cmp : A -> A -> comparison.
Class OrdLaws (A : Type) `{Ord A} : Prop := {
  cmp_eq_iff (x y : A) : cmp x y = Eq <-> x = y;
  cmp_opp (x y : A) : cmp y x = CompOpp (cmp x y);
  cmp_lt_trans (x y z : A) : cmp x y = Lt -> cmp y z = Lt -> cmp x z = Lt;
}.

Definition then_with (c d : comparison) : comparison :=
  match c with Eq => d | _ => c end.

#[export] Instance N_ord : Ord N := N.compare.
#[export] Instance string_ord : Ord string := String.compare.
#[export] Instance pair_ord {A B} `{Ord A, Ord B} : Ord (A * B) :=
  fun p q => then_with (cmp p.1 q.1) (cmp p.2 q.2).

Definition ord_lt {A} `{Ord A} (x y : A) : Prop := cmp x y = Lt.
Definition ord_le {A} `{Ord A} (x y : A) : Prop := cmp x y <> Gt.
Definition is_lt {A} `{Ord A} (x y : A) : bool :=
  match cmp x y with Lt => true | _ => false end.

(** ** Slices *)

(** [sort_by] on a key: the stable sort (the result of every stable sort). *)
Fixpoint insert_by {A K} `{Ord K} (key : A -> K) (x : A) (l : list A) : list A :=
  match l with
  | [] => [x]
  | y :: l' =>
      match cmp (key x) (key y) with
      | Gt => y :: insert_by key x l'
      | _ => x :: y :: l'
      end
  end.
Fixpoint sort_by {A K} `{Ord K} (key : A -> K) (l : list A) : list A :=
  match l with
  | [] => []
  | x :: l' => insert_by key x (sort_by key l')
  end.

(** [windows(2).any(|pair| key(pair[0]) == key(pair[1]))]. *)
Fixpoint adjacent_duplicate {A K} `{EqDecision K} (key : A -> K) (l : list A) : bool :=
  match l with
  | x :: ((y :: _) as l') => bool_decide (key x = key y) || adjacent_duplicate key l'
  | _ => false
  end.

(** [binary_search_by] of the standard library: halve the candidate range until
    one element is left.  The fuel is the range's size, which the loop shrinks. *)
Fixpoint bsearch_base {A} (f : A -> comparison) (l : list A) (fuel base size : nat) : nat :=
  match fuel with
  | O => base
  | S fuel' =>
      if (size <=? 1)%nat then base
      else
        let half := (size / 2)%nat in
        let mid := (base + half)%nat in
        let base' := match f <$> (l !! mid) with Some Lt | Some Eq => mid | _ => base end in
        bsearch_base f l fuel' base' (size - half)%nat
  end.
Definition binary_search {A} (f : A -> comparison) (l : list A) : option A :=
  let base := bsearch_base f l (length l) 0 (length l) in
  match l !! base with
  | Some x => match f x with Eq => Some x | _ => None end
  | None => None
  end.

(** [BTreeSet::insert] over a sequence: are all the keys fresh? *)
Fixpoint all_fresh {A K} `{EqDecision K} (key : A -> K) (seen : list K) (l : list A) : bool :=
  match l with
  | [] => true
  | x :: l' => if decide (key x ∈ seen) then false else all_fresh key (key x :: seen) l'
  end.

(** ** Ordered maps

    A [BTreeMap] is a finite map; what its iteration order adds is the list of
    its entries sorted by key. *)
Definition btree_entries {K V} `{Countable K, Ord K} (m : gmap K V) : list (K * V) :=
  sort_by fst (map_to_list m).
Definition btree_values {K V} `{Countable K, Ord K} (m : gmap K V) : list V :=
  (btree_entries m).*2.

(** Sums over sequences and over the entries of a map. *)
Definition sum_of {A} (f : A -> N) (l : list A) : N := foldr (fun x acc => f x + acc)%N 0%N l.
Definition map_sum {K V} `{Countable K} (f : K -> V -> N) (m : gmap K V) : N :=
  sum_of (fun kv => f kv.1 kv.2) (map_to_list m).

(** ** Record update: [r <| field := v |>] *)

Class Eta (R : Type) := eta : R -> R.
Class Setter {R T : Type} (proj : R -> T) := set_field : T -> R -> R.
Ltac solve_setter :=
  match goal with
  | |- @Setter ?R ?T ?proj =>
      let e := eval unfold eta in (eta (R := R)) in
      let e := eval hnf in e in
      match eval pattern proj in e with
      | ?rebuild _ => exact (fun v => rebuild (fun _ => v))
      end
  end.
#[export] Hint Extern 0 (Setter _) => solve_setter : typeclass_instances.
Declare Scope record_scope.
Notation "r <| proj := v |>" := (set_field (proj := proj) v r)
  (at level 1, left associativity, proj at level 11,
   format "r  <| proj  :=  v |>") : record_scope.
#[global] Open Scope record_scope.
Arguments set_field {R T} proj {_} / _ _ : rename.

(** ** Lemmas: results and operations *)

Lemma result_bind_inv {E A B} (m : result E A) (f : A -> result E B) r :
  m ≫= f = r ->
  (exists a, m = Ok a /\ f a = r) \/ (exists e, m = Err e /\ r = Err e).
Proof. destruct m; cbn; [left | right]; eauto. Qed.

Lemma result_bind_Ok {E A B} (m : result E A) (f : A -> result E B) b :
  m ≫= f = Ok b <-> exists a, m = Ok a /\ f a = Ok b.
Proof. destruct m; cbn; naive_solver. Qed.

Lemma act_bind_inv {S E A B} (m : act S E A) (f : A -> act S E B) s s' r :
  (m ≫= f) s = (s', r) ->
  (exists s1 a, m s = (s1, Ok a) /\ f a s1 = (s', r)) \/
  (exists e, m s = (s', Err e) /\ r = Err e).
Proof.
  unfold mbind, act_bind. destruct (m s) as [s1 [a | e]]; intros H.
  - left. eauto.
  - right. exists e. by simplify_eq.
Qed.

Lemma act_bind_run {S E A B} (m : act S E A) (f : A -> act S E B) s s' a :
  m s = (s', Ok a) -> (m ≫= f) s = f a s'.
Proof. intros Hm. unfold mbind, act_bind. by rewrite Hm. Qed.
Lemma act_bind_stop {S E A B} (m : act S E A) (f : A -> act S E B) s s' e :
  m s = (s', Err e) -> (m ≫= f) s = (s', Err e).
Proof. intros Hm. unfold mbind, act_bind. by rewrite Hm. Qed.
Lemma act_get_run {S E B} (f : S -> act S E B) (s : S) : (get ≫= f) s = f s s.
Proof. done. Qed.
Lemma act_modify_run {S E B} (g : S -> S) (f : unit -> act S E B) (s : S) : (modify g ≫= f) s = f tt (g s).
Proof. done. Qed.
Lemma act_put_run {S E B} (x : S) (f : unit -> act S E B) (s : S) : (put x ≫= f) s = f tt x.
Proof. done. Qed.
Lemma act_lift_run {S E A B} (a : A) (f : A -> act S E B) (s : S) : (lift (Ok a) ≫= f) s = f a s.
Proof. done. Qed.
Lemma act_lift_stop {S E A B} (e : E) (f : A -> act S E B) (s : S) : (lift (Err e) ≫= f) s = (s, Err e).
Proof. done. Qed.

Lemma ok_or_Ok {E A} (o : option A) (e : E) a : ok_or o e = Ok a <-> o = Some a.
Proof. destruct o; cbn; split; congruence. Qed.
Lemma ok_or_Err {E A} (o : option A) (e e' : E) : ok_or o e = Err e' <-> o = None /\ e' = e.
Proof. destruct o; cbn; naive_solver. Qed.
Lemma reject_if_Ok {E} b (e : E) u : reject_if b e = Ok u <-> b = false.
Proof. destruct b, u; cbn; split; congruence. Qed.
Lemma reject_if_Err {E} b (e e' : E) : reject_if b e = Err e' <-> b = true /\ e' = e.
Proof. destruct b; cbn; naive_solver. Qed.

Lemma collect_Ok {E A B} (f : A -> result E B) xs ys :
  collect f xs = Ok ys <-> Forall2 (fun x y => f x = Ok y) xs ys.
Proof.
  split.
  - revert ys. induction xs as [|x xs IH]; intros ys; cbn.
    + intros [= <-]. constructor.
    + destruct (f x) eqn:Hx; cbn; [|done].
      destruct (collect f xs) eqn:Hxs; cbn; [|done].
      intros [= <-]. constructor; eauto.
  - induction 1 as [|x y xs ys Hx _ IH]; cbn; [done|]. by rewrite Hx, IH.
Qed.

Lemma collect_Err {E A B} (f : A -> result E B) xs e :
  collect f xs = Err e -> exists x, x ∈ xs /\ f x = Err e.
Proof.
  induction xs as [|x xs IH]; cbn; [done|]. destruct (f x) as [y|e'] eqn:Hx; cbn.
  - destruct (collect f xs) as [ys|e'] eqn:Hxs; cbn; [done|]. intros [= ->].
    destruct (IH eq_refl) as (z & Hz & Hf). exists z. split; [by right|done].
  - intros [= ->]. exists x. split; [left|done].
Qed.
Lemma for_each_Err {S E A} (body : A -> act S E unit) xs s s' e :
  for_each body xs s = (s', Err e) -> exists x s1, x ∈ xs /\ body x s1 = (s', Err e).
Proof.
  revert s. induction xs as [|x xs IH]; intros s; cbn; [done|].
  intros [(s1 & [] & Hx & Hrest)|(e' & Hx & [= <-])]%act_bind_inv.
  - destruct (IH s1 Hrest) as (y & s2 & Hy & Hb). exists y, s2. split; [by right|done].
  - exists x, s. split; [left|done].
Qed.
Lemma collect_map {E A B} (f : A -> result E B) (g : A -> B) xs :
  (forall x, x ∈ xs -> f x = Ok (g x)) -> collect f xs = Ok (g <$> xs).
Proof.
  intros Hf. apply collect_Ok. induction xs as [|x xs IH]; constructor.
  - apply Hf. left.
  - apply IH. intros y Hy. apply Hf. by right.
Qed.

(** Invariants of operations: what every exit, early or not, maintains. *)
Definition preserves {S E A} (I : S -> Prop) (m : act S E A) : Prop :=
  forall s, I s -> I (m s).1.

Section preservation.
  Context {S E : Type} (I : S -> Prop).

Lemma preserves_ret {A} (a : A) : preserves I (mret a : act S E A).
Proof. by intros s Hs. Qed.
Lemma preserves_fail {A} (e : E) : preserves I (fail e : act S E A).
Proof. by intros s Hs. Qed.
Lemma preserves_lift {A} (r : result E A) : preserves I (lift r : act S E A).
Proof. by intros s Hs. Qed.
Lemma preserves_query {A} (f : S -> result E A) : preserves I (query f).
Proof. by intros s Hs. Qed.
Lemma preserves_get : preserves I (get : act S E S).
Proof. by intros s Hs. Qed.
Lemma preserves_bind {A B} (m : act S E A) (f : A -> act S E B) :
  preserves I m -> (forall a, preserves I (f a)) -> preserves I (m ≫= f).
Proof.
  intros Hm Hf s Hs. specialize (Hm s Hs). unfold mbind, act_bind.
  destruct (m s) as [s1 [a | e]]; cbn in *; [by apply Hf | done].
Qed.
Lemma preserves_attempt {A} (m : act S E A) : preserves I m -> preserves I (attempt m).
Proof. intros Hm s Hs. specialize (Hm s Hs). unfold attempt. by destruct (m s). Qed.
Lemma preserves_for_each {A} (body : A -> act S E unit) xs :
  (forall x, x ∈ xs -> preserves I (body x)) -> preserves I (for_each body xs).
Proof.
  induction xs as [|x xs IH]; intros Hb; cbn; [apply preserves_ret|].
  apply preserves_bind; [apply Hb; left|]. intros _. apply IH.
  intros y Hy. apply Hb. by right.
Qed.
End preservation.

Lemma locked_preserves {S E A} (I : S -> Prop) (e : E) (body : act S E A) :
  preserves I body -> preserves (fun l => I (lock_data l)) (locked e body).
Proof.
  intros Hb [p s] Hs. unfold locked. cbn in *. destruct p; [done|].
  specialize (Hb s Hs). by destruct (body s).
Qed.
Lemma locked_poisoned {S E A} (e : E) (body : act S E A) s :
  locked e body (mk_lock true s) = (mk_lock true s, Err e).
Proof. done. Qed.
Lemma locked_run {S E A} (e : E) (body : act S E A) s :
  locked e body (mk_lock false s) = (mk_lock false (body s).1, (body s).2).
Proof. unfold locked. cbn. by destruct (body s). Qed.

Lemma locked_inv {S E A} (e : E) (body : act S E A) l l' r :
  locked e body l = (l', r) ->
  (l' = l /\ r = Err e) \/
  (exists s', body (lock_data l) = (s', r) /\ l' = mk_lock false s' /\ lock_poisoned l = false).
Proof.
  unfold locked. destruct l as [[|] s]; cbn; [intros [= <- <-]; by left|].
  destruct (body s) as [s' r']. intros [= <- <-]. right. eauto.
Qed.

(** ** Lemmas: machine integers *)

Lemma checked_add_Some max a b c : checked_add max a b = Some c <-> (c = a + b /\ a + b <= max)%N.
Proof. unfold checked_add. destruct (N.leb_spec (a + b) max); naive_solver lia. Qed.
Lemma checked_add_None max a b : checked_add max a b = None <-> (max < a + b)%N.
Proof. unfold checked_add. destruct (N.leb_spec (a + b) max); naive_solver lia. Qed.
Lemma checked_sub_Some a b c : checked_sub a b = Some c <-> (c = a - b /\ b <= a)%N.
Proof. unfold checked_sub. destruct (N.leb_spec b a); naive_solver lia. Qed.
Lemma checked_sub_None a b : checked_sub a b = None <-> (a < b)%N.
Proof. unfold checked_sub. destruct (N.leb_spec b a); naive_solver lia. Qed.
Lemma checked_mul_Some max a b c : checked_mul max a b = Some c <-> (c = a * b /\ a * b <= max)%N.
Proof. unfold checked_mul. destruct (N.leb_spec (a * b) max); naive_solver lia. Qed.
Lemma checked_mul_None max a b : checked_mul max a b = None <-> (max < a * b)%N.
Proof. unfold checked_mul. destruct (N.leb_spec (a * b) max); naive_solver lia. Qed.
Lemma truncate_small max n : (n <= max)%N -> truncate max n = n.
Proof. intros. unfold truncate. apply N.mod_small. lia. Qed.
Lemma wrapping_sub_exact max a b : (b <= a <= max)%N -> wrapping_sub max a b = (a - b)%N.
Proof.
  intros [Hb Ha]. unfold wrapping_sub.
  replace (a + (max + 1) - b)%N with ((a - b) + 1 * (max + 1))%N by lia.
  rewrite N.Div0.mod_add. apply N.mod_small. lia.
Qed.

(** ** Lemmas: orders *)

Section ord_facts.
  Context {A : Type} {ordA : Ord A} {lawsA : OrdLaws A}.
  Implicit Types x y z : A.

Lemma cmp_refl x : cmp x x = Eq.
Proof. by apply cmp_eq_iff. Qed.
Lemma ord_lt_irrefl x : ~ ord_lt x x.
Proof. unfold ord_lt. by rewrite cmp_refl. Qed.
Lemma ord_lt_trans x y z : ord_lt x y -> ord_lt y z -> ord_lt x z.
Proof. apply cmp_lt_trans. Qed.
Lemma cmp_gt_lt x y : cmp x y = Gt <-> cmp y x = Lt.
Proof. rewrite (cmp_opp x y). destruct (cmp x y); naive_solver. Qed.
Lemma ord_le_cases x y : ord_le x y <-> ord_lt x y \/ x = y.
Proof.
  unfold ord_le, ord_lt. rewrite <- (cmp_eq_iff x y). destruct (cmp x y); naive_solver.
Qed.
Lemma ord_lt_le x y : ord_lt x y -> ord_le x y.
Proof. rewrite ord_le_cases. auto. Qed.
Lemma ord_le_refl x : ord_le x x.
Proof. apply ord_le_cases. auto. Qed.
Lemma ord_le_trans x y z : ord_le x y -> ord_le y z -> ord_le x z.
Proof. rewrite !ord_le_cases. intros [?| ->] [?| ->]; eauto using ord_lt_trans. Qed.
Lemma ord_le_antisym x y : ord_le x y -> ord_le y x -> x = y.
Proof.
  rewrite !ord_le_cases. intros [H1|?] [H2|?]; try done.
  by destruct (ord_lt_irrefl x (ord_lt_trans x y x H1 H2)).
Qed.
Lemma ord_lt_asym x y : ord_lt x y -> ~ ord_lt y x.
Proof. intros H1 H2. exact (ord_lt_irrefl x (ord_lt_trans x y x H1 H2)). Qed.
End ord_facts.

#[export] Instance N_ord_laws : OrdLaws N.
Proof.
  split; unfold cmp, N_ord; intros.
  - apply N.compare_eq_iff.
  - apply N.compare_antisym.
  - rewrite N.compare_lt_iff in *. lia.
Qed.

Lemma string_compare_le (x y : string) : String.le x y <-> String.compare x y <> Gt.
Proof. unfold String.le, String.leb. destruct (String.compare x y); cbn; naive_solver. Qed.

#[export] Instance string_ord_laws : OrdLaws string.
Proof.
  split; unfold cmp, string_ord.
  - intros x y. split; [apply String.compare_eq_iff|]. intros <-.
    pose proof (String.compare_antisym x x) as Hs. by destruct (String.compare x x).
  - intros x y. apply String.compare_antisym.
  - intros x y z Hxy Hyz.
    assert (String.le x z) as Hle.
    { transitivity y; apply string_compare_le; congruence. }
    apply string_compare_le in Hle.
    destruct (String.compare x z) eqn:Hxz; try done.
    apply String.compare_eq_iff in Hxz as ->.
    rewrite String.compare_antisym, Hyz in Hxy. done.
Qed.

#[export] Instance pair_ord_laws {A B} `{OrdLaws A, OrdLaws B} : OrdLaws (A * B).
Proof.
  split; unfold cmp, pair_ord.
  - intros [a b] [a' b']; cbn. split.
    + destruct (cmp a a') eqn:Ha; cbn; try done. intros Hb.
      apply cmp_eq_iff in Ha as ->. by apply cmp_eq_iff in Hb as ->.
    + intros [= -> ->]. by rewrite cmp_refl; cbn; rewrite cmp_refl.
  - intros [a b] [a' b']; cbn. rewrite (cmp_opp a a'), (cmp_opp b b').
    destruct (cmp a a'); cbn; done.
  - intros [a b] [a' b'] [a'' b'']; cbn.
    destruct (cmp a a') eqn:E1; cbn; try done;
      destruct (cmp a' a'') eqn:E2; cbn; try done; intros E3 E4.
    + apply cmp_eq_iff in E1 as ->. rewrite E2. cbn. by eapply cmp_lt_trans.
    + apply cmp_eq_iff in E1 as ->. by rewrite E2.
    + apply cmp_eq_iff in E2 as <-. by rewrite E1.
    + by rewrite (cmp_lt_trans a a' a'').
Qed.

(** ** Lemmas: sorting and searching *)

Section sort_facts.
  Context {A K : Type} {ordK : Ord K} {lawsK : OrdLaws K} (key : A -> K).
  Implicit Types (l : list A).

Definition sorted_by : list A -> Prop := StronglySorted (fun x y => ord_le (key x) (key y)).
Definition strictly_sorted_by : list A -> Prop :=
  StronglySorted (fun x y => ord_lt (key x) (key y)).

Lemma insert_by_Permutation x l : insert_by key x l ≡ₚ x :: l.
Proof.
  induction l as [|y l IH]; cbn; [done|].
  destruct (cmp (key x) (key y)); try done. rewrite IH. apply Permutation_swap.
Qed.
Lemma sort_by_Permutation l : sort_by key l ≡ₚ l.
Proof. induction l as [|x l IH]; cbn; [done|]. by rewrite insert_by_Permutation, IH. Qed.

Lemma insert_by_sorted x l : sorted_by l -> sorted_by (insert_by key x l).
Proof.
  induction 1 as [|y l Hl IH Hy]; cbn; [repeat constructor|].
  destruct (cmp (key x) (key y)) eqn:Hxy.
  1,2: constructor; [by constructor|]; constructor; [unfold ord_le; congruence|];
    eapply Forall_impl; [exact Hy|]; cbn; intros z Hz;
    (eapply ord_le_trans; [|exact Hz]); unfold ord_le; congruence.
  constructor; [done|]. rewrite insert_by_Permutation. constructor; [|done].
  unfold ord_le. rewrite cmp_opp, Hxy. done.
Qed.
Lemma sort_by_sorted l : sorted_by (sort_by key l).
Proof. induction l; cbn; [constructor | by apply insert_by_sorted]. Qed.

Lemma strictly_sorted_sorted l : strictly_sorted_by l -> sorted_by l.
Proof.
  induction 1 as [|x l _ IH Hx]; constructor; [done|].
  eapply Forall_impl; [exact Hx|]. intros y. apply ord_lt_le.
Qed.
Lemma strictly_sorted_NoDup l : strictly_sorted_by l -> NoDup (key <$> l).
Proof.
  induction 1 as [|x l _ IH Hx]; cbn; constructor; [|done].
  rewrite list_elem_of_fmap. intros (y & Heq & Hy).
  rewrite Forall_forall in Hx. specialize (Hx y Hy). rewrite Heq in Hx.
  by apply ord_lt_irrefl in Hx.
Qed.
Lemma sorted_NoDup_strict l : sorted_by l -> NoDup (key <$> l) -> strictly_sorted_by l.
Proof.
  induction 1 as [|x l _ IH Hx]; cbn; intros Hnd; constructor.
  - apply IH. by inversion Hnd.
  - apply NoDup_cons in Hnd as [Hnx _]. rewrite Forall_forall in *. intros y Hy.
    specialize (Hx y Hy). apply ord_le_cases in Hx as [|Heq]; [done|].
    destruct Hnx. rewrite list_elem_of_fmap. eauto.
Qed.
Lemma adjacent_duplicate_false `{EqDecision K} l :
  sorted_by l -> adjacent_duplicate key l = false <-> NoDup (key <$> l).
Proof.
  induction 1 as [|x l Hl IH Hx]; [cbn; split; [constructor|done]|].
  destruct l as [|y l]; [cbn; split; [intros _; repeat constructor; set_solver|done]|].
  change (adjacent_duplicate key (x :: y :: l))
    with (bool_decide (key x = key y) || adjacent_duplicate key (y :: l)).
  rewrite orb_false_iff, bool_decide_eq_false, IH.
  rewrite (fmap_cons key x), NoDup_cons.
  split; intros [Hn Hnd]; (split; [|done]).
  - intros (z & Heq & Hz)%list_elem_of_fmap. apply Hn.
    apply Forall_cons in Hx as [Hxy _].
    apply elem_of_cons in Hz as [->|Hz]; [done|].
    apply ord_le_antisym; [done|]. rewrite Heq.
    inversion Hl as [|? ? ? Hall]; subst. rewrite Forall_forall in Hall. by apply Hall.
  - intros Heq. apply Hn. rewrite Heq, fmap_cons. left.
Qed.

(** Two strictly sorted arrangements of the same elements are the same list:
    the canonical order does not depend on the order of the input. *)
Lemma strictly_sorted_unique l l' :
  strictly_sorted_by l -> strictly_sorted_by l' -> l ≡ₚ l' -> l = l'.
Proof.
  intros Hl. revert l'. induction Hl as [|x l Hl IH Hx]; intros l' Hl' Hp.
  { by apply Permutation_nil_l in Hp. }
  destruct Hl' as [|y l' Hl' Hy]; [by apply Permutation_nil_r in Hp|].
  rewrite Forall_forall in *.
  assert (x = y) as ->.
  { assert (x ∈ y :: l') as Hxin by (rewrite <- Hp; left).
    assert (y ∈ x :: l) as Hyin by (rewrite Hp; left).
    apply elem_of_cons in Hxin as [|Hxin]; [done|].
    apply elem_of_cons in Hyin as [|Hyin]; [done|].
    destruct (ord_lt_asym _ _ (Hx y Hyin) (Hy x Hxin)). }
  f_equal. apply IH; [done|]. by apply Permutation_cons_inv in Hp.
Qed.
Lemma sort_by_canonical `{EqDecision K} l l' :
  adjacent_duplicate key (sort_by key l) = false -> l ≡ₚ l' ->
  sort_by key l = sort_by key l'.
Proof.
  intros Hd Hp. apply adjacent_duplicate_false in Hd; [|apply sort_by_sorted].
  apply strictly_sorted_unique.
  - by apply sorted_NoDup_strict; [apply sort_by_sorted|].
  - apply sorted_NoDup_strict; [apply sort_by_sorted|].
    by rewrite sort_by_Permutation, <- Hp, <- (sort_by_Permutation l).
  - by rewrite !sort_by_Permutation.
Qed.

Lemma adjacent_duplicate_perm `{EqDecision K} l :
  adjacent_duplicate key (sort_by key l) = false <-> NoDup (key <$> l).
Proof.
  rewrite adjacent_duplicate_false by apply sort_by_sorted.
  by rewrite sort_by_Permutation.
Qed.
End sort_facts.

Lemma all_fresh_NoDup {A K} `{EqDecision K} (key : A -> K) seen l :
  all_fresh key seen l = true <-> NoDup (key <$> l) /\ (forall x, x ∈ l -> key x ∉ seen).
Proof.
  revert seen. induction l as [|x l IH]; intros seen; cbn.
  { split; [|done]. intros _. split; [constructor | set_solver]. }
  destruct (decide (key x ∈ seen)) as [Hin|Hin].
  - split; [done|]. intros [_ Hs]. exfalso. exact (Hs x (list_elem_of_here _ _) Hin).
  - rewrite IH, NoDup_cons. split.
    + intros [Hnd Hs]. split; [split|]; [|done|].
      * intros (y & Heq & Hy)%list_elem_of_fmap. apply (Hs y Hy). rewrite Heq. left.
      * intros y [->|Hy]%elem_of_cons; [done|]. specialize (Hs y Hy). set_solver.
    + intros [[Hx Hnd] Hs]. split; [done|]. intros y Hy [Heq|Hys]%elem_of_cons.
      * apply Hx. rewrite <- Heq. by apply list_elem_of_fmap_2.
      * apply (Hs y); [by right | done].
Qed.

Lemma NoDup_key_inj {A B} (f : A -> B) (l : list A) x y :
  NoDup (f <$> l) -> x ∈ l -> y ∈ l -> f x = f y -> x = y.
Proof.
  intros Hnd (i & Hi)%list_elem_of_lookup (j & Hj)%list_elem_of_lookup Heq.
  assert (i = j) as ->.
  { apply (NoDup_lookup _ _ _ (f x) Hnd); rewrite list_lookup_fmap; [by rewrite Hi|by rewrite Hj; cbn; rewrite Heq]. }
  congruence.
Qed.
Lemma list_filter_fmap {A B} (f : A -> B) (p : B -> bool) (l : list A) :
  List.filter p (f <$> l) = f <$> List.filter (fun x => p (f x)) l.
Proof. induction l as [|x l IH]; [done|]. cbn. destruct (p (f x)); cbn; by rewrite IH. Qed.
Lemma list_filter_true {A} (l : list A) : List.filter (fun _ => true) l = l.
Proof. induction l as [|x l IH]; [done|]. cbn. by rewrite IH. Qed.
Lemma list_filter_ext {A} (p q : A -> bool) (l : list A) :
  (forall x, x ∈ l -> p x = q x) -> List.filter p l = List.filter q l.
Proof.
  induction l as [|x l IH]; intros H; [done|]. cbn. rewrite (H x) by (by left). rewrite IH; [done|]. intros y Hy. apply H. by right.
Qed.

Lemma elem_of_list_filter {A} (p : A -> bool) (l : list A) x :
  x ∈ List.filter p l <-> x ∈ l /\ p x = true.
Proof. by rewrite !list_elem_of_In, filter_In. Qed.
Lemma NoDup_fmap_filter {A B} (f : A -> B) (p : A -> bool) (l : list A) :
  NoDup (f <$> l) -> NoDup (f <$> List.filter p l).
Proof.
  induction l as [|x l IH]; cbn; intros Hnd; [constructor|].
  apply NoDup_cons in Hnd as [Hni Hnd]. destruct (p x); [|by apply IH].
  cbn. constructor; [|by apply IH]. intros (y & Heq & [Hy _]%elem_of_list_filter)%list_elem_of_fmap.
  apply Hni, list_elem_of_fmap. eauto.
Qed.
Lemma NoDup_list_filter {A} (p : A -> bool) (l : list A) : NoDup l -> NoDup (List.filter p l).
Proof. intros H. rewrite <- (list_fmap_id (List.filter p l)). apply NoDup_fmap_filter. by rewrite list_fmap_id. Qed.

Section search_facts.
  Context {A K : Type} {ordK : Ord K} {lawsK : OrdLaws K} (key : A -> K) (target : K).
  Implicit Types (l : list A) (i : nat).

Lemma strictly_sorted_lookup l i j x y :
  strictly_sorted_by key l -> l !! i = Some x -> l !! j = Some y -> i < j ->
  ord_lt (key x) (key y).
Proof.
  intros Hl. revert i j. induction Hl as [|z l _ IH Hz]; intros i j Hi Hj Hij; [done|].
  destruct j as [|j]; [lia|]. cbn in Hj. destruct i as [|i]; cbn in Hi.
  - simplify_eq. rewrite Forall_forall in Hz. by eapply Hz, list_elem_of_lookup_2.
  - apply (IH i j); [done|done|lia].
Qed.

Lemma bsearch_base_spec l i x fuel base size :
  strictly_sorted_by key l -> l !! i = Some x -> key x = target ->
  base <= i < base + size -> size <= fuel ->
  bsearch_base (fun y => cmp (key y) target) l fuel base size = i.
Proof.
  intros Hl Hi Hx. revert base size.
  induction fuel as [|fuel IH]; intros base size Hr Hf; [lia|]. cbn [bsearch_base].
  destruct (Nat.leb_spec size 1) as [Hs|Hs]; [lia|].
  pose proof (Nat.div_mod_eq size 2) as Hdm.
  pose proof (Nat.mod_upper_bound size 2 ltac:(lia)) as Hm.
  set (half := size `div` 2) in *. assert (1 <= half /\ half + half <= size) as [Hh1 Hh2] by lia. clearbody half.
  destruct (l !! (base + half)) as [y|] eqn:Hy; cbn.
  - destruct (cmp (key y) target) eqn:Hc.
    + apply cmp_eq_iff in Hc.
      assert (base + half = i) as Heq.
      { destruct (decide (base + half < i)) as [Hlt|]; [|destruct (decide (i < base + half)) as [Hlt|]; [|lia]].
        - pose proof (strictly_sorted_lookup _ _ _ _ _ Hl Hy Hi Hlt) as Hor.
          rewrite Hc, Hx in Hor. by apply ord_lt_irrefl in Hor.
        - pose proof (strictly_sorted_lookup _ _ _ _ _ Hl Hi Hy Hlt) as Hor.
          rewrite Hc, Hx in Hor. by apply ord_lt_irrefl in Hor. }
      apply IH; lia.
    + apply IH; [|lia]. destruct (decide (base + half <= i)); [lia|]. exfalso.
      pose proof (strictly_sorted_lookup _ _ _ _ _ Hl Hi Hy ltac:(lia)) as Hor.
      rewrite Hx in Hor. exact (ord_lt_asym _ _ Hor Hc).
    + apply IH; [|lia]. destruct (decide (i < base + half)); [lia|]. exfalso.
      rewrite <- Hx in Hc. apply cmp_gt_lt in Hc.
      destruct (decide (base + half = i)) as [Heq|Hne].
      * rewrite Heq, Hi in Hy. simplify_eq. by apply (ord_lt_irrefl (key y)).
      * exact (ord_lt_asym _ _ Hc (strictly_sorted_lookup _ _ _ _ _ Hl Hy Hi ltac:(lia))).
  - apply lookup_ge_None in Hy. apply lookup_lt_Some in Hi. apply IH; lia.
Qed.

(** Binary search over a strictly sorted slice is membership by key. *)
Lemma binary_search_spec l x :
  strictly_sorted_by key l ->
  binary_search (fun y => cmp (key y) target) l = Some x <-> x ∈ l /\ key x = target.
Proof.
  intros Hl. unfold binary_search. split.
  - destruct (l !! _) as [y|] eqn:Hy; [|done].
    destruct (cmp (key y) target) eqn:Hc; intros [= ->].
    apply cmp_eq_iff in Hc. split; [by eapply list_elem_of_lookup_2 | done].
  - intros [[i Hi]%list_elem_of_lookup Hx].
    rewrite (bsearch_base_spec l i x); try done.
    + rewrite Hi, Hx, cmp_refl. done.
    + apply lookup_lt_Some in Hi. lia.
Qed.

Lemma binary_search_None l :
  strictly_sorted_by key l ->
  binary_search (fun y => cmp (key y) target) l = None <-> (forall x, x ∈ l -> key x <> target).
Proof.
  intros Hl. rewrite eq_None_not_Some. split.
  - intros Hn x Hx Hk. apply Hn. exists x. by apply binary_search_spec.
  - intros Hn [x [Hx Hk]%binary_search_spec]; [|done]. by apply (Hn x).
Qed.
End search_facts.

(** ** Lemmas: ordered maps *)

Section btree_facts.
  Context {K V : Type} `{EqDecision K} {countK : Countable K} {ordK : Ord K} {lawsK : OrdLaws K}.
  Implicit Types (m : gmap K V).

Lemma elem_of_btree_entries m kv : kv ∈ btree_entries m <-> m !! kv.1 = Some kv.2.
Proof.
  unfold btree_entries. rewrite sort_by_Permutation. destruct kv as [k v].
  apply elem_of_map_to_list.
Qed.
Lemma elem_of_btree_values m v : v ∈ btree_values m <-> exists k, m !! k = Some v.
Proof.
  unfold btree_values. rewrite list_elem_of_fmap. split.
  - intros ([k v'] & -> & Hkv%elem_of_btree_entries). eauto.
  - intros [k Hk]. exists (k, v). split; [done|]. by apply elem_of_btree_entries.
Qed.
Lemma btree_entries_NoDup m : NoDup (btree_entries m).*1.
Proof. unfold btree_entries. rewrite sort_by_Permutation. apply NoDup_fst_map_to_list. Qed.
Lemma btree_entries_sorted m : strictly_sorted_by fst (btree_entries m).
Proof. apply sorted_NoDup_strict; [apply sort_by_sorted | apply btree_entries_NoDup]. Qed.
Lemma btree_entries_Permutation m : btree_entries m ≡ₚ map_to_list m.
Proof. apply sort_by_Permutation. Qed.
Lemma btree_list_to_map m : (list_to_map (btree_entries m) : gmap K V) = m.
Proof.
  transitivity (list_to_map (map_to_list m) : gmap K V); [|apply list_to_map_to_list].
  apply list_to_map_proper.
  - apply btree_entries_NoDup.
  - apply btree_entries_Permutation.
Qed.
Lemma btree_values_Permutation m : btree_values m ≡ₚ (map_to_list m).*2.
Proof. unfold btree_values. by rewrite btree_entries_Permutation. Qed.
(** Values stored under their own key. *)
Lemma btree_values_keys (key : V -> K) m :
  (forall k v, m !! k = Some v -> key v = k) -> key <$> btree_values m = (btree_entries m).*1.
Proof.
  intros Hkey. unfold btree_values. rewrite <- list_fmap_compose.
  apply list_fmap_ext. intros i [k v] Hi. apply Hkey.
  apply list_elem_of_lookup_2 in Hi. by apply elem_of_btree_entries in Hi.
Qed.
Lemma btree_values_keys_NoDup (key : V -> K) m :
  (forall k v, m !! k = Some v -> key v = k) -> NoDup (key <$> btree_values m).
Proof. intros Hkey. rewrite btree_values_keys by done. apply btree_entries_NoDup. Qed.
(** Updating values in place keeps the order of the entries. *)
Lemma btree_entries_imap {W} (f : K -> V -> W) m :
  btree_entries (map_imap (fun k v => Some (f k v)) m) =
  (fun kv => (kv.1, f kv.1 kv.2)) <$> btree_entries m.
Proof.
  apply (strictly_sorted_unique fst).
  - apply sorted_NoDup_strict; [apply sort_by_sorted|].
    unfold btree_entries. rewrite sort_by_Permutation. apply NoDup_fst_map_to_list.
  - pose proof (btree_entries_sorted m) as Hs. induction Hs as [|kv l _ IH Hx]; cbn; constructor; [done|].
    apply Forall_forall. intros kw (kv' & -> & Hin)%list_elem_of_fmap. by apply (proj1 (Forall_forall _ _) Hx kv').
  - unfold btree_entries at 1. rewrite sort_by_Permutation. apply NoDup_Permutation.
    + apply NoDup_map_to_list.
    + eapply (NoDup_fmap_1 fst). rewrite <- list_fmap_compose. apply btree_entries_NoDup.
    + intros [k w]. rewrite elem_of_map_to_list, map_lookup_imap, list_elem_of_fmap. split.
      * intros (v & Hv & [= <-])%bind_Some. exists (k, v). split; [done|]. by apply elem_of_btree_entries.
      * intros ([k' v] & [= -> ->] & Hv%elem_of_btree_entries). cbn in *. by rewrite Hv.
Qed.
End btree_facts.

(** ** Lemmas: sums *)

Section sum_facts.
  Context {A : Type}.
  Implicit Types (f g : A -> N) (l : list A).

Lemma sum_of_cons f x l : sum_of f (x :: l) = (f x + sum_of f l)%N.
Proof. done. Qed.
Lemma sum_of_Permutation f l l' : l ≡ₚ l' -> sum_of f l = sum_of f l'.
Proof. induction 1; rewrite ?sum_of_cons in *; lia. Qed.
Lemma sum_of_ext f g l : (forall x, x ∈ l -> f x = g x) -> sum_of f l = sum_of g l.
Proof. induction l; intros Hfg; [done|]. rewrite !sum_of_cons. f_equal; set_solver. Qed.
Lemma sum_of_le f g l : (forall x, x ∈ l -> f x <= g x)%N -> (sum_of f l <= sum_of g l)%N.
Proof. induction l; intros Hfg; [done|]. rewrite !sum_of_cons. apply N.add_le_mono; set_solver. Qed.
Lemma sum_of_add f g l : sum_of (fun x => f x + g x)%N l = (sum_of f l + sum_of g l)%N.
Proof. induction l; rewrite ?sum_of_cons; [done | lia]. Qed.
Lemma sum_of_elem f l x : x ∈ l -> (f x <= sum_of f l)%N.
Proof.
  induction l as [|y l IH]; [by intros ?%not_elem_of_nil|]. rewrite sum_of_cons.
  intros [->|Hx%IH]%elem_of_cons; lia.
Qed.
Lemma sum_of_zero f l : (forall x, x ∈ l -> f x = 0%N) -> sum_of f l = 0%N.
Proof.
  induction l as [|x l IH]; intros Hf; [done|]. rewrite sum_of_cons, (Hf x) by left.
  rewrite IH; set_solver.
Qed.
Lemma sum_of_app f l l' : sum_of f (l ++ l') = (sum_of f l + sum_of f l')%N.
Proof. induction l; cbn [app]; rewrite ?sum_of_cons; [done | lia]. Qed.
Lemma sum_of_filter f (p : A -> bool) l :
  sum_of f (List.filter p l) = sum_of (fun x => if p x then f x else 0%N) l.
Proof. induction l as [|x l IH]; cbn; [done|]. destruct (p x); cbn in *; unfold sum_of in *; cbn; lia. Qed.
Lemma sum_of_fmap {B} (h : B -> A) f (l : list B) : sum_of f (h <$> l) = sum_of (fun x => f (h x)) l.
Proof. induction l as [|x l IH]; [done|]. rewrite fmap_cons. cbn. unfold sum_of in *. cbn. by rewrite IH. Qed.
End sum_facts.

Section map_sum_facts.
  Context {K V : Type} `{EqDecision K} {countK : Countable K}.
  Implicit Types (f g : K -> V -> N) (m : gmap K V).

Lemma map_sum_empty f : map_sum f ∅ = 0%N.
Proof. unfold map_sum. by rewrite map_to_list_empty. Qed.
Lemma map_sum_insert_new f m k v :
  m !! k = None -> map_sum f (<[k:=v]> m) = (f k v + map_sum f m)%N.
Proof.
  intros Hk. unfold map_sum. by rewrite (sum_of_Permutation _ _ _ (map_to_list_insert m k v Hk)).
Qed.
Lemma map_sum_delete f m k v :
  m !! k = Some v -> map_sum f m = (f k v + map_sum f (delete k m))%N.
Proof.
  intros Hk. rewrite <- (map_sum_insert_new f (delete k m) k v) by apply lookup_delete_eq.
  by rewrite insert_delete_id.
Qed.
Lemma map_sum_insert f m k v v' :
  m !! k = Some v -> (map_sum f (<[k:=v']> m) + f k v = map_sum f m + f k v')%N.
Proof.
  intros Hk. rewrite (map_sum_delete f m k v Hk).
  rewrite <- insert_delete_eq, map_sum_insert_new by apply lookup_delete_eq. lia.
Qed.
Lemma map_sum_ext f g m :
  (forall k v, m !! k = Some v -> f k v = g k v) -> map_sum f m = map_sum g m.
Proof.
  intros Hfg. apply sum_of_ext. intros [k v] Hkv%elem_of_map_to_list. by apply Hfg.
Qed.
Lemma map_sum_elem f m k v : m !! k = Some v -> (f k v <= map_sum f m)%N.
Proof. intros Hk. rewrite (map_sum_delete f m k v Hk). lia. Qed.
Lemma map_sum_zero f m : (forall k v, m !! k = Some v -> f k v = 0%N) -> map_sum f m = 0%N.
Proof.
  intros Hf. apply sum_of_zero. intros [k v] Hkv%elem_of_map_to_list. by apply Hf.
Qed.
Lemma map_sum_le f g m :
  (forall k v, m !! k = Some v -> (f k v <= g k v)%N) -> (map_sum f m <= map_sum g m)%N.
Proof.
  intros Hfg. apply sum_of_le. intros [k v] Hkv%elem_of_map_to_list. by apply Hfg.
Qed.
Lemma map_sum_add f g m :
  map_sum (fun k v => f k v + g k v)%N m = (map_sum f m + map_sum g m)%N.
Proof. apply (sum_of_add (fun kv => f kv.1 kv.2) (fun kv => g kv.1 kv.2)). Qed.
Lemma map_sum_fmap {W} (h : V -> W) (f : K -> W -> N) m :
  map_sum f (h <$> m) = map_sum (fun k v => f k (h v)) m.
Proof. unfold map_sum. rewrite map_to_list_fmap, sum_of_fmap. apply sum_of_ext. by intros []. Qed.
Lemma sum_btree_values {ordK : Ord K} {lawsK : OrdLaws K} (f : V -> N) m :
  sum_of f (btree_values m) = map_sum (fun _ v => f v) m.
Proof.
  unfold btree_values, map_sum. rewrite sum_of_fmap.
  apply sum_of_Permutation, btree_entries_Permutation.
Qed.
End map_sum_facts.

(** ** Reachability

    The states a component can be in are those some sequence of operations
    leads to; an invariant of every operation holds of them. *)
Lemma rtc_invariant {S} (step : relation S) (I : S -> Prop) s s' :
  (forall x y, I x -> step x y -> I y) -> rtc step s s' -> I s -> I s'.
Proof. intros Hstep. induction 1; eauto. Qed.

(** ** Automation *)

Create HintDb ariadnion.
#[export] Hint Resolve preserves_ret preserves_fail preserves_lift preserves_query
  preserves_get preserves_bind preserves_attempt preserves_for_each : ariadnion.
#[export] Hint Resolve ord_lt_irrefl ord_lt_trans ord_le_refl ord_lt_le : ariadnion.
#[export] Hint Rewrite @ok_or_Ok @ok_or_Err @reject_if_Ok @reject_if_Err
  @checked_add_Some @checked_add_None @checked_sub_Some @checked_sub_None
  @checked_mul_Some @checked_mul_None : ariadnion.

(** Take a run of an operation apart: one hypothesis per step it made. *)
Ltac step_run :=
  match goal with
  | H : (_ ≫= _) _ = (_, _) |- _ =>
      let Hr := fresh "Hr" in
      apply act_bind_inv in H; destruct H as [(? & ? & ? & ?) | (? & ? & Hr)];
      [|first [discriminate Hr | injection Hr as Hr; subst | subst]]
  | H : (let _ := _ in _) _ = (_, _) |- _ => cbv zeta in H
  | H : (_ ≫= _) = Ok _ |- _ =>
      apply result_bind_inv in H; destruct H as [(? & ? & ?) | (? & ? & [=])]
  | H : (_ ≫= _) = Err _ |- _ =>
      apply result_bind_inv in H; destruct H as [(? & ? & ?) | (? & ? & [= <-])]
  | H : lift _ _ = (_, _) |- _ => unfold lift in H; injection H as <- H
  | H : query _ _ = (_, _) |- _ => unfold query in H; injection H as <- H
  | H : get _ = (_, _) |- _ => unfold get in H; first [discriminate H | injection H as <- <-]
  | H : put _ _ = (_, _) |- _ => unfold put in H; first [discriminate H | injection H as <- <-]
  | H : modify _ _ = (_, _) |- _ => unfold modify in H; first [discriminate H | injection H as <- <-]
  | H : fail _ _ = (_, _) |- _ => unfold fail in H; first [discriminate H | injection H as <- <-]
  | H : mret _ _ = (_, _) |- _ => unfold mret, act_ret in H; first [discriminate H | injection H as <- <-]
  | H : mret _ = Ok _ |- _ => unfold mret, result_ret in H; injection H as <-
  | H : mret _ = Err _ |- _ => discriminate H
  | H : reject_if _ _ = Ok _ |- _ => apply reject_if_Ok in H
  | H : reject_if _ _ = Err _ |- _ => apply reject_if_Err in H; destruct H as [H ->]
  | H : ok_or _ _ = Ok _ |- _ => apply ok_or_Ok in H
  | H : ok_or _ _ = Err _ |- _ => apply ok_or_Err in H; destruct H as [H ->]
  | H : checked_add _ _ _ = Some _ |- _ => apply checked_add_Some in H; destruct H as [-> H]
  | H : checked_sub _ _ = Some _ |- _ => apply checked_sub_Some in H; destruct H as [-> H]
  end.
Ltac run_steps := repeat step_run.

(** Turn the boolean guards of the code into propositions. *)
Ltac tidy_step :=
  match goal with
  | u : unit |- _ => destruct u
  | H : negb _ = false |- _ => apply negb_false_iff in H
  | H : negb _ = true |- _ => apply negb_true_iff in H
  | H : bool_decide _ = true |- _ => apply bool_decide_eq_true in H
  | H : bool_decide _ = false |- _ => apply bool_decide_eq_false in H
  | H : (_ =? _)%N = true |- _ => apply N.eqb_eq in H
  | H : (_ =? _)%N = false |- _ => apply N.eqb_neq in H
  | H : (_ <? _)%N = true |- _ => apply N.ltb_lt in H
  | H : (_ <? _)%N = false |- _ => apply N.ltb_ge in H
  | H : (_ <=? _)%N = true |- _ => apply N.leb_le in H
  | H : (_ <=? _)%N = false |- _ => apply N.leb_gt in H
  | H : _ && _ = true |- _ => apply andb_true_iff in H; destruct H
  | H : _ || _ = false |- _ => apply orb_false_iff in H; destruct H
  | H : ~ (_ <> _) |- _ => apply dec_stable in H
  end.
Ltac tidy := repeat tidy_step.
