(* ===== verification/CoreTypes.v ===== *)
(** * Core errors, identifiers and versions

    Models [crates/ariadnion-core/src/error.rs] and [ids.rs], and the
    [bounded_id!] identifiers of [ariadnion-account-domain].  Every identity of
    the system is an opaque validated byte string; one family of types, indexed
    by the kind of identity, carries their equality, order and countability.
    The properties are the exact acceptance conditions of the parsers and the
    round trips of the two version formats. *)

From Stdlib Require Import Ascii.
From S2P Require Import Prelude.

(** ** Errors ([error.rs]) *)

Inductive ErrorCategory := InvalidRequest | CategoryConflict | Interrupted | Availability | CategoryInternal.

Inductive ErrorCode :=
| InvalidArgument | Conflict | Cancelled | DeadlineExceeded | Unavailable
| ResourceExhausted | Internal.

#[export] Instance ErrorCode_eq_dec : EqDecision ErrorCode.
Proof. solve_decision. Defined.

Record ErrorMetadata := {
  em_machine_code : string;
  em_category : ErrorCategory;
  em_public_message : string;
}.

Definition ERROR_METADATA : list ErrorMetadata := [
  {| em_machine_code := "core.invalid_argument"; em_category := InvalidRequest;
     em_public_message := "The request contains an invalid value." |};
  {| em_machine_code := "core.conflict"; em_category := CategoryConflict;
     em_public_message := "The requested operation conflicts with current state." |};
  {| em_machine_code := "core.cancelled"; em_category := Interrupted;
     em_public_message := "The operation was cancelled." |};
  {| em_machine_code := "core.deadline_exceeded"; em_category := Interrupted;
     em_public_message := "The operation exceeded its deadline." |};
  {| em_machine_code := "core.unavailable"; em_category := Availability;
     em_public_message := "The requested capability is unavailable." |};
  {| em_machine_code := "core.resource_exhausted"; em_category := Availability;
     em_public_message := "A bounded resource budget was exhausted." |};
  {| em_machine_code := "core.internal"; em_category := CategoryInternal;
     em_public_message := "The platform could not complete the operation." |} ].

(** [self as usize], the [repr(u8)] discriminant. *)
Definition ErrorCode_index (c : ErrorCode) : nat :=
  match c with
  | InvalidArgument => 0 | Conflict => 1 | Cancelled => 2 | DeadlineExceeded => 3
  | Unavailable => 4 | ResourceExhausted => 5 | Internal => 6
  end.

(** Indexing out of range would panic, hence the option. *)
Definition metadata (c : ErrorCode) : option ErrorMetadata := ERROR_METADATA !! ErrorCode_index c.
Definition machine_code (c : ErrorCode) : option string := em_machine_code <$> metadata c.
Definition category (c : ErrorCode) : option ErrorCategory := em_category <$> metadata c.
Definition public_message (c : ErrorCode) : option string := em_public_message <$> metadata c.

Record CoreError := mk_CoreError { ce_code : ErrorCode; ce_internal_context : option string }.
Definition CoreError_from_code (c : ErrorCode) : CoreError := mk_CoreError c None.
Definition with_internal_context (e : CoreError) (context : string) : CoreError :=
  mk_CoreError (ce_code e) (Some context).
Definition has_internal_context (e : CoreError) : bool := bool_decide (is_Some (ce_internal_context e)).

Record ExternalError := mk_ExternalError { ee_code : ErrorCode }.
Definition external (e : CoreError) : ExternalError := mk_ExternalError (ce_code e).

(** ** Bytes *)

Definition byte (a : ascii) : N := N_of_ascii a.
Definition in_range (lo hi n : N) : bool := (lo <=? n)%N && (n <=? hi)%N.
Definition is_ascii_byte (a : ascii) : bool := (byte a <? 128)%N.
Definition is_ascii_uppercase (a : ascii) : bool := in_range 65 90 (byte a).
Definition is_ascii_lowercase (a : ascii) : bool := in_range 97 122 (byte a).
Definition is_ascii_digit (a : ascii) : bool := in_range 48 57 (byte a).
Definition is_ascii_alphanumeric (a : ascii) : bool :=
  is_ascii_uppercase a || is_ascii_lowercase a || is_ascii_digit a.
Definition is_ascii_control (a : ascii) : bool := (byte a <? 32)%N || (byte a =? 127)%N.
(** [(0x21..=0x7e).contains(&byte)]. *)
Definition is_visible_ascii (a : ascii) : bool := in_range 33 126 (byte a).

Definition all_bytes (p : ascii -> bool) (s : string) : bool := forallb p (Stdlib.Strings.String.list_ascii_of_string s).
Definition any_byte (p : ascii -> bool) (s : string) : bool := existsb p (Stdlib.Strings.String.list_ascii_of_string s).
Definition is_ascii (s : string) : bool := all_bytes is_ascii_byte s.
Definition byte_len (s : string) : N := N.of_nat (String.length s).
Definition is_empty (s : string) : bool := (byte_len s =? 0)%N.

(** [value.split(separator)]: always at least one segment. *)
Fixpoint split_on (separator : ascii) (s : string) : list string :=
  match s with
  | EmptyString => [EmptyString]
  | String a s' =>
      if Ascii.eqb a separator then EmptyString :: split_on separator s'
      else match split_on separator s' with
           | segment :: rest => String a segment :: rest
           | [] => [String a EmptyString]
           end
  end.

Fixpoint strip_prefix (prefix s : string) : option string :=
  match prefix, s with
  | EmptyString, _ => Some s
  | String a p', String b s' => if Ascii.eqb a b then strip_prefix p' s' else None
  | String _ _, EmptyString => None
  end.

(** [value.split_once(pattern)]: around the first occurrence. *)
Fixpoint split_once (pattern s : string) : option (string * string) :=
  match strip_prefix pattern s with
  | Some rest => Some (EmptyString, rest)
  | None =>
      match s with
      | EmptyString => None
      | String a s' =>
          match split_once pattern s' with
          | Some (l, r) => Some (String a l, r)
          | None => None
          end
      end
  end.

(** ** Identifiers ([ids.rs], [ariadnion-account-domain/src/lib.rs]) *)

Inductive id_kind :=
| ModuleKind | CapabilityKind | TenantKind | RequestKind | AttemptKind | TraceKind
| PrincipalKind | AccountKind | ProviderKind
| BudgetPolicyKind | GroupKind | ReservationKind
| TenantLimitKind | AccountLimitKind | UserLimitKind | ApiKeyLimitKind | ModelLimitKind
| QuotaWindowKind | CandidateKind | CostCandidateKind | AffinityCandidateKind
| UserKind | OrganizationKind | TeamKind | MembershipKind | GovernanceRequestKind
| RoleKind | AssignmentKind | PermissionKind | ResourceKind | ResourceKindKind | DecisionKind
| SessionKind | SessionFamilyKind | ApiKeyKind | InvitationKind | AuditEventKind | TransferKind.

Record Id (k : id_kind) := MkId { id_str : string }.
Arguments MkId {k} _.
Arguments id_str {k} _.

#[export] Instance Id_eq_dec k : EqDecision (Id k).
Proof. solve_decision. Defined.
#[export] Program Instance Id_countable k : Countable (Id k) :=
  inj_countable' id_str MkId _.
Next Obligation. by intros k []. Qed.
#[export] Instance Id_ord k : Ord (Id k) := fun x y => cmp (id_str x) (id_str y).

Definition ModuleId := Id ModuleKind.
Definition CapabilityId := Id CapabilityKind.
Definition TenantId := Id TenantKind.
Definition AccountId := Id AccountKind.
Definition ProviderId := Id ProviderKind.
Definition PrincipalId := Id PrincipalKind.

(** The authenticated identity of a request ([context.rs]). *)
Record PrincipalContext := mk_PrincipalContext { principal_tenant_id : TenantId; principal_id : PrincipalId }.
#[export] Instance PrincipalContext_eq_dec : EqDecision PrincipalContext.
Proof. solve_decision. Defined.

Definition MODULE_ID_LIMIT : N := 160.
Definition CAPABILITY_ID_LIMIT : N := 128.
Definition CONTEXT_ID_LIMIT : N := 128.

Definition invalid_id (reason : string) : CoreError :=
  with_internal_context (CoreError_from_code InvalidArgument) reason.

Definition validate_id_shape (value : string) (limit : N) : result CoreError unit :=
  reject_if (is_empty value) (invalid_id "identifier is empty") ;;
  reject_if (limit <? byte_len value)%N (invalid_id "identifier exceeds its byte limit").

Definition is_separator_byte (a : ascii) : bool :=
  existsb (Ascii.eqb a) ["."; "-"; "_"; ":"]%char.
Definition is_disallowed_id_byte (a : ascii) : bool :=
  negb (is_ascii_alphanumeric a) && negb (is_separator_byte a).

Definition validate_id_alphabet (value : string) : result CoreError unit :=
  reject_if (negb (is_ascii value)) (invalid_id "identifier must be ASCII") ;;
  reject_if (any_byte is_disallowed_id_byte value)
    (invalid_id "identifier contains a disallowed byte").

Definition validate_common_id (value : string) (limit : N) : result CoreError unit :=
  validate_id_shape value limit ;; validate_id_alphabet value.

Definition is_disallowed_segment_byte (a : ascii) : bool :=
  negb (is_ascii_lowercase a) && negb (is_ascii_digit a)
  && negb (Ascii.eqb a "-") && negb (Ascii.eqb a "_").

Definition starts_with_letter (segment : string) : bool :=
  match segment with String a _ => is_ascii_lowercase a | EmptyString => false end.

Definition validate_dotted_segment (segment : string) : result CoreError unit :=
  reject_if (is_empty segment) (invalid_id "dotted identifier contains an empty segment") ;;
  reject_if (negb (starts_with_letter segment))
    (invalid_id "dotted identifier segment must start with a letter") ;;
  reject_if (any_byte is_disallowed_segment_byte segment)
    (invalid_id "dotted identifier segment contains a disallowed byte").

(** The loop over the segments, with its running count. *)
Fixpoint validate_segments (segments : list string) (segment_count : N) : result CoreError N :=
  match segments with
  | [] => Ok segment_count
  | segment :: rest =>
      validate_dotted_segment segment ;;
      validate_segments rest (saturating_add u64_max segment_count 1)
  end.

Definition validate_dotted_id (value : string) (limit : N) : result CoreError unit :=
  validate_common_id value limit ;;
  segment_count ← validate_segments (split_on "." value) 0;
  reject_if (segment_count <? 2)%N (invalid_id "dotted identifier needs at least two segments").

Definition ModuleId_parse (value : string) : result CoreError ModuleId :=
  validate_dotted_id value MODULE_ID_LIMIT ;; mret (MkId value).
Definition CapabilityId_parse (value : string) : result CoreError CapabilityId :=
  validate_dotted_id value CAPABILITY_ID_LIMIT ;; mret (MkId value).
(** [define_context_id!]: tenants, requests, attempts, traces and principals. *)
Definition context_id_parse (k : id_kind) (value : string) : result CoreError (Id k) :=
  validate_common_id value CONTEXT_ID_LIMIT ;; mret (MkId value).

(** [bounded_id!] of the account domain and of the budget crate: the same
    alphabet and bound, reported with the crate's own error. *)
Definition MAX_ID_BYTES : N := 128.
Definition is_id_byte (a : ascii) : bool := is_ascii_alphanumeric a || is_separator_byte a.
Definition valid_id (value : string) : bool :=
  negb (is_empty value) && (byte_len value <=? MAX_ID_BYTES)%N
  && is_ascii value && all_bytes is_id_byte value.
Definition bounded_id_parse {E} (k : id_kind) (invalid : E) (value : string) : result E (Id k) :=
  reject_if (negb (valid_id value)) invalid ;; mret (MkId value).

(** ** Versions ([ids.rs]) *)

Record ModuleVersion := mk_ModuleVersion { major : N; minor : N; patch : N }.
Record AbiVersion := mk_AbiVersion { rust_contract : ModuleVersion; component_world_major : N }.

Definition digit_ascii (d : N) : ascii := ascii_of_N (48 + d).

(** Decimal formatting of an integer ([Display]); the fuel bounds its digits. *)
Fixpoint decimal (fuel : nat) (n : N) (acc : string) : string :=
  match fuel with
  | O => acc
  | S fuel' =>
      if (n <? 10)%N then String (digit_ascii n) acc
      else decimal fuel' (n / 10) (String (digit_ascii (n mod 10)) acc)
  end.
Definition display_u16 (n : N) : string := decimal 5 n "".

(** [str::parse::<u16>]: an optional [+], then digits, checked at every step. *)
Fixpoint parse_digits (max acc : N) (s : string) : option N :=
  match s with
  | EmptyString => Some acc
  | String a s' =>
      if is_ascii_digit a then
        shifted ← checked_mul max acc 10;
        next ← checked_add max shifted (byte a - 48)%N;
        parse_digits max next s'
      else None
  end.
Definition parse_u16 (s : string) : option N :=
  match s with
  | EmptyString => None
  | String a EmptyString => parse_digits u16_max 0 s
  | String a s' => if Ascii.eqb a "+" then parse_digits u16_max 0 s' else parse_digits u16_max 0 s
  end.

Definition display_ModuleVersion (v : ModuleVersion) : string :=
  (display_u16 (major v) +:+ "." +:+ display_u16 (minor v) +:+ "." +:+ display_u16 (patch v))%string.
Definition display_AbiVersion (v : AbiVersion) : string :=
  ("rust-" +:+ display_ModuleVersion (rust_contract v) +:+ "/wit-"
     +:+ display_u16 (component_world_major v))%string.

Definition parse_version_component (component : option string) : result CoreError N :=
  value ← ok_or component (invalid_id "module version component is missing");
  reject_if (is_empty value) (invalid_id "module version component is empty") ;;
  ok_or (parse_u16 value) (invalid_id "module version component is invalid").

Definition parse_module_version (value : string) : result CoreError ModuleVersion :=
  let components := split_on "." value in
  major ← parse_version_component (components !! 0);
  minor ← parse_version_component (components !! 1);
  patch ← parse_version_component (components !! 2);
  reject_if (bool_decide (is_Some (components !! 3)))
    (invalid_id "module version has too many components") ;;
  mret (mk_ModuleVersion major minor patch).

Definition AbiVersion_from_str (value : string) : result CoreError AbiVersion :=
  parts ← ok_or (remainder ← strip_prefix "rust-" value; split_once "/wit-" remainder)
            (invalid_id "ABI version prefix is invalid");
  rust_contract ← parse_module_version parts.1;
  component_world_major ← ok_or (parse_u16 parts.2)
            (invalid_id "ABI component-world version is invalid");
  mret (mk_AbiVersion rust_contract component_world_major).

(** The field widths of the two structs. *)
Definition ModuleVersion_wf (v : ModuleVersion) : Prop :=
  (major v <= u16_max /\ minor v <= u16_max /\ patch v <= u16_max)%N.
Definition AbiVersion_wf (v : AbiVersion) : Prop :=
  ModuleVersion_wf (rust_contract v) /\ (component_world_major v <= u16_max)%N.

(** The accepted identifiers, declaratively. *)
Definition common_id_spec (limit : N) (value : string) : Prop :=
  (1 <= byte_len value <= limit)%N /\ all_bytes is_id_byte value = true.
Definition dotted_segment_spec (segment : string) : Prop :=
  starts_with_letter segment = true /\ any_byte is_disallowed_segment_byte segment = false.
Definition dotted_id_spec (limit : N) (value : string) : Prop :=
  common_id_spec limit value /\
  2 <= length (split_on "." value) /\ Forall dotted_segment_spec (split_on "." value).

(** ** Lemmas *)

#[export] Instance Id_ord_laws k : OrdLaws (Id k).
Proof.
  split; unfold cmp, Id_ord.
  - intros [x] [y]; cbn. rewrite cmp_eq_iff. split; [congruence | by intros [= ->]].
  - intros [x] [y]. apply cmp_opp.
  - intros [x] [y] [z]. apply cmp_lt_trans.
Qed.

(** Formatting an error never depends on its private context. *)
Lemma external_redacts e context : external (with_internal_context e context) = external e.
Proof. done. Qed.
Lemma metadata_total c : is_Some (metadata c).
Proof. destruct c; eexists; reflexivity. Qed.
Lemma machine_code_injective c d : machine_code c = machine_code d -> c = d.
Proof. by destruct c, d. Qed.

Lemma id_byte_ascii a : is_id_byte a = true -> is_ascii_byte a = true.
Proof. destruct a as [[] [] [] [] [] [] [] []]; vm_compute; congruence. Qed.
Lemma all_bytes_impl p q s :
  (forall a, p a = true -> q a = true) -> all_bytes p s = true -> all_bytes q s = true.
Proof. unfold all_bytes. rewrite !forallb_forall. auto. Qed.
Lemma all_bytes_any p q s :
  (forall a, p a = negb (q a)) -> all_bytes p s = negb (any_byte q s).
Proof.
  intros Hpq. unfold all_bytes, any_byte. induction (Stdlib.Strings.String.list_ascii_of_string s); cbn; [done|].
  by rewrite Hpq, negb_orb, IHl.
Qed.
Lemma id_byte_disallowed a : is_id_byte a = negb (is_disallowed_id_byte a).
Proof. unfold is_id_byte, is_disallowed_id_byte. by rewrite <- negb_orb, negb_involutive. Qed.
Lemma is_empty_true s : is_empty s = true <-> byte_len s = 0%N.
Proof. unfold is_empty. apply N.eqb_eq. Qed.
Lemma is_empty_false s : is_empty s = false <-> (1 <= byte_len s)%N.
Proof. unfold is_empty. rewrite N.eqb_neq. lia. Qed.

Lemma validate_common_id_Ok value limit :
  validate_common_id value limit = Ok tt <-> common_id_spec limit value.
Proof.
  unfold validate_common_id, validate_id_shape, validate_id_alphabet, common_id_spec.
  destruct (is_empty value) eqn:He; cbn.
  { apply is_empty_true in He. split; [done | lia]. }
  apply is_empty_false in He. destruct (N.ltb_spec limit (byte_len value)) as [Hl|Hl]; cbn.
  { split; [done | lia]. }
  destruct (is_ascii value) eqn:Ha; cbn.
  - rewrite reject_if_Ok, (all_bytes_any _ _ _ id_byte_disallowed), negb_true_iff. intuition lia.
  - split; [done|]. intros [_ Hb]. apply (all_bytes_impl _ _ _ id_byte_ascii) in Hb.
    unfold is_ascii in Ha. congruence.
Qed.
Lemma valid_id_spec value : valid_id value = true <-> common_id_spec MAX_ID_BYTES value.
Proof.
  unfold valid_id, common_id_spec. rewrite !andb_true_iff, negb_true_iff, is_empty_false, N.leb_le.
  pose proof (all_bytes_impl _ _ value id_byte_ascii). unfold is_ascii. intuition lia.
Qed.

Lemma validate_dotted_segment_Ok segment :
  validate_dotted_segment segment = Ok tt <-> dotted_segment_spec segment.
Proof.
  unfold validate_dotted_segment, dotted_segment_spec.
  destruct segment as [|a segment]; [by cbn; naive_solver|].
  assert (is_empty (String a segment) = false) as -> by (apply is_empty_false; unfold byte_len; cbn; lia).
  cbn -[any_byte]. destruct (is_ascii_lowercase a); cbn -[any_byte]; [|naive_solver].
  rewrite reject_if_Ok. naive_solver.
Qed.
Lemma validate_segments_Ok segments n m :
  (n + len segments <= u64_max)%N ->
  validate_segments segments n = Ok m <-> Forall dotted_segment_spec segments /\ m = (n + len segments)%N.
Proof.
  unfold len. revert n. induction segments as [|x l IH]; intros n Hb; cbn.
  { split; [intros [= ->]; split; [constructor | lia] | intros [_ ->]; f_equal; lia]. }
  cbn in Hb. rewrite Forall_cons, <- validate_dotted_segment_Ok.
  destruct (validate_dotted_segment x) as [[]|]; cbn; [|naive_solver].
  unfold saturating_add. rewrite N.min_r, IH by lia. split; intros [H1 H2]; naive_solver lia.
Qed.
Lemma split_on_length c s : (len (split_on c s) <= byte_len s + 1)%N.
Proof.
  unfold len, byte_len. induction s as [|a s IH]; cbn; [lia|].
  destruct (Ascii.eqb a c); cbn; [lia|]. destruct (split_on c s); cbn in *; lia.
Qed.
Lemma validate_dotted_id_Ok value limit :
  (limit < u64_max)%N -> validate_dotted_id value limit = Ok tt <-> dotted_id_spec limit value.
Proof.
  intros Hlim. unfold validate_dotted_id, dotted_id_spec. rewrite <- validate_common_id_Ok.
  destruct (validate_common_id value limit) as [[]|] eqn:Hc; cbn; [|naive_solver].
  apply validate_common_id_Ok in Hc as [[_ Hlen] _].
  pose proof (split_on_length "." value) as Hs. set (segments := split_on "." value) in *.
  pose proof (fun m => validate_segments_Ok segments 0 m ltac:(lia)) as Hv.
  destruct (validate_segments segments 0) as [m|] eqn:He; cbn.
  - destruct (proj1 (Hv m) eq_refl) as [Hf ->]. rewrite reject_if_Ok, N.ltb_ge. unfold len.
    intuition lia.
  - split; [done|]. intros (_ & _ & Hf). discriminate (proj2 (Hv _) (conj Hf eq_refl)).
Qed.

(** Decimal digits read back what they were printed from. *)
Lemma digit_ascii_spec d : (d < 10)%N -> is_ascii_digit (digit_ascii d) = true /\ byte (digit_ascii d) = (48 + d)%N.
Proof.
  intros Hd. unfold is_ascii_digit, in_range, byte, digit_ascii. rewrite N_ascii_embedding by lia.
  split; [apply andb_true_iff; split; apply N.leb_le; lia | done].
Qed.
Lemma parse_digits_step max a d s :
  (d < 10)%N -> (a * 10 + d <= max)%N ->
  parse_digits max a (String (digit_ascii d) s) = parse_digits max (a * 10 + d) s.
Proof.
  intros Hd Hm. cbn. destruct (digit_ascii_spec d Hd) as [-> ->].
  unfold checked_mul, checked_add. rewrite (proj2 (N.leb_le (a * 10) max)) by lia.
  cbn. replace (48 + d - 48)%N with d by lia. by rewrite (proj2 (N.leb_le (a * 10 + d) max)) by lia.
Qed.
Lemma parse_digits_decimal max fuel n acc :
  (n <= max)%N -> (n < 10 ^ N.of_nat fuel)%N ->
  parse_digits max 0 (decimal fuel n acc) = parse_digits max n acc.
Proof.
  revert n acc. induction fuel as [|fuel IH]; intros n acc Hm Hf; cbn [decimal].
  { cbn in Hf. by replace n with 0%N by lia. }
  rewrite Nat2N.inj_succ, N.pow_succ_r' in Hf.
  pose proof (N.div_mod n 10 ltac:(lia)) as Hdm. pose proof (N.mod_lt n 10 ltac:(lia)).
  destruct (N.ltb_spec n 10).
  - rewrite parse_digits_step by lia. f_equal.
  - rewrite IH.
    + rewrite parse_digits_step by lia. f_equal. lia.
    + apply (N.le_trans _ n); [apply N.Div0.div_le_upper_bound; lia | done].
    + apply N.Div0.div_lt_upper_bound. lia.
Qed.

Lemma decimal_digits fuel n acc :
  all_bytes is_ascii_digit acc = true -> all_bytes is_ascii_digit (decimal fuel n acc) = true.
Proof.
  revert n acc. induction fuel as [|fuel IH]; intros n acc Ha; [done|]. cbn [decimal].
  destruct (N.ltb_spec n 10) as [Hn|Hn]; [|apply IH]; unfold all_bytes in *; cbn [forallb Stdlib.Strings.String.list_ascii_of_string];
    rewrite Ha, (proj1 (digit_ascii_spec _ ltac:(first [exact Hn | apply N.mod_lt; lia]))); done.
Qed.
Lemma decimal_shape n : exists a s, display_u16 n = String a s /\ is_ascii_digit a = true.
Proof.
  pose proof (decimal_digits 5 n ""%string eq_refl) as Hd. unfold display_u16.
  assert (decimal 5 n "" <> ""%string) as Hne.
  { intros He. cbn [decimal] in He.
    repeat match type of He with context [if ?b then _ else _] => destruct b; [discriminate|] end.
    discriminate. }
  destruct (decimal 5 n "") as [|a s]; [done|]. exists a, s. split; [done|].
  unfold all_bytes in Hd. cbn in Hd. by apply andb_true_iff in Hd as [].
Qed.

Lemma parse_display_u16 n : (n <= u16_max)%N -> parse_u16 (display_u16 n) = Some n.
Proof.
  intros Hn. pose proof (parse_digits_decimal u16_max 5 n "" Hn) as Hp.
  destruct (decimal_shape n) as (a & s & He & Ha). unfold display_u16 in He. rewrite He in Hp.
  unfold display_u16. rewrite He. unfold parse_u16.
  assert (Ascii.eqb a "+" = false) as ->.
  { destruct (Ascii.eqb_spec a "+"); [subst; discriminate | done]. }
  rewrite Hp by (unfold u16_max in Hn; cbn; lia). by destruct s.
Qed.
Lemma display_u16_not_empty n : is_empty (display_u16 n) = false.
Proof.
  destruct (decimal_shape n) as (a & s & -> & _). apply is_empty_false. unfold byte_len. cbn. lia.
Qed.

#[local] Arguments Ascii.eqb : simpl never.
#[local] Arguments display_u16 : simpl never.
#[local] Arguments is_empty : simpl never.
#[local] Arguments parse_u16 : simpl never.
#[local] Arguments parse_version_component : simpl never.
#[local] Arguments String.append _ _ : simpl nomatch.

(** Splitting at a separator that the segment does not contain. *)
Lemma split_on_app c p s :
  any_byte (Ascii.eqb c) p = false ->
  split_on c (p +:+ String c s) = p :: split_on c s.
Proof.
  unfold any_byte. induction p as [|a p IH]; cbn; intros Hp.
  - by rewrite Ascii.eqb_refl.
  - apply orb_false_iff in Hp as [Ha Hp]. rewrite Ascii.eqb_sym in Ha. by rewrite Ha, IH.
Qed.
Lemma split_on_single c p : any_byte (Ascii.eqb c) p = false -> split_on c p = [p].
Proof.
  unfold any_byte. induction p as [|a p IH]; cbn; intros Hp; [done|].
  apply orb_false_iff in Hp as [Ha Hp]. rewrite Ascii.eqb_sym in Ha. by rewrite Ha, IH.
Qed.
Lemma digits_no_byte c s :
  is_ascii_digit c = false -> all_bytes is_ascii_digit s = true -> any_byte (Ascii.eqb c) s = false.
Proof.
  unfold all_bytes, any_byte. intros Hc. induction s as [|a s IH]; cbn; [done|].
  intros [Ha Hs]%andb_true_iff. rewrite IH by done. destruct (Ascii.eqb_spec c a); [congruence | done].
Qed.
Lemma display_no_byte c n : is_ascii_digit c = false -> any_byte (Ascii.eqb c) (display_u16 n) = false.
Proof. intros Hc. by apply digits_no_byte, decimal_digits. Qed.

Lemma strip_prefix_app p s : strip_prefix p (p +:+ s) = Some s.
Proof. induction p as [|a p IH]; cbn; [done|]. by rewrite Ascii.eqb_refl. Qed.
Lemma any_byte_app p s t : any_byte p (s +:+ t) = any_byte p s || any_byte p t.
Proof. unfold any_byte. induction s as [|a s IH]; cbn; [done|]. by rewrite IH, orb_assoc. Qed.
Lemma split_once_app a p l r :
  any_byte (Ascii.eqb a) l = false ->
  split_once (String a p) (l +:+ String a p +:+ r) = Some (l, r).
Proof.
  unfold any_byte. induction l as [|b l IH]; intros Hl.
  - change (("" +:+ String a p +:+ r)%string) with (String a (p +:+ r)). cbn.
    by rewrite Ascii.eqb_refl, strip_prefix_app.
  - cbn in Hl. apply orb_false_iff in Hl as [Hb Hl]. cbn. rewrite Hb.
    specialize (IH Hl). cbn in IH. by rewrite IH.
Qed.

Lemma parse_component_display n :
  (n <= u16_max)%N -> parse_version_component (Some (display_u16 n)) = Ok n.
Proof.
  intros Hn. unfold parse_version_component. cbn.
  by rewrite display_u16_not_empty, parse_display_u16.
Qed.
Lemma parse_display_ModuleVersion v :
  ModuleVersion_wf v -> parse_module_version (display_ModuleVersion v) = Ok v.
Proof.
  destruct v as [x y z]. intros (Hx & Hy & Hz). unfold parse_module_version, display_ModuleVersion. cbn in *.
  rewrite !split_on_app, split_on_single by by apply display_no_byte.
  cbn. by rewrite !parse_component_display; cbn; rewrite ?parse_component_display; cbn;
    rewrite ?parse_component_display.
Qed.

(** ** Theorems *)

(** A module identity is accepted exactly when it is a dotted identifier of at
    most 160 bytes: the identifier alphabet throughout, at least two segments,
    each starting with a lower-case letter and using only lower-case letters,
    digits, hyphens and underscores; an accepted value is kept unchanged. *)
Theorem ModuleId_parse_spec (value : string) (id : ModuleId) :
  ModuleId_parse value = Ok id <-> dotted_id_spec MODULE_ID_LIMIT value /\ id = MkId value.
Proof.
  unfold ModuleId_parse. rewrite <- validate_dotted_id_Ok by done.
  destruct (validate_dotted_id value MODULE_ID_LIMIT) as [[]|]; cbn.
  - split; [by intros [= <-] | by intros [_ ->]].
  - by split; [|intros [? _]].
Qed.

(** Parsing the display form of a combined ABI version whose components fit
    their 16-bit fields gives the version back. *)
Theorem AbiVersion_roundtrip (v : AbiVersion) :
  AbiVersion_wf v -> AbiVersion_from_str (display_AbiVersion v) = Ok v.
Proof.
  destruct v as [r w]. intros [Hr Hw]. unfold AbiVersion_from_str, display_AbiVersion.
  rewrite strip_prefix_app. cbn [mbind option_bind rust_contract component_world_major].
  change "/wit-"%string with (String "/" "wit-"). rewrite split_once_app; cbn.
  - by rewrite parse_display_ModuleVersion, parse_display_u16.
  - unfold display_ModuleVersion. rewrite !any_byte_app, !display_no_byte by done. done.
Qed.
Lemma AbiVersion_roundtrip_witness :
  AbiVersion_from_str "rust-1.0.65535/wit-7" = Ok (mk_AbiVersion (mk_ModuleVersion 1 0 65535) 7).
Proof.
  apply (AbiVersion_roundtrip (mk_AbiVersion (mk_ModuleVersion 1 0 65535) 7)).
  vm_compute. repeat split; discriminate.
Defined.
