(* ===== verification/Publication.v ===== *)
(** * Generation-checked publication

    Several components own one complete immutable value and replace it only for a
    caller who presents the generation it observed: the circuit snapshot book,
    the quota book, the admission policy book and the budget policy book.  This
    file states what such an owner promises ([Publication], [PublicationLaws])
    and proves, against that interface alone, what its clients rely on. *)

From S2P Require Import Prelude.
#[local] Open Scope N_scope.

(** An owner: its current generation, its publication operation, and the other
    operations it offers that may change its state. *)
Class Publication (Book Candidate Receipt E : Type) := {
  generation_of : Book -> N;
  publish_to : N -> Candidate -> act Book E Receipt;
  background : Book -> Book -> Prop;
}.

Class PublicationLaws (Book Candidate Receipt E : Type) `{Publication Book Candidate Receipt E} : Prop := {
  publish_to_Ok (b b' : Book) g c r :
    publish_to g c b = (b', Ok r) -> generation_of b = g /\ generation_of b' = g + 1;
  publish_to_Err (b b' : Book) g c e : publish_to g c b = (b', Err e) -> b' = b;
  background_grows (b b' : Book) : background b b' -> generation_of b <= generation_of b';
}.

Section publication.
  Context {Book Candidate Receipt E : Type}
    {pub : Publication Book Candidate Receipt E} {laws : PublicationLaws Book Candidate Receipt E}.
  Implicit Types (b : Book).

(** What happened to an owner: for every publication attempt, in the order the
    lock serialised them, the generation it presented and whether it won. *)
Inductive history : Book -> list (N * bool) -> Book -> Prop :=
| history_nil b : history b [] b
| history_publish b g c b1 r l b2 :
    publish_to g c b = (b1, r) -> history b1 l b2 -> history b ((g, is_ok r) :: l) b2
| history_background b b1 l b2 :
    background b b1 -> history b1 l b2 -> history b l b2.

(** The generations that were won. *)
Definition winners (l : list (N * bool)) : list N := fst <$> List.filter snd l.

Lemma history_winners b l b' :
  history b l b' ->
  generation_of b <= generation_of b' /\ NoDup (winners l) /\
  (forall g, g ∈ winners l -> generation_of b <= g < generation_of b').
Proof.
  unfold winners.
  induction 1 as [b|b g c b1 r l b2 Hp _ (Hle & Hnd & Hw)|b b1 l b2 Hb _ (Hle & Hnd & Hw)].
  - split; [lia|]. split; [constructor|]. by intros g ?%not_elem_of_nil.
  - destruct r as [r|e]; cbn.
    + apply publish_to_Ok in Hp as [Hg Hg']. split; [lia|]. split.
      * constructor; [|done]. intros Hin%Hw. lia.
      * intros g' [->|Hin%Hw]%elem_of_cons; lia.
    + apply publish_to_Err in Hp as ->. by split.
  - apply background_grows in Hb. split; [lia|]. split; [done|]. intros g Hin%Hw. lia.
Qed.

(** Without background operations the generation counts the publications. *)
Lemma history_counts b l b' :
  (forall x y : Book, background x y -> generation_of y = generation_of x) ->
  history b l b' -> generation_of b' = generation_of b + len (winners l).
Proof.
  intros Hquiet. unfold winners.
  induction 1 as [b|b g c b1 r l b2 Hp _ IH|b b1 l b2 Hb _ IH]; [unfold len; cbn; lia| |].
  - destruct r as [r|e]; cbn.
    + apply publish_to_Ok in Hp as [Hg Hg']. unfold len in *. cbn in *. lia.
    + apply publish_to_Err in Hp as ->. done.
  - by rewrite IH, (Hquiet _ _ Hb).
Qed.
End publication.
Arguments history {Book Candidate Receipt E pub} _ _ _.

(** The generation counter of every owner: [generation.next()]. *)
Definition next_generation {E} (exhausted : E) (generation : N) : result E N :=
  ok_or (checked_add u64_max generation 1) exhausted.
Lemma next_generation_Ok {E} (e : E) g g' : next_generation e g = Ok g' <-> g' = g + 1 /\ g < u64_max.
Proof. unfold next_generation. rewrite ok_or_Ok, checked_add_Some. lia. Qed.
