(* ===== verification/AccountCircuit.v ===== *)
(** * The account circuit breaker

    Models [crates/optional/ariadnion-account-circuit/src/lib.rs].  The state
    under the circuit's lock is [CircuitStateData]; each public method is an
    operation on the locked state, each helper a function of the same name.
    [AccountCircuitError] is a newtype of its code, so operations fail with the
    code.  Instants and generations are the [u64] inside their newtypes. *)

From S2P Require Import Prelude CoreTypes.
#[local] Open Scope N_scope.

Definition MAX_THRESHOLD : N := 1048576.
Definition MAX_WINDOW_MILLIS : N := 86400000.
Definition MAX_LEASE_MILLIS : N := 300000.
Definition MAX_PROBES : N := 128.

Inductive AccountCircuitErrorCode :=
| InvalidArgument | AccountMismatch | GenerationConflict | TimestampOutOfOrder
| InvalidTransition | RecoveryWindowClosed | ProbeLimitReached
| AdministrativeResetRequired | LeaseConflict | LeaseExpired | VersionExhausted
| StateUnavailable.

#[export] Instance AccountCircuitErrorCode_eq_dec : EqDecision AccountCircuitErrorCode.
Proof. solve_decision. Defined.

(** [MonotonicMillis::new]: the readings above the calibration range are refused. *)
Definition MonotonicMillis_new (value : N) : result AccountCircuitErrorCode N :=
  if 9000000000000000 <? value then Err InvalidArgument else Ok value.

(** [CircuitGeneration::next]. *)
Definition next (generation : N) : result AccountCircuitErrorCode N :=
  ok_or (checked_add u64_max generation 1) VersionExhausted.

Inductive CircuitState := Closed | Open | HalfOpen | Terminal.
#[export] Instance CircuitState_eq_dec : EqDecision CircuitState.
Proof. solve_decision. Defined.

Inductive CircuitOutcome := Success | Neutral | RetryableFailure | TerminalFailure.

Record CircuitPolicy := mk_CircuitPolicy {
  failure_threshold : N;
  policy_recovery_successes : N;
  recovery_window_millis : N;
  probe_lease_millis : N;
  max_half_open_probes : N;
}.

(** [(1..=bound).contains(&value)]. *)
Definition within (bound value : N) : bool := in_range 1 bound value.

Definition CircuitPolicy_new
    (failure_threshold recovery_successes recovery_window_millis probe_lease_millis
     max_half_open_probes : N) : result AccountCircuitErrorCode CircuitPolicy :=
  let valid :=
    within MAX_THRESHOLD failure_threshold
    && within MAX_THRESHOLD recovery_successes
    && within MAX_WINDOW_MILLIS recovery_window_millis
    && within MAX_LEASE_MILLIS probe_lease_millis
    && within MAX_PROBES max_half_open_probes in
  reject_if (negb valid) InvalidArgument ;;
  mret (mk_CircuitPolicy failure_threshold recovery_successes recovery_window_millis
          probe_lease_millis max_half_open_probes).

Record CircuitObservation := mk_CircuitObservation {
  obs_account_id : AccountId;
  obs_generation : N;
  obs_observed_at : N;
  obs_monotonic : N;
  obs_outcome : CircuitOutcome;
}.

Record ProbeLease := mk_ProbeLease {
  pl_account_id : AccountId;
  pl_generation : N;
  pl_id : N;
  pl_issued_at : N;
  pl_expires_at : N;
}.

Record CircuitSnapshot := mk_CircuitSnapshot {
  cs_account_id : AccountId;
  cs_generation : N;
  cs_state : CircuitState;
  cs_consecutive_failures : N;
  cs_recovery_successes : N;
  cs_half_open_in_flight : N;
  cs_opened_at : option N;
  cs_recovery_eligible_at : option N;
  cs_last_observed_at : option N;
  cs_last_monotonic : option N;
}.
#[export] Instance CircuitSnapshot_eta : Eta CircuitSnapshot := fun s =>
  mk_CircuitSnapshot (cs_account_id s) (cs_generation s) (cs_state s)
    (cs_consecutive_failures s) (cs_recovery_successes s) (cs_half_open_in_flight s)
    (cs_opened_at s) (cs_recovery_eligible_at s) (cs_last_observed_at s)
    (cs_last_monotonic s).

(** [CircuitSnapshot::initial]. *)
Definition initial (account_id : AccountId) : CircuitSnapshot :=
  mk_CircuitSnapshot account_id 0 Closed 0 0 0 None None None None.

Record LeaseRecord := mk_LeaseRecord { lr_id : N; lr_expires_at : N }.

Record CircuitStateData := mk_CircuitStateData {
  snapshot : CircuitSnapshot;
  leases : list LeaseRecord;
  next_lease_id : N;
}.
#[export] Instance CircuitStateData_eta : Eta CircuitStateData := fun s =>
  mk_CircuitStateData (snapshot s) (leases s) (next_lease_id s).

(** An operation under the circuit's lock. *)
Notation circuit_act := (act CircuitStateData AccountCircuitErrorCode).

(** [AccountCircuit::new]. *)
Definition AccountCircuit_new (account_id : AccountId) : Lock CircuitStateData :=
  mk_lock false (mk_CircuitStateData (initial account_id) [] 1).

(** ** Clocks *)

Definition validate_clock (s : CircuitSnapshot) (observed_at monotonic : N)
    : result AccountCircuitErrorCode unit :=
  if is_some_and (fun last => observed_at <? last) (cs_last_observed_at s)
     || is_some_and (fun last => monotonic <? last) (cs_last_monotonic s)
  then Err TimestampOutOfOrder
  else Ok tt.

Definition advance_clock (s : CircuitSnapshot) (observed_at monotonic : N) : CircuitSnapshot :=
  s <| cs_last_observed_at := Some observed_at |> <| cs_last_monotonic := Some monotonic |>.

(** ** Snapshot transitions

    The [&mut CircuitSnapshot] helpers run on a clone that is dropped when they
    fail, so a failure returns no snapshot. *)

Definition mark_open (s : CircuitSnapshot) (policy : CircuitPolicy)
    : result AccountCircuitErrorCode CircuitSnapshot :=
  opened_at ← ok_or (cs_last_observed_at s) StateUnavailable;
  eligible_at ← ok_or (checked_add u64_max opened_at (recovery_window_millis policy)) VersionExhausted;
  mret (s <| cs_state := Open |>
          <| cs_opened_at := Some opened_at |>
          <| cs_recovery_eligible_at := Some eligible_at |>
          <| cs_recovery_successes := 0 |>
          <| cs_half_open_in_flight := 0 |>).

Definition mark_terminal (s : CircuitSnapshot) : CircuitSnapshot :=
  s <| cs_state := Terminal |>
    <| cs_opened_at := cs_last_observed_at s |>
    <| cs_recovery_eligible_at := None |>
    <| cs_recovery_successes := 0 |>
    <| cs_half_open_in_flight := 0 |>.

Definition fail_closed (s : CircuitSnapshot) (policy : CircuitPolicy)
    : result AccountCircuitErrorCode CircuitSnapshot :=
  s' ← mark_open s policy;
  generation ← next (cs_generation s');
  mret (s' <| cs_generation := generation |>).

Definition clear_recovery_state (s : CircuitSnapshot) : CircuitSnapshot :=
  s <| cs_state := Closed |>
    <| cs_consecutive_failures := 0 |>
    <| cs_recovery_successes := 0 |>
    <| cs_half_open_in_flight := 0 |>
    <| cs_opened_at := None |>
    <| cs_recovery_eligible_at := None |>.

Definition transition_to_half_open (s : CircuitSnapshot) : CircuitSnapshot :=
  if decide (cs_state s = Open) then
    s <| cs_state := HalfOpen |> <| cs_recovery_successes := 0 |> <| cs_half_open_in_flight := 0 |>
  else s.

Definition close_recovered_circuit (s : CircuitSnapshot) (policy : CircuitPolicy) : CircuitSnapshot :=
  if bool_decide (cs_state s = HalfOpen)
     && (policy_recovery_successes policy <=? cs_recovery_successes s)
     && (cs_half_open_in_flight s =? 0)
  then s <| cs_state := Closed |> <| cs_consecutive_failures := 0 |>
         <| cs_opened_at := None |> <| cs_recovery_eligible_at := None |>
  else s.

Definition apply_closed_outcome (s : CircuitSnapshot) (outcome : CircuitOutcome)
    (policy : CircuitPolicy) : result AccountCircuitErrorCode CircuitSnapshot :=
  match outcome with
  | Success => Ok (s <| cs_consecutive_failures := 0 |>)
  | Neutral => Ok s
  | RetryableFailure =>
      failures ← ok_or (checked_add u32_max (cs_consecutive_failures s) 1) VersionExhausted;
      let s' := s <| cs_consecutive_failures := failures |> in
      if failure_threshold policy <=? failures then mark_open s' policy else Ok s'
  | TerminalFailure =>
      Ok (s <| cs_consecutive_failures := failure_threshold policy |>
            <| cs_state := Terminal |>
            <| cs_opened_at := cs_last_observed_at s |>
            <| cs_recovery_eligible_at := None |>)
  end.

Definition apply_probe_outcome (s : CircuitSnapshot) (outcome : CircuitOutcome)
    (policy : CircuitPolicy) : result AccountCircuitErrorCode CircuitSnapshot :=
  s' ← match outcome with
       | Success =>
           successes ← ok_or (checked_add u32_max (cs_recovery_successes s) 1) VersionExhausted;
           mret (s <| cs_recovery_successes := successes |>)
       | Neutral => Ok s
       | RetryableFailure => mark_open s policy
       | TerminalFailure => Ok (mark_terminal s)
       end;
  mret (close_recovered_circuit s' policy).

(** [if next.state != snapshot.state { next.generation = next.generation.next()? }]. *)
Definition bump_on_change (before after : CircuitSnapshot) : result AccountCircuitErrorCode CircuitSnapshot :=
  if decide (cs_state after = cs_state before) then Ok after
  else generation ← next (cs_generation after); mret (after <| cs_generation := generation |>).

Definition next_closed_snapshot (s : CircuitSnapshot) (observation : CircuitObservation)
    (policy : CircuitPolicy) : result AccountCircuitErrorCode CircuitSnapshot :=
  let advanced := advance_clock s (obs_observed_at observation) (obs_monotonic observation) in
  s' ← apply_closed_outcome advanced (obs_outcome observation) policy;
  bump_on_change s s'.

(** ** Validation *)

Definition validate_observation (account_id : AccountId) (s : CircuitSnapshot)
    (observation : CircuitObservation) : result AccountCircuitErrorCode unit :=
  reject_if (bool_decide (obs_account_id observation <> account_id)) AccountMismatch ;;
  reject_if (negb (obs_generation observation =? cs_generation s)) GenerationConflict ;;
  validate_clock s (obs_observed_at observation) (obs_monotonic observation).

(** [leases.iter().position(|entry| entry.id == id)]. *)
Definition position_of (id : N) (ls : list LeaseRecord) : option nat :=
  fst <$> list_find (fun entry => lr_id entry = id) ls.

Definition validate_lease_request (state : CircuitStateData) (account_id : AccountId)
    (lease : ProbeLease) (observed_at monotonic : N) : result AccountCircuitErrorCode nat :=
  reject_if (bool_decide (pl_account_id lease <> account_id)) AccountMismatch ;;
  reject_if (negb (pl_generation lease =? cs_generation (snapshot state))) GenerationConflict ;;
  validate_clock (snapshot state) observed_at monotonic ;;
  ok_or (position_of (pl_id lease) (leases state)) LeaseConflict.

Definition validate_probe_state (state : CircuitStateData) : result AccountCircuitErrorCode unit :=
  reject_if (bool_decide (cs_state (snapshot state) = Closed)) InvalidTransition ;;
  reject_if (bool_decide (cs_state (snapshot state) = Terminal)) AdministrativeResetRequired.

Definition validate_recovery_window (state : CircuitStateData) (observed_at : N)
    : result AccountCircuitErrorCode unit :=
  eligible_at ← ok_or (cs_recovery_eligible_at (snapshot state)) StateUnavailable;
  reject_if (observed_at <? eligible_at) RecoveryWindowClosed.

Definition validate_probe_capacity (state : CircuitStateData) (policy : CircuitPolicy)
    : result AccountCircuitErrorCode unit :=
  reject_if (max_half_open_probes policy <=? len (leases state)) ProbeLimitReached.

Definition validate_probe_admission (state : CircuitStateData) (policy : CircuitPolicy)
    (observed_at : N) : result AccountCircuitErrorCode unit :=
  validate_probe_state state ;;
  validate_recovery_window state observed_at ;;
  validate_probe_capacity state policy.

Definition prepare_probe_lease (next_lease_id monotonic : N) (policy : CircuitPolicy)
    : result AccountCircuitErrorCode (N * N * N) :=
  next_id ← ok_or (checked_add u64_max next_lease_id 1) VersionExhausted;
  expires ← ok_or (checked_add u64_max monotonic (probe_lease_millis policy)) VersionExhausted;
  expires_at ← MonotonicMillis_new expires;
  mret (next_lease_id, next_id, expires_at).

(** [AccountCircuitErrorCode::as_str], which dispatches on two partial tables. *)
Definition circuit_request_error_code (code : AccountCircuitErrorCode) : string :=
  match code with
  | InvalidArgument => "ACCOUNT_CIRCUIT_INVALID_ARGUMENT"
  | AccountMismatch => "ACCOUNT_CIRCUIT_ACCOUNT_MISMATCH"
  | GenerationConflict => "ACCOUNT_CIRCUIT_GENERATION_CONFLICT"
  | TimestampOutOfOrder => "ACCOUNT_CIRCUIT_TIMESTAMP_OUT_OF_ORDER"
  | InvalidTransition => "ACCOUNT_CIRCUIT_INVALID_TRANSITION"
  | RecoveryWindowClosed => "ACCOUNT_CIRCUIT_RECOVERY_WINDOW_CLOSED"
  | _ => "ACCOUNT_CIRCUIT_INVALID_ARGUMENT"
  end.
Definition circuit_state_error_code (code : AccountCircuitErrorCode) : string :=
  match code with
  | ProbeLimitReached => "ACCOUNT_CIRCUIT_PROBE_LIMIT_REACHED"
  | AdministrativeResetRequired => "ACCOUNT_CIRCUIT_ADMINISTRATIVE_RESET_REQUIRED"
  | LeaseConflict => "ACCOUNT_CIRCUIT_LEASE_CONFLICT"
  | LeaseExpired => "ACCOUNT_CIRCUIT_LEASE_EXPIRED"
  | VersionExhausted => "ACCOUNT_CIRCUIT_VERSION_EXHAUSTED"
  | StateUnavailable => "ACCOUNT_CIRCUIT_STATE_UNAVAILABLE"
  | _ => "ACCOUNT_CIRCUIT_INVALID_ARGUMENT"
  end.
Definition as_str (code : AccountCircuitErrorCode) : string :=
  match code with
  | InvalidArgument | AccountMismatch | GenerationConflict | TimestampOutOfOrder
  | InvalidTransition | RecoveryWindowClosed => circuit_request_error_code code
  | _ => circuit_state_error_code code
  end.

(** ** Operations under the lock *)

Section operations.
  (** The two immutable fields of [AccountCircuit]. *)
  Variables (account_id : AccountId) (policy : CircuitPolicy).

Definition reclaim_expired_leases (observed_at monotonic : N) : circuit_act unit :=
  state ← get;
  if existsb (fun lease => lr_expires_at lease <=? monotonic) (leases state) then
    let advanced := advance_clock (snapshot state) observed_at monotonic in
    s' ← lift (fail_closed advanced policy);
    modify (fun st => st <| leases := [] |>) ;;
    modify (fun st => st <| snapshot := s' |>) ;;
    fail LeaseExpired
  else mret tt.

Definition admit_probe (observed_at monotonic : N) : circuit_act ProbeLease :=
  state ← get;
  lift (validate_probe_admission state policy observed_at) ;;
  prepared ← lift (prepare_probe_lease (next_lease_id state) monotonic policy);
  let '(id, next_id, expires_at) := prepared in
  modify (fun st => st <| snapshot := transition_to_half_open (snapshot st) |>) ;;
  modify (fun st => st <| next_lease_id := next_id |>) ;;
  modify (fun st => st <| leases := leases st ++ [mk_LeaseRecord id expires_at] |>) ;;
  modify (fun st => st <| snapshot :=
    (snapshot st) <| cs_half_open_in_flight := truncate u16_max (len (leases st)) |> |>) ;;
  modify (fun st => st <| snapshot := advance_clock (snapshot st) observed_at monotonic |>) ;;
  state' ← get;
  mret (mk_ProbeLease account_id (cs_generation (snapshot state')) id monotonic expires_at).

Definition expire_probe (index : nat) (observed_at monotonic : N) : circuit_act CircuitSnapshot :=
  state ← get;
  let advanced := advance_clock (snapshot state) observed_at monotonic in
  s' ← lift (fail_closed advanced policy);
  modify (fun st => st <| leases := delete index (leases st) |>) ;;
  modify (fun st => st <| leases := [] |>) ;;
  modify (fun st => st <| snapshot := s' |>) ;;
  fail LeaseExpired.

Definition complete_valid_probe (index : nat) (outcome : CircuitOutcome)
    (observed_at monotonic : N) : circuit_act CircuitSnapshot :=
  state ← get;
  let remaining := truncate u16_max (len (leases state) - 1) in
  let advanced := advance_clock ((snapshot state) <| cs_half_open_in_flight := remaining |>)
                    observed_at monotonic in
  s' ← lift (apply_probe_outcome advanced outcome policy);
  s'' ← lift (bump_on_change (snapshot state) s');
  modify (fun st => st <| leases := delete index (leases st) |>) ;;
  (if decide (cs_state s'' = HalfOpen) then mret tt
   else modify (fun st => st <| leases := [] |>)) ;;
  mret s''.

Definition observe_body (observation : CircuitObservation) : circuit_act CircuitSnapshot :=
  state ← get;
  lift (validate_observation account_id (snapshot state) observation) ;;
  lift (reject_if (bool_decide (cs_state (snapshot state) <> Closed)) InvalidTransition) ;;
  s' ← lift (next_closed_snapshot (snapshot state) observation policy);
  modify (fun st => st <| snapshot := s' |>) ;;
  mret s'.

Definition acquire_probe_body (expected_generation observed_at monotonic : N) : circuit_act ProbeLease :=
  state ← get;
  lift (validate_clock (snapshot state) observed_at monotonic) ;;
  lift (reject_if (negb (cs_generation (snapshot state) =? expected_generation)) GenerationConflict) ;;
  reclaim_expired_leases observed_at monotonic ;;
  admit_probe observed_at monotonic.

Definition validate_probe_body (lease : ProbeLease) (observed_at monotonic : N) : circuit_act unit :=
  state ← get;
  index ← lift (validate_lease_request state account_id lease observed_at monotonic);
  if pl_expires_at lease <=? monotonic
  then expire_probe index observed_at monotonic ;; mret tt
  else mret tt.

Definition complete_probe_body (lease : ProbeLease) (outcome : CircuitOutcome)
    (observed_at monotonic : N) : circuit_act CircuitSnapshot :=
  state ← get;
  index ← lift (validate_lease_request state account_id lease observed_at monotonic);
  if pl_expires_at lease <=? monotonic
  then expire_probe index observed_at monotonic
  else
    s' ← complete_valid_probe index outcome observed_at monotonic;
    modify (fun st => st <| snapshot := s' |>) ;;
    mret s'.

Definition reset_body (expected_generation observed_at monotonic : N) : circuit_act CircuitSnapshot :=
  state ← get;
  lift (reject_if (negb (cs_generation (snapshot state) =? expected_generation)) GenerationConflict) ;;
  lift (validate_clock (snapshot state) observed_at monotonic) ;;
  lift (reject_if (bool_decide (cs_state (snapshot state) <> Terminal)) InvalidTransition) ;;
  let cleared := clear_recovery_state (advance_clock (snapshot state) observed_at monotonic) in
  generation ← lift (next (cs_generation cleared));
  let s' := cleared <| cs_generation := generation |> in
  modify (fun st => st <| leases := [] |>) ;;
  modify (fun st => st <| snapshot := s' |>) ;;
  mret s'.

(** The public methods: the bodies behind the circuit's lock. *)
Definition observe observation := locked StateUnavailable (observe_body observation).
Definition acquire_probe expected_generation observed_at monotonic :=
  locked StateUnavailable (acquire_probe_body expected_generation observed_at monotonic).
Definition validate_probe lease observed_at monotonic :=
  locked StateUnavailable (validate_probe_body lease observed_at monotonic).
Definition complete_probe lease outcome observed_at monotonic :=
  locked StateUnavailable (complete_probe_body lease outcome observed_at monotonic).
Definition reset expected_generation observed_at monotonic :=
  locked StateUnavailable (reset_body expected_generation observed_at monotonic).
Definition snapshot_value : act (Lock CircuitStateData) AccountCircuitErrorCode CircuitSnapshot :=
  locked StateUnavailable (query (fun state => Ok (snapshot state))).

(** ** The circuit as a transition system *)

(** The requests a circuit serves, in any order and with any arguments: the
    lock serialises the callers, so an execution is a sequence of them. *)
Inductive circuit_request :=
| ObserveRequest (observation : CircuitObservation)
| AcquireRequest (expected_generation observed_at monotonic : N)
| ValidateRequest (lease : ProbeLease) (observed_at monotonic : N)
| CompleteRequest (lease : ProbeLease) (outcome : CircuitOutcome) (observed_at monotonic : N)
| ResetRequest (expected_generation observed_at monotonic : N).

(** The state a request leaves and the error it reports, if any. *)
Definition forget {A} (run : CircuitStateData * result AccountCircuitErrorCode A)
    : CircuitStateData * option AccountCircuitErrorCode :=
  (run.1, match run.2 with Ok _ => None | Err e => Some e end).
Definition serve (request : circuit_request) (s : CircuitStateData)
    : CircuitStateData * option AccountCircuitErrorCode :=
  match request with
  | ObserveRequest observation => forget (observe_body observation s)
  | AcquireRequest g t m => forget (acquire_probe_body g t m s)
  | ValidateRequest lease t m => forget (validate_probe_body lease t m s)
  | CompleteRequest lease outcome t m => forget (complete_probe_body lease outcome t m s)
  | ResetRequest g t m => forget (reset_body g t m s)
  end.
Definition circuit_step (s s' : CircuitStateData) : Prop :=
  exists request, (serve request s).1 = s'.
Definition initial_state : CircuitStateData := mk_CircuitStateData (initial account_id) [] 1.
Definition reachable (s : CircuitStateData) : Prop := rtc circuit_step initial_state s.
End operations.

(** ** Specification *)

Definition CircuitPolicy_wf (policy : CircuitPolicy) : Prop :=
  1 <= failure_threshold policy <= MAX_THRESHOLD /\
  1 <= policy_recovery_successes policy <= MAX_THRESHOLD /\
  1 <= recovery_window_millis policy <= MAX_WINDOW_MILLIS /\
  1 <= probe_lease_millis policy <= MAX_LEASE_MILLIS /\
  1 <= max_half_open_probes policy <= MAX_PROBES.

(** What holds between two requests, per breaker state. *)
Definition state_inv (policy : CircuitPolicy) (s : CircuitSnapshot) (ls : list LeaseRecord) : Prop :=
  match cs_state s with
  | Closed =>
      ls = [] /\ cs_consecutive_failures s < failure_threshold policy /\
      cs_opened_at s = None /\ cs_recovery_eligible_at s = None
  | Open =>
      ls = [] /\ exists opened, cs_opened_at s = Some opened /\
        cs_recovery_eligible_at s = Some (opened + recovery_window_millis policy)
  | HalfOpen =>
      (ls = [] -> cs_recovery_successes s < policy_recovery_successes policy) /\
      exists opened, cs_opened_at s = Some opened /\
        cs_recovery_eligible_at s = Some (opened + recovery_window_millis policy)
  | Terminal => ls = [] /\ is_Some (cs_opened_at s) /\ cs_recovery_eligible_at s = None
  end.

Record circuit_inv (account_id : AccountId) (policy : CircuitPolicy) (st : CircuitStateData) : Prop := {
  inv_account : cs_account_id (snapshot st) = account_id;
  inv_state : state_inv policy (snapshot st) (leases st);
  inv_in_flight : cs_half_open_in_flight (snapshot st) = len (leases st);
  inv_capacity : len (leases st) <= max_half_open_probes policy;
  inv_lease_ids : NoDup (lr_id <$> leases st);
  inv_next_id : forall l, l ∈ leases st -> lr_id l < next_lease_id st;
}.

(** The abstract breaker: what matters in each state.  An open or half-open breaker knows
    from when on probes are admitted, a half-open one its successes and the identifiers of
    the probes in flight. *)
Inductive Breaker :=
| BreakerClosed (generation failures : N)
| BreakerOpen (generation : N) (eligible : option N)
| BreakerHalfOpen (generation successes : N) (probes : list N) (eligible : option N)
| BreakerTerminal (generation : N).
Definition breaker_probes (b : Breaker) : list N :=
  match b with BreakerHalfOpen _ _ probes _ => probes | _ => [] end.

(** What the callers see of one request. *)
Inductive breaker_event :=
| Refused
| Observed (outcome : CircuitOutcome) (t : N)
| ProbeAdmitted (id t : N)
| Validated (id : N)
| Completed (id : N) (outcome : CircuitOutcome) (t : N)
| Expired (t : N)
| ResetDone.
(** The successes after a probe that does not fail. *)
Definition counted (successes : N) (outcome : CircuitOutcome) : option N :=
  match outcome with Success => Some (successes + 1) | Neutral => Some successes | _ => None end.

(** The rules of the breaker. *)
Inductive breaker_move (policy : CircuitPolicy) : Breaker -> breaker_event -> Breaker -> Prop :=
| move_refuse b : breaker_move policy b Refused b
| move_calm g f t : breaker_move policy (BreakerClosed g f) (Observed Success t) (BreakerClosed g 0)
| move_ignore g f t : breaker_move policy (BreakerClosed g f) (Observed Neutral t) (BreakerClosed g f)
| move_strike g f t : f + 1 < failure_threshold policy ->
    breaker_move policy (BreakerClosed g f) (Observed RetryableFailure t) (BreakerClosed g (f + 1))
| move_trip g f t : failure_threshold policy <= f + 1 ->
    breaker_move policy (BreakerClosed g f) (Observed RetryableFailure t)
      (BreakerOpen (g + 1) (Some (t + recovery_window_millis policy)))
| move_condemn g f t : breaker_move policy (BreakerClosed g f) (Observed TerminalFailure t) (BreakerTerminal (g + 1))
| move_probe g e t id : e <= t ->
    breaker_move policy (BreakerOpen g (Some e)) (ProbeAdmitted id t) (BreakerHalfOpen g 0 [id] (Some e))
| move_another g k ps e t id : e <= t -> len ps < max_half_open_probes policy -> id ∉ ps ->
    breaker_move policy (BreakerHalfOpen g k ps (Some e)) (ProbeAdmitted id t) (BreakerHalfOpen g k (ps ++ [id]) (Some e))
| move_validate g k ps e id : id ∈ ps ->
    breaker_move policy (BreakerHalfOpen g k ps e) (Validated id) (BreakerHalfOpen g k ps e)
| move_pass g k k' ps e i id outcome t : ps !! i = Some id -> counted k outcome = Some k' ->
    ~ (policy_recovery_successes policy <= k' /\ delete i ps = []) ->
    breaker_move policy (BreakerHalfOpen g k ps e) (Completed id outcome t) (BreakerHalfOpen g k' (delete i ps) e)
| move_recover g k k' e id outcome t : counted k outcome = Some k' -> policy_recovery_successes policy <= k' ->
    breaker_move policy (BreakerHalfOpen g k [id] e) (Completed id outcome t) (BreakerClosed (g + 1) 0)
| move_relapse g k ps e id t : id ∈ ps ->
    breaker_move policy (BreakerHalfOpen g k ps e) (Completed id RetryableFailure t)
      (BreakerOpen (g + 1) (Some (t + recovery_window_millis policy)))
| move_give_up g k ps e id t : id ∈ ps ->
    breaker_move policy (BreakerHalfOpen g k ps e) (Completed id TerminalFailure t) (BreakerTerminal (g + 1))
| move_expire g k ps e t : ps <> [] ->
    breaker_move policy (BreakerHalfOpen g k ps e) (Expired t)
      (BreakerOpen (g + 1) (Some (t + recovery_window_millis policy)))
| move_reset g : breaker_move policy (BreakerTerminal g) ResetDone (BreakerClosed (g + 1) 0).

Definition breaker_view (st : CircuitStateData) : Breaker :=
  let s := snapshot st in
  match cs_state s with
  | Closed => BreakerClosed (cs_generation s) (cs_consecutive_failures s)
  | Open => BreakerOpen (cs_generation s) (cs_recovery_eligible_at s)
  | HalfOpen => BreakerHalfOpen (cs_generation s) (cs_recovery_successes s) (lr_id <$> leases st) (cs_recovery_eligible_at s)
  | Terminal => BreakerTerminal (cs_generation s)
  end.
(** The event of a request and its answer.  An admitted probe has the identifier that was
    next. *)
Definition refused_event (t : N) (e : AccountCircuitErrorCode) : breaker_event :=
  match e with LeaseExpired => Expired t | _ => Refused end.
Arguments refused_event : simpl never.
Definition breaker_event_of (request : circuit_request) (answer : option AccountCircuitErrorCode) (st : CircuitStateData)
    : breaker_event :=
  match request, answer with
  | ObserveRequest o, None => Observed (obs_outcome o) (obs_observed_at o)
  | AcquireRequest _ t _, None => ProbeAdmitted (next_lease_id st) t
  | ValidateRequest lease _ _, None => Validated (pl_id lease)
  | CompleteRequest lease outcome t _, None => Completed (pl_id lease) outcome t
  | ResetRequest _ _ _, None => ResetDone
  | ObserveRequest o, Some e => refused_event (obs_observed_at o) e
  | AcquireRequest _ t _, Some e | ValidateRequest _ t _, Some e | CompleteRequest _ _ t _, Some e
  | ResetRequest _ t _, Some e => refused_event t e
  end.

(** Absent readings come before every reading. *)
Definition option_le (before after : option N) : Prop :=
  match before, after with
  | None, _ => True
  | Some b, Some a => b <= a
  | Some _, None => False
  end.
(** Generations, clocks and lease identifiers of a later state. *)
Definition history_le (before after : CircuitStateData) : Prop :=
  cs_generation (snapshot before) <= cs_generation (snapshot after) /\
  option_le (cs_last_observed_at (snapshot before)) (cs_last_observed_at (snapshot after)) /\
  option_le (cs_last_monotonic (snapshot before)) (cs_last_monotonic (snapshot after)) /\
  next_lease_id before <= next_lease_id after.
(** A lease identifier that was issued and is no longer held. *)
Definition spent (id : N) (st : CircuitStateData) : Prop :=
  id ∉ (lr_id <$> leases st) /\ id < next_lease_id st.

(** What the callers of a recovering circuit do: acquire a probe, or complete the [k]-th of
    the probes in flight.  Probes overlap and clocks advance in any way. *)
Inductive probe_action :=
| Begin (t m : N)
| Finish (k : nat) (outcome : CircuitOutcome) (t m : N).
Fixpoint perform (account_id : AccountId) (policy : CircuitPolicy) (actions : list probe_action) (held : list ProbeLease)
    : circuit_act (list ProbeLease) :=
  match actions with
  | [] => mret held
  | Begin t m :: rest =>
      state ← get;
      lease ← acquire_probe_body account_id policy (cs_generation (snapshot state)) t m;
      perform account_id policy rest (held ++ [lease])
  | Finish k outcome t m :: rest =>
      match held !! k with
      | None => fail LeaseConflict
      | Some lease =>
          complete_probe_body account_id policy lease outcome t m ;;
          perform account_id policy rest (delete k held)
      end
  end.

(** The schedules of a recovery, without looking at the circuit: [t0] and [m0] are the last
    readings, [d] the successes so far and [inflight] the instants at which the probes in
    flight expire.  Clocks do not go back; a probe begins once the circuit is eligible, while
    fewer than the policy's number are in flight and none of these has expired; a probe
    finishes before it expires, with success or without a verdict; and the schedule is over
    when, and only when, there are enough successes and no probe is left. *)
Fixpoint recovery_schedule (policy : CircuitPolicy) (eligible t0 m0 d : N) (inflight : list N) (actions : list probe_action) : Prop :=
  match actions with
  | [] => policy_recovery_successes policy <= d /\ inflight = []
  | Begin t m :: rest =>
      t0 <= t /\ m0 <= m /\ eligible <= t /\ len inflight < max_half_open_probes policy /\
      Forall (fun expires => m < expires) inflight /\ m + probe_lease_millis policy <= 9000000000000000 /\
      recovery_schedule policy eligible t m d (inflight ++ [m + probe_lease_millis policy]) rest
  | Finish k outcome t m :: rest =>
      t0 <= t /\ m0 <= m /\ (exists expires, inflight !! k = Some expires /\ m < expires) /\
      exists d', counted d outcome = Some d' /\
        (policy_recovery_successes policy <= d' -> delete k inflight = [] -> rest = []) /\
        recovery_schedule policy eligible t m d' (delete k inflight) rest
  end.
(** [n] successful probes, one after the other. *)
Fixpoint one_by_one (n : nat) (t m : N) : list probe_action :=
  match n with O => [] | S n' => Begin t m :: Finish 0 Success t m :: one_by_one n' t m end.

(** Only the two expiry paths report [LeaseExpired]. *)
Definition regular {A} (r : result AccountCircuitErrorCode A) : Prop := r <> Err LeaseExpired.

(** What no snapshot helper touches, and the clock it keeps. *)
Definition same_frame (s s' : CircuitSnapshot) : Prop :=
  cs_account_id s' = cs_account_id s /\ cs_generation s' = cs_generation s /\
  cs_last_observed_at s' = cs_last_observed_at s /\ cs_last_monotonic s' = cs_last_monotonic s.

(** Everything a request can do to the state, with the facts the code has
    established when it does it. *)
Inductive effect (account_id : AccountId) (policy : CircuitPolicy) (st : CircuitStateData)
    : breaker_event -> CircuitStateData -> option AccountCircuitErrorCode -> Prop :=
| effect_reject t e : e <> LeaseExpired -> effect account_id policy st (refused_event t e) st (Some e)
| effect_observe s1 s' outcome t m :
    cs_state (snapshot st) = Closed ->
    validate_clock (snapshot st) t m = Ok tt ->
    apply_closed_outcome (advance_clock (snapshot st) t m) outcome policy = Ok s1 ->
    bump_on_change (snapshot st) s1 = Ok s' ->
    effect account_id policy st (Observed outcome t) (st <| snapshot := s' |>) None
| effect_expire s' t m :
    leases st <> [] ->
    validate_clock (snapshot st) t m = Ok tt ->
    fail_closed (advance_clock (snapshot st) t m) policy = Ok s' ->
    effect account_id policy st (Expired t) (st <| leases := [] |> <| snapshot := s' |>) (Some LeaseExpired)
| effect_admit t m :
    validate_clock (snapshot st) t m = Ok tt ->
    validate_probe_admission st policy t = Ok tt ->
    let ls := leases st ++ [mk_LeaseRecord (next_lease_id st) (m + probe_lease_millis policy)] in
    effect account_id policy st (ProbeAdmitted (next_lease_id st) t)
      (mk_CircuitStateData
         (advance_clock ((transition_to_half_open (snapshot st))
            <| cs_half_open_in_flight := truncate u16_max (len ls) |>) t m)
         ls (next_lease_id st + 1)) None
| effect_valid id : id ∈ (lr_id <$> leases st) -> effect account_id policy st (Validated id) st None
| effect_complete lease index outcome s1 s' t m :
    validate_clock (snapshot st) t m = Ok tt ->
    pl_generation lease = cs_generation (snapshot st) ->
    position_of (pl_id lease) (leases st) = Some index ->
    apply_probe_outcome
      (advance_clock ((snapshot st) <| cs_half_open_in_flight :=
         truncate u16_max (len (leases st) - 1) |>) t m) outcome policy = Ok s1 ->
    bump_on_change (snapshot st) s1 = Ok s' ->
    effect account_id policy st (Completed (pl_id lease) outcome t)
      (st <| leases := if decide (cs_state s' = HalfOpen) then delete index (leases st) else [] |>
          <| snapshot := s' |>) None
| effect_reset g t m :
    cs_state (snapshot st) = Terminal ->
    validate_clock (snapshot st) t m = Ok tt ->
    next (cs_generation (snapshot st)) = Ok g ->
    effect account_id policy st ResetDone
      (st <| leases := [] |>
          <| snapshot := (clear_recovery_state (advance_clock (snapshot st) t m))
               <| cs_generation := g |> |>) None.

(** The circuit in the middle of a schedule of its [g]-th generation. *)
Record in_recovery (account_id : AccountId) (policy : CircuitPolicy) (g eligible t0 m0 d : N) (held : list ProbeLease)
    (st : CircuitStateData) : Prop := {
  ir_inv : circuit_inv account_id policy st;
  ir_state : cs_state (snapshot st) = Open /\ d = 0 \/ cs_state (snapshot st) = HalfOpen /\ cs_recovery_successes (snapshot st) = d;
  ir_generation : cs_generation (snapshot st) = g;
  ir_eligible : cs_recovery_eligible_at (snapshot st) = Some eligible;
  ir_observed : default 0 (cs_last_observed_at (snapshot st)) <= t0;
  ir_monotonic : default 0 (cs_last_monotonic (snapshot st)) <= m0;
  ir_leases : leases st = (fun l => mk_LeaseRecord (pl_id l) (pl_expires_at l)) <$> held;
  ir_held : Forall (fun l => pl_account_id l = account_id /\ pl_generation l = g) held;
}.
(** The state that the admission of a probe leaves. *)
Definition with_probe (policy : CircuitPolicy) (t m : N) (st : CircuitStateData) : CircuitStateData :=
  let ls := leases st ++ [mk_LeaseRecord (next_lease_id st) (m + probe_lease_millis policy)] in
  mk_CircuitStateData
    (advance_clock ((transition_to_half_open (snapshot st)) <| cs_half_open_in_flight := truncate u16_max (len ls) |>) t m)
    ls (next_lease_id st + 1).

(** Serving a sequence of requests, whatever each of them answers. *)
Definition serve_all (account_id : AccountId) (policy : CircuitPolicy)
    (requests : list circuit_request) (st : CircuitStateData) : CircuitStateData :=
  foldl (fun st request => (serve account_id policy request st).1) st requests.

(** A sample circuit: two failures open it, two successes close it. *)
Definition sample_account : AccountId := MkId "account-1".
Definition sample_policy : CircuitPolicy := mk_CircuitPolicy 2 2 1000 500 3.
Definition sample_failure (t m : N) : circuit_request :=
  ObserveRequest (mk_CircuitObservation sample_account 0 t m RetryableFailure).
Definition sample_open : CircuitStateData :=
  serve_all sample_account sample_policy [sample_failure 10 1; sample_failure 20 2]
    (initial_state sample_account).
Definition sample_lease : ProbeLease := mk_ProbeLease sample_account 1 1 50 550.
Definition sample_half_open : CircuitStateData :=
  serve_all sample_account sample_policy
    [sample_failure 10 1; sample_failure 20 2; AcquireRequest 1 1020 50] (initial_state sample_account).

(** Two probes that overlap, at different instants; a third one gives no verdict. *)
Definition sample_actions : list probe_action :=
  [Begin 1020 50; Begin 1500 90; Finish 1 Success 1500 100; Begin 1600 110; Finish 0 Success 1700 200; Finish 0 Neutral 1700 300].

(** ** Lemmas *)

Create HintDb circuit.

Lemma regular_Ok {A} (a : A) : regular (Ok a).
Proof. done. Qed.
Lemma regular_mret {A} (a : A) : regular (mret a).
Proof. done. Qed.
Lemma regular_bind {A B} (m : result AccountCircuitErrorCode A) (f : A -> result AccountCircuitErrorCode B) :
  regular m -> (forall a, regular (f a)) -> regular (m ≫= f).
Proof. destruct m; cbn; [auto | unfold regular; congruence]. Qed.
Lemma regular_ok_or {A} (o : option A) e : e <> LeaseExpired -> regular (ok_or o e).
Proof. destruct o; unfold regular; cbn; congruence. Qed.
Lemma regular_reject_if b e : e <> LeaseExpired -> regular (reject_if b e).
Proof. destruct b; unfold regular; cbn; congruence. Qed.
Lemma regular_Err {A} (r : result AccountCircuitErrorCode A) e : regular r -> r = Err e -> e <> LeaseExpired.
Proof. unfold regular. congruence. Qed.

#[local] Hint Resolve regular_Ok regular_mret regular_ok_or regular_reject_if : circuit.
#[local] Hint Extern 1 (_ <> _) => discriminate : circuit.
#[local] Hint Extern 1 (regular (Err _)) => unfold regular; discriminate : circuit.
Ltac solve_regular :=
  intros; repeat first [solve [auto with circuit] | apply regular_bind; [|intros] | case_match].

Lemma regular_next g : regular (next g).
Proof. unfold next. solve_regular. Qed.
Lemma regular_validate_clock s t m : regular (validate_clock s t m).
Proof. unfold validate_clock. by case_match. Qed.
Lemma regular_mark_open s p : regular (mark_open s p).
Proof. unfold mark_open. solve_regular. Qed.
#[local] Hint Resolve regular_next regular_validate_clock regular_mark_open : circuit.
Lemma regular_fail_closed s p : regular (fail_closed s p).
Proof. unfold fail_closed. solve_regular. Qed.
Lemma regular_bump s s' : regular (bump_on_change s s').
Proof. unfold bump_on_change. solve_regular. Qed.
Lemma regular_apply_closed s o p : regular (apply_closed_outcome s o p).
Proof. unfold apply_closed_outcome. destruct o; try apply regular_bind; solve_regular. Qed.
Lemma regular_apply_probe s o p : regular (apply_probe_outcome s o p).
Proof. unfold apply_probe_outcome. apply regular_bind; solve_regular. Qed.
#[local] Hint Resolve regular_fail_closed regular_bump regular_apply_closed regular_apply_probe : circuit.
Lemma regular_next_closed s o p : regular (next_closed_snapshot s o p).
Proof. unfold next_closed_snapshot. solve_regular. Qed.
Lemma regular_validate_observation a s o : regular (validate_observation a s o).
Proof. unfold validate_observation. solve_regular. Qed.
Lemma regular_validate_lease st a l t m : regular (validate_lease_request st a l t m).
Proof. unfold validate_lease_request. solve_regular. Qed.
Lemma regular_validate_admission st p t : regular (validate_probe_admission st p t).
Proof.
  unfold validate_probe_admission, validate_probe_state, validate_recovery_window, validate_probe_capacity.
  solve_regular.
Qed.
Lemma regular_prepare id m p : regular (prepare_probe_lease id m p).
Proof.
  unfold prepare_probe_lease, MonotonicMillis_new.
  solve_regular.
Qed.
#[local] Hint Resolve regular_next_closed regular_validate_observation regular_validate_lease
  regular_validate_admission regular_prepare : circuit.

Lemma position_of_Some id ls i :
  position_of id ls = Some i <->
  exists l, ls !! i = Some l /\ lr_id l = id /\ (forall j l', ls !! j = Some l' -> (j < i)%nat -> lr_id l' <> id).
Proof.
  unfold position_of. split.
  - intros ([j l] & Hf%list_find_Some & ->)%fmap_Some. cbn. exists l. naive_solver.
  - intros (l & Hl & Hid & Hlt). apply fmap_Some. exists (i, l). split; [|done].
    apply list_find_Some. naive_solver.
Qed.
Lemma position_of_None id ls : position_of id ls = None <-> id ∉ (lr_id <$> ls).
Proof.
  unfold position_of. rewrite fmap_None, list_find_None, Forall_forall. split.
  - intros Hn (l & -> & Hl)%list_elem_of_fmap. by apply (Hn l).
  - intros Hn l Hl <-. apply Hn. by apply list_elem_of_fmap_2.
Qed.

Lemma position_of_held id ls i : position_of id ls = Some i -> id ∈ (lr_id <$> ls).
Proof.
  intros (l & Hl & <- & _)%position_of_Some. by eapply list_elem_of_fmap_2, list_elem_of_lookup_2.
Qed.

#[local] Ltac reject_case :=
  apply effect_reject; first [discriminate | eapply regular_Err; [|eassumption]; auto with circuit].

Section effects.
  Variables (account_id : AccountId) (policy : CircuitPolicy) (st : CircuitStateData).

Lemma observe_effect observation :
  let run := forget (observe_body account_id policy observation st) in
  effect account_id policy st (breaker_event_of (ObserveRequest observation) run.2 st) run.1 run.2.
Proof.
  destruct (observe_body account_id policy observation st) as [st' r] eqn:Hrun. cbv zeta.
  unfold observe_body in Hrun. run_steps; tidy; cbn; try reject_case.
  unfold validate_observation in *. run_steps; tidy.
  unfold next_closed_snapshot in *. run_steps. by eapply effect_observe.
Qed.

Lemma reset_effect g t m :
  let run := forget (reset_body g t m st) in
  effect account_id policy st (breaker_event_of (ResetRequest g t m) run.2 st) run.1 run.2.
Proof.
  destruct (reset_body g t m st) as [st' r] eqn:Hrun. cbv zeta.
  unfold reset_body in Hrun. run_steps; tidy; cbn; try reject_case.
  by apply effect_reset.
Qed.

Lemma expire_probe_effect index t m st' r :
  leases st <> [] -> validate_clock (snapshot st) t m = Ok tt ->
  expire_probe policy index t m st = (st', r) ->
  exists e, r = Err e /\ effect account_id policy st (refused_event t e) st' (Some e).
Proof.
  intros Hls Hclock Hrun. unfold expire_probe in Hrun. run_steps.
  - eexists. split; [done|]. cbn. by eapply effect_expire.
  - eexists. split; [done|]. reject_case.
Qed.

Lemma lease_request_inv lease t m index :
  validate_lease_request st account_id lease t m = Ok index ->
  pl_account_id lease = account_id /\ pl_generation lease = cs_generation (snapshot st) /\
  validate_clock (snapshot st) t m = Ok tt /\ position_of (pl_id lease) (leases st) = Some index /\
  leases st <> [].
Proof.
  unfold validate_lease_request. intros Hrun. run_steps; tidy.
  repeat split; try done. intros Hls. rewrite Hls in *. done.
Qed.

Lemma validate_effect lease t m :
  let run := forget (validate_probe_body account_id policy lease t m st) in
  effect account_id policy st (breaker_event_of (ValidateRequest lease t m) run.2 st) run.1 run.2.
Proof.
  destruct (validate_probe_body account_id policy lease t m st) as [st' r] eqn:Hrun. cbv zeta.
  unfold validate_probe_body in Hrun. run_steps; cbn; try reject_case.
  revert select (validate_lease_request _ _ _ _ _ = _).
  intros (_ & Hg & Hc & Hp & Hls)%lease_request_inv.
  case_match; run_steps; cbn; [| |by eapply effect_valid, position_of_held].
  all: revert select (expire_probe _ _ _ _ _ = _); intros (? & [=] & ?)%expire_probe_effect; by subst.
Qed.

Lemma complete_effect lease outcome t m :
  let run := forget (complete_probe_body account_id policy lease outcome t m st) in
  effect account_id policy st (breaker_event_of (CompleteRequest lease outcome t m) run.2 st) run.1 run.2.
Proof.
  destruct (complete_probe_body account_id policy lease outcome t m st) as [st' r] eqn:Hrun. cbv zeta.
  unfold complete_probe_body in Hrun. run_steps; cbn; try reject_case.
  revert select (validate_lease_request _ _ _ _ _ = _).
  intros (_ & Hg & Hc & Hp & Hls)%lease_request_inv.
  case_match; run_steps; cbn.
  1: { revert select (expire_probe _ _ _ _ _ = _). by intros (? & -> & ?)%expire_probe_effect. }
  all: unfold complete_valid_probe in *; run_steps; try reject_case.

  - match goal with H : apply_probe_outcome _ _ _ = Ok ?s1, H' : bump_on_change _ _ = Ok ?s' |- _ =>
      pose proof (effect_complete account_id policy st lease _ outcome s1 s' t m Hc Hg Hp H H') as Heff end.
    case_decide; run_steps; done.
  - case_decide; run_steps.
Qed.

Lemma reclaim_effect t m st' r :
  validate_clock (snapshot st) t m = Ok tt ->
  reclaim_expired_leases policy t m st = (st', r) ->
  match r with
  | Ok _ => st' = st /\ forall l, l ∈ leases st -> m < lr_expires_at l
  | Err e => effect account_id policy st (refused_event t e) st' (Some e)
  end.
Proof.
  intros Hclock Hrun. unfold reclaim_expired_leases in Hrun. run_steps.
  destruct (existsb _ _) eqn:Hex; run_steps; cbn.
  - eapply effect_expire; try done. intros Hls. by rewrite Hls in Hex.
  - reject_case.
  - split; [done|]. intros l Hl. apply N.lt_nge. intros Hle%N.leb_le.
    apply not_true_iff_false in Hex. apply Hex, existsb_exists. exists l. by rewrite <- list_elem_of_In.
Qed.

Lemma admit_effect g t m :
  validate_clock (snapshot st) t m = Ok tt ->
  let run := forget (admit_probe account_id policy t m st) in
  effect account_id policy st (breaker_event_of (AcquireRequest g t m) run.2 st) run.1 run.2.
Proof.
  intros Hclock. destruct (admit_probe account_id policy t m st) as [st' r] eqn:Hrun. cbv zeta.
  unfold admit_probe in Hrun. run_steps; tidy; cbn; try reject_case.
  unfold prepare_probe_lease in *. run_steps; tidy.
  unfold MonotonicMillis_new in *. case_match; simplify_eq/=. run_steps. by apply effect_admit.
Qed.

Lemma acquire_effect g t m :
  let run := forget (acquire_probe_body account_id policy g t m st) in
  effect account_id policy st (breaker_event_of (AcquireRequest g t m) run.2 st) run.1 run.2.
Proof.
  destruct (acquire_probe_body account_id policy g t m st) as [st' r] eqn:Hrun. cbv zeta.
  unfold acquire_probe_body in Hrun. run_steps; tidy; cbn; try reject_case.
  all: revert select (reclaim_expired_leases _ _ _ _ = _); intros Hre%reclaim_effect; try done.
  destruct Hre as [-> _]. pose proof (admit_effect g t m ltac:(done)) as Ha.
  revert select (admit_probe _ _ _ _ _ = _). intros Hrun. by rewrite Hrun in Ha.
Qed.
End effects.

(** Every request has one of the listed effects. *)
Lemma serve_effect account_id policy request st :
  let run := serve account_id policy request st in
  effect account_id policy st (breaker_event_of request run.2 st) run.1 run.2.
Proof.
  destruct request; cbn [serve];
    [apply observe_effect | apply acquire_effect | apply validate_effect | apply complete_effect
    | apply reset_effect].
Qed.

(** *** What the snapshot helpers compute *)

Lemma mark_open_Ok s policy s' :
  mark_open s policy = Ok s' <->
  exists opened, cs_last_observed_at s = Some opened /\
    opened + recovery_window_millis policy <= u64_max /\
    s' = s <| cs_state := Open |> <| cs_opened_at := Some opened |>
           <| cs_recovery_eligible_at := Some (opened + recovery_window_millis policy) |>
           <| cs_recovery_successes := 0 |> <| cs_half_open_in_flight := 0 |>.
Proof.
  unfold mark_open. split.
  - intros H. run_steps. eauto.
  - intros (opened & -> & Hb & ->). cbn. unfold checked_add. by rewrite (proj2 (N.leb_le _ _) Hb).
Qed.
Lemma next_Ok g g' : next g = Ok g' <-> g' = g + 1 /\ g < u64_max.
Proof.
  unfold next. rewrite ok_or_Ok, checked_add_Some. lia.
Qed.
Lemma bump_Ok s s1 s' :
  bump_on_change s s1 = Ok s' <->
  (cs_state s1 = cs_state s /\ s' = s1) \/
  (cs_state s1 <> cs_state s /\ cs_generation s1 < u64_max /\
   s' = s1 <| cs_generation := cs_generation s1 + 1 |>).
Proof.
  unfold bump_on_change. case_decide as Hs; [naive_solver|]. split.
  - intros H. run_steps. right. split; [done|].
    match goal with H : next _ = Ok _ |- _ => by apply next_Ok in H as [-> ?] end.
  - intros [[? _]|(_ & Hg & ->)]; [done|]. by rewrite (proj2 (next_Ok _ _) (conj eq_refl Hg)).
Qed.
Lemma fail_closed_Ok s policy s' :
  fail_closed s policy = Ok s' <->
  exists s1, mark_open s policy = Ok s1 /\ cs_generation s < u64_max /\
    s' = s1 <| cs_generation := cs_generation s + 1 |>.
Proof.
  unfold fail_closed. split.
  - intros H. run_steps.
    match goal with H : mark_open _ _ = Ok ?s1, H' : next _ = Ok _ |- _ =>
      exists s1; apply mark_open_Ok in H as (o & Ho & Hb & ->); apply next_Ok in H' as [-> Hg] end.
    cbn in *. split; [|done]. apply mark_open_Ok. eauto.
  - intros (s1 & Hm & Hg & ->). rewrite Hm. cbn.
    apply mark_open_Ok in Hm as (o & Ho & Hb & ->). cbn.
    by rewrite (proj2 (next_Ok _ _) (conj eq_refl Hg)).
Qed.

(** The state an outcome leads to, whatever the counters. *)
Lemma apply_closed_Ok s outcome policy s' :
  cs_state s = Closed -> apply_closed_outcome s outcome policy = Ok s' ->
  (cs_state s' = Closed /\ cs_opened_at s' = cs_opened_at s /\
   cs_recovery_eligible_at s' = cs_recovery_eligible_at s /\
   (cs_consecutive_failures s' = 0 \/ cs_consecutive_failures s' = cs_consecutive_failures s \/
    cs_consecutive_failures s' < failure_threshold policy)) \/
  (cs_state s' = Open /\ exists opened, cs_last_observed_at s = Some opened /\ cs_opened_at s' = Some opened /\
   cs_recovery_eligible_at s' = Some (opened + recovery_window_millis policy)) \/
  (cs_state s' = Terminal /\ cs_opened_at s' = cs_last_observed_at s /\ cs_recovery_eligible_at s' = None).
Proof.
  unfold apply_closed_outcome. intros Hs H.
  destruct outcome; run_steps; simplify_eq/=; [left; naive_solver|left; naive_solver| |naive_solver].
  case_match; tidy; simplify_eq/=; [|naive_solver lia].
  match goal with H : mark_open _ _ = Ok _ |- _ => apply mark_open_Ok in H as (o & Ho & Hb & ->) end.
  right. left. naive_solver.
Qed.

Lemma mark_open_frame s policy s' : mark_open s policy = Ok s' -> same_frame s s'.
Proof. by intros (o & _ & _ & ->)%mark_open_Ok. Qed.
Lemma apply_closed_frame s outcome policy s' :
  apply_closed_outcome s outcome policy = Ok s' ->
  same_frame s s' /\ (cs_half_open_in_flight s' = cs_half_open_in_flight s \/ cs_half_open_in_flight s' = 0).
Proof.
  unfold apply_closed_outcome. intros H.
  destruct outcome; run_steps; [| |case_match|]; simplify_eq/=; try (by split; [|left]).
  match goal with H : mark_open _ _ = Ok _ |- _ => apply mark_open_Ok in H as (o & Ho & Hb & ->) end.
  by split; [|right].
Qed.
Lemma close_recovered_frame s policy : same_frame s (close_recovered_circuit s policy).
Proof. unfold close_recovered_circuit. by destruct (_ && _). Qed.
Lemma apply_probe_frame s outcome policy s' :
  apply_probe_outcome s outcome policy = Ok s' -> same_frame s s'.
Proof.
  unfold apply_probe_outcome. intros H. run_steps.
  match goal with |- same_frame _ (close_recovered_circuit ?x _) =>
    pose proof (close_recovered_frame x policy) as (E1 & E2 & E3 & E4); assert (same_frame s x) as (F1 & F2 & F3 & F4) end.
  { destruct outcome; run_steps; simplify_eq/=; try done. by eapply mark_open_frame. }
  unfold same_frame. by rewrite E1, E2, E3, E4.
Qed.

(** Completing a probe of a half-open circuit. *)
Lemma apply_probe_Ok s outcome policy s' :
  cs_state s = HalfOpen -> apply_probe_outcome s outcome policy = Ok s' ->
  (cs_state s' = HalfOpen /\ cs_opened_at s' = cs_opened_at s /\
   cs_recovery_eligible_at s' = cs_recovery_eligible_at s /\
   cs_half_open_in_flight s' = cs_half_open_in_flight s /\
   (cs_half_open_in_flight s = 0 -> cs_recovery_successes s' < policy_recovery_successes policy)) \/
  (cs_state s' = Closed /\ cs_half_open_in_flight s' = 0 /\ cs_half_open_in_flight s = 0 /\
   cs_consecutive_failures s' = 0 /\
   cs_opened_at s' = None /\ cs_recovery_eligible_at s' = None) \/
  (cs_state s' = Open /\ cs_half_open_in_flight s' = 0 /\
   exists opened, cs_last_observed_at s = Some opened /\ cs_opened_at s' = Some opened /\
   cs_recovery_eligible_at s' = Some (opened + recovery_window_millis policy)) \/
  (cs_state s' = Terminal /\ cs_half_open_in_flight s' = 0 /\
   cs_opened_at s' = cs_last_observed_at s /\ cs_recovery_eligible_at s' = None).
Proof.
  unfold apply_probe_outcome. intros Hs H. run_steps.
  assert (forall x, cs_state x = HalfOpen -> close_recovered_circuit x policy =
    if (policy_recovery_successes policy <=? cs_recovery_successes x) && (cs_half_open_in_flight x =? 0)
    then x <| cs_state := Closed |> <| cs_consecutive_failures := 0 |>
         <| cs_opened_at := None |> <| cs_recovery_eligible_at := None |> else x) as Hc.
  { intros y Hy. unfold close_recovered_circuit. by rewrite bool_decide_eq_true_2. }
  destruct outcome; run_steps; simplify_eq/=.
  - rewrite Hc by done. cbn. destruct (N.leb_spec (policy_recovery_successes policy) (cs_recovery_successes s + 1));
      destruct (N.eqb_spec (cs_half_open_in_flight s) 0); cbn; naive_solver lia.
  - rewrite Hc by done. match goal with |- context [cs_recovery_successes ?x] =>
      destruct (N.leb_spec (policy_recovery_successes policy) (cs_recovery_successes x));
      destruct (N.eqb_spec (cs_half_open_in_flight x) 0) end; cbn; naive_solver lia.
  - match goal with H : mark_open _ _ = Ok _ |- _ => apply mark_open_Ok in H as (o & Ho & Hb & ->) end.
    right. right. left. unfold close_recovered_circuit. cbn. naive_solver.
  - right. right. right. unfold close_recovered_circuit, mark_terminal. cbn. naive_solver.
Qed.

(** *** The invariant *)

Lemma len_nil_iff {A} (l : list A) : len l = 0 <-> l = [].
Proof. unfold len. destruct l; cbn; split; try done; lia. Qed.
Lemma len_app_one {A} (l : list A) x : len (l ++ [x]) = len l + 1.
Proof. unfold len. rewrite length_app. cbn. lia. Qed.
Lemma len_cons_one {A} (x : A) l : len (x :: l) = len l + 1.
Proof. unfold len. cbn. lia. Qed.
Lemma len_delete {A} (l : list A) i x : l !! i = Some x -> len (delete i l) = len l - 1.
Proof. intros Hi. unfold len. rewrite length_delete by eauto. apply lookup_lt_Some in Hi. lia. Qed.
Lemma capacity_small policy (ls : list LeaseRecord) :
  CircuitPolicy_wf policy -> len ls <= max_half_open_probes policy -> len ls <= u16_max.
Proof. unfold CircuitPolicy_wf, MAX_PROBES, u16_max. lia. Qed.

Lemma state_inv_leases policy s ls : state_inv policy s ls -> ls <> [] -> cs_state s = HalfOpen.
Proof. unfold state_inv. destruct (cs_state s); naive_solver. Qed.

Section invariant.
  Context (account_id : AccountId) (policy : CircuitPolicy) (Hwf : CircuitPolicy_wf policy).
  Implicit Types st : CircuitStateData.

Lemma circuit_initial_inv : circuit_inv account_id policy (initial_state account_id).
Proof.
  destruct Hwf as ((? & _) & _).
  split; cbn; try done; [|unfold len; cbn; lia|constructor|set_solver].
  unfold state_inv. cbn. repeat split. lia.
Qed.

Lemma observe_effect_inv st s1 s' outcome t m :
  circuit_inv account_id policy st -> cs_state (snapshot st) = Closed ->
  apply_closed_outcome (advance_clock (snapshot st) t m) outcome policy = Ok s1 ->
  bump_on_change (snapshot st) s1 = Ok s' ->
  circuit_inv account_id policy (st <| snapshot := s' |>).
Proof.
  intros [Ha Hs Hf Hc Hn Hi] Hcl Happ Hb.
  pose proof (apply_closed_frame _ _ _ _ Happ) as [(Ef & _ & Eo & _) Hfl].
  apply apply_closed_Ok in Happ; [|done]. cbn in *.
  unfold state_inv in Hs. rewrite Hcl in Hs. destruct Hs as (Hls & Hlt & Ho & He).
  rewrite Hls in *. cbn in *.
  assert (cs_half_open_in_flight s' = 0 /\ cs_account_id s' = account_id /\
          state_inv policy s' []) as (? & ? & ?).
  { destruct Hwf as ((? & _) & _).
    apply bump_Ok in Hb as [[Hst ->]|(Hst & _ & ->)]; cbn; (split; [by destruct Hfl as [->| ->]|]);
      (split; [congruence|]); unfold state_inv; cbn;
      destruct Happ as [(-> & ? & ? & ?)|[(-> & ? & ? & ? & ?)|(-> & ? & ?)]].
    all: try congruence.
    all: repeat split; eauto; try congruence; try lia. }
  split; cbn; rewrite ?Hls; done.
Qed.

Lemma expire_effect_inv st s' t m :
  circuit_inv account_id policy st ->
  fail_closed (advance_clock (snapshot st) t m) policy = Ok s' ->
  circuit_inv account_id policy (st <| leases := [] |> <| snapshot := s' |>).
Proof.
  intros [Ha Hs Hf Hc Hn Hi] (s1 & (o & [= <-] & _ & ->)%mark_open_Ok & _ & ->)%fail_closed_Ok.
  split; cbn; try done; [unfold state_inv; cbn; eauto|unfold len; cbn; lia|constructor|set_solver].
Qed.

Lemma admission_inv st t :
  validate_probe_admission st policy t = Ok tt ->
  cs_state (snapshot st) <> Closed /\ cs_state (snapshot st) <> Terminal /\
  (exists e, cs_recovery_eligible_at (snapshot st) = Some e /\ e <= t) /\
  len (leases st) < max_half_open_probes policy.
Proof.
  unfold validate_probe_admission, validate_probe_state, validate_recovery_window, validate_probe_capacity.
  intros H. run_steps; tidy. eauto 10.
Qed.

Lemma admit_effect_inv st t m :
  circuit_inv account_id policy st -> validate_probe_admission st policy t = Ok tt ->
  let ls := leases st ++ [mk_LeaseRecord (next_lease_id st) (m + probe_lease_millis policy)] in
  circuit_inv account_id policy
    (mk_CircuitStateData
       (advance_clock ((transition_to_half_open (snapshot st))
          <| cs_half_open_in_flight := truncate u16_max (len ls) |>) t m)
       ls (next_lease_id st + 1)).
Proof.
  intros [Ha Hs Hf Hc Hn Hi] (Hncl & Hnt & (e & He & _) & Hcap)%admission_inv. cbn.
  assert (len (leases st ++ [mk_LeaseRecord (next_lease_id st) (m + probe_lease_millis policy)])
          <= max_half_open_probes policy) as Hcap' by (rewrite len_app_one; lia).
  split; cbn [snapshot leases next_lease_id].
  - unfold transition_to_half_open. by case_decide.
  - unfold state_inv, transition_to_half_open in *.
    destruct (cs_state (snapshot st)) eqn:E; try done; repeat case_decide; try done; cbn.
    + split; [by intros [_ [=]]%app_nil|]. destruct Hs as (_ & ?). done.
    + rewrite E. split; [by intros [_ [=]]%app_nil|]. apply Hs.
  - cbn. apply truncate_small. eauto using capacity_small.
  - done.
  - rewrite fmap_app, NoDup_app. repeat split; [done| |cbn; apply NoDup_singleton].
    intros x (l & -> & Hl)%list_elem_of_fmap. cbn. rewrite list_elem_of_singleton.
    specialize (Hi l Hl). lia.
  - intros l [Hl| ->%list_elem_of_singleton]%elem_of_app; [specialize (Hi l Hl)|cbn]; lia.
Qed.

Lemma complete_effect_inv st index id outcome s1 s' t m :
  circuit_inv account_id policy st ->
  position_of id (leases st) = Some index ->
  apply_probe_outcome
    (advance_clock ((snapshot st) <| cs_half_open_in_flight :=
       truncate u16_max (len (leases st) - 1) |>) t m) outcome policy = Ok s1 ->
  bump_on_change (snapshot st) s1 = Ok s' ->
  circuit_inv account_id policy
    (st <| leases := if decide (cs_state s' = HalfOpen) then delete index (leases st) else [] |>
        <| snapshot := s' |>).
Proof.
  intros [Ha Hs Hf Hc Hn Hi] (l & Hl & _)%position_of_Some Happ Hb.
  assert (leases st <> []) as Hne by (by intros E; rewrite E in Hl).
  pose proof (state_inv_leases _ _ _ Hs Hne) as Hho.
  pose proof (apply_probe_frame _ _ _ _ Happ) as (Ef & _ & Eo & _).
  assert (truncate u16_max (len (leases st) - 1) = len (delete index (leases st))) as Hlen.
  { rewrite truncate_small, (len_delete _ _ _ Hl); [done|].
    pose proof (capacity_small _ _ Hwf Hc). lia. }
  rewrite Hlen in Happ. apply apply_probe_Ok in Happ; [|done]. cbn in *.
  unfold state_inv in Hs. rewrite Hho in Hs. destruct Hs as (_ & o & Ho & He).
  pose proof (len_delete _ _ _ Hl) as Hdel.
  assert (cs_account_id s' = account_id) as Hacc.
  { apply bump_Ok in Hb as [[_ ->]|(_ & _ & ->)]; cbn; congruence. }
  destruct Hwf as ((? & _) & _).
  apply bump_Ok in Hb as [[Hst ->]|(Hst & _ & ->)]; rewrite Hho in Hst.
  - rewrite decide_True by done. destruct Happ as [(_ & Ho' & He' & Hf' & Hz)|[(E & _)|[(E & _)|(E & _)]]]; try congruence.
    split; cbn; [done| |done|lia| |].
    + unfold state_inv. rewrite Hst. rewrite Ho', He', Ho, He. split; [|eauto].
      intros E. apply Hz. by rewrite E.
    + rewrite list_fmap_delete. eapply sublist_NoDup; [done|apply sublist_delete].
    + intros l' Hl'%list_elem_of_delete_inv. auto.
  - cbn in *. destruct Happ as [(? & _)|Happ]; [done|].
    rewrite decide_False by done.
    split; cbn; [done| |destruct Happ as [(_ & -> & _)|[(_ & -> & _)|(_ & -> & _)]]; done|unfold len; cbn; lia|constructor|set_solver].
    unfold state_inv. cbn.
    destruct Happ as [(-> & _ & _ & -> & -> & ->)|[(-> & _ & ? & _ & -> & ->)|(-> & _ & -> & ->)]].
    + repeat split. lia.
    + eauto.
    + split; [done|]. split; eauto.
Qed.

Lemma reset_effect_inv st g t m :
  circuit_inv account_id policy st ->
  circuit_inv account_id policy
    (st <| leases := [] |>
        <| snapshot := (clear_recovery_state (advance_clock (snapshot st) t m))
             <| cs_generation := g |> |>).
Proof.
  intros [Ha Hs Hf Hc Hn Hi]. destruct Hwf as ((? & _) & _).
  split; cbn; try done; [unfold state_inv; cbn; repeat split; lia|unfold len; cbn; lia|constructor|set_solver].
Qed.

Lemma effect_preserves st ev st' e :
  circuit_inv account_id policy st -> effect account_id policy st ev st' e -> circuit_inv account_id policy st'.
Proof.
  intros Hst [] ; eauto using observe_effect_inv, expire_effect_inv, admit_effect_inv,
    complete_effect_inv, reset_effect_inv.
Qed.

Lemma circuit_reachable_inv st : reachable account_id policy st -> circuit_inv account_id policy st.
Proof.
  intros Hr. refine (rtc_invariant _ _ _ _ _ Hr circuit_initial_inv).
  intros x y Hx [request <-]. eauto using effect_preserves, serve_effect.
Qed.
End invariant.

(** *** Moves of the breaker *)

Lemma view_closed st : cs_state (snapshot st) = Closed ->
  breaker_view st = BreakerClosed (cs_generation (snapshot st)) (cs_consecutive_failures (snapshot st)).
Proof. unfold breaker_view. by intros ->. Qed.
Lemma view_half_open st : cs_state (snapshot st) = HalfOpen ->
  breaker_view st = BreakerHalfOpen (cs_generation (snapshot st)) (cs_recovery_successes (snapshot st))
    (lr_id <$> leases st) (cs_recovery_eligible_at (snapshot st)).
Proof. unfold breaker_view. by intros ->. Qed.

Lemma observed_move policy st s1 s' outcome t m :
  cs_state (snapshot st) = Closed ->
  apply_closed_outcome (advance_clock (snapshot st) t m) outcome policy = Ok s1 ->
  bump_on_change (snapshot st) s1 = Ok s' ->
  breaker_move policy (breaker_view st) (Observed outcome t) (breaker_view (st <| snapshot := s' |>)).
Proof.
  intros Hcl Happ Hb. rewrite (view_closed st Hcl). unfold apply_closed_outcome in Happ.
  destruct outcome; run_steps; simplify_eq/=.
  - apply bump_Ok in Hb as [[_ ->]|[Hne _]]; cbn in *; [|done]. unfold breaker_view. cbn. rewrite Hcl. apply move_calm.
  - apply bump_Ok in Hb as [[_ ->]|[Hne _]]; cbn in *; [|done]. unfold breaker_view. cbn. rewrite Hcl. apply move_ignore.
  - case_match; tidy; run_steps; simplify_eq/=.
    + match goal with H : mark_open _ _ = Ok _ |- _ => apply mark_open_Ok in H as (o & [= <-] & _ & ->) end. cbn in *.
      apply bump_Ok in Hb as [[Hne _]|(_ & _ & ->)]; cbn in *; [congruence|]. by apply move_trip.
    + apply bump_Ok in Hb as [[_ ->]|[Hne _]]; cbn in *; [|done]. unfold breaker_view. cbn. rewrite Hcl. by apply move_strike.
  - apply bump_Ok in Hb as [[Hne _]|(_ & _ & ->)]; cbn in *; [congruence|]. apply move_condemn.
Qed.

Lemma completed_move account_id policy st lease index outcome s1 s' t m :
  CircuitPolicy_wf policy -> circuit_inv account_id policy st ->
  position_of (pl_id lease) (leases st) = Some index ->
  apply_probe_outcome
    (advance_clock ((snapshot st) <| cs_half_open_in_flight := truncate u16_max (len (leases st) - 1) |>) t m) outcome policy = Ok s1 ->
  bump_on_change (snapshot st) s1 = Ok s' ->
  breaker_move policy (breaker_view st) (Completed (pl_id lease) outcome t)
    (breaker_view (st <| leases := if decide (cs_state s' = HalfOpen) then delete index (leases st) else [] |> <| snapshot := s' |>)).
Proof.
  intros Hwf [_ Hs _ Hcap _ _] Hp Happ Hb. pose proof (position_of_held _ _ _ Hp) as Hheld.
  apply position_of_Some in Hp as (l & Hl & Hid & _).
  assert (leases st <> []) as Hne by (intros E; by rewrite E in Hl).
  pose proof (state_inv_leases _ _ _ Hs Hne) as Hho. rewrite (view_half_open st Hho).
  assert (truncate u16_max (len (leases st) - 1) = len (delete index (leases st))) as Hlen.
  { rewrite truncate_small, (len_delete _ _ _ Hl); [done|]. pose proof (capacity_small _ _ Hwf Hcap). lia. }
  rewrite Hlen in Happ. unfold apply_probe_outcome, close_recovered_circuit in Happ.
  destruct (counted (cs_recovery_successes (snapshot st)) outcome) as [k'|] eqn:Hk.
  - assert (exists x, cs_state x = HalfOpen /\ cs_recovery_successes x = k' /\ cs_half_open_in_flight x = len (delete index (leases st)) /\
      cs_generation x = cs_generation (snapshot st) /\ cs_recovery_eligible_at x = cs_recovery_eligible_at (snapshot st) /\
      s1 = if (policy_recovery_successes policy <=? k') && (len (delete index (leases st)) =? 0)
           then x <| cs_state := Closed |> <| cs_consecutive_failures := 0 |> <| cs_opened_at := None |> <| cs_recovery_eligible_at := None |>
           else x) as (x & X1 & X2 & X3 & X4 & X5 & ->).
    { exists ((advance_clock ((snapshot st) <| cs_half_open_in_flight := len (delete index (leases st)) |>) t m) <| cs_recovery_successes := k' |>).
      destruct outcome; try discriminate Hk; injection Hk as <-; run_steps; simplify_eq/=; rewrite Hho, bool_decide_eq_true_2 by done;
        by split_and!. }
    clear Happ. destruct (N.leb_spec (policy_recovery_successes policy) k') as [Hk'|Hk'];
      [destruct (N.eqb_spec (len (delete index (leases st))) 0) as [Hz|Hz]|]; cbn [andb] in Hb.
    + apply bump_Ok in Hb as [[Hst _]|(_ & _ & ->)]; cbn in *; [congruence|]. unfold breaker_view. cbn. rewrite X4.
      apply len_nil_iff in Hz. assert (leases st = [l]) as ->.
      { clear -Hl Hz. destruct (leases st) as [|a ls]; [done|]. destruct index as [|index]; [|discriminate Hz]. by injection Hl as ->; cbn in Hz; subst ls. }
      cbn. rewrite Hid. by eapply move_recover.
    + apply bump_Ok in Hb as [[_ ->]|(Hst & _)]; [|congruence]. rewrite X1, decide_True, view_half_open by done. cbn. rewrite X2, X4, X5, list_fmap_delete.
      eapply move_pass; [by rewrite list_lookup_fmap, Hl, <- Hid|done|]. intros [_ Hn]. apply Hz, len_nil_iff.
      rewrite <- list_fmap_delete in Hn. by apply fmap_nil_inv in Hn.
    + apply bump_Ok in Hb as [[_ ->]|(Hst & _)]; [|congruence]. rewrite X1, decide_True, view_half_open by done. cbn. rewrite X2, X4, X5, list_fmap_delete.
      eapply move_pass; [by rewrite list_lookup_fmap, Hl, <- Hid|done|]. intros [Hn _]. lia.
  - destruct outcome; try discriminate Hk; run_steps; simplify_eq/=.
    + match goal with H : mark_open _ _ = Ok _ |- _ => apply mark_open_Ok in H as (o & [= <-] & _ & ->) end. cbn in *.
      rewrite bool_decide_eq_false_2 in Hb by done.
      apply bump_Ok in Hb as [[Hst _]|(_ & _ & ->)]; cbn in *; [congruence|]. by apply move_relapse.
    + cbn in Hb. rewrite ?bool_decide_eq_false_2 in Hb by done.
      apply bump_Ok in Hb as [[Hst _]|(_ & _ & ->)]; cbn in *; [congruence|]. by apply move_give_up.
Qed.

Lemma effect_move account_id policy st ev st' e :
  CircuitPolicy_wf policy -> circuit_inv account_id policy st -> effect account_id policy st ev st' e ->
  breaker_move policy (breaker_view st) ev (breaker_view st').
Proof.
  intros Hwf Hinv Heff. pose proof Hinv as [_ Hs _ _ _ Hid].
  destruct Heff as [t e He|s1 s' outcome t m Hcl _ Happ Hb|s' t m Hls _ Hf|t m _ Hadm ls|id Hheld
    |lease index outcome s1 s' t m _ _ Hp Happ Hb|g t m Ht _ Hg].
  - destruct e; try done; apply move_refuse.
  - by eapply observed_move.
  - apply fail_closed_Ok in Hf as (s1 & (o & [= <-] & _ & ->)%mark_open_Ok & _ & ->).
    rewrite (view_half_open st) by by eapply state_inv_leases. apply move_expire. by intros ?%fmap_nil_inv.
  - apply admission_inv in Hadm as (Hn & Hn' & (el & Hel & Hle) & Hcap).
    assert (next_lease_id st ∉ (lr_id <$> leases st)) as Hfresh.
    { intros (l & Hl & Hin)%list_elem_of_fmap. specialize (Hid l Hin). lia. }
    unfold breaker_view, transition_to_half_open. cbn. subst ls. rewrite fmap_app. cbn.
    destruct (cs_state (snapshot st)) eqn:E; try done.
    + rewrite decide_True by done. cbn. unfold state_inv in Hs. rewrite E in Hs. destruct Hs as [-> _]. cbn. rewrite Hel. by apply move_probe.
    + rewrite decide_False by done. cbn. rewrite E, Hel. apply move_another; [done| |done]. unfold len in *. by rewrite length_fmap.
  - rewrite (view_half_open st); [by apply move_validate|]. eapply state_inv_leases; [done|]. intros E. rewrite E in Hheld. by apply not_elem_of_nil in Hheld.
  - by eapply completed_move.
  - apply next_Ok in Hg as [-> _]. unfold breaker_view. cbn. rewrite Ht. apply move_reset.
Qed.

(** The snapshot counts the probes of the view. *)
Lemma view_probes account_id policy st : circuit_inv account_id policy st ->
  breaker_probes (breaker_view st) = lr_id <$> leases st /\ cs_half_open_in_flight (snapshot st) = len (breaker_probes (breaker_view st)).
Proof.
  intros [_ Hs Hf _ _ _]. assert (breaker_probes (breaker_view st) = lr_id <$> leases st) as Heq.
  { unfold breaker_view, state_inv in *. destruct (cs_state (snapshot st)); cbn; try done; by destruct Hs as [-> _]. }
  rewrite Heq, Hf. split; [done|]. unfold len. by rewrite length_fmap.
Qed.

(** *** Time and identifiers only grow *)

Lemma validate_clock_Ok s t m :
  validate_clock s t m = Ok tt <-> option_le (cs_last_observed_at s) (Some t) /\ option_le (cs_last_monotonic s) (Some m).
Proof.
  unfold validate_clock, option_le.
  destruct (cs_last_observed_at s) as [o|], (cs_last_monotonic s) as [o'|]; cbn;
    repeat match goal with |- context [?a <? ?b] => destruct (N.ltb_spec a b) end; cbn;
    split; try done; try lia; intros; exfalso; lia.
Qed.

Lemma effect_history account_id policy st ev st' e :
  effect account_id policy st ev st' e -> history_le st st'.
Proof.
  unfold history_le.
  assert (forall o, option_le o o) as Hrefl by (intros []; cbn; [lia|done]).
  destruct 1 as [e|s1 s' outcome t m Hcl Hc Happ Hb|s' t m Hls Hc Hf|t m Hc Hadm ls|
    |lease index outcome s1 s' t m Hc _ Hp Happ Hb|g t m Ht Hc Hg]; cbn [snapshot next_lease_id set_field];
    try (repeat split; auto; lia); apply validate_clock_Ok in Hc as [Hc1 Hc2].
  - pose proof (apply_closed_frame _ _ _ _ Happ) as [(_ & Eg & Et & Em) _]. cbn in *.
    apply bump_Ok in Hb as [[_ ->]|(_ & _ & ->)]; cbn; rewrite ?Et, ?Em; repeat split; auto; lia.
  - apply fail_closed_Ok in Hf as (s1 & (o & _ & _ & ->)%mark_open_Ok & _ & ->). cbn.
    repeat split; auto; lia.
  - cbn. unfold transition_to_half_open. case_decide; cbn; repeat split; auto; lia.
  - pose proof (apply_probe_frame _ _ _ _ Happ) as (_ & Eg & Et & Em). cbn in *.
    apply bump_Ok in Hb as [[_ ->]|(_ & _ & ->)]; cbn; rewrite ?Et, ?Em; repeat split; auto; lia.
  - apply next_Ok in Hg as [-> _]. cbn. repeat split; auto; lia.
Qed.

(** *** A lease identifier is used once *)

Lemma spent_effect account_id policy st ev st' e id :
  spent id st -> effect account_id policy st ev st' e -> spent id st'.
Proof.
  intros [Hn Hlt] Heff. pose proof (effect_history _ _ _ _ _ _ Heff) as (_ & _ & _ & Hid).
  split; [|lia]. destruct Heff; cbn; try done; try apply not_elem_of_nil.
  - subst ls. rewrite fmap_app, elem_of_app. cbn. rewrite list_elem_of_singleton. intros [?| ->]; [done|lia].
  - case_decide; [|apply not_elem_of_nil]. rewrite list_fmap_delete.
    intros ?%list_elem_of_delete_inv. done.
Qed.

Lemma spent_reachable account_id policy st st' id :
  spent id st -> rtc (circuit_step account_id policy) st st' -> spent id st'.
Proof.
  intros Hs Hr. refine (rtc_invariant _ (spent id) _ _ _ Hr Hs).
  intros x y Hx [request <-]. eauto using spent_effect, serve_effect.
Qed.

Lemma spent_refused account_id st lease t m index :
  spent (pl_id lease) st -> validate_lease_request st account_id lease t m <> Ok index.
Proof.
  intros [Hn _] (_ & _ & _ & (l & Hl & Hid & _)%position_of_Some & _)%lease_request_inv.
  apply Hn. rewrite <- Hid. by eapply list_elem_of_fmap_2, list_elem_of_lookup_2.
Qed.

Lemma complete_spends account_id policy st lease outcome t m st' s :
  circuit_inv account_id policy st ->
  complete_probe_body account_id policy lease outcome t m st = (st', Ok s) -> spent (pl_id lease) st'.
Proof.
  intros [_ _ _ _ Hnd Hid] Hrun. unfold complete_probe_body in Hrun. run_steps.
  revert select (validate_lease_request _ _ _ _ _ = _).
  intros (_ & _ & _ & (l & Hl & Hll & _)%position_of_Some & _)%lease_request_inv.
  case_match; run_steps.
  { unfold expire_probe in *. run_steps. }
  unfold complete_valid_probe in *. run_steps.
  lazymatch type of Hl with _ !! ?i = _ => rename i into index end.
  assert (pl_id lease ∉ lr_id <$> delete index (leases st)) as Hgone.
  { rewrite list_fmap_delete. intros Hin.
    assert (lr_id <$> leases st ≡ₚ pl_id lease :: delete index (lr_id <$> leases st)) as Hp.
    { apply delete_Permutation. by rewrite list_lookup_fmap, Hl, <- Hll. }
    rewrite Hp in Hnd. by inversion Hnd. }
  case_decide; run_steps; cbn; (split; [|rewrite <- Hll; by eapply Hid, list_elem_of_lookup_2]); cbn.
  - done.
  - apply not_elem_of_nil.
Qed.

(** *** Recovery *)

Lemma clock_Ok s t m : validate_clock s t m = Ok tt <-> default 0 (cs_last_observed_at s) <= t /\ default 0 (cs_last_monotonic s) <= m.
Proof.
  rewrite validate_clock_Ok. unfold option_le. destruct (cs_last_observed_at s), (cs_last_monotonic s); cbn; split; intros [? ?]; split; try done; lia.
Qed.

Section recovery.
  Context (account_id : AccountId) (policy : CircuitPolicy) (Hwf : CircuitPolicy_wf policy).
  Implicit Types st : CircuitStateData.

Lemma acquire_runs st t m e :
  validate_clock (snapshot st) t m = Ok tt -> (forall l, l ∈ leases st -> m < lr_expires_at l) ->
  cs_state (snapshot st) = Open \/ cs_state (snapshot st) = HalfOpen ->
  cs_recovery_eligible_at (snapshot st) = Some e -> e <= t -> len (leases st) < max_half_open_probes policy ->
  m + probe_lease_millis policy <= 9000000000000000 -> next_lease_id st < u64_max ->
  acquire_probe_body account_id policy (cs_generation (snapshot st)) t m st =
    (with_probe policy t m st,
     Ok (mk_ProbeLease account_id (cs_generation (snapshot st)) (next_lease_id st) m (m + probe_lease_millis policy))).
Proof using Type.
  intros Hclock Hlive Hst He Het Hcap Hroom Hid.
  unfold acquire_probe_body, get. unfold mbind, act_bind, lift. rewrite Hclock.
  rewrite N.eqb_refl. cbn [negb reject_if].
  unfold reclaim_expired_leases, admit_probe, mbind, act_bind, get, lift.
  assert (existsb (fun lease => lr_expires_at lease <=? m) (leases st) = false) as ->.
  { apply not_true_iff_false. intros (l & Hl%list_elem_of_In & Hle%N.leb_le)%existsb_exists. specialize (Hlive l Hl). lia. }
  cbn [mret act_ret].
  assert (validate_probe_admission st policy t = Ok tt) as ->.
  { unfold validate_probe_admission, validate_probe_state, validate_recovery_window, validate_probe_capacity.
    rewrite He, !bool_decide_eq_false_2 by (destruct Hst as [->| ->]; done). cbn.
    rewrite (proj2 (N.ltb_ge _ _) Het). cbn. by rewrite (proj2 (N.leb_gt _ _)) by done. }
  assert (prepare_probe_lease (next_lease_id st) m policy =
          Ok (next_lease_id st, next_lease_id st + 1, m + probe_lease_millis policy)) as ->.
  { unfold prepare_probe_lease, checked_add.
    rewrite (proj2 (N.leb_le (next_lease_id st + 1) u64_max)) by lia. cbn [ok_or mbind result_bind].
    rewrite (proj2 (N.leb_le (m + probe_lease_millis policy) u64_max)) by (unfold u64_max; lia).
    cbn [ok_or mbind result_bind].
    unfold MonotonicMillis_new. by rewrite (proj2 (N.ltb_ge _ _)) by done. }
  cbn. unfold with_probe, transition_to_half_open. by case_decide.
Qed.

(** A probe that ends without a failure: the last one may close the circuit. *)
Lemma complete_runs st lease k outcome d' t m :
  validate_lease_request st account_id lease t m = Ok k -> m < pl_expires_at lease ->
  (k < length (leases st))%nat -> len (leases st) <= u16_max ->
  cs_state (snapshot st) = HalfOpen -> counted (cs_recovery_successes (snapshot st)) outcome = Some d' -> d' <= u32_max ->
  cs_generation (snapshot st) < u64_max ->
  exists s' st', complete_probe_body account_id policy lease outcome t m st = (st', Ok s') /\
    next_lease_id st' = next_lease_id st /\ leases st' = delete k (leases st) /\
    if bool_decide (policy_recovery_successes policy <= d' /\ delete k (leases st) = [])
    then cs_state (snapshot st') = Closed /\ cs_generation (snapshot st') = cs_generation (snapshot st) + 1
    else cs_state (snapshot st') = HalfOpen /\ cs_recovery_successes (snapshot st') = d' /\
      cs_generation (snapshot st') = cs_generation (snapshot st) /\
      cs_recovery_eligible_at (snapshot st') = cs_recovery_eligible_at (snapshot st) /\
      cs_last_observed_at (snapshot st') = Some t /\ cs_last_monotonic (snapshot st') = Some m.
Proof using Type.
  intros Hreq Hm Hk Hsmall Hho Hd Hd' Hg. unfold complete_probe_body, get. unfold mbind, act_bind, lift. rewrite Hreq.
  rewrite (proj2 (N.leb_gt _ _)) by done. unfold complete_valid_probe, get, lift, mbind, act_bind.
  destruct (lookup_lt_is_Some_2 _ _ Hk) as [l Hl].
  assert (truncate u16_max (len (leases st) - 1) = len (delete k (leases st))) as ->.
  { rewrite truncate_small, (len_delete _ _ _ Hl); [done|lia]. }
  set (after := (advance_clock ((snapshot st) <| cs_half_open_in_flight := len (delete k (leases st)) |>) t m) <| cs_recovery_successes := d' |>).
  assert (apply_probe_outcome (advance_clock ((snapshot st) <| cs_half_open_in_flight := len (delete k (leases st)) |>) t m) outcome policy
    = Ok (close_recovered_circuit after policy)) as ->.
  { subst after. unfold apply_probe_outcome. destruct outcome; try discriminate Hd; injection Hd as <-; cbn; [|done].
    unfold checked_add. by rewrite (proj2 (N.leb_le _ u32_max)) by done. }
  unfold close_recovered_circuit. change (cs_state after) with (cs_state (snapshot st)). rewrite Hho, bool_decide_eq_true_2 by done. cbn [andb].
  change (cs_recovery_successes after) with d'. change (cs_half_open_in_flight after) with (len (delete k (leases st))).
  case_bool_decide as Hend.
  - destruct Hend as [Hle Hnil]. subst after. rewrite Hnil, (proj2 (N.leb_le _ _)) by done. change (len ([] : list LeaseRecord)) with 0. cbn. unfold bump_on_change. cbn.
    rewrite Hho, decide_False by done. cbn. rewrite (proj2 (next_Ok _ _) (conj eq_refl Hg)). cbn. eexists _, _. by split.
  - assert ((policy_recovery_successes policy <=? d') && (len (delete k (leases st)) =? 0) = false) as ->.
    { apply andb_false_iff. rewrite N.leb_gt, N.eqb_neq. destruct (N.lt_ge_cases d' (policy_recovery_successes policy)); [by left|right].
      intros Hz%len_nil_iff. by apply Hend. }
    subst after. cbn. unfold bump_on_change. cbn. rewrite Hho, decide_True by done. cbn. rewrite decide_True by done. cbn.
    eexists _, _. by split.
Qed.

Lemma begin_recovery g e t0 m0 d held st t m :
  in_recovery account_id policy g e t0 m0 d held st -> t0 <= t -> m0 <= m -> e <= t ->
  len held < max_half_open_probes policy -> Forall (fun expires => m < expires) (pl_expires_at <$> held) ->
  m + probe_lease_millis policy <= 9000000000000000 -> next_lease_id st < u64_max ->
  exists lease, acquire_probe_body account_id policy (cs_generation (snapshot st)) t m st = (with_probe policy t m st, Ok lease) /\
    pl_expires_at lease = m + probe_lease_millis policy /\
    in_recovery account_id policy g e t m d (held ++ [lease]) (with_probe policy t m st).
Proof using Hwf.
  intros [Hinv Hst Hg He Ho Hm Hls Hheld] Ht0 Hm0 Het Hcap Hlive Hroom Hid.
  assert (validate_clock (snapshot st) t m = Ok tt) as Hclock by (apply clock_Ok; lia).
  assert (len (leases st) < max_half_open_probes policy) as Hcap' by (rewrite Hls; unfold len in *; by rewrite length_fmap).
  pose proof (acquire_runs st t m e Hclock) as Hrun.
  eexists. split; [apply Hrun; try done; [|tauto]|].
  { intros l Hl. rewrite Hls in Hl. apply list_elem_of_fmap in Hl as (p & -> & Hp). cbn. rewrite Forall_fmap, Forall_forall in Hlive. by apply Hlive. }
  split; [done|]. split.
  - pose proof (serve_effect account_id policy (AcquireRequest (cs_generation (snapshot st)) t m) st) as Heff. cbn in Heff.
    rewrite Hrun in Heff; try done; [by eapply effect_preserves| |tauto].
    intros l Hl. rewrite Hls in Hl. apply list_elem_of_fmap in Hl as (p & -> & Hp). cbn. rewrite Forall_fmap, Forall_forall in Hlive. by apply Hlive.
  - right. unfold with_probe, transition_to_half_open. destruct Hst as [[Hs ->]|[Hs <-]]; case_decide; cbn; done || congruence.
  - unfold with_probe, transition_to_half_open. by case_decide.
  - unfold with_probe, transition_to_half_open. by case_decide.
  - cbn. lia.
  - cbn. lia.
  - cbn. by rewrite fmap_app, Hls.
  - apply Forall_app. split; [done|]. apply Forall_singleton. cbn. by rewrite Hg.
Qed.

Lemma finish_recovery g e t0 m0 d d' held st k outcome lease t m :
  in_recovery account_id policy g e t0 m0 d held st -> t0 <= t -> m0 <= m -> held !! k = Some lease -> m < pl_expires_at lease ->
  counted d outcome = Some d' -> d' <= u32_max -> g < u64_max ->
  exists s' st', complete_probe_body account_id policy lease outcome t m st = (st', Ok s') /\ next_lease_id st' = next_lease_id st /\
    if bool_decide (policy_recovery_successes policy <= d' /\ delete k held = [])
    then cs_state (snapshot st') = Closed /\ leases st' = [] /\ cs_generation (snapshot st') = g + 1
    else in_recovery account_id policy g e t m d' (delete k held) st'.
Proof using Hwf.
  intros [Hinv Hst Hg He Ho Hm Hls Hheld] Ht0 Hm0 Hk Hlive Hd Hd' Hroom. pose proof Hinv as [Ha Hsi Hf Hcap Hnd Hnext].
  pose proof (proj1 (Forall_lookup _ _) Hheld k lease Hk) as [Hacc Hgen].
  assert (leases st !! k = Some (mk_LeaseRecord (pl_id lease) (pl_expires_at lease))) as Hrec by (by rewrite Hls, list_lookup_fmap, Hk).
  assert (cs_state (snapshot st) = HalfOpen) as Hho by (eapply state_inv_leases; [done|intros E; by rewrite E in Hrec]).
  destruct Hst as [[Hs _]|[_ Hs]]; [congruence|].
  assert (validate_lease_request st account_id lease t m = Ok k) as Hreq.
  { unfold validate_lease_request. rewrite Hacc, bool_decide_eq_false_2 by (intros []; done). cbn. rewrite Hgen, Hg, N.eqb_refl. cbn.
    rewrite (proj2 (clock_Ok _ _ _)) by lia. cbn. apply ok_or_Ok, position_of_Some. eexists. split; [exact Hrec|]. split; [done|].
    intros j l' Hj Hjk Heq. assert (j = k) as ->; [|lia]. eapply (NoDup_lookup _ _ _ _ Hnd); rewrite list_lookup_fmap; [by rewrite Hj|]. cbn. by rewrite Hrec, Heq. }
  destruct (complete_runs st lease k outcome d' t m Hreq Hlive) as (s' & st' & Hrun & Hn & Hl' & Hcase); try done; try congruence.
  { by eapply lookup_lt_Some. }
  { by eapply capacity_small. }
  exists s', st'. split; [done|]. split; [done|].
  assert (delete k (leases st) = (fun l => mk_LeaseRecord (pl_id l) (pl_expires_at l)) <$> delete k held) as Hdel by (by rewrite Hls, list_fmap_delete).
  assert (delete k (leases st) = [] <-> delete k held = []) as Hiff by (rewrite Hdel; split; [by intros ?%fmap_nil_inv|by intros ->]).
  rewrite (bool_decide_ext _ (policy_recovery_successes policy <= d' /\ delete k held = [])) in Hcase by (by rewrite Hiff).
  case_bool_decide as Hend; [destruct Hend as [_ Hend%Hiff]; rewrite Hl', Hend; naive_solver|].
  destruct Hcase as (C1 & C2 & C3 & C4 & C5 & C6). split; try congruence.
  - pose proof (serve_effect account_id policy (CompleteRequest lease outcome t m) st) as Heff. cbn in Heff. rewrite Hrun in Heff. by eapply effect_preserves.
  - by right.
  - rewrite C5. cbn. lia.
  - rewrite C6. cbn. lia.
  - by apply Forall_delete.
Qed.

Lemma perform_recovers g e t0 m0 d held st actions :
  in_recovery account_id policy g e t0 m0 d held st -> recovery_schedule policy e t0 m0 d (pl_expires_at <$> held) actions -> actions <> [] ->
  g < u64_max -> next_lease_id st + len actions <= u64_max -> d + len actions <= u32_max ->
  exists st', perform account_id policy actions held st = (st', Ok []) /\
    cs_state (snapshot st') = Closed /\ leases st' = [] /\ cs_generation (snapshot st') = g + 1.
Proof using Hwf.
  revert t0 m0 d held st. induction actions as [|[t m|k outcome t m] rest IH]; intros t0 m0 d held st Hr Hs Hne Hg Hid Hd; [done|..]; cbn [recovery_schedule] in Hs;
    rewrite len_cons_one in Hid, Hd; cbn [perform].
  - destruct Hs as (Ht & Hm & He & Hcap & Hlive & Hroom & Hrest).
    destruct (begin_recovery g e t0 m0 d held st t m Hr Ht Hm He) as (lease & Hrun & Hx & Hr'); try done; [unfold len in *; by rewrite length_fmap in Hcap|lia|].
    unfold get, mbind, act_bind. rewrite Hrun. apply (IH t m d); [done| |intros ->|done|cbn; lia|lia].
    + rewrite fmap_app. cbn. by rewrite Hx.
    + cbn in Hrest. destruct Hrest as [_ Hnil]. by destruct held.
  - destruct Hs as (Ht & Hm & (x & Hx & Hlive) & d' & Hd' & Hlast & Hrest).
    rewrite list_lookup_fmap in Hx. apply fmap_Some in Hx as (lease & Hk & ->). rewrite Hk.
    assert (d' <= d + 1) as Hle by (destruct outcome; simplify_eq/=; lia).
    destruct (finish_recovery g e t0 m0 d d' held st k outcome lease t m Hr Ht Hm Hk Hlive Hd') as (s' & st' & Hrun & Hn & Hcase); [lia|done|].
    unfold mbind, act_bind. rewrite Hrun. rewrite <- list_fmap_delete in Hrest, Hlast. case_bool_decide as Hend.
    + destruct Hend as [Henough Hnil]. rewrite Hnil in *. rewrite (Hlast Henough eq_refl). cbn. by exists st'.
    + apply (IH t m d'); [done|done|intros ->|done|lia|lia]. cbn in Hrest. destruct Hrest as [Henough Hnil%fmap_nil_inv]. by apply Hend.
Qed.

Lemma one_by_one_schedule e t0 m0 t m n d :
  t0 <= t -> m0 <= m -> e <= t -> m + probe_lease_millis policy <= 9000000000000000 -> d + N.of_nat n = policy_recovery_successes policy ->
  recovery_schedule policy e t0 m0 d [] (one_by_one n t m).
Proof using Hwf.
  intros Ht Hm He Hroom. revert t0 m0 d Ht Hm. induction n as [|n IH]; intros t0 m0 d Ht Hm Hd; cbn [one_by_one recovery_schedule]; [split; [lia|done]|].
  destruct Hwf as (_ & _ & _ & (Hpl & _) & (Hmp & _)).
  do 3 (split; [done|]). split; [change (0 < max_half_open_probes policy); lia|]. split; [constructor|]. do 3 (split; [done || lia|]).
  split; [exists (m + probe_lease_millis policy); split; [done|lia]|].
  exists (d + 1). split; [done|]. split; [|apply IH; lia]. intros Henough _. by assert (n = 0%nat) as -> by lia.
Qed.
End recovery.

(** ** Properties *)

Lemma serve_all_reachable account_id policy requests :
  reachable account_id policy (serve_all account_id policy requests (initial_state account_id)).
Proof.
  unfold reachable, serve_all. generalize (initial_state account_id).
  induction requests as [|request requests IH]; intros st; cbn; [apply rtc_refl|].
  eapply rtc_l; [by exists request | apply IH].
Qed.

(** In every state a sequence of requests can lead to, the
    breaker's state agrees with its failure and recovery counters, its opening
    instant and recovery window and its leases: the leases number at most the
    policy's probes, are counted by the snapshot, have distinct identifiers
    below the next one, and exist only while the circuit is half open. *)
Theorem reachable_circuit_inv account_id policy st :
  CircuitPolicy_wf policy -> reachable account_id policy st -> circuit_inv account_id policy st.
Proof. intros Hwf Hr. by apply circuit_reachable_inv. Qed.

Lemma sample_policy_wf : CircuitPolicy_wf sample_policy.
Proof. repeat split; vm_compute; discriminate. Qed.

Lemma reachable_circuit_inv_witness : circuit_inv sample_account sample_policy sample_half_open.
Proof.
  apply (reachable_circuit_inv sample_account sample_policy sample_half_open);
    [apply sample_policy_wf | apply serve_all_reachable].
Defined.

(** A request that is refused leaves no trace, with one
    exception: when it finds an expired lease, the circuit fails closed (it
    opens again, without leases and under a new generation). *)
Theorem refused_request_effect account_id policy request st st' e :
  serve account_id policy request st = (st', Some e) ->
  (e <> LeaseExpired /\ st' = st) \/
  (e = LeaseExpired /\ cs_state (snapshot st') = Open /\ leases st' = [] /\
   cs_generation (snapshot st') = cs_generation (snapshot st) + 1).
Proof.
  intros Hrun. pose proof (serve_effect account_id policy request st) as Heff.
  rewrite Hrun in Heff. cbn in Heff.
  inversion Heff as [t e' He' Hev Hst Heq| |s' t m Hls Hc Hf Hev Hst Heq| | | |]; [by left|right].
  apply fail_closed_Ok in Hf as (s1 & (o & _ & _ & ->)%mark_open_Ok & _ & ->). done.
Qed.
Lemma refused_request_effect_witness :
  exists st',
    serve sample_account sample_policy (CompleteRequest sample_lease Success 1020 9999) sample_half_open
      = (st', Some LeaseExpired) /\
    ((LeaseExpired <> LeaseExpired /\ st' = sample_half_open) \/
     (LeaseExpired = LeaseExpired /\ cs_state (snapshot st') = Open /\ leases st' = [] /\
      cs_generation (snapshot st') = cs_generation (snapshot sample_half_open) + 1)).
Proof.
  eexists. split; [vm_compute; reflexivity|].
  apply (refused_request_effect sample_account sample_policy
    (CompleteRequest sample_lease Success 1020 9999) sample_half_open). vm_compute. reflexivity.
Defined.

(** C14: the circuit refines the abstract breaker.  Whatever a request does to counters,
    clocks and leases, what it answers is an event of the breaker, and the state before and
    after make the move that the rules have for this event: failures are counted up to the
    threshold, a probe is admitted from the recovery instant on, below the policy's number
    and under an identifier that no probe in flight has, a completed probe is taken out, the
    circuit closes exactly with the last probe in flight and enough successes, one failed or
    expired probe opens it again, and a new generation starts exactly when a decision period
    ends.  The probes of the breaker are the identifiers of the leases, and the snapshot
    counts them. *)
Theorem circuit_refines_breaker account_id policy request st :
  CircuitPolicy_wf policy -> reachable account_id policy st ->
  let '(st', answer) := serve account_id policy request st in
  breaker_move policy (breaker_view st) (breaker_event_of request answer st) (breaker_view st') /\
  breaker_probes (breaker_view st') = lr_id <$> leases st' /\
  cs_half_open_in_flight (snapshot st') = len (breaker_probes (breaker_view st')).
Proof.
  intros Hwf Hr%circuit_reachable_inv; [|done]. pose proof (serve_effect account_id policy request st) as Heff.
  destruct (serve account_id policy request st) as [st' answer]. cbn in Heff. split; [by eapply effect_move|].
  eapply view_probes, effect_preserves; done.
Qed.
Lemma circuit_refines_breaker_witness :
  breaker_view sample_half_open = BreakerHalfOpen 1 0 [1] (Some 1020) /\
  breaker_move sample_policy (BreakerOpen 1 (Some 1020)) (ProbeAdmitted 1 1020) (BreakerHalfOpen 1 0 [1] (Some 1020)) /\
  cs_half_open_in_flight (snapshot sample_half_open) = 1.
Proof.
  pose proof (circuit_refines_breaker sample_account sample_policy (AcquireRequest 1 1020 50) sample_open
    sample_policy_wf (serve_all_reachable _ _ _)) as Hmove.
  split; [vm_compute; reflexivity|]. vm_compute in Hmove. split; [exact (proj1 Hmove)|exact (proj2 (proj2 Hmove))].
Defined.

(** A probe is admitted only from an open or half-open
    circuit whose recovery window has passed and which holds fewer leases than
    the policy allows, none of them expired; it makes the circuit half open and
    gets a lease of the current generation with a fresh identifier. *)
Theorem admitted_probe account_id policy g t m st st' lease :
  CircuitPolicy_wf policy -> reachable account_id policy st ->
  acquire_probe_body account_id policy g t m st = (st', Ok lease) ->
  (exists opened, cs_opened_at (snapshot st) = Some opened /\
     opened + recovery_window_millis policy <= t) /\
  len (leases st) < max_half_open_probes policy /\
  (forall l, l ∈ leases st -> m < lr_expires_at l) /\
  cs_state (snapshot st') = HalfOpen /\
  leases st' = leases st ++ [mk_LeaseRecord (pl_id lease) (pl_expires_at lease)] /\
  pl_id lease ∉ (lr_id <$> leases st) /\
  lease = mk_ProbeLease account_id g (next_lease_id st) m (m + probe_lease_millis policy) /\
  g = cs_generation (snapshot st').
Proof.
  intros Hwf [Ha Hs Hf Hc Hn Hi]%circuit_reachable_inv Hrun; [|done].
  unfold acquire_probe_body in Hrun. run_steps; tidy.
  revert select (reclaim_expired_leases _ _ _ _ = _). intros [-> Hlive]%(reclaim_effect account_id); [|done].
  revert select (admit_probe _ _ _ _ _ = _). intros Hadm. unfold admit_probe in Hadm. run_steps; tidy.
  unfold prepare_probe_lease in *. run_steps; tidy.
  unfold MonotonicMillis_new in *. case_match; simplify_eq/=. run_steps. cbn.
  revert select (validate_probe_admission _ _ _ = _). intros (Hnc & Hnt & (e & He & Hle) & Hcap)%admission_inv.
  split_and!; try done.
  - unfold state_inv in Hs. destruct (cs_state (snapshot st)); try done; destruct Hs as (_ & o & Ho & He');
      exists o; (split; [done|]); rewrite He in He'; by injection He' as ->.
  - unfold transition_to_half_open. case_decide; [done|]. by destruct (cs_state (snapshot st)) eqn:E.
  - intros (l & Hl & Hin)%list_elem_of_fmap. specialize (Hi l Hin). lia.
  - unfold transition_to_half_open. case_decide; done.
  - unfold transition_to_half_open. case_decide; done.
Qed.
Lemma admitted_probe_witness :
  exists opened, cs_opened_at (snapshot sample_open) = Some opened /\ opened + 1000 <= 1020.
Proof.
  refine (proj1 (admitted_probe sample_account sample_policy 1 1020 50 sample_open sample_half_open
    sample_lease sample_policy_wf _ _)); [apply serve_all_reachable | vm_compute; reflexivity].
Defined.

(** A completed lease is never honoured again: in every
    state reachable afterwards, completing it (with any outcome) fails. *)
Theorem completed_lease_spent account_id policy st st1 st2 lease outcome t m s :
  CircuitPolicy_wf policy -> reachable account_id policy st ->
  complete_probe_body account_id policy lease outcome t m st = (st1, Ok s) ->
  rtc (circuit_step account_id policy) st1 st2 ->
  forall outcome' t' m', exists e, complete_probe_body account_id policy lease outcome' t' m' st2 = (st2, Err e).
Proof.
  intros Hwf Hr%circuit_reachable_inv Hrun Hlater outcome' t' m'; [|done].
  assert (spent (pl_id lease) st2) as Hs by eauto using spent_reachable, complete_spends.
  unfold complete_probe_body, get, mbind, act_bind, lift.
  destruct (validate_lease_request st2 account_id lease t' m') as [index|e] eqn:E; [|eauto].
  by apply spent_refused in E.
Qed.
Lemma completed_lease_spent_witness :
  exists e, complete_probe_body sample_account sample_policy sample_lease Success 1040 70
    (complete_probe_body sample_account sample_policy sample_lease Success 1030 60 sample_half_open).1 =
    ((complete_probe_body sample_account sample_policy sample_lease Success 1030 60 sample_half_open).1, Err e).
Proof.
  refine (completed_lease_spent sample_account sample_policy sample_half_open _ _ sample_lease Success
    1030 60 _ sample_policy_wf _ _ (rtc_refl _ _) Success 1040 70);
    [apply serve_all_reachable | vm_compute; reflexivity].
Defined.

(** Along every execution the generation, both clocks of the
    circuit and the lease identifiers only grow, so a stale generation or lease
    can be told from a current one. *)
Theorem circuit_history_grows account_id policy st st' :
  rtc (circuit_step account_id policy) st st' -> history_le st st'.
Proof.
  induction 1 as [st|st st1 st2 [request <-] _ (Hg & Ho & Hm & Hid)].
  - unfold history_le. destruct (cs_last_observed_at _), (cs_last_monotonic _); cbn; lia.
  - pose proof (effect_history _ _ _ _ _ _ (serve_effect account_id policy request st)) as (Hg' & Ho' & Hm' & Hid').
    unfold history_le. split_and!; [lia| | |lia].
    + destruct (cs_last_observed_at (snapshot st)), (cs_last_observed_at (snapshot (serve _ _ _ _).1)),
        (cs_last_observed_at (snapshot st2)); cbn in *; lia || done.
    + destruct (cs_last_monotonic (snapshot st)), (cs_last_monotonic (snapshot (serve _ _ _ _).1)),
        (cs_last_monotonic (snapshot st2)); cbn in *; lia || done.
Qed.
Lemma circuit_history_grows_witness : history_le sample_open sample_half_open.
Proof.
  apply (circuit_history_grows sample_account sample_policy).
  refine (rtc_l _ _ _ _ (ex_intro _ (AcquireRequest 1 1020 50) _) (rtc_refl _ _)).
  vm_compute. reflexivity.
Defined.

(** C38: an open circuit can be closed again.  Whatever the callers do, with probes that
    overlap and clocks that advance: as long as they begin probes from the recovery instant
    on, below the policy's number and with none expired, and end each before it expires, with
    success or without a verdict, until there are enough successes and no probe is left, every
    call is accepted, and the last one closes the circuit under the next generation with no
    lease.  Probes one after the other, as many as the policy asks for, are such a schedule.
    The generation, the lease identifiers and the success counter must have room left. *)
Theorem recovery_closes account_id policy st eligible actions :
  CircuitPolicy_wf policy -> reachable account_id policy st ->
  cs_state (snapshot st) = Open -> cs_recovery_eligible_at (snapshot st) = Some eligible ->
  cs_generation (snapshot st) < u64_max -> next_lease_id st + len actions <= u64_max -> len actions <= u32_max ->
  let schedule := recovery_schedule policy eligible (default 0 (cs_last_observed_at (snapshot st)))
    (default 0 (cs_last_monotonic (snapshot st))) 0 [] in
  (schedule actions ->
    exists st', perform account_id policy actions [] st = (st', Ok []) /\
      cs_state (snapshot st') = Closed /\ leases st' = [] /\
      cs_generation (snapshot st') = cs_generation (snapshot st) + 1) /\
  (forall t m, eligible <= t -> validate_clock (snapshot st) t m = Ok tt -> m + probe_lease_millis policy <= 9000000000000000 ->
    schedule (one_by_one (N.to_nat (policy_recovery_successes policy)) t m)).
Proof.
  intros Hwf Hr%circuit_reachable_inv Ho He Hg Hid Hlen schedule; [|done]. split.
  - intros Hs. pose proof Hr as [_ Hsi _ _ _ _]. unfold state_inv in Hsi. rewrite Ho in Hsi. destruct Hsi as [Hls _].
    eapply (perform_recovers account_id policy Hwf _ eligible _ _ 0 []); [|exact Hs| |done|done|lia].
    + split; try done; by left.
    + intros ->. destruct Hs as [Hs _]. destruct Hwf as (_ & (Hpos & _) & _). lia.
  - intros t m Het Hclock Hroom. apply clock_Ok in Hclock as [Ht Hm]. apply one_by_one_schedule; [done..|lia].
Qed.
Lemma sample_schedule : recovery_schedule sample_policy 1020 20 2 0 [] sample_actions.
Proof.
  cbn [recovery_schedule sample_actions].
  repeat first [split | eexists | apply Forall_nil | apply Forall_cons | reflexivity | vm_compute; discriminate | intros; discriminate].
Qed.
Lemma recovery_closes_witness :
  exists st', perform sample_account sample_policy sample_actions [] sample_open = (st', Ok []) /\
    cs_state (snapshot st') = Closed /\ leases st' = [] /\ cs_generation (snapshot st') = cs_generation (snapshot sample_open) + 1.
Proof.
  refine (proj1 (recovery_closes sample_account sample_policy sample_open 1020 sample_actions sample_policy_wf
    (serve_all_reachable _ _ _) _ _ _ _ _) _); [vm_compute; try reflexivity; discriminate ..|exact sample_schedule].
Defined.
