(* ===== verification/SnapshotBook.v ===== *)
(** * The circuit snapshot book

    Models [crates/optional/ariadnion-account-circuit/src/snapshot_book.rs]: the
    canonical, duplicate-free set of circuit snapshots and its generation-checked
    owner.  An [Arc] of an immutable value is the value. *)

From S2P Require Import Prelude CoreTypes AccountCircuit Publication.
#[local] Open Scope N_scope.

Definition MAX_CIRCUIT_SNAPSHOTS : N := N.shiftl 1 17.

Inductive CircuitSnapshotBookErrorCode :=
| DuplicateAccount | CapacityExceeded | BookGenerationConflict | BookVersionExhausted | BookStateUnavailable.

(** [CircuitSnapshotBookGeneration::next]. *)
Definition book_next (generation : N) : result CircuitSnapshotBookErrorCode N :=
  next_generation BookVersionExhausted generation.

Record CircuitSnapshotBookSnapshot := mk_CircuitSnapshotBookSnapshot {
  book_generation : N;
  snapshots : list CircuitSnapshot;
}.

Definition CircuitSnapshotBookSnapshot_new (generation : N) (entries : list CircuitSnapshot)
    : result CircuitSnapshotBookErrorCode CircuitSnapshotBookSnapshot :=
  reject_if (MAX_CIRCUIT_SNAPSHOTS <? len entries) CapacityExceeded ;;
  let sorted := sort_by cs_account_id entries in
  reject_if (adjacent_duplicate cs_account_id sorted) DuplicateAccount ;;
  mret (mk_CircuitSnapshotBookSnapshot generation sorted).

(** [CircuitSnapshotBookSnapshot::account]. *)
Definition account (set : CircuitSnapshotBookSnapshot) (account_id : AccountId) : option CircuitSnapshot :=
  binary_search (fun s => cmp (cs_account_id s) account_id) (snapshots set).

(** [CircuitSnapshotBook::from_snapshot], [new], [publish], [current_snapshot]. *)
Definition from_snapshot (set : CircuitSnapshotBookSnapshot) : Lock CircuitSnapshotBookSnapshot :=
  mk_lock false set.
Definition CircuitSnapshotBook_new (entries : list CircuitSnapshot)
    : result CircuitSnapshotBookErrorCode (Lock CircuitSnapshotBookSnapshot) :=
  set ← CircuitSnapshotBookSnapshot_new 0 entries; mret (from_snapshot set).
Definition publish (expected_generation : N) (candidate : CircuitSnapshotBookSnapshot)
    : act (Lock CircuitSnapshotBookSnapshot) CircuitSnapshotBookErrorCode CircuitSnapshotBookSnapshot :=
  locked BookStateUnavailable (
    current ← get;
    lift (reject_if (negb (book_generation current =? expected_generation)) BookGenerationConflict) ;;
    successor ← lift (book_next expected_generation);
    lift (reject_if (negb (book_generation candidate =? successor)) BookGenerationConflict) ;;
    put candidate ;;
    mret candidate).
Definition current_snapshot
    : act (Lock CircuitSnapshotBookSnapshot) CircuitSnapshotBookErrorCode CircuitSnapshotBookSnapshot :=
  locked BookStateUnavailable get.

#[export] Instance circuit_book_publication :
    Publication (Lock CircuitSnapshotBookSnapshot) CircuitSnapshotBookSnapshot
      CircuitSnapshotBookSnapshot CircuitSnapshotBookErrorCode := {
  generation_of := fun b => book_generation (lock_data b);
  publish_to := publish;
  background := fun _ _ => False;
}.

(** A sample publication, of two accounts out of order. *)
Definition sample_entries : list CircuitSnapshot :=
  [initial (MkId "b"); initial (MkId "a")].
Definition sample_set (generation : N) : CircuitSnapshotBookSnapshot :=
  mk_CircuitSnapshotBookSnapshot generation [initial (MkId "a"); initial (MkId "b")].

(** ** Lemmas *)

#[export] Instance circuit_book_publication_laws :
  PublicationLaws (Lock CircuitSnapshotBookSnapshot) CircuitSnapshotBookSnapshot
    CircuitSnapshotBookSnapshot CircuitSnapshotBookErrorCode.
Proof.
  split; cbn; [| |done].
  - intros b b' g c r [[_ [=]]|(s' & Hrun & -> & _)]%locked_inv. run_steps; tidy. cbn.
    match goal with H : book_next _ = Ok _ |- _ => apply next_generation_Ok in H as [-> _] end.
    by subst.
  - intros [p s] b' g c e [[-> _]|(s' & Hrun & -> & Hp)]%locked_inv; [done|].
    cbn in Hp. subst p. run_steps; done.
Qed.

Lemma snapshot_new_Ok generation entries set :
  CircuitSnapshotBookSnapshot_new generation entries = Ok set <->
  len entries <= MAX_CIRCUIT_SNAPSHOTS /\ NoDup (cs_account_id <$> entries) /\
  set = mk_CircuitSnapshotBookSnapshot generation (sort_by cs_account_id entries).
Proof.
  unfold CircuitSnapshotBookSnapshot_new. split.
  - intros H. run_steps; tidy. split; [done|]. split; [|done]. by apply (adjacent_duplicate_perm cs_account_id).
  - intros (Hlen & Hnd & ->). rewrite (proj2 (N.ltb_ge _ _) Hlen). cbn.
    by rewrite (proj2 (adjacent_duplicate_perm cs_account_id _) Hnd).
Qed.

(** ** Properties *)

(** A publication is accepted exactly when it is within capacity
    and names no account twice; the set it freezes has the same snapshots in
    strictly increasing account order, and does not depend on the order they
    were given in. *)
Theorem snapshot_set_canonical generation entries set :
  CircuitSnapshotBookSnapshot_new generation entries = Ok set <->
  len entries <= MAX_CIRCUIT_SNAPSHOTS /\ NoDup (cs_account_id <$> entries) /\
  book_generation set = generation /\ snapshots set ≡ₚ entries /\
  strictly_sorted_by cs_account_id (snapshots set).
Proof.
  rewrite snapshot_new_Ok. split.
  - intros (Hlen & Hnd & ->). cbn. split_and!; try done; [apply sort_by_Permutation|].
    apply sorted_NoDup_strict; [apply sort_by_sorted|]. by rewrite sort_by_Permutation.
  - intros (Hlen & Hnd & Hg & Hp & Hs). split_and!; try done.
    destruct set as [g l]. cbn in *. subst g. f_equal.
    apply (strictly_sorted_unique cs_account_id); [done| |by rewrite sort_by_Permutation].
    apply sorted_NoDup_strict; [apply sort_by_sorted|]. by rewrite sort_by_Permutation.
Qed.

(** Resolving an account in an accepted publication, by binary
    search, finds exactly the snapshot submitted for it. *)
Theorem snapshot_account_lookup generation entries set account_id s :
  CircuitSnapshotBookSnapshot_new generation entries = Ok set ->
  account set account_id = Some s <-> s ∈ entries /\ cs_account_id s = account_id.
Proof.
  intros (Hlen & Hnd & ->)%snapshot_new_Ok. unfold account. cbn [snapshots].
  rewrite (binary_search_spec cs_account_id account_id); [by rewrite sort_by_Permutation|].
  apply sorted_NoDup_strict; [apply sort_by_sorted|]. by rewrite sort_by_Permutation.
Qed.
Lemma snapshot_account_lookup_witness :
  account (sample_set 3) (MkId "b") = Some (initial (MkId "b")).
Proof.
  apply (snapshot_account_lookup 3 sample_entries (sample_set 3)).
  - vm_compute. reflexivity.
  - split; [unfold sample_entries; left | reflexivity].
Defined.

(** Among all the publications attempted on a snapshot book, in
    whatever order they reach its lock, each generation is won at most once, by an
    attempt that presented the generation current at that moment, and the book's
    generation has advanced by exactly the number of winners. *)
Theorem snapshot_publish_single_winner (b b' : Lock CircuitSnapshotBookSnapshot) l :
  history b l b' ->
  NoDup (winners l) /\ book_generation (lock_data b') = book_generation (lock_data b) + len (winners l).
Proof.
  intros H. split; [by eapply history_winners|]. by apply (history_counts (pub := circuit_book_publication) b l b').
Qed.
Lemma snapshot_publish_single_winner_witness :
  NoDup (winners [(0, true); (0, false)]).
Proof.
  refine (proj1 (snapshot_publish_single_winner (from_snapshot (sample_set 0)) (from_snapshot (sample_set 1)) _ _)).
  refine (history_publish _ 0 (sample_set 1) _ (Ok (sample_set 1)) _ _ _ _); [vm_compute; reflexivity|].
  refine (history_publish _ 0 (sample_set 1) _ (Err BookGenerationConflict) _ _ _ (history_nil _)).
  vm_compute. reflexivity.
Defined.
