(* ===== verification/AccountQuota.v ===== *)
(** * Account quota snapshots

    Models [crates/optional/ariadnion-account-quota/src/lib.rs]: validated quota
    observations, their conservative reading, and the book that refreshes and
    expires them under a generation check. *)

From S2P Require Import Prelude CoreTypes Publication.
#[local] Open Scope N_scope.

Definition MAX_SNAPSHOTS : N := 4096.
Definition MAX_WINDOW_BYTES : N := 128.
Definition MAX_TTL_SECONDS : N := 2678400.

Inductive QuotaErrorCode :=
| InvalidArgument | LimitExceeded | GenerationConflict | DuplicateSnapshot
| UsageExceedsLimit | GenerationExhausted | ArithmeticOverflow | StateUnavailable.

(** [QuotaGeneration::next]. *)
Definition next (generation : N) : result QuotaErrorCode N :=
  next_generation GenerationExhausted generation.

Inductive QuotaSubject := Provider (id : ProviderId) | Account (id : AccountId).
#[export] Instance QuotaSubject_eq_dec : EqDecision QuotaSubject.
Proof. solve_decision. Defined.
(** The derived [Ord]: providers before accounts, then by identity. *)
#[export] Instance QuotaSubject_ord : Ord QuotaSubject := fun x y =>
  match x, y with
  | Provider p, Provider q => cmp p q
  | Account p, Account q => cmp p q
  | Provider _, Account _ => Lt
  | Account _, Provider _ => Gt
  end.

Definition QuotaWindow := Id QuotaWindowKind.
Definition QuotaWindow_parse (value : string) : result QuotaErrorCode QuotaWindow :=
  reject_if (is_empty value || negb (is_ascii value) || any_byte is_ascii_control value) InvalidArgument ;;
  reject_if (MAX_WINDOW_BYTES <? byte_len value) LimitExceeded ;;
  mret (MkId value).

Record QuotaSnapshot := mk_QuotaSnapshot {
  subject : QuotaSubject;
  window : QuotaWindow;
  limit : N;
  used : N;
  reported_remaining : option N;
  refreshed_at : N;
  expires_at : N;
}.

#[export] Instance QuotaSnapshot_eq_dec : EqDecision QuotaSnapshot.
Proof. solve_decision. Defined.

Definition QuotaSnapshot_new (subject : QuotaSubject) (window : QuotaWindow) (limit used : N)
    (reported_remaining : option N) (refreshed_at expires_at : N) : result QuotaErrorCode QuotaSnapshot :=
  reject_if ((limit =? 0) || (expires_at <=? refreshed_at)) InvalidArgument ;;
  reject_if (is_none_or (fun ttl => MAX_TTL_SECONDS <? ttl) (checked_sub expires_at refreshed_at)) LimitExceeded ;;
  reject_if (limit <? used) UsageExceedsLimit ;;
  reject_if (is_some_and (fun remaining => limit <? remaining) reported_remaining) InvalidArgument ;;
  mret (mk_QuotaSnapshot subject window limit used reported_remaining refreshed_at expires_at).

Definition is_expired_at (s : QuotaSnapshot) (now : N) : bool := expires_at s <=? now.

(** The subtraction is unchecked in the code. *)
Definition conservative_remaining_at (s : QuotaSnapshot) (now : N) : N :=
  if is_expired_at s now then 0
  else
    let arithmetic_remaining := wrapping_sub u64_max (limit s) (used s) in
    match reported_remaining s with
    | None => arithmetic_remaining
    | Some reported => N.min reported arithmetic_remaining
    end.
Definition remaining_capacity (s : QuotaSnapshot) (now : N) : N := conservative_remaining_at s now.

(** ** The book *)

Record QuotaState := mk_QuotaState { generation : N; snapshots : list QuotaSnapshot }.
#[export] Instance QuotaState_eta : Eta QuotaState := fun s => mk_QuotaState (generation s) (snapshots s).

Record RefreshReceipt := mk_RefreshReceipt {
  previous_generation : N; receipt_generation : N; snapshot_count : N;
}.
Record ExpiryReceipt := mk_ExpiryReceipt { expiry_generation : N; removed : N }.

Definition QuotaBook_new : Lock QuotaState := mk_lock false (mk_QuotaState 0 []).

Definition quota_key (s : QuotaSnapshot) : QuotaSubject * QuotaWindow := (subject s, window s).

(** [validate_snapshots]: sorts in place, so the sorted batch is returned. *)
Definition validate_snapshots (batch : list QuotaSnapshot) : result QuotaErrorCode (list QuotaSnapshot) :=
  reject_if (MAX_SNAPSHOTS <? len batch) LimitExceeded ;;
  let sorted := sort_by quota_key batch in
  reject_if (adjacent_duplicate quota_key sorted) DuplicateSnapshot ;;
  mret sorted.

Definition refresh_body (sorted : list QuotaSnapshot) (expected_generation : N)
    : act QuotaState QuotaErrorCode RefreshReceipt :=
  state ← get;
  lift (reject_if (negb (generation state =? expected_generation)) GenerationConflict) ;;
  successor ← lift (next (generation state));
  modify (fun st => st <| generation := successor |>) ;;
  modify (fun st => st <| snapshots := sorted |>) ;;
  mret (mk_RefreshReceipt (generation state) successor (len sorted)).
(** Validation comes before the lock is taken. *)
Definition refresh (batch : list QuotaSnapshot) (expected_generation : N)
    : act (Lock QuotaState) QuotaErrorCode RefreshReceipt :=
  sorted ← lift (validate_snapshots batch);
  locked StateUnavailable (refresh_body sorted expected_generation).

Definition expire_body (now : N) : act QuotaState QuotaErrorCode ExpiryReceipt :=
  state ← get;
  let retained := List.filter (fun s => negb (is_expired_at s now)) (snapshots state) in
  let removed := saturating_sub (len (snapshots state)) (len retained) in
  if removed =? 0 then mret (mk_ExpiryReceipt (generation state) removed)
  else
    successor ← lift (next (generation state));
    modify (fun st => st <| generation := successor |>) ;;
    modify (fun st => st <| snapshots := retained |>) ;;
    mret (mk_ExpiryReceipt successor removed).
Definition expire (now : N) : act (Lock QuotaState) QuotaErrorCode ExpiryReceipt :=
  locked StateUnavailable (expire_body now).
Definition snapshot_set : act (Lock QuotaState) QuotaErrorCode QuotaState :=
  locked StateUnavailable get.
Definition current_generation : act (Lock QuotaState) QuotaErrorCode N :=
  locked StateUnavailable (query (fun state => Ok (generation state))).

#[export] Instance quota_publication :
    Publication (Lock QuotaState) (list QuotaSnapshot) RefreshReceipt QuotaErrorCode := {
  generation_of := fun b => generation (lock_data b);
  publish_to := fun g batch => refresh batch g;
  background := fun b b' => exists now, (expire now b).1 = b';
}.

(** ** Specification *)

(** What [QuotaSnapshot_new] establishes, with the widths of the fields. *)
Record snapshot_wf (s : QuotaSnapshot) : Prop := {
  wf_limit : 0 < limit s <= u64_max;
  wf_used : used s <= limit s;
  wf_reported : forall r, reported_remaining s = Some r -> r <= limit s;
  wf_ttl : refreshed_at s < expires_at s <= refreshed_at s + MAX_TTL_SECONDS;
}.

(** What the book holds: at most the bound, each key once, in key order. *)
Definition book_wf (state : QuotaState) : Prop :=
  len (snapshots state) <= MAX_SNAPSHOTS /\ strictly_sorted_by quota_key (snapshots state).

Definition sample_quota (now : N) : QuotaSnapshot :=
  mk_QuotaSnapshot (Account (MkId "a")) (MkId "daily") 100 40 (Some 70) now (now + 60).
Definition sample_book : Lock QuotaState := mk_lock false (mk_QuotaState 4 [sample_quota 0; 
  mk_QuotaSnapshot (Account (MkId "a")) (MkId "monthly") 1000 40 None 0 3600]).

(** ** Lemmas *)

#[export] Instance QuotaSubject_ord_laws : OrdLaws QuotaSubject.
Proof.
  split.
  - intros [x|x] [y|y]; cbn; try done; rewrite cmp_eq_iff; naive_solver.
  - intros [x|x] [y|y]; cbn; try done; apply cmp_opp.
  - intros [x|x] [y|y] [z|z]; cbn; try done; apply cmp_lt_trans.
Qed.

Lemma validate_snapshots_Ok batch sorted :
  validate_snapshots batch = Ok sorted <->
  len batch <= MAX_SNAPSHOTS /\ NoDup (quota_key <$> batch) /\ sorted = sort_by quota_key batch.
Proof.
  unfold validate_snapshots. split.
  - intros H. run_steps; tidy. split; [done|]. split; [|done]. by apply (adjacent_duplicate_perm quota_key).
  - intros (Hlen & Hnd & ->). rewrite (proj2 (N.ltb_ge _ _) Hlen). cbn.
    by rewrite (proj2 (adjacent_duplicate_perm quota_key _) Hnd).
Qed.
Lemma validated_wf batch sorted g :
  validate_snapshots batch = Ok sorted -> book_wf (mk_QuotaState g sorted).
Proof.
  intros (Hlen & Hnd & ->)%validate_snapshots_Ok. split; cbn [snapshots].
  - unfold len in *. by rewrite sort_by_Permutation.
  - apply sorted_NoDup_strict; [apply sort_by_sorted|]. by rewrite sort_by_Permutation.
Qed.

Lemma refresh_Ok batch g b b' r :
  refresh batch g b = (b', Ok r) ->
  exists sorted, validate_snapshots batch = Ok sorted /\ lock_poisoned b = false /\
    generation (lock_data b) = g /\ g < u64_max /\
    b' = mk_lock false (mk_QuotaState (g + 1) sorted) /\
    r = mk_RefreshReceipt g (g + 1) (len sorted).
Proof.
  unfold refresh. intros H. run_steps. eexists. split; [done|].
  match goal with H : locked _ _ _ = _ |- _ => apply locked_inv in H as [[_ [=]]|(s' & Hrun & -> & Hp)] end.
  unfold refresh_body in Hrun. run_steps; tidy.
  match goal with H : next _ = Ok _ |- _ => apply next_generation_Ok in H as [-> Hg] end.
  by subst.
Qed.
Lemma refresh_Err batch g b b' e : refresh batch g b = (b', Err e) -> b' = b.
Proof.
  unfold refresh. intros H. run_steps; [|done].
  match goal with H : locked _ _ _ = _ |- _ => apply locked_inv in H as [[-> _]|(s' & Hrun & -> & Hp)] end; [done|].
  destruct b as [p s]. cbn in Hp, Hrun. subst p. unfold refresh_body in Hrun. run_steps; done.
Qed.

Lemma filter_none {A} (p : A -> bool) l :
  len l - len (List.filter p l) = 0 -> List.filter p l = l.
Proof.
  unfold len. induction l as [|x l IH]; [done|]. cbn [List.filter]. pose proof (filter_length_le p l).
  destruct (p x); cbn [length]; intros Hl; [f_equal; apply IH|]; lia.
Qed.
Lemma strictly_sorted_filter {A K} `{Ord K} (key : A -> K) (p : A -> bool) l :
  strictly_sorted_by key l -> strictly_sorted_by key (List.filter p l).
Proof.
  induction 1 as [|x l _ IH Hx]; cbn; [constructor|]. destruct (p x); [|done]. constructor; [done|].
  rewrite Forall_forall in *. intros y [Hy _]%elem_of_list_filter. auto.
Qed.

Lemma expire_body_run now s :
  expire_body now s =
    let retained := List.filter (fun q => negb (is_expired_at q now)) (snapshots s) in
    if decide (retained = snapshots s) then (s, Ok (mk_ExpiryReceipt (generation s) 0))
    else if generation s <? u64_max then
      (mk_QuotaState (generation s + 1) retained,
       Ok (mk_ExpiryReceipt (generation s + 1) (len (snapshots s) - len retained)))
    else (s, Err GenerationExhausted).
Proof.
  unfold expire_body. rewrite act_get_run. cbv zeta. set (retained := List.filter _ _).
  unfold saturating_sub. case_decide as Heq.
  - rewrite Heq, N.sub_diag. done.
  - destruct (N.eqb_spec (len (snapshots s) - len retained) 0) as [Hz|Hz].
    { destruct Heq. by apply filter_none. }
    unfold next, next_generation, checked_add.
    destruct (N.ltb_spec (generation s) u64_max), (N.leb_spec (generation s + 1) u64_max); try done; lia.
Qed.

#[export] Instance quota_publication_laws :
  PublicationLaws (Lock QuotaState) (list QuotaSnapshot) RefreshReceipt QuotaErrorCode.
Proof.
  split; cbn.
  - intros b b' g c r (sorted & _ & _ & Hg & _ & -> & _)%refresh_Ok. by split.
  - intros b b' g c e. apply refresh_Err.
  - intros [[|] s] b' [now <-]; [done|]. unfold expire. rewrite locked_run, expire_body_run. cbn.
    case_decide; [done|]. destruct (generation s <? u64_max); cbn; lia.
Qed.

(** ** Properties *)

(** A validated observation never reports more than is left of
    its limit or than the provider reported, reports nothing once expired, and its
    report never grows as time passes; the unchecked [limit - used] of the code
    never wraps. *)
Theorem remaining_conservative subject window limit used reported refreshed expires s now later :
  QuotaSnapshot_new subject window limit used reported refreshed expires = Ok s ->
  limit <= u64_max -> now <= later ->
  conservative_remaining_at s now <= limit - used /\
  (forall r, reported = Some r -> conservative_remaining_at s now <= r) /\
  (expires <= now -> conservative_remaining_at s now = 0) /\
  conservative_remaining_at s later <= conservative_remaining_at s now.
Proof.
  unfold QuotaSnapshot_new. intros H Hw Hl. run_steps; tidy.
  unfold conservative_remaining_at, is_expired_at. cbn.
  rewrite wrapping_sub_exact by lia.
  destruct (N.leb_spec expires now), (N.leb_spec expires later); try lia;
    destruct reported as [r|]; (split_and!; [lia| |lia|lia]); intros r' [= <-]; lia.
Qed.
Lemma remaining_conservative_witness :
  conservative_remaining_at (sample_quota 5) 10 <= 60.
Proof.
  refine (proj1 (remaining_conservative (Account (MkId "a")) (MkId "daily") 100 40 (Some 70) 5 65
    (sample_quota 5) 10 20 _ _ _)); [vm_compute; reflexivity | vm_compute; discriminate ..].
Defined.

(** A refresh succeeds exactly when the lock is healthy, the batch
    is within bounds and names no subject and window twice, and the caller holds
    the current generation; then it installs the whole batch in key order under
    the next generation.  Any other refresh changes nothing. *)
Theorem refresh_atomic batch g b :
  (exists b' r, refresh batch g b = (b', Ok r) /\ snapshots (lock_data b') ≡ₚ batch /\
     book_wf (lock_data b') /\ generation (lock_data b') = g + 1 /\
     lock_poisoned b = false /\ generation (lock_data b) = g /\ NoDup (quota_key <$> batch) /\
     len batch <= MAX_SNAPSHOTS) \/
  (exists e, refresh batch g b = (b, Err e) /\
     (lock_poisoned b = true \/ generation (lock_data b) <> g \/ g = u64_max \/ u64_max < g \/
      ~ NoDup (quota_key <$> batch) \/ MAX_SNAPSHOTS < len batch)).
Proof.
  destruct (refresh batch g b) as [b' [r|e]] eqn:Hr.
  - left. exists b', r. pose proof (refresh_Ok _ _ _ _ _ Hr) as (sorted & Hv & Hp & Hg & _ & -> & _).
    split; [done|]. cbn [lock_data snapshots generation].
    pose proof (validated_wf _ _ (g + 1) Hv) as Hwf. apply validate_snapshots_Ok in Hv as (? & ? & ->).
    split_and!; try done. apply sort_by_Permutation.
  - right. exists e. pose proof (refresh_Err _ _ _ _ _ Hr) as ->. split; [done|].
    unfold refresh in Hr. destruct (validate_snapshots batch) as [sorted|e'] eqn:Hv.
    + rewrite act_lift_run in Hr. destruct b as [[|] s]; [by left|]. right.
      cbn [lock_data]. destruct (decide (generation s = g)) as [Hg|]; [|by left]. right.
      destruct (N.lt_trichotomy g u64_max) as [Hlt|[?|?]]; [|by left|by right; left]. exfalso.
      rewrite locked_run in Hr. unfold refresh_body in Hr. cbn in Hr. rewrite act_get_run in Hr.
      rewrite Hg, N.eqb_refl in Hr. cbn in Hr.
      unfold next in Hr. rewrite (proj2 (next_generation_Ok _ _ _) (conj eq_refl Hlt)) in Hr. done.
    + do 4 right. unfold validate_snapshots in Hv.
      destruct (N.ltb_spec MAX_SNAPSHOTS (len batch)) as [|Hlen]; [by right|]. left.
      cbn in Hv. run_steps; intros Hnd%(adjacent_duplicate_perm quota_key); congruence.
Qed.

(** Expiry keeps a well-formed book well formed, keeps exactly the
    live observations, and advances the generation exactly when it removed
    something; a second pass at the same instant does nothing. *)
Theorem expire_exact now s s' r :
  book_wf s -> expire_body now s = (s', Ok r) ->
  book_wf s' /\
  (forall q, q ∈ snapshots s' <-> q ∈ snapshots s /\ is_expired_at q now = false) /\
  (generation s' = generation s <-> snapshots s' = snapshots s) /\
  removed r = len (snapshots s) - len (snapshots s') /\
  expire_body now s' = (s', Ok (mk_ExpiryReceipt (generation s') 0)).
Proof.
  intros [Hlen Hs]. rewrite expire_body_run. cbv zeta. set (retained := List.filter _ _).
  assert (strictly_sorted_by quota_key retained) as Hsr by (by apply strictly_sorted_filter).
  assert (len retained <= MAX_SNAPSHOTS) as Hlr.
  { pose proof (filter_length_le (fun q => negb (is_expired_at q now)) (snapshots s)) as Hf.
    fold retained in Hf. unfold len in *. lia. }
  assert (forall q, q ∈ retained <-> q ∈ snapshots s /\ is_expired_at q now = false) as Hin.
  { intros q. unfold retained. by rewrite elem_of_list_filter, negb_true_iff. }
  assert (forall g, expire_body now (mk_QuotaState g retained) =
    (mk_QuotaState g retained, Ok (mk_ExpiryReceipt g 0))) as Hagain.
  { intros g. rewrite expire_body_run. cbn [snapshots generation]. rewrite decide_True; [done|].
    unfold retained. generalize (snapshots s). induction l as [|q l IH]; [done|]. cbn.
    destruct (is_expired_at q now) eqn:E; cbn; [done|]. rewrite E. cbn. by rewrite IH. }
  case_decide as Heq.
  - intros [= <- <-]. cbn [removed]. rewrite N.sub_diag. split_and!; try done.
    + intros q. rewrite <- Heq at 1. apply Hin.
    + specialize (Hagain (generation s)). rewrite Heq in Hagain. clear -Hagain. by destruct s.
  - destruct (generation s <? u64_max) eqn:Hg; [|done]. intros [= <- <-]. cbn [snapshots generation removed].
    split_and!; try done. split; [lia|done].
Qed.
Lemma expire_exact_witness :
  book_wf (expire_body 100 (lock_data sample_book)).1.
Proof.
  refine (proj1 (expire_exact 100 (lock_data sample_book) _ (mk_ExpiryReceipt 5 1) _ _)).
  - apply (validated_wf (snapshots (lock_data sample_book)) _ 4). vm_compute. reflexivity.
  - vm_compute. reflexivity.
Defined.

(** Refreshes and expiries interleaved in any order never let two
    refreshes win with the same observed generation. *)
Theorem quota_refresh_single_winner (b b' : Lock QuotaState) l :
  history b l b' -> NoDup (winners l).
Proof. intros H. by eapply history_winners. Qed.
Lemma quota_refresh_single_winner_witness : NoDup (winners [(4, true); (4, false)]).
Proof.
  refine (quota_refresh_single_winner sample_book
    (mk_lock false (mk_QuotaState 6 [])) _ _).
  refine (history_publish _ 4 [sample_quota 9] (mk_lock false (mk_QuotaState 5 [sample_quota 9]))
    (Ok (mk_RefreshReceipt 4 5 1)) _ _ _ _); [vm_compute; reflexivity|].
  refine (history_background _ (mk_lock false (mk_QuotaState 6 [])) _ _ (ex_intro _ 1000 _) _);
    [vm_compute; reflexivity|].
  refine (history_publish _ 4 [] _ (Err GenerationConflict) _ _ _ (history_nil _)).
  vm_compute. reflexivity.
Defined.
