(* ===== verification/AccountBudget.v ===== *)
(** * The account budget ledger

    Models [crates/optional/ariadnion-account-budget/src/lib.rs] and
    [reservation.rs]: hierarchical budget policies and the ledger that reserves,
    commits, releases and expires charges against them.  [BudgetState] is the
    state under the ledger's lock; amounts and instants are the [u64] inside
    their newtypes. *)

From S2P Require Import Prelude CoreTypes.
#[local] Open Scope N_scope.

Definition MAX_POLICIES : N := 4096.
Definition MAX_RESERVATIONS : N := N.shiftl 1 17.

(** ** Errors *)

Inductive BudgetErrorCode :=
| InvalidArgument | LimitExceeded | DuplicatePolicy | DuplicateScopeCurrency
| NoApplicablePolicy | HardLimitExceeded | ArithmeticOverflow | ReplayConflict
| ReservationNotFound | ReservationFinalized | PolicyNotFound | GenerationConflict
| GenerationExhausted | StateUnavailable.
#[export] Instance BudgetErrorCode_eq_dec : EqDecision BudgetErrorCode.
Proof. solve_decision. Defined.

(** [as_str] and the two tables it falls through to. *)
Definition as_state_str (code : BudgetErrorCode) : string :=
  match code with
  | GenerationConflict => "ACCOUNT_BUDGET_GENERATION_CONFLICT"
  | GenerationExhausted => "ACCOUNT_BUDGET_GENERATION_EXHAUSTED"
  | _ => "ACCOUNT_BUDGET_STATE_UNAVAILABLE"
  end.
Definition as_lifecycle_str (code : BudgetErrorCode) : string :=
  match code with
  | ArithmeticOverflow => "ACCOUNT_BUDGET_ARITHMETIC_OVERFLOW"
  | ReplayConflict => "ACCOUNT_BUDGET_REPLAY_CONFLICT"
  | ReservationNotFound => "ACCOUNT_BUDGET_RESERVATION_NOT_FOUND"
  | ReservationFinalized => "ACCOUNT_BUDGET_RESERVATION_FINALIZED"
  | PolicyNotFound => "ACCOUNT_BUDGET_POLICY_NOT_FOUND"
  | other => as_state_str other
  end.
Definition as_str (code : BudgetErrorCode) : string :=
  match code with
  | InvalidArgument => "ACCOUNT_BUDGET_INVALID_ARGUMENT"
  | LimitExceeded => "ACCOUNT_BUDGET_LIMIT_EXCEEDED"
  | DuplicatePolicy => "ACCOUNT_BUDGET_DUPLICATE_POLICY"
  | DuplicateScopeCurrency => "ACCOUNT_BUDGET_DUPLICATE_SCOPE_CURRENCY"
  | NoApplicablePolicy => "ACCOUNT_BUDGET_NO_APPLICABLE_POLICY"
  | HardLimitExceeded => "ACCOUNT_BUDGET_HARD_LIMIT_EXCEEDED"
  | other => as_lifecycle_str other
  end.

Inductive BudgetRefusalScope := RefusalAccount | RefusalRequest.
#[export] Instance BudgetRefusalScope_eq_dec : EqDecision BudgetRefusalScope.
Proof. solve_decision. Defined.

Record BudgetError := mk_BudgetError {
  code : BudgetErrorCode;
  refusal_scope : option BudgetRefusalScope;
}.
(** [BudgetError::new], [error] and [BudgetError::with_refusal_scope]. *)
Definition error (code : BudgetErrorCode) : BudgetError := mk_BudgetError code None.
Definition with_refusal_scope (code : BudgetErrorCode) (scope : BudgetRefusalScope) : BudgetError :=
  mk_BudgetError code (Some scope).

(** ** Amounts, scopes, policies and requests *)

Definition BudgetPolicyId := Id BudgetPolicyKind.
Definition GroupId := Id GroupKind.
Definition ReservationId := Id ReservationKind.

Record CurrencyCode := mk_CurrencyCode { currency_str : string }.
#[export] Instance CurrencyCode_eq_dec : EqDecision CurrencyCode.
Proof. solve_decision. Defined.

(** [CurrencyCode::parse]: exactly three uppercase ASCII letters. *)
Definition CurrencyCode_parse (value : string) : result BudgetError CurrencyCode :=
  if negb (byte_len value =? 3) || negb (all_bytes is_ascii_uppercase value)
  then Err (error InvalidArgument)
  else Ok (mk_CurrencyCode value).

Record Money := mk_Money { currency : CurrencyCode; minor_units : N }.
#[export] Instance Money_eq_dec : EqDecision Money.
Proof. solve_decision. Defined.

Inductive BudgetScope :=
| ScopeTenant (tenant_id : TenantId)
| ScopeGroup (tenant_id : TenantId) (group_id : GroupId)
| ScopeAccount (tenant_id : TenantId) (account_id : AccountId).
#[export] Instance BudgetScope_eq_dec : EqDecision BudgetScope.
Proof. solve_decision. Defined.

Record BudgetContext := mk_BudgetContext {
  ctx_tenant_id : TenantId;
  ctx_group_id : option GroupId;
  ctx_account_id : AccountId;
}.
#[export] Instance BudgetContext_eq_dec : EqDecision BudgetContext.
Proof. solve_decision. Defined.

(** [BudgetScope::matches]. *)
Definition matches (scope : BudgetScope) (context : BudgetContext) : bool :=
  match scope with
  | ScopeTenant tenant_id => bool_decide (tenant_id = ctx_tenant_id context)
  | ScopeGroup tenant_id group_id =>
      bool_decide (tenant_id = ctx_tenant_id context)
      && bool_decide (ctx_group_id context = Some group_id)
  | ScopeAccount tenant_id account_id =>
      bool_decide (tenant_id = ctx_tenant_id context)
      && bool_decide (account_id = ctx_account_id context)
  end.

Inductive Enforcement := Hard | Soft.
#[export] Instance Enforcement_eq_dec : EqDecision Enforcement.
Proof. solve_decision. Defined.

Record BudgetPolicy := mk_BudgetPolicy {
  policy_id : BudgetPolicyId;
  scope : BudgetScope;
  limit : Money;
  enforcement : Enforcement;
}.
Definition BudgetPolicy_new (id : BudgetPolicyId) (scope : BudgetScope) (limit : Money)
    (enforcement : Enforcement) : result BudgetError BudgetPolicy :=
  reject_if (minor_units limit =? 0) (error InvalidArgument) ;;
  mret (mk_BudgetPolicy id scope limit enforcement).

Record ReservationRequest := mk_ReservationRequest {
  request_id : ReservationId;
  context : BudgetContext;
  amount : Money;
  expires_at : N;
}.
#[export] Instance ReservationRequest_eq_dec : EqDecision ReservationRequest.
Proof. solve_decision. Defined.
Definition ReservationRequest_new (id : ReservationId) (context : BudgetContext) (amount : Money)
    (expires_at : N) : result BudgetError ReservationRequest :=
  reject_if (minor_units amount =? 0) (error InvalidArgument) ;;
  mret (mk_ReservationRequest id context amount expires_at).

Inductive ReservationState := Reserved | Committed | Released | Expired.
#[export] Instance ReservationState_eq_dec : EqDecision ReservationState.
Proof. solve_decision. Defined.

Record ReservationReceipt := mk_ReservationReceipt {
  receipt_id : ReservationId;
  receipt_state : ReservationState;
  receipt_amount : Money;
  receipt_expires_at : N;
  receipt_applied_policies : list BudgetPolicyId;
  receipt_soft_limit_breaches : list BudgetPolicyId;
}.

(** ** The ledger *)

Record PolicyState := mk_PolicyState {
  policy : BudgetPolicy;
  reserved : N;
  committed : N;
}.
#[export] Instance PolicyState_eta : Eta PolicyState := fun p =>
  mk_PolicyState (policy p) (reserved p) (committed p).

Record ReservationRecord := mk_ReservationRecord {
  request : ReservationRequest;
  record_state : ReservationState;
  applied_policies : list BudgetPolicyId;
  soft_limit_breaches : list BudgetPolicyId;
}.
#[export] Instance ReservationRecord_eta : Eta ReservationRecord := fun r =>
  mk_ReservationRecord (request r) (record_state r) (applied_policies r) (soft_limit_breaches r).

(** [ReservationRecord::receipt]. *)
Definition receipt (r : ReservationRecord) : ReservationReceipt :=
  mk_ReservationReceipt (request_id (request r)) (record_state r) (amount (request r))
    (expires_at (request r)) (applied_policies r) (soft_limit_breaches r).

Record BudgetState := mk_BudgetState {
  policies : gmap BudgetPolicyId PolicyState;
  reservations : gmap ReservationId ReservationRecord;
}.
#[export] Instance BudgetState_eta : Eta BudgetState := fun s =>
  mk_BudgetState (policies s) (reservations s).

Record BudgetUsage := mk_BudgetUsage {
  usage_policy_id : BudgetPolicyId;
  usage_limit : Money;
  usage_enforcement : Enforcement;
  reserved_minor_units : N;
  committed_minor_units : N;
}.

(** An operation under the ledger's lock. *)
Notation ledger_act := (act BudgetState BudgetError).

(** *** Construction: [BudgetBook::new] *)

Definition validate_policy_count (count : N) : result BudgetError unit :=
  reject_if (count =? 0) (error InvalidArgument) ;;
  reject_if (MAX_POLICIES <? count) (error LimitExceeded).

(** The identities and the scopes seen so far. *)
Definition validate_unique_policy (p : BudgetPolicy) (identities : list BudgetPolicyId)
    (scopes : list (BudgetScope * CurrencyCode))
    : result BudgetError (list BudgetPolicyId * list (BudgetScope * CurrencyCode)) :=
  reject_if (bool_decide (policy_id p ∈ identities)) (error DuplicatePolicy) ;;
  let key := (scope p, currency (limit p)) in
  reject_if (bool_decide (key ∈ scopes)) (error DuplicateScopeCurrency) ;;
  mret (policy_id p :: identities, key :: scopes).

Fixpoint build_policies (ps : list BudgetPolicy) (identities : list BudgetPolicyId)
    (scopes : list (BudgetScope * CurrencyCode)) (states : gmap BudgetPolicyId PolicyState)
    : result BudgetError (gmap BudgetPolicyId PolicyState) :=
  match ps with
  | [] => Ok states
  | p :: ps' =>
      seen ← validate_unique_policy p identities scopes;
      build_policies ps' seen.1 seen.2 (<[policy_id p := mk_PolicyState p 0 0]> states)
  end.

Definition BudgetBook_new (ps : list BudgetPolicy) : result BudgetError (Lock BudgetState) :=
  validate_policy_count (len ps) ;;
  states ← build_policies ps [] [] ∅;
  mret (mk_lock false (mk_BudgetState states ∅)).

(** *** Policy counters *)

Definition policy_state (state : BudgetState) (id : BudgetPolicyId) : result BudgetError PolicyState :=
  ok_or (policies state !! id) (error PolicyNotFound).

(** [policy_state_mut] and an assignment through the reference it returns. *)
Definition policy_state_mut (id : BudgetPolicyId) (assign : PolicyState -> PolicyState) : ledger_act unit :=
  state ← get;
  p ← lift (policy_state state id);
  modify (fun st => st <| policies := <[id := assign p]> (policies st) |>).

(** [reservations.get_mut(id)] and an assignment to the record's state. *)
Definition set_record_state (id : ReservationId) (target : ReservationState) : ledger_act ReservationRecord :=
  state ← get;
  stored ← lift (ok_or (reservations state !! id) (error ReservationNotFound));
  let stored := stored <| record_state := target |> in
  modify (fun st => st <| reservations := <[id := stored]> (reservations st) |>) ;;
  mret stored.

(** *** Reserving *)

Definition validate_new_reservation (state : BudgetState) (r : ReservationRequest) (now : N)
    : result BudgetError unit :=
  reject_if (expires_at r <=? now) (error InvalidArgument) ;;
  reject_if (MAX_RESERVATIONS <=? N.of_nat (size (reservations state))) (error LimitExceeded).

(** Does a policy govern a request? *)
Definition applies (p : PolicyState) (r : ReservationRequest) : bool :=
  matches (scope (policy p)) (context r)
  && bool_decide (currency (limit (policy p)) = currency (amount r)).
Definition applicable_ids (state : BudgetState) (r : ReservationRequest) : list BudgetPolicyId :=
  (fun p => policy_id (policy p)) <$> List.filter (fun p => applies p r) (btree_values (policies state)).
Definition applicable_policy_ids (state : BudgetState) (r : ReservationRequest)
    : result BudgetError (list BudgetPolicyId) :=
  let ids := applicable_ids state r in
  reject_if (bool_decide (ids = [])) (error NoApplicablePolicy) ;;
  mret ids.

Definition projected_usage (p : PolicyState) (amount : N) : result BudgetError N :=
  ok_or (usage ← checked_add u64_max (committed p) (reserved p); checked_add u64_max usage amount)
    (error ArithmeticOverflow).

Definition merge_hard_scope (current : option BudgetRefusalScope) (s : BudgetScope) : BudgetRefusalScope :=
  let account_local := match s with ScopeAccount _ _ => true | _ => false end in
  if bool_decide (current = Some RefusalRequest) || negb account_local
  then RefusalRequest else RefusalAccount.

Definition record_capacity_breach (p : PolicyState) (id : BudgetPolicyId)
    (hard_scope : option BudgetRefusalScope) (soft_breaches : list BudgetPolicyId)
    : option BudgetRefusalScope * list BudgetPolicyId :=
  match enforcement (policy p) with
  | Hard => (Some (merge_hard_scope hard_scope (scope (policy p))), soft_breaches)
  | Soft => (hard_scope, soft_breaches ++ [id])
  end.

(** The loop of [validate_capacity] with its two accumulators. *)
Fixpoint capacity_breaches (state : BudgetState) (ids : list BudgetPolicyId) (units : N)
    (hard_scope : option BudgetRefusalScope) (soft_breaches : list BudgetPolicyId)
    : result BudgetError (option BudgetRefusalScope * list BudgetPolicyId) :=
  match ids with
  | [] => Ok (hard_scope, soft_breaches)
  | id :: ids' =>
      p ← policy_state state id;
      projected ← projected_usage p units;
      let breaches :=
        if minor_units (limit (policy p)) <? projected
        then record_capacity_breach p id hard_scope soft_breaches
        else (hard_scope, soft_breaches) in
      capacity_breaches state ids' units breaches.1 breaches.2
  end.
Definition validate_capacity (state : BudgetState) (ids : list BudgetPolicyId) (charge : Money)
    : result BudgetError (list BudgetPolicyId) :=
  breaches ← capacity_breaches state ids (minor_units charge) None [];
  match breaches.1 with
  | Some scope => Err (with_refusal_scope HardLimitExceeded scope)
  | None => Ok breaches.2
  end.

Definition reserve_capacity (ids : list BudgetPolicyId) (units : N) : ledger_act unit :=
  state ← get;
  updates ← lift (collect (fun id =>
    p ← policy_state state id;
    total ← ok_or (checked_add u64_max (reserved p) units) (error ArithmeticOverflow);
    mret (id, total)) ids);
  for_each (fun update => policy_state_mut update.1 (fun p => p <| reserved := update.2 |>)) updates.

(** *** Expiry: plan the decrements, validate the whole plan, apply it *)

Definition is_due (now : N) (r : ReservationRecord) : bool :=
  bool_decide (record_state r = Reserved) && (expires_at (request r) <=? now).

(** The inner loop, over the policies of one record. *)
Fixpoint add_decrements (units : N) (ids : list BudgetPolicyId) (decrements : gmap BudgetPolicyId N)
    : result BudgetError (gmap BudgetPolicyId N) :=
  match ids with
  | [] => Ok decrements
  | id :: ids' =>
      total ← ok_or (checked_add u64_max (default 0 (decrements !! id)) units) (error ArithmeticOverflow);
      add_decrements units ids' (<[id := total]> decrements)
  end.
Fixpoint expiry_decrements_from (expired : list ReservationRecord) (decrements : gmap BudgetPolicyId N)
    : result BudgetError (gmap BudgetPolicyId N) :=
  match expired with
  | [] => Ok decrements
  | r :: expired' =>
      decrements' ← add_decrements (minor_units (amount (request r))) (applied_policies r) decrements;
      expiry_decrements_from expired' decrements'
  end.
Definition expiry_decrements (expired : list ReservationRecord) : result BudgetError (gmap BudgetPolicyId N) :=
  expiry_decrements_from expired ∅.

Definition validate_expiry_decrements (state : BudgetState) (decrements : list (BudgetPolicyId * N))
    : result BudgetError (list unit) :=
  collect (fun decrement =>
    p ← policy_state state decrement.1;
    reject_if (reserved p <? decrement.2) (error ArithmeticOverflow)) decrements.

Definition expire_records (now : N) : ledger_act N :=
  state ← get;
  let expired := List.filter (is_due now) (btree_values (reservations state)) in
  decrements ← lift (expiry_decrements expired);
  lift (validate_expiry_decrements state (btree_entries decrements)) ;;
  for_each (fun decrement => policy_state_mut decrement.1 (fun p =>
    p <| reserved := wrapping_sub u64_max (reserved p) decrement.2 |>)) (btree_entries decrements) ;;
  for_each (fun r => set_record_state (request_id (request r)) Expired ;; mret tt) expired ;;
  mret (len expired).

(** *** Settling *)

Definition apply_transition_usage (r : ReservationRecord) (target : ReservationState) : ledger_act unit :=
  state ← get;
  let units := minor_units (amount (request r)) in
  updates ← lift (collect (fun id =>
    p ← policy_state state id;
    reserved' ← ok_or (checked_sub (reserved p) units) (error ArithmeticOverflow);
    committed' ← if decide (target = Committed)
                 then ok_or (checked_add u64_max (committed p) units) (error ArithmeticOverflow)
                 else Ok (committed p);
    mret (id, (reserved', committed'))) (applied_policies r));
  for_each (fun update => policy_state_mut update.1 (fun p =>
    p <| reserved := update.2.1 |> <| committed := update.2.2 |>)) updates.

Definition transition_record (id : ReservationId) (target : ReservationState) : ledger_act ReservationReceipt :=
  state ← get;
  r ← lift (ok_or (reservations state !! id) (error ReservationNotFound));
  if decide (record_state r = target) then mret (receipt r)
  else
    lift (reject_if (bool_decide (record_state r <> Reserved)) (error ReservationFinalized)) ;;
    apply_transition_usage r target ;;
    stored ← set_record_state id target;
    mret (receipt stored).

(** *** Creation ([reservation.rs]) *)

Definition replay_reservation (r : ReservationRecord) (req : ReservationRequest)
    : result BudgetError ReservationReceipt :=
  reject_if (bool_decide (request r <> req)) (error ReplayConflict) ;;
  reject_if (bool_decide (record_state r <> Reserved)) (error ReservationFinalized) ;;
  mret (receipt r).

Definition insert_reservation (req : ReservationRequest) (now : N) : ledger_act ReservationReceipt :=
  state ← get;
  lift (validate_new_reservation state req now) ;;
  ids ← lift (applicable_policy_ids state req);
  soft_breaches ← lift (validate_capacity state ids (amount req));
  reserve_capacity ids (minor_units (amount req)) ;;
  let r := mk_ReservationRecord req Reserved ids soft_breaches in
  modify (fun st => st <| reservations := <[receipt_id (receipt r) := r]> (reservations st) |>) ;;
  mret (receipt r).

Definition reserve_body (req : ReservationRequest) (now : N) : ledger_act ReservationReceipt :=
  expire_records now ;;
  state ← get;
  match reservations state !! request_id req with
  | Some r => lift (replay_reservation r req)
  | None => insert_reservation req now
  end.

Definition reserve_fresh_body (req : ReservationRequest) (now : N) : ledger_act ReservationReceipt :=
  state ← get;
  lift (reject_if (bool_decide (is_Some (reservations state !! request_id req))) (error ReplayConflict)) ;;
  expire_records now ;;
  insert_reservation req now.

(** *** The public methods *)

Definition reserve req now := locked (error StateUnavailable) (reserve_body req now).
Definition reserve_fresh req now := locked (error StateUnavailable) (reserve_fresh_body req now).
Definition commit id := locked (error StateUnavailable) (transition_record id Committed).
Definition release id := locked (error StateUnavailable) (transition_record id Released).
Definition expire now := locked (error StateUnavailable) (expire_records now).
Definition usage_of (id : BudgetPolicyId) (state : BudgetState) : result BudgetError BudgetUsage :=
  p ← policy_state state id;
  mret (mk_BudgetUsage (policy_id (policy p)) (limit (policy p)) (enforcement (policy p))
          (reserved p) (committed p)).
Definition usage id := locked (error StateUnavailable) (query (usage_of id)).

(** ** The ledger as a transition system *)

Inductive ledger_request :=
| ReserveRequest (req : ReservationRequest) (now : N)
| ReserveFreshRequest (req : ReservationRequest) (now : N)
| CommitRequest (id : ReservationId)
| ReleaseRequest (id : ReservationId)
| ExpireRequest (now : N).

(** The state a request leaves; what it answers is the body's own result. *)
Definition serve (r : ledger_request) (s : BudgetState) : BudgetState :=
  match r with
  | ReserveRequest req now => (reserve_body req now s).1
  | ReserveFreshRequest req now => (reserve_fresh_body req now s).1
  | CommitRequest id => (transition_record id Committed s).1
  | ReleaseRequest id => (transition_record id Released s).1
  | ExpireRequest now => (expire_records now s).1
  end.
Definition ledger_step (s s' : BudgetState) : Prop := exists r, serve r s = s'.
(** The states of a ledger built from a policy set. *)
Definition reachable (s : BudgetState) : Prop :=
  exists ps s0, BudgetBook_new ps = Ok (mk_lock false s0) /\ rtc ledger_step s0 s.

(** ** Specification *)

(** What a record charges to a policy, in a given lifecycle state. *)
Definition charge (target : ReservationState) (id : BudgetPolicyId) (r : ReservationRecord) : N :=
  if decide (record_state r = target /\ id ∈ applied_policies r)
  then minor_units (amount (request r)) else 0.
Definition charged (target : ReservationState) (id : BudgetPolicyId) (s : BudgetState) : N :=
  map_sum (fun _ r => charge target id r) (reservations s).

(** The counters of every policy are the totals of the retained records, no hard
    limit is exceeded, and no total leaves its integer type. *)
Record policy_inv (s : BudgetState) (id : BudgetPolicyId) (p : PolicyState) : Prop := {
  pi_key : policy_id (policy p) = id;
  pi_reserved : reserved p = charged Reserved id s;
  pi_committed : committed p = charged Committed id s;
  pi_width : reserved p + committed p <= u64_max;
  pi_hard : enforcement (policy p) = Hard -> reserved p + committed p <= minor_units (limit (policy p));
}.
Record record_inv (s : BudgetState) (id : ReservationId) (r : ReservationRecord) : Prop := {
  ri_key : request_id (request r) = id;
  ri_applied : applied_policies r = applicable_ids s (request r);
  ri_nonempty : applied_policies r <> [];
}.
Record ledger_inv (s : BudgetState) : Prop := {
  li_policy : forall id p, policies s !! id = Some p -> policy_inv s id p;
  li_record : forall id r, reservations s !! id = Some r -> record_inv s id r;
  li_scopes : forall i j p q, policies s !! i = Some p -> policies s !! j = Some q ->
    scope (policy p) = scope (policy q) ->
    currency (limit (policy p)) = currency (limit (policy q)) -> i = j;
}.

(** What a record charges to a policy whatever its state. *)
Definition raw_charge (id : BudgetPolicyId) (r : ReservationRecord) : N :=
  if decide (id ∈ applied_policies r) then minor_units (amount (request r)) else 0.

(** Expiry, specified record by record and policy by policy. *)
Definition expire_record (now : N) (r : ReservationRecord) : ReservationRecord :=
  if is_due now r then r <| record_state := Expired |> else r.
Definition due_charge (now : N) (id : BudgetPolicyId) (s : BudgetState) : N :=
  map_sum (fun _ r => if is_due now r then charge Reserved id r else 0) (reservations s).
Definition expire_spec (now : N) (s : BudgetState) : BudgetState :=
  mk_BudgetState
    (map_imap (fun id p => Some (p <| reserved := reserved p - due_charge now id s |>)) (policies s))
    (expire_record now <$> reservations s).

(** Moving a reserved charge of the record [r] to another lifecycle state. *)
Definition settle_policy (r : ReservationRecord) (target : ReservationState) (id : BudgetPolicyId)
    (p : PolicyState) : PolicyState :=
  if decide (id ∈ applied_policies r) then
    let units := minor_units (amount (request r)) in
    p <| reserved := reserved p - units |>
      <| committed := if decide (target = Committed) then committed p + units else committed p |>
  else p.
Definition settle_spec (id : ReservationId) (r : ReservationRecord) (target : ReservationState)
    (s : BudgetState) : BudgetState :=
  mk_BudgetState
    (map_imap (fun pid p => Some (settle_policy r target pid p)) (policies s))
    (<[id := r <| record_state := target |>]> (reservations s)).

(** Adding the charge of a new record. *)
Definition charge_policy (r : ReservationRecord) (id : BudgetPolicyId) (p : PolicyState) : PolicyState :=
  if decide (id ∈ applied_policies r)
  then p <| reserved := reserved p + minor_units (amount (request r)) |> else p.
Definition charge_spec (r : ReservationRecord) (s : BudgetState) : BudgetState :=
  mk_BudgetState
    (map_imap (fun pid p => Some (charge_policy r pid p)) (policies s))
    (<[request_id (request r) := r]> (reservations s)).

(** Would a charge of [units] overflow the counters of a policy, or take it over
    its limit? *)
Definition usage_after (s : BudgetState) (units : N) (id : BudgetPolicyId) : N :=
  from_option (fun p => committed p + reserved p + units) 0 (policies s !! id).
Definition overflows (s : BudgetState) (units : N) (id : BudgetPolicyId) : bool :=
  u64_max <? usage_after s units id.
Definition breaches (e : Enforcement) (s : BudgetState) (units : N) (id : BudgetPolicyId) : bool :=
  is_some_and (fun p => bool_decide (enforcement (policy p) = e)
    && (minor_units (limit (policy p)) <? usage_after s units id)) (policies s !! id).
Definition account_scoped (s : BudgetState) (id : BudgetPolicyId) : bool :=
  is_some_and (fun p => match scope (policy p) with ScopeAccount _ _ => true | _ => false end)
    (policies s !! id).

(** The scope of a refusal, given what an earlier breach contributed. *)
Definition merged_scope (s : BudgetState) (hard : option BudgetRefusalScope) (exceeded : list BudgetPolicyId)
    : option BudgetRefusalScope :=
  if decide (exceeded = []) then hard
  else Some (if bool_decide (hard <> Some RefusalRequest) && forallb (account_scoped s) exceeded
             then RefusalAccount else RefusalRequest).

(** The decision a new reservation deserves, as a function of the ledger. *)
Definition decide_reservation (req : ReservationRequest) (now : N) (s : BudgetState)
    : result BudgetError ReservationRecord :=
  let ids := applicable_ids s req in
  let units := minor_units (amount req) in
  if expires_at req <=? now then Err (error InvalidArgument)
  else if MAX_RESERVATIONS <=? N.of_nat (size (reservations s)) then Err (error LimitExceeded)
  else if decide (ids = []) then Err (error NoApplicablePolicy)
  else if existsb (overflows s units) ids then Err (error ArithmeticOverflow)
  else
    let exceeded := List.filter (breaches Hard s units) ids in
    if decide (exceeded = []) then
      Ok (mk_ReservationRecord req Reserved ids (List.filter (breaches Soft s units) ids))
    else
      Err (with_refusal_scope HardLimitExceeded
             (if forallb (account_scoped s) exceeded then RefusalAccount else RefusalRequest)).

(** The operations of the ledger, specified: expiry first, then the decision. *)
Definition insert_spec (req : ReservationRequest) (now : N) (s : BudgetState)
    : BudgetState * result BudgetError ReservationReceipt :=
  match decide_reservation req now s with
  | Ok r => (charge_spec r s, Ok (receipt r))
  | Err e => (s, Err e)
  end.
Definition reserve_spec (req : ReservationRequest) (now : N) (s : BudgetState)
    : BudgetState * result BudgetError ReservationReceipt :=
  let s1 := expire_spec now s in
  match reservations s1 !! request_id req with
  | Some r => (s1, replay_reservation r req)
  | None => insert_spec req now s1
  end.
Definition reserve_fresh_spec (req : ReservationRequest) (now : N) (s : BudgetState)
    : BudgetState * result BudgetError ReservationReceipt :=
  match reservations s !! request_id req with
  | Some _ => (s, Err (error ReplayConflict))
  | None => insert_spec req now (expire_spec now s)
  end.
Definition transition_spec (k : ReservationId) (target : ReservationState) (s : BudgetState)
    : BudgetState * result BudgetError ReservationReceipt :=
  match reservations s !! k with
  | None => (s, Err (error ReservationNotFound))
  | Some r =>
      if decide (record_state r = target) then (s, Ok (receipt r))
      else if decide (record_state r = Reserved)
      then (settle_spec k r target s, Ok (receipt (r <| record_state := target |>)))
      else (s, Err (error ReservationFinalized))
  end.

(** A retained record of a later ledger: the same charge, and the same state once
    it was settled. *)
Definition record_le (r r' : ReservationRecord) : Prop :=
  request r' = request r /\ applied_policies r' = applied_policies r /\
  (record_state r <> Reserved -> r' = r).
Definition records_le (s s' : BudgetState) : Prop :=
  forall k r, reservations s !! k = Some r ->
    exists r', reservations s' !! k = Some r' /\ record_le r r'.

Definition serve_all (rs : list ledger_request) (s : BudgetState) : BudgetState :=
  foldl (fun s r => serve r s) s rs.

(** A sample ledger: a hard account budget of 100 under a soft tenant budget of 50. *)
Definition sample_currency : CurrencyCode := mk_CurrencyCode "EUR".
Definition sample_policies : list BudgetPolicy :=
  [ mk_BudgetPolicy (MkId "account") (ScopeAccount (MkId "t") (MkId "a")) (mk_Money sample_currency 100) Hard;
    mk_BudgetPolicy (MkId "tenant") (ScopeTenant (MkId "t")) (mk_Money sample_currency 50) Soft ].
Definition sample_request (id : string) (units expires : N) : ReservationRequest :=
  mk_ReservationRequest (MkId id) (mk_BudgetContext (MkId "t") None (MkId "a"))
    (mk_Money sample_currency units) expires.
Definition sample_book : BudgetState :=
  match BudgetBook_new sample_policies with
  | Ok l => lock_data l
  | Err _ => mk_BudgetState ∅ ∅
  end.
Definition sample_ledger : BudgetState :=
  serve_all [ReserveRequest (sample_request "r1" 60 10) 0; ReserveRequest (sample_request "r2" 30 20) 0;
             CommitRequest (MkId "r2")] sample_book.

(** ** Lemmas *)

Create HintDb budget.

Lemma policy_state_Ok s id p : policy_state s id = Ok p <-> policies s !! id = Some p.
Proof. apply ok_or_Ok. Qed.
Lemma map_imap_some_lookup (f : BudgetPolicyId -> PolicyState -> PolicyState)
    (m : gmap BudgetPolicyId PolicyState) id :
  map_imap (fun id p => Some (f id p)) m !! id = f id <$> m !! id.
Proof. rewrite map_lookup_imap. by destruct (m !! id). Qed.

(** *** Running the assignments of a plan *)

Lemma policy_state_mut_run id assign s p :
  policies s !! id = Some p ->
  policy_state_mut id assign s = (s <| policies := <[id := assign p]> (policies s) |>, Ok tt).
Proof. intros Hp. unfold policy_state_mut, policy_state, mbind, act_bind, get, lift. by rewrite Hp. Qed.

(** The assignments of a plan with distinct, known policies all succeed; each
    policy named by the plan is assigned once. *)
Lemma apply_plan {X} (assign : X -> PolicyState -> PolicyState) (plan : list (BudgetPolicyId * X)) s :
  NoDup plan.*1 -> (forall id, id ∈ plan.*1 -> is_Some (policies s !! id)) ->
  for_each (fun update => policy_state_mut update.1 (assign update.2)) plan s =
    (mk_BudgetState
       (map_imap (fun id p => Some (from_option (fun x => assign x p) p
          ((list_to_map plan : gmap BudgetPolicyId X) !! id))) (policies s))
       (reservations s), Ok tt).
Proof.
  revert s. induction plan as [|[id x] plan IH]; intros s Hnd Hin; cbn [for_each].
  - unfold mret, act_ret. f_equal. destruct s as [ps rs]. f_equal. cbn. apply map_eq. intros i.
    rewrite (map_imap_some_lookup (fun id p => _)), lookup_empty. cbn. by destruct (ps !! i).
  - cbn in Hnd. apply NoDup_cons in Hnd as [Hni Hnd].
    destruct (Hin id ltac:(cbn; left)) as [p Hp].
    unfold mbind, act_bind. cbn [fst snd]. rewrite (policy_state_mut_run _ _ _ _ Hp).
    rewrite IH; [|done|].
    + f_equal. f_equal. apply map_eq. intros i. cbn [policies set_field].
      rewrite !(map_imap_some_lookup (fun id p => _)). cbn [list_to_map foldr uncurry].
      destruct (decide (i = id)) as [->|Hne].
      * rewrite !lookup_insert_eq, Hp. cbn.
        by rewrite (not_elem_of_list_to_map_1 plan id Hni).
      * by rewrite !lookup_insert_ne.
    + intros i Hi. cbn. destruct (decide (i = id)) as [->|Hne]; [rewrite lookup_insert_eq; eauto|].
      rewrite lookup_insert_ne by done. apply Hin. cbn. by right.
Qed.

Lemma plan_lookup {X} (g : BudgetPolicyId -> X) ids id :
  (list_to_map ((fun id => (id, g id)) <$> ids) : gmap BudgetPolicyId X) !! id =
  if decide (id ∈ ids) then Some (g id) else None.
Proof.
  induction ids as [|i ids IH]; [by rewrite decide_False by apply not_elem_of_nil|].
  cbn [fmap list_fmap list_to_map foldr uncurry fst snd].
  destruct (decide (id = i)) as [->|Hne].
  - rewrite lookup_insert_eq, decide_True; [done|left].
  - rewrite lookup_insert_ne by done. cbn in IH. rewrite IH.
    destruct (decide (id ∈ ids)); case_decide as Hd; try done.
    + destruct Hd. by right.
    + by apply elem_of_cons in Hd as [->|].
Qed.
Lemma plan_keys {X} (g : BudgetPolicyId -> X) ids : ((fun id => (id, g id)) <$> ids).*1 = ids.
Proof. induction ids as [|id ids IH]; cbn; [done|]. f_equal. apply IH. Qed.

Lemma set_record_state_run id target s r :
  reservations s !! id = Some r ->
  set_record_state id target s =
    (s <| reservations := <[id := r <| record_state := target |>]> (reservations s) |>,
     Ok (r <| record_state := target |>)).
Proof. intros Hr. unfold set_record_state, mbind, act_bind, get, lift. by rewrite Hr. Qed.

(** *** The invariant's consequences *)

Section ledger_facts.
  Context (s : BudgetState) (Hinv : ledger_inv s).

Lemma applicable_ids_elem r id :
  id ∈ applicable_ids s r <-> exists p, policies s !! id = Some p /\ applies p r = true.
Proof.
  unfold applicable_ids. rewrite list_elem_of_fmap. split.
  - intros (p & -> & Hp). apply elem_of_list_filter in Hp as [[k Hk]%elem_of_btree_values Ha].
    pose proof (pi_key _ _ _ (li_policy _ Hinv _ _ Hk)) as ->. eauto.
  - intros (p & Hp & Ha). exists p. split; [symmetry; by eapply pi_key, li_policy|].
    apply elem_of_list_filter. split; [|done]. apply elem_of_btree_values. eauto.
Qed.

Lemma applicable_ids_NoDup r : NoDup (applicable_ids s r).
Proof.
  apply NoDup_fmap_filter, btree_values_keys_NoDup. intros k p Hk. by eapply pi_key, li_policy.
Qed.

Lemma record_applied_NoDup id r : reservations s !! id = Some r -> NoDup (applied_policies r).
Proof. intros Hr. rewrite (ri_applied _ _ _ (li_record _ Hinv _ _ Hr)). apply applicable_ids_NoDup. Qed.
Lemma record_applied_known id r pid :
  reservations s !! id = Some r -> pid ∈ applied_policies r -> is_Some (policies s !! pid).
Proof.
  intros Hr. rewrite (ri_applied _ _ _ (li_record _ Hinv _ _ Hr)).
  intros (p & Hp & _)%applicable_ids_elem. eauto.
Qed.

Lemma charge_le_charged target id k r :
  reservations s !! k = Some r -> charge target id r <= charged target id s.
Proof. intros Hk. apply (map_sum_elem (fun _ r => charge target id r) _ _ _ Hk). Qed.

(** A reserved record's amount is part of the counter of each of its policies. *)
Lemma reserved_covers k r pid p :
  reservations s !! k = Some r -> record_state r = Reserved -> pid ∈ applied_policies r ->
  policies s !! pid = Some p -> minor_units (amount (request r)) <= reserved p.
Proof.
  intros Hr Hst Hin Hp. rewrite (pi_reserved _ _ _ (li_policy _ Hinv _ _ Hp)).
  pose proof (charge_le_charged Reserved pid k r Hr) as Hle. unfold charge in Hle.
  by rewrite decide_True in Hle.
Qed.

Lemma due_charge_le now pid p : policies s !! pid = Some p -> due_charge now pid s <= reserved p.
Proof.
  intros Hp. rewrite (pi_reserved _ _ _ (li_policy _ Hinv _ _ Hp)).
  apply map_sum_le. intros k r _. case_match; lia.
Qed.
End ledger_facts.

(** *** Expiry *)

Lemma add_decrements_run units ids d :
  NoDup ids -> (forall id, id ∈ ids -> default 0 (d !! id) + units <= u64_max) ->
  exists d', add_decrements units ids d = Ok d' /\
    (forall id, d' !! id = if decide (id ∈ ids) then Some (default 0 (d !! id) + units) else d !! id).
Proof.
  revert d. induction ids as [|i ids IH]; intros d Hnd Hb.
  - exists d. split; [done|]. intros id. by rewrite decide_False by apply not_elem_of_nil.
  - apply NoDup_cons in Hnd as [Hni Hnd]. cbn [add_decrements].
    assert (checked_add u64_max (default 0 (d !! i)) units = Some (default 0 (d !! i) + units)) as ->
      by (apply checked_add_Some; split; [done|apply Hb; left]).
    cbn. destruct (IH (<[i:=default 0 (d !! i) + units]> d) Hnd) as (d' & -> & Hd').
    { intros id Hid. rewrite lookup_insert_ne by (intros ->; done). apply Hb. by right. }
    exists d'. split; [done|]. intros id. rewrite Hd'. destruct (decide (id = i)) as [->|Hne].
    + rewrite decide_False by done. rewrite lookup_insert_eq, decide_True; [done|left].
    + rewrite lookup_insert_ne by done. destruct (decide (id ∈ ids)).
      * by rewrite decide_True by (by right).
      * rewrite decide_False; [done|]. by intros [|]%elem_of_cons.
Qed.

Lemma expiry_decrements_run rs d :
  (forall r, r ∈ rs -> NoDup (applied_policies r)) ->
  (forall id, default 0 (d !! id) + sum_of (raw_charge id) rs <= u64_max) ->
  exists d', expiry_decrements_from rs d = Ok d' /\
    (forall id, default 0 (d' !! id) = default 0 (d !! id) + sum_of (raw_charge id) rs) /\
    (forall id, is_Some (d' !! id) -> is_Some (d !! id) \/ exists r, r ∈ rs /\ id ∈ applied_policies r).
Proof.
  revert d. induction rs as [|r rs IH]; intros d Hnd Hb.
  - exists d. cbn. split; [done|]. split; [intros; lia|eauto].
  - cbn [expiry_decrements_from].
    destruct (add_decrements_run (minor_units (amount (request r))) (applied_policies r) d) as (d1 & -> & Hd1).
    { apply Hnd. left. }
    { intros id Hid. specialize (Hb id). rewrite sum_of_cons in Hb. unfold raw_charge at 1 in Hb.
      rewrite decide_True in Hb by done. lia. }
    assert (forall id, default 0 (d1 !! id) = default 0 (d !! id) + raw_charge id r) as Hval.
    { intros id. rewrite Hd1. unfold raw_charge. case_decide; cbn; lia. }
    cbn [mbind result_bind]. destruct (IH d1) as (d' & -> & Hsum & Hdom).
    { intros r' Hr'. apply Hnd. by right. }
    { intros id. rewrite Hval. specialize (Hb id). rewrite sum_of_cons in Hb. lia. }
    exists d'. split; [done|]. split.
    + intros id. rewrite Hsum, Hval, sum_of_cons. lia.
    + intros id [Hs|(r' & Hr' & Hin)]%Hdom.
      * rewrite Hd1 in Hs. case_decide; [|by left]. right. exists r. split; [left|done].
      * right. exists r'. split; [by right|done].
Qed.

(** The records to expire, each under its own key. *)
Lemma due_records now s r :
  ledger_inv s ->
  r ∈ List.filter (is_due now) (btree_values (reservations s)) <->
  reservations s !! request_id (request r) = Some r /\ is_due now r = true.
Proof.
  intros Hinv. rewrite elem_of_list_filter, elem_of_btree_values.
  split; (intros [Hr ?]; split; [|done]).
  - destruct Hr as [k Hk]. by rewrite (ri_key _ _ _ (li_record _ Hinv _ _ Hk)).
  - eauto.
Qed.
Lemma due_records_NoDup now s :
  ledger_inv s ->
  NoDup ((fun r => request_id (request r)) <$> List.filter (is_due now) (btree_values (reservations s))).
Proof.
  intros Hinv. apply NoDup_fmap_filter, (btree_values_keys_NoDup (fun r => request_id (request r))).
  intros k r Hk. by eapply ri_key, li_record.
Qed.

Lemma raw_charge_due now id r : is_due now r = true -> raw_charge id r = charge Reserved id r.
Proof.
  unfold is_due, raw_charge, charge. intros [Hst%bool_decide_eq_true _]%andb_true_iff.
  rewrite Hst. do 2 case_decide; naive_solver.
Qed.
Lemma due_total now s id :
  sum_of (raw_charge id) (List.filter (is_due now) (btree_values (reservations s))) = due_charge now id s.
Proof.
  rewrite sum_of_filter, sum_btree_values. apply map_sum_ext. intros k r _.
  destruct (is_due now r) eqn:E; [|done]. by rewrite (raw_charge_due now).
Qed.

(** Marking a list of stored records. *)
Lemma mark_records target rs s :
  NoDup ((fun r => request_id (request r)) <$> rs) ->
  (forall r, r ∈ rs -> reservations s !! request_id (request r) = Some r) ->
  for_each (fun r => set_record_state (request_id (request r)) target ;; mret tt) rs s =
    (mk_BudgetState (policies s)
       (map_imap (fun k r => Some (if decide (k ∈ (fun r => request_id (request r)) <$> rs)
          then r <| record_state := target |> else r)) (reservations s)), Ok tt).
Proof.
  revert s. induction rs as [|r rs IH]; intros s Hnd Hin; cbn [for_each].
  - unfold mret, act_ret. f_equal. destruct s as [ps ms]. f_equal. cbn. apply map_eq. intros k.
    rewrite map_lookup_imap. destruct (ms !! k); cbn; [|done].
    by rewrite decide_False by apply not_elem_of_nil.
  - rewrite fmap_cons in Hnd. apply NoDup_cons in Hnd as [Hni Hnd].
    rewrite (act_bind_run _ _ _ _ _ (act_bind_run _ _ _ _ _
      (set_record_state_run _ _ _ _ (Hin r ltac:(left))))). rewrite IH; [|done|].
    + f_equal. f_equal. apply map_eq. intros k. cbn [reservations set_field].
      rewrite !map_lookup_imap. destruct (decide (k = request_id (request r))) as [->|Hne].
      * rewrite lookup_insert_eq, (Hin r) by left. cbn [mbind option_bind].
        rewrite decide_False by done. by rewrite decide_True by (rewrite fmap_cons; left).
      * rewrite lookup_insert_ne by done. destruct (reservations s !! k) as [r'|]; cbn [mbind option_bind]; [|done].
        rewrite fmap_cons. destruct (decide (k ∈ (fun r => request_id (request r)) <$> rs)).
        -- by rewrite decide_True by (by right).
        -- rewrite decide_False; [done|]. by intros [|]%elem_of_cons.
    + intros r' Hr'. cbn. rewrite lookup_insert_ne; [apply Hin; by right|].
      intros Heq. apply Hni. rewrite Heq. apply list_elem_of_fmap. eauto.
Qed.

(** The plan-validate-apply pass of the code is the record-by-record expiry. *)
Lemma expire_records_run now s :
  ledger_inv s ->
  expire_records now s =
    (expire_spec now s, Ok (len (List.filter (is_due now) (btree_values (reservations s))))).
Proof.
  intros Hinv. unfold expire_records. set (rs := List.filter _ _).
  rewrite act_get_run. fold rs.
  assert (forall r, r ∈ rs -> reservations s !! request_id (request r) = Some r) as Hrs
    by (intros r [? _]%due_records; done).
  pose proof (due_total now s) as Htot. fold rs in Htot.
  destruct (expiry_decrements_run rs ∅) as (d & Hd & Hsum & Hdom).
  { intros r Hr. by eapply record_applied_NoDup, Hrs. }
  { intros id. rewrite lookup_empty, Htot. cbn.
    destruct (policies s !! id) as [p|] eqn:Hp.
    - pose proof (due_charge_le s Hinv now id p Hp). pose proof (pi_width _ _ _ (li_policy _ Hinv _ _ Hp)). lia.
    - rewrite <- Htot, sum_of_zero; [unfold u64_max; lia|]. intros r Hr. unfold raw_charge.
      rewrite decide_False; [done|]. intros Hin.
      destruct (record_applied_known s Hinv _ _ _ (Hrs r Hr) Hin). congruence. }
  unfold expiry_decrements. rewrite Hd, act_lift_run.
  assert (forall id x, d !! id = Some x -> exists p, policies s !! id = Some p /\ x = due_charge now id s) as Hplan.
  { intros id x Hx. specialize (Hsum id). rewrite lookup_empty, Hx, Htot in Hsum. cbn in Hsum.
    destruct (Hdom id ltac:(eauto)) as [[? Hn]|(r & Hr & Hin)]; [by rewrite lookup_empty in Hn|].
    destruct (record_applied_known s Hinv _ _ _ (Hrs r Hr) Hin) as [p Hp]. eauto. }
  assert (validate_expiry_decrements s (btree_entries d) = Ok ((fun _ => tt) <$> btree_entries d)) as Hval.
  { apply collect_map. intros [id x] (p & Hp & ->)%elem_of_btree_entries%Hplan. cbn [fst snd] in *.
    unfold policy_state. rewrite Hp. cbn.
    pose proof (due_charge_le s Hinv now id p Hp).
    by rewrite (proj2 (N.ltb_ge _ _)) by done. }
  assert (forall id, id ∈ (btree_entries d).*1 -> is_Some (policies s !! id)) as Hknown.
  { intros id ([id' x] & -> & (p & Hp & _)%elem_of_btree_entries%Hplan)%list_elem_of_fmap. eauto. }
  rewrite Hval, act_lift_run.
  rewrite (act_bind_run _ _ _ _ _ (apply_plan (fun x p => p <| reserved := wrapping_sub u64_max (reserved p) x |>)
    _ s (btree_entries_NoDup d) Hknown)).
  rewrite btree_list_to_map.
  rewrite (act_bind_run _ _ _ _ _ (mark_records Expired rs (mk_BudgetState _ (reservations s)) (due_records_NoDup now s Hinv) Hrs)).
  unfold mret, act_ret. f_equal. unfold expire_spec. f_equal; apply map_eq; intros k; cbn [policies reservations].
  - rewrite !(map_imap_some_lookup (fun id p => _)). destruct (policies s !! k) as [p|] eqn:Hp; [|done].
    cbn. f_equal. destruct (d !! k) as [x|] eqn:Hx; cbn.
    + destruct (Hplan k x Hx) as (_ & _ & ->). rewrite wrapping_sub_exact; [done|].
      split; [by apply due_charge_le|]. pose proof (pi_width _ _ _ (li_policy _ Hinv _ _ Hp)). lia.
    + specialize (Hsum k). rewrite Hx, lookup_empty, Htot in Hsum. cbn in Hsum.
      assert (due_charge now k s = 0) as -> by lia. rewrite N.sub_0_r. by destruct p.
  - rewrite map_lookup_imap, lookup_fmap. destruct (reservations s !! k) as [r|] eqn:Hr; cbn; [|done].
    f_equal. unfold expire_record. pose proof (ri_key _ _ _ (li_record _ Hinv _ _ Hr)) as Hk.
    case_decide as Hin; [|].
    + apply list_elem_of_fmap in Hin as (r' & -> & [Hr' Hdue]%due_records); [|done].
      rewrite Hr' in Hr. injection Hr as ->. by rewrite Hdue.
    + destruct (is_due now r) eqn:E; [|done]. destruct Hin. apply list_elem_of_fmap.
      exists r. split; [done|]. apply due_records; [done|]. by rewrite Hk.
Qed.

(** *** Preservation of the invariant *)

Lemma applicable_ids_update s rs (f : BudgetPolicyId -> PolicyState -> PolicyState) req :
  (forall id p, policy (f id p) = policy p) ->
  applicable_ids (mk_BudgetState (map_imap (fun id p => Some (f id p)) (policies s)) rs) req =
  applicable_ids s req.
Proof.
  intros Hf. unfold applicable_ids, btree_values. cbn [policies]. rewrite btree_entries_imap.
  induction (btree_entries (policies s)) as [|[k p] l IH]; [done|].
  cbn [fmap list_fmap List.filter fst snd].
  replace (applies (f k p) req) with (applies p req) by (unfold applies; by rewrite Hf).
  destruct (applies p req); cbn [fmap list_fmap]; rewrite ?Hf; [f_equal|]; apply IH.
Qed.

Section update.
  Context (s : BudgetState) (f : BudgetPolicyId -> PolicyState -> PolicyState)
    (rs : gmap ReservationId ReservationRecord).
  Context (Hinv : ledger_inv s) (Hf : forall id p, policy (f id p) = policy p).

Lemma update_inv :
  (forall k r, rs !! k = Some r -> record_inv s k r) ->
  (forall id p, policies s !! id = Some p ->
     reserved (f id p) = charged Reserved id (mk_BudgetState (map_imap (fun id p => Some (f id p)) (policies s)) rs) /\ committed (f id p) = charged Committed id (mk_BudgetState (map_imap (fun id p => Some (f id p)) (policies s)) rs) /\
     reserved (f id p) + committed (f id p) <= u64_max /\
     (enforcement (policy p) = Hard ->
      reserved (f id p) + committed (f id p) <= minor_units (limit (policy p)))) ->
  ledger_inv (mk_BudgetState (map_imap (fun id p => Some (f id p)) (policies s)) rs).
Proof.
  intros Hrec Hcnt. split.
  - intros id p'. cbn [policies]. rewrite (map_imap_some_lookup (fun id p => f id p)).
    intros (p & Hp & ->)%fmap_Some. destruct (Hcnt id p Hp) as (? & ? & ? & ?).
    split; rewrite ?Hf; try done. by eapply pi_key, li_policy.
  - intros k r Hr. destruct (Hrec k r Hr). split; [done| |done].
    by rewrite applicable_ids_update.
  - intros i j p q. cbn [policies]. rewrite !(map_imap_some_lookup (fun id p => f id p)).
    intros (p' & Hp & ->)%fmap_Some (q' & Hq & ->)%fmap_Some. rewrite !Hf. by apply (li_scopes s Hinv).
Qed.
End update.

Lemma charge_expire now id r :
  charge Reserved id (expire_record now r) + (if is_due now r then charge Reserved id r else 0)
    = charge Reserved id r /\
  charge Committed id (expire_record now r) = charge Committed id r.
Proof.
  unfold expire_record. destruct (is_due now r) eqn:E; [|split; [lia|done]].
  unfold is_due in E. apply andb_true_iff in E as [Hst%bool_decide_eq_true _].
  unfold charge. cbn. rewrite Hst. split; repeat case_decide; destruct_and?; try done; lia.
Qed.

Lemma expire_spec_inv now s : ledger_inv s -> ledger_inv (expire_spec now s).
Proof.
  intros Hinv. apply (update_inv s (fun id p => p <| reserved := reserved p - due_charge now id s |>)); try done.
  - intros k r'. rewrite lookup_fmap. intros (r & Hr & ->)%fmap_Some.
    destruct (li_record s Hinv k r Hr). unfold expire_record. case_match; by split.
  - intros id p Hp. cbn [reserved committed set_field]. destruct (li_policy s Hinv id p Hp) as [_ Hr Hc Hw Hh].
    assert (charged Reserved id (mk_BudgetState ∅ (expire_record now <$> reservations s)) + due_charge now id s
            = charged Reserved id s) as Hsum.
    { unfold charged, due_charge. cbn [reservations]. rewrite map_sum_fmap, <- map_sum_add.
      apply map_sum_ext. intros k r _. apply charge_expire. }
    assert (charged Committed id (mk_BudgetState ∅ (expire_record now <$> reservations s))
            = charged Committed id s) as Hcom.
    { unfold charged. cbn [reservations]. rewrite map_sum_fmap. apply map_sum_ext. intros k r _. apply charge_expire. }
    unfold charged in *. cbn [reservations] in *.
    split_and!; [lia|congruence|lia|]. intros Hhard%Hh. lia.
Qed.

(** Settling a reserved record. *)
Lemma charge_other target target' id r :
  target <> target' -> charge target id (r <| record_state := target' |>) = 0.
Proof. intros Hne. unfold charge. cbn. rewrite decide_False; [done|]. intros [? _]. by destruct Hne. Qed.
Lemma charge_same target id r :
  record_state r = target -> charge target id r = raw_charge id r.
Proof. intros Hst. unfold charge, raw_charge. do 2 case_decide; naive_solver. Qed.
Lemma raw_charge_state id r target : raw_charge id (r <| record_state := target |>) = raw_charge id r.
Proof. done. Qed.

Lemma settle_spec_inv k r target s :
  ledger_inv s -> reservations s !! k = Some r -> record_state r = Reserved -> target <> Reserved ->
  ledger_inv (settle_spec k r target s).
Proof.
  intros Hinv Hr Hst Htgt. apply (update_inv s (settle_policy r target)); try done.
  - intros id p. unfold settle_policy. by case_decide.
  - intros k' r'. destruct (decide (k' = k)) as [->|Hne].
    + rewrite lookup_insert_eq. intros [= <-]. destruct (li_record s Hinv k r Hr). by split.
    + rewrite lookup_insert_ne by done. by apply li_record.
  - intros id p Hp. destruct (li_policy s Hinv id p Hp) as [_ Hres Hcom Hw Hh].
    unfold charged. cbn [reservations].
    set (r' := r <| record_state := target |>).
    pose proof (map_sum_insert (fun _ r => charge Reserved id r) _ k r r' Hr) as HR.
    pose proof (map_sum_insert (fun _ r => charge Committed id r) _ k r r' Hr) as HC.
    cbv beta in HR, HC. rewrite (charge_same Reserved id r Hst) in HR.
    assert (charge Reserved id r' = 0) as HR0 by (by apply charge_other; auto).
    assert (charge Committed id r = 0) as HC0.
    { unfold charge. rewrite decide_False; [done|]. by rewrite Hst; intros [? _]. }
    assert (charge Committed id r' = if decide (target = Committed) then raw_charge id r else 0) as HC1.
    { case_decide as Ht; [by rewrite charge_same|]. apply charge_other. congruence. }
    unfold charged in Hres, Hcom. rewrite <- Hres in HR. rewrite <- Hcom in HC. rewrite HR0 in HR.
    rewrite HC0, HC1 in HC. unfold settle_policy, raw_charge in *.
    destruct (decide (id ∈ applied_policies r)) as [Hin|Hin]; cbn [reserved committed set_field].
    + pose proof (reserved_covers s Hinv k r id p Hr Hst Hin Hp).
      destruct (decide (target = Committed)); split_and!; try lia; intros Hhard%Hh; lia.
    + destruct (decide (target = Committed)); split_and!; try lia; intros Hhard%Hh; lia.
Qed.

Lemma charge_spec_inv r s :
  ledger_inv s -> reservations s !! request_id (request r) = None -> record_state r = Reserved ->
  applied_policies r = applicable_ids s (request r) -> applied_policies r <> [] ->
  (forall id p, policies s !! id = Some p -> id ∈ applied_policies r ->
     committed p + reserved p + minor_units (amount (request r)) <= u64_max /\
     (enforcement (policy p) = Hard ->
      committed p + reserved p + minor_units (amount (request r)) <= minor_units (limit (policy p)))) ->
  ledger_inv (charge_spec r s).
Proof.
  intros Hinv Hnew Hst Happ Hne Hroom. apply (update_inv s (charge_policy r)); try done.
  - intros id p. unfold charge_policy. by case_decide.
  - intros k r'. destruct (decide (k = request_id (request r))) as [->|Hk].
    + rewrite lookup_insert_eq. intros [= <-]. by split.
    + rewrite lookup_insert_ne by done. by apply li_record.
  - intros id p Hp. destruct (li_policy s Hinv id p Hp) as [_ Hres Hcom Hw Hh].
    unfold charged in *. cbn [reservations].
    rewrite !map_sum_insert_new by done. rewrite (charge_same Reserved id r Hst).
    assert (charge Committed id r = 0) as ->.
    { unfold charge. rewrite decide_False; [done|]. by rewrite Hst; intros [? _]. }
    rewrite <- Hres, <- Hcom. specialize (Hroom id p Hp). unfold charge_policy, raw_charge.
    destruct (decide (id ∈ applied_policies r)) as [Hin|Hin]; cbn [reserved committed set_field].
    + destruct (Hroom Hin) as [? Hhard]. split_and!; try lia. intros ?%Hhard. lia.
    + split_and!; try lia. intros ?%Hh. lia.
Qed.

Lemma map_imap_some_ext (f g : BudgetPolicyId -> PolicyState -> PolicyState)
    (m : gmap BudgetPolicyId PolicyState) :
  (forall id p, m !! id = Some p -> f id p = g id p) ->
  map_imap (fun id p => Some (f id p)) m = map_imap (fun id p => Some (g id p)) m.
Proof.
  intros Hfg. apply map_eq. intros id. rewrite !map_imap_some_lookup.
  destruct (m !! id) eqn:Hp; cbn; [|done]. f_equal. by apply Hfg.
Qed.

(** *** Settling *)

Lemma transition_record_run k r target s :
  ledger_inv s -> reservations s !! k = Some r -> record_state r = Reserved -> target <> Reserved ->
  transition_record k target s =
    (settle_spec k r target s, Ok (receipt (r <| record_state := target |>))).
Proof.
  intros Hinv Hr Hst Htgt. unfold transition_record. rewrite act_get_run, Hr. cbn [ok_or].
  rewrite act_lift_run, decide_False by congruence.
  rewrite bool_decide_eq_false_2 by auto. cbn [reject_if]. rewrite act_lift_run.
  set (units := minor_units (amount (request r))).
  pose (plan := fun id => from_option (fun p => (reserved p - units,
    if decide (target = Committed) then committed p + units else committed p)) (0, 0) (policies s !! id)).
  assert (apply_transition_usage r target s =
    (mk_BudgetState (map_imap (fun pid p => Some (settle_policy r target pid p)) (policies s))
       (reservations s), Ok tt)) as Hrun.
  { unfold apply_transition_usage. rewrite act_get_run. fold units.
    rewrite (collect_map _ (fun id => (id, plan id))).
    2: { intros id Hin. destruct (record_applied_known s Hinv k r id Hr Hin) as [p Hp].
         unfold policy_state, plan. rewrite Hp. cbn.
         pose proof (reserved_covers s Hinv k r id p Hr Hst Hin Hp) as Hcov. fold units in Hcov.
         pose proof (pi_width _ _ _ (li_policy s Hinv id p Hp)).
         unfold checked_sub. rewrite (proj2 (N.leb_le _ _)) by done. cbn.
         case_decide; [|done]. unfold checked_add. by rewrite (proj2 (N.leb_le _ _)) by lia. }
    rewrite act_lift_run.
    rewrite (apply_plan (fun x p => p <| reserved := x.1 |> <| committed := x.2 |>)).
    - f_equal. f_equal. apply map_imap_some_ext. intros id p Hp. rewrite plan_lookup.
      unfold settle_policy. fold units. case_decide; cbn; [|done].
      unfold plan. by rewrite Hp.
    - rewrite plan_keys. by eapply record_applied_NoDup.
    - rewrite plan_keys. intros id. by eapply record_applied_known. }
  rewrite (act_bind_run _ _ _ _ _ Hrun).
  rewrite (act_bind_run _ _ _ _ _ (set_record_state_run k target
    (mk_BudgetState _ (reservations s)) r Hr)). done.
Qed.

(** *** Reserving *)

Lemma projected_usage_eq p units :
  projected_usage p units =
    if u64_max <? committed p + reserved p + units then Err (error ArithmeticOverflow)
    else Ok (committed p + reserved p + units).
Proof.
  unfold projected_usage, checked_add.
  destruct (N.leb_spec (committed p + reserved p) u64_max); cbn;
    [destruct (N.leb_spec (committed p + reserved p + units) u64_max); cbn|];
    destruct (N.ltb_spec u64_max (committed p + reserved p + units)); try done; lia.
Qed.

Lemma capacity_breaches_run s units ids hard soft :
  (forall id, id ∈ ids -> is_Some (policies s !! id)) ->
  capacity_breaches s ids units hard soft =
    if existsb (overflows s units) ids then Err (error ArithmeticOverflow)
    else Ok (merged_scope s hard (List.filter (breaches Hard s units) ids),
             soft ++ List.filter (breaches Soft s units) ids).
Proof.
  revert hard soft. induction ids as [|id ids IH]; intros hard soft Hk.
  - cbn. by rewrite app_nil_r.
  - destruct (Hk id ltac:(left)) as [p Hp]. cbn [capacity_breaches existsb List.filter].
    unfold policy_state. rewrite Hp. cbn [ok_or mbind result_bind].
    rewrite projected_usage_eq.
    assert (usage_after s units id = committed p + reserved p + units) as Hua by (unfold usage_after; by rewrite Hp).
    unfold overflows at 1. rewrite Hua.
    destruct (u64_max <? committed p + reserved p + units); [done|]. cbn [mbind result_bind orb]. cbv beta zeta.
    rewrite IH by (intros i Hi; apply Hk; by right).
    destruct (existsb (overflows s units) ids); [done|].
    assert (forall e, breaches e s units id = bool_decide (enforcement (policy p) = e)
      && (minor_units (limit (policy p)) <? committed p + reserved p + units)) as Hbr.
    { intros e. unfold breaches. rewrite Hp, Hua. done. }
    rewrite !Hbr. destruct (minor_units (limit (policy p)) <? committed p + reserved p + units);
      [|rewrite !andb_false_r; done]. rewrite !andb_true_r. unfold record_capacity_breach.
    assert (account_scoped s id = match scope (policy p) with ScopeAccount _ _ => true | _ => false end) as Hsc.
    { unfold account_scoped. by rewrite Hp. }
    destruct (enforcement (policy p)); cbn [fst snd].
    + rewrite (bool_decide_eq_true_2 (Hard = Hard)), (bool_decide_eq_false_2 (Hard = Soft)) by done.
      f_equal. f_equal. unfold merged_scope at 2. rewrite decide_False by done.
      cbn [forallb]. rewrite Hsc. unfold merged_scope, merge_hard_scope.
      destruct (decide (List.filter (breaches Hard s units) ids = [])) as [->|].
      * destruct (scope (policy p)), hard as [[]|]; done.
      * destruct (scope (policy p)), hard as [[]|]; cbn; try done; by destruct (forallb _ _).
    + rewrite (bool_decide_eq_false_2 (Soft = Hard)), (bool_decide_eq_true_2 (Soft = Soft)) by done.
      f_equal. f_equal. by rewrite <- app_assoc.
Qed.

Lemma existsb_false_elem {A} (p : A -> bool) l x : existsb p l = false -> x ∈ l -> p x = false.
Proof.
  intros He Hx. apply not_true_iff_false. intros Hp. apply not_true_iff_false in He. apply He.
  apply existsb_exists. exists x. by rewrite <- list_elem_of_In.
Qed.

(** The checks of the code are the declarative decision, and an accepted
    reservation charges exactly the applicable policies. *)
Lemma insert_reservation_run req now s :
  ledger_inv s ->
  insert_reservation req now s =
    match decide_reservation req now s with
    | Ok r => (charge_spec r s, Ok (receipt r))
    | Err e => (s, Err e)
    end.
Proof.
  intros Hinv. unfold insert_reservation, decide_reservation. rewrite act_get_run.
  set (ids := applicable_ids s req). set (units := minor_units (amount req)).
  assert (validate_new_reservation s req now =
    if expires_at req <=? now then Err (error InvalidArgument)
    else if MAX_RESERVATIONS <=? N.of_nat (size (reservations s)) then Err (error LimitExceeded) else Ok tt)
    as -> by (unfold validate_new_reservation; by destruct (expires_at req <=? now)).
  destruct (expires_at req <=? now); [done|].
  destruct (MAX_RESERVATIONS <=? N.of_nat (size (reservations s))); [done|]. rewrite act_lift_run.
  assert (applicable_policy_ids s req = if decide (ids = []) then Err (error NoApplicablePolicy) else Ok ids) as ->.
  { unfold applicable_policy_ids. fold ids. case_decide as Hnil;
      [by rewrite bool_decide_eq_true_2 | by rewrite bool_decide_eq_false_2]. }
  destruct (decide (ids = [])) as [Hnil|Hne]; [done|]. rewrite act_lift_run.
  assert (forall id, id ∈ ids -> is_Some (policies s !! id)) as Hk.
  { intros id (p & Hp & _)%applicable_ids_elem; eauto. }
  assert (validate_capacity s ids (amount req) =
    if existsb (overflows s units) ids then Err (error ArithmeticOverflow)
    else let exceeded := List.filter (breaches Hard s units) ids in
      if decide (exceeded = []) then Ok (List.filter (breaches Soft s units) ids)
      else Err (with_refusal_scope HardLimitExceeded
             (if forallb (account_scoped s) exceeded then RefusalAccount else RefusalRequest))) as ->.
  { unfold validate_capacity. rewrite capacity_breaches_run by done. fold units.
    destruct (existsb (overflows s units) ids); [done|]. cbn. unfold merged_scope. by case_decide. }
  destruct (existsb (overflows s units) ids) eqn:Hov; [done|]. cbv zeta.
  destruct (decide (List.filter (breaches Hard s units) ids = [])) as [Hex|Hex]; [|done].
  rewrite act_lift_run.
  pose (plan := fun id => from_option (fun p => reserved p + units) 0 (policies s !! id)).
  assert (reserve_capacity ids units s =
    (mk_BudgetState (map_imap (fun pid p => Some (if decide (pid ∈ ids)
       then p <| reserved := reserved p + units |> else p)) (policies s)) (reservations s), Ok tt)) as Hrun.
  { unfold reserve_capacity. rewrite act_get_run. rewrite (collect_map _ (fun id => (id, plan id))).
    2: { intros id Hin. destruct (Hk id Hin) as [p Hp]. unfold policy_state, plan. rewrite Hp. cbn.
         pose proof (existsb_false_elem _ _ _ Hov Hin) as Hle. unfold overflows, usage_after in Hle.
         rewrite Hp in Hle. cbn in Hle. apply N.ltb_ge in Hle.
         unfold checked_add. by rewrite (proj2 (N.leb_le _ _)) by lia. }
    rewrite act_lift_run.
    rewrite (apply_plan (fun x p => p <| reserved := x |>)).
    - f_equal. f_equal. apply map_imap_some_ext. intros id p Hp. rewrite plan_lookup.
      case_decide; cbn; [|done]. unfold plan. by rewrite Hp.
    - rewrite plan_keys. by apply applicable_ids_NoDup.
    - rewrite plan_keys. done. }
  rewrite (act_bind_run _ _ _ _ _ Hrun). done.
Qed.

(** *** The operations and their specifications *)

Lemma applicable_room req now s r :
  ledger_inv s -> decide_reservation req now s = Ok r ->
  record_state r = Reserved /\ request r = req /\ applied_policies r = applicable_ids s req /\
  applied_policies r <> [] /\
  (forall id p, policies s !! id = Some p -> id ∈ applied_policies r ->
     committed p + reserved p + minor_units (amount (request r)) <= u64_max /\
     (enforcement (policy p) = Hard ->
      committed p + reserved p + minor_units (amount (request r)) <= minor_units (limit (policy p)))).
Proof.
  intros Hinv. unfold decide_reservation. set (ids := applicable_ids s req).
  set (units := minor_units (amount req)).
  destruct (expires_at req <=? now); [done|].
  destruct (MAX_RESERVATIONS <=? N.of_nat (size (reservations s))); [done|].
  destruct (decide (ids = [])) as [|Hne]; [done|].
  destruct (existsb (overflows s units) ids) eqn:Hov; [done|].
  destruct (decide (List.filter (breaches Hard s units) ids = [])) as [Hex|]; [|done].
  intros [= <-]. cbn. split_and!; try done. intros id p Hp Hin. fold units.
  pose proof (existsb_false_elem _ _ _ Hov Hin) as Hle. unfold overflows, usage_after in Hle.
  rewrite Hp in Hle. cbn in Hle. apply N.ltb_ge in Hle. split; [done|]. intros Hh.
  apply N.nlt_ge. intros Hlt.
  assert (id ∈ List.filter (breaches Hard s units) ids) as Hbad.
  { apply elem_of_list_filter. split; [done|]. unfold breaches, usage_after. rewrite Hp. cbn.
    rewrite bool_decide_eq_true_2 by done. by apply N.ltb_lt. }
  rewrite Hex in Hbad. by apply not_elem_of_nil in Hbad.
Qed.

Lemma insert_spec_inv req now s :
  ledger_inv s -> reservations s !! request_id req = None -> ledger_inv (insert_spec req now s).1.
Proof.
  intros Hinv Hnew. unfold insert_spec. destruct (decide_reservation req now s) as [r|e] eqn:Hd; [|done].
  destruct (applicable_room _ _ _ _ Hinv Hd) as (Hst & Hreq & Happ & Hne & Hroom).
  apply charge_spec_inv; rewrite ?Hreq; try done. by rewrite <- Hreq.
Qed.
Lemma expire_spec_lookup now s k :
  reservations (expire_spec now s) !! k = expire_record now <$> reservations s !! k.
Proof. apply lookup_fmap. Qed.

Section refinement.
  Context (s : BudgetState) (Hinv : ledger_inv s).

Lemma ledger_reserve_run req now : reserve_body req now s = reserve_spec req now s.
Proof.
  unfold reserve_body, reserve_spec. rewrite (act_bind_run _ _ _ _ _ (expire_records_run now s Hinv)).
  rewrite act_get_run. case_match; [done|]. by apply insert_reservation_run, expire_spec_inv.
Qed.
Lemma reserve_fresh_run req now : reserve_fresh_body req now s = reserve_fresh_spec req now s.
Proof.
  unfold reserve_fresh_body, reserve_fresh_spec. rewrite act_get_run.
  destruct (reservations s !! request_id req) eqn:Hr.
  - by rewrite bool_decide_eq_true_2.
  - rewrite bool_decide_eq_false_2 by (intros [? [=]]). cbn [reject_if]. rewrite act_lift_run.
    rewrite (act_bind_run _ _ _ _ _ (expire_records_run now s Hinv)).
    by apply insert_reservation_run, expire_spec_inv.
Qed.
Lemma transition_run k target : target <> Reserved -> transition_record k target s = transition_spec k target s.
Proof.
  intros Ht. unfold transition_spec. destruct (reservations s !! k) as [r|] eqn:Hr.
  - case_decide as Hst; [|case_decide as Hres].
    + unfold transition_record. rewrite act_get_run, Hr. cbn [ok_or]. rewrite act_lift_run. by rewrite decide_True.
    + by apply transition_record_run.
    + unfold transition_record. rewrite act_get_run, Hr. cbn [ok_or]. rewrite act_lift_run.
      rewrite decide_False by done. by rewrite bool_decide_eq_true_2.
  - unfold transition_record. by rewrite act_get_run, Hr.
Qed.

Lemma ledger_serve_inv r : ledger_inv (serve r s).
Proof.
  destruct r as [req now|req now|k|k|now]; cbn [serve].
  - rewrite ledger_reserve_run. unfold reserve_spec. case_match eqn:Hr; cbn; [by apply expire_spec_inv|].
    by apply insert_spec_inv; [apply expire_spec_inv|].
  - rewrite reserve_fresh_run. unfold reserve_fresh_spec. case_match eqn:Hr; cbn; [done|].
    apply insert_spec_inv; [by apply expire_spec_inv|]. by rewrite expire_spec_lookup, Hr.
  - rewrite transition_run by done. unfold transition_spec. repeat case_match; try done. by apply settle_spec_inv.
  - rewrite transition_run by done. unfold transition_spec. repeat case_match; try done. by apply settle_spec_inv.
  - rewrite expire_records_run by done. by apply expire_spec_inv.
Qed.

Lemma record_le_refl r : record_le r r.
Proof. by repeat split. Qed.
Lemma records_le_refl : records_le s s.
Proof. intros k r Hr. eauto using record_le_refl. Qed.
Lemma expire_records_le now : records_le s (expire_spec now s).
Proof.
  intros k r Hr. exists (expire_record now r). rewrite expire_spec_lookup, Hr. split; [done|].
  unfold record_le, expire_record, is_due. destruct (decide (record_state r = Reserved)) as [Hst|Hst].
  - case_match; repeat split; done.
  - rewrite bool_decide_eq_false_2 by done. by repeat split.
Qed.
Lemma settle_records_le k r target :
  reservations s !! k = Some r -> record_state r = Reserved -> records_le s (settle_spec k r target s).
Proof.
  intros Hr Hst k' r' Hr'. cbn [reservations settle_spec]. destruct (decide (k' = k)) as [->|Hne].
  - rewrite lookup_insert_eq. eexists. split; [done|]. rewrite Hr in Hr'. injection Hr' as <-. by repeat split.
  - rewrite lookup_insert_ne by done. eauto using record_le_refl.
Qed.
Lemma charge_records_le r :
  reservations s !! request_id (request r) = None -> records_le s (charge_spec r s).
Proof.
  intros Hnew k r' Hr'. cbn [reservations charge_spec].
  rewrite lookup_insert_ne by congruence. eauto using record_le_refl.
Qed.
End refinement.

Lemma records_le_trans s1 s2 s3 : records_le s1 s2 -> records_le s2 s3 -> records_le s1 s3.
Proof.
  intros H12 H23 k r Hr. destruct (H12 k r Hr) as (r2 & Hr2 & E1 & E2 & E3).
  destruct (H23 k r2 Hr2) as (r3 & Hr3 & F1 & F2 & F3). exists r3. split; [done|].
  split_and!; [congruence..|]. intros Hst. rewrite <- (E3 Hst). apply F3. by rewrite (E3 Hst).
Qed.

Lemma insert_records_le req now s :
  ledger_inv s -> reservations s !! request_id req = None -> records_le s (insert_spec req now s).1.
Proof.
  intros Hinv Hnew. unfold insert_spec. destruct (decide_reservation req now s) as [r|e] eqn:Hd.
  - destruct (applicable_room _ _ _ _ Hinv Hd) as (_ & Hreq & _). apply charge_records_le. by rewrite Hreq.
  - apply records_le_refl.
Qed.

Lemma serve_records_le r s : ledger_inv s -> records_le s (serve r s).
Proof.
  intros Hinv. destruct r as [req now|req now|k|k|now]; cbn [serve].
  - rewrite ledger_reserve_run by done. unfold reserve_spec. case_match eqn:Hr; cbn [fst].
    + apply expire_records_le.
    + eapply records_le_trans; [apply expire_records_le|]. apply insert_records_le; [by apply expire_spec_inv|done].
  - rewrite reserve_fresh_run by done. unfold reserve_fresh_spec. case_match eqn:Hr; cbn [fst]; [apply records_le_refl|].
    eapply records_le_trans; [apply expire_records_le|]. apply insert_records_le; [by apply expire_spec_inv|].
    by rewrite expire_spec_lookup, Hr.
  - rewrite transition_run by done. unfold transition_spec.
    repeat case_match; try apply records_le_refl. by apply settle_records_le.
  - rewrite transition_run by done. unfold transition_spec.
    repeat case_match; try apply records_le_refl. by apply settle_records_le.
  - rewrite expire_records_run by done. apply expire_records_le.
Qed.

(** *** New ledgers *)

Lemma build_policies_inv ps identities scopes states states' :
  (forall id p, states !! id = Some p -> policy_id (policy p) = id /\ reserved p = 0 /\ committed p = 0 /\
     id ∈ identities /\ (scope (policy p), currency (limit (policy p))) ∈ scopes) ->
  (forall i j p q, states !! i = Some p -> states !! j = Some q -> scope (policy p) = scope (policy q) ->
     currency (limit (policy p)) = currency (limit (policy q)) -> i = j) ->
  build_policies ps identities scopes states = Ok states' ->
  (forall id p, states' !! id = Some p -> policy_id (policy p) = id /\ reserved p = 0 /\ committed p = 0) /\
  (forall i j p q, states' !! i = Some p -> states' !! j = Some q -> scope (policy p) = scope (policy q) ->
     currency (limit (policy p)) = currency (limit (policy q)) -> i = j).
Proof.
  revert identities scopes states. induction ps as [|p ps IH]; intros identities scopes states Hs Hu.
  - intros [= <-]. split; [|done]. intros id p Hp. by destruct (Hs id p Hp) as (? & ? & ? & _).
  - cbn [build_policies]. intros Hb. unfold validate_unique_policy in Hb. run_steps; tidy. cbn [fst snd] in *.
    eapply IH; [| |eassumption].
    + intros id q. destruct (decide (id = policy_id p)) as [->|Hne].
      * rewrite lookup_insert_eq. intros [= <-]. cbn. split_and!; try done; left.
      * rewrite lookup_insert_ne by done. intros (? & ? & ? & ? & ?)%Hs. split_and!; try done; by right.
    + intros i j q r. destruct (decide (i = policy_id p)) as [->|Hi], (decide (j = policy_id p)) as [->|Hj];
        rewrite ?lookup_insert_eq, ?lookup_insert_ne by done; try done; [| |by apply Hu].
      * intros [= <-] (_ & _ & _ & _ & Hin)%Hs. cbn. intros E1 E2. rewrite <- E1, <- E2 in Hin. done.
      * intros (_ & _ & _ & _ & Hin)%Hs [= <-]. cbn. intros E1 E2. rewrite E1, E2 in Hin. done.
Qed.

Lemma new_book_inv ps s : BudgetBook_new ps = Ok (mk_lock false s) -> ledger_inv s.
Proof.
  unfold BudgetBook_new. intros Hb. run_steps.
  match goal with H : build_policies _ _ _ _ = _ |- _ => apply build_policies_inv in H as [Hp Hu] end.
  - split; cbn; try done.
    intros id p Hid. destruct (Hp id p Hid) as (Hk & Hr & Hc).
    split; try done; rewrite ?Hr, ?Hc; unfold charged; cbn; rewrite ?map_sum_empty; unfold u64_max; lia.
  - intros ? ?. by rewrite lookup_empty.
  - intros ? ? ? ?. by rewrite lookup_empty.
Qed.

Lemma reachable_ledger_inv s : reachable s -> ledger_inv s.
Proof.
  intros (ps & s0 & Hb & Hr). refine (rtc_invariant _ _ _ _ _ Hr (new_book_inv ps s0 Hb)).
  intros x y Hx [r <-]. by apply ledger_serve_inv.
Qed.

Lemma expire_spec_fixed now s :
  (forall k r, reservations s !! k = Some r -> is_due now r = false) -> expire_spec now s = s.
Proof.
  intros Hnone. destruct s as [ps rs]. unfold expire_spec. cbn [policies reservations] in *. f_equal; apply map_eq; intros k.
  - rewrite (map_imap_some_lookup (fun id p => _)). destruct (ps !! k) as [p|]; [|done]. cbn. f_equal.
    unfold due_charge. rewrite map_sum_zero, N.sub_0_r; [by destruct p|]. intros k' r Hr. by rewrite (Hnone k' r Hr).
  - rewrite lookup_fmap. destruct (rs !! k) as [r|] eqn:Hr; [|done]. cbn. unfold expire_record. by rewrite (Hnone k r Hr).
Qed.
Lemma expire_record_not_due now r : is_due now (expire_record now r) = false.
Proof. unfold expire_record. by destruct (is_due now r) eqn:E. Qed.
Lemma expire_spec_idemp now s : expire_spec now (expire_spec now s) = expire_spec now s.
Proof.
  apply expire_spec_fixed. intros k r. rewrite expire_spec_lookup.
  intros (r' & _ & ->)%fmap_Some. apply expire_record_not_due.
Qed.
Lemma expire_spec_charge now s r :
  is_due now r = false -> expire_spec now (charge_spec r (expire_spec now s)) = charge_spec r (expire_spec now s).
Proof.
  intros Hdue. apply expire_spec_fixed. intros k r'. cbn [reservations charge_spec].
  destruct (decide (k = request_id (request r))) as [->|Hne].
  - rewrite lookup_insert_eq. by intros [= <-].
  - rewrite lookup_insert_ne by done. rewrite expire_spec_lookup.
    intros (r0 & _ & ->)%fmap_Some. apply expire_record_not_due.
Qed.

(** ** Properties *)

Lemma sample_book_new : BudgetBook_new sample_policies = Ok (mk_lock false sample_book).
Proof. vm_compute. reflexivity. Qed.
Lemma ledger_sample_reachable rs : reachable (serve_all rs sample_book).
Proof.
  exists sample_policies, sample_book. split; [apply sample_book_new|].
  generalize sample_book. induction rs as [|r rs IH]; intros s; cbn; [apply rtc_refl|].
  eapply rtc_l; [by exists r | apply IH].
Qed.

(** C12: in every state a ledger can reach, each policy's reserved and
    committed counters are the totals of the retained records that name it, every
    record names exactly the policies governing its request, the counters fit
    their integer type, and no hard limit is exceeded. *)
Theorem ledger_sound s : reachable s -> ledger_inv s.
Proof. apply reachable_ledger_inv. Qed.
Lemma ledger_sound_witness : ledger_inv sample_ledger.
Proof. apply ledger_sound, ledger_sample_reachable. Defined.

(** C8: reserving is expiry followed by one decision.  The loops over
    policies (checks with early errors, a plan of new counters, its application)
    implement the declarative decision: the identity is replayed, or the request
    is refused with exactly the stated error and scope and nothing but the expiry
    happens, or exactly its applicable policies are charged its amount. *)
Theorem reserve_refines req now s :
  reachable s ->
  reserve_body req now s = reserve_spec req now s /\
  reserve_fresh_body req now s = reserve_fresh_spec req now s.
Proof. intros Hr%reachable_ledger_inv. split; [by apply ledger_reserve_run | by apply reserve_fresh_run]. Qed.
Lemma reserve_refines_witness :
  (reserve_body (sample_request "r3" 11 30) 5 sample_ledger).2 =
    Err (with_refusal_scope HardLimitExceeded RefusalAccount).
Proof.
  destruct (reserve_refines (sample_request "r3" 11 30) 5 sample_ledger) as [-> _];
    [apply ledger_sample_reachable | vm_compute; reflexivity].
Defined.

(** The plan-validate-apply expiry pass never fails in a reachable
    ledger: it marks exactly the due reservations and takes exactly their charges
    off the reserved counters (the unchecked subtraction never wraps), and no
    reservation stays due. *)
Theorem expire_refines now s :
  reachable s ->
  expire_records now s =
    (expire_spec now s, Ok (len (List.filter (is_due now) (btree_values (reservations s))))) /\
  (forall k r, reservations (expire_spec now s) !! k = Some r -> is_due now r = false).
Proof.
  intros Hinv%reachable_ledger_inv. split; [by apply expire_records_run|].
  intros k r'. rewrite expire_spec_lookup. intros (r & _ & ->)%fmap_Some.
  apply expire_record_not_due.
Qed.
Lemma expire_refines_witness : (expire_records 15 sample_ledger).2 = Ok 1.
Proof.
  destruct (expire_refines 15 sample_ledger) as [-> _]; [apply ledger_sample_reachable | vm_compute; reflexivity].
Defined.

(** Committing or releasing a known reservation cannot fail for
    accounting reasons.  Repeating the settlement answers with the same receipt,
    a record settled differently is left alone, and a reserved one moves exactly
    its amount out of the reserved counters of its policies (into the committed
    ones for a commit). *)
Theorem settlement_refines k target s :
  reachable s -> target <> Reserved -> transition_record k target s = transition_spec k target s.
Proof. intros Hr%reachable_ledger_inv. by apply transition_run. Qed.
Lemma settlement_refines_witness :
  (transition_record (MkId "r2") Released sample_ledger).2 = Err (error ReservationFinalized).
Proof.
  rewrite (settlement_refines (MkId "r2") Released sample_ledger);
    [vm_compute; reflexivity | apply ledger_sample_reachable | discriminate].
Defined.

(** Whatever happens later, a ledger keeps every reservation
    identity with its request and policies, and a settled record never changes
    again: a committed charge cannot be refunded, a released one not revived. *)
Theorem settled_records_stay s s' :
  reachable s -> rtc ledger_step s s' -> records_le s s'.
Proof.
  intros Hr%reachable_ledger_inv. induction 1 as [s|s s1 s2 [r <-] _ IH]; [apply records_le_refl|].
  eapply records_le_trans; [by apply serve_records_le | apply IH; by apply ledger_serve_inv].
Qed.
Lemma settled_records_stay_witness :
  records_le sample_ledger (serve (ReleaseRequest (MkId "r2")) sample_ledger).
Proof.
  apply settled_records_stay; [apply ledger_sample_reachable|].
  apply rtc_once. by exists (ReleaseRequest (MkId "r2")).
Defined.

(** A successful reservation is idempotent: repeating it at the same
    instant answers with the same receipt and charges nothing, and
    [reserve_fresh] of its identity is refused without any change. *)
Theorem reserve_replays req now s s1 rc :
  reachable s -> reserve_body req now s = (s1, Ok rc) ->
  reserve_body req now s1 = (s1, Ok rc) /\
  (forall req' now', request_id req' = request_id req ->
     reserve_fresh_body req' now' s1 = (s1, Err (error ReplayConflict))).
Proof.
  intros Hinv%reachable_ledger_inv Hrun.
  assert (ledger_inv s1) as Hinv1.
  { pose proof (ledger_serve_inv s Hinv (ReserveRequest req now)) as H. cbn in H. by rewrite Hrun in H. }
  assert (exists r, reservations s1 !! request_id req = Some r /\ request r = req /\
    record_state r = Reserved /\ receipt r = rc /\ expire_spec now s1 = s1) as (r & Hr & Hreq & Hst & Hrc & Hexp).
  { rewrite ledger_reserve_run in Hrun by done. unfold reserve_spec in Hrun. case_match eqn:Hr.
    - unfold replay_reservation in Hrun. simplify_eq.
      match goal with H : _ = Ok rc |- _ => rename H into Hrep end.
      run_steps; tidy. eexists. split_and!; try done. by apply expire_spec_idemp.
    - unfold insert_spec in Hrun. destruct (decide_reservation req now _) as [r|e] eqn:Hd; simplify_eq.
      destruct (applicable_room _ _ _ _ (expire_spec_inv now s Hinv) Hd) as (Hst & Hreq & _).
      exists r. cbn [reservations charge_spec]. rewrite Hreq, lookup_insert_eq. split_and!; try done.
      apply expire_spec_charge. unfold is_due. rewrite Hst, Hreq. cbn.
      unfold decide_reservation in Hd. by destruct (expires_at req <=? now). }
  rewrite ledger_reserve_run by done. unfold reserve_spec. rewrite Hexp, Hr. split.
  - unfold replay_reservation. rewrite Hreq, Hst, !bool_decide_eq_false_2 by (intros []; done). by rewrite <- Hrc.
  - intros req' now' Hid. rewrite reserve_fresh_run by done. unfold reserve_fresh_spec. by rewrite Hid, Hr.
Qed.
Lemma reserve_replays_witness :
  exists s1 rc, reserve_body (sample_request "r3" 10 30) 5 sample_ledger = (s1, Ok rc) /\
    reserve_body (sample_request "r3" 10 30) 5 s1 = (s1, Ok rc).
Proof.
  eexists _, _. split; [vm_compute; reflexivity|].
  refine (proj1 (reserve_replays (sample_request "r3" 10 30) 5 sample_ledger _ _ _ _));
    [apply ledger_sample_reachable | vm_compute; reflexivity].
Defined.

(** A refused reservation can change the ledger: the expiry that precedes the
    decision is kept. *)
Example hard_refusal_expires_first :
  reserve_body (sample_request "r3" 71 30) 15 sample_ledger =
    (expire_spec 15 sample_ledger, Err (with_refusal_scope HardLimitExceeded RefusalAccount)) /\
  reservations (expire_spec 15 sample_ledger) <> reservations sample_ledger.
Proof.
  split; [vm_compute; reflexivity|]. intros Heq.
  assert (record_state <$> reservations (expire_spec 15 sample_ledger) !! (MkId "r1" : ReservationId)
    = record_state <$> reservations sample_ledger !! (MkId "r1" : ReservationId)) as Hr by (by rewrite Heq).
  vm_compute in Hr. discriminate Hr.
Qed.
