(* ===== verification/BudgetPublication.v ===== *)
(** * Published budget policies

    Models the policy publication of [crates/optional/ariadnion-account-budget/src/lib.rs]
    ([BudgetPolicyBook], [BudgetPolicySnapshot], [PublishedBudget]).  A snapshot is a
    shared handle ([Arc]) on a ledger, so the ledgers live in a store and a handle is
    a location: publishing moves the owner to a new location and leaves the ledgers
    other handles refer to alone. *)

From S2P Require Import Prelude CoreTypes Publication AccountBudget.
#[local] Open Scope N_scope.

(** [BudgetGeneration::next]. *)
Definition budget_next (generation : N) : result BudgetError N :=
  next_generation (error GenerationExhausted) generation.

(** [Arc<BudgetBook>]: a location of the store of ledgers. *)
Definition SharedBook := nat.
Record PublishedBudget := mk_PublishedBudget { published_generation : N; published_book : SharedBook }.
Record BudgetPolicySnapshot := mk_BudgetPolicySnapshot { snapshot_generation : N; shared_book : SharedBook }.

(** The owner and every ledger it has ever published. *)
Record BudgetPolicyBook := mk_BudgetPolicyBook {
  books : list (Lock BudgetState);
  published : Lock PublishedBudget;
}.
#[export] Instance BudgetPolicyBook_eta : Eta BudgetPolicyBook := fun b => mk_BudgetPolicyBook (books b) (published b).
Notation owner_act := (act BudgetPolicyBook BudgetError).

(** [self.state.lock()]. *)
Definition holding {A} (body : owner_act A) : owner_act A := fun b =>
  if lock_poisoned (published b) then (b, Err (error StateUnavailable)) else body b.
(** A ledger gets its location when a handle to it is first shared; the ledger of a
    refused publication is dropped unshared. *)
Definition share (book : Lock BudgetState) : owner_act SharedBook :=
  b ← get;
  modify (fun b => b <| books := books b ++ [book] |>) ;;
  mret (length (books b)).

Definition BudgetPolicyBook_new (policies : list BudgetPolicy) : result BudgetError BudgetPolicyBook :=
  book ← BudgetBook_new policies;
  mret (mk_BudgetPolicyBook [book] (mk_lock false (mk_PublishedBudget 0 0%nat))).

Definition snapshot : owner_act BudgetPolicySnapshot :=
  holding (
    b ← get;
    let state := lock_data (published b) in
    mret (mk_BudgetPolicySnapshot (published_generation state) (published_book state))).

Definition publish (expected : N) (policies : list BudgetPolicy) : owner_act BudgetPolicySnapshot :=
  replacement ← lift (BudgetBook_new policies);
  holding (
    b ← get;
    lift (reject_if (negb (published_generation (lock_data (published b)) =? expected)) (error GenerationConflict)) ;;
    next ← lift (budget_next expected);
    location ← share replacement;
    modify (fun b => b <| published := mk_lock false (mk_PublishedBudget next location) |>) ;;
    mret (mk_BudgetPolicySnapshot next location)).

(** A ledger operation through a handle. *)
Definition through {A} (location : SharedBook) (m : act (Lock BudgetState) BudgetError A)
    (b : BudgetPolicyBook) : BudgetPolicyBook * option (result BudgetError A) :=
  match books b !! location with
  | None => (b, None)
  | Some book => let '(book', r) := m book in (b <| books := <[location := book']> (books b) |>, Some r)
  end.

#[export] Instance budget_publication :
    Publication BudgetPolicyBook (list BudgetPolicy) BudgetPolicySnapshot BudgetError := {
  generation_of := fun b => published_generation (lock_data (published b));
  publish_to := publish;
  background := fun b b' => exists location (m : act (Lock BudgetState) BudgetError unit), (through location m b).1 = b';
}.

(** ** Requests: publications, and ledger operations through handles *)

Inductive owner_request :=
| PublishRequest (expected : N) (policies : list BudgetPolicy)
| LedgerRequest (location : SharedBook) (r : ledger_request).

Definition ledger_call (r : ledger_request) (book : Lock BudgetState) : Lock BudgetState :=
  match r with
  | ReserveRequest req now => (reserve req now book).1
  | ReserveFreshRequest req now => (reserve_fresh req now book).1
  | CommitRequest id => (commit id book).1
  | ReleaseRequest id => (release id book).1
  | ExpireRequest now => (expire now book).1
  end.
Definition serve (r : owner_request) (b : BudgetPolicyBook) : BudgetPolicyBook :=
  match r with
  | PublishRequest expected policies => (publish expected policies b).1
  | LedgerRequest location r => (through location (fun book => (ledger_call r book, Ok tt)) b).1
  end.
Definition serve_all (rs : list owner_request) (b : BudgetPolicyBook) : BudgetPolicyBook :=
  foldl (fun b r => serve r b) b rs.

(** The ledger operations that went through one handle. *)
Definition addressed (location : SharedBook) (rs : list owner_request) : list ledger_request :=
  omap (fun r => match r with
                 | LedgerRequest location' r => if decide (location' = location) then Some r else None
                 | PublishRequest _ _ => None
                 end) rs.

(** Every shared ledger is one that [BudgetBook::new] and the ledger operations make,
    and the published handle refers to one of them. *)
Record owner_inv (b : BudgetPolicyBook) : Prop := {
  oi_books : forall location book, books b !! location = Some book ->
    exists s, book = mk_lock false s /\ AccountBudget.reachable s;
  oi_published : is_Some (books b !! published_book (lock_data (published b)));
}.

Definition sample_owner : BudgetPolicyBook :=
  mk_BudgetPolicyBook [mk_lock false sample_book] (mk_lock false (mk_PublishedBudget 0 0%nat)).
Definition sample_requests : list owner_request :=
  [LedgerRequest 0%nat (ReserveRequest (sample_request "r1" 60 10) 0); PublishRequest 0 sample_policies;
   LedgerRequest 1%nat (ReserveRequest (sample_request "r1" 90 10) 0); LedgerRequest 0%nat (CommitRequest (MkId "r1"))].

(** ** Lemmas *)

Lemma ledger_call_run r s : ledger_call r (mk_lock false s) = mk_lock false (AccountBudget.serve r s).
Proof.
  destruct r; cbn [ledger_call AccountBudget.serve];
    unfold reserve, reserve_fresh, commit, release, expire; by rewrite locked_run.
Qed.

Lemma publish_run expected policies b b' r :
  publish expected policies b = (b', r) ->
  match r with
  | Ok s => exists book, BudgetBook_new policies = Ok book /\
      published_generation (lock_data (published b)) = expected /\ snapshot_generation s = expected + 1 /\
      shared_book s = length (books b) /\
      b' = mk_BudgetPolicyBook (books b ++ [book]) (mk_lock false (mk_PublishedBudget (expected + 1) (length (books b))))
  | Err _ => b' = b
  end.
Proof.
  unfold publish. intros H. run_steps; [|done].
  match goal with H : holding _ _ = _ |- _ => unfold holding in H end. case_match; [by simplify_eq|].
  run_steps; tidy; try done.
  match goal with H : share _ _ = _ |- _ => unfold share in H end. run_steps.
  - match goal with H : budget_next _ = _ |- _ => apply next_generation_Ok in H as [-> _] end.
    eexists. split_and!; try done.
Qed.

#[export] Instance budget_publication_laws :
  PublicationLaws BudgetPolicyBook (list BudgetPolicy) BudgetPolicySnapshot BudgetError.
Proof.
  split.
  - intros b b' g c r (book & _ & <- & _ & _ & ->)%publish_run. done.
  - intros b b' g c e H%publish_run. done.
  - intros b b' (location & m & <-). cbn. unfold through.
    destruct (books b !! location); [|done]. by destruct (m _).
Qed.

(** A request acts on one ledger at most, and publications on none. *)
Lemma serve_lookup r b location s :
  books b !! location = Some (mk_lock false s) ->
  books (serve r b) !! location = Some (mk_lock false (AccountBudget.serve_all (addressed location [r]) s)).
Proof.
  intros Hb. destruct r as [expected policies|location' r]; cbn [serve addressed omap list_omap].
  - destruct (publish expected policies b) as [b' res] eqn:Hp. apply publish_run in Hp. destruct res.
    + destruct Hp as (book & _ & _ & _ & _ & ->). cbn. by apply lookup_app_l_Some.
    + by subst b'.
  - unfold through. destruct (decide (location' = location)) as [->|Hne].
    + rewrite Hb. cbn. rewrite list_lookup_insert_eq by (by eapply lookup_lt_Some). by rewrite ledger_call_run.
    + destruct (books b !! location'); [|done]. cbn. by rewrite list_lookup_insert_ne.
Qed.
Lemma addressed_cons location r rs : addressed location (r :: rs) = addressed location [r] ++ addressed location rs.
Proof. destruct r; cbn; [done|]. by case_decide. Qed.

Lemma serve_owner_inv r b : owner_inv b -> owner_inv (serve r b).
Proof.
  intros [Hb Hp]. destruct r as [expected policies|location r]; cbn [serve].
  - destruct (publish expected policies b) as [b' res] eqn:Hpub. apply publish_run in Hpub.
    destruct res; [|by subst b'; split]. destruct Hpub as (book & Hnew & _ & _ & _ & ->). cbn. split; cbn.
    + intros location book' [Hl|[Hlen Hl]]%lookup_app_Some; [by apply (Hb location)|].
      apply list_lookup_singleton_Some in Hl as [_ <-].
      pose proof Hnew as Hshape. unfold BudgetBook_new in Hshape. run_steps. eexists. split; [done|].
      do 2 eexists. split; [exact Hnew|apply rtc_refl].
    + rewrite list_lookup_middle by done. eauto.
  - unfold through. destruct (books b !! location) as [book|] eqn:Hl; [|by split]. cbn.
    destruct (Hb location book Hl) as (s & -> & Hs). split; cbn.
    + intros location' book'. destruct (decide (location' = location)) as [->|Hne].
      * rewrite list_lookup_insert_eq by (by eapply lookup_lt_Some). intros [= <-]. rewrite ledger_call_run.
        eexists. split; [done|]. destruct Hs as (ps & s0 & Hnew & Hr). exists ps, s0. split; [done|].
        eapply rtc_r; [done|by exists r].
      * rewrite list_lookup_insert_ne by done. by apply Hb.
    + apply lookup_lt_is_Some. rewrite length_insert. by apply lookup_lt_is_Some.
Qed.
Lemma new_owner_inv policies b : BudgetPolicyBook_new policies = Ok b -> owner_inv b.
Proof.
  unfold BudgetPolicyBook_new. intros H. run_steps. split; cbn; [|eauto].
  intros location book' [_ <-]%list_lookup_singleton_Some.
  match goal with H : BudgetBook_new _ = Ok _ |- _ => pose proof H as Hnew; unfold BudgetBook_new in H end.
  run_steps. eexists. split; [done|]. do 2 eexists. split; [exact Hnew|apply rtc_refl].
Qed.

(** Every ledger an owner has shared keeps the ledger invariant. *)
Lemma shared_ledgers_sound policies b rs location book :
  BudgetPolicyBook_new policies = Ok b -> books (serve_all rs b) !! location = Some book ->
  lock_poisoned book = false /\ ledger_inv (lock_data book).
Proof.
  intros Hb%new_owner_inv Hl. assert (owner_inv (serve_all rs b)) as [Hall _].
  { clear Hl. revert b Hb. induction rs as [|r rs IH]; intros b Hb; [done|]. by apply IH, serve_owner_inv. }
  destruct (Hall _ _ Hl) as (s & -> & Hs). split; [done|]. by apply reachable_ledger_inv.
Qed.
(** Among competing publications each generation has one winner. *)
Lemma budget_publish_single_winner (b b' : BudgetPolicyBook) h : history b h b' -> NoDup (winners h).
Proof. intros H. by eapply history_winners. Qed.

(** ** Properties *)

(** Publications never touch a ledger.  Whatever is published in
    between, the ledger behind a handle is exactly the result of the ledger
    operations that went through that handle, in their order. *)
Theorem publication_isolates_ledgers rs b location s :
  books b !! location = Some (mk_lock false s) ->
  books (serve_all rs b) !! location =
    Some (mk_lock false (AccountBudget.serve_all (addressed location rs) s)).
Proof.
  revert b s. induction rs as [|r rs IH]; intros b s Hb; [done|].
  rewrite addressed_cons. unfold AccountBudget.serve_all. rewrite foldl_app.
  apply (IH (serve r b)). by apply serve_lookup.
Qed.
Lemma publication_isolates_ledgers_witness :
  books (serve_all sample_requests sample_owner) !! 0%nat =
    Some (mk_lock false (AccountBudget.serve_all
      [ReserveRequest (sample_request "r1" 60 10) 0; CommitRequest (MkId "r1")] sample_book)).
Proof. apply (publication_isolates_ledgers sample_requests sample_owner 0%nat sample_book). reflexivity. Defined.
