(* ===== verification/RateLimit.v ===== *)
(** * Admission control: rates and concurrency

    Models [crates/optional/ariadnion-rate-limit/src/lib.rs],
    [policy_publication.rs] and [controller.rs]: the limit policies, their
    generation-checked publication, and the controller that admits requests
    across several dimensions at once, with the leases it hands out.
    [ControllerState] is the state under the controller's lock; instants and
    durations are counted in nanoseconds. *)

From S2P Require Import Prelude CoreTypes Publication.
#[local] Open Scope N_scope.

Definition MAX_LIMIT_ID_BYTES : N := 160.
Definition MAX_DIMENSIONS_PER_ADMISSION : N := 4.
Definition MAX_POLICIES : N := N.shiftl 1 17.
Definition MIN_RATE_WINDOW : N := 10 * 1000000.
Definition MAX_RATE_WINDOW : N := 60 * 60 * 1000000000.
Definition MAX_LEASE_DURATION : N := 15 * 60 * 1000000000.

(** ** Errors *)

Inductive AdmissionErrorCode :=
| InvalidArgument | TooManyDimensions | TooManyPolicies | DuplicateDimension | PolicyNotFound
| PolicyVersionConflict | RateLimited | ConcurrencyLimited | ClockRegressed | CounterExhausted
| LeaseExpired | LeaseClosed | StateUnavailable.
#[export] Instance AdmissionErrorCode_eq_dec : EqDecision AdmissionErrorCode.
Proof. solve_decision. Defined.

Definition request_error_code (code : AdmissionErrorCode) : string :=
  match code with
  | InvalidArgument => "ADMISSION_INVALID_ARGUMENT"
  | TooManyDimensions => "ADMISSION_TOO_MANY_DIMENSIONS"
  | TooManyPolicies => "ADMISSION_TOO_MANY_POLICIES"
  | DuplicateDimension => "ADMISSION_DUPLICATE_DIMENSION"
  | PolicyNotFound => "ADMISSION_POLICY_NOT_FOUND"
  | _ => "ADMISSION_INVALID_ARGUMENT"
  end.
Definition capacity_error_code (code : AdmissionErrorCode) : string :=
  match code with
  | RateLimited => "ADMISSION_RATE_LIMITED"
  | ConcurrencyLimited => "ADMISSION_CONCURRENCY_LIMITED"
  | ClockRegressed => "ADMISSION_CLOCK_REGRESSED"
  | _ => "ADMISSION_STATE_UNAVAILABLE"
  end.
Definition lifecycle_error_code (code : AdmissionErrorCode) : string :=
  match code with
  | CounterExhausted => "ADMISSION_COUNTER_EXHAUSTED"
  | LeaseExpired => "ADMISSION_LEASE_EXPIRED"
  | LeaseClosed => "ADMISSION_LEASE_CLOSED"
  | PolicyVersionConflict => "ADMISSION_POLICY_VERSION_CONFLICT"
  | StateUnavailable => "ADMISSION_STATE_UNAVAILABLE"
  | _ => "ADMISSION_STATE_UNAVAILABLE"
  end.
Definition as_str (code : AdmissionErrorCode) : string :=
  match code with
  | InvalidArgument | TooManyDimensions | TooManyPolicies | DuplicateDimension | PolicyNotFound =>
      request_error_code code
  | RateLimited | ConcurrencyLimited | ClockRegressed => capacity_error_code code
  | _ => lifecycle_error_code code
  end.

Inductive AdmissionRefusalScope := AccountRefusal | RequestRefusal.

Record AdmissionError := mk_AdmissionError {
  code : AdmissionErrorCode;
  retry_after : option N;
  error_scope : option AdmissionRefusalScope;
}.
Definition error (code : AdmissionErrorCode) : AdmissionError := mk_AdmissionError code None None.
Definition with_scope (code : AdmissionErrorCode) (retry_after : option N)
    (scope : AdmissionRefusalScope) : AdmissionError := mk_AdmissionError code retry_after (Some scope).
Definition invalid : AdmissionError := error InvalidArgument.
Definition exhausted : AdmissionError := error CounterExhausted.

(** ** Time *)

(** [MonotonicTime::checked_add]: the duration must fit 64 bits of nanoseconds. *)
Definition time_checked_add (t duration : N) : result AdmissionError N :=
  nanos ← (if duration <=? u64_max then Ok duration else Err exhausted);
  ok_or (checked_add u64_max t nanos) exhausted.
(** [MonotonicTime::duration_until]. *)
Definition duration_until (t later : N) : N := saturating_sub later t.

(** ** Limit keys, rules and policies *)

(** [validate_identity], the check of [define_limit_id!]. *)
Definition validate_identity (value : string) : result AdmissionError unit :=
  if negb (is_empty value) && (byte_len value <=? MAX_LIMIT_ID_BYTES)
     && is_ascii value && all_bytes is_visible_ascii value
  then Ok tt else Err invalid.
Definition limit_id_parse (k : id_kind) (value : string) : result AdmissionError (Id k) :=
  validate_identity value ;; mret (MkId value).

Record AccountLimitKey := mk_AccountLimitKey {
  alk_tenant : Id TenantLimitKind;
  alk_account : Id AccountLimitKind;
}.
Inductive LimitDimension := DimTenant | DimAccount | DimUser | DimApiKey | DimModel.
#[export] Instance LimitDimension_eq_dec : EqDecision LimitDimension.
Proof. solve_decision. Defined.

Inductive LimitKey :=
| KeyTenant (id : Id TenantLimitKind)
| KeyAccount (key : AccountLimitKey)
| KeyUser (id : Id UserLimitKind)
| KeyApiKey (id : Id ApiKeyLimitKind)
| KeyModel (id : Id ModelLimitKind).
#[export] Instance AccountLimitKey_eq_dec : EqDecision AccountLimitKey.
Proof. solve_decision. Defined.
#[export] Instance LimitKey_eq_dec : EqDecision LimitKey.
Proof. solve_decision. Defined.

(** Keys as pairs of a discriminant and the identities: for [Countable]. *)
Definition limit_key_code (k : LimitKey) : N * (string * string) :=
  match k with
  | KeyTenant id => (0, (id_str id, EmptyString))
  | KeyAccount key => (1, (id_str (alk_tenant key), id_str (alk_account key)))
  | KeyUser id => (2, (id_str id, EmptyString))
  | KeyApiKey id => (3, (id_str id, EmptyString))
  | KeyModel id => (4, (id_str id, EmptyString))
  end.
Definition limit_key_decode (c : N * (string * string)) : LimitKey :=
  match c.1 with
  | 0 => KeyTenant (MkId c.2.1)
  | 1 => KeyAccount (mk_AccountLimitKey (MkId c.2.1) (MkId c.2.2))
  | 2 => KeyUser (MkId c.2.1)
  | 3 => KeyApiKey (MkId c.2.1)
  | _ => KeyModel (MkId c.2.1)
  end.
#[export] Program Instance LimitKey_countable : Countable LimitKey :=
  inj_countable' limit_key_code limit_key_decode _.
Next Obligation. by intros [[]|[[] []]|[]|[]|[]]. Qed.

(** [LimitKey::dimension] and [refusal_scope]. *)
Definition dimension (k : LimitKey) : LimitDimension :=
  match k with
  | KeyTenant _ => DimTenant | KeyAccount _ => DimAccount | KeyUser _ => DimUser
  | KeyApiKey _ => DimApiKey | KeyModel _ => DimModel
  end.
Definition refusal_scope (d : LimitDimension) : AdmissionRefusalScope :=
  match d with DimAccount => AccountRefusal | _ => RequestRefusal end.

(** The capacity and the limit are [NonZeroU32]. *)
Record RateRule := mk_RateRule { capacity : N; rate_window : N }.
Definition RateRule_new (capacity window : N) : result AdmissionError RateRule :=
  if negb (in_range MIN_RATE_WINDOW MAX_RATE_WINDOW window) then Err invalid
  else Ok (mk_RateRule capacity window).
Record ConcurrencyRule := mk_ConcurrencyRule { climit : N; lease_duration : N }.
Definition ConcurrencyRule_new (limit lease_duration : N) : result AdmissionError ConcurrencyRule :=
  if (lease_duration =? 0) || (MAX_LEASE_DURATION <? lease_duration) then Err invalid
  else Ok (mk_ConcurrencyRule limit lease_duration).
Record LimitPolicy := mk_LimitPolicy {
  policy_key : LimitKey;
  rate : option RateRule;
  concurrency_rule : option ConcurrencyRule;
}.
Definition LimitPolicy_new (key : LimitKey) (rate : option RateRule)
    (concurrency : option ConcurrencyRule) : result AdmissionError LimitPolicy :=
  match rate, concurrency with
  | None, None => Err invalid
  | _, _ => Ok (mk_LimitPolicy key rate concurrency)
  end.

Definition AdmissionPolicySet := gmap LimitKey LimitPolicy.
Fixpoint index_policies (ps : list LimitPolicy) (indexed : AdmissionPolicySet)
    : result AdmissionError AdmissionPolicySet :=
  match ps with
  | [] => Ok indexed
  | p :: ps' =>
      match indexed !! policy_key p with
      | Some _ => Err (error DuplicateDimension)
      | None => index_policies ps' (<[policy_key p := p]> indexed)
      end
  end.
Definition AdmissionPolicySet_new (ps : list LimitPolicy) : result AdmissionError AdmissionPolicySet :=
  reject_if (MAX_POLICIES <? len ps) (error TooManyPolicies) ;;
  index_policies ps ∅.

Record AdmissionRequest := mk_AdmissionRequest { keys : list LimitKey; units : N }.
Definition validate_request_keys (ks : list LimitKey) : result AdmissionError unit :=
  reject_if (bool_decide (ks = [])) invalid ;;
  reject_if (MAX_DIMENSIONS_PER_ADMISSION <? len ks) (error TooManyDimensions) ;;
  reject_if (negb (all_fresh dimension [] ks)) (error DuplicateDimension).
Definition AdmissionRequest_new (ks : list LimitKey) (units : N) : result AdmissionError AdmissionRequest :=
  validate_request_keys ks ;; mret (mk_AdmissionRequest ks units).

(** ** Policy publication ([policy_publication.rs]) *)

Record AdmissionPolicySnapshot := mk_AdmissionPolicySnapshot {
  version : N;
  snapshot_policies : AdmissionPolicySet;
}.
Definition version_next (v : N) : result AdmissionError N := next_generation exhausted v.
Definition AdmissionPolicyBook_new (policies : AdmissionPolicySet) : Lock AdmissionPolicySnapshot :=
  mk_lock false (mk_AdmissionPolicySnapshot 0 policies).
Definition publish (expected_version : N) (policies : AdmissionPolicySet)
    : act (Lock AdmissionPolicySnapshot) AdmissionError AdmissionPolicySnapshot :=
  locked (error StateUnavailable) (
    current ← get;
    lift (reject_if (negb (version current =? expected_version)) (error PolicyVersionConflict)) ;;
    v ← lift (version_next expected_version);
    let next := mk_AdmissionPolicySnapshot v policies in
    put next ;;
    mret next).
Definition current_snapshot
    : act (Lock AdmissionPolicySnapshot) AdmissionError AdmissionPolicySnapshot :=
  locked (error StateUnavailable) get.
#[export] Instance admission_policy_publication :
    Publication (Lock AdmissionPolicySnapshot) AdmissionPolicySet AdmissionPolicySnapshot AdmissionError := {
  generation_of := fun b => version (lock_data b);
  publish_to := publish;
  background := fun _ _ => False;
}.

(** ** The controller's state ([controller.rs]) *)

Record RateWindowState := mk_RateWindowState { ends_at : N; committed : N; pending : N }.
#[export] Instance RateWindowState_eta : Eta RateWindowState := fun w =>
  mk_RateWindowState (ends_at w) (committed w) (pending w).
Definition RateWindowState_new (now : N) (rule : RateRule) : result AdmissionError RateWindowState :=
  ends ← time_checked_add now (rate_window rule);
  mret (mk_RateWindowState ends 0 0).

Record ActiveLease := mk_ActiveLease {
  lease_rate_keys : list LimitKey;
  lease_concurrency_keys : list LimitKey;
  lease_units : N;
  lease_expires_at : N;
  rate_committed : bool;
}.
#[export] Instance ActiveLease_eta : Eta ActiveLease := fun l =>
  mk_ActiveLease (lease_rate_keys l) (lease_concurrency_keys l) (lease_units l)
    (lease_expires_at l) (rate_committed l).

Record ControllerState := mk_ControllerState {
  last_now : N;
  next_identity : N;
  windows : gmap LimitKey RateWindowState;
  concurrency : gmap LimitKey N;
  leases : gmap N ActiveLease;
}.
#[export] Instance ControllerState_eta : Eta ControllerState := fun s =>
  mk_ControllerState (last_now s) (next_identity s) (windows s) (concurrency s) (leases s).
Definition ControllerState_new (initial_now : N) : ControllerState :=
  mk_ControllerState initial_now 0 ∅ ∅ ∅.

Notation ctrl_act := (act ControllerState AdmissionError).

Record RateReservation := mk_RateReservation {
  reservation_id : N; reservation_keys : list LimitKey; reservation_units : N; reservation_expires_at : N;
}.
Record ConcurrencyPermit := mk_ConcurrencyPermit {
  permit_lease_id : N; permit_key : LimitKey; permit_expires_at : N;
}.
Record LimitSnapshot := mk_LimitSnapshot {
  rate_remaining : option N; rate_resets_at : option N; concurrency_remaining : option N;
}.
(** [AdmissionLease], the handle; [PreparedAdmission] is the handle before it is
    wrapped. *)
Record AdmissionLease := mk_AdmissionLease {
  al_id : N;
  al_expires_at : N;
  al_reservation : option RateReservation;
  al_permits : list ConcurrencyPermit;
  al_closed : bool;
}.
#[export] Instance AdmissionLease_eta : Eta AdmissionLease := fun a =>
  mk_AdmissionLease (al_id a) (al_expires_at a) (al_reservation a) (al_permits a) (al_closed a).

(** *** Leases end *)

(** [if let Some(slot) = map.get_mut(key)], and an update of the slot, for every key. *)
Definition alter_all {V} (f : V -> V) (ks : list LimitKey) (m : gmap LimitKey V) : gmap LimitKey V :=
  foldl (fun m k => alter f k m) m ks.
Definition release_concurrency (ks : list LimitKey) (s : ControllerState) : ControllerState :=
  s <| concurrency := alter_all (fun active => saturating_sub active 1) ks (concurrency s) |>.
Definition release_pending (ks : list LimitKey) (units : N) (s : ControllerState) : ControllerState :=
  s <| windows := alter_all (fun w => w <| pending := saturating_sub (pending w) units |>) ks (windows s) |>.

Definition remove_lease (id : N) (s : ControllerState) : ControllerState * bool :=
  match leases s !! id with
  | None => (s, false)
  | Some l =>
      let s := s <| leases := delete id (leases s) |> in
      let s := release_concurrency (lease_concurrency_keys l) s in
      let s := if rate_committed l then s else release_pending (lease_rate_keys l) (lease_units l) s in
      (s, true)
  end.

Definition removing (id : N) : ctrl_act bool :=
  fun s => let '(s', removed) := remove_lease id s in (s', Ok removed).

Definition observe_and_expire (now : N) : ctrl_act unit :=
  state ← get;
  lift (reject_if (now <? last_now state) (error ClockRegressed)) ;;
  modify (fun s => s <| last_now := now |>) ;;
  let expired := (List.filter (fun entry => lease_expires_at entry.2 <=? now) (btree_entries (leases state))).*1 in
  modify (fun s => foldl (fun s id => (remove_lease id s).1) s expired).

(** *** Windows and capacity *)

(** [windows.entry(key).or_insert(new)], then the roll-over of a past window; the
    fresh window is computed before the lookup. *)
Definition prepare_window (p : LimitPolicy) (now : N) : ctrl_act unit :=
  match rate p with
  | None => mret tt
  | Some rule =>
      fresh ← lift (RateWindowState_new now rule);
      modify (fun s => s <| windows :=
        match windows s !! policy_key p with
        | Some _ => windows s
        | None => <[policy_key p := fresh]> (windows s)
        end |>) ;;
      state ← get;
      if is_some_and (fun w => ends_at w <=? now) (windows state !! policy_key p) then
        rolled ← lift (RateWindowState_new now rule);
        modify (fun s => s <| windows := <[policy_key p := rolled]> (windows s) |>)
      else mret tt
  end.

Definition prepare_windows (ps : list LimitPolicy) (now : N) : ctrl_act unit :=
  lift (collect (fun p =>
    match rate p with
    | Some rule => time_checked_add now (rate_window rule)
    | None => Ok 0
    end) ps) ;;
  for_each (fun p => prepare_window p now) ps.

Definition check_rate (s : ControllerState) (p : LimitPolicy) (units now : N) : result AdmissionError unit :=
  match rate p with
  | None => Ok tt
  | Some rule =>
      match windows s !! policy_key p with
      | None => Err (error StateUnavailable)
      | Some w =>
          let used := saturating_add u32_max (committed w) (pending w) in
          let remaining := saturating_sub (capacity rule) used in
          reject_if (remaining <? units)
            (with_scope RateLimited (Some (duration_until now (ends_at w)))
               (refusal_scope (dimension (policy_key p))))
      end
  end.

(** [.min()] over the leases holding the key. *)
Definition earliest_expiry (s : ControllerState) (key : LimitKey) : option N :=
  foldr (fun l acc => Some (from_option (N.min (lease_expires_at l)) (lease_expires_at l) acc)) None
    (List.filter (fun l => bool_decide (key ∈ lease_concurrency_keys l)) (btree_values (leases s))).

Definition check_concurrency (s : ControllerState) (p : LimitPolicy) (now : N) : result AdmissionError unit :=
  match concurrency_rule p with
  | None => Ok tt
  | Some rule =>
      let active := default 0 (concurrency s !! policy_key p) in
      if active <? climit rule then Ok tt
      else Err (with_scope ConcurrencyLimited
                  (duration_until now <$> earliest_expiry s (policy_key p))
                  (refusal_scope (dimension (policy_key p))))
  end.

Definition check_capacity (s : ControllerState) (ps : list LimitPolicy) (units now : N)
    : result AdmissionError (list unit) :=
  collect (fun p => check_rate s p units now ;; check_concurrency s p now) ps.

(** *** Admission *)

Definition allocate_identities : ctrl_act (N * N) :=
  state ← get;
  reservation ← lift (ok_or (checked_add u64_max (next_identity state) 1) exhausted);
  lease ← lift (ok_or (checked_add u64_max reservation 1) exhausted);
  modify (fun s => s <| next_identity := lease |>) ;;
  mret (reservation, lease).

Definition policy_expiry (s : ControllerState) (p : LimitPolicy) (now : N) : result AdmissionError N :=
  let rate_expiry := ends_at <$> (windows s !! policy_key p) in
  concurrency_expiry ← match concurrency_rule p with
                       | Some rule => at_ ← time_checked_add now (lease_duration rule); mret (Some at_)
                       | None => Ok None
                       end;
  match rate_expiry, concurrency_expiry with
  | Some a, Some b => Ok (N.min a b)
  | Some a, None | None, Some a => Ok a
  | None, None => Err invalid
  end.

Fixpoint lease_expiry_from (s : ControllerState) (ps : list LimitPolicy) (now : N) (earliest : option N)
    : result AdmissionError N :=
  match ps with
  | [] => ok_or earliest invalid
  | p :: ps' =>
      deadline ← policy_expiry s p now;
      lease_expiry_from s ps' now (Some (from_option (fun current => N.min current deadline) deadline earliest))
  end.
Definition lease_expiry (s : ControllerState) (ps : list LimitPolicy) (now : N) : result AdmissionError N :=
  lease_expiry_from s ps now None.

Definition rate_keys (ps : list LimitPolicy) : list LimitKey :=
  policy_key <$> List.filter (fun p => bool_decide (is_Some (rate p))) ps.
Definition concurrency_keys (ps : list LimitPolicy) : list LimitKey :=
  policy_key <$> List.filter (fun p => bool_decide (is_Some (concurrency_rule p))) ps.

(** [windows.get_mut(key)] or [StateUnavailable], and an update that can overflow. *)
Definition update_window (key : LimitKey)
    (f : RateWindowState -> result AdmissionError RateWindowState) : ctrl_act unit :=
  state ← get;
  w ← lift (ok_or (windows state !! key) (error StateUnavailable));
  w' ← lift (f w);
  modify (fun s => s <| windows := <[key := w']> (windows s) |>).

Definition add_to_pending (units : N) (w : RateWindowState) : result AdmissionError RateWindowState :=
  total ← ok_or (checked_add u32_max (pending w) units) exhausted;
  mret (w <| pending := total |>).
Definition validate_pending_addition (s : ControllerState) (ks : list LimitKey) (units : N)
    : result AdmissionError (list unit) :=
  collect (fun key =>
    w ← ok_or (windows s !! key) (error StateUnavailable);
    ok_or (checked_add u32_max (pending w) units) exhausted ;; mret tt) ks.
Definition apply_pending_addition (ks : list LimitKey) (units : N) : ctrl_act unit :=
  for_each (fun key => update_window key (add_to_pending units)) ks.
Definition add_pending (ks : list LimitKey) (units : N) : ctrl_act unit :=
  state ← get;
  lift (validate_pending_addition state ks units) ;;
  apply_pending_addition ks units.

Definition add_concurrency (ks : list LimitKey) : ctrl_act unit :=
  state ← get;
  lift (collect (fun key =>
    ok_or (checked_add u32_max (default 0 (concurrency state !! key)) 1) exhausted) ks) ;;
  for_each (fun key =>
    state ← get;
    active ← lift (ok_or (checked_add u32_max (default 0 (concurrency state !! key)) 1) exhausted);
    modify (fun s => s <| concurrency := <[key := active]> (concurrency s) |>)) ks.

Definition reserve (ps : list LimitPolicy) (request : AdmissionRequest)
    (reservation_id lease_id expires_at : N)
    : ctrl_act (option RateReservation * list ConcurrencyPermit) :=
  let rks := rate_keys ps in
  let cks := concurrency_keys ps in
  add_pending rks (units request) ;;
  add_concurrency cks ;;
  modify (fun s => s <| leases :=
    <[lease_id := mk_ActiveLease rks cks (units request) expires_at false]> (leases s) |>) ;;
  mret (if bool_decide (rks = []) then None
        else Some (mk_RateReservation reservation_id rks (units request) expires_at),
        (fun key => mk_ConcurrencyPermit lease_id key expires_at) <$> cks).

Definition prepare_admission (ps : list LimitPolicy) (request : AdmissionRequest) (now : N)
    : ctrl_act AdmissionLease :=
  observe_and_expire now ;;
  prepare_windows ps now ;;
  state ← get;
  lift (check_capacity state ps (units request) now) ;;
  ids ← allocate_identities;
  state ← get;
  expires_at ← lift (lease_expiry state ps now);
  parts ← reserve ps request ids.1 ids.2 expires_at;
  mret (mk_AdmissionLease ids.2 expires_at parts.1 parts.2 false).

(** *** Commitment *)

Definition pending_rate_commitment (s : ControllerState) (id : N)
    : result AdmissionError (option (list LimitKey * N)) :=
  l ← ok_or (leases s !! id) (error LeaseExpired);
  mret (if rate_committed l then None else Some (lease_rate_keys l, lease_units l)).
Definition validate_rate_commitment (s : ControllerState) (ks : list LimitKey) (units : N)
    : result AdmissionError (list unit) :=
  collect (fun key =>
    w ← ok_or (windows s !! key) (error StateUnavailable);
    ok_or (checked_add u32_max (committed w) units) exhausted ;; mret tt) ks.
Definition move_to_committed (units : N) (w : RateWindowState) : result AdmissionError RateWindowState :=
  total ← ok_or (checked_add u32_max (committed w) units) exhausted;
  mret (w <| pending := saturating_sub (pending w) units |> <| committed := total |>).
Definition apply_rate_commitment (ks : list LimitKey) (units : N) : ctrl_act unit :=
  for_each (fun key => update_window key (move_to_committed units)) ks.
Definition mark_rate_committed (id : N) : ctrl_act unit :=
  state ← get;
  l ← lift (ok_or (leases state !! id) (error LeaseExpired));
  modify (fun s => s <| leases := <[id := l <| rate_committed := true |>]> (leases s) |>).

Definition commit_rate (id : N) : ctrl_act unit :=
  state ← get;
  commitment ← lift (pending_rate_commitment state id);
  match commitment with
  | None => mret tt
  | Some (ks, units) =>
      lift (validate_rate_commitment state ks units) ;;
      apply_rate_commitment ks units ;;
      mark_rate_committed id
  end.

(** *** Finalization *)

Inductive AcceptedFinalization := Completed | ReconciliationRequired.

Definition complete_accepted (id : N) : ctrl_act AcceptedFinalization :=
  commit_rate id ;;
  removed ← removing id;
  lift (reject_if (negb removed) (error LeaseExpired)) ;;
  mret Completed.
Definition retain_accepted (id : N) : ctrl_act AcceptedFinalization :=
  commit_rate id ;; mret ReconciliationRequired.
Definition finalize_accepted_at (id now : N) : ctrl_act AcceptedFinalization :=
  commit_rate id ;;
  observed ← attempt (observe_and_expire now);
  match observed with
  | Ok _ => complete_accepted id
  | Err value => if decide (code value = ClockRegressed) then retain_accepted id else fail value
  end.
Definition finalize_accepted_state (id : N) (now : option N) : ctrl_act AcceptedFinalization :=
  match now with
  | Some now => finalize_accepted_at id now
  | None => retain_accepted id
  end.
Definition retain_dispatched (id now : N) : ctrl_act unit :=
  commit_rate id ;;
  observed ← attempt (observe_and_expire now);
  match observed with
  | Err value => if decide (code value = ClockRegressed) then mret tt else fail value
  | Ok _ => state ← get; lift (pending_rate_commitment state id) ;; mret tt
  end.

(** *** Snapshots *)

Definition rate_snapshot (s : ControllerState) (p : LimitPolicy) (now : N) : option N * option N :=
  match rate p with
  | None => (None, None)
  | Some rule =>
      match windows s !! policy_key p with
      | None => (Some (capacity rule), None)
      | Some w =>
          let used := saturating_add u32_max (committed w) (pending w) in
          (Some (saturating_sub (capacity rule) used), if now <? ends_at w then Some (ends_at w) else None)
      end
  end.
Definition snapshot_of (s : ControllerState) (p : LimitPolicy) (now : N) : LimitSnapshot :=
  let r := rate_snapshot s p now in
  mk_LimitSnapshot r.1 r.2
    ((fun rule => saturating_sub (climit rule) (default 0 (concurrency s !! policy_key p))) <$> concurrency_rule p).

(** ** The controller and its handles *)

Section controller.
  (** [ControllerInner::policies], fixed for the life of a controller. *)
  Variable policies : AdmissionPolicySet.

Definition resolve_policies (request : AdmissionRequest) : result AdmissionError (list LimitPolicy) :=
  collect (fun key => ok_or (policies !! key) (error PolicyNotFound)) (keys request).

Definition try_admit (request : AdmissionRequest) (now : N) : act (Lock ControllerState) AdmissionError AdmissionLease :=
  ps ← lift (resolve_policies request);
  locked (error StateUnavailable) (prepare_admission ps request now).

Definition snapshot (key : LimitKey) (now : N) : act (Lock ControllerState) AdmissionError LimitSnapshot :=
  p ← lift (ok_or (policies !! key) (error PolicyNotFound));
  locked (error StateUnavailable) (
    observe_and_expire now ;;
    prepare_window p now ;;
    query (fun s => Ok (snapshot_of s p now))).
End controller.

Definition ensure_open (a : AdmissionLease) : result AdmissionError unit :=
  reject_if (al_closed a) (error LeaseClosed).

Definition close_lease (id now : N) : act (Lock ControllerState) AdmissionError unit :=
  locked (error StateUnavailable) (
    observe_and_expire now ;;
    removed ← removing id;
    lift (reject_if (negb removed) (error LeaseExpired))).
Definition close_lease_without_time (id : N) (l : Lock ControllerState) : Lock ControllerState :=
  if lock_poisoned l then l else mk_lock false (remove_lease id (lock_data l)).1.

(** [Drop::drop]. *)
Definition drop (a : AdmissionLease) (l : Lock ControllerState) : Lock ControllerState :=
  if al_closed a then l else close_lease_without_time (al_id a) l.

(** [&mut self]: the handle stays usable. *)
Definition commit_rate_lease (a : AdmissionLease) (now : N) : act (Lock ControllerState) AdmissionError unit :=
  lift (ensure_open a) ;;
  locked (error StateUnavailable) (observe_and_expire now ;; commit_rate (al_id a)).

(** The methods that consume the handle: their last step is its [drop]. *)
Definition close (a : AdmissionLease) (now : N) (l : Lock ControllerState)
    : Lock ControllerState * AdmissionLease * result AdmissionError unit :=
  match ensure_open a with
  | Err e => (l, a, Err e)
  | Ok _ =>
      let '(l', r) := close_lease (al_id a) now l in
      let closed := match r with
                    | Ok _ => true
                    | Err value => bool_decide (code value = LeaseExpired)
                    end in
      (l', if closed then a <| al_closed := true |> else a, r)
  end.
Definition release (a : AdmissionLease) (now : N) (l : Lock ControllerState)
    : Lock ControllerState * result AdmissionError unit :=
  let '(l', a', r) := close a now l in (drop a' l', r).
Definition cancel (a : AdmissionLease) (now : N) (l : Lock ControllerState)
    : Lock ControllerState * result AdmissionError unit :=
  let '(l', a', r) := close a now l in (drop a' l', r).
Definition consume {A} (a : AdmissionLease) (body : ctrl_act A) (l : Lock ControllerState)
    : Lock ControllerState * result AdmissionError A :=
  match ensure_open a with
  | Err e => (drop a l, Err e)
  | Ok _ =>
      let '(l', r) := locked (error StateUnavailable) body l in
      (drop (a <| al_closed := true |>) l', r)
  end.
Definition finalize_accepted (a : AdmissionLease) (now : option N) (l : Lock ControllerState)
    : Lock ControllerState * result AdmissionError AcceptedFinalization :=
  consume a (finalize_accepted_state (al_id a) now) l.
Definition commit_rate_and_retain_concurrency (a : AdmissionLease) (now : N) (l : Lock ControllerState)
    : Lock ControllerState * result AdmissionError unit :=
  consume a (retain_dispatched (al_id a) now) l.

(** ** The controller as a transition system *)

(** The widths and rules of a policy set, and what [AdmissionRequest_new] and the
    non-zero 32-bit units guarantee of a request. *)
Definition rate_rule_wf (rule : RateRule) : Prop :=
  1 <= capacity rule <= u32_max /\ MIN_RATE_WINDOW <= rate_window rule <= MAX_RATE_WINDOW.
Definition concurrency_rule_wf (rule : ConcurrencyRule) : Prop :=
  1 <= climit rule <= u32_max /\ 0 < lease_duration rule <= MAX_LEASE_DURATION.
Definition policies_wf (policies : AdmissionPolicySet) : Prop :=
  forall k p, policies !! k = Some p ->
    policy_key p = k /\
    (forall rule, rate p = Some rule -> rate_rule_wf rule) /\
    (forall rule, concurrency_rule p = Some rule -> concurrency_rule_wf rule).
Definition request_wf (request : AdmissionRequest) : Prop :=
  AdmissionRequest_new (keys request) (units request) = Ok request /\ 1 <= units request <= u32_max.

(** The requests reach the lock in any order, on any lease identifier. *)
Inductive ctrl_request :=
| AdmitRequest (request : AdmissionRequest) (wf : request_wf request) (now : N)
| SnapshotRequest (key : LimitKey) (now : N)
| CommitRequest (id now : N)
| FinalizeRequest (id : N) (now : option N)
| RetainRequest (id now : N)
| CloseRequest (id now : N)
| DropRequest (id : N).

Definition serve (policies : AdmissionPolicySet) (r : ctrl_request) (s : ControllerState) : ControllerState :=
  lock_data
    match r with
    | AdmitRequest request _ now => (try_admit policies request now (mk_lock false s)).1
    | SnapshotRequest key now => (snapshot policies key now (mk_lock false s)).1
    | CommitRequest id now =>
        (commit_rate_lease (mk_AdmissionLease id 0 None [] false) now (mk_lock false s)).1
    | FinalizeRequest id now => (locked (error StateUnavailable) (finalize_accepted_state id now) (mk_lock false s)).1
    | RetainRequest id now => (locked (error StateUnavailable) (retain_dispatched id now) (mk_lock false s)).1
    | CloseRequest id now => (close_lease id now (mk_lock false s)).1
    | DropRequest id => close_lease_without_time id (mk_lock false s)
    end.
Definition ctrl_step (policies : AdmissionPolicySet) (s s' : ControllerState) : Prop :=
  exists r, serve policies r s = s'.
Definition reachable (policies : AdmissionPolicySet) (s : ControllerState) : Prop :=
  exists initial_now, rtc (ctrl_step policies) (ControllerState_new initial_now) s.

(** ** Specification *)

(** What a lease still charges to a window, and the slots it holds. *)
Definition pending_of (k : LimitKey) (l : ActiveLease) : N :=
  if decide (rate_committed l = false /\ k ∈ lease_rate_keys l) then lease_units l else 0.
Definition holds (k : LimitKey) (l : ActiveLease) : N :=
  if decide (k ∈ lease_concurrency_keys l) then 1 else 0.

Record lease_inv (s : ControllerState) (id : N) (l : ActiveLease) : Prop := {
  lv_rate_nodup : NoDup (lease_rate_keys l);
  lv_conc_nodup : NoDup (lease_concurrency_keys l);
  lv_rate : forall k, k ∈ lease_rate_keys l ->
    exists w, windows s !! k = Some w /\ lease_expires_at l <= ends_at w;
  lv_conc : forall k, k ∈ lease_concurrency_keys l -> is_Some (concurrency s !! k);
  lv_id : id <= next_identity s;
}.
(** The counters are the totals of the live leases and never exceed the limits. *)
Record ctrl_inv (policies : AdmissionPolicySet) (s : ControllerState) : Prop := {
  cv_window : forall k w, windows s !! k = Some w ->
    pending w = map_sum (fun _ l => pending_of k l) (leases s) /\
    exists p rule, policies !! k = Some p /\ rate p = Some rule /\ committed w + pending w <= capacity rule;
  cv_concurrency : forall k n, concurrency s !! k = Some n ->
    n = map_sum (fun _ l => holds k l) (leases s) /\
    exists p rule, policies !! k = Some p /\ concurrency_rule p = Some rule /\ n <= climit rule;
  cv_lease : forall id l, leases s !! id = Some l -> lease_inv s id l;
  cv_identity : next_identity s <= u64_max;
}.
(** No lease is past its expiry. *)
Definition alive (now : N) (s : ControllerState) : Prop :=
  forall id l, leases s !! id = Some l -> now < lease_expires_at l.

(** What a window keeps when leases end. *)
Definition window_le (w w' : RateWindowState) : Prop :=
  ends_at w' = ends_at w /\ committed w' = committed w /\ pending w' <= pending w.

(** A state in which some leases have ended, and nothing else happened. *)
Record shrinks (s s' : ControllerState) : Prop := {
  sh_identity : next_identity s' = next_identity s;
  sh_leases : leases s' ⊆ leases s;
  sh_windows : forall k w, windows s !! k = Some w -> exists w', windows s' !! k = Some w' /\ window_le w w';
  sh_no_windows : forall k, windows s !! k = None -> windows s' !! k = None;
}.

(** Charging the window of every rate key of a lease. *)
Definition commit_spec (id : N) (l : ActiveLease) (s : ControllerState) : ControllerState :=
  if rate_committed l then s
  else s <| windows := alter_all (fun w =>
             w <| pending := pending w - lease_units l |>
               <| committed := committed w + lease_units l |>) (lease_rate_keys l) (windows s) |>
         <| leases := <[id := l <| rate_committed := true |>]> (leases s) |>.

(** The leases that are live at an instant. *)
Definition live_leases (now : N) (s : ControllerState) : gmap N ActiveLease :=
  filter (fun entry => now < lease_expires_at entry.2) (leases s).

(** One more slot of every key. *)
Definition bump_all (ks : list LimitKey) (m : gmap LimitKey N) : gmap LimitKey N :=
  foldl (fun m k => <[k := default 0 (m !! k) + 1]> m) m ks.
(** A new lease over the policies [ps], with its charges. *)
Definition reserve_spec (ps : list LimitPolicy) (units id expires_at : N) (s : ControllerState)
    : ControllerState :=
  mk_ControllerState (last_now s) (next_identity s)
    (alter_all (fun w => w <| pending := pending w + units |>) (rate_keys ps) (windows s))
    (bump_all (concurrency_keys ps) (concurrency s))
    (<[id := mk_ActiveLease (rate_keys ps) (concurrency_keys ps) units expires_at false]> (leases s)).

(** The hypotheses under which a reservation is taken. *)
Record may_reserve (policies : AdmissionPolicySet) (ps : list LimitPolicy) (units id expires : N) (s : ControllerState) : Prop := {
  mr_known : forall p, p ∈ ps -> policies !! policy_key p = Some p;
  mr_nodup : NoDup (policy_key <$> ps);
  mr_rate : forall p rule, p ∈ ps -> rate p = Some rule ->
    exists w, windows s !! policy_key p = Some w /\ expires <= ends_at w /\
      committed w + pending w + units <= capacity rule;
  mr_conc : forall p rule, p ∈ ps -> concurrency_rule p = Some rule ->
    default 0 (concurrency s !! policy_key p) + 1 <= climit rule;
  mr_fresh : leases s !! id = None;
  mr_id : id <= next_identity s;
}.

(** Why an admission may be refused, in the state it leaves: an exhausted counter
    or clock, an expiry no policy gives, or a dimension with too little room. *)
Definition refusal (ps : list LimitPolicy) (units : N) (s : ControllerState) (e : AdmissionError) : Prop :=
  code e = CounterExhausted \/ code e = InvalidArgument \/
  (code e = RateLimited /\ exists p rule w, p ∈ ps /\ rate p = Some rule /\
     windows s !! policy_key p = Some w /\ capacity rule < committed w + pending w + units) \/
  (code e = ConcurrencyLimited /\ exists p rule, p ∈ ps /\ concurrency_rule p = Some rule /\
     climit rule <= default 0 (concurrency s !! policy_key p)).

(** What a window charges apart from the pending units, and what it is at an instant before
    anything is charged: a window that has not ended is kept, any other one is new. *)
Definition window_view (w : RateWindowState) : N * N := (ends_at w, committed w).
Definition rolled_window (now : N) (rule : RateRule) (before : option RateWindowState) : N * N :=
  match before with
  | Some w => if now <? ends_at w then window_view w else (now + rate_window rule, 0)
  | None => (now + rate_window rule, 0)
  end.
(** The windows of the policies [ps] are rolled over, all of them or possibly only some; no
    other window changes what it has committed or when it ends. *)
Record windows_rolled (now : N) (ps : list LimitPolicy) (all : bool) (s s' : ControllerState) : Prop := {
  wr_rolled : forall p rule, p ∈ ps -> rate p = Some rule ->
    window_view <$> windows s' !! policy_key p = Some (rolled_window now rule (windows s !! policy_key p)) \/
    all = false /\ window_view <$> windows s' !! policy_key p = window_view <$> windows s !! policy_key p;
  wr_kept : forall k, k ∉ rate_keys ps -> window_view <$> windows s' !! k = window_view <$> windows s !! k;
}.
(** The charges after a request at [now]: the pending units of every window and the slots of
    every key are those of the leases still live, and [units] more in the windows of [rks] and
    one slot more of each key of [cks]. *)
Record charged (now : N) (s : ControllerState) (rks cks : list LimitKey) (units : N) (s' : ControllerState) : Prop := {
  ch_pending : forall k w, windows s' !! k = Some w ->
    pending w = map_sum (fun _ l => pending_of k l) (live_leases now s) + (if decide (k ∈ rks) then units else 0);
  ch_slots : forall k, default 0 (concurrency s' !! k) =
    map_sum (fun _ l => holds k l) (live_leases now s) + (if decide (k ∈ cks) then 1 else 0);
}.

Definition serve_all (policies : AdmissionPolicySet) (rs : list ctrl_request) (s : ControllerState)
    : ControllerState := foldl (fun s r => serve policies r s) s rs.

(** A sample controller: a tenant rate of 10 per second, an account rate of 5 per
    second with two slots of 100 ms. *)
Definition sample_tenant : LimitKey := KeyTenant (MkId "t").
Definition sample_account : LimitKey := KeyAccount (mk_AccountLimitKey (MkId "t") (MkId "a")).
Definition sample_policies : AdmissionPolicySet :=
  <[sample_tenant := mk_LimitPolicy sample_tenant (Some (mk_RateRule 10 1000000000)) None]>
  (<[sample_account := mk_LimitPolicy sample_account (Some (mk_RateRule 5 1000000000))
       (Some (mk_ConcurrencyRule 2 100000000))]> ∅).
Definition sample_request (units : N) : AdmissionRequest :=
  mk_AdmissionRequest [sample_tenant; sample_account] units.
Definition sample_admitted : ControllerState :=
  (try_admit sample_policies (sample_request 3) 1000 (mk_lock false (ControllerState_new 0))).1.(lock_data).
Definition sample_lease : AdmissionLease := mk_AdmissionLease 2 100001000 None [] false.

(** ** Lemmas *)

Lemma alter_all_lookup {V} (f : V -> V) ks m k :
  NoDup ks -> alter_all f ks m !! k = if decide (k ∈ ks) then f <$> m !! k else m !! k.
Proof.
  unfold alter_all. revert m. induction ks as [|i ks IH]; intros m Hnd; cbn [foldl].
  { by rewrite decide_False by apply not_elem_of_nil. }
  apply NoDup_cons in Hnd as [Hni Hnd]. rewrite IH by done.
  destruct (decide (k = i)) as [->|Hne].
  - rewrite decide_False by done. rewrite lookup_alter_eq, decide_True; [done|left].
  - rewrite lookup_alter_ne by done. destruct (decide (k ∈ ks)).
    + by rewrite decide_True by (by right).
    + rewrite decide_False; [done|]. by intros [|]%elem_of_cons.
Qed.

Lemma update_windows_run g f ks s :
  NoDup ks -> (forall k, k ∈ ks -> exists w, windows s !! k = Some w /\ g w = Ok (f w)) ->
  for_each (fun k => update_window k g) ks s =
    (s <| windows := alter_all f ks (windows s) |>, Ok tt).
Proof.
  revert s. induction ks as [|k ks IH]; intros s Hnd Hks; cbn [for_each].
  { unfold alter_all. cbn. by destruct s. }
  apply NoDup_cons in Hnd as [Hni Hnd]. destruct (Hks k ltac:(left)) as (w & Hw & Hg).
  assert (update_window k g s = (s <| windows := alter f k (windows s) |>, Ok tt)) as Hrun.
  { unfold update_window. rewrite act_get_run, Hw. cbn [ok_or]. rewrite act_lift_run, Hg, act_lift_run.
    unfold modify. f_equal. f_equal. apply map_eq. intros i. destruct (decide (i = k)) as [->|Hne].
    - by rewrite lookup_insert_eq, lookup_alter_eq, Hw.
    - by rewrite lookup_insert_ne, lookup_alter_ne. }
  rewrite (act_bind_run _ _ _ _ _ Hrun). rewrite IH; [done|done|].
  intros i Hi. cbn. rewrite lookup_alter_ne by (intros ->; done). apply Hks. by right.
Qed.

Section invariant.
  Context (policies : AdmissionPolicySet) (Hpol : policies_wf policies).
  Implicit Types (s : ControllerState) (l : ActiveLease).
  Notation inv := (ctrl_inv policies).

Lemma window_room s k w :
  inv s -> windows s !! k = Some w -> committed w + pending w <= u32_max.
Proof.
  intros Hinv Hw. destruct (cv_window _ _ Hinv k w Hw) as (_ & p & rule & Hp & Hr & Hle).
  destruct (Hpol k p Hp) as (_ & Hwf & _). destruct (Hwf rule Hr) as ((_ & Hc) & _). lia.
Qed.
Lemma pending_covers s id l k w :
  inv s -> leases s !! id = Some l -> rate_committed l = false -> k ∈ lease_rate_keys l ->
  windows s !! k = Some w -> lease_units l <= pending w.
Proof.
  intros Hinv Hl Hc Hk Hw. destruct (cv_window _ _ Hinv k w Hw) as (-> & _).
  pose proof (map_sum_elem (fun _ l => pending_of k l) _ _ _ Hl) as Hle. cbv beta in Hle.
  unfold pending_of in Hle at 1. by rewrite decide_True in Hle.
Qed.

(** *** Removing a lease *)

Lemma remove_lease_None s id : leases s !! id = None -> remove_lease id s = (s, false).
Proof. intros Hl. unfold remove_lease. by rewrite Hl. Qed.

Lemma remove_lease_fields s id l :
  leases s !! id = Some l ->
  (remove_lease id s).2 = true /\
  last_now (remove_lease id s).1 = last_now s /\
  next_identity (remove_lease id s).1 = next_identity s /\
  leases (remove_lease id s).1 = delete id (leases s) /\
  concurrency (remove_lease id s).1 =
    alter_all (fun active => saturating_sub active 1) (lease_concurrency_keys l) (concurrency s) /\
  windows (remove_lease id s).1 =
    (if rate_committed l then windows s
     else alter_all (fun w => w <| pending := saturating_sub (pending w) (lease_units l) |>)
            (lease_rate_keys l) (windows s)).
Proof. intros Hl. unfold remove_lease. rewrite Hl. by destruct (rate_committed l). Qed.

Lemma remove_lease_window s id k w :
  inv s -> windows s !! k = Some w ->
  exists w', windows (remove_lease id s).1 !! k = Some w' /\ window_le w w' /\
    pending w' + from_option (pending_of k) 0 (leases s !! id) = pending w.
Proof.
  intros Hinv Hw. destruct (leases s !! id) as [l|] eqn:Hl.
  2: { rewrite remove_lease_None by done. exists w. unfold window_le. cbn. split_and!; try done; lia. }
  destruct (remove_lease_fields s id l Hl) as (_ & _ & _ & _ & _ & ->). cbn.
  pose proof (cv_lease _ _ Hinv _ _ Hl) as Hlv.
  destruct (rate_committed l) eqn:Hc.
  - exists w. unfold window_le, pending_of. rewrite decide_False by (rewrite Hc; by intros [? _]).
    split_and!; try done; lia.
  - rewrite alter_all_lookup by apply Hlv. unfold pending_of. rewrite Hw.
    destruct (decide (k ∈ lease_rate_keys l)) as [Hk|Hk].
    + pose proof (pending_covers _ _ _ _ _ Hinv Hl Hc Hk Hw).
      eexists. split; [done|]. unfold window_le, saturating_sub. cbn. rewrite decide_True by done.
      split_and!; try done; lia.
    + exists w. unfold window_le. rewrite decide_False by (by intros [_ ?]). split_and!; try done; lia.
Qed.
Lemma remove_lease_windows_None s id k :
  inv s -> windows s !! k = None -> windows (remove_lease id s).1 !! k = None.
Proof.
  intros Hinv Hw. destruct (leases s !! id) as [l|] eqn:Hl; [|by rewrite remove_lease_None].
  destruct (remove_lease_fields s id l Hl) as (_ & _ & _ & _ & _ & ->).
  pose proof (cv_lease _ _ Hinv _ _ Hl) as Hlv.
  destruct (rate_committed l); [done|]. rewrite alter_all_lookup by apply Hlv. rewrite Hw. by case_decide.
Qed.
Lemma remove_lease_leases s id : leases (remove_lease id s).1 = delete id (leases s).
Proof.
  destruct (leases s !! id) as [l|] eqn:Hl; [by apply (remove_lease_fields s id l)|].
  rewrite remove_lease_None by done. symmetry. by apply delete_id.
Qed.
Lemma remove_lease_identity s id : next_identity (remove_lease id s).1 = next_identity s.
Proof.
  destruct (leases s !! id) as [l|] eqn:Hl; [by apply (remove_lease_fields s id l)|].
  by rewrite remove_lease_None.
Qed.

Lemma remove_lease_inv s id : inv s -> inv (remove_lease id s).1.
Proof.
  intros Hinv. destruct (leases s !! id) as [l|] eqn:Hl; [|by rewrite remove_lease_None].
  pose proof (cv_lease _ _ Hinv _ _ Hl) as Hlv.
  destruct (remove_lease_fields s id l Hl) as (_ & _ & Hid & Hls & Hconc & _).
  split.
  - intros k w' Hw'. destruct (windows s !! k) as [w|] eqn:Hw.
    2: { by rewrite remove_lease_windows_None in Hw'. }
    destruct (remove_lease_window s id k w Hinv Hw) as (w2 & Hw2 & (He & Hco & Hp) & Hsum).
    rewrite Hw2 in Hw'. injection Hw' as <-. rewrite Hl in Hsum. cbn in Hsum.
    destruct (cv_window _ _ Hinv k w Hw) as (Hpe & p & rule & Hpp & Hr & Hle).
    rewrite (map_sum_delete (fun _ l => pending_of k l) _ _ _ Hl) in Hpe. rewrite Hls.
    split; [lia|]. exists p, rule. split_and!; [done..|lia].
  - intros k n'. rewrite Hconc, Hls, alter_all_lookup by apply Hlv.
    destruct (concurrency s !! k) as [n|] eqn:Hn; [|by case_decide].
    destruct (cv_concurrency _ _ Hinv k n Hn) as (Hsum & p & rule & Hp & Hr & Hle).
    rewrite (map_sum_delete (fun _ l => holds k l) _ _ _ Hl) in Hsum. unfold holds in Hsum at 1.
    intros Heq. assert (n' = map_sum (fun _ l => holds k l) (delete id (leases s))) as ->.
    { unfold saturating_sub in Heq. case_decide; cbn in Heq; simplify_eq; lia. }
    split; [done|]. exists p, rule. split_and!; [done..|lia].
  - intros id' l'. rewrite Hls. intros [Hne Hl']%lookup_delete_Some.
    destruct (cv_lease _ _ Hinv _ _ Hl') as [? ? Hrate Hcon Hi]. split; try done.
    + intros k (w & Hw & Hle)%Hrate. destruct (remove_lease_window s id k w Hinv Hw) as (w' & Hw' & (He & _) & _).
      exists w'. by rewrite He.
    + intros k Hk%Hcon. rewrite Hconc, alter_all_lookup by apply Hlv. case_decide; [by apply fmap_is_Some|done].
    + by rewrite Hid.
  - rewrite Hid. apply Hinv.
Qed.
End invariant.

(** *** Observing time *)

Lemma window_le_refl w : window_le w w.
Proof. unfold window_le. split_and!; [done..|lia]. Qed.
Lemma window_le_trans w1 w2 w3 : window_le w1 w2 -> window_le w2 w3 -> window_le w1 w3.
Proof. unfold window_le. intros (-> & -> & ?) (-> & -> & ?). split_and!; [done..|lia]. Qed.
Lemma shrinks_refl s : shrinks s s.
Proof. split; try done. intros k w Hw. eauto using window_le_refl. Qed.
Lemma shrinks_trans s1 s2 s3 : shrinks s1 s2 -> shrinks s2 s3 -> shrinks s1 s3.
Proof.
  intros [I1 L1 W1 N1] [I2 L2 W2 N2]. split; [congruence|by trans (leases s2)| |eauto].
  intros k w (w2 & Hw2 & Hle)%W1. destruct (W2 k w2 Hw2) as (w3 & Hw3 & Hle'). eauto using window_le_trans.
Qed.

Section observation.
  Context (policies : AdmissionPolicySet) (Hpol : policies_wf policies).
  Implicit Types (s : ControllerState) (l : ActiveLease).
  Notation inv := (ctrl_inv policies).

Lemma remove_lease_shrinks s id : inv s -> shrinks s (remove_lease id s).1.
Proof.
  intros Hinv. split.
  - apply remove_lease_identity.
  - rewrite remove_lease_leases. apply delete_subseteq.
  - intros k w Hw. destruct (remove_lease_window policies s id k w Hinv Hw) as (w' & Hw' & Hle & _). eauto.
  - intros k. by apply (remove_lease_windows_None policies).
Qed.

Lemma remove_all s ids :
  inv s -> let s' := foldl (fun s id => (remove_lease id s).1) s ids in
  inv s' /\ shrinks s s' /\ last_now s' = last_now s /\
  (forall id, leases s' !! id = if decide (id ∈ ids) then None else leases s !! id).
Proof.
  revert s. induction ids as [|i ids IH]; intros s Hinv; cbn [foldl].
  - split_and!; [done|apply shrinks_refl|done|]. intros id. by rewrite decide_False by apply not_elem_of_nil.
  - destruct (IH (remove_lease i s).1) as (Hinv' & Hsh & Hnow & Hls); [by apply (remove_lease_inv policies)|].
    split_and!; [done|eapply shrinks_trans; [by apply remove_lease_shrinks|done]| |].
    + rewrite Hnow. destruct (leases s !! i) as [l|] eqn:Hl; [by apply (remove_lease_fields s i l)|].
      by rewrite remove_lease_None.
    + intros id. rewrite Hls, remove_lease_leases. destruct (decide (id = i)) as [->|Hne].
      * rewrite lookup_delete_eq. rewrite (decide_True (P := i ∈ i :: ids)) by left. by case_decide.
      * rewrite lookup_delete_ne by done. destruct (decide (id ∈ ids)).
        -- by rewrite decide_True by (by right).
        -- rewrite decide_False; [done|]. by intros [|]%elem_of_cons.
Qed.

Lemma set_now_inv s now : inv s -> inv (s <| last_now := now |>).
Proof. intros [Hw Hc Hl Hi]. split; try done. intros id l Hid. by destruct (Hl id l Hid). Qed.

Lemma observe_run now s :
  inv s -> last_now s <= now ->
  exists s', observe_and_expire now s = (s', Ok tt) /\
    inv s' /\ shrinks s s' /\ last_now s' = now /\ alive now s' /\
    (forall id l, leases s !! id = Some l -> now < lease_expires_at l -> leases s' !! id = Some l).
Proof.
  intros Hinv Hnow. unfold observe_and_expire. rewrite act_get_run.
  rewrite (proj2 (N.ltb_ge _ _) Hnow). cbn [reject_if]. rewrite act_lift_run.
  set (expired := (List.filter _ _).*1).
  destruct (remove_all (s <| last_now := now |>) expired) as (Hinv' & Hsh & Hn & Hls); [by apply set_now_inv|].
  assert (forall id l, leases s !! id = Some l -> id ∈ expired <-> lease_expires_at l <= now) as Hexp.
  { intros id l Hl. unfold expired. rewrite list_elem_of_fmap. split.
    - intros ([id' l'] & -> & [Hl'%elem_of_btree_entries Hle]%elem_of_list_filter). cbn in *.
      rewrite Hl in Hl'. injection Hl' as <-. by apply N.leb_le.
    - intros Hle. exists (id, l). split; [done|]. apply elem_of_list_filter.
      split; [by apply elem_of_btree_entries|by apply N.leb_le]. }
  eexists. split; [done|]. cbn in Hn. split_and!; try done.
  - destruct Hsh. by split.
  - intros id l Hl. rewrite Hls in Hl. case_decide as Hin; [done|]. cbn in Hl.
    apply N.nle_gt. intros Hle. apply Hin. by apply (Hexp id l).
  - intros id l Hl Hlive. rewrite Hls. rewrite decide_False; [done|]. rewrite (Hexp id l Hl). lia.
Qed.
Lemma observe_regressed now s :
  now < last_now s -> observe_and_expire now s = (s, Err (error ClockRegressed)).
Proof.
  intros Hlt. unfold observe_and_expire. rewrite act_get_run. by rewrite (proj2 (N.ltb_lt _ _) Hlt).
Qed.
Lemma observe_inv now s :
  inv s -> inv (observe_and_expire now s).1 /\
  (forall u, (observe_and_expire now s).2 = Ok u -> alive now (observe_and_expire now s).1).
Proof.
  intros Hinv. destruct (N.le_gt_cases (last_now s) now) as [Hle|Hlt].
  - destruct (observe_run now s Hinv Hle) as (s' & -> & Hinv' & _ & _ & Hal & _). done.
  - by rewrite observe_regressed.
Qed.

(** *** Preparing windows *)

Lemma time_checked_add_Ok t d e : time_checked_add t d = Ok e <-> e = t + d /\ t + d <= u64_max.
Proof.
  unfold time_checked_add. destruct (N.leb_spec d u64_max); cbn.
  - rewrite ok_or_Ok, checked_add_Some. lia.
  - split; [done|]. lia.
Qed.

Lemma window_new_Ok now rule w :
  RateWindowState_new now rule = Ok w <->
  w = mk_RateWindowState (now + rate_window rule) 0 0 /\ now + rate_window rule <= u64_max.
Proof.
  unfold RateWindowState_new. destruct (time_checked_add now (rate_window rule)) as [e|e] eqn:He; cbn.
  - apply time_checked_add_Ok in He as [-> Hle]. split; [by intros [= <-]|by intros [-> _]].
  - split; [done|]. intros [_ Hle]. by rewrite (proj2 (time_checked_add_Ok _ _ _) (conj eq_refl Hle)) in He.
Qed.

Lemma fresh_window_inv s p rule ends now :
  inv s -> alive now s -> policies !! policy_key p = Some p -> rate p = Some rule ->
  (forall w, windows s !! policy_key p = Some w -> ends_at w <= now) ->
  inv (s <| windows := <[policy_key p := mk_RateWindowState ends 0 0]> (windows s) |>).
Proof.
  intros Hinv Hal Hp Hr Hpast.
  assert (forall id l, leases s !! id = Some l -> policy_key p ∉ lease_rate_keys l) as Hfree.
  { intros id l Hl Hin. destruct (lv_rate _ _ _ (cv_lease _ _ Hinv id l Hl) _ Hin) as (w & Hw & Hle).
    specialize (Hal id l Hl). specialize (Hpast w Hw). lia. }
  destruct Hinv as [Hw Hc Hl Hi]. split; cbn [windows concurrency leases next_identity set_field]; try done.
  - intros k w. destruct (decide (k = policy_key p)) as [->|Hne].
    + rewrite lookup_insert_eq. intros [= <-]. cbn. split; [|exists p, rule; split_and!; [done..|lia]].
      symmetry. apply map_sum_zero. intros id l Hid. unfold pending_of.
      rewrite decide_False; [done|]. intros [_ Hin]. by apply (Hfree id l).
    + rewrite lookup_insert_ne by done. apply Hw.
  - intros id l Hid. destruct (Hl id l Hid) as [? ? Hrate ? ?]. split; try done.
    intros k Hk. cbn. rewrite lookup_insert_ne by (intros <-; by apply (Hfree id l)). by apply Hrate.
Qed.

(** The run of [prepare_window], in either of its outcomes. *)
Lemma prepare_window_run p now s s' r :
  inv s -> alive now s -> policies !! policy_key p = Some p ->
  prepare_window p now s = (s', r) ->
  inv s' /\ alive now s' /\ leases s' = leases s /\ concurrency s' = concurrency s /\
  next_identity s' = next_identity s /\ last_now s' = last_now s /\
  (forall k, k <> policy_key p -> windows s' !! k = windows s !! k) /\
  (forall w, windows s !! policy_key p = Some w -> now < ends_at w -> windows s' = windows s) /\
  (forall u rule, r = Ok u -> rate p = Some rule ->
     exists w, windows s' !! policy_key p = Some w /\ now < ends_at w).
Proof.
  intros Hinv Hal Hp Hrun. unfold prepare_window in Hrun.
  destruct (rate p) as [rule|] eqn:Hr; [|by run_steps; split_and!].
  assert (1 <= rate_window rule) as Hpos.
  { destruct (Hpol _ _ Hp) as (_ & Hwf & _). destruct (Hwf rule Hr) as (_ & Hmin & _).
    unfold MIN_RATE_WINDOW in Hmin. lia. }
  destruct (RateWindowState_new now rule) as [fresh|e] eqn:Hf; [|by run_steps; split_and!].
  pose proof Hf as [-> _]%window_new_Ok.
  rewrite act_lift_run, act_modify_run in Hrun.
  rewrite act_get_run in Hrun. cbn [windows set_field] in Hrun.
  destruct (windows s !! policy_key p) as [w|] eqn:Hw; cbn [is_some_and] in Hrun.
  - rewrite Hw in Hrun. cbn [is_some_and] in Hrun. destruct (N.leb_spec (ends_at w) now) as [Hle|Hgt].
    + rewrite act_lift_run in Hrun. unfold modify in Hrun. injection Hrun as <- <-.
      cbn [windows leases concurrency next_identity last_now set_field]. split_and!; try done.
      * pose proof (fresh_window_inv s p rule (now + rate_window rule) now Hinv Hal Hp Hr) as Hi.
        apply Hi. intros w' Hw'. rewrite Hw in Hw'. by injection Hw' as <-.
      * intros k Hne. by rewrite lookup_insert_ne.
      * intros w' [= <-]. lia.
      * intros _ rule' _ [= <-]. rewrite lookup_insert_eq. eexists. split; [done|]. cbn. lia.
    + run_steps. cbn [windows leases concurrency next_identity last_now set_field].
      split_and!; try done; [by destruct s|]. intros. eauto.
  - rewrite lookup_insert_eq in Hrun. cbn [is_some_and ends_at] in Hrun.
    rewrite (proj2 (N.leb_gt _ _)) in Hrun by lia. run_steps.
    cbn [windows leases concurrency next_identity last_now set_field]. split_and!; try done.
    + apply (fresh_window_inv s p rule _ now); try done. intros w'. by rewrite Hw.
    + intros k Hne. by rewrite lookup_insert_ne.
    + intros _ rule' _ [= <-]. rewrite lookup_insert_eq. eexists. split; [done|]. cbn. lia.
Qed.
End observation.

(** *** Admission *)

Lemma bump_all_lookup ks m k :
  NoDup ks -> bump_all ks m !! k = if decide (k ∈ ks) then Some (default 0 (m !! k) + 1) else m !! k.
Proof.
  unfold bump_all. revert m. induction ks as [|i ks IH]; intros m Hnd; cbn [foldl].
  { by rewrite decide_False by apply not_elem_of_nil. }
  apply NoDup_cons in Hnd as [Hni Hnd]. rewrite IH by done.
  destruct (decide (k = i)) as [->|Hne].
  - rewrite decide_False by done. rewrite lookup_insert_eq, decide_True; [done|left].
  - rewrite lookup_insert_ne by done. destruct (decide (k ∈ ks)).
    + by rewrite decide_True by (by right).
    + rewrite decide_False; [done|]. by intros [|]%elem_of_cons.
Qed.

Lemma rate_keys_elem ps k :
  k ∈ rate_keys ps <-> exists p rule, p ∈ ps /\ policy_key p = k /\ rate p = Some rule.
Proof.
  unfold rate_keys. rewrite list_elem_of_fmap. split.
  - intros (p & -> & [Hp [rule Hr]%bool_decide_eq_true]%elem_of_list_filter). eauto 10.
  - intros (p & rule & Hp & <- & Hr). exists p. split; [done|]. apply elem_of_list_filter.
    rewrite Hr. split; [done|]. by apply bool_decide_eq_true.
Qed.
Lemma concurrency_keys_elem ps k :
  k ∈ concurrency_keys ps <-> exists p rule, p ∈ ps /\ policy_key p = k /\ concurrency_rule p = Some rule.
Proof.
  unfold concurrency_keys. rewrite list_elem_of_fmap. split.
  - intros (p & -> & [Hp [rule Hr]%bool_decide_eq_true]%elem_of_list_filter). eauto 10.
  - intros (p & rule & Hp & <- & Hr). exists p. split; [done|]. apply elem_of_list_filter.
    rewrite Hr. split; [done|]. by apply bool_decide_eq_true.
Qed.

Lemma add_concurrency_run ks s :
  NoDup ks -> (forall k, k ∈ ks -> default 0 (concurrency s !! k) + 1 <= u32_max) ->
  add_concurrency ks s = (s <| concurrency := bump_all ks (concurrency s) |>, Ok tt).
Proof.
  intros Hnd Hroom. unfold add_concurrency. rewrite act_get_run.
  rewrite (collect_map _ (fun k => default 0 (concurrency s !! k) + 1)).
  2: { intros k Hk. apply ok_or_Ok, checked_add_Some. split; [done|by apply Hroom]. }
  rewrite act_lift_run. revert s Hroom. induction ks as [|k ks IH]; intros s Hroom; cbn [for_each].
  { by destruct s. }
  apply NoDup_cons in Hnd as [Hni Hnd].
  assert (checked_add u32_max (default 0 (concurrency s !! k)) 1 = Some (default 0 (concurrency s !! k) + 1)) as Hadd.
  { apply checked_add_Some. split; [done|]. apply Hroom. left. }
  erewrite act_bind_run.
  2: { rewrite act_get_run, Hadd. cbn [ok_or]. rewrite act_lift_run. reflexivity. }
  rewrite IH; [done|done|].
  intros i Hi. cbn [concurrency set_field]. rewrite lookup_insert_ne by (intros ->; done). apply Hroom. by right.
Qed.

(** *** Rolling windows over *)

Lemma windows_rolled_refl now ps s : windows_rolled now ps false s s.
Proof. split; [by right|done]. Qed.
Lemma windows_rolled_after now ps all s s1 s2 :
  windows_rolled now ps all s s1 -> (forall k, window_view <$> windows s2 !! k = window_view <$> windows s1 !! k) ->
  windows_rolled now ps all s s2.
Proof. intros [Hr Hk] Hv. split; [intros p rule Hp Hrule; rewrite Hv; by apply Hr|intros k Hn; rewrite Hv; by apply Hk]. Qed.
Lemma windows_rolled_before now ps all s s1 s2 :
  (forall k, window_view <$> windows s1 !! k = window_view <$> windows s !! k) -> windows_rolled now ps all s1 s2 ->
  windows_rolled now ps all s s2.
Proof.
  intros Hv [Hr Hk]. assert (forall rule k, rolled_window now rule (windows s1 !! k) = rolled_window now rule (windows s !! k)) as Heq.
  { intros rule k. specialize (Hv k). unfold rolled_window, window_view in *.
    destruct (windows s1 !! k) as [w1|], (windows s !! k) as [w|]; cbn in Hv; try done. by injection Hv as -> ->. }
  split; [intros p rule Hp Hrule; rewrite <- Heq, <- Hv; by apply Hr|intros k Hn; rewrite <- Hv; by apply Hk].
Qed.
Lemma shrinks_view s s' k : shrinks s s' -> window_view <$> windows s' !! k = window_view <$> windows s !! k.
Proof.
  intros Hsh. destruct (windows s !! k) as [w|] eqn:Hw; [|by rewrite (sh_no_windows _ _ Hsh k Hw)].
  destruct (sh_windows _ _ Hsh k w Hw) as (w' & -> & (He & Hc & _)). unfold window_view. cbn. by rewrite He, Hc.
Qed.
Lemma alter_all_view ks units s k : NoDup ks ->
  window_view <$> alter_all (fun w => w <| pending := pending w + units |>) ks (windows s) !! k = window_view <$> windows s !! k.
Proof. intros Hnd. rewrite alter_all_lookup by done. case_decide; [|done]. by destruct (windows s !! k). Qed.

Lemma prepare_window_view p now s s' r :
  prepare_window p now s = (s', r) ->
  (forall k, k ∉ rate_keys [p] -> windows s' !! k = windows s !! k) /\
  (forall rule, rate p = Some rule -> 1 <= rate_window rule ->
    window_view <$> windows s' !! policy_key p = Some (rolled_window now rule (windows s !! policy_key p)) \/
    is_ok r = false /\ windows s' = windows s).
Proof.
  intros Hrun. unfold prepare_window in Hrun. destruct (rate p) as [rule|] eqn:Hr; [|by injection Hrun as <- <-].
  assert (forall k, k ∉ rate_keys [p] -> k <> policy_key p) as Hne.
  { intros k Hk ->. apply Hk, rate_keys_elem. exists p, rule. split; [left|done]. }
  destruct (RateWindowState_new now rule) as [fresh|e] eqn:Hf; [|rewrite act_lift_stop in Hrun; injection Hrun as <- <-; split; [done|]; by right].
  pose proof Hf as [-> _]%window_new_Ok. rewrite act_lift_run, act_modify_run, act_get_run in Hrun. cbn [windows set_field] in Hrun.
  destruct (windows s !! policy_key p) as [w|] eqn:Hw; cbn [is_some_and] in Hrun.
  - rewrite Hw in Hrun. cbn [is_some_and] in Hrun. unfold rolled_window. destruct (N.leb_spec (ends_at w) now) as [Hle|Hgt].
    + rewrite act_lift_run in Hrun. unfold modify in Hrun. injection Hrun as <- <-. cbn [windows set_field]. split.
      * intros k Hk%Hne. by rewrite lookup_insert_ne.
      * intros rule' [= <-] _. left. rewrite lookup_insert_eq, (proj2 (N.ltb_ge _ _)) by done. done.
    + injection Hrun as <- <-. cbn [windows set_field]. split; [done|]. intros rule' [= <-] _. left. by rewrite Hw, (proj2 (N.ltb_lt _ _)).
  - rewrite lookup_insert_eq in Hrun. cbn [is_some_and ends_at] in Hrun. split.
    + intros k Hk%Hne. by case_match; run_steps; cbn [windows set_field]; rewrite ?lookup_insert_ne.
    + intros rule' [= <-] Hpos. rewrite (proj2 (N.leb_gt _ _)) in Hrun by lia. injection Hrun as <- <-. left. cbn [windows set_field].
      by rewrite lookup_insert_eq.
Qed.

Section admission.
  Context (policies : AdmissionPolicySet) (Hpol : policies_wf policies).
  Implicit Types (s : ControllerState) (l : ActiveLease).
  Notation inv := (ctrl_inv policies).

Lemma prepare_windows_each ps now s s' r :
  inv s -> alive now s -> (forall p, p ∈ ps -> policies !! policy_key p = Some p) ->
  for_each (fun p => prepare_window p now) ps s = (s', r) ->
  inv s' /\ alive now s' /\ leases s' = leases s /\ concurrency s' = concurrency s /\
  next_identity s' = next_identity s /\ last_now s' = last_now s /\
  (forall k w, windows s !! k = Some w -> now < ends_at w -> windows s' !! k = Some w) /\
  (forall u p rule, r = Ok u -> p ∈ ps -> rate p = Some rule ->
     exists w, windows s' !! policy_key p = Some w /\ now < ends_at w).
Proof.
  revert s. induction ps as [|p ps IH]; intros s Hinv Hal Hps Hrun; cbn [for_each] in Hrun.
  { run_steps. split_and!; try done. by intros u p rule _ ?%not_elem_of_nil. }
  apply act_bind_inv in Hrun as [(s1 & [] & Hp1 & Hrest)|(e & Hp1 & ->)].
  - pose proof (prepare_window_run policies Hpol p now s s1 _ Hinv Hal (Hps p ltac:(left)) Hp1)
      as (Hinv1 & Hal1 & Hl1 & Hc1 & Hi1 & Hn1 & Hother & Hkeep & Hnew).
    destruct (IH s1 Hinv1 Hal1 ltac:(intros q Hq; apply Hps; by right) Hrest)
      as (Hinv2 & Hal2 & Hl2 & Hc2 & Hi2 & Hn2 & Hkeep2 & Hnew2).
    assert (forall k w, windows s !! k = Some w -> now < ends_at w -> windows s1 !! k = Some w) as Hkeep1.
    { intros k w Hw Hlt. destruct (decide (k = policy_key p)) as [->|Hne].
      - by rewrite (Hkeep w Hw Hlt).
      - by rewrite Hother. }
    split_and!; try done; try congruence; [by eauto|].
    intros u q rule -> [->|Hq]%elem_of_cons Hr; [|by eapply Hnew2].
    destruct (Hnew tt rule eq_refl Hr) as (w & Hw & Hlt). eauto.
  - pose proof (prepare_window_run policies Hpol p now s s' _ Hinv Hal (Hps p ltac:(left)) Hp1)
      as (Hinv1 & Hal1 & Hl1 & Hc1 & Hi1 & Hn1 & Hother & Hkeep & Hnew).
    split_and!; try done. intros k w Hw Hlt. destruct (decide (k = policy_key p)) as [->|Hne].
    + by rewrite (Hkeep w Hw Hlt).
    + by rewrite Hother.
Qed.

Lemma prepare_windows_run ps now s s' r :
  inv s -> alive now s -> (forall p, p ∈ ps -> policies !! policy_key p = Some p) ->
  prepare_windows ps now s = (s', r) ->
  inv s' /\ alive now s' /\ leases s' = leases s /\ concurrency s' = concurrency s /\
  next_identity s' = next_identity s /\ last_now s' = last_now s /\
  (forall u p rule, r = Ok u -> p ∈ ps -> rate p = Some rule ->
     exists w, windows s' !! policy_key p = Some w /\ now < ends_at w).
Proof.
  intros Hinv Hal Hps Hrun. unfold prepare_windows in Hrun.
  destruct (collect _ ps) as [ends|e]; [rewrite act_lift_run in Hrun|by rewrite act_lift_stop in Hrun; simplify_eq].
  destruct (prepare_windows_each ps now s s' r Hinv Hal Hps Hrun) as (? & ? & ? & ? & ? & ? & _ & ?).
  by split_and!.
Qed.

Lemma prepare_windows_view ps now s s' r :
  (forall p, p ∈ ps -> policies !! policy_key p = Some p) -> NoDup (policy_key <$> ps) ->
  prepare_windows ps now s = (s', r) -> windows_rolled now ps (is_ok r) s s'.
Proof using Hpol.
  intros Hps Hnd Hrun. unfold prepare_windows in Hrun.
  destruct (collect _ ps) as [ends|e]; [rewrite act_lift_run in Hrun|rewrite act_lift_stop in Hrun; injection Hrun as <- <-; apply windows_rolled_refl].
  clear ends. revert s Hrun. induction ps as [|p ps IH]; intros s Hrun; cbn [for_each] in Hrun.
  { injection Hrun as <- <-. split; [by intros p rule ?%not_elem_of_nil|done]. }
  cbn in Hnd. apply NoDup_cons in Hnd as [Hni Hnd].
  assert (forall rule, rate p = Some rule -> 1 <= rate_window rule) as Hpos.
  { intros rule Hr. destruct (Hpol _ _ (Hps p ltac:(left))) as (_ & Hwf & _). destruct (Hwf rule Hr) as (_ & Hmin & _). unfold MIN_RATE_WINDOW in Hmin. lia. }
  assert (forall k, k ∉ rate_keys (p :: ps) -> k ∉ rate_keys [p] /\ k ∉ rate_keys ps) as Hsplit.
  { intros k Hk. split; intros (q & rule & Hq & <- & Hr)%rate_keys_elem; apply Hk, rate_keys_elem; exists q, rule; split; try done.
    - apply list_elem_of_singleton in Hq as ->. left.
    - by right. }
  assert (policy_key p ∉ rate_keys ps) as Hother.
  { intros (q & rule & Hq & Heq & _)%rate_keys_elem. apply Hni. rewrite <- Heq. by apply list_elem_of_fmap_2. }
  apply act_bind_inv in Hrun as [(s1 & [] & Hp1 & Hrest)|(e & Hp1 & ->)]; destruct (prepare_window_view _ _ _ _ _ Hp1) as [Hk1 Hr1].
  - destruct (IH ltac:(intros q Hq; apply Hps; by right) Hnd s1 Hrest) as [Hr Hk]. split.
    + intros q rule [->|Hq]%elem_of_cons Hrule.
      * left. rewrite Hk by done. by destruct (Hr1 rule Hrule (Hpos rule Hrule)) as [->|[[=] _]].
      * rewrite <- (Hk1 (policy_key q)); [by apply Hr|]. intros (q' & rule' & ->%list_elem_of_singleton & Heq & _)%rate_keys_elem.
        apply Hni. rewrite Heq. by apply list_elem_of_fmap_2.
    + intros k Hn. destruct (Hsplit k Hn) as [Hn1 Hn2]. by rewrite Hk, Hk1.
  - split.
    + intros q rule [->|Hq]%elem_of_cons Hrule.
      * destruct (Hr1 rule Hrule (Hpos rule Hrule)) as [->|[_ ->]]; [by left|by right].
      * right. split; [done|]. rewrite Hk1; [done|]. intros (q' & rule' & ->%list_elem_of_singleton & Heq & _)%rate_keys_elem.
        apply Hni. rewrite Heq. by apply list_elem_of_fmap_2.
    + intros k Hn. destruct (Hsplit k Hn) as [Hn1 _]. by rewrite Hk1.
Qed.

Lemma check_capacity_Ok s ps units now us p :
  check_capacity s ps units now = Ok us -> p ∈ ps ->
  (forall rule, rate p = Some rule -> exists w, windows s !! policy_key p = Some w /\
     units <= capacity rule - N.min u32_max (committed w + pending w)) /\
  (forall rule, concurrency_rule p = Some rule -> default 0 (concurrency s !! policy_key p) < climit rule).
Proof.
  unfold check_capacity. intros Hc%collect_Ok Hp. apply list_elem_of_lookup in Hp as [i Hi].
  destruct (Forall2_lookup_l _ _ _ _ _ Hc Hi) as (u & _ & Hok). run_steps. split.
  - intros rule Hr. unfold check_rate in *. rewrite Hr in *.
    destruct (windows s !! policy_key p) as [w|]; [|done]. exists w. split; [done|].
    run_steps; tidy. done.
  - intros rule Hr. unfold check_concurrency in *. rewrite Hr in *.
    by destruct (N.ltb_spec (default 0 (concurrency s !! policy_key p)) (climit rule)).
Qed.

(** The deadline of a lease lies in the future and within every window it
    charges. *)
Lemma policy_expiry_Ok s p now e :
  policies !! policy_key p = Some p -> policy_expiry s p now = Ok e ->
  (forall w, windows s !! policy_key p = Some w -> now < ends_at w) ->
  now < e /\ (forall w, windows s !! policy_key p = Some w -> e <= ends_at w).
Proof.
  intros Hp He Hw. unfold policy_expiry in He. run_steps.
  destruct (concurrency_rule p) as [rule|] eqn:Hr.
  - destruct (Hpol _ _ Hp) as (_ & _ & Hwf). destruct (Hwf rule Hr) as (_ & Hpos & _).
    run_steps. match goal with H : time_checked_add _ _ = Ok _ |- _ => apply time_checked_add_Ok in H as [-> _] end.
    destruct (windows s !! policy_key p) as [w|]; cbn in *; simplify_eq.
    + specialize (Hw w eq_refl). split; [lia|]. intros ? [= <-]. lia.
    + split; [lia|done].
  - simplify_eq. destruct (windows s !! policy_key p) as [w|]; cbn in *; simplify_eq.
    specialize (Hw w eq_refl). split; [lia|]. intros ? [= <-]. lia.
Qed.

Lemma lease_expiry_from_Ok s ps now acc e :
  (forall p, p ∈ ps -> policies !! policy_key p = Some p) ->
  (forall p w, p ∈ ps -> windows s !! policy_key p = Some w -> now < ends_at w) ->
  (forall a, acc = Some a -> now < a) ->
  lease_expiry_from s ps now acc = Ok e ->
  now < e /\ (forall a, acc = Some a -> e <= a) /\
  (forall p w, p ∈ ps -> windows s !! policy_key p = Some w -> e <= ends_at w).
Proof.
  revert acc. induction ps as [|p ps IH]; intros acc Hps Hw Hacc He; cbn [lease_expiry_from] in He.
  - apply ok_or_Ok in He. subst acc. split; [by apply Hacc|]. split; [intros a [= <-]; lia|].
    by intros p w ?%not_elem_of_nil.
  - run_steps. match goal with H : policy_expiry _ _ _ = Ok ?d |- _ => rename d into deadline;
      destruct (policy_expiry_Ok s p now deadline (Hps p ltac:(left)) H) as [Hd Hdw];
        [intros w; apply Hw; left|] end.
    destruct (IH (Some (from_option (fun current => N.min current deadline) deadline acc))) as (Hlt & Hle & Hlew);
      [intros q Hq; apply Hps; by right|intros q w Hq; apply Hw; by right| |done|].
    + intros a [= <-]. destruct acc as [a0|]; cbn; [specialize (Hacc a0 eq_refl)|]; lia.
    + specialize (Hle _ eq_refl). split; [done|]. split.
      * intros a ->. cbn in Hle. lia.
      * intros q w [->|Hq]%elem_of_cons Hqw; [|by apply (Hlew q)]. specialize (Hdw w Hqw).
        destruct acc; cbn in Hle; lia.
Qed.

Lemma ctrl_reserve_run ps request rid id expires s :
  inv s -> may_reserve policies ps (units request) id expires s ->
  exists parts, reserve ps request rid id expires s = (reserve_spec ps (units request) id expires s, Ok parts).
Proof.
  intros Hinv [Hk Hnd Hrate Hconc Hfresh Hid]. unfold reserve, add_pending.
  assert (NoDup (rate_keys ps)) as Hndr by by apply NoDup_fmap_filter.
  assert (NoDup (concurrency_keys ps)) as Hndc by by apply NoDup_fmap_filter.
  assert (forall k, k ∈ rate_keys ps -> exists w, windows s !! k = Some w /\
    checked_add u32_max (pending w) (units request) = Some (pending w + units request)) as Hw.
  { intros k (p & rule & Hp & <- & Hr)%rate_keys_elem. destruct (Hrate p rule Hp Hr) as (w & Hw & _ & Hle).
    exists w. split; [done|]. apply checked_add_Some. split; [done|].
    destruct (Hpol _ _ (Hk p Hp)) as (_ & Hwf & _). destruct (Hwf rule Hr) as ((_ & ?) & _). lia. }
  assert (add_pending (rate_keys ps) (units request) s =
    (s <| windows := alter_all (fun w => w <| pending := pending w + units request |>) (rate_keys ps) (windows s) |>, Ok tt)) as Hadd.
  { unfold add_pending. rewrite act_get_run. unfold validate_pending_addition.
    rewrite (collect_map _ (fun _ => tt)).
    2: { intros k (w & Hkw & Hc)%Hw. rewrite Hkw. cbn. by rewrite Hc. }
    rewrite act_lift_run. apply update_windows_run; [done|].
    intros k (w & Hkw & Hc)%Hw. exists w. split; [done|]. unfold add_to_pending. by rewrite Hc. }
  unfold add_pending in Hadd. rewrite (act_bind_run _ _ _ _ _ Hadd).
  assert (forall k, k ∈ concurrency_keys ps -> default 0 (concurrency s !! k) + 1 <= u32_max) as Hc.
  { intros k (p & rule & Hp & <- & Hr)%concurrency_keys_elem.
    specialize (Hconc p rule Hp Hr). destruct (Hpol _ _ (Hk p Hp)) as (_ & _ & Hwf).
    destruct (Hwf rule Hr) as ((_ & ?) & _). lia. }
  match goal with |- context [(add_concurrency _ ≫= _) ?st] =>
    rewrite (act_bind_run _ _ _ _ _ (add_concurrency_run (concurrency_keys ps) st Hndc Hc)) end.
  rewrite act_modify_run. eexists. reflexivity.
Qed.

Lemma reserve_spec_inv ps units id expires s :
  inv s -> may_reserve policies ps units id expires s -> inv (reserve_spec ps units id expires s).
Proof.
  intros Hinv [Hk Hnd Hrate Hconc Hfresh Hid].
  assert (NoDup (rate_keys ps)) as Hndr by by apply NoDup_fmap_filter.
  assert (NoDup (concurrency_keys ps)) as Hndc by by apply NoDup_fmap_filter.
  split; cbn [windows concurrency leases next_identity reserve_spec].
  - intros k w'. rewrite alter_all_lookup by done. rewrite map_sum_insert_new by done.
    unfold pending_of at 1. cbn [rate_committed lease_rate_keys lease_units].
    destruct (decide (k ∈ rate_keys ps)) as [Hin|Hin].
    + intros (w & Hw & ->)%fmap_Some. rewrite decide_True by done.
      destruct (cv_window _ _ Hinv k w Hw) as (Hp & _). cbn [pending committed set_field]. split; [lia|].
      apply rate_keys_elem in Hin as (p & rule & Hpin & <- & Hr).
      destruct (Hrate p rule Hpin Hr) as (w2 & Hw2 & _ & Hle). rewrite Hw in Hw2. injection Hw2 as <-.
      exists p, rule. split_and!; [by apply Hk|done|lia].
    + intros Hw. rewrite decide_False by (by intros [_ ?]). rewrite N.add_0_l. by apply (cv_window _ _ Hinv).
  - intros k n. rewrite bump_all_lookup by done. rewrite map_sum_insert_new by done.
    unfold holds at 1. cbn [lease_concurrency_keys].
    destruct (decide (k ∈ concurrency_keys ps)) as [Hin|Hin].
    + intros [= <-]. apply concurrency_keys_elem in Hin as (p & rule & Hpin & <- & Hr).
      specialize (Hconc p rule Hpin Hr). split; [|exists p, rule; split_and!; [by apply Hk|done|lia]].
      destruct (concurrency s !! policy_key p) as [n|] eqn:Hn; cbn.
      * destruct (cv_concurrency _ _ Hinv _ n Hn) as [-> _]. lia.
      * rewrite map_sum_zero; [lia|]. intros id' l Hl. unfold holds. rewrite decide_False; [done|].
        intros Hin. destruct (lv_conc _ _ _ (cv_lease _ _ Hinv _ _ Hl) _ Hin). congruence.
    + intros Hn. rewrite N.add_0_l. by apply (cv_concurrency _ _ Hinv).
  - intros id' l'. destruct (decide (id' = id)) as [->|Hne].
    + rewrite lookup_insert_eq. intros [= <-]. split; cbn; try done.
      * intros k Hin. rewrite alter_all_lookup, decide_True by done.
        apply rate_keys_elem in Hin as (p & rule & Hpin & <- & Hr).
        destruct (Hrate p rule Hpin Hr) as (w & -> & Hle & _). cbn. eauto.
      * intros k Hin. rewrite bump_all_lookup, decide_True by done. eauto.
    + rewrite lookup_insert_ne by done. intros Hl. destruct (cv_lease _ _ Hinv _ _ Hl) as [? ? Hr Hc ?].
      split; cbn; try done.
      * intros k (w & Hw & Hle)%Hr. rewrite alter_all_lookup by done. case_decide; rewrite Hw; cbn; eauto.
      * intros k [n Hn]%Hc. rewrite bump_all_lookup by done. case_decide; eauto.
  - apply Hinv.
Qed.
End admission.

Section operations_facts.
  Context (policies : AdmissionPolicySet) (Hpol : policies_wf policies).
  Implicit Types (s : ControllerState) (l : ActiveLease).
  Notation inv := (ctrl_inv policies).

(** *** Commitment *)

Lemma commit_rate_run s id l :
  inv s -> leases s !! id = Some l -> commit_rate id s = (commit_spec id l s, Ok tt).
Proof.
  intros Hinv Hl. pose proof (cv_lease _ _ Hinv _ _ Hl) as Hlv.
  unfold commit_rate, pending_rate_commitment, commit_spec. rewrite act_get_run, Hl. cbn [ok_or mbind result_bind].
  change (lift (mret ?x)) with (lift (S := ControllerState) (E := AdmissionError) (Ok x)). rewrite act_lift_run.
  destruct (rate_committed l) eqn:Hc; [done|].
  set (f := fun w => w <| pending := pending w - lease_units l |> <| committed := committed w + lease_units l |>).
  assert (forall k, k ∈ lease_rate_keys l -> exists w, windows s !! k = Some w /\
    checked_add u32_max (committed w) (lease_units l) = Some (committed w + lease_units l)) as Hw.
  { intros k Hk. destruct (lv_rate _ _ _ Hlv k Hk) as (w & Hw & _). exists w. split; [done|].
    apply checked_add_Some. split; [done|]. pose proof (window_room policies Hpol _ _ _ Hinv Hw).
    pose proof (pending_covers policies _ _ _ _ _ Hinv Hl Hc Hk Hw). lia. }
  unfold validate_rate_commitment. rewrite (collect_map _ (fun _ => tt)).
  2: { intros k (w & Hkw & Hadd)%Hw. rewrite Hkw. cbn. by rewrite Hadd. }
  rewrite act_lift_run.
  assert (forall k, k ∈ lease_rate_keys l -> exists w, windows s !! k = Some w /\
    move_to_committed (lease_units l) w = Ok (f w)) as Hmove.
  { intros k (w & Hkw & Hadd)%Hw. exists w. split; [done|]. unfold move_to_committed. by rewrite Hadd. }
  rewrite (act_bind_run _ _ _ _ _ (update_windows_run (move_to_committed (lease_units l)) f
    (lease_rate_keys l) s (lv_rate_nodup _ _ _ Hlv) Hmove)).
  unfold mark_rate_committed. rewrite act_get_run. cbn [leases set_field]. rewrite Hl. cbn [ok_or].
  rewrite act_lift_run. done.
Qed.
Lemma commit_rate_missing s id :
  leases s !! id = None -> commit_rate id s = (s, Err (error LeaseExpired)).
Proof. intros Hl. unfold commit_rate, pending_rate_commitment. by rewrite act_get_run, Hl. Qed.

Lemma commit_spec_window s id l k w :
  inv s -> leases s !! id = Some l -> windows s !! k = Some w ->
  exists w', windows (commit_spec id l s) !! k = Some w' /\ ends_at w' = ends_at w /\
    committed w' = committed w + pending_of k l /\ pending w' = pending w - pending_of k l /\
    pending_of k l <= pending w.
Proof.
  intros Hinv Hl Hw. unfold commit_spec, pending_of. destruct (rate_committed l) eqn:Hc.
  { rewrite decide_False by (by intros [? _]). exists w. split_and!; try done; lia. }
  cbn [windows set_field]. rewrite alter_all_lookup by apply (cv_lease _ _ Hinv _ _ Hl). rewrite Hw.
  destruct (decide (k ∈ lease_rate_keys l)) as [Hk|Hk].
  - rewrite decide_True by done. eexists. split; [done|]. cbn. split_and!; try done.
    by apply (pending_covers policies s id l k w).
  - rewrite decide_False by (by intros [_ ?]). exists w. split_and!; try done; lia.
Qed.
Lemma commit_spec_inv s id l : inv s -> leases s !! id = Some l -> inv (commit_spec id l s).
Proof.
  intros Hinv Hl. destruct (rate_committed l) eqn:Hc; [by unfold commit_spec; rewrite Hc|].
  pose proof (cv_lease _ _ Hinv _ _ Hl) as Hlv.
  assert (forall k, windows s !! k = None -> windows (commit_spec id l s) !! k = None) as Hnone.
  { intros k Hk. unfold commit_spec. rewrite Hc. cbn. rewrite alter_all_lookup by apply Hlv. rewrite Hk. by case_decide. }
  assert (leases (commit_spec id l s) = <[id := l <| rate_committed := true |>]> (leases s)) as Hls
    by (unfold commit_spec; by rewrite Hc).
  assert (concurrency (commit_spec id l s) = concurrency s) as Hcc by (unfold commit_spec; by rewrite Hc).
  assert (next_identity (commit_spec id l s) = next_identity s) as Hni by (unfold commit_spec; by rewrite Hc).
  split.
  - intros k w' Hw'. destruct (windows s !! k) as [w|] eqn:Hw; [|by rewrite Hnone in Hw'].
    destruct (commit_spec_window s id l k w Hinv Hl Hw) as (w2 & Hw2 & _ & Hco & Hpe & Hle).
    rewrite Hw2 in Hw'. injection Hw' as <-.
    destruct (cv_window _ _ Hinv k w Hw) as (Hsum & p & rule & Hp & Hr & Hcap).
    pose proof (map_sum_insert (fun _ l => pending_of k l) _ id l (l <| rate_committed := true |>) Hl) as Hins.
    cbv beta in Hins. unfold pending_of in Hins at 4.
    rewrite decide_False in Hins by (by intros [? _]). rewrite Hls. split; [lia|].
    exists p, rule. split_and!; [done..|lia].
  - intros k n. rewrite Hcc, Hls. intros Hn. destruct (cv_concurrency _ _ Hinv k n Hn) as (Hsum & Hex).
    split; [|done].
    pose proof (map_sum_insert (fun _ l => holds k l) _ id l (l <| rate_committed := true |>) Hl) as Hins.
    cbv beta in Hins. change (holds k (l <| rate_committed := true |>)) with (holds k l) in Hins. lia.
  - intros id' l'. rewrite Hls.
    assert (forall l0, lease_inv s id' l0 -> lease_inv (commit_spec id l s) id' l0) as Hmove.
    { intros l0 [? ? Hr Hk ?]. split; try done.
      - intros k (w & Hw & Hle)%Hr. destruct (commit_spec_window s id l k w Hinv Hl Hw) as (w' & Hw' & He & _).
        exists w'. by rewrite He.
      - by rewrite Hcc.
      - by rewrite Hni. }
    destruct (decide (id' = id)) as [->|Hne].
    + rewrite lookup_insert_eq. intros [= <-]. apply Hmove in Hlv. by destruct Hlv.
    + rewrite lookup_insert_ne by done. intros Hl'. apply Hmove, (cv_lease _ _ Hinv _ _ Hl').
  - rewrite Hni. apply Hinv.
Qed.
Lemma commit_rate_inv id s : inv s -> inv (commit_rate id s).1.
Proof.
  intros Hinv. destruct (leases s !! id) as [l|] eqn:Hl.
  - rewrite (commit_rate_run s id l) by done. by apply commit_spec_inv.
  - by rewrite commit_rate_missing.
Qed.

(** *** Resolving a request *)

Lemma resolve_policies_Ok request ps :
  resolve_policies policies request = Ok ps -> request_wf request ->
  policy_key <$> ps = keys request /\ (forall p, p ∈ ps -> policies !! policy_key p = Some p) /\
  NoDup (policy_key <$> ps).
Proof.
  unfold resolve_policies. intros Hc%collect_Ok [Hreq _].
  assert (policy_key <$> ps = keys request /\ (forall p, p ∈ ps -> policies !! policy_key p = Some p)) as [Hk Hps].
  { clear Hreq. induction Hc as [|k p ks ps Hkp _ [IHk IHp]]; [by split; [|intros ? ?%not_elem_of_nil]|].
    apply ok_or_Ok in Hkp. destruct (Hpol _ _ Hkp) as (Hkey & _). split.
    - cbn. by rewrite Hkey, IHk.
    - intros q [->|Hq]%elem_of_cons; [by rewrite Hkey|by apply IHp]. }
  split_and!; try done. rewrite Hk. unfold AdmissionRequest_new, validate_request_keys in Hreq.
  run_steps; tidy. match goal with H : all_fresh _ _ _ = true |- _ => apply all_fresh_NoDup in H as [Hnd _] end.
  by eapply NoDup_fmap_1.
Qed.

Lemma live_leases_spec now s s1 :
  leases s1 ⊆ leases s -> alive now s1 ->
  (forall id l, leases s !! id = Some l -> now < lease_expires_at l -> leases s1 !! id = Some l) ->
  leases s1 = live_leases now s.
Proof.
  intros Hsub Hal Hkeep. apply map_eq. intros id. apply option_eq. intros l.
  unfold live_leases. rewrite map_lookup_filter_Some. cbn. split.
  - intros Hl. split; [by eapply lookup_weaken|by eapply Hal].
  - intros [Hl Hlt]. by apply Hkeep.
Qed.

Lemma allocate_identities_run s :
  allocate_identities s =
    if next_identity s + 1 + 1 <=? u64_max
    then (s <| next_identity := next_identity s + 1 + 1 |>, Ok (next_identity s + 1, next_identity s + 1 + 1))
    else (s, Err exhausted).
Proof.
  unfold allocate_identities, checked_add. rewrite act_get_run.
  destruct (N.leb_spec (next_identity s + 1) u64_max); cbn [ok_or];
    [rewrite act_lift_run|rewrite act_lift_stop];
    destruct (N.leb_spec (next_identity s + 1 + 1) u64_max); try done; lia.
Qed.

(** *** Refusals *)

Lemma time_checked_add_Err t d e : time_checked_add t d = Err e -> e = exhausted.
Proof.
  unfold time_checked_add. destruct (d <=? u64_max); cbn; [|by intros [= <-]].
  by intros [_ ->]%ok_or_Err.
Qed.
Lemma window_new_Err now rule e : RateWindowState_new now rule = Err e -> e = exhausted.
Proof. unfold RateWindowState_new. intros H. run_steps. by eapply time_checked_add_Err. Qed.
Lemma prepare_windows_Err ps now s s' e : prepare_windows ps now s = (s', Err e) -> e = exhausted.
Proof.
  unfold prepare_windows. destruct (collect _ ps) as [ends|e'] eqn:Hc.
  - rewrite act_lift_run. intros (p & s1 & _ & Hp)%for_each_Err. unfold prepare_window in Hp.
    destruct (rate p) as [rule|]; [|done].
    destruct (RateWindowState_new now rule) as [w|e'] eqn:Hw.
    + rewrite act_lift_run, act_modify_run, act_get_run in Hp. by case_match; run_steps.
    + rewrite act_lift_stop in Hp. simplify_eq. by eapply window_new_Err.
  - rewrite act_lift_stop. intros [= _ <-]. apply collect_Err in Hc as (p & _ & Hp).
    destruct (rate p); [|done]. by eapply time_checked_add_Err.
Qed.
Lemma policy_expiry_Err s p now e : policy_expiry s p now = Err e -> code e = CounterExhausted \/ code e = InvalidArgument.
Proof.
  unfold policy_expiry. intros H. run_steps.
  - repeat case_match; simplify_eq; by right.
  - left. case_match; run_steps; [|done].
    match goal with H : time_checked_add _ _ = Err _ |- _ => by apply time_checked_add_Err in H as -> end.
Qed.
Lemma lease_expiry_Err s ps now acc e :
  lease_expiry_from s ps now acc = Err e -> code e = CounterExhausted \/ code e = InvalidArgument.
Proof.
  revert acc. induction ps as [|p ps IH]; intros acc; cbn [lease_expiry_from]; intros H; run_steps.
  - by right.
  - eauto.
  - by eapply policy_expiry_Err.
Qed.
Lemma check_capacity_Err s ps units now e :
  inv s -> (forall p, p ∈ ps -> policies !! policy_key p = Some p) ->
  (forall p rule, p ∈ ps -> rate p = Some rule -> is_Some (windows s !! policy_key p)) ->
  check_capacity s ps units now = Err e -> refusal ps units s e.
Proof.
  intros Hinv Hps Hwin (p & Hp & Hc)%collect_Err. unfold refusal. right. right.
  destruct (check_rate s p units now) as [u|e1] eqn:Hrate; cbn in Hc; [right|left].
  - unfold check_concurrency in Hc. destruct (concurrency_rule p) as [rule|] eqn:Hr; [|done].
    destruct (N.ltb_spec (default 0 (concurrency s !! policy_key p)) (climit rule)); [done|].
    injection Hc as <-. split; [done|]. by exists p, rule.
  - injection Hc as ->. unfold check_rate in Hrate. destruct (rate p) as [rule|] eqn:Hr; [|done].
    destruct (Hwin p rule Hp Hr) as [w Hw]. rewrite Hw in Hrate. run_steps; tidy. split; [done|].
    exists p, rule, w. split_and!; try done.
    pose proof (window_room policies Hpol _ _ _ Hinv Hw). unfold saturating_sub, saturating_add in *. lia.
Qed.

(** *** The outcome of an admission *)

(** Capacity was found and an expiry computed: the reservation can be taken. *)
Lemma capacity_may_reserve ps units now s us expires :
  inv s -> alive now s -> last_now s = now ->
  (forall p, p ∈ ps -> policies !! policy_key p = Some p) -> NoDup (policy_key <$> ps) ->
  (forall p rule, p ∈ ps -> rate p = Some rule ->
     exists w, windows s !! policy_key p = Some w /\ now < ends_at w) ->
  next_identity s + 1 + 1 <= u64_max ->
  check_capacity s ps units now = Ok us ->
  lease_expiry (s <| next_identity := next_identity s + 1 + 1 |>) ps now = Ok expires ->
  let s' := s <| next_identity := next_identity s + 1 + 1 |> in
  inv s' /\ now < expires /\ may_reserve policies ps units (next_identity s + 1 + 1) expires s'.
Proof.
  intros Hinv Hal Hn Hps Hnd Hwin Hmax Hcap Hexp s'.
  assert (inv s') as Hinv'.
  { destruct Hinv as [Hw Hc Hl Hi]. split; try done.
    intros i l Hi'. destruct (Hl i l Hi') as [? ? ? ? Hle']. split; try done. cbn. lia. }
  assert (forall p w, p ∈ ps -> windows s' !! policy_key p = Some w -> now < ends_at w) as Hfuture.
  { intros p w Hp Hw. change (windows s') with (windows s) in Hw.
    destruct (cv_window _ _ Hinv _ _ Hw) as (_ & p' & rule & Hp' & Hr & _).
    rewrite (Hps p Hp) in Hp'. injection Hp' as <-.
    destruct (Hwin p rule Hp Hr) as (w' & Hw' & Hlt). rewrite Hw in Hw'. by injection Hw' as <-. }
  destruct (lease_expiry_from_Ok policies Hpol s' ps now None expires Hps Hfuture ltac:(done) Hexp) as (Hgt & _ & Hwithin).
  split_and!; [done..|]. split; try done.
  - intros p rule Hp Hr. destruct (check_capacity_Ok _ _ _ _ _ _ Hcap Hp) as [Hrate _].
    destruct (Hrate rule Hr) as (w & Hw & Hroom). exists w. split_and!; [done|by eapply Hwithin|].
    pose proof (window_room policies Hpol _ _ _ Hinv Hw).
    destruct (cv_window _ _ Hinv _ _ Hw) as (_ & p' & rule' & Hp' & Hr' & Hle').
    rewrite (Hps p Hp) in Hp'. injection Hp' as <-. rewrite Hr in Hr'. injection Hr' as <-. lia.
  - intros p rule Hp Hr. destruct (check_capacity_Ok _ _ _ _ _ _ Hcap Hp) as [_ Hconc].
    specialize (Hconc rule Hr). change (concurrency s') with (concurrency s). lia.
  - change (leases s') with (leases s). destruct (leases s !! _) as [l|] eqn:Hl; [|done].
    pose proof (lv_id _ _ _ (cv_lease _ _ Hinv _ _ Hl)). lia.
Qed.

Lemma prepare_admission_outcome ps request now s s' r :
  inv s -> (forall p, p ∈ ps -> policies !! policy_key p = Some p) -> NoDup (policy_key <$> ps) ->
  prepare_admission ps request now s = (s', r) ->
  inv s' /\
  match r with
  | Err e =>
      (code e = ClockRegressed /\ now < last_now s /\ s' = s) \/
      (last_now s <= now /\ last_now s' = now /\ leases s' = live_leases now s /\
       refusal ps (units request) s' e /\ windows_rolled now ps false s s')
  | Ok a =>
      al_closed a = false /\ last_now s <= now /\ last_now s' = now /\ leases s !! al_id a = None /\
      now < al_expires_at a /\
      leases s' = <[al_id a := mk_ActiveLease (rate_keys ps) (concurrency_keys ps) (units request)
                      (al_expires_at a) false]> (live_leases now s) /\
      (forall k, k ∈ rate_keys ps -> exists w, windows s' !! k = Some w /\ al_expires_at a <= ends_at w) /\
      windows_rolled now ps true s s'
  end.
Proof.
  intros Hinv Hps Hnd Hrun. unfold prepare_admission in Hrun.
  destruct (N.le_gt_cases (last_now s) now) as [Hle|Hlt].
  2: { rewrite (act_bind_stop _ _ _ _ _ (observe_regressed now s Hlt)) in Hrun. simplify_eq. split; [done|]. by left. }
  destruct (observe_run policies now s Hinv Hle) as (s1 & Hob & Hinv1 & Hsh & Hn1 & Hal1 & Hkeep).
  rewrite (act_bind_run _ _ _ _ _ Hob) in Hrun.
  assert (leases s1 = live_leases now s) as Hlive by (apply live_leases_spec; [apply Hsh|done|done]).
  destruct (prepare_windows ps now s1) as [s2 r2] eqn:Hpw.
  destruct (prepare_windows_run policies Hpol ps now s1 s2 r2 Hinv1 Hal1 Hps Hpw)
    as (Hinv2 & Hal2 & Hl2 & Hc2 & Hi2 & Hn2 & Hwin).
  assert (windows_rolled now ps (is_ok r2) s s2) as Hroll.
  { eapply windows_rolled_before; [intros k; by apply shrinks_view|]. by apply (prepare_windows_view policies Hpol). }
  assert (windows_rolled now ps false s s2) as Hsome.
  { destruct Hroll as [Hr Hk]. split; [|done]. intros p rule Hp Hrule. destruct (Hr p rule Hp Hrule) as [?|[_ ?]]; [by left|by right]. }
  destruct r2 as [[]|e].
  2: { rewrite (act_bind_stop _ _ _ _ _ Hpw) in Hrun. injection Hrun as <- <-. split; [done|]. right.
       split; [done|]. split; [congruence|]. split; [congruence|]. split; [left; by rewrite (prepare_windows_Err _ _ _ _ _ Hpw)|done]. }
  rewrite (act_bind_run _ _ _ _ _ Hpw), act_get_run in Hrun.
  destruct (check_capacity s2 ps (units request) now) as [us|e] eqn:Hcap.
  2: { rewrite act_lift_stop in Hrun. injection Hrun as <- <-. split; [done|]. right.
       split; [done|]. split; [congruence|]. split; [congruence|]. split; [|done].
       apply (check_capacity_Err s2 ps _ now); try done. intros p rule Hp Hr.
       destruct (Hwin tt p rule eq_refl Hp Hr) as (w & Hw & _). eauto. }
  rewrite act_lift_run in Hrun. pose proof (allocate_identities_run s2) as Halloc.
  destruct (N.leb_spec (next_identity s2 + 1 + 1) u64_max) as [Hmax|].
  2: { rewrite (act_bind_stop _ _ _ _ _ Halloc) in Hrun. injection Hrun as <- <-. split; [done|]. right.
       split; [done|]. split; [congruence|]. split; [congruence|]. split; [by left|done]. }
  rewrite (act_bind_run _ _ _ _ _ Halloc), act_get_run in Hrun. cbn [fst snd] in Hrun.
  destruct (lease_expiry _ ps now) as [expires|e] eqn:Hexp.
  2: { rewrite act_lift_stop in Hrun. injection Hrun as <- <-. split.
       - destruct Hinv2 as [? ? Hl ?]. split; try done. intros i l Hi'. destruct (Hl i l Hi') as [? ? ? ? Hle'].
         split; try done. cbn. lia.
       - right. cbn. split; [done|]. split; [congruence|]. split; [congruence|].
         split; [unfold refusal; pose proof (lease_expiry_Err _ _ _ _ _ Hexp); tauto|]. by eapply windows_rolled_after. }
  rewrite act_lift_run in Hrun.
  destruct (capacity_may_reserve ps (units request) now s2 us expires Hinv2 Hal2 ltac:(congruence) Hps Hnd
    (fun p rule => Hwin tt p rule eq_refl) Hmax Hcap Hexp) as (Hinv3 & Hgt & Hmay).
  destruct (ctrl_reserve_run policies Hpol ps request (next_identity s2 + 1) _ expires _ Hinv3 Hmay) as [parts Hres].
  rewrite (act_bind_run _ _ _ _ _ Hres) in Hrun. unfold mret, act_ret in Hrun. injection Hrun as <- <-.
  cbn [al_id al_expires_at al_closed leases last_now reserve_spec set_field].
  pose proof (reserve_spec_inv policies ps (units request) _ expires _ Hinv3 Hmay) as Hinv'.
  split; [done|]. rewrite Hl2, Hlive. split; [done|]. split; [done|]. split; [congruence|]. split; [|split; [done|split; [done|split]]].
  - destruct (leases s !! _) as [l|] eqn:Hl; [|done].
    pose proof (lv_id _ _ _ (cv_lease _ _ Hinv _ _ Hl)). destruct Hsh. lia.
  - intros k Hk. destruct (lv_rate _ _ _ (cv_lease _ _ Hinv' _ _ (lookup_insert_eq _ _ _)) k Hk) as (w & Hw & Hle'). eauto.
  - eapply windows_rolled_after; [exact Hroll|]. intros k. cbn [windows reserve_spec]. rewrite alter_all_view by by apply NoDup_fmap_filter. done.
Qed.

(** The counters of a controller are the totals of its leases. *)
Lemma slots_total s k : inv s -> default 0 (concurrency s !! k) = map_sum (fun _ l => holds k l) (leases s).
Proof using Type.
  intros Hinv. destruct (concurrency s !! k) as [n|] eqn:Hn; cbn; [by apply (cv_concurrency _ _ Hinv k n Hn)|].
  symmetry. apply map_sum_zero. intros id l Hl. unfold holds. rewrite decide_False; [done|]. intros Hin.
  destruct (lv_conc _ _ _ (cv_lease _ _ Hinv _ _ Hl) _ Hin). congruence.
Qed.
Lemma charged_refused now s s' : inv s' -> leases s' = live_leases now s -> charged now s [] [] 0 s'.
Proof using Type.
  intros Hinv Hls. split.
  - intros k w Hw. rewrite decide_False by apply not_elem_of_nil. rewrite <- Hls. destruct (cv_window _ _ Hinv k w Hw) as [-> _]. lia.
  - intros k. rewrite decide_False by apply not_elem_of_nil. rewrite slots_total, Hls by done. lia.
Qed.
Lemma charged_admitted now s s' id rks cks units expires : inv s' -> leases s !! id = None ->
  leases s' = <[id := mk_ActiveLease rks cks units expires false]> (live_leases now s) -> charged now s rks cks units s'.
Proof using Type.
  intros Hinv Hnew Hls.
  assert (live_leases now s !! id = None) as Hfree by (apply map_lookup_filter_None; by left).
  split.
  - intros k w Hw. destruct (cv_window _ _ Hinv k w Hw) as [-> _]. rewrite Hls, map_sum_insert_new by done. rewrite N.add_comm. f_equal.
    unfold pending_of. cbn. destruct (decide (k ∈ rks)); [by rewrite decide_True|rewrite decide_False; [done|tauto]].
  - intros k. rewrite slots_total, Hls, map_sum_insert_new by done. rewrite N.add_comm. f_equal.
Qed.

(** An admission by the controller, on a healthy lock. *)
Lemma try_admit_outcome request now s (l' : Lock ControllerState) r :
  inv s -> request_wf request -> try_admit policies request now (mk_lock false s) = (l', r) ->
  lock_poisoned l' = false /\ inv (lock_data l') /\
  match resolve_policies policies request, r with
  | Err e, _ => l' = mk_lock false s /\ r = Err e
  | Ok ps, Err e =>
      (code e = ClockRegressed /\ now < last_now s /\ l' = mk_lock false s) \/
      (last_now s <= now /\ last_now (lock_data l') = now /\ leases (lock_data l') = live_leases now s /\
       refusal ps (units request) (lock_data l') e /\ windows_rolled now ps false s (lock_data l'))
  | Ok ps, Ok a =>
      al_closed a = false /\ last_now s <= now /\ last_now (lock_data l') = now /\ leases s !! al_id a = None /\
      now < al_expires_at a /\
      leases (lock_data l') = <[al_id a := mk_ActiveLease (rate_keys ps) (concurrency_keys ps)
        (units request) (al_expires_at a) false]> (live_leases now s) /\
      (forall k, k ∈ rate_keys ps -> exists w, windows (lock_data l') !! k = Some w /\ al_expires_at a <= ends_at w) /\
      windows_rolled now ps true s (lock_data l')
  end.
Proof.
  intros Hinv Hwf Hrun. unfold try_admit in Hrun.
  destruct (resolve_policies policies request) as [ps|e] eqn:Hres.
  2: { rewrite act_lift_stop in Hrun. by injection Hrun as <- <-. }
  rewrite act_lift_run, locked_run in Hrun.
  destruct (resolve_policies_Ok request ps Hres Hwf) as (_ & Hps & Hnd).
  destruct (prepare_admission ps request now s) as [s' r'] eqn:Hp. injection Hrun as <- <-.
  destruct (prepare_admission_outcome ps request now s s' r' Hinv Hps Hnd Hp) as [Hinv' Hout].
  cbn [lock_poisoned lock_data snd]. split; [done|]. split; [done|]. destruct r' as [a|e]; [done|].
  destruct Hout as [(? & ? & ->)|?]; [by left|by right].
Qed.
End operations_facts.

Section serving.
  Context (policies : AdmissionPolicySet) (Hpol : policies_wf policies).
  Implicit Types (s : ControllerState).
  Notation inv := (ctrl_inv policies).

(** *** Every operation keeps the invariant *)

Lemma preserves_observe now : preserves inv (observe_and_expire now).
Proof. intros s Hs. by apply observe_inv. Qed.
Lemma preserves_commit id : preserves inv (commit_rate id).
Proof. intros s Hs. by apply commit_rate_inv. Qed.
Lemma preserves_removing id : preserves inv (removing id).
Proof.
  intros s Hs. unfold removing. destruct (remove_lease id s) as [s' b] eqn:Hr. cbn.
  pose proof (remove_lease_inv policies s id Hs) as H. by rewrite Hr in H.
Qed.
#[local] Hint Resolve preserves_observe preserves_commit preserves_removing : ariadnion.

Lemma preserves_complete id : preserves inv (complete_accepted id).
Proof. unfold complete_accepted. eauto 10 with ariadnion. Qed.
Lemma preserves_retain id : preserves inv (retain_accepted id).
Proof. unfold retain_accepted. eauto with ariadnion. Qed.
#[local] Hint Resolve preserves_complete preserves_retain : ariadnion.
Lemma preserves_finalize id now : preserves inv (finalize_accepted_state id now).
Proof.
  destruct now as [now|]; cbn; [|eauto with ariadnion].
  unfold finalize_accepted_at. apply preserves_bind; [eauto with ariadnion|]. intros _.
  apply preserves_bind; [eauto with ariadnion|]. intros [u|e]; [eauto with ariadnion|].
  case_decide; eauto with ariadnion.
Qed.
Lemma preserves_retain_dispatched id now : preserves inv (retain_dispatched id now).
Proof.
  unfold retain_dispatched. apply preserves_bind; [eauto with ariadnion|]. intros _.
  apply preserves_bind; [eauto with ariadnion|]. intros [u|e]; [|case_decide; eauto with ariadnion].
  apply preserves_bind; [eauto with ariadnion|]. eauto with ariadnion.
Qed.
Lemma preserves_snapshot p now :
  policies !! policy_key p = Some p ->
  preserves inv (observe_and_expire now ;; prepare_window p now ;; query (fun s => Ok (snapshot_of s p now))).
Proof.
  intros Hp s Hs. destruct (observe_and_expire now s) as [s1 [u|e]] eqn:Hob.
  2: { rewrite (act_bind_stop _ _ _ _ _ Hob). pose proof (preserves_observe now s Hs) as H. by rewrite Hob in H. }
  rewrite (act_bind_run _ _ _ _ _ Hob).
  destruct (observe_inv policies now s Hs) as [Hs1 Hal]. rewrite Hob in Hs1, Hal. cbn in Hs1, Hal.
  destruct (prepare_window p now s1) as [s2 r2] eqn:Hpw.
  destruct (prepare_window_run policies Hpol p now s1 s2 r2 Hs1 (Hal u eq_refl) Hp Hpw) as (Hs2 & _).
  destruct r2; [by rewrite (act_bind_run _ _ _ _ _ Hpw)|by rewrite (act_bind_stop _ _ _ _ _ Hpw)].
Qed.

Lemma ctrl_serve_inv r s : inv s -> inv (serve policies r s).
Proof.
  intros Hs. destruct r as [request wf now|key now|id now|id now|id now|id now|id]; unfold serve.
  - unfold try_admit. destruct (resolve_policies policies request) as [ps|e] eqn:Hres;
      [rewrite act_lift_run|by rewrite act_lift_stop].
    rewrite locked_run. cbn [fst lock_data].
    destruct (resolve_policies_Ok policies Hpol request ps Hres wf) as (_ & Hps & Hnd).
    destruct (prepare_admission ps request now s) as [s' r] eqn:Hrun.
    by destruct (prepare_admission_outcome policies Hpol ps request now s s' r Hs Hps Hnd Hrun).
  - unfold snapshot. destruct (policies !! key) as [p|] eqn:Hp; [|done]. cbn [ok_or].
    rewrite act_lift_run, locked_run. cbn [fst lock_data]. apply preserves_snapshot; [|done].
    by destruct (Hpol _ _ Hp) as (-> & _).
  - unfold commit_rate_lease, ensure_open. cbn [al_closed reject_if]. rewrite act_lift_run, locked_run. cbn [fst lock_data].
    revert s Hs. change (preserves inv (observe_and_expire now ;; commit_rate id)). eauto with ariadnion.
  - rewrite locked_run. by apply preserves_finalize.
  - rewrite locked_run. by apply preserves_retain_dispatched.
  - unfold close_lease. rewrite locked_run. cbn [fst lock_data]. revert s Hs.
    match goal with |- forall s, _ -> inv (?m s).1 => change (preserves inv m) end. eauto 10 with ariadnion.
  - cbn. by apply remove_lease_inv.
Qed.

Lemma ctrl_initial_inv initial_now : inv (ControllerState_new initial_now).
Proof. split; cbn; try (intros ? ?; by rewrite lookup_empty). unfold u64_max. lia. Qed.
Lemma ctrl_reachable_inv s : reachable policies s -> inv s.
Proof.
  intros [initial_now Hr]. refine (rtc_invariant _ _ _ _ _ Hr (ctrl_initial_inv initial_now)).
  intros x y Hx [r <-]. by apply ctrl_serve_inv.
Qed.
End serving.

#[export] Instance admission_policy_publication_laws :
  PublicationLaws (Lock AdmissionPolicySnapshot) AdmissionPolicySet AdmissionPolicySnapshot AdmissionError.
Proof.
  split; cbn; [| |done].
  - intros b b' g c r [[_ [=]]|(s' & Hrun & -> & _)]%locked_inv. run_steps; tidy. cbn.
    match goal with H : version_next _ = Ok _ |- _ => apply next_generation_Ok in H as [-> _] end. by subst.
  - intros [p s] b' g c e [[-> _]|(s' & Hrun & -> & Hp)]%locked_inv; [done|].
    cbn in Hp. subst p. run_steps; done.
Qed.

Lemma shrinks_window_le s s' k w :
  shrinks s s' -> windows s !! k = Some w -> exists w', windows s' !! k = Some w' /\ window_le w w'.
Proof. intros Hsh. apply (sh_windows _ _ Hsh). Qed.

Lemma removing_run s id : removing id s = ((remove_lease id s).1, Ok (remove_lease id s).2).
Proof. unfold removing. by destruct (remove_lease id s). Qed.
Lemma remove_lease_present s id : (remove_lease id s).2 = bool_decide (is_Some (leases s !! id)).
Proof.
  destruct (leases s !! id) as [l|] eqn:Hl.
  - rewrite bool_decide_eq_true_2 by eauto. by apply (remove_lease_fields s id l).
  - rewrite remove_lease_None by done. by rewrite bool_decide_eq_false_2 by (intros [? [=]]).
Qed.

Section finalization.
  Context (policies : AdmissionPolicySet) (Hpol : policies_wf policies).
  Implicit Types (s : ControllerState).
  Notation inv := (ctrl_inv policies).

(** A committed lease is committed once. *)
Lemma commit_spec_lease s id l :
  leases s !! id = Some l ->
  exists l', leases (commit_spec id l s) !! id = Some l' /\ rate_committed l' = true /\
    lease_expires_at l' = lease_expires_at l /\ last_now (commit_spec id l s) = last_now s.
Proof.
  intros Hl. unfold commit_spec. destruct (rate_committed l) eqn:Hc; [by exists l|].
  cbn. rewrite lookup_insert_eq. by eexists.
Qed.
Lemma commit_rate_again s id l :
  leases s !! id = Some l -> rate_committed l = true -> commit_rate id s = (s, Ok tt).
Proof.
  intros Hl Hc. unfold commit_rate, pending_rate_commitment. rewrite act_get_run, Hl. cbn. by rewrite Hc.
Qed.

(** The three ways an accepted attempt is finalized. *)
Lemma finalize_run s id l now s' r :
  inv s -> leases s !! id = Some l -> finalize_accepted_state id (Some now) s = (s', r) ->
  shrinks (commit_spec id l s) s' /\
  (now < last_now s -> s' = commit_spec id l s /\ r = Ok ReconciliationRequired) /\
  (last_now s <= now -> leases s' !! id = None /\
     ((now < lease_expires_at l /\ r = Ok Completed) \/
      (lease_expires_at l <= now /\ r = Err (error LeaseExpired)))).
Proof.
  intros Hinv Hl Hrun. cbn in Hrun. unfold finalize_accepted_at in Hrun.
  rewrite (act_bind_run _ _ _ _ _ (commit_rate_run policies Hpol s id l Hinv Hl)) in Hrun.
  set (s1 := commit_spec id l s) in *.
  destruct (commit_spec_lease s id l Hl) as (l1 & Hl1 & Hc1 & He1 & Hn1). fold s1 in Hl1, Hn1.
  pose proof (commit_spec_inv policies s id l Hinv Hl) as Hinv1. fold s1 in Hinv1.
  destruct (N.le_gt_cases (last_now s) now) as [Hle|Hlt].
  - destruct (observe_run policies now s1 Hinv1 ltac:(lia)) as (s2 & Hob & Hinv2 & Hsh & _ & Hal & Hkeep).
    assert (attempt (observe_and_expire now) s1 = (s2, Ok (Ok tt))) as Hatt by (unfold attempt; by rewrite Hob).
    rewrite (act_bind_run _ _ _ _ _ Hatt) in Hrun. unfold complete_accepted in Hrun.
    split_and!; [|lia|intros _].
    + destruct (leases s2 !! id) as [l2|] eqn:Hl2.
      * pose proof (lookup_weaken _ _ _ _ Hl2 (sh_leases _ _ Hsh)) as Hw. rewrite Hl1 in Hw. injection Hw as ->.
        rewrite (act_bind_run _ _ _ _ _ (commit_rate_again s2 id l2 Hl2 Hc1)) in Hrun.
        rewrite (act_bind_run _ _ _ _ _ (removing_run s2 id)), remove_lease_present in Hrun.
        rewrite bool_decide_eq_true_2 in Hrun by eauto. cbn in Hrun. rewrite act_lift_run in Hrun.
        unfold mret, act_ret in Hrun. injection Hrun as <- <-.
        eapply shrinks_trans; [done|]. by apply (remove_lease_shrinks policies).
      * rewrite (act_bind_stop _ _ _ _ _ (commit_rate_missing s2 id Hl2)) in Hrun. by injection Hrun as <- <-.
    + destruct (N.le_gt_cases (lease_expires_at l) now) as [Hexp|Hlive].
      * assert (leases s2 !! id = None) as Hl2.
        { destruct (leases s2 !! id) as [l2|] eqn:Hl2; [|done].
          pose proof (lookup_weaken _ _ _ _ Hl2 (sh_leases _ _ Hsh)) as Hw. rewrite Hl1 in Hw. injection Hw as ->.
          specialize (Hal id l2 Hl2). lia. }
        rewrite (act_bind_stop _ _ _ _ _ (commit_rate_missing s2 id Hl2)) in Hrun. injection Hrun as <- <-.
        split; [done|]. by right.
      * assert (leases s2 !! id = Some l1) as Hl2 by (apply Hkeep; [done|lia]).
        rewrite (act_bind_run _ _ _ _ _ (commit_rate_again s2 id l1 Hl2 Hc1)) in Hrun.
        rewrite (act_bind_run _ _ _ _ _ (removing_run s2 id)), remove_lease_present in Hrun.
        rewrite bool_decide_eq_true_2 in Hrun by eauto. cbn in Hrun. rewrite act_lift_run in Hrun.
        unfold mret, act_ret in Hrun. injection Hrun as <- <-.
        rewrite remove_lease_leases, lookup_delete_eq. split; [done|]. by left.
  - assert (attempt (observe_and_expire now) s1 = (s1, Ok (Err (error ClockRegressed)))) as Hatt.
    { unfold attempt. rewrite observe_regressed by lia. done. }
    rewrite (act_bind_run _ _ _ _ _ Hatt) in Hrun. cbn [code error] in Hrun. rewrite decide_True in Hrun by done.
    unfold retain_accepted in Hrun.
    rewrite (act_bind_run _ _ _ _ _ (commit_rate_again s1 id l1 Hl1 Hc1)) in Hrun.
    unfold mret, act_ret in Hrun. injection Hrun as <- <-.
    split_and!; [apply shrinks_refl|done|lia].
Qed.

Lemma close_lease_run s id now :
  inv s ->
  exists s', shrinks s s' /\ inv s' /\
    ((now < last_now s /\ s' = s /\ close_lease id now (mk_lock false s) = (mk_lock false s, Err (error ClockRegressed))) \/
     (leases s' !! id = None /\
      (close_lease id now (mk_lock false s) = (mk_lock false s', Ok tt) \/
       close_lease id now (mk_lock false s) = (mk_lock false s', Err (error LeaseExpired))))).
Proof.
  intros Hinv. unfold close_lease. rewrite locked_run.
  destruct (N.le_gt_cases (last_now s) now) as [Hle|Hlt].
  - destruct (observe_run policies now s Hinv Hle) as (s1 & Hob & Hinv1 & Hsh & _).
    rewrite (act_bind_run _ _ _ _ _ Hob), (act_bind_run _ _ _ _ _ (removing_run s1 id)).
    exists (remove_lease id s1).1. split; [eapply shrinks_trans; [done|by apply (remove_lease_shrinks policies)]|].
    split; [by apply (remove_lease_inv policies)|]. right. rewrite remove_lease_leases, lookup_delete_eq. split; [done|].
    destruct (remove_lease id s1).2; [by left|by right].
  - rewrite (act_bind_stop _ _ _ _ _ (observe_regressed now s Hlt)).
    exists s. split; [apply shrinks_refl|]. split; [done|]. by left.
Qed.
(** Whatever the clock reading, a finalization charges every window of the lease. *)
Lemma finalize_charges s id l now s' r k w :
  inv s -> leases s !! id = Some l -> finalize_accepted_state id now s = (s', r) -> windows s !! k = Some w ->
  exists w', windows s' !! k = Some w' /\ ends_at w' = ends_at w /\ committed w' = committed w + pending_of k l.
Proof.
  intros Hinv Hl Hrun Hw. destruct (commit_spec_window policies s id l k w Hinv Hl Hw) as (w1 & Hw1 & He & Hc & _).
  destruct now as [now|].
  - destruct (finalize_run s id l now s' r Hinv Hl Hrun) as (Hsh & _).
    destruct (shrinks_window_le _ _ _ _ Hsh Hw1) as (w2 & Hw2 & He2 & Hc2 & _). exists w2. split_and!; [done|congruence..].
  - cbn in Hrun. unfold retain_accepted in Hrun.
    rewrite (act_bind_run _ _ _ _ _ (commit_rate_run policies Hpol s id l Hinv Hl)) in Hrun.
    injection Hrun as <- <-. eauto.
Qed.

(** What is kept for reconciliation: the lease with its charges committed. *)
Lemma commit_spec_kept s id l : leases s !! id = Some l -> leases (commit_spec id l s) !! id = Some (l <| rate_committed := true |>).
Proof using Type.
  intros Hl. unfold commit_spec. destruct (rate_committed l) eqn:Hc; [|by cbn; rewrite lookup_insert_eq].
  rewrite Hl. destruct l. cbn in *. by subst.
Qed.
Lemma finalize_timeless s id l :
  inv s -> leases s !! id = Some l -> finalize_accepted_state id None s = (commit_spec id l s, Ok ReconciliationRequired).
Proof using Hpol.
  intros Hinv Hl. cbn. unfold retain_accepted. by rewrite (act_bind_run _ _ _ _ _ (commit_rate_run policies Hpol s id l Hinv Hl)).
Qed.
Lemma finalize_missing s id now :
  leases s !! id = None -> finalize_accepted_state id now s = (s, Err (error LeaseExpired)).
Proof using Type.
  intros Hl. destruct now as [now|]; cbn; unfold finalize_accepted_at, retain_accepted; by rewrite (act_bind_stop _ _ _ _ _ (commit_rate_missing s id Hl)).
Qed.

Lemma finalize_completed s id now s' :
  inv s -> finalize_accepted_state id now s = (s', Ok Completed) -> leases s' !! id = None.
Proof.
  intros Hinv Hrun. destruct (leases s !! id) as [l|] eqn:Hl.
  - destruct now as [now|].
    + destruct (finalize_run s id l now s' _ Hinv Hl Hrun) as (_ & Hreg & Hdone).
      destruct (N.le_gt_cases (last_now s) now) as [Hle|Hlt]; [by destruct (Hdone Hle)|by destruct (Hreg Hlt)].
    + cbn in Hrun. unfold retain_accepted in Hrun.
      by rewrite (act_bind_run _ _ _ _ _ (commit_rate_run policies Hpol s id l Hinv Hl)) in Hrun.
  - destruct now as [now|]; cbn in Hrun; unfold finalize_accepted_at, retain_accepted in Hrun;
      by rewrite (act_bind_stop _ _ _ _ _ (commit_rate_missing s id Hl)) in Hrun.
Qed.

(** A retained dispatch is charged, and keeps its slots until it expires. *)
Lemma retain_run s id l now s' r :
  inv s -> leases s !! id = Some l -> retain_dispatched id now s = (s', r) ->
  shrinks (commit_spec id l s) s' /\
  (now < lease_expires_at l -> leases s' !! id = leases (commit_spec id l s) !! id /\ r = Ok tt).
Proof.
  intros Hinv Hl Hrun. unfold retain_dispatched in Hrun.
  rewrite (act_bind_run _ _ _ _ _ (commit_rate_run policies Hpol s id l Hinv Hl)) in Hrun.
  set (s1 := commit_spec id l s) in *.
  destruct (commit_spec_lease s id l Hl) as (l1 & Hl1 & Hc1 & He1 & Hn1). fold s1 in Hl1, Hn1.
  pose proof (commit_spec_inv policies s id l Hinv Hl) as Hinv1. fold s1 in Hinv1.
  destruct (N.le_gt_cases (last_now s) now) as [Hle|Hlt].
  - destruct (observe_run policies now s1 Hinv1 ltac:(lia)) as (s2 & Hob & Hinv2 & Hsh & _ & Hal & Hkeep).
    assert (attempt (observe_and_expire now) s1 = (s2, Ok (Ok tt))) as Hatt by (unfold attempt; by rewrite Hob).
    rewrite (act_bind_run _ _ _ _ _ Hatt), act_get_run in Hrun. unfold pending_rate_commitment in Hrun.
    destruct (leases s2 !! id) as [l2|] eqn:Hl2; cbn [ok_or mbind result_bind] in Hrun.
    + unfold mret, result_ret, act_ret in Hrun. rewrite act_lift_run in Hrun. injection Hrun as <- <-. split; [done|]. intros _. split; [|done].
      rewrite Hl2. symmetry. apply (lookup_weaken _ _ _ _ Hl2 (sh_leases _ _ Hsh)).
    + rewrite act_lift_stop in Hrun. injection Hrun as <- <-. split; [done|]. intros Hlive.
      rewrite (Hkeep id l1 Hl1) in Hl2; [done|lia].
  - assert (attempt (observe_and_expire now) s1 = (s1, Ok (Err (error ClockRegressed)))) as Hatt.
    { unfold attempt. rewrite observe_regressed by lia. done. }
    rewrite (act_bind_run _ _ _ _ _ Hatt) in Hrun. cbn [code error] in Hrun. rewrite decide_True in Hrun by done.
    injection Hrun as <- <-. split; [apply shrinks_refl|done].
Qed.

(** Ending an open lease frees it, whatever the clock reading. *)
Lemma release_frees a now s :
  inv s -> al_closed a = false ->
  exists s' r, release a now (mk_lock false s) = (mk_lock false s', r) /\
    leases s' !! al_id a = None /\ shrinks s s' /\ inv s'.
Proof.
  intros Hinv Hopen. unfold release, close, ensure_open. rewrite Hopen. cbn [reject_if].
  destruct (close_lease_run s (al_id a) now Hinv)
    as (s' & Hsh & Hinv' & [(_ & -> & Hc)|(Hnone & [Hc|Hc])]); rewrite Hc; unfold drop; cbn [code error].
  - rewrite bool_decide_eq_false_2, Hopen by done. do 2 eexists. split; [done|].
    split_and!; [by rewrite remove_lease_leases, lookup_delete_eq|by apply (remove_lease_shrinks policies)|].
    by apply (remove_lease_inv policies).
  - by do 2 eexists.
  - rewrite bool_decide_eq_true_2 by done. by do 2 eexists.
Qed.
Lemma drop_frees a s :
  inv s -> al_closed a = false ->
  exists s', drop a (mk_lock false s) = mk_lock false s' /\ leases s' !! al_id a = None /\ shrinks s s' /\ inv s'.
Proof.
  intros Hinv Hopen. unfold drop. rewrite Hopen. eexists. split; [done|].
  split_and!; [by rewrite remove_lease_leases, lookup_delete_eq|by apply (remove_lease_shrinks policies)|].
  by apply (remove_lease_inv policies).
Qed.

(** What a cancellation leaves: every lease but its own, apart from the expired ones when the
    clock has not regressed; it reports an error when it did, or when its lease was gone. *)
Lemma cancel_exact a now s :
  inv s -> al_closed a = false ->
  exists s' r, cancel a now (mk_lock false s) = (mk_lock false s', r) /\ inv s' /\ shrinks s s' /\
    leases s' = delete (al_id a) (if last_now s <=? now then live_leases now s else leases s) /\
    is_ok r = (last_now s <=? now) && bool_decide (is_Some (live_leases now s !! al_id a)).
Proof using Type.
  intros Hinv Hopen. unfold cancel, close, ensure_open. rewrite Hopen. cbn [reject_if].
  unfold close_lease. rewrite locked_run. destruct (N.leb_spec (last_now s) now) as [Hle|Hlt].
  - destruct (observe_run policies now s Hinv Hle) as (s1 & Hob & Hinv1 & Hsh & _ & Hal & Hkeep).
    assert (leases s1 = live_leases now s) as Hls by (apply live_leases_spec; [apply Hsh|done|done]).
    rewrite (act_bind_run _ _ _ _ _ Hob), (act_bind_run _ _ _ _ _ (removing_run s1 (al_id a))).
    rewrite remove_lease_present, Hls.
    assert (inv (remove_lease (al_id a) s1).1 /\ shrinks s (remove_lease (al_id a) s1).1 /\
      leases (remove_lease (al_id a) s1).1 = delete (al_id a) (live_leases now s)) as (H1 & H2 & H3).
    { split_and!; [by apply (remove_lease_inv policies)|eapply shrinks_trans; [done|by apply (remove_lease_shrinks policies)]|by rewrite remove_lease_leases, Hls]. }
    case_bool_decide; cbn; do 2 eexists; (split; [done|]); by rewrite ?andb_true_r.
  - rewrite (act_bind_stop _ _ _ _ _ (observe_regressed now s Hlt)). unfold drop. cbn [code error fst snd].
    rewrite bool_decide_eq_false_2, Hopen by done. do 2 eexists. split; [done|]. cbn.
    split_and!; [by apply (remove_lease_inv policies)|by apply (remove_lease_shrinks policies)|by rewrite remove_lease_leases|done].
Qed.
End finalization.

(** ** Properties *)

Lemma sample_policies_wf : policies_wf sample_policies.
Proof.
  intros k p. unfold sample_policies. intros [[<- <-]|[_ [[<- <-]|[_ Hn]]%lookup_insert_Some]]%lookup_insert_Some;
    [| |by change ((∅ : gmap LimitKey LimitPolicy) !! k = Some p) in Hn; rewrite lookup_empty in Hn]; (split; [done|]); split; cbn; intros rule [= <-];
    repeat split; vm_compute; congruence.
Qed.
Lemma sample_request_wf n : 1 <= n <= u32_max -> request_wf (sample_request n).
Proof. intros Hn. split; [vm_compute; reflexivity|done]. Qed.
Lemma ctrl_sample_reachable : reachable sample_policies sample_admitted.
Proof.
  exists 0. apply rtc_once. exists (AdmitRequest (sample_request 3) (sample_request_wf 3 ltac:(vm_compute; split; discriminate)) 1000).
  done.
Qed.

(** C11: in every reachable controller state each window's pending
    units and each key's slots are the totals of the leases that hold them, no
    rate capacity and no concurrency limit is exceeded, and a lease never outlives
    a window it charges. *)
Theorem controller_sound policies s :
  policies_wf policies -> reachable policies s -> ctrl_inv policies s.
Proof. intros Hpol. by apply ctrl_reachable_inv. Qed.
Lemma controller_sound_witness : ctrl_inv sample_policies sample_admitted.
Proof. apply controller_sound; [apply sample_policies_wf | apply ctrl_sample_reachable]. Defined.

(** C7: admission is all or nothing.  An admitted request charges every one of its dimensions
    through one new lease, beside the leases still live, with an expiry in the future and
    within every window it charges: its units are pending in the window of each of its rate
    dimensions and it holds one slot of each of its concurrency dimensions, on top of what
    the live leases charge and hold; every window of its dimensions is the one that has not
    ended or a new one, with what it had committed, and no other window changes its end or
    what it has committed.  A
    refused one takes nothing: nothing at all changed when the clock regressed, and otherwise
    expired leases are gone, windows that ended may have been rolled over, and exactly the
    charges of the live leases are left; the reported code names a reason that holds. *)
Theorem admission_all_or_nothing policies request now s l' r :
  policies_wf policies -> reachable policies s -> request_wf request ->
  try_admit policies request now (mk_lock false s) = (l', r) ->
  match resolve_policies policies request, r with
  | Err e, _ => l' = mk_lock false s /\ r = Err e
  | Ok ps, Err e =>
      (code e = ClockRegressed /\ now < last_now s /\ l' = mk_lock false s) \/
      (last_now s <= now /\ leases (lock_data l') = live_leases now s /\
       refusal ps (units request) (lock_data l') e /\
       charged now s [] [] 0 (lock_data l') /\ windows_rolled now ps false s (lock_data l'))
  | Ok ps, Ok a =>
      last_now s <= now < al_expires_at a /\ leases s !! al_id a = None /\
      leases (lock_data l') = <[al_id a := mk_ActiveLease (rate_keys ps) (concurrency_keys ps)
        (units request) (al_expires_at a) false]> (live_leases now s) /\
      (forall k, k ∈ rate_keys ps -> exists w, windows (lock_data l') !! k = Some w /\ al_expires_at a <= ends_at w) /\
      charged now s (rate_keys ps) (concurrency_keys ps) (units request) (lock_data l') /\
      windows_rolled now ps true s (lock_data l')
  end.
Proof.
  intros Hpol Hr%(ctrl_reachable_inv policies Hpol) Hwf Hrun.
  destruct (try_admit_outcome policies Hpol request now s l' r Hr Hwf Hrun) as (_ & Hinv & Hout).
  destruct (resolve_policies policies request) as [ps|e]; [|done]. destruct r as [a|e].
  - destruct Hout as (_ & ? & _ & Hnew & ? & Hls & ? & ?). do 4 (split; [done|]). split; [|done].
    by apply (charged_admitted policies _ _ _ (al_id a) _ _ _ (al_expires_at a)).
  - destruct Hout as [(? & ? & ->)|(? & _ & ? & ? & ?)]; [by left|right]. do 3 (split; [done|]). split; [|done]. by apply (charged_refused policies).
Qed.
(** Two units beside the three of a live lease; and a refusal. *)
Lemma admission_all_or_nothing_witness :
  let admitted := (try_admit sample_policies (sample_request 2) 2000 (mk_lock false sample_admitted)).1.(lock_data) in
  (pending <$> windows admitted !! sample_tenant) = Some 5 /\ concurrency admitted !! sample_account = Some 2 /\
  charged 2000 sample_admitted [sample_tenant; sample_account] [sample_account] 2 admitted /\
  leases (lock_data (try_admit sample_policies (sample_request 3) 2000 (mk_lock false sample_admitted)).1)
    = live_leases 2000 sample_admitted.
Proof.
  intros admitted. split; [vm_compute; reflexivity|]. split; [vm_compute; reflexivity|]. split.
  - assert (exists a, (try_admit sample_policies (sample_request 2) 2000 (mk_lock false sample_admitted)).2 = Ok a) as [a Ha]
      by (eexists; vm_compute; reflexivity).
    pose proof (admission_all_or_nothing sample_policies (sample_request 2) 2000 sample_admitted
      (try_admit sample_policies (sample_request 2) 2000 (mk_lock false sample_admitted)).1 (Ok a) sample_policies_wf ctrl_sample_reachable
      (sample_request_wf 2 ltac:(vm_compute; split; discriminate)) ltac:(rewrite <- Ha; apply surjective_pairing)) as H.
    assert (exists ps, resolve_policies sample_policies (sample_request 2) = Ok ps /\ rate_keys ps = [sample_tenant; sample_account] /\
      concurrency_keys ps = [sample_account]) as (ps & Hps & Hrk & Hck) by (eexists; split; [vm_compute; reflexivity|]; split; reflexivity).
    rewrite Hps, Hrk, Hck in H. exact (proj1 (proj2 (proj2 (proj2 (proj2 H))))).
  - destruct (admission_all_or_nothing sample_policies (sample_request 3) 2000 sample_admitted
      (try_admit sample_policies (sample_request 3) 2000 (mk_lock false sample_admitted)).1
      (Err (with_scope RateLimited (Some 999999000) AccountRefusal)) sample_policies_wf ctrl_sample_reachable
      (sample_request_wf 3 ltac:(vm_compute; split; discriminate)) ltac:(vm_compute; reflexivity))
      as [(H & _)|(_ & H & _)]; [vm_compute in H; discriminate H | exact H].
Defined.

(** Releasing an open lease always ends it, whatever clock reading
    the caller presents: when the reading has regressed the call reports it, but
    dropping the handle still frees the slots.  Ending leases never changes what a
    window has committed, and only lowers what it has pending. *)
Theorem release_frees_lease policies a now s l' r :
  policies_wf policies -> reachable policies s -> al_closed a = false ->
  release a now (mk_lock false s) = (l', r) ->
  lock_poisoned l' = false /\ leases (lock_data l') !! al_id a = None /\ shrinks s (lock_data l').
Proof.
  intros Hpol Hinv%(ctrl_reachable_inv policies Hpol) Hopen Hrun.
  destruct (release_frees policies a now s Hinv Hopen) as (s' & r' & Hrel & Hnone & Hsh & _).
  rewrite Hrel in Hrun. by injection Hrun as <- <-.
Qed.
Lemma release_frees_lease_witness :
  leases (lock_data (release sample_lease 5 (mk_lock false sample_admitted)).1) !! 2 = None.
Proof.
  refine (proj1 (proj2 (release_frees_lease sample_policies sample_lease 5 sample_admitted _
    (Err (error ClockRegressed)) sample_policies_wf ctrl_sample_reachable eq_refl _))).
  vm_compute. reflexivity.
Defined.

(** Accepted work is always charged.  Finalizing a lease that the
    controller still holds commits its pending units in every window exactly once
    (also when the clock reading has regressed or the lease is past its expiry),
    and then either ends the lease or, on a regressed clock, keeps it for
    reconciliation. *)
Theorem accepted_work_is_charged policies id l now s s' r :
  policies_wf policies -> reachable policies s -> leases s !! id = Some l ->
  finalize_accepted_state id (Some now) s = (s', r) ->
  (forall k w, windows s !! k = Some w -> exists w', windows s' !! k = Some w' /\
     ends_at w' = ends_at w /\ committed w' = committed w + pending_of k l) /\
  (now < last_now s -> is_Some (leases s' !! id) /\ r = Ok ReconciliationRequired) /\
  (last_now s <= now -> leases s' !! id = None /\
     r = if now <? lease_expires_at l then Ok Completed else Err (error LeaseExpired)).
Proof.
  intros Hpol Hinv%(ctrl_reachable_inv policies Hpol) Hl Hrun.
  destruct (finalize_run policies Hpol s id l now s' r Hinv Hl Hrun) as (_ & Hreg & Hdone).
  split_and!.
  - intros k w Hw. by eapply (finalize_charges policies Hpol).
  - intros [-> ->]%Hreg. destruct (commit_spec_lease s id l Hl) as (l' & -> & _). eauto.
  - intros [Hn Hcase]%Hdone. split; [done|].
    destruct (N.ltb_spec now (lease_expires_at l)); destruct Hcase as [[? ->]|[? ->]]; try done; lia.
Qed.
Lemma accepted_work_is_charged_witness :
  exists w', windows (finalize_accepted_state 2 (Some 5) sample_admitted).1 !! sample_tenant = Some w' /\
    ends_at w' = 1000001000 /\ committed w' = 0 + 3.
Proof.
  refine (proj1 (accepted_work_is_charged sample_policies 2
    (mk_ActiveLease [sample_tenant; sample_account] [sample_account] 3 100001000 false) 5 sample_admitted
    (finalize_accepted_state 2 (Some 5) sample_admitted).1 (Ok ReconciliationRequired)
    sample_policies_wf ctrl_sample_reachable _ _) sample_tenant (mk_RateWindowState 1000001000 0 3) _);
    vm_compute; reflexivity.
Defined.

(** Each version of the admission policies is published at most
    once, by a caller who presented it, and the version counts the publications. *)
Theorem policy_publish_single_winner (b b' : Lock AdmissionPolicySnapshot) h :
  history b h b' ->
  NoDup (winners h) /\ version (lock_data b') = version (lock_data b) + len (winners h).
Proof.
  intros H. split; [by eapply history_winners|].
  by apply (history_counts (pub := admission_policy_publication) b h b').
Qed.
Lemma policy_publish_single_winner_witness :
  NoDup (winners [(0, true)]) /\ 1 = 0 + len (winners [(0, true)]).
Proof.
  refine (policy_publish_single_winner (AdmissionPolicyBook_new ∅)
    (mk_lock false (mk_AdmissionPolicySnapshot 1 sample_policies)) _ _).
  refine (history_publish _ 0 sample_policies _ (Ok (mk_AdmissionPolicySnapshot 1 sample_policies)) _ _ _ (history_nil _)).
  reflexivity.
Defined.
