(* ===== verification/RoutingAdmission.v ===== *)
(** * Coupled admission: rate, concurrency and budget together

    Models [crates/optional/ariadnion-routing-admission/src/lib.rs]: the coordinator
    that takes a rate lease from the controller of [RateLimit], then a reservation
    from the ledger of [AccountBudget], and the lease that ends both.

    The two stores have a lock each, so other threads may act between two calls of
    a coordinator.  [interfere k] is what they do at the [k]-th such point; the
    theorems hold for every behaviour of theirs that goes through the stores' own
    operations. *)

From S2P Require Import Prelude CoreTypes AccountBudget RateLimit.
#[local] Open Scope N_scope.

Inductive RoutingAdmissionErrorCode :=
| InvalidArgument | RateLimited | ConcurrencyLimited | BudgetRejected | TenantMismatch
| StateUnavailable | ClockRegressed | LeaseExpired | LeaseClosed | CommitIncomplete | RollbackFailed.
#[export] Instance RoutingAdmissionErrorCode_eq_dec : EqDecision RoutingAdmissionErrorCode.
Proof. solve_decision. Defined.
Definition as_tail_str (code : RoutingAdmissionErrorCode) : string :=
  match code with
  | ClockRegressed => "ROUTING_ADMISSION_CLOCK_REGRESSED"
  | LeaseExpired => "ROUTING_ADMISSION_LEASE_EXPIRED"
  | LeaseClosed => "ROUTING_ADMISSION_LEASE_CLOSED"
  | CommitIncomplete => "ROUTING_ADMISSION_COMMIT_INCOMPLETE"
  | RollbackFailed => "ROUTING_ADMISSION_ROLLBACK_FAILED"
  | _ => "ROUTING_ADMISSION_INVALID_ARGUMENT"
  end.
Definition as_str (code : RoutingAdmissionErrorCode) : string :=
  match code with
  | InvalidArgument => "ROUTING_ADMISSION_INVALID_ARGUMENT"
  | RateLimited => "ROUTING_ADMISSION_RATE_LIMITED"
  | ConcurrencyLimited => "ROUTING_ADMISSION_CONCURRENCY_LIMITED"
  | BudgetRejected => "ROUTING_ADMISSION_BUDGET_REJECTED"
  | TenantMismatch => "ROUTING_ADMISSION_TENANT_MISMATCH"
  | StateUnavailable => "ROUTING_ADMISSION_STATE_UNAVAILABLE"
  | other => as_tail_str other
  end.

Record RoutingAdmissionError := mk_RoutingAdmissionError {
  ra_code : RoutingAdmissionErrorCode;
  ra_retry_after : option N;
  ra_refusal_scope : option AdmissionRefusalScope;
}.
Definition error (code : RoutingAdmissionErrorCode) : RoutingAdmissionError :=
  mk_RoutingAdmissionError code None None.
Definition with_scope (code : RoutingAdmissionErrorCode) (retry_after : option N)
    (scope : AdmissionRefusalScope) : RoutingAdmissionError :=
  mk_RoutingAdmissionError code retry_after (Some scope).

Definition rate_error_code (code : AdmissionErrorCode) : RoutingAdmissionErrorCode :=
  match code with
  | RateLimit.RateLimited => RateLimited
  | RateLimit.ConcurrencyLimited => ConcurrencyLimited
  | RateLimit.ClockRegressed => ClockRegressed
  | RateLimit.LeaseExpired => LeaseExpired
  | RateLimit.LeaseClosed => LeaseClosed
  | RateLimit.StateUnavailable => StateUnavailable
  | _ => InvalidArgument
  end.
Definition map_rate_error (e : AdmissionError) : RoutingAdmissionError :=
  mk_RoutingAdmissionError (rate_error_code (RateLimit.code e)) (RateLimit.retry_after e)
    (Some (default RequestRefusal (RateLimit.error_scope e))).
Definition map_budget_scope (scope : option BudgetRefusalScope) : AdmissionRefusalScope :=
  match scope with Some RefusalAccount => AccountRefusal | _ => RequestRefusal end.
Definition map_budget_error (e : BudgetError) : RoutingAdmissionError :=
  if decide (AccountBudget.code e = AccountBudget.StateUnavailable)
  then with_scope StateUnavailable None RequestRefusal
  else with_scope BudgetRejected None (map_budget_scope (AccountBudget.refusal_scope e)).
Definition map_budget_lifecycle_error (e : BudgetError) : RoutingAdmissionError :=
  match AccountBudget.code e with
  | AccountBudget.StateUnavailable => error StateUnavailable
  | ReservationFinalized | ReservationNotFound => error LeaseClosed
  | _ => error CommitIncomplete
  end.

Record RoutingAdmissionRequest := mk_RoutingAdmissionRequest {
  ra_rate_request : AdmissionRequest;
  ra_budget_request : ReservationRequest;
  ra_monotonic_now : N;
  ra_budget_now : N;
}.

(** [validate_tenant_binding]. *)
Definition key_tenant (key : LimitKey) : option string :=
  match key with
  | KeyTenant t => Some (id_str t)
  | KeyAccount account => Some (id_str (alk_tenant account))
  | _ => None
  end.
Definition validate_account_binding (key : LimitKey) (request : RoutingAdmissionRequest)
    : result RoutingAdmissionError unit :=
  match key with
  | KeyAccount account =>
      reject_if (negb (String.eqb (id_str (alk_account account))
                  (id_str (ctx_account_id (AccountBudget.context (ra_budget_request request))))))
        (error InvalidArgument)
  | _ => Ok tt
  end.
Definition validate_tenant_binding (request : RoutingAdmissionRequest) : result RoutingAdmissionError unit :=
  let budget_tenant := id_str (ctx_tenant_id (AccountBudget.context (ra_budget_request request))) in
  collect (fun key =>
    reject_if (is_some_and (fun tenant => negb (String.eqb tenant budget_tenant)) (key_tenant key))
      (error TenantMismatch) ;;
    validate_account_binding key request) (keys (ra_rate_request request)) ;;
  mret tt.

(** ** The stores and the lease *)

Record World := mk_World {
  rate_store : Lock ControllerState;
  budget_store : Lock BudgetState;
}.
#[export] Instance World_eta : Eta World := fun w => mk_World (rate_store w) (budget_store w).

Inductive RoutingAdmissionLeaseState := Pending | Committed | ReconciliationRequired.
Record RoutingAdmissionLease := mk_RoutingAdmissionLease {
  ra_rate : option AdmissionLease;
  ra_reservation_id : ReservationId;
  ra_budget_receipt : ReservationReceipt;
  ra_budget_finalized : bool;
  ra_budget_retained : bool;
  ra_closed : bool;
  ra_state : RoutingAdmissionLeaseState;
}.
#[export] Instance RoutingAdmissionLease_eta : Eta RoutingAdmissionLease := fun l =>
  mk_RoutingAdmissionLease (ra_rate l) (ra_reservation_id l) (ra_budget_receipt l)
    (ra_budget_finalized l) (ra_budget_retained l) (ra_closed l) (ra_state l).

(** A method on a lease runs on the stores and on the handle. *)
Record Handle := mk_Handle { world : World; handle : RoutingAdmissionLease }.
#[export] Instance Handle_eta : Eta Handle := fun h => mk_Handle (world h) (handle h).
Notation handle_act := (act Handle RoutingAdmissionError).

(** Calls into one store; [calling] keeps the result as a value. *)
Definition on_rate {E A} (m : act (Lock ControllerState) E A) : act World E A := fun w =>
  let '(l, r) := m (rate_store w) in (w <| rate_store := l |>, r).
Definition on_budget {E A} (m : act (Lock BudgetState) E A) : act World E A := fun w =>
  let '(l, r) := m (budget_store w) in (w <| budget_store := l |>, r).
Definition map_err {S E F A} (f : E -> F) (m : act S E A) : act S F A := fun s =>
  let '(s', r) := m s in (s', match r with Ok a => Ok a | Err e => Err (f e) end).
Definition calling {S E F A} (m : act S E A) : act S F (result E A) := fun s =>
  let '(s', r) := m s in (s', Ok r).
Definition on_world {E A} (m : act World E A) : act Handle E A := fun h =>
  let '(w, r) := m (world h) in (h <| world := w |>, r).

Section coordinator.
  (** The policies of the controller, and the behaviour of the other threads. *)
  Variable policies : AdmissionPolicySet.
  Variable interfere : nat -> World -> World.

(** The [k]-th point at which no lock is held. *)
Definition elsewhere {E} (k : nat) : act World E unit := modify (interfere k).

Definition coordinator_admit (request : RoutingAdmissionRequest) : act World RoutingAdmissionError RoutingAdmissionLease :=
  lift (validate_tenant_binding request) ;;
  rate_lease ← on_rate (map_err map_rate_error
    (try_admit policies (ra_rate_request request) (ra_monotonic_now request)));
  elsewhere 0 ;;
  reserved ← calling (on_budget (reserve_fresh (ra_budget_request request) (ra_budget_now request)));
  match reserved with
  | Ok receipt =>
      mret (mk_RoutingAdmissionLease (Some rate_lease) (receipt_id receipt) receipt false false false Pending)
  | Err budget_error =>
      elsewhere 1 ;;
      rollback ← calling (on_rate (RateLimit.cancel rate_lease (ra_monotonic_now request)));
      if is_ok rollback then fail (map_budget_error budget_error) else fail (error RollbackFailed)
  end.

(** *** The lease's methods *)

Definition ensure_open : handle_act unit :=
  h ← get; lift (reject_if (ra_closed (handle h)) (error LeaseClosed)).

Definition commit_budget : handle_act unit :=
  h ← get;
  receipt ← on_world (on_budget (map_err map_budget_lifecycle_error
    (AccountBudget.commit (ra_reservation_id (handle h)))));
  modify (fun h => h <| handle := (handle h) <| ra_budget_receipt := receipt |> <| ra_budget_finalized := true |> |>).

(** [self.rate.take()]. *)
Definition take_rate : handle_act (option AdmissionLease) :=
  h ← get;
  modify (fun h => h <| handle := (handle h) <| ra_rate := None |> |>) ;;
  mret (ra_rate (handle h)).
Definition set_state (state : RoutingAdmissionLeaseState) : handle_act unit :=
  modify (fun h => h <| handle := (handle h) <| ra_state := state |> |>).
Definition set_closed : handle_act unit :=
  modify (fun h => h <| handle := (handle h) <| ra_closed := true |> |>).
Definition mark_reconciliation_required : handle_act unit :=
  set_state ReconciliationRequired ;; set_closed.
Definition commit_incomplete : handle_act unit :=
  mark_reconciliation_required ;; fail (error CommitIncomplete).

Definition commit_rate_and_release (now : N) : handle_act unit :=
  taken ← take_rate;
  match taken with
  | None => commit_incomplete
  | Some rate =>
      on_world (elsewhere 0) ;;
      outcome ← calling (on_world (on_rate (RateLimit.finalize_accepted rate (Some now))));
      match outcome with
      | Ok Completed => mret tt
      | _ => commit_incomplete
      end
  end.
(** [RoutingAdmissionLease::commit]: the handle stays with the caller. *)
Definition commit (now : N) : handle_act unit :=
  ensure_open ;;
  commit_budget ;;
  commit_rate_and_release now ;;
  set_state Committed ;;
  set_closed.

Definition finalize_accepted_rate (now : option N) : handle_act AcceptedFinalization :=
  taken ← take_rate;
  match taken with
  | None => fail (error LeaseClosed)
  | Some rate =>
      on_world (elsewhere 0) ;;
      on_world (on_rate (map_err map_rate_error (RateLimit.finalize_accepted rate now)))
  end.
Definition finish_accepted (budget : result RoutingAdmissionError unit)
    (rate : result RoutingAdmissionError AcceptedFinalization) : handle_act unit :=
  modify (fun h => h <| handle := (handle h) <| ra_budget_retained := negb (is_ok budget) |> |>) ;;
  set_closed ;;
  match budget, rate with
  | Ok _, Ok Completed => set_state Committed
  | _, _ => set_state ReconciliationRequired ;; fail (error CommitIncomplete)
  end.
Definition finalize_accepted_body (now : option N) : handle_act unit :=
  ensure_open ;;
  budget ← attempt commit_budget;
  rate ← attempt (finalize_accepted_rate (if is_ok budget then now else None));
  finish_accepted budget rate.

Definition commit_rate_and_retain_concurrency (now : N) : handle_act unit :=
  taken ← take_rate;
  match taken with
  | None => fail (error LeaseClosed)
  | Some rate =>
      on_world (elsewhere 0) ;;
      on_world (on_rate (map_err map_rate_error (RateLimit.commit_rate_and_retain_concurrency rate now)))
  end.
Definition commit_dispatch_unknown_body (now : N) : handle_act unit :=
  ensure_open ;;
  budget ← attempt commit_budget;
  rate ← attempt (commit_rate_and_retain_concurrency now);
  (if is_ok budget then mret tt
   else modify (fun h => h <| handle := (handle h) <| ra_budget_retained := true |> |>)) ;;
  set_closed ;;
  if is_ok budget && is_ok rate then mret tt
  else set_state ReconciliationRequired ;; fail (error CommitIncomplete).

Definition release_body (now : N) : handle_act unit :=
  ensure_open ;;
  h ← get;
  receipt ← on_world (on_budget (map_err map_budget_lifecycle_error
    (AccountBudget.release (ra_reservation_id (handle h)))));
  modify (fun h => h <| handle := (handle h) <| ra_budget_receipt := receipt |> <| ra_budget_finalized := true |> |>) ;;
  taken ← take_rate;
  match taken with
  | None => fail (error LeaseClosed)
  | Some rate =>
      on_world (elsewhere 0) ;;
      on_world (on_rate (map_err map_rate_error (RateLimit.release rate now))) ;;
      set_closed
  end.

(** [Drop::drop], then the drop of the rate lease the handle still owns. *)
Definition drop_lease (h : Handle) : World :=
  let l := handle h in
  let w := if negb (ra_budget_finalized l) && negb (ra_budget_retained l)
           then (on_budget (AccountBudget.release (ra_reservation_id l)) (interfere 2 (world h))).1
           else world h in
  match ra_rate l with
  | Some rate =>
      let w := interfere 3 w in
      w <| rate_store := RateLimit.drop rate (rate_store w) |>
  | None => w
  end.
(** The methods that take [self]: the handle is dropped when they return. *)
Definition consuming (body : handle_act unit) (l : RoutingAdmissionLease) (w : World)
    : World * result RoutingAdmissionError unit :=
  let '(h, r) := body (mk_Handle w l) in (drop_lease h, r).
Definition finalize_accepted (now : option N) := consuming (finalize_accepted_body now).
Definition commit_dispatch_unknown (now : N) := consuming (commit_dispatch_unknown_body now).
Definition release (now : N) := consuming (release_body now).
Definition cancel (now : N) := release now.
End coordinator.

(** ** Specification *)

Definition controller (w : World) : ControllerState := lock_data (rate_store w).
Definition ledger (w : World) : BudgetState := lock_data (budget_store w).

(** Both locks healthy, both stores in a state their components guarantee. *)
Record world_inv (policies : AdmissionPolicySet) (w : World) : Prop := {
  wi_rate_healthy : lock_poisoned (rate_store w) = false;
  wi_budget_healthy : lock_poisoned (budget_store w) = false;
  wi_controller : ctrl_inv policies (controller w);
  wi_ledger : ledger_inv (ledger w);
}.
(** Other threads run any sequence of the stores' operations. *)
Record others (policies : AdmissionPolicySet) (w w' : World) : Prop := {
  ot_rate_lock : lock_poisoned (rate_store w') = lock_poisoned (rate_store w);
  ot_budget_lock : lock_poisoned (budget_store w') = lock_poisoned (budget_store w);
  ot_controller : rtc (ctrl_step policies) (controller w) (controller w');
  ot_ledger : rtc ledger_step (ledger w) (ledger w');
}.

(** A lease that owns its rate lease and has not been finalized. *)
Record lease_open (l : RoutingAdmissionLease) (rate : AdmissionLease) : Prop := {
  lo_rate : ra_rate l = Some rate;
  lo_rate_open : al_closed rate = false;
  lo_finalized : ra_budget_finalized l = false;
  lo_retained : ra_budget_retained l = false;
  lo_closed : ra_closed l = false;
}.
(** What a settling call makes of a record: a reserved one is settled, a settled one stays. *)
Definition settled_as (target : ReservationState) (r : ReservationRecord) : ReservationRecord :=
  if decide (record_state r = Reserved) then r <| record_state := target |> else r.
(** Did the rate component complete? *)
Definition completed (rate : result RoutingAdmissionError AcceptedFinalization) : bool :=
  match rate with Ok Completed => true | _ => false end.

(** A sample world: the sample controller and ledger, alone and with one request admitted. *)
Definition quiet (k : nat) (w : World) : World := w.
Definition sample_world : World :=
  mk_World (mk_lock false (ControllerState_new 0)) (mk_lock false AccountBudget.sample_book).
Definition sample_coupled (amount : N) : RoutingAdmissionRequest :=
  mk_RoutingAdmissionRequest (RateLimit.sample_request 3) (AccountBudget.sample_request "r1" amount 10) 1000 0.
Definition sample_record : ReservationRecord :=
  mk_ReservationRecord (AccountBudget.sample_request "r1" 60 10) Reserved [MkId "account"; MkId "tenant"] [MkId "tenant"].
Definition sample_held : World :=
  mk_World (mk_lock false sample_admitted)
    (mk_lock false (AccountBudget.serve_all
      [AccountBudget.ReserveFreshRequest (AccountBudget.sample_request "r1" 60 10) 0] AccountBudget.sample_book)).
Definition sample_coupled_lease : RoutingAdmissionLease :=
  mk_RoutingAdmissionLease (Some sample_lease) (MkId "r1") (receipt sample_record) false false false Pending.

(** ** Lemmas *)

Lemma on_rate_run {E A} (m : act (Lock ControllerState) E A) w l r :
  m (rate_store w) = (l, r) -> on_rate m w = (w <| rate_store := l |>, r).
Proof. unfold on_rate. by intros ->. Qed.
Lemma on_budget_run {E A} (m : act (Lock BudgetState) E A) w l r :
  m (budget_store w) = (l, r) -> on_budget m w = (w <| budget_store := l |>, r).
Proof. unfold on_budget. by intros ->. Qed.
Lemma on_world_run {E A} (m : act World E A) h w r :
  m (world h) = (w, r) -> on_world m h = (h <| world := w |>, r).
Proof. unfold on_world. by intros ->. Qed.
Lemma map_err_run {S E F A} (f : E -> F) (m : act S E A) s s' r :
  m s = (s', r) -> map_err f m s = (s', match r with Ok a => Ok a | Err e => Err (f e) end).
Proof. unfold map_err. by intros ->. Qed.
Lemma calling_run {S E F A} (m : act S E A) s s' r : m s = (s', r) -> calling (F:=F) m s = (s', Ok r).
Proof. unfold calling. by intros ->. Qed.
Lemma attempt_run {S E A} (m : act S E A) s s' r : m s = (s', r) -> attempt m s = (s', Ok r).
Proof. unfold attempt. by intros ->. Qed.
Lemma elsewhere_run {E B} interfere k (f : unit -> act World E B) w :
  (elsewhere interfere k ≫= f) w = f tt (interfere k w).
Proof. done. Qed.

Section admission_facts.
  Context (policies : AdmissionPolicySet) (Hpol : policies_wf policies).
  Context (interfere : nat -> World -> World)
    (Hothers : forall k w, world_inv policies w -> others policies w (interfere k w)).
  Implicit Types (w : World).

Lemma others_inv w w' : world_inv policies w -> others policies w w' -> world_inv policies w'.
Proof.
  intros [Hr Hb Hc Hl] [Hr' Hb' Hc' Hl']. split; try congruence.
  - refine (rtc_invariant _ _ _ _ _ Hc' Hc). intros x y Hx [q <-]. by apply ctrl_serve_inv.
  - refine (rtc_invariant _ _ _ _ _ Hl' Hl). intros x y Hx [q <-]. by apply ledger_serve_inv.
Qed.
Lemma others_records w w' :
  world_inv policies w -> others policies w w' -> records_le (ledger w) (ledger w').
Proof.
  intros [_ _ _ Hl] [_ _ _ Hs]. revert Hl. induction Hs as [s|x y z [q <-] _ IH]; intros Hl; [apply records_le_refl|].
  eapply records_le_trans; [by apply serve_records_le|]. apply IH. by apply ledger_serve_inv.
Qed.
Lemma interfere_inv k w : world_inv policies w -> world_inv policies (interfere k w).
Proof. intros Hw. by eapply others_inv; [|apply Hothers]. Qed.

(** A settled record is final for every other thread too. *)
Lemma settled_stays w w' k r :
  world_inv policies w -> others policies w w' ->
  reservations (ledger w) !! k = Some r -> record_state r <> Reserved -> reservations (ledger w') !! k = Some r.
Proof.
  intros Hw Ho Hk Hst. destruct (others_records w w' Hw Ho k r Hk) as (r' & Hr' & _ & _ & Heq). by rewrite <- Heq.
Qed.
Lemma settled_as_settled target r : target <> Reserved -> record_state (settled_as target r) <> Reserved.
Proof. unfold settled_as. intros Ht. by case_decide. Qed.

Lemma rate_store_eta w : world_inv policies w -> rate_store w = mk_lock false (controller w).
Proof. destruct w as [[p1 c] b]. intros [Hr _ _ _]. cbn in *. by subst. Qed.
Lemma budget_store_eta w : world_inv policies w -> budget_store w = mk_lock false (ledger w).
Proof. destruct w as [c [p2 b]]. intros [_ Hb _ _]. cbn in *. by subst. Qed.
Lemma set_ledger_inv w b : world_inv policies w -> ledger_inv b -> world_inv policies (w <| budget_store := mk_lock false b |>).
Proof. by intros [? ? ? ?] ?. Qed.
Lemma set_controller_inv w l :
  world_inv policies w -> lock_poisoned l = false -> ctrl_inv policies (lock_data l) ->
  world_inv policies (w <| rate_store := l |>).
Proof. by intros [? ? ? ?] ? ?. Qed.

(** *** Calls into the ledger *)

Lemma fresh_call req now w :
  world_inv policies w ->
  on_budget (reserve_fresh req now) w =
    (w <| budget_store := mk_lock false (reserve_fresh_spec req now (ledger w)).1 |>,
     (reserve_fresh_spec req now (ledger w)).2) /\
  world_inv policies (w <| budget_store := mk_lock false (reserve_fresh_spec req now (ledger w)).1 |>).
Proof.
  intros Hw. pose proof (wi_ledger _ _ Hw) as Hl.
  unfold on_budget, reserve_fresh. rewrite (budget_store_eta w Hw), locked_run, reserve_fresh_run by done.
  split; [done|]. apply set_ledger_inv; [done|].
  pose proof (ledger_serve_inv _ Hl (ReserveFreshRequest req now)) as H. cbn [AccountBudget.serve] in H.
  by rewrite reserve_fresh_run in H.
Qed.

(** [commit] and [release] of the ledger: the record is settled, and stays so. *)
Lemma settle_call target k w r :
  world_inv policies w -> target = AccountBudget.Committed \/ target = Released ->
  reservations (ledger w) !! k = Some r ->
  exists b res,
    locked (AccountBudget.error AccountBudget.StateUnavailable) (transition_record k target) (budget_store w)
      = (mk_lock false b, res) /\
    world_inv policies (w <| budget_store := mk_lock false b |>) /\
    reservations b !! k = Some (settled_as target r) /\
    is_ok res = bool_decide (record_state (settled_as target r) = target).
Proof.
  intros Hw Ht Hr. pose proof (wi_ledger _ _ Hw) as Hl.
  assert (target <> Reserved) as Hne by (destruct Ht as [-> | ->]; done).
  rewrite (budget_store_eta w Hw), locked_run, transition_run by done. do 2 eexists. split; [done|].
  split.
  - apply set_ledger_inv; [done|].
    destruct Ht as [-> | ->]; [pose proof (ledger_serve_inv _ Hl (AccountBudget.CommitRequest k)) as H|
      pose proof (ledger_serve_inv _ Hl (AccountBudget.ReleaseRequest k)) as H];
      cbn [AccountBudget.serve] in H; by rewrite transition_run in H.
  - unfold transition_spec, settled_as. rewrite Hr.
    destruct (decide (record_state r = target)) as [Heq|Hneq]; cbn.
    + rewrite decide_False by congruence. by rewrite bool_decide_eq_true_2.
    + destruct (decide (record_state r = Reserved)) as [Hres|Hres]; cbn.
      * rewrite lookup_insert_eq. by rewrite bool_decide_eq_true_2.
      * by rewrite bool_decide_eq_false_2.
Qed.

(** A fresh reservation that is granted is a new reserved record of the request. *)
Lemma fresh_granted req now s rc :
  ledger_inv s -> (reserve_fresh_spec req now s).2 = Ok rc ->
  receipt_id rc = request_id req /\ reservations s !! request_id req = None /\
  exists r, reservations (reserve_fresh_spec req now s).1 !! request_id req = Some r /\
    request r = req /\ record_state r = Reserved.
Proof.
  intros Hs. unfold reserve_fresh_spec, insert_spec.
  destruct (reservations s !! request_id req) eqn:Hnone; [done|].
  destruct (decide_reservation req now (expire_spec now s)) as [r|e] eqn:Hd; [|done]. cbn. intros [= <-].
  destruct (applicable_room _ _ _ _ (expire_spec_inv _ _ Hs) Hd) as (Hst & Hreq & _).
  cbn. rewrite Hreq. split_and!; try done. exists r. by rewrite lookup_insert_eq.
Qed.

(** A refused reservation leaves the ledger, or has expired what was due. *)
Lemma refused_ledger req now s e : (reserve_fresh_spec req now s).2 = Err e ->
  (reserve_fresh_spec req now s).1 = s \/ (reserve_fresh_spec req now s).1 = expire_spec now s.
Proof using Type.
  unfold reserve_fresh_spec, insert_spec. destruct (reservations _ !! _); [by left|].
  destruct (decide_reservation _ _ _); [done|by right].
Qed.

End admission_facts.

Lemma tenant_binding_code request e :
  validate_tenant_binding request = Err e -> e = error TenantMismatch \/ e = error InvalidArgument.
Proof.
  unfold validate_tenant_binding. intros H. run_steps.
  match goal with H : collect _ _ = Err _ |- _ => apply collect_Err in H as (key & _ & Hk) end.
  run_steps; [|by left]. unfold validate_account_binding in *. case_match; run_steps; try done. by right.
Qed.

Section lease_facts.
  Context (policies : AdmissionPolicySet) (Hpol : policies_wf policies).
  Context (interfere : nat -> World -> World)
    (Hothers : forall k w, world_inv policies w -> others policies w (interfere k w)).
  Implicit Types (w : World) (l : RoutingAdmissionLease).

Lemma ensure_open_run l rate w (f : unit -> handle_act unit) :
  lease_open l rate -> (ensure_open ≫= f) (mk_Handle w l) = f tt (mk_Handle w l).
Proof.
  intros [_ _ _ _ Hc]. unfold ensure_open, mbind, act_bind, get, lift. cbn. by rewrite Hc.
Qed.
Lemma take_rate_run l rate w (B : Type) (f : option AdmissionLease -> handle_act B) :
  ra_rate l = Some rate -> (take_rate ≫= f) (mk_Handle w l) = f (Some rate) (mk_Handle w (l <| ra_rate := None |>)).
Proof. intros Hr. unfold take_rate, mbind, act_bind, get, modify, mret, act_ret. cbn. by rewrite Hr. Qed.

(** Committing the budget of a lease settles its record; only the receipt and the
    finalized mark of the handle change. *)
Lemma commit_budget_run l w r :
  world_inv policies w -> reservations (ledger w) !! ra_reservation_id l = Some r ->
  exists b l' res, commit_budget (mk_Handle w l) = (mk_Handle (w <| budget_store := mk_lock false b |>) l', res) /\
    world_inv policies (w <| budget_store := mk_lock false b |>) /\
    reservations b !! ra_reservation_id l = Some (settled_as AccountBudget.Committed r) /\
    is_ok res = bool_decide (record_state (settled_as AccountBudget.Committed r) = AccountBudget.Committed) /\
    ra_rate l' = ra_rate l /\ ra_budget_finalized l' = ra_budget_finalized l || is_ok res /\
    ra_budget_retained l' = ra_budget_retained l /\ ra_reservation_id l' = ra_reservation_id l /\
    (AccountBudget.commit (ra_reservation_id l) (budget_store w)).1 = mk_lock false b.
Proof.
  intros Hw Hr. destruct (settle_call policies AccountBudget.Committed _ _ _ Hw (or_introl eq_refl) Hr)
    as (b & res & Hcall & Hinv & Hrec & Hok).
  pose proof (on_world_run _ (mk_Handle w l) _ _ (on_budget_run _ _ _ _
    (map_err_run map_budget_lifecycle_error _ _ _ _ Hcall))) as Hstep.
  unfold commit_budget. rewrite act_get_run. unfold AccountBudget.commit. rewrite Hcall. cbn [handle].
  destruct res as [rc|e].
  - rewrite (act_bind_run _ _ _ _ _ Hstep). do 3 eexists. split; [done|]. cbn in *. by rewrite orb_true_r.
  - rewrite (act_bind_stop _ _ _ _ _ Hstep). do 3 eexists. split; [done|]. cbn in *. by rewrite orb_false_r.
Qed.

(** Disposing of the rate lease: the handle gives it up, then one call consumes it. *)
Lemma dispose_run {A} (m : AdmissionLease -> act (Lock ControllerState) AdmissionError A) l rate w c res :
  ra_rate l = Some rate -> m rate (rate_store (interfere 0 w)) = (c, res) ->
  (taken ← take_rate;
   match taken with
   | None => fail (error LeaseClosed)
   | Some rate => on_world (elsewhere interfere 0) ;; on_world (on_rate (map_err map_rate_error (m rate)))
   end : handle_act A) (mk_Handle w l) =
  (mk_Handle ((interfere 0%nat w) <| rate_store := c |>) (l <| ra_rate := None |>),
   match res with Ok a => Ok a | Err e => Err (map_rate_error e) end).
Proof.
  intros Hr Hm. rewrite (take_rate_run _ _ _ _ _ Hr).
  assert (on_world (E := RoutingAdmissionError) (elsewhere interfere 0) (mk_Handle w (l <| ra_rate := None |>)) =
    (mk_Handle (interfere 0%nat w) (l <| ra_rate := None |>), Ok tt)) as Hpause by done.
  rewrite (act_bind_run _ _ _ _ _ Hpause).
  by rewrite (on_world_run _ (mk_Handle (interfere 0%nat w) (l <| ra_rate := None |>)) _ _
    (on_rate_run _ _ _ _ (map_err_run map_rate_error _ _ _ _ Hm))).
Qed.
Lemma consume_run {A} rate (body : ctrl_act A) c :
  al_closed rate = false -> consume rate body (mk_lock false c) = (mk_lock false (body c).1, (body c).2).
Proof. intros Ho. unfold consume, RateLimit.ensure_open. rewrite Ho. cbn. by destruct (body c). Qed.

(** What a finalization makes of the rate lease, and when it completes; [settled] says that
    the reservation is committed, without which the clock is not looked at. *)
Lemma finalized_outcome s id now (settled : bool) s' fr :
  ctrl_inv policies s -> finalize_accepted_state id (if settled then now else None) s = (s', fr) ->
  let ends := settled && is_some_and (fun t => last_now s <=? t) now in
  match leases s !! id with
  | Some x =>
      (forall k window, windows s !! k = Some window -> exists window', windows s' !! k = Some window' /\
         ends_at window' = ends_at window /\ committed window' = committed window + pending_of k x) /\
      leases s' !! id = (if ends then None else Some (x <| rate_committed := true |>)) /\
      (if settled && completed (match fr with Ok a => Ok a | Err e => Err (map_rate_error e) end)
       then Ok tt else Err (error CommitIncomplete)) =
        (if ends && is_some_and (fun t => t <? lease_expires_at x) now then Ok tt else Err (error CommitIncomplete))
  | None => s' = s /\
      (if settled && completed (match fr with Ok a => Ok a | Err e => Err (map_rate_error e) end)
       then Ok tt else Err (error CommitIncomplete)) = Err (error CommitIncomplete)
  end.
Proof using Hpol.
  intros Hinv Hrun ends. subst ends. destruct (leases s !! id) as [x|] eqn:Hx.
  2: { rewrite (finalize_missing s id _ Hx) in Hrun. injection Hrun as <- <-. by rewrite andb_false_r. }
  split; [intros k win Hwin; by eapply (finalize_charges policies Hpol)|].
  destruct settled, now as [t|]; cbn [andb is_some_and] in *.
  - destruct (finalize_run policies Hpol s id x t s' fr Hinv Hx Hrun) as (_ & Hreg & Hdone). destruct (N.leb_spec (last_now s) t) as [Hle|Hlt].
    + destruct (Hdone Hle) as [-> Hcase]. split; [done|]. cbn [andb].
      destruct Hcase as [[Hlive ->]|[Hpast ->]]; [by rewrite (proj2 (N.ltb_lt _ _) Hlive)|by rewrite (proj2 (N.ltb_ge _ _) Hpast)].
    + destruct (Hreg Hlt) as [-> ->]. split; [by apply commit_spec_kept|done].
  - rewrite (finalize_timeless policies Hpol s id x Hinv Hx) in Hrun. injection Hrun as <- <-. split; [by apply commit_spec_kept|done].
  - rewrite (finalize_timeless policies Hpol s id x Hinv Hx) in Hrun. injection Hrun as <- <-. split; [by apply commit_spec_kept|done].
  - rewrite (finalize_timeless policies Hpol s id x Hinv Hx) in Hrun. injection Hrun as <- <-. split; [by apply commit_spec_kept|done].
Qed.

Lemma finish_accepted_run budget rate w l :
  exists l', finish_accepted budget rate (mk_Handle w l) =
    (mk_Handle w l', if is_ok budget && completed rate then Ok tt else Err (error CommitIncomplete)) /\
    ra_rate l' = ra_rate l /\ ra_budget_finalized l' = ra_budget_finalized l /\
    ra_budget_retained l' = negb (is_ok budget).
Proof. unfold finish_accepted. destruct budget as [[]|], rate as [[|]|]; cbn; by eexists. Qed.

(** Dropping a handle whose budget is settled or retained and whose rate lease was
    taken does nothing. *)
Lemma drop_settled l w :
  ra_rate l = None -> ra_budget_finalized l || ra_budget_retained l = true -> drop_lease interfere (mk_Handle w l) = w.
Proof.
  intros Hr Hf. unfold drop_lease. cbn. rewrite Hr.
  by destruct (ra_budget_finalized l), (ra_budget_retained l).
Qed.

(** Dropping an open lease ends both halves of it. *)
Lemma drop_open_run l rate w r :
  world_inv policies w -> lease_open l rate -> reservations (ledger w) !! ra_reservation_id l = Some r ->
  let w' := drop_lease interfere (mk_Handle w l) in
  leases (controller w') !! al_id rate = None /\
  exists r', reservations (ledger w') !! ra_reservation_id l = Some r' /\
    record_state r' <> Reserved /\ (record_state r <> Reserved -> r' = r).
Proof.
  intros Hw [Hrate Hopen Hfin Hret _] Hr. unfold drop_lease. cbn [handle world]. rewrite Hfin, Hret, Hrate. cbn [negb andb].
  pose proof (Hothers 2%nat w Hw) as Ho2. pose proof (interfere_inv policies Hpol interfere Hothers 2 w Hw) as Hw2.
  destruct (others_records policies w _ Hw Ho2 _ r Hr) as (r2 & Hr2 & _ & _ & Hkeep).
  destruct (settle_call policies Released _ _ _ Hw2 (or_intror eq_refl) Hr2) as (b & res & Hcall & Hw3 & Hrec & _).
  unfold AccountBudget.release. rewrite (on_budget_run _ _ _ _ Hcall). cbn [fst].
  match type of Hw3 with world_inv _ ?x => set (w3 := x) in * end.
  pose proof (Hothers 3%nat w3 Hw3) as Ho3. pose proof (interfere_inv policies Hpol interfere Hothers 3 w3 Hw3) as Hw4.
  destruct (drop_frees policies rate _ (wi_controller _ _ Hw4) Hopen) as (s' & Hdrop & Hgone & _).
  rewrite <- (rate_store_eta policies _ Hw4) in Hdrop.
  cbn [rate_store budget_store controller ledger set_field]. rewrite Hdrop. split; [done|].
  exists (settled_as Released r2). split_and!; [|by apply settled_as_settled|].
  - by apply (settled_stays policies w3 _ _ _ Hw3 Ho3); [|apply settled_as_settled].
  - intros Hst. rewrite (Hkeep Hst). unfold settled_as. by rewrite decide_False.
Qed.
End lease_facts.

Lemma quiet_others policies w : others policies w (quiet 0 w).
Proof. split; try done; apply rtc_refl. Qed.
Lemma sample_world_inv : world_inv RateLimit.sample_policies sample_world.
Proof.
  split; [done|done| |].
  - apply (ctrl_reachable_inv _ RateLimit.sample_policies_wf). exists 0. apply rtc_refl.
  - apply (reachable_ledger_inv _ (ledger_sample_reachable [])).
Qed.
Lemma sample_held_inv : world_inv RateLimit.sample_policies sample_held.
Proof.
  split; [done|done| |].
  - apply (ctrl_reachable_inv _ RateLimit.sample_policies_wf), ctrl_sample_reachable.
  - apply (reachable_ledger_inv _ (ledger_sample_reachable _)).
Qed.
Lemma sample_lease_open : lease_open sample_coupled_lease sample_lease.
Proof. by split. Qed.
Lemma sample_record_held : reservations (ledger sample_held) !! ra_reservation_id sample_coupled_lease = Some sample_record.
Proof. vm_compute. reflexivity. Qed.

(** A coupled admission, call by call. *)
Lemma coordinator_admit_run policies interfere request w w' r :
  policies_wf policies -> world_inv policies w -> request_wf (ra_rate_request request) ->
  (forall k w, world_inv policies w -> others policies w (interfere k w)) ->
  coordinator_admit policies interfere request w = (w', r) ->
  world_inv policies w' /\
  match validate_tenant_binding request,
        try_admit policies (ra_rate_request request) (ra_monotonic_now request) (rate_store w) with
  | Err e, _ => w' = w /\ r = Err e
  | Ok _, (l, Err e) => w' = w <| rate_store := l |> /\ r = Err (map_rate_error e)
  | Ok _, (l, Ok a) =>
      let w1 := interfere 0%nat (w <| rate_store := l |>) in
      let reserved := reserve_fresh_spec (ra_budget_request request) (ra_budget_now request) (ledger w1) in
      let w2 := w1 <| budget_store := mk_lock false reserved.1 |> in
      al_closed a = false /\ world_inv policies (w <| rate_store := l |>) /\ world_inv policies w1 /\
      match reserved.2 with
      | Ok rc => w' = w2 /\ r = Ok (mk_RoutingAdmissionLease (Some a) (receipt_id rc) rc false false false Pending)
      | Err refusal =>
          let w3 := interfere 1%nat w2 in
          exists s' cancelled, world_inv policies w3 /\
            RateLimit.cancel a (ra_monotonic_now request) (mk_lock false (controller w3)) = (mk_lock false s', cancelled) /\
            w' = w3 <| rate_store := mk_lock false s' |> /\
            r = Err (if is_ok cancelled then map_budget_error refusal else error RollbackFailed)
      end
  end.
Proof.
  intros Hpol Hw Hwf Hothers Hrun. unfold coordinator_admit in Hrun.
  destruct (validate_tenant_binding request) as [[]|e].
  2: { rewrite act_lift_stop in Hrun. by injection Hrun as <- <-. }
  rewrite act_lift_run in Hrun.
  destruct (try_admit policies _ _ (rate_store w)) as [l ra] eqn:Hta.
  pose proof Hta as Hta'. rewrite (rate_store_eta policies w Hw) in Hta'.
  destruct (try_admit_outcome policies Hpol _ _ _ _ _ (wi_controller _ _ Hw) Hwf Hta') as (Hl & Hinv & Hout).
  pose proof (set_controller_inv policies w l Hw Hl Hinv) as Hw1.
  pose proof (on_rate_run _ _ _ _ (map_err_run map_rate_error _ _ _ _ Hta)) as Hstep.
  destruct ra as [a|e].
  2: { rewrite (act_bind_stop _ _ _ _ _ Hstep) in Hrun. by injection Hrun as <- <-. }
  rewrite (act_bind_run _ _ _ _ _ Hstep), elsewhere_run in Hrun.
  assert (al_closed a = false) as Hopen by (destruct (resolve_policies _ _); naive_solver).
  pose proof (interfere_inv policies Hpol interfere Hothers 0 _ Hw1) as Hw2.
  destruct (fresh_call policies (ra_budget_request request) (ra_budget_now request) _ Hw2) as [Hcall Hw3].
  rewrite (act_bind_run _ _ _ _ _ (calling_run _ _ _ _ Hcall)) in Hrun. cbv zeta.
  destruct (reserve_fresh_spec _ _ (ledger (interfere 0%nat (w <| rate_store := l |>)))).2 as [rc|refusal] eqn:Href.
  - by injection Hrun as <- <-.
  - rewrite elsewhere_run in Hrun. pose proof (interfere_inv policies Hpol interfere Hothers 1 _ Hw3) as Hw4.
    match type of Hw4 with world_inv _ ?x => set (w3 := x) in * end.
    destruct (cancel_exact policies a (ra_monotonic_now request) _ (wi_controller _ _ Hw4) Hopen) as (s' & rr & Hcan & Hinv' & _).
    pose proof Hcan as Hcan'. rewrite <- (rate_store_eta policies _ Hw4) in Hcan'.
    rewrite (act_bind_run _ _ _ _ _ (calling_run _ _ _ _ (on_rate_run _ _ _ _ Hcan'))) in Hrun.
    split; [destruct (is_ok rr); injection Hrun as <- <-; by apply set_controller_inv|]. do 3 (split; [done|]).
    exists s', rr. do 2 (split; [done|]). by destruct (is_ok rr); injection Hrun as <- <-.
Qed.

(** The outcome of a coupled admission, for the clients of this component. *)
Lemma coordinator_admit_outcome policies interfere request w w' r :
  policies_wf policies -> world_inv policies w -> request_wf (ra_rate_request request) ->
  (forall k w, world_inv policies w -> others policies w (interfere k w)) ->
  coordinator_admit policies interfere request w = (w', r) ->
  world_inv policies w' /\
  match validate_tenant_binding request,
        try_admit policies (ra_rate_request request) (ra_monotonic_now request) (rate_store w) with
  | Err e, _ => w' = w /\ r = Err e
  | Ok _, (l, Err e) => w' = w <| rate_store := l |> /\ r = Err (map_rate_error e)
  | Ok _, (l, Ok a) =>
      match r with
      | Ok lease =>
          lease_open lease a /\ ra_state lease = Pending /\
          ra_reservation_id lease = request_id (ra_budget_request request) /\
          reservations (ledger w) !! ra_reservation_id lease = None /\
          exists record, reservations (ledger w') !! ra_reservation_id lease = Some record /\
            AccountBudget.request record = ra_budget_request request /\ record_state record = Reserved
      | Err e =>
          leases (controller w') !! al_id a = None /\
          exists w1 refusal, others policies (w <| rate_store := l |>) w1 /\
            (reserve_fresh_spec (ra_budget_request request) (ra_budget_now request) (ledger w1)).2 = Err refusal /\
            (e = map_budget_error refusal \/ e = error RollbackFailed)
      end
  end.
Proof.
  intros Hpol Hw Hwf Hothers Hrun. destruct (coordinator_admit_run _ _ _ _ _ _ Hpol Hw Hwf Hothers Hrun) as [Hw' Hcases].
  split; [done|]. destruct (validate_tenant_binding request) as [[]|e]; [|done].
  destruct (try_admit policies _ _ (rate_store w)) as [l [a|e]]; [|done].
  destruct Hcases as (Hopen & Hw1 & Hw2 & Hcases). pose proof (Hothers 0%nat _ Hw1) as Ho.
  destruct (reserve_fresh_spec _ _ _).2 as [rc|refusal] eqn:Href.
  - destruct Hcases as [-> ->]. destruct (fresh_granted _ _ _ _ (wi_ledger _ _ Hw2) Href) as (Hid & Hnone & record & Hrec & Hreq & Hst).
    cbn. rewrite Hid. split; [done|]. split; [done|]. split; [done|]. split; [|by exists record].
    destruct (reservations (ledger w) !! _) as [r0|] eqn:Hr0; [|done].
    destruct (others_records policies _ _ Hw1 Ho _ r0 Hr0) as (r1 & Hr1 & _). congruence.
  - destruct Hcases as (s' & rr & Hw3 & Hcan & -> & ->). split.
    + destruct (cancel_exact policies a (ra_monotonic_now request) _ (wi_controller _ _ Hw3) Hopen) as (s2 & rr' & Hcan' & _ & _ & Hls & _).
      rewrite Hcan in Hcan'. injection Hcan' as <- <-. cbn. by rewrite Hls, lookup_delete_eq.
    + exists (interfere 0%nat (w <| rate_store := l |>)), refusal. do 2 (split; [done|]). destruct (is_ok rr); [by left|by right].
Qed.

(** ** Properties *)

(** C9: coupled admission is all or nothing, whatever the other threads
    do between its steps.  A granted lease owns an open rate lease and one new
    reserved record of the request; when the ledger refuses, the rate lease taken
    for the request is gone again, even when the rollback is reported to have
    failed; when the controller refuses, the ledger is not touched at all. *)
Theorem admission_couples policies interfere request w w' r :
  policies_wf policies -> world_inv policies w -> request_wf (ra_rate_request request) ->
  (forall k w, world_inv policies w -> others policies w (interfere k w)) ->
  coordinator_admit policies interfere request w = (w', r) ->
  world_inv policies w' /\
  match validate_tenant_binding request,
        try_admit policies (ra_rate_request request) (ra_monotonic_now request) (rate_store w) with
  | Err e, _ => w' = w /\ r = Err e
  | Ok _, (l, Err e) => w' = w <| rate_store := l |> /\ r = Err (map_rate_error e)
  | Ok _, (l, Ok a) =>
      match r with
      | Ok lease =>
          lease_open lease a /\ ra_state lease = Pending /\
          ra_reservation_id lease = request_id (ra_budget_request request) /\
          reservations (ledger w) !! ra_reservation_id lease = None /\
          exists record, reservations (ledger w') !! ra_reservation_id lease = Some record /\
            AccountBudget.request record = ra_budget_request request /\ record_state record = Reserved
      | Err e =>
          leases (controller w') !! al_id a = None /\
          exists w1 refusal, others policies (w <| rate_store := l |>) w1 /\
            (reserve_fresh_spec (ra_budget_request request) (ra_budget_now request) (ledger w1)).2 = Err refusal /\
            (e = map_budget_error refusal \/ e = error RollbackFailed)
      end
  end.
Proof. apply coordinator_admit_outcome. Qed.
Lemma admission_couples_witness :
  world_inv RateLimit.sample_policies (coordinator_admit RateLimit.sample_policies quiet (sample_coupled 60) sample_world).1.
Proof.
  exact (proj1 (admission_couples RateLimit.sample_policies quiet (sample_coupled 60) sample_world _ _
    RateLimit.sample_policies_wf sample_world_inv (RateLimit.sample_request_wf 3 ltac:(vm_compute; split; discriminate))
    (fun _ w _ => quiet_others _ w) (surjective_pairing _))).
Defined.

(** C15: a refused admission leaves nothing of its own, whatever the other threads do.  When
    the request does not fit its tenant or account, nothing has happened; when the controller
    refuses, the ledger is not touched and the controller keeps exactly the live leases; and
    when the ledger refuses, in the state [w1] that the others have made of it meanwhile, the
    refused call has at most expired what was due, and the rollback, in the state [w2] that
    it finds, takes away the lease of this request and no other one, apart from expired ones.
    The rollback is reported as failed exactly when the clock had regressed or the lease was
    gone or expired by then.  Without other threads the rollback cannot fail, and the admission has
    restored all capacity. *)
Theorem refused_admission_restores policies interfere request w w' e :
  policies_wf policies -> world_inv policies w -> request_wf (ra_rate_request request) ->
  (forall k w, world_inv policies w -> others policies w (interfere k w)) ->
  coordinator_admit policies interfere request w = (w', Err e) ->
  let now := ra_monotonic_now request in
  world_inv policies w' /\
  match validate_tenant_binding request, try_admit policies (ra_rate_request request) now (rate_store w) with
  | Err e0, _ => w' = w /\ e = e0
  | Ok _, (l, Err e0) =>
      w' = w <| rate_store := l |> /\ e = map_rate_error e0 /\
      (controller w' = controller w \/ leases (controller w') = live_leases now (controller w))
  | Ok _, (l, Ok a) =>
      let w1 := interfere 0%nat (w <| rate_store := l |>) in
      let reserved := reserve_fresh_spec (ra_budget_request request) (ra_budget_now request) (ledger w1) in
      let w2 := interfere 1%nat (w1 <| budget_store := mk_lock false reserved.1 |>) in
      let kept := if last_now (controller w2) <=? now then live_leases now (controller w2) else leases (controller w2) in
      (reserved.1 = ledger w1 \/ reserved.1 = expire_spec (ra_budget_now request) (ledger w1)) /\
      budget_store w' = budget_store w2 /\ leases (controller w') = delete (al_id a) kept /\
      exists refusal, reserved.2 = Err refusal /\
        e = (if (last_now (controller w2) <=? now) && bool_decide (is_Some (kept !! al_id a))
             then map_budget_error refusal else error RollbackFailed)
  end /\
  ((forall k w, interfere k w = w) ->
    ra_code e <> RollbackFailed /\
    (controller w' = controller w \/ leases (controller w') = live_leases now (controller w)) /\
    (ledger w' = ledger w \/ ledger w' = expire_spec (ra_budget_now request) (ledger w))).
Proof.
  intros Hpol Hw Hwf Hothers Hrun now. destruct (coordinator_admit_run _ _ _ _ _ _ Hpol Hw Hwf Hothers Hrun) as [Hw' Hcases].
  split; [done|]. destruct (validate_tenant_binding request) as [[]|e0] eqn:Hval.
  2: { destruct Hcases as [-> [= <-]]. split; [done|]. intros _. split; [|by split; left]. by apply tenant_binding_code in Hval as [-> | ->]. }
  fold now in Hcases. destruct (try_admit policies (ra_rate_request request) now (rate_store w)) as [l ra] eqn:Hta.
  rewrite (rate_store_eta policies w Hw) in Hta.
  destruct (try_admit_outcome policies Hpol _ _ _ _ _ (wi_controller _ _ Hw) Hwf Hta) as (Hl & _ & Hout).
  destruct ra as [a|e0].
  2: { destruct Hcases as [-> [= ->]]. cbn [controller rate_store set_field].
    assert (lock_data l = controller w \/ leases (lock_data l) = live_leases now (controller w)) as Hkept.
    { destruct (resolve_policies policies (ra_rate_request request)) as [ps|]; [|destruct Hout as [-> _]; by left].
      destruct Hout as [(_ & _ & ->)|(_ & _ & Hls & _)]; [by left|by right]. }
    split; [done|]. intros _. split; [|by split; [|left]]. cbn. by destruct (RateLimit.code e0). }
  destruct Hcases as (Hopen & Hw1 & Hw2 & Hcases). cbv zeta.
  destruct (reserve_fresh_spec _ _ _).2 as [rc|refusal] eqn:Href; [by destruct Hcases as [_ [=]]|].
  destruct Hcases as (s' & rr & Hw3 & Hcan & -> & [= ->]).
  destruct (cancel_exact policies a now _ (wi_controller _ _ Hw3) Hopen) as (s2 & rr' & Hcan' & _ & _ & Hls & Hok).
  fold now in Hcan. rewrite Hcan in Hcan'. injection Hcan' as <- <-.
  pose proof (refused_ledger (ra_budget_request request) (ra_budget_now request) _ _ Href) as Hledger.
  split.
  - split; [done|]. split; [done|]. split; [done|]. exists refusal. split; [done|]. rewrite Hok. f_equal.
    by destruct (last_now _ <=? now).
  - intros Hid. rewrite !Hid in *. unfold controller, ledger in *. cbn [rate_store budget_store lock_data set_field] in *.
    destruct (resolve_policies policies (ra_rate_request request)) as [ps|]; [|by destruct Hout].
    destruct Hout as (_ & _ & Hn & Hfresh & Hfut & Hleases & _).
    assert (live_leases now (lock_data l) = leases (lock_data l)) as Hlive.
    { unfold live_leases at 1. apply map_filter_id. intros i x Hx. rewrite Hleases in Hx. cbn.
      apply lookup_insert_Some in Hx as [[_ <-]|[_ Hx]]; [done|]. by apply map_lookup_filter_Some in Hx as [_ Hx]. }
    rewrite Hn, N.leb_refl, Hlive in Hls, Hok. rewrite Hleases in Hls, Hok.
    rewrite lookup_insert_eq, bool_decide_eq_true_2 in Hok by done. rewrite Hok. split; [unfold map_budget_error; by case_decide|].
    split; [right|done]. rewrite Hls, delete_insert_id; [done|]. apply map_lookup_filter_None. by left.
Qed.
Lemma refused_admission_restores_witness :
  let w' := (coordinator_admit RateLimit.sample_policies quiet (sample_coupled 200) sample_world).1 in
  controller w' = controller sample_world \/ leases (controller w') = live_leases 1000 (controller sample_world).
Proof.
  refine (proj1 (proj2 (proj2 (proj2 (refused_admission_restores RateLimit.sample_policies quiet (sample_coupled 200) sample_world _
    (with_scope BudgetRejected None AccountRefusal) RateLimit.sample_policies_wf sample_world_inv
    (RateLimit.sample_request_wf 3 ltac:(vm_compute; split; discriminate)) (fun _ w _ => quiet_others _ w) _)) (fun _ _ => eq_refl)))).
  vm_compute. reflexivity.
Defined.

(** C13: accepted work is never refunded.  Finalizing a lease settles its reservation as
    committed for good; one that was already released or has expired stays so, and the
    outcome is then [CommitIncomplete].  Let [before] be the controller at the moment the rate
    component is finalized, after the budget call and whatever the other threads did.  If it
    still has the lease, every window is charged with exactly what the lease had pending
    there; the lease ends if the reservation is committed and the clock can be read and has
    not regressed, and otherwise the controller retains it, marked as charged, for
    reconciliation.  Success is reported exactly when the lease ended before its expiry, every
    other outcome is [CommitIncomplete].  If the lease is gone, nothing changes.  The drop
    that follows gives nothing back. *)
Theorem accepted_never_refunded policies interfere l rate now w w' r record :
  policies_wf policies -> world_inv policies w ->
  (forall k w, world_inv policies w -> others policies w (interfere k w)) ->
  lease_open l rate -> reservations (ledger w) !! ra_reservation_id l = Some record ->
  finalize_accepted interfere now l w = (w', r) ->
  let settled := settled_as AccountBudget.Committed record in
  let before := controller (interfere 0%nat
    (w <| budget_store := (AccountBudget.commit (ra_reservation_id l) (budget_store w)).1 |>)) in
  let ends := bool_decide (record_state settled = AccountBudget.Committed) && is_some_and (fun t => last_now before <=? t) now in
  reservations (ledger w') !! ra_reservation_id l = Some settled /\
  match leases before !! al_id rate with
  | Some x =>
      (forall k window, windows before !! k = Some window -> exists window', windows (controller w') !! k = Some window' /\
         ends_at window' = ends_at window /\ committed window' = committed window + pending_of k x) /\
      leases (controller w') !! al_id rate = (if ends then None else Some (x <| rate_committed := true |>)) /\
      r = (if ends && is_some_and (fun t => t <? lease_expires_at x) now then Ok tt else Err (error CommitIncomplete))
  | None => controller w' = before /\ r = Err (error CommitIncomplete)
  end.
Proof.
  intros Hpol Hw Hothers Hopen Hrec Hrun settled before ends. unfold finalize_accepted, consuming, finalize_accepted_body in Hrun.
  rewrite (ensure_open_run _ _ _ _ Hopen) in Hrun.
  destruct (commit_budget_run policies l w record Hw Hrec)
    as (b & l' & res & Hcb & Hw1 & Hrec' & Hok & Hrate & Hfin & Hret & Hid & Hcall).
  rewrite (act_bind_run _ _ _ _ _ (attempt_run _ _ _ _ Hcb)) in Hrun.
  unfold ends, before. rewrite Hcall. cbn [fst]. clear before ends.
  set (w1 := w <| budget_store := mk_lock false b |>) in *. set (before := controller (interfere 0%nat w1)).
  pose proof (interfere_inv policies Hpol interfere Hothers 0 w1 Hw1) as Hw2.
  pose proof (Hothers 0%nat w1 Hw1) as Ho. set (now' := if is_ok res then now else None) in *.
  destruct Hopen as [Hr Hopen _ Hnret _]. rewrite Hr in Hrate.
  pose proof (consume_run rate (finalize_accepted_state (al_id rate) now') before Hopen) as Hcons.
  unfold before in Hcons at 1. rewrite <- (rate_store_eta policies _ Hw2) in Hcons.
  pose proof (dispose_run interfere (fun rate => RateLimit.finalize_accepted rate now') l' rate w1 _ _ Hrate Hcons) as Hdis.
  destruct (finalize_accepted_state (al_id rate) now' before) as [c fr] eqn:Hfinal.
  unfold finalize_accepted_rate in Hrun. rewrite (act_bind_run _ _ _ _ _ (attempt_run _ _ _ _ Hdis)) in Hrun.
  destruct (finish_accepted_run res (match fr with Ok a => Ok a | Err e => Err (map_rate_error e) end)
    ((interfere 0%nat w1) <| rate_store := mk_lock false c |>) (l' <| ra_rate := None |>))
    as (l2 & Hfinish & Hr2 & Hf2 & Ht2).
  cbn [fst snd] in Hrun. rewrite Hfinish, drop_settled in Hrun; [|done|].
  2: { rewrite Hf2, Ht2. cbn. rewrite Hfin. by destruct (is_ok res), (ra_budget_finalized l). }
  injection Hrun as <- <-. unfold controller at 1 2 3, ledger. cbn [rate_store budget_store lock_data set_field]. split.
  { rewrite <- Hid. apply (settled_stays policies w1 _ _ _ Hw1 Ho); [by rewrite Hid|by apply settled_as_settled]. }
  fold settled in Hok. rewrite <- Hok. pose proof (wi_controller _ _ Hw2) as Hinv. fold before in Hinv.
  by apply (finalized_outcome policies Hpol before (al_id rate) now (is_ok res)).
Qed.
Lemma accepted_never_refunded_witness :
  reservations (ledger (finalize_accepted quiet (Some 2000) sample_coupled_lease sample_held).1) !! MkId "r1" =
    Some (sample_record <| record_state := AccountBudget.Committed |>).
Proof.
  exact (proj1 (accepted_never_refunded RateLimit.sample_policies quiet sample_coupled_lease sample_lease (Some 2000)
    sample_held _ _ sample_record RateLimit.sample_policies_wf sample_held_inv (fun _ w _ => quiet_others _ w)
    sample_lease_open sample_record_held (surjective_pairing _))).
Defined.

(** C18: a lease that ends gives everything back.  After releasing,
    cancelling or merely dropping it, the controller no longer holds its rate lease
    and its reservation is settled; a release turns a live reservation into a
    released one and leaves a settled one alone. *)
Theorem ended_lease_holds_nothing policies interfere l rate w record :
  policies_wf policies -> world_inv policies w ->
  (forall k w, world_inv policies w -> others policies w (interfere k w)) ->
  lease_open l rate -> reservations (ledger w) !! ra_reservation_id l = Some record ->
  (forall now w' r, release interfere now l w = (w', r) \/ cancel interfere now l w = (w', r) ->
     leases (controller w') !! al_id rate = None /\
     reservations (ledger w') !! ra_reservation_id l = Some (settled_as Released record)) /\
  leases (controller (drop_lease interfere (mk_Handle w l))) !! al_id rate = None /\
  exists record', reservations (ledger (drop_lease interfere (mk_Handle w l))) !! ra_reservation_id l = Some record' /\
    record_state record' <> Reserved.
Proof.
  intros Hpol Hw Hothers Hopen Hrec. split.
  2: { destruct (drop_open_run policies Hpol interfere Hothers l rate w record Hw Hopen Hrec)
         as (? & r' & ? & ? & _). by eauto. }
  intros now w' r Hrun. assert (release interfere now l w = (w', r)) as Hrel0 by (by destruct Hrun). clear Hrun. rename Hrel0 into Hrun.
  unfold release, consuming, release_body in Hrun. rewrite (ensure_open_run _ _ _ _ Hopen), act_get_run in Hrun.
  destruct (settle_call policies Released _ _ _ Hw (or_intror eq_refl) Hrec) as (b & res & Hcall & Hw1 & Hrec' & Hok).
  pose proof (on_world_run _ (mk_Handle w l) _ _ (on_budget_run _ _ _ _
    (map_err_run map_budget_lifecycle_error _ _ _ _ Hcall))) as Hstep.
  unfold AccountBudget.release in Hrun. cbn [handle] in Hrun.
  match type of Hw1 with world_inv _ ?x => set (w1 := x) in * end.
  destruct res as [rc|e].
  - rewrite (act_bind_run _ _ _ _ _ Hstep), act_modify_run in Hrun. destruct Hopen as [Hr Hopen _ _ _].
    cbn [handle world set_field] in Hrun. erewrite take_rate_run in Hrun by exact Hr.
    pose proof (interfere_inv policies Hpol interfere Hothers 0 w1 Hw1) as Hw2.
    pose proof (Hothers 0%nat w1 Hw1) as Ho.
    destruct (release_frees policies rate now _ (wi_controller _ _ Hw2) Hopen) as (s' & rr & Hrel & Hgone & _).
    rewrite <- (rate_store_eta policies _ Hw2) in Hrel.
    assert (w' = (interfere 0%nat w1) <| rate_store := mk_lock false s' |>) as ->.
    { unfold mbind, act_bind, on_world, elsewhere, modify in Hrun. cbn in Hrun. fold w1 in Hrun.
      rewrite (on_rate_run _ _ _ _ (map_err_run map_rate_error _ _ _ _ Hrel)) in Hrun.
      destruct rr; injection Hrun as <- _; done. }
    split; [done|]. by apply (settled_stays policies w1 _ _ _ Hw1 Ho); [|apply settled_as_settled].
  - rewrite (act_bind_stop _ _ _ _ _ Hstep) in Hrun. injection Hrun as <- <-.
    destruct (drop_open_run policies Hpol interfere Hothers l rate w1 _ Hw1 Hopen Hrec') as (? & r' & Hr' & _ & Heq).
    split; [done|]. rewrite <- (Heq ltac:(by apply settled_as_settled)). done.
Qed.
Lemma ended_lease_holds_nothing_witness :
  leases (controller (drop_lease quiet (mk_Handle sample_held sample_coupled_lease))) !! 2 = None.
Proof.
  exact (proj1 (proj2 (ended_lease_holds_nothing RateLimit.sample_policies quiet sample_coupled_lease sample_lease
    sample_held sample_record RateLimit.sample_policies_wf sample_held_inv (fun _ w _ => quiet_others _ w)
    sample_lease_open sample_record_held))).
Defined.

(** A dispatch whose fate is unknown is treated as accepted, and
    keeps its slots.  Its reservation is settled as committed, the windows of the
    rate lease are charged, and while the lease is unexpired the controller keeps
    it, with all its concurrency keys, marked as charged. *)
Theorem unknown_dispatch_keeps_permit policies interfere l rate now w w' r record :
  policies_wf policies -> world_inv policies w ->
  (forall k w, world_inv policies w -> others policies w (interfere k w)) ->
  lease_open l rate -> reservations (ledger w) !! ra_reservation_id l = Some record ->
  commit_dispatch_unknown interfere now l w = (w', r) ->
  reservations (ledger w') !! ra_reservation_id l = Some (settled_as AccountBudget.Committed record) /\
  (r = Ok tt \/ r = Err (error CommitIncomplete)) /\
  exists before, rtc (ctrl_step policies) (controller w) before /\
    forall x, leases before !! al_id rate = Some x ->
      (forall k window, windows before !! k = Some window -> exists window', windows (controller w') !! k = Some window' /\
         ends_at window' = ends_at window /\ committed window' = committed window + pending_of k x) /\
      (now < lease_expires_at x ->
         leases (controller w') !! al_id rate = Some (x <| rate_committed := true |>)).
Proof.
  intros Hpol Hw Hothers Hopen Hrec Hrun. unfold commit_dispatch_unknown, consuming, commit_dispatch_unknown_body in Hrun.
  rewrite (ensure_open_run _ _ _ _ Hopen) in Hrun.
  destruct (commit_budget_run policies l w record Hw Hrec)
    as (b & l' & res & Hcb & Hw1 & Hrec' & Hok & Hrate & Hfin & Hret & Hid & _).
  rewrite (act_bind_run _ _ _ _ _ (attempt_run _ _ _ _ Hcb)) in Hrun.
  set (w1 := w <| budget_store := mk_lock false b |>) in *.
  pose proof (interfere_inv policies Hpol interfere Hothers 0 w1 Hw1) as Hw2.
  pose proof (Hothers 0%nat w1 Hw1) as Ho.
  destruct Hopen as [Hr Hopen Hnfin Hnret _]. rewrite Hr in Hrate.
  pose proof (consume_run rate (retain_dispatched (al_id rate) now) (controller (interfere 0%nat w1)) Hopen) as Hcons.
  rewrite <- (rate_store_eta policies _ Hw2) in Hcons.
  pose proof (dispose_run interfere (fun rate => RateLimit.commit_rate_and_retain_concurrency rate now) l' rate w1 _ _ Hrate Hcons) as Hdis.
  destruct (retain_dispatched (al_id rate) now (controller (interfere 0%nat w1))) as [c fr] eqn:Hretain.
  unfold commit_rate_and_retain_concurrency in Hrun. rewrite (act_bind_run _ _ _ _ _ (attempt_run _ _ _ _ Hdis)) in Hrun.
  assert (w' = (interfere 0%nat w1) <| rate_store := mk_lock false c |> /\ (r = Ok tt \/ r = Err (error CommitIncomplete)))
    as [-> Hcode].
  { unfold mbind, act_bind, modify, mret, act_ret, set_closed, set_state, fail in Hrun.
    destruct res as [[]|], fr; cbn in Hrun, Hfin, Hret; rewrite ?Hfin, ?orb_true_r, ?andb_false_r in Hrun; cbn in Hrun; injection Hrun as <- <-; eauto. }
  cbn [rate_store budget_store controller ledger lock_data set_field]. split_and!; [|done|].
  - rewrite <- Hid. apply (settled_stays policies w1 _ _ _ Hw1 Ho); [by rewrite Hid|by apply settled_as_settled].
  - exists (controller (interfere 0%nat w1)). split; [apply Ho|]. intros x Hx.
    destruct (retain_run policies Hpol _ _ _ _ _ _ (wi_controller _ _ Hw2) Hx Hretain) as [Hsh Hkeep]. split.
    + intros k win Hwin.
      destruct (commit_spec_window policies _ _ _ k win (wi_controller _ _ Hw2) Hx Hwin) as (w3 & Hw3 & He & Hc & _).
      destruct (shrinks_window_le _ _ _ _ Hsh Hw3) as (w4 & Hw4 & He4 & Hc4 & _). exists w4. split_and!; [done|congruence..].
    + intros [-> _]%Hkeep. unfold commit_spec. destruct (rate_committed x) eqn:Hcm.
      * rewrite Hx. destruct x. cbn in *. by subst.
      * cbn. by rewrite lookup_insert_eq.
Qed.
Lemma unknown_dispatch_keeps_permit_witness :
  reservations (ledger (commit_dispatch_unknown quiet 2000 sample_coupled_lease sample_held).1) !! MkId "r1" =
    Some (sample_record <| record_state := AccountBudget.Committed |>).
Proof.
  exact (proj1 (unknown_dispatch_keeps_permit RateLimit.sample_policies quiet sample_coupled_lease sample_lease 2000
    sample_held _ _ sample_record RateLimit.sample_policies_wf sample_held_inv (fun _ w _ => quiet_others _ w)
    sample_lease_open sample_record_held (surjective_pairing _))).
Defined.
