(* ===== verification/RoutingFailover.v ===== *)
(** * Failover decisions

    Models [crates/optional/ariadnion-routing-failover/src/lib.rs]: the bounded
    candidate plan and the deterministic planner that decides, after a failed
    attempt, whether to retry, to switch or to stop. *)

From S2P Require Import Prelude CoreTypes.
#[local] Open Scope N_scope.

Definition MAX_PLAN_CANDIDATES : N := 32.
Definition MAX_ATTEMPTS : N := 8.
Definition MAX_CANDIDATE_KEY_BYTES : N := 128.

Inductive FailoverErrorCode :=
| InvalidArgument | PlanTooLarge | DuplicateCandidate | AttemptOutOfRange
| CandidateNotInPlan | StreamCommitted.

Definition CandidateKey := Id CandidateKind.
Definition CandidateKey_parse (value : string) : result FailoverErrorCode CandidateKey :=
  if is_empty value || (MAX_CANDIDATE_KEY_BYTES <? byte_len value) || negb (is_ascii value)
     || any_byte (fun a => negb (is_visible_ascii a)) value
  then Err InvalidArgument else Ok (MkId value).

Inductive OperationSafety := ReadOnly | Idempotent | NonIdempotent.
Definition permits_retry (o : OperationSafety) : bool :=
  match o with ReadOnly | Idempotent => true | NonIdempotent => false end.

Inductive StreamCommitment := Uncommitted | FirstByteSent.
#[export] Instance StreamCommitment_eq_dec : EqDecision StreamCommitment.
Proof. solve_decision. Defined.

Inductive FailureClass :=
| Transport | TransientServer | RateLimited | Authentication | InvalidRequest | Policy.
Definition is_retryable (f : FailureClass) : bool :=
  match f with Transport | TransientServer | RateLimited => true | _ => false end.

Inductive AdmissionRefusal := CandidateUnavailable | RequestRejected.
#[export] Instance AdmissionRefusal_eq_dec : EqDecision AdmissionRefusal.
Proof. solve_decision. Defined.
Inductive AttemptOutcome :=
| AdmissionRejected (refusal : AdmissionRefusal)
| ProviderFailure (failure : FailureClass).

Record FailoverPlan := mk_FailoverPlan { candidates : list CandidateKey; max_attempts : N }.

Definition validate_plan_bounds (candidate_count max_attempts : N) : result FailoverErrorCode unit :=
  reject_if ((candidate_count =? 0) || (MAX_PLAN_CANDIDATES <? candidate_count)) PlanTooLarge ;;
  reject_if (negb (in_range 1 MAX_ATTEMPTS max_attempts)) InvalidArgument.
Definition ensure_unique_candidates (cs : list CandidateKey) : result FailoverErrorCode unit :=
  reject_if (negb (all_fresh id [] cs)) DuplicateCandidate.
Definition FailoverPlan_new (cs : list CandidateKey) (max_attempts : N) : result FailoverErrorCode FailoverPlan :=
  validate_plan_bounds (len cs) max_attempts ;;
  ensure_unique_candidates cs ;;
  mret (mk_FailoverPlan cs max_attempts).
(** [FailoverPlan::index_of]. *)
Definition index_of (plan : FailoverPlan) (candidate : CandidateKey) : option nat :=
  fst <$> list_find (fun item => item = candidate) (candidates plan).

Record AttemptContext := mk_AttemptContext {
  candidate : CandidateKey;
  attempt : N;
  operation : OperationSafety;
  stream : StreamCommitment;
}.
Definition AttemptContext_new (candidate : CandidateKey) (attempt : N) (operation : OperationSafety)
    (stream : StreamCommitment) : result FailoverErrorCode AttemptContext :=
  reject_if (attempt =? 0) InvalidArgument ;;
  mret (mk_AttemptContext candidate attempt operation stream).

Inductive FailoverAction := RetrySame | SwitchCandidate (next : CandidateKey) | Stop.
Record FailoverDecision := mk_FailoverDecision { decision_action : FailoverAction; failure : FailureClass }.
Record AttemptDecision := mk_AttemptDecision { action : FailoverAction; outcome : AttemptOutcome }.

Definition validate_attempt (context : AttemptContext) (max_attempts : N) : result FailoverErrorCode unit :=
  reject_if (max_attempts <? attempt context) AttemptOutOfRange.
Definition should_stop (context : AttemptContext) (f : FailureClass) (max_attempts : N) : bool :=
  bool_decide (stream context = FirstByteSent) || negb (is_retryable f)
  || negb (permits_retry (operation context)) || (max_attempts <=? attempt context).
Definition next_action (plan : FailoverPlan) (index : nat) : FailoverAction :=
  match candidates plan !! (index + 1)%nat with
  | Some c => SwitchCandidate c
  | None => RetrySame
  end.
Definition admission_action (plan : FailoverPlan) (context : AttemptContext)
    (refusal : AdmissionRefusal) (index : nat) : FailoverAction :=
  if bool_decide (refusal = RequestRejected) || bool_decide (stream context = FirstByteSent)
     || negb (permits_retry (operation context)) || (max_attempts plan <=? attempt context)
  then Stop
  else match candidates plan !! (index + 1)%nat with
       | Some c => SwitchCandidate c
       | None => Stop
       end.

(** [DeterministicFailoverPlanner::decide] and [decide_outcome]; the planner is its
    plan. *)
Definition decide_failure (plan : FailoverPlan) (context : AttemptContext) (f : FailureClass)
    : result FailoverErrorCode FailoverDecision :=
  index ← ok_or (index_of plan (candidate context)) CandidateNotInPlan;
  validate_attempt context (max_attempts plan) ;;
  if should_stop context f (max_attempts plan) then mret (mk_FailoverDecision Stop f)
  else mret (mk_FailoverDecision (next_action plan index) f).
Definition decide_outcome (plan : FailoverPlan) (context : AttemptContext) (o : AttemptOutcome)
    : result FailoverErrorCode AttemptDecision :=
  a ← match o with
      | ProviderFailure f => d ← decide_failure plan context f; mret (decision_action d)
      | AdmissionRejected refusal =>
          index ← ok_or (index_of plan (candidate context)) CandidateNotInPlan;
          validate_attempt context (max_attempts plan) ;;
          mret (admission_action plan context refusal index)
      end;
  mret (mk_AttemptDecision a o).

(** ** Following the decisions *)

(** The next attempt a decision asks for, of the same operation on a stream that
    may since have been committed. *)
Definition next_context (context : AttemptContext) (a : FailoverAction) (s : StreamCommitment)
    : option AttemptContext :=
  match a with
  | Stop => None
  | RetrySame => Some (mk_AttemptContext (candidate context) (attempt context + 1) (operation context) s)
  | SwitchCandidate c => Some (mk_AttemptContext c (attempt context + 1) (operation context) s)
  end.
Definition follows (plan : FailoverPlan) (x y : AttemptContext) : Prop :=
  exists o d s, decide_outcome plan x o = Ok d /\ next_context x (action d) s = Some y.

(** ** Specification *)

Record plan_wf (plan : FailoverPlan) : Prop := {
  pw_count : 0 < len (candidates plan) <= MAX_PLAN_CANDIDATES;
  pw_attempts : 1 <= max_attempts plan <= MAX_ATTEMPTS;
  pw_unique : NoDup (candidates plan);
}.
(** May this outcome of this attempt be followed by another attempt at all? *)
Definition may_continue (plan : FailoverPlan) (context : AttemptContext) (o : AttemptOutcome) : Prop :=
  stream context = Uncommitted /\ permits_retry (operation context) = true /\
  attempt context < max_attempts plan /\
  match o with
  | ProviderFailure f => is_retryable f = true
  | AdmissionRejected refusal => refusal = CandidateUnavailable
  end.
(** The action, declaratively: the successor in the plan, or for the last
    candidate the same one after a provider failure. *)
Definition chosen_action (plan : FailoverPlan) (index : nat) (o : AttemptOutcome) : FailoverAction :=
  match candidates plan !! (index + 1)%nat, o with
  | Some c, _ => SwitchCandidate c
  | None, ProviderFailure _ => RetrySame
  | None, AdmissionRejected _ => Stop
  end.

Definition sample_plan : FailoverPlan := mk_FailoverPlan [MkId "a"; MkId "b"] 3.
Definition sample_context : AttemptContext := mk_AttemptContext (MkId "a") 1 Idempotent Uncommitted.

(** ** Lemmas *)

Lemma plan_new_wf cs n plan : FailoverPlan_new cs n = Ok plan <-> plan = mk_FailoverPlan cs n /\ plan_wf plan.
Proof.
  unfold FailoverPlan_new, validate_plan_bounds, ensure_unique_candidates. split.
  - intros H. run_steps; tidy. split; [done|].
    unfold in_range in *. tidy. match goal with H : all_fresh _ _ _ = true |- _ => apply all_fresh_NoDup in H as [Hnd _] end.
    rewrite list_fmap_id in Hnd. split; cbn; [lia|lia|done].
  - intros [-> [Hc Ha Hnd]]. cbn in *.
    destruct (N.eqb_spec (len cs) 0); [lia|]. destruct (N.ltb_spec MAX_PLAN_CANDIDATES (len cs)); [lia|]. cbn.
    unfold in_range. rewrite (proj2 (N.leb_le _ _)) by lia. rewrite (proj2 (N.leb_le _ _)) by lia. cbn.
    rewrite (proj2 (all_fresh_NoDup id [] cs)); [done|]. rewrite list_fmap_id. split; [done|].
    intros x _. apply not_elem_of_nil.
Qed.

Lemma index_of_Some plan c i :
  NoDup (candidates plan) -> index_of plan c = Some i <-> candidates plan !! i = Some c.
Proof.
  intros Hnd. unfold index_of. rewrite fmap_Some. split.
  - intros ([j x] & (Hj & -> & _)%list_find_Some & ->). done.
  - intros Hi. exists (i, c). split; [|done]. apply list_find_Some. split_and!; [done..|].
    intros j y Hj Hlt ->. pose proof (NoDup_lookup _ _ _ _ Hnd Hi Hj). lia.
Qed.
Lemma index_of_None plan c : index_of plan c = None <-> c ∉ candidates plan.
Proof.
  unfold index_of. rewrite fmap_None, list_find_None, Forall_forall. split.
  - intros H Hin. by apply (H c).
  - by intros H x Hx ->.
Qed.

Lemma stops_iff plan context f :
  should_stop context f (max_attempts plan) = false <-> may_continue plan context (ProviderFailure f).
Proof.
  unfold should_stop, may_continue. rewrite !orb_false_iff, !negb_false_iff, N.leb_gt, bool_decide_eq_false.
  destruct (stream context); naive_solver.
Qed.
Lemma admission_iff plan context refusal :
  (bool_decide (refusal = RequestRejected) || bool_decide (stream context = FirstByteSent)
     || negb (permits_retry (operation context)) || (max_attempts plan <=? attempt context)) = false
  <-> may_continue plan context (AdmissionRejected refusal).
Proof.
  unfold may_continue. rewrite !orb_false_iff, !negb_false_iff, N.leb_gt, !bool_decide_eq_false.
  destruct (stream context), refusal; naive_solver.
Qed.

Lemma decide_outcome_run plan context o index :
  index_of plan (candidate context) = Some index -> attempt context <= max_attempts plan ->
  (may_continue plan context o -> decide_outcome plan context o = Ok (mk_AttemptDecision (chosen_action plan index o) o)) /\
  (~ may_continue plan context o -> decide_outcome plan context o = Ok (mk_AttemptDecision Stop o)).
Proof.
  intros Hi Ha. unfold decide_outcome, decide_failure, validate_attempt.
  destruct o as [refusal|f]; rewrite Hi; cbn [ok_or mbind result_bind];
    rewrite (proj2 (N.ltb_ge _ _) Ha); cbn [reject_if mret result_ret].
  - unfold admission_action, chosen_action. destruct (_ || _ || _ || _) eqn:E.
    + split; [|done]. intros H%admission_iff. congruence.
    + split; [|intros H; by apply admission_iff in E]. intros _. by destruct (candidates plan !! _).
  - destruct (should_stop context f (max_attempts plan)) eqn:E; cbn.
    + split; [|done]. intros H%stops_iff. congruence.
    + split; [|intros H; by apply stops_iff in E]. intros _. unfold next_action, chosen_action.
      by destruct (candidates plan !! _).
Qed.

Lemma decide_outcome_Ok plan context o d :
  decide_outcome plan context o = Ok d ->
  exists index, index_of plan (candidate context) = Some index /\ attempt context <= max_attempts plan.
Proof.
  unfold decide_outcome, decide_failure, validate_attempt. intros H. run_steps.
  destruct o; run_steps; tidy; eauto.
Qed.
Lemma may_continue_dec plan context o : may_continue plan context o \/ ~ may_continue plan context o.
Proof.
  unfold may_continue. destruct (stream context), (permits_retry (operation context)),
    (N.lt_ge_cases (attempt context) (max_attempts plan)), o as [[]|f]; try (by right; intros (? & ? & ? & ?); try done; lia);
    try (by left). destruct (is_retryable f); [by left|right; by intros (? & ? & ? & ?)].
Qed.

Lemma follows_step plan x y :
  NoDup (candidates plan) -> follows plan x y ->
  attempt y = attempt x + 1 /\ attempt y <= max_attempts plan /\ operation y = operation x /\
  stream x = Uncommitted /\ permits_retry (operation x) = true /\
  exists i j, candidates plan !! i = Some (candidate x) /\ candidates plan !! j = Some (candidate y) /\
    (j = S i \/ (j = i /\ S i = length (candidates plan))).
Proof.
  intros Hnd (o & d & s & Hd & Hnext).
  destruct (decide_outcome_Ok _ _ _ _ Hd) as (i & Hi & Ha).
  destruct (decide_outcome_run plan x o i Hi Ha) as [Hyes Hno].
  destruct (may_continue_dec plan x o) as [Hm|Hm]; [rewrite (Hyes Hm) in Hd|rewrite (Hno Hm) in Hd];
    injection Hd as <-; cbn in Hnext; [|done].
  apply index_of_Some in Hi; [|done]. destruct Hm as (Hs & Hp & Hlt & _).
  unfold chosen_action in Hnext. rewrite Nat.add_1_r in Hnext.
  destruct (candidates plan !! S i) as [c|] eqn:Hc; [|destruct o; [done|]]; cbn in Hnext; injection Hnext as <-;
    cbn; split_and!; try done; try lia; [by exists i, (S i); auto|].
  exists i, i. split_and!; try done. right. split; [done|].
  apply lookup_ge_None in Hc. apply lookup_lt_Some in Hi. lia.
Qed.

(** ** Properties *)

(** A decision is an error exactly when the candidate is not in
    the plan or the attempt is out of range; otherwise the planner asks for another
    attempt only if the stream is uncommitted, the operation may be repeated, an
    attempt is left and the outcome is one that another attempt can cure, and then
    for the next candidate of the plan (or the last one again, after a provider
    failure). *)
Theorem failover_decision plan context o :
  plan_wf plan ->
  (candidate context ∉ candidates plan -> decide_outcome plan context o = Err CandidateNotInPlan) /\
  (candidate context ∈ candidates plan -> max_attempts plan < attempt context ->
     decide_outcome plan context o = Err AttemptOutOfRange) /\
  (forall index, candidates plan !! index = Some (candidate context) -> attempt context <= max_attempts plan ->
     (may_continue plan context o ->
        decide_outcome plan context o = Ok (mk_AttemptDecision (chosen_action plan index o) o)) /\
     (~ may_continue plan context o ->
        decide_outcome plan context o = Ok (mk_AttemptDecision Stop o))).
Proof.
  intros [_ _ Hnd]. split_and!.
  - intros Hn%index_of_None. unfold decide_outcome, decide_failure. destruct o; by rewrite Hn.
  - intros [index Hi]%list_elem_of_lookup Hlt. apply index_of_Some in Hi; [|done].
    unfold decide_outcome, decide_failure, validate_attempt.
    destruct o; rewrite Hi; cbn; by rewrite (proj2 (N.ltb_lt _ _) Hlt).
  - intros index Hi Ha. apply decide_outcome_run; [by apply index_of_Some|done].
Qed.
Lemma sample_plan_wf : plan_wf sample_plan.
Proof. by apply (plan_new_wf [MkId "a"; MkId "b"] 3). Qed.
Lemma failover_decision_witness :
  decide_outcome sample_plan sample_context (ProviderFailure Transport) =
    Ok (mk_AttemptDecision (SwitchCandidate (MkId "b")) (ProviderFailure Transport)).
Proof.
  refine (proj1 (proj2 (proj2 (failover_decision sample_plan sample_context (ProviderFailure Transport) sample_plan_wf))
    0%nat eq_refl _) _); [vm_compute; discriminate | repeat split].
Defined.

(** Following the planner's decisions ends: a chain of [n]
    further attempts after attempt [a] has [a + n <= max_attempts <= 8], repeats
    only a repeatable operation, starts each attempt from an uncommitted stream,
    and only moves forward in the plan. *)
Theorem failover_terminates plan n x y :
  plan_wf plan -> attempt x <= max_attempts plan -> nsteps (follows plan) n x y ->
  attempt y = attempt x + N.of_nat n /\ attempt y <= max_attempts plan /\ max_attempts plan <= 8 /\
  ((0 < n)%nat -> permits_retry (operation x) = true /\ stream x = Uncommitted /\
     exists i j, candidates plan !! i = Some (candidate x) /\ candidates plan !! j = Some (candidate y) /\ (i <= j)%nat).
Proof.
  intros Hwf Hx Hsteps. pose proof (pw_unique _ Hwf) as Hnd. pose proof (pw_attempts _ Hwf) as [_ Hmax].
  induction Hsteps as [x|n x y z Hxy Hsteps IH]; [split_and!; [lia..|done|lia]|].
  destruct (follows_step plan x y Hnd Hxy) as (Ha & Hay & Hop & Hs & Hp & i & j & Hi & Hj & Hij).
  destruct (IH Hay) as (Ha' & Hz & _ & Hmore). split_and!; [lia|done|done|]. intros _. split_and!; [done..|].
  destruct n as [|n]; [inversion Hsteps; subst; exists i, j; split_and!; [done..|lia]|].
  destruct (Hmore ltac:(lia)) as (_ & _ & i' & k & Hi' & Hk & Hle).
  pose proof (NoDup_lookup _ _ _ _ Hnd Hj Hi') as ->. exists i, k. split_and!; [done..|lia].
Qed.
Lemma failover_terminates_witness :
  let y := mk_AttemptContext (MkId "b") 2 Idempotent FirstByteSent in
  attempt y = attempt sample_context + N.of_nat 1 /\ attempt y <= max_attempts sample_plan.
Proof.
  assert (nsteps (follows sample_plan) 1 sample_context (mk_AttemptContext (MkId "b") 2 Idempotent FirstByteSent)) as Hsteps.
  { apply nsteps_once. exists (ProviderFailure Transport), (mk_AttemptDecision (SwitchCandidate (MkId "b")) (ProviderFailure Transport)), FirstByteSent.
    split; vm_compute; reflexivity. }
  destruct (failover_terminates sample_plan 1 sample_context _ sample_plan_wf ltac:(vm_compute; discriminate) Hsteps)
    as (H1 & H2 & _). split; [exact H1 | exact H2].
Defined.
