(* ===== verification/RoutingCost.v ===== *)
(** * Cost constraints

    Models [crates/optional/ariadnion-routing-cost/src/lib.rs]: bounded integer cost
    estimates and the evaluation that splits candidates into a preferred tier, a
    fallback tier and exclusions. *)

From S2P Require Import Prelude CoreTypes.
#[local] Open Scope N_scope.

Definition MAX_CANDIDATES : N := N.shiftl 1 17.
Definition MAX_CANDIDATE_ID_BYTES : N := 128.
Definition MAX_COST_UNITS : N := N.shiftl 1 40.

Inductive RoutingCostErrorCode :=
| InvalidArgument | EmptyCandidates | TooManyCandidates | DuplicateCandidate
| ConstraintConflict | CostOverflow.

Definition CostCandidateId := Id CostCandidateKind.
Definition CostCandidateId_parse (value : string) : result RoutingCostErrorCode CostCandidateId :=
  if is_empty value || (MAX_CANDIDATE_ID_BYTES <? byte_len value) || negb (is_ascii value)
     || any_byte (fun a => negb (is_visible_ascii a)) value
  then Err InvalidArgument else Ok (MkId value).

(** Cost units are a [u64] of at most [MAX_COST_UNITS]. *)
Definition CostUnits_new (value : N) : result RoutingCostErrorCode N :=
  if MAX_COST_UNITS <? value then Err CostOverflow else Ok value.
Definition units_checked_add (a b : N) : result RoutingCostErrorCode N :=
  match checked_add u64_max a b with
  | Some value => if value <=? MAX_COST_UNITS then Ok value else Err CostOverflow
  | None => Err CostOverflow
  end.
(** [CostEstimate::from_components]; an estimate is its units. *)
Definition from_components (input output overhead : N) : result RoutingCostErrorCode N :=
  total ← units_checked_add input output;
  units_checked_add total overhead.

Record CostConstraints := mk_CostConstraints { soft_limit : option N; hard_limit : option N }.
Definition CostConstraints_new (soft hard : option N) : result RoutingCostErrorCode CostConstraints :=
  match soft, hard with
  | Some s, Some h => if h <? s then Err ConstraintConflict else Ok (mk_CostConstraints soft hard)
  | _, _ => Ok (mk_CostConstraints soft hard)
  end.

Record CostedCandidate := mk_CostedCandidate { costed_id : CostCandidateId; costed_units : N }.
Record CandidateCostInput := mk_CandidateCostInput { candidate : CostCandidateId; estimate : option N }.
Inductive CostExclusionReason := MissingEstimate | HardLimitExceeded (limit : N).
Record CostExclusion := mk_CostExclusion { excluded_id : CostCandidateId; reason : CostExclusionReason }.
Record CostEvaluation := mk_CostEvaluation {
  preferred : list CostedCandidate;
  fallback : list CostedCandidate;
  exclusions : list CostExclusion;
}.
#[export] Instance CostEvaluation_eta : Eta CostEvaluation := fun e =>
  mk_CostEvaluation (preferred e) (fallback e) (exclusions e).

Definition first_acceptable (e : CostEvaluation) : option CostedCandidate :=
  match head (preferred e) with Some c => Some c | None => head (fallback e) end.

(** [classify_input] pushes onto one of the three lists. *)
Definition classify_input (input : CandidateCostInput) (constraints : CostConstraints)
    (e : CostEvaluation) : CostEvaluation :=
  match estimate input with
  | None => e <| exclusions := exclusions e ++ [mk_CostExclusion (candidate input) MissingEstimate] |>
  | Some units =>
      match hard_limit constraints with
      | Some limit =>
          if limit <? units
          then e <| exclusions := exclusions e ++ [mk_CostExclusion (candidate input) (HardLimitExceeded limit)] |>
          else
            if is_some_and (fun limit => limit <? units) (soft_limit constraints)
            then e <| fallback := fallback e ++ [mk_CostedCandidate (candidate input) units] |>
            else e <| preferred := preferred e ++ [mk_CostedCandidate (candidate input) units] |>
      | None =>
          if is_some_and (fun limit => limit <? units) (soft_limit constraints)
          then e <| fallback := fallback e ++ [mk_CostedCandidate (candidate input) units] |>
          else e <| preferred := preferred e ++ [mk_CostedCandidate (candidate input) units] |>
      end
  end.

Fixpoint evaluate_from (inputs : list CandidateCostInput) (constraints : CostConstraints)
    (seen : list CostCandidateId) (e : CostEvaluation) : result RoutingCostErrorCode CostEvaluation :=
  match inputs with
  | [] => Ok e
  | input :: inputs' =>
      if decide (candidate input ∈ seen) then Err DuplicateCandidate
      else evaluate_from inputs' constraints (candidate input :: seen) (classify_input input constraints e)
  end.
Definition evaluate (inputs : list CandidateCostInput) (constraints : CostConstraints)
    : result RoutingCostErrorCode CostEvaluation :=
  reject_if (bool_decide (inputs = [])) EmptyCandidates ;;
  reject_if (MAX_CANDIDATES <? len inputs) TooManyCandidates ;;
  evaluate_from inputs constraints [] (mk_CostEvaluation [] [] []).

(** ** Specification: every candidate's tier, by itself *)

Inductive tier := Preferred (units : N) | Fallback (units : N) | Excluded (why : CostExclusionReason).
Definition tier_of (constraints : CostConstraints) (input : CandidateCostInput) : tier :=
  match estimate input with
  | None => Excluded MissingEstimate
  | Some units =>
      match hard_limit constraints, soft_limit constraints with
      | Some hard, Some soft =>
          if hard <? units then Excluded (HardLimitExceeded hard)
          else if soft <? units then Fallback units else Preferred units
      | Some hard, None => if hard <? units then Excluded (HardLimitExceeded hard) else Preferred units
      | None, Some soft => if soft <? units then Fallback units else Preferred units
      | None, None => Preferred units
      end
  end.
(** The evaluation keeps, for each tier, its inputs in the caller's order. *)
Definition evaluation_spec (constraints : CostConstraints) (inputs : list CandidateCostInput) : CostEvaluation :=
  mk_CostEvaluation
    (omap (fun i => match tier_of constraints i with
                    | Preferred units => Some (mk_CostedCandidate (candidate i) units) | _ => None end) inputs)
    (omap (fun i => match tier_of constraints i with
                    | Fallback units => Some (mk_CostedCandidate (candidate i) units) | _ => None end) inputs)
    (omap (fun i => match tier_of constraints i with
                    | Excluded why => Some (mk_CostExclusion (candidate i) why) | _ => None end) inputs).

(** Evaluations side by side. *)
Definition join (a b : CostEvaluation) : CostEvaluation :=
  mk_CostEvaluation (preferred a ++ preferred b) (fallback a ++ fallback b) (exclusions a ++ exclusions b).

Definition sample_constraints : CostConstraints := mk_CostConstraints (Some 10) (Some 20).
Definition sample_inputs : list CandidateCostInput :=
  [ mk_CandidateCostInput (MkId "a") (Some 15); mk_CandidateCostInput (MkId "b") None;
    mk_CandidateCostInput (MkId "c") (Some 5); mk_CandidateCostInput (MkId "d") (Some 21) ].

(** ** Lemmas *)

Lemma classify_spec input constraints e :
  classify_input input constraints e = join e (evaluation_spec constraints [input]).
Proof.
  unfold classify_input, evaluation_spec, tier_of, join. destruct e as [p f x]. cbn.
  destruct (estimate input) as [units|]; cbn; [|by rewrite !app_nil_r].
  destruct (hard_limit constraints) as [hard|], (soft_limit constraints) as [soft|]; cbn;
    repeat case_match; cbn; by rewrite ?app_nil_r.
Qed.
Lemma evaluation_cons constraints input inputs :
  evaluation_spec constraints (input :: inputs) =
    join (evaluation_spec constraints [input]) (evaluation_spec constraints inputs).
Proof.
  unfold evaluation_spec, join. cbn. by destruct (tier_of constraints input).
Qed.
Lemma join_assoc a b c : join (join a b) c = join a (join b c).
Proof. unfold join. cbn. by rewrite !app_assoc. Qed.

Lemma evaluate_from_run inputs constraints seen e :
  evaluate_from inputs constraints seen e =
    if all_fresh candidate seen inputs then Ok (join e (evaluation_spec constraints inputs))
    else Err DuplicateCandidate.
Proof.
  revert seen e. induction inputs as [|input inputs IH]; intros seen e; cbn [evaluate_from all_fresh].
  - unfold join. destruct e. cbn. by rewrite !app_nil_r.
  - case_decide; [done|]. rewrite IH. destruct (all_fresh _ _ _); [|done].
    by rewrite classify_spec, join_assoc, <- evaluation_cons.
Qed.

Lemma evaluate_run inputs constraints :
  evaluate inputs constraints =
    if decide (inputs = []) then Err EmptyCandidates
    else if MAX_CANDIDATES <? len inputs then Err TooManyCandidates
    else if all_fresh candidate [] inputs then Ok (evaluation_spec constraints inputs)
    else Err DuplicateCandidate.
Proof.
  unfold evaluate. case_decide as Hn; [by rewrite bool_decide_eq_true_2|].
  rewrite bool_decide_eq_false_2 by done. cbn. destruct (MAX_CANDIDATES <? len inputs); [done|]. cbn.
  rewrite evaluate_from_run. by destruct (all_fresh candidate [] inputs).
Qed.

Lemma evaluation_length constraints inputs :
  len (preferred (evaluation_spec constraints inputs)) + len (fallback (evaluation_spec constraints inputs))
    + len (exclusions (evaluation_spec constraints inputs)) = len inputs.
Proof.
  unfold len. induction inputs as [|i inputs IH]; [done|]. rewrite evaluation_cons. unfold join.
  cbn [preferred fallback exclusions]. rewrite !length_app. cbn [length].
  assert (length (preferred (evaluation_spec constraints [i])) + length (fallback (evaluation_spec constraints [i]))
    + length (exclusions (evaluation_spec constraints [i])) = 1)%nat as H1.
  { unfold evaluation_spec. cbn. by destruct (tier_of constraints i). }
  lia.
Qed.

(** ** Properties *)

(** An evaluation is refused exactly for an empty, oversized or
    duplicated candidate list; otherwise it classifies every candidate by its own
    estimate and the limits alone, and each of the three lists is in the caller's
    order: no candidate is lost, duplicated or moved by the accumulating loop. *)
Theorem evaluate_partitions inputs constraints :
  (evaluate inputs constraints = Ok (evaluation_spec constraints inputs) /\
   inputs <> [] /\ len inputs <= MAX_CANDIDATES /\ NoDup (candidate <$> inputs)) \/
  (exists e, evaluate inputs constraints = Err e /\
     (inputs = [] \/ MAX_CANDIDATES < len inputs \/ ~ NoDup (candidate <$> inputs))).
Proof.
  rewrite evaluate_run. case_decide as Hn; [right; eauto|].
  destruct (N.ltb_spec MAX_CANDIDATES (len inputs)); [right; eauto|].
  destruct (all_fresh candidate [] inputs) eqn:Hf; [left|right].
  - apply all_fresh_NoDup in Hf as [Hnd _]. done.
  - eexists. split; [done|]. right. right. intros Hnd.
    apply not_true_iff_false in Hf. apply Hf, all_fresh_NoDup. split; [done|]. intros x _. apply not_elem_of_nil.
Qed.

(** The limits hold of what is offered: under validated constraints no
    preferred candidate exceeds the soft limit, none offered exceeds the hard
    limit, every offered unit count is the candidate's own estimate, and there is
    no first choice only when every candidate was excluded. *)
Theorem offered_within_limits inputs soft hard constraints e c :
  CostConstraints_new soft hard = Ok constraints -> evaluate inputs constraints = Ok e ->
  (c ∈ preferred e -> forall limit, soft = Some limit -> costed_units c <= limit) /\
  (c ∈ preferred e ++ fallback e ->
     (forall limit, hard = Some limit -> costed_units c <= limit) /\
     mk_CandidateCostInput (costed_id c) (Some (costed_units c)) ∈ inputs) /\
  (first_acceptable e = None <-> len (exclusions e) = len inputs).
Proof.
  intros Hc. rewrite evaluate_run. intros He.
  assert (constraints = mk_CostConstraints soft hard /\
    (forall s h, soft = Some s -> hard = Some h -> s <= h)) as [-> Horder].
  { unfold CostConstraints_new in Hc. destruct soft as [s|], hard as [h|]; simplify_eq; try (by split).
    destruct (N.ltb_spec h s); simplify_eq. split; [done|]. by intros ? ? [= <-] [= <-]. }
  assert (e = evaluation_spec (mk_CostConstraints soft hard) inputs) as -> by (repeat case_match; by simplify_eq).
  clear He. split_and!.
  - intros (i & Hi & Ht)%list_elem_of_omap limit ->. unfold tier_of in Ht. cbn in Ht.
    repeat case_match; simplify_eq; cbn; repeat match goal with H : (_ <? _) = false |- _ => apply N.ltb_ge in H end; done.
  - intros [H|H]%elem_of_app; apply list_elem_of_omap in H as (i & Hi & Ht); unfold tier_of in Ht; cbn in Ht;
      destruct i as [id [units|]]; cbn in *; [|done| |done];
      (split; [intros limit ->|]; repeat case_match; simplify_eq; cbn;
        repeat match goal with H : (_ <? _) = false |- _ => apply N.ltb_ge in H end; try done).
  - pose proof (evaluation_length (mk_CostConstraints soft hard) inputs) as Hlen. unfold first_acceptable, len in *.
    destruct (preferred _) as [|p ps], (fallback _) as [|q qs]; cbn in *; split; try done; lia.
Qed.
Lemma offered_within_limits_witness :
  first_acceptable (evaluation_spec sample_constraints sample_inputs) = None <->
  len (exclusions (evaluation_spec sample_constraints sample_inputs)) = len sample_inputs.
Proof.
  refine (proj2 (proj2 (offered_within_limits sample_inputs (Some 10) (Some 20) sample_constraints
    (evaluation_spec sample_constraints sample_inputs) (mk_CostedCandidate (MkId "c") 5) _ _))); vm_compute; reflexivity.
Defined.
