(* ===== verification/ModelPricing.v ===== *)
(** * Model pricing catalogs

    Models [crates/optional/ariadnion-model-pricing/src/lib.rs]: validated price
    schedules with effective windows, the catalog that accepts a conflict-free
    set of them, and quotes.  Instants, versions and amounts are [u64]. *)

From S2P Require Import Prelude CoreTypes.
#[local] Open Scope N_scope.

Definition MAX_MODEL_ID_BYTES : N := 128.
Definition MAX_SCHEDULES : N := 4096.
Definition MAX_DIMENSIONS : N := 8.
Definition MAX_MINOR_UNITS : N := 9000000000000000000.

Inductive ModelPricingErrorCode :=
| InvalidArgument | LimitExceeded | DuplicateDimension | OverlappingWindow
| DuplicateSchedule | NotFound | Overflow | VersionExhausted.

(** [CurrencyCode::parse]: three uppercase ASCII letters, kept as the string. *)
Definition CurrencyCode_parse (value : string) : result ModelPricingErrorCode string :=
  if negb (byte_len value =? 3) || negb (all_bytes is_ascii_uppercase value)
  then Err InvalidArgument else Ok value.

(** [PricingVersion::new] and [next]: a non-zero [u64]. *)
Definition PricingVersion_new (value : N) : result ModelPricingErrorCode N :=
  if value =? 0 then Err InvalidArgument else Ok value.
Definition version_next (v : N) : result ModelPricingErrorCode N :=
  ok_or (checked_add u64_max v 1) VersionExhausted.

Record EffectiveWindow := mk_EffectiveWindow { start : N; end_ : option N }.
#[export] Instance EffectiveWindow_eq_dec : EqDecision EffectiveWindow.
Proof. solve_decision. Defined.
Definition EffectiveWindow_new (start : N) (end_ : option N) : result ModelPricingErrorCode EffectiveWindow :=
  if is_some_and (fun value => value <=? start) end_ then Err InvalidArgument
  else Ok (mk_EffectiveWindow start end_).
Definition contains (w : EffectiveWindow) (timestamp : N) : bool :=
  (start w <=? timestamp) && is_none_or (fun e => timestamp <? e) (end_ w).
Definition overlaps (w other : EffectiveWindow) : bool :=
  (start w <? default u64_max (end_ other)) && (start other <? default u64_max (end_ w)).

Inductive PriceDimension := InputTokens | OutputTokens | CachedInputTokens | MediaInput | ToolCalls.
#[export] Instance PriceDimension_eq_dec : EqDecision PriceDimension.
Proof. solve_decision. Defined.
Definition dimension_index (d : PriceDimension) : N :=
  match d with InputTokens => 0 | OutputTokens => 1 | CachedInputTokens => 2 | MediaInput => 3 | ToolCalls => 4 end.
#[export] Instance PriceDimension_ord : Ord PriceDimension := fun x y =>
  cmp (dimension_index x) (dimension_index y).

Definition PriceMinorUnits_new (value : N) : result ModelPricingErrorCode N :=
  if MAX_MINOR_UNITS <? value then Err Overflow else Ok value.
Definition price_checked_mul (price quantity : N) : result ModelPricingErrorCode N :=
  ok_or (value ← checked_mul u64_max price quantity;
         if value <=? MAX_MINOR_UNITS then Some value else None) Overflow.

Record PriceEntry := mk_PriceEntry { dimension : PriceDimension; price : N }.
Record ModelPricingSchedule := mk_ModelPricingSchedule {
  model_id : string;
  currency : string;
  version : N;
  window : EffectiveWindow;
  entries : list PriceEntry;
}.

Definition valid_model_id (value : string) : bool :=
  negb (is_empty value) && (byte_len value <=? MAX_MODEL_ID_BYTES)
  && is_ascii value && all_bytes is_visible_ascii value.

Definition ModelPricingSchedule_new (model_id currency : string) (version : N) (window : EffectiveWindow)
    (prices : list (PriceDimension * N)) : result ModelPricingErrorCode ModelPricingSchedule :=
  reject_if (negb (valid_model_id model_id)) InvalidArgument ;;
  let es := (fun e => mk_PriceEntry e.1 e.2) <$> prices in
  reject_if (bool_decide (es = []) || (MAX_DIMENSIONS <? len es)) LimitExceeded ;;
  let sorted := sort_by dimension es in
  reject_if (adjacent_duplicate dimension sorted) DuplicateDimension ;;
  mret (mk_ModelPricingSchedule model_id currency version window sorted).

Definition price_for (s : ModelPricingSchedule) (d : PriceDimension) : option N :=
  price <$> binary_search (fun e => cmp (dimension e) d) (entries s).

Definition shares_dimension (left right : ModelPricingSchedule) : bool :=
  existsb (fun e => bool_decide (is_Some (price_for right (dimension e)))) (entries left).
Definition schedule_pair_error (left right : ModelPricingSchedule) : option ModelPricingErrorCode :=
  if negb (String.eqb (model_id left) (model_id right)) then None
  else if (version left =? version right) && bool_decide (window left = window right)
  then Some DuplicateSchedule
  else if overlaps (window left) (window right) && shares_dimension left right
  then Some OverlappingWindow
  else None.

(** [find_map]. *)
Fixpoint find_map {A B} (f : A -> option B) (l : list A) : option B :=
  match l with
  | [] => None
  | x :: l' => match f x with Some y => Some y | None => find_map f l' end
  end.
Fixpoint validate_schedule_conflicts (l : list ModelPricingSchedule) : result ModelPricingErrorCode unit :=
  match l with
  | [] => Ok tt
  | s :: l' =>
      match find_map (schedule_pair_error s) l' with
      | Some code => Err code
      | None => validate_schedule_conflicts l'
      end
  end.

Definition schedule_key (s : ModelPricingSchedule) : string * (string * (N * N)) :=
  (model_id s, (currency s, (start (window s), version s))).
(** [PricingCatalog::new]; a catalog is its schedules. *)
Definition PricingCatalog_new (schedules : list ModelPricingSchedule)
    : result ModelPricingErrorCode (list ModelPricingSchedule) :=
  reject_if (bool_decide (schedules = []) || (MAX_SCHEDULES <? len schedules)) LimitExceeded ;;
  let sorted := sort_by schedule_key schedules in
  validate_schedule_conflicts sorted ;;
  mret sorted.

Record PriceQuote := mk_PriceQuote {
  quote_currency : string; quote_version : N; quote_dimension : PriceDimension;
  quote_price : N; quote_quantity : N; quote_total : N;
}.

Definition offers (model : string) (d : PriceDimension) (timestamp : N) (s : ModelPricingSchedule) : bool :=
  String.eqb (model_id s) model && contains (window s) timestamp && bool_decide (is_Some (price_for s d)).
Definition quote_at (catalog : list ModelPricingSchedule) (model : string) (d : PriceDimension)
    (timestamp quantity : N) : result ModelPricingErrorCode PriceQuote :=
  s ← ok_or (List.find (offers model d timestamp) catalog) NotFound;
  p ← ok_or (price_for s d) NotFound;
  total ← price_checked_mul p quantity;
  mret (mk_PriceQuote (currency s) (version s) d p quantity total).

(** ** Specification *)

(** What the constructors establish. *)
Definition schedule_wf (s : ModelPricingSchedule) : Prop :=
  strictly_sorted_by dimension (entries s).

Definition sample_schedule (version start : N) (p : N) : ModelPricingSchedule :=
  mk_ModelPricingSchedule "m" "USD" version (mk_EffectiveWindow start None) [mk_PriceEntry InputTokens p].
Definition sample_past (version start stop p : N) : ModelPricingSchedule :=
  mk_ModelPricingSchedule "m" "USD" version (mk_EffectiveWindow start (Some stop)) [mk_PriceEntry InputTokens p].

(** ** Lemmas *)

#[export] Instance PriceDimension_ord_laws : OrdLaws PriceDimension.
Proof.
  split.
  - intros x y. unfold cmp, PriceDimension_ord, cmp, N_ord. rewrite N.compare_eq_iff. by destruct x, y.
  - intros x y. apply (cmp_opp (A:=N)).
  - intros x y z. apply (cmp_lt_trans (A:=N)).
Qed.

Lemma schedule_new_wf m c v w ps s : ModelPricingSchedule_new m c v w ps = Ok s -> schedule_wf s.
Proof.
  unfold ModelPricingSchedule_new. intros H. run_steps. unfold schedule_wf. cbn.
  match goal with H : adjacent_duplicate _ _ = false |- _ => apply (adjacent_duplicate_perm dimension) in H as Hnd end.
  apply sorted_NoDup_strict; [apply sort_by_sorted|]. by rewrite sort_by_Permutation.
Qed.
Lemma price_for_Some s d p : schedule_wf s -> price_for s d = Some p <-> mk_PriceEntry d p ∈ entries s.
Proof.
  intros Hs. unfold price_for. rewrite fmap_Some. split.
  - intros (e & He & ->). apply (binary_search_spec dimension) in He as [He <-]; [|done]. by destruct e.
  - intros He. exists (mk_PriceEntry d p). split; [|done]. by apply (binary_search_spec dimension).
Qed.
Lemma find_map_None {A B} (f : A -> option B) l : find_map f l = None <-> (forall x, x ∈ l -> f x = None).
Proof.
  induction l as [|x l IH]; cbn; [split; [by intros _ x ?%not_elem_of_nil|done]|].
  destruct (f x) eqn:Hx.
  - split; [done|]. intros H. rewrite <- Hx. apply H. left.
  - rewrite IH. split; [|intros H y Hy; apply H; by right]. by intros H y [->|Hy%H]%elem_of_cons.
Qed.

Lemma conflicts_Ok l u :
  validate_schedule_conflicts l = Ok u ->
  forall i j x y, (i < j)%nat -> l !! i = Some x -> l !! j = Some y -> schedule_pair_error x y = None.
Proof.
  induction l as [|s l IH]; cbn; [by intros _ [|i] j x y|].
  destruct (find_map _ l) eqn:Hf; [done|]. intros Hl i j x y Hij Hx Hy.
  destruct j as [|j]; [lia|]. cbn in Hy. destruct i as [|i]; cbn in Hx.
  - injection Hx as <-. apply (proj1 (find_map_None _ _) Hf). by eapply list_elem_of_lookup_2.
  - apply (IH Hl i j); [lia|done..].
Qed.

(** Two schedules that offer a price at the same instant conflict. *)
Lemma common_offer_conflicts x y model d ts :
  ts < u64_max -> schedule_wf x ->
  offers model d ts x = true -> offers model d ts y = true -> schedule_pair_error x y <> None.
Proof.
  intros Hts Hwf Hx Hy. unfold offers, contains in *.
  apply andb_true_iff in Hx as [Hx Hpx], Hy as [Hy Hpy].
  apply andb_true_iff in Hx as [Hmx Hcx], Hy as [Hmy Hcy].
  apply String.eqb_eq in Hmx, Hmy. apply bool_decide_eq_true in Hpx, Hpy. tidy.
  unfold schedule_pair_error. rewrite Hmx, Hmy, String.eqb_refl. cbn.
  destruct (_ && bool_decide _); [done|].
  assert (overlaps (window x) (window y) = true) as ->.
  { unfold overlaps. apply andb_true_iff. split; apply N.ltb_lt.
    - destruct (end_ (window y)); cbn in *; tidy; lia.
    - destruct (end_ (window x)); cbn in *; tidy; lia. }
  assert (shares_dimension x y = true) as ->; [|done].
  destruct Hpx as [p Hp%price_for_Some]; [|done]. unfold shares_dimension. apply existsb_exists.
  exists (mk_PriceEntry d p). split; [by apply list_elem_of_In|]. by apply bool_decide_eq_true.
Qed.

Lemma catalog_new_Ok l c :
  PricingCatalog_new l = Ok c -> c = sort_by schedule_key l /\ (exists u, validate_schedule_conflicts c = Ok u).
Proof. unfold PricingCatalog_new. intros H. run_steps. eauto. Qed.

Lemma catalog_unique_offer l c model d ts x y :
  (forall s, s ∈ l -> schedule_wf s) -> PricingCatalog_new l = Ok c -> ts < u64_max ->
  x ∈ c -> y ∈ c -> offers model d ts x = true -> offers model d ts y = true -> x = y.
Proof.
  intros Hwf (-> & u & Hc)%catalog_new_Ok Hts Hx Hy Hox Hoy.
  assert (forall s, s ∈ sort_by schedule_key l -> schedule_wf s) as Hwf'.
  { intros s. rewrite sort_by_Permutation. apply Hwf. }
  apply list_elem_of_lookup in Hx as [i Hi], Hy as [j Hj].
  pose proof (Hwf' x (list_elem_of_lookup_2 _ _ _ Hi)). pose proof (Hwf' y (list_elem_of_lookup_2 _ _ _ Hj)).
  destruct (Nat.lt_trichotomy i j) as [Hlt|[->|Hlt]]; [|congruence|]; exfalso.
  - eapply (common_offer_conflicts x y); eauto. by eapply conflicts_Ok.
  - eapply (common_offer_conflicts y x); eauto. by eapply conflicts_Ok.
Qed.

Lemma find_Some_elem {A} (p : A -> bool) l x : List.find p l = Some x -> x ∈ l /\ p x = true.
Proof. intros [Hx Hp]%List.find_some. by rewrite list_elem_of_In. Qed.
Lemma find_None_elem {A} (p : A -> bool) l x : List.find p l = None -> x ∈ l -> p x = false.
Proof. intros Hf Hx%list_elem_of_In. by eapply List.find_none. Qed.

(** ** Properties *)

(** In an accepted catalog at most one schedule prices a model's
    dimension at an instant (the last representable one excepted), so a quote does
    not depend on the order the schedules were given in. *)
Theorem quotes_order_independent l l' c c' model d ts quantity :
  (forall s, s ∈ l -> schedule_wf s) -> l ≡ₚ l' ->
  PricingCatalog_new l = Ok c -> PricingCatalog_new l' = Ok c' -> ts < u64_max ->
  quote_at c model d ts quantity = quote_at c' model d ts quantity.
Proof.
  intros Hwf Hp Hc Hc' Hts.
  assert (forall s, s ∈ c <-> s ∈ c') as Hsame.
  { intros s. apply catalog_new_Ok in Hc as [-> _], Hc' as [-> _]. by rewrite !sort_by_Permutation, Hp. }
  unfold quote_at.
  assert (List.find (offers model d ts) c = List.find (offers model d ts) c') as ->; [|done].
  destruct (List.find _ c) as [x|] eqn:Hx, (List.find _ c') as [y|] eqn:Hy; [| | |done].
  - apply find_Some_elem in Hx as [Hx Hox], Hy as [Hy Hoy]. f_equal.
    eapply (catalog_unique_offer l c); eauto. by apply Hsame.
  - apply find_Some_elem in Hx as [Hx Hox]. apply (find_None_elem _ _ x) in Hy; [congruence|by apply Hsame].
  - apply find_Some_elem in Hy as [Hy Hoy]. apply (find_None_elem _ _ y) in Hx; [congruence|by apply Hsame].
Qed.
Lemma sample_wf s : s ∈ [sample_schedule 2 100 7; sample_past 1 0 100 5] -> schedule_wf s.
Proof.
  intros [->|[->|?%not_elem_of_nil]%elem_of_cons]%elem_of_cons; [| |done];
    unfold schedule_wf; cbn; repeat constructor.
Qed.
Lemma quotes_order_independent_witness :
  quote_at [sample_past 1 0 100 5; sample_schedule 2 100 7] "m" InputTokens 150 3 =
  quote_at [sample_past 1 0 100 5; sample_schedule 2 100 7] "m" InputTokens 150 3.
Proof.
  refine (quotes_order_independent [sample_schedule 2 100 7; sample_past 1 0 100 5]
    [sample_past 1 0 100 5; sample_schedule 2 100 7] _ _ "m" InputTokens 150 3 sample_wf _ _ _ _);
    [apply perm_swap | vm_compute; reflexivity ..].
Defined.

(** A quote is exact and never wraps: it fails with [NotFound]
    exactly when no schedule of the catalog offers the price, with [Overflow]
    exactly when the product exceeds the bound, and otherwise its total is the
    listed price times the quantity. *)
Theorem quote_exact l c model d ts quantity :
  (forall s, s ∈ l -> schedule_wf s) -> PricingCatalog_new l = Ok c -> ts < u64_max ->
  match quote_at c model d ts quantity with
  | Ok q => exists s, s ∈ c /\ model_id s = model /\ contains (window s) ts = true /\
      mk_PriceEntry d (quote_price q) ∈ entries s /\
      quote_total q = quote_price q * quantity /\ quote_price q * quantity <= MAX_MINOR_UNITS
  | Err NotFound => forall s p, s ∈ c -> model_id s = model -> contains (window s) ts = true ->
      mk_PriceEntry d p ∉ entries s
  | Err Overflow => exists s p, s ∈ c /\ model_id s = model /\ contains (window s) ts = true /\
      mk_PriceEntry d p ∈ entries s /\ MAX_MINOR_UNITS < p * quantity
  | Err _ => False
  end.
Proof.
  intros Hwf Hc Hts. pose proof (catalog_new_Ok _ _ Hc) as [Hcs _].
  assert (forall s, s ∈ c -> schedule_wf s) as Hwfc by (intros s; subst c; rewrite sort_by_Permutation; apply Hwf).
  unfold quote_at. destruct (List.find _ c) as [s|] eqn:Hf; cbn.
  - apply find_Some_elem in Hf as [Hs Ho]. unfold offers in Ho. tidy.
    match goal with H : String.eqb _ _ = true |- _ => apply String.eqb_eq in H end.
    match goal with H : is_Some _ |- _ => destruct H as [p Hp] end.
    rewrite Hp. cbn. pose proof (proj1 (price_for_Some s d p (Hwfc s Hs)) Hp) as Hin.
    unfold price_checked_mul, checked_mul.
    destruct (N.leb_spec (p * quantity) u64_max); cbn;
      [destruct (N.leb_spec (p * quantity) MAX_MINOR_UNITS); cbn|].
    + exists s. by split_and!.
    + exists s, p. by split_and!.
    + exists s, p. split_and!; try done. unfold MAX_MINOR_UNITS, u64_max in *. lia.
  - intros s p Hs Hm Hct Hin. pose proof (find_None_elem _ _ s Hf Hs) as Ho. unfold offers in Ho.
    rewrite Hct, (proj2 (String.eqb_eq _ _) Hm) in Ho. cbn in Ho. tidy. apply Ho.
    exists p. by apply price_for_Some; [apply Hwfc|].
Qed.
Lemma quote_exact_witness :
  exists s, s ∈ [sample_past 1 0 100 5; sample_schedule 2 100 7] /\ model_id s = "m" /\
    contains (window s) 150 = true /\ mk_PriceEntry InputTokens 7 ∈ entries s /\ 21 = 7 * 3 /\ 7 * 3 <= MAX_MINOR_UNITS.
Proof.
  apply (quote_exact [sample_schedule 2 100 7; sample_past 1 0 100 5] [sample_past 1 0 100 5; sample_schedule 2 100 7]
    "m" InputTokens 150 3 sample_wf); vm_compute; reflexivity.
Defined.

(** The overlap test reads an open end as the instant [u64::MAX], which the window
    contains: two accepted schedules can both price that instant. *)
Example last_instant_overlap :
  PricingCatalog_new [sample_schedule 1 0 5; sample_schedule 2 u64_max 7] =
    Ok [sample_schedule 1 0 5; sample_schedule 2 u64_max 7] /\
  offers "m" InputTokens u64_max (sample_schedule 1 0 5) = true /\
  offers "m" InputTokens u64_max (sample_schedule 2 u64_max 7) = true.
Proof. vm_compute. done. Qed.
