(* ===== verification/RoutingPolicy.v ===== *)
(** * The routing policy

    Models [crates/optional/ariadnion-routing-policy/src/model.rs] and [policy.rs]: the
    validated candidate snapshot, the selection of one candidate by priority, weighted
    least load and identity, and the explanation of why every other one lost.  Products
    of loads and weights are below 2^51, so the [u128] comparison is exact. *)

From S2P Require Import Prelude CoreTypes.
#[local] Open Scope N_scope.

Definition MAX_CANDIDATES : N := N.shiftl 1 17.
Definition MAX_CANDIDATE_ID_BYTES : N := 128.
Definition MAX_LOAD : N := N.shiftl 1 30.
Definition MAX_WEIGHT : N := N.shiftl 1 20.

Inductive RoutingPolicyErrorCode :=
  | EmptyCandidates | TooManyCandidates | InvalidCandidateId | DuplicateCandidateId
  | WeightOutOfRange | LoadOutOfRange | NoEligibleCandidates.
#[export] Instance RoutingPolicyErrorCode_eq_dec : EqDecision RoutingPolicyErrorCode.
Proof. solve_decision. Defined.
Definition as_str (code : RoutingPolicyErrorCode) : string :=
  match code with
  | EmptyCandidates => "ROUTING_POLICY_EMPTY_CANDIDATES"
  | TooManyCandidates => "ROUTING_POLICY_TOO_MANY_CANDIDATES"
  | InvalidCandidateId => "ROUTING_POLICY_INVALID_CANDIDATE_ID"
  | DuplicateCandidateId => "ROUTING_POLICY_DUPLICATE_CANDIDATE_ID"
  | WeightOutOfRange => "ROUTING_POLICY_WEIGHT_OUT_OF_RANGE"
  | LoadOutOfRange => "ROUTING_POLICY_LOAD_OUT_OF_RANGE"
  | NoEligibleCandidates => "ROUTING_POLICY_NO_ELIGIBLE_CANDIDATES"
  end.
Record RoutingPolicyError := mk_RoutingPolicyError { error_code : RoutingPolicyErrorCode; detail : string }.

(** ** The model ([model.rs]) *)

Definition CandidateId := string.
Definition CandidateId_new (value : string) : result RoutingPolicyError CandidateId :=
  if is_empty value || (MAX_CANDIDATE_ID_BYTES <? byte_len value)
  then Err (mk_RoutingPolicyError InvalidCandidateId "candidate identifier must be non-empty and within the byte limit")
  else Ok value.
Definition Weight_new (value : N) : result RoutingPolicyError N :=
  if MAX_WEIGHT <? value
  then Err (mk_RoutingPolicyError WeightOutOfRange "candidate weight exceeds the supported bound") else Ok value.
Definition Load_new (value : N) : result RoutingPolicyError N :=
  if MAX_LOAD <? value
  then Err (mk_RoutingPolicyError LoadOutOfRange "candidate load exceeds the supported bound") else Ok value.

Inductive Availability := Available | CandidateUnavailable.
#[export] Instance Availability_eq_dec : EqDecision Availability.
Proof. solve_decision. Defined.
Record Candidate := mk_Candidate {
  candidate_id : CandidateId; priority : N; weight : N; load : N; availability : Availability;
}.
#[export] Instance Candidate_eq_dec : EqDecision Candidate.
Proof. solve_decision. Defined.

Fixpoint insert_all (identifiers : gset CandidateId) (candidates : list Candidate) : result RoutingPolicyError unit :=
  match candidates with
  | [] => mret tt
  | candidate :: candidates =>
      reject_if (bool_decide (candidate_id candidate ∈ identifiers))
        (mk_RoutingPolicyError DuplicateCandidateId "candidate identifiers must be unique within one snapshot") ;;
      insert_all ({[candidate_id candidate]} ∪ identifiers) candidates
  end.
Definition validate_candidates (candidates : list Candidate) : result RoutingPolicyError unit :=
  reject_if (bool_decide (candidates = [])) (mk_RoutingPolicyError EmptyCandidates "at least one candidate is required") ;;
  reject_if (MAX_CANDIDATES <? len candidates)
    (mk_RoutingPolicyError TooManyCandidates "candidate set exceeds the bounded policy limit") ;;
  insert_all ∅ candidates.
Definition PreparedCandidateSet := list Candidate.
Definition PreparedCandidateSet_new (candidates : list Candidate) : result RoutingPolicyError PreparedCandidateSet :=
  validate_candidates candidates ;; mret candidates.

Inductive ExclusionReason :=
  | ExcludedUnavailable | ZeroWeight
  | LowerPriority (winning_priority : N)
  | HigherEffectiveLoad (winning_candidate : CandidateId)
  | StableTieBreak (winning_candidate : CandidateId).
Record CandidateExclusion := mk_CandidateExclusion { excluded_id : CandidateId; reason : ExclusionReason }.
Record SelectionDecision := mk_SelectionDecision {
  selected : CandidateId; decision_priority : N; exclusions : list CandidateExclusion;
}.

(** ** The policy ([policy.rs]) *)

(** [Iterator::min_by]: the first of the least elements. *)
Fixpoint min_by {A} (compare : A -> A -> comparison) (l : list A) : option A :=
  match l with
  | [] => None
  | x :: l => Some (foldl (fun best y => match compare best y with Gt => y | _ => best end) x l)
  end.

Definition is_eligible (candidate : Candidate) : bool :=
  bool_decide (availability candidate = Available) && (0 <? weight candidate).
Definition compare_load_ratio (left right : Candidate) : comparison :=
  (load left * weight right) ?= (load right * weight left).
Definition compare_effective_load (left right : Candidate) : comparison :=
  then_with (compare_load_ratio left right) (cmp (candidate_id left) (candidate_id right)).

Definition find_winning_priority (candidates : list Candidate) : result RoutingPolicyError N :=
  ok_or (min_by N.compare (priority <$> List.filter is_eligible candidates))
    (mk_RoutingPolicyError NoEligibleCandidates "all candidates are unavailable or have zero weight").
Definition find_winner (candidates : list Candidate) (winning_priority : N) : result RoutingPolicyError Candidate :=
  ok_or (min_by compare_effective_load
      (List.filter (fun c => (priority c =? winning_priority) && is_eligible c) candidates))
    (mk_RoutingPolicyError NoEligibleCandidates "winning priority tier has no eligible candidate").

(** A selection borrows the snapshot it was made on. *)
Record PreparedSelection := mk_PreparedSelection {
  selection_candidates : list Candidate; winner : Candidate; winning_priority : N;
}.
Definition select_candidates (candidates : list Candidate) : result RoutingPolicyError PreparedSelection :=
  winning_priority ← find_winning_priority candidates;
  winner ← find_winner candidates winning_priority;
  mret (mk_PreparedSelection candidates winner winning_priority).
Definition select_prepared (candidates : PreparedCandidateSet) : result RoutingPolicyError PreparedSelection :=
  select_candidates candidates.

Definition exclusion_for (candidate winner : Candidate) (winning_priority : N) : option ExclusionReason :=
  if bool_decide (candidate_id candidate = candidate_id winner) then None
  else if bool_decide (availability candidate = CandidateUnavailable) then Some ExcludedUnavailable
  else if weight candidate =? 0 then Some ZeroWeight
  else if winning_priority <? priority candidate then Some (LowerPriority winning_priority)
  else match compare_load_ratio candidate winner with
       | Gt => Some (HigherEffectiveLoad (candidate_id winner))
       | _ => Some (StableTieBreak (candidate_id winner))
       end.
Definition explain_exclusions (candidates : list Candidate) (winner : Candidate) (winning_priority : N)
    : list CandidateExclusion :=
  omap (fun c => mk_CandidateExclusion (candidate_id c) <$> exclusion_for c winner winning_priority) candidates.
Definition explain (s : PreparedSelection) : SelectionDecision :=
  mk_SelectionDecision (candidate_id (winner s)) (winning_priority s)
    (explain_exclusions (selection_candidates s) (winner s) (winning_priority s)).
Definition select (candidates : list Candidate) : result RoutingPolicyError SelectionDecision :=
  validate_candidates candidates ;;
  s ← select_candidates candidates;
  mret (explain s).

(** ** Specification *)

(** The order the policy promises: priority, then load per unit of weight, then identity. *)
Definition preferred (c d : Candidate) : Prop :=
  priority c < priority d \/
  priority c = priority d /\
    (load c * weight d < load d * weight c \/
     load c * weight d = load d * weight c /\ ord_lt (candidate_id c) (candidate_id d)).
Definition candidates_ok (candidates : list Candidate) : Prop :=
  candidates <> [] /\ len candidates <= MAX_CANDIDATES /\ NoDup (candidate_id <$> candidates).
(** Why a candidate that is not the winner lost. *)
Definition lost (w c : Candidate) (r : ExclusionReason) : Prop :=
  match r with
  | ExcludedUnavailable => availability c = CandidateUnavailable
  | ZeroWeight => availability c = Available /\ weight c = 0
  | LowerPriority p => is_eligible c = true /\ p = priority w /\ p < priority c
  | HigherEffectiveLoad id => is_eligible c = true /\ priority c = priority w /\ id = candidate_id w /\
      load w * weight c < load c * weight w
  | StableTieBreak id => is_eligible c = true /\ priority c = priority w /\ id = candidate_id w /\
      load w * weight c = load c * weight w /\ ord_lt (candidate_id w) (candidate_id c)
  end.

(** ** Lemmas *)

Lemma min_by_None {A} (compare : A -> A -> comparison) l : min_by compare l = None <-> l = [].
Proof. by destruct l. Qed.
Lemma min_by_least {A} (compare : A -> A -> comparison) (P : A -> Prop) l x :
  (forall a, P a -> compare a a <> Gt) ->
  (forall a b, P a -> P b -> compare a b = Gt -> compare b a <> Gt) ->
  (forall a b c, P a -> P b -> P c -> compare a b <> Gt -> compare b c <> Gt -> compare a c <> Gt) ->
  (forall a, a ∈ l -> P a) -> min_by compare l = Some x -> x ∈ l /\ forall y, y ∈ l -> compare x y <> Gt.
Proof.
  intros Hrefl Htotal Htrans. destruct l as [|a l]; [done|]. cbn [min_by]. intros HP [= <-]. revert a HP.
  induction l as [|b l IH]; intros a HP; cbn [foldl].
  { split; [by left|]. intros y ->%list_elem_of_singleton. apply Hrefl, HP. by left. }
  assert (P a) as Ha by (apply HP; by left). assert (P b) as Hb by (apply HP; by right; left).
  set (best := match compare a b with Gt => b | _ => a end).
  destruct (IH best) as [Hin Hle].
  { intros y [->|Hy]%elem_of_cons; [unfold best; by destruct (compare a b)|]. apply HP. by right; right. }
  assert (P best) as Hbest by (unfold best; by destruct (compare a b)).
  assert (compare best a <> Gt /\ compare best b <> Gt) as [Hba Hbb].
  { unfold best. destruct (compare a b) eqn:E; split; first [by apply Hrefl|by rewrite E|by apply Htotal]. }
  set (x := foldl _ best l) in *.
  assert (P x) as Hx.
  { apply elem_of_cons in Hin as [->|Hin]; [done|]. apply HP. by right; right. }
  assert (compare x best <> Gt) as Hxb by (apply Hle; by left). split.
  - apply elem_of_cons in Hin as [Hin|Hin]; [|by right; right]. rewrite Hin. unfold best.
    destruct (compare a b); [by left|by left|by right; left].
  - intros y [->|[->|Hy]%elem_of_cons]%elem_of_cons; [by eapply (Htrans _ best)|by eapply (Htrans _ best)|].
    apply Hle. by right.
Qed.

Lemma insert_all_Ok ids candidates : insert_all ids candidates = Ok tt <->
  NoDup (candidate_id <$> candidates) /\ forall c, c ∈ candidates -> candidate_id c ∉ ids.
Proof.
  revert ids. induction candidates as [|c candidates IH]; intros ids; cbn [insert_all].
  { split; [split; [constructor|intros c Hc; by apply not_elem_of_nil in Hc]|done]. }
  destruct (decide (candidate_id c ∈ ids)) as [Hin|Hout].
  - rewrite bool_decide_true by done. cbn. split; [done|]. intros [_ Hall]. exfalso. apply (Hall c); [by left|done].
  - rewrite bool_decide_false by done. cbn -[union]. rewrite IH, NoDup_cons, list_elem_of_fmap. split.
    + intros [Hnd Hall]. split; [split; [|done]|].
      * intros (d & Hd & Hdin). apply (Hall d Hdin). set_solver.
      * intros d [->|Hd]%elem_of_cons; [done|]. specialize (Hall d Hd). set_solver.
    + intros [[Hn Hnd] Hall]. split; [done|]. intros d Hd. apply not_elem_of_union. split.
      * intros Heq%elem_of_singleton. apply Hn. by exists d.
      * apply Hall. by right.
Qed.
Lemma validate_candidates_Ok candidates : validate_candidates candidates = Ok tt <-> candidates_ok candidates.
Proof.
  unfold validate_candidates, candidates_ok. destruct (decide (candidates = [])) as [Hnil|Hne].
  { rewrite bool_decide_true by done. cbn. split; [done|by intros [? _]]. }
  rewrite bool_decide_false by done. destruct (N.ltb_spec MAX_CANDIDATES (len candidates)) as [Hbig|Hsmall]; cbn.
  { split; [done|]. intros (_ & ? & _). lia. }
  rewrite insert_all_Ok. split; [tauto|]. intros (_ & _ & Hnd). split; [done|]. intros c _. apply not_elem_of_empty.
Qed.

Lemma insert_all_code ids candidates e : insert_all ids candidates = Err e -> error_code e = DuplicateCandidateId.
Proof.
  revert ids. induction candidates as [|c candidates IH]; intros ids; cbn [insert_all]; [done|].
  destruct (bool_decide _); cbn -[union]; [by intros [= <-]|apply IH].
Qed.
Lemma validate_candidates_code candidates e : validate_candidates candidates = Err e -> error_code e <> NoEligibleCandidates.
Proof.
  unfold validate_candidates. destruct (bool_decide _); cbn; [by intros [= <-]|].
  destruct (_ <? _); cbn; [by intros [= <-]|]. by intros ->%insert_all_code.
Qed.

Lemma eligible_iff c : is_eligible c = true <-> availability c = Available /\ 0 < weight c.
Proof. unfold is_eligible. by rewrite andb_true_iff, bool_decide_eq_true, N.ltb_lt. Qed.
Lemma eligible_elem candidates c : c ∈ List.filter is_eligible candidates <-> c ∈ candidates /\ is_eligible c = true.
Proof. apply elem_of_list_filter. Qed.

Lemma effective_load_le c d : compare_effective_load c d <> Gt <->
  load c * weight d < load d * weight c \/
  load c * weight d = load d * weight c /\ ord_le (candidate_id c) (candidate_id d).
Proof.
  unfold compare_effective_load, compare_load_ratio. destruct (N.compare_spec (load c * weight d) (load d * weight c)) as [E|E|E]; cbn.
  - unfold ord_le. split; [by right|]. intros [?|[_ ?]]; [lia|done].
  - split; [by left|done].
  - split; [done|]. intros [?|[? _]]; lia.
Qed.
Lemma ratio_trans (la wa lb wb lc wc : N) : 0 < wb ->
  la * wb <= lb * wa -> lb * wc <= lc * wb -> la * wc <= lc * wa.
Proof.
  intros Hb H1 H2. apply (N.mul_le_mono_pos_r _ _ wb); [done|].
  assert (la * wb * wc <= lb * wa * wc) by (by apply N.mul_le_mono_r).
  assert (lb * wc * wa <= lc * wb * wa) by (by apply N.mul_le_mono_r). lia.
Qed.
Lemma ratio_trans_lt (la wa lb wb lc wc : N) : 0 < wa -> 0 < wb -> 0 < wc ->
  la * wb <= lb * wa -> lb * wc <= lc * wb -> la * wb < lb * wa \/ lb * wc < lc * wb -> la * wc < lc * wa.
Proof.
  intros Ha Hb Hc H1 H2 H3. apply (N.mul_lt_mono_pos_r wb); [done|].
  assert (la * wb * wc <= lb * wa * wc) by (by apply N.mul_le_mono_r).
  assert (lb * wc * wa <= lc * wb * wa) by (by apply N.mul_le_mono_r).
  destruct H3 as [H3|H3].
  - apply (N.mul_lt_mono_pos_r wc) in H3; [lia|done].
  - apply (N.mul_lt_mono_pos_r wa) in H3; [lia|done].
Qed.
Lemma effective_load_trans a b c : 0 < weight a -> 0 < weight b -> 0 < weight c ->
  compare_effective_load a b <> Gt -> compare_effective_load b c <> Gt -> compare_effective_load a c <> Gt.
Proof.
  rewrite !effective_load_le. intros Ha Hb Hc Hab Hbc.
  assert (load a * weight b <= load b * weight a) as H1 by lia. assert (load b * weight c <= load c * weight b) as H2 by lia.
  destruct (decide (load a * weight b < load b * weight a \/ load b * weight c < load c * weight b)) as [Hlt|Heq].
  - left. by apply (ratio_trans_lt _ _ (load b) (weight b)).
  - destruct Hab as [?|[Hab Iab]]; [exfalso; tauto|]. destruct Hbc as [?|[Hbc Ibc]]; [exfalso; tauto|].
    right. split; [|by eapply ord_le_trans].
    apply N.le_antisymm; [by apply (ratio_trans _ _ (load b) (weight b))|].
    apply (ratio_trans _ _ (load b) (weight b)); lia.
Qed.
Lemma effective_load_total a b : compare_effective_load a b = Gt -> compare_effective_load b a <> Gt.
Proof.
  intros Hab Hba. assert (compare_effective_load a b <> Gt) as H; [|done]. clear Hab. apply effective_load_le.
  unfold compare_effective_load, compare_load_ratio in Hba.
  destruct (N.compare_spec (load b * weight a) (load a * weight b)) as [E|E|E]; cbn in Hba; [|done|left; lia].
  right. split; [done|]. apply cmp_gt_lt in Hba. by apply ord_lt_le.
Qed.

Lemma winning_priority_spec candidates : match find_winning_priority candidates with
  | Ok p => (exists c, c ∈ candidates /\ is_eligible c = true /\ priority c = p) /\
      forall c, c ∈ candidates -> is_eligible c = true -> p <= priority c
  | Err e => error_code e = NoEligibleCandidates /\ forall c, c ∈ candidates -> is_eligible c = false
  end.
Proof.
  unfold find_winning_priority. destruct (min_by N.compare (priority <$> List.filter is_eligible candidates)) as [p|] eqn:E; cbn.
  - apply (min_by_least N.compare (fun _ => True)) in E as [Hin Hle]; [|by intros a _; rewrite N.compare_refl| | |done].
    + split.
      * apply list_elem_of_fmap in Hin as (c & -> & [Hc He]%eligible_elem). by exists c.
      * intros c Hc He. apply N.compare_le_iff, Hle, list_elem_of_fmap_2, eligible_elem. done.
    + intros a b _ _ Hab. apply N.compare_gt_iff in Hab. apply N.compare_le_iff. lia.
    + intros a b c _ _ _. rewrite !N.compare_le_iff. lia.
  - split; [done|]. intros c Hc. destruct (is_eligible c) eqn:He; [|done]. exfalso.
    apply min_by_None, fmap_nil_inv in E. apply (not_elem_of_nil c). rewrite <- E. by apply eligible_elem.
Qed.
Lemma find_winner_spec candidates p w : find_winner candidates p = Ok w ->
  w ∈ candidates /\ is_eligible w = true /\ priority w = p /\
  forall c, c ∈ candidates -> is_eligible c = true -> priority c = p -> compare_effective_load w c <> Gt.
Proof.
  unfold find_winner. intros Hw%ok_or_Ok.
  assert (Htier : forall c, c ∈ List.filter (fun c => (priority c =? p) && is_eligible c) candidates <->
    c ∈ candidates /\ is_eligible c = true /\ priority c = p).
  { intros c. rewrite elem_of_list_filter, andb_true_iff, N.eqb_eq. tauto. }
  apply (min_by_least compare_effective_load (fun c => 0 < weight c)) in Hw as [Hin Hle].
  - apply Htier in Hin as (? & ? & ?). split_and!; try done. intros c Hc He Hp. apply Hle, Htier. done.
  - intros a _. apply effective_load_le. right. split; [done|apply ord_le_refl].
  - intros a b _ _. apply effective_load_total.
  - intros a b c. apply effective_load_trans.
  - intros c (_ & He & _)%Htier. apply eligible_iff in He. tauto.
Qed.
(** The least candidate of a snapshot, when some candidate is eligible. *)
Definition least (candidates : list Candidate) (w : Candidate) : Prop :=
  w ∈ candidates /\ is_eligible w = true /\
  forall c, c ∈ candidates -> is_eligible c = true -> c <> w -> preferred w c.

Lemma same_id_same candidates c d : NoDup (candidate_id <$> candidates) ->
  c ∈ candidates -> d ∈ candidates -> candidate_id c = candidate_id d -> c = d.
Proof.
  intros Hnd (i & Hi)%list_elem_of_lookup (j & Hj)%list_elem_of_lookup Heq.
  assert (i = j) as ->.
  { apply (NoDup_lookup _ _ _ (candidate_id c) Hnd); rewrite list_lookup_fmap; [by rewrite Hi|by rewrite Hj; cbn; rewrite Heq]. }
  congruence.
Qed.
Lemma select_candidates_spec candidates : NoDup (candidate_id <$> candidates) ->
  match select_candidates candidates with
  | Ok s => selection_candidates s = candidates /\ least candidates (winner s) /\ winning_priority s = priority (winner s)
  | Err e => error_code e = NoEligibleCandidates /\ forall c, c ∈ candidates -> is_eligible c = false
  end.
Proof.
  intros Hnd. unfold select_candidates. pose proof (winning_priority_spec candidates) as Hp.
  destruct (find_winning_priority candidates) as [p|e]; cbn; [|done]. destruct Hp as [(c0 & Hc0 & He0 & Hp0) Hle].
  destruct (find_winner candidates p) as [w|e] eqn:Hw; cbn.
  - apply find_winner_spec in Hw as (Hw & He & Hp & Hmin). split; [done|]. split; [|done]. split; [done|]. split; [done|].
    intros c Hc Hce Hne. unfold preferred. specialize (Hle c Hc Hce).
    destruct (decide (p < priority c)) as [Hlt|Hge]; [left; lia|right]. split; [lia|].
    assert (priority c = p) as Hcp by lia. pose proof (Hmin c Hc Hce Hcp) as Hcmp. apply effective_load_le in Hcmp.
    destruct Hcmp as [?|[Heq Hid]]; [by left|right]. split; [done|]. apply ord_le_cases in Hid as [?|Hid]; [done|].
    exfalso. apply Hne. by eapply same_id_same.
  - exfalso. unfold find_winner in Hw. apply ok_or_Err in Hw as [Hw _]. apply min_by_None in Hw.
    apply (not_elem_of_nil c0). rewrite <- Hw. apply elem_of_list_filter. split; [done|].
    by rewrite He0, (proj2 (N.eqb_eq _ _) Hp0).
Qed.
Lemma preferred_asym c d : 0 < weight c -> 0 < weight d -> preferred c d -> preferred d c -> False.
Proof.
  intros Hc Hd [?|[? [?|[? Hid]]]] [?|[? [?|[? Hid']]]]; try lia. by apply (ord_lt_asym _ _ Hid).
Qed.
Lemma least_unique candidates w w' : least candidates w -> least candidates w' -> w = w'.
Proof.
  intros (Hw & He & Hl) (Hw' & He' & Hl'). destruct (decide (w = w')) as [|Hne]; [done|]. exfalso.
  apply (preferred_asym w w'); [by apply eligible_iff|by apply eligible_iff|by apply Hl|by apply Hl'].
Qed.
(** Every candidate but the winner is excluded, with the reason it lost. *)
Lemma exclusion_for_spec candidates w c : NoDup (candidate_id <$> candidates) -> least candidates w -> c ∈ candidates ->
  match exclusion_for c w (priority w) with
  | None => c = w
  | Some r => c <> w /\ lost w c r
  end.
Proof.
  intros Hnd (Hw & Hwe & Hl) Hc. unfold exclusion_for. destruct (decide (candidate_id c = candidate_id w)) as [Hid|Hid].
  { rewrite bool_decide_true by done. by eapply same_id_same. }
  assert (c <> w) as Hne by congruence.
  rewrite (bool_decide_false _ Hid). destruct (availability c) eqn:Ha; cbn; [|done].
  destruct (N.eqb_spec (weight c) 0) as [Hz|Hz]; cbn; [done|].
  assert (is_eligible c = true) as He by (apply eligible_iff; split; [done|lia]).
  apply eligible_iff in Hwe as [_ Hww]. specialize (Hl c Hc He Hne). unfold preferred in Hl.
  destruct (N.ltb_spec (priority w) (priority c)); cbn; [done|].
  assert (priority c = priority w) as Hp by lia. unfold compare_load_ratio.
  destruct (N.compare_spec (load c * weight w) (load w * weight c)); cbn; split_and!; try done; try lia;
    destruct Hl as [|[_ [|[? ?]]]]; first [done|lia].
Qed.
Lemma explain_spec candidates w l : NoDup (candidate_id <$> candidates) -> least candidates w -> l ⊆ candidates ->
  Forall2 (fun e c => excluded_id e = candidate_id c /\ lost w c (reason e))
    (explain_exclusions l w (priority w)) (List.filter (fun c => bool_decide (c <> w)) l).
Proof.
  intros Hnd Hw. induction l as [|c l IH]; intros Hsub; [constructor|].
  assert (c ∈ candidates) as Hc by (apply Hsub; by left).
  assert (l ⊆ candidates) as Hsub' by (intros x Hx; apply Hsub; by right).
  pose proof (exclusion_for_spec candidates w c Hnd Hw Hc) as Hx. cbn [explain_exclusions omap list_omap List.filter].
  unfold explain_exclusions in *. cbn. destruct (exclusion_for c w (priority w)) as [r|]; cbn.
  - destruct Hx as [Hne Hlost]. rewrite bool_decide_true by done. constructor; [done|by apply IH].
  - subst c. rewrite bool_decide_false by (intros Hn; by apply Hn). by apply IH.
Qed.
Lemma least_perm candidates other w : other ≡ₚ candidates -> least candidates w -> least other w.
Proof. intros Hp (Hw & He & Hl). split_and!; [by rewrite Hp|done|]. intros c. rewrite Hp. apply Hl. Qed.
Lemma candidates_ok_perm candidates other : other ≡ₚ candidates -> candidates_ok candidates -> candidates_ok other.
Proof.
  intros Hp (Hne & Hlen & Hnd). split_and!.
  - intros ->. by apply Permutation_nil_l in Hp as <-.
  - unfold len in *. by rewrite (Permutation_length Hp).
  - by rewrite Hp.
Qed.
Lemma select_least candidates w : candidates_ok candidates -> least candidates w ->
  select candidates = Ok (explain (mk_PreparedSelection candidates w (priority w))).
Proof.
  intros Hok Hw. unfold select. rewrite (proj2 (validate_candidates_Ok _) Hok). cbn.
  pose proof (select_candidates_spec candidates (proj2 (proj2 Hok))) as H.
  destruct (select_candidates candidates) as [[cs w' p]|e]; cbn in *.
  - destruct H as (-> & Hw' & ->). by rewrite (least_unique _ _ _ Hw Hw').
  - destruct H as [_ H]. destruct Hw as (Hin & He & _). by rewrite H in He.
Qed.

(** Routing selects from a valid snapshot the unique least eligible candidate: lowest
    priority, then lowest load per unit of weight, then smallest identifier.  The explanation
    names, in the order of the snapshot, every other candidate once with the reason it lost to
    the winner, and the choice does not depend on the order of the snapshot.  Selection fails
    only on an invalid snapshot or when no candidate is eligible. *)
Theorem selection_least candidates : match select candidates with
  | Ok d => candidates_ok candidates /\ exists w, least candidates w /\ (forall w', least candidates w' -> w' = w) /\
      selected d = candidate_id w /\ decision_priority d = priority w /\
      Forall2 (fun e c => excluded_id e = candidate_id c /\ lost w c (reason e))
        (exclusions d) (List.filter (fun c => bool_decide (c <> w)) candidates) /\
      forall other, other ≡ₚ candidates -> selected <$> select other = Ok (selected d)
  | Err e => if bool_decide (error_code e = NoEligibleCandidates)
      then candidates_ok candidates /\ forall c, c ∈ candidates -> is_eligible c = false
      else ~ candidates_ok candidates
  end.
Proof.
  unfold select at 1. destruct (validate_candidates candidates) as [[]|e] eqn:Hv; cbn.
  - apply validate_candidates_Ok in Hv as Hok. pose proof (select_candidates_spec candidates (proj2 (proj2 Hok))) as H.
    destruct (select_candidates candidates) as [[cs w p]|e]; cbn in *.
    + destruct H as (-> & Hw & ->). split; [done|]. exists w. split_and!; try done.
      * intros w' Hw'. by apply (least_unique candidates).
      * by apply (explain_spec candidates); [apply Hok| |].
      * intros other Hp. rewrite (select_least other w); [done|by eapply candidates_ok_perm|by eapply least_perm].
    + destruct H as [-> Hn]. by rewrite bool_decide_true.
  - rewrite bool_decide_false; [|by apply validate_candidates_code in Hv].
    intros Hok. apply validate_candidates_Ok in Hok. congruence.
Qed.
