(* ===== verification/AccountHealth.v ===== *)
(** * Account health

    Models [crates/optional/ariadnion-account-health/src/lib.rs]: the reducer that turns
    ordered observations of an account into a health state, and the book of published
    health snapshots.  The reducer is specified by the history of the observations it
    accepted. *)

From S2P Require Import Prelude CoreTypes Publication.
#[local] Open Scope N_scope.

Definition MAX_THRESHOLD : N := N.shiftl 1 20.
Definition MAX_SNAPSHOTS : N := N.shiftl 1 12.

Inductive AccountHealthErrorCode :=
| InvalidArgument | InvalidThresholdOrder | ObservationOutOfOrder | TimestampOutOfOrder
| AccountMismatch | VersionExhausted | StateUnavailable | LimitExceeded | GenerationConflict
| DuplicateSnapshot | GenerationExhausted.
Definition as_str (code : AccountHealthErrorCode) : string :=
  match code with
  | InvalidArgument => "ACCOUNT_HEALTH_INVALID_ARGUMENT"
  | InvalidThresholdOrder => "ACCOUNT_HEALTH_INVALID_THRESHOLD_ORDER"
  | ObservationOutOfOrder => "ACCOUNT_HEALTH_OBSERVATION_OUT_OF_ORDER"
  | TimestampOutOfOrder => "ACCOUNT_HEALTH_TIMESTAMP_OUT_OF_ORDER"
  | AccountMismatch => "ACCOUNT_HEALTH_ACCOUNT_MISMATCH"
  | VersionExhausted => "ACCOUNT_HEALTH_VERSION_EXHAUSTED"
  | StateUnavailable => "ACCOUNT_HEALTH_STATE_UNAVAILABLE"
  | LimitExceeded => "ACCOUNT_HEALTH_LIMIT_EXCEEDED"
  | GenerationConflict => "ACCOUNT_HEALTH_GENERATION_CONFLICT"
  | DuplicateSnapshot => "ACCOUNT_HEALTH_DUPLICATE_SNAPSHOT"
  | GenerationExhausted => "ACCOUNT_HEALTH_GENERATION_EXHAUSTED"
  end.

Definition ObservationSequence_new (value : N) : result AccountHealthErrorCode N :=
  if value =? 0 then Err InvalidArgument else Ok value.

Inductive HealthSource := ActiveProbe | PassiveRequest.
Inductive HealthSignal := Success | RetryableFailure | TerminalFailure.
Inductive HealthState := Unknown | Healthy | Degraded | Unhealthy.
#[export] Instance HealthState_eq_dec : EqDecision HealthState.
Proof. solve_decision. Defined.

Record HealthPolicy := mk_HealthPolicy {
  degraded_after_failures : N;
  unhealthy_after_failures : N;
  recovery_successes : N;
}.
Definition HealthPolicy_new (degraded unhealthy recovery : N) : result AccountHealthErrorCode HealthPolicy :=
  reject_if (negb (forallb (in_range 1 MAX_THRESHOLD) [degraded; unhealthy; recovery])) InvalidArgument ;;
  reject_if (unhealthy <? degraded) InvalidThresholdOrder ;;
  mret (mk_HealthPolicy degraded unhealthy recovery).

Record HealthObservation := mk_HealthObservation {
  ho_account_id : AccountId;
  sequence : N;
  observed_at : N;
  source : HealthSource;
  signal : HealthSignal;
}.

Record HealthSnapshot := mk_HealthSnapshot {
  hs_account_id : AccountId;
  revision : N;
  hs_state : HealthState;
  consecutive_failures : N;
  consecutive_successes : N;
  last_sequence : option N;
  last_observed_at : option N;
  last_source : option HealthSource;
}.
#[export] Instance HealthSnapshot_eta : Eta HealthSnapshot := fun s =>
  mk_HealthSnapshot (hs_account_id s) (revision s) (hs_state s) (consecutive_failures s)
    (consecutive_successes s) (last_sequence s) (last_observed_at s) (last_source s).
Definition initial (account_id : AccountId) : HealthSnapshot :=
  mk_HealthSnapshot account_id 0 Unknown 0 0 None None None.

(** ** The reducer *)

Definition validate_observation (account_id : AccountId) (current : HealthSnapshot) (observation : HealthObservation)
    : result AccountHealthErrorCode unit :=
  reject_if (bool_decide (ho_account_id observation <> account_id)) AccountMismatch ;;
  reject_if (is_some_and (fun last => sequence observation <=? last) (last_sequence current)) ObservationOutOfOrder ;;
  reject_if (is_some_and (fun last => observed_at observation <? last) (last_observed_at current)) TimestampOutOfOrder.

Definition failure_state (previous_state : HealthState) (failures : N) (policy : HealthPolicy) : HealthState :=
  if unhealthy_after_failures policy <=? failures then Unhealthy
  else if degraded_after_failures policy <=? failures then Degraded
  else if bool_decide (previous_state = Unknown) then Unknown
  else Healthy.
Definition apply_success (snapshot : HealthSnapshot) (previous_state : HealthState) (policy : HealthPolicy)
    : result AccountHealthErrorCode HealthSnapshot :=
  successes ← ok_or (checked_add u32_max (consecutive_successes snapshot) 1) VersionExhausted;
  let snapshot := snapshot <| consecutive_failures := 0 |> <| consecutive_successes := successes |> in
  mret (if bool_decide (previous_state <> Unhealthy) || (recovery_successes policy <=? successes)
        then snapshot <| hs_state := Healthy |> else snapshot).
Definition apply_retryable_failure (snapshot : HealthSnapshot) (previous_state : HealthState) (policy : HealthPolicy)
    : result AccountHealthErrorCode HealthSnapshot :=
  failures ← ok_or (checked_add u32_max (consecutive_failures snapshot) 1) VersionExhausted;
  mret (snapshot <| consecutive_successes := 0 |> <| consecutive_failures := failures |>
                 <| hs_state := failure_state previous_state failures policy |>).
Definition apply_terminal_failure (snapshot : HealthSnapshot) (policy : HealthPolicy) : HealthSnapshot :=
  snapshot <| consecutive_successes := 0 |> <| consecutive_failures := unhealthy_after_failures policy |>
           <| hs_state := Unhealthy |>.

Definition reduce_snapshot (current : HealthSnapshot) (observation : HealthObservation) (policy : HealthPolicy)
    : result AccountHealthErrorCode HealthSnapshot :=
  revision' ← ok_or (checked_add u64_max (revision current) 1) VersionExhausted;
  let next := current <| revision := revision' |> <| last_sequence := Some (sequence observation) |>
    <| last_observed_at := Some (observed_at observation) |> <| last_source := Some (source observation) |> in
  match signal observation with
  | Success => apply_success next (hs_state current) policy
  | RetryableFailure => apply_retryable_failure next (hs_state current) policy
  | TerminalFailure => mret (apply_terminal_failure next policy)
  end.

(** [AccountHealth]: the account and the locked snapshot. *)
Definition AccountHealth_new (account_id : AccountId) : Lock HealthSnapshot := mk_lock false (initial account_id).
Definition observe (account_id : AccountId) (observation : HealthObservation) (policy : HealthPolicy)
    : act (Lock HealthSnapshot) AccountHealthErrorCode HealthSnapshot :=
  locked StateUnavailable (
    current ← get;
    lift (validate_observation account_id current observation) ;;
    next ← lift (reduce_snapshot current observation policy);
    put next ;;
    mret next).
Definition snapshot : act (Lock HealthSnapshot) AccountHealthErrorCode HealthSnapshot :=
  locked StateUnavailable get.

(** ** The book of snapshots *)

Record HealthBookState := mk_HealthBookState { generation : N; snapshots : list HealthSnapshot }.
#[export] Instance HealthBookState_eta : Eta HealthBookState := fun s => mk_HealthBookState (generation s) (snapshots s).
Definition HealthSnapshotSet := HealthBookState.
Record RefreshReceipt := mk_RefreshReceipt { previous_generation : N; receipt_generation : N; snapshot_count : N }.
Definition next (generation : N) : result AccountHealthErrorCode N := next_generation GenerationExhausted generation.

Definition HealthSnapshotBook_new : Lock HealthBookState := mk_lock false (mk_HealthBookState 0 []).
(** Sorts the batch in place: the sorted batch is returned. *)
Definition validate_snapshot_batch (batch : list HealthSnapshot) : result AccountHealthErrorCode (list HealthSnapshot) :=
  reject_if (MAX_SNAPSHOTS <? len batch) LimitExceeded ;;
  let sorted := sort_by hs_account_id batch in
  reject_if (adjacent_duplicate hs_account_id sorted) DuplicateSnapshot ;;
  mret sorted.
Definition refresh (batch : list HealthSnapshot) (expected_generation : N)
    : act (Lock HealthBookState) AccountHealthErrorCode RefreshReceipt :=
  sorted ← lift (validate_snapshot_batch batch);
  locked StateUnavailable (
    state ← get;
    lift (reject_if (negb (generation state =? expected_generation)) GenerationConflict) ;;
    successor ← lift (next (generation state));
    modify (fun st => st <| generation := successor |>) ;;
    modify (fun st => st <| snapshots := sorted |>) ;;
    mret (mk_RefreshReceipt (generation state) successor (len sorted))).
Definition snapshot_set : act (Lock HealthBookState) AccountHealthErrorCode HealthSnapshotSet :=
  locked StateUnavailable get.
Definition current_generation : act (Lock HealthBookState) AccountHealthErrorCode N :=
  locked StateUnavailable (query (fun state => Ok (generation state))).

#[export] Instance health_publication :
    Publication (Lock HealthBookState) (list HealthSnapshot) RefreshReceipt AccountHealthErrorCode := {
  generation_of := fun b => generation (lock_data b);
  publish_to := fun g batch => refresh batch g;
  background := fun _ _ => False;
}.

(** ** Specification

    A history lists the accepted observations, newest first, each with the policy its
    caller applied. *)

Definition history_of := list (HealthObservation * HealthPolicy).
Fixpoint success_streak (h : history_of) : N :=
  match h with
  | (o, _) :: h => match signal o with Success => success_streak h + 1 | _ => 0 end
  | [] => 0
  end.
(** A terminal failure counts as a full run of failures. *)
Fixpoint failure_streak (h : history_of) : N :=
  match h with
  | (o, p) :: h =>
      match signal o with
      | Success => 0 | RetryableFailure => failure_streak h + 1 | TerminalFailure => unhealthy_after_failures p
      end
  | [] => 0
  end.
Fixpoint state_of (h : history_of) : HealthState :=
  match h with
  | [] => Unknown
  | (o, p) :: rest =>
      match signal o with
      | TerminalFailure => Unhealthy
      | Success =>
          if decide (state_of rest = Unhealthy /\ success_streak h < recovery_successes p) then Unhealthy else Healthy
      | RetryableFailure =>
          if decide (unhealthy_after_failures p <= failure_streak h) then Unhealthy
          else if decide (degraded_after_failures p <= failure_streak h) then Degraded
          else if decide (state_of rest = Unknown) then Unknown else Healthy
      end
  end.
(** The order a history keeps: sequences increase, times do not go back. *)
Fixpoint ordered (h : history_of) : Prop :=
  match h with
  | (o, _) :: (((o', _) :: _) as rest) => sequence o' < sequence o /\ observed_at o' <= observed_at o /\ ordered rest
  | _ => True
  end.
(** The reducer's snapshot after a history. *)
Definition summary (account_id : AccountId) (h : history_of) : HealthSnapshot :=
  mk_HealthSnapshot account_id (len h) (state_of h) (failure_streak h) (success_streak h)
    (sequence ∘ fst <$> head h) (observed_at ∘ fst <$> head h) (source ∘ fst <$> head h).
(** Why an observation is refused after a history. *)
Definition refused (account_id : AccountId) (h : history_of) (o : HealthObservation) (e : AccountHealthErrorCode) : Prop :=
  match e with
  | AccountMismatch => ho_account_id o <> account_id
  | ObservationOutOfOrder => exists o', head h.*1 = Some o' /\ sequence o <= sequence o'
  | TimestampOutOfOrder => exists o', head h.*1 = Some o' /\ sequence o' < sequence o /\ observed_at o < observed_at o'
  | VersionExhausted => u64_max <= len h \/ u32_max <= success_streak h \/ u32_max <= failure_streak h
  | _ => False
  end.
(** Calls of [observe] on a fresh account, and the history of those that succeeded. *)
Fixpoint observe_all (account_id : AccountId) (calls : list (HealthObservation * HealthPolicy))
    (book : Lock HealthSnapshot) (h : history_of) : Lock HealthSnapshot * history_of :=
  match calls with
  | [] => (book, h)
  | (o, p) :: calls =>
      let '(book, r) := observe account_id o p book in
      observe_all account_id calls book (if is_ok r then (o, p) :: h else h)
  end.

(** ** Lemmas *)

Lemma head_fst (h : history_of) : head h.*1 = fst <$> head h.
Proof. by destruct h. Qed.
Lemma validate_observation_spec account_id h o p :
  match validate_observation account_id (summary account_id h) o with
  | Ok _ => ho_account_id o = account_id /\ (ordered h -> ordered ((o, p) :: h))
  | Err e => refused account_id h o e
  end.
Proof.
  unfold validate_observation. destruct (decide (ho_account_id o = account_id)) as [Ha|Ha].
  2: { rewrite bool_decide_true by done. done. }
  rewrite bool_decide_false by naive_solver. cbn. destruct h as [|[o' p'] h]; cbn; [done|].
  destruct (N.leb_spec (sequence o) (sequence o')); cbn; [by exists o'|].
  destruct (N.ltb_spec (observed_at o) (observed_at o')); cbn; [by exists o'|done].
Qed.
Lemma len_cons {A} (x : A) l : len (x :: l) = len l + 1.
Proof. unfold len. cbn [length]. lia. Qed.
Lemma reduce_spec account_id h o p :
  match reduce_snapshot (summary account_id h) o p with
  | Ok s => s = summary account_id ((o, p) :: h)
  | Err e => e = VersionExhausted /\ refused account_id h o e
  end.
Proof.
  unfold reduce_snapshot. cbn [revision summary]. unfold checked_add.
  destruct (N.leb_spec (len h + 1) u64_max); cbn [ok_or mbind result_bind]; [|split; [done|cbn; lia]].
  destruct (signal o) eqn:Hs; cbn [apply_terminal_failure].
  - unfold apply_success, checked_add. cbn -[u32_max N.leb recovery_successes].
    destruct (N.leb_spec (success_streak h + 1) u32_max); cbn -[u32_max N.leb]; [|split; [done|lia]].
    unfold summary. cbn -[N.leb len]. rewrite Hs, len_cons.
    destruct (decide (state_of h = Unhealthy)) as [Hu|Hu].
    + rewrite bool_decide_false by (intros Hn; by apply Hn). cbn. destruct (N.leb_spec (recovery_successes p) (success_streak h + 1)).
      * rewrite decide_False by lia. done.
      * rewrite decide_True by (split; [done|lia]). by rewrite Hu.
    + rewrite bool_decide_true by done. cbn. rewrite decide_False by tauto. done.
  - unfold apply_retryable_failure, checked_add. cbn -[u32_max N.leb].
    destruct (N.leb_spec (failure_streak h + 1) u32_max); cbn -[u32_max N.leb]; [|split; [done|lia]].
    unfold summary, failure_state. cbn -[N.leb len]. rewrite Hs, len_cons.
    destruct (N.leb_spec (unhealthy_after_failures p) (failure_streak h + 1)).
    { by rewrite decide_True by done. }
    rewrite decide_False by lia. destruct (N.leb_spec (degraded_after_failures p) (failure_streak h + 1)).
    { by rewrite decide_True by done. }
    rewrite decide_False by lia. destruct (decide (state_of h = Unknown)) as [Hn|Hn].
    + by rewrite bool_decide_true.
    + by rewrite bool_decide_false.
  - unfold summary. cbn -[len]. by rewrite Hs, len_cons.
Qed.
Lemma observe_spec account_id h o p : let book := mk_lock false (summary account_id h) in
  match observe account_id o p book with
  | (book', Ok s) => s = summary account_id ((o, p) :: h) /\ book' = mk_lock false s /\
      ho_account_id o = account_id /\ (ordered h -> ordered ((o, p) :: h))
  | (book', Err e) => book' = book /\ refused account_id h o e
  end.
Proof.
  cbv zeta. unfold observe. rewrite locked_run. cbn -[validate_observation summary reduce_snapshot]. rewrite act_get_run.
  pose proof (validate_observation_spec account_id h o p) as Hv.
  destruct (validate_observation account_id (summary account_id h) o) as [[]|e]; [|done].
  rewrite act_lift_run. pose proof (reduce_spec account_id h o p) as Hr.
  destruct (reduce_snapshot (summary account_id h) o p) as [s|e]; [|by destruct Hr].
  rewrite act_lift_run, act_put_run. by destruct Hv.
Qed.

(** ** Properties *)

(** Whatever observations reach a fresh account, in whatever order, its snapshot is
    a function of the history of the accepted ones: the streaks, the state and the last
    observation.  That history only concerns the account, its sequence numbers increase and
    its times never go back.  A further observation either extends the history, or is refused
    for the reason the error names and changes nothing. *)
Theorem health_tracks_history account_id calls :
  let '(book, h) := observe_all account_id calls (AccountHealth_new account_id) [] in
  book = mk_lock false (summary account_id h) /\ ordered h /\
  Forall (fun e => ho_account_id e.1 = account_id) h /\
  forall o p, match observe account_id o p book with
    | (book', Ok s) => s = summary account_id ((o, p) :: h) /\ book' = mk_lock false s
    | (book', Err e) => book' = book /\ refused account_id h o e
    end.
Proof.
  change (AccountHealth_new account_id) with (mk_lock false (summary account_id [])).
  assert (ordered [] /\ Forall (fun e => ho_account_id e.1 = account_id) ([] : history_of)) as H0 by (split; [done|constructor]).
  revert H0. generalize ([] : history_of). induction calls as [|[o p] calls IH]; intros h [Ho Ha].
  - cbn [observe_all]. split_and!; try done. intros o p. pose proof (observe_spec account_id h o p) as H. cbv zeta in H.
    destruct (observe _ o p _) as [book' [s|e]]; [|done]. by destruct H as (-> & -> & _).
  - cbn [observe_all]. pose proof (observe_spec account_id h o p) as H. cbv zeta in H.
    destruct (observe _ o p _) as [book' [s|e]]; cbn [is_ok].
    + destruct H as (-> & -> & Hid & Hord). apply IH. split; [by apply Hord|].
      by constructor.
    + destruct H as [-> _]. by apply IH.
Qed.

(** A failure brings an unhealthy account back: with a recovery threshold of three
    successes, one success and one failure are enough. *)
Example failure_revives_unhealthy :
  let a := MkId "a" in let p := mk_HealthPolicy 2 3 3 in
  let o n s := (mk_HealthObservation a n n PassiveRequest s, p) in
  hs_state (lock_data (observe_all a [o 1 TerminalFailure; o 2 Success] (AccountHealth_new a) []).1) = Unhealthy /\
  hs_state (lock_data (observe_all a [o 1 TerminalFailure; o 2 Success; o 3 RetryableFailure] (AccountHealth_new a) []).1) = Healthy.
Proof. vm_compute. split; reflexivity. Qed.

(** ** Publication of the book *)

Lemma validate_snapshot_batch_Ok batch sorted :
  validate_snapshot_batch batch = Ok sorted <->
  len batch <= MAX_SNAPSHOTS /\ NoDup (hs_account_id <$> batch) /\ sorted = sort_by hs_account_id batch.
Proof.
  unfold validate_snapshot_batch. split.
  - intros H. run_steps; tidy. split; [done|]. split; [|done]. by apply (adjacent_duplicate_perm hs_account_id).
  - intros (Hlen & Hnd & ->). rewrite (proj2 (N.ltb_ge _ _) Hlen). cbn.
    by rewrite (proj2 (adjacent_duplicate_perm hs_account_id _) Hnd).
Qed.
Lemma health_refresh_Ok batch g b b' r :
  refresh batch g b = (b', Ok r) ->
  len batch <= MAX_SNAPSHOTS /\ NoDup (hs_account_id <$> batch) /\ generation (lock_data b) = g /\ g < u64_max /\
  b' = mk_lock false (mk_HealthBookState (g + 1) (sort_by hs_account_id batch)) /\
  r = mk_RefreshReceipt g (g + 1) (len batch).
Proof.
  unfold refresh. intros H. run_steps.
  match goal with H : validate_snapshot_batch _ = Ok _ |- _ => apply validate_snapshot_batch_Ok in H as (? & ? & ->) end.
  match goal with H : locked _ _ _ = _ |- _ => apply locked_inv in H as [[_ [=]]|(s' & Hrun & -> & Hp)] end.
  run_steps; tidy. match goal with H : next _ = Ok _ |- _ => apply next_generation_Ok in H as [-> Hg] end.
  subst. split_and!; try done. unfold len. by rewrite sort_by_Permutation.
Qed.
Lemma health_refresh_Err batch g b b' e : refresh batch g b = (b', Err e) -> b' = b.
Proof.
  unfold refresh. intros H. run_steps; [|done].
  match goal with H : locked _ _ _ = _ |- _ => apply locked_inv in H as [[-> _]|(s' & Hrun & -> & Hp)] end; [done|].
  destruct b as [p s]. cbn in Hp, Hrun. subst p. run_steps; done.
Qed.
#[export] Instance health_publication_laws :
  PublicationLaws (Lock HealthBookState) (list HealthSnapshot) RefreshReceipt AccountHealthErrorCode.
Proof.
  split; cbn; [| |done].
  - intros b b' g c r (_ & _ & Hg & _ & -> & _)%health_refresh_Ok. by split.
  - intros b b' g c e. apply health_refresh_Err.
Qed.
