(* ===== verification/AccountDomain.v ===== *)
(** * Provider accounts

    Models [crates/optional/ariadnion-account-domain/src/lib.rs]: bounded texts, versions,
    effective windows, configurations and the account aggregate with its lifecycle.  The
    identities of the crate are in [CoreTypes]. *)

From S2P Require Import Prelude CoreTypes Publication.
#[local] Open Scope N_scope.

Definition MAX_LABEL_BYTES : N := 160.
Definition MAX_SECRET_PATH_BYTES : N := 512.
Definition MAX_ROUTING_WEIGHT : N := N.shiftl 1 20.

Inductive AccountDomainErrorCode :=
| InvalidArgument | VersionConflict | VersionExhausted | ConfigVersionConflict | InvalidTransition | DeletedTerminal.
Definition as_str (code : AccountDomainErrorCode) : string :=
  match code with
  | InvalidArgument => "ACCOUNT_INVALID_ARGUMENT"
  | VersionConflict => "ACCOUNT_VERSION_CONFLICT"
  | VersionExhausted => "ACCOUNT_VERSION_EXHAUSTED"
  | ConfigVersionConflict => "ACCOUNT_CONFIG_VERSION_CONFLICT"
  | InvalidTransition => "ACCOUNT_INVALID_TRANSITION"
  | DeletedTerminal => "ACCOUNT_DELETED_TERMINAL"
  end.

(** ** Texts and versions *)

Definition valid_text (value : string) (limit : N) : bool :=
  negb (is_empty value) && (byte_len value <=? limit) && is_ascii value &&
  all_bytes (fun a => in_range 32 126 (byte a)) value.
(** [bounded_text!]: provider and account labels, external identities, model selectors. *)
Definition BoundedText := string.
Definition bounded_text_parse (value : string) : result AccountDomainErrorCode BoundedText :=
  if negb (valid_text value MAX_LABEL_BYTES) then Err InvalidArgument else Ok value.
Definition ModelName := BoundedText.
Definition SecretPath := string.
Definition SecretPath_parse (value : string) : result AccountDomainErrorCode SecretPath :=
  if negb (valid_text value MAX_SECRET_PATH_BYTES) then Err InvalidArgument else Ok value.
(** [AccountVersion], [AccountConfigVersion] and [SecretVersion]: nonzero counters. *)
Definition initial : N := 1.
Definition version_new (value : N) : result AccountDomainErrorCode N :=
  if value =? 0 then Err InvalidArgument else Ok value.
Definition version_next (version : N) : result AccountDomainErrorCode N :=
  next_generation VersionExhausted version.

(** ** Effective windows, routing weight and configuration *)

Record AccountEffectiveWindow := mk_AccountEffectiveWindow { effective_start : option Z; effective_end : option Z }.
Definition OPEN : AccountEffectiveWindow := mk_AccountEffectiveWindow None None.
Definition AccountEffectiveWindow_new (start finish : option Z) : result AccountDomainErrorCode AccountEffectiveWindow :=
  reject_if (match start, finish with Some start, Some finish => (finish <=? start)%Z | _, _ => false end) InvalidArgument ;;
  mret (mk_AccountEffectiveWindow start finish).
Definition is_effective_at (w : AccountEffectiveWindow) (observed_at : Z) : bool :=
  is_none_or (fun start => (start <=? observed_at)%Z) (effective_start w) &&
  is_none_or (fun finish => (observed_at <? finish)%Z) (effective_end w).

Definition RoutingWeight_new (value : N) : result AccountDomainErrorCode N :=
  if MAX_ROUTING_WEIGHT <? value then Err InvalidArgument else Ok value.

Record SecretRef := mk_SecretRef {
  secret_provider : string; secret_path : SecretPath; secret_version : N; secret_purpose : string;
}.
Record ProviderMetadata := mk_ProviderMetadata { provider_id : ProviderId; provider_label : BoundedText }.
Record AccountMetadata := mk_AccountMetadata { label : BoundedText; external_id : option BoundedText }.
Record AccountConfig := mk_AccountConfig {
  config_version : N;
  secret_ref : SecretRef;
  default_model : option ModelName;
  max_concurrency : N;
  routing_priority : N;
  routing_weight : N;
  effective_window : AccountEffectiveWindow;
}.
#[export] Instance AccountConfig_eta : Eta AccountConfig := fun c =>
  mk_AccountConfig (config_version c) (secret_ref c) (default_model c) (max_concurrency c)
    (routing_priority c) (routing_weight c) (effective_window c).
Definition with_routing (version : N) (secret_ref : SecretRef) (default_model : option ModelName)
    (max_concurrency routing_priority routing_weight : N) : result AccountDomainErrorCode AccountConfig :=
  if max_concurrency =? 0 then Err InvalidArgument
  else Ok (mk_AccountConfig version secret_ref default_model max_concurrency routing_priority routing_weight OPEN).
Definition AccountConfig_new (version : N) (secret_ref : SecretRef) (default_model : option ModelName)
    (max_concurrency : N) : result AccountDomainErrorCode AccountConfig :=
  with_routing version secret_ref default_model max_concurrency 0 1.
Definition with_effective_window (c : AccountConfig) (window : AccountEffectiveWindow) : AccountConfig :=
  c <| effective_window := window |>.

(** ** The lifecycle *)

Inductive AccountStatus := Provisioning | Active | Suspended | Revoked | Deleted.
#[global] Instance AccountStatus_eq_dec : EqDecision AccountStatus.
Proof. solve_decision. Defined.
Inductive AccountTransitionAction := Activate | Suspend | Resume | Revoke | Delete.
Record AccountTransitionCommand := mk_AccountTransitionCommand { expected_version : N; action : AccountTransitionAction }.
Record AccountLifecycleEvent := mk_AccountLifecycleEvent {
  event_account_id : AccountId; event_from : AccountStatus; event_to : AccountStatus; event_version : N;
}.
Record AccountLifecycleChange := mk_AccountLifecycleChange {
  change_version : N; change_status : AccountStatus; change_event : AccountLifecycleEvent;
}.

Definition activate_status (current : AccountStatus) : result AccountDomainErrorCode AccountStatus :=
  match current with
  | Provisioning | Suspended => Ok Active | Deleted => Err DeletedTerminal | _ => Err InvalidTransition
  end.
Definition suspend_status (current : AccountStatus) : result AccountDomainErrorCode AccountStatus :=
  match current with Active => Ok Suspended | Deleted => Err DeletedTerminal | _ => Err InvalidTransition end.
Definition resume_status (current : AccountStatus) : result AccountDomainErrorCode AccountStatus :=
  match current with Suspended => Ok Active | Deleted => Err DeletedTerminal | _ => Err InvalidTransition end.
Definition revoke_status (current : AccountStatus) : result AccountDomainErrorCode AccountStatus :=
  match current with
  | Provisioning | Active | Suspended => Ok Revoked | Deleted => Err DeletedTerminal | _ => Err InvalidTransition
  end.
Definition delete_status (current : AccountStatus) : result AccountDomainErrorCode AccountStatus :=
  match current with Revoked => Ok Deleted | Deleted => Err DeletedTerminal | _ => Err InvalidTransition end.
Definition next_status (current : AccountStatus) (action : AccountTransitionAction)
    : result AccountDomainErrorCode AccountStatus :=
  match action with
  | Activate => activate_status current
  | Suspend => suspend_status current
  | Resume => resume_status current
  | Revoke => revoke_status current
  | Delete => delete_status current
  end.
Definition validate_lifecycle_snapshot (version : N) (status : AccountStatus) : result AccountDomainErrorCode unit :=
  reject_if (bool_decide (status = Deleted) && (version =? initial)) InvalidArgument.
Definition apply_account_lifecycle (account_id : AccountId) (current_version : N) (current_status : AccountStatus)
    (command : AccountTransitionCommand) : result AccountDomainErrorCode AccountLifecycleChange :=
  validate_lifecycle_snapshot current_version current_status ;;
  reject_if (negb (expected_version command =? current_version)) VersionConflict ;;
  status ← next_status current_status (action command);
  version ← version_next current_version;
  mret (mk_AccountLifecycleChange version status (mk_AccountLifecycleEvent account_id current_status status version)).

Record Account := mk_Account {
  id : AccountId;
  tenant_id : TenantId;
  provider : ProviderMetadata;
  account_metadata : AccountMetadata;
  config : AccountConfig;
  version : N;
  status : AccountStatus;
}.
#[export] Instance Account_eta : Eta Account := fun a =>
  mk_Account (id a) (tenant_id a) (provider a) (account_metadata a) (config a) (version a) (status a).
Definition Account_new (id : AccountId) (tenant_id : TenantId) (provider : ProviderMetadata)
    (metadata : AccountMetadata) (config : AccountConfig) : Account :=
  mk_Account id tenant_id provider metadata config initial Provisioning.
Definition from_snapshot (id : AccountId) (tenant_id : TenantId) (provider : ProviderMetadata)
    (metadata : AccountMetadata) (config : AccountConfig) (version : N) (status : AccountStatus)
    : result AccountDomainErrorCode Account :=
  validate_lifecycle_snapshot version status ;;
  mret (mk_Account id tenant_id provider metadata config version status).
Definition replace_config (a : Account) (expected_account_version : N) (replacement : AccountConfig)
    : result AccountDomainErrorCode Account :=
  reject_if (negb (expected_account_version =? version a)) VersionConflict ;;
  expected_config_version ← version_next (config_version (config a));
  reject_if (negb (config_version replacement =? expected_config_version)) ConfigVersionConflict ;;
  successor ← version_next (version a);
  mret (a <| config := replacement |> <| version := successor |>).
Definition apply (a : Account) (command : AccountTransitionCommand)
    : result AccountDomainErrorCode (Account * AccountLifecycleEvent) :=
  change ← apply_account_lifecycle (id a) (version a) (status a) command;
  mret (a <| status := change_status change |> <| version := change_version change |>, change_event change).

(** ** Specification *)

(** The lifecycle as documented. *)
Inductive lifecycle_step : AccountStatus -> AccountTransitionAction -> AccountStatus -> Prop :=
| step_activate s : s = Provisioning \/ s = Suspended -> lifecycle_step s Activate Active
| step_suspend : lifecycle_step Active Suspend Suspended
| step_resume : lifecycle_step Suspended Resume Active
| step_revoke s : s <> Revoked -> s <> Deleted -> lifecycle_step s Revoke Revoked
| step_delete : lifecycle_step Revoked Delete Deleted.

(** The requests callers make of one stored account, each based on the version they read;
    a refused request leaves the stored account as it was. *)
Inductive account_request :=
| Replace (expected_account_version : N) (replacement : AccountConfig)
| Command (command : AccountTransitionCommand).
Definition basis (r : account_request) : N :=
  match r with Replace expected _ => expected | Command command => expected_version command end.
Definition serve (a : Account) (r : account_request) : option Account :=
  match r with
  | Replace expected replacement =>
      match replace_config a expected replacement with Ok a => Some a | Err _ => None end
  | Command command => match apply a command with Ok (a, _) => Some a | Err _ => None end
  end.
(** The final account, and the requests that were accepted, in order. *)
Fixpoint serve_all (a : Account) (rs : list account_request) : Account * list account_request :=
  match rs with
  | [] => (a, [])
  | r :: rs =>
      match serve a r with
      | Some a => let '(a, accepted) := serve_all a rs in (a, r :: accepted)
      | None => serve_all a rs
      end
  end.
(** The statuses the accepted commands lead through. *)
Inductive lifecycle_path : AccountStatus -> list account_request -> AccountStatus -> Prop :=
| path_done s : lifecycle_path s [] s
| path_replace s v c rs s' : lifecycle_path s rs s' -> lifecycle_path s (Replace v c :: rs) s'
| path_command s v act s1 rs s' :
    lifecycle_step s act s1 -> lifecycle_path s1 rs s' ->
    lifecycle_path s (Command (mk_AccountTransitionCommand v act) :: rs) s'.
Definition is_replace (r : account_request) : bool := match r with Replace _ _ => true | _ => false end.

(** ** Lemmas *)

Lemma next_status_step s act : match next_status s act with
  | Ok s' => lifecycle_step s act s'
  | Err e => (forall s', ~ lifecycle_step s act s') /\ (e = DeletedTerminal <-> s = Deleted)
  end.
Proof.
  destruct act, s; cbn; try (constructor; naive_solver);
    (split; [intros s' Hs; inversion Hs; naive_solver|naive_solver]).
Qed.
Lemma version_next_Ok v v' : version_next v = Ok v' <-> v' = v + 1 /\ v < u64_max.
Proof. apply next_generation_Ok. Qed.
Lemma apply_spec a command : match apply a command with
  | Ok (a', event) =>
      expected_version command = version a /\ lifecycle_step (status a) (action command) (status a') /\
      a' = (a <| status := status a' |> <| version := version a + 1 |>) /\ version a < u64_max /\
      event = mk_AccountLifecycleEvent (id a) (status a) (status a') (version a')
  | Err e => status a = Deleted /\ version a = initial \/ expected_version command <> version a \/
      (forall s', ~ lifecycle_step (status a) (action command) s') \/ u64_max <= version a
  end.
Proof.
  unfold apply, apply_account_lifecycle, validate_lifecycle_snapshot.
  destruct (bool_decide (status a = Deleted) && (version a =? initial)) eqn:E0; cbn.
  { tidy. by left. }
  destruct (N.eqb_spec (expected_version command) (version a)) as [Hv|Hv]; cbn; [|by right; left].
  pose proof (next_status_step (status a) (action command)) as Hs.
  destruct (next_status (status a) (action command)) as [s'|e]; cbn; [|by destruct Hs; right; right; left].
  destruct (version_next (version a)) as [v'|e] eqn:Hn; cbn.
  - apply version_next_Ok in Hn as [-> Hlt]. by split_and!.
  - do 3 right. unfold version_next, next_generation in Hn. apply ok_or_Err in Hn as [Hn _].
    apply checked_add_None in Hn. lia.
Qed.
Lemma replace_config_Ok a expected replacement a' : replace_config a expected replacement = Ok a' <->
  expected = version a /\ config_version replacement = config_version (config a) + 1 /\
  config_version (config a) < u64_max /\ version a < u64_max /\
  a' = (a <| config := replacement |> <| version := version a + 1 |>).
Proof.
  unfold replace_config. split.
  - intros H. run_steps; tidy.
    repeat match goal with H : version_next _ = Ok _ |- _ => apply version_next_Ok in H as [-> ?] end. by subst.
  - intros (-> & Hc & Hcl & Hl & ->). rewrite N.eqb_refl. cbn.
    rewrite (proj2 (version_next_Ok _ _) (conj eq_refl Hcl)). cbn. rewrite Hc, N.eqb_refl. cbn.
    by rewrite (proj2 (version_next_Ok _ _) (conj eq_refl Hl)).
Qed.
Lemma revoked_stays s rs s' : lifecycle_path s rs s' -> s = Revoked \/ s = Deleted ->
  s' = Deleted \/ s' = Revoked /\ s = Revoked.
Proof.
  induction 1 as [s|s v c rs s' _ IH|s v act s1 rs s' Hs _ IH]; [naive_solver|done|].
  intros [-> | ->]; inversion Hs; subst; try done; naive_solver.
Qed.

(** ** Properties *)

(** However many callers work on one stored account, each from the version it read:
    every version is used by at most one accepted request; the version counts the accepted
    requests and the configuration version the accepted replacements; the status follows the
    documented lifecycle, so a revoked or deleted account is never usable again; the identity,
    owner and provider of the account never change. *)
Theorem account_lifecycle_linear a rs : let '(a', accepted) := serve_all a rs in
  lifecycle_path (status a) accepted (status a') /\
  version a' = version a + len accepted /\
  config_version (config a') = config_version (config a) + len (List.filter is_replace accepted) /\
  NoDup (basis <$> accepted) /\ Forall (fun r => version a <= basis r < version a') accepted /\
  (status a = Revoked \/ status a = Deleted -> status a' = Revoked \/ status a' = Deleted) /\
  (id a', tenant_id a', provider a', account_metadata a') = (id a, tenant_id a, provider a, account_metadata a).
Proof.
  assert (forall a rs, let '(a', accepted) := serve_all a rs in
    lifecycle_path (status a) accepted (status a') /\ version a' = version a + len accepted /\
    config_version (config a') = config_version (config a) + len (List.filter is_replace accepted) /\
    NoDup (basis <$> accepted) /\ Forall (fun r => version a <= basis r < version a') accepted /\
    (id a', tenant_id a', provider a', account_metadata a') = (id a, tenant_id a, provider a, account_metadata a)) as H.
  2: { specialize (H a rs). destruct (serve_all a rs) as [a' accepted]. destruct H as (Hp & ? & ? & ? & ? & ?).
       split_and!; try done. intros Hr. pose proof (revoked_stays _ _ _ Hp Hr). tauto. }
  clear. intros a rs. revert a. induction rs as [|r rs IH]; intros a; cbn [serve_all].
  { split_and!; try constructor; unfold len; cbn; lia. }
  destruct (serve a r) as [a1|] eqn:Hr; [|by apply IH]. specialize (IH a1). destruct (serve_all a1 rs) as [a' accepted].
  destruct IH as (Hp & Hv & Hc & Hnd & Hb & Hid).
  assert (basis r = version a /\ version a1 = version a + 1 /\
    config_version (config a1) = config_version (config a) + (if is_replace r then 1 else 0) /\
    (id a1, tenant_id a1, provider a1, account_metadata a1) = (id a, tenant_id a, provider a, account_metadata a) /\
    lifecycle_path (status a) (r :: accepted) (status a')) as (Hbr & Hv1 & Hc1 & Hid1 & Hp1).
  { destruct r as [expected c|command]; cbn [serve] in Hr.
    - destruct (replace_config a expected c) as [a2|] eqn:Hrc; [|done]. injection Hr as ->.
      apply replace_config_Ok in Hrc as (-> & Hcv & _ & _ & ->). cbn. split_and!; try done. by constructor.
    - pose proof (apply_spec a command) as Ha. destruct (apply a command) as [[a2 ev]|]; [|done]. injection Hr as ->.
      destruct Ha as (Hev & Hs & -> & _ & _). cbn in *. split_and!; try done; [lia|].
      destruct command as [v act]. by econstructor. }
  split_and!; try done; try congruence.
  - unfold len in *. cbn [length]. lia.
  - unfold len in *. cbn [List.filter]. destruct (is_replace r); cbn [length]; lia.
  - cbn. constructor; [|done]. rewrite Hbr. intros (r' & Heq & Hin)%list_elem_of_fmap.
    rewrite Forall_forall in Hb. specialize (Hb r' Hin). lia.
  - constructor; [lia|]. eapply Forall_impl; [exact Hb|]. cbn. intros r' Hr'. lia.
Qed.
