(* ===== verification/AccountSchedule.v ===== *)
(** * Account schedules

    Models [crates/optional/ariadnion-account-schedule/src/lib.rs]: weekly availability
    windows in a fixed local offset, UTC maintenance windows, and the versioned book of
    schedules.  Availability is specified on the seconds of the local week. *)

From S2P Require Import Prelude CoreTypes Publication.
#[local] Open Scope N_scope.

Definition SECONDS_PER_DAY : N := 86400.
Definition MINUTES_PER_DAY : N := 1440.
Definition MAX_OFFSET_MINUTES : Z := 1440.
Definition MAX_WEEKLY_WINDOWS : N := 128.
Definition MAX_MAINTENANCE_WINDOWS : N := 128.
Definition MAX_SCHEDULES : N := N.shiftl 1 17.

Inductive ScheduleErrorCode :=
| InvalidArgument | LimitExceeded | DuplicateAccount | DuplicateWindow | VersionConflict
| VersionExhausted | StateUnavailable.
Definition as_str (code : ScheduleErrorCode) : string :=
  match code with
  | InvalidArgument => "ACCOUNT_SCHEDULE_INVALID_ARGUMENT"
  | LimitExceeded => "ACCOUNT_SCHEDULE_LIMIT_EXCEEDED"
  | DuplicateAccount => "ACCOUNT_SCHEDULE_DUPLICATE_ACCOUNT"
  | DuplicateWindow => "ACCOUNT_SCHEDULE_DUPLICATE_WINDOW"
  | VersionConflict => "ACCOUNT_SCHEDULE_VERSION_CONFLICT"
  | VersionExhausted => "ACCOUNT_SCHEDULE_VERSION_EXHAUSTED"
  | StateUnavailable => "ACCOUNT_SCHEDULE_STATE_UNAVAILABLE"
  end.
Definition next (version : N) : result ScheduleErrorCode N := next_generation VersionExhausted version.

(** ** Times and windows *)

Definition LocalOffsetMinutes_new (value : Z) : result ScheduleErrorCode Z :=
  if negb ((- MAX_OFFSET_MINUTES <=? value) && (value <=? MAX_OFFSET_MINUTES))%Z then Err InvalidArgument else Ok value.

Inductive Weekday := Monday | Tuesday | Wednesday | Thursday | Friday | Saturday | Sunday.
#[export] Instance Weekday_eq_dec : EqDecision Weekday.
Proof. solve_decision. Defined.
Definition from_unix_day (day : N) : Weekday :=
  match (day + 3) mod 7 with
  | 0 => Monday | 1 => Tuesday | 2 => Wednesday | 3 => Thursday | 4 => Friday | 5 => Saturday | _ => Sunday
  end.
(** The discriminants, by which the derived [Ord] compares. *)
Definition weekday_index (d : Weekday) : N :=
  match d with
  | Monday => 0 | Tuesday => 1 | Wednesday => 2 | Thursday => 3 | Friday => 4 | Saturday => 5 | Sunday => 6
  end.
Definition MinuteOfDay_new (value : N) : result ScheduleErrorCode N :=
  if MINUTES_PER_DAY <? value then Err InvalidArgument else Ok value.

Record ScheduleWindow := mk_ScheduleWindow { weekday : Weekday; start : N; finish : N }.
#[export] Instance ScheduleWindow_eq_dec : EqDecision ScheduleWindow.
Proof. solve_decision. Defined.
Definition ScheduleWindow_new (weekday : Weekday) (start finish : N) : result ScheduleErrorCode ScheduleWindow :=
  reject_if (finish <=? start) InvalidArgument ;; mret (mk_ScheduleWindow weekday start finish).
Definition window_contains (w : ScheduleWindow) (day : Weekday) (minute : N) : bool :=
  bool_decide (weekday w = day) && (start w <=? minute) && (minute <? finish w).
Definition window_key (w : ScheduleWindow) : N * N * N := (weekday_index (weekday w), start w, finish w).

Record MaintenanceWindow := mk_MaintenanceWindow { maintenance_start : N; maintenance_end : N }.
#[export] Instance MaintenanceWindow_eq_dec : EqDecision MaintenanceWindow.
Proof. solve_decision. Defined.
Definition MaintenanceWindow_new (start finish : N) : result ScheduleErrorCode MaintenanceWindow :=
  reject_if (finish <=? start) InvalidArgument ;; mret (mk_MaintenanceWindow start finish).
Definition maintenance_contains (w : MaintenanceWindow) (timestamp : N) : bool :=
  (maintenance_start w <=? timestamp) && (timestamp <? maintenance_end w).
Definition maintenance_key (w : MaintenanceWindow) : N * N := (maintenance_start w, maintenance_end w).

(** ** Schedules *)

Record AccountSchedule := mk_AccountSchedule {
  schedule_account_id : AccountId;
  offset : Z;
  weekly_windows : list ScheduleWindow;
  maintenance_windows : list MaintenanceWindow;
}.
Definition AccountSchedule_new (account_id : AccountId) (offset : Z) (weekly : list ScheduleWindow)
    (maintenance : list MaintenanceWindow) : result ScheduleErrorCode AccountSchedule :=
  reject_if ((MAX_WEEKLY_WINDOWS <? len weekly) || (MAX_MAINTENANCE_WINDOWS <? len maintenance)) LimitExceeded ;;
  let weekly := sort_by window_key weekly in
  reject_if (adjacent_duplicate window_key weekly) DuplicateWindow ;;
  let maintenance := sort_by maintenance_key maintenance in
  reject_if (adjacent_duplicate maintenance_key maintenance) DuplicateWindow ;;
  mret (mk_AccountSchedule account_id offset weekly maintenance).

Definition shift_utc (timestamp : N) (offset : Z) : result ScheduleErrorCode N :=
  magnitude ← ok_or (checked_mul u64_max (Z.abs_N offset) 60) VersionExhausted;
  if (0 <=? offset)%Z then ok_or (checked_add u64_max timestamp magnitude) VersionExhausted
  else ok_or (checked_sub timestamp magnitude) InvalidArgument.
Definition is_available_at (s : AccountSchedule) (timestamp : N) : result ScheduleErrorCode bool :=
  if existsb (fun w => maintenance_contains w timestamp) (maintenance_windows s) then Ok false
  else
    local_seconds ← shift_utc timestamp (offset s);
    let day := local_seconds / SECONDS_PER_DAY in
    let minute := truncate u16_max ((local_seconds mod SECONDS_PER_DAY) / 60) in
    let weekday := from_unix_day day in
    mret (existsb (fun w => window_contains w weekday minute) (weekly_windows s)).

(** ** The book *)

Record ScheduleSnapshot := mk_ScheduleSnapshot { version : N; schedules : list AccountSchedule }.
Definition ScheduleSnapshot_new (version : N) (entries : list AccountSchedule) : result ScheduleErrorCode ScheduleSnapshot :=
  reject_if (MAX_SCHEDULES <? len entries) LimitExceeded ;;
  let sorted := sort_by schedule_account_id entries in
  reject_if (adjacent_duplicate schedule_account_id sorted) DuplicateAccount ;;
  mret (mk_ScheduleSnapshot version sorted).
Definition schedule_for (s : ScheduleSnapshot) (account_id : AccountId) : option AccountSchedule :=
  binary_search (fun schedule => cmp (schedule_account_id schedule) account_id) (schedules s).
Record ScheduleReceipt := mk_ScheduleReceipt { receipt_version : N; receipt_snapshot : ScheduleSnapshot }.
Definition ScheduleBook_new : Lock ScheduleSnapshot := mk_lock false (mk_ScheduleSnapshot 0 []).
Definition publish (expected_version : N) (entries : list AccountSchedule)
    : act (Lock ScheduleSnapshot) ScheduleErrorCode ScheduleReceipt :=
  locked StateUnavailable (
    current ← get;
    lift (reject_if (negb (version current =? expected_version)) VersionConflict) ;;
    successor ← lift (next expected_version);
    snapshot ← lift (ScheduleSnapshot_new successor entries);
    put snapshot ;;
    mret (mk_ScheduleReceipt successor snapshot)).
Definition current_snapshot : act (Lock ScheduleSnapshot) ScheduleErrorCode ScheduleSnapshot :=
  locked StateUnavailable get.

#[export] Instance schedule_publication :
    Publication (Lock ScheduleSnapshot) (list AccountSchedule) ScheduleReceipt ScheduleErrorCode := {
  generation_of := fun b => version (lock_data b);
  publish_to := publish;
  background := fun _ _ => False;
}.

(** ** Specification *)

(** A local instant, in seconds: the epoch is a Thursday, so the week that holds it began
    three days earlier. *)
Definition local_seconds (timestamp : N) (offset : Z) : Z := (Z.of_N timestamp + 60 * offset)%Z.
Definition second_of_week (local : Z) : Z := ((local + 3 * 86400) mod (7 * 86400))%Z.
Definition opens (w : ScheduleWindow) : Z := (86400 * Z.of_N (weekday_index (weekday w)) + 60 * Z.of_N (start w))%Z.
Definition closes (w : ScheduleWindow) : Z := (86400 * Z.of_N (weekday_index (weekday w)) + 60 * Z.of_N (finish w))%Z.
Definition open_at (local : Z) (w : ScheduleWindow) : Prop :=
  (opens w <= second_of_week local < closes w)%Z.
#[export] Instance open_at_dec local w : Decision (open_at local w).
Proof. unfold open_at. apply _. Defined.
Definition under_maintenance (timestamp : N) (w : MaintenanceWindow) : Prop :=
  maintenance_start w <= timestamp < maintenance_end w.
#[export] Instance under_maintenance_dec timestamp w : Decision (under_maintenance timestamp w).
Proof. unfold under_maintenance. apply _. Defined.
Definition window_ok (w : ScheduleWindow) : Prop := start w < finish w <= MINUTES_PER_DAY.

(** ** Lemmas *)

Lemma weekday_index_lt d : weekday_index d < 7.
Proof. by destruct d. Qed.
Lemma weekday_index_inj d d' : weekday_index d = weekday_index d' -> d = d'.
Proof. by destruct d, d'. Qed.
Lemma from_unix_day_index day : weekday_index (from_unix_day day) = (day + 3) mod 7.
Proof.
  unfold from_unix_day. pose proof (N.mod_lt (day + 3) 7 ltac:(done)) as Hlt.
  destruct ((day + 3) mod 7) as [|p]; [done|]. do 3 (destruct p as [p|p|]; try done; try lia).
Qed.
(** The second of the week, from the code's day and minute. *)
Lemma second_of_week_day (l : N) :
  second_of_week (Z.of_N l) =
    (86400 * Z.of_N ((l / SECONDS_PER_DAY + 3) mod 7) + Z.of_N (l mod SECONDS_PER_DAY))%Z.
Proof.
  unfold second_of_week, SECONDS_PER_DAY. rewrite !N2Z.inj_mod, N2Z.inj_add, N2Z.inj_div. cbn [Z.of_N].
  pose proof (Z.div_mod (Z.of_N l) 86400 ltac:(done)) as Hl.
  pose proof (Z.mod_pos_bound (Z.of_N l) 86400 ltac:(done)) as Hm.
  set (d := (Z.of_N l / 86400)%Z) in *. set (m := (Z.of_N l mod 86400)%Z) in *.
  pose proof (Z.div_mod (d + 3) 7 ltac:(done)) as Hd. pose proof (Z.mod_pos_bound (d + 3) 7 ltac:(done)) as Hd7.
  symmetry. apply (Z.mod_unique_pos _ _ ((d + 3) / 7)); lia.
Qed.
Lemma window_contains_spec w (l : N) : window_ok w ->
  window_contains w (from_unix_day (l / SECONDS_PER_DAY)) (truncate u16_max ((l mod SECONDS_PER_DAY) / 60)) = true <->
  open_at (Z.of_N l) w.
Proof.
  intros [Hs He]. unfold MINUTES_PER_DAY in He.
  assert (l mod SECONDS_PER_DAY < 86400) as Hm by (apply N.mod_lt; done).
  assert ((l mod SECONDS_PER_DAY) / 60 < 1440) as Hmin by (apply N.Div0.div_lt_upper_bound; lia).
  rewrite truncate_small by (unfold u16_max; lia).
  unfold window_contains, open_at, opens, closes. rewrite second_of_week_day.
  rewrite !andb_true_iff, bool_decide_eq_true, N.leb_le, N.ltb_lt.
  pose proof (N.div_mod (l mod SECONDS_PER_DAY) 60 ltac:(done)) as Hdiv.
  pose proof (N.mod_lt (l mod SECONDS_PER_DAY) 60 ltac:(done)) as Hr.
  pose proof (from_unix_day_index (l / SECONDS_PER_DAY)) as Hday.
  pose proof (weekday_index_lt (weekday w)) as Hw.
  set (m := l mod SECONDS_PER_DAY) in *. set (d := (l / SECONDS_PER_DAY + 3) mod 7) in *.
  clearbody m d. set (q := m / 60) in *. set (r := m mod 60) in *. clearbody q r. split.
  - intros [[-> H1] H2]. rewrite Hday. lia.
  - intros [H1 H2]. assert (weekday_index (weekday w) = d) as Hwd by lia.
    split; [split|]; [apply weekday_index_inj; by rewrite Hday|lia|lia].
Qed.
Lemma existsb_perm {A} (f : A -> bool) l l' : l ≡ₚ l' -> existsb f l = existsb f l'.
Proof. induction 1; cbn; [done|by f_equal|by rewrite !orb_assoc, (orb_comm (f y))|congruence]. Qed.
Lemma existsb_Exists {A} (f : A -> bool) (P : A -> Prop) `{forall x, Decision (P x)} l :
  Forall (fun x => f x = true <-> P x) l -> existsb f l = bool_decide (Exists P l).
Proof.
  induction 1 as [|x l Hx _ IH]; cbn; [done|]. apply Bool.eq_iff_eq_true.
  rewrite orb_true_iff, IH, Hx, !bool_decide_eq_true, Exists_cons. done.
Qed.
Lemma shift_utc_spec t o : (- MAX_OFFSET_MINUTES <= o <= MAX_OFFSET_MINUTES)%Z -> t <= u64_max ->
  shift_utc t o = if decide (local_seconds t o < 0)%Z then Err InvalidArgument
    else if decide (Z.of_N u64_max < local_seconds t o)%Z then Err VersionExhausted
    else Ok (Z.to_N (local_seconds t o)).
Proof.
  unfold MAX_OFFSET_MINUTES, local_seconds. intros Ho Ht. unfold shift_utc, checked_mul.
  assert (Z.abs_N o * 60 <= 86400) as Hm by lia.
  rewrite (proj2 (N.leb_le _ _)) by (unfold u64_max; lia). cbn -[N.mul u64_max].
  destruct (Z.leb_spec 0 o) as [Hp|Hn].
  - unfold checked_add. rewrite decide_False by lia. destruct (N.leb_spec (t + Z.abs_N o * 60) u64_max); cbn -[N.mul u64_max].
    + rewrite decide_False by lia. f_equal. lia.
    + rewrite decide_True by lia. done.
  - unfold checked_sub. destruct (N.leb_spec (Z.abs_N o * 60) t); cbn -[N.mul u64_max].
    + rewrite decide_False by lia. rewrite decide_False by lia. f_equal. lia.
    + rewrite decide_True by lia. done.
Qed.
Lemma AccountSchedule_new_Ok account_id offset weekly maintenance s :
  AccountSchedule_new account_id offset weekly maintenance = Ok s <->
  len weekly <= MAX_WEEKLY_WINDOWS /\ len maintenance <= MAX_MAINTENANCE_WINDOWS /\
  NoDup (window_key <$> weekly) /\ NoDup (maintenance_key <$> maintenance) /\
  s = mk_AccountSchedule account_id offset (sort_by window_key weekly) (sort_by maintenance_key maintenance).
Proof.
  unfold AccountSchedule_new. split.
  - intros H. run_steps; tidy. split_and!; try done;
      [by apply (adjacent_duplicate_perm window_key)|by apply (adjacent_duplicate_perm maintenance_key)].
  - intros (Hw & Hm & Hnw & Hnm & ->). rewrite (proj2 (N.ltb_ge _ _) Hw), (proj2 (N.ltb_ge _ _) Hm). cbn.
    rewrite (proj2 (adjacent_duplicate_perm window_key _) Hnw). cbn.
    by rewrite (proj2 (adjacent_duplicate_perm maintenance_key _) Hnm).
Qed.

#[export] Instance schedule_publication_laws :
  PublicationLaws (Lock ScheduleSnapshot) (list AccountSchedule) ScheduleReceipt ScheduleErrorCode.
Proof.
  split; cbn; [| |done].
  - intros b b' g c r [[_ [=]]|(s' & Hrun & -> & _)]%locked_inv. run_steps; tidy.
    match goal with H : next _ = Ok _ |- _ => apply next_generation_Ok in H as [-> _] end.
    unfold ScheduleSnapshot_new in *. run_steps. by subst.
  - intros [p s] b' g c e [[-> _]|(s' & Hrun & -> & Hp)]%locked_inv; [done|].
    cbn in Hp. subst p. run_steps; done.
Qed.
Lemma schedule_for_spec version entries snapshot account_id s :
  ScheduleSnapshot_new version entries = Ok snapshot ->
  schedule_for snapshot account_id = Some s <-> s ∈ entries /\ schedule_account_id s = account_id.
Proof.
  unfold ScheduleSnapshot_new. intros H. run_steps; tidy. unfold schedule_for. cbn [schedules].
  rewrite (binary_search_spec schedule_account_id account_id); [by rewrite sort_by_Permutation|].
  apply sorted_NoDup_strict; [apply sort_by_sorted|]. rewrite sort_by_Permutation.
  by apply (adjacent_duplicate_perm schedule_account_id).
Qed.

(** ** Properties *)

(** An account is available at an instant exactly when the instant lies in no
    maintenance window and its local time lies in a weekly window, where a weekly window is a
    half-open interval of the seconds of the local week.  The shift to local time is refused
    when it leaves the 64-bit range, never wrapped, and the order in which the windows were
    given does not matter. *)
Theorem availability_exact account_id offset weekly maintenance s timestamp :
  AccountSchedule_new account_id offset weekly maintenance = Ok s ->
  Forall window_ok weekly -> (- MAX_OFFSET_MINUTES <= offset <= MAX_OFFSET_MINUTES)%Z -> timestamp <= u64_max ->
  let local := local_seconds timestamp offset in
  is_available_at s timestamp =
    if decide (Exists (under_maintenance timestamp) maintenance) then Ok false
    else if decide (local < 0)%Z then Err InvalidArgument
    else if decide (Z.of_N u64_max < local)%Z then Err VersionExhausted
    else Ok (bool_decide (Exists (open_at local) weekly)).
Proof.
  intros (_ & _ & _ & _ & ->)%AccountSchedule_new_Ok Hok Ho Ht. cbv zeta. unfold is_available_at. cbn [maintenance_windows weekly_windows AccountSchedule.offset].
  rewrite (existsb_perm _ _ _ (sort_by_Permutation maintenance_key maintenance)).
  rewrite (existsb_Exists _ (under_maintenance timestamp)).
  2: { apply Forall_forall. intros w _. unfold maintenance_contains, under_maintenance.
       by rewrite andb_true_iff, N.leb_le, N.ltb_lt. }
  destruct (decide (Exists _ maintenance)) as [Hm|Hm]; [by rewrite bool_decide_true|]. rewrite bool_decide_false by done.
  rewrite shift_utc_spec by done. destruct (decide _) as [|Hlo]; [done|]. destruct (decide _) as [|Hhi]; [done|]. cbn.
  rewrite (existsb_perm _ _ _ (sort_by_Permutation window_key weekly)). f_equal. apply existsb_Exists.
  eapply Forall_impl; [exact Hok|]. intros w Hw. rewrite window_contains_spec by done. by rewrite Z2N.id by lia.
Qed.
(** Friday 1970-01-02, 01:30 in UTC+2 is 23:30 on Thursday in UTC. *)
Lemma availability_exact_witness :
  is_available_at (mk_AccountSchedule (MkId "a") 120 [mk_ScheduleWindow Friday 60 120] []) 84600 = Ok true.
Proof.
  rewrite (availability_exact (MkId "a") 120 [mk_ScheduleWindow Friday 60 120] [] _ 84600).
  - vm_compute. reflexivity.
  - vm_compute. reflexivity.
  - constructor; [split; vm_compute; congruence|constructor].
  - split; vm_compute; congruence.
  - vm_compute. congruence.
Defined.
