(* ===== verification/AccountAffinity.v ===== *)
(** * Account affinity

    Models [crates/optional/ariadnion-account-affinity/src/lib.rs]: opaque stickiness keys,
    the bounded registry of bindings with its epochs, and the deterministic ranking used
    when no live binding applies.  SHA-256 is a parameter, of which nothing is assumed: what
    would need it to be free of collisions is stated as a collision found. *)

From Stdlib Require Import Ascii.
From S2P Require Import Prelude CoreTypes Publication.
#[local] Open Scope N_scope.

Definition MAX_SUBJECT_BYTES : N := 256.
Definition MAX_CANDIDATE_BYTES : N := 128.
Definition MAX_BINDINGS : N := N.shiftl 1 17.
Definition MAX_CANDIDATES : N := N.shiftl 1 17.
Definition MAX_TTL_SECONDS : N := 30 * 86400.

Inductive AccountAffinityErrorCode :=
| InvalidArgument | EmptyCandidateSet | TooManyCandidates | CapacityExceeded | InvalidTtl
| GenerationConflict | EpochConflict | TenantMismatch | VersionExhausted | StateUnavailable.
Definition as_str (code : AccountAffinityErrorCode) : string :=
  match code with
  | InvalidArgument => "ACCOUNT_AFFINITY_INVALID_ARGUMENT"
  | EmptyCandidateSet => "ACCOUNT_AFFINITY_EMPTY_CANDIDATE_SET"
  | TooManyCandidates => "ACCOUNT_AFFINITY_TOO_MANY_CANDIDATES"
  | CapacityExceeded => "ACCOUNT_AFFINITY_CAPACITY_EXCEEDED"
  | InvalidTtl => "ACCOUNT_AFFINITY_INVALID_TTL"
  | GenerationConflict => "ACCOUNT_AFFINITY_GENERATION_CONFLICT"
  | EpochConflict => "ACCOUNT_AFFINITY_EPOCH_CONFLICT"
  | TenantMismatch => "ACCOUNT_AFFINITY_TENANT_MISMATCH"
  | VersionExhausted => "ACCOUNT_AFFINITY_VERSION_EXHAUSTED"
  | StateUnavailable => "ACCOUNT_AFFINITY_STATE_UNAVAILABLE"
  end.

(** [AffinityGeneration::next], [AffinityEpoch::next], [UtcSeconds::checked_add]. *)
Definition next (version : N) : result AccountAffinityErrorCode N := next_generation VersionExhausted version.
Definition seconds_checked_add (now seconds : N) : result AccountAffinityErrorCode N :=
  ok_or (checked_add u64_max now seconds) VersionExhausted.

Inductive AffinityScope := User | Session | SessionFamily.
#[export] Instance AffinityScope_eq_dec : EqDecision AffinityScope.
Proof. solve_decision. Defined.
Definition scope_index (s : AffinityScope) : N := match s with User => 0 | Session => 1 | SessionFamily => 2 end.
Definition scope_of_index (n : N) : AffinityScope := match n with 0 => User | 1 => Session | _ => SessionFamily end.
#[export] Program Instance AffinityScope_countable : Countable AffinityScope :=
  inj_countable' scope_index scope_of_index _.
Next Obligation. by intros []. Qed.

(** ** Byte encodings *)

Fixpoint be_bytes (width : nat) (value : N) : string :=
  match width with
  | O => ""
  | S width => String (ascii_of_N (N.shiftr value (8 * N.of_nat width) mod 256)) (be_bytes width value)
  end.
Definition NUL : string := String (ascii_of_N 0) "".
(** The length of a string, [as u16], and its bytes. *)
Definition sized (s : string) : string := be_bytes 2 (truncate u16_max (byte_len s)) +:+ s.

(** ** Keys and candidates *)

Definition OpaqueAffinityId := string.
Record AffinityKey := mk_AffinityKey {
  tenant_id : TenantId; scope : AffinityScope; id : OpaqueAffinityId; epoch : N;
}.
#[export] Instance AffinityKey_eq_dec : EqDecision AffinityKey.
Proof. solve_decision. Defined.
#[export] Program Instance AffinityKey_countable : Countable AffinityKey :=
  inj_countable' (fun k => (tenant_id k, scope k, id k, epoch k))
    (fun '(t, s, i, e) => mk_AffinityKey t s i e) _.
Next Obligation. by intros []. Qed.

Definition bounded_ascii (value : string) (limit : N) : bool :=
  is_empty value || (limit <? byte_len value) || negb (is_ascii value) || any_byte is_ascii_control value.
Definition CandidateId := Id AffinityCandidateKind.
Definition CandidateId_parse (value : string) : result AccountAffinityErrorCode CandidateId :=
  if bounded_ascii value MAX_CANDIDATE_BYTES then Err InvalidArgument else Ok (MkId value).

Record AffinityBinding := mk_AffinityBinding { key : AffinityKey; candidate : CandidateId; expires_at : N }.
Definition is_live (b : AffinityBinding) (k : AffinityKey) (now : N) : bool :=
  bool_decide (key b = k) && (now <? expires_at b).

Record RegistryState := mk_RegistryState {
  registry_tenant_id : TenantId;
  generation : N;
  registry_epoch : N;
  bindings : gmap AffinityKey AffinityBinding;
}.
#[export] Instance RegistryState_eta : Eta RegistryState := fun s =>
  mk_RegistryState (registry_tenant_id s) (generation s) (registry_epoch s) (bindings s).
Record AffinitySnapshot := mk_AffinitySnapshot {
  snapshot_tenant_id : TenantId;
  snapshot_generation : N;
  snapshot_epoch : N;
  snapshot_bindings : list AffinityBinding;
}.

Definition with_versions (tenant_id : TenantId) (epoch generation : N) : Lock RegistryState :=
  mk_lock false (mk_RegistryState tenant_id generation epoch ∅).
Definition with_epoch (tenant_id : TenantId) (epoch : N) : Lock RegistryState := with_versions tenant_id epoch 0.
Definition AffinityRegistry_new (tenant_id : TenantId) : Lock RegistryState := with_versions tenant_id 0 0.

(** ** Checks *)

Definition validate_candidates (candidates : list CandidateId) : result AccountAffinityErrorCode unit :=
  reject_if (bool_decide (candidates = [])) EmptyCandidateSet ;;
  reject_if (MAX_CANDIDATES <? len candidates) TooManyCandidates.
Definition validate_ttl (ttl_seconds : N) : result AccountAffinityErrorCode unit :=
  reject_if ((ttl_seconds =? 0) || (MAX_TTL_SECONDS <? ttl_seconds)) InvalidTtl.
Definition validate_assignment_inputs (candidates : list CandidateId) (ttl_seconds : N)
    : result AccountAffinityErrorCode unit :=
  validate_candidates candidates ;; validate_ttl ttl_seconds.
Definition validate_key (state : RegistryState) (k : AffinityKey) : result AccountAffinityErrorCode unit :=
  reject_if (bool_decide (tenant_id k <> registry_tenant_id state)) TenantMismatch ;;
  reject_if (negb (epoch k =? registry_epoch state)) EpochConflict.
Definition prepare_assignment (state : RegistryState) (k : AffinityKey) : result AccountAffinityErrorCode N :=
  validate_key state k ;; next (generation state).
Definition ensure_capacity (state : RegistryState) (k : AffinityKey) : result AccountAffinityErrorCode unit :=
  reject_if (bool_decide (bindings state !! k = None) && (MAX_BINDINGS <=? N.of_nat (size (bindings state)))) CapacityExceeded.
Definition prune_expired (m : gmap AffinityKey AffinityBinding) (now : N) : gmap AffinityKey AffinityBinding :=
  filter (fun kb => now < expires_at kb.2) m.

Definition live_candidate_index (state : RegistryState) (k : AffinityKey) (candidates : list CandidateId) (now : N)
    : option nat :=
  b ← bindings state !! k;
  if negb (is_live b k now) then None
  else fst <$> list_find (fun c => c = candidate b) candidates.

(** ** The registry, over the hash *)

Section registry.
  Context (sha256 : string -> string).

Definition derivation (tenant_id : TenantId) (scope : AffinityScope) (subject : string) (epoch : N) : string :=
  "ariadnion-affinity-v1" +:+ NUL +:+ sized (id_str tenant_id) +:+
  be_bytes 1 (scope_index scope) +:+ be_bytes 8 epoch +:+ sized subject.
Definition OpaqueAffinityId_derive (tenant_id : TenantId) (scope : AffinityScope) (subject : string) (epoch : N)
    : result AccountAffinityErrorCode OpaqueAffinityId :=
  if bounded_ascii subject MAX_SUBJECT_BYTES then Err InvalidArgument
  else Ok (sha256 (derivation tenant_id scope subject epoch)).
Definition AffinityKey_derive (tenant_id : TenantId) (scope : AffinityScope) (subject : string) (epoch : N)
    : result AccountAffinityErrorCode AffinityKey :=
  id ← OpaqueAffinityId_derive tenant_id scope subject epoch;
  mret (mk_AffinityKey tenant_id scope id epoch).

Definition ranking_input (k : AffinityKey) (c : CandidateId) : string :=
  "ariadnion-affinity-select-v1" +:+ NUL +:+ be_bytes 1 (scope_index (scope k)) +:+ be_bytes 8 (epoch k) +:+
  id k +:+ sized (id_str c).
Definition score (k : AffinityKey) (c : CandidateId) : string := sha256 (ranking_input k c).
Definition rank (k : AffinityKey) (best : option (string * CandidateId)) (c : CandidateId) : option (string * CandidateId) :=
  if is_none_or (fun '(current, _) => is_lt (score k c) current) best then Some (score k c, c) else best.
Definition deterministic_candidate (k : AffinityKey) (candidates : list CandidateId)
    : result AccountAffinityErrorCode CandidateId :=
  ok_or (snd <$> foldl (rank k) None candidates) EmptyCandidateSet.

Definition assignment_candidate (state : RegistryState) (k : AffinityKey) (candidates : list CandidateId) (now : N)
    : result AccountAffinityErrorCode CandidateId :=
  match bindings state !! k with
  | Some b =>
      if is_live b k now && existsb (fun c => bool_decide (c = candidate b)) candidates then Ok (candidate b)
      else deterministic_candidate k candidates
  | None => deterministic_candidate k candidates
  end.

(** [AffinityRegistry::select] borrows the registry and the candidates. *)
Definition select (k : AffinityKey) (candidates : list CandidateId) (now : N)
    : act (Lock RegistryState) AccountAffinityErrorCode CandidateId :=
  lift (validate_candidates candidates) ;;
  locked StateUnavailable (query (fun state =>
    validate_key state k ;;
    match live_candidate_index state k candidates now with
    | Some index => ok_or (candidates !! index) EmptyCandidateSet
    | None => deterministic_candidate k candidates
    end)).
Definition assign_body (k : AffinityKey) (candidates : list CandidateId) (now expires_at : N)
    : act RegistryState AccountAffinityErrorCode AffinityBinding :=
  state ← get;
  next_generation ← lift (prepare_assignment state k);
  modify (fun st => st <| bindings := prune_expired (bindings st) now |>) ;;
  state ← get;
  c ← lift (assignment_candidate state k candidates now);
  lift (ensure_capacity state k) ;;
  let binding := mk_AffinityBinding k c expires_at in
  modify (fun st => st <| bindings := <[k := binding]> (bindings st) |>) ;;
  modify (fun st => st <| generation := next_generation |>) ;;
  mret binding.
Definition assign (k : AffinityKey) (candidates : list CandidateId) (now ttl_seconds : N)
    : act (Lock RegistryState) AccountAffinityErrorCode AffinityBinding :=
  lift (validate_assignment_inputs candidates ttl_seconds) ;;
  expires_at ← lift (seconds_checked_add now ttl_seconds);
  locked StateUnavailable (assign_body k candidates now expires_at).
End registry.

Definition expire_body (now : N) : act RegistryState AccountAffinityErrorCode N :=
  state ← get;
  let before := N.of_nat (size (bindings state)) in
  let has_expired := existsb (fun b => expires_at b <=? now) (map_to_list (bindings state)).*2 in
  next_generation ← lift (if has_expired then Some <$> next (generation state) else Ok None);
  modify (fun st => st <| bindings := prune_expired (bindings st) now |>) ;;
  state ← get;
  let removed := saturating_sub before (N.of_nat (size (bindings state))) in
  match next_generation with
  | Some g => if 0 <? removed then modify (fun st => st <| generation := g |>) else mret tt
  | None => mret tt
  end ;;
  mret removed.
Definition expire (now : N) : act (Lock RegistryState) AccountAffinityErrorCode N :=
  locked StateUnavailable (expire_body now).
Definition rotate_epoch (expected_generation : N) : act (Lock RegistryState) AccountAffinityErrorCode (N * N) :=
  locked StateUnavailable (
    state ← get;
    lift (reject_if (negb (generation state =? expected_generation)) GenerationConflict) ;;
    next_epoch ← lift (next (registry_epoch state));
    next_generation ← lift (next (generation state));
    modify (fun st => st <| registry_epoch := next_epoch |>) ;;
    modify (fun st => st <| bindings := ∅ |>) ;;
    modify (fun st => st <| generation := next_generation |>) ;;
    mret (next_epoch, next_generation)).
(** The map is visited in an unspecified order, and the bindings are then sorted. *)
Definition binding_key (b : AffinityBinding) : N * string * N := (scope_index (scope (key b)), id (key b), epoch (key b)).
Definition snapshot : act (Lock RegistryState) AccountAffinityErrorCode AffinitySnapshot :=
  locked StateUnavailable (query (fun state =>
    Ok (mk_AffinitySnapshot (registry_tenant_id state) (generation state) (registry_epoch state)
          (sort_by binding_key (map_to_list (bindings state)).*2)))).
Definition active_epoch : act (Lock RegistryState) AccountAffinityErrorCode N :=
  locked StateUnavailable (query (fun state => Ok (registry_epoch state))).

(** ** Specification *)

Inductive affinity_request :=
| SelectFor (k : AffinityKey) (candidates : list CandidateId) (now : N)
| AssignFor (k : AffinityKey) (candidates : list CandidateId) (now ttl_seconds : N)
| ExpireAt (now : N)
| RotateEpoch (expected_generation : N)
| TakeSnapshot.
Definition serve (sha256 : string -> string) (r : affinity_request) (book : Lock RegistryState) : Lock RegistryState :=
  match r with
  | SelectFor k cs now => (select sha256 k cs now book).1
  | AssignFor k cs now ttl => (assign sha256 k cs now ttl book).1
  | ExpireAt now => (expire now book).1
  | RotateEpoch g => (rotate_epoch g book).1
  | TakeSnapshot => (snapshot book).1
  end.
Definition serve_all (sha256 : string -> string) (rs : list affinity_request) (book : Lock RegistryState) : Lock RegistryState :=
  foldl (fun book r => serve sha256 r book) book rs.
(** Requests that leave the binding of a key alone: no rotation, no clock past its expiry,
    no new assignment of the same key. *)
Definition leaves (b : AffinityBinding) (r : affinity_request) : Prop :=
  match r with
  | AssignFor k _ now _ => k <> key b /\ now < expires_at b
  | ExpireAt now => now < expires_at b
  | RotateEpoch _ => False
  | SelectFor _ _ _ | TakeSnapshot => True
  end.
Definition bound (b : AffinityBinding) (book : Lock RegistryState) : Prop :=
  lock_poisoned book = false /\ bindings (lock_data book) !! key b = Some b /\
  validate_key (lock_data book) (key b) = Ok tt.
Definition collision (sha256 : string -> string) : Prop := exists m m', m <> m' /\ sha256 m = sha256 m'.

(** ** Lemmas: encodings *)

Lemma be_bytes_length width value : String.length (be_bytes width value) = width.
Proof. revert value. induction width as [|width IH]; intros value; cbn; [done|]. by rewrite IH. Qed.
Lemma byte_inj (a b : N) : a < 256 -> b < 256 -> ascii_of_N a = ascii_of_N b -> a = b.
Proof. intros Ha Hb Heq. rewrite <- (N_ascii_embedding a Ha), <- (N_ascii_embedding b Hb). by f_equal. Qed.
Lemma be_bytes_mod width v v' : be_bytes width v = be_bytes width v' ->
  v mod 256 ^ N.of_nat width = v' mod 256 ^ N.of_nat width.
Proof.
  induction width as [|width IH]; cbn [be_bytes]; [by rewrite !N.mod_1_r|]. intros [= Hhead Htail%IH].
  apply byte_inj in Hhead; [|by apply N.mod_lt|by apply N.mod_lt].
  rewrite !N.shiftr_div_pow2 in Hhead. replace (2 ^ (8 * N.of_nat width)) with (256 ^ N.of_nat width) in Hhead.
  2: { change 256 with (2 ^ 8). by rewrite <- N.pow_mul_r. }
  replace (N.of_nat (S width)) with (N.of_nat width + 1) by lia.
  rewrite N.pow_add_r, N.pow_1_r, !N.Div0.mod_mul_r, Hhead, Htail. done.
Qed.
Lemma be_bytes_inj width v v' : v < 256 ^ N.of_nat width -> v' < 256 ^ N.of_nat width ->
  be_bytes width v = be_bytes width v' -> v = v'.
Proof. intros Hv Hv' Heq%be_bytes_mod. by rewrite !N.mod_small in Heq. Qed.
Lemma append_assoc (s t u : string) : (s +:+ t) +:+ u = s +:+ (t +:+ u).
Proof. induction s as [|a s IH]; [done|]. exact (f_equal (String a) IH). Qed.
Lemma append_inj (s s' t t' : string) : String.length s = String.length s' ->
  s +:+ t = s' +:+ t' -> s = s' /\ t = t'.
Proof.
  revert s'. induction s as [|a s IH]; intros [|a' s'] Hl; cbn; try done.
  intros [= -> Heq]. cbn in Hl. destruct (IH s' ltac:(lia) Heq) as [-> ->]. done.
Qed.
Lemma sized_inj s s' t t' : byte_len s <= u16_max -> byte_len s' <= u16_max ->
  sized s +:+ t = sized s' +:+ t' -> s = s' /\ t = t'.
Proof.
  intros Hs Hs' Heq. unfold sized in Heq. rewrite !truncate_small in Heq by done.
  rewrite !append_assoc in Heq.
  apply append_inj in Heq as [Hlen Heq]; [|by rewrite !be_bytes_length].
  apply be_bytes_inj in Hlen; [|cbn; unfold u16_max in *; lia|cbn; unfold u16_max in *; lia].
  apply append_inj in Heq; [done|]. unfold byte_len in Hlen. lia.
Qed.
Lemma scope_index_inj s s' : scope_index s = scope_index s' -> s = s'.
Proof. by destruct s, s'. Qed.
Lemma derivation_inj t t' s s' subject subject' e e' :
  byte_len (id_str t) <= u16_max -> byte_len (id_str t') <= u16_max ->
  byte_len subject <= u16_max -> byte_len subject' <= u16_max -> e <= u64_max -> e' <= u64_max ->
  derivation t s subject e = derivation t' s' subject' e' -> t = t' /\ s = s' /\ subject = subject' /\ e = e'.
Proof.
  unfold derivation. intros Ht Ht' Hs Hs' He He' Heq.
  apply append_inj in Heq as [_ Heq]; [|done]. apply append_inj in Heq as [_ Heq]; [|done].
  apply sized_inj in Heq as [Htt Heq]; [|done..].
  apply append_inj in Heq as [Hscope Heq]; [|done]. apply append_inj in Heq as [Hep Heq]; [|by rewrite !be_bytes_length].
  apply be_bytes_inj in Hscope; [|by destruct s|by destruct s']. apply scope_index_inj in Hscope as ->.
  apply be_bytes_inj in Hep as ->; [|cbn; unfold u64_max in *; lia|cbn; unfold u64_max in *; lia].
  assert (sized subject +:+ "" = sized subject' +:+ "") as Hsub by (by rewrite Heq).
  apply sized_inj in Hsub as [-> _]; [|done..]. destruct t, t'. cbn in Htt. by subst.
Qed.
Lemma derivation_not_ranking t s subject e k c : derivation t s subject e <> ranking_input k c.
Proof. unfold derivation, ranking_input. cbn. intros Heq. discriminate Heq. Qed.
Lemma bounded_ascii_len value limit : bounded_ascii value limit = false -> byte_len value <= limit.
Proof. unfold bounded_ascii. intros H. tidy. done. Qed.

(** ** Lemmas: the ranking *)

(** The result of the ranking is the first candidate with the least score. *)
Lemma rank_foldl (sha256 : string -> string) k l1 c l2 : (forall x, x ∈ l1 -> ord_lt (score sha256 k c) (score sha256 k x)) ->
  (forall x, x ∈ l2 -> ord_le (score sha256 k c) (score sha256 k x)) ->
  foldl (rank sha256 k) None (l1 ++ c :: l2) = Some (score sha256 k c, c).
Proof.
  intros H1 H2. rewrite foldl_app. cbn [foldl].
  assert (forall best l, (forall x, x ∈ l -> ord_lt (score sha256 k c) (score sha256 k x)) ->
    (best = None \/ exists y, best = Some (score sha256 k y, y) /\ ord_lt (score sha256 k c) (score sha256 k y)) ->
    rank sha256 k (foldl (rank sha256 k) best l) c = Some (score sha256 k c, c)) as Hbefore.
  { intros best l. revert best. induction l as [|x l IH]; intros best Hl Hb; cbn [foldl].
    - unfold rank, is_lt. destruct Hb as [-> |(y & -> & Hy)]; cbn; [done|]. by rewrite Hy.
    - apply IH; [intros z Hz; apply Hl; by right|]. right. unfold rank.
      destruct (is_none_or _ best) eqn:Hn; [exists x; split; [done|]; apply Hl; by left|].
      destruct Hb as [-> |?]; done. }
  rewrite (Hbefore None l1 H1 (or_introl eq_refl)). clear Hbefore H1.
  induction l2 as [|x l2 IH]; cbn [foldl]; [done|].
  assert (rank sha256 k (Some (score sha256 k c, c)) x = Some (score sha256 k c, c)) as ->.
  { unfold rank, is_lt. cbn. pose proof (H2 x (list_elem_of_here _ _)) as Hx. rewrite cmp_opp.
    unfold ord_le in Hx. by destruct (cmp (score sha256 k c) (score sha256 k x)). }
  apply IH. intros y Hy. apply H2. by right.
Qed.
Lemma rank_exists (sha256 : string -> string) k cs : cs <> [] -> exists l1 c l2, cs = l1 ++ c :: l2 /\
  (forall x, x ∈ l1 -> ord_lt (score sha256 k c) (score sha256 k x)) /\
  (forall x, x ∈ l2 -> ord_le (score sha256 k c) (score sha256 k x)).
Proof.
  induction cs as [|x cs IH]; [done|]. intros _. destruct cs as [|y cs].
  { exists [], x, []. split; [done|]. split; by intros z ?%not_elem_of_nil. }
  destruct IH as (l1 & c & l2 & Heq & H1 & H2); [done|]. rewrite Heq.
  destruct (cmp (score sha256 k c) (score sha256 k x)) eqn:Hc.
  2: { exists (x :: l1), c, l2. split; [done|]. split; [|done]. intros z [->|Hz]%elem_of_cons; [done|by apply H1]. }
  all: exists [], x, (l1 ++ c :: l2); split; [done|]; split; [by intros z ?%not_elem_of_nil|].
  all: assert (ord_le (score sha256 k x) (score sha256 k c)) as Hle by (unfold ord_le; rewrite cmp_opp, Hc; done).
  all: intros z [Hz%H1|[->|Hz%H2]%elem_of_cons]%elem_of_app; [|done|by eapply ord_le_trans].
  all: eapply ord_le_trans; [exact Hle|by apply ord_lt_le].
Qed.
Lemma deterministic_candidate_spec (sha256 : string -> string) k cs c : deterministic_candidate sha256 k cs = Ok c <->
  exists l1 l2, cs = l1 ++ c :: l2 /\ (forall x, x ∈ l1 -> ord_lt (score sha256 k c) (score sha256 k x)) /\
    (forall x, x ∈ l2 -> ord_le (score sha256 k c) (score sha256 k x)).
Proof.
  unfold deterministic_candidate. split.
  - destruct (decide (cs = [])) as [-> |Hne]; [done|].
    destruct (rank_exists sha256 k cs Hne) as (l1 & c' & l2 & -> & H1 & H2).
    rewrite rank_foldl by done. cbn. intros [= <-]. by exists l1, l2.
  - intros (l1 & l2 & -> & H1 & H2). by rewrite rank_foldl.
Qed.

(** Withdrawing candidates other than the one a key is ranked to does not move the key. *)
Theorem rendezvous_minimal_disruption (sha256 : string -> string) k cs c (p : CandidateId -> bool) :
  deterministic_candidate sha256 k cs = Ok c -> p c = true ->
  deterministic_candidate sha256 k (List.filter p cs) = Ok c.
Proof.
  intros (l1 & l2 & -> & H1 & H2)%deterministic_candidate_spec Hp. apply deterministic_candidate_spec.
  exists (List.filter p l1), (List.filter p l2). split_and!.
  - rewrite List.filter_app. cbn. by rewrite Hp.
  - intros x [Hx _]%elem_of_list_filter. by apply H1.
  - intros x [Hx _]%elem_of_list_filter. by apply H2.
Qed.

(** ** Lemmas: the registry *)

Lemma affinity_candidates_Ok cs : validate_candidates cs = Ok tt <-> cs <> [] /\ len cs <= MAX_CANDIDATES.
Proof.
  unfold validate_candidates. destruct (decide (cs = [])) as [-> |Hne].
  - rewrite bool_decide_true by done. cbn. naive_solver.
  - rewrite bool_decide_false by done. cbn. rewrite reject_if_Ok, N.ltb_ge. tauto.
Qed.
Lemma validate_key_Ok s k : validate_key s k = Ok tt <-> tenant_id k = registry_tenant_id s /\ epoch k = registry_epoch s.
Proof.
  unfold validate_key. destruct (decide (tenant_id k = registry_tenant_id s)) as [Ht|Ht].
  - rewrite bool_decide_false by naive_solver. cbn. rewrite reject_if_Ok, negb_false_iff, N.eqb_eq. tauto.
  - rewrite bool_decide_true by done. cbn. naive_solver.
Qed.
Lemma prune_lookup m now k b : m !! k = Some b -> now < expires_at b -> prune_expired m now !! k = Some b.
Proof. intros Hk Hlt. unfold prune_expired. by apply map_lookup_filter_Some. Qed.
Lemma assign_Ok (sha256 : string -> string) k cs now ttl book book' b : assign sha256 k cs now ttl book = (book', Ok b) ->
  key b = k /\ expires_at b = now + ttl /\ bound b book'.
Proof.
  unfold assign. intros H. run_steps.
  match goal with H : seconds_checked_add _ _ = Ok _ |- _ => unfold seconds_checked_add in H end. run_steps.
  match goal with H : locked _ _ _ = _ |- _ => apply locked_inv in H as [[_ [=]]|(s' & Hrun & -> & Hp)] end.
  unfold assign_body in Hrun. run_steps. split; [done|]. split; [done|]. unfold bound. cbn.
  split; [done|]. split; [by rewrite lookup_insert_eq|].
  match goal with H : prepare_assignment _ _ = Ok _ |- _ => unfold prepare_assignment in H end. run_steps.
  tidy. done.
Qed.
Lemma serve_bound (sha256 : string -> string) b r book : leaves b r -> bound b book -> bound b (serve sha256 r book).
Proof.
  intros Hr (Hp & Hk & Hv). destruct book as [p s]. cbn in Hp. subst p. cbn [lock_data] in *.
  destruct r as [k cs now|k cs now ttl|now|g|]; cbn [serve leaves] in *; try done.
  - unfold select. destruct (validate_candidates cs); [|done]. rewrite act_lift_run, locked_run. done.
  - destruct Hr as [Hne Hnow]. unfold assign. destruct (validate_assignment_inputs cs ttl); [|done]. rewrite act_lift_run.
    destruct (seconds_checked_add now ttl) as [e|]; [|done]. rewrite act_lift_run, locked_run. cbn [fst]. unfold assign_body.
    rewrite act_get_run. destruct (prepare_assignment s k) as [g|]; [|done]. rewrite act_lift_run, act_modify_run, act_get_run.
    pose proof (prune_lookup _ _ _ _ Hk Hnow) as Hk'.
    destruct (assignment_candidate _ _ k cs now) as [c|]; [|done]. rewrite act_lift_run.
    destruct (ensure_capacity _ k); [|done]. rewrite act_lift_run, !act_modify_run.
    split; [done|]. split; [|done]. cbn. by rewrite lookup_insert_ne.
  - unfold expire. rewrite locked_run. cbn [fst]. unfold expire_body. rewrite act_get_run.
    pose proof (prune_lookup _ _ _ _ Hk Hr) as Hk'.
    assert (forall g, bound b (mk_lock false (s <| bindings := prune_expired (bindings s) now |> <| generation := g |>))) as Hb by done.
    destruct (existsb _ _); cbn [fmap].
    + destruct (next (generation s)) as [g|]; [|done]. cbn [fmap result_fmap]. rewrite act_lift_run, act_modify_run, act_get_run.
      destruct (0 <? _); [by apply (Hb g)|]. by apply (Hb (generation s)).
    + rewrite act_lift_run, act_modify_run, act_get_run. by apply (Hb (generation s)).
Qed.
Lemma select_bound (sha256 : string -> string) b book cs now : bound b book -> now < expires_at b ->
  candidate b ∈ cs -> len cs <= MAX_CANDIDATES -> (select sha256 (key b) cs now book).2 = Ok (candidate b).
Proof.
  intros (Hp & Hk & Hv) Hnow Hin Hlen. destruct book as [p s]. cbn in Hp. subst p. cbn [lock_data] in *.
  unfold select. rewrite (proj2 (affinity_candidates_Ok cs)).
  2: { split; [|done]. intros ->. by apply not_elem_of_nil in Hin. }
  rewrite act_lift_run, locked_run. cbn [snd]. unfold query. cbn [snd]. rewrite Hv. cbn.
  unfold live_candidate_index. rewrite Hk. cbn. unfold is_live. rewrite bool_decide_true by done.
  rewrite (proj2 (N.ltb_lt _ _) Hnow). cbn. destruct (list_find_elem_of (fun c => c = candidate b) cs (candidate b) Hin eq_refl) as [[i c] Hf].
  rewrite Hf. cbn. apply list_find_Some in Hf as (Hi & -> & _). by rewrite Hi.
Qed.

(** ** Properties *)

(** Once a key is assigned, every later selection for it returns the same candidate
    as long as that candidate is offered and the binding has not expired, whatever other
    requests the registry serves in between, short of a rotation of the epoch, a new
    assignment of the key, or a clock past the expiry. *)
Theorem affinity_sticks (sha256 : string -> string) k cs now ttl book book' b rs cs' later :
  assign sha256 k cs now ttl book = (book', Ok b) -> Forall (leaves b) rs -> later < now + ttl ->
  candidate b ∈ cs' -> len cs' <= MAX_CANDIDATES ->
  (select sha256 k cs' later (serve_all sha256 rs book')).2 = Ok (candidate b).
Proof.
  intros (<- & He & Hb)%assign_Ok Hrs Hl Hin Hlen. apply select_bound; [|by rewrite He|done|done].
  unfold serve_all. revert book' Hb. induction Hrs as [|r rs Hr _ IH]; intros book' Hb; cbn; [done|].
  apply IH. by apply serve_bound.
Qed.
Definition sample_key (subject : string) : AffinityKey := mk_AffinityKey (MkId "t") User subject 3.
Lemma affinity_sticks_witness :
  let book := (assign (fun m => m) (sample_key "u") [MkId "b"; MkId "a"] 10 60 (with_epoch (MkId "t") 3)).1 in
  (select (fun m => m) (sample_key "u") [MkId "c"; MkId "a"] 69
    (serve_all (fun m => m) [ExpireAt 50; AssignFor (sample_key "v") [MkId "b"] 20 5] book)).2 = Ok (MkId "a").
Proof.
  cbv zeta. refine (affinity_sticks _ (sample_key "u") [MkId "b"; MkId "a"] 10 60 (with_epoch (MkId "t") 3) _
    (mk_AffinityBinding (sample_key "u") (MkId "a") 70) _ _ _ _ _ _ _ _).
  - vm_compute. reflexivity.
  - repeat constructor; cbn; done.
  - done.
  - right. left.
  - vm_compute. discriminate.
Defined.

(** Two keys derived for valid subjects share their opaque identity only when
    tenant, scope, subject and epoch all agree, or a collision of the hash has been found:
    the bytes that are hashed determine all four.  A derivation never hashes the bytes of a
    ranking. *)
Theorem affinity_ids_separate (sha256 : string -> string) t t' s s' subject subject' e e' k k' :
  AffinityKey_derive sha256 t s subject e = Ok k -> AffinityKey_derive sha256 t' s' subject' e' = Ok k' ->
  byte_len (id_str t) <= CONTEXT_ID_LIMIT -> byte_len (id_str t') <= CONTEXT_ID_LIMIT -> e <= u64_max -> e' <= u64_max ->
  (id k = id k' -> t = t' /\ s = s' /\ subject = subject' /\ e = e' \/ collision sha256) /\
  (forall c, id k = score sha256 k' c -> collision sha256).
Proof.
  unfold AffinityKey_derive, OpaqueAffinityId_derive, CONTEXT_ID_LIMIT. intros H H' Ht Ht' He He'.
  destruct (bounded_ascii subject MAX_SUBJECT_BYTES) eqn:Hs; [done|]. destruct (bounded_ascii subject' MAX_SUBJECT_BYTES) eqn:Hs'; [done|].
  cbn in H, H'. injection H as <-. injection H' as <-. cbn [id]. split.
  - intros Heq. destruct (decide (derivation t s subject e = derivation t' s' subject' e')) as [Hd|Hd]; [left|right; eexists _, _; by split].
    apply bounded_ascii_len in Hs, Hs'. unfold MAX_SUBJECT_BYTES, u16_max in *.
    apply derivation_inj in Hd; try done; unfold u16_max; lia.
  - intros c Heq. eexists _, _. split; [|exact Heq]. apply derivation_not_ranking.
Qed.
Lemma affinity_ids_separate_witness :
  (MkId "t" : TenantId) = MkId "t" /\ User = User /\ "u" = "u" /\ 1 = 1 \/ collision (fun m => m).
Proof.
  exact (proj1 (affinity_ids_separate (fun m => m) (MkId "t") (MkId "t") User User "u" "u" 1 1
    (mk_AffinityKey (MkId "t") User (derivation (MkId "t") User "u" 1) 1)
    (mk_AffinityKey (MkId "t") User (derivation (MkId "t") User "u" 1) 1)
    eq_refl eq_refl ltac:(vm_compute; discriminate) ltac:(vm_compute; discriminate)
    ltac:(vm_compute; discriminate) ltac:(vm_compute; discriminate)) eq_refl).
Defined.
