(* ===== verification/ModelDomain.v ===== *)
(** * Models and their catalog

    Models [crates/optional/ariadnion-model-domain/src/lib.rs]: identities, capability sets as
    bit masks, limits, provider mappings, descriptors and the catalog that resolves names.
    Identities are validated strings. *)

From Stdlib Require Import Ascii.
From S2P Require Import Prelude CoreTypes Publication.
#[local] Open Scope N_scope.

Definition MAX_ID_BYTES : N := 128.
Definition MAX_MODELS : N := 4096.
Definition MAX_ALIASES_PER_MODEL : N := 32.
Definition MAX_MAPPINGS_PER_MODEL : N := 32.
Definition MAX_CONTEXT_TOKENS : N := N.shiftl 1 21.
Definition MAX_OUTPUT_TOKENS : N := N.shiftl 1 20.
Definition MAX_BODY_BYTES : N := 256 * 1024 * 1024.

Inductive ModelDomainErrorCode :=
| InvalidArgument | LimitExceeded | DuplicateModel | DuplicateAlias | DuplicateMapping | NotFound | VersionExhausted.
Definition as_str (code : ModelDomainErrorCode) : string :=
  match code with
  | InvalidArgument => "MODEL_INVALID_ARGUMENT"
  | LimitExceeded => "MODEL_LIMIT_EXCEEDED"
  | DuplicateModel => "MODEL_DUPLICATE_MODEL"
  | DuplicateAlias => "MODEL_DUPLICATE_ALIAS"
  | DuplicateMapping => "MODEL_DUPLICATE_MAPPING"
  | NotFound => "MODEL_NOT_FOUND"
  | VersionExhausted => "MODEL_VERSION_EXHAUSTED"
  end.

(** ** Identities, capabilities and limits *)

Definition is_identity_byte (a : ascii) : bool := is_ascii_alphanumeric a || is_separator_byte a || (byte a =? 47).
Definition valid_identity (value : string) : bool :=
  negb (is_empty value) && (byte_len value <=? MAX_ID_BYTES) && is_ascii value && all_bytes is_identity_byte value.
Definition identity_parse (value : string) : result ModelDomainErrorCode string :=
  if negb (valid_identity value) then Err InvalidArgument else Ok value.
Definition ModelId := string.
Definition ModelAlias := string.
Definition ProviderId := string.
Definition ProviderModelId := string.

Definition model_version_new (value : N) : result ModelDomainErrorCode N :=
  if value =? 0 then Err InvalidArgument else Ok value.
Definition model_version_next (version : N) : result ModelDomainErrorCode N := next_generation VersionExhausted version.

Inductive ModelCapability :=
| TextGeneration | TextStreaming | ToolCalls | StructuredOutput | VisionInput | AudioInput | AudioOutput
| AudioStreaming | Embeddings | ImageGeneration | Files | Realtime | Batch | Rerank | Moderation.
#[export] Instance ModelCapability_eq_dec : EqDecision ModelCapability.
Proof. solve_decision. Defined.
(** [iter]'s table, in the order of the discriminants. *)
Definition ALL : list ModelCapability :=
  [TextGeneration; TextStreaming; ToolCalls; StructuredOutput; VisionInput; AudioInput; AudioOutput;
   AudioStreaming; Embeddings; ImageGeneration; Files; Realtime; Batch; Rerank; Moderation].
Definition discriminant (c : ModelCapability) : N :=
  match c with
  | TextGeneration => 0 | TextStreaming => 1 | ToolCalls => 2 | StructuredOutput => 3 | VisionInput => 4
  | AudioInput => 5 | AudioOutput => 6 | AudioStreaming => 7 | Embeddings => 8 | ImageGeneration => 9
  | Files => 10 | Realtime => 11 | Batch => 12 | Rerank => 13 | Moderation => 14
  end.
Definition bit (c : ModelCapability) : N := N.shiftl 1 (discriminant c).
(** [ModelCapabilities]: a [u32] mask. *)
Definition ModelCapabilities := N.
Definition capabilities_new (c : ModelCapability) : ModelCapabilities := bit c.
Definition with_capability (s : ModelCapabilities) (c : ModelCapability) : ModelCapabilities := N.lor s (bit c).
Definition contains (s : ModelCapabilities) (c : ModelCapability) : bool := negb (N.land s (bit c) =? 0).
Definition iter (s : ModelCapabilities) : list ModelCapability := List.filter (contains s) ALL.

Record ModelLimits := mk_ModelLimits {
  context_tokens : option N; output_tokens : option N; input_bytes : option N; output_bytes : option N;
}.
Definition checked_limit (value : option N) (maximum : N) : result ModelDomainErrorCode (option N) :=
  match value with
  | None => Ok None
  | Some raw =>
      reject_if (raw =? 0) InvalidArgument ;;
      reject_if (maximum <? raw) LimitExceeded ;;
      mret (Some raw)
  end.
Definition ModelLimits_new (context_tokens output_tokens input_bytes output_bytes : option N)
    : result ModelDomainErrorCode ModelLimits :=
  context_tokens ← checked_limit context_tokens MAX_CONTEXT_TOKENS;
  output_tokens ← checked_limit output_tokens MAX_OUTPUT_TOKENS;
  input_bytes ← checked_limit input_bytes MAX_BODY_BYTES;
  output_bytes ← checked_limit output_bytes MAX_BODY_BYTES;
  mret (mk_ModelLimits context_tokens output_tokens input_bytes output_bytes).

(** ** Provider mappings *)

Record ProviderModelMapping := mk_ProviderModelMapping {
  provider : ProviderId; provider_model : ProviderModelId; mapping_aliases : list ProviderModelId;
}.
Definition ProviderModelMapping_new (provider : ProviderId) (model : ProviderModelId) : ProviderModelMapping :=
  mk_ProviderModelMapping provider model [].
Definition sort_strings (l : list string) : list string := sort_by (fun s => s) l.
Definition has_duplicate (l : list string) : bool := adjacent_duplicate (fun s => s) l.
Definition with_aliases (provider : ProviderId) (model : ProviderModelId) (aliases : list ProviderModelId)
    : result ModelDomainErrorCode ProviderModelMapping :=
  reject_if (MAX_ALIASES_PER_MODEL <? len aliases) LimitExceeded ;;
  let aliases := sort_strings aliases in
  reject_if (has_duplicate aliases) DuplicateAlias ;;
  reject_if (existsb (String.eqb model) aliases) DuplicateAlias ;;
  mret (mk_ProviderModelMapping provider model aliases).
Definition mapping_names (m : ProviderModelMapping) : list ProviderModelId := provider_model m :: mapping_aliases m.
Definition matches (m : ProviderModelMapping) (model : ProviderModelId) : bool :=
  String.eqb (provider_model m) model || existsb (fun alias => String.eqb alias model) (mapping_aliases m).
Definition mapping_conflicts (left right : ProviderModelMapping) : bool :=
  String.eqb (provider left) (provider right) &&
  existsb (fun name => existsb (String.eqb name) (mapping_names right)) (mapping_names left).
Fixpoint validate_mapping_conflicts (mappings : list ProviderModelMapping) : result ModelDomainErrorCode unit :=
  match mappings with
  | [] => mret tt
  | mapping :: rest =>
      reject_if (existsb (mapping_conflicts mapping) rest) DuplicateMapping ;;
      validate_mapping_conflicts rest
  end.

(** ** Descriptors *)

Record ModelDescriptor := mk_ModelDescriptor {
  id : ModelId;
  model_version : N;
  capabilities : ModelCapabilities;
  limits : ModelLimits;
  aliases : list ModelAlias;
  mappings : list ProviderModelMapping;
}.
Definition mapping_key (m : ProviderModelMapping) : string * string := (provider m, provider_model m).
Definition ModelDescriptor_new (id : ModelId) (version : N) (capabilities : ModelCapabilities) (limits : ModelLimits)
    (aliases : list ModelAlias) (mappings : list ProviderModelMapping) : result ModelDomainErrorCode ModelDescriptor :=
  reject_if (MAX_ALIASES_PER_MODEL <? len aliases) LimitExceeded ;;
  let aliases := sort_strings aliases in
  reject_if (has_duplicate aliases) DuplicateAlias ;;
  reject_if (existsb (String.eqb id) aliases) DuplicateAlias ;;
  reject_if (MAX_MAPPINGS_PER_MODEL <? len mappings) LimitExceeded ;;
  let mappings := sort_by mapping_key mappings in
  reject_if (adjacent_duplicate mapping_key mappings) DuplicateMapping ;;
  validate_mapping_conflicts mappings ;;
  mret (mk_ModelDescriptor id version capabilities limits aliases mappings).

(** ** The catalog *)

Definition ModelCatalog := list ModelDescriptor.
Definition model_aliases_conflict (left right : ModelDescriptor) : bool :=
  existsb (fun alias => String.eqb alias (id right) || existsb (String.eqb alias) (aliases right)) (aliases left) ||
  existsb (fun alias => String.eqb alias (id left)) (aliases right).
Definition model_mappings_conflict (left right : ModelDescriptor) : bool :=
  existsb (fun mapping => existsb (mapping_conflicts mapping) (mappings right)) (mappings left).
Fixpoint validate_against (model : ModelDescriptor) (others : list ModelDescriptor) : result ModelDomainErrorCode unit :=
  match others with
  | [] => mret tt
  | other :: others =>
      reject_if (model_aliases_conflict model other) DuplicateAlias ;;
      reject_if (model_mappings_conflict model other) DuplicateMapping ;;
      validate_against model others
  end.
Fixpoint validate_catalog_conflicts (models : list ModelDescriptor) : result ModelDomainErrorCode unit :=
  match models with
  | [] => mret tt
  | model :: rest => validate_against model rest ;; validate_catalog_conflicts rest
  end.
Definition ModelCatalog_new (models : list ModelDescriptor) : result ModelDomainErrorCode ModelCatalog :=
  reject_if (MAX_MODELS <? len models) LimitExceeded ;;
  let models := sort_by id models in
  reject_if (adjacent_duplicate id models) DuplicateModel ;;
  validate_catalog_conflicts models ;;
  mret models.
Definition catalog_get (catalog : ModelCatalog) (model_id : ModelId) : option ModelDescriptor :=
  binary_search (fun candidate => cmp (id candidate) model_id) catalog.
Definition resolve (catalog : ModelCatalog) (value : string) : result ModelDomainErrorCode ModelDescriptor :=
  match identity_parse value with
  | Err _ => Err NotFound
  | Ok model_id =>
      match catalog_get catalog model_id with
      | Some model => Ok model
      | None => ok_or (List.find (fun model => existsb (fun alias => String.eqb alias value) (aliases model)) catalog) NotFound
      end
  end.
Definition resolve_provider (catalog : ModelCatalog) (p : ProviderId) (model : ProviderModelId)
    : result ModelDomainErrorCode ModelDescriptor :=
  ok_or (List.find (fun d => existsb (fun m => String.eqb (provider m) p && matches m model) (mappings d)) catalog) NotFound.

(** ** Specification *)

(** The names a model answers to, publicly and at a provider. *)
Definition names (d : ModelDescriptor) : list string := id d :: aliases d.
Definition serves (d : ModelDescriptor) (p : ProviderId) (name : ProviderModelId) : Prop :=
  exists m, m ∈ mappings d /\ provider m = p /\ name ∈ mapping_names m.
(** Distinct models share no name and no provider name. *)
Definition unambiguous (models : list ModelDescriptor) : Prop :=
  (forall d d' name, d ∈ models -> d' ∈ models -> name ∈ names d -> name ∈ names d' -> d = d') /\
  (forall d d' p name, d ∈ models -> d' ∈ models -> serves d p name -> serves d' p name -> d = d').

(** ** Lemmas *)

Lemma existsb_elem {A} (f : A -> bool) l : existsb f l = true <-> exists x, x ∈ l /\ f x = true.
Proof. rewrite existsb_exists. by setoid_rewrite list_elem_of_In. Qed.
Lemma existsb_none {A} (f : A -> bool) l : existsb f l = false <-> forall x, x ∈ l -> f x = false.
Proof.
  rewrite <- not_true_iff_false, existsb_elem. split.
  - intros Hn x Hx. apply not_true_iff_false. intros Hf. apply Hn. by exists x.
  - intros Hn (x & Hx & Hf). by rewrite Hn in Hf.
Qed.
Lemma existsb_eqb x l : existsb (String.eqb x) l = true <-> x ∈ l.
Proof. rewrite existsb_elem. setoid_rewrite String.eqb_eq. naive_solver. Qed.
Lemma existsb_eqb_l x l : existsb (fun y => String.eqb y x) l = true <-> x ∈ l.
Proof. rewrite existsb_elem. setoid_rewrite String.eqb_eq. naive_solver. Qed.
Lemma matches_spec m name : matches m name = true <-> name ∈ mapping_names m.
Proof.
  unfold matches, mapping_names. rewrite orb_true_iff, existsb_eqb_l, String.eqb_eq, elem_of_cons. naive_solver.
Qed.
Lemma mapping_conflicts_spec m m' : mapping_conflicts m m' = true <->
  provider m = provider m' /\ exists name, name ∈ mapping_names m /\ name ∈ mapping_names m'.
Proof.
  unfold mapping_conflicts. rewrite andb_true_iff, String.eqb_eq, existsb_elem. by setoid_rewrite existsb_eqb.
Qed.
Lemma model_aliases_conflict_spec d d' : id d <> id d' -> model_aliases_conflict d d' = true <->
  exists name, name ∈ names d /\ name ∈ names d'.
Proof.
  intros Hne. unfold model_aliases_conflict, names. rewrite orb_true_iff, existsb_elem, existsb_eqb_l.
  setoid_rewrite orb_true_iff. setoid_rewrite String.eqb_eq. setoid_rewrite existsb_eqb. setoid_rewrite elem_of_cons.
  split.
  - intros [(a & Ha & [-> |Ha'])|Hid]; [by exists (id d'); auto|by exists a; auto|by exists (id d); auto].
  - intros (name & [-> |Hn] & [Heq|Hn']); [done|by right|left; by exists name; auto|left; by exists name; auto].
Qed.
Lemma model_mappings_conflict_spec d d' : model_mappings_conflict d d' = true <->
  exists p name, serves d p name /\ serves d' p name.
Proof.
  unfold model_mappings_conflict, serves. rewrite existsb_elem. setoid_rewrite existsb_elem.
  setoid_rewrite mapping_conflicts_spec. split.
  - intros (m & Hm & m' & Hm' & Hp & name & Hn & Hn'). exists (provider m), name. split; [by exists m|by exists m'].
  - intros (p & name & (m & Hm & <- & Hn) & (m' & Hm' & Hp & Hn')). exists m. split; [done|]. exists m'. split; [done|].
    split; [done|]. by exists name.
Qed.
Lemma validate_against_Ok d ds : validate_against d ds = Ok tt <->
  forall d', d' ∈ ds -> model_aliases_conflict d d' = false /\ model_mappings_conflict d d' = false.
Proof.
  induction ds as [|d' ds IH]; cbn [validate_against].
  { split; [|done]. by intros _ d' ?%not_elem_of_nil. }
  destruct (model_aliases_conflict d d') eqn:Ha; cbn.
  { split; [done|]. intros Hall. destruct (Hall d' (list_elem_of_here _ _)). congruence. }
  destruct (model_mappings_conflict d d') eqn:Hm; cbn.
  { split; [done|]. intros Hall. destruct (Hall d' (list_elem_of_here _ _)). congruence. }
  rewrite IH. split; [|by intros Hall x Hx; apply Hall; right]. intros Hall x [->|Hx]%elem_of_cons; [done|by apply Hall].
Qed.
Lemma validate_catalog_Ok ds : NoDup (id <$> ds) -> validate_catalog_conflicts ds = Ok tt <-> unambiguous ds.
Proof.
  induction ds as [|d ds IH]; cbn [validate_catalog_conflicts]; intros Hnd.
  { split; [|done]. intros _. split; [intros d d' name Hd|intros d d' p name Hd]; by apply not_elem_of_nil in Hd. }
  apply NoDup_cons in Hnd as [Hni Hnd]. specialize (IH Hnd).
  assert (forall d', d' ∈ ds -> id d <> id d') as Hid.
  { intros d' Hd' Heq. apply Hni. rewrite Heq. by apply list_elem_of_fmap_2. }
  assert (validate_against d ds ≫= (fun _ => validate_catalog_conflicts ds) = Ok tt <->
    validate_against d ds = Ok tt /\ validate_catalog_conflicts ds = Ok tt) as ->.
  { destruct (validate_against d ds) as [[]|]; cbn; [naive_solver|naive_solver]. }
  rewrite validate_against_Ok, IH. clear IH. split.
  - intros [Hd [H1 H2]]. split.
    + intros e e' name [->|He]%elem_of_cons [->|He']%elem_of_cons Hn Hn'; [done|..|by eapply H1].
      * destruct (Hd e' He') as [Hf _]. apply not_true_iff_false in Hf. destruct Hf.
        apply model_aliases_conflict_spec; [by apply Hid|by exists name].
      * destruct (Hd e He) as [Hf _]. apply not_true_iff_false in Hf. destruct Hf.
        apply model_aliases_conflict_spec; [by apply Hid|by exists name].
    + intros e e' p name [->|He]%elem_of_cons [->|He']%elem_of_cons Hn Hn'; [done|..|by eapply H2].
      * destruct (Hd e' He') as [_ Hf]. apply not_true_iff_false in Hf. destruct Hf.
        apply model_mappings_conflict_spec. by exists p, name.
      * destruct (Hd e He) as [_ Hf]. apply not_true_iff_false in Hf. destruct Hf.
        apply model_mappings_conflict_spec. by exists p, name.
  - intros [H1 H2]. split; [|split].
    + intros d' Hd'. split; apply not_true_iff_false.
      * rewrite model_aliases_conflict_spec by by apply Hid. intros (name & Hn & Hn').
        apply (Hid d' Hd'). f_equal. by apply (H1 d d' name); [left|right|..].
      * rewrite model_mappings_conflict_spec. intros (p & name & Hn & Hn').
        apply (Hid d' Hd'). f_equal. by apply (H2 d d' p name); [left|right|..].
    + intros e e' name He He'. apply H1; by right.
    + intros e e' p name He He'. apply H2; by right.
Qed.

Lemma unambiguous_perm ds ds' : ds ≡ₚ ds' -> unambiguous ds -> unambiguous ds'.
Proof. intros Hp. unfold unambiguous. by setoid_rewrite Hp. Qed.
Lemma ModelCatalog_new_Ok models catalog : ModelCatalog_new models = Ok catalog <->
  len models <= MAX_MODELS /\ NoDup (id <$> models) /\ unambiguous models /\ catalog = sort_by id models.
Proof.
  pose proof (sort_by_Permutation id models) as Hp. unfold ModelCatalog_new. split.
  - intros H. run_steps; tidy. match goal with H : adjacent_duplicate _ _ = false |- _ => apply (adjacent_duplicate_perm id) in H as Hnd end.
    split_and!; try done. apply (unambiguous_perm _ _ Hp). apply validate_catalog_Ok; [by rewrite Hp|done].
  - intros (Hlen & Hnd & Hu & ->). rewrite (proj2 (N.ltb_ge _ _) Hlen). cbn.
    rewrite (proj2 (adjacent_duplicate_perm id models) Hnd). cbn.
    rewrite (proj2 (validate_catalog_Ok (sort_by id models) ltac:(by rewrite Hp))); [done|].
    by apply (unambiguous_perm models).
Qed.
Lemma find_unique {A} (f : A -> bool) (P : A -> Prop) l x :
  (forall y, y ∈ l -> f y = true <-> P y) -> (forall y z, y ∈ l -> z ∈ l -> P y -> P z -> y = z) ->
  List.find f l = Some x <-> x ∈ l /\ P x.
Proof.
  intros Hf Hu. split.
  - intros [Hx Hfx]%find_some. apply list_elem_of_In in Hx. split; [done|]. by apply Hf.
  - intros [Hx HP]. destruct (List.find f l) as [y|] eqn:E.
    + apply find_some in E as [Hy Hfy]. apply list_elem_of_In in Hy. f_equal. apply Hu; try done. by apply Hf.
    + pose proof (find_none _ _ E x (proj1 (list_elem_of_In _ _) Hx)) as Hn. apply Hf in HP; [congruence|done].
Qed.

(** A capability mask is the set of the capabilities it was built from. *)
Lemma contains_testbit s c : contains s c = N.testbit s (discriminant c).
Proof.
  unfold contains, bit. rewrite N.shiftl_1_l. destruct (N.eqb_spec (N.land s (2 ^ discriminant c)) 0) as [Hz|Hz]; cbn.
  - symmetry. assert (N.testbit (N.land s (2 ^ discriminant c)) (discriminant c) = false) as Hb by (by rewrite Hz, N.bits_0).
    rewrite N.land_spec, N.pow2_bits_true, andb_true_r in Hb. done.
  - symmetry. apply not_false_iff_true. intros Hb. apply Hz. apply N.bits_inj. intros n.
    rewrite N.land_spec, N.pow2_bits_eqb, N.bits_0. destruct (N.eqb_spec (discriminant c) n) as [<-|]; [by rewrite Hb|by rewrite andb_false_r].
Qed.
Lemma contains_with s c d : contains (with_capability s c) d = bool_decide (c = d) || contains s d.
Proof.
  rewrite !contains_testbit. unfold with_capability, bit. rewrite N.lor_spec, N.shiftl_1_l, N.pow2_bits_eqb, orb_comm. f_equal.
  by destruct c, d.
Qed.

(** ** Properties *)

(** In every accepted catalog each name and each provider name belongs to at most one
    model, and resolution finds exactly that model: a selector resolves to a model exactly
    when it is its identity or one of its aliases, a provider name exactly when one of its
    mappings carries it.  The order in which the models were given does not matter. *)
Theorem catalog_resolution models catalog :
  ModelCatalog_new models = Ok catalog ->
  Forall (fun d => Forall (fun name => valid_identity name = true) (names d)) models ->
  (forall value d, resolve catalog value = Ok d <-> d ∈ models /\ value ∈ names d) /\
  (forall p name d, resolve_provider catalog p name = Ok d <-> d ∈ models /\ serves d p name) /\
  unambiguous models.
Proof.
  intros (Hlen & Hnd & Hu & ->)%ModelCatalog_new_Ok Hvalid. pose proof (sort_by_Permutation id models) as Hp.
  assert (strictly_sorted_by id (sort_by id models)) as Hs.
  { apply sorted_NoDup_strict; [apply sort_by_sorted|by rewrite Hp]. }
  pose proof Hu as [Hnames Hserves]. split_and!; try done.
  - intros value d. unfold resolve, identity_parse. destruct (valid_identity value) eqn:Hv; cbn.
    + unfold catalog_get. destruct (binary_search _ _) as [m|] eqn:Hg.
      * apply (binary_search_spec id value) in Hg as [Hm Hid]; [|done]. rewrite Hp in Hm.
        split; [intros [= <-]; split; [done|]; rewrite <- Hid; left|].
        intros [Hd Hn]. f_equal. apply (Hnames m d value); try done. rewrite <- Hid. left.
      * rewrite ok_or_Ok. pose proof (proj1 (binary_search_None id value _ Hs) Hg) as Hg'.
        rewrite (find_unique _ (fun d => value ∈ names d)); [by rewrite Hp| |].
        -- intros y Hy. rewrite existsb_eqb_l. unfold names. rewrite elem_of_cons. split; [by right|].
           intros [->|?]; [|done]. by destruct (Hg' y Hy).
        -- intros y z. rewrite Hp. intros Hy Hz. by apply Hnames.
    + split; [done|]. intros [Hd Hn]. rewrite Forall_forall in Hvalid. specialize (Hvalid d Hd).
      rewrite Forall_forall in Hvalid. specialize (Hvalid value Hn). congruence.
  - intros p name d. unfold resolve_provider. rewrite ok_or_Ok.
    rewrite (find_unique _ (fun d => serves d p name)); [by rewrite Hp| |].
    + intros y Hy. rewrite existsb_elem. setoid_rewrite andb_true_iff. setoid_rewrite String.eqb_eq.
      setoid_rewrite matches_spec. unfold serves. naive_solver.
    + intros y z. rewrite Hp. intros Hy Hz. by apply Hserves.
Qed.
Definition sample_limits : ModelLimits := mk_ModelLimits (Some 8192) None None None.
Definition sample_descriptor (id alias provider name : string) : ModelDescriptor :=
  mk_ModelDescriptor id 1 (capabilities_new TextGeneration) sample_limits [alias] [mk_ProviderModelMapping provider name []].
Lemma catalog_resolution_witness :
  resolve [sample_descriptor "a" "fast" "p" "m1"; sample_descriptor "b" "slow" "p" "m2"] "slow" =
    Ok (sample_descriptor "b" "slow" "p" "m2").
Proof.
  apply (proj1 (catalog_resolution [sample_descriptor "b" "slow" "p" "m2"; sample_descriptor "a" "fast" "p" "m1"]
    [sample_descriptor "a" "fast" "p" "m1"; sample_descriptor "b" "slow" "p" "m2"]
    ltac:(vm_compute; reflexivity) ltac:(repeat constructor))).
  split; [left|right; left].
Defined.
