(* ===== verification/ModelCatalog.v ===== *)
(** * The model catalog

    Models [crates/optional/ariadnion-model-catalog/src/lib.rs]: entries with their visibility,
    versioned snapshots, provider targets, the projection a tenant sees, and the atomic owner
    of the current snapshot. *)

From S2P Require Import Prelude CoreTypes Publication ModelDomain.
#[local] Open Scope N_scope.

Definition MAX_CATALOG_ENTRIES : N := 4096.
Definition MAX_VISIBLE_TENANTS_PER_MODEL : N := 4096.

Inductive ModelCatalogErrorCode :=
| CatalogInvalidArgument | CatalogLimitExceeded | Conflict | AmbiguousProvider | ModelNotFound
| ProviderTargetNotFound | CatalogVersionExhausted | CatalogStateUnavailable.
Definition catalog_code_str (code : ModelCatalogErrorCode) : string :=
  match code with
  | CatalogInvalidArgument => "MODEL_CATALOG_INVALID_ARGUMENT"
  | CatalogLimitExceeded => "MODEL_CATALOG_LIMIT_EXCEEDED"
  | Conflict => "MODEL_CATALOG_CONFLICT"
  | AmbiguousProvider => "MODEL_CATALOG_AMBIGUOUS_PROVIDER"
  | ModelNotFound => "MODEL_CATALOG_MODEL_NOT_FOUND"
  | ProviderTargetNotFound => "MODEL_CATALOG_PROVIDER_TARGET_NOT_FOUND"
  | CatalogVersionExhausted => "MODEL_CATALOG_VERSION_EXHAUSTED"
  | CatalogStateUnavailable => "MODEL_CATALOG_STATE_UNAVAILABLE"
  end.
Definition catalog_version_next (version : N) : result ModelCatalogErrorCode N :=
  next_generation CatalogVersionExhausted version.

(** ** Visibility and entries *)

Inductive ModelVisibility := Public | Restricted (tenants : list TenantId) | Internal.
Definition restricted (tenants : list TenantId) : result ModelCatalogErrorCode ModelVisibility :=
  reject_if (bool_decide (tenants = [])) CatalogInvalidArgument ;;
  reject_if (MAX_VISIBLE_TENANTS_PER_MODEL <? len tenants) CatalogLimitExceeded ;;
  let tenants := sort_by (fun t => t) tenants in
  reject_if (adjacent_duplicate (fun t => t) tenants) Conflict ;;
  mret (Restricted tenants).
Definition is_visible_to (v : ModelVisibility) (tenant_id : TenantId) : bool :=
  match v with
  | Public => true
  | Restricted tenants => bool_decide (is_Some (binary_search (fun t => cmp t tenant_id) tenants))
  | Internal => false
  end.

Record CatalogEntry := mk_CatalogEntry { descriptor : ModelDescriptor; visibility : ModelVisibility }.
Definition ensure_unique_providers (d : ModelDescriptor) : result ModelCatalogErrorCode unit :=
  reject_if (negb (all_fresh provider [] (mappings d))) AmbiguousProvider.
Definition CatalogEntry_new (descriptor : ModelDescriptor) (visibility : ModelVisibility)
    : result ModelCatalogErrorCode CatalogEntry :=
  ensure_unique_providers descriptor ;; mret (mk_CatalogEntry descriptor visibility).
Record ProviderModelTarget := mk_ProviderModelTarget {
  internal_model : ModelId; target_provider : ModelDomain.ProviderId; target_model : ProviderModelId;
}.

(** ** Tenant projections *)

Record TenantVisibleModel := mk_TenantVisibleModel {
  visible_id : ModelId;
  visible_version : N;
  visible_capabilities : ModelCapabilities;
  visible_limits : ModelLimits;
  visible_aliases : list ModelAlias;
}.
Definition from_descriptor (d : ModelDescriptor) : TenantVisibleModel :=
  mk_TenantVisibleModel (id d) (model_version d) (capabilities d) (limits d) (aliases d).
Definition visible_matches (m : TenantVisibleModel) (selector : string) : bool :=
  String.eqb (visible_id m) selector || existsb (fun alias => String.eqb alias selector) (visible_aliases m).
Record TenantCatalogProjection := mk_TenantCatalogProjection {
  projection_tenant_id : TenantId; projection_version : N; models : list TenantVisibleModel;
}.
Definition projection_resolve (p : TenantCatalogProjection) (selector : string)
    : result ModelCatalogErrorCode TenantVisibleModel :=
  ok_or (List.find (fun m => visible_matches m selector) (models p)) ModelNotFound.

(** ** Snapshots *)

Record ModelCatalogSnapshot := mk_ModelCatalogSnapshot { catalog_version : N; entries : list CatalogEntry }.
Definition map_domain_error (code : ModelDomainErrorCode) : ModelCatalogErrorCode :=
  match code with
  | InvalidArgument => CatalogInvalidArgument
  | LimitExceeded => CatalogLimitExceeded
  | DuplicateModel | DuplicateAlias | DuplicateMapping => Conflict
  | NotFound => ModelNotFound
  | VersionExhausted => CatalogVersionExhausted
  end.
Definition validate_domain_catalog (entries : list CatalogEntry) : result ModelCatalogErrorCode unit :=
  match ModelCatalog_new (descriptor <$> entries) with
  | Ok _ => Ok tt
  | Err e => Err (map_domain_error e)
  end.
Definition entry_id (e : CatalogEntry) : ModelId := id (descriptor e).
Definition ModelCatalogSnapshot_new (version : N) (entries : list CatalogEntry)
    : result ModelCatalogErrorCode ModelCatalogSnapshot :=
  reject_if (MAX_CATALOG_ENTRIES <? len entries) CatalogLimitExceeded ;;
  validate_domain_catalog entries ;;
  mret (mk_ModelCatalogSnapshot version (sort_by entry_id entries)).
Definition descriptor_matches (d : ModelDescriptor) (selector : string) : bool :=
  String.eqb (id d) selector || existsb (fun alias => String.eqb alias selector) (aliases d).
Definition resolve_internal (s : ModelCatalogSnapshot) (selector : string) : result ModelCatalogErrorCode CatalogEntry :=
  ok_or (List.find (fun entry => descriptor_matches (descriptor entry) selector) (entries s)) ModelNotFound.
Definition provider_target (s : ModelCatalogSnapshot) (internal_model : ModelId) (p : ModelDomain.ProviderId)
    : result ModelCatalogErrorCode ProviderModelTarget :=
  entry ← ok_or (binary_search (fun candidate => cmp (entry_id candidate) internal_model) (entries s)) ModelNotFound;
  mapping ← ok_or (List.find (fun m => String.eqb (provider m) p) (mappings (descriptor entry))) ProviderTargetNotFound;
  mret (mk_ProviderModelTarget internal_model p (provider_model mapping)).
Definition resolve_provider_target (s : ModelCatalogSnapshot) (selector : string) (p : ModelDomain.ProviderId)
    : result ModelCatalogErrorCode ProviderModelTarget :=
  entry ← resolve_internal s selector; provider_target s (entry_id entry) p.
Definition project_for (s : ModelCatalogSnapshot) (tenant_id : TenantId) : TenantCatalogProjection :=
  mk_TenantCatalogProjection tenant_id (catalog_version s)
    ((fun entry => from_descriptor (descriptor entry)) <$>
      List.filter (fun entry => is_visible_to (visibility entry) tenant_id) (entries s)).

(** ** The atomic owner *)

Definition AtomicModelCatalog_new (initial : ModelCatalogSnapshot) : Lock ModelCatalogSnapshot := mk_lock false initial.
Definition publish (expected : N) (next : ModelCatalogSnapshot)
    : act (Lock ModelCatalogSnapshot) ModelCatalogErrorCode ModelCatalogSnapshot :=
  locked CatalogStateUnavailable (
    current ← get;
    lift (reject_if (negb (catalog_version current =? expected)) Conflict) ;;
    required ← lift (catalog_version_next (catalog_version current));
    lift (reject_if (negb (catalog_version next =? required)) Conflict) ;;
    put next ;;
    mret next).
Definition current_snapshot : act (Lock ModelCatalogSnapshot) ModelCatalogErrorCode ModelCatalogSnapshot :=
  locked CatalogStateUnavailable get.
Definition tenant_catalog (tenant_id : TenantId) : act (Lock ModelCatalogSnapshot) ModelCatalogErrorCode TenantCatalogProjection :=
  snapshot ← current_snapshot; mret (project_for snapshot tenant_id).

#[export] Instance model_catalog_publication :
    Publication (Lock ModelCatalogSnapshot) ModelCatalogSnapshot ModelCatalogSnapshot ModelCatalogErrorCode := {
  generation_of := fun b => catalog_version (lock_data b);
  publish_to := publish;
  background := fun _ _ => False;
}.

(** ** Lemmas *)

#[export] Instance model_catalog_publication_laws :
  PublicationLaws (Lock ModelCatalogSnapshot) ModelCatalogSnapshot ModelCatalogSnapshot ModelCatalogErrorCode.
Proof.
  split; cbn; [| |done].
  - intros b b' g c r [[_ [=]]|(s' & Hrun & -> & _)]%locked_inv. run_steps; tidy. cbn.
    match goal with H : catalog_version_next _ = Ok _ |- _ => apply next_generation_Ok in H as [-> _] end. by subst.
  - intros [p s] b' g c e [[-> _]|(s' & Hrun & -> & Hp)]%locked_inv; [done|].
    cbn in Hp. subst p. run_steps; done.
Qed.
Lemma descriptor_matches_spec d selector : descriptor_matches d selector = true <-> selector ∈ names d.
Proof.
  unfold descriptor_matches, names. rewrite orb_true_iff, existsb_eqb_l, String.eqb_eq, elem_of_cons. naive_solver.
Qed.
Lemma restricted_visible tenants v tenant : restricted tenants = Ok v ->
  is_visible_to v tenant = true <-> tenant ∈ tenants.
Proof.
  unfold restricted. intros H. run_steps; tidy. unfold is_visible_to. rewrite bool_decide_eq_true.
  assert (strictly_sorted_by (fun t => t) (sort_by (fun t => t) tenants)) as Hs.
  { apply sorted_NoDup_strict; [apply sort_by_sorted|]. rewrite sort_by_Permutation.
    by apply (adjacent_duplicate_perm (fun t => t)). }
  split.
  - intros [t Ht]. apply (binary_search_spec (fun t => t) tenant) in Ht as [Hin ->]; [|done].
    by rewrite sort_by_Permutation in Hin.
  - intros Hin. exists tenant. apply (binary_search_spec (fun t => t) tenant); [done|]. by rewrite sort_by_Permutation.
Qed.
Lemma catalog_snapshot_new_Ok version es s : ModelCatalogSnapshot_new version es = Ok s ->
  NoDup (entry_id <$> es) /\ unambiguous (descriptor <$> es) /\ catalog_version s = version /\ entries s = sort_by entry_id es.
Proof.
  unfold ModelCatalogSnapshot_new, validate_domain_catalog. intros H. run_steps.
  destruct (ModelCatalog_new (descriptor <$> es)) as [c|] eqn:Hc; [|done].
  apply ModelCatalog_new_Ok in Hc as (_ & Hnd & Hu & _). rewrite <- list_fmap_compose in Hnd. by split_and!.
Qed.
(** Entries that share a name are the same entry. *)
Lemma entry_unique es e e' name : NoDup (entry_id <$> es) -> unambiguous (descriptor <$> es) ->
  e ∈ es -> e' ∈ es -> name ∈ names (descriptor e) -> name ∈ names (descriptor e') -> e = e'.
Proof.
  intros Hnd [Hu _] He He' Hn Hn'.
  assert (descriptor e = descriptor e') as Hd by (apply (Hu _ _ name); [by apply list_elem_of_fmap_2..|done|done]).
  apply list_elem_of_lookup in He as [i Hi]. apply list_elem_of_lookup in He' as [j Hj].
  assert (i = j) as ->.
  { apply (NoDup_lookup _ _ _ (entry_id e) Hnd); rewrite list_lookup_fmap; [by rewrite Hi|].
    rewrite Hj. cbn. unfold entry_id. by rewrite Hd. }
  congruence.
Qed.
Lemma resolve_internal_spec version es s selector e : ModelCatalogSnapshot_new version es = Ok s ->
  resolve_internal s selector = Ok e <-> e ∈ es /\ selector ∈ names (descriptor e).
Proof.
  intros (Hnd & Hu & _ & Hes)%catalog_snapshot_new_Ok. unfold resolve_internal. rewrite ok_or_Ok, Hes.
  rewrite (find_unique _ (fun e => selector ∈ names (descriptor e))); [by rewrite sort_by_Permutation| |].
  - intros y _. apply descriptor_matches_spec.
  - intros y z. rewrite !sort_by_Permutation. intros Hy Hz. by apply (entry_unique es).
Qed.
(** An accepted entry has one mapping per provider. *)
Definition single_providers (e : CatalogEntry) : Prop := NoDup (provider <$> mappings (descriptor e)).
Lemma CatalogEntry_new_Ok d v e : CatalogEntry_new d v = Ok e <-> e = mk_CatalogEntry d v /\ single_providers e.
Proof.
  unfold CatalogEntry_new, ensure_unique_providers, single_providers. split.
  - intros H. run_steps; tidy. split; [done|]. by apply (all_fresh_NoDup provider []).
  - intros [-> Hnd]. cbn in Hnd. rewrite (proj2 (all_fresh_NoDup provider [] (mappings d))); [done|].
    split; [done|]. intros x _. apply not_elem_of_nil.
Qed.
Lemma find_mapping_provider e p m : single_providers e ->
  List.find (fun m => String.eqb (provider m) p) (mappings (descriptor e)) = Some m <->
  m ∈ mappings (descriptor e) /\ provider m = p.
Proof.
  intros Hnd. apply (find_unique _ (fun m => provider m = p)); [intros y _; apply String.eqb_eq|].
  intros y z Hy Hz <- Heq. apply list_elem_of_lookup in Hy as [i Hi]. apply list_elem_of_lookup in Hz as [j Hj].
  assert (i = j) as ->.
  { apply (NoDup_lookup _ _ _ (provider y) Hnd); rewrite list_lookup_fmap; [by rewrite Hi|by rewrite Hj; cbn; rewrite Heq]. }
  congruence.
Qed.
Lemma find_map_filter {A B} (p : A -> bool) (h : A -> B) (f : B -> bool) l :
  List.find f (h <$> List.filter p l) = h <$> List.find (fun x => p x && f (h x)) l.
Proof. induction l as [|x l IH]; cbn; [done|]. destruct (p x); cbn; [|done]. by destruct (f (h x)). Qed.

(** ** Properties *)

(** What a tenant sees of a published catalog is exactly its visible part: a
    projection resolves a selector to a model exactly when the catalog does and the model is
    visible to the tenant, and to the same model, without its provider mappings; an invisible
    model and a missing one cannot be told apart.  Internally, a selector and a provider have
    a target exactly when the one model of that name has the one mapping of that provider. *)
Theorem projection_exact version es s tenant selector :
  ModelCatalogSnapshot_new version es = Ok s ->
  Forall single_providers es ->
  projection_resolve (project_for s tenant) selector =
    match resolve_internal s selector with
    | Ok e => if is_visible_to (visibility e) tenant then Ok (from_descriptor (descriptor e)) else Err ModelNotFound
    | Err _ => Err ModelNotFound
    end /\
  (forall m, m ∈ models (project_for s tenant) <->
     exists e, e ∈ es /\ is_visible_to (visibility e) tenant = true /\ m = from_descriptor (descriptor e)) /\
  (forall p target, resolve_provider_target s selector p = Ok target <->
     exists e m, e ∈ es /\ selector ∈ names (descriptor e) /\ m ∈ mappings (descriptor e) /\ provider m = p /\
       target = mk_ProviderModelTarget (entry_id e) p (provider_model m)).
Proof.
  intros Hs Hsingle. pose proof (catalog_snapshot_new_Ok _ _ _ Hs) as (Hnd & Hu & _ & Hes). split_and!.
  - unfold projection_resolve, project_for. cbn [models]. rewrite find_map_filter.
    assert (forall e, resolve_internal s selector = Ok e <-> e ∈ es /\ selector ∈ names (descriptor e)) as Hr.
    { intros e. by apply (resolve_internal_spec version). }
    destruct (resolve_internal s selector) as [e|err].
    + destruct (proj1 (Hr e) eq_refl) as [He Hn]. destruct (is_visible_to (visibility e) tenant) eqn:Hv.
      * match goal with |- context [List.find ?f (entries s)] => assert (List.find f (entries s) = Some e) as -> end; [|done].
        apply (find_unique _ (fun x => x = e)).
        -- intros y. rewrite Hes, sort_by_Permutation. intros Hy. rewrite andb_true_iff.
           change (visible_matches _ selector) with (descriptor_matches (descriptor y) selector).
           rewrite descriptor_matches_spec. split; [|by intros ->]. intros [_ Hny]. by apply (entry_unique es _ _ selector).
        -- by intros y z _ _ -> ->.
        -- by rewrite Hes, sort_by_Permutation.
      * destruct (List.find _ (entries s)) as [y|] eqn:Hf; [|done]. apply find_some in Hf as [Hy Hf]. exfalso.
        apply list_elem_of_In in Hy. rewrite Hes, sort_by_Permutation in Hy. apply andb_true_iff in Hf as [Hvy Hm].
        apply descriptor_matches_spec in Hm. assert (y = e) as -> by (by apply (entry_unique es _ _ selector)). congruence.
    + destruct (List.find _ (entries s)) as [y|] eqn:Hf; [|done]. apply find_some in Hf as [Hy Hf]. exfalso.
      apply list_elem_of_In in Hy. rewrite Hes, sort_by_Permutation in Hy. apply andb_true_iff in Hf as [_ Hm].
      apply descriptor_matches_spec in Hm. pose proof (proj2 (Hr y) (conj Hy Hm)). done.
  - intros m. unfold project_for. cbn [models]. rewrite list_elem_of_fmap, Hes. split.
    + intros (e & -> & [He Hv]%elem_of_list_filter). rewrite sort_by_Permutation in He. by exists e.
    + intros (e & He & Hv & ->). exists e. split; [done|]. apply elem_of_list_filter. by rewrite sort_by_Permutation.
  - intros p target. unfold resolve_provider_target.
    assert (strictly_sorted_by entry_id (entries s)) as Hsorted.
    { rewrite Hes. apply sorted_NoDup_strict; [apply sort_by_sorted|]. by rewrite sort_by_Permutation. }
    rewrite Forall_forall in Hsingle.
    assert (forall e, e ∈ es -> provider_target s (entry_id e) p = Ok target <->
      exists m, m ∈ mappings (descriptor e) /\ provider m = p /\ target = mk_ProviderModelTarget (entry_id e) p (provider_model m)) as Ht.
    { intros e He. unfold provider_target.
      rewrite (proj2 (binary_search_spec entry_id (entry_id e) _ e Hsorted)) by (by rewrite Hes, sort_by_Permutation). cbn.
      pose proof (find_mapping_provider e p) as Hf. destruct (List.find _ (mappings (descriptor e))) as [m|]; cbn.
      - destruct (proj1 (Hf m (Hsingle e He)) eq_refl) as [Hm Hp]. split; [intros [= <-]; by exists m|].
        intros (m' & Hm' & Hp' & ->). pose proof (proj2 (Hf m' (Hsingle e He)) (conj Hm' Hp')) as [= ->]. done.
      - split; [done|]. intros (m & Hm & Hp & _). by pose proof (proj2 (Hf m (Hsingle e He)) (conj Hm Hp)). }
    destruct (resolve_internal s selector) as [e|err] eqn:Hr; cbn.
    + apply (resolve_internal_spec version es s selector e Hs) in Hr as [He Hn]. rewrite Ht by done. split.
      * intros (m & ? & ? & ?). by exists e, m.
      * intros (e' & m & He' & Hn' & ? & ? & ?). assert (e' = e) as -> by (by apply (entry_unique es _ _ selector)). by exists m.
    + split; [done|]. intros (e & m & He & Hn & _). pose proof (proj2 (resolve_internal_spec version es s selector e Hs) (conj He Hn)). congruence.
Qed.
Definition sample_entries : list CatalogEntry :=
  [mk_CatalogEntry (sample_descriptor "b" "slow" "p" "m2") (Restricted [MkId "t"]);
   mk_CatalogEntry (sample_descriptor "a" "fast" "p" "m1") Internal].
Lemma projection_exact_witness :
  let s := mk_ModelCatalogSnapshot 1 (reverse sample_entries) in
  projection_resolve (project_for s (MkId "t")) "fast" = Err ModelNotFound /\
  projection_resolve (project_for s (MkId "t")) "slow" = Ok (from_descriptor (sample_descriptor "b" "slow" "p" "m2")).
Proof.
  cbv zeta. split.
  - exact (proj1 (projection_exact 1 sample_entries (mk_ModelCatalogSnapshot 1 (reverse sample_entries)) (MkId "t") "fast"
      eq_refl ltac:(repeat constructor; by intros ?%not_elem_of_nil))).
  - exact (proj1 (projection_exact 1 sample_entries (mk_ModelCatalogSnapshot 1 (reverse sample_entries)) (MkId "t") "slow"
      eq_refl ltac:(repeat constructor; by intros ?%not_elem_of_nil))).
Defined.
