(* ===== verification/RoutingDomain.v ===== *)
(** * Routing contexts, snapshots and evaluations

    Models [crates/optional/ariadnion-routing-domain/src/lib.rs]: the request context, the
    candidates of one tenant, and decisions checked against the snapshot they were made on. *)

From Stdlib Require Import Ascii.
From S2P Require Import Prelude CoreTypes Publication.
#[local] Open Scope N_scope.

Definition MAX_CANDIDATES : N := N.shiftl 1 17.
Definition MAX_CANDIDATE_KEY_BYTES : N := 128.
Definition MAX_MODEL_BYTES : N := 160.
Definition MAX_REQUIRED_CAPABILITIES : N := 64.

Inductive RoutingDomainErrorCode :=
| InvalidArgument | EmptySnapshot | TooManyEntries | DuplicateCandidateId | SnapshotVersionExhausted
| CandidateNotFound | SnapshotVersionMismatch | ModelMismatch | DuplicateCapability | TenantMismatch.
Definition as_str (code : RoutingDomainErrorCode) : string :=
  match code with
  | InvalidArgument => "ROUTING_INVALID_ARGUMENT"
  | EmptySnapshot => "ROUTING_EMPTY_SNAPSHOT"
  | TooManyEntries => "ROUTING_TOO_MANY_ENTRIES"
  | DuplicateCandidateId => "ROUTING_DUPLICATE_CANDIDATE_ID"
  | SnapshotVersionExhausted => "ROUTING_SNAPSHOT_VERSION_EXHAUSTED"
  | CandidateNotFound => "ROUTING_CANDIDATE_NOT_FOUND"
  | SnapshotVersionMismatch => "ROUTING_SNAPSHOT_VERSION_MISMATCH"
  | ModelMismatch => "ROUTING_MODEL_MISMATCH"
  | DuplicateCapability => "ROUTING_DUPLICATE_CAPABILITY"
  | TenantMismatch => "ROUTING_TENANT_MISMATCH"
  end.

Definition is_visible_text (value : string) (limit : N) : bool :=
  negb (is_empty value || (limit <? byte_len value) || negb (is_ascii value) ||
        any_byte (fun a => negb (is_visible_ascii a)) value).
Definition RouteModel := string.
Definition RouteModel_parse (value : string) : result RoutingDomainErrorCode RouteModel :=
  if negb (is_visible_text value MAX_MODEL_BYTES) then Err InvalidArgument else Ok value.
Definition CandidateKey := string.
Definition CandidateKey_parse (value : string) : result RoutingDomainErrorCode CandidateKey :=
  if negb (is_visible_text value MAX_CANDIDATE_KEY_BYTES) then Err InvalidArgument else Ok value.

Record CandidateRef := mk_CandidateRef {
  ref_tenant_id : TenantId; key : CandidateKey; account_id : AccountId; provider_id : ProviderId; ref_model : RouteModel;
}.
Definition CandidateRef_new (tenant_id : TenantId) (key : string) (account_id : AccountId) (provider_id : ProviderId)
    (model : RouteModel) : result RoutingDomainErrorCode CandidateRef :=
  key ← CandidateKey_parse key; mret (mk_CandidateRef tenant_id key account_id provider_id model).

(** [RouteSnapshotVersion]: a nonzero counter. *)
Definition route_version_new (value : N) : result RoutingDomainErrorCode N :=
  if value =? 0 then Err InvalidArgument else Ok value.
Definition route_version_next (version : N) : result RoutingDomainErrorCode N :=
  next_generation SnapshotVersionExhausted version.

Record RouteSnapshot := mk_RouteSnapshot { snapshot_tenant_id : TenantId; version : N; candidates : list CandidateRef }.
Definition validate_snapshot_size (size : N) : result RoutingDomainErrorCode unit :=
  reject_if (size =? 0) EmptySnapshot ;; reject_if (MAX_CANDIDATES <? size) TooManyEntries.
Fixpoint insert_keys (tenant_id : TenantId) (keys : gset CandidateKey) (l : list CandidateRef)
    : result RoutingDomainErrorCode unit :=
  match l with
  | [] => mret tt
  | candidate :: l =>
      reject_if (bool_decide (ref_tenant_id candidate <> tenant_id)) TenantMismatch ;;
      reject_if (bool_decide (key candidate ∈ keys)) DuplicateCandidateId ;;
      insert_keys tenant_id ({[key candidate]} ∪ keys) l
  end.
Definition RouteSnapshot_new (tenant_id : TenantId) (version : N) (candidates : list CandidateRef)
    : result RoutingDomainErrorCode RouteSnapshot :=
  validate_snapshot_size (len candidates) ;;
  insert_keys tenant_id ∅ candidates ;;
  mret (mk_RouteSnapshot tenant_id version candidates).
Definition candidate (s : RouteSnapshot) (k : CandidateKey) : option CandidateRef :=
  List.find (fun c => String.eqb (key c) k) (candidates s).

Definition RequestId := Id RequestKind.
Record RoutingContext := mk_RoutingContext {
  tenant_id : TenantId; request_id : RequestId; model : RouteModel; required_capabilities : list CapabilityId;
}.
Definition RoutingContext_new (tenant_id : TenantId) (request_id : RequestId) (model : RouteModel) : RoutingContext :=
  mk_RoutingContext tenant_id request_id model [].
Definition with_capabilities (c : RoutingContext) (capabilities : list CapabilityId)
    : result RoutingDomainErrorCode RoutingContext :=
  reject_if (MAX_REQUIRED_CAPABILITIES <? len capabilities) TooManyEntries ;;
  reject_if (negb (all_fresh (fun c => c) [] capabilities)) DuplicateCapability ;;
  mret (mk_RoutingContext (tenant_id c) (request_id c) (model c) capabilities).

Record RouteDecision := mk_RouteDecision { decision_version : N; selected : CandidateKey }.
Definition RouteDecision_new (version : N) (selected : CandidateKey) : result RoutingDomainErrorCode RouteDecision :=
  reject_if (is_empty selected) InvalidArgument ;; mret (mk_RouteDecision version selected).
Definition validate_against (d : RouteDecision) (s : RouteSnapshot) : result RoutingDomainErrorCode unit :=
  reject_if (negb (decision_version d =? version s)) SnapshotVersionMismatch ;;
  reject_if (bool_decide (candidate s (selected d) = None)) CandidateNotFound.

Inductive ExclusionReason := ModelMismatched | PolicyExcluded.
Record CandidateExclusion := mk_CandidateExclusion { excluded_key : CandidateKey; reason : ExclusionReason }.
Record RoutingEvaluation := mk_RoutingEvaluation {
  context : RoutingContext; evaluation_version : N; decision : RouteDecision; exclusions : list CandidateExclusion;
}.
Definition RoutingEvaluation_new (context : RoutingContext) (s : RouteSnapshot) (d : RouteDecision)
    (exclusions : list CandidateExclusion) : result RoutingDomainErrorCode RoutingEvaluation :=
  reject_if (bool_decide (tenant_id context <> snapshot_tenant_id s)) TenantMismatch ;;
  validate_against d s ;;
  c ← ok_or (candidate s (selected d)) CandidateNotFound;
  reject_if (bool_decide (ref_model c <> model context)) ModelMismatch ;;
  mret (mk_RoutingEvaluation context (version s) d exclusions).

(** ** Lemmas *)

Lemma insert_keys_Ok tenant ids l : insert_keys tenant ids l = Ok tt <->
  (forall c, c ∈ l -> ref_tenant_id c = tenant) /\ NoDup (key <$> l) /\ forall c, c ∈ l -> key c ∉ ids.
Proof.
  revert ids. induction l as [|c l IH]; intros ids; cbn [insert_keys].
  { split; [|done]. intros _. split_and!; [by intros c ?%not_elem_of_nil|constructor|by intros c ?%not_elem_of_nil]. }
  destruct (decide (ref_tenant_id c = tenant)) as [Ht|Ht].
  2: { rewrite (bool_decide_true (ref_tenant_id c <> tenant)) by done. cbn. split; [done|]. intros (Hall & _). destruct Ht. apply Hall. left. }
  rewrite (bool_decide_false (ref_tenant_id c <> tenant)) by naive_solver. cbn -[union]. destruct (decide (key c ∈ ids)) as [Hin|Hout].
  { rewrite bool_decide_true by done. cbn. split; [done|]. intros (_ & _ & Hall). by destruct (Hall c (list_elem_of_here _ _)). }
  rewrite bool_decide_false by done. cbn -[union]. rewrite IH, NoDup_cons, list_elem_of_fmap. split.
  - intros (Hall & Hnd & Hk). split_and!; [by intros d [->|Hd]%elem_of_cons; [|apply Hall]| |done|].
    + intros (d & Hd & Hdin). apply (Hk d Hdin). rewrite <- Hd. by apply elem_of_union_l, elem_of_singleton.
    + intros d [->|Hd]%elem_of_cons; [done|]. intros Hin. apply (Hk d Hd). by apply elem_of_union_r.
  - intros (Hall & [Hn Hnd] & Hk). split_and!; [by intros d Hd; apply Hall; right|done|].
    intros d Hd [Heq%elem_of_singleton|Hin]%elem_of_union; [apply Hn; by exists d|]. apply (Hk d); [by right|done].
Qed.
Lemma RouteSnapshot_new_Ok tenant version cs s : RouteSnapshot_new tenant version cs = Ok s <->
  0 < len cs <= MAX_CANDIDATES /\ (forall c, c ∈ cs -> ref_tenant_id c = tenant) /\ NoDup (key <$> cs) /\
  s = mk_RouteSnapshot tenant version cs.
Proof.
  unfold RouteSnapshot_new, validate_snapshot_size. split.
  - intros H. run_steps; tidy. match goal with H : insert_keys _ _ _ = _ |- _ => apply insert_keys_Ok in H as (? & ? & _) end.
    split_and!; try done. lia.
  - intros ([H1 H2] & Ht & Hnd & ->). destruct (N.eqb_spec (len cs) 0); [lia|]. destruct (N.ltb_spec MAX_CANDIDATES (len cs)); [lia|].
    cbn. rewrite (proj2 (insert_keys_Ok tenant ∅ cs)); [done|]. split_and!; [done|done|]. intros c _. apply not_elem_of_empty.
Qed.
(** In a snapshot with unique keys, a lookup finds exactly the candidate of the key. *)
Lemma candidate_spec s k c : NoDup (key <$> candidates s) ->
  candidate s k = Some c <-> c ∈ candidates s /\ key c = k.
Proof.
  intros Hnd. unfold candidate. split.
  - intros [Hc Hk]%find_some. apply list_elem_of_In in Hc. by apply String.eqb_eq in Hk.
  - intros [(i & Hi)%list_elem_of_lookup Hk]. destruct (List.find _ (candidates s)) as [d|] eqn:Hf.
    + apply find_some in Hf as [Hd Hdk]. apply list_elem_of_In in Hd as (j & Hj)%list_elem_of_lookup. apply String.eqb_eq in Hdk.
      assert (j = i) as -> by (apply (NoDup_lookup _ _ _ k Hnd); rewrite list_lookup_fmap; [by rewrite Hj; cbn; rewrite Hdk|by rewrite Hi; cbn; rewrite Hk]).
      congruence.
    + pose proof (find_none _ _ Hf c) as Hn. rewrite <- list_elem_of_In in Hn.
      specialize (Hn (list_elem_of_lookup_2 _ _ _ Hi)). by rewrite Hk, String.eqb_refl in Hn.
Qed.
(** An evaluation exists exactly for a decision on this version of the tenant's snapshot that
    names a candidate offering the requested model. *)
Lemma RoutingEvaluation_new_Ok c s d xs e : NoDup (key <$> candidates s) -> RoutingEvaluation_new c s d xs = Ok e <->
  tenant_id c = snapshot_tenant_id s /\ decision_version d = version s /\
  (exists r, r ∈ candidates s /\ key r = selected d /\ ref_model r = model c) /\
  e = mk_RoutingEvaluation c (version s) d xs.
Proof.
  intros Hnd. unfold RoutingEvaluation_new, validate_against. split.
  - intros H. run_steps; tidy.
    match goal with H : candidate _ _ = Some ?r |- _ => apply candidate_spec in H as [Hr Hk]; [|done]; split_and!; try done; by exists r end.
  - intros (Ht & Hv & (r & Hr & Hk & Hm) & ->).
    rewrite (bool_decide_false (tenant_id c <> _)) by naive_solver. cbn. rewrite Hv, N.eqb_refl. cbn.
    rewrite (proj2 (candidate_spec s (selected d) r Hnd) (conj Hr Hk)).
    rewrite (bool_decide_false (Some r = None)) by done. cbn. by rewrite bool_decide_false by naive_solver.
Qed.
Lemma RoutingEvaluation_new_found c s d xs r : NoDup (key <$> candidates s) -> tenant_id c = snapshot_tenant_id s ->
  decision_version d = version s -> r ∈ candidates s -> key r = selected d ->
  RoutingEvaluation_new c s d xs =
    if decide (ref_model r = model c) then Ok (mk_RoutingEvaluation c (version s) d xs) else Err ModelMismatch.
Proof.
  intros Hnd Ht Hv Hr Hk. unfold RoutingEvaluation_new, validate_against.
  rewrite (bool_decide_false (tenant_id c <> _)) by (intros Hn; by apply Hn). cbn. rewrite Hv, N.eqb_refl. cbn.
  rewrite (proj2 (candidate_spec s (selected d) r Hnd) (conj Hr Hk)).
  rewrite (bool_decide_false (Some r = None)) by done. cbn. destruct (decide (ref_model r = model c)) as [Hm|Hm].
  - by rewrite bool_decide_false by (intros Hn; by apply Hn).
  - by rewrite bool_decide_true.
Qed.
