(* ===== verification/RoutingSimulator.v ===== *)
(** * The routing simulator

    Models [crates/optional/ariadnion-routing-simulator/src/lib.rs]: a dry run of the routing
    policy over a tenant's snapshot, with a bounded capacity forecast.  It composes
    [RoutingDomain] and [RoutingPolicy]. *)

From S2P Require Import Prelude CoreTypes RoutingPolicy.
From S2P Require RoutingDomain.
#[local] Open Scope N_scope.

Definition SIMULATOR_MAX_CANDIDATES : N := N.shiftl 1 17.
Definition MAX_FORECAST_UNITS : N := N.shiftl 1 40.

Inductive SimulationErrorCode :=
| SimInvalidArgument | SimEmptyCandidates | SimTooManyCandidates | SimDuplicateCandidate | SimCandidateNotFound
| SimModelMismatch | SimNoEligibleCandidates | CapacityOverflow | SimTenantMismatch.
Definition simulation_code_str (code : SimulationErrorCode) : string :=
  match code with
  | SimInvalidArgument => "ROUTING_SIMULATOR_INVALID_ARGUMENT"
  | SimEmptyCandidates => "ROUTING_SIMULATOR_EMPTY_CANDIDATES"
  | SimTooManyCandidates => "ROUTING_SIMULATOR_TOO_MANY_CANDIDATES"
  | SimDuplicateCandidate => "ROUTING_SIMULATOR_DUPLICATE_CANDIDATE"
  | SimCandidateNotFound => "ROUTING_SIMULATOR_CANDIDATE_NOT_FOUND"
  | SimModelMismatch => "ROUTING_SIMULATOR_MODEL_MISMATCH"
  | SimNoEligibleCandidates => "ROUTING_SIMULATOR_NO_ELIGIBLE_CANDIDATES"
  | CapacityOverflow => "ROUTING_SIMULATOR_CAPACITY_OVERFLOW"
  | SimTenantMismatch => "ROUTING_SIMULATOR_TENANT_MISMATCH"
  end.

Record CapacityForecast := mk_CapacityForecast {
  projected : N; capacity : N; accepted : N; remaining : N; deficit : N;
}.
Definition CapacityForecast_new (projected capacity : N) : result SimulationErrorCode CapacityForecast :=
  reject_if ((MAX_FORECAST_UNITS <? projected) || (MAX_FORECAST_UNITS <? capacity)) CapacityOverflow ;;
  let accepted := if projected <? capacity then projected else capacity in
  mret (mk_CapacityForecast projected capacity accepted (wrapping_sub u64_max capacity accepted)
          (wrapping_sub u64_max projected accepted)).

Record SimulationInput := mk_SimulationInput {
  input_context : RoutingDomain.RoutingContext;
  input_snapshot : RoutingDomain.RouteSnapshot;
  input_policy : list Candidate;
  input_projected : N;
  input_capacity : N;
}.
Record SimulationResult := mk_SimulationResult {
  result_policy : SelectionDecision; evaluation : RoutingDomain.RoutingEvaluation; forecast : CapacityForecast;
}.

Definition validate_input_bounds (context : RoutingDomain.RoutingContext) (snapshot : RoutingDomain.RouteSnapshot)
    (policy : list Candidate) (projected capacity : N) : result SimulationErrorCode unit :=
  reject_if (bool_decide (policy = [])) SimEmptyCandidates ;;
  reject_if (bool_decide (RoutingDomain.tenant_id context <> RoutingDomain.snapshot_tenant_id snapshot)) SimTenantMismatch ;;
  reject_if (SIMULATOR_MAX_CANDIDATES <? len policy) SimTooManyCandidates ;;
  CapacityForecast_new projected capacity ;;
  mret tt.
Fixpoint check_policy_candidates (snapshot_ids ids : gset string) (policy : list Candidate) : result SimulationErrorCode unit :=
  match policy with
  | [] => mret tt
  | c :: policy =>
      reject_if (bool_decide (candidate_id c ∈ ids)) SimDuplicateCandidate ;;
      reject_if (bool_decide (candidate_id c ∉ snapshot_ids)) SimCandidateNotFound ;;
      check_policy_candidates snapshot_ids ({[candidate_id c]} ∪ ids) policy
  end.
Definition validate_policy_candidates (snapshot : RoutingDomain.RouteSnapshot) (policy : list Candidate)
    : result SimulationErrorCode unit :=
  check_policy_candidates (list_to_set (RoutingDomain.key <$> RoutingDomain.candidates snapshot)) ∅ policy.
Definition SimulationInput_new (context : RoutingDomain.RoutingContext) (snapshot : RoutingDomain.RouteSnapshot)
    (policy : list Candidate) (projected capacity : N) : result SimulationErrorCode SimulationInput :=
  validate_input_bounds context snapshot policy projected capacity ;;
  validate_policy_candidates snapshot policy ;;
  mret (mk_SimulationInput context snapshot policy projected capacity).

Definition map_domain_error (code : RoutingDomain.RoutingDomainErrorCode) : SimulationErrorCode :=
  match code with
  | RoutingDomain.ModelMismatch => SimModelMismatch
  | RoutingDomain.CandidateNotFound => SimCandidateNotFound
  | RoutingDomain.TenantMismatch => SimTenantMismatch
  | _ => SimInvalidArgument
  end.
Definition map_policy_error (code : RoutingPolicyErrorCode) : SimulationErrorCode :=
  match code with
  | EmptyCandidates => SimEmptyCandidates
  | TooManyCandidates => SimTooManyCandidates
  | DuplicateCandidateId => SimDuplicateCandidate
  | NoEligibleCandidates => SimNoEligibleCandidates
  | _ => SimInvalidArgument
  end.
Definition select_policy (input : SimulationInput) : result SimulationErrorCode SelectionDecision :=
  match select (input_policy input) with Ok d => Ok d | Err e => Err (map_policy_error (error_code e)) end.
(** The map from identities to keys sends each key to itself. *)
Definition policy_exclusions (snapshot : RoutingDomain.RouteSnapshot) (policy : SelectionDecision)
    : list RoutingDomain.CandidateExclusion :=
  let routes := list_to_map ((fun c => (RoutingDomain.key c, RoutingDomain.key c)) <$> RoutingDomain.candidates snapshot) : gmap string string in
  omap (fun x => (fun k : string => RoutingDomain.mk_CandidateExclusion k RoutingDomain.PolicyExcluded) <$> routes !! (excluded_id x : string))
    (exclusions policy).
Definition evaluate_policy (input : SimulationInput) (policy : SelectionDecision)
    : result SimulationErrorCode RoutingDomain.RoutingEvaluation :=
  chosen ← ok_or (List.find (fun c => String.eqb (RoutingDomain.key c) (selected policy))
    (RoutingDomain.candidates (input_snapshot input))) SimCandidateNotFound;
  decision ← match RoutingDomain.RouteDecision_new (RoutingDomain.version (input_snapshot input)) (RoutingDomain.key chosen) with
             | Ok d => Ok d | Err _ => Err SimInvalidArgument
             end;
  match RoutingDomain.RoutingEvaluation_new (input_context input) (input_snapshot input) decision
          (policy_exclusions (input_snapshot input) policy) with
  | Ok e => Ok e
  | Err e => Err (map_domain_error e)
  end.
Definition simulate (input : SimulationInput) : result SimulationErrorCode SimulationResult :=
  policy_decision ← select_policy input;
  evaluation ← evaluate_policy input policy_decision;
  forecast ← CapacityForecast_new (input_projected input) (input_capacity input);
  mret (mk_SimulationResult policy_decision evaluation forecast).

(** ** Lemmas *)

Lemma check_policy_candidates_Ok known ids policy : check_policy_candidates known ids policy = Ok tt <->
  NoDup (candidate_id <$> policy) /\ forall c, c ∈ policy -> candidate_id c ∈ known /\ candidate_id c ∉ ids.
Proof.
  revert ids. induction policy as [|c policy IH]; intros ids; cbn [check_policy_candidates].
  { split; [split; [constructor|by intros c ?%not_elem_of_nil]|done]. }
  destruct (decide (candidate_id c ∈ ids)) as [Hin|Hout].
  { rewrite (bool_decide_true (candidate_id c ∈ ids)) by done. cbn. split; [done|]. intros [_ Hall]. by destruct (Hall c (list_elem_of_here _ _)). }
  rewrite (bool_decide_false (candidate_id c ∈ ids)) by done. cbn -[union]. destruct (decide (candidate_id c ∈ known)) as [Hk|Hk].
  2: { rewrite bool_decide_true by done. cbn. split; [done|]. intros [_ Hall]. by destruct (Hall c (list_elem_of_here _ _)). }
  rewrite bool_decide_false by (intros Hn; by apply Hn). cbn -[union]. rewrite IH, NoDup_cons, list_elem_of_fmap. split.
  - intros [Hnd Hall]. split; [split; [|done]|].
    + intros (d & Hd & Hdin). destruct (Hall d Hdin) as [_ Hn]. apply Hn. rewrite <- Hd. by apply elem_of_union_l, elem_of_singleton.
    + intros d [->|Hd]%elem_of_cons; [done|]. destruct (Hall d Hd) as [? Hn]. split; [done|]. intros Hin. by apply Hn, elem_of_union_r.
  - intros [[Hn Hnd] Hall]. split; [done|]. intros d Hd. split; [apply Hall; by right|].
    intros [Heq%elem_of_singleton|Hin]%elem_of_union; [apply Hn; by exists d|]. destruct (Hall d) as [_ Ho]; [by right|done].
Qed.
Lemma CapacityForecast_new_Ok p c f : c <= u64_max -> p <= u64_max -> CapacityForecast_new p c = Ok f <->
  p <= MAX_FORECAST_UNITS /\ c <= MAX_FORECAST_UNITS /\
  f = mk_CapacityForecast p c (N.min p c) (c - N.min p c) (p - N.min p c).
Proof.
  intros Hc Hp. unfold CapacityForecast_new.
  assert ((if p <? c then p else c) = N.min p c) as -> by (destruct (N.ltb_spec p c); lia).
  rewrite !wrapping_sub_exact by lia. split.
  - intros H. run_steps; tidy. done.
  - intros (Hp' & Hc' & ->). rewrite (proj2 (N.ltb_ge _ _) Hp'), (proj2 (N.ltb_ge _ _) Hc'). done.
Qed.
(** An accepted input: what [SimulationInput::new] establishes. *)
Lemma SimulationInput_new_Ok context snapshot policy p c input :
  SimulationInput_new context snapshot policy p c = Ok input ->
  input = mk_SimulationInput context snapshot policy p c /\ candidates_ok policy /\
  RoutingDomain.tenant_id context = RoutingDomain.snapshot_tenant_id snapshot /\
  (forall x, x ∈ policy -> candidate_id x ∈ RoutingDomain.key <$> RoutingDomain.candidates snapshot) /\
  exists f, CapacityForecast_new p c = Ok f.
Proof.
  unfold SimulationInput_new, validate_input_bounds, validate_policy_candidates. intros H. run_steps; tidy.
  match goal with H : check_policy_candidates _ _ _ = _ |- _ => apply check_policy_candidates_Ok in H as [Hnd Hk] end.
  split_and!; try done.
  - intros x Hx. destruct (Hk x Hx) as [Hin _]. by apply elem_of_list_to_set in Hin.
  - by eexists.
Qed.
Lemma policy_exclusions_spec snapshot d :
  (forall x, x ∈ exclusions d -> excluded_id x ∈ RoutingDomain.key <$> RoutingDomain.candidates snapshot) ->
  policy_exclusions snapshot d =
    (fun x => RoutingDomain.mk_CandidateExclusion (excluded_id x) RoutingDomain.PolicyExcluded) <$> exclusions d.
Proof.
  unfold policy_exclusions. set (routes := list_to_map _ : gmap string string).
  assert (forall k : string, k ∈ RoutingDomain.key <$> RoutingDomain.candidates snapshot -> routes !! k = Some k) as Hr.
  { unfold routes. intros k. induction (RoutingDomain.candidates snapshot) as [|c l IH]; cbn; [by intros ?%not_elem_of_nil|].
    intros [->|Hin]%elem_of_cons; [by rewrite lookup_insert_eq|]. destruct (decide (RoutingDomain.key c = k)) as [->|Hne].
    - by rewrite lookup_insert_eq.
    - rewrite lookup_insert_ne by done. by apply IH. }
  clearbody routes. induction (exclusions d) as [|x l IH]; intros Hall; cbn; [done|].
  rewrite (Hr (excluded_id x)) by (apply Hall; left). cbn. f_equal. apply IH. intros y Hy. apply Hall. by right.
Qed.
Lemma exclusions_elem w p l x : x ∈ explain_exclusions l w p -> exists c, c ∈ l /\ excluded_id x = candidate_id c.
Proof.
  unfold explain_exclusions. rewrite list_elem_of_omap. intros (c & Hc & Hx). exists c. split; [done|].
  destruct (exclusion_for c w p); [|done]. by injection Hx as <-.
Qed.

(** ** Properties *)

(** A simulation of an accepted input runs the routing policy itself: it reports the
    decision of the policy, the route of the candidate it selects, every exclusion of the
    policy under the route key, and the exact forecast.  It fails only when no candidate is
    eligible or when the selected candidate does not offer the requested model. *)
Theorem simulation_runs_policy context snapshot policy p c input :
  SimulationInput_new context snapshot policy p c = Ok input ->
  NoDup (RoutingDomain.key <$> RoutingDomain.candidates snapshot) ->
  Forall (fun r => is_empty (RoutingDomain.key r) = false) (RoutingDomain.candidates snapshot) ->
  p <= u64_max -> c <= u64_max ->
  match simulate input with
  | Ok r => select policy = Ok (result_policy r) /\
      (exists route, route ∈ RoutingDomain.candidates snapshot /\
         RoutingDomain.key route = selected (result_policy r) /\ RoutingDomain.ref_model route = RoutingDomain.model context) /\
      RoutingDomain.selected (RoutingDomain.decision (evaluation r)) = selected (result_policy r) /\
      RoutingDomain.excluded_key <$> RoutingDomain.exclusions (evaluation r) = excluded_id <$> exclusions (result_policy r) /\
      forecast r = mk_CapacityForecast p c (N.min p c) (c - N.min p c) (p - N.min p c)
  | Err SimNoEligibleCandidates => forall x, x ∈ policy -> is_eligible x = false
  | Err e => e = SimModelMismatch /\ exists d route, select policy = Ok d /\ route ∈ RoutingDomain.candidates snapshot /\
      RoutingDomain.key route = selected d /\ RoutingDomain.ref_model route <> RoutingDomain.model context
  end.
Proof.
  intros (-> & Hok & Htenant & Hkeys & f & Hf)%SimulationInput_new_Ok Hnd Hne Hp Hc.
  unfold simulate, select_policy, select. cbn [input_policy input_projected input_capacity].
  rewrite (proj2 (validate_candidates_Ok _) Hok). cbn [mbind result_bind].
  pose proof (select_candidates_spec policy (proj2 (proj2 Hok))) as Hs.
  destruct (select_candidates policy) as [[cs w pr]|e]; cbn [mbind result_bind].
  2: { destruct Hs as [-> Hs]. done. }
  cbn [selection_candidates winner winning_priority] in Hs. destruct Hs as (-> & Hw & ->).
  unfold mret, result_ret, evaluate_policy, explain.
  cbn [mbind result_bind input_snapshot input_context selected winner winning_priority selection_candidates].
  pose proof (Hkeys w (proj1 Hw)) as (route & Hrk & Hr)%list_elem_of_fmap.
  change (List.find _ (RoutingDomain.candidates snapshot)) with (RoutingDomain.candidate snapshot (candidate_id w)).
  rewrite (proj2 (RoutingDomain.candidate_spec snapshot (candidate_id w) route Hnd)) by (by split).
  cbn [ok_or mbind result_bind]. unfold RoutingDomain.RouteDecision_new.
  rewrite Forall_forall in Hne. rewrite (Hne route Hr). cbn [reject_if mbind result_bind mret result_ret].
  rewrite (RoutingDomain.RoutingEvaluation_new_found _ _ _ _ route) by done.
  destruct (decide (RoutingDomain.ref_model route = RoutingDomain.model context)) as [Hm|Hm].
  - cbn [mbind result_bind]. rewrite Hf. cbn -[policy_exclusions explain_exclusions fmap]. split_and!; try done.
    + by exists route.
    + rewrite policy_exclusions_spec; [by rewrite <- list_fmap_compose|].
      intros x (y & Hy & ->)%exclusions_elem. by apply Hkeys.
    + by apply CapacityForecast_new_Ok in Hf as (_ & _ & ->).
  - split; [done|]. eexists _, route. by split_and!.
Qed.
Definition sample_route (key : string) : RoutingDomain.CandidateRef :=
  RoutingDomain.mk_CandidateRef (MkId "t") key (MkId key) (MkId "p") "m".
Definition sample_snapshot : RoutingDomain.RouteSnapshot := RoutingDomain.mk_RouteSnapshot (MkId "t") 1 [sample_route "a"; sample_route "b"].
Definition sample_policy : list Candidate := [mk_Candidate "b" 0 2 3 Available; mk_Candidate "a" 0 1 3 Available].
Definition sample_input : SimulationInput :=
  mk_SimulationInput (RoutingDomain.mk_RoutingContext (MkId "t") (MkId "r") "m" []) sample_snapshot sample_policy 10 4.
Lemma simulation_runs_policy_witness : exists r, simulate sample_input = Ok r /\
  select sample_policy = Ok (result_policy r) /\ forecast r = mk_CapacityForecast 10 4 4 0 6.
Proof.
  pose proof (simulation_runs_policy (input_context sample_input) sample_snapshot sample_policy 10 4 sample_input
    ltac:(vm_compute; reflexivity)
    ltac:(repeat constructor; [intros [?|?%not_elem_of_nil]%elem_of_cons; done|by intros ?%not_elem_of_nil])
    ltac:(repeat constructor) ltac:(vm_compute; discriminate) ltac:(vm_compute; discriminate)) as H.
  destruct (simulate sample_input) as [r|e] eqn:E.
  - exists r. destruct H as (H1 & _ & _ & _ & H2). split_and!; [reflexivity|exact H1|exact H2].
  - vm_compute in E. discriminate E.
Defined.
