(* ===== verification/AccountPool.v ===== *)
(** * The account pool

    Models [crates/optional/ariadnion-account-pool/src/lib.rs] and [candidate.rs], with the
    durable projections of [ariadnion-account-import/src/port.rs] they are built from: the
    import of account records, the versioned candidate snapshot routing consumes, and its
    projection to one tenant's routes. *)

From Stdlib Require Import Ascii.
From S2P Require Import Prelude CoreTypes Publication.
From S2P Require AccountDomain RoutingDomain.
#[local] Open Scope N_scope.

Definition MAX_IMPORT_RECORDS : N := N.shiftl 1 17.
Definition MAX_SNAPSHOT_CANDIDATES : N := N.shiftl 1 17.
Definition MAX_LOAD : N := N.shiftl 1 30.
Definition MAX_WEIGHT : N := AccountDomain.MAX_ROUTING_WEIGHT.
Definition MAX_CANDIDATE_ID_BYTES : N := 128.
Definition CURRENT_SCHEMA_VERSION : N := 1.
Definition MAX_ACCOUNT_PROJECTION_ACCOUNTS : N := N.shiftl 1 17.

Inductive AccountPoolErrorCode :=
| InvalidArgument | UnsupportedSchemaVersion | TooManyRecords | DuplicateAccount | DuplicateCandidate
| TooManyCandidates | GenerationConflict | VersionExhausted | InvalidCandidate | StateUnavailable
| TenantMismatch | RoutingProjectionFailed.
Definition as_str (code : AccountPoolErrorCode) : string :=
  match code with
  | InvalidArgument => "ACCOUNT_POOL_INVALID_ARGUMENT"
  | UnsupportedSchemaVersion => "ACCOUNT_POOL_UNSUPPORTED_SCHEMA_VERSION"
  | TooManyRecords => "ACCOUNT_POOL_TOO_MANY_RECORDS"
  | DuplicateAccount => "ACCOUNT_POOL_DUPLICATE_ACCOUNT"
  | DuplicateCandidate => "ACCOUNT_POOL_DUPLICATE_CANDIDATE"
  | TooManyCandidates => "ACCOUNT_POOL_TOO_MANY_CANDIDATES"
  | GenerationConflict => "ACCOUNT_POOL_GENERATION_CONFLICT"
  | VersionExhausted => "ACCOUNT_POOL_VERSION_EXHAUSTED"
  | InvalidCandidate => "ACCOUNT_POOL_INVALID_CANDIDATE"
  | StateUnavailable => "ACCOUNT_POOL_STATE_UNAVAILABLE"
  | TenantMismatch => "ACCOUNT_POOL_TENANT_MISMATCH"
  | RoutingProjectionFailed => "ACCOUNT_POOL_ROUTING_PROJECTION_FAILED"
  end.
Definition next (generation : N) : result AccountPoolErrorCode N := next_generation VersionExhausted generation.

(** ** Candidates ([candidate.rs]) *)

Definition CandidateId := string.
Definition valid_candidate_id (value : string) : bool :=
  negb (is_empty value) && (byte_len value <=? MAX_CANDIDATE_ID_BYTES) && is_ascii value && all_bytes is_id_byte value.
Definition CandidateId_parse (value : string) : result AccountPoolErrorCode CandidateId :=
  if negb (valid_candidate_id value) then Err InvalidArgument else Ok value.
Definition CandidateId_from_account (account_id : AccountId) : CandidateId := id_str account_id.
Definition Weight_new (value : N) : result AccountPoolErrorCode N := if MAX_WEIGHT <? value then Err InvalidArgument else Ok value.
Definition Load_new (value : N) : result AccountPoolErrorCode N := if MAX_LOAD <? value then Err InvalidArgument else Ok value.

Inductive Availability := Available | Unavailable.
#[export] Instance Availability_eq_dec : EqDecision Availability.
Proof. solve_decision. Defined.

Record CandidateRoutingMetadata := mk_CandidateRoutingMetadata {
  routing_priority : N; routing_weight : N; routing_load : N; routing_availability : Availability;
}.
Definition CandidateRoutingMetadata_new (priority weight load : N) (availability : Availability) : CandidateRoutingMetadata :=
  mk_CandidateRoutingMetadata priority weight load (if weight =? 0 then Unavailable else availability).

Record CandidateMetadata := mk_CandidateMetadata {
  id : CandidateId;
  tenant_id : option TenantId;
  account_id : AccountId;
  provider_id : ProviderId;
  model : option AccountDomain.ModelName;
  max_concurrency : option N;
  effective_window : AccountDomain.AccountEffectiveWindow;
  priority : N;
  weight : N;
  load : N;
  availability : Availability;
}.
#[export] Instance CandidateMetadata_eta : Eta CandidateMetadata := fun c =>
  mk_CandidateMetadata (id c) (tenant_id c) (account_id c) (provider_id c) (model c) (max_concurrency c)
    (effective_window c) (priority c) (weight c) (load c) (availability c).
#[export] Instance AccountEffectiveWindow_eq_dec : EqDecision AccountDomain.AccountEffectiveWindow.
Proof. solve_decision. Defined.
#[export] Instance CandidateMetadata_eq_dec : EqDecision CandidateMetadata.
Proof. solve_decision. Defined.
Definition CandidateMetadata_new (id : CandidateId) (account_id : AccountId) (provider_id : ProviderId)
    (model : option AccountDomain.ModelName) (routing : CandidateRoutingMetadata) : CandidateMetadata :=
  mk_CandidateMetadata id None account_id provider_id model None AccountDomain.OPEN
    (routing_priority routing) (routing_weight routing) (routing_load routing) (routing_availability routing).

Record AccountImportRecord := mk_AccountImportRecord {
  account : AccountDomain.Account; record_priority : N; record_weight : N; record_load : N; record_availability : Availability;
}.
Definition from_record (record : AccountImportRecord) : CandidateMetadata :=
  let account := account record in
  let candidate := CandidateMetadata_new (CandidateId_from_account (AccountDomain.id account)) (AccountDomain.id account)
    (AccountDomain.provider_id (AccountDomain.provider account)) (AccountDomain.default_model (AccountDomain.config account))
    (CandidateRoutingMetadata_new (record_priority record) (record_weight record) (record_load record) (record_availability record)) in
  candidate <| tenant_id := Some (AccountDomain.tenant_id account) |>
            <| max_concurrency := Some (AccountDomain.max_concurrency (AccountDomain.config account)) |>
            <| effective_window := AccountDomain.effective_window (AccountDomain.config account) |>.

(** [DurableAccountProjection] and [AccountProjectionSnapshot] of the import port. *)
Record DurableAccountProjection := mk_DurableAccountProjection {
  durable_tenant_id : TenantId;
  durable_account_id : AccountId;
  durable_provider_id : ProviderId;
  durable_default_model : option AccountDomain.ModelName;
  durable_max_concurrency : N;
  durable_config_version : N;
  durable_account_version : N;
  durable_status : AccountDomain.AccountStatus;
  import_generation : N;
  durable_priority : N;
  durable_weight : N;
  durable_window : AccountDomain.AccountEffectiveWindow;
}.
Record AccountProjectionSnapshot := mk_AccountProjectionSnapshot {
  projection_generation : N; accounts : list DurableAccountProjection;
}.
(** [windows(2).any(..)]: some neighbours are of different tenants or out of order. *)
Fixpoint rows_unordered (l : list DurableAccountProjection) : bool :=
  match l with
  | x :: ((y :: _) as l') =>
      bool_decide (durable_tenant_id x <> durable_tenant_id y) || negb (is_lt (durable_account_id x) (durable_account_id y)) ||
      rows_unordered l'
  | _ => false
  end.
(** The error of the import port is not told apart further. *)
Definition AccountProjectionSnapshot_new (generation : N) (accounts : list DurableAccountProjection)
    : option AccountProjectionSnapshot :=
  if (MAX_ACCOUNT_PROJECTION_ACCOUNTS <? len accounts) || ((generation =? 0) && negb (bool_decide (accounts = []))) ||
     existsb (fun row => generation <? import_generation row) accounts || rows_unordered accounts
  then None else Some (mk_AccountProjectionSnapshot generation accounts).
Definition from_durable_account (a : DurableAccountProjection) : result AccountPoolErrorCode CandidateMetadata :=
  let availability := if bool_decide (durable_status a = AccountDomain.Active) && bool_decide (is_Some (durable_default_model a))
                      then Available else Unavailable in
  load ← Load_new 0;
  let routing := CandidateRoutingMetadata_new (durable_priority a) (durable_weight a) load availability in
  max_concurrency ← (if durable_max_concurrency a =? 0 then Err InvalidCandidate else Ok (durable_max_concurrency a));
  mret (mk_CandidateMetadata (CandidateId_from_account (durable_account_id a)) (Some (durable_tenant_id a))
    (durable_account_id a) (durable_provider_id a) (durable_default_model a) (Some max_concurrency) (durable_window a)
    (routing_priority routing) (routing_weight routing) (routing_load routing) (routing_availability routing)).

(** ** Snapshots *)

Record CandidateSnapshot := mk_CandidateSnapshot { snapshot_id : N; snapshot_version : N; candidates : list CandidateMetadata }.
Definition empty_snapshot : CandidateSnapshot := mk_CandidateSnapshot 0 0 [].
Definition CandidateSnapshot_new (id' version : N) (candidates : list CandidateMetadata)
    : result AccountPoolErrorCode CandidateSnapshot :=
  reject_if (MAX_SNAPSHOT_CANDIDATES <? len candidates) TooManyCandidates ;;
  let sorted := sort_by id candidates in
  reject_if (adjacent_duplicate id sorted) DuplicateCandidate ;;
  mret (mk_CandidateSnapshot id' version sorted).
Definition from_durable_projection (projection : AccountProjectionSnapshot) : result AccountPoolErrorCode CandidateSnapshot :=
  let generation := projection_generation projection in
  candidates ← collect (fun a =>
    reject_if (generation <? import_generation a) GenerationConflict ;; from_durable_account a) (accounts projection);
  CandidateSnapshot_new generation generation candidates.

Definition ensure_candidate_tenant (c : CandidateMetadata) (tenant : TenantId) : result AccountPoolErrorCode unit :=
  source_tenant ← ok_or (tenant_id c) InvalidCandidate;
  reject_if (bool_decide (source_tenant <> tenant)) TenantMismatch.
Definition build_route_candidate (c : CandidateMetadata) (tenant : TenantId) : result AccountPoolErrorCode RoutingDomain.CandidateRef :=
  model ← ok_or (model c) InvalidCandidate;
  model ← match RoutingDomain.RouteModel_parse model with Ok m => Ok m | Err _ => Err InvalidCandidate end;
  match RoutingDomain.CandidateRef_new tenant (id c) (account_id c) (provider_id c) model with
  | Ok r => Ok r
  | Err _ => Err InvalidCandidate
  end.
Definition project_candidate (c : CandidateMetadata) (tenant : TenantId) : result AccountPoolErrorCode (option RoutingDomain.CandidateRef) :=
  ensure_candidate_tenant c tenant ;;
  if bool_decide (availability c <> Available) || (weight c =? 0) then Ok None
  else Some <$> build_route_candidate c tenant.
Definition projected_routing_error (code : RoutingDomain.RoutingDomainErrorCode) : AccountPoolErrorCode :=
  match code with
  | RoutingDomain.DuplicateCandidateId => DuplicateCandidate
  | RoutingDomain.SnapshotVersionExhausted => VersionExhausted
  | RoutingDomain.TenantMismatch => TenantMismatch
  | _ => RoutingProjectionFailed
  end.
Definition to_route_snapshot (s : CandidateSnapshot) (tenant : TenantId) : result AccountPoolErrorCode RoutingDomain.RouteSnapshot :=
  version ← match RoutingDomain.route_version_new (snapshot_version s) with Ok v => Ok v | Err _ => Err RoutingProjectionFailed end;
  projected ← collect (fun c => project_candidate c tenant) (candidates s);
  match RoutingDomain.RouteSnapshot_new tenant version (omap (fun o => o) projected) with
  | Ok r => Ok r
  | Err e => Err (projected_routing_error e)
  end.

(** ** The pool *)

Record AccountImport := mk_AccountImport { schema_version : N; records : list AccountImportRecord }.
Definition AccountImport_new (schema_version : N) (records : list AccountImportRecord) : result AccountPoolErrorCode AccountImport :=
  reject_if (MAX_IMPORT_RECORDS <? len records) TooManyRecords ;; mret (mk_AccountImport schema_version records).
Definition validate_schema (version : N) : result AccountPoolErrorCode unit :=
  reject_if (negb (version =? CURRENT_SCHEMA_VERSION)) UnsupportedSchemaVersion.
Definition validate_record (record : AccountImportRecord) : result AccountPoolErrorCode unit :=
  reject_if (bool_decide (record_availability record = Available) &&
             negb (bool_decide (AccountDomain.status (account record) = AccountDomain.Active))) InvalidCandidate.
Fixpoint build_from (account_ids : gset AccountId) (l : list AccountImportRecord) : result AccountPoolErrorCode (list CandidateMetadata) :=
  match l with
  | [] => mret []
  | record :: l =>
      reject_if (bool_decide (AccountDomain.id (account record) ∈ account_ids)) DuplicateAccount ;;
      validate_record record ;;
      cs ← build_from ({[AccountDomain.id (account record)]} ∪ account_ids) l;
      mret (from_record record :: cs)
  end.
Definition build_candidates (import : AccountImport) : result AccountPoolErrorCode (list CandidateMetadata) :=
  validate_schema (schema_version import) ;;
  cs ← build_from ∅ (records import);
  mret (sort_by id cs).

Record PoolState := mk_PoolState { generation : N; snapshot : CandidateSnapshot }.
#[export] Instance PoolState_eta : Eta PoolState := fun s => mk_PoolState (generation s) (snapshot s).
Record ImportReport := mk_ImportReport {
  report_schema_version : N; record_count : N; candidate_count : N; current_generation : N; publish_generation : N;
}.
Record PublishReceipt := mk_PublishReceipt { previous_generation : N; receipt_generation : N; receipt_snapshot : CandidateSnapshot }.
Definition AccountPool_new : Lock PoolState := mk_lock false (mk_PoolState 0 empty_snapshot).
Definition pool_generation : act (Lock PoolState) AccountPoolErrorCode N :=
  locked StateUnavailable (query (fun s => Ok (generation s))).
Definition dry_run (import : AccountImport) : act (Lock PoolState) AccountPoolErrorCode ImportReport :=
  candidates ← lift (build_candidates import);
  current_generation ← pool_generation;
  publish_generation ← lift (next current_generation);
  mret (mk_ImportReport (schema_version import) (len (records import)) (len candidates) current_generation publish_generation).
Definition ensure_generation (actual expected : N) : result AccountPoolErrorCode unit :=
  reject_if (negb (actual =? expected)) GenerationConflict.
Definition publish (import : AccountImport) (expected_generation : N) : act (Lock PoolState) AccountPoolErrorCode PublishReceipt :=
  candidates ← lift (build_candidates import);
  locked StateUnavailable (
    state ← get;
    lift (ensure_generation (generation state) expected_generation) ;;
    successor ← lift (next (generation state));
    published ← lift (CandidateSnapshot_new successor successor candidates);
    modify (fun s => s <| generation := successor |>) ;;
    modify (fun s => s <| snapshot := published |>) ;;
    mret (mk_PublishReceipt (generation state) successor published)).
Definition candidate_snapshot : act (Lock PoolState) AccountPoolErrorCode CandidateSnapshot :=
  locked StateUnavailable (query (fun s => Ok (snapshot s))).

#[export] Instance pool_publication : Publication (Lock PoolState) AccountImport PublishReceipt AccountPoolErrorCode := {
  generation_of := fun b => generation (lock_data b);
  publish_to := fun g import => publish import g;
  background := fun _ _ => False;
}.

(** ** Specification *)

(** A record routing may use. *)
Definition routable (record : AccountImportRecord) : Prop :=
  record_availability record = Available /\ record_weight record <> 0 /\
  AccountDomain.status (account record) = AccountDomain.Active.
(** The route of an account, under its configured model. *)
Definition route_of (record : AccountImportRecord) (r : RoutingDomain.CandidateRef) : Prop :=
  let a := account record in
  AccountDomain.default_model (AccountDomain.config a) = Some (RoutingDomain.ref_model r) /\
  r = RoutingDomain.mk_CandidateRef (AccountDomain.tenant_id a) (id_str (AccountDomain.id a)) (AccountDomain.id a)
        (AccountDomain.provider_id (AccountDomain.provider a)) (RoutingDomain.ref_model r).
Definition account_of (record : AccountImportRecord) : AccountId := AccountDomain.id (account record).
Definition import_ok (import : AccountImport) : Prop :=
  schema_version import = CURRENT_SCHEMA_VERSION /\ NoDup (account_of <$> records import) /\
  Forall (fun r => record_availability r = Available -> AccountDomain.status (account r) = AccountDomain.Active) (records import).

(** ** Lemmas *)

Lemma validate_record_Ok r : validate_record r = Ok tt <->
  (record_availability r = Available -> AccountDomain.status (account r) = AccountDomain.Active).
Proof.
  unfold validate_record. rewrite reject_if_Ok, andb_false_iff, negb_false_iff, bool_decide_eq_false, bool_decide_eq_true.
  destruct (decide (record_availability r = Available)); tauto.
Qed.
Lemma build_from_Ok ids l cs : build_from ids l = Ok cs <->
  NoDup (account_of <$> l) /\ (forall r, r ∈ l -> account_of r ∉ ids) /\
  Forall (fun r => record_availability r = Available -> AccountDomain.status (account r) = AccountDomain.Active) l /\
  cs = from_record <$> l.
Proof.
  revert ids cs. induction l as [|r l IH]; intros ids cs; cbn [build_from].
  { split; [intros [= <-]|by intros (_ & _ & _ & ->)]. split_and!; try constructor. by intros r ?%not_elem_of_nil. }
  change (AccountDomain.id (account r)) with (account_of r). destruct (decide (account_of r ∈ ids)) as [Hin|Hout].
  { rewrite bool_decide_true by done. cbn. split; [done|]. intros (_ & Hf & _). by destruct (Hf r (list_elem_of_here _ _)). }
  rewrite bool_decide_false by done. cbn -[union]. pose proof (validate_record_Ok r) as Hv.
  destruct (validate_record r) as [[]|e]; cbn -[union].
  2: { split; [done|]. intros (_ & _ & [Hr _]%Forall_cons & _). by apply Hv in Hr. }
  assert (forall r', r' ∈ l -> account_of r' ∉ {[account_of r]} ∪ ids <-> account_of r' <> account_of r /\ account_of r' ∉ ids) as Hu.
  { intros r' _. rewrite not_elem_of_union, not_elem_of_singleton. done. }
  split.
  - destruct (build_from _ l) as [cs'|e] eqn:Hb; cbn; [|done]. intros [= <-].
    apply IH in Hb as (Hnd & Hf & Hall & ->). split_and!; [|..|done].
    + rewrite NoDup_cons. split; [|done]. intros (r' & Heq & Hr')%list_elem_of_fmap. by destruct (proj1 (Hu r' Hr') (Hf r' Hr')).
    + intros r' [->|Hr']%elem_of_cons; [done|]. by apply (Hu r' Hr'), Hf.
    + constructor; [by apply Hv|done].
  - intros ([Hni Hnd]%NoDup_cons & Hf & [Hr Hall]%Forall_cons & ->).
    rewrite (proj2 (IH ({[account_of r]} ∪ ids) (from_record <$> l))); [done|]. split_and!; try done.
    intros r' Hr'. apply Hu; [done|]. split; [|apply Hf; by right]. intros Heq. apply Hni. rewrite <- Heq. by apply list_elem_of_fmap_2.
Qed.
Lemma build_candidates_Ok import cs : build_candidates import = Ok cs <->
  import_ok import /\ cs = sort_by id (from_record <$> records import).
Proof.
  unfold build_candidates, import_ok, validate_schema. split.
  - intros H. run_steps; tidy. match goal with H : build_from _ _ = _ |- _ => apply build_from_Ok in H as (? & _ & ? & ->) end. done.
  - intros [(Hs & Hnd & Hall) ->]. rewrite Hs, N.eqb_refl. cbn.
    rewrite (proj2 (build_from_Ok ∅ (records import) (from_record <$> records import))); [done|].
    split_and!; done.
Qed.
Lemma CandidateSnapshot_new_Ok i v cs s : CandidateSnapshot_new i v cs = Ok s <->
  len cs <= MAX_SNAPSHOT_CANDIDATES /\ NoDup (id <$> cs) /\ s = mk_CandidateSnapshot i v (sort_by id cs).
Proof.
  unfold CandidateSnapshot_new. split.
  - intros H. run_steps; tidy. split; [done|]. split; [|done]. by apply (adjacent_duplicate_perm id).
  - intros (Hlen & Hnd & ->). rewrite (proj2 (N.ltb_ge _ _) Hlen). cbn.
    by rewrite (proj2 (adjacent_duplicate_perm id _) Hnd).
Qed.
Lemma publish_Ok import g b b' r : publish import g b = (b', Ok r) ->
  import_ok import /\ lock_poisoned b = false /\ generation (lock_data b) = g /\ g < u64_max /\
  b' = mk_lock false (mk_PoolState (g + 1) (receipt_snapshot r)) /\ r = mk_PublishReceipt g (g + 1) (receipt_snapshot r) /\
  receipt_snapshot r = mk_CandidateSnapshot (g + 1) (g + 1) (candidates (receipt_snapshot r)) /\
  candidates (receipt_snapshot r) ≡ₚ from_record <$> records import /\ strictly_sorted_by id (candidates (receipt_snapshot r)).
Proof.
  unfold publish. intros H. run_steps.
  match goal with H : build_candidates _ = _ |- _ => apply build_candidates_Ok in H as (? & ->) end.
  match goal with H : locked _ _ _ = _ |- _ => apply locked_inv in H as [[_ [=]]|(s' & Hrun & -> & Hp)] end.
  unfold ensure_generation in Hrun. run_steps; tidy.
  match goal with H : next _ = Ok _ |- _ => apply next_generation_Ok in H as [-> Hg] end.
  match goal with H : CandidateSnapshot_new _ _ _ = _ |- _ => apply CandidateSnapshot_new_Ok in H as (_ & Hnd & ->) end.
  subst. cbn. split_and!; try done.
  - by rewrite !sort_by_Permutation.
  - apply sorted_NoDup_strict; [apply sort_by_sorted|]. by rewrite sort_by_Permutation.
Qed.
Lemma publish_Err import g b b' e : publish import g b = (b', Err e) -> b' = b.
Proof.
  unfold publish. intros H. run_steps; [|done].
  match goal with H : locked _ _ _ = _ |- _ => apply locked_inv in H as [[-> _]|(s' & Hrun & -> & Hp)] end; [done|].
  destruct b as [p s]. cbn in Hp, Hrun. subst p. run_steps; done.
Qed.
#[export] Instance pool_publication_laws : PublicationLaws (Lock PoolState) AccountImport PublishReceipt AccountPoolErrorCode.
Proof.
  split; cbn; [| |done].
  - intros b b' g c r (_ & _ & Hg & _ & -> & _)%publish_Ok. by split.
  - intros b b' g c e. apply publish_Err.
Qed.
Lemma from_record_availability r : availability (from_record r) = Available <->
  record_availability r = Available /\ record_weight r <> 0.
Proof.
  unfold from_record, CandidateMetadata_new, CandidateRoutingMetadata_new. cbn.
  destruct (N.eqb_spec (record_weight r) 0); naive_solver.
Qed.
(** What a candidate of the pool projects to for a tenant. *)
Lemma project_record_Ok r tenant o : project_candidate (from_record r) tenant = Ok o ->
  AccountDomain.tenant_id (account r) = tenant /\
  match o with
  | Some ref => record_availability r = Available /\ record_weight r <> 0 /\ route_of r ref
  | None => ~ (record_availability r = Available /\ record_weight r <> 0)
  end.
Proof.
  pose proof (from_record_availability r) as Hav. unfold project_candidate, ensure_candidate_tenant.
  change (tenant_id (from_record r)) with (Some (AccountDomain.tenant_id (account r))). cbn [ok_or mbind result_bind].
  destruct (decide (AccountDomain.tenant_id (account r) = tenant)) as [Ht|Ht].
  2: { by rewrite (bool_decide_true (AccountDomain.tenant_id (account r) <> tenant)) by done. }
  rewrite (bool_decide_false (AccountDomain.tenant_id (account r) <> tenant)) by (intros Hn; by apply Hn).
  cbn [reject_if mbind result_bind]. intros H. split; [done|].
  destruct (decide (availability (from_record r) = Available)) as [Ha|Ha].
  - rewrite bool_decide_false in H by (intros Hn; by apply Hn). apply Hav in Ha as [Ha Hw].
    change (weight (from_record r)) with (record_weight r) in H. rewrite (proj2 (N.eqb_neq _ _) Hw) in H. cbn in H.
    unfold build_route_candidate, RoutingDomain.CandidateRef_new, RoutingDomain.RouteModel_parse, RoutingDomain.CandidateKey_parse in H. cbn in H.
    destruct (AccountDomain.default_model (AccountDomain.config (account r))) as [m|] eqn:Hm; [|done]. cbn in H.
    destruct (RoutingDomain.is_visible_text m _); [|done]. cbn in H.
    destruct (RoutingDomain.is_visible_text _ _); [|done]. cbn in H. injection H as <-.
    split_and!; try done. unfold route_of. cbn. by rewrite Ht.
  - rewrite bool_decide_true in H by done. cbn in H. injection H as <-. by rewrite <- Hav.
Qed.
Lemma fmap_Permutation_elem {A B} (f : A -> B) l l' : l ≡ₚ f <$> l' -> forall x, x ∈ l <-> exists y, y ∈ l' /\ x = f y.
Proof. intros Hp x. rewrite Hp, list_elem_of_fmap. naive_solver. Qed.
Lemma to_route_snapshot_Ok s rs tenant routes : candidates s ≡ₚ from_record <$> rs ->
  Forall (fun r => record_availability r = Available -> AccountDomain.status (account r) = AccountDomain.Active) rs ->
  to_route_snapshot s tenant = Ok routes ->
  RoutingDomain.snapshot_tenant_id routes = tenant /\ RoutingDomain.version routes = snapshot_version s /\
  (forall r, r ∈ rs -> AccountDomain.tenant_id (account r) = tenant) /\
  forall ref, ref ∈ RoutingDomain.candidates routes <-> exists r, r ∈ rs /\ routable r /\ route_of r ref.
Proof.
  intros Hp Hactive. rewrite Forall_forall in Hactive. unfold to_route_snapshot, RoutingDomain.route_version_new.
  destruct (snapshot_version s =? 0); [done|]. cbn [mbind result_bind].
  destruct (collect _ (candidates s)) as [projected|] eqn:Hc; [|done]. cbn [mbind result_bind].
  destruct (RoutingDomain.RouteSnapshot_new _ _ _) as [routes'|] eqn:Hr; [|done]. intros [= <-].
  apply RoutingDomain.RouteSnapshot_new_Ok in Hr as (_ & _ & _ & ->). cbn.
  apply collect_Ok in Hc. pose proof (fmap_Permutation_elem _ _ _ Hp) as Hin.
  assert (forall r, r ∈ rs -> exists o, o ∈ projected /\ project_candidate (from_record r) tenant = Ok o) as Hof.
  { intros r Hr. assert (from_record r ∈ candidates s) as Hc' by (apply Hin; by exists r).
    apply list_elem_of_lookup in Hc' as [i Hi]. destruct (Forall2_lookup_l _ _ _ _ _ Hc Hi) as (o & Ho & Hpo).
    exists o. split; [by eapply list_elem_of_lookup_2|done]. }
  split_and!; try done.
  - intros r Hr. destruct (Hof r Hr) as (o & _ & Ho). by apply project_record_Ok in Ho as [? _].
  - intros ref. rewrite list_elem_of_omap. split.
    + intros (o & Ho & ->). apply list_elem_of_lookup in Ho as [i Hi].
      destruct (Forall2_lookup_r _ _ _ _ _ Hc Hi) as (c & Hci & Hco).
      apply list_elem_of_lookup_2, Hin in Hci as (r & Hr & ->). apply project_record_Ok in Hco as (_ & Ha & Hw & Hroute).
      exists r. split_and!; try done. split_and!; try done. by apply Hactive.
    + intros (r & Hr & (Ha & Hw & _) & Hm & ->). destruct (Hof r Hr) as (o & Ho & Hpo).
      apply project_record_Ok in Hpo as [_ Hpo]. destruct o as [ref'|].
      * exists (Some ref'). split; [done|]. destruct Hpo as (_ & _ & Hm' & ->). rewrite Hm in Hm'. by injection Hm' as ->.
      * by destruct Hpo.
Qed.

(** ** Properties *)

(** A publication is the whole of its import or nothing.  The published candidates are
    those of the records, once each, in identity order, under the next generation; whatever
    tenant they are projected for, the routes are exactly those of the records that are
    available with a positive weight, and every one of them belongs to an active account of
    that tenant.  A refused publication leaves the pool as it was. *)
Theorem pool_routes_active_accounts import g pool :
  match publish import g pool with
  | (pool', Ok receipt) =>
      let s := snapshot (lock_data pool') in
      import_ok import /\ generation (lock_data pool) = g /\ generation (lock_data pool') = g + 1 /\
      s = receipt_snapshot receipt /\ snapshot_version s = g + 1 /\
      candidates s ≡ₚ from_record <$> records import /\ strictly_sorted_by id (candidates s) /\
      forall tenant routes, to_route_snapshot s tenant = Ok routes ->
        RoutingDomain.version routes = g + 1 /\
        (forall r, r ∈ records import -> AccountDomain.tenant_id (account r) = tenant) /\
        forall ref, ref ∈ RoutingDomain.candidates routes <->
          exists r, r ∈ records import /\ routable r /\ route_of r ref
  | (pool', Err _) => pool' = pool
  end.
Proof.
  destruct (publish import g pool) as [pool' [r|e]] eqn:Hp; [|by apply publish_Err in Hp].
  apply publish_Ok in Hp as (Hi & _ & Hg & _ & -> & _ & Hsnap & Hperm & Hs). cbn.
  rewrite Hsnap. cbn. split_and!; try done. intros tenant routes Hr.
  apply (to_route_snapshot_Ok _ (records import)) in Hr as (_ & Hv & Ht & Href); [done|done|by apply Hi].
Qed.
