(* ===== verification/AccountProxy.v ===== *)
(** * Account proxy profiles and their durable publication

    Models [crates/optional/ariadnion-account-proxy/src/lib.rs]: egress endpoints, region
    constraints, connectivity bounds, profiles, the immutable execution snapshot with its
    resolution, and the process-local owner with both publication paths.  The durable store
    is a trait of the source: it is a parameter here ([ProxySnapshotStore]), with its
    documented contract as a class of its own ([StoreContract]). *)

From Stdlib Require Import Ascii.
From S2P Require Import Prelude CoreTypes Publication.
From S2P Require AccountDomain.
#[local] Open Scope N_scope.

Definition MAX_PROFILE_ID_BYTES : N := 128.
Definition MAX_HOST_BYTES : N := 253.
Definition MAX_REGION_BYTES : N := 32.
Definition MAX_REGIONS : N := 64.
Definition MAX_CONNECTIONS : N := 4096.
Definition MAX_CONNECT_TIMEOUT_MS : N := 120000.
Definition MAX_REQUEST_TIMEOUT_MS : N := 900000.
Definition MAX_REDIRECTS : N := 16.
Definition MAX_PROFILES : N := N.shiftl 1 12.

Inductive AccountProxyErrorCode :=
| InvalidArgument | InvalidHost | InvalidPort | InvalidRegion | InvalidSecretReference | ConnectivityOutOfBounds
| InvalidEgressConstraint | UnsupportedScheme | DuplicateProfile | LimitExceeded | VersionConflict | VersionExhausted
| StateUnavailable | ProfileNotFound.
Definition validation_code (code : AccountProxyErrorCode) : option string :=
  match code with
  | InvalidArgument => Some "ACCOUNT_PROXY_INVALID_ARGUMENT"
  | InvalidHost => Some "ACCOUNT_PROXY_INVALID_HOST"
  | InvalidPort => Some "ACCOUNT_PROXY_INVALID_PORT"
  | InvalidRegion => Some "ACCOUNT_PROXY_INVALID_REGION"
  | InvalidSecretReference => Some "ACCOUNT_PROXY_INVALID_SECRET_REFERENCE"
  | ConnectivityOutOfBounds => Some "ACCOUNT_PROXY_CONNECTIVITY_OUT_OF_BOUNDS"
  | _ => None
  end.
Definition publication_code (code : AccountProxyErrorCode) : option string :=
  match code with
  | DuplicateProfile => Some "ACCOUNT_PROXY_DUPLICATE_PROFILE"
  | LimitExceeded => Some "ACCOUNT_PROXY_LIMIT_EXCEEDED"
  | VersionConflict => Some "ACCOUNT_PROXY_VERSION_CONFLICT"
  | VersionExhausted => Some "ACCOUNT_PROXY_VERSION_EXHAUSTED"
  | StateUnavailable => Some "ACCOUNT_PROXY_STATE_UNAVAILABLE"
  | _ => None
  end.
Definition egress_code (code : AccountProxyErrorCode) : string :=
  match code with
  | InvalidEgressConstraint => "ACCOUNT_PROXY_INVALID_EGRESS_CONSTRAINT"
  | UnsupportedScheme => "ACCOUNT_PROXY_UNSUPPORTED_SCHEME"
  | ProfileNotFound => "ACCOUNT_PROXY_PROFILE_NOT_FOUND"
  | _ => "ACCOUNT_PROXY_INVALID_ARGUMENT"
  end.
Definition as_str (code : AccountProxyErrorCode) : string :=
  match validation_code code with
  | Some code => code
  | None => match publication_code code with Some code => code | None => egress_code code end
  end.
Inductive ProxyPersistenceErrorCode := Unavailable | Conflict | Corrupt.

(** ** Profiles *)

Definition valid_ascii (value : string) (max_bytes : N) : bool :=
  negb (is_empty value) && (byte_len value <=? max_bytes) && is_ascii value &&
  all_bytes (fun b => in_range 32 126 (byte b)) value.
(** [b".-:_[]".contains(&byte)]. *)
Definition is_host_punctuation (b : ascii) : bool := existsb (fun p => byte b =? p) [46; 45; 58; 95; 91; 93].
Definition valid_host (value : string) : bool :=
  valid_ascii value MAX_HOST_BYTES && all_bytes (fun b => is_ascii_alphanumeric b || is_host_punctuation b) value.
Definition ProxyProfileId := string.
Definition ProxyProfileId_parse (value : string) : result AccountProxyErrorCode ProxyProfileId :=
  if negb (valid_ascii value MAX_PROFILE_ID_BYTES) then Err InvalidArgument else Ok value.

Inductive ProxyScheme := Http | Https | Socks5.
Definition to_ascii_lowercase (b : ascii) : ascii := if is_ascii_uppercase b then ascii_of_N (byte b + 32) else b.
Fixpoint eq_ignore_ascii_case (s t : string) : bool :=
  match s, t with
  | EmptyString, EmptyString => true
  | String a s, String b t => Ascii.eqb (to_ascii_lowercase a) (to_ascii_lowercase b) && eq_ignore_ascii_case s t
  | _, _ => false
  end.
Definition ProxyScheme_parse (value : string) : result AccountProxyErrorCode ProxyScheme :=
  if eq_ignore_ascii_case value "http" then Ok Http
  else if eq_ignore_ascii_case value "https" then Ok Https
  else if eq_ignore_ascii_case value "socks5" then Ok Socks5
  else Err UnsupportedScheme.

Inductive EgressEndpoint := Direct | Proxy (scheme : ProxyScheme) (host : string) (port : N).
Definition EgressEndpoint_proxy (scheme : ProxyScheme) (host : string) (port : N) : result AccountProxyErrorCode EgressEndpoint :=
  if negb (valid_host host) then Err InvalidHost
  else if port =? 0 then Err InvalidPort
  else Ok (Proxy scheme host port).
Definition is_direct (e : EgressEndpoint) : bool := match e with Direct => true | _ => false end.

Inductive RegionConstraint := AnyRegion | Allowlist (regions : list string) | Denylist (regions : list string).
Definition valid_region (value : string) : bool :=
  negb (is_empty value) && (byte_len value <=? MAX_REGION_BYTES) && is_ascii value &&
  all_bytes (fun b => is_ascii_lowercase b || is_ascii_digit b || (byte b =? 45)) value.
Definition validate_regions (values : list string) : result AccountProxyErrorCode unit :=
  if bool_decide (values = []) || (MAX_REGIONS <? len values) then Err InvalidRegion
  else reject_if (existsb (fun region => negb (valid_region region)) values) InvalidRegion.
Definition build_region_constraint (regions : list string) (denylist : bool) : result AccountProxyErrorCode RegionConstraint :=
  validate_regions regions ;;
  let values := sort_by (fun region => region) regions in
  reject_if (adjacent_duplicate (fun region => region) values) InvalidRegion ;;
  mret (if denylist then Denylist values else Allowlist values).
Definition allowlist (regions : list string) := build_region_constraint regions false.
Definition denylist (regions : list string) := build_region_constraint regions true.
Definition permits (c : RegionConstraint) (region : string) : bool :=
  match c with
  | AnyRegion => true
  | Allowlist regions => existsb (fun entry => String.eqb entry region) regions
  | Denylist regions => negb (existsb (fun entry => String.eqb entry region) regions)
  end.

Record ConnectivityPolicy := mk_ConnectivityPolicy {
  connect_timeout_ms : N; request_timeout_ms : N; max_connections : N; max_redirects : N;
}.
Definition bounded_connectivity (value maximum : N) : result AccountProxyErrorCode N :=
  if value =? 0 then Err ConnectivityOutOfBounds
  else if maximum <? value then Err ConnectivityOutOfBounds
  else Ok value.
Definition ConnectivityPolicy_new (connect_timeout_ms request_timeout_ms max_connections max_redirects : N)
    : result AccountProxyErrorCode ConnectivityPolicy :=
  connect_timeout_ms ← bounded_connectivity connect_timeout_ms MAX_CONNECT_TIMEOUT_MS;
  request_timeout_ms ← bounded_connectivity request_timeout_ms MAX_REQUEST_TIMEOUT_MS;
  max_connections ← bounded_connectivity max_connections MAX_CONNECTIONS;
  reject_if (MAX_REDIRECTS <? max_redirects) ConnectivityOutOfBounds ;;
  mret (mk_ConnectivityPolicy connect_timeout_ms request_timeout_ms max_connections max_redirects).

Record AccountProxyProfile := mk_AccountProxyProfile {
  id : ProxyProfileId;
  endpoint : EgressEndpoint;
  authentication : option AccountDomain.SecretRef;
  regions : RegionConstraint;
  connectivity : ConnectivityPolicy;
}.
Definition AccountProxyProfile_new (id : ProxyProfileId) (endpoint : EgressEndpoint)
    (authentication : option AccountDomain.SecretRef) (regions : RegionConstraint) (connectivity : ConnectivityPolicy)
    : result AccountProxyErrorCode AccountProxyProfile :=
  if is_direct endpoint && bool_decide (is_Some authentication) then Err InvalidSecretReference
  else Ok (mk_AccountProxyProfile id endpoint authentication regions connectivity).
Definition permits_region (p : AccountProxyProfile) (region : string) : bool := permits (regions p) region.

(** ** Snapshots *)

Definition ProxyGeneration_new (value : N) : result AccountProxyErrorCode N := if value =? 0 then Err InvalidArgument else Ok value.
Definition next (generation : N) : result AccountProxyErrorCode N := next_generation VersionExhausted generation.
Record ProxyExecutionDescriptor := mk_ProxyExecutionDescriptor { descriptor_generation : N; profile : AccountProxyProfile }.
Record ProxyExecutionSnapshot := mk_ProxyExecutionSnapshot { generation : N; profiles : list AccountProxyProfile }.
Definition ProxyExecutionSnapshot_new (generation : N) (profiles : list AccountProxyProfile)
    : result AccountProxyErrorCode ProxyExecutionSnapshot :=
  reject_if (MAX_PROFILES <? len profiles) LimitExceeded ;;
  let profiles := sort_by id profiles in
  reject_if (adjacent_duplicate id profiles) DuplicateProfile ;;
  mret (mk_ProxyExecutionSnapshot generation profiles).
Definition resolve (s : ProxyExecutionSnapshot) (profile_id : ProxyProfileId) : result AccountProxyErrorCode ProxyExecutionDescriptor :=
  profile ← ok_or (binary_search (fun candidate => cmp (id candidate) profile_id) (profiles s)) ProfileNotFound;
  mret (mk_ProxyExecutionDescriptor (generation s) profile).

(** ** The owner and the durable store *)

Record ProxyPublishRequest := mk_ProxyPublishRequest { expected_generation : N; request_snapshot : ProxyExecutionSnapshot }.
Record ProxyPublishReceipt := mk_ProxyPublishReceipt { receipt_generation : N }.

(** The trait [ProxySnapshotStore], over the state [W] of the backing store. *)
Class ProxySnapshotStore (W : Type) := {
  store_load : W -> result ProxyPersistenceErrorCode ProxyExecutionSnapshot;
  store_publish : ProxyPublishRequest -> act W ProxyPersistenceErrorCode ProxyPublishReceipt;
}.

Definition AtomicProxyExecutionBook := Lock ProxyExecutionSnapshot.
Definition AtomicProxyExecutionBook_new (initial : ProxyExecutionSnapshot) : AtomicProxyExecutionBook := mk_lock false initial.
Definition load_from_store {W} `{ProxySnapshotStore W} (w : W) : result ProxyPersistenceErrorCode AtomicProxyExecutionBook :=
  snapshot ← store_load w; mret (AtomicProxyExecutionBook_new snapshot).
Definition current_snapshot : act AtomicProxyExecutionBook AccountProxyErrorCode ProxyExecutionSnapshot :=
  locked StateUnavailable get.
Definition publish (expected : N) (next_snapshot : ProxyExecutionSnapshot)
    : act AtomicProxyExecutionBook AccountProxyErrorCode ProxyExecutionSnapshot :=
  locked StateUnavailable (
    current ← get;
    lift (reject_if (negb (generation current =? expected)) VersionConflict) ;;
    required ← lift (next (generation current));
    lift (reject_if (negb (generation next_snapshot =? required)) VersionConflict) ;;
    put next_snapshot ;;
    mret next_snapshot).
Definition validate_durable_successor (current expected next_generation : N) : result ProxyPersistenceErrorCode unit :=
  if negb (current =? expected) then Err Conflict
  else required ← match next current with Ok required => Ok required | Err _ => Err Conflict end;
       reject_if (negb (next_generation =? required)) Conflict.
(** The write lock is held while the store is called: the body runs on the book and the store. *)
Definition publish_durable {W} `{ProxySnapshotStore W} (expected : N) (next_snapshot : ProxyExecutionSnapshot)
    : act (AtomicProxyExecutionBook * W) ProxyPersistenceErrorCode ProxyExecutionSnapshot :=
  fun '(book, w) =>
    if lock_poisoned book then ((book, w), Err Unavailable)
    else
      let current := lock_data book in
      match validate_durable_successor (generation current) expected (generation next_snapshot) with
      | Err e => ((book, w), Err e)
      | Ok _ =>
          let '(w, receipt) := store_publish (mk_ProxyPublishRequest expected next_snapshot) w in
          match receipt with
          | Err e => ((book, w), Err e)
          | Ok receipt =>
              if negb (receipt_generation receipt =? generation next_snapshot) then ((book, w), Err Corrupt)
              else ((mk_lock false next_snapshot, w), Ok next_snapshot)
          end
      end.

(** ** Specification *)

(** The contract the trait documents.  [committed] lists the snapshots that became durable,
    the latest first: a request is persisted as a whole or not at all, only when its expected
    generation is the latest one, and a receipt is never given without a commit of the
    requested generation.  A failed call may still have committed. *)
Class StoreContract (W : Type) `{ProxySnapshotStore W} := {
  committed : W -> list ProxyExecutionSnapshot;
  load_latest (w : W) s : store_load w = Ok s -> head (committed w) = Some s;
  publish_atomic (w w' : W) req r : store_publish req w = (w', r) ->
    committed w' = committed w \/
    committed w' = request_snapshot req :: committed w /\
    generation <$> head (committed w) = Some (expected_generation req);
  publish_receipt (w w' : W) req r : store_publish req w = (w', Ok r) ->
    receipt_generation r = generation (request_snapshot req) /\ committed w' = request_snapshot req :: committed w;
}.

Definition newest_first : list ProxyExecutionSnapshot -> Prop := StronglySorted (fun s t => generation t < generation s).

Section durable.
  Context {W : Type} {store : ProxySnapshotStore W} {contract : StoreContract W}.
  Implicit Types (w : W) (book : AtomicProxyExecutionBook).

(** Durable publications of this process, and those other processes make to the same store. *)
Inductive durable_step : AtomicProxyExecutionBook * W -> AtomicProxyExecutionBook * W -> Prop :=
| durable_publish expected s st st' r : publish_durable expected s st = (st', r) -> durable_step st st'
| durable_other expected s book w w' r : generation s = expected + 1 ->
    store_publish (mk_ProxyPublishRequest expected s) w = (w', r) -> durable_step (book, w) (book, w').

(** What readers see is durable, and the log of the store only grows. *)
Definition durable_inv (log0 : list ProxyExecutionSnapshot) (least : N) (st : AtomicProxyExecutionBook * W) : Prop :=
  newest_first (committed st.2) /\ lock_data st.1 ∈ committed st.2 /\ log0 `suffix_of` committed st.2 /\
  least <= generation (lock_data st.1).

Lemma validate_durable_successor_Ok current expected g u :
  validate_durable_successor current expected g = Ok u -> expected = current /\ g = current + 1.
Proof.
  unfold validate_durable_successor, next. destruct (N.eqb_spec current expected) as [->|]; [|done]. cbn.
  destruct (next_generation _ expected) as [required|] eqn:Hn; [|done]. apply next_generation_Ok in Hn as [-> _]. cbn.
  destruct (N.eqb_spec g (expected + 1)) as [->|]; done.
Qed.
Lemma newest_first_push s l : newest_first l -> (generation <$> head l) = Some (generation s - 1) -> 0 < generation s ->
  newest_first (s :: l).
Proof.
  intros Hl Hg Hpos. constructor; [done|]. destruct Hl as [|t l Hl Ht]; [constructor|]. cbn in Hg. injection Hg as Hg.
  constructor; [lia|]. eapply Forall_impl; [exact Ht|]. cbn. lia.
Qed.
(** One call of the store, by whomever. *)
Lemma store_publish_inv log0 w w' expected s r : generation s = expected + 1 ->
  store_publish (mk_ProxyPublishRequest expected s) w = (w', r) -> newest_first (committed w) ->
  log0 `suffix_of` committed w ->
  newest_first (committed w') /\ log0 `suffix_of` committed w' /\ (forall t, t ∈ committed w -> t ∈ committed w').
Proof.
  intros Hs [->|[-> Hhead]]%publish_atomic Hn Hsuf; [by split_and!|]. cbn in *. split_and!.
  - apply newest_first_push; [done| |lia]. rewrite Hhead. f_equal. lia.
  - by apply suffix_cons_r.
  - intros t Ht. by right.
Qed.
Lemma durable_step_inv log0 least st st' : durable_step st st' -> durable_inv log0 least st -> durable_inv log0 least st'.
Proof.
  intros [expected s [book w] st'' r Hp|expected s book w w' r Hs Hp] (Hn & Hin & Hsuf & Hleast); cbn in *.
  2: { destruct (store_publish_inv log0 w w' expected s r) as (? & ? & Hkeep); try done. split_and!; cbn; auto. }
  unfold publish_durable in Hp. destruct (lock_poisoned book); [by injection Hp as <- _|].
  destruct (validate_durable_successor _ _ _) as [u|] eqn:Hv; [|by injection Hp as <- _].
  apply validate_durable_successor_Ok in Hv as [-> Hs].
  destruct (store_publish _ w) as [w' receipt] eqn:Hcall.
  destruct (store_publish_inv log0 w w' _ s receipt Hs Hcall Hn Hsuf) as (Hn' & Hsuf' & Hkeep).
  destruct receipt as [receipt|]; [|injection Hp as <- _; split_and!; cbn; auto].
  destruct (negb _); injection Hp as <- _; split_and!; cbn; auto; [|lia].
  apply publish_receipt in Hcall as [_ ->]. by left.
Qed.
End durable.

Lemma ProxyExecutionSnapshot_new_Ok g ps s : ProxyExecutionSnapshot_new g ps = Ok s <->
  len ps <= MAX_PROFILES /\ NoDup (id <$> ps) /\ s = mk_ProxyExecutionSnapshot g (sort_by id ps).
Proof.
  unfold ProxyExecutionSnapshot_new. destruct (N.ltb_spec MAX_PROFILES (len ps)); cbn.
  { split; [done|]. intros [? _]. lia. }
  rewrite <- (adjacent_duplicate_perm id). destruct (adjacent_duplicate id _); cbn; [by split; [|intros (_ & ? & _)]|].
  split; [by intros [= <-]|by intros (_ & _ & ->)].
Qed.
(** Resolution in a validated snapshot: the profile of that identity, under its generation. *)
Lemma resolve_Ok g ps s pid d : ProxyExecutionSnapshot_new g ps = Ok s ->
  resolve s pid = Ok d <-> descriptor_generation d = g /\ profile d ∈ ps /\ id (profile d) = pid.
Proof.
  intros (_ & Hnd & ->)%ProxyExecutionSnapshot_new_Ok. unfold resolve. cbn.
  assert (strictly_sorted_by id (sort_by id ps)) as Hs.
  { apply sorted_NoDup_strict; [apply sort_by_sorted|by rewrite sort_by_Permutation]. }
  assert (forall p, binary_search (fun c => cmp (id c) pid) (sort_by id ps) = Some p <-> p ∈ ps /\ id p = pid) as Hb.
  { intros p. rewrite (binary_search_spec id pid) by done. by rewrite sort_by_Permutation. }
  destruct (binary_search _ _) as [p|] eqn:Hp; cbn; split.
  - intros [= <-]. destruct (proj1 (Hb p) eq_refl). by split_and!.
  - intros (Hg & Hin & Hid). destruct d as [g' q]; cbn in *. subst g'.
    assert (Some p = Some q) as [= ->] by (by apply Hb). done.
  - done.
  - intros (_ & Hin & Hid). assert (None = Some (profile d)) by (by apply Hb); done.
Qed.
Lemma permits_spec regions (deny : bool) c : build_region_constraint regions deny = Ok c ->
  Forall valid_region regions /\ NoDup regions /\
  forall region, permits c region = true <-> (if deny then region ∉ regions else region ∈ regions).
Proof.
  unfold build_region_constraint, validate_regions. intros H.
  destruct (_ || _); [done|]. cbn in H. destruct (existsb _ regions) eqn:He; [done|]. cbn in H.
  destruct (adjacent_duplicate _ _) eqn:Hd; [done|]. cbn in H. injection H as <-.
  apply (adjacent_duplicate_perm (fun region : string => region)) in Hd. rewrite list_fmap_id in Hd.
  assert (forall region : string, existsb (fun entry => String.eqb entry region) (sort_by (fun region => region) regions) = true <-> region ∈ regions) as Hex.
  { intros region. rewrite existsb_exists. setoid_rewrite <- list_elem_of_In. setoid_rewrite String.eqb_eq.
    setoid_rewrite (sort_by_Permutation (fun region : string => region) regions). naive_solver. }
  split_and!; [|done|].
  - apply Forall_forall. intros region Hr. destruct (valid_region region) eqn:Hv; [done|].
    assert (existsb (fun region => negb (valid_region region)) regions = true) as Ht; [|congruence].
    apply existsb_exists. exists region. rewrite Hv. split; [by apply list_elem_of_In|done].
  - intros region. destruct deny; cbn; [rewrite negb_true_iff|]; rewrite <- Hex; [|done].
    by rewrite not_true_iff_false.
Qed.
Lemma proxy_publish_Ok expected s b b' r : publish expected s b = (b', Ok r) ->
  generation (lock_data b) = expected /\ generation s = expected + 1 /\ b' = mk_lock false s /\ r = s.
Proof.
  unfold publish. intros [[_ [=]]|(s' & Hrun & -> & _)]%locked_inv. run_steps; tidy.
  match goal with H : next _ = Ok _ |- _ => apply next_generation_Ok in H as [-> _] end. split_and!; congruence.
Qed.
Lemma proxy_publish_Err expected s b b' e : publish expected s b = (b', Err e) -> b' = b.
Proof.
  unfold publish. intros [[-> _]|(s' & Hrun & -> & Hp)]%locked_inv; [done|].
  destruct b as [p current]. cbn in Hp, Hrun. subst p. run_steps; done.
Qed.
#[export] Instance proxy_publication : Publication AtomicProxyExecutionBook ProxyExecutionSnapshot ProxyExecutionSnapshot AccountProxyErrorCode := {|
  generation_of b := generation (lock_data b); publish_to := publish; background _ _ := False;
|}.
#[export] Instance proxy_publication_laws : PublicationLaws AtomicProxyExecutionBook ProxyExecutionSnapshot ProxyExecutionSnapshot AccountProxyErrorCode.
Proof.
  split; cbn; [| |done].
  - intros b b' g c r (Hg & Hn & -> & _)%proxy_publish_Ok. by split.
  - intros b b' g c e. apply proxy_publish_Err.
Qed.

(** ** Properties *)

(** C36: whatever the processes sharing a store that honours its documented contract do,
    and whatever the calls of the store return, a reader of the process-local owner only ever
    sees a snapshot that is durable: the one it sees is in the log of the store, no other
    committed snapshot has its generation, the log the owner was loaded from is never
    rewritten, and the generation a reader sees never goes back. *)
Theorem memory_is_durable {W} {store : ProxySnapshotStore W} {contract : StoreContract W} (w0 w : W) book0 book
    (Hload : load_from_store w0 = Ok book0) (Hlog : newest_first (committed w0))
    (Hsteps : rtc durable_step (book0, w0) (book, w)) :
  lock_data book ∈ committed w /\
  (forall s, s ∈ committed w -> generation s = generation (lock_data book) -> s = lock_data book) /\
  committed w0 `suffix_of` committed w /\ generation (lock_data book0) <= generation (lock_data book).
Proof.
  assert (durable_inv (committed w0) (generation (lock_data book0)) (book0, w0)) as Hinv.
  { unfold load_from_store in Hload. destruct (store_load w0) as [s|] eqn:Hs; [|done]. injection Hload as <-.
    apply load_latest in Hs. split_and!; cbn; try done. destruct (committed w0); [done|]. injection Hs as ->. by left. }
  assert (durable_inv (committed w0) (generation (lock_data book0)) (book, w)) as (Hn & Hin & Hsuf & Hle).
  { revert Hinv. generalize (committed w0) at 1 2; intros log0. generalize (generation (lock_data book0)); intros least Hinv.
    remember (book, w) as st eqn:Hst. clear Hst. induction Hsteps as [|st st1 st2 Hstep _ IH]; [done|].
    apply IH. by eapply durable_step_inv. }
  cbn in *. split_and!; try done. intros s Hs Hg. clear Hsuf Hsteps. revert Hs Hin Hg. induction Hn as [|t l _ IH Ht]; [by intros ?%not_elem_of_nil|].
  rewrite Forall_forall in Ht. intros [->|Hs]%elem_of_cons [Hb|Hb]%elem_of_cons Hg; try done.
  - specialize (Ht _ Hb). lia.
  - rewrite Hb in Hg. specialize (Ht _ Hs). lia.
  - by apply IH.
Qed.

(** A store that keeps its log in memory: it honours the contract. *)
#[local] Instance sample_store : ProxySnapshotStore (list ProxyExecutionSnapshot) := {|
  store_load w := ok_or (head w) Unavailable;
  store_publish req w :=
    if bool_decide (generation <$> head w = Some (expected_generation req))
    then (request_snapshot req :: w, Ok (mk_ProxyPublishReceipt (generation (request_snapshot req))))
    else (w, Err Conflict);
|}.
#[local] Program Instance sample_contract : StoreContract (list ProxyExecutionSnapshot) := {| committed w := w |}.
Next Obligation. intros w s. cbn. by rewrite ok_or_Ok. Qed.
Next Obligation. intros w w' req r. cbn. case_bool_decide; intros [= <- <-]; auto. Qed.
Next Obligation. intros w w' req r. cbn. case_bool_decide; intros [= <- <-]; auto. Qed.
Definition sample_snapshot (g : N) : ProxyExecutionSnapshot := mk_ProxyExecutionSnapshot g [].
Lemma memory_is_durable_witness : lock_data (mk_lock false (sample_snapshot 2)) ∈ [sample_snapshot 2; sample_snapshot 1].
Proof.
  refine (proj1 (memory_is_durable [sample_snapshot 1] [sample_snapshot 2; sample_snapshot 1]
    (mk_lock false (sample_snapshot 1)) (mk_lock false (sample_snapshot 2)) _ _ _)); [reflexivity|repeat constructor|].
  apply rtc_once, (durable_publish 1 (sample_snapshot 2) _ _ (Ok (sample_snapshot 2))). vm_compute. reflexivity.
Defined.
