(* ===== verification/RouteSelection.v ===== *)
(** * Route selection

    Models the pure part of [crates/optional/ariadnion-routing-coordinator/src]: requests and
    snapshots ([lib.rs], [proxy.rs]), the retry plan ([retry.rs]) and, from [engine.rs], the
    pipeline that filters the candidates of a pool snapshot through every signal, prices
    them, selects one and explains the others.  The admission that follows is in
    [RoutingCoordinator].  The optional [wasm-policy] feature, off by default, is left out. *)

From Stdlib Require Import Ascii.
From S2P Require Import Prelude CoreTypes.
From S2P Require AccountDomain AccountPool AccountHealth AccountCircuit AccountQuota AccountSchedule.
From S2P Require AccountProxy AccountAffinity AccountBudget ModelDomain ModelCatalog ModelPricing.
From S2P Require RoutingCost RoutingPolicy RoutingFailover RoutingDomain RateLimit.
#[local] Open Scope N_scope.

Definition MAX_CANDIDATES : N := N.shiftl 1 17.
Definition MAX_DESTINATION_REGION_BYTES : N := N.shiftl 1 7.
Definition MAX_RETAINED_EXCLUSIONS : N := N.shiftl 1 12.

Inductive CoordinatorErrorCode :=
| InvalidArgument | TenantMismatch | ModelNotFound | CapabilityMismatch | MissingSignalError | NoEligibleCandidate
| PricingUnavailable | RateLimited | ConcurrencyLimited | BudgetRejected | AdmissionUnavailable | PolicyUnavailable
| StateUnavailable.
Definition request_code (code : CoordinatorErrorCode) : string :=
  match code with
  | TenantMismatch => "ROUTING_COORDINATOR_TENANT_MISMATCH"
  | ModelNotFound => "ROUTING_COORDINATOR_MODEL_NOT_FOUND"
  | CapabilityMismatch => "ROUTING_COORDINATOR_CAPABILITY_MISMATCH"
  | _ => "ROUTING_COORDINATOR_INVALID_ARGUMENT"
  end.
Definition signal_code (code : CoordinatorErrorCode) : string :=
  match code with
  | MissingSignalError => "ROUTING_COORDINATOR_MISSING_SIGNAL"
  | NoEligibleCandidate => "ROUTING_COORDINATOR_NO_ELIGIBLE_CANDIDATE"
  | PricingUnavailable => "ROUTING_COORDINATOR_PRICING_UNAVAILABLE"
  | _ => "ROUTING_COORDINATOR_INVALID_ARGUMENT"
  end.
Definition runtime_code (code : CoordinatorErrorCode) : string :=
  match code with
  | RateLimited => "ROUTING_COORDINATOR_RATE_LIMITED"
  | ConcurrencyLimited => "ROUTING_COORDINATOR_CONCURRENCY_LIMITED"
  | BudgetRejected => "ROUTING_COORDINATOR_BUDGET_REJECTED"
  | AdmissionUnavailable => "ROUTING_COORDINATOR_ADMISSION_UNAVAILABLE"
  | PolicyUnavailable => "ROUTING_COORDINATOR_POLICY_UNAVAILABLE"
  | StateUnavailable => "ROUTING_COORDINATOR_STATE_UNAVAILABLE"
  | _ => "ROUTING_COORDINATOR_INVALID_ARGUMENT"
  end.
Definition as_str (code : CoordinatorErrorCode) : string :=
  match code with
  | InvalidArgument | TenantMismatch | ModelNotFound | CapabilityMismatch => request_code code
  | MissingSignalError | NoEligibleCandidate | PricingUnavailable => signal_code code
  | _ => runtime_code code
  end.

Inductive SignalKind :=
| HealthSignal | CircuitSignal | QuotaSignal | ScheduleSignal | ProxySignal | AffinitySignal | PricingSignal | RoutingPolicySignal.
#[export] Instance SignalKind_eq_dec : EqDecision SignalKind.
Proof. solve_decision. Defined.
(** The derived [Ord] of the declaration order, in which a [BTreeSet] is listed. *)
Definition ALL_SIGNALS : list SignalKind :=
  [HealthSignal; CircuitSignal; QuotaSignal; ScheduleSignal; ProxySignal; AffinitySignal; PricingSignal; RoutingPolicySignal].
Definition Degradations := list SignalKind.
Definition degrade (signal : SignalKind) (d : Degradations) : Degradations := if decide (signal ∈ d) then d else signal :: d.
Definition degradation_list (d : Degradations) : list SignalKind := List.filter (fun s => bool_decide (s ∈ d)) ALL_SIGNALS.

Inductive CandidateExclusionReason :=
| PoolUnavailable | ModelMappingMissing | MissingSignal (signal : SignalKind) | Unhealthy | CircuitOpen | CircuitHalfOpen
| QuotaExhausted | ScheduleClosed | ProxyUnavailable | ProxyRegionDenied | MissingPrice | HardCostLimit | AboveSoftCostLimit
| LowerPriority | HigherEffectiveLoad | StableTieBreak | AffinityPreferred | WasmPolicyPreferred.
#[export] Instance CandidateExclusionReason_eq_dec : EqDecision CandidateExclusionReason.
Proof. solve_decision. Defined.
Record CandidateExclusion := mk_CandidateExclusion { excluded : RoutingFailover.CandidateKey; reason : CandidateExclusionReason }.

(** ** Errors ([CoordinatorError]) *)

Record RoutingRetryPlan := mk_RoutingRetryPlan { planner : RoutingFailover.FailoverPlan; retry_operation : RoutingFailover.OperationSafety }.
Definition decide_attempt (plan : RoutingRetryPlan) (candidate : RoutingFailover.CandidateKey) (attempt : N)
    (stream : RoutingFailover.StreamCommitment) (failure : RoutingFailover.FailureClass)
    : result RoutingFailover.FailoverErrorCode RoutingFailover.FailoverDecision :=
  context ← RoutingFailover.AttemptContext_new candidate attempt (retry_operation plan) stream;
  RoutingFailover.decide_failure (planner plan) context failure.
Definition decide_attempt_outcome (plan : RoutingRetryPlan) (candidate : RoutingFailover.CandidateKey) (attempt : N)
    (stream : RoutingFailover.StreamCommitment) (outcome : RoutingFailover.AttemptOutcome)
    : result RoutingFailover.FailoverErrorCode RoutingFailover.AttemptDecision :=
  context ← RoutingFailover.AttemptContext_new candidate attempt (retry_operation plan) stream;
  RoutingFailover.decide_outcome (planner plan) context outcome.

Record InitialAdmissionRetryContext := mk_InitialAdmissionRetryContext {
  retry_candidate : RoutingFailover.CandidateKey; retry_plan_kept : RoutingRetryPlan;
}.
Record CoordinatorError := mk_CoordinatorError {
  error_code : CoordinatorErrorCode;
  error_exclusions : list CandidateExclusion;
  error_truncated : bool;
  error_retry_after : option N;
  admission_scope : option RateLimit.AdmissionRefusalScope;
  initial_admission_retry_context : option InitialAdmissionRetryContext;
}.
#[export] Instance CoordinatorError_eta : Eta CoordinatorError := fun e =>
  mk_CoordinatorError (error_code e) (error_exclusions e) (error_truncated e) (error_retry_after e) (admission_scope e)
    (initial_admission_retry_context e).
Definition error (code : CoordinatorErrorCode) : CoordinatorError := mk_CoordinatorError code [] false None None None.
Definition with_retry_after (code : CoordinatorErrorCode) (retry_after : option N) : CoordinatorError :=
  mk_CoordinatorError code [] false retry_after None None.
(** [dedup_by] keeps the first of equal neighbours. *)
Fixpoint dedup (l : list CandidateExclusion) : list CandidateExclusion :=
  match l with
  | x :: l' =>
      match dedup l' with
      | y :: l'' => if bool_decide (excluded x = excluded y) then x :: l'' else x :: y :: l''
      | [] => [x]
      end
  | [] => []
  end.
Definition bound_exclusions (l : list CandidateExclusion) : list CandidateExclusion * bool :=
  let l := dedup (sort_by excluded l) in
  (take (N.to_nat MAX_RETAINED_EXCLUSIONS) l, MAX_RETAINED_EXCLUSIONS <? len l).
Definition with_exclusions (code : CoordinatorErrorCode) (l : list CandidateExclusion) : CoordinatorError :=
  let '(exclusions, truncated) := bound_exclusions l in mk_CoordinatorError code exclusions truncated None None None.
Definition attach_initial_admission_retry_context (e : CoordinatorError) (candidate : RoutingFailover.CandidateKey)
    (plan : RoutingRetryPlan) : CoordinatorError :=
  match admission_scope e with
  | Some RateLimit.AccountRefusal => e <| initial_admission_retry_context := Some (mk_InitialAdmissionRetryContext candidate plan) |>
  | _ => e
  end.
(** A failed conversion between two components: [map_err(|_| CoordinatorError::new(code))]. *)
Definition or_fail {E A} (code : CoordinatorErrorCode) (r : result E A) : result CoordinatorError A :=
  match r with Ok a => Ok a | Err _ => Err (error code) end.

(** ** Requests and snapshots *)

Inductive MissingSignalPolicy := FailClosed | AllowWithDegradation.
#[export] Instance MissingSignalPolicy_eq_dec : EqDecision MissingSignalPolicy.
Proof. solve_decision. Defined.
Record OptionalSnapshot (T : Type) := mk_OptionalSnapshot { snapshot_value : option T; missing_policy : MissingSignalPolicy }.
Arguments mk_OptionalSnapshot {T} _ _.
Arguments snapshot_value {T} _.
Arguments missing_policy {T} _.

Definition is_region_byte (b : ascii) : bool :=
  is_ascii_lowercase b || is_ascii_digit b || existsb (fun p => byte b =? p) [46; 45; 95].
Definition valid_destination_region (value : string) : bool :=
  match value with
  | EmptyString => false
  | String first _ => is_ascii_lowercase first && (byte_len value <=? MAX_DESTINATION_REGION_BYTES) && all_bytes is_region_byte value
  end.
Definition DestinationRegion := string.
Definition DestinationRegion_parse (value : string) : result CoordinatorError DestinationRegion :=
  if negb (valid_destination_region value) then Err (error InvalidArgument) else Ok value.
Inductive ProxyAvailability := ProxyIsAvailable | ProxyIsUnavailable.
Record ProxyRoutingProfile := mk_ProxyRoutingProfile {
  proxy_account_id : AccountId; proxy_profile_of : AccountProxy.AccountProxyProfile; proxy_availability : ProxyAvailability;
}.

Record AdmissionTimes := mk_AdmissionTimes { monotonic_now : N; budget_now : N; budget_expires_at : N; circuit_now : N }.
Definition new_with_circuit_time (monotonic_now budget_now budget_expires_at circuit_now : N) : result CoordinatorError AdmissionTimes :=
  if (budget_expires_at <=? budget_now) || negb (circuit_now / 1000 =? budget_now) then Err (error InvalidArgument)
  else Ok (mk_AdmissionTimes monotonic_now budget_now budget_expires_at circuit_now).
Definition AdmissionTimes_new (monotonic_now budget_now budget_expires_at : N) : result CoordinatorError AdmissionTimes :=
  circuit_now ← ok_or (checked_mul u64_max budget_now 1000) (error InvalidArgument);
  new_with_circuit_time monotonic_now budget_now budget_expires_at circuit_now.
Record AdmissionTemplate := mk_AdmissionTemplate {
  template_reservation : AccountBudget.ReservationId; template_units : N; times : AdmissionTimes;
  template_group : option AccountBudget.GroupId;
}.
Record PricingRequest := mk_PricingRequest {
  dimension : ModelPricing.PriceDimension; quantity : N; constraints : RoutingCost.CostConstraints;
}.
Record RetryPolicy := mk_RetryPolicy { operation : RoutingFailover.OperationSafety; retry_max_attempts : N }.
Definition RetryPolicy_new (operation : RoutingFailover.OperationSafety) (max_attempts : N) : result CoordinatorError RetryPolicy :=
  if negb (in_range 1 RoutingFailover.MAX_ATTEMPTS max_attempts) then Err (error InvalidArgument)
  else Ok (mk_RetryPolicy operation max_attempts).
Record CoordinationRequest := mk_CoordinationRequest {
  context : RoutingDomain.RoutingContext;
  destination_region : option DestinationRegion;
  pricing_timestamp : N;
  pricing : PricingRequest;
  admission : AdmissionTemplate;
  retry : RetryPolicy;
  affinity : option (AccountAffinity.AffinityKey * N);
}.
#[export] Instance CoordinationRequest_eta : Eta CoordinationRequest := fun r =>
  mk_CoordinationRequest (context r) (destination_region r) (pricing_timestamp r) (pricing r) (admission r) (retry r) (affinity r).
Definition with_affinity (r : CoordinationRequest) (key : AccountAffinity.AffinityKey) (now : N) : result CoordinatorError CoordinationRequest :=
  if bool_decide (AccountAffinity.tenant_id key <> RoutingDomain.tenant_id (context r)) then Err (error TenantMismatch)
  else Ok (r <| affinity := Some (key, now) |>).

Record EligibilitySnapshots := mk_EligibilitySnapshots {
  health : OptionalSnapshot (list AccountHealth.HealthSnapshot);
  circuit : OptionalSnapshot (list AccountCircuit.CircuitSnapshot);
  quota : OptionalSnapshot AccountQuota.QuotaState;
  schedule : OptionalSnapshot AccountSchedule.ScheduleSnapshot;
  proxy : OptionalSnapshot (list ProxyRoutingProfile);
}.
Record CoordinationSnapshots := mk_CoordinationSnapshots {
  pool : AccountPool.CandidateSnapshot;
  models : ModelCatalog.ModelCatalogSnapshot;
  pricing_catalog : OptionalSnapshot (list ModelPricing.ModelPricingSchedule);
  eligibility : EligibilitySnapshots;
  affinity_snapshot : OptionalSnapshot AccountAffinity.AffinitySnapshot;
}.

(** *** Scope of a retried request *)

#[export] Instance PriceDimension_eq_dec : EqDecision ModelPricing.PriceDimension.
Proof. solve_decision. Defined.
#[export] Instance CostConstraints_eq_dec : EqDecision RoutingCost.CostConstraints.
Proof. solve_decision. Defined.
#[export] Instance PricingRequest_eq_dec : EqDecision PricingRequest.
Proof. solve_decision. Defined.
#[export] Instance OperationSafety_eq_dec : EqDecision RoutingFailover.OperationSafety.
Proof. solve_decision. Defined.
#[export] Instance RetryPolicy_eq_dec : EqDecision RetryPolicy.
Proof. solve_decision. Defined.
#[export] Existing Instances AccountAffinity.AffinityKey_eq_dec AccountPool.Availability_eq_dec AccountPool.CandidateMetadata_eq_dec
  RoutingPolicy.Candidate_eq_dec.
Definition affinity_key (r : CoordinationRequest) : option AccountAffinity.AffinityKey := fst <$> affinity r.
Definition has_same_required_capabilities (r other : CoordinationRequest) : bool :=
  let required := RoutingDomain.required_capabilities (context r) in
  let other_required := RoutingDomain.required_capabilities (context other) in
  (len required =? len other_required) && forallb (fun c => bool_decide (c ∈ other_required)) required.
Definition has_same_request_context (r other : CoordinationRequest) : bool :=
  bool_decide (RoutingDomain.tenant_id (context r) = RoutingDomain.tenant_id (context other)) &&
  bool_decide (RoutingDomain.request_id (context r) = RoutingDomain.request_id (context other)) &&
  String.eqb (RoutingDomain.model (context r)) (RoutingDomain.model (context other)) &&
  has_same_required_capabilities r other.
Definition has_same_routing_scope (r other : CoordinationRequest) : bool :=
  has_same_request_context r other &&
  bool_decide (destination_region r = destination_region other) &&
  bool_decide (pricing r = pricing other) &&
  (template_units (admission r) =? template_units (admission other)) &&
  bool_decide (template_group (admission r) = template_group (admission other)) &&
  bool_decide (retry r = retry other) &&
  bool_decide (affinity_key r = affinity_key other).

(** ** The pipeline ([engine.rs]) *)

Record CandidateState := mk_CandidateState {
  source : AccountPool.CandidateMetadata;
  key : RoutingFailover.CandidateKey;
  provider_model : option ModelDomain.ProviderModelId;
  proxy_profile : option AccountProxy.AccountProxyProfile;
  quote : option ModelPricing.PriceQuote;
  exclusion : option CandidateExclusionReason;
}.
#[export] Instance CandidateState_eta : Eta CandidateState := fun s =>
  mk_CandidateState (source s) (key s) (provider_model s) (proxy_profile s) (quote s) (exclusion s).
Definition eligible (s : CandidateState) : bool := match exclusion s with None => true | Some _ => false end.
Definition exclude (reason : CandidateExclusionReason) (s : CandidateState) : CandidateState :=
  match exclusion s with None => s <| exclusion := Some reason |> | Some _ => s end.

(** A pass over [states.iter_mut().filter(|state| state.eligible())], with the degradations it records. *)
Definition pass := CandidateState -> Degradations -> result CoordinatorError (CandidateState * Degradations).
Fixpoint each_eligible (body : pass) (states : list CandidateState) (d : Degradations)
    : result CoordinatorError (list CandidateState * Degradations) :=
  match states with
  | [] => mret ([], d)
  | s :: states =>
      '(s, d) ← (if eligible s then body s d else mret (s, d));
      '(states, d) ← each_eligible body states d;
      mret (s :: states, d)
  end.

(** *** The requested model *)

Definition map_text_capability (value : string) : option ModelDomain.ModelCapability :=
  if String.eqb value "model.text-generation" then Some ModelDomain.TextGeneration
  else if String.eqb value "model.text-streaming" then Some ModelDomain.TextStreaming
  else if String.eqb value "model.tool-calls" then Some ModelDomain.ToolCalls
  else if String.eqb value "model.structured-output" then Some ModelDomain.StructuredOutput
  else None.
Definition map_media_capability (value : string) : option ModelDomain.ModelCapability :=
  if String.eqb value "model.vision-input" then Some ModelDomain.VisionInput
  else if String.eqb value "model.audio-input" then Some ModelDomain.AudioInput
  else if String.eqb value "model.audio-output" then Some ModelDomain.AudioOutput
  else if String.eqb value "model.audio-streaming" then Some ModelDomain.AudioStreaming
  else if String.eqb value "model.embeddings" then Some ModelDomain.Embeddings
  else if String.eqb value "model.image-generation" then Some ModelDomain.ImageGeneration
  else None.
Definition map_capability_extended (value : string) : result CoordinatorError ModelDomain.ModelCapability :=
  if String.eqb value "model.files" then Ok ModelDomain.Files
  else if String.eqb value "model.realtime" then Ok ModelDomain.Realtime
  else if String.eqb value "model.batch" then Ok ModelDomain.Batch
  else if String.eqb value "model.rerank" then Ok ModelDomain.Rerank
  else if String.eqb value "model.moderation" then Ok ModelDomain.Moderation
  else Err (error CapabilityMismatch).
Definition map_capability (capability : CapabilityId) : result CoordinatorError ModelDomain.ModelCapability :=
  let value := id_str capability in
  match map_text_capability value with
  | Some mapped => Ok mapped
  | None => match map_media_capability value with Some mapped => Ok mapped | None => map_capability_extended value end
  end.
Definition validate_model (request : CoordinationRequest) (models : ModelCatalog.ModelCatalogSnapshot)
    : result CoordinatorError ModelCatalog.CatalogEntry :=
  model ← or_fail ModelNotFound (ModelCatalog.resolve_internal models (RoutingDomain.model (context request)));
  reject_if (negb (ModelCatalog.is_visible_to (ModelCatalog.visibility model) (RoutingDomain.tenant_id (context request))))
    (error ModelNotFound) ;;
  collect (fun capability =>
    mapped ← map_capability capability;
    reject_if (negb (ModelDomain.contains (ModelDomain.capabilities (ModelCatalog.descriptor model)) mapped))
      (error CapabilityMismatch)) (RoutingDomain.required_capabilities (context request)) ;;
  mret model.

(** *** The candidates of the pool *)

Definition ensure_tenant (request : CoordinationRequest) (c : AccountPool.CandidateMetadata) : result CoordinatorError unit :=
  reject_if (bool_decide (AccountPool.tenant_id c <> Some (RoutingDomain.tenant_id (context request)))) (error TenantMismatch).
Definition resolve_provider_model (request : CoordinationRequest) (models : ModelCatalog.ModelCatalogSnapshot)
    (c : AccountPool.CandidateMetadata) : option ModelDomain.ProviderModelId :=
  match ModelDomain.identity_parse (id_str (AccountPool.provider_id c)) with
  | Ok provider =>
      match ModelCatalog.resolve_provider_target models (RoutingDomain.model (context request)) provider with
      | Ok target =>
          configured ← AccountPool.model c;
          if String.eqb (ModelCatalog.target_model target) configured then Some (ModelCatalog.target_model target) else None
      | Err _ => None
      end
  | Err _ => None
  end.
Definition initial_exclusion (c : AccountPool.CandidateMetadata) (provider_model : option ModelDomain.ProviderModelId)
    : option CandidateExclusionReason :=
  if bool_decide (AccountPool.availability c <> AccountPool.Available) then Some PoolUnavailable
  else match provider_model with None => Some ModelMappingMissing | Some _ => None end.
Definition prepare_candidate (request : CoordinationRequest) (models : ModelCatalog.ModelCatalogSnapshot)
    (c : AccountPool.CandidateMetadata) : result CoordinatorError CandidateState :=
  ensure_tenant request c ;;
  key ← or_fail InvalidArgument (RoutingFailover.CandidateKey_parse (AccountPool.id c));
  let provider_model := resolve_provider_model request models c in
  mret (mk_CandidateState c key provider_model None None (initial_exclusion c provider_model)).
Definition prepare_candidates (request : CoordinationRequest) (candidates : list AccountPool.CandidateMetadata)
    (models : ModelCatalog.ModelCatalogSnapshot) : result CoordinatorError (list CandidateState) :=
  reject_if (bool_decide (candidates = []) || (MAX_CANDIDATES <? len candidates)) (error InvalidArgument) ;;
  collect (prepare_candidate request models) candidates.

(** *** Missing signals *)

Definition apply_missing_candidate (policy : MissingSignalPolicy) (signal : SignalKind) : pass := fun s d =>
  if bool_decide (policy = AllowWithDegradation) then mret (s, degrade signal d)
  else mret (exclude (MissingSignal signal) s, d).
Definition apply_missing_snapshot (policy : MissingSignalPolicy) (signal : SignalKind) (states : list CandidateState) (d : Degradations)
    : result CoordinatorError (list CandidateState * Degradations) :=
  if bool_decide (policy = AllowWithDegradation) then mret (states, degrade signal d)
  else each_eligible (fun s d => mret (exclude (MissingSignal signal) s, d)) states d.
(** [BTreeMap::insert] of every value: a second value of an account is an error. *)
Fixpoint unique_account_index {T} (account : T -> AccountId) (values : list T) (index : gmap AccountId T)
    : result CoordinatorError (gmap AccountId T) :=
  match values with
  | [] => mret index
  | value :: values =>
      match index !! account value with
      | Some _ => Err (error StateUnavailable)
      | None => unique_account_index account values (<[account value := value]> index)
      end
  end.

(** *** The signals *)

Definition apply_effective_windows (now : N) (states : list CandidateState) (d : Degradations)
    : result CoordinatorError (list CandidateState * Degradations) :=
  reject_if (9223372036854775807 <? now) (error InvalidArgument) ;;
  each_eligible (fun s d =>
    if AccountDomain.is_effective_at (AccountPool.effective_window (source s)) (Z.of_N now) then mret (s, d)
    else mret (exclude ScheduleClosed s, d)) states d.

Definition apply_health_state (value : AccountHealth.HealthState) (policy : MissingSignalPolicy) : pass := fun s d =>
  match value with
  | AccountHealth.Healthy => mret (s, d)
  | AccountHealth.Degraded => mret (s, degrade HealthSignal d)
  | AccountHealth.Unknown => apply_missing_candidate policy HealthSignal s d
  | AccountHealth.Unhealthy => mret (exclude Unhealthy s, d)
  end.
Definition apply_health (snapshot : OptionalSnapshot (list AccountHealth.HealthSnapshot)) (states : list CandidateState) (d : Degradations)
    : result CoordinatorError (list CandidateState * Degradations) :=
  match snapshot_value snapshot with
  | None => apply_missing_snapshot (missing_policy snapshot) HealthSignal states d
  | Some values =>
      index ← unique_account_index AccountHealth.hs_account_id values ∅;
      each_eligible (fun s d =>
        match index !! AccountPool.account_id (source s) with
        | Some value => apply_health_state (AccountHealth.hs_state value) (missing_policy snapshot) s d
        | None => apply_missing_candidate (missing_policy snapshot) HealthSignal s d
        end) states d
  end.

Definition circuit_recovery_ready (c : AccountCircuit.CircuitSnapshot) (observed_at : N) : bool :=
  is_some_and (fun eligible_at => eligible_at <=? observed_at) (AccountCircuit.cs_recovery_eligible_at c).
Definition apply_circuit_state (c : AccountCircuit.CircuitSnapshot) (observed_at : N) : pass := fun s d =>
  match AccountCircuit.cs_state c with
  | AccountCircuit.Closed | AccountCircuit.HalfOpen => mret (s, d)
  | AccountCircuit.Open =>
      if circuit_recovery_ready c observed_at then mret (s, d) else mret (exclude CircuitOpen s, d)
  | AccountCircuit.Terminal => mret (exclude CircuitOpen s, d)
  end.
Definition apply_circuit (snapshot : OptionalSnapshot (list AccountCircuit.CircuitSnapshot)) (observed_at : N)
    (states : list CandidateState) (d : Degradations) : result CoordinatorError (list CandidateState * Degradations) :=
  match snapshot_value snapshot with
  | None => apply_missing_snapshot (missing_policy snapshot) CircuitSignal states d
  | Some values =>
      index ← unique_account_index AccountCircuit.cs_account_id values ∅;
      each_eligible (fun s d =>
        match index !! AccountPool.account_id (source s) with
        | Some value => apply_circuit_state value observed_at s d
        | None => apply_missing_candidate (missing_policy snapshot) CircuitSignal s d
        end) states d
  end.

Definition quota_matches (subject : AccountQuota.QuotaSubject) (account : AccountId) (provider : ProviderId) : bool :=
  match subject with
  | AccountQuota.Account value => bool_decide (value = account)
  | AccountQuota.Provider value => bool_decide (value = provider)
  end.
(** [any] stops at the first exhausted quota: [observed] only covers those looked at. *)
Fixpoint scan_quotas (now required : N) (account : AccountId) (provider : ProviderId) (observed : bool)
    (quotas : list AccountQuota.QuotaSnapshot) : bool * bool :=
  match quotas with
  | [] => (false, observed)
  | q :: quotas =>
      let matches := quota_matches (AccountQuota.subject q) account provider in
      let observed := observed || matches in
      if matches && (AccountQuota.conservative_remaining_at q now <? required) then (true, observed)
      else scan_quotas now required account provider observed quotas
  end.
Definition apply_quota (snapshot : OptionalSnapshot AccountQuota.QuotaState) (now required : N)
    (states : list CandidateState) (d : Degradations) : result CoordinatorError (list CandidateState * Degradations) :=
  match snapshot_value snapshot with
  | None => apply_missing_snapshot (missing_policy snapshot) QuotaSignal states d
  | Some values =>
      each_eligible (fun s d =>
        let '(exhausted, observed) := scan_quotas now required (AccountPool.account_id (source s))
          (AccountPool.provider_id (source s)) false (AccountQuota.snapshots values) in
        if exhausted : bool then mret (exclude QuotaExhausted s, d)
        else if negb observed then apply_missing_candidate (missing_policy snapshot) QuotaSignal s d
        else mret (s, d)) states d
  end.

Definition apply_schedule (snapshot : OptionalSnapshot AccountSchedule.ScheduleSnapshot) (now : N)
    (states : list CandidateState) (d : Degradations) : result CoordinatorError (list CandidateState * Degradations) :=
  match snapshot_value snapshot with
  | None => apply_missing_snapshot (missing_policy snapshot) ScheduleSignal states d
  | Some values =>
      each_eligible (fun s d =>
        match AccountSchedule.schedule_for values (AccountPool.account_id (source s)) with
        | None => apply_missing_candidate (missing_policy snapshot) ScheduleSignal s d
        | Some schedule =>
            available ← or_fail StateUnavailable (AccountSchedule.is_available_at schedule now);
            mret (if available : bool then s else exclude ScheduleClosed s, d)
        end) states d
  end.

Definition apply_proxy_profile (p : ProxyRoutingProfile) (destination : option DestinationRegion) (s : CandidateState) : CandidateState :=
  match proxy_availability p with
  | ProxyIsUnavailable => exclude ProxyUnavailable s
  | ProxyIsAvailable =>
      if is_some_and (fun region => negb (AccountProxy.permits_region (proxy_profile_of p) region)) destination
      then exclude ProxyRegionDenied s
      else s <| proxy_profile := Some (proxy_profile_of p) |>
  end.
Definition apply_proxy (snapshot : OptionalSnapshot (list ProxyRoutingProfile)) (destination : option DestinationRegion)
    (states : list CandidateState) (d : Degradations) : result CoordinatorError (list CandidateState * Degradations) :=
  match snapshot_value snapshot with
  | None => apply_missing_snapshot (missing_policy snapshot) ProxySignal states d
  | Some values =>
      index ← unique_account_index proxy_account_id values ∅;
      each_eligible (fun s d =>
        match index !! AccountPool.account_id (source s) with
        | None => apply_missing_candidate (missing_policy snapshot) ProxySignal s d
        | Some profile => mret (apply_proxy_profile profile destination s, d)
        end) states d
  end.

Definition apply_eligibility (request : CoordinationRequest) (snapshots : CoordinationSnapshots) (states : list CandidateState)
    (d : Degradations) : result CoordinatorError (list CandidateState * Degradations) :=
  let e := eligibility snapshots in
  let t := times (admission request) in
  let now := budget_now t in
  '(states, d) ← apply_effective_windows now states d;
  '(states, d) ← apply_health (health e) states d;
  '(states, d) ← apply_circuit (circuit e) (circuit_now t) states d;
  '(states, d) ← apply_quota (quota e) now (quantity (pricing request)) states d;
  '(states, d) ← apply_schedule (schedule e) now states d;
  apply_proxy (proxy e) (destination_region request) states d.
Definition prepare_state (request : CoordinationRequest) (snapshots : CoordinationSnapshots)
    : result CoordinatorError (list CandidateState * Degradations) :=
  states ← prepare_candidates request (AccountPool.candidates (pool snapshots)) (models snapshots);
  apply_eligibility request snapshots states [].

(** *** Pricing and cost *)

Definition quote_candidate (request : CoordinationRequest) (catalog : list ModelPricing.ModelPricingSchedule) (s : CandidateState)
    : CandidateState :=
  match provider_model s with
  | None => exclude ModelMappingMissing s
  | Some model =>
      match ModelPricing.quote_at catalog model (dimension (pricing request)) (pricing_timestamp request) (quantity (pricing request)) with
      | Ok q => s <| quote := Some q |>
      | Err _ => exclude MissingPrice (s <| quote := None |>)
      end
  end.
Definition quote_candidates (request : CoordinationRequest) (catalog : list ModelPricing.ModelPricingSchedule)
    (states : list CandidateState) : list CandidateState :=
  (fun s => if eligible s then quote_candidate request catalog s else s) <$> states.
Definition cost_input (s : CandidateState) : result CoordinatorError RoutingCost.CandidateCostInput :=
  id ← or_fail StateUnavailable (RoutingCost.CostCandidateId_parse (id_str (key s)));
  q ← ok_or (quote s) (error StateUnavailable);
  units ← or_fail StateUnavailable (RoutingCost.CostUnits_new (ModelPricing.quote_total q));
  mret (RoutingCost.mk_CandidateCostInput id (Some units)).
Definition cost_inputs (states : list CandidateState) : result CoordinatorError (list RoutingCost.CandidateCostInput) :=
  collect cost_input (List.filter eligible states).
Definition evaluate_cost (inputs : list RoutingCost.CandidateCostInput) (request : CoordinationRequest)
    : result CoordinatorError RoutingCost.CostEvaluation :=
  or_fail StateUnavailable (RoutingCost.evaluate inputs (constraints (pricing request))).
Fixpoint exclude_by_id (candidate : string) (reason : CandidateExclusionReason) (states : list CandidateState) : list CandidateState :=
  match states with
  | [] => []
  | s :: states =>
      if String.eqb (id_str (key s)) candidate then exclude reason s :: states
      else s :: exclude_by_id candidate reason states
  end.
Definition cost_reason (r : RoutingCost.CostExclusionReason) : CandidateExclusionReason :=
  match r with RoutingCost.MissingEstimate => MissingPrice | RoutingCost.HardLimitExceeded _ => HardCostLimit end.
Definition apply_cost_exclusions (states : list CandidateState) (e : RoutingCost.CostEvaluation) : list CandidateState :=
  let states := foldl (fun states x => exclude_by_id (id_str (RoutingCost.excluded_id x)) (cost_reason (RoutingCost.reason x)) states)
    states (RoutingCost.exclusions e) in
  if bool_decide (RoutingCost.preferred e = []) then states
  else foldl (fun states x => exclude_by_id (id_str (RoutingCost.costed_id x)) AboveSoftCostLimit states) states (RoutingCost.fallback e).
Definition apply_pricing (request : CoordinationRequest) (snapshot : OptionalSnapshot (list ModelPricing.ModelPricingSchedule))
    (states : list CandidateState) : result CoordinatorError (list CandidateState) :=
  catalog ← ok_or (snapshot_value snapshot) (error PricingUnavailable);
  let states := quote_candidates request catalog states in
  inputs ← cost_inputs states;
  if bool_decide (inputs = []) then mret states
  else evaluation ← evaluate_cost inputs request; mret (apply_cost_exclusions states evaluation).

(** *** Selection *)

Inductive SelectionBasis := WeightedLeastLoad | Affinity | WasmPolicy.
(** [iter().position(p)]. *)
Definition position (p : CandidateState -> bool) (states : list CandidateState) : option nat :=
  fst <$> list_find (fun s => p s) states.
Definition affinity_candidate (value : AccountAffinity.AffinitySnapshot) (k : AccountAffinity.AffinityKey) (now : N) : option string :=
  (fun b => id_str (AccountAffinity.candidate b)) <$>
    List.find (fun b => bool_decide (AccountAffinity.key b = k) && (now <? AccountAffinity.expires_at b))
      (AccountAffinity.snapshot_bindings value).
Definition select_affinity (k : AccountAffinity.AffinityKey) (now : N) (snapshot : OptionalSnapshot AccountAffinity.AffinitySnapshot)
    (states : list CandidateState) (d : Degradations) : result CoordinatorError (option nat * Degradations) :=
  match snapshot_value snapshot with
  | None =>
      if bool_decide (missing_policy snapshot = FailClosed) then Err (error MissingSignalError)
      else mret (None, degrade AffinitySignal d)
  | Some value =>
      reject_if (bool_decide (AccountAffinity.snapshot_tenant_id value <> AccountAffinity.tenant_id k)) (error TenantMismatch) ;;
      mret (candidate ← affinity_candidate value k now;
            position (fun s => eligible s && String.eqb (id_str (key s)) candidate) states, d)
  end.
Definition affinity_exclusions (states : list CandidateState) (selected : nat) : list CandidateExclusion :=
  omap (fun '(i, s) => if negb (i =? selected)%nat && eligible s then Some (mk_CandidateExclusion (key s) AffinityPreferred) else None)
    (imap (fun i s => (i, s)) states).
Definition Selection : Type := nat * SelectionBasis * list CandidateExclusion.
Definition select_affinity_candidate (request : CoordinationRequest) (snapshot : OptionalSnapshot AccountAffinity.AffinitySnapshot)
    (states : list CandidateState) (d : Degradations) : result CoordinatorError (option Selection * Degradations) :=
  match affinity request with
  | None => mret (None, d)
  | Some (k, now) =>
      '(found, d) ← select_affinity k now snapshot states d;
      match found with
      | None => mret (None, d)
      | Some selected => mret (Some (selected, Affinity, affinity_exclusions states selected), d)
      end
  end.

Definition policy_candidate (s : CandidateState) : result CoordinatorError RoutingPolicy.Candidate :=
  id ← or_fail StateUnavailable (RoutingPolicy.CandidateId_new (id_str (key s)));
  weight ← or_fail StateUnavailable (RoutingPolicy.Weight_new (AccountPool.weight (source s)));
  load ← or_fail StateUnavailable (RoutingPolicy.Load_new (AccountPool.load (source s)));
  mret (RoutingPolicy.mk_Candidate id (AccountPool.priority (source s)) weight load RoutingPolicy.Available).
Definition policy_candidates (states : list CandidateState) : result CoordinatorError (list RoutingPolicy.Candidate) :=
  collect policy_candidate (List.filter eligible states).
Definition policy_reason (r : RoutingPolicy.ExclusionReason) : CandidateExclusionReason :=
  match r with
  | RoutingPolicy.ExcludedUnavailable => PoolUnavailable
  | RoutingPolicy.ZeroWeight => HigherEffectiveLoad
  | RoutingPolicy.LowerPriority _ => LowerPriority
  | RoutingPolicy.HigherEffectiveLoad _ => HigherEffectiveLoad
  | RoutingPolicy.StableTieBreak _ => StableTieBreak
  end.
Definition map_policy_exclusion (x : RoutingPolicy.CandidateExclusion) : result CoordinatorError CandidateExclusion :=
  key ← or_fail StateUnavailable (RoutingFailover.CandidateKey_parse (RoutingPolicy.excluded_id x));
  mret (mk_CandidateExclusion key (policy_reason (RoutingPolicy.reason x))).
Definition choose_weighted (candidates : list RoutingPolicy.Candidate)
    : result CoordinatorError (RoutingFailover.CandidateKey * list CandidateExclusion) :=
  prepared ← or_fail StateUnavailable (RoutingPolicy.PreparedCandidateSet_new candidates);
  selection ← or_fail NoEligibleCandidate (RoutingPolicy.select_prepared prepared);
  selected_key ← or_fail StateUnavailable
    (RoutingFailover.CandidateKey_parse (RoutingPolicy.candidate_id (RoutingPolicy.winner selection)));
  exclusions ← collect map_policy_exclusion (RoutingPolicy.exclusions (RoutingPolicy.explain selection));
  mret (selected_key, exclusions).
Definition state_exclusions (states : list CandidateState) : list CandidateExclusion :=
  omap (fun s => mk_CandidateExclusion (key s) <$> exclusion s) states.
Definition collect_exclusions (states : list CandidateState) (policy : list CandidateExclusion) : list CandidateExclusion * bool :=
  bound_exclusions (state_exclusions states ++ policy).
Definition select_weighted (states : list CandidateState) : result CoordinatorError Selection :=
  candidates ← policy_candidates states;
  reject_if (bool_decide (candidates = [])) (with_exclusions NoEligibleCandidate (collect_exclusions states []).1) ;;
  '(selected_key, exclusions) ← choose_weighted candidates;
  selected ← ok_or (position (fun s => bool_decide (key s = selected_key)) states) (error StateUnavailable);
  mret (selected, WeightedLeastLoad, exclusions).
Definition select_candidate (request : CoordinationRequest) (snapshot : OptionalSnapshot AccountAffinity.AffinitySnapshot)
    (states : list CandidateState) (d : Degradations) : result CoordinatorError (Selection * Degradations) :=
  '(found, d) ← select_affinity_candidate request snapshot states d;
  match found with
  | Some selection => mret (selection, d)
  | None => selection ← select_weighted states; mret (selection, d)
  end.

Record RouteSelection := mk_RouteSelection {
  states : list CandidateState;
  degradations : Degradations;
  selected_index : nat;
  basis : SelectionBasis;
  exclusions : list CandidateExclusion;
  exclusions_truncated : bool;
}.
Definition prepare_selection (request : CoordinationRequest) (snapshots : CoordinationSnapshots) : result CoordinatorError RouteSelection :=
  validate_model request (models snapshots) ;;
  '(states, d) ← prepare_state request snapshots;
  states ← apply_pricing request (pricing_catalog snapshots) states;
  '(selection, d) ← select_candidate request (affinity_snapshot snapshots) states d;
  let '(selected, basis, policy_exclusions) := selection in
  let '(exclusions, truncated) := collect_exclusions states policy_exclusions in
  mret (mk_RouteSelection states d selected basis exclusions truncated).

Fixpoint add_alternatives (primary : RoutingFailover.CandidateKey) (limit : N) (candidates : list RoutingFailover.CandidateKey)
    (states : list CandidateState) : list RoutingFailover.CandidateKey :=
  match states with
  | [] => candidates
  | s :: states =>
      add_alternatives primary limit
        (if bool_decide (key s <> primary) && (len candidates <? limit) then candidates ++ [key s] else candidates) states
  end.
Definition build_retry_plan (request : CoordinationRequest) (states : list CandidateState) (selected : nat)
    : result CoordinatorError RoutingRetryPlan :=
  primary ← ok_or (states !! selected) (error StateUnavailable);
  let limit := retry_max_attempts (retry request) in
  let candidates := add_alternatives (key primary) limit [key primary] (List.filter eligible states) in
  plan ← or_fail StateUnavailable (RoutingFailover.FailoverPlan_new candidates limit);
  mret (mk_RoutingRetryPlan plan (operation (retry request))).

(** ** Specification: every candidate's verdict, by itself *)

Fixpoint first_reason {A} (l : list (option A)) : option A :=
  match l with [] => None | Some a :: _ => Some a | None :: l => first_reason l end.

Section verdicts.
  Context (request : CoordinationRequest) (snapshots : CoordinationSnapshots).
  Implicit Types (c : AccountPool.CandidateMetadata).

Definition missing_verdict {T} (snapshot : OptionalSnapshot T) (signal : SignalKind) : option CandidateExclusionReason :=
  if decide (missing_policy snapshot = AllowWithDegradation) then None else Some (MissingSignal signal).
(** A signal's verdict: [observe] is [None] where the snapshot says nothing about the candidate. *)
Definition via {T} (snapshot : OptionalSnapshot T) (signal : SignalKind)
    (observe : T -> option (option CandidateExclusionReason)) : option CandidateExclusionReason :=
  match snapshot_value snapshot with
  | None => missing_verdict snapshot signal
  | Some values => default (missing_verdict snapshot signal) (observe values)
  end.
Definition about {T} (account : T -> AccountId) (c : AccountPool.CandidateMetadata) (values : list T) : option T :=
  List.find (fun v => bool_decide (account v = AccountPool.account_id c)) values.

Definition mapped_model c := resolve_provider_model request (models snapshots) c.
Definition window_verdict c :=
  if AccountDomain.is_effective_at (AccountPool.effective_window c) (Z.of_N (budget_now (times (admission request))))
  then None else Some ScheduleClosed.
Definition health_verdict c := via (health (eligibility snapshots)) HealthSignal (fun values =>
  match AccountHealth.hs_state <$> about AccountHealth.hs_account_id c values with
  | None | Some AccountHealth.Unknown => None
  | Some AccountHealth.Unhealthy => Some (Some Unhealthy)
  | Some _ => Some None
  end).
Definition circuit_blocks (v : AccountCircuit.CircuitSnapshot) : Prop :=
  match AccountCircuit.cs_state v with
  | AccountCircuit.Closed | AccountCircuit.HalfOpen => False
  | AccountCircuit.Terminal => True
  | AccountCircuit.Open =>
      ~ exists at_, AccountCircuit.cs_recovery_eligible_at v = Some at_ /\ at_ <= circuit_now (times (admission request))
  end.
#[export] Instance circuit_blocks_dec v : Decision (circuit_blocks v).
Proof.
  unfold circuit_blocks. destruct (AccountCircuit.cs_state v); try apply _.
  destruct (AccountCircuit.cs_recovery_eligible_at v) as [t|]; [|left; naive_solver].
  destruct (decide (t <= circuit_now (times (admission request)))); [right|left]; naive_solver.
Defined.
Definition circuit_verdict c := via (circuit (eligibility snapshots)) CircuitSignal (fun values =>
  (fun v => if decide (circuit_blocks v) then Some CircuitOpen else None) <$> about AccountCircuit.cs_account_id c values).
Definition quotas_of c (values : AccountQuota.QuotaState) : list AccountQuota.QuotaSnapshot :=
  List.filter (fun q => quota_matches (AccountQuota.subject q) (AccountPool.account_id c) (AccountPool.provider_id c))
    (AccountQuota.snapshots values).
Definition quota_verdict c := via (quota (eligibility snapshots)) QuotaSignal (fun values =>
  match quotas_of c values with
  | [] => None
  | qs => Some (if existsb (fun q => AccountQuota.conservative_remaining_at q (budget_now (times (admission request))) <?
                                      quantity (pricing request)) qs
                then Some QuotaExhausted else None)
  end).
Definition schedule_verdict c := via (schedule (eligibility snapshots)) ScheduleSignal (fun values =>
  (fun s => match AccountSchedule.is_available_at s (budget_now (times (admission request))) with
            | Ok true => None | _ => Some ScheduleClosed end) <$>
    AccountSchedule.schedule_for values (AccountPool.account_id c)).
Definition proxy_verdict c := via (proxy (eligibility snapshots)) ProxySignal (fun values =>
  (fun p => match proxy_availability p with
            | ProxyIsUnavailable => Some ProxyUnavailable
            | ProxyIsAvailable =>
                if is_some_and (fun region => negb (AccountProxy.permits_region (proxy_profile_of p) region)) (destination_region request)
                then Some ProxyRegionDenied else None
            end) <$> about proxy_account_id c values).
Definition quote_of c : option ModelPricing.PriceQuote :=
  model ← mapped_model c; catalog ← snapshot_value (pricing_catalog snapshots);
  match ModelPricing.quote_at catalog model (dimension (pricing request)) (pricing_timestamp request) (quantity (pricing request)) with
  | Ok q => Some q
  | Err _ => None
  end.
Definition exceeds (limit : option N) c : bool :=
  match limit, quote_of c with Some limit, Some q => limit <? ModelPricing.quote_total q | _, _ => false end.

(** Everything but the price tier: what the candidate's own data says. *)
Definition own_verdict c : option CandidateExclusionReason := first_reason [
  (if decide (AccountPool.availability c = AccountPool.Available) then None else Some PoolUnavailable);
  (if mapped_model c then None else Some ModelMappingMissing);
  window_verdict c; health_verdict c; circuit_verdict c; quota_verdict c; schedule_verdict c; proxy_verdict c;
  (if quote_of c then None else Some MissingPrice);
  (if exceeds (RoutingCost.hard_limit (constraints (pricing request))) c then Some HardCostLimit else None) ].
(** The soft limit counts only while some candidate stays within it. *)
Definition within_soft c : bool :=
  bool_decide (own_verdict c = None) && negb (exceeds (RoutingCost.soft_limit (constraints (pricing request))) c).
Definition verdict c : option CandidateExclusionReason := first_reason [
  own_verdict c;
  (if exceeds (RoutingCost.soft_limit (constraints (pricing request))) c &&
      existsb within_soft (AccountPool.candidates (pool snapshots)) then Some AboveSoftCostLimit else None) ].

(** The proxy profile a candidate would be dispatched through. *)
Definition approved_profile c : option AccountProxy.AccountProxyProfile :=
  values ← snapshot_value (proxy (eligibility snapshots)); p ← about proxy_account_id c values; Some (proxy_profile_of p).

(** A pass as a function on one state: the verdict decides, if nothing has before. *)
Definition decided (v : AccountPool.CandidateMetadata -> option CandidateExclusionReason) (s : CandidateState) : CandidateState :=
  if eligible s then match v (source s) with Some r => exclude r s | None => s end else s.
Definition approve (s : CandidateState) : CandidateState :=
  if eligible s then
    match proxy_verdict (source s), approved_profile (source s) with
    | Some r, _ => exclude r s
    | None, Some p => s <| proxy_profile := Some p |>
    | None, None => s
    end
  else s.
Definition priced (catalog : list ModelPricing.ModelPricingSchedule) (s : CandidateState) : CandidateState :=
  if eligible s then quote_candidate request catalog s else s.

(** ** Lemmas: the passes *)

Lemma each_eligible_map (body : pass) (f : CandidateState -> CandidateState) l d l' d' :
  (forall s d s' d', eligible s = true -> body s d = Ok (s', d') -> s' = f s) ->
  each_eligible body l d = Ok (l', d') -> l' = (fun s => if eligible s then f s else s) <$> l.
Proof.
  intros Hf. revert d l' d'. induction l as [|s l IH]; intros d l' d'; cbn [each_eligible]; [by intros [= <- <-]|].
  intros ([s1 d1] & Hs & ([l1 d2] & Hl & [= <- <-])%result_bind_Ok)%result_bind_Ok. cbn. f_equal; [|by eapply IH].
  destruct (eligible s) eqn:He; [by eapply Hf|by injection Hs as <- <-].
Qed.
Lemma apply_missing_candidate_run {T} (snapshot : OptionalSnapshot T) signal s d s' d' :
  apply_missing_candidate (missing_policy snapshot) signal s d = Ok (s', d') ->
  s' = match missing_verdict snapshot signal with Some r => exclude r s | None => s end.
Proof.
  unfold apply_missing_candidate, missing_verdict. case_bool_decide; case_decide; try done; by intros [= <- <-].
Qed.
Lemma apply_missing_snapshot_run {T} (snapshot : OptionalSnapshot T) signal l d l' d' :
  apply_missing_snapshot (missing_policy snapshot) signal l d = Ok (l', d') ->
  l' = decided (fun _ => missing_verdict snapshot signal) <$> l.
Proof.
  unfold apply_missing_snapshot, missing_verdict. case_bool_decide as Hp; case_decide; try done.
  - intros [= <- <-]. rewrite <- (list_fmap_id l) at 1. apply list_fmap_ext. intros i s _. unfold decided. by destruct (eligible s).
  - apply each_eligible_map. by intros s d1 s' d2 _ [= <- <-].
Qed.
Lemma unique_account_index_lookup {T} (account : T -> AccountId) values index index' a :
  unique_account_index account values index = Ok index' ->
  index' !! a = match index !! a with Some v => Some v | None => List.find (fun v => bool_decide (account v = a)) values end.
Proof.
  revert index. induction values as [|v values IH]; intros index; cbn [unique_account_index List.find].
  { intros [= <-]. by destruct (index !! a). }
  destruct (index !! account v) eqn:Hv; [done|]. intros ->%IH. case_bool_decide as Ha.
  - subst a. by rewrite lookup_insert_eq, Hv.
  - by rewrite lookup_insert_ne.
Qed.

Lemma apply_effective_windows_run l d l' d' :
  apply_effective_windows (budget_now (times (admission request))) l d = Ok (l', d') -> l' = decided window_verdict <$> l.
Proof.
  unfold apply_effective_windows. intros (u & _ & H)%result_bind_Ok. revert H. apply each_eligible_map.
  intros s d1 s' d2 _. unfold window_verdict. destruct (AccountDomain.is_effective_at _ _); by intros [= <- <-].
Qed.
Lemma apply_health_run l d l' d' :
  apply_health (health (eligibility snapshots)) l d = Ok (l', d') -> l' = decided health_verdict <$> l.
Proof.
  unfold apply_health, health_verdict, via. destruct (snapshot_value _) as [values|] eqn:Hv; [|apply apply_missing_snapshot_run].
  intros (index & Hi & H)%result_bind_Ok. revert H. apply each_eligible_map. intros s d1 s' d2 _.
  rewrite (unique_account_index_lookup _ _ _ _ _ Hi), lookup_empty. unfold about.
  destruct (List.find _ values) as [v|]; [|apply apply_missing_candidate_run]. unfold apply_health_state. cbn.
  destruct (AccountHealth.hs_state v); [apply apply_missing_candidate_run|by intros [= <- <-]..].
Qed.
Lemma apply_circuit_run l d l' d' :
  apply_circuit (circuit (eligibility snapshots)) (circuit_now (times (admission request))) l d = Ok (l', d') ->
  l' = decided circuit_verdict <$> l.
Proof.
  unfold apply_circuit, circuit_verdict, via. destruct (snapshot_value _) as [values|] eqn:Hv; [|apply apply_missing_snapshot_run].
  intros (index & Hi & H)%result_bind_Ok. revert H. apply each_eligible_map. intros s d1 s' d2 _.
  rewrite (unique_account_index_lookup _ _ _ _ _ Hi), lookup_empty. unfold about.
  destruct (List.find _ values) as [v|]; [|apply apply_missing_candidate_run]. cbn.
  case_decide as Hb; revert Hb; unfold circuit_blocks, apply_circuit_state, circuit_recovery_ready, is_some_and;
    destruct (AccountCircuit.cs_state v); try (by intros ? [= <- <-]); try done.
  - destruct (AccountCircuit.cs_recovery_eligible_at v) as [t|]; [|by intros _ [= <- <-]].
    destruct (N.leb_spec t (circuit_now (times (admission request)))); [|by intros _ [= <- <-]]. intros []. by exists t.
  - intros Hn. destruct (AccountCircuit.cs_recovery_eligible_at v) as [t|].
    + destruct (N.leb_spec t (circuit_now (times (admission request)))); [by intros [= <- <-]|].
      destruct Hn. intros (t' & [= <-] & ?). lia.
    + destruct Hn. by intros (t' & ? & _).
Qed.
Lemma scan_quotas_run now required account provider observed quotas :
  let mine := List.filter (fun q => quota_matches (AccountQuota.subject q) account provider) quotas in
  let short := existsb (fun q => AccountQuota.conservative_remaining_at q now <? required) mine in
  (scan_quotas now required account provider observed quotas).1 = short /\
  (short = false -> (scan_quotas now required account provider observed quotas).2 = observed || negb (bool_decide (mine = []))).
Proof.
  cbn zeta. revert observed. induction quotas as [|q quotas IH]; intros observed; cbn [scan_quotas List.filter].
  { split; [done|]. by rewrite orb_false_r. }
  destruct (quota_matches _ account provider); cbn.
  - destruct (_ <? required) eqn:Hs; cbn; [done|]. destruct (IH (observed || true)) as [-> IH2]. split; [done|].
    intros H. rewrite (IH2 H). by rewrite orb_true_r.
  - destruct (IH (observed || false)) as [-> IH2]. split; [done|]. intros H. rewrite (IH2 H). by rewrite orb_false_r.
Qed.
Lemma apply_quota_run l d l' d' :
  apply_quota (quota (eligibility snapshots)) (budget_now (times (admission request))) (quantity (pricing request)) l d = Ok (l', d') ->
  l' = decided quota_verdict <$> l.
Proof.
  unfold apply_quota, quota_verdict, via. destruct (snapshot_value _) as [values|] eqn:Hv; [|apply apply_missing_snapshot_run].
  apply each_eligible_map. intros s d1 s' d2 _.
  destruct (scan_quotas_run (budget_now (times (admission request))) (quantity (pricing request))
    (AccountPool.account_id (source s)) (AccountPool.provider_id (source s)) false (AccountQuota.snapshots values)) as [H1 H2].
  change (List.filter _ (AccountQuota.snapshots values)) with (quotas_of (source s) values) in H1, H2.
  destruct (scan_quotas _ _ _ _ _ _) as [exhausted observed]. cbn in H1, H2. subst exhausted.
  destruct (existsb _ (quotas_of (source s) values)) eqn:Hs.
  - intros [= <- <-]. destruct (quotas_of (source s) values) as [|q qs]; [done|]. cbn in Hs |- *. by rewrite Hs.
  - specialize (H2 eq_refl). subst observed. destruct (quotas_of (source s) values) as [|q qs]; cbn.
    + apply apply_missing_candidate_run.
    + cbn in Hs. rewrite Hs. by intros [= <- <-].
Qed.
Lemma apply_schedule_run l d l' d' :
  apply_schedule (schedule (eligibility snapshots)) (budget_now (times (admission request))) l d = Ok (l', d') ->
  l' = decided schedule_verdict <$> l.
Proof.
  unfold apply_schedule, schedule_verdict, via. destruct (snapshot_value _) as [values|] eqn:Hv; [|apply apply_missing_snapshot_run].
  apply each_eligible_map. intros s d1 s' d2 _.
  destruct (AccountSchedule.schedule_for values _) as [v|]; [|apply apply_missing_candidate_run]. cbn.
  destruct (AccountSchedule.is_available_at v _) as [[]|]; cbn; [by intros [= <- <-]..|done].
Qed.
Lemma apply_proxy_run l d l' d' :
  apply_proxy (proxy (eligibility snapshots)) (destination_region request) l d = Ok (l', d') -> l' = approve <$> l.
Proof.
  unfold apply_proxy. destruct (snapshot_value _) as [values|] eqn:Hv.
  - intros (index & Hi & H)%result_bind_Ok. revert H. apply each_eligible_map. intros s d1 s' d2 _.
    rewrite (unique_account_index_lookup _ _ _ _ _ Hi), lookup_empty. unfold proxy_verdict, approved_profile, via.
    rewrite Hv. cbn. unfold about. destruct (List.find _ values) as [v|]; cbn.
    + intros [= <- <-]. unfold apply_proxy_profile. destruct (proxy_availability v); [|done]. by destruct (is_some_and _ _).
    + intros ->%apply_missing_candidate_run. by destruct (missing_verdict (proxy (eligibility snapshots)) ProxySignal).
  - intros ->%apply_missing_snapshot_run. apply list_fmap_ext. intros i s _. unfold decided, approve, proxy_verdict, approved_profile, via.
    rewrite Hv. by destruct (eligible s), (missing_verdict (proxy (eligibility snapshots)) ProxySignal).
Qed.

(** *** One candidate through every pass *)

Definition prepared c : CandidateState :=
  mk_CandidateState c (MkId (AccountPool.id c)) (mapped_model c) None None (initial_exclusion c (mapped_model c)).
Definition screened c : CandidateState :=
  approve (decided schedule_verdict (decided quota_verdict (decided circuit_verdict (decided health_verdict
    (decided window_verdict (prepared c)))))).

Lemma prepare_candidates_run l : prepare_candidates request (AccountPool.candidates (pool snapshots)) (models snapshots) = Ok l ->
  l = prepared <$> AccountPool.candidates (pool snapshots) /\
  forall c, c ∈ AccountPool.candidates (pool snapshots) -> AccountPool.tenant_id c = Some (RoutingDomain.tenant_id (context request)).
Proof.
  unfold prepare_candidates. intros (u & _ & H)%result_bind_Ok. apply collect_Ok in H.
  induction H as [|c s cs l Hc _ [-> IH]]; [split; [done|]; by intros c ?%not_elem_of_nil|].
  unfold prepare_candidate, ensure_tenant in Hc. case_bool_decide as Ht; [done|]. cbn in Hc.
  unfold or_fail, RoutingFailover.CandidateKey_parse in Hc. destruct (_ || _); [done|]. cbn in Hc. injection Hc as <-.
  split; [done|]. intros c' [->|Hc']%elem_of_cons; [done|by apply IH].
Qed.
Lemma prepare_state_run l d : prepare_state request snapshots = Ok (l, d) ->
  l = screened <$> AccountPool.candidates (pool snapshots) /\
  forall c, c ∈ AccountPool.candidates (pool snapshots) -> AccountPool.tenant_id c = Some (RoutingDomain.tenant_id (context request)).
Proof.
  unfold prepare_state, apply_eligibility.
  intros (l0 & [-> Ht]%prepare_candidates_run & ([l1 d1] & H1%apply_effective_windows_run & ([l2 d2] & H2%apply_health_run &
    ([l3 d3] & H3%apply_circuit_run & ([l4 d4] & H4%apply_quota_run & ([l5 d5] & H5%apply_schedule_run &
    H6%apply_proxy_run)%result_bind_Ok)%result_bind_Ok)%result_bind_Ok)%result_bind_Ok)%result_bind_Ok)%result_bind_Ok.
  split; [|done]. subst. by rewrite <- !list_fmap_compose.
Qed.

(** What a pass keeps of a state. *)
Definition same_frame (s s' : CandidateState) : Prop :=
  source s' = source s /\ key s' = key s /\ provider_model s' = provider_model s.
Lemma decided_frame v s : same_frame s (decided v s) /\ proxy_profile (decided v s) = proxy_profile s /\ quote (decided v s) = quote s.
Proof. unfold decided, exclude. destruct (eligible s); [|done]. destruct (v _); [|done]. by destruct (exclusion s). Qed.
Lemma decided_exclusion v s : exclusion (decided v s) = first_reason [exclusion s; v (source s)].
Proof.
  unfold decided, exclude, eligible. destruct (exclusion s) eqn:He; cbn; [by rewrite He|]. by destruct (v (source s)).
Qed.
Lemma first_reason_app {A} (l1 l2 : list (option A)) : first_reason (l1 ++ l2) = first_reason [first_reason l1; first_reason l2].
Proof. induction l1 as [|[a|] l1 IH]; cbn; [by destruct (first_reason l2)|done|by rewrite IH]. Qed.
Lemma first_reason_None {A} (l : list (option A)) : first_reason l = None <-> forall o, o ∈ l -> o = None.
Proof.
  induction l as [|[a|] l IH]; cbn.
  - split; [by intros _ o ?%not_elem_of_nil|done].
  - split; [done|]. intros H. exact (H (Some a) (list_elem_of_here _ _)).
  - rewrite IH. split; [intros H o [->|Ho]%elem_of_cons; auto|]. intros H o Ho. apply H. by right.
Qed.
Lemma screened_frame c : same_frame (prepared c) (screened c) /\ quote (screened c) = None.
Proof.
  unfold screened.
  assert (forall s, same_frame s (approve s) /\ quote (approve s) = quote s) as Ha.
  { intros s. unfold approve, exclude. destruct (eligible s); [|done]. destruct (proxy_verdict _); [by destruct (exclusion s)|].
    by destruct (approved_profile _). }
  unfold same_frame in *. rewrite !(proj2 (Ha _)). destruct (Ha (decided schedule_verdict (decided quota_verdict
    (decided circuit_verdict (decided health_verdict (decided window_verdict (prepared c))))))) as [(-> & -> & ->) _].
  repeat match goal with |- context [decided ?v ?s] => destruct (decided_frame v s) as [(-> & -> & ->) [_ ->]] end. done.
Qed.
Definition screen_verdicts c : list (option CandidateExclusionReason) := [
  (if decide (AccountPool.availability c = AccountPool.Available) then None else Some PoolUnavailable);
  (if mapped_model c then None else Some ModelMappingMissing);
  window_verdict c; health_verdict c; circuit_verdict c; quota_verdict c; schedule_verdict c; proxy_verdict c ].
Lemma screened_exclusion c : exclusion (screened c) = first_reason (screen_verdicts c).
Proof.
  assert (forall s, exclusion (approve s) = first_reason [exclusion s; proxy_verdict (source s)]) as Ha.
  { intros s. unfold approve, exclude, eligible. destruct (exclusion s) eqn:He; cbn; [by rewrite He|].
    destruct (proxy_verdict _); [done|]. by destruct (approved_profile _). }
  unfold screened. rewrite Ha.
  repeat match goal with |- context [source (decided ?v ?s)] => rewrite (proj1 (proj1 (decided_frame v s))) end.
  rewrite !decided_exclusion.
  repeat match goal with |- context [source (decided ?v ?s)] => rewrite (proj1 (proj1 (decided_frame v s))) end.
  unfold screen_verdicts, prepared, initial_exclusion. cbn [source exclusion].
  generalize (window_verdict c) (health_verdict c) (circuit_verdict c) (quota_verdict c) (schedule_verdict c) (proxy_verdict c).
  intros [] [] [] [] [] []; case_bool_decide; case_decide; try done; by destruct (mapped_model c).
Qed.
Lemma screened_profile c : exclusion (screened c) = None -> proxy_profile (screened c) = approved_profile c.
Proof.
  unfold screened. set (s := decided schedule_verdict _).
  assert (source s = c /\ proxy_profile s = None) as [Hs Hp].
  { unfold s. split.
    - repeat match goal with |- context [source (decided ?v ?s)] => rewrite (proj1 (proj1 (decided_frame v s))) end. done.
    - repeat match goal with |- context [proxy_profile (decided ?v ?s)] => rewrite (proj1 (proj2 (decided_frame v s))) end. done. }
  unfold approve, eligible. destruct (exclusion s) eqn:He; [by rewrite He|]. rewrite Hs.
  destruct (proxy_verdict c); [by unfold exclude; rewrite He|]. by destruct (approved_profile c).
Qed.

Definition offered catalog c : CandidateState := priced catalog (screened c).
Lemma offered_spec catalog c : snapshot_value (pricing_catalog snapshots) = Some catalog ->
  same_frame (prepared c) (offered catalog c) /\
  exclusion (offered catalog c) =
    first_reason [first_reason (screen_verdicts c); (if quote_of c then None else Some MissingPrice)] /\
  (exclusion (offered catalog c) = None -> quote (offered catalog c) = quote_of c /\ proxy_profile (offered catalog c) = approved_profile c).
Proof.
  intros Hcat. pose proof (screened_frame c) as [Hf Hq]. pose proof (screened_exclusion c) as He.
  pose proof (screened_profile c) as Hp. unfold offered. revert Hf Hq He Hp. generalize (screened c) as s. intros s Hf Hq He Hp.
  unfold priced, eligible. destruct (exclusion s) eqn:Hex.
  { split; [done|]. rewrite Hex, <- He. done. }
  specialize (Hp eq_refl). assert (provider_model s = mapped_model c) as Hm by apply Hf.
  assert (mapped_model c <> None) as Hmap.
  { intros Hn. pose proof (proj1 (first_reason_None _) (eq_sym He) (if mapped_model c then None else Some ModelMappingMissing)
      ltac:(right; left)) as Hbad. by rewrite Hn in Hbad. }
  unfold quote_candidate, quote_of. rewrite Hm, Hcat, <- He. destruct (mapped_model c) as [m|]; [|done]. cbn.
  destruct (ModelPricing.quote_at catalog m _ _ _) as [q|]; cbn.
  - rewrite Hex. by split_and!.
  - unfold exclude. cbn. rewrite Hex. by split_and!.
Qed.
(** *** The cost tiers *)

Lemma find_omap_unique {A B} (k : A -> string) (f : B -> string) (h : A -> option B) l a :
  NoDup (k <$> l) -> a ∈ l -> (forall a b, h a = Some b -> f b = k a) ->
  List.find (fun b => String.eqb (k a) (f b)) (omap h l) = h a.
Proof.
  intros Hnd Ha Hf. induction l as [|x l IH]; [by apply not_elem_of_nil in Ha|].
  cbn in Hnd. apply NoDup_cons in Hnd as [Hx Hnd]. apply elem_of_cons in Ha as [->|Ha].
  - cbn. destruct (h x) as [b|] eqn:Hh; [cbn; by rewrite (Hf _ _ Hh), String.eqb_refl|].
    destruct (List.find _ _) as [b|] eqn:Hb; [|done]. exfalso. apply find_some in Hb as [Hb Heq%String.eqb_eq].
    apply list_elem_of_In, list_elem_of_omap in Hb as (y & Hy & Hhy). apply Hx. rewrite Heq, (Hf _ _ Hhy).
    by apply list_elem_of_fmap_2.
  - cbn. destruct (h x) as [b|] eqn:Hh; [|by apply IH]. cbn. rewrite (Hf _ _ Hh).
    destruct (String.eqb_spec (k a) (k x)) as [Heq|]; [|by apply IH]. destruct Hx. rewrite <- Heq. by apply list_elem_of_fmap_2.
Qed.

Definition marked {X} (f : X -> string) (g : X -> CandidateExclusionReason) (xs : list X) (s : CandidateState) : CandidateState :=
  match List.find (fun x => String.eqb (id_str (key s)) (f x)) xs with Some x => exclude (g x) s | None => s end.
Lemma exclude_frame r s : same_frame s (exclude r s) /\ proxy_profile (exclude r s) = proxy_profile s /\ quote (exclude r s) = quote s.
Proof. unfold exclude. by destruct (exclusion s). Qed.
Lemma exclude_exclusion r s : exclusion (exclude r s) = first_reason [exclusion s; Some r].
Proof. unfold exclude. by destruct (exclusion s) eqn:He; cbn; rewrite ?He. Qed.
Lemma exclude_twice r r' s : exclude r' (exclude r s) = exclude r s.
Proof. unfold exclude. by destruct (exclusion s) eqn:He; cbn; rewrite ?He. Qed.
Lemma exclude_by_id_map candidate r l : NoDup (key <$> l) ->
  exclude_by_id candidate r l = (fun s => if String.eqb (id_str (key s)) candidate then exclude r s else s) <$> l.
Proof.
  induction l as [|s l IH]; intros Hnd; cbn; [done|]. cbn in Hnd. apply NoDup_cons in Hnd as [Hs Hnd].
  destruct (String.eqb_spec (id_str (key s)) candidate) as [Heq|]; [|by rewrite IH]. f_equal.
  rewrite <- (list_fmap_id l) at 1. apply list_fmap_ext. intros i s' Hi. cbn.
  destruct (String.eqb_spec (id_str (key s')) candidate) as [Heq'|]; [|done]. destruct Hs. apply list_elem_of_fmap. exists s'.
  split; [|by eapply list_elem_of_lookup_2]. destruct (key s), (key s'). cbn in *. congruence.
Qed.
Lemma fold_exclude {X} (f : X -> string) (g : X -> CandidateExclusionReason) xs l : NoDup (key <$> l) ->
  foldl (fun states x => exclude_by_id (f x) (g x) states) l xs = marked f g xs <$> l.
Proof.
  revert l. induction xs as [|x xs IH]; intros l Hnd; cbn [foldl].
  { rewrite <- (list_fmap_id l) at 1. by apply list_fmap_ext. }
  assert (forall s, key (if String.eqb (id_str (key s)) (f x) then exclude (g x) s else s) = key s) as Hkey.
  { intros s. destruct (String.eqb _ _); [|done]. apply exclude_frame. }
  rewrite exclude_by_id_map by done. rewrite IH.
  - rewrite <- list_fmap_compose. apply list_fmap_ext. intros i s _. unfold compose, marked. rewrite Hkey. cbn [List.find].
    destruct (String.eqb (id_str (key s)) (f x)); [|done]. destruct (List.find _ xs); [apply exclude_twice|done].
  - rewrite <- list_fmap_compose. erewrite list_fmap_ext; [exact Hnd|]. intros i s _. apply Hkey.
Qed.
Lemma marked_frame {X} (f : X -> string) g (xs : list X) s :
  same_frame s (marked f g xs s) /\ proxy_profile (marked f g xs s) = proxy_profile s /\ quote (marked f g xs s) = quote s.
Proof. unfold marked. destruct (List.find _ xs); [apply exclude_frame|done]. Qed.
Lemma marked_exclusion {X} (f : X -> string) g (xs : list X) s :
  exclusion (marked f g xs s) = first_reason [exclusion s; g <$> List.find (fun x => String.eqb (id_str (key s)) (f x)) xs].
Proof. unfold marked. destruct (List.find _ xs); [apply exclude_exclusion|]. cbn. by destruct (exclusion s). Qed.

Definition input_of (s : CandidateState) : RoutingCost.CandidateCostInput :=
  RoutingCost.mk_CandidateCostInput (MkId (id_str (key s))) (ModelPricing.quote_total <$> quote s).
Lemma cost_inputs_run l inputs : cost_inputs l = Ok inputs -> inputs = input_of <$> List.filter eligible l.
Proof.
  unfold cost_inputs. intros H%collect_Ok. induction H as [|s i ss js Hs _ IH]; [done|]. cbn. f_equal; [|done].
  unfold cost_input in Hs. apply result_bind_Ok in Hs as (id & Hid & Hs). apply result_bind_Ok in Hs as (q & Hq%ok_or_Ok & Hs).
  apply result_bind_Ok in Hs as (units & Hu & [= <-]). unfold input_of. rewrite Hq. cbn.
  unfold or_fail, RoutingCost.CostCandidateId_parse in Hid. destruct (_ || _); [done|]. injection Hid as <-.
  unfold or_fail, RoutingCost.CostUnits_new in Hu. destruct (_ <? _); [done|]. by injection Hu as <-.
Qed.
Lemma tier_of_exceeds c s : quote s = quote_of c -> is_Some (quote_of c) ->
  RoutingCost.tier_of (constraints (pricing request)) (input_of s) =
    match quote_of c with
    | Some q =>
        if exceeds (RoutingCost.hard_limit (constraints (pricing request))) c
        then RoutingCost.Excluded (RoutingCost.HardLimitExceeded (default 0 (RoutingCost.hard_limit (constraints (pricing request)))))
        else if exceeds (RoutingCost.soft_limit (constraints (pricing request))) c
             then RoutingCost.Fallback (ModelPricing.quote_total q) else RoutingCost.Preferred (ModelPricing.quote_total q)
    | None => RoutingCost.Excluded RoutingCost.MissingEstimate
    end.
Proof.
  intros Hq [q Hc]. unfold RoutingCost.tier_of, input_of, exceeds. cbn. rewrite Hq, Hc. cbn.
  destruct (RoutingCost.hard_limit _) as [hard|], (RoutingCost.soft_limit _) as [soft|]; cbn; try done;
    repeat match goal with |- context [?a <? ?b] => destruct (a <? b) end; done.
Qed.

(** What the pipeline leaves of a candidate. *)
Record final_state c (s : CandidateState) : Prop := {
  fs_frame : same_frame (prepared c) s;
  fs_exclusion : exclusion s = verdict c;
  fs_quote : exclusion s = None -> quote s = quote_of c /\ is_Some (quote_of c);
  fs_profile : exclusion s = None -> proxy_profile s = approved_profile c;
}.

Lemma offered_own catalog c : snapshot_value (pricing_catalog snapshots) = Some catalog ->
  own_verdict c = first_reason [exclusion (offered catalog c);
    (if exceeds (RoutingCost.hard_limit (constraints (pricing request))) c then Some HardCostLimit else None)].
Proof.
  intros Hcat. destruct (offered_spec catalog c Hcat) as (_ & -> & _).
  change (own_verdict c) with (first_reason (screen_verdicts c ++ [(if quote_of c then None else Some MissingPrice);
    (if exceeds (RoutingCost.hard_limit (constraints (pricing request))) c then Some HardCostLimit else None)])).
  rewrite first_reason_app. cbn. by repeat case_match.
Qed.
Lemma offered_quoted catalog c : snapshot_value (pricing_catalog snapshots) = Some catalog ->
  exclusion (offered catalog c) = None ->
  quote (offered catalog c) = quote_of c /\ is_Some (quote_of c) /\ proxy_profile (offered catalog c) = approved_profile c.
Proof.
  intros Hcat Hex. destruct (offered_spec catalog c Hcat) as (_ & He & Hq). destruct (Hq Hex) as [-> ->]. split_and!; try done.
  rewrite Hex in He. destruct (quote_of c); [done|]. symmetry in He.
  by pose proof (proj1 (first_reason_None _) He (Some MissingPrice) ltac:(right; left)).
Qed.

Section evaluation.
  Context (catalog : list ModelPricing.ModelPricingSchedule) (Hcat : snapshot_value (pricing_catalog snapshots) = Some catalog)
    (Hnd : NoDup (AccountPool.id <$> AccountPool.candidates (pool snapshots))).
Let quoted : list CandidateState := offered catalog <$> AccountPool.candidates (pool snapshots).
Let inputs : list RoutingCost.CandidateCostInput := input_of <$> List.filter eligible quoted.
Let evaluation := RoutingCost.evaluation_spec (constraints (pricing request)) inputs.
  Notation hard_over c := (exceeds (RoutingCost.hard_limit (constraints (pricing request))) c).
  Notation soft_over c := (exceeds (RoutingCost.soft_limit (constraints (pricing request))) c).

Lemma offered_key c : key (offered catalog c) = MkId (AccountPool.id c).
Proof. by destruct (offered_spec catalog c Hcat) as [(_ & -> & _) _]. Qed.
Lemma quoted_NoDup : NoDup (key <$> quoted).
Proof.
  assert (key <$> quoted = (fun i => MkId i) <$> (AccountPool.id <$> AccountPool.candidates (pool snapshots))) as ->.
  { unfold quoted. rewrite <- !list_fmap_compose. apply list_fmap_ext. intros i c _. apply offered_key. }
  apply NoDup_fmap_2; [|done]. by intros a b [= ->].
Qed.
Lemma inputs_NoDup : NoDup ((fun i => id_str (RoutingCost.candidate i)) <$> inputs).
Proof.
  unfold inputs. rewrite <- list_fmap_compose. unfold compose, input_of. cbn.
  apply (NoDup_fmap_filter (fun s : CandidateState => id_str (key s))).
  assert ((fun s => id_str (key s)) <$> quoted = id_str <$> (key <$> quoted)) as -> by (by rewrite <- list_fmap_compose).
  apply NoDup_fmap_2; [|apply quoted_NoDup]. intros [a] [b]. cbn. by intros ->.
Qed.
Lemma input_elem c : c ∈ AccountPool.candidates (pool snapshots) -> exclusion (offered catalog c) = None ->
  input_of (offered catalog c) ∈ inputs.
Proof.
  intros Hc He. unfold inputs. apply list_elem_of_fmap_2, elem_of_list_filter. split; [by apply list_elem_of_fmap_2|].
  unfold eligible. by rewrite He.
Qed.
Lemma input_tier c : exclusion (offered catalog c) = None ->
  RoutingCost.tier_of (constraints (pricing request)) (input_of (offered catalog c)) =
    if hard_over c then RoutingCost.Excluded (RoutingCost.HardLimitExceeded (default 0 (RoutingCost.hard_limit (constraints (pricing request)))))
    else if soft_over c then RoutingCost.Fallback (default 0 (ModelPricing.quote_total <$> quote_of c))
    else RoutingCost.Preferred (default 0 (ModelPricing.quote_total <$> quote_of c)).
Proof.
  intros He. destruct (offered_quoted catalog c Hcat He) as (Hq & Hs & _).
  rewrite (tier_of_exceeds c (offered catalog c) Hq Hs). by destruct Hs as [q ->].
Qed.
Lemma evaluation_exclusion c : c ∈ AccountPool.candidates (pool snapshots) -> exclusion (offered catalog c) = None ->
  (fun x => cost_reason (RoutingCost.reason x)) <$>
    List.find (fun x => String.eqb (AccountPool.id c) (id_str (RoutingCost.excluded_id x))) (RoutingCost.exclusions evaluation) =
  if hard_over c then Some HardCostLimit else None.
Proof.
  intros Hc He. unfold evaluation, RoutingCost.evaluation_spec. cbn [RoutingCost.exclusions].
  pose proof (find_omap_unique (fun i => id_str (RoutingCost.candidate i)) (fun x => id_str (RoutingCost.excluded_id x))
    (fun i => match RoutingCost.tier_of (constraints (pricing request)) i with
              | RoutingCost.Excluded why => Some (RoutingCost.mk_CostExclusion (RoutingCost.candidate i) why) | _ => None end)
    inputs (input_of (offered catalog c)) inputs_NoDup (input_elem c Hc He)) as Hfind.
  cbn beta in Hfind. change (id_str (RoutingCost.candidate (input_of (offered catalog c)))) with (id_str (key (offered catalog c))) in Hfind.
  rewrite offered_key in Hfind. cbn [id_str] in Hfind. rewrite Hfind.
  - rewrite (input_tier c He). destruct (hard_over c); [done|]. by destruct (soft_over c).
  - intros i x Hx. destruct (RoutingCost.tier_of _ i); [done..|]. by injection Hx as <-.
Qed.
Lemma evaluation_fallback c : c ∈ AccountPool.candidates (pool snapshots) -> exclusion (offered catalog c) = None ->
  is_Some (List.find (fun x => String.eqb (AccountPool.id c) (id_str (RoutingCost.costed_id x))) (RoutingCost.fallback evaluation)) <->
  hard_over c = false /\ soft_over c = true.
Proof.
  intros Hc He. unfold evaluation, RoutingCost.evaluation_spec. cbn [RoutingCost.fallback].
  pose proof (find_omap_unique (fun i => id_str (RoutingCost.candidate i)) (fun x => id_str (RoutingCost.costed_id x))
    (fun i => match RoutingCost.tier_of (constraints (pricing request)) i with
              | RoutingCost.Fallback units => Some (RoutingCost.mk_CostedCandidate (RoutingCost.candidate i) units) | _ => None end)
    inputs (input_of (offered catalog c)) inputs_NoDup (input_elem c Hc He)) as Hfind.
  cbn beta in Hfind. change (id_str (RoutingCost.candidate (input_of (offered catalog c)))) with (id_str (key (offered catalog c))) in Hfind.
  rewrite offered_key in Hfind. cbn [id_str] in Hfind. rewrite Hfind.
  - rewrite (input_tier c He). destruct (hard_over c), (soft_over c); cbn; split; try done; try (by intros [? ?]); by intros [].
  - intros i x Hx. destruct (RoutingCost.tier_of _ i); [done| |done]. by injection Hx as <-.
Qed.
Lemma own_verdict_None c : own_verdict c = None <-> exclusion (offered catalog c) = None /\ hard_over c = false.
Proof.
  rewrite (offered_own catalog c Hcat). cbn. destruct (exclusion (offered catalog c)); [by split; [|intros []]|].
  by destruct (hard_over c); split; try done; intros [].
Qed.
Lemma evaluation_preferred : RoutingCost.preferred evaluation = [] <->
  existsb (within_soft) (AccountPool.candidates (pool snapshots)) = false.
Proof.
  rewrite <- not_true_iff_false, existsb_exists. unfold evaluation, RoutingCost.evaluation_spec. cbn [RoutingCost.preferred]. split.
  - intros Hnil (c & Hc%list_elem_of_In & [Ho%bool_decide_eq_true Hs%negb_true_iff]%andb_true_iff).
    apply own_verdict_None in Ho as [He Hh]. apply (not_elem_of_nil (RoutingCost.mk_CostedCandidate (RoutingCost.candidate
      (input_of (offered catalog c))) (default 0 (ModelPricing.quote_total <$> quote_of c)))). rewrite <- Hnil.
    apply list_elem_of_omap. exists (input_of (offered catalog c)). split; [by apply input_elem|]. by rewrite (input_tier c He), Hh, Hs.
  - intros Hno. destruct (omap _ inputs) as [|x xs] eqn:Hx; [done|]. exfalso. apply Hno.
    assert (x ∈ x :: xs) as Hin by (by left). rewrite <- Hx in Hin. apply list_elem_of_omap in Hin as (i & Hi & Ht).
    unfold inputs in Hi. apply list_elem_of_fmap in Hi as (s & -> & [Hs He]%elem_of_list_filter).
    unfold quoted in Hs. apply list_elem_of_fmap in Hs as (c & -> & Hc). exists c. split; [by apply list_elem_of_In|].
    assert (exclusion (offered catalog c) = None) as He' by (unfold eligible in He; by destruct (exclusion _)).
    rewrite (input_tier c He') in Ht. unfold within_soft. apply andb_true_iff.
    destruct (hard_over c) eqn:Hh; [done|]. destruct (soft_over c); [done|]. split; [|done].
    apply bool_decide_eq_true, own_verdict_None. done.
Qed.
Definition tiered (s : CandidateState) : CandidateState :=
  let s := marked (fun x => id_str (RoutingCost.excluded_id x)) (fun x => cost_reason (RoutingCost.reason x)) (RoutingCost.exclusions evaluation) s in
  if bool_decide (RoutingCost.preferred evaluation = []) then s
  else marked (fun x => id_str (RoutingCost.costed_id x)) (fun _ => AboveSoftCostLimit) (RoutingCost.fallback evaluation) s.
Lemma apply_cost_exclusions_run : apply_cost_exclusions quoted evaluation = tiered <$> quoted.
Proof.
  unfold apply_cost_exclusions, tiered.
  rewrite (fold_exclude (fun x => id_str (RoutingCost.excluded_id x)) (fun x => cost_reason (RoutingCost.reason x))) by apply quoted_NoDup.
  case_bool_decide; [by apply list_fmap_ext|].
  rewrite (fold_exclude (fun x => id_str (RoutingCost.costed_id x)) (fun _ => AboveSoftCostLimit)).
  - by rewrite <- list_fmap_compose.
  - rewrite <- list_fmap_compose. erewrite list_fmap_ext; [apply quoted_NoDup|]. intros i s _. apply marked_frame.
Qed.
Lemma tiered_frame s : same_frame s (tiered s) /\ proxy_profile (tiered s) = proxy_profile s /\ quote (tiered s) = quote s.
Proof.
  unfold tiered. cbn zeta. set (s1 := marked _ _ (RoutingCost.exclusions evaluation) s).
  assert (same_frame s s1 /\ proxy_profile s1 = proxy_profile s /\ quote s1 = quote s) as (Hf & Hp & Hq) by apply marked_frame.
  case_bool_decide; [done|]. destruct (marked_frame (fun x => id_str (RoutingCost.costed_id x)) (fun _ => AboveSoftCostLimit)
    (RoutingCost.fallback evaluation) s1) as ((H1 & H2 & H3) & -> & ->). unfold same_frame in *. by rewrite H1, H2, H3.
Qed.
Lemma tiered_exclusion c : c ∈ AccountPool.candidates (pool snapshots) ->
  exclusion (tiered (offered catalog c)) = verdict c.
Proof.
  intros Hc. unfold verdict. rewrite (offered_own catalog c Hcat). unfold tiered. cbn zeta.
  set (s1 := marked _ _ (RoutingCost.exclusions evaluation) (offered catalog c)).
  assert (key s1 = MkId (AccountPool.id c)) as Hk by (rewrite <- (offered_key c); apply marked_frame).
  destruct (exclusion (offered catalog c)) as [r|] eqn:He.
  { assert (exclusion s1 = Some r) as H1 by (unfold s1; rewrite marked_exclusion, He; done).
    case_bool_decide; rewrite ?marked_exclusion, H1; done. }
  assert (exclusion s1 = if hard_over c then Some HardCostLimit else None) as H1.
  { unfold s1. rewrite marked_exclusion, He, offered_key. cbn [first_reason id_str]. rewrite evaluation_exclusion by done.
    by destruct (hard_over c). }
  cbn [first_reason]. case_bool_decide as Hpref.
  - rewrite H1. apply evaluation_preferred in Hpref. rewrite Hpref, andb_false_r. by destruct (hard_over c).
  - rewrite marked_exclusion, H1, Hk. cbn [id_str]. rewrite evaluation_preferred in Hpref. apply not_false_iff_true in Hpref.
    rewrite Hpref, andb_true_r. pose proof (evaluation_fallback c Hc He) as Hfb.
    destruct (hard_over c); [done|]. cbn [first_reason].
    destruct (List.find _ (RoutingCost.fallback evaluation)) as [x|] eqn:Hx; cbn.
    + destruct (proj1 Hfb) as [_ ->]; [by exists x|]. done.
    + destruct (soft_over c); [|done]. by destruct (proj2 Hfb).
Qed.
End evaluation.

Lemma final_of_offered catalog c s : snapshot_value (pricing_catalog snapshots) = Some catalog ->
  same_frame (offered catalog c) s -> proxy_profile s = proxy_profile (offered catalog c) -> quote s = quote (offered catalog c) ->
  (exclusion s = None -> exclusion (offered catalog c) = None) -> exclusion s = verdict c -> final_state c s.
Proof.
  intros Hcat (H1 & H2 & H3) Hp Hq He Hv. destruct (offered_spec catalog c Hcat) as ((F1 & F2 & F3) & _ & _). split.
  - unfold same_frame. by rewrite H1, H2, H3.
  - done.
  - intros Hn. destruct (offered_quoted catalog c Hcat (He Hn)) as (Hq' & Hs & _). by rewrite Hq.
  - intros Hn. destruct (offered_quoted catalog c Hcat (He Hn)) as (_ & _ & Hp'). by rewrite Hp.
Qed.
Lemma apply_pricing_run l : NoDup (AccountPool.id <$> AccountPool.candidates (pool snapshots)) ->
  apply_pricing request (pricing_catalog snapshots) (screened <$> AccountPool.candidates (pool snapshots)) = Ok l ->
  Forall2 final_state (AccountPool.candidates (pool snapshots)) l.
Proof.
  intros Hnd. unfold apply_pricing. intros (catalog & Hcat%ok_or_Ok & H)%result_bind_Ok. cbv zeta in H.
  assert (quote_candidates request catalog (screened <$> AccountPool.candidates (pool snapshots)) =
    offered catalog <$> AccountPool.candidates (pool snapshots)) as Hq.
  { unfold quote_candidates. by rewrite <- list_fmap_compose. }
  rewrite Hq in H. apply result_bind_Ok in H as (inputs & ->%cost_inputs_run & H).
  case_bool_decide as Hnil.
  - injection H as <-. apply Forall2_fmap_r, Forall_Forall2_diag, Forall_forall. intros c Hc.
    assert (exclusion (offered catalog c) <> None) as Hex.
    { intros He. apply (not_elem_of_nil (input_of (offered catalog c))). rewrite <- Hnil. by apply input_elem. }
    apply (final_of_offered catalog); try done. unfold verdict. rewrite (offered_own catalog c Hcat).
    by destruct (exclusion (offered catalog c)).
  - apply result_bind_Ok in H as (e & He & [= <-]). unfold evaluate_cost, or_fail in He. rewrite RoutingCost.evaluate_run in He.
    case_decide; [done|]. destruct (_ <? _); [done|]. destruct (all_fresh _ _ _); [|done]. injection He as <-.
    rewrite (apply_cost_exclusions_run catalog Hcat Hnd). apply Forall2_fmap_r, Forall2_fmap_r, Forall_Forall2_diag, Forall_forall.
    intros c Hc. destruct (tiered_frame catalog (offered catalog c)) as (Hf & Hp & Hqt).
    pose proof (tiered_exclusion catalog Hcat Hnd c Hc) as Hv. apply (final_of_offered catalog); try done.
    rewrite Hv. unfold verdict. rewrite (offered_own catalog c Hcat). by destruct (exclusion (offered catalog c)).
Qed.
(** *** The choice *)

Definition view c : RoutingPolicy.Candidate :=
  RoutingPolicy.mk_Candidate (AccountPool.id c) (AccountPool.priority c) (AccountPool.weight c) (AccountPool.load c) RoutingPolicy.Available.
Definition admissible c : bool := bool_decide (verdict c = None).
(** Why an admissible candidate lost to the chosen one. *)
Definition lost_to (b : SelectionBasis) (w c : AccountPool.CandidateMetadata) (r : CandidateExclusionReason) : Prop :=
  match b with
  | Affinity => r = AffinityPreferred
  | WeightedLeastLoad => exists why, RoutingPolicy.lost (view w) (view c) why /\ r = policy_reason why
  | WasmPolicy => False
  end.
Definition explains (b : SelectionBasis) (w c : AccountPool.CandidateMetadata) (x : CandidateExclusion) : Prop :=
  excluded x = MkId (AccountPool.id c) /\
  match verdict c with Some r => reason x = r | None => lost_to b w c (reason x) end.
(** The candidate a live affinity binding of the request names, if it is admissible. *)
Definition bound_candidate (c : AccountPool.CandidateMetadata) : Prop :=
  exists k now value, affinity request = Some (k, now) /\ snapshot_value (affinity_snapshot snapshots) = Some value /\
    AccountAffinity.snapshot_tenant_id value = AccountAffinity.tenant_id k /\
    affinity_candidate value k now = Some (AccountPool.id c).

Lemma final_key c s : final_state c s -> key s = MkId (AccountPool.id c) /\ source s = c.
Proof. intros [(Hs & Hk & _) _ _ _]. done. Qed.
Lemma final_eligible c s : final_state c s -> eligible s = admissible c.
Proof.
  intros [_ He _ _]. unfold eligible, admissible. rewrite He. destruct (verdict c); [by rewrite bool_decide_false|by rewrite bool_decide_true].
Qed.
Lemma final_filter cs l : Forall2 final_state cs l -> Forall2 final_state (List.filter admissible cs) (List.filter eligible l).
Proof.
  induction 1 as [|c s cs l Hc _ IH]; [constructor|]. cbn. rewrite (final_eligible c s Hc). destruct (admissible c); [by constructor|done].
Qed.
Lemma key_parse_Ok value (k : RoutingFailover.CandidateKey) (code : CoordinatorErrorCode) :
  or_fail code (RoutingFailover.CandidateKey_parse value) = Ok k -> k = MkId value.
Proof. unfold or_fail, RoutingFailover.CandidateKey_parse. destruct (_ || _); [done|]. by intros [= <-]. Qed.
Lemma policy_candidates_run cs l ps : Forall2 final_state cs l -> policy_candidates l = Ok ps -> ps = view <$> List.filter admissible cs.
Proof.
  intros H%final_filter. unfold policy_candidates. intros Hc%collect_Ok. revert ps Hc.
  induction H as [|c s cs' l' Hcs _ IH]; intros ps Hc; inversion Hc as [|? p ? ps' Hp Hps]; subst; [done|]. cbn. f_equal; [|by apply IH].
  destruct (final_key c s Hcs) as [Hk Hs]. unfold policy_candidate in Hp. rewrite Hk, Hs in Hp. cbn [id_str] in Hp.
  apply result_bind_Ok in Hp as (i & Hi & Hp). apply result_bind_Ok in Hp as (w & Hw & Hp). apply result_bind_Ok in Hp as (o & Ho & [= <-]).
  unfold or_fail, RoutingPolicy.CandidateId_new in Hi. destruct (_ || _); [done|]. injection Hi as <-.
  unfold or_fail, RoutingPolicy.Weight_new in Hw. destruct (_ <? _); [done|]. injection Hw as <-.
  unfold or_fail, RoutingPolicy.Load_new in Ho. destruct (_ <? _); [done|]. by injection Ho as <-.
Qed.
Lemma choose_weighted_run ps k xs : NoDup (RoutingPolicy.candidate_id <$> ps) -> choose_weighted ps = Ok (k, xs) ->
  exists w, RoutingPolicy.least ps w /\ k = MkId (RoutingPolicy.candidate_id w) /\
    Forall2 (fun x p => excluded x = MkId (RoutingPolicy.candidate_id p) /\
      exists why, RoutingPolicy.lost w p why /\ reason x = policy_reason why) xs (List.filter (fun p => bool_decide (p <> w)) ps).
Proof.
  intros Hnd. unfold choose_weighted. intros (prepared & Hp & H)%result_bind_Ok.
  unfold or_fail, RoutingPolicy.PreparedCandidateSet_new in Hp. destruct (RoutingPolicy.validate_candidates ps); [|done].
  injection Hp as <-. apply result_bind_Ok in H as (sel & Hsel & H). unfold or_fail, RoutingPolicy.select_prepared in Hsel.
  pose proof (RoutingPolicy.select_candidates_spec ps Hnd) as Hspec.
  destruct (RoutingPolicy.select_candidates ps) as [sel'|]; [|done]. injection Hsel as <-. destruct Hspec as (Hcs & Hw & Hprio).
  apply result_bind_Ok in H as (k' & ->%key_parse_Ok & H). apply result_bind_Ok in H as (xs' & Hxs%collect_Ok & [= <- <-]).
  exists (RoutingPolicy.winner sel'). split_and!; [done|done|].
  unfold RoutingPolicy.explain in Hxs. cbn in Hxs. rewrite Hcs, Hprio in Hxs.
  pose proof (RoutingPolicy.explain_spec ps _ ps Hnd Hw ltac:(done)) as Hex. revert Hex Hxs.
  generalize (RoutingPolicy.explain_exclusions ps (RoutingPolicy.winner sel') (RoutingPolicy.priority (RoutingPolicy.winner sel'))).
  generalize (List.filter (fun p => bool_decide (p <> RoutingPolicy.winner sel')) ps). intros ds es Hex. revert xs'.
  induction Hex as [|e p es ds [Hid Hlost] _ IH]; intros xs' Hxs; inversion Hxs as [|? x ? xs1 Hx Hxs1]; subst; constructor; [|by apply IH].
  unfold map_policy_exclusion in Hx. apply result_bind_Ok in Hx as (key' & ->%key_parse_Ok & [= <-]). cbn. rewrite Hid. eauto.
Qed.
Section choice.
  Context (l : list CandidateState) (Hl : Forall2 final_state (AccountPool.candidates (pool snapshots)) l)
    (Hnd : NoDup (AccountPool.id <$> AccountPool.candidates (pool snapshots))).
  Notation cands := (AccountPool.candidates (pool snapshots)).
  Notation rivals w := (List.filter (fun c => bool_decide (c <> w)) (List.filter admissible cands)).

Lemma admissible_elem c : c ∈ List.filter admissible cands <-> c ∈ cands /\ verdict c = None.
Proof. unfold admissible. by rewrite elem_of_list_filter, bool_decide_eq_true. Qed.
Lemma state_at i s : l !! i = Some s -> exists w, cands !! i = Some w /\ w ∈ cands /\ final_state w s.
Proof.
  intros Hs. destruct (Forall2_lookup_r _ _ _ _ _ Hl Hs) as (w & Hw & Hf). exists w.
  split_and!; [done|by eapply list_elem_of_lookup_2|done].
Qed.
Lemma position_Some (p : CandidateState -> bool) i : position p l = Some i -> exists s, l !! i = Some s /\ p s = true.
Proof.
  unfold position. destruct (list_find _ l) as [[j s]|] eqn:Hf; [|done]. intros [= <-].
  apply list_find_Some in Hf as (Hs & Hp & _). exists s. split; [done|]. by destruct (p s).
Qed.
Lemma view_rivals w : w ∈ cands ->
  List.filter (fun p => bool_decide (p <> view w)) (view <$> List.filter admissible cands) = view <$> rivals w.
Proof.
  intros Hw. rewrite list_filter_fmap. f_equal. apply list_filter_ext. intros c [Hc _]%admissible_elem.
  apply bool_decide_ext. split; [by intros Hn ->|]. intros Hn Hv. apply Hn. apply (NoDup_key_inj AccountPool.id cands); try done.
  by injection Hv.
Qed.
Lemma select_weighted_run i b xs : select_weighted l = Ok (i, b, xs) ->
  b = WeightedLeastLoad /\ exists w s, cands !! i = Some w /\ l !! i = Some s /\ verdict w = None /\
    RoutingPolicy.least (view <$> List.filter admissible cands) (view w) /\
    Forall2 (fun x c => excluded x = MkId (AccountPool.id c) /\ lost_to WeightedLeastLoad w c (reason x)) xs (rivals w).
Proof.
  unfold select_weighted. intros (ps & ->%(policy_candidates_run _ _ _ Hl) & H)%result_bind_Ok.
  apply result_bind_Ok in H as (u & _ & H). apply result_bind_Ok in H as ([k xs'] & Hch & H).
  apply result_bind_Ok in H as (i' & Hpos%ok_or_Ok & [= -> <- ->]). split; [done|].
  apply choose_weighted_run in Hch as (p & Hp & -> & Hxs).
  2: { rewrite <- list_fmap_compose. by apply (NoDup_fmap_filter AccountPool.id). }
  assert (exists w, p = view w /\ w ∈ cands /\ verdict w = None) as (w & -> & Hw & Hv).
  { destruct Hp as [(w & -> & [Hw Hv]%admissible_elem)%list_elem_of_fmap _]. by exists w. }
  apply position_Some in Hpos as (s & Hs & Hk%bool_decide_eq_true). destruct (state_at i s Hs) as (w' & Hw' & Hin & Hf).
  destruct (final_key _ _ Hf) as [Hk' _]. rewrite Hk in Hk'. injection Hk' as Hid. cbn in Hid.
  assert (w' = w) as -> by (by apply (NoDup_key_inj AccountPool.id cands)). exists w, s. split_and!; try done.
  rewrite (view_rivals w Hw) in Hxs. apply Forall2_fmap_r in Hxs. eapply Forall2_impl; [exact Hxs|]. intros x c [Hx Hwhy]. by split.
Qed.
Lemma affinity_exclusions_run i w : cands !! i = Some w ->
  Forall2 (fun x c => excluded x = MkId (AccountPool.id c) /\ lost_to Affinity w c (reason x)) (affinity_exclusions l i) (rivals w).
Proof.
  intros Hi. assert (forall j c, cands !! j = Some c -> c = w <-> (0 + j)%nat = i) as Hat.
  { intros j c Hj. split; [|intros <-; cbn in Hi; congruence]. intros ->.
    assert (forall j, cands !! j = Some w -> (AccountPool.id <$> cands) !! j = Some (AccountPool.id w)) as Hid.
    { intros j' Hj'. rewrite list_lookup_fmap. by rewrite Hj'. }
    exact (NoDup_lookup _ _ _ _ Hnd (Hid _ Hj) (Hid _ Hi)). }
  clear Hi Hnd. unfold affinity_exclusions. change (imap (fun i s => (i, s)) l) with (imap (fun j s => ((0 + j)%nat, s)) l).
  revert Hat. generalize 0%nat. revert Hl. generalize cands. induction l as [|s l' IH]; intros cs Hcs n Hat;
    inversion Hcs as [|c ? cs' ? Hc Hcs']; subst; [constructor|]. rewrite imap_cons. cbn.
  assert (imap ((fun j s => ((n + j)%nat, s)) ∘ S) l' = imap (fun j s => ((S n + j)%nat, s)) l') as ->.
  { apply imap_ext. intros j x _. cbn. f_equal. lia. }
  assert (forall j c0, cs' !! j = Some c0 -> c0 = w <-> (S n + j)%nat = i) as Hat'.
  { intros j c0 Hj. rewrite (Hat (S j) c0 Hj). lia. }
  specialize (IH cs' Hcs' (S n) Hat'). rewrite (final_eligible c s Hc). pose proof (Hat 0%nat c eq_refl) as H0.
  rewrite Nat.add_0_r in *. destruct (final_key _ _ Hc) as [Hk _].
  destruct (Nat.eqb_spec n i) as [Hn|Hn]; cbn.
  - destruct (admissible c); cbn; [|exact IH]. rewrite bool_decide_false; [exact IH|]. intros Hne. by apply Hne, H0.
  - destruct (admissible c); cbn; [|exact IH]. rewrite bool_decide_true by tauto. constructor; [|exact IH]. by rewrite Hk.
Qed.
Lemma select_candidate_run d i b xs d' : select_candidate request (affinity_snapshot snapshots) l d = Ok (i, b, xs, d') ->
  exists w s, cands !! i = Some w /\ l !! i = Some s /\ verdict w = None /\
    match b with
    | Affinity => bound_candidate w
    | WeightedLeastLoad => RoutingPolicy.least (view <$> List.filter admissible cands) (view w) /\
        forall c, c ∈ cands -> verdict c = None -> ~ bound_candidate c
    | WasmPolicy => False
    end /\
    Forall2 (fun x c => excluded x = MkId (AccountPool.id c) /\ lost_to b w c (reason x)) xs (rivals w).
Proof.
  unfold select_candidate. intros ([found d1] & Hfound & H)%result_bind_Ok.
  assert (found = None -> (forall c, c ∈ cands -> verdict c = None -> ~ bound_candidate c) -> exists w s, cands !! i = Some w /\
    l !! i = Some s /\ verdict w = None /\ match b with
    | Affinity => bound_candidate w
    | WeightedLeastLoad => RoutingPolicy.least (view <$> List.filter admissible cands) (view w) /\
        forall c, c ∈ cands -> verdict c = None -> ~ bound_candidate c
    | WasmPolicy => False
    end /\ Forall2 (fun x c => excluded x = MkId (AccountPool.id c) /\ lost_to b w c (reason x)) xs (rivals w)) as Hweighted.
  { intros -> Hfree. apply result_bind_Ok in H as ([[i' b'] xs'] & Hsel & [= -> -> -> ->]).
    apply select_weighted_run in Hsel as (-> & w & s & ? & ? & ? & ? & ?). exists w, s. by split_and!. }
  unfold select_affinity_candidate in Hfound. destruct (affinity request) as [[k now]|] eqn:Haff.
  2: { injection Hfound as <- <-. apply Hweighted; [done|]. intros c _ _ (k & now & value & Hk & _). congruence. }
  apply result_bind_Ok in Hfound as ([selected d2] & Hsel & Hfound). unfold select_affinity in Hsel.
  destruct (snapshot_value (affinity_snapshot snapshots)) as [value|] eqn:Hval.
  2: { case_bool_decide; [done|]. injection Hsel as <- <-. injection Hfound as <- <-. apply Hweighted; [done|].
       intros c _ _ (? & ? & value & _ & Hv & _). congruence. }
  case_bool_decide as Ht; [done|]. cbn in Hsel. injection Hsel as Hsel <-.
  destruct (affinity_candidate value k now) as [name|] eqn:Hname; cbn in Hsel.
  2: { subst selected. injection Hfound as <- <-. apply Hweighted; [done|].
       intros c _ _ (k' & now' & value' & Hk & Hv & _ & Hc). congruence. }
  destruct selected as [i'|].
  - injection Hfound as <- <-. injection H as -> <- <- <-. apply position_Some in Hsel as (s & Hs & [Hel Hid%String.eqb_eq]%andb_true_iff).
    destruct (state_at i s Hs) as (w & Hw & Hin & Hf). destruct (final_key _ _ Hf) as [Hk _]. rewrite Hk in Hid. cbn in Hid.
    exists w, s. split_and!; [done|done| | |by apply affinity_exclusions_run].
    + rewrite (final_eligible _ _ Hf) in Hel. by apply bool_decide_eq_true in Hel.
    + exists k, now, value. rewrite Hid. by split_and!.
  - injection Hfound as <- <-. apply Hweighted; [done|]. intros c Hc Hv (k' & now' & value' & Hk & Hv' & _ & Hcn).
    assert (name = AccountPool.id c) as -> by congruence. unfold position in Hsel.
    destruct (list_find _ l) as [|] eqn:Hf; [done|]. apply list_find_None in Hf.
    apply list_elem_of_lookup in Hc as [j Hj]. destruct (Forall2_lookup_l _ _ _ _ _ Hl Hj) as (s & Hs & Hfs).
    rewrite Forall_lookup in Hf. apply (Hf j s Hs). destruct (final_key _ _ Hfs) as [Hkey _].
    rewrite (final_eligible _ _ Hfs), Hkey. cbn. rewrite String.eqb_refl. unfold admissible. by rewrite bool_decide_true.
Qed.

Lemma dedup_strict xs : strictly_sorted_by excluded xs -> dedup xs = xs.
Proof.
  induction 1 as [|x xs _ IH Hx]; [done|]. cbn. rewrite IH. destruct xs as [|y xs]; [done|].
  apply Forall_cons in Hx as [Hxy _]. rewrite bool_decide_false; [done|]. intros Heq. rewrite Heq in Hxy. by apply ord_lt_irrefl in Hxy.
Qed.
Lemma bound_exclusions_run xs : NoDup (excluded <$> xs) ->
  bound_exclusions xs = (take (N.to_nat MAX_RETAINED_EXCLUSIONS) (sort_by excluded xs), MAX_RETAINED_EXCLUSIONS <? len xs) /\
  strictly_sorted_by excluded (sort_by excluded xs).
Proof.
  intros Hx. assert (strictly_sorted_by excluded (sort_by excluded xs)) as Hs.
  { apply sorted_NoDup_strict; [apply sort_by_sorted|by rewrite sort_by_Permutation]. }
  split; [|done]. unfold bound_exclusions. rewrite (dedup_strict _ Hs). unfold len. by rewrite (Permutation_length (sort_by_Permutation excluded xs)).
Qed.
(** Every candidate but the chosen one, with its reason: from the passes, then from the choice. *)
Lemma exclusions_explain b w xs : w ∈ cands -> verdict w = None ->
  Forall2 (fun x c => excluded x = MkId (AccountPool.id c) /\ lost_to b w c (reason x)) xs (rivals w) ->
  exists cs, cs ≡ₚ List.filter (fun c => bool_decide (c <> w)) cands /\ Forall2 (fun x c => explains b w c x) (state_exclusions l ++ xs) cs.
Proof.
  intros Hw Hv Hxs. exists (List.filter (fun c => negb (admissible c)) cands ++ rivals w). split.
  - assert (List.filter (fun c => bool_decide (c <> w)) cands ≡ₚ
      List.filter (fun c => bool_decide (c <> w)) (List.filter (fun c => negb (admissible c)) cands) ++ rivals w) as ->.
    { generalize cands. intros cs. induction cs as [|c cs IH]; [done|]. cbn. destruct (admissible c); cbn; case_bool_decide; cbn; try done.
      - by rewrite IH, Permutation_middle.
      - by rewrite IH. }
    f_equiv. assert (forall c, c ∈ List.filter (fun c => negb (admissible c)) cands -> bool_decide (c <> w) = true) as Hall.
    { intros c [_ Hc]%elem_of_list_filter. apply bool_decide_eq_true. intros ->. unfold admissible in Hc. by rewrite bool_decide_true in Hc. }
    rewrite (list_filter_ext (fun c => bool_decide (c <> w)) (fun _ => true) _ Hall). by rewrite list_filter_true.
  - apply Forall2_app.
    + clear Hnd Hw Hv Hxs. revert Hl. generalize cands. induction l as [|s l' IH]; intros cs Hcs; inversion Hcs as [|c ? cs' ? Hc Hcs']; subst; [constructor|].
      cbn. destruct (final_key _ _ Hc) as [Hk _]. rewrite (fs_exclusion _ _ Hc). unfold admissible at 1.
      destruct (verdict c) as [r|] eqn:Hv; cbn; [|by apply IH]. constructor; [|by apply IH].
      unfold explains. rewrite Hv. cbn [excluded reason]. by rewrite Hk.
    + assert (forall c, c ∈ rivals w -> verdict c = None) as Hr.
      { intros c [[_ Hc]%admissible_elem _]%elem_of_list_filter. done. }
      revert Hr. induction Hxs as [|x c xs cs [Hx Hwhy] _ IH]; intros Hr; constructor.
      * unfold explains. rewrite (Hr c) by (by left). done.
      * apply IH. intros c' Hc'. apply Hr. by right.
Qed.
End choice.
End verdicts.

Lemma validate_model_Ok request ms entry : validate_model request ms = Ok entry ->
  ModelCatalog.resolve_internal ms (RoutingDomain.model (context request)) = Ok entry /\
  ModelCatalog.is_visible_to (ModelCatalog.visibility entry) (RoutingDomain.tenant_id (context request)) = true /\
  Forall (fun capability => exists mapped, map_capability capability = Ok mapped /\
    ModelDomain.contains (ModelDomain.capabilities (ModelCatalog.descriptor entry)) mapped = true)
    (RoutingDomain.required_capabilities (context request)).
Proof.
  unfold validate_model. intros (e & He & H)%result_bind_Ok. apply result_bind_Ok in H as (u & Hv%reject_if_Ok%negb_false_iff & H).
  apply result_bind_Ok in H as (us & Hc%collect_Ok & [= ->]). unfold or_fail in He.
  destruct (ModelCatalog.resolve_internal _ _) as [e'|]; [|done]. injection He as ->. split_and!; try done.
  induction Hc as [|capability v cs vs Hm _ IH]; constructor; [|done].
  apply result_bind_Ok in Hm as (mapped & ? & ?%reject_if_Ok%negb_false_iff). by exists mapped.
Qed.
Lemma prepare_selection_run request snapshots sel :
  NoDup (AccountPool.id <$> AccountPool.candidates (pool snapshots)) -> prepare_selection request snapshots = Ok sel ->
  Forall2 (final_state request snapshots) (AccountPool.candidates (pool snapshots)) (states sel) /\
  (forall c, c ∈ AccountPool.candidates (pool snapshots) -> AccountPool.tenant_id c = Some (RoutingDomain.tenant_id (context request))) /\
  exists policy d d', select_candidate request (affinity_snapshot snapshots) (states sel) d =
      Ok (selected_index sel, basis sel, policy, d') /\
    (exclusions sel, exclusions_truncated sel) = bound_exclusions (state_exclusions (states sel) ++ policy).
Proof.
  intros Hnd. unfold prepare_selection. intros (m & _ & H)%result_bind_Ok.
  apply result_bind_Ok in H as ([l d] & [-> Ht]%prepare_state_run & H).
  apply result_bind_Ok in H as (l' & Hl%(apply_pricing_run _ _ _ Hnd) & H).
  apply result_bind_Ok in H as ([[[i b] xs] d'] & Hsel & H). destruct (collect_exclusions l' xs) as [es tr] eqn:He.
  injection H as <-. cbn. split_and!; try done. exists xs, d, d'. by rewrite <- He.
Qed.

(** One candidate whose price exceeds the cost units fails the selection for all of them. *)
Lemma dear_quote_fails l s q : s ∈ l -> eligible s = true -> quote s = Some q -> RoutingCost.MAX_COST_UNITS < ModelPricing.quote_total q ->
  is_ok (cost_inputs l) = false.
Proof.
  intros Hs He Hq Hd. destruct (cost_inputs l) as [is'|e] eqn:Hi; [|done]. unfold cost_inputs in Hi. apply collect_Ok in Hi.
  assert (s ∈ List.filter eligible l) as Hin by (by apply list_elem_of_In, filter_In; rewrite <- list_elem_of_In).
  apply list_elem_of_lookup in Hin as [i Hin]. destruct (Forall2_lookup_l _ _ _ _ _ Hi Hin) as (x & _ & Hx).
  unfold cost_input in Hx. rewrite Hq in Hx. apply result_bind_Ok in Hx as (k & _ & Hx). cbn in Hx.
  apply result_bind_Ok in Hx as (u & Hu & _). unfold or_fail, RoutingCost.CostUnits_new in Hu.
  by rewrite (proj2 (N.ltb_lt _ _) Hd) in Hu.
Qed.
(** The state of the selected candidate. *)
Lemma selected_state request snapshots sel :
  NoDup (AccountPool.id <$> AccountPool.candidates (pool snapshots)) -> prepare_selection request snapshots = Ok sel ->
  exists w s, w ∈ AccountPool.candidates (pool snapshots) /\ states sel !! selected_index sel = Some s /\ source s = w /\
    key s = MkId (AccountPool.id w) /\ verdict request snapshots w = None /\
    provider_model s = mapped_model request snapshots w /\ is_Some (provider_model s) /\
    quote s = quote_of request snapshots w /\ is_Some (quote s) /\ proxy_profile s = approved_profile snapshots w.
Proof.
  intros Hnd Hsel. destruct (prepare_selection_run _ _ _ Hnd Hsel) as (Hl & _ & policy & d & d' & Hch & _).
  destruct (select_candidate_run _ _ _ Hl Hnd _ _ _ _ _ Hch) as (w & s & Hw & Hs & Hv & _).
  pose proof (Forall2_lookup_lr _ _ _ _ _ _ Hl Hw Hs) as Hfs. pose proof (final_key _ _ _ _ Hfs) as [Hkey _].
  destruct Hfs as [(Hsrc & _ & Hpm) Hex Hq Hpp]. rewrite Hv in Hex.
  destruct (Hq Hex) as [Hq1 Hq2]. exists w, s. split_and!; try done; [by eapply list_elem_of_lookup_2| |by rewrite Hq1|by apply Hpp].
  rewrite Hpm. cbn. destruct Hq2 as [q Hq2]. unfold quote_of in Hq2. by destruct (mapped_model request snapshots w).
Qed.

(** A tenant with three accounts of one provider: [c] is unavailable, [b] is less loaded than [a]. *)
Definition sample_candidate (name : string) (load : N) (availability : AccountPool.Availability) : AccountPool.CandidateMetadata :=
  AccountPool.mk_CandidateMetadata name (Some (MkId "t")) (MkId name) (MkId "p") (Some "m2") (Some 2) AccountDomain.OPEN 1 10 load availability.
Definition absent {T} : OptionalSnapshot T := mk_OptionalSnapshot None AllowWithDegradation.
Definition sample_snapshots : CoordinationSnapshots := mk_CoordinationSnapshots
  (AccountPool.mk_CandidateSnapshot 1 1 [sample_candidate "a" 5 AccountPool.Available; sample_candidate "b" 1 AccountPool.Available;
    sample_candidate "c" 0 AccountPool.Unavailable])
  (ModelCatalog.mk_ModelCatalogSnapshot 1 (reverse ModelCatalog.sample_entries))
  (mk_OptionalSnapshot (Some [ModelPricing.mk_ModelPricingSchedule "m2" "USD" 1 (ModelPricing.mk_EffectiveWindow 0 None)
    [ModelPricing.mk_PriceEntry ModelPricing.InputTokens 3]]) FailClosed)
  (mk_EligibilitySnapshots absent absent absent absent absent) absent.
Definition sample_request : CoordinationRequest := mk_CoordinationRequest
  (RoutingDomain.mk_RoutingContext (MkId "t") (MkId "r") "slow" []) None 100
  (mk_PricingRequest ModelPricing.InputTokens 20 (RoutingCost.mk_CostConstraints (Some 70) None))
  (mk_AdmissionTemplate (MkId "r1") 3 (mk_AdmissionTimes 1000 0 10 500) None)
  (mk_RetryPolicy RoutingFailover.Idempotent 2) None.
Definition sample_selection : result CoordinatorError RouteSelection := prepare_selection sample_request sample_snapshots.
Example sample_selects : match sample_selection with
  | Ok sel => (selected_index sel, (fun x => (id_str (excluded x), reason x)) <$> exclusions sel, degradation_list (degradations sel)) =
      (1%nat, [("a"%string, HigherEffectiveLoad); ("c"%string, PoolUnavailable)],
       [HealthSignal; CircuitSignal; QuotaSignal; ScheduleSignal; ProxySignal])
  | Err _ => False
  end.
Proof. vm_compute. reflexivity. Qed.

(** ** Properties *)

(** C2: the accumulating passes over mutable states decide every candidate by itself.  A
    selection is made for a model the tenant may see with every required capability, from
    candidates that are all of the tenant; the chosen candidate is one no signal, price or
    limit rules out, with the provider model, quote and proxy profile these signals give it.
    It is the one a live affinity binding names, or, when no binding names an admissible
    candidate, the least of the admissible ones in the order of the routing policy.  Every
    other candidate is explained once, in key order and up to the retention bound, with the
    first reason of the pipeline that rules it out, or with the reason it lost the choice. *)
Theorem selection_exact request snapshots sel
    (Hnd : NoDup (AccountPool.id <$> AccountPool.candidates (pool snapshots))) (Hsel : prepare_selection request snapshots = Ok sel) :
  let candidates := AccountPool.candidates (pool snapshots) in
  (exists entry, ModelCatalog.resolve_internal (models snapshots) (RoutingDomain.model (context request)) = Ok entry /\
    ModelCatalog.is_visible_to (ModelCatalog.visibility entry) (RoutingDomain.tenant_id (context request)) = true /\
    Forall (fun capability => exists mapped, map_capability capability = Ok mapped /\
      ModelDomain.contains (ModelDomain.capabilities (ModelCatalog.descriptor entry)) mapped = true)
      (RoutingDomain.required_capabilities (context request))) /\
  (forall c, c ∈ candidates -> AccountPool.tenant_id c = Some (RoutingDomain.tenant_id (context request))) /\
  exists w s, w ∈ candidates /\ states sel !! selected_index sel = Some s /\ source s = w /\ verdict request snapshots w = None /\
    provider_model s = mapped_model request snapshots w /\ is_Some (provider_model s) /\
    quote s = quote_of request snapshots w /\ is_Some (quote s) /\ proxy_profile s = approved_profile snapshots w /\
    match basis sel with
    | Affinity => bound_candidate request snapshots w
    | WeightedLeastLoad =>
        RoutingPolicy.least (view <$> List.filter (admissible request snapshots) candidates) (view w) /\
        forall c, c ∈ candidates -> verdict request snapshots c = None -> ~ bound_candidate request snapshots c
    | WasmPolicy => False
    end /\
    exists all cs, cs ≡ₚ List.filter (fun c => bool_decide (c <> w)) candidates /\
      Forall2 (fun x c => explains request snapshots (basis sel) w c x) all cs /\ strictly_sorted_by excluded all /\
      exclusions sel = take (N.to_nat MAX_RETAINED_EXCLUSIONS) all /\
      exclusions_truncated sel = (MAX_RETAINED_EXCLUSIONS <? len all).
Proof.
  cbv zeta. split.
  { unfold prepare_selection in Hsel. apply result_bind_Ok in Hsel as (entry & Hm & _). exists entry. by apply validate_model_Ok. }
  destruct (prepare_selection_run _ _ _ Hnd Hsel) as (Hl & Ht & policy & d & d' & Hch & Hb). split; [done|].
  destruct (select_candidate_run _ _ _ Hl Hnd _ _ _ _ _ Hch) as (w & s & Hw & Hs & Hv & Hbasis & Hxs).
  assert (w ∈ AccountPool.candidates (pool snapshots)) as Hin by (by eapply list_elem_of_lookup_2).
  destruct (Forall2_lookup_lr _ _ _ _ _ _ Hl Hw Hs) as [(Hsrc & _ & Hpm) Hex Hq Hpp]. rewrite Hv in Hex.
  destruct (Hq Hex) as [Hq1 Hq2]. exists w, s. split_and!; try done; [|by rewrite Hq1|by apply Hpp|].
  - rewrite Hpm. cbn. destruct Hq2 as [q Hq2]. unfold quote_of in Hq2. by destruct (mapped_model request snapshots w).
  - destruct (exclusions_explain _ _ _ Hl _ w policy Hin Hv Hxs) as (cs0 & Hcs0 & Hall).
    assert (NoDup (excluded <$> state_exclusions (states sel) ++ policy)) as Hkeys.
    { assert (excluded <$> state_exclusions (states sel) ++ policy = (fun i => MkId i) <$> (AccountPool.id <$> cs0)) as ->.
      { clear Hb Hcs0. induction Hall as [|x c xs cs [Hx _] _ IH]; [done|]. cbn. by rewrite IH, Hx. }
      apply NoDup_fmap_2; [by intros ? ? [= ->]|]. rewrite Hcs0. by apply NoDup_fmap_filter. }
    destruct (bound_exclusions_run _ Hkeys) as [Hrun Hsorted]. rewrite Hrun in Hb. injection Hb as -> ->.
    destruct (Permutation_Forall2 (Permutation_sym (sort_by_Permutation excluded _)) Hall) as (cs & Hcs & Hall').
    exists (sort_by excluded (state_exclusions (states sel) ++ policy)), cs. split_and!; try done.
    + by rewrite <- Hcs.
    + unfold len. by rewrite (Permutation_length (sort_by_Permutation excluded _)).
Qed.
Lemma selection_exact_witness : match sample_selection with
  | Ok sel => exists w s, w ∈ AccountPool.candidates (pool sample_snapshots) /\ states sel !! selected_index sel = Some s /\ source s = w
  | Err _ => False
  end.
Proof.
  destruct sample_selection as [sel|e] eqn:Hsel; [|vm_compute in Hsel; discriminate Hsel].
  destruct (selection_exact sample_request sample_snapshots sel) as (_ & _ & w & s & Hw & Hs & Hsrc & _); [|exact Hsel|].
  - apply (bool_decide_unpack _). vm_compute. exact I.
  - exists w, s. split; [exact Hw|]. split; [exact Hs|exact Hsrc].
Defined.
