(* ===== verification/RoutingUsage.v ===== *)
(** * Usage confirmation of a provider attempt

    Models [crates/optional/ariadnion-routing-usage/src/lib.rs]: the canonical usage report,
    the idempotency identity it is bound to, and the receipts that replay it.  The durable
    ingestion behind the trait [UsageConfirmationPort] is not in the repository, and nothing
    here depends on it. *)

From S2P Require Import Prelude CoreTypes.
#[local] Open Scope N_scope.

Definition MAX_IDENTIFIER_BYTES : N := 128.
Definition MAX_USAGE_AMOUNT : N := N.shiftl 1 50.
Definition MAX_USAGE_DIMENSIONS : N := 8.

Inductive UsageConfirmationErrorCode :=
| InvalidIdentifier | UsageOutOfRange | UsageReportEmpty | TooManyDimensions | DuplicateDimension
| ReceiptMismatch | ReplayConflict | PortUnavailable.
Definition replay_error_code (code : UsageConfirmationErrorCode) : string :=
  match code with
  | ReceiptMismatch => "ROUTING_USAGE_RECEIPT_MISMATCH"
  | ReplayConflict => "ROUTING_USAGE_REPLAY_CONFLICT"
  | PortUnavailable => "ROUTING_USAGE_PORT_UNAVAILABLE"
  | _ => "ROUTING_USAGE_INVALID_ERROR_CODE"
  end.
Definition as_str (code : UsageConfirmationErrorCode) : string :=
  match code with
  | InvalidIdentifier => "ROUTING_USAGE_INVALID_IDENTIFIER"
  | UsageOutOfRange => "ROUTING_USAGE_AMOUNT_OUT_OF_RANGE"
  | UsageReportEmpty => "ROUTING_USAGE_REPORT_EMPTY"
  | TooManyDimensions => "ROUTING_USAGE_TOO_MANY_DIMENSIONS"
  | DuplicateDimension => "ROUTING_USAGE_DUPLICATE_DIMENSION"
  | ReceiptMismatch | ReplayConflict | PortUnavailable => replay_error_code code
  end.

(** ** Identities *)

Definition BoundedIdentifier_parse (value : string) : result UsageConfirmationErrorCode string :=
  if is_empty value || (MAX_IDENTIFIER_BYTES <? byte_len value) || negb (is_ascii value) ||
     any_byte (fun b => negb (is_visible_ascii b)) value
  then Err InvalidIdentifier else Ok value.
Definition MeteringReceiptId := string.
Definition ReconciliationId := string.

Record UsageConfirmationId := mk_UsageConfirmationId {
  tenant : TenantId; account : AccountId; request : Id RequestKind; attempt : Id AttemptKind;
}.
#[export] Instance UsageConfirmationId_eq_dec : EqDecision UsageConfirmationId.
Proof. solve_decision. Defined.

(** ** Reports *)

Inductive UsageDimension :=
| InputTokens | OutputTokens | CachedInputTokens | AudioInputUnits | AudioOutputUnits | ImageUnits | RequestUnits | ToolCalls.
#[export] Instance UsageDimension_eq_dec : EqDecision UsageDimension.
Proof. solve_decision. Defined.
Definition ALL_DIMENSIONS : list UsageDimension :=
  [InputTokens; OutputTokens; CachedInputTokens; AudioInputUnits; AudioOutputUnits; ImageUnits; RequestUnits; ToolCalls].
Definition dimension_index (d : UsageDimension) : N :=
  match d with
  | InputTokens => 0 | OutputTokens => 1 | CachedInputTokens => 2 | AudioInputUnits => 3
  | AudioOutputUnits => 4 | ImageUnits => 5 | RequestUnits => 6 | ToolCalls => 7
  end.
#[export] Instance UsageDimension_ord : Ord UsageDimension := fun x y => cmp (dimension_index x) (dimension_index y).

Definition UsageAmount_new (value : N) : result UsageConfirmationErrorCode N :=
  if MAX_USAGE_AMOUNT <? value then Err UsageOutOfRange else Ok value.
Record UsageEntry := mk_UsageEntry { dimension : UsageDimension; amount : N }.
#[export] Instance UsageEntry_eq_dec : EqDecision UsageEntry.
Proof. solve_decision. Defined.
Definition validate_report_size (count : N) : result UsageConfirmationErrorCode unit :=
  reject_if (count =? 0) UsageReportEmpty ;;
  reject_if (MAX_USAGE_DIMENSIONS <? count) TooManyDimensions.
Definition UsageReport := list UsageEntry.
Definition UsageReport_new (entries : list UsageEntry) : result UsageConfirmationErrorCode UsageReport :=
  validate_report_size (len entries) ;;
  let entries := sort_by dimension entries in
  reject_if (adjacent_duplicate dimension entries) DuplicateDimension ;;
  mret entries.

Record ProviderUsageConfirmation := mk_ProviderUsageConfirmation { identity : UsageConfirmationId; usage : UsageReport }.
#[export] Instance ProviderUsageConfirmation_eq_dec : EqDecision ProviderUsageConfirmation.
Proof. solve_decision. Defined.

(** ** Receipts *)

Record ConfirmedUsageReceipt := mk_ConfirmedUsageReceipt {
  confirmed_confirmation : ProviderUsageConfirmation; metering_receipt : MeteringReceiptId;
}.
Record AmbiguousUsageReceipt := mk_AmbiguousUsageReceipt {
  ambiguous_confirmation : ProviderUsageConfirmation; reconciliation : ReconciliationId;
}.
Inductive UsageConfirmationReceipt :=
| Confirmed (receipt : ConfirmedUsageReceipt)
| Ambiguous (receipt : AmbiguousUsageReceipt).
Definition confirmation (r : UsageConfirmationReceipt) : ProviderUsageConfirmation :=
  match r with
  | Confirmed receipt => confirmed_confirmation receipt
  | Ambiguous receipt => ambiguous_confirmation receipt
  end.
Definition ambiguous (r : UsageConfirmationReceipt) : option AmbiguousUsageReceipt :=
  match r with Confirmed _ => None | Ambiguous receipt => Some receipt end.
Definition confirmed (r : UsageConfirmationReceipt) : option ConfirmedUsageReceipt :=
  match r with Confirmed receipt => Some receipt | Ambiguous _ => None end.
Definition replay (r : UsageConfirmationReceipt) (input : ProviderUsageConfirmation)
    : result UsageConfirmationErrorCode UsageConfirmationReceipt :=
  let existing := confirmation r in
  if bool_decide (identity existing <> identity input) then Err ReceiptMismatch
  else if bool_decide (existing <> input) then Err ReplayConflict
  else Ok r.

Definition sample_report : list UsageEntry := [mk_UsageEntry OutputTokens 7; mk_UsageEntry InputTokens 20].

(** ** Lemmas *)

#[export] Instance UsageDimension_ord_laws : OrdLaws UsageDimension.
Proof.
  split.
  - intros x y. unfold cmp, UsageDimension_ord, cmp, N_ord. rewrite N.compare_eq_iff. by destruct x, y.
  - intros x y. apply (cmp_opp (A:=N)).
  - intros x y z. apply (cmp_lt_trans (A:=N)).
Qed.

Lemma all_dimensions d : d ∈ ALL_DIMENSIONS.
Proof. apply (bool_decide_unpack _). by destruct d. Qed.
(** A report without repetition cannot exceed the dimension bound. *)
Lemma distinct_bounded (l : list UsageEntry) : NoDup (dimension <$> l) -> len l <= MAX_USAGE_DIMENSIONS.
Proof.
  intros Hnd. unfold len, MAX_USAGE_DIMENSIONS.
  assert (length (dimension <$> l) <= length ALL_DIMENSIONS)%nat as H.
  { apply submseteq_length, NoDup_submseteq; [done|]. intros d _. apply all_dimensions. }
  rewrite length_fmap in H. cbn in H. lia.
Qed.

Lemma UsageReport_new_Ok l r : UsageReport_new l = Ok r <-> l <> [] /\ NoDup (dimension <$> l) /\ r = sort_by dimension l.
Proof.
  unfold UsageReport_new, validate_report_size. split.
  - intros H. run_steps. split_and!; [by intros ->|by apply (adjacent_duplicate_perm dimension)|done].
  - intros (Hne & Hnd & ->). rewrite (proj2 (N.eqb_neq _ _)) by (unfold len; destruct l; [done|cbn; lia]).
    rewrite (proj2 (N.ltb_ge _ _)) by (by apply distinct_bounded). cbn.
    by rewrite (proj2 (adjacent_duplicate_perm dimension l)).
Qed.

(** ** Properties *)

(** A usage report is the set of its entries.  It is accepted exactly when it is
    non-empty and names no dimension twice (the dimension bound can then not be exceeded),
    two accepted entry lists give the same report exactly when one is a reordering of the
    other, and a recorded receipt answers a confirmation with itself exactly when the
    confirmation has the recorded identity and a reordering of the recorded entries, with a
    conflict when only the usage differs and with a mismatch when the identity does. *)
Theorem usage_replay_exact (l : list UsageEntry) :
  (is_ok (UsageReport_new l) = true <-> l <> [] /\ NoDup (dimension <$> l)) /\
  forall report, UsageReport_new l = Ok report ->
    report ≡ₚ l /\
    forall l' report', UsageReport_new l' = Ok report' -> (report' = report <-> l' ≡ₚ l) /\
    forall r, usage (confirmation r) = report -> forall id,
      replay r (mk_ProviderUsageConfirmation id report') =
        if decide (identity (confirmation r) = id) then if decide (l' ≡ₚ l) then Ok r else Err ReplayConflict
        else Err ReceiptMismatch.
Proof.
  split.
  { split.
    - destruct (UsageReport_new l) as [r|] eqn:Hr; [|done]. intros _. by apply UsageReport_new_Ok in Hr as (? & ? & _).
    - intros [Hne Hnd]. by rewrite (proj2 (UsageReport_new_Ok l _) (conj Hne (conj Hnd eq_refl))). }
  intros report (_ & Hnd & ->)%UsageReport_new_Ok. split; [apply sort_by_Permutation|].
  intros l' report' (_ & Hnd' & ->)%UsageReport_new_Ok.
  assert (sort_by dimension l' = sort_by dimension l <-> l' ≡ₚ l) as Hiff.
  { split.
    - intros Heq. by rewrite <- (sort_by_Permutation dimension l'), Heq, sort_by_Permutation.
    - intros Hp. apply (sort_by_canonical dimension); [by apply (adjacent_duplicate_perm dimension)|done]. }
  split; [done|]. intros r Hu id. unfold replay. cbn [identity].
  destruct (decide (identity (confirmation r) = id)) as [Hid|Hid].
  - rewrite (bool_decide_eq_false_2 (identity _ <> id)) by (by intros Hne).
    destruct (decide (l' ≡ₚ l)) as [Hp|Hp].
    + rewrite bool_decide_eq_false_2; [done|]. intros Hne. apply Hne.
      destruct (confirmation r) as [i u]. cbn in *. subst. f_equal. symmetry. by apply Hiff.
    + rewrite bool_decide_eq_true_2; [done|]. intros Heq. apply Hp, Hiff. rewrite <- Hu, Heq. done.
  - by rewrite (bool_decide_eq_true_2 (identity _ <> id)).
Qed.
Lemma usage_replay_exact_witness :
  UsageReport_new sample_report = Ok (reverse sample_report) /\ reverse sample_report ≡ₚ sample_report.
Proof.
  split; [vm_compute; reflexivity|].
  exact (proj1 (proj2 (usage_replay_exact sample_report) (reverse sample_report) ltac:(vm_compute; reflexivity))).
Defined.
