(* ===== verification/RoutingCoordinator.v ===== *)
(** * The routing coordinator

    Models, of [crates/optional/ariadnion-routing-coordinator/src], the projection of a
    selection to one coupled admission ([engine/admission.rs]), the assembly of the admission
    stores from a candidate snapshot ([admission_assembly.rs]) and [RoutingCoordinator]
    ([lib.rs], [engine.rs]).  The stores are the [World] of [RoutingAdmission], in which other
    threads may act whenever no lock is held. *)

From S2P Require Import Prelude CoreTypes.
From S2P Require AccountBudget RateLimit BudgetPublication AccountPool RoutingFailover RoutingDomain ModelPricing RoutingUsage.
From S2P Require Import RoutingAdmission RouteSelection.
#[local] Open Scope N_scope.
#[local] Existing Instances RateLimit.LimitDimension_eq_dec RateLimit.LimitKey_eq_dec RateLimit.LimitKey_countable.

Notation coordinator_act := (act World CoordinatorError).

(** ** Projection to an admission request ([engine/admission.rs]) *)

Definition rate_request (request : CoordinationRequest) (selected : CandidateState) : result CoordinatorError RateLimit.AdmissionRequest :=
  let tenant := RoutingDomain.tenant_id (context request) in
  tenant_limit ← or_fail InvalidArgument (RateLimit.limit_id_parse TenantLimitKind (id_str tenant));
  account_limit ← or_fail InvalidArgument (RateLimit.limit_id_parse AccountLimitKind (id_str (AccountPool.account_id (source selected))));
  let account_key := RateLimit.KeyAccount (RateLimit.mk_AccountLimitKey tenant_limit account_limit) in
  model_limit ← or_fail InvalidArgument (RateLimit.limit_id_parse ModelLimitKind (RoutingDomain.model (context request)));
  let rate_keys := [RateLimit.KeyTenant tenant_limit; RateLimit.KeyModel model_limit; account_key] in
  or_fail InvalidArgument (RateLimit.AdmissionRequest_new rate_keys (template_units (admission request))).

Definition budget_request (request : CoordinationRequest) (selected : CandidateState) (quote : ModelPricing.PriceQuote)
    : result CoordinatorError AccountBudget.ReservationRequest :=
  currency ← or_fail StateUnavailable (AccountBudget.CurrencyCode_parse (ModelPricing.quote_currency quote));
  or_fail InvalidArgument (AccountBudget.ReservationRequest_new (template_reservation (admission request))
    (AccountBudget.mk_BudgetContext (RoutingDomain.tenant_id (context request)) (template_group (admission request))
      (AccountPool.account_id (source selected)))
    (AccountBudget.mk_Money currency (ModelPricing.quote_total quote))
    (budget_expires_at (times (admission request)))).

Definition admission_error_code (code : RoutingAdmissionErrorCode) : CoordinatorErrorCode :=
  match code with
  | RoutingAdmission.RateLimited => RateLimited
  | RoutingAdmission.ConcurrencyLimited => ConcurrencyLimited
  | RoutingAdmission.BudgetRejected => BudgetRejected
  | RoutingAdmission.TenantMismatch => TenantMismatch
  | RoutingAdmission.InvalidArgument => InvalidArgument
  | _ => AdmissionUnavailable
  end.
Definition map_admission_error (xs : list CandidateExclusion) (value : RoutingAdmissionError) : CoordinatorError :=
  let e := with_retry_after (admission_error_code (ra_code value)) (ra_retry_after value) in
  let '(bounded, truncated) := bound_exclusions xs in
  e <| admission_scope := Some (default RateLimit.RequestRefusal (ra_refusal_scope value)) |>
    <| error_exclusions := bounded |> <| error_truncated := truncated |>.

(** ** Routes ([lib.rs]) *)

Record DecisionExplanation := mk_DecisionExplanation {
  explanation_basis : SelectionBasis; explanation_degradations : list SignalKind;
  explanation_exclusions : list CandidateExclusion; explanation_truncated : bool;
}.
Record CoordinatedRoute := mk_CoordinatedRoute {
  selected_candidate : RoutingFailover.CandidateKey;
  selected_account : AccountId;
  route_model : ModelDomain.ProviderModelId;
  selected_proxy_profile : option AccountProxy.AccountProxyProfile;
  explanation : DecisionExplanation;
  retry_plan : RoutingRetryPlan;
  route_tenant_id : TenantId;
  route_request_id : Id RequestKind;
  admission_lease : RoutingAdmissionLease;
}.
Definition usage_confirmation_id (route : CoordinatedRoute) (attempt_id : Id AttemptKind) : RoutingUsage.UsageConfirmationId :=
  RoutingUsage.mk_UsageConfirmationId (route_tenant_id route) (selected_account route) (route_request_id route) attempt_id.

(** ** Assembly ([admission_assembly.rs]) *)

(** [CandidateSnapshotBinding::matches]. *)
Definition binding_contains (authoritative : AccountPool.CandidateSnapshot) (c : AccountPool.CandidateMetadata) : bool :=
  match binary_search (fun a => cmp (AccountPool.id a) (AccountPool.id c)) (AccountPool.candidates authoritative) with
  | Some a => bool_decide (a = c)
  | None => false
  end.
Definition binding_matches (authoritative snapshot : AccountPool.CandidateSnapshot) : bool :=
  (AccountPool.snapshot_id authoritative =? AccountPool.snapshot_id snapshot) &&
  (AccountPool.snapshot_version authoritative =? AccountPool.snapshot_version snapshot) &&
  forallb (binding_contains authoritative) (AccountPool.candidates snapshot).

(** The admission engine of a coordinator is its policies and the stores of the [World]. *)
Record RoutingCoordinator := mk_RoutingCoordinator {
  policies : RateLimit.AdmissionPolicySet;
  candidate_snapshot_binding : option AccountPool.CandidateSnapshot;
  budget_generation : option N;
}.

Inductive BudgetAssembly :=
| Legacy (book : Lock AccountBudget.BudgetState)
| Published (snapshot : BudgetPublication.BudgetPolicySnapshot) (expected_generation : N).
Record RoutingAdmissionAssembly := mk_RoutingAdmissionAssembly {
  configured_policies : list RateLimit.LimitPolicy;
  candidate_snapshot : AccountPool.CandidateSnapshot;
  account_lease_duration : N;
  initial_now : N;
  budget : BudgetAssembly;
}.

Definition validate_policy_bounds (configured : list RateLimit.LimitPolicy) (candidate_count : N) : result CoordinatorError unit :=
  combined_count ← ok_or (checked_add u64_max (len configured) candidate_count) (error InvalidArgument);
  reject_if ((RateLimit.MAX_POLICIES <? combined_count) ||
    existsb (fun p => negb (bool_decide (RateLimit.dimension (RateLimit.policy_key p) = RateLimit.DimTenant) ||
                            bool_decide (RateLimit.dimension (RateLimit.policy_key p) = RateLimit.DimModel))) configured)
    (error InvalidArgument).
(** [shared] is the ledger behind a published handle. *)
Definition into_shared (shared : BudgetPublication.SharedBook -> Lock AccountBudget.BudgetState) (b : BudgetAssembly)
    : result CoordinatorError (Lock AccountBudget.BudgetState * option N) :=
  match b with
  | Legacy book => Ok (book, None)
  | Published snapshot expected =>
      if negb (BudgetPublication.snapshot_generation snapshot =? expected) then Err (error StateUnavailable)
      else Ok (shared (BudgetPublication.shared_book snapshot), Some (BudgetPublication.snapshot_generation snapshot))
  end.

Definition account_concurrency_policy (lease_duration : N) (c : AccountPool.CandidateMetadata)
    : result CoordinatorError (RateLimit.LimitKey * RateLimit.LimitPolicy) :=
  tenant ← ok_or (AccountPool.tenant_id c) (error TenantMismatch);
  limit ← ok_or (AccountPool.max_concurrency c) (error StateUnavailable);
  tenant ← or_fail InvalidArgument (RateLimit.limit_id_parse TenantLimitKind (id_str tenant));
  account ← or_fail InvalidArgument (RateLimit.limit_id_parse AccountLimitKind (id_str (AccountPool.account_id c)));
  let key := RateLimit.KeyAccount (RateLimit.mk_AccountLimitKey tenant account) in
  rule ← or_fail InvalidArgument (RateLimit.ConcurrencyRule_new limit lease_duration);
  policy ← or_fail InvalidArgument (RateLimit.LimitPolicy_new key None (Some rule));
  mret (key, policy).
(** The loop that fills the [BTreeMap]. *)
Fixpoint insert_account_policies (lease_duration : N) (candidates : list AccountPool.CandidateMetadata)
    (policies : gmap RateLimit.LimitKey RateLimit.LimitPolicy)
    : result CoordinatorError (gmap RateLimit.LimitKey RateLimit.LimitPolicy) :=
  match candidates with
  | [] => mret policies
  | c :: candidates =>
      '(key, policy) ← account_concurrency_policy lease_duration c;
      match policies !! key with
      | Some _ => Err (error StateUnavailable)
      | None => insert_account_policies lease_duration candidates (<[key := policy]> policies)
      end
  end.
(** The derived order of the keys is that of their discriminants and identities. *)
Definition policy_values (policies : gmap RateLimit.LimitKey RateLimit.LimitPolicy) : list RateLimit.LimitPolicy :=
  snd <$> sort_by (fun entry => RateLimit.limit_key_code entry.1) (map_to_list policies).
Definition build_account_concurrency_policies (candidates : list AccountPool.CandidateMetadata) (lease_duration : N)
    : result CoordinatorError (list RateLimit.LimitPolicy) :=
  reject_if (MAX_CANDIDATES <? len candidates) (error InvalidArgument) ;;
  policy_values <$> insert_account_policies lease_duration candidates ∅.

Definition build_routing_admission_coordinator (shared : BudgetPublication.SharedBook -> Lock AccountBudget.BudgetState)
    (assembly : RoutingAdmissionAssembly) : result CoordinatorError (RoutingCoordinator * World) :=
  let snapshot := candidate_snapshot assembly in
  validate_policy_bounds (configured_policies assembly) (len (AccountPool.candidates snapshot)) ;;
  '(ledger, generation) ← into_shared shared (budget assembly);
  account_policies ← build_account_concurrency_policies (AccountPool.candidates snapshot) (account_lease_duration assembly);
  policies ← or_fail InvalidArgument (RateLimit.AdmissionPolicySet_new (configured_policies assembly ++ account_policies));
  let rate := mk_lock false (RateLimit.ControllerState_new (initial_now assembly)) in
  mret (mk_RoutingCoordinator policies (Some snapshot) generation, mk_World rate ledger).

(** ** Coordination ([lib.rs], [engine.rs]) *)

Definition validate_candidate_snapshot (c : RoutingCoordinator) (snapshot : AccountPool.CandidateSnapshot) : result CoordinatorError unit :=
  reject_if (is_some_and (fun authoritative => negb (binding_matches authoritative snapshot)) (candidate_snapshot_binding c))
    (error StateUnavailable).

Section coordinate.
  Variable c : RoutingCoordinator.
  Variable interfere : nat -> World -> World.

(** [engine::admission::admit]. *)
Definition admit_selected (request : CoordinationRequest) (selected : CandidateState) (xs : list CandidateExclusion)
    : coordinator_act RoutingAdmissionLease :=
  quote ← lift (ok_or (quote selected) (error PricingUnavailable));
  rate ← lift (rate_request request selected);
  reservation ← lift (budget_request request selected quote);
  map_err (map_admission_error xs)
    (coordinator_admit (policies c) interfere
      (mk_RoutingAdmissionRequest rate reservation (monotonic_now (times (admission request))) (budget_now (times (admission request))))).

(** [engine::coordinate]; a lease that no route takes is dropped. *)
Definition engine_coordinate (request : CoordinationRequest) (snapshots : CoordinationSnapshots) : coordinator_act CoordinatedRoute :=
  selection ← lift (prepare_selection request snapshots);
  selected ← lift (ok_or (states selection !! selected_index selection) (error StateUnavailable));
  plan ← lift (build_retry_plan request (states selection) (selected_index selection));
  lease ← map_err (fun e => attach_initial_admission_retry_context e (key selected) plan)
    (admit_selected request selected (exclusions selection));
  match provider_model selected with
  | None => modify (fun w => drop_lease interfere (mk_Handle w lease)) ;; fail (error StateUnavailable)
  | Some model =>
      mret (mk_CoordinatedRoute (key selected) (AccountPool.account_id (source selected)) model (proxy_profile selected)
        (mk_DecisionExplanation (basis selection) (degradation_list (degradations selection)) (exclusions selection)
          (exclusions_truncated selection))
        plan (RoutingDomain.tenant_id (context request)) (RoutingDomain.request_id (context request)) lease)
  end.
Definition coordinate (request : CoordinationRequest) (snapshots : CoordinationSnapshots) : coordinator_act CoordinatedRoute :=
  lift (validate_candidate_snapshot c (pool snapshots)) ;;
  engine_coordinate request snapshots.
End coordinate.

(** ** Specification *)

(** The limit key of an account of a tenant. *)
Definition account_key (tenant : TenantId) (account : AccountId) : RateLimit.LimitKey :=
  RateLimit.KeyAccount (RateLimit.mk_AccountLimitKey (MkId (id_str tenant)) (MkId (id_str account))).
(** The policy an authoritative candidate carries. *)
Definition account_policy (lease_duration limit : N) (tenant : TenantId) (account : AccountId) : RateLimit.LimitPolicy :=
  RateLimit.mk_LimitPolicy (account_key tenant account) None (Some (RateLimit.mk_ConcurrencyRule limit lease_duration)).
(** The leases that hold a slot of a key. *)
Definition held (k : RateLimit.LimitKey) (w : World) : N :=
  map_sum (fun _ l => RateLimit.holds k l) (RateLimit.leases (controller w)).
(** The widths the constructors of the configured policies and candidates guarantee. *)
Record assembly_wf (a : RoutingAdmissionAssembly) : Prop := {
  aw_configured : forall p, p ∈ configured_policies a ->
    (forall rule, RateLimit.rate p = Some rule -> RateLimit.rate_rule_wf rule) /\
    (forall rule, RateLimit.concurrency_rule p = Some rule -> RateLimit.concurrency_rule_wf rule);
  aw_candidates : forall c limit, c ∈ AccountPool.candidates (candidate_snapshot a) ->
    AccountPool.max_concurrency c = Some limit -> 1 <= limit <= u32_max;
  aw_sorted : strictly_sorted_by AccountPool.id (AccountPool.candidates (candidate_snapshot a));
}.

(** A sample assembly for the sample request of [RouteSelection]: a tenant, a model and a ledger of their own. *)
Definition sample_budgets : list AccountBudget.BudgetPolicy :=
  [AccountBudget.mk_BudgetPolicy (MkId "tenant") (AccountBudget.ScopeTenant (MkId "t"))
    (AccountBudget.mk_Money (AccountBudget.mk_CurrencyCode "USD") 1000) AccountBudget.Hard].
Definition sample_ledger : Lock AccountBudget.BudgetState :=
  match AccountBudget.BudgetBook_new sample_budgets with
  | Ok book => book
  | Err _ => mk_lock true (AccountBudget.mk_BudgetState ∅ ∅)
  end.
Definition sample_assembly : RoutingAdmissionAssembly := mk_RoutingAdmissionAssembly
  [RateLimit.mk_LimitPolicy (RateLimit.KeyTenant (MkId "t")) (Some (RateLimit.mk_RateRule 10 1000000000)) None;
   RateLimit.mk_LimitPolicy (RateLimit.KeyModel (MkId "slow")) (Some (RateLimit.mk_RateRule 5 1000000000)) None]
  (pool sample_snapshots) 100000000 0 (Legacy sample_ledger).
Definition sample_build : result CoordinatorError (RoutingCoordinator * World) :=
  build_routing_admission_coordinator (fun _ => sample_ledger) sample_assembly.
Example sample_coordinates : match sample_build with
  | Ok (c, w0) =>
      match coordinate c quiet sample_request sample_snapshots w0 with
      | (w', Ok route) => (id_str (selected_candidate route), route_model route, held (account_key (MkId "t") (MkId "b")) w') =
          ("b"%string, "m2"%string, 1)
      | _ => False
      end
  | Err _ => False
  end.
Proof. vm_compute. reflexivity. Qed.

(** ** Lemmas *)

Lemma or_fail_Ok {E A} code (r : result E A) a : or_fail code r = Ok a -> r = Ok a.
Proof. unfold or_fail. by destruct r; intros [= ->]. Qed.
Lemma limit_id_parse_Ok k value i : RateLimit.limit_id_parse k value = Ok i -> i = MkId value.
Proof. unfold RateLimit.limit_id_parse. intros H. by run_steps. Qed.

Lemma index_policies_lookup ps m m' : RateLimit.index_policies ps m = Ok m' ->
  (forall p, p ∈ ps -> m !! RateLimit.policy_key p = None) /\
  forall k p, m' !! k = Some p <-> m !! k = Some p \/ p ∈ ps /\ RateLimit.policy_key p = k.
Proof.
  revert m. induction ps as [|q ps IH]; intros m; cbn.
  { intros [= <-]. split; [by intros p ?%not_elem_of_nil|]. intros k p. split; [by left|]. by intros [|[?%not_elem_of_nil _]]. }
  destruct (m !! RateLimit.policy_key q) eqn:Hq; [done|]. intros [Hfresh Hm']%IH. split.
  - intros p [->|Hp]%elem_of_cons; [done|]. specialize (Hfresh p Hp). by apply lookup_insert_None in Hfresh as [? _].
  - intros k p. rewrite Hm', elem_of_cons. split.
    + intros [[[<- <-]|[_ H]]%lookup_insert_Some|[Hp Hk]]; [by right; split; [left|]|by left|by right; split; [right|]].
    + intros [Hp|[[->|Hp] <-]]; [left|left; apply (lookup_insert_eq (M:=gmap RateLimit.LimitKey))|by right].
      refine (eq_trans (lookup_insert_ne (M:=gmap RateLimit.LimitKey) _ _ _ _ _) Hp). intros Heq. congruence.
Qed.

Lemma account_concurrency_policy_Ok d c k p : account_concurrency_policy d c = Ok (k, p) ->
  exists tenant limit, AccountPool.tenant_id c = Some tenant /\ AccountPool.max_concurrency c = Some limit /\
    k = account_key tenant (AccountPool.account_id c) /\ p = account_policy d limit tenant (AccountPool.account_id c) /\
    0 < d <= RateLimit.MAX_LEASE_DURATION.
Proof.
  unfold account_concurrency_policy. intros (t & Ht%ok_or_Ok & H)%result_bind_Ok.
  apply result_bind_Ok in H as (limit & Hl%ok_or_Ok & H).
  apply result_bind_Ok in H as (t' & ->%or_fail_Ok%limit_id_parse_Ok & H).
  apply result_bind_Ok in H as (a & ->%or_fail_Ok%limit_id_parse_Ok & H).
  apply result_bind_Ok in H as (rule & Hr%or_fail_Ok & H). apply result_bind_Ok in H as (q & [= <-]%or_fail_Ok & [= <- <-]).
  unfold RateLimit.ConcurrencyRule_new in Hr. destruct (_ || _) eqn:Hd; [done|]. injection Hr as <-.
  apply orb_false_iff in Hd as [?%N.eqb_neq ?%N.ltb_ge]. exists t, limit. split_and!; try done; lia.
Qed.
Lemma insert_account_policies_lookup d cs m m' : insert_account_policies d cs m = Ok m' ->
  (forall c, c ∈ cs -> exists k p, account_concurrency_policy d c = Ok (k, p) /\ m' !! k = Some p) /\
  (forall k p, m !! k = Some p -> m' !! k = Some p) /\
  forall k p, m' !! k = Some p -> m !! k = Some p \/ exists c, c ∈ cs /\ account_concurrency_policy d c = Ok (k, p).
Proof.
  revert m. induction cs as [|c cs IH]; intros m; cbn.
  { intros [= <-]. split_and!; [by intros c ?%not_elem_of_nil|done|by left]. }
  intros ([k p] & Hc & H)%result_bind_Ok. destruct (m !! k) eqn:Hk; [done|]. apply IH in H as (Hall & Hkeep & Hback).
  split_and!.
  - intros c' [->|Hc']%elem_of_cons; [|by apply Hall]. exists k, p. split; [done|]. by apply Hkeep, lookup_insert_eq.
  - intros k' p' Hp. apply Hkeep. rewrite lookup_insert_ne; [done|]. congruence.
  - intros k' p' [[[<- <-]|[_ Hp]]%lookup_insert_Some|(c' & Hin & Hc')]%Hback; [|by left|].
    + right. exists c. split; [left|done].
    + right. exists c'. split; [by right|done].
Qed.
Lemma policy_values_elem (m : gmap RateLimit.LimitKey RateLimit.LimitPolicy) p :
  p ∈ policy_values m <-> exists k, m !! k = Some p.
Proof.
  unfold policy_values. rewrite list_elem_of_fmap. setoid_rewrite (sort_by_Permutation _).
  split.
  - intros ([k q] & -> & H%elem_of_map_to_list). by exists k.
  - intros [k H]. exists (k, p). split; [done|]. by apply elem_of_map_to_list.
Qed.

Section assembled.
  Context (shared : BudgetPublication.SharedBook -> Lock AccountBudget.BudgetState) (a : RoutingAdmissionAssembly)
    (c : RoutingCoordinator) (w0 : World).
  Context (Hwf : assembly_wf a) (Hbuild : build_routing_admission_coordinator shared a = Ok (c, w0)).
  Notation candidates := (AccountPool.candidates (candidate_snapshot a)).

(** The policies of the coordinator are the configured ones and one per candidate. *)
Lemma assembled_policies :
  (forall k p, policies c !! k = Some p ->
    RateLimit.policy_key p = k /\
    (p ∈ configured_policies a \/ exists m, m ∈ candidates /\ account_concurrency_policy (account_lease_duration a) m = Ok (k, p))) /\
  (forall m, m ∈ candidates -> exists k p, account_concurrency_policy (account_lease_duration a) m = Ok (k, p) /\
    policies c !! k = Some p) /\
  candidate_snapshot_binding c = Some (candidate_snapshot a).
Proof.
  revert Hbuild. unfold build_routing_admission_coordinator. cbv zeta.
  intros (u & _ & H)%result_bind_Ok. apply result_bind_Ok in H as ([ledger g] & _ & H).
  apply result_bind_Ok in H as (aps & Haps & H). apply result_bind_Ok in H as (ps & Hps%or_fail_Ok & [= <- <-]). cbn.
  unfold build_account_concurrency_policies in Haps. apply result_bind_Ok in Haps as (u' & _ & Haps).
  destruct (insert_account_policies _ _ _) as [m|] eqn:Hm; [|done]. injection Haps as <-.
  apply insert_account_policies_lookup in Hm as (Hall & _ & Hback).
  assert (forall k p, m !! k = Some p -> RateLimit.policy_key p = k /\
    exists x, x ∈ candidates /\ account_concurrency_policy (account_lease_duration a) x = Ok (k, p)) as Hacc.
  { intros k p Hp. destruct (Hback k p Hp) as [Hn|(x & Hx & Hxp)]; [by rewrite lookup_empty in Hn|].
    split; [|by exists x]. by apply account_concurrency_policy_Ok in Hxp as (? & ? & _ & _ & -> & -> & _). }
  unfold RateLimit.AdmissionPolicySet_new in Hps. apply result_bind_Ok in Hps as (u'' & _ & Hps).
  apply index_policies_lookup in Hps as [_ Hps]. split_and!; [|..|done].
  - intros k p [Hn|[Hin Hk]]%Hps; [by pose proof (eq_trans (eq_sym Hn) (lookup_empty (M:=gmap RateLimit.LimitKey) k))|]. split; [done|].
    apply elem_of_app in Hin as [Hin|Hin]; [by left|]. right. apply policy_values_elem in Hin as [k' Hk'].
    destruct (Hacc k' p Hk') as [Hkey ?]. by rewrite <- Hk, Hkey.
  - intros x (k & p & Hx & Hk)%Hall. exists k, p. split; [done|]. apply Hps. right.
    split; [|by apply Hacc in Hk as [? _]]. apply elem_of_app. right. apply policy_values_elem. by exists k.
Qed.
Lemma assembled_wf : RateLimit.policies_wf (policies c).
Proof.
  intros k p Hp. destruct (proj1 assembled_policies k p Hp) as [Hk [Hc|(m & Hm & Hc)]].
  - split; [done|]. by apply (aw_configured _ Hwf).
  - apply account_concurrency_policy_Ok in Hc as (t & limit & _ & Hl & _ & -> & Hd). split_and!; try done; cbn.
    intros rule [= <-]. split; [|done]. by eapply (aw_candidates _ Hwf).
Qed.

(** A freshly assembled coordinator starts from sound stores. *)
Lemma assembled_inv book : budget a = Legacy book -> lock_poisoned book = false -> AccountBudget.ledger_inv (lock_data book) ->
  world_inv (policies c) w0.
Proof.
  intros Hb Hp Hl. pose proof assembled_wf as Hpol. revert Hbuild. unfold build_routing_admission_coordinator. cbv zeta.
  intros (u & _ & H)%result_bind_Ok. rewrite Hb in H. cbn in H.
  apply result_bind_Ok in H as (aps & _ & H). apply result_bind_Ok in H as (ps & _ & [= <- <-]). cbn in *.
  split; [done|done| |done]. apply (RateLimit.ctrl_reachable_inv _ Hpol). exists (initial_now a). apply rtc_refl.
Qed.

(** A snapshot the coordinator takes holds authoritative candidates only. *)
Lemma validated_authoritative snapshot u x : validate_candidate_snapshot c snapshot = Ok u ->
  x ∈ AccountPool.candidates snapshot -> x ∈ candidates.
Proof.
  unfold validate_candidate_snapshot. rewrite (proj2 (proj2 assembled_policies)). intros Hv%reject_if_Ok Hx. cbn in Hv.
  apply negb_false_iff, andb_true_iff in Hv as [_ Hall]. rewrite forallb_forall in Hall.
  specialize (Hall x ltac:(by apply list_elem_of_In)). unfold binding_contains in Hall.
  destruct (binary_search _ _) as [y|] eqn:Hy; [|done]. apply bool_decide_eq_true in Hall as ->.
  by apply (binary_search_spec AccountPool.id) in Hy as [? _]; [|apply (aw_sorted _ Hwf)].
Qed.

(** No account ever carries more leases than its persisted bound. *)
Lemma account_slots_bounded w m tenant limit : world_inv (policies c) w -> m ∈ candidates ->
  AccountPool.tenant_id m = Some tenant -> AccountPool.max_concurrency m = Some limit ->
  policies c !! account_key tenant (AccountPool.account_id m) =
    Some (account_policy (account_lease_duration a) limit tenant (AccountPool.account_id m)) /\
  held (account_key tenant (AccountPool.account_id m)) w <= limit.
Proof.
  intros Hw Hm Ht Hl. destruct (proj1 (proj2 assembled_policies) m Hm) as (k & p & Hc & Hp).
  apply account_concurrency_policy_Ok in Hc as (t & l & Ht' & Hl' & -> & -> & _).
  rewrite Ht in Ht'. rewrite Hl in Hl'. injection Ht' as <-. injection Hl' as <-. split; [done|].
  pose proof (wi_controller _ _ Hw) as Hinv. unfold held.
  destruct (RateLimit.concurrency (controller w) !! account_key tenant (AccountPool.account_id m)) as [n|] eqn:Hn.
  - destruct (RateLimit.cv_concurrency _ _ Hinv _ _ Hn) as (<- & p' & rule & Hp' & Hr & Hle).
    rewrite Hp in Hp'. injection Hp' as <-. injection Hr as <-. done.
  - rewrite map_sum_zero; [lia|]. intros i lease Hlease. unfold RateLimit.holds. apply decide_False. intros Hin.
    destruct (RateLimit.lv_conc _ _ _ (RateLimit.cv_lease _ _ Hinv _ _ Hlease) _ Hin) as [n' Hn']. congruence.
Qed.
End assembled.

(** *** One coordination *)

Lemma rate_request_Ok request s rq : rate_request request s = Ok rq ->
  let tenant := id_str (RoutingDomain.tenant_id (context request)) in
  RateLimit.keys rq = [RateLimit.KeyTenant (MkId tenant); RateLimit.KeyModel (MkId (RoutingDomain.model (context request)));
    account_key (RoutingDomain.tenant_id (context request)) (AccountPool.account_id (source s))] /\
  RateLimit.units rq = template_units (admission request) /\
  RateLimit.AdmissionRequest_new (RateLimit.keys rq) (RateLimit.units rq) = Ok rq.
Proof.
  unfold rate_request. cbv zeta. intros (t & ->%or_fail_Ok%limit_id_parse_Ok & H)%result_bind_Ok.
  apply result_bind_Ok in H as (acc & ->%or_fail_Ok%limit_id_parse_Ok & H).
  apply result_bind_Ok in H as (m & ->%or_fail_Ok%limit_id_parse_Ok & H%or_fail_Ok).
  pose proof H as H'. unfold RateLimit.AdmissionRequest_new in H'. apply result_bind_Ok in H' as (u & _ & [= <-]). by split_and!.
Qed.
Lemma budget_request_Ok request s q bq : budget_request request s q = Ok bq ->
  bq = AccountBudget.mk_ReservationRequest (template_reservation (admission request))
    (AccountBudget.mk_BudgetContext (RoutingDomain.tenant_id (context request)) (template_group (admission request))
      (AccountPool.account_id (source s)))
    (AccountBudget.mk_Money (AccountBudget.mk_CurrencyCode (ModelPricing.quote_currency q)) (ModelPricing.quote_total q))
    (budget_expires_at (times (admission request))).
Proof.
  unfold budget_request. intros (cur & Hcur%or_fail_Ok & H%or_fail_Ok)%result_bind_Ok.
  unfold AccountBudget.CurrencyCode_parse in Hcur. destruct (_ || _); [done|]. injection Hcur as <-.
  unfold AccountBudget.ReservationRequest_new in H. by apply result_bind_Ok in H as (u & _ & [= <-]).
Qed.
(** Errors before the admission carry no refusal scope. *)
Lemma or_fail_Err {E A} code (r : result E A) e : or_fail code r = Err e -> admission_scope e = None.
Proof. unfold or_fail. by destruct r; intros [= <-]. Qed.
Lemma bind_Err {A B} (m : result CoordinatorError A) (f : A -> result CoordinatorError B) e (P : Prop) :
  (m = Err e -> P) -> (forall a, m = Ok a -> f a = Err e -> P) -> m ≫= f = Err e -> P.
Proof. destruct m as [a|e']; cbn; [eauto|]. intros H _ [= ->]. auto. Qed.
Lemma rate_request_Err request s e : rate_request request s = Err e -> admission_scope e = None.
Proof. unfold rate_request. cbv zeta. repeat (apply bind_Err; [apply or_fail_Err|intros ? _]). apply or_fail_Err. Qed.
Lemma budget_request_Err request s q e : budget_request request s q = Err e -> admission_scope e = None.
Proof. unfold budget_request. apply bind_Err; [apply or_fail_Err|intros ? _]. apply or_fail_Err. Qed.
(** A price of zero is representable and passes the selection, but a reservation of nothing is refused:
    a candidate that is free is selected and then never admitted. *)
Lemma free_quote_refused request s q : ModelPricing.quote_total q = 0 -> is_ok (budget_request request s q) = false.
Proof.
  intros Hz. unfold budget_request, AccountBudget.ReservationRequest_new. destruct (or_fail _ _) as [cur|]; [|done].
  cbn. by rewrite Hz.
Qed.
(** A projected admission is bound to its tenant and account: the binding check of the coupled admission passes. *)
Lemma projected_binding request s q rq bq now now' : rate_request request s = Ok rq -> budget_request request s q = Ok bq ->
  validate_tenant_binding (mk_RoutingAdmissionRequest rq bq now now') = Ok tt.
Proof.
  intros (Hk & _)%rate_request_Ok ->%budget_request_Ok. unfold validate_tenant_binding. cbn [ra_rate_request]. rewrite Hk.
  cbn. by rewrite !String.eqb_refl.
Qed.
Lemma attached_scope e k plan : admission_scope (attach_initial_admission_retry_context e k plan) = admission_scope e.
Proof. unfold attach_initial_admission_retry_context. destruct (admission_scope e) as [[]|] eqn:He; cbn; by rewrite ?He. Qed.

Section coordination.
  Context (c : RoutingCoordinator) (Hpol : RateLimit.policies_wf (policies c)).
  Context (interfere : nat -> World -> World)
    (Hothers : forall k w, world_inv (policies c) w -> others (policies c) w (interfere k w)).
  Context (request : CoordinationRequest) (Hunits : 1 <= template_units (admission request) <= u32_max).

(** What one coupled admission makes of the stores, for the selected candidate [s] at the quote [q]. *)
Lemma admit_selected_run s q xs w w' r : world_inv (policies c) w -> quote s = Some q ->
  admit_selected c interfere request s xs w = (w', r) ->
  world_inv (policies c) w' /\
  match r with
  | Ok lease =>
      (exists rq l a, rate_request request s = Ok rq /\
        RateLimit.try_admit (policies c) rq (monotonic_now (times (admission request))) (rate_store w) = (l, Ok a) /\
        lease_open lease a /\ world_inv (policies c) (w <| rate_store := l |>) /\
        controller w' = controller (interfere 0%nat (w <| rate_store := l |>))) /\ ra_state lease = Pending /\
      ra_reservation_id lease = template_reservation (admission request) /\
      AccountBudget.reservations (ledger w) !! ra_reservation_id lease = None /\
      exists record bq, budget_request request s q = Ok bq /\
        AccountBudget.reservations (ledger w') !! ra_reservation_id lease = Some record /\
        AccountBudget.request record = bq /\ AccountBudget.record_state record = AccountBudget.Reserved
  | Err e =>
      (w' = w /\ admission_scope e = None) \/
      exists rq l, rate_request request s = Ok rq /\ is_Some (admission_scope e) /\
        ((exists refused, RateLimit.try_admit (policies c) rq (monotonic_now (times (admission request))) (rate_store w) = (l, Err refused) /\
          w' = w <| rate_store := l |> /\ e = map_admission_error xs (map_rate_error refused)) \/
         exists a, RateLimit.try_admit (policies c) rq (monotonic_now (times (admission request))) (rate_store w) = (l, Ok a) /\
          RateLimit.leases (controller w') !! RateLimit.al_id a = None)
  end.
Proof.
  intros Hw Hq Hrun. unfold admit_selected in Hrun. rewrite Hq in Hrun. cbn [ok_or] in Hrun. rewrite act_lift_run in Hrun.
  destruct (rate_request request s) as [rq|e] eqn:Hrq.
  2: { rewrite act_lift_stop in Hrun. injection Hrun as <- <-. split; [done|]. left. split; [done|].
       by eapply rate_request_Err. }
  rewrite act_lift_run in Hrun. destruct (budget_request request s q) as [bq|e] eqn:Hbq.
  2: { rewrite act_lift_stop in Hrun. injection Hrun as <- <-. split; [done|]. left. split; [done|]. by eapply budget_request_Err. }
  rewrite act_lift_run in Hrun.
  match type of Hrun with map_err _ (coordinator_admit ?ps ?i ?rr) _ = _ => destruct (coordinator_admit ps i rr w) as [w1 r1] eqn:Hadm end. rewrite (map_err_run _ _ _ _ _ Hadm) in Hrun. injection Hrun as <- <-.
  destruct (rate_request_Ok _ _ _ Hrq) as (_ & Hu & Hnew).
  assert (RateLimit.request_wf rq) as Hwf by (split; [done|by rewrite Hu]).
  destruct (coordinator_admit_outcome _ _ (mk_RoutingAdmissionRequest rq bq _ _) _ _ _ Hpol Hw Hwf Hothers Hadm) as [Hw1 Hout].
  destruct (coordinator_admit_run _ _ (mk_RoutingAdmissionRequest rq bq _ _) _ _ _ Hpol Hw Hwf Hothers Hadm) as [_ Hcalls].
  cbn [ra_rate_request ra_monotonic_now ra_budget_request] in Hout, Hcalls. rewrite (projected_binding _ _ _ _ _ _ _ Hrq Hbq) in Hout, Hcalls.
  split; [done|]. destruct (RateLimit.try_admit _ _ _ _) as [l [a|refused]] eqn:Hta.
  - destruct r1 as [lease|e].
    + destruct Hout as (Hopen & ? & Hid & ? & record & ? & Hreq & ?). split_and!; try done.
      * exists rq, l, a. destruct Hcalls as (_ & Hw2 & _ & Hcalls). do 4 (split; [done|]).
        destruct (AccountBudget.reserve_fresh_spec _ _ _).2; [by destruct Hcalls as [-> _]|by destruct Hcalls as (? & ? & _ & _ & _ & [=])].
      * rewrite Hid. by rewrite (budget_request_Ok _ _ _ _ Hbq).
      * by exists record, bq.
    + destruct Hout as [Hgone _]. right. exists rq, l. split; [done|]. split; [|right; by exists a].
      unfold map_admission_error. destruct (bound_exclusions xs); by eexists.
  - destruct Hout as [-> ->]. right. exists rq, l. split; [done|].
    split; [unfold map_admission_error; destruct (bound_exclusions xs); by eexists|]. left. by exists refused.
Qed.
End coordination.

(** A granted admission for an account: the controller holds one new lease that carries the
    units and a slot of the account, which counts one slot more than the live leases do. *)
Lemma account_lease_taken c request s w l rate rule :
  RateLimit.policies_wf (policies c) -> world_inv (policies c) w -> 1 <= template_units (admission request) <= u32_max ->
  let now := monotonic_now (times (admission request)) in
  let k := account_key (RoutingDomain.tenant_id (context request)) (AccountPool.account_id (source s)) in
  forall rq, rate_request request s = Ok rq ->
  (forall p, policies c !! k = Some p -> RateLimit.concurrency_rule p = Some rule) ->
  RateLimit.try_admit (policies c) rq now (rate_store w) = (l, Ok rate) ->
  exists x, RateLimit.leases (controller w) !! RateLimit.al_id rate = None /\
    RateLimit.leases (lock_data l) = <[RateLimit.al_id rate := x]> (RateLimit.live_leases now (controller w)) /\
    k ∈ RateLimit.lease_concurrency_keys x /\ RateLimit.lease_units x = template_units (admission request) /\
    RateLimit.rate_committed x = false /\ now < RateLimit.lease_expires_at x /\
    held k (w <| rate_store := l |>) = map_sum (fun _ y => RateLimit.holds k y) (RateLimit.live_leases now (controller w)) + 1.
Proof.
  intros Hpol Hw Hunits now k rq Hrq Hrule Hta. destruct (rate_request_Ok _ _ _ Hrq) as (Hkeys & Hu & Hnew).
  assert (RateLimit.request_wf rq) as Hwf by (split; [|rewrite Hu; done]; by destruct rq).
  rewrite (rate_store_eta _ w Hw) in Hta.
  destruct (RateLimit.try_admit_outcome _ Hpol _ _ _ _ _ (wi_controller _ _ Hw) Hwf Hta) as (_ & _ & Hout).
  destruct (RateLimit.resolve_policies (policies c) rq) as [ps|e] eqn:Hps; [|by destruct Hout].
  destruct Hout as (_ & _ & _ & Hfresh & Hfut & Hls & _).
  destruct (RateLimit.resolve_policies_Ok _ Hpol rq ps Hps Hwf) as (Hpk & Hpp & _).
  assert (k ∈ RateLimit.concurrency_keys ps) as Hk.
  { assert (k ∈ RateLimit.policy_key <$> ps) as (p & Hp & Hin)%list_elem_of_fmap by (rewrite Hpk, Hkeys; do 2 right; left).
    apply RateLimit.concurrency_keys_elem. exists p, rule. split; [done|]. split; [done|]. apply Hrule. rewrite Hp. by apply Hpp. }
  eexists. split; [done|]. split; [exact Hls|]. cbn [RateLimit.lease_concurrency_keys RateLimit.lease_units RateLimit.rate_committed RateLimit.lease_expires_at].
  do 4 (split; [done|]). unfold held, controller at 1. cbn [rate_store set_field]. rewrite Hls, map_sum_insert_new by (apply map_lookup_filter_None; by left).
  rewrite N.add_comm. f_equal. unfold RateLimit.holds. cbn. by rewrite decide_True.
Qed.

Lemma sample_assembly_wf : assembly_wf sample_assembly.
Proof.
  split.
  - intros p [->|[->|?%not_elem_of_nil]%elem_of_cons]%elem_of_cons; try done; (split; [|done]); cbn; intros rule [= <-];
      repeat split; vm_compute; congruence.
  - intros m limit [->|[->|[->|?%not_elem_of_nil]%elem_of_cons]%elem_of_cons]%elem_of_cons; try done;
      intros [= <-]; vm_compute; split; congruence.
  - unfold strictly_sorted_by, sample_assembly, sample_snapshots. cbn [candidate_snapshot pool AccountPool.candidates].
    repeat (apply SSorted_cons || apply SSorted_nil); repeat (apply Forall_cons; split); ((by apply Forall_nil) || (vm_compute; reflexivity)).
Qed.
Lemma sample_ledger_inv : AccountBudget.ledger_inv (lock_data sample_ledger).
Proof. apply AccountBudget.reachable_ledger_inv. exists sample_budgets, (lock_data sample_ledger). split; [vm_compute; reflexivity|apply rtc_refl]. Qed.

(** ** Properties *)

(** C1: an assembled coordinator routes and admits as one step, whatever other threads do
    to the stores.  A route goes to an authoritative candidate of the request's tenant that
    passes every check of the selection, with the provider model and the proxy profile of that
    candidate.  Its lease is open and new: the controller was asked for the tenant, the model
    and the account of the route, and then had, beside the live leases, this one lease that
    carries the units and a slot of the account, one slot more than before and within the
    account's persisted bound; what the controller is in the end is what other threads made of
    that, and it still has the lease unless they ended it.  The ledger holds one new
    reservation for exactly the quoted amount, on the tenant, group and account of the route.
    Any other outcome leaves the
    stores alone, or is the refusal of the selected candidate by one of the two stores, and
    then no rate lease stays behind.  In every state no account carries more leases than its
    persisted bound. *)
Theorem coordination_sound shared a c w0 interfere request snapshots w w' r
    (Hwf : assembly_wf a) (Hbuild : build_routing_admission_coordinator shared a = Ok (c, w0))
    (Hnd : NoDup (AccountPool.id <$> AccountPool.candidates (pool snapshots)))
    (Hunits : 1 <= template_units (admission request) <= u32_max) (Hw : world_inv (policies c) w)
    (Hothers : forall k w, world_inv (policies c) w -> others (policies c) w (interfere k w))
    (Hrun : coordinate c interfere request snapshots w = (w', r)) :
  let tenant := RoutingDomain.tenant_id (context request) in
  world_inv (policies c) w' /\
  (forall m t limit, m ∈ AccountPool.candidates (candidate_snapshot a) -> AccountPool.tenant_id m = Some t ->
    AccountPool.max_concurrency m = Some limit -> held (account_key t (AccountPool.account_id m)) w' <= limit) /\
  match r with
  | Ok route => exists m q,
      m ∈ AccountPool.candidates (candidate_snapshot a) /\ m ∈ AccountPool.candidates (pool snapshots) /\
      AccountPool.tenant_id m = Some tenant /\ verdict request snapshots m = None /\ quote_of request snapshots m = Some q /\
      selected_candidate route = MkId (AccountPool.id m) /\ selected_account route = AccountPool.account_id m /\
      mapped_model request snapshots m = Some (route_model route) /\
      selected_proxy_profile route = approved_profile snapshots m /\
      (let now := monotonic_now (times (admission request)) in
       let k := account_key tenant (AccountPool.account_id m) in
       let rq := RateLimit.mk_AdmissionRequest
         [RateLimit.KeyTenant (MkId (id_str tenant)); RateLimit.KeyModel (MkId (RoutingDomain.model (context request))); k]
         (template_units (admission request)) in
       exists rate l x limit, lease_open (admission_lease route) rate /\
         RateLimit.try_admit (policies c) rq now (rate_store w) = (l, Ok rate) /\
         RateLimit.leases (controller w) !! RateLimit.al_id rate = None /\
         RateLimit.leases (lock_data l) = <[RateLimit.al_id rate := x]> (RateLimit.live_leases now (controller w)) /\
         k ∈ RateLimit.lease_concurrency_keys x /\ RateLimit.lease_units x = template_units (admission request) /\
         RateLimit.rate_committed x = false /\ now < RateLimit.lease_expires_at x /\
         AccountPool.max_concurrency m = Some limit /\ held k (w <| rate_store := l |>) <= limit /\
         held k (w <| rate_store := l |>) = map_sum (fun _ y => RateLimit.holds k y) (RateLimit.live_leases now (controller w)) + 1 /\
         controller w' = controller (interfere 0%nat (w <| rate_store := l |>)) /\
         ((forall i v y, RateLimit.leases (controller v) !! RateLimit.al_id rate = Some y ->
             RateLimit.leases (controller (interfere i v)) !! RateLimit.al_id rate = Some y) ->
           RateLimit.leases (controller w') !! RateLimit.al_id rate = Some x)) /\
      AccountBudget.reservations (ledger w) !! template_reservation (admission request) = None /\
      exists record, AccountBudget.reservations (ledger w') !! template_reservation (admission request) = Some record /\
        AccountBudget.record_state record = AccountBudget.Reserved /\
        AccountBudget.request record = AccountBudget.mk_ReservationRequest (template_reservation (admission request))
          (AccountBudget.mk_BudgetContext tenant (template_group (admission request)) (AccountPool.account_id m))
          (AccountBudget.mk_Money (AccountBudget.mk_CurrencyCode (ModelPricing.quote_currency q)) (ModelPricing.quote_total q))
          (budget_expires_at (times (admission request)))
  | Err e =>
      w' = w \/
      exists sel s rq l, prepare_selection request snapshots = Ok sel /\ states sel !! selected_index sel = Some s /\
        rate_request request s = Ok rq /\ is_Some (admission_scope e) /\
        ((exists refused, RateLimit.try_admit (policies c) rq (monotonic_now (times (admission request))) (rate_store w) = (l, Err refused) /\
          w' = w <| rate_store := l |>) \/
         exists lease, RateLimit.try_admit (policies c) rq (monotonic_now (times (admission request))) (rate_store w) = (l, Ok lease) /\
          RateLimit.leases (controller w') !! RateLimit.al_id lease = None)
  end.
Proof.
  cbv zeta. pose proof (assembled_wf _ _ _ _ Hwf Hbuild) as Hpol.
  set (outcome := match r with Ok _ => _ | Err _ => _ end).
  assert (world_inv (policies c) w' /\ outcome) as [Hw' Hout]; [|split_and!; try done].
  2: { intros m t limit Hm Ht Hl. exact (proj2 (account_slots_bounded shared a c w0 Hbuild _ m t limit Hw' Hm Ht Hl)). }
  unfold outcome. clear outcome. unfold coordinate in Hrun.
  destruct (validate_candidate_snapshot c (pool snapshots)) as [u|e] eqn:Hval.
  2: { rewrite act_lift_stop in Hrun. injection Hrun as <- <-. by split; [|left]. }
  rewrite act_lift_run in Hrun. unfold engine_coordinate in Hrun.
  destruct (prepare_selection request snapshots) as [sel|e] eqn:Hsel.
  2: { rewrite act_lift_stop in Hrun. injection Hrun as <- <-. by split; [|left]. }
  rewrite act_lift_run in Hrun.
  destruct (selected_state _ _ _ Hnd Hsel) as (m & s & Hm & Hs & Hsrc & Hkey & Hv & Hpm & [pm Hpm'] & Hq & [q Hq'] & Hpp).
  rewrite Hs in Hrun. cbn [ok_or] in Hrun. rewrite act_lift_run in Hrun.
  destruct (build_retry_plan _ _ _) as [plan|e] eqn:Hplan.
  2: { rewrite act_lift_stop in Hrun. injection Hrun as <- <-. by split; [|left]. }
  rewrite act_lift_run in Hrun.
  destruct (admit_selected c interfere request s (exclusions sel) w) as [w1 r1] eqn:Hadm.
  pose proof (map_err_run (fun e => attach_initial_admission_retry_context e (key s) plan) _ _ _ _ Hadm) as Hstep.
  destruct (admit_selected_run c Hpol interfere Hothers request Hunits s q _ _ _ _ Hw Hq' Hadm) as [Hw1 Hout].
  destruct r1 as [lease|e].
  - rewrite (act_bind_run _ _ _ _ _ Hstep), Hpm' in Hrun. injection Hrun as <- <-. split; [done|].
    destruct Hout as ((rq & l & rate & Hrq & Hta & Hopen & Hw2 & Hctrl) & _ & Hid & Hnone & record & bq & Hbq%budget_request_Ok & Hrec & Hreq & Hst).
    rewrite Hid in Hnone, Hrec. destruct (prepare_selection_run _ _ _ Hnd Hsel) as (_ & Hten & _).
    exists m, q. cbn -[verdict quote_of mapped_model approved_profile]. rewrite <- Hq, <- Hpm, Hpm', Hsrc.
    assert (m ∈ AccountPool.candidates (candidate_snapshot a)) as Hauth by by eapply validated_authoritative.
    assert (AccountPool.tenant_id m = Some (RoutingDomain.tenant_id (context request))) as Htenant by by apply Hten.
    split; [done|]. split; [done|]. do 5 (split; [done|]). split; [done|]. split; [done|]. split.
    { destruct (proj1 (proj2 (assembled_policies _ _ _ _ Hbuild)) m Hauth) as (k' & p & Hc & Hp).
      apply account_concurrency_policy_Ok in Hc as (t & limit & Ht & Hl & -> & -> & _). rewrite Htenant in Ht. injection Ht as <-.
      pose proof (account_slots_bounded shared a c w0 Hbuild _ m _ limit Hw2 Hauth Htenant Hl) as [Hpk Hbound].
      destruct (account_lease_taken c request s w l rate (RateLimit.mk_ConcurrencyRule limit (account_lease_duration a)) Hpol Hw Hunits rq Hrq)
        as (x & X1 & X2 & X3 & X4 & X5 & X6 & X7); [|exact Hta|].
      { rewrite Hsrc. intros p' Hp'. rewrite Hpk in Hp'. by injection Hp' as <-. }
      destruct (rate_request_Ok _ _ _ Hrq) as (Hkeys & Hu & _). rewrite Hsrc in X3, X7, Hkeys.
      exists rate, l, x, limit. split; [done|]. rewrite <- Hkeys, <- Hu. split; [by destruct rq|]. rewrite Hu. do 9 (split; [done|]).
      split; [exact Hctrl|]. intros Hleft. rewrite Hctrl. apply Hleft. unfold controller. cbn [rate_store set_field]. by rewrite X2, lookup_insert_eq. }
    split; [done|]. exists record. split_and!; try done. by rewrite Hreq, Hbq, Hsrc.
  - rewrite (act_bind_stop _ _ _ _ _ Hstep) in Hrun. injection Hrun as <- <-. split; [done|].
    destruct Hout as [[-> _]|(rq & l & Hrq & Hscope & Hout)]; [by left|]. right. exists sel, s, rq, l.
    rewrite attached_scope. split_and!; try done. destruct Hout as [(refused & Hta & Hw2 & _)|(ls & Hta & Hgone)].
    + left. by exists refused.
    + right. by exists ls.
Qed.
(** The sample coordination: the route's lease is in the controller, on the route's account. *)
Lemma coordination_sound_witness : match sample_build with
  | Ok (c, w0) =>
      match coordinate c quiet sample_request sample_snapshots w0 with
      | (w', Ok route) =>
          held (account_key (MkId "t") (MkId "b")) w' <= 2 /\
          exists rate x, lease_open (admission_lease route) rate /\ RateLimit.leases (controller w') !! RateLimit.al_id rate = Some x /\
            account_key (MkId "t") (selected_account route) ∈ RateLimit.lease_concurrency_keys x
      | _ => False
      end
  | Err _ => False
  end.
Proof.
  pose proof sample_coordinates as Hs.
  destruct sample_build as [[c w0]|e] eqn:Hb; [|exact Hs].
  destruct (coordinate c quiet sample_request sample_snapshots w0) as [w' [route|e]] eqn:Hrun; [|exact Hs].
  assert (world_inv (policies c) w0) as Hw
    by exact (assembled_inv (fun _ => sample_ledger) sample_assembly c w0 sample_assembly_wf Hb sample_ledger eq_refl eq_refl sample_ledger_inv).
  assert (NoDup (AccountPool.id <$> AccountPool.candidates (pool sample_snapshots))) as Hnd
    by (apply (bool_decide_unpack _); vm_compute; exact I).
  assert (1 <= template_units (admission sample_request) <= u32_max) as Hu by (vm_compute; split; discriminate).
  pose proof (coordination_sound (fun _ => sample_ledger) sample_assembly c w0 quiet sample_request sample_snapshots w0 w' (Ok route)
    sample_assembly_wf Hb Hnd Hu Hw (fun _ w _ => quiet_others _ w) Hrun) as (_ & Hheld & m & q & _ & _ & _ & _ & _ & _ & Hacc & _ & _ & Hlease & _).
  split; [exact (Hheld (sample_candidate "b" 1 AccountPool.Available) (MkId "t") 2 ltac:(right; left) eq_refl eq_refl)|].
  destruct Hlease as (rate & l & x & limit & Hopen & _ & _ & _ & Hk & _ & _ & _ & _ & _ & _ & _ & Hkept).
  exists rate, x. split; [exact Hopen|]. split; [exact (Hkept (fun _ _ _ H => H))|]. rewrite Hacc. exact Hk.
Defined.
