(* ===== verification/UserDomain.v ===== *)
(** * Users and their lifecycle

    Models [crates/optional/ariadnion-user-domain/src/lib.rs]: the user aggregate, its
    version-checked transitions with the events they emit, and the reconstruction of a user
    from a persisted snapshot.  Instants are signed seconds. *)

From S2P Require Import Prelude CoreTypes.
#[local] Open Scope N_scope.

Definition MAX_USER_ID_BYTES : N := 128.
Inductive UserDomainErrorCode :=
| InvalidArgument | VersionConflict | VersionExhausted | InvalidTransition | RecoveryUnauthorized | DeletionNotReady | DeletedTerminal.
Definition as_str (code : UserDomainErrorCode) : string :=
  match code with
  | InvalidArgument => "USER_INVALID_ARGUMENT"
  | VersionConflict => "USER_VERSION_CONFLICT"
  | VersionExhausted => "USER_VERSION_EXHAUSTED"
  | InvalidTransition => "USER_INVALID_TRANSITION"
  | RecoveryUnauthorized => "USER_RECOVERY_UNAUTHORIZED"
  | DeletionNotReady => "USER_DELETION_NOT_READY"
  | DeletedTerminal => "USER_DELETED_TERMINAL"
  end.

Definition UserId := Id UserKind.
Definition valid_user_id (value : string) : bool :=
  negb (is_empty value) && (byte_len value <=? MAX_USER_ID_BYTES) && is_ascii value && all_bytes is_id_byte value.
Definition UserId_parse (value : string) : result UserDomainErrorCode UserId :=
  if negb (valid_user_id value) then Err InvalidArgument else Ok (MkId value).

(** [UserVersion]: a non-zero 64-bit integer. *)
Definition version_initial : N := 1.
Definition version_new (value : N) : result UserDomainErrorCode N := if value =? 0 then Err InvalidArgument else Ok value.
Definition version_next (v : N) : result UserDomainErrorCode N := ok_or (checked_add u64_max v 1) VersionExhausted.

Definition UtcTimestamp := Z.
Definition DeletionNotBefore := UtcTimestamp.
Definition DeletionNotBefore_new (requested_at boundary : UtcTimestamp) : result UserDomainErrorCode DeletionNotBefore :=
  if (boundary <=? requested_at)%Z then Err InvalidArgument else Ok boundary.

Inductive UserLifecycleState := LifecycleInvited | LifecycleActive | LifecycleSuspended | LifecycleDeletionPending | LifecycleDeleted.
#[export] Instance UserLifecycleState_eq_dec : EqDecision UserLifecycleState.
Proof. solve_decision. Defined.
Inductive DeletionRecoveryState := RecoverActive | RecoverSuspended.
Inductive UserSnapshotState :=
| SnapshotInvited | SnapshotActive | SnapshotSuspended
| SnapshotDeletionPending (requested_at : UtcTimestamp) (not_before : DeletionNotBefore) (recovery_state : DeletionRecoveryState)
| SnapshotDeleted.
Record PendingDeletion := mk_PendingDeletion {
  requested_at : UtcTimestamp; not_before : DeletionNotBefore; recovery_state : DeletionRecoveryState;
}.
Inductive UserState := Invited | Active | Suspended | DeletionPending (pending : PendingDeletion) | Deleted.
Definition lifecycle (s : UserState) : UserLifecycleState :=
  match s with
  | Invited => LifecycleInvited | Active => LifecycleActive | Suspended => LifecycleSuspended
  | DeletionPending _ => LifecycleDeletionPending | Deleted => LifecycleDeleted
  end.

Record User := mk_User { id : UserId; tenant_id : TenantId; version : N; state : UserState }.
Definition User_invited (id : UserId) (tenant_id : TenantId) : User := mk_User id tenant_id version_initial Invited.
Definition snapshot_state (u : User) : UserSnapshotState :=
  match state u with
  | Invited => SnapshotInvited
  | Active => SnapshotActive
  | Suspended => SnapshotSuspended
  | DeletionPending p => SnapshotDeletionPending (requested_at p) (not_before p) (recovery_state p)
  | Deleted => SnapshotDeleted
  end.
Definition deletion_not_before (u : User) : option DeletionNotBefore :=
  match state u with DeletionPending p => Some (not_before p) | _ => None end.

(** ** Commands and events *)

Record DeletionRecoveryAuthorization := mk_DeletionRecoveryAuthorization {
  auth_user_id : UserId; auth_tenant_id : TenantId; pending_version : N; valid_from : UtcTimestamp; valid_until : UtcTimestamp;
}.
Definition DeletionRecoveryAuthorization_new (user_id : UserId) (tenant_id : TenantId) (pending_version : N)
    (valid_from valid_until : UtcTimestamp) : result UserDomainErrorCode DeletionRecoveryAuthorization :=
  if (valid_until <? valid_from)%Z then Err InvalidArgument
  else Ok (mk_DeletionRecoveryAuthorization user_id tenant_id pending_version valid_from valid_until).
Definition permits (a : DeletionRecoveryAuthorization) (u : User) (observed_at : UtcTimestamp) : bool :=
  bool_decide (auth_user_id a = id u) && bool_decide (auth_tenant_id a = tenant_id u) && (pending_version a =? version u) &&
  (valid_from a <=? observed_at)%Z && (observed_at <=? valid_until a)%Z.

Inductive UserTransitionAction :=
| Activate (occurred_at : UtcTimestamp)
| Suspend (occurred_at : UtcTimestamp)
| Resume (occurred_at : UtcTimestamp)
| RequestDeletion (requested_at : UtcTimestamp) (not_before : DeletionNotBefore)
| RecoverDeletion (authorization : DeletionRecoveryAuthorization) (observed_at : UtcTimestamp)
| CompleteDeletion (observed_at : UtcTimestamp).
Record UserTransitionCommand := mk_UserTransitionCommand { expected_version : N; action : UserTransitionAction }.

Inductive UserLifecycleEventKind :=
| EventActivated | EventSuspended | EventResumed
| EventDeletionRequested (requested_at : UtcTimestamp) (not_before : DeletionNotBefore) (recovery_state : DeletionRecoveryState)
| EventDeletionRecovered (recovered_at : UtcTimestamp) (restored_state : DeletionRecoveryState)
| EventDeleted (deleted_at : UtcTimestamp).
Record UserLifecycleEvent := mk_UserLifecycleEvent {
  event_user_id : UserId; event_tenant_id : TenantId; event_version : N; event_occurred_at : UtcTimestamp; kind : UserLifecycleEventKind;
}.
Record UserTransition := mk_UserTransition { user : User; event : UserLifecycleEvent }.

(** ** Transitions *)

Definition evolve (current : User) (s : UserState) (occurred_at : UtcTimestamp) (kind : UserLifecycleEventKind)
    : result UserDomainErrorCode UserTransition :=
  version ← version_next (version current);
  mret (mk_UserTransition (mk_User (id current) (tenant_id current) version s)
    (mk_UserLifecycleEvent (id current) (tenant_id current) version occurred_at kind)).
Definition activate (current : User) (occurred_at : UtcTimestamp) : result UserDomainErrorCode UserTransition :=
  match state current with
  | Invited => evolve current Active occurred_at EventActivated
  | _ => Err InvalidTransition
  end.
Definition suspend (current : User) (occurred_at : UtcTimestamp) : result UserDomainErrorCode UserTransition :=
  match state current with
  | Active => evolve current Suspended occurred_at EventSuspended
  | _ => Err InvalidTransition
  end.
Definition resume (current : User) (occurred_at : UtcTimestamp) : result UserDomainErrorCode UserTransition :=
  match state current with
  | Suspended => evolve current Active occurred_at EventResumed
  | _ => Err InvalidTransition
  end.
Definition deletion_recovery_state (current : User) : result UserDomainErrorCode DeletionRecoveryState :=
  match state current with
  | Active => Ok RecoverActive
  | Suspended => Ok RecoverSuspended
  | _ => Err InvalidTransition
  end.
Definition request_deletion (current : User) (requested_at : UtcTimestamp) (not_before : DeletionNotBefore)
    : result UserDomainErrorCode UserTransition :=
  reject_if (not_before <=? requested_at)%Z InvalidArgument ;;
  recovery_state ← deletion_recovery_state current;
  evolve current (DeletionPending (mk_PendingDeletion requested_at not_before recovery_state)) requested_at
    (EventDeletionRequested requested_at not_before recovery_state).
Definition restored_user_state (recovery : DeletionRecoveryState) : UserState :=
  match recovery with RecoverActive => Active | RecoverSuspended => Suspended end.
Definition recover_deletion (current : User) (authorization : DeletionRecoveryAuthorization) (observed_at : UtcTimestamp)
    : result UserDomainErrorCode UserTransition :=
  match state current with
  | DeletionPending pending =>
      if negb (permits authorization current observed_at) then Err RecoveryUnauthorized
      else evolve current (restored_user_state (recovery_state pending)) observed_at
             (EventDeletionRecovered observed_at (recovery_state pending))
  | _ => Err InvalidTransition
  end.
Definition complete_deletion (current : User) (observed_at : UtcTimestamp) : result UserDomainErrorCode UserTransition :=
  match state current with
  | DeletionPending pending =>
      if (observed_at <? not_before pending)%Z then Err DeletionNotReady
      else evolve current Deleted observed_at (EventDeleted observed_at)
  | _ => Err InvalidTransition
  end.
Definition dispatch_user_action (current : User) (a : UserTransitionAction) : result UserDomainErrorCode UserTransition :=
  match a with
  | Activate occurred_at => activate current occurred_at
  | Suspend occurred_at => suspend current occurred_at
  | Resume occurred_at => resume current occurred_at
  | RequestDeletion requested_at not_before => request_deletion current requested_at not_before
  | RecoverDeletion authorization observed_at => recover_deletion current authorization observed_at
  | CompleteDeletion observed_at => complete_deletion current observed_at
  end.
Definition dispatch (current : User) (a : UserTransitionAction) : result UserDomainErrorCode UserTransition :=
  match state current with
  | Deleted => Err DeletedTerminal
  | _ => dispatch_user_action current a
  end.
Definition transition (current : User) (command : UserTransitionCommand) : result UserDomainErrorCode UserTransition :=
  reject_if (negb (version current =? expected_version command)) VersionConflict ;;
  dispatch current (action command).

(** ** Snapshots *)

Definition valid_active_version (v : N) : bool := (2 <=? v) && (v mod 2 =? 0).
Definition valid_suspended_version (v : N) : bool := (3 <=? v) && negb (v mod 2 =? 0).
Definition valid_active_pending_version (v : N) : bool := (3 <=? v) && negb (v mod 2 =? 0).
Definition valid_suspended_pending_version (v : N) : bool := (4 <=? v) && (v mod 2 =? 0).
Definition validated_state (valid : bool) (s : UserState) : result UserDomainErrorCode UserState :=
  if negb valid then Err InvalidArgument else Ok s.
Definition pending_state_from_snapshot (v : N) (requested_at : UtcTimestamp) (not_before : DeletionNotBefore)
    (recovery_state : DeletionRecoveryState) : result UserDomainErrorCode UserState :=
  if (not_before <=? requested_at)%Z then Err InvalidArgument
  else
    let valid_version := match recovery_state with
                         | RecoverActive => valid_active_pending_version v
                         | RecoverSuspended => valid_suspended_pending_version v
                         end in
    validated_state valid_version (DeletionPending (mk_PendingDeletion requested_at not_before recovery_state)).
Definition user_state_from_snapshot (v : N) (s : UserSnapshotState) : result UserDomainErrorCode UserState :=
  match s with
  | SnapshotInvited => validated_state (v =? version_initial) Invited
  | SnapshotActive => validated_state (valid_active_version v) Active
  | SnapshotSuspended => validated_state (valid_suspended_version v) Suspended
  | SnapshotDeletionPending requested_at not_before recovery_state => pending_state_from_snapshot v requested_at not_before recovery_state
  | SnapshotDeleted => validated_state (4 <=? v) Deleted
  end.
Definition from_snapshot (id : UserId) (tenant_id : TenantId) (v : N) (s : UserSnapshotState) : result UserDomainErrorCode User :=
  state ← user_state_from_snapshot v s;
  mret (mk_User id tenant_id v state).

(** ** Specification *)

(** One accepted command. *)
Definition user_step (u u' : User) : Prop := exists command event, transition u command = Ok (mk_UserTransition u' event).
Definition reachable (u : User) : Prop := rtc user_step (User_invited (id u) (tenant_id u)) u.

(** What an accepted action does to the state of a user. *)
Definition user_move (u : User) (a : UserTransitionAction) (s : UserState) : Prop :=
  match state u, a with
  | Invited, Activate _ | Suspended, Resume _ => s = Active
  | Active, Suspend _ => s = Suspended
  | Active, RequestDeletion r n => s = DeletionPending (mk_PendingDeletion r n RecoverActive) /\ (r < n)%Z
  | Suspended, RequestDeletion r n => s = DeletionPending (mk_PendingDeletion r n RecoverSuspended) /\ (r < n)%Z
  | DeletionPending p, RecoverDeletion a o => permits a u o = true /\ s = restored_user_state (recovery_state p)
  | DeletionPending p, CompleteDeletion o => s = Deleted /\ (not_before p <= o)%Z
  | _, _ => False
  end.

(** ** Lemmas *)

Lemma evolve_Ok u s now k u' e : evolve u s now k = Ok (mk_UserTransition u' e) <->
  version u + 1 <= u64_max /\ u' = mk_User (id u) (tenant_id u) (version u + 1) s /\
  e = mk_UserLifecycleEvent (id u) (tenant_id u) (version u + 1) now k.
Proof.
  unfold evolve, version_next. split.
  - intros (v & [-> Hv]%ok_or_Ok%checked_add_Some & [= <- <-])%result_bind_Ok. by rewrite N.add_1_r in *.
  - intros (Hv & -> & ->). by rewrite (proj2 (checked_add_Some u64_max (version u) 1 _) (conj eq_refl Hv)).
Qed.

Lemma user_transition_run u c u' : (exists e, transition u c = Ok (mk_UserTransition u' e)) <->
  expected_version c = version u /\ version u + 1 <= u64_max /\
  exists s, user_move u (action c) s /\ u' = mk_User (id u) (tenant_id u) (version u + 1) s.
Proof.
  unfold transition, dispatch, dispatch_user_action. split.
  - intros (e & (x & Hv%reject_if_Ok%negb_false_iff%N.eqb_eq & H)%result_bind_Ok). split; [done|]. revert H.
    unfold user_move, activate, suspend, resume, request_deletion, deletion_recovery_state, recover_deletion, complete_deletion.
    destruct (state u) as [| | |p|], (action c); try done; cbn.
    all: repeat match goal with
    | |- (reject_if ?b _ ≫= _) = _ -> _ => destruct b eqn:?; [done|]; cbn
    | |- (if ?b then _ else _) = _ -> _ => destruct b eqn:?; [done|]
    end.
    all: try (intros ?; discriminate).
    all: intros (? & -> & _)%evolve_Ok; split; [done|]; eexists; split; [|done].
    all: try done; split; try done; try lia.
    by apply negb_false_iff.
  - intros (Hv & Hle & s & Hm & ->). rewrite (proj2 (negb_false_iff _)) by (by apply N.eqb_eq). cbn. revert Hm.
    unfold user_move, activate, suspend, resume, request_deletion, deletion_recovery_state, recover_deletion, complete_deletion.
    destruct (state u) as [| | |p|], (action c); try done; cbn.
    all: try (intros ->; eexists; by apply evolve_Ok).
    + intros [-> Hlt]. rewrite (proj2 (Z.leb_gt _ _)) by done. cbn. eexists. by apply evolve_Ok.
    + intros [-> Hlt]. rewrite (proj2 (Z.leb_gt _ _)) by done. cbn. eexists. by apply evolve_Ok.
    + intros [-> ->]. cbn. eexists. by apply evolve_Ok.
    + intros [-> Hlt]. rewrite (proj2 (Z.ltb_ge _ _)) by done. eexists. by apply evolve_Ok.
Qed.

Lemma mod2_succ v : (v + 1) mod 2 = 1 - v mod 2.
Proof. zify. Z.to_euclidean_division_equations. lia. Qed.

(** The state a user has is one its version allows. *)
Lemma step_consistent u u' : user_step u u' -> user_state_from_snapshot (version u) (snapshot_state u) = Ok (state u) ->
  version u <= u64_max -> 1 <= version u ->
  user_state_from_snapshot (version u') (snapshot_state u') = Ok (state u') /\ version u' <= u64_max /\ 1 <= version u'.
Proof.
  intros (c & Hc) Hok Hle Hge. apply user_transition_run in Hc as (_ & Hnext & s & Hm & ->). cbn. split; [|lia].
  revert Hok Hm. unfold user_move, snapshot_state, user_state_from_snapshot, pending_state_from_snapshot, validated_state,
    valid_active_version, valid_suspended_version, valid_active_pending_version, valid_suspended_pending_version, version_initial.
  pose proof (mod2_succ (version u)) as Hmod. pose proof (N.mod_lt (version u) 2 ltac:(done)) as Hlt.
  assert (version u = 1 -> version u mod 2 = 1) as Hone by (by intros ->). revert Hmod Hlt Hone.
  generalize (version u mod 2) as m, ((version u + 1) mod 2) as m'. intros m m' Hmod Hlt Hone.
  destruct (state u) as [| | |p|], (action c); try done.
  all: repeat match goal with
  | |- context [match recovery_state ?p with _ => _ end] => destruct (recovery_state p) eqn:?
  | |- (if ?b then _ else _) = _ -> _ => destruct b eqn:?; [done|]
  end.
  all: intros Hok Hm.
  all: repeat match goal with H : _ /\ _ |- _ => destruct H end; subst s; unfold restored_user_state.
  all: repeat match goal with H : recovery_state _ = _ |- _ => rewrite H end; cbn.
  all: rewrite ?(proj2 (Z.leb_gt _ _)) by done.
  all: match goal with |- (if negb ?b then _ else _) = _ => replace b with true; [done|symmetry] end.
  all: tidy.
  all: rewrite ?andb_true_iff, ?negb_true_iff, ?N.leb_le, ?N.eqb_eq, ?N.eqb_neq; lia.
Qed.

Lemma move_step i t v s a s' : v + 1 <= u64_max -> user_move (mk_User i t v s) a s' ->
  user_step (mk_User i t v s) (mk_User i t (v + 1) s').
Proof.
  intros Hv Hm. exists (mk_UserTransitionCommand v a). apply user_transition_run. cbn. split_and!; [done|done|]. by exists s'.
Qed.
Section paths.
  Context (i : UserId) (t : TenantId).
  Notation start := (User_invited i t).

Lemma reach_active k : 2 * k + 2 <= u64_max -> rtc user_step start (mk_User i t (2 * k + 2) Active).
Proof.
  induction k as [|k IH] using N.peano_ind; intros Hk.
  - apply rtc_once. by apply (move_step i t 1 Invited (Activate 0%Z)).
  - eapply rtc_r; [eapply rtc_r; [apply IH; lia|]|].
    + apply (move_step i t (2 * k + 2) Active (Suspend 0%Z) Suspended); [lia|done].
    + replace (2 * N.succ k + 2) with (2 * k + 2 + 1 + 1) by lia.
      apply (move_step i t _ Suspended (Resume 0%Z) Active); [lia|done].
Qed.
Lemma reach_suspended k : 2 * k + 3 <= u64_max -> rtc user_step start (mk_User i t (2 * k + 3) Suspended).
Proof.
  intros Hk. eapply rtc_r; [apply (reach_active k); lia|]. replace (2 * k + 3) with (2 * k + 2 + 1) by lia.
  apply (move_step i t _ Active (Suspend 0%Z) Suspended); [lia|done].
Qed.
Lemma reach_pending k r n recovery : (r < n)%Z ->
  match recovery with RecoverActive => 2 * k + 3 | RecoverSuspended => 2 * k + 4 end <= u64_max ->
  rtc user_step start (mk_User i t (match recovery with RecoverActive => 2 * k + 3 | RecoverSuspended => 2 * k + 4 end)
    (DeletionPending (mk_PendingDeletion r n recovery))).
Proof.
  intros Hrn. destruct recovery; intros Hk.
  - eapply rtc_r; [apply (reach_active k); lia|]. replace (2 * k + 3) with (2 * k + 2 + 1) by lia.
    apply (move_step i t _ Active (RequestDeletion r n)); [lia|by split].
  - eapply rtc_r; [apply (reach_suspended k); lia|]. replace (2 * k + 4) with (2 * k + 3 + 1) by lia.
    apply (move_step i t _ Suspended (RequestDeletion r n)); [lia|by split].
Qed.
Lemma reach_deleted v : 4 <= v <= u64_max -> rtc user_step start (mk_User i t v Deleted).
Proof.
  intros Hv. assert (exists k, v = 2 * k + 4 \/ v = 2 * k + 5) as (k & [-> | ->]).
  { exists ((v - 4) / 2). pose proof (N.div_mod (v - 4) 2 ltac:(done)) as H. pose proof (N.mod_lt (v - 4) 2 ltac:(done)) as Hlt.
    revert H Hlt. generalize ((v - 4) / 2), ((v - 4) mod 2). intros d m. lia. }
  - eapply rtc_r; [apply (reach_pending k 0%Z 1%Z RecoverActive); lia|]. replace (2 * k + 4) with (2 * k + 3 + 1) by lia.
    apply (move_step i t _ _ (CompleteDeletion 1%Z)); [lia|]. by split.
  - eapply rtc_r; [apply (reach_pending k 0%Z 1%Z RecoverSuspended); lia|]. replace (2 * k + 5) with (2 * k + 4 + 1) by lia.
    apply (move_step i t _ _ (CompleteDeletion 1%Z)); [lia|]. by split.
Qed.
End paths.

Lemma rtc_identity u u' : rtc user_step u u' -> id u' = id u /\ tenant_id u' = tenant_id u.
Proof.
  induction 1 as [|x y z (c & Hs) _ [IHi IHt]]; [done|]. apply user_transition_run in Hs as (_ & _ & s & _ & ->). by rewrite IHi, IHt.
Qed.

Lemma even_form v : 2 <= v -> v mod 2 = 0 -> exists k, v = 2 * k + 2.
Proof. intros Hv Hm. exists (v / 2 - 1). pose proof (N.div_mod v 2 ltac:(done)) as H. revert H Hm.
  generalize (v / 2), (v mod 2). intros d m. lia.
Qed.
Lemma odd_form v : 3 <= v -> v mod 2 <> 0 -> exists k, v = 2 * k + 3.
Proof.
  intros Hv Hm. exists (v / 2 - 1). pose proof (N.div_mod v 2 ltac:(done)) as H. pose proof (N.mod_lt v 2 ltac:(done)) as Hlt.
  revert H Hm Hlt. generalize (v / 2), (v mod 2). intros d m. lia.
Qed.
Lemma snapshot_reached i t v s st : 1 <= v <= u64_max -> user_state_from_snapshot v s = Ok st ->
  rtc user_step (User_invited i t) (mk_User i t v st) /\ snapshot_state (mk_User i t v st) = s.
Proof.
  intros Hv. unfold user_state_from_snapshot, pending_state_from_snapshot, validated_state, valid_active_version,
    valid_suspended_version, valid_active_pending_version, valid_suspended_pending_version.
  destruct s as [| | |r n recovery|].
  - destruct (v =? version_initial) eqn:Hb; [|done]. intros [= <-]. split; [|done]. apply N.eqb_eq in Hb as ->. apply rtc_refl.
  - destruct (_ && _) eqn:Hb; [|done]. intros [= <-]. split; [|done]. tidy. destruct (even_form v) as [k ->]; [done..|].
    apply reach_active; lia.
  - destruct (_ && _) eqn:Hb; [|done]. intros [= <-]. split; [|done]. tidy. destruct (odd_form v) as [k ->]; [done..|].
    apply reach_suspended; lia.
  - destruct (_ <=? _)%Z eqn:Hrn; [done|]. apply Z.leb_gt in Hrn. destruct recovery.
    + destruct (_ && _) eqn:Hb; [|done]. intros [= <-]. split; [|done]. tidy. destruct (odd_form v) as [k ->]; [done..|].
      apply (reach_pending i t k r n RecoverActive); [done|lia].
    + destruct (_ && _) eqn:Hb; [|done]. intros [= <-]. split; [|done]. tidy. destruct (even_form v) as [k ->]; [lia|done|].
      replace (2 * k + 2) with (2 * (k - 1) + 4) by lia.
      apply (reach_pending i t (k - 1) r n RecoverSuspended); [done|lia].
  - destruct (4 <=? v) eqn:Hb; [|done]. intros [= <-]. split; [|done]. apply reach_deleted. tidy. lia.
Qed.
Lemma reached_consistent u u' : rtc user_step u u' ->
  user_state_from_snapshot (version u) (snapshot_state u) = Ok (state u) -> 1 <= version u <= u64_max ->
  user_state_from_snapshot (version u') (snapshot_state u') = Ok (state u') /\ 1 <= version u' <= u64_max.
Proof.
  induction 1 as [|x y z Hs _ IH]; [done|]. intros Hok [Hge Hle]. destruct (step_consistent _ _ Hs Hok Hle Hge) as (? & ? & ?).
  by apply IH.
Qed.

(** ** Properties *)

(** The persisted users are the ones the lifecycle can produce.  A snapshot is
    accepted exactly when the user it describes is reached from an invitation by accepted
    commands, so the parity of the version, the cooling-off interval and the recovery state it
    checks say all there is to say; and what is reconstructed is that user. *)
Theorem user_snapshot_exact i t v s (Hv : 1 <= v <= u64_max) u :
  from_snapshot i t v s = Ok u <->
  reachable u /\ id u = i /\ tenant_id u = t /\ version u = v /\ snapshot_state u = s.
Proof.
  unfold from_snapshot. split.
  - intros (st & Hst & [= <-])%result_bind_Ok. by destruct (snapshot_reached i t v s st Hv Hst) as [Hr Hs].
  - intros (Hr & <- & <- & <- & <-). destruct (reached_consistent _ _ Hr) as [Hok _]; [done|done|].
    rewrite Hok. by destruct u.
Qed.
Lemma user_snapshot_exact_witness :
  reachable (mk_User (MkId "u") (MkId "t") 5 Deleted).
Proof.
  refine (proj1 (proj1 (user_snapshot_exact (MkId "u") (MkId "t") 5 SnapshotDeleted _ (mk_User (MkId "u") (MkId "t") 5 Deleted)) _)).
  - split; discriminate.
  - reflexivity.
Defined.
