(* ===== verification/Organization.v ===== *)
(** * Organizations, memberships and ownership

    Models [crates/optional/ariadnion-organization/src]: [error.rs], [ids.rs], [model.rs] with
    its submodules [model/reachability.rs] and [model/transfer_validation.rs], and
    [transition.rs]: the organization aggregate, its version-checked commands and the events
    they emit, the replay of persisted events, the reconstruction of an organization from a
    persisted snapshot and the evidence an ownership transfer needs. *)

From S2P Require Import Prelude CoreTypes.
From S2P Require UserDomain.
#[local] Open Scope N_scope.
#[local] Open Scope record_scope.

(** ** Errors and identities ([error.rs], [ids.rs]) *)

Inductive OrganizationErrorCode :=
| InvalidArgument | VersionConflict | VersionExhausted | CapacityExceeded | MembershipNotFound | TeamNotFound
| DuplicateIdentity | InvalidTransition | LastActiveOwner | MembershipIneligible | TransferOrganizationMismatch
| TransferReauthenticationStale | TransferApproverConflict | TransferNotReady | TransferExpired | TransferEvidenceInvalid.
Definition as_str (code : OrganizationErrorCode) : string :=
  match code with
  | InvalidArgument => "ORGANIZATION_INVALID_ARGUMENT"
  | VersionConflict => "ORGANIZATION_VERSION_CONFLICT"
  | VersionExhausted => "ORGANIZATION_VERSION_EXHAUSTED"
  | CapacityExceeded => "ORGANIZATION_CAPACITY_EXCEEDED"
  | MembershipNotFound => "ORGANIZATION_MEMBERSHIP_NOT_FOUND"
  | TeamNotFound => "ORGANIZATION_TEAM_NOT_FOUND"
  | DuplicateIdentity => "ORGANIZATION_DUPLICATE_IDENTITY"
  | InvalidTransition => "ORGANIZATION_INVALID_TRANSITION"
  | LastActiveOwner => "ORGANIZATION_LAST_ACTIVE_OWNER"
  | MembershipIneligible => "ORGANIZATION_MEMBERSHIP_INELIGIBLE"
  | TransferOrganizationMismatch => "ORGANIZATION_TRANSFER_ORGANIZATION_MISMATCH"
  | TransferReauthenticationStale => "ORGANIZATION_TRANSFER_REAUTHENTICATION_STALE"
  | TransferApproverConflict => "ORGANIZATION_TRANSFER_APPROVER_CONFLICT"
  | TransferNotReady => "ORGANIZATION_TRANSFER_NOT_READY"
  | TransferExpired => "ORGANIZATION_TRANSFER_EXPIRED"
  | TransferEvidenceInvalid => "ORGANIZATION_TRANSFER_EVIDENCE_INVALID"
  end.
Notation outcome := (result OrganizationErrorCode).

Definition MAX_ID_BYTES : N := 128.
Definition valid_id (value : string) : bool :=
  negb (is_empty value) && (byte_len value <=? MAX_ID_BYTES) && is_ascii value && all_bytes is_id_byte value.
Definition parse {k} (value : string) : outcome (Id k) := if negb (valid_id value) then Err InvalidArgument else Ok (MkId value).
Definition OrganizationId := Id OrganizationKind.
Definition MembershipId := Id MembershipKind.
Definition TeamId := Id TeamKind.
Definition OwnershipTransferId := Id TransferKind.

(** [OrganizationVersion]: a non-zero 64-bit integer. *)
Definition version_initial : N := 1.
Definition version_new (value : N) : outcome N := if value =? 0 then Err InvalidArgument else Ok value.
Definition version_next (v : N) : outcome N := ok_or (checked_add u64_max v 1) VersionExhausted.

(** ** The aggregate ([model.rs]) *)

Definition MAX_MEMBERSHIPS : N := 1024.
Definition MAX_TEAMS : N := 256.
Definition MAX_TEAM_ASSIGNMENTS : N := 64.
Definition MAX_REAUTHENTICATION_AGE_SECONDS : Z := 300.

Notation UserId := UserDomain.UserId.
Notation UtcTimestamp := UserDomain.UtcTimestamp.

Inductive OrganizationState := OrganizationActive | OrganizationFrozen.
Inductive MembershipRole := Owner | Member.
Inductive MembershipState := Active | Suspended | Left.
Inductive MembershipOrigin := Founder | Invitation | Administrative.
#[export] Instance OrganizationState_eq_dec : EqDecision OrganizationState.
Proof. solve_decision. Defined.
#[export] Instance MembershipRole_eq_dec : EqDecision MembershipRole.
Proof. solve_decision. Defined.
#[export] Instance MembershipState_eq_dec : EqDecision MembershipState.
Proof. solve_decision. Defined.
#[export] Instance MembershipOrigin_eq_dec : EqDecision MembershipOrigin.
Proof. solve_decision. Defined.

Record OrganizationFounder := mk_OrganizationFounder { founder_membership_id : MembershipId; founder_user_id : UserId }.

Record Membership := mk_Membership {
  m_id : MembershipId; m_user_id : UserId; m_kind : MembershipRole; m_state : MembershipState;
  m_origin : MembershipOrigin; m_expires_at : option UtcTimestamp; m_team_ids : list TeamId;
}.
#[export] Instance eta_Membership : Eta Membership :=
  fun m => mk_Membership (m_id m) (m_user_id m) (m_kind m) (m_state m) (m_origin m) (m_expires_at m) (m_team_ids m).
Definition is_eligible_at (m : Membership) (observed_at : UtcTimestamp) : bool :=
  bool_decide (m_state m = Active) && is_none_or (fun expires_at => (observed_at <? expires_at)%Z) (m_expires_at m).
Definition active_team_ids_at (m : Membership) (observed_at : UtcTimestamp) : list TeamId :=
  if is_eligible_at m observed_at then m_team_ids m else [].

(** Team assignments exist only in the snapshot of an active membership. *)
Inductive MembershipSnapshot :=
| SnapshotActive (membership_id : MembershipId) (user_id : UserId) (kind : MembershipRole) (origin : MembershipOrigin)
    (expires_at : option UtcTimestamp) (team_ids : list TeamId)
| SnapshotSuspended (membership_id : MembershipId) (user_id : UserId) (kind : MembershipRole) (origin : MembershipOrigin)
    (expires_at : option UtcTimestamp)
| SnapshotLeft (membership_id : MembershipId) (user_id : UserId) (kind : MembershipRole) (origin : MembershipOrigin)
    (expires_at : option UtcTimestamp).
Definition ms_id (s : MembershipSnapshot) : MembershipId :=
  match s with SnapshotActive i _ _ _ _ _ | SnapshotSuspended i _ _ _ _ | SnapshotLeft i _ _ _ _ => i end.
Definition ms_user_id (s : MembershipSnapshot) : UserId :=
  match s with SnapshotActive _ u _ _ _ _ | SnapshotSuspended _ u _ _ _ | SnapshotLeft _ u _ _ _ => u end.
Definition ms_kind (s : MembershipSnapshot) : MembershipRole :=
  match s with SnapshotActive _ _ k _ _ _ | SnapshotSuspended _ _ k _ _ | SnapshotLeft _ _ k _ _ => k end.
Definition ms_state (s : MembershipSnapshot) : MembershipState :=
  match s with SnapshotActive _ _ _ _ _ _ => Active | SnapshotSuspended _ _ _ _ _ => Suspended | SnapshotLeft _ _ _ _ _ => Left end.
Definition ms_origin (s : MembershipSnapshot) : MembershipOrigin :=
  match s with SnapshotActive _ _ _ o _ _ | SnapshotSuspended _ _ _ o _ | SnapshotLeft _ _ _ o _ => o end.
Definition ms_expires_at (s : MembershipSnapshot) : option UtcTimestamp :=
  match s with SnapshotActive _ _ _ _ e _ | SnapshotSuspended _ _ _ _ e | SnapshotLeft _ _ _ _ e => e end.
Definition ms_team_ids (s : MembershipSnapshot) : list TeamId :=
  match s with SnapshotActive _ _ _ _ _ t => t | _ => [] end.
Definition into_membership (s : MembershipSnapshot) : Membership :=
  match s with
  | SnapshotActive i u k o e t => mk_Membership i u k Active o e t
  | SnapshotSuspended i u k o e => mk_Membership i u k Suspended o e []
  | SnapshotLeft i u k o e => mk_Membership i u k Left o e []
  end.
Definition snapshot_membership (m : Membership) : MembershipSnapshot :=
  match m_state m with
  | Active => SnapshotActive (m_id m) (m_user_id m) (m_kind m) (m_origin m) (m_expires_at m) (m_team_ids m)
  | Suspended => SnapshotSuspended (m_id m) (m_user_id m) (m_kind m) (m_origin m) (m_expires_at m)
  | Left => SnapshotLeft (m_id m) (m_user_id m) (m_kind m) (m_origin m) (m_expires_at m)
  end.

Record Team := mk_Team { t_id : TeamId }.
Record TeamSnapshot := mk_TeamSnapshot { ts_id : TeamId }.
Definition into_team (s : TeamSnapshot) : Team := mk_Team (ts_id s).
Record OrganizationSnapshot := mk_OrganizationSnapshot {
  s_state : OrganizationState; s_memberships : list MembershipSnapshot; s_teams : list TeamSnapshot;
}.
Record Organization := mk_Organization {
  o_id : OrganizationId; o_tenant_id : TenantId; o_version : N; o_state : OrganizationState;
  o_memberships : list Membership; o_teams : list Team;
}.
#[export] Instance eta_Organization : Eta Organization :=
  fun o => mk_Organization (o_id o) (o_tenant_id o) (o_version o) (o_state o) (o_memberships o) (o_teams o).
Definition snapshot_state (o : Organization) : OrganizationSnapshot :=
  mk_OrganizationSnapshot (o_state o) (snapshot_membership <$> o_memberships o) ((fun t => mk_TeamSnapshot (t_id t)) <$> o_teams o).
Definition membership (o : Organization) (id : MembershipId) : option Membership :=
  snd <$> list_find (fun m => m_id m = id) (o_memberships o).
Definition team (o : Organization) (id : TeamId) : option Team := snd <$> list_find (fun t => t_id t = id) (o_teams o).

(** *** Validation of snapshots *)

Definition validate_snapshot_identity (id : OrganizationId) (tenant_id : TenantId) (version : N) : outcome unit :=
  reject_if (is_empty (id_str id) || is_empty (id_str tenant_id) || (version =? 0)) InvalidArgument.
Definition validate_snapshot_capacity (s : OrganizationSnapshot) : outcome unit :=
  reject_if ((MAX_MEMBERSHIPS <? len (s_memberships s)) || (MAX_TEAMS <? len (s_teams s))) CapacityExceeded.
(** [HashSet::insert] answers whether the element is new. *)
Fixpoint insert_team_ids (ids : gset TeamId) (teams : list TeamSnapshot) : outcome (gset TeamId) :=
  match teams with
  | [] => Ok ids
  | t :: teams' => if decide (ts_id t ∈ ids) then Err DuplicateIdentity else insert_team_ids ({[ts_id t]} ∪ ids) teams'
  end.
Definition unique_team_ids (s : OrganizationSnapshot) : outcome (gset TeamId) := insert_team_ids ∅ (s_teams s).
Fixpoint insert_membership_ids (ids : gset MembershipId) (users : gset UserId) (ms : list MembershipSnapshot) : outcome unit :=
  match ms with
  | [] => Ok tt
  | m :: ms' =>
      if decide (ms_id m ∈ ids) then Err DuplicateIdentity
      else if decide (ms_user_id m ∈ users) then Err DuplicateIdentity
      else insert_membership_ids ({[ms_id m]} ∪ ids) ({[ms_user_id m]} ∪ users) ms'
  end.
Definition validate_membership_identity_uniqueness (s : OrganizationSnapshot) : outcome unit :=
  insert_membership_ids ∅ ∅ (s_memberships s).
Definition validate_membership_expiry (m : MembershipSnapshot) : outcome unit :=
  reject_if (bool_decide (is_Some (ms_expires_at m)) && (bool_decide (ms_kind m = Owner) || bool_decide (ms_origin m = Founder)))
    InvalidArgument.
Definition validate_assignment_capacity (assignments : list TeamId) : outcome unit :=
  reject_if (MAX_TEAM_ASSIGNMENTS <? len assignments) CapacityExceeded.
Definition validate_assignment_state (m : MembershipSnapshot) (assignments : list TeamId) : outcome unit :=
  reject_if (bool_decide (ms_state m <> Active) && negb (len assignments =? 0)) InvalidArgument.
Fixpoint insert_assignments (assigned team_ids : gset TeamId) (assignments : list TeamId) : outcome unit :=
  match assignments with
  | [] => Ok tt
  | t :: rest =>
      if negb (bool_decide (t ∈ team_ids)) || bool_decide (t ∈ assigned) then Err InvalidArgument
      else insert_assignments ({[t]} ∪ assigned) team_ids rest
  end.
Definition validate_assignment_ids (assignments : list TeamId) (team_ids : gset TeamId) : outcome unit :=
  insert_assignments ∅ team_ids assignments.
Definition validate_membership_assignments (m : MembershipSnapshot) (team_ids : gset TeamId) : outcome unit :=
  let assignments := ms_team_ids m in
  validate_assignment_capacity assignments ;;
  validate_assignment_state m assignments ;;
  validate_assignment_ids assignments team_ids.
Definition validate_membership (m : MembershipSnapshot) (team_ids : gset TeamId) : outcome unit :=
  validate_membership_expiry m ;; validate_membership_assignments m team_ids.
Definition validate_memberships (s : OrganizationSnapshot) (team_ids : gset TeamId) : outcome unit :=
  validate_membership_identity_uniqueness s ;;
  _ ← collect (fun m => validate_membership m team_ids) (s_memberships s);
  mret tt.
Definition validate_founder_order (s : OrganizationSnapshot) : outcome unit :=
  reject_if (negb (is_some_and (fun m => bool_decide (ms_origin m = Founder)) (head (s_memberships s)))) InvalidArgument.
Definition is_active_owner (m : MembershipSnapshot) : bool := bool_decide (ms_kind m = Owner) && bool_decide (ms_state m = Active).
Definition validate_owner_invariant (s : OrganizationSnapshot) : outcome unit :=
  let founder_count := len (List.filter (fun m => bool_decide (ms_origin m = Founder)) (s_memberships s)) in
  let active_owner_count := len (List.filter is_active_owner (s_memberships s)) in
  reject_if (negb (founder_count =? 1) || (active_owner_count =? 0)) InvalidArgument.

(** *** Reachable versions ([model/reachability.rs]) *)

Definition add_version_cost (value cost : N) : outcome N := ok_or (checked_add u64_max value cost) InvalidArgument.
Definition add_founder_kind_version_cost (value : N) (s : OrganizationSnapshot) : outcome N :=
  if is_some_and (fun m => bool_decide (ms_kind m = Member)) (head (s_memberships s)) then add_version_cost value 1 else Ok value.
Definition add_membership_version_cost (cost : N) (m : MembershipSnapshot) : outcome N :=
  next ← ok_or (checked_add u64_max cost (len (ms_team_ids m))) InvalidArgument;
  if bool_decide (ms_state m <> Active) then ok_or (checked_add u64_max next 1) InvalidArgument else Ok next.
Fixpoint membership_version_cost_from (cost : N) (ms : list MembershipSnapshot) : outcome N :=
  match ms with
  | [] => Ok cost
  | m :: ms' => cost ← add_membership_version_cost cost m; membership_version_cost_from cost ms'
  end.
Definition membership_version_cost (s : OrganizationSnapshot) : outcome N := membership_version_cost_from 0 (s_memberships s).
Definition add_state_version_cost (value : N) (state : OrganizationState) : outcome N :=
  if bool_decide (state = OrganizationFrozen) then add_version_cost value 1 else Ok value.
(** The subtraction cannot underflow: [validate_founder_order] precedes it. *)
Definition minimum_snapshot_version (s : OrganizationSnapshot) : outcome N :=
  minimum ← add_version_cost 1 (len (s_memberships s) - 1);
  minimum ← add_version_cost minimum (len (s_teams s));
  cost ← membership_version_cost s;
  minimum ← add_version_cost minimum cost;
  minimum ← add_founder_kind_version_cost minimum s;
  add_state_version_cost minimum (s_state s).

Definition never_expires (m : MembershipSnapshot) : bool := bool_decide (ms_expires_at m = None).
Definition is_owner (m : MembershipSnapshot) : bool := bool_decide (ms_kind m = Owner).
Definition is_member (m : MembershipSnapshot) : bool := bool_decide (ms_kind m = Member).
Definition supports_one_step_ownership_surcharge (s : OrganizationSnapshot) : bool :=
  let eligible_count := len (List.filter never_expires (s_memberships s)) in
  if eligible_count <? 3 then false
  else
    let founder_is_owner := is_some_and is_owner (head (s_memberships s)) in
    if negb founder_is_owner then true
    else
      let participants := List.filter never_expires (drop 1 (s_memberships s)) in
      existsb is_owner participants && existsb is_member participants.
Definition ownership_triangle_surcharge (s : OrganizationSnapshot) : option N :=
  let participants := List.filter never_expires (s_memberships s) in
  if len participants <? 3 then None
  else if existsb is_owner participants && existsb is_member participants then Some 3 else None.
Definition ownership_odd_surcharge (s : OrganizationSnapshot) : option N :=
  if supports_one_step_ownership_surcharge s then Some 1 else ownership_triangle_surcharge s.
Definition membership_can_suspend (m : MembershipSnapshot) (owner_count : N) : bool :=
  bool_decide (ms_kind m <> Owner) || (1 <? owner_count).
Definition membership_odd_surcharge (s : OrganizationSnapshot) (m : MembershipSnapshot) (owner_count : N) : option N :=
  if negb (membership_can_suspend m owner_count) then None
  else
    match ms_state m with
    | Active => if negb (len (s_teams s) =? 0) then Some 3 else None
    | Suspended => if negb (len (s_teams s) =? 0) then Some 1 else None
    | Left => Some 1
    end.
Definition snapshot_owner_count (s : OrganizationSnapshot) : N := len (List.filter is_owner (s_memberships s)).
Definition lower (minimum : option N) (candidate : option N) : option N :=
  match candidate with
  | Some c => Some (match minimum with Some current => N.min current c | None => c end)
  | None => minimum
  end.
Definition minimum_odd_history_surcharge (s : OrganizationSnapshot) : option N :=
  let owner_count := snapshot_owner_count s in
  foldl (fun minimum m => lower minimum (membership_odd_surcharge s m owner_count)) (ownership_odd_surcharge s) (s_memberships s).
Definition validate_version_reachability (version : N) (s : OrganizationSnapshot) : outcome unit :=
  minimum ← minimum_snapshot_version s;
  offset ← ok_or (checked_sub version minimum) InvalidArgument;
  if (offset =? 0) || (offset mod 2 =? 0) then Ok tt
  else if is_some_and (fun cost => cost <=? offset) (minimum_odd_history_surcharge s) then Ok tt
  else Err InvalidArgument.

Definition validate_snapshot (id : OrganizationId) (tenant_id : TenantId) (version : N) (s : OrganizationSnapshot) : outcome unit :=
  validate_snapshot_identity id tenant_id version ;;
  validate_snapshot_capacity s ;;
  team_ids ← unique_team_ids s;
  validate_memberships s team_ids ;;
  validate_founder_order s ;;
  validate_owner_invariant s ;;
  validate_version_reachability version s.
Definition from_snapshot (id : OrganizationId) (tenant_id : TenantId) (version : N) (s : OrganizationSnapshot) : outcome Organization :=
  validate_snapshot id tenant_id version s ;;
  mret (mk_Organization id tenant_id version (s_state s) (into_membership <$> s_memberships s) (into_team <$> s_teams s)).

(** ** Ownership evidence ([model.rs], [model/transfer_validation.rs]) *)

Record AuthenticatedUserBinding := mk_AuthenticatedUserBinding { principal : PrincipalContext; bound_user_id : UserId }.
Record RecipientReauthenticationProof := mk_RecipientReauthenticationProof {
  authenticated_user : AuthenticatedUserBinding; authenticated_at : UtcTimestamp;
}.
Record OwnershipTransferEvidenceInput := mk_OwnershipTransferEvidenceInput {
  in_transfer_id : OwnershipTransferId; in_tenant_id : TenantId; in_organization_id : OrganizationId;
  in_organization_version : N; in_initiating_owner_id : MembershipId; in_initiating_user : AuthenticatedUserBinding;
  in_recipient_id : MembershipId; in_recipient_reauthentication : RecipientReauthenticationProof;
  in_approving_principal : PrincipalContext; in_not_before : UtcTimestamp; in_expires_at : UtcTimestamp;
}.
Record OwnershipTransferEvidence := mk_OwnershipTransferEvidence {
  transfer_id : OwnershipTransferId; evidence_tenant_id : TenantId; evidence_organization_id : OrganizationId;
  evidence_organization_version : N; initiating_owner_id : MembershipId; initiating_user : AuthenticatedUserBinding;
  recipient_id : MembershipId; recipient_reauthentication : RecipientReauthenticationProof;
  approver : PrincipalId; not_before : UtcTimestamp; expires_at : UtcTimestamp;
}.
Definition MAX_TRANSFER_LIFETIME_SECONDS : Z := 900.
Definition validate_transfer_principals (input : OwnershipTransferEvidenceInput) : outcome unit :=
  let initiator := principal (in_initiating_user input) in
  let recipient := principal (authenticated_user (in_recipient_reauthentication input)) in
  reject_if (bool_decide (principal_tenant_id initiator <> in_tenant_id input)
    || bool_decide (principal_tenant_id recipient <> in_tenant_id input)
    || bool_decide (principal_tenant_id (in_approving_principal input) <> in_tenant_id input)) TransferOrganizationMismatch ;;
  reject_if (bool_decide (principal_id initiator = principal_id (in_approving_principal input))) TransferApproverConflict.
Definition valid_transfer_lifetime (lifetime : option Z) : bool :=
  is_some_and (fun seconds => (0 <? seconds)%Z && (seconds <=? MAX_TRANSFER_LIFETIME_SECONDS)%Z) lifetime.
Definition validate_transfer_evidence_input (input : OwnershipTransferEvidenceInput) : outcome unit :=
  validate_transfer_principals input ;;
  reject_if (bool_decide (in_initiating_owner_id input = in_recipient_id input)) TransferEvidenceInvalid ;;
  let delay := i64_checked_sub (in_not_before input) (authenticated_at (in_recipient_reauthentication input)) in
  let lifetime := i64_checked_sub (in_expires_at input) (in_not_before input) in
  reject_if (is_none_or (fun seconds => (seconds <=? 0)%Z) delay || negb (valid_transfer_lifetime lifetime)) TransferEvidenceInvalid.
Definition OwnershipTransferEvidence_new (input : OwnershipTransferEvidenceInput) : outcome OwnershipTransferEvidence :=
  validate_transfer_evidence_input input ;;
  mret (mk_OwnershipTransferEvidence (in_transfer_id input) (in_tenant_id input) (in_organization_id input)
    (in_organization_version input) (in_initiating_owner_id input) (in_initiating_user input) (in_recipient_id input)
    (in_recipient_reauthentication input) (principal_id (in_approving_principal input)) (in_not_before input) (in_expires_at input)).

(** ** Events ([model.rs]) *)

Inductive OrganizationEventKind :=
| Created (founder_membership_id : MembershipId) (founder_user_id : UserId)
| StateChanged (state : OrganizationState)
| MembershipAdded (membership_id : MembershipId) (user_id : UserId) (kind : MembershipRole) (origin : MembershipOrigin)
    (expires_at : option UtcTimestamp)
| MembershipSuspended (membership_id : MembershipId) (removed_team_assignments : N)
| MembershipActivated (membership_id : MembershipId)
| MembershipLeft (membership_id : MembershipId) (removed_team_assignments : N)
| TeamCreated (team_id : TeamId)
| TeamAssigned (membership_id : MembershipId) (team_id : TeamId)
| OwnershipTransferred (transfer_id : OwnershipTransferId) (previous_owner_id new_owner_id : MembershipId) (approver : PrincipalId).
#[export] Instance OrganizationEventKind_eq_dec : EqDecision OrganizationEventKind.
Proof. solve_decision. Defined.
Record OrganizationEvent := mk_OrganizationEvent {
  ev_tenant_id : TenantId; ev_organization_id : OrganizationId; ev_actor : PrincipalId; ev_occurred_at : UtcTimestamp;
  ev_version : N; ev_kind : OrganizationEventKind;
}.
#[export] Instance OrganizationEvent_eq_dec : EqDecision OrganizationEvent.
Proof. solve_decision. Defined.

Definition validate_membership_creation_facts (kind : MembershipRole) (origin : MembershipOrigin)
    (expires_at : option UtcTimestamp) (occurred_at : UtcTimestamp) : outcome unit :=
  reject_if (bool_decide (origin = Founder)) InvalidArgument ;;
  reject_if (bool_decide (kind = Owner) && bool_decide (is_Some expires_at)) InvalidArgument ;;
  reject_if (is_some_and (fun expiry => (expiry <=? occurred_at)%Z) expires_at) InvalidArgument.
Definition validate_removed_assignment_count (count : N) : outcome unit := reject_if (MAX_TEAM_ASSIGNMENTS <? count) InvalidArgument.
Definition validate_persisted_transfer (actor : PrincipalId) (previous_owner_id new_owner_id : MembershipId)
    (approver : PrincipalId) : outcome unit :=
  reject_if (bool_decide (previous_owner_id = new_owner_id) || bool_decide (actor = approver)) InvalidArgument.
Definition is_creation (kind : OrganizationEventKind) : bool := match kind with Created _ _ => true | _ => false end.
Definition validate_persisted_event_version (version : N) (kind : OrganizationEventKind) : outcome unit :=
  reject_if (negb (Bool.eqb (is_creation kind) (version =? version_initial))) InvalidArgument.
Definition validate_persisted_event (version : N) (actor : PrincipalId) (occurred_at : UtcTimestamp)
    (kind : OrganizationEventKind) : outcome unit :=
  validate_persisted_event_version version kind ;;
  match kind with
  | MembershipAdded _ _ kind origin expires_at => validate_membership_creation_facts kind origin expires_at occurred_at
  | MembershipSuspended _ removed | MembershipLeft _ removed => validate_removed_assignment_count removed
  | OwnershipTransferred _ previous_owner_id new_owner_id approver =>
      validate_persisted_transfer actor previous_owner_id new_owner_id approver
  | _ => Ok tt
  end.
Definition from_persisted (tenant_id : TenantId) (organization_id : OrganizationId) (actor : PrincipalId)
    (occurred_at : UtcTimestamp) (version : N) (kind : OrganizationEventKind) : outcome OrganizationEvent :=
  validate_persisted_event version actor occurred_at kind ;;
  mret (mk_OrganizationEvent tenant_id organization_id actor occurred_at version kind).

Record OrganizationTransition := mk_OrganizationTransition {
  previous_snapshot : option OrganizationSnapshot; organization : Organization; event : OrganizationEvent;
}.

(** ** Commands ([transition.rs]) *)

Record CreateOrganizationCommand := mk_CreateOrganizationCommand {
  c_organization_id : OrganizationId; c_tenant_id : TenantId; founder : OrganizationFounder;
  c_expected_version : N; c_actor : PrincipalId; c_occurred_at : UtcTimestamp;
}.
Inductive MembershipAction :=
| AddMembership (membership_id : MembershipId) (user_id : UserId) (kind : MembershipRole) (origin : MembershipOrigin)
    (expires_at : option UtcTimestamp)
| SuspendMembership (membership_id : MembershipId)
| ActivateMembership (membership_id : MembershipId)
| LeaveMembership (membership_id : MembershipId).
Inductive TeamAction :=
| CreateTeam (team_id : TeamId)
| AssignTeam (membership_id : MembershipId) (team_id : TeamId).
Inductive OrganizationAction :=
| ChangeState (state : OrganizationState)
| OnMembership (action : MembershipAction)
| OnTeam (action : TeamAction)
| TransferOwnership (evidence : OwnershipTransferEvidence).
Record OrganizationCommand := mk_OrganizationCommand {
  expected_version : N; actor : PrincipalId; occurred_at : UtcTimestamp; action : OrganizationAction;
}.
Record AuditContext := mk_AuditContext { audit_actor : PrincipalId; audit_occurred_at : UtcTimestamp }.
Record NewMembership := mk_NewMembership {
  n_membership_id : MembershipId; n_user_id : UserId; n_kind : MembershipRole; n_origin : MembershipOrigin;
  n_expires_at : option UtcTimestamp;
}.

Definition initial_organization (c : CreateOrganizationCommand) : Organization :=
  mk_Organization (c_organization_id c) (c_tenant_id c) version_initial OrganizationActive
    [mk_Membership (founder_membership_id (founder c)) (founder_user_id (founder c)) Owner Active Founder None []] [].
Definition create_organization (c : CreateOrganizationCommand) : outcome OrganizationTransition :=
  reject_if (negb (c_expected_version c =? version_initial)) VersionConflict ;;
  mret (mk_OrganizationTransition None (initial_organization c)
    (mk_OrganizationEvent (c_tenant_id c) (c_organization_id c) (c_actor c) (c_occurred_at c) version_initial
      (Created (founder_membership_id (founder c)) (founder_user_id (founder c))))).

(** *** Memberships by index *)

Definition membership_index (current : Organization) (id : MembershipId) : outcome nat :=
  ok_or (fst <$> list_find (fun m => m_id m = id) (o_memberships current)) MembershipNotFound.
Definition membership_at (current : Organization) (index : nat) : outcome Membership :=
  ok_or (o_memberships current !! index) MembershipNotFound.
(** [membership_at_mut] followed by assignments to its fields. *)
Definition membership_at_mut (o : Organization) (index : nat) (f : Membership -> Membership) : outcome Organization :=
  m ← membership_at o index;
  mret (o <| o_memberships := <[index := f m]> (o_memberships o) |>).
Definition require_membership_state (current : Organization) (index : nat) (required : MembershipState) : outcome unit :=
  m ← membership_at current index;
  reject_if (bool_decide (m_state m <> required)) InvalidTransition.
Definition set_membership_state (o : Organization) (index : nat) (state : MembershipState) : outcome Organization :=
  membership_at_mut o index (fun m => m <| m_state := state |>).
Definition change_state_and_clear_teams (o : Organization) (index : nat) (state : MembershipState) : outcome (Organization * N) :=
  m ← membership_at o index;
  next ← membership_at_mut o index (fun m => m <| m_team_ids := [] |> <| m_state := state |>);
  mret (next, len (m_team_ids m)).
Definition demote_owner (o : Organization) (index : nat) : outcome Organization :=
  membership_at_mut o index (fun m => m <| m_kind := Member |>).
Definition promote_recipient (o : Organization) (index : nat) : outcome Organization :=
  membership_at_mut o index (fun m => m <| m_kind := Owner |> <| m_expires_at := None |>).

Definition finish_evolution (current next : Organization) (audit : AuditContext) (kind : OrganizationEventKind)
    : outcome OrganizationTransition :=
  version ← version_next (o_version current);
  mret (mk_OrganizationTransition (Some (snapshot_state current)) (next <| o_version := version |>)
    (mk_OrganizationEvent (o_tenant_id current) (o_id current) (audit_actor audit) (audit_occurred_at audit) version kind)).

(** *** States, memberships and teams *)

Definition change_state (current : Organization) (audit : AuditContext) (state : OrganizationState) : outcome OrganizationTransition :=
  reject_if (bool_decide (o_state current = state)) InvalidTransition ;;
  finish_evolution current (current <| o_state := state |>) audit (StateChanged state).
Definition ensure_membership_capacity (current : Organization) : outcome unit :=
  reject_if (MAX_MEMBERSHIPS <=? len (o_memberships current)) CapacityExceeded.
Definition ensure_membership_identity_available (current : Organization) (input : NewMembership) : outcome unit :=
  let duplicate_id := existsb (fun m => bool_decide (m_id m = n_membership_id input)) (o_memberships current) in
  let duplicate_user := existsb (fun m => bool_decide (m_user_id m = n_user_id input)) (o_memberships current) in
  reject_if (duplicate_id || duplicate_user) DuplicateIdentity.
Definition validate_new_membership (current : Organization) (occurred_at : UtcTimestamp) (input : NewMembership) : outcome unit :=
  ensure_membership_capacity current ;;
  ensure_membership_identity_available current input ;;
  validate_membership_creation_facts (n_kind input) (n_origin input) (n_expires_at input) occurred_at.
Definition add_membership (current : Organization) (audit : AuditContext) (input : NewMembership) : outcome OrganizationTransition :=
  validate_new_membership current (audit_occurred_at audit) input ;;
  let m := mk_Membership (n_membership_id input) (n_user_id input) (n_kind input) Active (n_origin input) (n_expires_at input) [] in
  finish_evolution current (current <| o_memberships := o_memberships current ++ [m] |>) audit
    (MembershipAdded (n_membership_id input) (n_user_id input) (n_kind input) (n_origin input) (n_expires_at input)).
Definition active_owner_count (current : Organization) : N :=
  len (List.filter (fun m => bool_decide (m_kind m = Owner) && bool_decide (m_state m = Active)) (o_memberships current)).
Definition protect_last_active_owner (current : Organization) (index : nat) : outcome unit :=
  m ← membership_at current index;
  let deactivates_owner := bool_decide (m_kind m = Owner) && bool_decide (m_state m = Active) in
  reject_if (deactivates_owner && (active_owner_count current =? 1)) LastActiveOwner.
Definition suspend_membership (current : Organization) (audit : AuditContext) (id : MembershipId) : outcome OrganizationTransition :=
  index ← membership_index current id;
  require_membership_state current index Active ;;
  protect_last_active_owner current index ;;
  changed ← change_state_and_clear_teams current index Suspended;
  finish_evolution current (changed.1) audit (MembershipSuspended id (changed.2)).
Definition activate_membership (current : Organization) (audit : AuditContext) (id : MembershipId) : outcome OrganizationTransition :=
  index ← membership_index current id;
  require_membership_state current index Suspended ;;
  m ← membership_at current index;
  reject_if (is_some_and (fun expires_at => (expires_at <=? audit_occurred_at audit)%Z) (m_expires_at m)) MembershipIneligible ;;
  next ← set_membership_state current index Active;
  finish_evolution current next audit (MembershipActivated id).
Definition reject_left_membership (current : Organization) (index : nat) : outcome unit :=
  m ← membership_at current index;
  reject_if (bool_decide (m_state m = Left)) InvalidTransition.
Definition leave_membership (current : Organization) (audit : AuditContext) (id : MembershipId) : outcome OrganizationTransition :=
  index ← membership_index current id;
  reject_left_membership current index ;;
  protect_last_active_owner current index ;;
  changed ← change_state_and_clear_teams current index Left;
  finish_evolution current (changed.1) audit (MembershipLeft id (changed.2)).
Definition apply_membership_action (current : Organization) (audit : AuditContext) (a : MembershipAction) : outcome OrganizationTransition :=
  match a with
  | AddMembership i u k o e => add_membership current audit (mk_NewMembership i u k o e)
  | SuspendMembership i => suspend_membership current audit i
  | ActivateMembership i => activate_membership current audit i
  | LeaveMembership i => leave_membership current audit i
  end.
Definition create_team (current : Organization) (audit : AuditContext) (id : TeamId) : outcome OrganizationTransition :=
  reject_if (MAX_TEAMS <=? len (o_teams current)) CapacityExceeded ;;
  reject_if (existsb (fun t => bool_decide (t_id t = id)) (o_teams current)) DuplicateIdentity ;;
  finish_evolution current (current <| o_teams := o_teams current ++ [mk_Team id] |>) audit (TeamCreated id).
Definition ensure_team_exists (current : Organization) (id : TeamId) : outcome unit :=
  if existsb (fun t => bool_decide (t_id t = id)) (o_teams current) then Ok tt else Err TeamNotFound.
Definition ensure_team_assignment_eligible (m : Membership) (observed_at : UtcTimestamp) (id : TeamId) : outcome unit :=
  reject_if (negb (is_eligible_at m observed_at)) MembershipIneligible ;;
  reject_if (existsb (fun assigned => bool_decide (assigned = id)) (m_team_ids m)) DuplicateIdentity ;;
  reject_if (MAX_TEAM_ASSIGNMENTS <=? len (m_team_ids m)) CapacityExceeded.
Definition assign_team (current : Organization) (audit : AuditContext) (id : MembershipId) (team_id : TeamId)
    : outcome OrganizationTransition :=
  ensure_team_exists current team_id ;;
  index ← membership_index current id;
  m ← membership_at current index;
  ensure_team_assignment_eligible m (audit_occurred_at audit) team_id ;;
  next ← membership_at_mut current index (fun m => m <| m_team_ids := m_team_ids m ++ [team_id] |>);
  finish_evolution current next audit (TeamAssigned id team_id).
Definition apply_team_action (current : Organization) (audit : AuditContext) (a : TeamAction) : outcome OrganizationTransition :=
  match a with
  | CreateTeam id => create_team current audit id
  | AssignTeam id team_id => assign_team current audit id team_id
  end.

(** *** Transfer of ownership *)

Definition validate_transfer_binding (current : Organization) (e : OwnershipTransferEvidence) : outcome unit :=
  reject_if (bool_decide (evidence_tenant_id e <> o_tenant_id current)
    || bool_decide (evidence_organization_id e <> o_id current)
    || negb (evidence_organization_version e =? o_version current)) TransferOrganizationMismatch.
Definition validate_transfer_actors (audit : AuditContext) (e : OwnershipTransferEvidence) : outcome unit :=
  reject_if (bool_decide (principal_id (principal (initiating_user e)) <> audit_actor audit)) TransferEvidenceInvalid ;;
  reject_if (bool_decide (approver e = principal_id (principal (initiating_user e)))) TransferApproverConflict.
Definition validate_transfer_window (observed_at : UtcTimestamp) (e : OwnershipTransferEvidence) : outcome unit :=
  reject_if (observed_at <? not_before e)%Z TransferNotReady ;;
  reject_if (expires_at e <? observed_at)%Z TransferExpired.
Definition validate_reauthentication_freshness (observed_at reauthenticated_at : UtcTimestamp) : outcome unit :=
  let age := i64_checked_sub observed_at reauthenticated_at in
  reject_if (is_none_or (fun seconds => negb ((0 <=? seconds)%Z && (seconds <=? MAX_REAUTHENTICATION_AGE_SECONDS)%Z)) age)
    TransferReauthenticationStale.
Definition validate_transfer_timing (audit : AuditContext) (e : OwnershipTransferEvidence) : outcome unit :=
  validate_transfer_actors audit e ;;
  validate_transfer_window (audit_occurred_at audit) e ;;
  validate_reauthentication_freshness (audit_occurred_at audit) (authenticated_at (recipient_reauthentication e)).
Definition membership_index_for_transfer (current : Organization) (id : MembershipId) : outcome nat :=
  match membership_index current id with Ok index => Ok index | Err _ => Err TransferEvidenceInvalid end.
Definition validate_initiating_transfer_member (initiator : Membership) (e : OwnershipTransferEvidence) : outcome unit :=
  let valid := bool_decide (m_kind initiator = Owner) && bool_decide (m_state initiator = Active)
    && bool_decide (m_user_id initiator = bound_user_id (initiating_user e)) in
  reject_if (negb valid) TransferEvidenceInvalid.
Definition validate_recipient_transfer_member (recipient : Membership) (audit : AuditContext) (e : OwnershipTransferEvidence)
    : outcome unit :=
  let recipient_user_id := bound_user_id (authenticated_user (recipient_reauthentication e)) in
  let valid := bool_decide (m_kind recipient = Member) && bool_decide (m_user_id recipient = recipient_user_id)
    && is_eligible_at recipient (audit_occurred_at audit) in
  reject_if (negb valid) TransferEvidenceInvalid.
Definition validate_transfer_members (current : Organization) (audit : AuditContext) (e : OwnershipTransferEvidence)
    (initiating_index recipient_index : nat) : outcome unit :=
  initiator ← membership_at current initiating_index;
  validate_initiating_transfer_member initiator e ;;
  recipient ← membership_at current recipient_index;
  validate_recipient_transfer_member recipient audit e.
Definition transfer_ownership (current : Organization) (audit : AuditContext) (e : OwnershipTransferEvidence)
    : outcome OrganizationTransition :=
  validate_transfer_binding current e ;;
  validate_transfer_timing audit e ;;
  initiating_index ← membership_index_for_transfer current (initiating_owner_id e);
  recipient_index ← membership_index_for_transfer current (recipient_id e);
  validate_transfer_members current audit e initiating_index recipient_index ;;
  next ← demote_owner current initiating_index;
  next ← promote_recipient next recipient_index;
  finish_evolution current next audit (OwnershipTransferred (transfer_id e) (initiating_owner_id e) (recipient_id e) (approver e)).

Definition dispatch (current : Organization) (audit : AuditContext) (a : OrganizationAction) : outcome OrganizationTransition :=
  match a with
  | ChangeState state => change_state current audit state
  | OnMembership a => apply_membership_action current audit a
  | OnTeam a => apply_team_action current audit a
  | TransferOwnership e => transfer_ownership current audit e
  end.
Definition verify_expected_version (current : Organization) (expected : N) : outcome unit :=
  reject_if (negb (o_version current =? expected)) VersionConflict.
Definition transition (current : Organization) (c : OrganizationCommand) : outcome OrganizationTransition :=
  verify_expected_version current (expected_version c) ;;
  dispatch current (mk_AuditContext (actor c) (occurred_at c)) (action c).

(** *** Replay of persisted events *)

Definition validate_replay_binding (current : Organization) (e : OrganizationEvent) : outcome unit :=
  next_version ← version_next (o_version current);
  let valid := bool_decide (ev_tenant_id e = o_tenant_id current) && bool_decide (ev_organization_id e = o_id current)
    && (ev_version e =? next_version) in
  reject_if (negb valid) InvalidArgument.
Definition replay_membership_event (current : Organization) (audit : AuditContext) (kind : OrganizationEventKind)
    : outcome (option OrganizationTransition) :=
  match kind with
  | MembershipAdded i u k o e => Some <$> add_membership current audit (mk_NewMembership i u k o e)
  | MembershipSuspended i _ => Some <$> suspend_membership current audit i
  | MembershipActivated i => Some <$> activate_membership current audit i
  | MembershipLeft i _ => Some <$> leave_membership current audit i
  | _ => Ok None
  end.
Definition validate_distinct_owner_indexes (previous_index new_index : nat) : outcome unit :=
  reject_if (bool_decide (previous_index = new_index)) InvalidArgument.
Definition validate_replayed_owner_roles (previous new : Membership) (occurred_at : UtcTimestamp) : outcome unit :=
  let valid_previous := bool_decide (m_kind previous = Owner) && bool_decide (m_state previous = Active) in
  let valid_new := bool_decide (m_kind new = Member) && is_eligible_at new occurred_at in
  reject_if (negb valid_previous || negb valid_new) InvalidArgument.
Definition validate_replayed_owners (current : Organization) (audit : AuditContext) (previous_index new_index : nat) : outcome unit :=
  validate_distinct_owner_indexes previous_index new_index ;;
  previous ← membership_at current previous_index;
  new ← membership_at current new_index;
  validate_replayed_owner_roles previous new (audit_occurred_at audit).
Definition replay_ownership_transfer (current : Organization) (audit : AuditContext) (previous_owner_id new_owner_id : MembershipId)
    (kind : OrganizationEventKind) : outcome OrganizationTransition :=
  previous_index ← membership_index current previous_owner_id;
  new_index ← membership_index current new_owner_id;
  validate_replayed_owners current audit previous_index new_index ;;
  next ← demote_owner current previous_index;
  next ← promote_recipient next new_index;
  finish_evolution current next audit kind.
Definition replay_other_event (current : Organization) (audit : AuditContext) (kind : OrganizationEventKind)
    : outcome OrganizationTransition :=
  match kind with
  | StateChanged state => change_state current audit state
  | TeamCreated id => create_team current audit id
  | TeamAssigned id team_id => assign_team current audit id team_id
  | OwnershipTransferred _ previous_owner_id new_owner_id _ =>
      replay_ownership_transfer current audit previous_owner_id new_owner_id kind
  | _ => Err InvalidArgument
  end.
Definition require_exact_replay_transition (t : OrganizationTransition) (expected : OrganizationEvent) : outcome OrganizationTransition :=
  if bool_decide (event t <> expected) then Err InvalidArgument else Ok t.
Definition replay_persisted_transition (current : Organization) (e : OrganizationEvent) : outcome OrganizationTransition :=
  validate_replay_binding current e ;;
  let audit := mk_AuditContext (ev_actor e) (ev_occurred_at e) in
  replayed ← replay_membership_event current audit (ev_kind e);
  t ← match replayed with
      | Some t => Ok t
      | None => replay_other_event current audit (ev_kind e)
      end;
  require_exact_replay_transition t e.
Definition replay_persisted_event (current : Organization) (e : OrganizationEvent) : outcome Organization :=
  organization <$> replay_persisted_transition current e.

(** ** A concrete organization: a founder, a member who joins and receives the ownership *)

Definition sample_creation : CreateOrganizationCommand :=
  mk_CreateOrganizationCommand (MkId "org") (MkId "tenant") (mk_OrganizationFounder (MkId "m1") (MkId "alice")) 1 (MkId "root") 100%Z.
Definition sample_founded : OrganizationTransition :=
  match create_organization sample_creation with
  | Ok t => t
  | Err _ => mk_OrganizationTransition None (initial_organization sample_creation)
      (mk_OrganizationEvent (MkId "tenant") (MkId "org") (MkId "root") 0%Z 0 (StateChanged OrganizationActive))
  end.
Definition sample_join : OrganizationCommand :=
  mk_OrganizationCommand 1 (MkId "root") 110%Z (OnMembership (AddMembership (MkId "m2") (MkId "bob") Member Invitation (Some 5000%Z))).
Definition sample_joined : OrganizationTransition :=
  match transition (organization sample_founded) sample_join with Ok t => t | Err _ => sample_founded end.
Definition sample_evidence_input : OwnershipTransferEvidenceInput :=
  let of_user p u := mk_AuthenticatedUserBinding (mk_PrincipalContext (MkId "tenant") (MkId p)) (MkId u) in
  mk_OwnershipTransferEvidenceInput (MkId "x1") (MkId "tenant") (MkId "org") 2 (MkId "m1") (of_user "p-alice"%string "alice"%string)
    (MkId "m2") (mk_RecipientReauthenticationProof (of_user "p-bob"%string "bob"%string) 200%Z)
    (mk_PrincipalContext (MkId "tenant") (MkId "auditor")) 210%Z 900%Z.
Definition sample_evidence : OwnershipTransferEvidence :=
  match OwnershipTransferEvidence_new sample_evidence_input with
  | Ok e => e
  | Err _ => mk_OwnershipTransferEvidence (MkId "x1") (MkId "tenant") (MkId "org") 2 (MkId "m1")
      (in_initiating_user sample_evidence_input) (MkId "m2") (in_recipient_reauthentication sample_evidence_input) (MkId "auditor") 0%Z 0%Z
  end.
Definition sample_transfer : OrganizationCommand :=
  mk_OrganizationCommand 2 (MkId "p-alice") 300%Z (TransferOwnership sample_evidence).
Definition sample_transferred : OrganizationTransition :=
  match transition (organization sample_joined) sample_transfer with Ok t => t | Err _ => sample_founded end.

(** ** Specification *)

Definition count {A} (p : A -> bool) (l : list A) : N := sum_of (fun x => if p x then 1 else 0) l.
Definition owner (m : Membership) : bool := bool_decide (m_kind m = Owner).
Definition active_owner (m : Membership) : bool := bool_decide (m_kind m = Owner) && bool_decide (m_state m = Active).
Definition founding (m : Membership) : bool := bool_decide (m_origin m = Founder).
Definition lasting (m : Membership) : bool := bool_decide (m_expires_at m = None).

(** What holds of a membership of an organization with the teams [teams]. *)
Record membership_ok (teams : list TeamId) (m : Membership) : Prop := {
  expiry_ok : m_expires_at m <> None -> m_kind m = Member /\ m_origin m <> Founder;
  assignments_bounded : len (m_team_ids m) <= MAX_TEAM_ASSIGNMENTS;
  assignments_active : m_state m <> Active -> m_team_ids m = [];
  assignments_unique : NoDup (m_team_ids m);
  assignments_registered : forall t, t ∈ m_team_ids m -> t ∈ teams;
}.
Definition first_is_founder (ms : list Membership) : Prop :=
  exists f rest, ms = f :: rest /\ m_origin f = Founder /\ Forall (fun m => m_origin m <> Founder) rest.

(** The fewest accepted commands, plus one for the creation, that lead to a state. *)
Definition demoted (ms : list Membership) : bool := is_some_and (fun m => bool_decide (m_kind m = Member)) (head ms).
Definition membership_cost (m : Membership) : N := len (m_team_ids m) + (if bool_decide (m_state m = Active) then 0 else 1).
Definition version_cost (o : Organization) : N :=
  1 + (len (o_memberships o) - 1) + len (o_teams o) + sum_of membership_cost (o_memberships o)
  + (if demoted (o_memberships o) then 1 else 0) + (if bool_decide (o_state o = OrganizationFrozen) then 1 else 0).

(** The detours of odd length a history may have taken: a transfer between memberships other
    than the founder's, or a suspension that cleared an assignment or preceded a departure. *)
Definition suspendable (ms : list Membership) (m : Membership) : Prop := m_kind m = Member \/ 1 < count owner ms.
Definition held (ms : list Membership) (p : Membership -> Prop) : Prop := exists m, m ∈ ms /\ p m.
Definition one_step_transfer (ms : list Membership) : Prop :=
  3 <= count lasting ms /\
  (demoted ms = true \/
   held (drop 1 ms) (fun m => lasting m = true /\ m_kind m = Owner) /\ held (drop 1 ms) (fun m => lasting m = true /\ m_kind m = Member)).
Definition transfer_triangle (ms : list Membership) : Prop :=
  3 <= count lasting ms /\
  held ms (fun m => lasting m = true /\ m_kind m = Owner) /\ held ms (fun m => lasting m = true /\ m_kind m = Member).
Definition detour_of_one (o : Organization) : Prop :=
  one_step_transfer (o_memberships o) \/
  held (o_memberships o) (fun m => suspendable (o_memberships o) m /\
    (m_state m = Left \/ m_state m = Suspended /\ o_teams o <> [])).
Definition detour_of_three (o : Organization) : Prop :=
  detour_of_one o \/ transfer_triangle (o_memberships o) \/
  held (o_memberships o) (fun m => suspendable (o_memberships o) m /\ o_teams o <> []).
Definition history_exists (o : Organization) : Prop :=
  version_cost o <= o_version o <= u64_max /\
  ((o_version o - version_cost o) mod 2 = 1 ->
   detour_of_one o \/ detour_of_three o /\ 3 <= o_version o - version_cost o).

Record organization_ok (o : Organization) : Prop := {
  identity_ok : is_empty (id_str (o_id o)) = false /\ is_empty (id_str (o_tenant_id o)) = false;
  memberships_bounded : len (o_memberships o) <= MAX_MEMBERSHIPS;
  teams_bounded : len (o_teams o) <= MAX_TEAMS;
  teams_unique : NoDup (t_id <$> o_teams o);
  memberships_unique : NoDup (m_id <$> o_memberships o);
  users_unique : NoDup (m_user_id <$> o_memberships o);
  memberships_ok : Forall (membership_ok (t_id <$> o_teams o)) (o_memberships o);
  founder_first : first_is_founder (o_memberships o);
  governed : held (o_memberships o) (fun m => active_owner m = true);
  history : history_exists o;
}.

(** What an accepted command does at the instant [now], apart from the version. *)
Inductive member_move (ms : list Membership) (teams : list TeamId) (now : UtcTimestamp) (m : Membership) : Membership -> Prop :=
| move_suspend : m_state m = Active -> (m_kind m = Owner -> count active_owner ms <> 1) ->
    member_move ms teams now m (m <| m_team_ids := [] |> <| m_state := Suspended |>)
| move_leave : m_state m <> Left -> (active_owner m = true -> count active_owner ms <> 1) ->
    member_move ms teams now m (m <| m_team_ids := [] |> <| m_state := Left |>)
| move_activate : m_state m = Suspended -> (forall e, m_expires_at m = Some e -> (now < e)%Z) ->
    member_move ms teams now m (m <| m_state := Active |>)
| move_assign t : is_eligible_at m now = true -> t ∈ teams -> t ∉ m_team_ids m -> len (m_team_ids m) < MAX_TEAM_ASSIGNMENTS ->
    member_move ms teams now m (m <| m_team_ids := m_team_ids m ++ [t] |>).
Inductive change (now : UtcTimestamp) (o : Organization) : Organization -> Prop :=
| change_of_state st : o_state o <> st -> change now o (o <| o_state := st |>)
| change_add m : len (o_memberships o) < MAX_MEMBERSHIPS -> m_id m ∉ m_id <$> o_memberships o ->
    m_user_id m ∉ m_user_id <$> o_memberships o -> m_origin m <> Founder -> m_state m = Active -> m_team_ids m = [] ->
    (forall e, m_expires_at m = Some e -> m_kind m = Member /\ (now < e)%Z) ->
    change now o (o <| o_memberships := o_memberships o ++ [m] |>)
| change_member i m m' : o_memberships o !! i = Some m -> member_move (o_memberships o) (t_id <$> o_teams o) now m m' ->
    change now o (o <| o_memberships := <[i := m']> (o_memberships o) |>)
| change_team t : len (o_teams o) < MAX_TEAMS -> t ∉ t_id <$> o_teams o ->
    change now o (o <| o_teams := o_teams o ++ [mk_Team t] |>)
| change_owner i j m n : o_memberships o !! i = Some m -> o_memberships o !! j = Some n ->
    m_kind m = Owner -> m_state m = Active -> m_kind n = Member -> is_eligible_at n now = true ->
    change now o (o <| o_memberships := <[j := n <| m_kind := Owner |> <| m_expires_at := None |>]>
                                          (<[i := m <| m_kind := Member |>]> (o_memberships o)) |>).

(** The organizations a process can hold: created, changed by accepted commands, rebuilt by
    the replay of events or loaded from storage. *)
Inductive live : Organization -> Prop :=
| live_created c t :
    is_empty (id_str (c_organization_id c)) = false -> is_empty (id_str (c_tenant_id c)) = false ->
    create_organization c = Ok t -> live (organization t)
| live_changed o c t : live o -> transition o c = Ok t -> live (organization t)
| live_replayed o e o' : live o -> replay_persisted_event o e = Ok o' -> live o'
| live_loaded i t v s o : v <= u64_max -> from_snapshot i t v s = Ok o -> live o.

(** ** Lemmas *)

(** *** Counting *)

Lemma count_filter {A} (p : A -> bool) l : len (List.filter p l) = count p l.
Proof.
  unfold count, len. induction l as [|x l IH]; [done|]. rewrite sum_of_cons. cbn. destruct (p x); cbn; lia.
Qed.
Lemma sum_insert {A} (f : A -> N) l i x y : l !! i = Some x -> sum_of f (<[i := y]> l) + f x = sum_of f l + f y.
Proof.
  revert i. induction l as [|z l IH]; intros [|i]; cbn [lookup list_lookup]; try done.
  - intros [= ->]. change (<[0%nat := y]> (x :: l)) with (y :: l). rewrite !sum_of_cons. lia.
  - intros H%IH. change (<[S i := y]> (z :: l)) with (z :: <[i := y]> l). rewrite !sum_of_cons. lia.
Qed.
Lemma count_insert {A} (p : A -> bool) l i x y : l !! i = Some x ->
  count p (<[i := y]> l) + (if p x then 1 else 0) = count p l + (if p y then 1 else 0).
Proof. intros H. exact (sum_insert (fun x => if p x then 1 else 0) l i x y H). Qed.
Lemma count_app {A} (p : A -> bool) l l' : count p (l ++ l') = count p l + count p l'.
Proof. apply sum_of_app. Qed.
Lemma count_fmap {A B} (f : A -> B) (p : B -> bool) l : count p (f <$> l) = count (fun x => p (f x)) l.
Proof. apply sum_of_fmap. Qed.
Lemma count_ext {A} (p q : A -> bool) l : (forall x, p x = q x) -> count p l = count q l.
Proof. intros H. apply sum_of_ext. intros x _. by rewrite H. Qed.
Lemma count_zero {A} (p : A -> bool) l : count p l = 0 <-> forall x, x ∈ l -> p x = false.
Proof.
  split.
  - intros H x Hx. pose proof (sum_of_elem (fun x => if p x then 1 else 0) l x Hx) as Hle. fold (count p l) in Hle.
    cbn in Hle. destruct (p x); [lia|done].
  - intros H. apply sum_of_zero. intros x Hx. by rewrite (H x Hx).
Qed.
Lemma count_two {A} (p : A -> bool) l i j x y : l !! i = Some x -> l !! j = Some y -> i <> j ->
  p x = true -> p y = true -> 1 < count p l.
Proof.
  intros Hi Hj Hij Hx Hy. unfold count.
  assert (2 <= sum_of (fun x => if p x then 1 else 0) l); [|lia].
  revert i j Hi Hj Hij. induction l as [|z l IH]; [done|]. intros [|i] [|j] Hi Hj Hij; [done|..]; rewrite sum_of_cons.
  - injection Hi as ->. rewrite Hx. pose proof (sum_of_elem (fun x => if p x then 1 else 0) l y (list_elem_of_lookup_2 l _ _ Hj)).
    cbn in *. rewrite Hy in *. lia.
  - injection Hj as ->. rewrite Hy. pose proof (sum_of_elem (fun x => if p x then 1 else 0) l x (list_elem_of_lookup_2 l _ _ Hi)).
    cbn in *. rewrite Hx in *. lia.
  - pose proof (IH i j Hi Hj ltac:(congruence)). lia.
Qed.

(** *** The checks on snapshots *)

Lemma snapshot_fields m :
  ms_id (snapshot_membership m) = m_id m /\ ms_user_id (snapshot_membership m) = m_user_id m /\
  ms_kind (snapshot_membership m) = m_kind m /\ ms_state (snapshot_membership m) = m_state m /\
  ms_origin (snapshot_membership m) = m_origin m /\ ms_expires_at (snapshot_membership m) = m_expires_at m.
Proof. unfold snapshot_membership. by destruct (m_state m); split_and!. Qed.
Lemma snapshot_teams m : (m_state m <> Active -> m_team_ids m = []) -> ms_team_ids (snapshot_membership m) = m_team_ids m.
Proof. unfold snapshot_membership. destruct (m_state m); cbn; [done|intros H; symmetry; by apply H..]. Qed.
Lemma into_snapshot m : (m_state m <> Active -> m_team_ids m = []) -> into_membership (snapshot_membership m) = m.
Proof. unfold snapshot_membership. destruct m as [i u k s o e t]; cbn. destruct s; cbn; [done|intros H; by rewrite H..]. Qed.
Lemma snapshot_into s : snapshot_membership (into_membership s) = s.
Proof. by destruct s. Qed.

Lemma insert_team_ids_Ok ids ts r : insert_team_ids ids ts = Ok r <->
  NoDup (ts_id <$> ts) /\ (forall t, t ∈ ts_id <$> ts -> t ∉ ids) /\ r = list_to_set (ts_id <$> ts) ∪ ids.
Proof.
  revert ids. induction ts as [|t ts IH]; intros ids; cbn [insert_team_ids fmap list_fmap list_to_set].
  - rewrite (left_id_L ∅ (∪)). split; [intros [= <-]|by intros (_ & _ & ->)]. split_and!; [constructor|set_solver|done].
  - rewrite NoDup_cons. destruct (decide (ts_id t ∈ ids)) as [Hin|Hin].
    + split; [done|]. intros (_ & H & _). by destruct (H (ts_id t) ltac:(left)).
    + rewrite IH. split.
      * intros (Hnd & Hf & ->). split_and!; [set_solver..|]. by rewrite (assoc_L (∪)), (comm_L (∪) (list_to_set _)), <- (assoc_L (∪)).
      * intros ([Hni Hnd] & Hf & ->). split_and!; [done|set_solver|].
        by rewrite (assoc_L (∪)), (comm_L (∪) (list_to_set _) {[_]}).
Qed.
Lemma insert_membership_ids_Ok ids users ms : insert_membership_ids ids users ms = Ok tt <->
  (NoDup (ms_id <$> ms) /\ forall i, i ∈ ms_id <$> ms -> i ∉ ids) /\
  (NoDup (ms_user_id <$> ms) /\ forall u, u ∈ ms_user_id <$> ms -> u ∉ users).
Proof.
  revert ids users. induction ms as [|m ms IH]; intros ids users; cbn [insert_membership_ids fmap list_fmap].
  - split; [|done]. intros _. split_and!; try constructor; set_solver.
  - rewrite !NoDup_cons. destruct (decide (ms_id m ∈ ids)) as [Hin|Hin]; [|destruct (decide (ms_user_id m ∈ users)) as [Hu|Hu]].
    + split; [done|]. intros [[_ H] _]. by destruct (H (ms_id m) ltac:(left)).
    + split; [done|]. intros [_ [_ H]]. by destruct (H (ms_user_id m) ltac:(left)).
    + rewrite IH. split.
      * intros [[Hn1 H1] [Hn2 H2]]. split_and!; try done; set_solver.
      * intros [[[Hi1 Hn1] H1] [[Hi2 Hn2] H2]]. split_and!; try done; set_solver.
Qed.
Lemma insert_assignments_Ok assigned ids ts : insert_assignments assigned ids ts = Ok tt <->
  NoDup ts /\ (forall t, t ∈ ts -> t ∈ ids) /\ (forall t, t ∈ ts -> t ∉ assigned).
Proof.
  revert assigned. induction ts as [|t ts IH]; intros assigned; cbn [insert_assignments].
  - split; [|done]. intros _. split_and!; [constructor|set_solver..].
  - rewrite NoDup_cons. destruct (bool_decide (t ∈ ids)) eqn:H1; [destruct (bool_decide (t ∈ assigned)) eqn:H2|]; cbn; tidy.
    + split; [done|]. intros (_ & _ & H). by destruct (H t ltac:(left)).
    + rewrite IH. split.
      * intros (Hn & Hi & Ha). split_and!; set_solver.
      * intros ((Hni & Hn) & Hi & Ha). split_and!; set_solver.
    + split; [done|]. intros (_ & H & _). by destruct H1; apply H; left.
Qed.

Lemma bind_Ok {E A} (m : result E unit) (k : unit -> result E A) r : (m ≫= k) = Ok r <-> m = Ok tt /\ k tt = Ok r.
Proof.
  rewrite result_bind_Ok. split; [intros ([] & ? & ?); done|]. intros [? ?]. by exists tt.
Qed.

Definition bounded (n : N) : outcome N := if n <=? u64_max then Ok n else Err InvalidArgument.
Lemma add_version_cost_bounded v c : add_version_cost v c = bounded (v + c).
Proof. unfold add_version_cost, checked_add, bounded. by destruct (_ <=? _). Qed.

Ltac bounds :=
  repeat match goal with
  | |- context [?x <=? u64_max] => destruct (N.leb_spec x u64_max); cbn -[u64_max N.add]
  end; try done; try lia; f_equal; lia.

Section rehydration.
  Context (o : Organization).
  Notation ms := (o_memberships o).
  Notation s := (snapshot_state o).
  Context (Hidle : Forall (fun m => m_state m <> Active -> m_team_ids m = []) ms).

Lemma membership_cost_from (l : list Membership) c : Forall (fun m => m_state m <> Active -> m_team_ids m = []) l -> c <= u64_max ->
  membership_version_cost_from c (snapshot_membership <$> l) = bounded (c + sum_of membership_cost l).
Proof.
  intros Hl. revert c. induction Hl as [|m l Hm Hl IH]; intros c Hc; cbn [membership_version_cost_from fmap list_fmap].
  - unfold bounded. cbn -[u64_max]. rewrite N.add_0_r. by rewrite (proj2 (N.leb_le _ _)).
  - unfold add_membership_version_cost. rewrite snapshot_teams by done. destruct (snapshot_fields m) as (_ & _ & _ & -> & _).
    rewrite sum_of_cons. unfold membership_cost at 1. unfold checked_add, bounded.
    rewrite (bool_decide_not (m_state m = Active)). case_bool_decide; cbn -[u64_max N.add].
    all: destruct (N.leb_spec (c + len (m_team_ids m)) u64_max); cbn -[u64_max N.add].
    all: try destruct (N.leb_spec (c + len (m_team_ids m) + 1) u64_max); cbn -[u64_max N.add].
    all: rewrite ?IH by lia; unfold bounded; bounds.
Qed.
Lemma minimum_version : minimum_snapshot_version s = bounded (version_cost o).
Proof.
  unfold minimum_snapshot_version, add_state_version_cost, add_founder_kind_version_cost, membership_version_cost. cbn [s_memberships s_teams s_state snapshot_state].
  rewrite membership_cost_from by done. rewrite N.add_0_l. unfold len at 1 2. rewrite !length_fmap. fold (len ms) (len (o_teams o)).
  replace (is_some_and (fun m => bool_decide (ms_kind m = Member)) (head (snapshot_membership <$> ms))) with (demoted ms).
  2:{ unfold demoted. destruct ms as [|m l]; [done|]. cbn. by destruct (snapshot_fields m) as (_ & _ & -> & _). }
  unfold version_cost. generalize (len ms - 1), (len (o_teams o)), (sum_of membership_cost ms). intros a b c.
  rewrite add_version_cost_bounded. unfold bounded, add_version_cost, checked_add.
  destruct (demoted ms), (bool_decide (o_state o = OrganizationFrozen)); bounds.
Qed.
Definition within (d : N) (c : option N) : Prop := exists x, c = Some x /\ x <= d.
Lemma within_lower d a b : within d (lower a b) <-> within d a \/ within d b.
Proof.
  unfold within. destruct a as [x|], b as [y|]; cbn; split.
  all: try (intros (z & [= <-] & Hz); try (destruct (N.min_spec x y) as [[_ Hm]|[_ Hm]]; rewrite Hm in Hz); eauto).
  all: intros [(z & Hz & ?)|(z & Hz & ?)]; try done; injection Hz as ->; eexists; split; try done; lia.
Qed.
Lemma held_nil p : held [] p <-> False.
Proof. unfold held. set_solver. Qed.
Lemma held_cons m l p : held (m :: l) p <-> p m \/ held l p.
Proof. unfold held. set_solver. Qed.
Lemma within_fold d (f : Membership -> option N) (l : list Membership) init :
  within d (foldl (fun c m => lower c (f m)) init l) <-> within d init \/ held l (fun m => within d (f m)).
Proof.
  revert init. induction l as [|m l IH]; intros init; cbn [foldl]; [rewrite held_nil; tauto|].
  rewrite IH, within_lower, held_cons. tauto.
Qed.
Lemma within_some d c : within d (Some c) <-> c <= d.
Proof. unfold within. split; [by intros (? & [= ->] & ?)|by exists c]. Qed.
Lemma within_none d : within d None <-> False.
Proof. unfold within. by split; [intros (? & [=] & _)|]. Qed.
Lemma within_if d (b : bool) x y : within d (if b then x else y) <-> (b = true /\ within d x) \/ (b = false /\ within d y).
Proof. destruct b; naive_solver. Qed.
Lemma foldl_fmap' {A B C} (f : C -> B -> C) (g : A -> B) (l : list A) c : foldl f c (g <$> l) = foldl (fun c x => f c (g x)) c l.
Proof. revert c. induction l as [|x l IH]; intros c; [done|]. apply IH. Qed.
Lemma existsb_held (p : Membership -> bool) l : existsb p l = true <-> held l (fun m => p m = true).
Proof. rewrite existsb_exists. unfold held. by setoid_rewrite list_elem_of_In. Qed.
Lemma existsb_fmap {A B} (f : A -> B) (p : B -> bool) l : existsb p (f <$> l) = existsb (fun x => p (f x)) l.
Proof. induction l as [|x l IH]; [done|]. cbn. by rewrite IH. Qed.
Lemma existsb_filter {A} (p q : A -> bool) l : existsb p (List.filter q l) = existsb (fun x => q x && p x) l.
Proof. induction l as [|x l IH]; [done|]. cbn. destruct (q x); cbn; by rewrite IH. Qed.

Lemma owners_snapshot : snapshot_owner_count s = count owner ms.
Proof.
  unfold snapshot_owner_count. rewrite count_filter. cbn [snapshot_state s_memberships]. rewrite count_fmap. apply count_ext. intros m.
  unfold is_owner, owner. by destruct (snapshot_fields m) as (_ & _ & -> & _).
Qed.
Lemma lasting_snapshot (l : list Membership) : len (List.filter never_expires (snapshot_membership <$> l)) = count lasting l.
Proof.
  rewrite count_filter, count_fmap. apply count_ext. intros m.
  unfold never_expires, lasting. by destruct (snapshot_fields m) as (_ & _ & _ & _ & _ & ->).
Qed.
Lemma lasting_kind (k : MembershipRole) (p : MembershipSnapshot -> bool) (l : list Membership) :
  (forall x, p x = bool_decide (ms_kind x = k)) ->
  existsb p (List.filter never_expires (snapshot_membership <$> l)) = true <-> held l (fun m => lasting m = true /\ m_kind m = k).
Proof.
  intros Hp. rewrite existsb_filter, existsb_fmap, existsb_held. unfold held. apply exist_proper. intros m.
  unfold never_expires, lasting. rewrite Hp. destruct (snapshot_fields m) as (_ & _ & -> & _ & _ & ->).
  by rewrite andb_true_iff, (bool_decide_eq_true (m_kind m = k)).
Qed.
Lemma ownership_within d : 1 <= d ->
  within d (ownership_odd_surcharge s) <-> one_step_transfer ms \/ (transfer_triangle ms /\ 3 <= d).
Proof.
  intros Hd. unfold ownership_odd_surcharge. rewrite within_if, within_some.
  assert (supports_one_step_ownership_surcharge s = true <-> one_step_transfer ms) as Hone.
  { unfold supports_one_step_ownership_surcharge, one_step_transfer. cbn [s_memberships snapshot_state].
    rewrite lasting_snapshot, <- fmap_drop. destruct (N.ltb_spec (count lasting ms) 3); [split; [done|lia]|].
    replace (is_some_and is_owner (head (snapshot_membership <$> ms))) with (negb (demoted ms) && negb (bool_decide (ms = []))).
    2:{ unfold demoted. destruct ms as [|m l]; [done|]. cbn. unfold is_owner. destruct (snapshot_fields m) as (_ & _ & -> & _).
        destruct (m_kind m); by rewrite andb_true_r. }
    assert (ms <> []) as Hne by (intros Heq; rewrite Heq in *; done).
    rewrite (bool_decide_eq_false_2 _ Hne). destruct (demoted ms); cbn; [naive_solver|].
    rewrite andb_true_iff, !(lasting_kind _ _ (drop 1 ms)) by done. naive_solver. }
  assert (within d (ownership_triangle_surcharge s) <-> transfer_triangle ms /\ 3 <= d) as Htri.
  { unfold ownership_triangle_surcharge, transfer_triangle. cbn [s_memberships snapshot_state]. rewrite lasting_snapshot.
    destruct (N.ltb_spec (count lasting ms) 3); [rewrite within_none; split; [done|lia]|].
    rewrite within_if, within_some, within_none, andb_true_iff, !(lasting_kind _ _ ms) by done. naive_solver. }
  rewrite Htri. destruct (supports_one_step_ownership_surcharge s); naive_solver lia.
Qed.
Lemma membership_within d m : 1 <= d -> within d (membership_odd_surcharge s (snapshot_membership m) (count owner ms)) <->
  suspendable ms m /\ (m_state m = Left \/ (m_state m = Suspended /\ o_teams o <> []) \/ (m_state m = Active /\ o_teams o <> [] /\ 3 <= d)).
Proof.
  intros Hd. unfold membership_odd_surcharge, membership_can_suspend, suspendable. cbn [s_teams snapshot_state].
  destruct (snapshot_fields m) as (_ & _ & -> & -> & _). unfold len at 1 2. rewrite !length_fmap. fold (len (o_teams o)).
  assert (forall k, within d (if negb (len (o_teams o) =? 0) then Some k else None) <-> o_teams o <> [] /\ k <= d) as Ht.
  { intros k. rewrite within_if, within_some, within_none. unfold len. destruct (o_teams o); cbn; naive_solver. }
  assert (bool_decide (m_kind m <> Owner) || (1 <? count owner ms) = true <-> m_kind m = Member \/ 1 < count owner ms) as Hs.
  { rewrite orb_true_iff, bool_decide_eq_true, N.ltb_lt. destruct (m_kind m); naive_solver. }
  rewrite within_if, within_none, negb_true_iff, negb_false_iff, Hs.
  destruct (m_state m); rewrite ?Ht, ?within_some; naive_solver lia.
Qed.
Lemma surcharge_within d : 1 <= d ->
  is_some_and (fun cost => cost <=? d) (minimum_odd_history_surcharge s) = true <-> detour_of_one o \/ (detour_of_three o /\ 3 <= d).
Proof.
  intros Hd. transitivity (within d (minimum_odd_history_surcharge s)).
  { unfold within. destruct (minimum_odd_history_surcharge s); cbn; [rewrite N.leb_le|]; naive_solver. }
  unfold minimum_odd_history_surcharge. rewrite owners_snapshot. cbn [snapshot_state s_memberships]. rewrite foldl_fmap'.
  rewrite within_fold, ownership_within by done. unfold held at 1. setoid_rewrite membership_within; [|done].
  unfold detour_of_three, detour_of_one, held. split.
  - intros [[H|[H ?]]|(m & Hm & Hs & H)]; [naive_solver..|]. destruct H as [H|[H|(H & ? & ?)]]; [left|left|right]; eauto 10.
  - intros [[H|(m & Hm & Hs & H)]|[[[H|(m & Hm & Hs & H)]|[H|(m & Hm & Hs & H)]] Hd3]]; try naive_solver.
    right. exists m. split_and!; [done..|]. destruct (m_state m); naive_solver.
Qed.
Lemma reachability_iff : o_version o <= u64_max ->
  validate_version_reachability (o_version o) s = Ok tt <-> history_exists o.
Proof.
  intros Hv. unfold validate_version_reachability, history_exists. rewrite minimum_version. unfold bounded.
  destruct (N.leb_spec (version_cost o) u64_max) as [Hc|Hc]; cbn -[u64_max N.modulo]; [|split; [done|intros [? _]; lia]].
  unfold checked_sub. destruct (N.leb_spec (version_cost o) (o_version o)) as [Hle|Hle]; cbn -[u64_max N.modulo]; [|split; [done|intros [? _]; lia]].
  set (d := o_version o - version_cost o). pose proof (N.mod_lt d 2 ltac:(done)) as Hmod.
  destruct (N.eqb_spec d 0) as [H0|H0]; cbn -[u64_max N.modulo].
  { split; [|done]. intros _. split; [done|]. by rewrite H0. }
  destruct (N.eqb_spec (d mod 2) 0) as [Hm|Hm]; cbn -[u64_max N.modulo].
  { split; [|done]. intros _. split; [done|]. rewrite Hm. done. }
  pose proof (surcharge_within d ltac:(lia)) as Hw.
  destruct (is_some_and _ _); split; try done.
  - intros _. split; [done|]. intros _. by apply Hw.
  - intros [_ H]. assert (d mod 2 = 1) as Hodd by (clear -Hm Hmod; revert Hm Hmod; generalize (d mod 2); lia). discriminate (proj2 Hw (H Hodd)).
Qed.

Lemma collect_unit_Ok {A} (f : A -> outcome unit) l : (collect f l ≫= fun _ => mret tt) = Ok tt <-> Forall (fun x => f x = Ok tt) l.
Proof.
  rewrite result_bind_Ok. split.
  - intros (us & Hus & _). apply collect_Ok in Hus. induction Hus as [|x [] l us Hx _ IH]; by constructor.
  - intros Hl. exists ((fun _ => tt) <$> l). split; [|done]. apply collect_Ok. induction Hl; constructor; done.
Qed.
Lemma validate_membership_iff m ids teams : (forall t, t ∈ ids <-> t ∈ teams) -> (m_state m <> Active -> m_team_ids m = []) ->
  validate_membership (snapshot_membership m) ids = Ok tt <-> membership_ok teams m.
Proof.
  intros Hids Hm. unfold validate_membership, validate_membership_expiry, validate_membership_assignments, validate_assignment_capacity,
    validate_assignment_state, validate_assignment_ids. cbv zeta.
  rewrite !bind_Ok, !reject_if_Ok, insert_assignments_Ok, snapshot_teams by done.
  destruct (snapshot_fields m) as (_ & _ & -> & -> & -> & ->).
  rewrite !andb_false_iff, orb_false_iff, !bool_decide_eq_false, negb_false_iff, N.ltb_ge, N.eqb_eq. unfold is_Some. split.
  - intros (He & Hc & Hs & Hn & Hr & _). split; [|done|done|done|].
    + intros Hsome. destruct He as [He|[He1 He2]]; [|split; [by destruct (m_kind m)|done]].
      destruct He. by destruct (m_expires_at m); [eauto|].
    + intros t Ht. by apply Hids, Hr.
  - intros [He Hc Hs Hn Hr]. split_and!; try done.
    + destruct (m_expires_at m) as [e|]; [right|left; naive_solver]. destruct He as [-> ?]; done.
    + destruct (decide (m_state m = Active)) as [|Hna]; [left; tauto|right]. by rewrite (Hs Hna).
    + intros t Ht. by apply Hids, Hr.
Qed.
Lemma founder_iff (l : list Membership) :
  (is_some_and (fun m => bool_decide (ms_origin m = Founder)) (head (snapshot_membership <$> l)) = true /\
   count (fun m => bool_decide (ms_origin m = Founder)) (snapshot_membership <$> l) = 1) <-> first_is_founder l.
Proof.
  rewrite count_fmap. rewrite (count_ext _ founding).
  2:{ intros m. by destruct (snapshot_fields m) as (_ & _ & _ & _ & -> & _). }
  unfold first_is_founder. destruct l as [|m l]; [split; [by intros [? _]|by intros (? & ? & ? & _)]|].
  cbn [head fmap list_fmap is_some_and]. destruct (snapshot_fields m) as (_ & _ & _ & _ & -> & _).
  unfold count. rewrite sum_of_cons. fold (count founding l). unfold founding at 1. rewrite bool_decide_eq_true. split.
  - intros [Hf Hc]. exists m, l. split_and!; [done..|]. rewrite bool_decide_true in Hc by done.
    apply Forall_forall. intros x Hx. rewrite <- bool_decide_eq_false. apply (proj1 (count_zero founding l)); [lia|done].
  - intros (f & rest & [= <- <-] & Hf & Hr). split; [done|]. rewrite bool_decide_true by done.
    rewrite (proj2 (count_zero _ _)); [done|]. intros x Hx. apply bool_decide_eq_false. by apply (proj1 (Forall_forall _ _) Hr x).
Qed.
Lemma governed_iff (l : list Membership) :
  count is_active_owner (snapshot_membership <$> l) <> 0 <-> held l (fun m => active_owner m = true).
Proof.
  rewrite count_fmap, (count_ext _ active_owner).
  2:{ intros m. unfold is_active_owner, active_owner. by destruct (snapshot_fields m) as (_ & _ & -> & -> & _). }
  rewrite count_zero. unfold held. split.
  - intros H. destruct (decide (Exists (fun m => active_owner m = true) l)) as [He|He]; [by apply Exists_exists in He|].
    destruct H. intros x Hx. apply not_true_is_false. intros Ht. apply He, Exists_exists. eauto.
  - intros (m & Hm & Ht) H. rewrite (H m Hm) in Ht. done.
Qed.

(** The snapshot of an organization is accepted exactly when the organization is one that
    satisfies the invariant. *)
Lemma accepts_iff : o_version o <= u64_max ->
  validate_snapshot (o_id o) (o_tenant_id o) (o_version o) s = Ok tt <-> organization_ok o.
Proof.
  intros Hv. unfold validate_snapshot, validate_snapshot_identity, validate_snapshot_capacity, validate_memberships,
    validate_membership_identity_uniqueness, validate_founder_order, validate_owner_invariant, unique_team_ids. cbv zeta.
  rewrite !bind_Ok, !reject_if_Ok, result_bind_Ok, !orb_false_iff, !N.ltb_ge, N.eqb_neq.
  cbn [s_memberships s_teams snapshot_state]. unfold len at 1 2. rewrite !length_fmap. fold (len ms) (len (o_teams o)).
  assert (Hteams : ts_id <$> ((fun t => mk_TeamSnapshot (t_id t)) <$> o_teams o) = t_id <$> o_teams o) by (by rewrite <- list_fmap_compose).
  assert (Hids : ms_id <$> (snapshot_membership <$> ms) = m_id <$> ms).
  { rewrite <- list_fmap_compose. apply list_fmap_ext. intros ? m _. cbn. by destruct (snapshot_fields m) as (-> & _). }
  assert (Husers : ms_user_id <$> (snapshot_membership <$> ms) = m_user_id <$> ms).
  { rewrite <- list_fmap_compose. apply list_fmap_ext. intros ? m _. cbn. by destruct (snapshot_fields m) as (_ & -> & _). }
  assert (Hval : forall ids, (forall t, t ∈ ids <-> t ∈ t_id <$> o_teams o) ->
    Forall (fun x => validate_membership x ids = Ok tt) (snapshot_membership <$> ms) <-> Forall (membership_ok (t_id <$> o_teams o)) ms).
  { intros ids Hi. rewrite Forall_fmap, !Forall_forall. apply forall_proper. intros m. split; intros H Hm.
    - apply (validate_membership_iff m ids); [done|by apply (proj1 (Forall_forall _ _) Hidle)|by apply H].
    - cbn. apply (validate_membership_iff m ids (t_id <$> o_teams o)); [done|by apply (proj1 (Forall_forall _ _) Hidle)|by apply H]. }
  split.
  - intros ([[Hid1 Hid2] _] & [Hc1 Hc2] & r & Hr & Hrest). apply insert_team_ids_Ok in Hr as (Hnt & _ & ->). rewrite Hteams in *.
    revert Hrest. rewrite !bind_Ok, collect_unit_Ok, !reject_if_Ok, reachability_iff by done. rewrite insert_membership_ids_Ok, Hids, Husers.
    rewrite Hval by set_solver. rewrite negb_false_iff, orb_false_iff, negb_false_iff, N.eqb_eq, N.eqb_neq, !count_filter.
    intros ([[[Hni _] [Hnu _]] Hms] & Hf & [Hfc Hg] & Hh). split; try done.
    + by apply founder_iff.
    + by apply governed_iff.
  - intros [[Hid1 Hid2] Hb1 Hb2 Hnt Hni Hnu Hms Hf Hg Hh]. apply founder_iff in Hf as [Hf Hfc]. apply governed_iff in Hg. split_and!; try done.
    { destruct Hh as [[Hle _] _]. revert Hle. unfold version_cost. lia. }
    exists (list_to_set (t_id <$> o_teams o) ∪ ∅). rewrite insert_team_ids_Ok, Hteams. split; [split_and!; [done|set_solver|done]|].
    rewrite !bind_Ok, collect_unit_Ok, !reject_if_Ok, reachability_iff by done. rewrite insert_membership_ids_Ok, Hids, Husers.
    rewrite Hval by set_solver. rewrite negb_false_iff, orb_false_iff, negb_false_iff, N.eqb_eq, N.eqb_neq, !count_filter.
    split_and!; try done; set_solver.
Qed.
End rehydration.

(** *** Changes keep the invariant *)

Lemma idle_of_ok o : organization_ok o -> Forall (fun m => m_state m <> Active -> m_team_ids m = []) (o_memberships o).
Proof. intros Hok. eapply Forall_impl; [apply (memberships_ok o Hok)|]. intros m Hm. apply (assignments_active _ _ Hm). Qed.
Lemma rehydrates o : organization_ok o -> from_snapshot (o_id o) (o_tenant_id o) (o_version o) (snapshot_state o) = Ok o.
Proof.
  intros Hok. pose proof (idle_of_ok o Hok) as Hidle. unfold from_snapshot.
  rewrite (proj2 (accepts_iff o Hidle (proj2 (proj1 (history o Hok)))) Hok). cbn.
  rewrite <- !list_fmap_compose. destruct o as [i t v st ms ts]; cbn in *. f_equal. f_equal.
  - rewrite <- (list_fmap_id ms) at 2. apply list_fmap_ext. intros k m Hm. apply into_snapshot.
    by apply (proj1 (Forall_lookup _ _) Hidle k m).
  - rewrite <- (list_fmap_id ts) at 2. apply list_fmap_ext. by intros k [].
Qed.
Lemma loaded_ok i t v s o : v <= u64_max -> from_snapshot i t v s = Ok o ->
  organization_ok o /\ o_id o = i /\ o_tenant_id o = t /\ o_version o = v /\ snapshot_state o = s.
Proof.
  intros Hv ([] & Hval & [= <-])%result_bind_Ok.
  assert (snapshot_state (mk_Organization i t v (s_state s) (into_membership <$> s_memberships s) (into_team <$> s_teams s)) = s) as Hs.
  { unfold snapshot_state. cbn. rewrite <- !list_fmap_compose. destruct s as [st ms ts]. cbn. f_equal.
    - rewrite <- (list_fmap_id ms) at 2. apply list_fmap_ext. intros k m _. apply snapshot_into.
    - rewrite <- (list_fmap_id ts) at 2. apply list_fmap_ext. by intros k []. }
  split; [|done]. apply accepts_iff; [|done|by rewrite Hs].
  cbn. apply Forall_fmap, Forall_forall. intros m _. destruct m; naive_solver.
Qed.

Lemma fmap_insert_same {A B} (f : A -> B) (l : list A) i x y : l !! i = Some x -> f y = f x -> f <$> <[i := y]> l = f <$> l.
Proof. intros Hi Hf. rewrite list_fmap_insert, Hf. apply list_insert_id. by rewrite list_lookup_fmap, Hi. Qed.
Lemma founder_origins l : first_is_founder l <-> exists rest, m_origin <$> l = Founder :: rest /\ Forall (fun x => x <> Founder) rest.
Proof.
  unfold first_is_founder. destruct l as [|m l]; [split; [intros (? & ? & ? & _)|intros (? & ? & _)]; done|]. split.
  - intros (f & rest & [= <- <-] & Hf & Hr). exists (m_origin <$> l). cbn. rewrite Hf. split; [done|]. by apply Forall_fmap.
  - intros (rest & [= Hf <-] & Hr). exists m, l. split_and!; [done..|]. revert Hr. by rewrite Forall_fmap.
Qed.
Lemma demoted_kinds l l' : m_kind <$> l = m_kind <$> l' -> demoted l = demoted l'.
Proof. unfold demoted. destruct l, l'; try done. cbn. by intros [= -> _]. Qed.
Lemma held_count (p : Membership -> bool) l : held l (fun m => p m = true) <-> count p l <> 0.
Proof.
  rewrite count_zero. unfold held. split.
  - intros (m & Hm & Ht) H. rewrite (H m Hm) in Ht. done.
  - intros H. destruct (decide (Exists (fun m => p m = true) l)) as [He|He]; [by apply Exists_exists in He|].
    destruct H. intros x Hx. apply not_true_is_false. intros Ht. apply He, Exists_exists. eauto.
Qed.
Lemma held_insert l i m m' (p q : Membership -> Prop) : l !! i = Some m -> (p m -> q m') -> (forall x, x ∈ l -> p x -> q x) ->
  held l p -> held (<[i := m']> l) q.
Proof.
  intros Hi Hm Hx (x & Hin & Hp). apply list_elem_of_lookup in Hin as [j Hj]. destruct (decide (i = j)) as [<-|Hij].
  - rewrite Hi in Hj. injection Hj as <-. exists m'. split; [|auto]. apply list_elem_of_lookup. exists i. apply list_lookup_insert_eq.
    by eapply lookup_lt_Some.
  - exists x. split; [|apply Hx; [|done]; by eapply list_elem_of_lookup_2].
    apply list_elem_of_lookup. exists j. by rewrite list_lookup_insert_ne.
Qed.
Lemma held_weaken l (p q : Membership -> Prop) : (forall x, x ∈ l -> p x -> q x) -> held l p -> held l q.
Proof. intros H (m & Hm & Hp). exists m. auto. Qed.

(** How far a step takes the version beyond the fewest commands needed. *)
Lemma history_step o o' : history_exists o -> o_version o' = o_version o + 1 -> o_version o' <= u64_max ->
  forall grow, version_cost o' + grow = version_cost o + 1 ->
  (grow mod 2 = 1 -> detour_of_one o') ->
  (grow mod 2 = 0 -> detour_of_one o -> detour_of_one o' \/ (detour_of_three o' /\ 2 <= grow)) ->
  (grow mod 2 = 0 -> detour_of_three o -> detour_of_three o') -> history_exists o'.
Proof.
  intros [Hc Hd] Hv Hle grow Hg Hodd Hone Hthree. split; [lia|]. intros Hd'.
  set (d := o_version o - version_cost o) in *. assert (o_version o' - version_cost o' = d + grow) as Heq by (subst d; lia).
  rewrite Heq in *. destruct (N.eq_dec (grow mod 2) 1) as [Hg1|Hg1]; [auto|].
  assert (grow mod 2 = 0 /\ d mod 2 = 1) as [Hg0 Hd1].
  { revert Hd' Hg1. clear. zify. Z.to_euclidean_division_equations. lia. }
  assert (1 <= d) by (destruct (N.eq_dec d 0) as [Hz|]; [by rewrite Hz in Hd1|lia]).
  destruct (Hd Hd1) as [H1|[H3 ?]].
  - destruct (Hone Hg0 H1) as [?|[? ?]]; [by left|right; split; [done|lia]].
  - right. split; [auto|lia].
Qed.

Lemma one_step_app ms m : ms <> [] -> one_step_transfer ms -> one_step_transfer (ms ++ [m]).
Proof.
  intros Hne [Hc H]. destruct ms as [|f l]; [done|]. split; [rewrite count_app; lia|].
  destruct H as [H|[(a & Ha & ?) (b & Hb & ?)]]; [by left|right].
  split; [exists a|exists b]; (split; [cbn; apply elem_of_app; by left|done]).
Qed.
Lemma held_app l l' p : held l p -> held (l ++ l') p.
Proof. intros (m & Hm & Hp). exists m. split; [apply elem_of_app; by left|done]. Qed.
Lemma triangle_app ms m : transfer_triangle ms -> transfer_triangle (ms ++ [m]).
Proof. intros (Hc & Ha & Hb). split_and!; [rewrite count_app; lia|by apply held_app..]. Qed.
Lemma suspendable_app ms m x : suspendable ms x -> suspendable (ms ++ [m]) x.
Proof. unfold suspendable. rewrite count_app. intros [?|?]; [by left|right; lia]. Qed.

(** A change that leaves the detours in place keeps the history possible. *)
Section same_detours.
  Context (o : Organization) (v : N) (Hv : v = o_version o + 1) (Hle : v <= u64_max) (Hok : organization_ok o).

Lemma state_history st : o_state o <> st -> history_exists (o <| o_state := st |> <| o_version := v |>).
Proof.
  intros Hst. apply (history_step o) with (grow := if bool_decide (st = OrganizationFrozen) then 0 else 2); try done.
  - by apply history.
  - unfold version_cost. cbn -[len sum_of N.add N.sub]. destruct (o_state o), st; try done; cbn -[len sum_of N.add N.sub].
    all: repeat case_bool_decide; try done; lia.
  - by case_bool_decide.
  - intros _ H. by left.
Qed.
Lemma add_history m : m_state m = Active -> m_team_ids m = [] ->
  history_exists (o <| o_memberships := o_memberships o ++ [m] |> <| o_version := v |>).
Proof.
  intros Hm Ht. destruct (founder_first o Hok) as (f & rest & Hms & _).
  apply (history_step o) with (grow := 0); try done.
  - by apply history.
  - unfold version_cost. cbn -[len sum_of head]. rewrite sum_of_app. unfold sum_of at 2. cbn [foldr]. unfold membership_cost at 2.
    rewrite Hm, Ht. rewrite Hms. unfold len. rewrite length_app. cbn [length demoted head app is_some_and]. rewrite bool_decide_true by done. lia.
  - intros _ [H|H]; left; [left; apply one_step_app; [by rewrite Hms|done]|right].
    apply held_app. eapply held_weaken; [|exact H]. intros x _ [Hx ?]. split; [by apply suspendable_app|done].
  - intros _ [[H|H]|[H|H]].
    + left; left. apply one_step_app; [by rewrite Hms|done].
    + left; right. apply held_app. eapply held_weaken; [|exact H]. intros x _ [Hx ?]. split; [by apply suspendable_app|done].
    + right; left. by apply triangle_app.
    + right; right. apply held_app. eapply held_weaken; [|exact H]. intros x _ [Hx ?]. split; [by apply suspendable_app|done].
Qed.
Lemma team_history t : history_exists (o <| o_teams := o_teams o ++ [mk_Team t] |> <| o_version := v |>).
Proof.
  assert (o_teams o ++ [mk_Team t] <> []) as Hne by (by intros [_ ?]%app_nil).
  apply (history_step o) with (grow := 0); try done.
  - by apply history.
  - unfold version_cost. cbn -[len sum_of]. unfold len. rewrite length_app. cbn [length]. lia.
  - intros _ [H|H]; left; [by left|right]. eapply held_weaken; [|exact H]. intros x _ [Hx [?|[? ?]]]; split; auto.
  - intros _ [[H|H]|[H|H]]; [by left; left|left; right|by right; left|right; right]; (eapply held_weaken; [|exact H]).
    + intros x _ [Hx [?|[? ?]]]; split; auto.
    + intros x _ [Hx ?]; split; auto.
Qed.
End same_detours.

Definition rank (m : Membership) : MembershipRole * option UtcTimestamp := (m_kind m, m_expires_at m).
Lemma held_view {A} (g : Membership -> A) (P : A -> Prop) l l' : g <$> l = g <$> l' -> held l (fun m => P (g m)) -> held l' (fun m => P (g m)).
Proof.
  intros Heq (m & Hm & HP). assert (g m ∈ g <$> l') as Hin by (rewrite <- Heq; by apply list_elem_of_fmap_2).
  apply list_elem_of_fmap in Hin as (m' & Hg & Hm'). exists m'. split; [done|]. by rewrite <- Hg.
Qed.
Lemma count_view {A} (g : Membership -> A) (p : A -> bool) l l' : g <$> l = g <$> l' ->
  count (fun m => p (g m)) l = count (fun m => p (g m)) l'.
Proof. intros Heq. rewrite <- !(count_fmap g p). by rewrite Heq. Qed.
Lemma lasting_ranks l l' : rank <$> l = rank <$> l' -> count lasting l = count lasting l'.
Proof. intros H. exact (count_view rank (fun r : MembershipRole * option UtcTimestamp => bool_decide (r.2 = None)) l l' H). Qed.
Lemma owners_ranks l l' : rank <$> l = rank <$> l' -> count owner l = count owner l'.
Proof. intros H. exact (count_view rank (fun r : MembershipRole * option UtcTimestamp => bool_decide (r.1 = Owner)) l l' H). Qed.
Lemma lasting_kind_ranks k l l' : rank <$> l = rank <$> l' ->
  held l (fun m => lasting m = true /\ m_kind m = k) -> held l' (fun m => lasting m = true /\ m_kind m = k).
Proof.
  intros H. exact (held_view rank (fun r : MembershipRole * option UtcTimestamp => bool_decide (r.2 = None) = true /\ r.1 = k) l l' H).
Qed.
Lemma kinds_ranks (l l' : list Membership) : rank <$> l = rank <$> l' -> m_kind <$> l = m_kind <$> l'.
Proof. intros H. apply (f_equal (fmap fst)) in H. by rewrite <- !list_fmap_compose in H. Qed.
Lemma one_step_ranks l l' : rank <$> l = rank <$> l' -> one_step_transfer l -> one_step_transfer l'.
Proof.
  intros Hr [Hc H]. split; [by rewrite <- (lasting_ranks _ _ Hr)|].
  assert (rank <$> drop 1 l = rank <$> drop 1 l') as Hd by (by rewrite !fmap_drop, Hr).
  destruct H as [H|[Ha Hb]]; [left; by rewrite <- (demoted_kinds _ _ (kinds_ranks _ _ Hr))|right].
  split; by eapply lasting_kind_ranks.
Qed.
Lemma triangle_ranks l l' : rank <$> l = rank <$> l' -> transfer_triangle l -> transfer_triangle l'.
Proof.
  intros Hr (Hc & Ha & Hb). split_and!; [by rewrite <- (lasting_ranks _ _ Hr)|by eapply lasting_kind_ranks..].
Qed.

Section member.
  Context (o : Organization) (v : N) (Hv : v = o_version o + 1) (Hle : v <= u64_max) (Hok : organization_ok o).
  Context (i : nat) (m m' : Membership) (Hi : o_memberships o !! i = Some m).
  Context (Hkind : m_kind m' = m_kind m) (Hexp : m_expires_at m' = m_expires_at m).
  Notation ms := (o_memberships o).
  Notation ms' := (<[i := m']> (o_memberships o)).
  Notation o' := (o <| o_memberships := ms' |> <| o_version := v |>).

Lemma member_ranks : rank <$> ms' = rank <$> ms.
Proof. apply (fmap_insert_same rank ms i m m' Hi). unfold rank. by rewrite Hkind, Hexp. Qed.
Lemma member_cost : version_cost o' + membership_cost m = version_cost o + membership_cost m'.
Proof.
  unfold version_cost. cbn -[len sum_of N.add N.sub demoted].
  rewrite (demoted_kinds ms' ms) by apply kinds_ranks, member_ranks.
  unfold len. rewrite length_insert. pose proof (sum_insert membership_cost ms i m m' Hi). clear Hv Hle Hok. lia.
Qed.
Lemma member_suspendable x : suspendable ms x -> suspendable ms' x.
Proof. unfold suspendable. by rewrite (owners_ranks _ _ member_ranks). Qed.
Lemma member_suspendable_self : suspendable ms m -> suspendable ms' m'.
Proof. unfold suspendable. by rewrite (owners_ranks _ _ member_ranks), Hkind. Qed.
Lemma member_detour_three : detour_of_three o -> (m_state m = Left -> m_state m' = Left) -> detour_of_three o'.
Proof.
  intros [[H|H]|[H|H]] Hs.
  - left; left. by apply (one_step_ranks ms); [symmetry; apply member_ranks|].
  - destruct H as (x & Hx & Hsx & Hst). destruct (decide (m_state x = Left)) as [Hl|Hl].
    + left; right. apply (held_insert ms i m m' (fun y => suspendable ms y /\ m_state y = Left)); [done|..].
      * intros [? ?]. split; [by apply member_suspendable_self|left; auto].
      * intros y _ [? ?]. split; [by apply member_suspendable|by left].
      * by exists x.
    + destruct Hst as [?|[_ Ht]]; [done|]. right; right.
      apply (held_insert ms i m m' (fun y => suspendable ms y)); [done|..].
      * intros ?. split; [by apply member_suspendable_self|done].
      * intros y _ ?. split; [by apply member_suspendable|done].
      * by exists x.
  - right; left. by apply (triangle_ranks ms); [symmetry; apply member_ranks|].
  - right; right. apply (held_insert ms i m m' _ _ Hi) with (3 := H).
    + intros [? ?]. split; [by apply member_suspendable_self|done].
    + intros y _ [? ?]. split; [by apply member_suspendable|done].
Qed.
Lemma member_detour_one : detour_of_one o -> (m_state m = Left -> m_state m' = Left) ->
  (m_state m = Suspended -> m_state m' <> Active) -> detour_of_one o'.
Proof.
  intros [H|H] Hl Hs.
  - left. by apply (one_step_ranks ms); [symmetry; apply member_ranks|].
  - right. apply (held_insert ms i m m' _ _ Hi) with (3 := H).
    + intros [? Hst]. split; [by apply member_suspendable_self|]. cbn.
      destruct Hst as [?|[Hm ?]]; [left; auto|]. specialize (Hs Hm). destruct (m_state m'); auto; done.
    + intros y _ [? ?]. split; [by apply member_suspendable|done].
Qed.
Lemma member_detour_new : suspendable ms m -> m_state m' = Left \/ (m_state m' = Suspended /\ o_teams o <> []) -> detour_of_one o'.
Proof.
  intros Hs Hst. right. exists m'. split; [|split; [by apply member_suspendable_self|done]].
  apply list_elem_of_lookup. exists i. apply list_lookup_insert_eq. by eapply lookup_lt_Some.
Qed.
End member.

Lemma active_owner_true m : active_owner m = true <-> m_kind m = Owner /\ m_state m = Active.
Proof. unfold active_owner. by rewrite andb_true_iff, !bool_decide_eq_true. Qed.
Lemma active_owners_le ms : count active_owner ms <= count owner ms.
Proof.
  apply sum_of_le. intros m _. unfold active_owner, owner. destruct (bool_decide (m_kind m = Owner)); cbn; [|lia].
  destruct (bool_decide _); lia.
Qed.
Lemma count_elem {A} (p : A -> bool) l x : x ∈ l -> p x = true -> 1 <= count p l.
Proof. intros Hx Hp. pose proof (sum_of_elem (fun x => if p x then 1 else 0) l x Hx) as H. cbn in H. rewrite Hp in H. exact H. Qed.
(** Who may stop being active is not the only owner. *)
Lemma guarded_suspendable ms i m : ms !! i = Some m -> held ms (fun x => active_owner x = true) ->
  (active_owner m = true -> count active_owner ms <> 1) -> suspendable ms m.
Proof.
  intros Hi (x & Hx & Hax) Hg. unfold suspendable. destruct (m_kind m) eqn:Hk; [right|by left].
  destruct (m_state m) eqn:Hs.
  - assert (active_owner m = true) as Ham by (by apply active_owner_true).
    pose proof (count_elem active_owner ms m (list_elem_of_lookup_2 _ _ _ Hi) Ham). specialize (Hg Ham).
    pose proof (active_owners_le ms). lia.
  - apply list_elem_of_lookup in Hx as [j Hj]. apply active_owner_true in Hax as [Hkx Hsx].
    apply (count_two owner ms i j m x Hi Hj); [congruence|unfold owner; by rewrite bool_decide_eq_true..].
  - apply list_elem_of_lookup in Hx as [j Hj]. apply active_owner_true in Hax as [Hkx Hsx].
    apply (count_two owner ms i j m x Hi Hj); [congruence|unfold owner; by rewrite bool_decide_eq_true..].
Qed.

Lemma cost_active m : m_state m = Active -> membership_cost m = len (m_team_ids m).
Proof. intros Hs. unfold membership_cost. rewrite bool_decide_true by done. lia. Qed.
Lemma cost_idle m : m_state m <> Active -> membership_cost m = len (m_team_ids m) + 1.
Proof. intros Hs. unfold membership_cost. by rewrite bool_decide_false. Qed.

Section moves.
  Context (o : Organization) (v : N) (Hv : v = o_version o + 1) (Hle : v <= u64_max) (Hok : organization_ok o).
  Context (i : nat) (m : Membership) (Hi : o_memberships o !! i = Some m).

Lemma member_is_ok : membership_ok (t_id <$> o_teams o) m.
Proof. exact (proj1 (Forall_lookup _ _) (memberships_ok o Hok) i m Hi). Qed.
Lemma assigned_teams : m_team_ids m <> [] -> o_teams o <> [].
Proof.
  intros Ht Hn. destruct (m_team_ids m) as [|t l] eqn:Heq; [done|].
  pose proof (assignments_registered _ _ member_is_ok t) as H. rewrite Heq, Hn in H. set_solver.
Qed.
Lemma move_history now m' : member_move (o_memberships o) (t_id <$> o_teams o) now m m' ->
  history_exists (o <| o_memberships := <[i := m']> (o_memberships o) |> <| o_version := v |>).
Proof.
  intros Hmove. assert (m_kind m' = m_kind m /\ m_expires_at m' = m_expires_at m) as [Hk He] by (by destruct Hmove).
  pose proof (member_cost o v i m m' Hi Hk He) as Hcost.
  destruct Hmove as [Hs Hg|Hs Hg|Hs He'|t Hel Ht Hn Hc].
  - (* suspended *)
    assert (suspendable (o_memberships o) m) as Hsus.
    { apply (guarded_suspendable _ i); [done|by apply governed|]. intros Ha. apply Hg. by apply active_owner_true in Ha as [? _]. }
    apply (history_step o) with (grow := len (m_team_ids m)); try done; [by apply history|..].
    + revert Hcost. rewrite (cost_active m Hs), cost_idle by done. cbn -[len version_cost N.add membership_cost]. change (len []) with 0. lia.
    + intros Hodd. apply (member_detour_new o v i m _ Hi); [done|done|done|]. right. split; [done|]. apply assigned_teams.
      intros H0. rewrite H0 in Hodd. done.
    + intros _ H1. left. apply (member_detour_one o v i m _ Hi); try done. by rewrite Hs.
    + intros _ H3. apply (member_detour_three o v i m _ Hi); try done. by rewrite Hs.
  - (* left *)
    assert (detour_of_one (o <| o_memberships := <[i := m <| m_team_ids := [] |> <| m_state := Left |>]> (o_memberships o) |> <| o_version := v |>)) as Hone.
    { apply (member_detour_new o v i m _ Hi); [done|done| |by left]. by apply (guarded_suspendable _ i); [|apply governed|]. }
    apply (history_step o) with (grow := membership_cost m); try done; [by apply history|..].
    + intros _ _. by left.
    + intros _ _. by left.
  - (* activated *)
    apply (history_step o) with (grow := 2); try done; [by apply history|..].
    + revert Hcost. rewrite cost_idle, cost_active by (done || by rewrite Hs). cbn -[len version_cost N.add].
      rewrite (assignments_active _ _ member_is_ok) by (by rewrite Hs). change (len []) with 0. lia.
    + intros _ H1. right. split; [|done]. apply (member_detour_three o v i m _ Hi); [done|done|by left|by rewrite Hs].
    + intros _ H3. apply (member_detour_three o v i m _ Hi); [done|done|done|by rewrite Hs].
  - (* assigned *)
    assert (m_state m = Active) as Hs by (unfold is_eligible_at in Hel; apply andb_true_iff in Hel as [Hel _]; by tidy).
    apply (history_step o) with (grow := 0); try done; [by apply history|..].
    + revert Hcost. rewrite !cost_active by done. cbn -[len version_cost N.add]. unfold len. rewrite length_app. cbn -[version_cost N.add].
      lia.
    + intros _ H1. left. apply (member_detour_one o v i m _ Hi); try done; cbn; by rewrite Hs.
    + intros _ H3. apply (member_detour_three o v i m _ Hi); try done; cbn; by rewrite Hs.
Qed.
End moves.

Lemma count_cons {A} (p : A -> bool) x l : count p (x :: l) = (if p x then 1 else 0) + count p l.
Proof. apply sum_of_cons. Qed.
Lemma count_three {A} (p : A -> bool) l i j k x y z : l !! i = Some x -> l !! j = Some y -> l !! k = Some z ->
  i <> j -> i <> k -> j <> k -> p x = true -> p y = true -> p z = true -> 3 <= count p l.
Proof.
  revert i j k. induction l as [|a l IH]; [done|]. intros [|i] [|j] [|k] Hi Hj Hk Hij Hik Hjk Hx Hy Hz; try done; rewrite count_cons.
  - injection Hi as ->. rewrite Hx. pose proof (count_two p l j k y z Hj Hk ltac:(congruence) Hy Hz). lia.
  - injection Hj as ->. rewrite Hy. pose proof (count_two p l i k x z Hi Hk ltac:(congruence) Hx Hz). lia.
  - injection Hk as ->. rewrite Hz. pose proof (count_two p l i j x y Hi Hj ltac:(congruence) Hx Hy). lia.
  - pose proof (IH i j k Hi Hj Hk ltac:(congruence) ltac:(congruence) ltac:(congruence) Hx Hy Hz). lia.
Qed.

Lemma cost_with_memberships o l v : length l = length (o_memberships o) ->
  version_cost (o <| o_memberships := l |> <| o_version := v |>) + sum_of membership_cost (o_memberships o)
    + (if demoted (o_memberships o) then 1 else 0) =
  version_cost o + sum_of membership_cost l + (if demoted l then 1 else 0).
Proof. intros Hl. unfold version_cost. cbn -[len sum_of N.add N.sub demoted]. unfold len. rewrite Hl. lia. Qed.

Section transfer.
  Context (o : Organization) (v : N) (Hv : v = o_version o + 1) (Hle : v <= u64_max) (Hok : organization_ok o).
  Context (i j : nat) (m n : Membership) (Hi : o_memberships o !! i = Some m) (Hj : o_memberships o !! j = Some n).
  Context (Hm : m_kind m = Owner) (Hma : m_state m = Active) (Hn : m_kind n = Member) (Hna : m_state n = Active).
  Notation ms := (o_memberships o).
  Notation m' := (m <| m_kind := Member |>).
  Notation n' := (n <| m_kind := Owner |> <| m_expires_at := None |>).
  Notation ms' := (<[j := n']> (<[i := m']> (o_memberships o))).
  Notation o' := (o <| o_memberships := ms' |> <| o_version := v |>).

Lemma transfer_distinct : i <> j.
Proof. intros ->. congruence. Qed.
Lemma transfer_middle : <[i := m']> ms !! j = Some n.
Proof. rewrite list_lookup_insert_ne; [done|]. apply transfer_distinct. Qed.
Lemma transfer_left : ms' !! i = Some m'.
Proof.
  rewrite list_lookup_insert_ne by (symmetry; apply transfer_distinct). apply list_lookup_insert_eq. by eapply lookup_lt_Some.
Qed.
Lemma transfer_right : ms' !! j = Some n'.
Proof. apply list_lookup_insert_eq. rewrite length_insert. by eapply lookup_lt_Some. Qed.
Lemma transfer_other k : k <> i -> k <> j -> ms' !! k = ms !! k.
Proof. intros ? ?. by rewrite !list_lookup_insert_ne by done. Qed.
Lemma transfer_count (p : Membership -> bool) :
  count p ms' + (if p m then 1 else 0) + (if p n then 1 else 0) = count p ms + (if p m' then 1 else 0) + (if p n' then 1 else 0).
Proof. pose proof (count_insert p ms i m m' Hi). pose proof (count_insert p _ j n n' transfer_middle). lia. Qed.
Lemma transfer_owners : count owner ms' = count owner ms.
Proof.
  pose proof (transfer_count owner) as H.
  assert (owner m = true /\ owner n = false /\ owner m' = false /\ owner n' = true) as (E1 & E2 & E3 & E4).
  { unfold owner. cbn. by rewrite Hm, Hn. }
  rewrite E1, E2, E3, E4 in H. clear Hv Hle. lia.
Qed.
Lemma owner_lasts x : x ∈ ms -> m_kind x = Owner \/ m_origin x = Founder -> m_expires_at x = None.
Proof.
  intros Hx Hk. pose proof (expiry_ok _ _ (proj1 (Forall_forall _ _) (memberships_ok o Hok) x Hx)) as He.
  destruct (m_expires_at x); [|done]. destruct (He ltac:(done)) as [? ?]. destruct Hk; congruence.
Qed.
Lemma transfer_lasting : count lasting ms <= count lasting ms'.
Proof.
  pose proof (transfer_count lasting) as H.
  assert (lasting m = true /\ lasting m' = true /\ lasting n' = true) as (E1 & E2 & E3).
  { unfold lasting. cbn. by rewrite (owner_lasts m) by (by left || by eapply list_elem_of_lookup_2). }
  rewrite E1, E2, E3 in H. clear Hv Hle. destruct (lasting n); lia.
Qed.
Lemma left_lasts : lasting m' = true.
Proof. unfold lasting. cbn. by rewrite (owner_lasts m) by (by left || by eapply list_elem_of_lookup_2). Qed.
Lemma transfer_cost : version_cost o' + (if demoted ms then 1 else 0) = version_cost o + (if demoted ms' then 1 else 0).
Proof.
  pose proof (cost_with_memberships o ms' v ltac:(by rewrite !length_insert)) as Hc.
  pose proof (sum_insert membership_cost ms i m m' Hi) as H1. pose proof (sum_insert membership_cost _ j n n' transfer_middle) as H2.
  change (membership_cost m') with (membership_cost m) in H1. change (membership_cost n') with (membership_cost n) in H2. clear Hv Hle. lia.
Qed.
Lemma transfer_idle : held ms (fun x => suspendable ms x /\ (m_state x = Left \/ m_state x = Suspended /\ o_teams o <> [])) -> detour_of_one o'.
Proof.
  intros (x & Hx & Hs & Hst). right. exists x. split; [|split; [|done]].
  - apply list_elem_of_lookup in Hx as [k Hk]. apply list_elem_of_lookup. exists k. rewrite transfer_other; [done|..]; intros ->.
    + rewrite Hi in Hk. injection Hk as <-. rewrite Hma in Hst. naive_solver.
    + rewrite Hj in Hk. injection Hk as <-. rewrite Hna in Hst. naive_solver.
  - change (suspendable ms' x). unfold suspendable. by rewrite transfer_owners.
Qed.
Lemma transfer_teams : o_teams o <> [] -> detour_of_three o'.
Proof.
  intros Ht. right; right. exists m'. split; [|split; [by left|done]]. eapply list_elem_of_lookup_2, transfer_left.
Qed.
Lemma head_kind l f : l !! 0%nat = Some f -> demoted l = bool_decide (m_kind f = Member).
Proof. by destruct l; [|intros [= ->]]. Qed.
Lemma elem_tail (l : list Membership) k x : l !! k = Some x -> k <> 0%nat -> x ∈ drop 1 l.
Proof. destruct l, k; try done. intros H _. by eapply list_elem_of_lookup_2. Qed.

Lemma transfer_history : history_exists o'.
Proof.
  destruct (founder_first o Hok) as (f & rest & Hms & Hf & _). assert (ms !! 0%nat = Some f) as H0 by (by rewrite Hms).
  assert (m_expires_at f = None) as Hfl by (apply owner_lasts; [by eapply list_elem_of_lookup_2|by right]).
  pose proof transfer_cost as Hc. pose proof transfer_lasting as Hl.
  destruct (decide (i = 0%nat)) as [Hi0|Hi0]; [|destruct (decide (j = 0%nat)) as [Hj0|Hj0]].
  - (* the founder hands over *)
    assert (demoted ms = false) as Hd by (rewrite (head_kind _ m), Hm; [done|by rewrite <- Hi0]).
    assert (demoted ms' = true) as Hd' by (rewrite (head_kind _ m'); [done|rewrite <- Hi0 at 1; apply transfer_left]).
    assert (3 <= count lasting ms -> detour_of_one o') as Hone by (intros ?; left; change (one_step_transfer ms'); split; [lia|by left]).
    rewrite Hd, Hd' in Hc. apply (history_step o) with (grow := 0); try done; [by apply history|..].
    + intros _ [[H _]|H]; left; [by apply Hone|by apply transfer_idle].
    + intros _ [[[H _]|H]|[[H _]|(x & _ & _ & Ht)]]; [left; by apply Hone|left; by apply transfer_idle|left; by apply Hone|by apply transfer_teams].
  - (* the founder receives *)
    assert (demoted ms = true) as Hd by (rewrite (head_kind _ n), Hn; [done|by rewrite <- Hj0]).
    assert (demoted ms' = false) as Hd' by (rewrite (head_kind _ n'); [done|rewrite <- Hj0 at 1; apply transfer_right]).
    assert (3 <= count lasting ms -> detour_of_three o') as Hthree.
    { intros ?. right; left. change (transfer_triangle ms'). split_and!; [lia|exists n'|exists m'].
      - split; [eapply list_elem_of_lookup_2, transfer_right|done].
      - split; [eapply list_elem_of_lookup_2, transfer_left|split; [apply left_lasts|done]]. }
    rewrite Hd, Hd' in Hc. apply (history_step o) with (grow := 2); try done; [by apply history|clear Hle Hv; lia|..].
    + intros _ [[H _]|H]; right; (split; [|done]); [by apply Hthree|left; by apply transfer_idle].
    + intros _ [[[H _]|H]|[[H _]|(x & _ & _ & Ht)]]; [by apply Hthree|left; by apply transfer_idle|by apply Hthree|by apply transfer_teams].
  - (* between two others *)
    assert (ms' !! 0%nat = Some f) as H0' by (by rewrite transfer_other).
    assert (detour_of_one o') as Hone.
    { left. change (one_step_transfer ms'). split.
      - apply (count_three lasting ms' 0%nat i j f m' n'); try done; [apply transfer_left|apply transfer_right|apply transfer_distinct|..].
        + unfold lasting. by rewrite Hfl.
        + apply left_lasts.
      - right. split; [exists n'|exists m'].
        + split; [by apply (elem_tail _ j); [apply transfer_right|]|done].
        + split; [by apply (elem_tail _ i); [apply transfer_left|]|split; [apply left_lasts|done]]. }
    cbv beta in Hc, H0'. rewrite (head_kind _ f H0), (head_kind _ f H0') in Hc. apply (history_step o) with (grow := 1); try done; [by apply history|clear Hle Hv; lia].
Qed.
End transfer.

(** Changing single memberships keeps identities and their order. *)
Lemma first_is_founder_insert ms i m m' : ms !! i = Some m -> m_origin m' = m_origin m ->
  first_is_founder ms -> first_is_founder (<[i := m']> ms).
Proof. intros Hi Ho. rewrite !founder_origins. by rewrite (fmap_insert_same m_origin ms i m m' Hi Ho). Qed.
Lemma governed_insert ms i m m' : ms !! i = Some m ->
  (active_owner m = true -> active_owner m' = false -> count active_owner ms <> 1) ->
  held ms (fun x => active_owner x = true) -> held (<[i := m']> ms) (fun x => active_owner x = true).
Proof.
  intros Hi Hg. rewrite !held_count. intros H0. pose proof (count_insert active_owner ms i m m' Hi) as H.
  destruct (active_owner m), (active_owner m'); try specialize (Hg eq_refl eq_refl); lia.
Qed.
Lemma move_keeps ms teams now m m' : member_move ms teams now m m' ->
  m_id m' = m_id m /\ m_user_id m' = m_user_id m /\ m_origin m' = m_origin m /\ m_kind m' = m_kind m.
Proof. by destruct 1. Qed.
Lemma move_ok ms teams now m m' : member_move ms teams now m m' -> membership_ok teams m -> membership_ok teams m'.
Proof.
  intros Hmove [He Hb Ha Hu Hr]. destruct Hmove as [Hs Hg|Hs Hg|Hs He'|t Hel Ht Hn Hc].
  - split; cbn; try done; [constructor|set_solver].
  - split; cbn; try done; [constructor|set_solver].
  - by split.
  - split; cbn; try done.
    + unfold len in *. rewrite length_app. cbn. unfold MAX_TEAM_ASSIGNMENTS in *. lia.
    + intros Hs. unfold is_eligible_at in Hel. by rewrite bool_decide_false in Hel.
    + apply NoDup_app. split_and!; [done|set_solver|apply NoDup_singleton].
    + intros t'. rewrite elem_of_app, list_elem_of_singleton. intros [?| ->]; auto.
Qed.
Lemma move_governed ms teams now i m m' : ms !! i = Some m -> member_move ms teams now m m' ->
  held ms (fun x => active_owner x = true) -> held (<[i := m']> ms) (fun x => active_owner x = true).
Proof.
  intros Hi Hmove. apply (governed_insert ms i m m' Hi). destruct Hmove as [Hs Hg|Hs Hg|Hs He|t Hel]; intros Ha Hna.
  - apply Hg. by apply active_owner_true in Ha as [? _].
  - by apply Hg.
  - apply active_owner_true in Ha. rewrite Hs in Ha. naive_solver.
  - change (active_owner m = false) in Hna. congruence.
Qed.

Lemma membership_ok_teams teams teams' m : (forall t, t ∈ teams -> t ∈ teams') -> membership_ok teams m -> membership_ok teams' m.
Proof. intros Hsub [? ? ? ? Hr]. split; auto. Qed.
Lemma eligible_active m now : is_eligible_at m now = true -> m_state m = Active.
Proof. unfold is_eligible_at. intros [H _]%andb_true_iff. by tidy. Qed.

(** Every change keeps the invariant: no command can leave an organization without an active
    owner, with a repeated identity or beyond its bounds, or in a state whose version the
    persisted form would be refused for. *)
Lemma change_ok now o o1 v : organization_ok o -> change now o o1 -> v = o_version o + 1 -> v <= u64_max ->
  organization_ok (o1 <| o_version := v |>).
Proof.
  intros Hok Hch Hv Hle. pose proof Hok as [Hid Hb1 Hb2 Hnt Hni Hnu Hms Hf Hg _].
  destruct Hch as [st Hst|m Hc Hi Hu Hor Hst Hte Hex|i m m' Hi Hmove|t Hc Ht|i j m n Hi Hj Hm Hma Hn Hel].
  - split; try done. by apply state_history.
  - split; try done.
    + cbn. unfold len in *. rewrite length_app. cbn. unfold MAX_MEMBERSHIPS in *. lia.
    + cbn. rewrite fmap_app. apply NoDup_app. split_and!; [done| |apply NoDup_singleton]. set_solver.
    + cbn. rewrite fmap_app. apply NoDup_app. split_and!; [done| |apply NoDup_singleton]. set_solver.
    + cbn. apply Forall_app. split; [done|]. apply Forall_singleton. split; rewrite ?Hte; try done; [|constructor|set_solver].
      intros He. destruct (m_expires_at m) as [e|]; [|done]. by destruct (Hex e eq_refl).
    + destruct Hf as (f & rest & Heq & Hf & Hr). exists f, (rest ++ [m]). cbn. rewrite Heq. split_and!; [done..|].
      apply Forall_app. split; [done|]. by apply Forall_singleton.
    + by apply held_app.
    + by apply add_history.
  - destruct (move_keeps _ _ _ _ _ Hmove) as (Ki & Ku & Ko & Kk). split; try done; cbn [o_memberships o_teams set_field].
    + cbn. unfold len in *. by rewrite length_insert.
    + cbn. by rewrite (fmap_insert_same m_id _ i m m' Hi Ki).
    + cbn. by rewrite (fmap_insert_same m_user_id _ i m m' Hi Ku).
    + cbn. apply Forall_insert; [done|]. eapply move_ok; [done|]. by apply (proj1 (Forall_lookup _ _) Hms i).
    + by apply (first_is_founder_insert _ i m m' Hi Ko).
    + by apply (move_governed _ _ _ i m m' Hi Hmove).
    + by apply (move_history o v Hv Hle Hok i m Hi now).
  - split; try done.
    + cbn. unfold len in *. rewrite length_app. cbn. unfold MAX_TEAMS in *. lia.
    + cbn. rewrite fmap_app. apply NoDup_app. split_and!; [done| |apply NoDup_singleton]. set_solver.
    + cbn. eapply Forall_impl; [exact Hms|]. intros m. apply membership_ok_teams. intros x. rewrite fmap_app, elem_of_app. auto.
    + by apply team_history.
  - pose proof (eligible_active n now Hel) as Hna. assert (i <> j) as Hij by (intros ->; congruence).
    pose proof (transfer_middle o i j m n Hi Hj Hm Hn) as Hj'.
    pose proof (proj1 (Forall_lookup _ _) Hms i m Hi) as Hmok. pose proof (proj1 (Forall_lookup _ _) Hms j n Hj) as Hnok.
    split; try done.
    + cbn. unfold len in *. by rewrite !length_insert.
    + cbn. by rewrite (fmap_insert_same m_id _ j n _ Hj'), (fmap_insert_same m_id _ i m _ Hi).
    + cbn. by rewrite (fmap_insert_same m_user_id _ j n _ Hj'), (fmap_insert_same m_user_id _ i m _ Hi).
    + cbn. apply Forall_insert; [apply Forall_insert; [done|]|].
      * destruct Hmok as [He ? ? ? ?]. split; try done. cbn. intros Hx. destruct (He Hx). congruence.
      * by destruct Hnok as [? ? ? ? ?]; split.
    + apply (first_is_founder_insert _ j n _ Hj'); [done|]. by apply (first_is_founder_insert _ i m _ Hi).
    + eexists. split; [eapply list_elem_of_lookup_2, (transfer_right o i j m n Hj)|]. apply active_owner_true. by split.
    + by apply (transfer_history o v Hv Hle Hok i j m n).
Qed.

(** *** Commands make changes *)

(** The transition [t] is the change of [o] at the instant of [audit] with the event [kind]. *)
Definition evolves (o : Organization) (audit : AuditContext) (kind : OrganizationEventKind) (t : OrganizationTransition) : Prop :=
  exists o1, change (audit_occurred_at audit) o o1 /\ o_version o + 1 <= u64_max /\
    t = mk_OrganizationTransition (Some (snapshot_state o)) (o1 <| o_version := o_version o + 1 |>)
      (mk_OrganizationEvent (o_tenant_id o) (o_id o) (audit_actor audit) (audit_occurred_at audit) (o_version o + 1) kind).

Lemma organization_version_next v w : version_next v = Ok w <-> w = v + 1 /\ v + 1 <= u64_max.
Proof. unfold version_next. by rewrite ok_or_Ok, checked_add_Some. Qed.
Lemma finish_evolves o o1 audit kind t : change (audit_occurred_at audit) o o1 ->
  finish_evolution o o1 audit kind = Ok t -> evolves o audit kind t.
Proof. intros Hch (v & [-> Hv]%organization_version_next & [= <-])%result_bind_Ok. by exists o1. Qed.
Lemma membership_index_Ok o id i : membership_index o id = Ok i ->
  exists m, o_memberships o !! i = Some m /\ m_id m = id.
Proof.
  unfold membership_index. intros H%ok_or_Ok. destruct (list_find _ _) as [[k m]|] eqn:Hf; [|done]. injection H as <-.
  apply list_find_Some in Hf as (? & ? & _). by exists m.
Qed.
Lemma membership_at_run o i m : o_memberships o !! i = Some m -> membership_at o i = Ok m.
Proof. intros H. unfold membership_at. by rewrite H. Qed.
Lemma membership_at_mut_run o i f m : o_memberships o !! i = Some m ->
  membership_at_mut o i f = Ok (o <| o_memberships := <[i := f m]> (o_memberships o) |>).
Proof. intros H. unfold membership_at_mut. by rewrite (membership_at_run o i m H). Qed.
Lemma existsb_absent {A K} `{EqDecision K} (key : A -> K) l k : existsb (fun x => bool_decide (key x = k)) l = false <-> k ∉ key <$> l.
Proof.
  rewrite <- not_true_iff_false, existsb_exists, list_elem_of_fmap. setoid_rewrite <- list_elem_of_In. setoid_rewrite bool_decide_eq_true.
  naive_solver.
Qed.
Lemma active_owner_count_eq o : active_owner_count o = count active_owner (o_memberships o).
Proof. apply count_filter. Qed.

Lemma change_state_evolves o audit st t : change_state o audit st = Ok t -> evolves o audit (StateChanged st) t.
Proof.
  unfold change_state. intros [H%reject_if_Ok Hf]%bind_Ok. tidy. eapply finish_evolves; [|exact Hf]. by constructor.
Qed.
Lemma add_evolves o audit input t : add_membership o audit input = Ok t ->
  evolves o audit (MembershipAdded (n_membership_id input) (n_user_id input) (n_kind input) (n_origin input) (n_expires_at input)) t /\
  validate_membership_creation_facts (n_kind input) (n_origin input) (n_expires_at input) (audit_occurred_at audit) = Ok tt.
Proof.
  unfold add_membership, validate_new_membership, ensure_membership_capacity, ensure_membership_identity_available.
  rewrite !bind_Ok, !reject_if_Ok. intros ((Hc & Hd & Hfacts) & Hf). cbv zeta in Hf. split; [|done]. tidy.
  eapply finish_evolves; [|exact Hf]. unfold validate_membership_creation_facts in Hfacts.
  rewrite !bind_Ok, !reject_if_Ok in Hfacts. destruct Hfacts as (Ho & He & Hx). constructor; cbn; try done.
  - by apply existsb_absent.
  - by apply existsb_absent.
  - by tidy.
  - intros e Hexp. rewrite Hexp in *. cbn in Hx. apply Z.leb_gt in Hx. split; [|done].
    apply andb_false_iff in He as [He|He]; tidy; [by destruct (n_kind input)|by destruct He].
Qed.
Lemma guard_Ok o i m : o_memberships o !! i = Some m -> protect_last_active_owner o i = Ok tt ->
  active_owner m = true -> count active_owner (o_memberships o) <> 1.
Proof.
  intros Hi. unfold protect_last_active_owner. rewrite (membership_at_run o i m Hi). cbn. rewrite reject_if_Ok, active_owner_count_eq.
  fold (active_owner m). intros H Ha. rewrite Ha in H. cbn in H. by tidy.
Qed.
Lemma suspend_evolves o audit id t : suspend_membership o audit id = Ok t ->
  exists m, m ∈ o_memberships o /\ evolves o audit (MembershipSuspended id (len (m_team_ids m))) t.
Proof.
  unfold suspend_membership. intros (i & (m & Hi & _)%membership_index_Ok & H)%result_bind_Ok.
  rewrite !bind_Ok in H. destruct H as (Hs & Hg & H). unfold require_membership_state in Hs. rewrite (membership_at_run o i m Hi) in Hs.
  cbn in Hs. apply reject_if_Ok in Hs. tidy. unfold change_state_and_clear_teams in H.
  rewrite (membership_at_run o i m Hi) in H. cbn [result_bind mbind] in H. rewrite (membership_at_mut_run o i _ m Hi) in H. cbn [result_bind mbind fst snd mret result_ret] in H.
  exists m. split; [by eapply list_elem_of_lookup_2|]. eapply finish_evolves; [|exact H].
  apply change_member with (m := m); [done|]. constructor; [done|]. intros Hk. eapply guard_Ok; [done..|]. by apply active_owner_true.
Qed.
Lemma activate_evolves o audit id t : activate_membership o audit id = Ok t -> evolves o audit (MembershipActivated id) t.
Proof.
  unfold activate_membership. intros (i & (m & Hi & _)%membership_index_Ok & H)%result_bind_Ok.
  apply bind_Ok in H as [Hs H]. unfold require_membership_state in Hs. rewrite (membership_at_run o i m Hi) in Hs, H.
  cbn in Hs. apply reject_if_Ok in Hs. tidy. cbn [result_bind mbind] in H. apply bind_Ok in H as [He%reject_if_Ok H].
  unfold set_membership_state in H. rewrite (membership_at_mut_run o i _ m Hi) in H. cbn [result_bind mbind] in H.
  eapply finish_evolves; [|exact H]. apply change_member with (m := m); [done|]. constructor; [done|].
  intros e Hexp. rewrite Hexp in He. cbn in He. by apply Z.leb_gt in He.
Qed.
Lemma leave_evolves o audit id t : leave_membership o audit id = Ok t ->
  exists m, m ∈ o_memberships o /\ evolves o audit (MembershipLeft id (len (m_team_ids m))) t.
Proof.
  unfold leave_membership. intros (i & (m & Hi & _)%membership_index_Ok & H)%result_bind_Ok.
  rewrite !bind_Ok in H. destruct H as (Hs & Hg & H). unfold reject_left_membership in Hs. rewrite (membership_at_run o i m Hi) in Hs.
  cbn in Hs. apply reject_if_Ok in Hs. tidy. unfold change_state_and_clear_teams in H.
  rewrite (membership_at_run o i m Hi) in H. cbn [result_bind mbind] in H. rewrite (membership_at_mut_run o i _ m Hi) in H. cbn [result_bind mbind fst snd mret result_ret] in H.
  exists m. split; [by eapply list_elem_of_lookup_2|]. eapply finish_evolves; [|exact H].
  apply change_member with (m := m); [done|]. constructor; [done|]. by apply guard_Ok with (i := i).
Qed.
Lemma create_team_evolves o audit id t : create_team o audit id = Ok t -> evolves o audit (TeamCreated id) t.
Proof.
  unfold create_team. rewrite !bind_Ok, !reject_if_Ok. intros (Hc & Hd & Hf). tidy. eapply finish_evolves; [|exact Hf].
  constructor; [done|]. by apply existsb_absent.
Qed.
Lemma assign_evolves o audit id team_id t : assign_team o audit id team_id = Ok t -> evolves o audit (TeamAssigned id team_id) t.
Proof.
  unfold assign_team, ensure_team_exists. destruct (existsb _ _) eqn:Hex; [|done]. cbn [result_bind mbind].
  intros (i & (m & Hi & _)%membership_index_Ok & H)%result_bind_Ok.
  rewrite (membership_at_run o i m Hi) in H. cbn [result_bind mbind] in H. apply bind_Ok in H as [He H].
  rewrite (membership_at_mut_run o i _ m Hi) in H. cbn [result_bind mbind] in H. eapply finish_evolves; [|exact H].
  unfold ensure_team_assignment_eligible in He. rewrite !bind_Ok, !reject_if_Ok in He. destruct He as (He & Hn & Hc). tidy.
  apply change_member with (m := m); [done|]. constructor; [done| | |done].
  - destruct (decide (team_id ∈ t_id <$> o_teams o)) as [|Hni]; [done|]. apply existsb_absent in Hni. congruence.
  - rewrite <- (list_fmap_id (m_team_ids m)). by apply (existsb_absent (fun x => x)).
Qed.

Lemma swap_run o audit i j m n kind t : o_memberships o !! i = Some m -> o_memberships o !! j = Some n -> i <> j ->
  (next ← demote_owner o i; next ← promote_recipient next j; finish_evolution o next audit kind) = Ok t ->
  m_kind m = Owner -> m_state m = Active -> m_kind n = Member -> is_eligible_at n (audit_occurred_at audit) = true ->
  evolves o audit kind t.
Proof.
  intros Hi Hj Hij H Hm Hma Hn Hel. unfold demote_owner, promote_recipient in H.
  rewrite (membership_at_mut_run o i _ m Hi) in H. cbn [result_bind mbind] in H.
  erewrite membership_at_mut_run in H; [|cbn; rewrite list_lookup_insert_ne by done; exact Hj]. cbn [result_bind mbind] in H.
  eapply finish_evolves; [|exact H]. by apply (change_owner _ o i j m n).
Qed.

(** What the evidence of an accepted transfer established. *)
Record transfer_authorized (o : Organization) (audit : AuditContext) (e : OwnershipTransferEvidence) (m n : Membership) : Prop := {
  evidence_bound : evidence_tenant_id e = o_tenant_id o /\ evidence_organization_id e = o_id o /\ evidence_organization_version e = o_version o;
  actor_initiates : audit_actor audit = principal_id (principal (initiating_user e));
  approver_distinct : approver e <> audit_actor audit;
  in_window : (not_before e <= audit_occurred_at audit <= expires_at e)%Z;
  recipient_fresh : (0 <= audit_occurred_at audit - authenticated_at (recipient_reauthentication e) <= MAX_REAUTHENTICATION_AGE_SECONDS)%Z;
  initiator_owns : m_id m = initiating_owner_id e /\ m_kind m = Owner /\ m_state m = Active /\ m_user_id m = bound_user_id (initiating_user e);
  recipient_belongs : m_id n = recipient_id e /\ m_kind n = Member /\ is_eligible_at n (audit_occurred_at audit) = true /\
    m_user_id n = bound_user_id (authenticated_user (recipient_reauthentication e));
}.
Lemma index_for_transfer_Ok o id i : membership_index_for_transfer o id = Ok i <-> membership_index o id = Ok i.
Proof. unfold membership_index_for_transfer. by destruct (membership_index o id). Qed.
Lemma transfer_Ok o audit e t : transfer_ownership o audit e = Ok t ->
  exists i j m n, membership_index o (initiating_owner_id e) = Ok i /\ membership_index o (recipient_id e) = Ok j /\
    o_memberships o !! i = Some m /\ o_memberships o !! j = Some n /\ transfer_authorized o audit e m n /\
    (next ← demote_owner o i; next ← promote_recipient next j; finish_evolution o next audit
      (OwnershipTransferred (transfer_id e) (initiating_owner_id e) (recipient_id e) (approver e))) = Ok t.
Proof.
  unfold transfer_ownership, validate_transfer_binding, validate_transfer_timing, validate_transfer_actors, validate_transfer_window,
    validate_reauthentication_freshness.
  rewrite !bind_Ok, !reject_if_Ok. intros (Hb & ((Ha1 & Ha2) & (Hw1 & Hw2) & Hf) & H).
  apply result_bind_Ok in H as (i & Hi%index_for_transfer_Ok & H). apply result_bind_Ok in H as (j & Hj%index_for_transfer_Ok & H).
  destruct (membership_index_Ok o _ i Hi) as (m & Hmi & Hmid). destruct (membership_index_Ok o _ j Hj) as (n & Hnj & Hnid).
  apply bind_Ok in H as [Hv H]. unfold validate_transfer_members, validate_initiating_transfer_member, validate_recipient_transfer_member in Hv.
  rewrite (membership_at_run o i m Hmi), (membership_at_run o j n Hnj) in Hv. cbn [result_bind mbind] in Hv.
  apply bind_Ok in Hv as [Hv1%reject_if_Ok Hv2%reject_if_Ok]. exists i, j, m, n. split_and!; try done.
  tidy. apply Z.ltb_ge in Hw1, Hw2. revert Hf. cbv zeta. unfold i64_checked_sub. destruct (_ && _); cbn; [|done]. intros Hf. tidy.
  split; try done.
  - congruence.
  - rewrite Z.leb_le in *. lia.
Qed.
Lemma transfer_evolves o audit e t : transfer_ownership o audit e = Ok t ->
  evolves o audit (OwnershipTransferred (transfer_id e) (initiating_owner_id e) (recipient_id e) (approver e)) t.
Proof.
  intros (i & j & m & n & _ & _ & Hi & Hj & Hauth & H)%transfer_Ok.
  destruct Hauth as [_ _ _ _ _ (_ & Hm & Hma & _) (_ & Hn & Hel & _)]. apply (swap_run o audit i j m n); try done. intros ->. congruence.
Qed.

Definition replay_kind (o : Organization) (audit : AuditContext) (kind : OrganizationEventKind) : outcome OrganizationTransition :=
  replayed ← replay_membership_event o audit kind;
  match replayed with Some t => Ok t | None => replay_other_event o audit kind end.
Lemma replay_run o audit kind t : evolves o audit kind t -> replay_kind o audit kind = Ok t -> replay_persisted_transition o (event t) = Ok t.
Proof.
  intros (o1 & _ & Hv & ->) Hr. unfold replay_persisted_transition, validate_replay_binding. cbn [event ev_tenant_id ev_organization_id ev_version ev_actor ev_occurred_at ev_kind].
  rewrite (proj2 (organization_version_next _ _) (conj eq_refl Hv)). cbn [result_bind mbind].
  rewrite !bool_decide_true, N.eqb_refl by done. cbn [result_bind mbind reject_if negb andb].
  replace (mk_AuditContext (audit_actor audit) (audit_occurred_at audit)) with audit by (by destruct audit).
  unfold replay_kind in Hr. apply result_bind_Ok in Hr as (r & Hr1 & Hr2). rewrite Hr1. cbn [result_bind mbind]. rewrite Hr2. cbn [result_bind mbind].
  unfold require_exact_replay_transition. rewrite bool_decide_false; [done|]. cbn. by intros [].
Qed.
Lemma transfer_replays o audit e t : transfer_ownership o audit e = Ok t ->
  replay_kind o audit (OwnershipTransferred (transfer_id e) (initiating_owner_id e) (recipient_id e) (approver e)) = Ok t.
Proof.
  intros (i & j & m & n & Hi & Hj & Hmi & Hnj & Hauth & H)%transfer_Ok. unfold replay_kind. cbn.
  unfold replay_ownership_transfer. rewrite Hi, Hj. cbn [result_bind mbind].
  unfold validate_replayed_owners, validate_distinct_owner_indexes, validate_replayed_owner_roles.
  rewrite (membership_at_run o i m Hmi), (membership_at_run o j n Hnj).
  destruct Hauth as [_ _ _ _ _ (_ & Hm & Hma & _) (_ & Hn & Hel & _)].
  rewrite bool_decide_false by (intros ->; congruence). cbn [result_bind mbind reject_if]. rewrite !bool_decide_true, Hel by done. exact H.
Qed.
Lemma dispatch_evolves o audit a t : dispatch o audit a = Ok t ->
  exists kind, evolves o audit kind t /\ replay_kind o audit kind = Ok t /\ is_creation kind = false.
Proof.
  destruct a as [st|[i u k or e|i|i|i]|[i|i j]|e]; cbn [dispatch apply_membership_action apply_team_action]; intros H.
  - eexists. split; [by apply change_state_evolves|done].
  - pose proof (proj1 (add_evolves _ _ _ _ H)) as He. eexists. split; [exact He|]. unfold replay_kind. cbn -[add_membership]. by rewrite H.
  - destruct (suspend_evolves _ _ _ _ H) as (m & _ & He). eexists. split; [exact He|]. unfold replay_kind. cbn -[suspend_membership]. by rewrite H.
  - pose proof (activate_evolves _ _ _ _ H) as He. eexists. split; [exact He|]. unfold replay_kind. cbn -[activate_membership]. by rewrite H.
  - destruct (leave_evolves _ _ _ _ H) as (m & _ & He). eexists. split; [exact He|]. unfold replay_kind. cbn -[leave_membership]. by rewrite H.
  - eexists. split; [by apply create_team_evolves|done].
  - eexists. split; [by apply assign_evolves|done].
  - eexists. split; [by apply transfer_evolves|]. split; [by apply transfer_replays|done].
Qed.

Lemma replay_evolves o audit kind t : replay_kind o audit kind = Ok t -> exists kind', evolves o audit kind' t.
Proof.
  unfold replay_kind. destruct kind as [i u|st|i u k or e|i r|i|i r|i|i j|x p n a]; cbn; intros H.
  - done.
  - eexists. by apply change_state_evolves.
  - destruct (add_membership _ _ _) as [t'|] eqn:Ha; [|done]. injection H as ->. eexists. by apply add_evolves.
  - destruct (suspend_membership _ _ _) as [t'|] eqn:Ha; [|done]. injection H as ->. apply suspend_evolves in Ha as (m & _ & He). by eexists.
  - destruct (activate_membership _ _ _) as [t'|] eqn:Ha; [|done]. injection H as ->. eexists. by apply activate_evolves.
  - destruct (leave_membership _ _ _) as [t'|] eqn:Ha; [|done]. injection H as ->. apply leave_evolves in Ha as (m & _ & He). by eexists.
  - eexists. by apply create_team_evolves.
  - eexists. by apply assign_evolves.
  - unfold replay_ownership_transfer in H. apply result_bind_Ok in H as (i & (m & Hi & _)%membership_index_Ok & H).
    apply result_bind_Ok in H as (j & (n' & Hj & _)%membership_index_Ok & H). apply bind_Ok in H as [Hv H].
    unfold validate_replayed_owners, validate_distinct_owner_indexes, validate_replayed_owner_roles in Hv.
    rewrite (membership_at_run o i m Hi), (membership_at_run o j n' Hj) in Hv. cbn [result_bind mbind] in Hv.
    rewrite bind_Ok, !reject_if_Ok in Hv. destruct Hv as [Hij Hv]. tidy. eexists. by apply (swap_run o audit i j m n' _ t).
Qed.
Lemma evolves_ok o audit kind t : organization_ok o -> evolves o audit kind t -> organization_ok (organization t).
Proof. intros Hok (o1 & Hch & Hv & ->). by eapply change_ok. Qed.
Lemma transition_evolves o c t : transition o c = Ok t ->
  expected_version c = o_version o /\ exists kind, evolves o (mk_AuditContext (actor c) (occurred_at c)) kind t /\
    replay_kind o (mk_AuditContext (actor c) (occurred_at c)) kind = Ok t /\ is_creation kind = false.
Proof.
  unfold transition, verify_expected_version. intros [Hv%reject_if_Ok H]%bind_Ok. tidy. split; [done|]. by apply dispatch_evolves in H.
Qed.
Lemma initial_ok c : is_empty (id_str (c_organization_id c)) = false -> is_empty (id_str (c_tenant_id c)) = false ->
  organization_ok (initial_organization c).
Proof.
  intros Hi Ht. split; try done; cbn.
  - constructor.
  - apply NoDup_singleton.
  - apply NoDup_singleton.
  - apply Forall_singleton. split; cbn; try done; first [constructor|set_solver].
  - by eexists _, [].
  - eexists. split; [by left|done].
Qed.
Lemma live_ok o : live o -> organization_ok o.
Proof.
  induction 1 as [c t Hi Ht Hc|o c t _ IH Ht|o e o' _ IH He|i t v s o Hv Ho].
  - apply bind_Ok in Hc as [_ [= <-]]. by apply initial_ok.
  - apply transition_evolves in Ht as (_ & kind & He & _). by eapply evolves_ok.
  - unfold replay_persisted_event in He. destruct (replay_persisted_transition o e) as [t|] eqn:Hr; [|done]. injection He as <-.
    unfold replay_persisted_transition in Hr. apply bind_Ok in Hr as [_ Hr].
    assert (replay_kind o (mk_AuditContext (ev_actor e) (ev_occurred_at e)) (ev_kind e) = Ok t) as Hk.
    { unfold replay_kind. apply result_bind_Ok in Hr as (r & -> & Hr). apply result_bind_Ok in Hr as (t' & Ht' & Hr). cbn [result_bind mbind].
      unfold require_exact_replay_transition in Hr. case_bool_decide; [done|]. by injection Hr as ->. }
    apply replay_evolves in Hk as [kind Hk]. by eapply evolves_ok.
  - by eapply loaded_ok.
Qed.
Lemma persisted_facts o c t : organization_ok o -> transition o c = Ok t ->
  match ev_kind (event t) with
  | MembershipAdded _ _ kind origin expires_at => validate_membership_creation_facts kind origin expires_at (ev_occurred_at (event t)) = Ok tt
  | MembershipSuspended _ removed | MembershipLeft _ removed => removed <= MAX_TEAM_ASSIGNMENTS
  | OwnershipTransferred _ p n a => p <> n /\ ev_actor (event t) <> a
  | _ => True
  end.
Proof.
  intros Hok [_ H]%bind_Ok. set (audit := mk_AuditContext (actor c) (occurred_at c)) in *.
  assert (forall m, m ∈ o_memberships o -> len (m_team_ids m) <= MAX_TEAM_ASSIGNMENTS) as Hb.
  { intros m Hm. by apply (assignments_bounded _ _ (proj1 (Forall_forall _ _) (memberships_ok o Hok) m Hm)). }
  destruct (action c) as [st|[i u k or e|i|i|i]|[i|i j]|e]; cbn [dispatch apply_membership_action apply_team_action] in H.
  - apply change_state_evolves in H as (? & _ & _ & ->). done.
  - apply add_evolves in H as [(? & _ & _ & ->) Hf]. exact Hf.
  - apply suspend_evolves in H as (m & Hm & ? & _ & _ & ->). by apply Hb.
  - apply activate_evolves in H as (? & _ & _ & ->). done.
  - apply leave_evolves in H as (m & Hm & ? & _ & _ & ->). by apply Hb.
  - apply create_team_evolves in H as (? & _ & _ & ->). done.
  - apply assign_evolves in H as (? & _ & _ & ->). done.
  - pose proof (transfer_evolves _ _ _ _ H) as (? & _ & _ & ->). apply transfer_Ok in H as (i & j & m & n & _ & _ & Hi & Hj & Hauth & _).
    destruct Hauth as [_ Ha Hap _ _ (Hmi & Hmo & _) (Hni & Hnm & _)]. cbn. split; [|by cbn in Hap; congruence].
    rewrite <- Hmi, <- Hni. intros Heq. assert (m = n); [|congruence].
    apply (NoDup_key_inj m_id (o_memberships o)); [by apply memberships_unique|by eapply list_elem_of_lookup_2..|done].
Qed.
Lemma evidence_lifetime input e : OwnershipTransferEvidence_new input = Ok e ->
  (0 < expires_at e - not_before e <= MAX_TRANSFER_LIFETIME_SECONDS)%Z.
Proof.
  intros [Hval [= <-]]%bind_Ok. unfold validate_transfer_evidence_input in Hval. cbv zeta in Hval.
  rewrite !bind_Ok, !reject_if_Ok in Hval. destruct Hval as (_ & _ & Hval). apply orb_false_iff in Hval as [_ Hval]. cbn.
  apply negb_false_iff in Hval. unfold valid_transfer_lifetime, i64_checked_sub in Hval. destruct ((_ <=? _)%Z && _)%bool in Hval; [|done].
  cbn in Hval. apply andb_true_iff in Hval as [H1%Z.ltb_lt H2%Z.leb_le]. by split.
Qed.

(** ** Properties *)

Lemma sample_is_live : live (organization sample_joined).
Proof. by apply (live_changed (organization sample_founded) sample_join); [apply (live_created sample_creation)|]. Qed.
Example sample_owner_moves : m_kind <$> o_memberships (organization sample_transferred) = [Member; Owner].
Proof. by vm_compute. Qed.

(** C20: whatever mixture of creation, commands, replayed events and loads an organization
    comes from, it satisfies the invariant (bounded collections, unique identities, one
    founder in front, an active owner, expiring memberships neither owners nor founders,
    assignments only to registered teams and only while active), and the snapshot that is
    persisted of it is accepted again and gives back the same organization: the version check
    of the reader never refuses a history the commands can write. *)
Theorem organization_rehydrates o (H : live o) :
  organization_ok o /\ from_snapshot (o_id o) (o_tenant_id o) (o_version o) (snapshot_state o) = Ok o.
Proof. pose proof (live_ok o H) as Hok. split; [done|]. by apply rehydrates. Qed.
Lemma organization_rehydrates_witness : from_snapshot (MkId "org") (MkId "tenant") 2 (snapshot_state (organization sample_joined))
  = Ok (organization sample_joined).
Proof. exact (proj2 (organization_rehydrates (organization sample_joined) sample_is_live)). Defined.

(** The event of an accepted command is a complete record of it.  It is of the next
    version, the persisted form of it is accepted, and replaying it on the organization the
    command was applied to, without the evidence the command needed, gives exactly the
    transition the command gave. *)
Theorem organization_replays o (H : live o) c t (Ht : transition o c = Ok t) :
  let e := event t in
  expected_version c = o_version o /\ o_version (organization t) = o_version o + 1 /\
  previous_snapshot t = Some (snapshot_state o) /\
  from_persisted (ev_tenant_id e) (ev_organization_id e) (ev_actor e) (ev_occurred_at e) (ev_version e) (ev_kind e) = Ok e /\
  replay_persisted_transition o e = Ok t /\ live (organization t).
Proof.
  pose proof (live_ok o H) as Hok. pose proof (persisted_facts o c t Hok Ht) as Hfacts.
  destruct (transition_evolves o c t Ht) as (Hv & kind & He & Hr & Hcr). pose proof (replay_run _ _ _ _ He Hr) as Hrep.
  assert (live (organization t)) as Hlive by (by eapply live_changed).
  destruct He as (o1 & _ & Hle & ->). cbn in *. split_and!; try done.
  unfold from_persisted, validate_persisted_event, validate_persisted_event_version. rewrite Hcr.
  assert (1 <= o_version o) as Hge by (destruct (history o Hok) as [[Hc _] _]; revert Hc; unfold version_cost; lia).
  rewrite (proj2 (N.eqb_neq _ _)) by (unfold version_initial; lia). cbn.
  destruct kind; try done; unfold validate_removed_assignment_count, validate_persisted_transfer.
  - by rewrite Hfacts.
  - by rewrite (proj2 (N.ltb_ge _ _)).
  - by rewrite (proj2 (N.ltb_ge _ _)).
  - destruct Hfacts as [Hne Hna]. by rewrite !bool_decide_false by done.
Qed.
Lemma organization_replays_witness :
  replay_persisted_transition (organization sample_joined) (event sample_transferred) = Ok sample_transferred.
Proof.
  refine (proj1 (proj2 (proj2 (proj2 (proj2 (organization_replays (organization sample_joined) sample_is_live sample_transfer
    sample_transferred _)))))).
  by vm_compute.
Defined.

(** C21: ownership moves only on fresh evidence for this very organization and version.
    An accepted transfer was asked for by the initiating owner in person, approved by someone
    else, inside the window of at most fifteen minutes and at most five minutes after the
    recipient authenticated again; it exchanges the two roles, clears the expiry of the new
    owner and changes nothing else; and the evidence is spent: no later version accepts it. *)
Theorem ownership_transfer_authorized o c t input e (Hok : live o) (Hnew : OwnershipTransferEvidence_new input = Ok e)
    (Ha : action c = TransferOwnership e) (Ht : transition o c = Ok t) :
  let audit := mk_AuditContext (actor c) (occurred_at c) in
  exists i j m n, o_memberships o !! i = Some m /\ o_memberships o !! j = Some n /\ transfer_authorized o audit e m n /\
    (0 < expires_at e - not_before e <= MAX_TRANSFER_LIFETIME_SECONDS)%Z /\
    organization t = o <| o_version := o_version o + 1 |> <| o_memberships :=
      <[j := n <| m_kind := Owner |> <| m_expires_at := None |>]> (<[i := m <| m_kind := Member |>]> (o_memberships o)) |> /\
    (forall o' c', o_version o' <> o_version o -> action c' = TransferOwnership e -> is_ok (transition o' c') = false).
Proof.
  pose proof Ht as [_ H]%bind_Ok. rewrite Ha in H. cbn [dispatch] in H.
  apply transfer_Ok in H as (i & j & m & n & _ & _ & Hi & Hj & Hauth & H). exists i, j, m, n.
  pose proof Hauth as [Hb _ _ _ _ Hm Hn]. split_and!; try done.
  - by destruct (evidence_lifetime _ _ Hnew).
  - by destruct (evidence_lifetime _ _ Hnew).
  - unfold demote_owner, promote_recipient in H. rewrite (membership_at_mut_run o i _ m Hi) in H. cbn [result_bind mbind] in H.
    assert (i <> j) as Hij by (intros ->; destruct Hm as (_ & Hm & _), Hn as (_ & Hn & _); congruence).
    erewrite membership_at_mut_run in H; [|cbn; rewrite list_lookup_insert_ne by done; exact Hj]. cbn [result_bind mbind] in H.
    apply result_bind_Ok in H as (v & [-> _]%organization_version_next & [= <-]). done.
  - intros o' c' Hne Ha'. unfold transition. destruct (verify_expected_version o' (expected_version c')); [|done]. rewrite Ha'.
    cbn [result_bind mbind dispatch]. unfold transfer_ownership, validate_transfer_binding.
    destruct Hb as (_ & _ & Hbv). rewrite (proj2 (N.eqb_neq _ _)) by congruence. by rewrite !orb_true_r.
Qed.
Lemma ownership_transfer_authorized_witness : exists i j m n,
  o_memberships (organization sample_joined) !! i = Some m /\ o_memberships (organization sample_joined) !! j = Some n /\
  transfer_authorized (organization sample_joined) (mk_AuditContext (MkId "p-alice") 300%Z) sample_evidence m n.
Proof.
  destruct (ownership_transfer_authorized (organization sample_joined) sample_transfer sample_transferred sample_evidence_input
    sample_evidence sample_is_live) as (i & j & m & n & Hi & Hj & Ha & _).
  - by vm_compute.
  - reflexivity.
  - by vm_compute.
  - by exists i, j, m, n.
Defined.
