(* ===== verification/Rbac.v ===== *)
(** * Role-based authorization

    Models [crates/optional/ariadnion-rbac/src]: [ids.rs], [error.rs], [model.rs],
    [model/snapshot.rs], [binding.rs], [evaluate.rs] and [transition.rs]: tenant-bound policies
    of roles and assignments, their publication, replacement and persisted form, and the
    evaluation of a request against a policy.  The repository port is a trait without an
    implementation in this crate. *)

From S2P Require Import Prelude CoreTypes.
From S2P Require UserDomain.
From S2P Require Organization.
#[local] Open Scope N_scope.
#[local] Open Scope record_scope.
#[local] Existing Instances Organization.OrganizationState_eq_dec Organization.MembershipState_eq_dec UserDomain.UserLifecycleState_eq_dec.

(** ** Errors and identities *)

Inductive AuthorizationErrorCode :=
| InvalidArgument | ResourceLimitExceeded | DuplicateIdentity | TenantMismatch | UnknownRole | VersionConflict | VersionExhausted.
Definition as_str (code : AuthorizationErrorCode) : string :=
  match code with
  | InvalidArgument => "RBAC_INVALID_ARGUMENT"
  | ResourceLimitExceeded => "RBAC_RESOURCE_LIMIT_EXCEEDED"
  | DuplicateIdentity => "RBAC_DUPLICATE_IDENTITY"
  | TenantMismatch => "RBAC_TENANT_MISMATCH"
  | UnknownRole => "RBAC_UNKNOWN_ROLE"
  | VersionConflict => "RBAC_VERSION_CONFLICT"
  | VersionExhausted => "RBAC_VERSION_EXHAUSTED"
  end.
Notation outcome := (result AuthorizationErrorCode).

Definition MAX_ID_BYTES : N := 128.
Definition valid_id (value : string) : bool :=
  negb (is_empty value) && (byte_len value <=? MAX_ID_BYTES) && is_ascii value && all_bytes is_id_byte value.
Definition parse {k} (value : string) : outcome (Id k) := if negb (valid_id value) then Err InvalidArgument else Ok (MkId value).
Definition AssignmentId := Id AssignmentKind.
Definition DecisionId := Id DecisionKind.
Definition PermissionId := Id PermissionKind.
Definition ResourceId := Id ResourceKind.
Definition ResourceKindId := Id ResourceKindKind.
Definition RoleId := Id RoleKind.
(** [PolicyVersion]: a non-zero 64-bit integer. *)
Definition version_initial : N := 1.
Definition version_new (value : N) : outcome N := if value =? 0 then Err InvalidArgument else Ok value.
Definition version_next (v : N) : outcome N := ok_or (checked_add u64_max v 1) VersionExhausted.

Notation UserId := UserDomain.UserId.
Notation UtcTimestamp := UserDomain.UtcTimestamp.
Notation OrganizationId := Organization.OrganizationId.
Notation MembershipId := Organization.MembershipId.
Notation TeamId := Organization.TeamId.

(** ** Policies ([model.rs]) *)

Definition MAX_ROLES : N := 256.
Definition MAX_RULES_PER_ROLE : N := 256.
Definition MAX_ASSIGNMENTS : N := 4096.

Inductive PermissionEffect := Allow | Deny.
#[export] Instance PermissionEffect_eq_dec : EqDecision PermissionEffect.
Proof. solve_decision. Defined.
Record PermissionRule := mk_PermissionRule { rule_permission_id : PermissionId; rule_effect : PermissionEffect }.
Record RoleDefinition := mk_RoleDefinition { role_id : RoleId; role_tenant_id : TenantId; rules : list PermissionRule }.
(** [iter().any(|x| !ids.insert(x.id()))]. *)
Definition any_duplicate {A K} `{EqDecision K} (key : A -> K) (l : list A) : bool := negb (all_fresh key [] l).
Definition validate_rules (rules : list PermissionRule) : outcome unit :=
  reject_if (len rules =? 0) InvalidArgument ;;
  reject_if (MAX_RULES_PER_ROLE <? len rules) ResourceLimitExceeded ;;
  reject_if (any_duplicate rule_permission_id rules) DuplicateIdentity.
Definition RoleDefinition_new (id : RoleId) (tenant_id : TenantId) (rules : list PermissionRule) : outcome RoleDefinition :=
  validate_rules rules ;;
  mret (mk_RoleDefinition id tenant_id rules).

Inductive AuthorizationScope :=
| TenantScope (tenant_id : TenantId)
| TenantResourceScope (tenant_id : TenantId) (resource_kind : ResourceKindId) (resource_id : ResourceId)
| OrganizationScope (tenant_id : TenantId) (organization_id : OrganizationId)
| ResourceScope (tenant_id : TenantId) (organization_id : OrganizationId) (parent_resource_id : option ResourceId)
    (resource_kind : ResourceKindId) (resource_id : ResourceId).
#[export] Instance AuthorizationScope_eq_dec : EqDecision AuthorizationScope.
Proof. solve_decision. Defined.
Definition scope_validate (s : AuthorizationScope) : outcome unit :=
  match s with
  | ResourceScope _ _ parent_resource_id _ resource_id => reject_if (bool_decide (parent_resource_id = Some resource_id)) InvalidArgument
  | _ => Ok tt
  end.
Definition scope_resource (tenant_id : TenantId) (organization_id : OrganizationId) (parent_resource_id : option ResourceId)
    (resource_kind : ResourceKindId) (resource_id : ResourceId) : outcome AuthorizationScope :=
  let scope := ResourceScope tenant_id organization_id parent_resource_id resource_kind resource_id in
  scope_validate scope ;;
  mret scope.
Definition scope_tenant_id (s : AuthorizationScope) : TenantId :=
  match s with TenantScope t | TenantResourceScope t _ _ | OrganizationScope t _ | ResourceScope t _ _ _ _ => t end.
Definition scope_organization_id (s : AuthorizationScope) : option OrganizationId :=
  match s with
  | TenantScope _ | TenantResourceScope _ _ _ => None
  | OrganizationScope _ o | ResourceScope _ o _ _ _ => Some o
  end.
Definition tenant_resource_contains (assigned_kind : ResourceKindId) (assigned_id : ResourceId) (requested : AuthorizationScope) : bool :=
  match requested with
  | TenantResourceScope _ resource_kind resource_id => bool_decide (assigned_kind = resource_kind) && bool_decide (assigned_id = resource_id)
  | _ => false
  end.
Definition resource_scope_contains (assigned requested : AuthorizationScope) : bool :=
  match assigned, requested with
  | ResourceScope _ organization_id _ resource_kind resource_id,
    ResourceScope _ requested_organization parent_resource_id requested_kind requested_id =>
      bool_decide (organization_id = requested_organization) && bool_decide (resource_kind = requested_kind)
      && (bool_decide (resource_id = requested_id) || bool_decide (parent_resource_id = Some resource_id))
  | _, _ => false
  end.
Definition contains (self requested : AuthorizationScope) : bool :=
  if bool_decide (scope_tenant_id self <> scope_tenant_id requested) then false
  else
    match self with
    | TenantScope _ => true
    | TenantResourceScope _ resource_kind resource_id => tenant_resource_contains resource_kind resource_id requested
    | OrganizationScope _ organization_id => bool_decide (scope_organization_id requested = Some organization_id)
    | ResourceScope _ _ _ _ _ => resource_scope_contains self requested
    end.

(** ** Assignments and subjects ([binding.rs]) *)

Definition MAX_TEAM_IDS : N := 256.
Record RoleAssignment := mk_RoleAssignment {
  a_id : AssignmentId; a_principal_id : PrincipalId; a_membership_id : MembershipId; a_role_id : RoleId;
  a_scope : AuthorizationScope; a_expires_at : option UtcTimestamp;
}.
Definition assignment_is_active_at (a : RoleAssignment) (now : UtcTimestamp) : bool :=
  is_none_or (fun expires_at => (now <? expires_at)%Z) (a_expires_at a).
Record MembershipAuthorizationIdentity := mk_MembershipAuthorizationIdentity {
  mi_tenant_id : TenantId; mi_organization_id : OrganizationId; mi_membership_id : MembershipId; mi_user_id : UserId;
}.
Record MembershipAuthorizationContext := mk_MembershipAuthorizationContext {
  mc_identity : MembershipAuthorizationIdentity; organization_state : Organization.OrganizationState;
  membership_state : Organization.MembershipState; mc_expires_at : option UtcTimestamp; team_ids : list TeamId;
}.
Definition validate_team_ids (team_ids : list TeamId) : outcome unit :=
  reject_if (MAX_TEAM_IDS <? len team_ids) ResourceLimitExceeded ;;
  reject_if (any_duplicate (fun id => id) team_ids) DuplicateIdentity.
Definition MembershipAuthorizationContext_new (identity : MembershipAuthorizationIdentity)
    (organization_state : Organization.OrganizationState) (membership_state : Organization.MembershipState)
    (expires_at : option UtcTimestamp) (team_ids : list TeamId) : outcome MembershipAuthorizationContext :=
  validate_team_ids team_ids ;;
  mret (mk_MembershipAuthorizationContext identity organization_state membership_state expires_at team_ids).
Definition membership_is_active_at (m : MembershipAuthorizationContext) (now : UtcTimestamp) : bool :=
  bool_decide (membership_state m = Organization.Active) && is_none_or (fun expires_at => (now <? expires_at)%Z) (mc_expires_at m).
Record AuthorizationSubject := mk_AuthorizationSubject {
  subject_principal : PrincipalContext; subject_user_id : UserId; user_state : UserDomain.UserLifecycleState;
  subject_membership : option MembershipAuthorizationContext;
}.

(** ** Requests and decisions ([model.rs]) *)

Inductive ResourceState := ResourceActive | ResourceRestricted | ResourceUnavailable | ResourceDeleted.
Inductive AuthorizationIntent := Access | Recovery.
Record AuthorizationTarget := mk_AuthorizationTarget {
  target_permission_id : PermissionId; target_scope : AuthorizationScope; target_resource_state : ResourceState; target_intent : AuthorizationIntent;
}.
Definition AuthorizationTarget_new (permission_id : PermissionId) (scope : AuthorizationScope) (resource_state : ResourceState) : AuthorizationTarget :=
  mk_AuthorizationTarget permission_id scope resource_state Access.
Definition for_recovery (permission_id : PermissionId) (scope : AuthorizationScope) : AuthorizationTarget :=
  mk_AuthorizationTarget permission_id scope ResourceRestricted Recovery.
Record AuthorizationRequest := mk_AuthorizationRequest {
  decision_id : DecisionId; request_policy_version : N; subject : AuthorizationSubject; target : AuthorizationTarget; now : UtcTimestamp;
}.
Record AuthorizationPolicy := mk_AuthorizationPolicy {
  p_version : N; p_tenant_id : TenantId; p_roles : list RoleDefinition; p_assignments : list RoleAssignment;
}.
Definition validate_policy_limits (roles : list RoleDefinition) (assignments : list RoleAssignment) : outcome unit :=
  reject_if ((MAX_ROLES <? len roles) || (MAX_ASSIGNMENTS <? len assignments)) ResourceLimitExceeded.
Definition validate_unique_policy_ids (roles : list RoleDefinition) (assignments : list RoleAssignment) : outcome unit :=
  reject_if (any_duplicate role_id roles) DuplicateIdentity ;;
  reject_if (any_duplicate a_id assignments) DuplicateIdentity.
Definition validate_policy_tenant (tenant_id : TenantId) (roles : list RoleDefinition) (assignments : list RoleAssignment) : outcome unit :=
  reject_if (existsb (fun r => bool_decide (role_tenant_id r <> tenant_id)) roles) TenantMismatch ;;
  reject_if (existsb (fun a => bool_decide (scope_tenant_id (a_scope a) <> tenant_id)) assignments) TenantMismatch.
Definition validate_assignments (roles : list RoleDefinition) (assignments : list RoleAssignment) : outcome unit :=
  reject_if (existsb (fun a => negb (existsb (fun r => bool_decide (role_id r = a_role_id a)) roles)) assignments) UnknownRole.
Definition AuthorizationPolicy_new (tenant_id : TenantId) (version : N) (roles : list RoleDefinition) (assignments : list RoleAssignment)
    : outcome AuthorizationPolicy :=
  validate_policy_limits roles assignments ;;
  validate_unique_policy_ids roles assignments ;;
  validate_policy_tenant tenant_id roles assignments ;;
  validate_assignments roles assignments ;;
  mret (mk_AuthorizationPolicy version tenant_id roles assignments).
Definition role (p : AuthorizationPolicy) (id : RoleId) : option RoleDefinition := snd <$> list_find (fun r => role_id r = id) (p_roles p).

Inductive AuthorizationDecisionReason :=
| ExplicitDeny | ExplicitAllow | NoAllow | PolicyVersionMismatch | TenantMismatchReason | UserInactive | OrganizationFrozen
| MembershipInactive | ResourceInactive.
Record MatchedRoleSummary := mk_MatchedRoleSummary { matched_role_id : RoleId; matched_effect : PermissionEffect }.
Record AuthorizationDecisionBinding := mk_AuthorizationDecisionBinding {
  bound_decision_id : DecisionId; bound_policy_version : N; bound_tenant_id : TenantId; bound_principal_id : PrincipalId;
  bound_target : AuthorizationTarget; evaluated_at : UtcTimestamp;
}.
Record AuthorizationDecision := mk_AuthorizationDecision {
  binding : AuthorizationDecisionBinding; reason : AuthorizationDecisionReason; matched_roles : list MatchedRoleSummary;
}.
Definition AuthorizationDecision_new (request : AuthorizationRequest) (policy_version : N) (reason : AuthorizationDecisionReason)
    (matched_roles : list MatchedRoleSummary) : AuthorizationDecision :=
  let principal := subject_principal (subject request) in
  mk_AuthorizationDecision
    (mk_AuthorizationDecisionBinding (decision_id request) policy_version (principal_tenant_id principal) (principal_id principal)
      (target request) (now request)) reason matched_roles.
Definition allowed (d : AuthorizationDecision) : bool := match reason d with ExplicitAllow => true | _ => false end.

(** ** Evaluation ([evaluate.rs]) *)

Definition tenant_mismatch (policy : AuthorizationPolicy) (request : AuthorizationRequest) : bool :=
  let principal_tenant := principal_tenant_id (subject_principal (subject request)) in
  bool_decide (p_tenant_id policy <> principal_tenant)
  || bool_decide (scope_tenant_id (target_scope (target request)) <> principal_tenant)
  || is_some_and (fun m => bool_decide (mi_tenant_id (mc_identity m) <> principal_tenant)) (subject_membership (subject request)).
Definition membership_user_mismatch (request : AuthorizationRequest) : bool :=
  is_some_and (fun m => bool_decide (mi_user_id (mc_identity m) <> subject_user_id (subject request))) (subject_membership (subject request)).
Definition membership_state_failure (m : MembershipAuthorizationContext) (organization_id : OrganizationId) (now : UtcTimestamp)
    : option AuthorizationDecisionReason :=
  match bool_decide (mi_organization_id (mc_identity m) = organization_id), organization_state m, membership_is_active_at m now with
  | false, _, _ => Some MembershipInactive
  | true, Organization.OrganizationFrozen, _ => Some OrganizationFrozen
  | true, Organization.OrganizationActive, true => None
  | true, Organization.OrganizationActive, false => Some MembershipInactive
  end.
Definition membership_context_failure (request : AuthorizationRequest) (organization_id : OrganizationId) : option AuthorizationDecisionReason :=
  match subject_membership (subject request) with
  | Some m => membership_state_failure m organization_id (now request)
  | None => Some MembershipInactive
  end.
Definition membership_failure (request : AuthorizationRequest) : option AuthorizationDecisionReason :=
  if membership_user_mismatch request then Some MembershipInactive
  else
    match scope_organization_id (target_scope (target request)) with
    | Some organization_id => membership_context_failure request organization_id
    | None => None
    end.
Definition resource_failure (request : AuthorizationRequest) : option AuthorizationDecisionReason :=
  match target_intent (target request), target_resource_state (target request) with
  | Access, ResourceActive | Recovery, ResourceRestricted => None
  | _, _ => Some ResourceInactive
  end.
Definition precondition_failure (policy : AuthorizationPolicy) (request : AuthorizationRequest) : option AuthorizationDecisionReason :=
  if negb (request_policy_version request =? p_version policy) then Some PolicyVersionMismatch
  else if tenant_mismatch policy request then Some TenantMismatchReason
  else if bool_decide (user_state (subject request) <> UserDomain.LifecycleActive) then Some UserInactive
  else
    match membership_failure request with
    | Some failure => Some failure
    | None => resource_failure request
    end.
Definition active_membership_matches (a : RoleAssignment) (request : AuthorizationRequest) : bool :=
  is_some_and (fun m =>
    bool_decide (a_membership_id a = mi_membership_id (mc_identity m))
    && bool_decide (subject_user_id (subject request) = mi_user_id (mc_identity m))
    && bool_decide (organization_state m = Organization.OrganizationActive)
    && membership_is_active_at m (now request)) (subject_membership (subject request)).
Definition assignment_matches (request : AuthorizationRequest) (a : RoleAssignment) : bool :=
  bool_decide (a_principal_id a = principal_id (subject_principal (subject request)))
  && assignment_is_active_at a (now request)
  && contains (a_scope a) (target_scope (target request))
  && active_membership_matches a request.
Definition matching_role (policy : AuthorizationPolicy) (request : AuthorizationRequest) (a : RoleAssignment) : option MatchedRoleSummary :=
  r ← role policy (a_role_id a);
  rule ← snd <$> list_find (fun rule => rule_permission_id rule = target_permission_id (target request)) (rules r);
  mret (mk_MatchedRoleSummary (role_id r) (rule_effect rule)).
Definition matching_roles (policy : AuthorizationPolicy) (request : AuthorizationRequest) : list MatchedRoleSummary :=
  omap (matching_role policy request) (List.filter (assignment_matches request) (p_assignments policy)).
Definition permission_reason (matched : list MatchedRoleSummary) : AuthorizationDecisionReason :=
  if existsb (fun m => bool_decide (matched_effect m = Deny)) matched then ExplicitDeny
  else if existsb (fun m => bool_decide (matched_effect m = Allow)) matched then ExplicitAllow
  else NoAllow.
Definition decision (policy : AuthorizationPolicy) (request : AuthorizationRequest) (reason : AuthorizationDecisionReason)
    (matched : list MatchedRoleSummary) : AuthorizationDecision :=
  AuthorizationDecision_new request (p_version policy) reason matched.
Definition evaluate (policy : AuthorizationPolicy) (request : AuthorizationRequest) : AuthorizationDecision :=
  match precondition_failure policy request with
  | Some reason => decision policy request reason []
  | None =>
      let matched := matching_roles policy request in
      decision policy request (permission_reason matched) matched
  end.

(** ** Persisted policies ([model/snapshot.rs]) *)

Record RoleDefinitionSnapshot := mk_RoleDefinitionSnapshot { rs_id : RoleId; rs_tenant_id : TenantId; rs_rules : list PermissionRule }.
Record RoleAssignmentSnapshot := mk_RoleAssignmentSnapshot {
  as_id : AssignmentId; as_principal_id : PrincipalId; as_membership_id : MembershipId; as_role_id : RoleId;
  as_scope : AuthorizationScope; as_expires_at : option UtcTimestamp;
}.
Record AuthorizationPolicySnapshot := mk_AuthorizationPolicySnapshot {
  ps_tenant_id : TenantId; ps_version : N; ps_roles : list RoleDefinitionSnapshot; ps_assignments : list RoleAssignmentSnapshot;
}.
Definition from_role (r : RoleDefinition) : RoleDefinitionSnapshot := mk_RoleDefinitionSnapshot (role_id r) (role_tenant_id r) (rules r).
Definition into_role (s : RoleDefinitionSnapshot) : outcome RoleDefinition := RoleDefinition_new (rs_id s) (rs_tenant_id s) (rs_rules s).
Definition from_assignment (a : RoleAssignment) : RoleAssignmentSnapshot :=
  mk_RoleAssignmentSnapshot (a_id a) (a_principal_id a) (a_membership_id a) (a_role_id a) (a_scope a) (a_expires_at a).
Definition into_assignment (s : RoleAssignmentSnapshot) : outcome RoleAssignment :=
  scope_validate (as_scope s) ;;
  mret (mk_RoleAssignment (as_id s) (as_principal_id s) (as_membership_id s) (as_role_id s) (as_scope s) (as_expires_at s)).
Definition validate_snapshot_limits (s : AuthorizationPolicySnapshot) : outcome unit :=
  reject_if ((MAX_ROLES <? len (ps_roles s)) || (MAX_ASSIGNMENTS <? len (ps_assignments s))) ResourceLimitExceeded.
Definition from_snapshot (s : AuthorizationPolicySnapshot) : outcome AuthorizationPolicy :=
  validate_snapshot_limits s ;;
  roles ← collect into_role (ps_roles s);
  assignments ← collect into_assignment (ps_assignments s);
  AuthorizationPolicy_new (ps_tenant_id s) (ps_version s) roles assignments.
Definition snapshot (p : AuthorizationPolicy) : AuthorizationPolicySnapshot :=
  mk_AuthorizationPolicySnapshot (p_tenant_id p) (p_version p) (from_role <$> p_roles p) (from_assignment <$> p_assignments p).

(** ** Publication and replacement ([transition.rs]) *)

Record AuthorizationPolicyChange := mk_AuthorizationPolicyChange {
  ch_tenant_id : TenantId; ch_expected_version : N; ch_roles : list RoleDefinition; ch_assignments : list RoleAssignment;
  ch_actor : PrincipalId; ch_occurred_at : UtcTimestamp;
}.
Inductive AuthorizationPolicyEventKind := Published | Replaced.
Record AuthorizationPolicyEvent := mk_AuthorizationPolicyEvent {
  ev_tenant_id : TenantId; ev_actor : PrincipalId; ev_occurred_at : UtcTimestamp; ev_version : N; ev_kind : AuthorizationPolicyEventKind;
}.
Record AuthorizationPolicyTransition := mk_AuthorizationPolicyTransition {
  t_tenant_id : TenantId; expected_previous_version : N; previous_snapshot : option AuthorizationPolicySnapshot;
  policy : AuthorizationPolicy; event : AuthorizationPolicyEvent;
}.
Definition build_transition (previous_snapshot : option AuthorizationPolicySnapshot) (change : AuthorizationPolicyChange) (version : N)
    (kind : AuthorizationPolicyEventKind) : outcome AuthorizationPolicyTransition :=
  policy ← AuthorizationPolicy_new (ch_tenant_id change) version (ch_roles change) (ch_assignments change);
  mret (mk_AuthorizationPolicyTransition (ch_tenant_id change) (ch_expected_version change) previous_snapshot policy
    (mk_AuthorizationPolicyEvent (ch_tenant_id change) (ch_actor change) (ch_occurred_at change) version kind)).
Definition publish_authorization_policy (change : AuthorizationPolicyChange) : outcome AuthorizationPolicyTransition :=
  reject_if (negb (ch_expected_version change =? version_initial)) VersionConflict ;;
  build_transition None change version_initial Published.
Definition replace_authorization_policy (current : AuthorizationPolicy) (change : AuthorizationPolicyChange)
    : outcome AuthorizationPolicyTransition :=
  reject_if (negb (p_version current =? ch_expected_version change)) VersionConflict ;;
  reject_if (bool_decide (p_tenant_id current <> ch_tenant_id change)) TenantMismatch ;;
  next_version ← version_next (p_version current);
  build_transition (Some (snapshot current)) change next_version Replaced.

(** ** Specification *)

(** A scope covers itself and what lies under it; a resource covers its direct children of the
    same kind. *)
Inductive covers : AuthorizationScope -> AuthorizationScope -> Prop :=
| covers_tenant t s : scope_tenant_id s = t -> covers (TenantScope t) s
| covers_tenant_resource t k r : covers (TenantResourceScope t k r) (TenantResourceScope t k r)
| covers_organization t o s : scope_tenant_id s = t -> scope_organization_id s = Some o -> covers (OrganizationScope t o) s
| covers_resource t o p p' k r : covers (ResourceScope t o p k r) (ResourceScope t o p' k r)
| covers_child t o p k r r' : covers (ResourceScope t o p k r) (ResourceScope t o (Some r) k r').

Definition before (expires_at : option UtcTimestamp) (at_ : UtcTimestamp) : Prop := forall e, expires_at = Some e -> (at_ < e)%Z.
(** The subject acts through a membership of its own that is active in an active organization. *)
Definition acts_as (request : AuthorizationRequest) (m : MembershipAuthorizationContext) : Prop :=
  subject_membership (subject request) = Some m /\ mi_user_id (mc_identity m) = subject_user_id (subject request) /\
  organization_state m = Organization.OrganizationActive /\ membership_state m = Organization.Active /\ before (mc_expires_at m) (now request).
(** Some rule of a role assigned to that membership has [effect] on the requested permission. *)
Definition ruled (policy : AuthorizationPolicy) (request : AuthorizationRequest) (effect : PermissionEffect) : Prop :=
  exists m a r rule, acts_as request m /\
    a ∈ p_assignments policy /\ a_principal_id a = principal_id (subject_principal (subject request)) /\
    a_membership_id a = mi_membership_id (mc_identity m) /\ before (a_expires_at a) (now request) /\
    covers (a_scope a) (target_scope (target request)) /\
    r ∈ p_roles policy /\ role_id r = a_role_id a /\
    rule ∈ rules r /\ rule_permission_id rule = target_permission_id (target request) /\ rule_effect rule = effect.
Definition admissible (policy : AuthorizationPolicy) (request : AuthorizationRequest) : Prop :=
  let tenant := principal_tenant_id (subject_principal (subject request)) in
  request_policy_version request = p_version policy /\
  p_tenant_id policy = tenant /\ scope_tenant_id (target_scope (target request)) = tenant /\
  user_state (subject request) = UserDomain.LifecycleActive /\
  (forall m, subject_membership (subject request) = Some m ->
    mi_tenant_id (mc_identity m) = tenant /\ mi_user_id (mc_identity m) = subject_user_id (subject request)) /\
  (forall o, scope_organization_id (target_scope (target request)) = Some o ->
    exists m, acts_as request m /\ mi_organization_id (mc_identity m) = o) /\
  match target_intent (target request), target_resource_state (target request) with
  | Access, ResourceActive | Recovery, ResourceRestricted => True
  | _, _ => False
  end.

(** Policies and roles are only built by their constructors. *)
Definition valid_policy (p : AuthorizationPolicy) : Prop :=
  AuthorizationPolicy_new (p_tenant_id p) (p_version p) (p_roles p) (p_assignments p) = Ok p /\
  Forall (fun r => RoleDefinition_new (role_id r) (role_tenant_id r) (rules r) = Ok r) (p_roles p).
Definition valid_scopes (p : AuthorizationPolicy) : Prop := Forall (fun a => scope_validate (a_scope a) = Ok tt) (p_assignments p).

(** ** A tenant with one role *)

Definition sample_role : RoleDefinition := mk_RoleDefinition (MkId "writer") (MkId "t") [mk_PermissionRule (MkId "doc.write") Allow].
Definition sample_assignment (s : AuthorizationScope) : RoleAssignment :=
  mk_RoleAssignment (MkId "a1") (MkId "p1") (MkId "m1") (MkId "writer") s None.
Definition sample_policy : AuthorizationPolicy :=
  mk_AuthorizationPolicy 1 (MkId "t") [sample_role] [sample_assignment (OrganizationScope (MkId "t") (MkId "org"))].
Definition sample_request : AuthorizationRequest :=
  mk_AuthorizationRequest (MkId "d") 1
    (mk_AuthorizationSubject (mk_PrincipalContext (MkId "t") (MkId "p1")) (MkId "u1") UserDomain.LifecycleActive
      (Some (mk_MembershipAuthorizationContext (mk_MembershipAuthorizationIdentity (MkId "t") (MkId "org") (MkId "m1") (MkId "u1"))
        Organization.OrganizationActive Organization.Active None [])))
    (AuthorizationTarget_new (MkId "doc.write") (ResourceScope (MkId "t") (MkId "org") None (MkId "doc") (MkId "d1")) ResourceActive) 5%Z.
(** A scope that names the resource as its own parent, built from the public variant. *)
Definition sample_self_parent : AuthorizationScope := ResourceScope (MkId "t") (MkId "org") (Some (MkId "d1")) (MkId "doc") (MkId "d1").
Definition sample_change : AuthorizationPolicyChange :=
  mk_AuthorizationPolicyChange (MkId "t") 1 [sample_role] [sample_assignment sample_self_parent] (MkId "root") 0%Z.

(** ** Lemmas *)

Lemma bind_unit_Ok {A} (m : outcome unit) (k : unit -> outcome A) r : (m ≫= k) = Ok r <-> m = Ok tt /\ k tt = Ok r.
Proof. rewrite result_bind_Ok. split; [intros ([] & ? & ?); done|]. intros [? ?]. by exists tt. Qed.
Lemma not_expired_iff e now : is_none_or (fun expires_at => (now <? expires_at)%Z) e = true <-> before e now.
Proof. unfold before. destruct e as [e|]; cbn; [rewrite Z.ltb_lt|]; naive_solver. Qed.
Lemma contains_iff s s' : contains s s' = true <-> covers s s'.
Proof.
  unfold contains. case_bool_decide as Ht; [|].
  - split; [done|]. intros Hc. destruct Hc; try done; by destruct Ht.
  - destruct s as [t|t k r|t o|t o p k r]; cbn in *.
    + split; [intros _; by constructor|done].
    + destruct s' as [|t' k' r'|t' o'|t' o' p' k' r']; cbn in *; try (split; [done|by inversion 1]).
      rewrite andb_true_iff, !bool_decide_eq_true. split; [intros [-> ->]; subst; constructor|by inversion 1].
    + rewrite bool_decide_eq_true. split; [intros ?; by constructor|by inversion 1].
    + destruct s' as [|t' k' r'|t' o'|t' o' p' k' r']; cbn in *; try (split; [done|by inversion 1]).
      rewrite !andb_true_iff, orb_true_iff, !bool_decide_eq_true. split.
      * intros [[-> ->] [-> | ->]]; subst; constructor.
      * inversion 1; subst; auto.
Qed.
Lemma acts_as_iff request a : active_membership_matches a request = true <->
  exists m, acts_as request m /\ a_membership_id a = mi_membership_id (mc_identity m).
Proof.
  unfold active_membership_matches, acts_as, membership_is_active_at. destruct (subject_membership (subject request)) as [m|]; cbn.
  - rewrite !andb_true_iff, !bool_decide_eq_true, not_expired_iff. split.
    + intros ([[? ?] ?] & ? & ?). by exists m.
    + intros (m' & ([= <-] & ? & ? & ? & ?) & ?). by split_and!.
  - split; [done|]. by intros (m & ([=] & _) & _).
Qed.
Lemma user_mismatch_false request : membership_user_mismatch request = false <->
  forall m, subject_membership (subject request) = Some m -> mi_user_id (mc_identity m) = subject_user_id (subject request).
Proof.
  unfold membership_user_mismatch. destruct (subject_membership (subject request)) as [m|]; cbn; [|naive_solver].
  rewrite bool_decide_eq_false. split; [intros H m' [= <-]; by apply dec_stable|]. intros H Hn. by apply Hn, H.
Qed.
Lemma membership_failure_None request : (forall m, subject_membership (subject request) = Some m -> mi_user_id (mc_identity m) = subject_user_id (subject request)) ->
  membership_failure request = None <->
  (forall o, scope_organization_id (target_scope (target request)) = Some o -> exists m, acts_as request m /\ mi_organization_id (mc_identity m) = o).
Proof.
  intros Hu. unfold membership_failure, membership_context_failure, membership_state_failure, membership_user_mismatch, acts_as, membership_is_active_at.
  destruct (scope_organization_id _) as [o|]; [|split; [done|]; intros _; destruct (subject_membership (subject request)) as [m|]; cbn; [by rewrite bool_decide_false by (rewrite (Hu m); auto)|done]].
  destruct (subject_membership (subject request)) as [m|]; cbn.
  - rewrite bool_decide_false by (rewrite (Hu m); auto). case_bool_decide as Ho.
    + destruct (organization_state m) eqn:Hs.
      * destruct (bool_decide (membership_state m = Organization.Active) && _) eqn:Ha; split; try done.
        -- intros _ o' [= <-]. exists m. apply andb_true_iff in Ha as [Ha He]. apply not_expired_iff in He. tidy. by split_and!; [| apply Hu|..].
        -- intros H. destruct (H o eq_refl) as (m' & ([= <-] & _ & _ & Hst & He) & _). apply not_expired_iff in He.
           by rewrite bool_decide_true, He in Ha.
      * split; [done|]. intros H. destruct (H o eq_refl) as (m' & ([= <-] & _ & Hs' & _) & _). congruence.
    + split; [done|]. intros H. destruct (H o eq_refl) as (m' & ([= <-] & _) & Ho'). by destruct Ho.
  - split; [done|]. intros H. by destruct (H o eq_refl) as (m' & ([=] & _) & _).
Qed.
Lemma precondition_None policy request : precondition_failure policy request = None <-> admissible policy request.
Proof.
  unfold precondition_failure, admissible, tenant_mismatch. cbv zeta. destruct (N.eqb_spec (request_policy_version request) (p_version policy)) as [Hv|Hv]; cbn; [|naive_solver].
  destruct (_ || _ || _) eqn:Ht.
  - split; [done|]. intros (_ & H1 & H2 & _ & H3 & _). rewrite H1, H2, !bool_decide_false in Ht by auto. cbn in Ht.
    destruct (subject_membership (subject request)) as [m|]; [|done]. cbn in Ht. tidy. by destruct Ht, (H3 m eq_refl).
  - apply orb_false_iff in Ht as [[H1 H2]%orb_false_iff H3]. tidy. case_bool_decide as Hu; [naive_solver|].
    destruct (membership_user_mismatch request) eqn:Hmis; [|pose proof (proj1 (user_mismatch_false request) Hmis) as Hm].
    2:{ pose proof (membership_failure_None request Hm) as Hf. destruct (membership_failure request).
      * split; [done|]. intros (_ & _ & _ & _ & _ & Ho & _). by apply Hf in Ho.
      * assert (forall m, subject_membership (subject request) = Some m ->
          mi_tenant_id (mc_identity m) = principal_tenant_id (subject_principal (subject request)) /\
          mi_user_id (mc_identity m) = subject_user_id (subject request)) as Hboth.
        { intros m Heq. split; [|by apply Hm]. rewrite Heq in H3. cbn in H3. by tidy. }
        unfold resource_failure. destruct (target_intent (target request)), (target_resource_state (target request)); naive_solver. }
    unfold membership_failure. rewrite Hmis. split; [done|]. intros (_ & _ & _ & _ & Hb & _).
    rewrite (proj2 (user_mismatch_false request)) in Hmis; [done|]. intros m Heq. by apply Hb.
Qed.

Lemma any_duplicate_false {A K} `{EqDecision K} (key : A -> K) l : any_duplicate key l = false <-> NoDup (key <$> l).
Proof.
  unfold any_duplicate. rewrite negb_false_iff, all_fresh_NoDup. split; [by intros [? _]|]. intros ?. split; [done|]. set_solver.
Qed.
Lemma policy_facts p : valid_policy p ->
  len (p_roles p) <= MAX_ROLES /\ len (p_assignments p) <= MAX_ASSIGNMENTS /\
  NoDup (role_id <$> p_roles p) /\ Forall (fun r => NoDup (rule_permission_id <$> rules r)) (p_roles p).
Proof.
  intros [Hp Hr]. unfold AuthorizationPolicy_new, validate_policy_limits, validate_unique_policy_ids in Hp.
  rewrite !bind_unit_Ok, !reject_if_Ok, orb_false_iff, !N.ltb_ge, any_duplicate_false in Hp. destruct Hp as ([? ?] & [? _] & _).
  split_and!; try done. eapply Forall_impl; [exact Hr|]. intros r. unfold RoleDefinition_new, validate_rules.
  rewrite !bind_unit_Ok, !reject_if_Ok, any_duplicate_false. by intros ((_ & _ & ?) & _).
Qed.
Lemma list_find_key {A K} `{EqDecision K} (key : A -> K) l k x : NoDup (key <$> l) ->
  snd <$> list_find (fun y => key y = k) l = Some x <-> x ∈ l /\ key x = k.
Proof.
  intros Hnd. split.
  - destruct (list_find _ l) as [[i y]|] eqn:Hf; [|done]. intros [= <-]. apply list_find_Some in Hf as (Hi & Hk & _).
    split; [by eapply list_elem_of_lookup_2|done].
  - intros [Hx Hk]. destruct (list_find (fun y => key y = k) l) as [[i y]|] eqn:Hf.
    + apply list_find_Some in Hf as (Hi & Hky & _). cbn. f_equal.
      apply (NoDup_key_inj key l); [done|by eapply list_elem_of_lookup_2|done|congruence].
    + apply list_find_None in Hf. apply (proj1 (Forall_forall _ _) Hf) in Hx. done.
Qed.
Lemma matching_role_iff p request a s : valid_policy p -> matching_role p request a = Some s <->
  exists r rule, r ∈ p_roles p /\ role_id r = a_role_id a /\ rule ∈ rules r /\
    rule_permission_id rule = target_permission_id (target request) /\ s = mk_MatchedRoleSummary (role_id r) (rule_effect rule).
Proof.
  intros Hp. destruct (policy_facts p Hp) as (_ & _ & Hnr & Hrules). unfold matching_role, role. rewrite bind_Some. split.
  - intros (r & [Hr Hid]%list_find_key & Hm); [|done]. apply bind_Some in Hm as (rule & Hrule & [= <-]).
    apply list_find_key in Hrule as [Hin Hperm]; [|by apply (proj1 (Forall_forall _ _) Hrules)]. by exists r, rule.
  - intros (r & rule & Hr & Hid & Hrule & Hperm & ->). exists r. split; [by apply list_find_key|]. apply bind_Some. exists rule.
    split; [|done]. apply list_find_key; [by apply (proj1 (Forall_forall _ _) Hrules)|done].
Qed.
Lemma ruled_iff p request effect : valid_policy p ->
  existsb (fun m => bool_decide (matched_effect m = effect)) (matching_roles p request) = true <-> ruled p request effect.
Proof.
  intros Hp. rewrite existsb_exists. setoid_rewrite <- list_elem_of_In. setoid_rewrite bool_decide_eq_true. unfold matching_roles.
  setoid_rewrite list_elem_of_omap. setoid_rewrite elem_of_list_filter. unfold assignment_matches, ruled.
  setoid_rewrite andb_true_iff. setoid_rewrite andb_true_iff. setoid_rewrite andb_true_iff. setoid_rewrite bool_decide_eq_true.
  setoid_rewrite contains_iff. setoid_rewrite acts_as_iff. setoid_rewrite not_expired_iff. setoid_rewrite matching_role_iff; [|done]. split.
  - intros (s & (a & (Ha & ((Hpr & Hb) & Hc) & (m & Hm & Hmid)) & r & rule & Hr & Hid & Hrule & Hperm & ->) & He).
    exists m, a, r, rule. by split_and!.
  - intros (m & a & r & rule & Hm & Ha & Hpr & Hmid & Hb & Hc & Hr & Hid & Hrule & Hperm & He).
    exists (mk_MatchedRoleSummary (role_id r) (rule_effect rule)). split; [|done]. exists a. split; [|by exists r, rule].
    split_and!; try done. by exists m.
Qed.

Lemma existsb_false {A} (p : A -> bool) (l : list A) : existsb p l = false <-> forall x, x ∈ l -> p x = false.
Proof.
  rewrite <- not_true_iff_false, existsb_exists. setoid_rewrite <- list_elem_of_In. split.
  - intros H x Hx. destruct (p x) eqn:Hp; [destruct H; eauto|done].
  - intros H (x & Hx & Hp). by rewrite (H x Hx) in Hp.
Qed.
Lemma collect_into {A B} (f : A -> B) (g : B -> outcome A) l :
  collect g (f <$> l) = Ok l <-> Forall (fun x => g (f x) = Ok x) l.
Proof.
  induction l as [|x l IH]; cbn; [split; [constructor|done]|]. rewrite Forall_cons, <- IH, result_bind_Ok. split.
  - intros (y & Hy & (ys & Hys & [= -> ->])%result_bind_Ok). done.
  - intros [Hx Hl]. exists x. split; [done|]. by rewrite Hl.
Qed.

Lemma role_reloads r : into_role (from_role r) = Ok r <-> RoleDefinition_new (role_id r) (role_tenant_id r) (rules r) = Ok r.
Proof. done. Qed.
Lemma assignment_reloads a : into_assignment (from_assignment a) = Ok a <-> scope_validate (a_scope a) = Ok tt.
Proof. unfold into_assignment. rewrite bind_unit_Ok. cbn. destruct a; cbn. naive_solver. Qed.
Lemma into_role_inv s r : into_role s = Ok r -> from_role r = s /\ RoleDefinition_new (role_id r) (role_tenant_id r) (rules r) = Ok r.
Proof. unfold into_role. intros H. pose proof H as [_ [= <-]]%bind_unit_Ok. split; [by destruct s|]. exact H. Qed.
Lemma into_assignment_inv s a : into_assignment s = Ok a -> from_assignment a = s /\ scope_validate (a_scope a) = Ok tt.
Proof. unfold into_assignment. intros [H [= <-]]%bind_unit_Ok. split; [by destruct s|done]. Qed.
Lemma collect_back {A B} (f : A -> B) (g : B -> outcome A) (P : A -> Prop) l l' : (forall y x, g y = Ok x -> f x = y /\ P x) ->
  collect g l' = Ok l -> f <$> l = l' /\ Forall P l.
Proof.
  intros Hg. rewrite collect_Ok. induction 1 as [|y x l' l Hy _ [IH1 IH2]]; [done|]. destruct (Hg y x Hy) as [Hf HP].
  split; [cbn; by rewrite Hf, IH1|by constructor].
Qed.
Lemma policy_new_inv t v rs az p : AuthorizationPolicy_new t v rs az = Ok p -> p = mk_AuthorizationPolicy v t rs az.
Proof. unfold AuthorizationPolicy_new. rewrite !bind_unit_Ok. by intros (_ & _ & _ & _ & [= <-]). Qed.
Lemma failure_kinds p request f : precondition_failure p request = Some f -> f <> ExplicitAllow /\ f <> ExplicitDeny /\ f <> NoAllow.
Proof.
  unfold precondition_failure, membership_failure, membership_context_failure, membership_state_failure, resource_failure.
  repeat case_match; naive_solver.
Qed.

(** ** Properties *)

(** C19: authorization is exactly what the policy says.  A request is allowed just when it
    is admissible (the policy version it expects, one tenant for policy, principal, scope and
    membership, an active user, an active membership wherever the scope names an organization,
    a resource in the state its intent needs), some unexpired assignment of the acting
    membership whose scope covers the request allows the permission, and none denies it; a
    deny wins over every allow, without either nothing is allowed; and the decision is bound
    to the request it answers. *)
Theorem evaluate_exact p request (Hp : valid_policy p) :
  let d := evaluate p request in
  (allowed d = true <-> admissible p request /\ ruled p request Allow /\ ~ ruled p request Deny) /\
  (reason d = ExplicitDeny <-> admissible p request /\ ruled p request Deny) /\
  (reason d = NoAllow <-> admissible p request /\ ~ ruled p request Allow /\ ~ ruled p request Deny) /\
  binding d = mk_AuthorizationDecisionBinding (decision_id request) (p_version p)
    (principal_tenant_id (subject_principal (subject request))) (principal_id (subject_principal (subject request)))
    (target request) (now request).
Proof.
  cbv zeta. pose proof (precondition_None p request) as Hpre. pose proof (ruled_iff p request Allow Hp) as Ha.
  pose proof (ruled_iff p request Deny Hp) as Hd. unfold evaluate. destruct (precondition_failure p request) as [f|] eqn:Hf.
  - assert (~ admissible p request) as Hn by (rewrite <- Hpre; done).
    assert (f <> ExplicitAllow /\ f <> ExplicitDeny /\ f <> NoAllow) as (H1 & H2 & H3) by (by apply (failure_kinds p request)).
    unfold allowed. cbn. destruct f; naive_solver.
  - assert (admissible p request) as Had by tauto. unfold allowed, permission_reason. cbn.
    destruct (existsb (fun m => bool_decide (matched_effect m = Deny)) _); cbn; [naive_solver|].
    destruct (existsb (fun m => bool_decide (matched_effect m = Allow)) _); cbn; naive_solver.
Qed.
Lemma evaluate_exact_witness : allowed (evaluate sample_policy sample_request) = true /\ admissible sample_policy sample_request.
Proof.
  assert (allowed (evaluate sample_policy sample_request) = true) as H by reflexivity. split; [exact H|].
  refine (proj1 (proj1 (proj1 (evaluate_exact sample_policy sample_request _)) H)).
  split; [reflexivity|]. apply Forall_singleton. reflexivity.
Defined.

(** A persisted policy is the policy.  What is read back is valid and writes to the
    same snapshot; and a valid policy is read back unchanged exactly when no assignment names
    a resource as its own parent, the one condition that reading checks and building does not. *)
Theorem policy_reloads p (Hp : valid_policy p) :
  (from_snapshot (snapshot p) = Ok p <-> valid_scopes p) /\
  (forall s q, from_snapshot s = Ok q -> valid_policy q /\ valid_scopes q /\ snapshot q = s).
Proof.
  split.
  - destruct (policy_facts p Hp) as (Hl1 & Hl2 & _). destruct Hp as [Hp Hr]. unfold from_snapshot, validate_snapshot_limits, valid_scopes.
    cbn [ps_roles ps_assignments snapshot ps_tenant_id ps_version]. unfold len. rewrite !length_fmap. fold (len (p_roles p)) (len (p_assignments p)).
    rewrite (proj2 (N.ltb_ge _ _) Hl1), (proj2 (N.ltb_ge _ _) Hl2). cbn [orb reject_if]. rewrite (proj2 (collect_into from_role into_role (p_roles p)) Hr).
    cbn [mbind result_bind]. split.
    + intros (az & Haz & Hq)%result_bind_Ok. apply policy_new_inv in Hq. assert (az = p_assignments p) as -> by (by rewrite Hq).
      apply collect_into in Haz. eapply Forall_impl; [exact Haz|]. intros a. apply assignment_reloads.
    + intros Hs. rewrite (proj2 (collect_into from_assignment into_assignment (p_assignments p))); [exact Hp|].
      eapply Forall_impl; [exact Hs|]. intros a. apply assignment_reloads.
  - intros s q (_ & _ & (rs & Hrs & (az & Haz & Hq)%result_bind_Ok)%result_bind_Ok)%result_bind_Ok.
    pose proof (policy_new_inv _ _ _ _ _ Hq) as ->. destruct (collect_back from_role into_role _ _ _ into_role_inv Hrs) as [H1 H2].
    destruct (collect_back from_assignment into_assignment _ _ _ into_assignment_inv Haz) as [H3 H4].
    split; [split; [exact Hq|exact H2]|]. split; [exact H4|]. unfold snapshot. cbn. rewrite H1, H3. by destruct s.
Qed.
Lemma policy_reloads_witness : from_snapshot (snapshot sample_policy) = Ok sample_policy.
Proof.
  refine (proj2 (proj1 (policy_reloads sample_policy _)) _).
  - split; [reflexivity|]. apply Forall_singleton. reflexivity.
  - apply Forall_singleton. reflexivity.
Defined.

(** A published policy of the wrong shape cannot be loaded again. *)
Example self_parent_unloadable :
  exists t, publish_authorization_policy sample_change = Ok t /\ from_snapshot (snapshot (policy t)) = Err InvalidArgument.
Proof. eexists. split; reflexivity. Qed.

(** A replacement advances the version by one, keeps the tenant and the whole previous
    policy, and emits the event of exactly the new policy. *)
Theorem policy_replaced p c t (Hr : Forall (fun r => RoleDefinition_new (role_id r) (role_tenant_id r) (rules r) = Ok r) (ch_roles c))
    (Ht : replace_authorization_policy p c = Ok t) :
  p_version p = ch_expected_version c /\ p_tenant_id p = ch_tenant_id c /\ valid_policy (policy t) /\
  policy t = mk_AuthorizationPolicy (p_version p + 1) (p_tenant_id p) (ch_roles c) (ch_assignments c) /\
  previous_snapshot t = Some (snapshot p) /\
  event t = mk_AuthorizationPolicyEvent (p_tenant_id p) (ch_actor c) (ch_occurred_at c) (p_version p + 1) Replaced.
Proof.
  unfold replace_authorization_policy, build_transition, version_next in Ht. rewrite !bind_unit_Ok, !reject_if_Ok in Ht.
  destruct Ht as (Hv & Htn & (v & [-> Hle]%ok_or_Ok%checked_add_Some & (q & Hq & [= <-])%result_bind_Ok)%result_bind_Ok). tidy.
  pose proof (policy_new_inv _ _ _ _ _ Hq) as ->. cbn. rewrite Htn. by split_and!.
Qed.
Lemma policy_replaced_witness : exists t,
  replace_authorization_policy sample_policy sample_change = Ok t /\ previous_snapshot t = Some (snapshot sample_policy).
Proof.
  eexists. split; [reflexivity|]. refine (proj1 (proj2 (proj2 (proj2 (proj2 (policy_replaced sample_policy sample_change _ _ _)))))).
  - apply Forall_singleton. reflexivity.
  - reflexivity.
Defined.
