(* ===== verification/Identity.v ===== *)
(** * What the identity components share

    The 32-byte digests the identity components keep instead of secrets, their comparison in
    constant time, and the lemmas on sequences of validations their proofs use.  The model of
    [constant_time_digest_eq] is that of [crates/optional/ariadnion-invitation/src/transition.rs];
    components that compare through the [subtle] crate, or hash through [sha2], take the
    comparison or the hash as an argument, with the comparison's documented behaviour as a
    class of its own. *)

From Stdlib Require Strings.Byte.
From stdpp Require Import vector.
From S2P Require Import Prelude.
#[local] Open Scope N_scope.

#[export] Instance byte_eq_dec : EqDecision Byte.byte := Byte.byte_eq_dec.

(** [[u8; 32]]. *)
Definition digest : Type := vec Byte.byte 32.
#[export] Instance digest_eq_dec : EqDecision digest.
Proof. unfold digest. apply _. Defined.

(** The fold has no early exit: every byte of both arrays is read. *)
Definition accumulate (difference : N) (pair : Byte.byte * Byte.byte) : N :=
  N.lor difference (N.lxor (Byte.to_N (fst pair)) (Byte.to_N (snd pair))).
Definition constant_time_digest_eq (left right : digest) : bool :=
  foldl accumulate 0 (zip (vec_to_list left) (vec_to_list right)) =? 0.

(** [subtle::ConstantTimeEq] on byte arrays of one length, and what its documentation promises;
    a [Choice] is a boolean. *)
Class ConstantTimeEq := ct_eq : digest -> digest -> bool.
Class ConstantTimeEqLaw `{ConstantTimeEq} : Prop := ct_eq_true : forall a b, ct_eq a b = true <-> a = b.
(** [sha2::Sha256] over the concatenation of the updates. *)
Class Sha256 := sha256 : list Byte.byte -> digest.

(** [for x in xs { check(x)?; } Ok(())]. *)
Fixpoint check_each {E A} (check : A -> result E unit) (xs : list A) : result E unit :=
  match xs with
  | [] => Ok tt
  | x :: xs' => check x ;; check_each check xs'
  end.

Definition sample_digest (b : Byte.byte) : digest := vreplicate 32 b.

(** ** Lemmas *)

Lemma to_N_inj a b : Byte.to_N a = Byte.to_N b -> a = b.
Proof. intros H. apply (f_equal Byte.of_N) in H. rewrite !Byte.of_to_N in H. by injection H. Qed.

Lemma accumulate_zero d pairs : foldl accumulate d pairs = 0 <-> d = 0 /\ Forall (fun p => fst p = snd p) pairs.
Proof.
  revert d. induction pairs as [|[a b] pairs IH]; intros d; cbn [foldl].
  - split; [intros H; split; [done|constructor]|tauto].
  - rewrite IH, Forall_cons. unfold accumulate at 1. cbn [fst snd]. rewrite N.lor_eq_0_iff, N.lxor_eq_0_iff. split.
    + intros ((H1 & H2%to_N_inj) & H3). by split_and!.
    + intros (H1 & -> & H3). by split_and!.
Qed.

Lemma zip_equal {A} (l k : list A) : length l = length k -> Forall (fun p => fst p = snd p) (zip l k) -> l = k.
Proof.
  revert k. induction l as [|a l IH]; intros [|b k]; cbn; try done. intros [= Hl] [Hab Hrest]%Forall_cons. cbn in Hab. by rewrite Hab, (IH k).
Qed.

(** The constant-time comparison decides equality. *)
Lemma constant_time_digest_eq_true left right : constant_time_digest_eq left right = true <-> left = right.
Proof.
  unfold constant_time_digest_eq. rewrite N.eqb_eq, accumulate_zero. split.
  - intros [_ H]. apply vec_to_list_inj2, zip_equal; [by rewrite !length_vec_to_list|done].
  - intros ->. split; [done|]. induction (vec_to_list right) as [|a l IH]; constructor; done.
Qed.
Lemma constant_time_digest_eq_false left right : constant_time_digest_eq left right = false <-> left <> right.
Proof. rewrite <- constant_time_digest_eq_true. by destruct constant_time_digest_eq. Qed.

#[export] Instance constant_time_digest_eq_law : @ConstantTimeEqLaw constant_time_digest_eq := constant_time_digest_eq_true.

(** A validation followed by the rest of the function. *)
Lemma validated_Ok {E A} (m : result E unit) (k : unit -> result E A) r : (m ≫= k) = Ok r <-> m = Ok tt /\ k tt = Ok r.
Proof. rewrite result_bind_Ok. split; [intros ([] & H); exact H|eauto]. Qed.

Lemma check_each_Ok {E A} (check : A -> result E unit) xs : check_each check xs = Ok tt <-> Forall (fun x => check x = Ok tt) xs.
Proof. induction xs as [|x xs IH]; cbn [check_each]; [by split; constructor|]. by rewrite validated_Ok, IH, Forall_cons. Qed.

(** The lifetime checks of the identity components: [to.checked_sub(from)] within [lo..=hi]. *)
Lemma span_within {E} (from to_ lo hi : Z) (e : E) : (0 <= lo)%Z -> (hi <= i64_max)%Z ->
  (span ← ok_or (i64_checked_sub to_ from) e; reject_if (negb ((lo <=? span)%Z && (span <=? hi)%Z)) e) = Ok tt <->
  (lo <= to_ - from <= hi)%Z.
Proof.
  intros H0 H1. rewrite result_bind_Ok. setoid_rewrite ok_or_Ok. setoid_rewrite reject_if_Ok. setoid_rewrite negb_false_iff. split.
  - intros (l & Hl & Hr). unfold i64_checked_sub in Hl. destruct (_ && _) in Hl; [|done]. injection Hl as <-. lia.
  - intros H. exists (to_ - from)%Z. split; [|lia]. unfold i64_checked_sub, i64_min, i64_max in *. rewrite (proj2 (andb_true_iff _ _)); [done|]. lia.
Qed.

Lemma span_at_most {E} (from to_ hi : Z) (e : E) : (from <= to_)%Z -> (hi <= i64_max)%Z ->
  (span ← ok_or (i64_checked_sub to_ from) e; reject_if (hi <? span)%Z e) = Ok tt <-> (to_ - from <= hi)%Z.
Proof.
  intros H0 H1. pose proof (span_within from to_ 0 hi e) as Hs. destruct (i64_checked_sub to_ from) as [span|] eqn:Hc; cbn in *.
  - unfold i64_checked_sub in Hc. destruct (_ && _) in Hc; [|done]. injection Hc as <-. rewrite reject_if_Ok. lia.
  - destruct (decide (0 <= to_ - from <= hi)%Z) as [Hd|Hd]; [apply Hs in Hd; try done; lia|]. split; [done|lia].
Qed.

(** The early return on two different values. *)
Lemma keeps {E A} `{EqDecision A} (a b : A) (e : E) u : reject_if (bool_decide (a <> b)) e = Ok u <-> a = b.
Proof. rewrite reject_if_Ok, bool_decide_eq_false. split; [apply dec_stable|tauto]. Qed.
Lemma Ok_inj_iff {E A} (a b : A) : (Ok a : result E A) = Ok b <-> b = a.
Proof. split; [intros [= ->]|intros ->]; done. Qed.
Lemma mret_inj_iff {E A} (a b : A) : (mret a : result E A) = Ok b <-> b = a.
Proof. split; [intros [= ->]|intros ->]; done. Qed.

(** A flag accumulated over a list without an early exit. *)
Lemma foldl_or {A} (p : A -> bool) b l : foldl (fun found x => found || p x) b l = true <-> b = true \/ exists x, x ∈ l /\ p x = true.
Proof.
  revert b. induction l as [|a l IH]; intros b; cbn.
  - split; [by left|]. intros [H|(x & Hx & _)]; [done|]. by apply elem_of_nil in Hx.
  - rewrite IH, orb_true_iff. setoid_rewrite elem_of_cons. naive_solver.
Qed.
Lemma foldl_or_false {A} (p : A -> bool) b l : foldl (fun found x => found || p x) b l = false <-> b = false /\ forall x, x ∈ l -> p x = false.
Proof.
  destruct (foldl _ b l) eqn:Hf.
  - apply foldl_or in Hf. split; [done|]. intros [-> H]. destruct Hf as [Hf|(x & Hx & Hp)]; [done|]. by rewrite (H x Hx) in Hp.
  - split; [|done]. intros _. split.
    + destruct b; [|done]. exfalso. assert (true = true \/ exists x, x ∈ l /\ p x = true) as H%foldl_or by (by left). congruence.
    + intros x Hx. destruct (p x) eqn:Hp; [|done]. exfalso. assert (b = true \/ exists x, x ∈ l /\ p x = true) as H%foldl_or by eauto. congruence.
Qed.
