(* ===== verification/Invitation.v ===== *)
(** * Organization invitations

    Models [crates/optional/ariadnion-invitation/src]: [error.rs], [ids.rs], [model.rs] and
    [transition.rs]: the one-time invitation, its issuance, the three commands that settle it
    and the reconstruction of an invitation from its persisted snapshot. *)

From Stdlib Require Import Ascii.
From S2P Require Import Prelude CoreTypes Identity.
From S2P Require UserDomain Organization.
#[local] Open Scope N_scope.
#[local] Open Scope record_scope.

(** ** Errors and identities ([error.rs], [ids.rs]) *)

Inductive InvitationErrorCode :=
| InvalidArgument | VersionConflict | VersionExhausted | TenantMismatch | OrganizationMismatch | SubjectMismatch | TokenMismatch
| ExpiredError | NotYetExpired | AlreadyConsumed | RevokedError | InvalidTransition | RecipientPrincipalMismatch.
Definition ERROR_CODES : list string := [
  "INVITATION_INVALID_ARGUMENT"; "INVITATION_VERSION_CONFLICT"; "INVITATION_VERSION_EXHAUSTED"; "INVITATION_TENANT_MISMATCH";
  "INVITATION_ORGANIZATION_MISMATCH"; "INVITATION_SUBJECT_MISMATCH"; "INVITATION_TOKEN_MISMATCH"; "INVITATION_EXPIRED";
  "INVITATION_NOT_YET_EXPIRED"; "INVITATION_ALREADY_CONSUMED"; "INVITATION_REVOKED"; "INVITATION_INVALID_TRANSITION";
  "INVITATION_RECIPIENT_PRINCIPAL_MISMATCH" ].
(** [self as usize], the discriminant. *)
Definition error_index (code : InvitationErrorCode) : nat :=
  match code with
  | InvalidArgument => 0 | VersionConflict => 1 | VersionExhausted => 2 | TenantMismatch => 3 | OrganizationMismatch => 4
  | SubjectMismatch => 5 | TokenMismatch => 6 | ExpiredError => 7 | NotYetExpired => 8 | AlreadyConsumed => 9 | RevokedError => 10
  | InvalidTransition => 11 | RecipientPrincipalMismatch => 12
  end.
(** Indexing out of range would panic, hence the option. *)
Definition as_str (code : InvitationErrorCode) : option string := ERROR_CODES !! error_index code.
Notation outcome := (result InvitationErrorCode).

Definition MAX_IDENTIFIER_BYTES : N := 128.
Definition is_identifier_byte (b : Ascii.ascii) : bool :=
  is_ascii_alphanumeric b || Ascii.eqb b "."%char || Ascii.eqb b "-"%char || Ascii.eqb b "_"%char.
Definition valid_identifier (value : string) : bool :=
  negb (is_empty value) && (byte_len value <=? MAX_IDENTIFIER_BYTES) && is_ascii value && all_bytes is_identifier_byte value.
Definition InvitationId := Id InvitationKind.
Definition parse (value : string) : outcome InvitationId :=
  if negb (valid_identifier value) then Err InvalidArgument else Ok (MkId value).

(** [InvitationVersion]: a non-zero 64-bit integer. *)
Definition version_initial : N := 1.
Definition version_new (value : N) : outcome N := if value =? 0 then Err InvalidArgument else Ok value.
Definition version_next (v : N) : outcome N := ok_or (checked_add u64_max v 1) VersionExhausted.

(** ** The aggregate ([model.rs]) *)

Notation UserId := UserDomain.UserId.
Notation UtcTimestamp := UserDomain.UtcTimestamp.
Notation OrganizationId := Organization.OrganizationId.

Definition MAX_INVITATION_LIFETIME_SECONDS : Z := (30 * 24 * 60 * 60)%Z.
Record InvitationTokenDigest := mk_InvitationTokenDigest { token_bytes : digest }.
Record InvitationSubjectDigest := mk_InvitationSubjectDigest { subject_bytes : digest }.
#[export] Instance InvitationSubjectDigest_eq_dec : EqDecision InvitationSubjectDigest.
Proof. solve_decision. Defined.

Inductive InvitationState := Issued | Consumed | Revoked | Expired.
#[export] Instance InvitationState_eq_dec : EqDecision InvitationState.
Proof. solve_decision. Defined.

Record InvitationIssueBinding := mk_InvitationIssueBinding {
  b_id : InvitationId; b_tenant_id : TenantId; b_organization_id : OrganizationId; b_issuer : PrincipalId;
}.
Record InvitationProofDigests := mk_InvitationProofDigests { p_subject_digest : InvitationSubjectDigest; p_token_digest : InvitationTokenDigest }.
Record InvitationValidityWindow := mk_InvitationValidityWindow { v_issued_at : UtcTimestamp; v_expires_at : UtcTimestamp }.
Record InvitationSnapshotState := mk_InvitationSnapshotState {
  s_binding : InvitationIssueBinding; s_proofs : InvitationProofDigests; s_validity : InvitationValidityWindow;
  s_version : N; s_state : InvitationState; s_consumed_by : option UserId;
}.
Record InvitationIssueRequest := mk_InvitationIssueRequest {
  r_id : InvitationId; r_tenant_id : TenantId; r_organization_id : OrganizationId; r_issuer : PrincipalId;
  r_subject_digest : InvitationSubjectDigest; r_token_digest : InvitationTokenDigest;
  r_issued_at : UtcTimestamp; r_expires_at : UtcTimestamp;
}.
Definition request_new (binding : InvitationIssueBinding) (proofs : InvitationProofDigests) (validity : InvitationValidityWindow)
    : InvitationIssueRequest :=
  mk_InvitationIssueRequest (b_id binding) (b_tenant_id binding) (b_organization_id binding) (b_issuer binding)
    (p_subject_digest proofs) (p_token_digest proofs) (v_issued_at validity) (v_expires_at validity).

Record Invitation := mk_Invitation {
  i_id : InvitationId; i_tenant_id : TenantId; i_organization_id : OrganizationId; i_issuer : PrincipalId;
  i_subject_digest : InvitationSubjectDigest; i_token_digest : InvitationTokenDigest;
  i_issued_at : UtcTimestamp; i_expires_at : UtcTimestamp; i_version : N; i_state : InvitationState; i_consumed_by : option UserId;
}.
#[export] Instance eta_Invitation : Eta Invitation :=
  fun i => mk_Invitation (i_id i) (i_tenant_id i) (i_organization_id i) (i_issuer i) (i_subject_digest i) (i_token_digest i)
    (i_issued_at i) (i_expires_at i) (i_version i) (i_state i) (i_consumed_by i).

Definition validate_snapshot_lifetime (validity : InvitationValidityWindow) : outcome unit :=
  lifetime ← ok_or (i64_checked_sub (v_expires_at validity) (v_issued_at validity)) InvalidArgument;
  reject_if (negb ((1 <=? lifetime)%Z && (lifetime <=? MAX_INVITATION_LIFETIME_SECONDS)%Z)) InvalidArgument.
Definition validate_snapshot_lifecycle (version : N) (state : InvitationState) (has_consumer : bool) : outcome unit :=
  let reachable :=
    match state, has_consumer with
    | Issued, false => version =? 1
    | Consumed, true => version =? 2
    | Revoked, false | Expired, false => version =? 2
    | _, _ => false
    end in
  if reachable then Ok tt else Err InvalidArgument.
Definition validate_snapshot (s : InvitationSnapshotState) : outcome unit :=
  validate_snapshot_lifetime (s_validity s) ;;
  validate_snapshot_lifecycle (s_version s) (s_state s) (bool_decide (is_Some (s_consumed_by s))).
Definition from_snapshot (s : InvitationSnapshotState) : outcome Invitation :=
  validate_snapshot s ;;
  let binding := s_binding s in
  let proofs := s_proofs s in
  mret (mk_Invitation (b_id binding) (b_tenant_id binding) (b_organization_id binding) (b_issuer binding)
    (p_subject_digest proofs) (p_token_digest proofs) (v_issued_at (s_validity s)) (v_expires_at (s_validity s))
    (s_version s) (s_state s) (s_consumed_by s)).
Definition issued (request : InvitationIssueRequest) : Invitation :=
  mk_Invitation (r_id request) (r_tenant_id request) (r_organization_id request) (r_issuer request)
    (r_subject_digest request) (r_token_digest request) (r_issued_at request) (r_expires_at request) version_initial Issued None.
Definition advance (i : Invitation) (version : N) (state : InvitationState) (consumed_by : option UserId) : Invitation :=
  i <| i_version := version |> <| i_state := state |> <| i_consumed_by := consumed_by |>.
Definition snapshot_state (i : Invitation) : InvitationSnapshotState :=
  mk_InvitationSnapshotState
    (mk_InvitationIssueBinding (i_id i) (i_tenant_id i) (i_organization_id i) (i_issuer i))
    (mk_InvitationProofDigests (i_subject_digest i) (i_token_digest i))
    (mk_InvitationValidityWindow (i_issued_at i) (i_expires_at i)) (i_version i) (i_state i) (i_consumed_by i).

(** ** Commands and events ([transition.rs]) *)

Record AuthenticatedInvitationRecipient := mk_AuthenticatedInvitationRecipient {
  recipient_principal : PrincipalContext; recipient_user_id : UserId; recipient_subject_digest : InvitationSubjectDigest;
}.
Record InvitationConsumption := mk_InvitationConsumption {
  c_organization_id : OrganizationId; c_recipient : AuthenticatedInvitationRecipient; c_token_digest : InvitationTokenDigest;
}.
Inductive InvitationAction := Consume (consumption : InvitationConsumption) | Revoke | Expire.
Record InvitationCommand := mk_InvitationCommand {
  expected_version : N; actor : PrincipalId; occurred_at : UtcTimestamp; action : InvitationAction;
}.
Inductive InvitationEventKind := EventIssued | EventConsumed | EventRevoked | EventExpired.
Record InvitationEvent := mk_InvitationEvent {
  e_invitation_id : InvitationId; e_tenant_id : TenantId; e_organization_id : OrganizationId; e_actor : PrincipalId;
  e_occurred_at : UtcTimestamp; e_version : N; e_kind : InvitationEventKind; e_user_id : option UserId;
}.
Record InvitationTransition := mk_InvitationTransition { invitation : Invitation; event : InvitationEvent }.

Definition event_from (i : Invitation) (a : PrincipalId) (at_ : UtcTimestamp) (kind : InvitationEventKind) (user_id : option UserId)
    : InvitationEvent :=
  mk_InvitationEvent (i_id i) (i_tenant_id i) (i_organization_id i) a at_ (i_version i) kind user_id.
Definition validate_lifetime (issued_at expires_at : UtcTimestamp) : outcome unit :=
  lifetime ← ok_or (i64_checked_sub expires_at issued_at) InvalidArgument;
  reject_if (negb ((1 <=? lifetime)%Z && (lifetime <=? MAX_INVITATION_LIFETIME_SECONDS)%Z)) InvalidArgument.
Definition issue (request : InvitationIssueRequest) : outcome InvitationTransition :=
  validate_lifetime (r_issued_at request) (r_expires_at request) ;;
  let i := issued request in
  mret (mk_InvitationTransition i (event_from i (i_issuer i) (i_issued_at i) EventIssued None)).

Definition validate_consumption_boundaries (i : Invitation) (c : InvitationConsumption) : outcome unit :=
  reject_if (bool_decide (principal_tenant_id (recipient_principal (c_recipient c)) <> i_tenant_id i)) TenantMismatch ;;
  reject_if (bool_decide (c_organization_id c <> i_organization_id i)) OrganizationMismatch.
Definition validate_recipient_actor (command : InvitationCommand) (c : InvitationConsumption) : outcome unit :=
  reject_if (bool_decide (principal_id (recipient_principal (c_recipient c)) <> actor command)) RecipientPrincipalMismatch.
Definition validate_consumption_scope (i : Invitation) (command : InvitationCommand) : outcome unit :=
  match action command with
  | Consume c => validate_consumption_boundaries i c ;; validate_recipient_actor command c
  | _ => Ok tt
  end.
Definition validate_expected_version (i : Invitation) (expected : N) : outcome unit :=
  reject_if (negb (i_version i =? expected)) VersionConflict.
Definition validate_command_time (i : Invitation) (at_ : UtcTimestamp) : outcome unit :=
  reject_if (at_ <? i_issued_at i)%Z InvalidArgument.
Definition validate_current_state (state : InvitationState) : outcome unit :=
  match state with
  | Issued => Ok tt
  | Consumed => Err AlreadyConsumed
  | Revoked => Err RevokedError
  | Expired => Err ExpiredError
  end.
Definition require_not_expired (i : Invitation) (at_ : UtcTimestamp) : outcome unit :=
  reject_if (i_expires_at i <=? at_)%Z ExpiredError.
Definition apply_consumption (i : Invitation) (c : InvitationConsumption) (at_ : UtcTimestamp)
    : outcome (InvitationState * InvitationEventKind * option UserId) :=
  require_not_expired i at_ ;;
  reject_if (bool_decide (recipient_subject_digest (c_recipient c) <> i_subject_digest i)) SubjectMismatch ;;
  reject_if (negb (constant_time_digest_eq (token_bytes (c_token_digest c)) (token_bytes (i_token_digest i)))) TokenMismatch ;;
  mret (Consumed, EventConsumed, Some (recipient_user_id (c_recipient c))).
Definition apply_revocation (i : Invitation) (at_ : UtcTimestamp) : outcome (InvitationState * InvitationEventKind * option UserId) :=
  require_not_expired i at_ ;; mret (Revoked, EventRevoked, None).
Definition apply_expiry (i : Invitation) (at_ : UtcTimestamp) : outcome (InvitationState * InvitationEventKind * option UserId) :=
  reject_if (at_ <? i_expires_at i)%Z NotYetExpired ;; mret (Expired, EventExpired, None).
Definition apply_action (i : Invitation) (command : InvitationCommand) : outcome (InvitationState * InvitationEventKind * option UserId) :=
  match action command with
  | Consume c => apply_consumption i c (occurred_at command)
  | Revoke => apply_revocation i (occurred_at command)
  | Expire => apply_expiry i (occurred_at command)
  end.
Definition transition (i : Invitation) (command : InvitationCommand) : outcome InvitationTransition :=
  validate_consumption_scope i command ;;
  validate_expected_version i (expected_version command) ;;
  validate_command_time i (occurred_at command) ;;
  validate_current_state (i_state i) ;;
  '(state, kind, user_id) ← apply_action i command;
  version ← version_next (i_version i);
  let next := advance i version state user_id in
  mret (mk_InvitationTransition next (event_from next (actor command) (occurred_at command) kind user_id)).

(** ** Specification *)

(** The lifetime both validations accept. *)
Definition valid_lifetime (issued_at expires_at : UtcTimestamp) : Prop :=
  (1 <= expires_at - issued_at <= MAX_INVITATION_LIFETIME_SECONDS)%Z.
(** Invitations that an issuance and accepted commands produce. *)
Inductive reachable : Invitation -> Prop :=
| reachable_issue request t : issue request = Ok t -> reachable (invitation t)
| reachable_step i command t : reachable i -> transition i command = Ok t -> reachable (invitation t).
(** The shape of a reachable invitation. *)
Definition lifecycle (i : Invitation) : Prop :=
  match i_state i with
  | Issued => i_version i = 1 /\ i_consumed_by i = None
  | Consumed => i_version i = 2 /\ is_Some (i_consumed_by i)
  | Revoked | Expired => i_version i = 2 /\ i_consumed_by i = None
  end.
Definition well_formed (i : Invitation) : Prop := valid_lifetime (i_issued_at i) (i_expires_at i) /\ lifecycle i.
(** What a command needs to be carried out on an issued invitation. *)
Definition permits (i : Invitation) (command : InvitationCommand) : Prop :=
  match action command with
  | Consume c =>
      let recipient := c_recipient c in
      recipient_principal recipient = mk_PrincipalContext (i_tenant_id i) (actor command) /\
      c_organization_id c = i_organization_id i /\ recipient_subject_digest recipient = i_subject_digest i /\
      c_token_digest c = i_token_digest i /\ (occurred_at command < i_expires_at i)%Z
  | Revoke => (occurred_at command < i_expires_at i)%Z
  | Expire => (i_expires_at i <= occurred_at command)%Z
  end.
Definition settled_state (a : InvitationAction) : InvitationState * InvitationEventKind * option UserId :=
  match a with
  | Consume c => (Consumed, EventConsumed, Some (recipient_user_id (c_recipient c)))
  | Revoke => (Revoked, EventRevoked, None)
  | Expire => (Expired, EventExpired, None)
  end.

(** A command that brings an issued invitation into each settled state. *)
Definition settling (i : Invitation) (user_id : option UserId) (state : InvitationState) : InvitationCommand :=
  match state with
  | Revoked => mk_InvitationCommand 1 (i_issuer i) (i_issued_at i) Revoke
  | Expired => mk_InvitationCommand 1 (i_issuer i) (i_expires_at i) Expire
  | _ =>
      mk_InvitationCommand 1 (i_issuer i) (i_issued_at i)
        (Consume (mk_InvitationConsumption (i_organization_id i)
          (mk_AuthenticatedInvitationRecipient (mk_PrincipalContext (i_tenant_id i) (i_issuer i)) (default (MkId "") user_id) (i_subject_digest i))
          (i_token_digest i)))
  end.
Definition reissue (i : Invitation) : InvitationIssueRequest :=
  mk_InvitationIssueRequest (i_id i) (i_tenant_id i) (i_organization_id i) (i_issuer i) (i_subject_digest i) (i_token_digest i)
    (i_issued_at i) (i_expires_at i).

Definition sample_request : InvitationIssueRequest :=
  request_new (mk_InvitationIssueBinding (MkId "inv") (MkId "t") (MkId "org") (MkId "owner"))
    (mk_InvitationProofDigests (mk_InvitationSubjectDigest (sample_digest Byte.x01)) (mk_InvitationTokenDigest (sample_digest Byte.x02)))
    (mk_InvitationValidityWindow 100%Z 200%Z).
Definition sample_invitation : Invitation := issued sample_request.
Definition sample_consumption : InvitationCommand :=
  mk_InvitationCommand 1 (MkId "guest") 150%Z
    (Consume (mk_InvitationConsumption (MkId "org")
      (mk_AuthenticatedInvitationRecipient (mk_PrincipalContext (MkId "t") (MkId "guest")) (MkId "u") (mk_InvitationSubjectDigest (sample_digest Byte.x01)))
      (mk_InvitationTokenDigest (sample_digest Byte.x02)))).

(** ** Lemmas *)

Lemma validate_lifetime_Ok i e : validate_lifetime i e = Ok tt <-> valid_lifetime i e.
Proof. unfold validate_lifetime, valid_lifetime. by rewrite span_within. Qed.
Lemma snapshot_lifetime_Ok v : validate_snapshot_lifetime v = Ok tt <-> valid_lifetime (v_issued_at v) (v_expires_at v).
Proof. exact (validate_lifetime_Ok (v_issued_at v) (v_expires_at v)). Qed.

Lemma snapshot_lifecycle_Ok i :
  validate_snapshot_lifecycle (i_version i) (i_state i) (bool_decide (is_Some (i_consumed_by i))) = Ok tt <-> lifecycle i.
Proof.
  unfold validate_snapshot_lifecycle, lifecycle. destruct (i_state i), (i_consumed_by i) as [u|]; cbn; try destruct (N.eqb_spec (i_version i) 1);
    try destruct (N.eqb_spec (i_version i) 2); split; try intros [H1 H2]; try done; try congruence; eauto; try by destruct H2.
Qed.

Lemma invitation_snapshot_iff s i : from_snapshot s = Ok i <-> snapshot_state i = s /\ well_formed i.
Proof.
  unfold from_snapshot, validate_snapshot, well_formed. rewrite !validated_Ok. split.
  - intros ((H1 & H2) & [= <-]). destruct s as [[] [] [] v st c]. cbn in *. split; [done|].
    split; [by apply snapshot_lifetime_Ok in H1|]. by rewrite <- snapshot_lifecycle_Ok.
  - intros (<- & H1 & H2). split; [split|]; [by apply snapshot_lifetime_Ok|by apply snapshot_lifecycle_Ok|by destruct i].
Qed.

Lemma apply_action_iff i command r : validate_consumption_scope i command = Ok tt /\ apply_action i command = Ok r <->
  permits i command /\ r = settled_state (action command).
Proof.
  unfold validate_consumption_scope, apply_action, permits, settled_state.
  destruct (action command) as [c| |]; unfold validate_consumption_boundaries, validate_recipient_actor,
    apply_consumption, apply_revocation, apply_expiry, require_not_expired; rewrite ?validated_Ok, ?reject_if_Ok.
  - destruct c as [org [[tenant pid] user sd] [td]]. cbn [recipient_principal c_recipient c_organization_id principal_tenant_id
      principal_id recipient_subject_digest c_token_digest token_bytes recipient_user_id]. rewrite !bool_decide_eq_false, negb_false_iff,
      constant_time_digest_eq_true, Z.leb_gt. destruct (i_token_digest i) as [td']. cbn [token_bytes]. split.
    + intros (((H1%dec_stable & H2%dec_stable) & H3%dec_stable) & H4 & H5%dec_stable & H6 & [= <-]). subst. done.
    + intros (([= -> ->] & -> & -> & [= ->] & H) & ->). split_and!; try done; tauto.
  - rewrite Z.leb_gt. split; [intros (_ & H & [= <-])|intros [H ->]]; done.
  - rewrite Z.ltb_ge. split; [intros (_ & H & [= <-])|intros [H ->]]; done.
Qed.

(** The accepted commands and their result. *)
Lemma invitation_transition_iff i command t : transition i command = Ok t <->
  permits i command /\ i_version i = expected_version command /\ (i_issued_at i <= occurred_at command)%Z /\ i_state i = Issued /\
  i_version i < u64_max /\
  let '(state, kind, user_id) := settled_state (action command) in
  let next := advance i (i_version i + 1) state user_id in
  t = mk_InvitationTransition next (event_from next (actor command) (occurred_at command) kind user_id).
Proof.
  unfold transition, validate_expected_version, validate_command_time, version_next. rewrite !validated_Ok, !reject_if_Ok, negb_false_iff, N.eqb_eq, Z.ltb_ge.
  rewrite result_bind_Ok. split.
  - intros (H1 & H2 & H3 & H4 & [[st k] u] & H5 & (v & [-> Hv]%ok_or_Ok%checked_add_Some & [= <-])%result_bind_Ok).
    destruct (proj1 (apply_action_iff i command _) (conj H1 H5)) as [Hp Hs]. rewrite <- Hs. split_and!; try done; [by destruct (i_state i)|lia].
  - intros (Hp & H2 & H3 & H4 & Hv & Ht). destruct (settled_state (action command)) as [[st k] u] eqn:Hs.
    destruct (proj2 (apply_action_iff i command (st, k, u)) (conj Hp (eq_sym Hs))) as [H1 H5]. rewrite H4. split_and!; try done.
    exists (st, k, u). split; [done|]. rewrite result_bind_Ok. exists (i_version i + 1). split; [|by rewrite Ht].
    apply ok_or_Ok, checked_add_Some. lia.
Qed.

Lemma issue_iff request t : issue request = Ok t <-> valid_lifetime (r_issued_at request) (r_expires_at request) /\
  t = mk_InvitationTransition (issued request) (event_from (issued request) (r_issuer request) (r_issued_at request) EventIssued None).
Proof. unfold issue. rewrite validated_Ok, validate_lifetime_Ok. split; [intros (H & [= <-])|intros (H & ->)]; done. Qed.

Lemma reachable_invitation_well_formed i : reachable i -> well_formed i.
Proof.
  induction 1 as [request t (Hl & ->)%issue_iff|i command t Hr IH Ht%invitation_transition_iff]; [by split|].
  destruct Ht as (_ & _ & _ & Hs & _ & Ht). destruct IH as [Hl Hc]. unfold lifecycle in Hc. rewrite Hs in Hc. destruct Hc as [Hv Hc].
  destruct (action command) as [c| |]; cbn in Ht; subst t; (split; [exact Hl|]); unfold lifecycle; cbn; rewrite Hv; eauto.
Qed.

Lemma well_formed_reachable i : well_formed i -> reachable i.
Proof.
  intros [Hl Hc]. assert (reachable (issued (reissue i))) as H0.
  { refine (reachable_issue (reissue i) (mk_InvitationTransition _ _) _). apply issue_iff. by split. }
  pose proof (fun t => reachable_step _ (settling i (i_consumed_by i) (i_state i)) t H0) as Hstep.
  unfold valid_lifetime in Hl. unfold lifecycle in Hc. destruct i as [id tn org iss sd td ia ea v st c]. cbn in *.
  destruct st; destruct Hc as [-> Hc]; [by subst c|destruct Hc as [u ->]|subst c|subst c].
  all: refine (Hstep (mk_InvitationTransition _ _) _); apply invitation_transition_iff; unfold permits, u64_max; cbn; split_and!; done || lia.
Qed.

(** ** Properties *)

(** What can be persisted is exactly what can happen.  A snapshot is accepted just
    when some issuance and some accepted commands produce the invitation it describes, and the
    invitation read back is that one. *)
Theorem invitation_snapshot_exact s i : from_snapshot s = Ok i <-> reachable i /\ snapshot_state i = s.
Proof. rewrite invitation_snapshot_iff. pose proof (reachable_invitation_well_formed i). pose proof (well_formed_reachable i). tauto. Qed.

(** An invitation is settled at most once.  A command is accepted exactly when it names
    the current version, comes no earlier than the issuance, finds the invitation issued and
    has what its action needs: a consumption before expiry by the very principal, in the very
    tenant and organization, whose subject and token digests are the ones kept; a revocation
    before expiry; an expiry at or after the boundary.  The invitation keeps its identity and
    proofs, records the consumer only for a consumption, emits the event of the new version,
    and accepts no further command. *)
Theorem invitation_settles_once i command (Hi : reachable i) :
  (is_ok (transition i command) = true <->
    permits i command /\ expected_version command = 1 /\ (i_issued_at i <= occurred_at command)%Z /\ i_state i = Issued) /\
  (forall t, transition i command = Ok t ->
    snapshot_state (invitation t) =
      mk_InvitationSnapshotState (s_binding (snapshot_state i)) (s_proofs (snapshot_state i)) (s_validity (snapshot_state i)) 2
        (settled_state (action command)).1.1 (settled_state (action command)).2 /\
    event t = event_from (invitation t) (actor command) (occurred_at command)
      (settled_state (action command)).1.2 (settled_state (action command)).2 /\
    forall later, is_ok (transition (invitation t) later) = false).
Proof.
  apply reachable_invitation_well_formed in Hi as [_ Hc]. split.
  - split.
    + destruct (transition i command) as [t|] eqn:Ht; [|done]. intros _. apply invitation_transition_iff in Ht as (H1 & H2 & H3 & H4 & _).
      unfold lifecycle in Hc. rewrite H4 in Hc. destruct Hc as [Hv _]. by rewrite <- H2.
    + intros (H1 & H2 & H3 & H4). unfold lifecycle in Hc. rewrite H4 in Hc. destruct Hc as [Hv _].
      destruct (settled_state (action command)) as [[st k] u] eqn:Hs.
      eassert (transition i command = Ok _) as ->; [|done]. apply invitation_transition_iff. rewrite Hs, Hv, H2. by split_and!.
  - intros t (_ & _ & _ & Hs & _ & Ht)%invitation_transition_iff. unfold lifecycle in Hc. rewrite Hs in Hc. destruct Hc as [Hv _]. rewrite Hv in Ht.
    destruct (action command) as [c| |]; cbn in Ht; subst t; cbn; (split_and!; [done|done|]); intros later;
      destruct (transition _ later) as [t'|] eqn:Hl; try done; by apply invitation_transition_iff in Hl as (_ & _ & _ & Hl & _).
Qed.
Lemma invitation_settles_once_witness : reachable sample_invitation /\ exists t, transition sample_invitation sample_consumption = Ok t /\
  forall later, is_ok (transition (invitation t) later) = false.
Proof.
  assert (reachable sample_invitation) as Hr.
  { refine (reachable_issue sample_request (mk_InvitationTransition sample_invitation _) _). vm_compute. reflexivity. }
  split; [exact Hr|]. destruct (transition sample_invitation sample_consumption) as [t|] eqn:Ht; [|vm_compute in Ht; discriminate Ht].
  exists t. split; [reflexivity|]. exact (proj2 (proj2 (proj2 (invitation_settles_once sample_invitation sample_consumption Hr) t Ht))).
Defined.
