(* ===== verification/AuthSession.v ===== *)
(** * Browser session families

    Models [crates/optional/ariadnion-auth-session/src]: [error.rs], [ids.rs], [model.rs] with
    its submodule [model/snapshot.rs], and [transition.rs]: a family of sessions with one
    current leaf and the leaves rotated out before it, its issuance, the commands that rotate,
    revoke or expire it, the detection of a rotated token presented again, and the
    reconstruction of a family from its persisted snapshot. *)

From Stdlib Require Import Ascii.
From S2P Require Import Prelude CoreTypes Identity.
From S2P Require UserDomain.
#[local] Open Scope N_scope.
#[local] Open Scope record_scope.

(** ** Errors and identities ([error.rs], [ids.rs]) *)

Inductive SessionErrorCode :=
| InvalidArgument | VersionConflict | VersionExhausted | ResourceLimitExceeded | TenantMismatch | UserMismatch | FamilyMismatch
| SessionMismatch | TokenMismatch | NotYetValid | ExpiredError | NotYetExpired | InactiveLeaf | FamilyTerminal | TokenReuseDetected.
Definition SESSION_ERROR_CODES : list string := [
  "SESSION_INVALID_ARGUMENT"; "SESSION_VERSION_CONFLICT"; "SESSION_VERSION_EXHAUSTED"; "SESSION_RESOURCE_LIMIT_EXCEEDED";
  "SESSION_TENANT_MISMATCH"; "SESSION_USER_MISMATCH"; "SESSION_FAMILY_MISMATCH"; "SESSION_SESSION_MISMATCH"; "SESSION_TOKEN_MISMATCH";
  "SESSION_NOT_YET_VALID"; "SESSION_EXPIRED"; "SESSION_NOT_YET_EXPIRED"; "SESSION_INACTIVE_LEAF"; "SESSION_FAMILY_TERMINAL";
  "SESSION_TOKEN_REUSE_DETECTED" ].
Definition error_index (code : SessionErrorCode) : nat :=
  match code with
  | InvalidArgument => 0 | VersionConflict => 1 | VersionExhausted => 2 | ResourceLimitExceeded => 3 | TenantMismatch => 4
  | UserMismatch => 5 | FamilyMismatch => 6 | SessionMismatch => 7 | TokenMismatch => 8 | NotYetValid => 9 | ExpiredError => 10
  | NotYetExpired => 11 | InactiveLeaf => 12 | FamilyTerminal => 13 | TokenReuseDetected => 14
  end.
(** Indexing out of range would panic, hence the option. *)
Definition as_str (code : SessionErrorCode) : option string := SESSION_ERROR_CODES !! error_index code.
Notation outcome := (result SessionErrorCode).

Definition MAX_IDENTIFIER_BYTES : N := 128.
Definition is_identifier_byte (b : Ascii.ascii) : bool :=
  is_ascii_alphanumeric b || Ascii.eqb b "."%char || Ascii.eqb b "-"%char || Ascii.eqb b "_"%char.
Definition valid_identifier (value : string) : bool :=
  negb (is_empty value) && (byte_len value <=? MAX_IDENTIFIER_BYTES) && is_ascii value && all_bytes is_identifier_byte value.
Definition SessionFamilyId := Id SessionFamilyKind.
Definition SessionId := Id SessionKind.
Definition family_id_parse (value : string) : outcome SessionFamilyId :=
  if negb (valid_identifier value) then Err InvalidArgument else Ok (MkId value).
Definition session_id_parse (value : string) : outcome SessionId :=
  if negb (valid_identifier value) then Err InvalidArgument else Ok (MkId value).

(** [SessionFamilyVersion] and [SessionVersion]: non-zero 64-bit integers. *)
Definition family_version_initial : N := 1.
Definition family_version_new (value : N) : outcome N := if value =? 0 then Err InvalidArgument else Ok value.
Definition family_version_next (v : N) : outcome N := ok_or (checked_add u64_max v 1) VersionExhausted.
Definition session_version_initial : N := 1.
Definition session_version_new (value : N) : outcome N := if value =? 0 then Err InvalidArgument else Ok value.
Definition session_version_next (v : N) : outcome N := ok_or (checked_add u64_max v 1) VersionExhausted.

(** ** The aggregate ([model.rs]) *)

Notation UserId := UserDomain.UserId.
Notation UtcTimestamp := UserDomain.UtcTimestamp.

Definition MAX_ABSOLUTE_LIFETIME_SECONDS : Z := (30 * 24 * 60 * 60)%Z.
Definition MAX_IDLE_LIFETIME_SECONDS : Z := (12 * 60 * 60)%Z.
Definition MIN_SESSION_TOKEN_BYTES : N := 32.
Definition MAX_SESSION_TOKEN_BYTES : N := 256.
Definition MAX_ROTATED_SESSIONS : N := 4096.
(** [b"ariadnion.browser-session.token.v1\0"]. *)
Definition SESSION_TOKEN_DOMAIN : list Byte.byte := Stdlib.Strings.String.list_byte_of_string "ariadnion.browser-session.token.v1" ++ [Byte.x00].

Record SessionSubject := mk_SessionSubject { tenant_id : TenantId; user_id : UserId }.
#[export] Instance SessionSubject_eq_dec : EqDecision SessionSubject.
Proof. solve_decision. Defined.

Definition SessionTokenDigest := digest.
Definition domain_separated_digest `{Sha256} (domain value : list Byte.byte) : digest := sha256 (domain ++ value).
Definition from_token `{Sha256} (token : list Byte.byte) : outcome SessionTokenDigest :=
  reject_if (negb ((MIN_SESSION_TOKEN_BYTES <=? len token) && (len token <=? MAX_SESSION_TOKEN_BYTES))) InvalidArgument ;;
  mret (domain_separated_digest SESSION_TOKEN_DOMAIN token).

Inductive SessionState := Active | Rotated | Revoked | Expired.
Inductive SessionFamilyState := FamilyActive | FamilyRevoked | FamilyExpired.
#[export] Instance SessionState_eq_dec : EqDecision SessionState.
Proof. solve_decision. Defined.
#[export] Instance SessionFamilyState_eq_dec : EqDecision SessionFamilyState.
Proof. solve_decision. Defined.

Record SessionIssueBinding := mk_SessionIssueBinding {
  b_family_id : SessionFamilyId; b_session_id : SessionId; b_subject : SessionSubject; b_actor : PrincipalId;
}.
Record SessionValidityWindow := mk_SessionValidityWindow {
  w_issued_at : UtcTimestamp; w_absolute_expires_at : UtcTimestamp; w_idle_expires_at : UtcTimestamp;
}.
Record SessionIssueRequest := mk_SessionIssueRequest {
  r_binding : SessionIssueBinding; r_token_digest : SessionTokenDigest; r_validity : SessionValidityWindow;
}.

Record Session := mk_Session {
  s_id : SessionId; s_token_digest : SessionTokenDigest; s_issued_at : UtcTimestamp; s_last_seen_at : UtcTimestamp;
  s_idle_expires_at : UtcTimestamp; s_version : N; s_state : SessionState; s_predecessor_id : option SessionId;
}.
Definition active_leaf (id : SessionId) (token_digest : SessionTokenDigest) (issued_at idle_expires_at : UtcTimestamp)
    (predecessor_id : option SessionId) : Session :=
  mk_Session id token_digest issued_at issued_at idle_expires_at session_version_initial Active predecessor_id.
Definition with_state (s : Session) (state : SessionState) : outcome Session :=
  version ← session_version_next (s_version s);
  mret (mk_Session (s_id s) (s_token_digest s) (s_issued_at s) (s_last_seen_at s) (s_idle_expires_at s) version state (s_predecessor_id s)).

Record SessionFamily := mk_SessionFamily {
  f_id : SessionFamilyId; f_subject : SessionSubject; f_absolute_expires_at : UtcTimestamp; f_issued_at : UtcTimestamp;
  f_version : N; f_state : SessionFamilyState; f_current : Session; f_rotated : list Session;
}.
Definition issued (request : SessionIssueRequest) : SessionFamily :=
  let binding := r_binding request in
  let validity := r_validity request in
  let leaf := active_leaf (b_session_id binding) (r_token_digest request) (w_issued_at validity) (w_idle_expires_at validity) None in
  mk_SessionFamily (b_family_id binding) (b_subject binding) (w_absolute_expires_at validity) (w_issued_at validity)
    family_version_initial FamilyActive leaf [].
Definition advance (f : SessionFamily) (version : N) (state : SessionFamilyState) (current : Session) (rotated : list Session)
    : SessionFamily :=
  mk_SessionFamily (f_id f) (f_subject f) (f_absolute_expires_at f) (f_issued_at f) version state current rotated.
Definition previous (f : SessionFamily) : option Session := last (f_rotated f).

(** ** Snapshots ([model/snapshot.rs]) *)

Record SessionSnapshot := mk_SessionSnapshot {
  l_family_id : SessionFamilyId; l_subject : SessionSubject; l_id : SessionId; l_token_digest : SessionTokenDigest;
  l_issued_at : UtcTimestamp; l_last_seen_at : UtcTimestamp; l_idle_expires_at : UtcTimestamp; l_version : N;
  l_state : SessionState; l_predecessor_id : option SessionId;
}.
Record SessionFamilySnapshot := mk_SessionFamilySnapshot {
  fs_id : SessionFamilyId; fs_subject : SessionSubject; fs_issued_at : UtcTimestamp; fs_absolute_expires_at : UtcTimestamp;
  fs_version : N; fs_state : SessionFamilyState; fs_current : SessionSnapshot; fs_rotated : list SessionSnapshot;
}.
Definition into_session (s : SessionSnapshot) : Session :=
  mk_Session (l_id s) (l_token_digest s) (l_issued_at s) (l_last_seen_at s) (l_idle_expires_at s) (l_version s) (l_state s) (l_predecessor_id s).
Definition snapshot_leaf (f : SessionFamily) (leaf : Session) : SessionSnapshot :=
  mk_SessionSnapshot (f_id f) (f_subject f) (s_id leaf) (s_token_digest leaf) (s_issued_at leaf) (s_last_seen_at leaf)
    (s_idle_expires_at leaf) (s_version leaf) (s_state leaf) (s_predecessor_id leaf).
Definition snapshot_state (f : SessionFamily) : SessionFamilySnapshot :=
  mk_SessionFamilySnapshot (f_id f) (f_subject f) (f_issued_at f) (f_absolute_expires_at f) (f_version f) (f_state f)
    (snapshot_leaf f (f_current f)) (snapshot_leaf f <$> f_rotated f).

Definition validate_capacity (s : SessionFamilySnapshot) : outcome unit :=
  reject_if (MAX_ROTATED_SESSIONS <? len (fs_rotated s)) ResourceLimitExceeded.
Definition validate_family_window (s : SessionFamilySnapshot) : outcome unit :=
  span ← ok_or (i64_checked_sub (fs_absolute_expires_at s) (fs_issued_at s)) InvalidArgument;
  reject_if (negb ((1 <=? span)%Z && (span <=? MAX_ABSOLUTE_LIFETIME_SECONDS)%Z)) InvalidArgument.
Definition validate_family_version (s : SessionFamilySnapshot) : outcome unit :=
  let history := len (fs_rotated s) in
  let transition_count := match fs_state s with FamilyActive => 1 | FamilyRevoked | FamilyExpired => 2 end in
  expected ← ok_or (checked_add u64_max history transition_count) InvalidArgument;
  reject_if (negb (fs_version s =? expected)) InvalidArgument.
Definition validate_leaf_binding (s : SessionFamilySnapshot) (leaf : SessionSnapshot) : outcome unit :=
  reject_if (bool_decide (l_family_id leaf <> fs_id s)) FamilyMismatch ;;
  reject_if (bool_decide (tenant_id (l_subject leaf) <> tenant_id (fs_subject s))) TenantMismatch ;;
  reject_if (bool_decide (user_id (l_subject leaf) <> user_id (fs_subject s))) UserMismatch.
Definition validate_bindings (s : SessionFamilySnapshot) : outcome unit :=
  validate_leaf_binding s (fs_current s) ;; check_each (validate_leaf_binding s) (fs_rotated s).

Record LifecycleExpectation := mk_LifecycleExpectation {
  current_state : SessionState; current_version : N; rotated_state : SessionState; rotated_version : N;
}.
Definition lifecycle_expectation (state : SessionFamilyState) : LifecycleExpectation :=
  match state with
  | FamilyActive => mk_LifecycleExpectation Active 1 Rotated 2
  | FamilyRevoked => mk_LifecycleExpectation Revoked 2 Revoked 3
  | FamilyExpired => mk_LifecycleExpectation Expired 2 Expired 3
  end.
Definition validate_leaf_lifecycle (leaf : SessionSnapshot) (expected_state : SessionState) (expected_version : N) : outcome unit :=
  reject_if (bool_decide (l_state leaf <> expected_state)) InvalidArgument ;;
  reject_if (negb (l_version leaf =? expected_version)) InvalidArgument.
Definition validate_lifecycle (s : SessionFamilySnapshot) : outcome unit :=
  let expected := lifecycle_expectation (fs_state s) in
  validate_leaf_lifecycle (fs_current s) (current_state expected) (current_version expected) ;;
  check_each (fun leaf => validate_leaf_lifecycle leaf (rotated_state expected) (rotated_version expected)) (fs_rotated s).

Definition validate_history_leaf (leaf : SessionSnapshot) (expected_predecessor : option SessionId) (preceding_issued_at : UtcTimestamp)
    : outcome unit :=
  reject_if (bool_decide (l_predecessor_id leaf <> expected_predecessor)) InvalidArgument ;;
  reject_if (l_issued_at leaf <? preceding_issued_at)%Z InvalidArgument.
Definition validate_current_order (s : SessionFamilySnapshot) (expected_predecessor : option SessionId) (preceding_issued_at : UtcTimestamp)
    : outcome unit :=
  reject_if (bool_decide (l_predecessor_id (fs_current s) <> expected_predecessor)) InvalidArgument ;;
  reject_if (l_issued_at (fs_current s) <? preceding_issued_at)%Z InvalidArgument ;;
  let first_issued_at := match head (fs_rotated s) with Some leaf => l_issued_at leaf | None => l_issued_at (fs_current s) end in
  reject_if (negb (first_issued_at =? fs_issued_at s)%Z) InvalidArgument.
(** The loop of [validate_history_order]: the predecessor and issuance it reaches. *)
Fixpoint history_order (predecessor : option SessionId) (preceding_issued_at : UtcTimestamp) (leaves : list SessionSnapshot)
    : outcome (option SessionId * UtcTimestamp) :=
  match leaves with
  | [] => Ok (predecessor, preceding_issued_at)
  | leaf :: rest =>
      validate_history_leaf leaf predecessor preceding_issued_at ;; history_order (Some (l_id leaf)) (l_issued_at leaf) rest
  end.
Definition validate_history_order (s : SessionFamilySnapshot) : outcome unit :=
  '(predecessor, preceding_issued_at) ← history_order None (fs_issued_at s) (fs_rotated s);
  validate_current_order s predecessor preceding_issued_at.

Definition validate_leaf_time_order (leaf : SessionSnapshot) : outcome unit :=
  reject_if (l_last_seen_at leaf <? l_issued_at leaf)%Z InvalidArgument ;;
  reject_if (l_idle_expires_at leaf <=? l_last_seen_at leaf)%Z InvalidArgument.
Definition validate_leaf_family_bounds (s : SessionFamilySnapshot) (leaf : SessionSnapshot) : outcome unit :=
  reject_if (l_issued_at leaf <? fs_issued_at s)%Z InvalidArgument ;;
  reject_if (fs_absolute_expires_at s <=? l_issued_at leaf)%Z InvalidArgument ;;
  reject_if (fs_absolute_expires_at s <? l_idle_expires_at leaf)%Z InvalidArgument.
Definition validate_leaf_window (s : SessionFamilySnapshot) (leaf : SessionSnapshot) : outcome unit :=
  validate_leaf_time_order leaf ;;
  validate_leaf_family_bounds s leaf ;;
  idle_span ← ok_or (i64_checked_sub (l_idle_expires_at leaf) (l_last_seen_at leaf)) InvalidArgument;
  reject_if (MAX_IDLE_LIFETIME_SECONDS <? idle_span)%Z InvalidArgument.
Definition validate_leaf_windows (s : SessionFamilySnapshot) : outcome unit :=
  validate_leaf_window s (fs_current s) ;; check_each (validate_leaf_window s) (fs_rotated s).

(** [HashSet::insert] answers whether the element is new; a set is the list of its elements. *)
Definition validate_unique_leaf (leaf : SessionSnapshot) (seen : list SessionId * list SessionTokenDigest)
    : outcome (list SessionId * list SessionTokenDigest) :=
  let '(ids, digests) := seen in
  if bool_decide (l_id leaf ∈ ids) then Err InvalidArgument
  else if bool_decide (l_token_digest leaf ∈ digests) then Err InvalidArgument
  else Ok (l_id leaf :: ids, l_token_digest leaf :: digests).
Fixpoint validate_unique_leaves (leaves : list SessionSnapshot) (seen : list SessionId * list SessionTokenDigest) : outcome unit :=
  match leaves with
  | [] => Ok tt
  | leaf :: rest => seen ← validate_unique_leaf leaf seen; validate_unique_leaves rest seen
  end.
(** The capacity cannot overflow: [validate_capacity] precedes it. *)
Definition validate_uniqueness (s : SessionFamilySnapshot) : outcome unit :=
  seen ← validate_unique_leaf (fs_current s) ([], []); validate_unique_leaves (fs_rotated s) seen.

Definition validate_snapshot (s : SessionFamilySnapshot) : outcome unit :=
  validate_capacity s ;;
  validate_family_window s ;;
  validate_family_version s ;;
  validate_bindings s ;;
  validate_lifecycle s ;;
  validate_history_order s ;;
  validate_leaf_windows s ;;
  validate_uniqueness s.
Definition from_snapshot (s : SessionFamilySnapshot) : outcome SessionFamily :=
  validate_snapshot s ;;
  mret (mk_SessionFamily (fs_id s) (fs_subject s) (fs_absolute_expires_at s) (fs_issued_at s) (fs_version s) (fs_state s)
    (into_session (fs_current s)) (into_session <$> fs_rotated s)).

(** ** Commands and events ([transition.rs]) *)

Record SessionRotationEvidence := mk_SessionRotationEvidence {
  ev_family_id : SessionFamilyId; ev_session_id : SessionId; ev_subject : SessionSubject; presented_token : SessionTokenDigest;
}.
Record SessionRotation := mk_SessionRotation {
  evidence : SessionRotationEvidence; successor_session_id : SessionId; successor_token : SessionTokenDigest;
  ro_idle_expires_at : UtcTimestamp;
}.
(** [DetectReuse] carries the four fields of the evidence of a rotation, which [ReuseEvidence]
    regroups. *)
Inductive SessionAction :=
| Rotate (rotation : SessionRotation)
| DetectReuse (reuse : SessionRotationEvidence)
| Revoke (subject : SessionSubject)
| Expire (subject : SessionSubject).
Record SessionCommand := mk_SessionCommand {
  expected_version : N; actor : PrincipalId; occurred_at : UtcTimestamp; action : SessionAction;
}.
Inductive SessionEventKind := EventIssued | EventRotated | EventReuseRevoked | EventRevoked | EventExpired.
Record SessionEvent := mk_SessionEvent {
  e_family_id : SessionFamilyId; e_session_id : SessionId; e_tenant_id : TenantId; e_user_id : UserId; e_actor : PrincipalId;
  e_occurred_at : UtcTimestamp; e_version : N; e_kind : SessionEventKind;
}.
Record SessionTransition := mk_SessionTransition { family : SessionFamily; event : SessionEvent }.

Definition event_from (f : SessionFamily) (a : PrincipalId) (at_ : UtcTimestamp) (kind : SessionEventKind) : SessionEvent :=
  mk_SessionEvent (f_id f) (s_id (f_current f)) (tenant_id (f_subject f)) (user_id (f_subject f)) a at_ (f_version f) kind.

Definition validate_positive_window_order (issued absolute idle : Z) : outcome unit :=
  reject_if ((absolute <=? issued)%Z || (idle <=? issued)%Z) InvalidArgument.
Definition validate_window_spans (issued absolute idle : Z) : outcome unit :=
  absolute_span ← ok_or (i64_checked_sub absolute issued) InvalidArgument;
  idle_span ← ok_or (i64_checked_sub idle issued) InvalidArgument;
  reject_if ((MAX_ABSOLUTE_LIFETIME_SECONDS <? absolute_span)%Z || (MAX_IDLE_LIFETIME_SECONDS <? idle_span)%Z) InvalidArgument.
Definition validate_validity_window (w : SessionValidityWindow) : outcome unit :=
  let issued := w_issued_at w in
  let absolute := w_absolute_expires_at w in
  let idle := w_idle_expires_at w in
  validate_positive_window_order issued absolute idle ;;
  validate_window_spans issued absolute idle ;;
  reject_if (absolute <? idle)%Z InvalidArgument.
Definition issue_session (request : SessionIssueRequest) : outcome SessionTransition :=
  validate_validity_window (r_validity request) ;;
  let f := issued request in
  mret (mk_SessionTransition f (event_from f (b_actor (r_binding request)) (w_issued_at (r_validity request)) EventIssued)).

Definition validate_expected_version (f : SessionFamily) (expected : N) : outcome unit :=
  reject_if (negb (f_version f =? expected)) VersionConflict.
Definition validate_command_time (f : SessionFamily) (at_ : UtcTimestamp) : outcome unit :=
  reject_if ((at_ <? f_issued_at f)%Z || (at_ <? s_last_seen_at (f_current f))%Z) NotYetValid.
Definition validate_active_family (f : SessionFamily) : outcome unit :=
  reject_if (bool_decide (f_state f <> FamilyActive)) FamilyTerminal ;;
  reject_if (bool_decide (s_state (f_current f) <> Active)) InactiveLeaf.
Definition validate_subject (f : SessionFamily) (subject : SessionSubject) : outcome unit :=
  reject_if (bool_decide (tenant_id (f_subject f) <> tenant_id subject)) TenantMismatch ;;
  reject_if (bool_decide (user_id (f_subject f) <> user_id subject)) UserMismatch.
Definition validate_family_id (f : SessionFamily) (id : SessionFamilyId) : outcome unit :=
  reject_if (bool_decide (f_id f <> id)) FamilyMismatch.
Definition validate_current_leaf (f : SessionFamily) (id : SessionId) : outcome unit :=
  reject_if (bool_decide (s_id (f_current f) <> id)) SessionMismatch.
Definition validate_not_expired (f : SessionFamily) (at_ : UtcTimestamp) : outcome unit :=
  reject_if ((f_absolute_expires_at f <=? at_)%Z || (s_idle_expires_at (f_current f) <=? at_)%Z) ExpiredError.
Definition validate_rotation_preconditions (f : SessionFamily) (at_ : UtcTimestamp) (r : SessionRotation) : outcome unit :=
  validate_active_family f ;;
  validate_subject f (ev_subject (evidence r)) ;;
  validate_family_id f (ev_family_id (evidence r)) ;;
  validate_current_leaf f (ev_session_id (evidence r)) ;;
  validate_not_expired f at_.
Definition validate_idle_window (f : SessionFamily) (at_ idle_expires_at : UtcTimestamp) : outcome unit :=
  reject_if (idle_expires_at <=? at_)%Z InvalidArgument ;;
  idle_span ← ok_or (i64_checked_sub idle_expires_at at_) InvalidArgument;
  reject_if (MAX_IDLE_LIFETIME_SECONDS <? idle_span)%Z InvalidArgument ;;
  reject_if (f_absolute_expires_at f <? idle_expires_at)%Z InvalidArgument.
Definition session_id_was_used (f : SessionFamily) (candidate : SessionId) : bool :=
  foldl (fun found leaf => found || bool_decide (s_id leaf = candidate)) (bool_decide (s_id (f_current f) = candidate)) (f_rotated f).
Definition validate_expiration_time (f : SessionFamily) (at_ : UtcTimestamp) : outcome unit :=
  reject_if ((at_ <? f_absolute_expires_at f)%Z && (at_ <? s_idle_expires_at (f_current f))%Z) NotYetExpired.

Inductive PresentedTokenOutcome := ActiveMatch | PreviousMatch | Mismatch.

Section compare.
Context `{ConstantTimeEq}.

(** Every leaf is compared: [Choice] has no early exit. *)
Definition token_was_used (f : SessionFamily) (candidate : SessionTokenDigest) : bool :=
  foldl (fun found leaf => found || ct_eq (s_token_digest leaf) candidate) (ct_eq (s_token_digest (f_current f)) candidate) (f_rotated f).
Definition rotated_token_match_choice (f : SessionFamily) (presented : SessionTokenDigest) : bool :=
  foldl (fun found leaf => found || ct_eq (s_token_digest leaf) presented) false (f_rotated f).
Definition rotated_session_matches (f : SessionFamily) (session_id : SessionId) (presented : SessionTokenDigest) : bool :=
  foldl (fun found leaf => found || (bool_decide (s_id leaf = session_id) && ct_eq (s_token_digest leaf) presented)) false (f_rotated f).
Definition evaluate_presented_token (f : SessionFamily) (presented : SessionTokenDigest) : PresentedTokenOutcome :=
  let current_matches := ct_eq (s_token_digest (f_current f)) presented in
  let rotated_matches := rotated_token_match_choice f presented in
  if current_matches then ActiveMatch else if rotated_matches then PreviousMatch else Mismatch.
Definition validate_successor (f : SessionFamily) (r : SessionRotation) : outcome unit :=
  reject_if (MAX_ROTATED_SESSIONS <=? len (f_rotated f)) ResourceLimitExceeded ;;
  let id_was_used := session_id_was_used f (successor_session_id r) in
  let token_was_used := token_was_used f (successor_token r) in
  reject_if (id_was_used || token_was_used) InvalidArgument.

Definition rotated_with_state (f : SessionFamily) (state : SessionState) : outcome (list Session) :=
  collect (fun leaf => with_state leaf state) (f_rotated f).
Definition rotate_active_leaf (f : SessionFamily) (a : PrincipalId) (at_ : UtcTimestamp) (r : SessionRotation) : outcome SessionTransition :=
  version ← family_version_next (f_version f);
  predecessor ← with_state (f_current f) Rotated;
  let successor := active_leaf (successor_session_id r) (successor_token r) at_ (ro_idle_expires_at r) (Some (s_id predecessor)) in
  let next := advance f version FamilyActive successor (f_rotated f ++ [predecessor]) in
  mret (mk_SessionTransition next (event_from next a at_ EventRotated)).
Definition revoke_for_reuse (f : SessionFamily) (a : PrincipalId) (at_ : UtcTimestamp) : outcome SessionTransition :=
  version ← family_version_next (f_version f);
  current_leaf ← with_state (f_current f) Revoked;
  rotated ← rotated_with_state f Revoked;
  let next := advance f version FamilyRevoked current_leaf rotated in
  mret (mk_SessionTransition next (event_from next a at_ EventReuseRevoked)).
Definition apply_rotation (f : SessionFamily) (a : PrincipalId) (at_ : UtcTimestamp) (r : SessionRotation) : outcome SessionTransition :=
  validate_rotation_preconditions f at_ r ;;
  match evaluate_presented_token f (presented_token (evidence r)) with
  | ActiveMatch =>
      validate_idle_window f at_ (ro_idle_expires_at r) ;;
      validate_successor f r ;;
      rotate_active_leaf f a at_ r
  | PreviousMatch => revoke_for_reuse f a at_
  | Mismatch => Err TokenMismatch
  end.
Definition apply_reuse_detection (f : SessionFamily) (a : PrincipalId) (at_ : UtcTimestamp) (e : SessionRotationEvidence)
    : outcome SessionTransition :=
  validate_subject f (ev_subject e) ;;
  validate_family_id f (ev_family_id e) ;;
  reject_if (bool_decide (f_state f <> FamilyActive)) FamilyTerminal ;;
  reject_if (negb (rotated_session_matches f (ev_session_id e) (presented_token e))) TokenMismatch ;;
  revoke_for_reuse f a at_.
Definition apply_revoke (f : SessionFamily) (a : PrincipalId) (at_ : UtcTimestamp) (subject : SessionSubject) : outcome SessionTransition :=
  validate_subject f subject ;;
  validate_active_family f ;;
  version ← family_version_next (f_version f);
  current_leaf ← with_state (f_current f) Revoked;
  rotated ← rotated_with_state f Revoked;
  let next := advance f version FamilyRevoked current_leaf rotated in
  mret (mk_SessionTransition next (event_from next a at_ EventRevoked)).
Definition apply_expire (f : SessionFamily) (a : PrincipalId) (at_ : UtcTimestamp) (subject : SessionSubject) : outcome SessionTransition :=
  validate_subject f subject ;;
  validate_active_family f ;;
  validate_expiration_time f at_ ;;
  version ← family_version_next (f_version f);
  current_leaf ← with_state (f_current f) Expired;
  rotated ← rotated_with_state f Expired;
  let next := advance f version FamilyExpired current_leaf rotated in
  mret (mk_SessionTransition next (event_from next a at_ EventExpired)).
Definition transition_session_family (f : SessionFamily) (command : SessionCommand) : outcome SessionTransition :=
  validate_expected_version f (expected_version command) ;;
  validate_command_time f (occurred_at command) ;;
  match action command with
  | Rotate r => apply_rotation f (actor command) (occurred_at command) r
  | DetectReuse e => apply_reuse_detection f (actor command) (occurred_at command) e
  | Revoke subject => apply_revoke f (actor command) (occurred_at command) subject
  | Expire subject => apply_expire f (actor command) (occurred_at command) subject
  end.
End compare.

(** ** Specification *)

(** Every leaf of a family, in issuance order. *)
Definition leaves (f : SessionFamily) : list Session := f_rotated f ++ [f_current f].
(** Each leaf follows the one before it, and is issued no earlier. *)
Fixpoint chained (predecessor : option SessionId) (since : UtcTimestamp) (ls : list Session) : Prop :=
  match ls with
  | [] => True
  | l :: rest => s_predecessor_id l = predecessor /\ (since <= s_issued_at l)%Z /\ chained (Some (s_id l)) (s_issued_at l) rest
  end.
(** Where a chain of leaves ends. *)
Fixpoint chain_end (predecessor : option SessionId) (since : UtcTimestamp) (ls : list Session) : option SessionId * UtcTimestamp :=
  match ls with
  | [] => (predecessor, since)
  | l :: rest => chain_end (Some (s_id l)) (s_issued_at l) rest
  end.
Definition leaf_window (f : SessionFamily) (l : Session) : Prop :=
  (s_issued_at l <= s_last_seen_at l < s_idle_expires_at l)%Z /\ (f_issued_at f <= s_issued_at l < f_absolute_expires_at f)%Z /\
  (s_idle_expires_at l <= f_absolute_expires_at f)%Z /\ (s_idle_expires_at l - s_last_seen_at l <= MAX_IDLE_LIFETIME_SECONDS)%Z.
(** The number of accepted commands a family state accounts for beyond its rotations. *)
Definition closings (state : SessionFamilyState) : N := match state with FamilyActive => 1 | _ => 2 end.
Record well_formed (f : SessionFamily) : Prop := mk_well_formed {
  wf_capacity : len (f_rotated f) <= MAX_ROTATED_SESSIONS;
  wf_window : (1 <= f_absolute_expires_at f - f_issued_at f <= MAX_ABSOLUTE_LIFETIME_SECONDS)%Z;
  wf_version : f_version f = len (f_rotated f) + closings (f_state f);
  wf_current : s_state (f_current f) = current_state (lifecycle_expectation (f_state f)) /\
    s_version (f_current f) = current_version (lifecycle_expectation (f_state f));
  wf_rotated : Forall (fun l => s_state l = rotated_state (lifecycle_expectation (f_state f)) /\
    s_version l = rotated_version (lifecycle_expectation (f_state f))) (f_rotated f);
  wf_chained : chained None (f_issued_at f) (leaves f);
  wf_first : s_issued_at <$> head (leaves f) = Some (f_issued_at f);
  wf_leaves : Forall (leaf_window f) (leaves f);
  wf_ids : NoDup (s_id <$> leaves f);
  wf_tokens : NoDup (s_token_digest <$> leaves f);
}.

(** A leaf moved to another state. *)
Definition bump (state : SessionState) (l : Session) : Session :=
  mk_Session (s_id l) (s_token_digest l) (s_issued_at l) (s_last_seen_at l) (s_idle_expires_at l) (s_version l + 1) state (s_predecessor_id l).
(** A family with every leaf moved to a terminal state. *)
Definition closed (f : SessionFamily) (state : SessionFamilyState) (leaf_state : SessionState) : SessionFamily :=
  advance f (f_version f + 1) state (bump leaf_state (f_current f)) (bump leaf_state <$> f_rotated f).
Definition closing (f : SessionFamily) (state : SessionFamilyState) (leaf_state : SessionState) (kind : SessionEventKind) (c : SessionCommand)
    : SessionTransition :=
  mk_SessionTransition (closed f state leaf_state) (event_from (closed f state leaf_state) (actor c) (occurred_at c) kind).
(** A family with a successor leaf. *)
Definition succeeded (f : SessionFamily) (r : SessionRotation) (at_ : UtcTimestamp) : SessionFamily :=
  advance f (f_version f + 1) FamilyActive
    (active_leaf (successor_session_id r) (successor_token r) at_ (ro_idle_expires_at r) (Some (s_id (f_current f))))
    (f_rotated f ++ [bump Rotated (f_current f)]).
(** A successor that a family can take at an instant. *)
Definition acceptable (f : SessionFamily) (r : SessionRotation) (at_ : UtcTimestamp) : Prop :=
  (at_ < ro_idle_expires_at r <= f_absolute_expires_at f)%Z /\ (ro_idle_expires_at r - at_ <= MAX_IDLE_LIFETIME_SECONDS)%Z /\
  len (f_rotated f) < MAX_ROTATED_SESSIONS /\
  successor_session_id r ∉ (s_id <$> leaves f) /\ successor_token r ∉ (s_token_digest <$> leaves f).
Definition names_family (f : SessionFamily) (e : SessionRotationEvidence) : Prop :=
  ev_subject e = f_subject f /\ ev_family_id e = f_id f.
(** What an accepted command needs, and the transition it makes. *)
Definition accepts (f : SessionFamily) (c : SessionCommand) (t : SessionTransition) : Prop :=
  expected_version c = f_version f /\ (f_issued_at f <= occurred_at c)%Z /\ (s_last_seen_at (f_current f) <= occurred_at c)%Z /\
  f_state f = FamilyActive /\
  match action c with
  | Rotate r =>
      names_family f (evidence r) /\ ev_session_id (evidence r) = s_id (f_current f) /\
      (occurred_at c < f_absolute_expires_at f)%Z /\ (occurred_at c < s_idle_expires_at (f_current f))%Z /\
      ((presented_token (evidence r) = s_token_digest (f_current f) /\ acceptable f r (occurred_at c) /\
        t = mk_SessionTransition (succeeded f r (occurred_at c)) (event_from (succeeded f r (occurred_at c)) (actor c) (occurred_at c) EventRotated)) \/
       (presented_token (evidence r) ∈ (s_token_digest <$> f_rotated f) /\ t = closing f FamilyRevoked Revoked EventReuseRevoked c))
  | DetectReuse e =>
      names_family f e /\ (exists l, l ∈ f_rotated f /\ s_id l = ev_session_id e /\ s_token_digest l = presented_token e) /\
      t = closing f FamilyRevoked Revoked EventReuseRevoked c
  | Revoke subject => subject = f_subject f /\ t = closing f FamilyRevoked Revoked EventRevoked c
  | Expire subject =>
      subject = f_subject f /\ (f_absolute_expires_at f <= occurred_at c \/ s_idle_expires_at (f_current f) <= occurred_at c)%Z /\
      t = closing f FamilyExpired Expired EventExpired c
  end.

(** The rotated leaves a family remembers. *)
Definition remembered (f : SessionFamily) : list (SessionId * SessionTokenDigest) := (fun l => (s_id l, s_token_digest l)) <$> f_rotated f.
(** A computation that does not run out of versions. *)
Definition never_exhausted {A} (m : outcome A) : Prop := m <> Err VersionExhausted.

(** Families that an issuance and accepted commands produce. *)
Inductive session_step `{ConstantTimeEq} (f : SessionFamily) : SessionFamily -> Prop :=
| session_command c t : transition_session_family f c = Ok t -> session_step f (family t).
Definition reachable `{ConstantTimeEq} (f : SessionFamily) : Prop :=
  exists request t, issue_session request = Ok t /\ rtc session_step (family t) f.

Definition sample_subject : SessionSubject := mk_SessionSubject (MkId "t") (MkId "u").
Definition sample_session_request : SessionIssueRequest :=
  mk_SessionIssueRequest (mk_SessionIssueBinding (MkId "fam") (MkId "s1") sample_subject (MkId "p")) (sample_digest Byte.x01)
    (mk_SessionValidityWindow 0%Z 1000%Z 100%Z).
Definition sample_family : SessionFamily := issued sample_session_request.
Definition sample_evidence (leaf : string) (token : Byte.byte) : SessionRotationEvidence :=
  mk_SessionRotationEvidence (MkId "fam") (MkId leaf) sample_subject (sample_digest token).
Definition sample_rotation : SessionRotation :=
  mk_SessionRotation (sample_evidence "s1" Byte.x01) (MkId "s2") (sample_digest Byte.x02) 150%Z.
Definition sample_rotate : SessionCommand := mk_SessionCommand 1 (MkId "p") 60%Z (Rotate sample_rotation).
Definition sample_rotated : SessionFamily := succeeded sample_family sample_rotation 60%Z.
(** The token of the first leaf, presented again in the name of the second. *)
Definition sample_replay : SessionCommand :=
  mk_SessionCommand 2 (MkId "p") 70%Z
    (Rotate (mk_SessionRotation (sample_evidence "s2" Byte.x01) (MkId "s3") (sample_digest Byte.x03) 160%Z)).

Definition sample_seen : SessionFamily :=
  advance sample_family 1 FamilyActive (mk_Session (MkId "s1") (sample_digest Byte.x01) 0%Z 50%Z 100%Z 1 Active None) [].

(** ** Lemmas: snapshots *)

Lemma chained_snoc p since ls l : chained p since (ls ++ [l]) <->
  chained p since ls /\ s_predecessor_id l = (chain_end p since ls).1 /\ ((chain_end p since ls).2 <= s_issued_at l)%Z.
Proof.
  revert p since. induction ls as [|a ls IH]; intros p since; cbn; [tauto|]. rewrite IH. tauto.
Qed.
Lemma chain_end_snoc p since ls l : chain_end p since (ls ++ [l]) = (Some (s_id l), s_issued_at l).
Proof. revert p since. induction ls as [|a ls IH]; intros p since; cbn; [done|]. apply IH. Qed.
Lemma chain_end_bump p since ls st : chain_end p since (bump st <$> ls) = chain_end p since ls.
Proof. revert p since. induction ls as [|a ls IH]; intros p since; cbn; [done|]. apply IH. Qed.
Lemma chained_bump p since ls st : chained p since (bump st <$> ls) <-> chained p since ls.
Proof. revert p since. induction ls as [|a ls IH]; intros p since; cbn; [done|]. by rewrite IH. Qed.

Lemma history_order_Ok f p since ls x :
  history_order p since (snapshot_leaf f <$> ls) = Ok x <-> chained p since ls /\ x = chain_end p since ls.
Proof.
  revert p since. induction ls as [|l ls IH]; intros p since; cbn [history_order fmap list_fmap chained chain_end].
  - split; [intros [= <-]|intros [_ ->]]; done.
  - rewrite validated_Ok, IH. unfold validate_history_leaf. rewrite validated_Ok, keeps, reject_if_Ok, Z.ltb_ge. cbn. tauto.
Qed.

Lemma validate_unique_leaf_Ok l seen seen' : validate_unique_leaf l seen = Ok seen' <->
  l_id l ∉ seen.1 /\ l_token_digest l ∉ seen.2 /\ seen' = (l_id l :: seen.1, l_token_digest l :: seen.2).
Proof.
  unfold validate_unique_leaf. destruct seen as [ids tokens]. cbn. repeat case_bool_decide; naive_solver.
Qed.
Lemma validate_unique_leaves_Ok ls ids tokens : validate_unique_leaves ls (ids, tokens) = Ok tt <->
  (NoDup (l_id <$> ls) /\ Forall (fun i => i ∉ ids) (l_id <$> ls)) /\
  (NoDup (l_token_digest <$> ls) /\ Forall (fun i => i ∉ tokens) (l_token_digest <$> ls)).
Proof.
  revert ids tokens. induction ls as [|l ls IH]; intros ids tokens; cbn [validate_unique_leaves fmap list_fmap].
  - split; [|done]. intros _. split_and!; constructor.
  - rewrite result_bind_Ok. setoid_rewrite validate_unique_leaf_Ok. cbn [fst snd]. rewrite !NoDup_cons, !Forall_cons. split.
    + intros (seen & (H1 & H2 & ->) & H3). apply IH in H3 as ((H3 & H4) & H5 & H6). rewrite !Forall_forall in *. set_solver.
    + intros (((H1 & H2) & H3 & H4) & (H5 & H6) & H7 & H8). eexists. split; [by split_and!|]. apply IH.
      rewrite !Forall_forall in *. split; split; try done; intros i Hi; rewrite not_elem_of_cons; split; try (intros ->); eauto.
Qed.

Lemma leaf_binding_ok f l : validate_leaf_binding (snapshot_state f) (snapshot_leaf f l) = Ok tt.
Proof. unfold validate_leaf_binding. cbn. by rewrite !validated_Ok, !keeps. Qed.
Lemma leaf_binding_inv s l : validate_leaf_binding s l = Ok tt -> l_family_id l = fs_id s /\ l_subject l = fs_subject s.
Proof.
  unfold validate_leaf_binding. rewrite !validated_Ok, !keeps. intros (H1 & H2 & H3). split; [done|].
  destruct (l_subject l), (fs_subject s). cbn in *. by subst.
Qed.
Lemma leaf_lifecycle_Ok f l st v : validate_leaf_lifecycle (snapshot_leaf f l) st v = Ok tt <-> s_state l = st /\ s_version l = v.
Proof. unfold validate_leaf_lifecycle. rewrite validated_Ok, keeps, reject_if_Ok, negb_false_iff, N.eqb_eq. done. Qed.
Lemma leaf_window_Ok f l : validate_leaf_window (snapshot_state f) (snapshot_leaf f l) = Ok tt <-> leaf_window f l.
Proof.
  unfold validate_leaf_window, validate_leaf_time_order, validate_leaf_family_bounds, leaf_window. rewrite !validated_Ok, !reject_if_Ok. cbn.
  destruct (decide (s_last_seen_at l <= s_idle_expires_at l)%Z) as [Hl|Hl]; [rewrite span_at_most by done|]; rewrite !Z.ltb_ge, !Z.leb_gt; lia.
Qed.
Lemma leaves_Forall (P : Session -> Prop) f : P (f_current f) /\ Forall P (f_rotated f) <-> Forall P (leaves f).
Proof. unfold leaves. rewrite Forall_app, Forall_singleton. tauto. Qed.
Lemma leaves_NoDup {A} (key : Session -> A) f :
  NoDup (key <$> leaves f) <-> NoDup (key <$> f_rotated f) /\ Forall (fun i => i ∉ [key (f_current f)]) (key <$> f_rotated f).
Proof.
  unfold leaves. rewrite fmap_app. cbn [fmap list_fmap]. rewrite NoDup_app, Forall_forall. pose proof (NoDup_singleton (key (f_current f))). tauto.
Qed.

Lemma capacity_Ok f : validate_capacity (snapshot_state f) = Ok tt <-> len (f_rotated f) <= MAX_ROTATED_SESSIONS.
Proof. unfold validate_capacity, len. cbn. by rewrite length_fmap, reject_if_Ok, N.ltb_ge. Qed.
Lemma family_version_Ok f : len (f_rotated f) <= MAX_ROTATED_SESSIONS ->
  validate_family_version (snapshot_state f) = Ok tt <-> f_version f = len (f_rotated f) + closings (f_state f).
Proof.
  intros Hc. unfold validate_family_version, len in *. cbn. rewrite length_fmap, result_bind_Ok.
  setoid_rewrite ok_or_Ok. setoid_rewrite checked_add_Some. setoid_rewrite reject_if_Ok. setoid_rewrite negb_false_iff. setoid_rewrite N.eqb_eq.
  fold (closings (f_state f)). unfold MAX_ROTATED_SESSIONS, u64_max in *. split.
  - by intros (x & (-> & _) & ->).
  - intros ->. eexists. split; [|done]. split; [done|]. destruct (f_state f); cbn; lia.
Qed.
Lemma family_lifecycle_Ok f : validate_lifecycle (snapshot_state f) = Ok tt <->
  (s_state (f_current f) = current_state (lifecycle_expectation (f_state f)) /\
    s_version (f_current f) = current_version (lifecycle_expectation (f_state f))) /\
  Forall (fun l => s_state l = rotated_state (lifecycle_expectation (f_state f)) /\
    s_version l = rotated_version (lifecycle_expectation (f_state f))) (f_rotated f).
Proof.
  unfold validate_lifecycle. rewrite validated_Ok, check_each_Ok. cbn [fs_current fs_rotated fs_state snapshot_state]. rewrite Forall_fmap, leaf_lifecycle_Ok.
  apply and_iff_compat_l, Forall_iff. intros l. apply leaf_lifecycle_Ok.
Qed.
Lemma history_Ok f : validate_history_order (snapshot_state f) = Ok tt <->
  chained None (f_issued_at f) (leaves f) /\ s_issued_at <$> head (leaves f) = Some (f_issued_at f).
Proof.
  unfold validate_history_order, leaves. rewrite result_bind_Ok. cbn [fs_rotated fs_issued_at snapshot_state]. setoid_rewrite history_order_Ok.
  rewrite chained_snoc. unfold validate_current_order. split.
  - intros (x & (H1 & ->) & H2). destruct (chain_end None (f_issued_at f) (f_rotated f)) as [p t]. cbn in H2.
    rewrite !validated_Ok, keeps, !reject_if_Ok, Z.ltb_ge, negb_false_iff, Z.eqb_eq in H2. destruct H2 as (H2 & H3 & H4). cbn.
    split; [done|]. by destruct (f_rotated f); cbn in *; rewrite H4.
  - intros ((H1 & H2 & H3) & H4). eexists. split; [done|]. destruct (chain_end None (f_issued_at f) (f_rotated f)) as [p t]. cbn in *.
    rewrite !validated_Ok, keeps, !reject_if_Ok, Z.ltb_ge, negb_false_iff, Z.eqb_eq. split_and!; try done. by destruct (f_rotated f); cbn in *; injection H4.
Qed.
Lemma leaf_windows_Ok f : validate_leaf_windows (snapshot_state f) = Ok tt <-> Forall (leaf_window f) (leaves f).
Proof.
  unfold validate_leaf_windows. rewrite validated_Ok, check_each_Ok. cbn [fs_current fs_rotated snapshot_state].
  rewrite Forall_fmap, leaf_window_Ok, <- leaves_Forall. apply and_iff_compat_l, Forall_iff. intros l. apply leaf_window_Ok.
Qed.
Lemma uniqueness_Ok f : validate_uniqueness (snapshot_state f) = Ok tt <-> NoDup (s_id <$> leaves f) /\ NoDup (s_token_digest <$> leaves f).
Proof.
  unfold validate_uniqueness. rewrite result_bind_Ok. setoid_rewrite validate_unique_leaf_Ok. rewrite !leaves_NoDup.
  assert (forall A (g : SessionSnapshot -> A), g <$> (snapshot_leaf f <$> f_rotated f) = (fun l => g (snapshot_leaf f l)) <$> f_rotated f) as Hf
    by (intros; by rewrite <- list_fmap_compose). cbn. split.
  - intros (seen & (_ & _ & ->) & H). apply validate_unique_leaves_Ok in H. rewrite !Hf in H. exact H.
  - intros H. eexists. split; [split_and!; [set_solver|set_solver|done]|]. apply validate_unique_leaves_Ok. rewrite !Hf. exact H.
Qed.
Lemma bindings_ok f : validate_bindings (snapshot_state f) = Ok tt.
Proof.
  unfold validate_bindings. rewrite validated_Ok, check_each_Ok. cbn [fs_current fs_rotated snapshot_state]. split; [apply leaf_binding_ok|].
  rewrite Forall_fmap. apply Forall_true. intros l. apply leaf_binding_ok.
Qed.

Lemma validate_snapshot_Ok f : validate_snapshot (snapshot_state f) = Ok tt <-> well_formed f.
Proof.
  unfold validate_snapshot. rewrite !validated_Ok, capacity_Ok, family_lifecycle_Ok, history_Ok, leaf_windows_Ok, uniqueness_Ok.
  assert (validate_family_window (snapshot_state f) = Ok tt <-> (1 <= f_absolute_expires_at f - f_issued_at f <= MAX_ABSOLUTE_LIFETIME_SECONDS)%Z) as ->
    by (unfold validate_family_window; by rewrite span_within).
  pose proof (bindings_ok f). pose proof (family_version_Ok f). split.
  - intros (H1 & H2 & H3 & H4 & (H5 & H6) & (H7 & H8) & H9 & H10 & H11). constructor; tauto.
  - intros []. tauto.
Qed.

Lemma fmap_id_Forall {A} (g : A -> A) l : Forall (fun x => g x = x) l -> g <$> l = l.
Proof. induction 1 as [|x l Hx _ IH]; cbn; [done|]. by rewrite Hx, IH. Qed.

(** Reading a snapshot forgets nothing. *)
Lemma family_snapshot_iff s f : from_snapshot s = Ok f <-> snapshot_state f = s /\ well_formed f.
Proof.
  unfold from_snapshot. rewrite validated_Ok. split.
  - intros (Hv & [= <-]). match goal with |- snapshot_state ?g = _ /\ _ => set (h := g) end.
    assert (snapshot_state h = s) as Hs; [|split; [done|]; by rewrite <- validate_snapshot_Ok, Hs].
    unfold validate_snapshot in Hv. rewrite !validated_Ok in Hv. destruct Hv as (_ & _ & _ & Hb & _). unfold validate_bindings in Hb.
    rewrite validated_Ok, check_each_Ok in Hb. destruct Hb as [Hc Hr]. apply leaf_binding_inv in Hc.
    assert (forall l, l_family_id l = fs_id s /\ l_subject l = fs_subject s -> snapshot_leaf h (into_session l) = l) as Hback.
    { intros l [H1 H2]. unfold snapshot_leaf. cbn. rewrite <- H1, <- H2. by destruct l. }
    unfold snapshot_state. rewrite (Hback _ Hc : snapshot_leaf h (f_current h) = _). cbn [f_rotated h]. rewrite <- list_fmap_compose.
    rewrite (fmap_id_Forall _ (fs_rotated s)); [by destruct s|].
    eapply Forall_impl; [exact Hr|]. intros l Hl%leaf_binding_inv. by apply Hback.
  - intros (<- & Hw). split; [by apply validate_snapshot_Ok|]. unfold snapshot_state. cbn. rewrite <- list_fmap_compose.
    rewrite (fmap_id_Forall _ (f_rotated f)); [by destruct f as [? ? ? ? ? ? [] ?]|]. apply Forall_true. by intros [].
Qed.

(** ** Lemmas: transitions *)

Lemma lifecycle_small f : well_formed f -> f_version f < u64_max /\ Forall (fun l => s_version l < u64_max) (leaves f).
Proof.
  intros Hw. pose proof (wf_capacity _ Hw) as Hc. pose proof (wf_version _ Hw) as Hv. pose proof (wf_current _ Hw) as [_ H1].
  pose proof (wf_rotated _ Hw) as H2. unfold MAX_ROTATED_SESSIONS, u64_max in *. split; [rewrite Hv; destruct (f_state f); cbn; lia|].
  apply leaves_Forall. split; [rewrite H1; by destruct (f_state f)|]. eapply Forall_impl; [exact H2|]. intros l [_ ->]. by destruct (f_state f).
Qed.
Lemma with_state_run l st : s_version l < u64_max -> with_state l st = Ok (bump st l).
Proof. intros H. unfold with_state, session_version_next, checked_add. rewrite (proj2 (N.leb_le _ _)); [done|lia]. Qed.
Lemma family_version_run f : well_formed f -> family_version_next (f_version f) = Ok (f_version f + 1).
Proof. intros [H _]%lifecycle_small. unfold family_version_next, checked_add. rewrite (proj2 (N.leb_le _ _)); [done|lia]. Qed.
Lemma current_run f st : well_formed f -> with_state (f_current f) st = Ok (bump st (f_current f)).
Proof. intros [_ [H _]%leaves_Forall]%lifecycle_small. by apply with_state_run. Qed.
Lemma rotated_run f st : well_formed f -> rotated_with_state f st = Ok (bump st <$> f_rotated f).
Proof.
  intros [_ [_ H]%leaves_Forall]%lifecycle_small. unfold rotated_with_state. apply collect_map. intros l Hl. apply with_state_run.
  rewrite Forall_forall in H. by apply H.
Qed.

Lemma subject_Ok f subject : validate_subject f subject = Ok tt <-> subject = f_subject f.
Proof.
  unfold validate_subject. rewrite validated_Ok, !keeps. destruct (f_subject f), subject. cbn. split; [intros [-> ->]; done|intros [= -> ->]; done].
Qed.
Lemma active_Ok f : well_formed f -> validate_active_family f = Ok tt <-> f_state f = FamilyActive.
Proof.
  intros Hw. unfold validate_active_family. rewrite validated_Ok, !keeps. split; [tauto|]. intros Ha. split; [done|].
  pose proof (wf_current _ Hw) as [-> _]. by rewrite Ha.
Qed.
Lemma session_id_used f id : session_id_was_used f id = false <-> id ∉ (s_id <$> leaves f).
Proof.
  unfold session_id_was_used, leaves. rewrite foldl_or_false, fmap_app, not_elem_of_app, bool_decide_eq_false. cbn. rewrite not_elem_of_cons.
  setoid_rewrite bool_decide_eq_false. rewrite list_elem_of_fmap. pose proof (not_elem_of_nil id). naive_solver.
Qed.
Lemma issue_session_iff r t : issue_session r = Ok t <->
  (w_issued_at (r_validity r) < w_idle_expires_at (r_validity r) <= w_absolute_expires_at (r_validity r))%Z /\
  (w_absolute_expires_at (r_validity r) - w_issued_at (r_validity r) <= MAX_ABSOLUTE_LIFETIME_SECONDS)%Z /\
  (w_idle_expires_at (r_validity r) - w_issued_at (r_validity r) <= MAX_IDLE_LIFETIME_SECONDS)%Z /\
  t = mk_SessionTransition (issued r) (event_from (issued r) (b_actor (r_binding r)) (w_issued_at (r_validity r)) EventIssued).
Proof.
  unfold issue_session, validate_validity_window, validate_positive_window_order, validate_window_spans.
  destruct (r_validity r) as [iss abs idle]. cbn [w_issued_at w_absolute_expires_at w_idle_expires_at].
  rewrite !validated_Ok, !reject_if_Ok, result_bind_Ok. setoid_rewrite result_bind_Ok. setoid_rewrite ok_or_Ok. setoid_rewrite reject_if_Ok.
  rewrite orb_false_iff, !Z.leb_gt, Z.ltb_ge. unfold i64_checked_sub, i64_min, i64_max, MAX_ABSOLUTE_LIFETIME_SECONDS, MAX_IDLE_LIFETIME_SECONDS. split.
  - intros ((H1 & (a & Ha & b & Hb & H2) & H3) & [= <-]). destruct (_ && _) in Ha; [|done]. destruct (_ && _) in Hb; [|done].
    injection Ha as <-. injection Hb as <-. split_and!; done || lia.
  - intros (H1 & H2 & H3 & ->). split; [|done]. split; [lia|]. split; [|lia].
    exists (abs - iss)%Z. split; [rewrite (proj2 (andb_true_iff _ _)); [done|lia]|].
    exists (idle - iss)%Z. split; [rewrite (proj2 (andb_true_iff _ _)); [done|lia]|lia].
Qed.
Lemma idle_window_Ok f at_ idle : validate_idle_window f at_ idle = Ok tt <->
  (at_ < idle <= f_absolute_expires_at f)%Z /\ (idle - at_ <= MAX_IDLE_LIFETIME_SECONDS)%Z.
Proof.
  unfold validate_idle_window. rewrite validated_Ok, reject_if_Ok, Z.leb_gt.
  destruct (decide (at_ < idle)%Z) as [Hl|Hl]; [|split; [tauto|lia]].
  pose proof (span_at_most at_ idle MAX_IDLE_LIFETIME_SECONDS InvalidArgument ltac:(lia) ltac:(done)) as Hs. rewrite result_bind_Ok in *. split.
  - intros (_ & span & H1 & H2). rewrite validated_Ok, !reject_if_Ok, !Z.ltb_ge in H2. destruct H2 as [H2 H3]. split; [lia|]. apply Hs.
    exists span. split; [done|]. by apply reject_if_Ok, Z.ltb_ge.
  - intros [H1 H2]. split; [done|]. apply Hs in H2 as (span & H2 & H3). exists span. split; [done|]. rewrite validated_Ok.
    rewrite !reject_if_Ok, !Z.ltb_ge in *. lia.
Qed.

Section compared.
Context `{ConstantTimeEqLaw}.

Lemma token_used f token : token_was_used f token = false <-> token ∉ (s_token_digest <$> leaves f).
Proof.
  unfold token_was_used, leaves. rewrite foldl_or_false, fmap_app, not_elem_of_app. cbn. rewrite not_elem_of_cons, list_elem_of_fmap.
  setoid_rewrite <- not_true_iff_false. setoid_rewrite ct_eq_true. pose proof (not_elem_of_nil token). naive_solver.
Qed.
Lemma rotated_token_match f token : rotated_token_match_choice f token = true <-> token ∈ (s_token_digest <$> f_rotated f).
Proof.
  unfold rotated_token_match_choice. rewrite foldl_or, list_elem_of_fmap. setoid_rewrite ct_eq_true. naive_solver.
Qed.
Lemma rotated_session_match f id token : rotated_session_matches f id token = true <->
  exists l, l ∈ f_rotated f /\ s_id l = id /\ s_token_digest l = token.
Proof.
  unfold rotated_session_matches. rewrite foldl_or. setoid_rewrite andb_true_iff. setoid_rewrite bool_decide_eq_true. setoid_rewrite ct_eq_true. naive_solver.
Qed.
Lemma successor_Ok f r : validate_successor f r = Ok tt <-> len (f_rotated f) < MAX_ROTATED_SESSIONS /\
  successor_session_id r ∉ (s_id <$> leaves f) /\ successor_token r ∉ (s_token_digest <$> leaves f).
Proof. unfold validate_successor. cbv zeta. by rewrite validated_Ok, !reject_if_Ok, N.leb_gt, orb_false_iff, session_id_used, token_used. Qed.

(** A current token is never also a rotated one. *)
Lemma current_not_rotated f : well_formed f -> s_token_digest (f_current f) ∉ (s_token_digest <$> f_rotated f).
Proof. intros Hw. pose proof (wf_tokens _ Hw) as [_ Hn]%leaves_NoDup. rewrite Forall_forall in Hn. intros Hin. apply Hn in Hin. set_solver. Qed.

Lemma reuse_run f c : well_formed f -> revoke_for_reuse f (actor c) (occurred_at c) = Ok (closing f FamilyRevoked Revoked EventReuseRevoked c).
Proof. intros Hw. unfold revoke_for_reuse. by rewrite family_version_run, current_run, rotated_run. Qed.
Lemma rotate_run f c r : well_formed f -> rotate_active_leaf f (actor c) (occurred_at c) r =
  Ok (mk_SessionTransition (succeeded f r (occurred_at c)) (event_from (succeeded f r (occurred_at c)) (actor c) (occurred_at c) EventRotated)).
Proof. intros Hw. unfold rotate_active_leaf. by rewrite family_version_run, current_run. Qed.

Lemma apply_rotation_iff f c r t : well_formed f -> apply_rotation f (actor c) (occurred_at c) r = Ok t <->
  f_state f = FamilyActive /\ names_family f (evidence r) /\ ev_session_id (evidence r) = s_id (f_current f) /\
  (occurred_at c < f_absolute_expires_at f)%Z /\ (occurred_at c < s_idle_expires_at (f_current f))%Z /\
  ((presented_token (evidence r) = s_token_digest (f_current f) /\ acceptable f r (occurred_at c) /\
    t = mk_SessionTransition (succeeded f r (occurred_at c)) (event_from (succeeded f r (occurred_at c)) (actor c) (occurred_at c) EventRotated)) \/
   (presented_token (evidence r) ∈ (s_token_digest <$> f_rotated f) /\ t = closing f FamilyRevoked Revoked EventReuseRevoked c)).
Proof.
  intros Hw. unfold apply_rotation, validate_rotation_preconditions, validate_family_id, validate_current_leaf, validate_not_expired, names_family.
  rewrite !validated_Ok, active_Ok, subject_Ok, !keeps, reject_if_Ok, orb_false_iff, !Z.leb_gt by done.
  unfold evaluate_presented_token. cbv zeta. pose proof (current_not_rotated f Hw) as Hn.
  pose proof (ct_eq_true (s_token_digest (f_current f)) (presented_token (evidence r))) as Hc.
  pose proof (rotated_token_match f (presented_token (evidence r))) as Hr. unfold acceptable.
  destruct (ct_eq _ _).
  - rewrite !validated_Ok, idle_window_Ok, successor_Ok, rotate_run, Ok_inj_iff by done.
    assert (s_token_digest (f_current f) = presented_token (evidence r)) as He by tauto. rewrite <- He in *. split.
    + intros (? & ? & ? & ?). split_and!; try tauto; symmetry; tauto.
    + intros (? & ? & ? & ? & ? & [?|?]); [|tauto]. split_and!; try tauto; symmetry; tauto.
  - assert (presented_token (evidence r) <> s_token_digest (f_current f)) as He by (intros He; symmetry in He; by apply Hc in He).
    destruct (rotated_token_match_choice f _).
    + rewrite reuse_run, Ok_inj_iff by done. split; [intros (? & ?); split_and!; try tauto; symmetry; tauto|].
      intros (? & ? & ? & ? & ? & [?|?]); [tauto|]. split_and!; try tauto; symmetry; tauto.
    + split; [intros (_ & [=])|]. intros (_ & _ & _ & _ & _ & [?|[Hin _]]); [tauto|]. by apply Hr in Hin.
Qed.

Lemma session_transition_iff f c t : well_formed f -> transition_session_family f c = Ok t <-> accepts f c t.
Proof.
  intros Hw. unfold transition_session_family, accepts, validate_expected_version, validate_command_time.
  rewrite !validated_Ok, !reject_if_Ok, negb_false_iff, N.eqb_eq, orb_false_iff, !Z.ltb_ge.
  destruct (action c) as [r|e|s|s].
  - rewrite apply_rotation_iff by done. split; intros; split_and!; (tauto || (symmetry; tauto)).
  - unfold apply_reuse_detection, validate_family_id, names_family. rewrite !validated_Ok, subject_Ok, !keeps, reject_if_Ok, negb_false_iff, rotated_session_match, reuse_run, Ok_inj_iff by done.
    split; intros; split_and!; (tauto || (symmetry; tauto)).
  - unfold apply_revoke. rewrite !validated_Ok, subject_Ok, active_Ok, family_version_run, current_run, rotated_run by done. cbn [mbind result_bind].
    setoid_rewrite (Ok_inj_iff (closing f FamilyRevoked Revoked EventRevoked c) t). split; intros; split_and!; (tauto || (symmetry; tauto)).
  - unfold apply_expire, validate_expiration_time. rewrite !validated_Ok, subject_Ok, active_Ok, reject_if_Ok, andb_false_iff, !Z.ltb_ge, family_version_run, current_run, rotated_run by done.
    cbn [mbind result_bind]. setoid_rewrite (Ok_inj_iff (closing f FamilyExpired Expired EventExpired c) t). split; intros; split_and!; (tauto || (symmetry; tauto)).
Qed.
End compared.

(** ** Lemmas: invariant *)

Lemma leaves_closed f s st : leaves (closed f s st) = bump st <$> leaves f.
Proof. unfold leaves, closed, advance. cbn. by rewrite fmap_app. Qed.
Lemma bump_key {A} (key : Session -> A) st (ls : list Session) : (forall l, key (bump st l) = key l) -> key <$> (bump st <$> ls) = key <$> ls.
Proof. intros H. rewrite <- list_fmap_compose. apply list_fmap_ext. intros i l _. apply H. Qed.
Lemma keys_succeeded {A} (key : Session -> A) f r at_ : (forall l, key (bump Rotated l) = key l) ->
  key <$> leaves (succeeded f r at_) = (key <$> leaves f) ++ [key (f_current (succeeded f r at_))].
Proof. intros H. unfold leaves, succeeded, advance. cbn [f_rotated f_current]. rewrite !fmap_app. cbn. by rewrite H. Qed.

Lemma issued_well_formed r t : issue_session r = Ok t -> family t = issued r /\ well_formed (issued r).
Proof.
  intros (H1 & H2 & H3 & ->)%issue_session_iff. split; [done|]. constructor; cbn; try done; try lia.
  - apply Forall_singleton. unfold leaf_window. cbn. lia.
  - apply NoDup_singleton.
  - apply NoDup_singleton.
Qed.
Lemma closed_well_formed f s st : f_state f = FamilyActive -> (s, st) = (FamilyRevoked, Revoked) \/ (s, st) = (FamilyExpired, Expired) ->
  well_formed f -> well_formed (closed f s st).
Proof.
  intros Ha Hs [H1 H2 H3 [H4 H4'] H5 H6 H7 H8 H9 H10]. rewrite Ha in *. cbn in H3, H4, H4', H5.
  constructor; rewrite ?leaves_closed, ?chained_bump, ?bump_key by done; cbn [closed advance f_rotated f_issued_at f_absolute_expires_at f_version f_state f_current] in *; try done.
  - unfold len. rewrite length_fmap. done.
  - unfold len in *. rewrite length_fmap. destruct Hs as [[= -> ->]|[= -> ->]]; cbn; lia.
  - destruct Hs as [[= -> ->]|[= -> ->]]; cbn; rewrite H4'; done.
  - apply Forall_fmap. eapply Forall_impl; [exact H5|]. intros l [Hl Hv]. destruct Hs as [[= -> ->]|[= -> ->]]; cbn; rewrite Hv; done.
  - by destruct (leaves f); cbn in *.
  - apply Forall_fmap. exact H8.
Qed.
Lemma succeeded_well_formed f r at_ : f_state f = FamilyActive -> (f_issued_at f <= at_ < f_absolute_expires_at f)%Z ->
  (s_last_seen_at (f_current f) <= at_)%Z -> acceptable f r at_ -> well_formed f -> well_formed (succeeded f r at_).
Proof.
  intros Ha Hat Hls (Hi & Hi' & Hc & Hid & Htok) [H1 H2 H3 [H4 H4'] H5 H6 H7 H8 H9 H10]. rewrite Ha in *. cbn in H3, H4, H4', H5.
  pose proof H8 as [Hcur Hrot]%leaves_Forall.
  constructor; rewrite ?keys_succeeded by done; cbn [succeeded advance f_rotated f_issued_at f_absolute_expires_at f_version f_state f_current] in *; try done.
  - unfold len in *. rewrite length_app. cbn. unfold MAX_ROTATED_SESSIONS in *. lia.
  - unfold len in *. rewrite length_app. cbn. lia.
  - apply Forall_app. split; [done|]. apply Forall_singleton. cbn. by rewrite H4'.
  - unfold leaves. cbn [f_rotated f_current succeeded advance]. apply chained_snoc. rewrite chain_end_snoc. cbn.
    destruct Hcur as [Hcur _]. split_and!; [|done|lia]. apply chained_snoc. cbn. by apply chained_snoc in H6.
  - unfold leaves in *. cbn. by destruct (f_rotated f); cbn in *.
  - apply leaves_Forall. cbn. split.
    + unfold leaf_window. cbn. lia.
    + apply Forall_app. split; [done|]. by apply Forall_singleton.
  - apply NoDup_app. split; [done|]. split; [|apply NoDup_singleton]. intros i Hin ->%list_elem_of_singleton. by apply Hid.
  - apply NoDup_app. split; [done|]. split; [|apply NoDup_singleton]. intros i Hin ->%list_elem_of_singleton. by apply Htok.
Qed.

(** What an accepted command leads to. *)
Lemma accepts_family f c t : accepts f c t -> f_state f = FamilyActive /\
  (family t = closed f FamilyRevoked Revoked \/ family t = closed f FamilyExpired Expired \/
   exists r, action c = Rotate r /\ presented_token (evidence r) = s_token_digest (f_current f) /\ acceptable f r (occurred_at c) /\
     (occurred_at c < f_absolute_expires_at f)%Z /\ family t = succeeded f r (occurred_at c)).
Proof.
  intros (_ & _ & _ & Ha & Hc). split; [done|]. destruct (action c) as [r|e|s|s].
  - destruct Hc as (_ & _ & Hab & _ & [(H1 & H2 & ->)|(_ & ->)]); [|by left]. right; right. by exists r.
  - destruct Hc as (_ & _ & ->). by left.
  - destruct Hc as (_ & ->). by left.
  - destruct Hc as (_ & _ & ->). by right; left.
Qed.
Lemma accepts_well_formed f c t : well_formed f -> accepts f c t -> well_formed (family t).
Proof.
  intros Hw Hc. pose proof Hc as (_ & H1 & H2 & _). apply accepts_family in Hc as (Ha & [->|[->|(r & _ & _ & H3 & H4 & ->)]]).
  - apply closed_well_formed; [done|by left|done].
  - apply closed_well_formed; [done|by right|done].
  - by apply succeeded_well_formed.
Qed.

Lemma remembered_closed f s st : remembered (closed f s st) = remembered f.
Proof. unfold remembered, closed. cbn. by rewrite bump_key. Qed.
Lemma accepts_remembers f c t : accepts f c t -> remembered f ⊆ remembered (family t).
Proof.
  intros (_ & [->|[->|(r & _ & _ & _ & _ & ->)]])%accepts_family; [by rewrite remembered_closed|by rewrite remembered_closed|].
  unfold remembered, succeeded. cbn. rewrite fmap_app. set_solver.
Qed.

Lemma never_exhausted_bind {A B} (m : outcome A) (k : A -> outcome B) :
  never_exhausted m -> (forall a, never_exhausted (k a)) -> never_exhausted (m ≫= k).
Proof. unfold never_exhausted. destruct m as [a|e]; cbn; [intros _ H; apply H|intros H _ [= ->]; by apply H]. Qed.
Lemma never_exhausted_reject b e : e <> VersionExhausted -> never_exhausted (reject_if b e).
Proof. unfold never_exhausted. destruct b; cbn; congruence. Qed.
Lemma never_exhausted_ok_or {A} (o : option A) e : e <> VersionExhausted -> never_exhausted (ok_or o e).
Proof. unfold never_exhausted. destruct o; cbn; congruence. Qed.
Lemma never_exhausted_Ok {A} (a : A) : never_exhausted (Ok a).
Proof. done. Qed.
Ltac never_exhausted :=
  repeat first
    [ apply never_exhausted_bind; [|intros ?]
    | apply never_exhausted_reject; discriminate
    | apply never_exhausted_ok_or; discriminate
    | apply never_exhausted_Ok
    | progress unfold validate_expected_version, validate_command_time, validate_rotation_preconditions, validate_active_family,
        validate_subject, validate_family_id, validate_current_leaf, validate_not_expired, validate_idle_window, validate_successor,
        validate_expiration_time ].

Section reached.
Context `{ConstantTimeEqLaw}.

Lemma step_well_formed f f' : session_step f f' -> well_formed f -> well_formed f'.
Proof. intros [c t Ht] Hw. rewrite session_transition_iff in Ht by done. by apply (accepts_well_formed f c). Qed.
Lemma steps_well_formed f f' : rtc session_step f f' -> well_formed f -> well_formed f'.
Proof. induction 1 as [|f g h Hs _ IH]; [done|]. intros Hw. by apply IH, (step_well_formed f). Qed.
Lemma reachable_family_well_formed f : reachable f -> well_formed f.
Proof. intros (r & t & [Hf Hw]%issued_well_formed & Hs). apply (steps_well_formed _ _ Hs). by rewrite Hf. Qed.
Lemma steps_remember f f' : rtc session_step f f' -> well_formed f -> remembered f ⊆ remembered f'.
Proof.
  induction 1 as [|f g h Hs _ IH]; [done|]. intros Hw. pose proof (step_well_formed _ _ Hs Hw) as Hg. destruct Hs as [c t Ht].
  rewrite session_transition_iff in Ht by done. transitivity (remembered (family t)); [by apply (accepts_remembers f c)|by apply IH].
Qed.

(** A leaf of a reachable family was last seen when it was issued: nothing refreshes it. *)
Lemma reachable_seen f : reachable f -> Forall (fun l => s_last_seen_at l = s_issued_at l) (leaves f).
Proof.
  intros (r & t & Hi & Hs). assert (well_formed (family t) /\ Forall (fun l => s_last_seen_at l = s_issued_at l) (leaves (family t))) as H1.
  { apply issued_well_formed in Hi as [-> Hw]. split; [done|]. by apply Forall_singleton. }
  clear Hi. induction Hs as [g|g g' h Hs _ IH]; [apply H1|]. apply IH. destruct H1 as [Hw Hg]. split; [by apply (step_well_formed g)|].
  destruct Hs as [c t' Ht]. rewrite session_transition_iff in Ht by done. apply accepts_family in Ht as (_ & [->|[->|(r' & _ & _ & _ & _ & ->)]]).
  - rewrite leaves_closed. apply Forall_fmap. exact Hg.
  - rewrite leaves_closed. apply Forall_fmap. exact Hg.
  - apply leaves_Forall in Hg as [H1 H2]. apply leaves_Forall. cbn. split; [done|]. apply Forall_app. split; [done|]. by apply Forall_singleton.
Qed.

(** ** Properties *)

(** Every family an issuance and accepted commands produce is a chain of at most
    4096 rotated leaves and one current leaf, with identities and tokens all distinct, each
    leaf naming its predecessor and lying within the family's window, and states and versions
    that agree with the family's; and such a family is read back from its snapshot as itself. *)
Theorem session_family_sound f (Hf : reachable f) : well_formed f /\ from_snapshot (snapshot_state f) = Ok f.
Proof. apply reachable_family_well_formed in Hf. split; [done|]. by apply family_snapshot_iff. Qed.

(** C25: histories are bounded, so versions never run out.  A family never counts more
    than 4098 accepted commands and a leaf never more than three, and no command on a family
    is ever refused because a version is exhausted. *)
Theorem session_versions_bounded f (Hf : reachable f) :
  f_version f <= 4098 /\ Forall (fun l => s_version l <= 3) (leaves f) /\
  forall c, transition_session_family f c <> Err VersionExhausted.
Proof.
  apply reachable_family_well_formed in Hf as Hw. pose proof (wf_capacity _ Hw) as Hc. pose proof (wf_version _ Hw) as Hv.
  pose proof (wf_current _ Hw) as [_ H1]. pose proof (wf_rotated _ Hw) as H2. unfold MAX_ROTATED_SESSIONS in Hc. split_and!.
  - rewrite Hv. destruct (f_state f); cbn; lia.
  - apply leaves_Forall. split; [rewrite H1; by destruct (f_state f)|]. eapply Forall_impl; [exact H2|]. intros l [_ ->]. by destruct (f_state f).
  - intros c. change (never_exhausted (transition_session_family f c)). unfold transition_session_family. never_exhausted. destruct (action c) as [r|e|s|s].
    + unfold apply_rotation. never_exhausted. destruct (evaluate_presented_token f _); [|by rewrite reuse_run|done].
      rewrite rotate_run by done. never_exhausted.
    + unfold apply_reuse_detection. rewrite reuse_run by done. never_exhausted.
    + unfold apply_revoke. rewrite family_version_run, current_run, rotated_run by done. never_exhausted.
    + unfold apply_expire. rewrite family_version_run, current_run, rotated_run by done. never_exhausted.
Qed.

(** The accepted commands are exactly these.  Each names the current version and a
    time no earlier than what the family has seen, and finds the family active.  A rotation
    comes from the family's own subject in the name of the current leaf before both expiries;
    with the current token and a fresh, bounded successor it rotates, with any rotated token
    it revokes.  Reuse detection needs a rotated leaf and its token, a revocation the subject,
    an expiry one of the two boundaries reached.  Each makes exactly the transition stated. *)
Theorem session_transition_exact f c t (Hf : reachable f) : transition_session_family f c = Ok t <-> accepts f c t.
Proof. apply session_transition_iff. by apply reachable_family_well_formed. Qed.

(** C24: a rotated token is dead for good, and presenting it closes the family.  Whatever
    happens after a leaf was rotated out, its token never becomes the current one; a rotation
    presenting it, when accepted at all, revokes every leaf of the family; naming the leaf and
    its token to an active family does so unconditionally; and a family that is no longer
    active accepts nothing. *)
Theorem reuse_closes_family f f' l (Hf : reachable f) (Hl : l ∈ f_rotated f) (Hs : rtc session_step f f') :
  s_token_digest l <> s_token_digest (f_current f') /\
  (forall c r t, action c = Rotate r -> presented_token (evidence r) = s_token_digest l -> transition_session_family f' c = Ok t ->
    t = closing f' FamilyRevoked Revoked EventReuseRevoked c) /\
  (forall c e, action c = DetectReuse e -> names_family f' e -> ev_session_id e = s_id l -> presented_token e = s_token_digest l ->
    expected_version c = f_version f' -> (f_issued_at f' <= occurred_at c)%Z -> (s_last_seen_at (f_current f') <= occurred_at c)%Z ->
    f_state f' = FamilyActive -> transition_session_family f' c = Ok (closing f' FamilyRevoked Revoked EventReuseRevoked c)) /\
  (f_state f' <> FamilyActive -> forall c, is_ok (transition_session_family f' c) = false).
Proof.
  apply reachable_family_well_formed in Hf. pose proof (steps_well_formed _ _ Hs Hf) as Hw. pose proof (steps_remember _ _ Hs Hf) as Hr.
  assert (exists l', l' ∈ f_rotated f' /\ s_id l' = s_id l /\ s_token_digest l' = s_token_digest l) as (l' & Hl' & Hid & Htok).
  { assert ((s_id l, s_token_digest l) ∈ remembered f') as Hin
      by (apply Hr; unfold remembered; apply list_elem_of_fmap; by exists l).
    unfold remembered in Hin. apply list_elem_of_fmap in Hin as (l' & [= H1 H2] & Hin). by exists l'. }
  assert (s_token_digest l <> s_token_digest (f_current f')) as Hne.
  { intros He. apply (current_not_rotated _ Hw). rewrite <- He, <- Htok. apply list_elem_of_fmap. by exists l'. }
  split_and!; [done|..].
  - intros c r t Ha Hp Ht. rewrite session_transition_iff in Ht by done. destruct Ht as (_ & _ & _ & _ & Ht). rewrite Ha in Ht.
    destruct Ht as (_ & _ & _ & _ & [(H1 & _)|(_ & Ht)]); [congruence|done].
  - intros c e Ha Hn Hi Hp Hv H1 H2 Hst. apply session_transition_iff; [done|]. unfold accepts. rewrite Ha. split_and!; try done; try apply Hn.
    exists l'. by rewrite Hid, Htok.
  - intros Hst c. destruct (transition_session_family f' c) as [t|] eqn:Ht; [|done]. rewrite session_transition_iff in Ht by done. by destruct Ht as (_ & _ & _ & ? & _).
Qed.
End reached.

(** *** Witnesses, with a concrete comparison *)

#[local] Instance sample_comparison : ConstantTimeEq := constant_time_digest_eq.
#[local] Instance sample_comparison_law : ConstantTimeEqLaw := constant_time_digest_eq_law.

Lemma sample_family_reachable : reachable sample_family.
Proof. exists sample_session_request. eexists. split; [reflexivity|]. apply rtc_refl. Defined.
Lemma sample_rotated_reachable : reachable sample_rotated.
Proof.
  exists sample_session_request. eexists. split; [reflexivity|]. apply rtc_once.
  refine (session_command sample_family sample_rotate (mk_SessionTransition _ _) _). vm_compute. reflexivity.
Defined.
Lemma session_family_sound_witness : well_formed sample_rotated /\ from_snapshot (snapshot_state sample_rotated) = Ok sample_rotated.
Proof. exact (session_family_sound sample_rotated sample_rotated_reachable). Defined.
Lemma session_versions_bounded_witness : f_version sample_rotated = 2 /\ f_version sample_rotated <= 4098.
Proof. split; [reflexivity|]. exact (proj1 (session_versions_bounded sample_rotated sample_rotated_reachable)). Defined.
Lemma session_transition_exact_witness :
  accepts sample_rotated sample_replay (closing sample_rotated FamilyRevoked Revoked EventReuseRevoked sample_replay).
Proof. apply (session_transition_exact sample_rotated sample_replay _ sample_rotated_reachable). vm_compute. reflexivity. Defined.
Lemma reuse_closes_family_witness : exists l, l ∈ f_rotated sample_rotated /\ s_token_digest l <> s_token_digest (f_current sample_rotated).
Proof.
  exists (bump Rotated (f_current sample_family)). assert (bump Rotated (f_current sample_family) ∈ f_rotated sample_rotated) as Hl by left.
  split; [exact Hl|]. exact (proj1 (reuse_closes_family sample_rotated sample_rotated _ sample_rotated_reachable Hl (rtc_refl _ _))).
Defined.

(** A persisted family that no sequence of commands produces is accepted all the same: its leaf
    has been seen after it was issued. *)
Example unreachable_family_accepted : from_snapshot (snapshot_state sample_seen) = Ok sample_seen /\ ~ reachable sample_seen.
Proof. split; [vm_compute; reflexivity|]. intros Hr%reachable_seen. apply leaves_Forall in Hr as [Hr _]. cbn in Hr. discriminate Hr. Qed.
