(* ===== verification/ApiKey.v ===== *)
(** * API keys

    Models [crates/optional/ariadnion-auth-api-key/src]: [error.rs], [ids.rs], [model.rs] and
    [transition.rs]: the API key with its current, overlapping and retired secrets, its
    issuance, the commands that rotate, revoke or expire it, the verification of a
    presentation, and the reconstruction of a key from its persisted snapshot. *)

From Stdlib Require Import Ascii.
From S2P Require Import Prelude CoreTypes Identity.
From S2P Require UserDomain.
#[local] Open Scope N_scope.
#[local] Open Scope record_scope.

(** ** Errors and identities ([error.rs], [ids.rs]) *)

Inductive ApiKeyErrorCode :=
| InvalidArgument | VersionConflict | VersionExhausted | RotationInProgress | SecretReuseDetected | ResourceLimitExceeded
| TenantMismatch | OwnerMismatch | KeyMismatch | PrefixMismatch | SecretMismatch | ExpiredError | NotYetExpired | Terminal
| ScopeDenied | NotYetValid.
Definition API_KEY_ERROR_CODES : list string := [
  "API_KEY_INVALID_ARGUMENT"; "API_KEY_VERSION_CONFLICT"; "API_KEY_VERSION_EXHAUSTED"; "API_KEY_ROTATION_IN_PROGRESS";
  "API_KEY_SECRET_REUSE_DETECTED"; "API_KEY_RESOURCE_LIMIT_EXCEEDED"; "API_KEY_TENANT_MISMATCH"; "API_KEY_OWNER_MISMATCH";
  "API_KEY_KEY_MISMATCH"; "API_KEY_PREFIX_MISMATCH"; "API_KEY_SECRET_MISMATCH"; "API_KEY_EXPIRED"; "API_KEY_NOT_YET_EXPIRED";
  "API_KEY_TERMINAL"; "API_KEY_SCOPE_DENIED"; "API_KEY_NOT_YET_VALID" ].
Definition error_index (code : ApiKeyErrorCode) : nat :=
  match code with
  | InvalidArgument => 0 | VersionConflict => 1 | VersionExhausted => 2 | RotationInProgress => 3 | SecretReuseDetected => 4
  | ResourceLimitExceeded => 5 | TenantMismatch => 6 | OwnerMismatch => 7 | KeyMismatch => 8 | PrefixMismatch => 9
  | SecretMismatch => 10 | ExpiredError => 11 | NotYetExpired => 12 | Terminal => 13 | ScopeDenied => 14 | NotYetValid => 15
  end.
(** Indexing out of range would panic, hence the option. *)
Definition as_str (code : ApiKeyErrorCode) : option string := API_KEY_ERROR_CODES !! error_index code.
Notation outcome := (result ApiKeyErrorCode).

Definition MAX_IDENTIFIER_BYTES : N := 128.
Definition is_identifier_byte (b : Ascii.ascii) : bool :=
  is_ascii_alphanumeric b || Ascii.eqb b "."%char || Ascii.eqb b "-"%char || Ascii.eqb b "_"%char.
Definition valid_identifier (value : string) : bool :=
  negb (is_empty value) && (byte_len value <=? MAX_IDENTIFIER_BYTES) && is_ascii value && all_bytes is_identifier_byte value.
Definition ApiKeyId := Id ApiKeyKind.
Definition parse (value : string) : outcome ApiKeyId := if negb (valid_identifier value) then Err InvalidArgument else Ok (MkId value).

(** [ApiKeyVersion]: a non-zero 64-bit integer. *)
Definition version_initial : N := 1.
Definition version_new (value : N) : outcome N := if value =? 0 then Err InvalidArgument else Ok value.
Definition version_next (v : N) : outcome N := ok_or (checked_add u64_max v 1) VersionExhausted.

(** ** The aggregate ([model.rs]) *)

Notation UserId := UserDomain.UserId.
Notation UtcTimestamp := UserDomain.UtcTimestamp.

Definition MAX_API_KEY_LIFETIME_SECONDS : Z := (365 * 24 * 60 * 60)%Z.
Definition MAX_OVERLAP_SECONDS : Z := (24 * 60 * 60)%Z.
Definition MIN_SECRET_BYTES : N := 32.
Definition MAX_SECRET_BYTES : N := 256.
Definition MIN_PREFIX_BYTES : N := 4.
Definition MAX_PREFIX_BYTES : N := 32.
Definition MAX_API_KEY_SCOPES : N := 32.
Definition MAX_SCOPE_BYTES : N := 64.
Definition MAX_RETIRED_SECRETS : N := 4096.
(** [b"ariadnion.api-key.secret.v1\0"]. *)
Definition API_KEY_SECRET_DOMAIN : list Byte.byte := Stdlib.Strings.String.list_byte_of_string "ariadnion.api-key.secret.v1" ++ [Byte.x00].

Record ApiKeyOwner := mk_ApiKeyOwner { tenant_id : TenantId; user_id : UserId }.
#[export] Instance ApiKeyOwner_eq_dec : EqDecision ApiKeyOwner.
Proof. solve_decision. Defined.
Record ApiKeyPrefix := mk_ApiKeyPrefix { prefix_str : string }.
#[export] Instance ApiKeyPrefix_eq_dec : EqDecision ApiKeyPrefix.
Proof. solve_decision. Defined.
Definition prefix_parse (value : string) : outcome ApiKeyPrefix :=
  if negb ((MIN_PREFIX_BYTES <=? byte_len value) && (byte_len value <=? MAX_PREFIX_BYTES)) || negb (is_ascii value)
    || negb (all_bytes (fun b => is_ascii_alphanumeric b || Ascii.eqb b "_"%char) value)
  then Err InvalidArgument else Ok (mk_ApiKeyPrefix value).
Record ApiKeyScope := mk_ApiKeyScope { scope_str : string }.
#[export] Instance ApiKeyScope_eq_dec : EqDecision ApiKeyScope.
Proof. solve_decision. Defined.
Definition is_scope_byte (b : Ascii.ascii) : bool :=
  is_ascii_alphanumeric b || Ascii.eqb b "."%char || Ascii.eqb b "-"%char || Ascii.eqb b "_"%char || Ascii.eqb b ":"%char.
Definition scope_parse (value : string) : outcome ApiKeyScope :=
  if is_empty value || (MAX_SCOPE_BYTES <? byte_len value) || negb (is_ascii value) || negb (all_bytes is_scope_byte value)
  then Err InvalidArgument else Ok (mk_ApiKeyScope value).

Definition ApiKeySecretDigest := digest.
Definition domain_separated_digest `{Sha256} (domain value : list Byte.byte) : digest := sha256 (domain ++ value).
Definition from_secret `{Sha256} (secret : list Byte.byte) : outcome ApiKeySecretDigest :=
  reject_if (negb ((MIN_SECRET_BYTES <=? len secret) && (len secret <=? MAX_SECRET_BYTES))) InvalidArgument ;;
  mret (domain_separated_digest API_KEY_SECRET_DOMAIN secret).

Inductive ApiKeyState := Active | Rotating | Revoked | Expired.
#[export] Instance ApiKeyState_eq_dec : EqDecision ApiKeyState.
Proof. solve_decision. Defined.
Record ApiKeyValidityWindow := mk_ApiKeyValidityWindow { w_issued_at : UtcTimestamp; w_expires_at : option UtcTimestamp }.
Record ApiKeyIssueBinding := mk_ApiKeyIssueBinding { b_id : ApiKeyId; b_owner : ApiKeyOwner; b_actor : PrincipalId; b_prefix : ApiKeyPrefix }.
Record ApiKeyIssueRequest := mk_ApiKeyIssueRequest {
  r_binding : ApiKeyIssueBinding; r_secret_digest : ApiKeySecretDigest; r_scopes : list ApiKeyScope; r_validity : ApiKeyValidityWindow;
}.

(** [Vec::dedup]: of consecutive equal elements the first is kept. *)
Fixpoint dedup_scopes (l : list ApiKeyScope) : list ApiKeyScope :=
  match l with
  | x :: ((y :: _) as rest) => if decide (x = y) then dedup_scopes rest else x :: dedup_scopes rest
  | _ => l
  end.
Definition normalize_scopes (scopes : list ApiKeyScope) : outcome (list ApiKeyScope) :=
  reject_if ((len scopes =? 0) || (MAX_API_KEY_SCOPES <? len scopes)) InvalidArgument ;;
  let normalized := dedup_scopes (sort_by scope_str scopes) in
  reject_if ((len normalized =? 0) || (MAX_API_KEY_SCOPES <? len normalized)) InvalidArgument ;;
  mret normalized.
Definition request_new (binding : ApiKeyIssueBinding) (secret_digest : ApiKeySecretDigest) (scopes : list ApiKeyScope)
    (validity : ApiKeyValidityWindow) : outcome ApiKeyIssueRequest :=
  scopes ← normalize_scopes scopes; mret (mk_ApiKeyIssueRequest binding secret_digest scopes validity).

Record ApiKey := mk_ApiKey {
  k_id : ApiKeyId; k_owner : ApiKeyOwner; k_prefix : ApiKeyPrefix; k_current_secret : ApiKeySecretDigest;
  k_previous_secret : option ApiKeySecretDigest; k_rotation_started_at : option UtcTimestamp;
  k_previous_secret_expires_at : option UtcTimestamp; k_retired_secrets : list ApiKeySecretDigest; k_scopes : list ApiKeyScope;
  k_issued_at : UtcTimestamp; k_expires_at : option UtcTimestamp; k_version : N; k_state : ApiKeyState;
}.
Record ApiKeySnapshot := mk_ApiKeySnapshot {
  s_id : ApiKeyId; s_owner : ApiKeyOwner; s_prefix : ApiKeyPrefix; s_current_secret : ApiKeySecretDigest;
  s_previous_secret : option ApiKeySecretDigest; s_rotation_started_at : option UtcTimestamp;
  s_previous_secret_expires_at : option UtcTimestamp; s_retired_secrets : list ApiKeySecretDigest; s_scopes : list ApiKeyScope;
  s_issued_at : UtcTimestamp; s_expires_at : option UtcTimestamp; s_version : N; s_state : ApiKeyState;
}.
Definition snapshot_state (k : ApiKey) : ApiKeySnapshot :=
  mk_ApiKeySnapshot (k_id k) (k_owner k) (k_prefix k) (k_current_secret k) (k_previous_secret k) (k_rotation_started_at k)
    (k_previous_secret_expires_at k) (k_retired_secrets k) (k_scopes k) (k_issued_at k) (k_expires_at k) (k_version k) (k_state k).
Definition issued (request : ApiKeyIssueRequest) : ApiKey :=
  let binding := r_binding request in
  mk_ApiKey (b_id binding) (b_owner binding) (b_prefix binding) (r_secret_digest request) None None None [] (r_scopes request)
    (w_issued_at (r_validity request)) (w_expires_at (r_validity request)) version_initial Active.
Inductive RetiredSecretAdvance := Preserve | RetirePrevious.
Record ApiKeyAdvance := mk_ApiKeyAdvance {
  a_version : N; a_state : ApiKeyState; a_current_secret : ApiKeySecretDigest; a_previous_secret : option ApiKeySecretDigest;
  a_rotation_started_at : option UtcTimestamp; a_previous_secret_expires_at : option UtcTimestamp; a_retired_secret : RetiredSecretAdvance;
}.
Definition advance (k : ApiKey) (next : ApiKeyAdvance) : ApiKey :=
  let retired :=
    match a_retired_secret next, k_previous_secret k with
    | RetirePrevious, Some previous => k_retired_secrets k ++ [previous]
    | _, _ => k_retired_secrets k
    end in
  mk_ApiKey (k_id k) (k_owner k) (k_prefix k) (a_current_secret next) (a_previous_secret next) (a_rotation_started_at next)
    (a_previous_secret_expires_at next) retired (k_scopes k) (k_issued_at k) (k_expires_at k) (a_version next) (a_state next).

(** *** Validation of snapshots *)

Definition validate_snapshot_identity (s : ApiKeySnapshot) : outcome unit :=
  let valid := negb (is_empty (id_str (s_id s))) && negb (is_empty (id_str (tenant_id (s_owner s))))
    && negb (is_empty (id_str (user_id (s_owner s)))) && negb (is_empty (prefix_str (s_prefix s))) && negb (s_version s =? 0) in
  reject_if (negb valid) InvalidArgument.
Definition version_with_cost (base cost : N) : outcome N := ok_or (checked_add u64_max base cost) InvalidArgument.
Definition valid_terminal_version (version retired active rotating : N) : bool :=
  (version =? rotating) || ((0 <? retired) && (version =? active)).
Definition validate_snapshot_state_version (s : ApiKeySnapshot) (retired active rotating : N) : outcome unit :=
  let valid :=
    match s_state s with
    | Active => s_version s =? active
    | Rotating => s_version s =? rotating
    | Revoked | Expired => valid_terminal_version (s_version s) retired active rotating
    end in
  if valid then Ok tt else Err InvalidArgument.
Definition validate_snapshot_version (s : ApiKeySnapshot) : outcome unit :=
  let retired := len (s_retired_secrets s) in
  rotation_cost ← ok_or (checked_mul u64_max retired 2) InvalidArgument;
  active ← version_with_cost 1 rotation_cost;
  rotating ← version_with_cost 2 rotation_cost;
  validate_snapshot_state_version s retired active rotating.
Definition validate_expired_state (s : ApiKeySnapshot) : outcome unit :=
  reject_if (bool_decide (s_state s = Expired)) InvalidArgument.
Definition validate_snapshot_validity (s : ApiKeySnapshot) : outcome unit :=
  match s_expires_at s with
  | None => validate_expired_state s
  | Some expires_at =>
      span ← ok_or (i64_checked_sub expires_at (s_issued_at s)) InvalidArgument;
      reject_if ((span <=? 0)%Z || (MAX_API_KEY_LIFETIME_SECONDS <? span)%Z) InvalidArgument
  end.
Definition validate_previous_state (s : ApiKeySnapshot) (has_previous : bool) : outcome unit :=
  let valid := match s_state s with Rotating => has_previous | Active | Revoked | Expired => negb has_previous end in
  reject_if (negb valid) InvalidArgument.
Definition validate_previous_digest (s : ApiKeySnapshot) : outcome unit :=
  reject_if (bool_decide (s_previous_secret s = Some (s_current_secret s))) InvalidArgument.
Definition validate_rotation_start (s : ApiKeySnapshot) (rotation_started : UtcTimestamp) : outcome unit :=
  let after_issue := (s_issued_at s <=? rotation_started)%Z in
  let before_expiry := is_none_or (fun absolute => (rotation_started <? absolute)%Z) (s_expires_at s) in
  reject_if (negb after_issue || negb before_expiry) InvalidArgument.
Definition validate_overlap_before_expiry (s : ApiKeySnapshot) (overlap_expiry : UtcTimestamp) : outcome unit :=
  let within_absolute := is_none_or (fun absolute => (overlap_expiry <=? absolute)%Z) (s_expires_at s) in
  reject_if (negb within_absolute) InvalidArgument.
Definition validate_snapshot_overlap (s : ApiKeySnapshot) : outcome unit :=
  match s_rotation_started_at s, s_previous_secret_expires_at s with
  | Some rotation_started, Some overlap_expiry =>
      span ← ok_or (i64_checked_sub overlap_expiry rotation_started) InvalidArgument;
      reject_if ((span <=? 0)%Z || (MAX_OVERLAP_SECONDS <? span)%Z) InvalidArgument ;;
      validate_rotation_start s rotation_started ;;
      validate_overlap_before_expiry s overlap_expiry
  | _, _ => Ok tt
  end.
Definition is_some {A} (o : option A) : bool := match o with Some _ => true | None => false end.
Definition validate_snapshot_secret_state (s : ApiKeySnapshot) : outcome unit :=
  let has_previous := is_some (s_previous_secret s) in
  let complete_pairing := eqb has_previous (is_some (s_rotation_started_at s)) && eqb has_previous (is_some (s_previous_secret_expires_at s)) in
  reject_if (negb complete_pairing) InvalidArgument ;;
  validate_previous_state s has_previous ;;
  validate_previous_digest s ;;
  validate_snapshot_overlap s.
(** [HashSet::insert] answers whether the element is new; a set is the list of its elements. *)
Definition validate_retired_digest (s : ApiKeySnapshot) (d : ApiKeySecretDigest) (seen : list ApiKeySecretDigest) : outcome (list ApiKeySecretDigest) :=
  let duplicates_live := bool_decide (d = s_current_secret s) || bool_decide (Some d = s_previous_secret s) in
  if duplicates_live || bool_decide (d ∈ seen) then Err InvalidArgument else Ok (d :: seen).
Fixpoint validate_retired_digests (s : ApiKeySnapshot) (ds seen : list ApiKeySecretDigest) : outcome unit :=
  match ds with
  | [] => Ok tt
  | d :: rest => seen ← validate_retired_digest s d seen; validate_retired_digests s rest seen
  end.
Definition validate_retired_secrets (s : ApiKeySnapshot) : outcome unit :=
  let retired_count := len (s_retired_secrets s) in
  let rotating_at_capacity := bool_decide (s_state s = Rotating) && (MAX_RETIRED_SECRETS <=? retired_count) in
  reject_if ((MAX_RETIRED_SECRETS <? retired_count) || rotating_at_capacity) InvalidArgument ;;
  validate_retired_digests s (s_retired_secrets s) [].
Definition validate_snapshot (s : ApiKeySnapshot) : outcome (list ApiKeyScope) :=
  validate_snapshot_identity s ;;
  validate_snapshot_version s ;;
  validate_snapshot_validity s ;;
  validate_snapshot_secret_state s ;;
  validate_retired_secrets s ;;
  normalize_scopes (s_scopes s).
Definition from_snapshot (s : ApiKeySnapshot) : outcome ApiKey :=
  scopes ← validate_snapshot s;
  mret (mk_ApiKey (s_id s) (s_owner s) (s_prefix s) (s_current_secret s) (s_previous_secret s) (s_rotation_started_at s)
    (s_previous_secret_expires_at s) (s_retired_secrets s) scopes (s_issued_at s) (s_expires_at s) (s_version s) (s_state s)).

(** ** Commands, events and presentations ([transition.rs]) *)

Record ApiKeyRotation := mk_ApiKeyRotation {
  ro_key_id : ApiKeyId; ro_owner : ApiKeyOwner; ro_new_secret : ApiKeySecretDigest; ro_previous_secret_expires_at : UtcTimestamp;
}.
Record ApiKeyPresentation := mk_ApiKeyPresentation {
  p_key_id : ApiKeyId; p_owner : ApiKeyOwner; p_prefix : ApiKeyPrefix; p_secret_digest : ApiKeySecretDigest;
  p_required_scope : ApiKeyScope; p_presented_at : UtcTimestamp;
}.
Record ApiKeyVerification := mk_ApiKeyVerification { v_key_id : ApiKeyId; v_tenant_id : TenantId; v_user_id : UserId; v_matched_scope : ApiKeyScope }.
Inductive ApiKeyAction := Rotate (rotation : ApiKeyRotation) | CompleteRotation | Revoke (owner : ApiKeyOwner) | Expire (owner : ApiKeyOwner).
Record ApiKeyCommand := mk_ApiKeyCommand { expected_version : N; actor : PrincipalId; occurred_at : UtcTimestamp; action : ApiKeyAction }.
Inductive ApiKeyEventKind := EventIssued | EventRotated | EventRotationCompleted | EventRevoked | EventExpired.
Record ApiKeyEvent := mk_ApiKeyEvent {
  e_key_id : ApiKeyId; e_tenant_id : TenantId; e_user_id : UserId; e_actor : PrincipalId; e_occurred_at : UtcTimestamp;
  e_version : N; e_kind : ApiKeyEventKind;
}.
Record ApiKeyTransition := mk_ApiKeyTransition { key : ApiKey; event : ApiKeyEvent }.

Definition event_from (k : ApiKey) (a : PrincipalId) (at_ : UtcTimestamp) (kind : ApiKeyEventKind) : ApiKeyEvent :=
  mk_ApiKeyEvent (k_id k) (tenant_id (k_owner k)) (user_id (k_owner k)) a at_ (k_version k) kind.
Definition validate_validity_window (w : ApiKeyValidityWindow) : outcome unit :=
  match w_expires_at w with
  | None => Ok tt
  | Some expires =>
      reject_if (expires <=? w_issued_at w)%Z InvalidArgument ;;
      span ← ok_or (i64_checked_sub expires (w_issued_at w)) InvalidArgument;
      reject_if (MAX_API_KEY_LIFETIME_SECONDS <? span)%Z InvalidArgument
  end.
Definition issue_api_key (request : ApiKeyIssueRequest) : outcome ApiKeyTransition :=
  validate_validity_window (r_validity request) ;;
  let k := issued request in
  mret (mk_ApiKeyTransition k (event_from k (b_actor (r_binding request)) (w_issued_at (r_validity request)) EventIssued)).
Definition validate_expected_version (k : ApiKey) (expected : N) : outcome unit := reject_if (negb (k_version k =? expected)) VersionConflict.
Definition validate_command_time (k : ApiKey) (at_ : UtcTimestamp) : outcome unit := reject_if (at_ <? k_issued_at k)%Z NotYetValid.
Definition validate_owner (k : ApiKey) (owner : ApiKeyOwner) : outcome unit :=
  reject_if (bool_decide (tenant_id (k_owner k) <> tenant_id owner)) TenantMismatch ;;
  reject_if (bool_decide (user_id (k_owner k) <> user_id owner)) OwnerMismatch.
Definition validate_usable_state (k : ApiKey) : outcome unit :=
  match k_state k with Active | Rotating => Ok tt | Revoked | Expired => Err Terminal end.
Definition validate_rotation_state (k : ApiKey) : outcome unit :=
  match k_state k with Active => Ok tt | Rotating => Err RotationInProgress | Revoked | Expired => Err Terminal end.
Definition validate_not_expired (k : ApiKey) (at_ : UtcTimestamp) : outcome unit :=
  match k_expires_at k with
  | Some expires_at => reject_if (expires_at <=? at_)%Z ExpiredError
  | None => Ok tt
  end.
Definition validate_presentation_identity (k : ApiKey) (p : ApiKeyPresentation) : outcome unit :=
  validate_owner k (p_owner p) ;;
  reject_if (bool_decide (k_id k <> p_key_id p)) KeyMismatch ;;
  reject_if (bool_decide (k_prefix k <> p_prefix p)) PrefixMismatch.
Definition validate_required_scope (k : ApiKey) (required_scope : ApiKeyScope) : outcome unit :=
  if existsb (fun s => bool_decide (s = required_scope)) (k_scopes k) then Ok tt else Err ScopeDenied.
Definition validate_rotation_key (k : ApiKey) (r : ApiKeyRotation) : outcome unit :=
  if bool_decide (k_id k = ro_key_id r) then Ok tt else Err KeyMismatch.
Definition validate_overlap_order (at_ previous_secret_expires_at : UtcTimestamp) : outcome unit :=
  if (at_ <? previous_secret_expires_at)%Z then Ok tt else Err InvalidArgument.
Definition overlap_span (at_ previous_secret_expires_at : UtcTimestamp) : outcome Z :=
  ok_or (i64_checked_sub previous_secret_expires_at at_) InvalidArgument.
Definition validate_overlap_bound (span : Z) : outcome unit := if (span <=? MAX_OVERLAP_SECONDS)%Z then Ok tt else Err InvalidArgument.
Definition validate_overlap_absolute (k : ApiKey) (previous_secret_expires_at : UtcTimestamp) : outcome unit :=
  match k_expires_at k with
  | None => Ok tt
  | Some absolute => if (previous_secret_expires_at <=? absolute)%Z then Ok tt else Err InvalidArgument
  end.
Definition validate_overlap_window (k : ApiKey) (at_ previous_secret_expires_at : UtcTimestamp) : outcome unit :=
  validate_overlap_order at_ previous_secret_expires_at ;;
  span ← overlap_span at_ previous_secret_expires_at;
  validate_overlap_bound span ;;
  validate_overlap_absolute k previous_secret_expires_at.
Definition validate_retired_capacity (k : ApiKey) : outcome unit :=
  reject_if (MAX_RETIRED_SECRETS <=? len (k_retired_secrets k)) ResourceLimitExceeded.
Definition retire_previous_secret (k : ApiKey) : outcome RetiredSecretAdvance :=
  match k_previous_secret k with
  | None => Ok Preserve
  | Some _ => if MAX_RETIRED_SECRETS <=? len (k_retired_secrets k) then Err ResourceLimitExceeded else Ok RetirePrevious
  end.
Definition rotating_key (k : ApiKey) (version : N) (at_ : UtcTimestamp) (r : ApiKeyRotation) : ApiKey :=
  advance k (mk_ApiKeyAdvance version Rotating (ro_new_secret r) (Some (k_current_secret k)) (Some at_)
    (Some (ro_previous_secret_expires_at r)) Preserve).
Definition previous_secret_is_active (k : ApiKey) (presented_at : UtcTimestamp) : bool :=
  is_some (k_previous_secret k) && is_some_and (fun expires => (presented_at <? expires)%Z) (k_previous_secret_expires_at k).

Definition apply_complete_rotation (k : ApiKey) (a : PrincipalId) (at_ : UtcTimestamp) : outcome ApiKeyTransition :=
  reject_if (bool_decide (k_state k <> Rotating)) InvalidArgument ;;
  previous_expires ← ok_or (k_previous_secret_expires_at k) InvalidArgument;
  reject_if (at_ <? previous_expires)%Z NotYetExpired ;;
  retired_secret ← retire_previous_secret k;
  version ← version_next (k_version k);
  let next := advance k (mk_ApiKeyAdvance version Active (k_current_secret k) None None None retired_secret) in
  mret (mk_ApiKeyTransition next (event_from next a at_ EventRotationCompleted)).
Definition apply_revoke (k : ApiKey) (a : PrincipalId) (at_ : UtcTimestamp) (owner : ApiKeyOwner) : outcome ApiKeyTransition :=
  validate_owner k owner ;;
  validate_usable_state k ;;
  retired_secret ← retire_previous_secret k;
  version ← version_next (k_version k);
  let next := advance k (mk_ApiKeyAdvance version Revoked (k_current_secret k) None None None retired_secret) in
  mret (mk_ApiKeyTransition next (event_from next a at_ EventRevoked)).
Definition apply_expire (k : ApiKey) (a : PrincipalId) (at_ : UtcTimestamp) (owner : ApiKeyOwner) : outcome ApiKeyTransition :=
  validate_owner k owner ;;
  validate_usable_state k ;;
  expires_at ← ok_or (k_expires_at k) InvalidArgument;
  reject_if (at_ <? expires_at)%Z NotYetExpired ;;
  retired_secret ← retire_previous_secret k;
  version ← version_next (k_version k);
  let next := advance k (mk_ApiKeyAdvance version Expired (k_current_secret k) None None None retired_secret) in
  mret (mk_ApiKeyTransition next (event_from next a at_ EventExpired)).

Section compare.
Context `{ConstantTimeEq}.

Definition previous_secret_match_choice (k : ApiKey) (presented : ApiKeySecretDigest) : bool :=
  match k_previous_secret k with Some previous => ct_eq previous presented | None => false end.
Definition retired_secret_match_choice (k : ApiKey) (candidate : ApiKeySecretDigest) : bool :=
  foldl (fun found retired => found || ct_eq retired candidate) false (k_retired_secrets k).
Definition secret_is_acceptable (k : ApiKey) (presented : ApiKeySecretDigest) (presented_at : UtcTimestamp) : bool :=
  let current_matches := ct_eq (k_current_secret k) presented in
  let previous_matches := previous_secret_match_choice k presented in
  let previous_is_active := previous_secret_is_active k presented_at in
  current_matches || (previous_matches && previous_is_active).
Definition validate_presented_secret (k : ApiKey) (p : ApiKeyPresentation) : outcome unit :=
  if secret_is_acceptable k (p_secret_digest p) (p_presented_at p) then Ok tt else Err SecretMismatch.
Definition verify_api_key_presentation (k : ApiKey) (p : ApiKeyPresentation) : outcome ApiKeyVerification :=
  validate_presentation_identity k p ;;
  validate_usable_state k ;;
  validate_command_time k (p_presented_at p) ;;
  validate_not_expired k (p_presented_at p) ;;
  validate_presented_secret k p ;;
  validate_required_scope k (p_required_scope p) ;;
  mret (mk_ApiKeyVerification (k_id k) (tenant_id (k_owner k)) (user_id (k_owner k)) (p_required_scope p)).
Definition validate_new_secret (k : ApiKey) (candidate : ApiKeySecretDigest) : outcome unit :=
  let current_matches := ct_eq (k_current_secret k) candidate in
  let previous_matches := previous_secret_match_choice k candidate in
  let retired_matches := retired_secret_match_choice k candidate in
  reject_if current_matches InvalidArgument ;;
  reject_if (previous_matches || retired_matches) SecretReuseDetected.
Definition validate_rotation_request (k : ApiKey) (at_ : UtcTimestamp) (r : ApiKeyRotation) : outcome unit :=
  validate_rotation_state k ;;
  validate_owner k (ro_owner r) ;;
  validate_rotation_key k r ;;
  validate_not_expired k at_ ;;
  validate_overlap_window k at_ (ro_previous_secret_expires_at r) ;;
  validate_new_secret k (ro_new_secret r) ;;
  validate_retired_capacity k.
Definition apply_rotation (k : ApiKey) (a : PrincipalId) (at_ : UtcTimestamp) (r : ApiKeyRotation) : outcome ApiKeyTransition :=
  validate_rotation_request k at_ r ;;
  version ← version_next (k_version k);
  let next := rotating_key k version at_ r in
  mret (mk_ApiKeyTransition next (event_from next a at_ EventRotated)).
Definition transition_api_key (k : ApiKey) (command : ApiKeyCommand) : outcome ApiKeyTransition :=
  validate_expected_version k (expected_version command) ;;
  validate_command_time k (occurred_at command) ;;
  match action command with
  | Rotate r => apply_rotation k (actor command) (occurred_at command) r
  | CompleteRotation => apply_complete_rotation k (actor command) (occurred_at command)
  | Revoke owner => apply_revoke k (actor command) (occurred_at command) owner
  | Expire owner => apply_expire k (actor command) (occurred_at command) owner
  end.
End compare.

(** ** Specification *)

Definition usable (k : ApiKey) : Prop := k_state k = Active \/ k_state k = Rotating.
(** An instant before the expiry of a key, where it has one. *)
Definition unexpired (k : ApiKey) (at_ : UtcTimestamp) : Prop := forall e, k_expires_at k = Some e -> (at_ < e)%Z.
Definition lasts_until (k : ApiKey) (at_ : UtcTimestamp) : Prop := forall e, k_expires_at k = Some e -> (at_ <= e)%Z.
(** Identities that their parsers produced are not empty. *)
Definition named (id : ApiKeyId) (owner : ApiKeyOwner) (prefix : ApiKeyPrefix) : Prop :=
  id_str id <> ""%string /\ id_str (tenant_id owner) <> ""%string /\ id_str (user_id owner) <> ""%string /\ prefix_str prefix <> ""%string.
Definition no_overlap (k : ApiKey) : Prop :=
  k_previous_secret k = None /\ k_rotation_started_at k = None /\ k_previous_secret_expires_at k = None.
Definition overlapping (k : ApiKey) : Prop :=
  exists p st e, k_previous_secret k = Some p /\ k_rotation_started_at k = Some st /\ k_previous_secret_expires_at k = Some e /\
    p <> k_current_secret k /\ p ∉ k_retired_secrets k /\ (0 < e - st <= MAX_OVERLAP_SECONDS)%Z /\
    (k_issued_at k <= st)%Z /\ unexpired k st /\ lasts_until k e.
Record key_ok (k : ApiKey) : Prop := mk_key_ok {
  ok_named : named (k_id k) (k_owner k) (k_prefix k);
  ok_scopes : normalize_scopes (k_scopes k) = Ok (k_scopes k);
  ok_validity : match k_expires_at k with
    | Some e => (0 < e - k_issued_at k <= MAX_API_KEY_LIFETIME_SECONDS)%Z
    | None => k_state k <> Expired
    end;
  ok_retired : NoDup (k_retired_secrets k) /\ k_current_secret k ∉ k_retired_secrets k;
  ok_capacity : len (k_retired_secrets k) <= MAX_RETIRED_SECRETS;
  ok_state : let r := len (k_retired_secrets k) in
    match k_state k with
    | Active => k_version k = 1 + 2 * r /\ no_overlap k
    | Rotating => k_version k = 2 + 2 * r /\ r < MAX_RETIRED_SECRETS /\ overlapping k
    | Revoked | Expired => (k_version k = 2 + 2 * r \/ (0 < r /\ k_version k = 1 + 2 * r)) /\ no_overlap k
    end;
}.

(** A key that ends its overlap, in a new state. *)
Definition ended (k : ApiKey) (state : ApiKeyState) : ApiKey :=
  advance k (mk_ApiKeyAdvance (k_version k + 1) state (k_current_secret k) None None None RetirePrevious).
Definition ending (k : ApiKey) (state : ApiKeyState) (kind : ApiKeyEventKind) (c : ApiKeyCommand) : ApiKeyTransition :=
  mk_ApiKeyTransition (ended k state) (event_from (ended k state) (actor c) (occurred_at c) kind).
(** What an accepted command needs, and the transition it makes. *)
Definition accepts (k : ApiKey) (c : ApiKeyCommand) (t : ApiKeyTransition) : Prop :=
  expected_version c = k_version k /\ (k_issued_at k <= occurred_at c)%Z /\
  match action c with
  | Rotate r =>
      k_state k = Active /\ ro_owner r = k_owner k /\ ro_key_id r = k_id k /\ unexpired k (occurred_at c) /\
      (occurred_at c < ro_previous_secret_expires_at r)%Z /\ (ro_previous_secret_expires_at r - occurred_at c <= MAX_OVERLAP_SECONDS)%Z /\
      lasts_until k (ro_previous_secret_expires_at r) /\
      ro_new_secret r <> k_current_secret k /\ ro_new_secret r ∉ k_retired_secrets k /\ len (k_retired_secrets k) < MAX_RETIRED_SECRETS /\
      let next := rotating_key k (k_version k + 1) (occurred_at c) r in
      t = mk_ApiKeyTransition next (event_from next (actor c) (occurred_at c) EventRotated)
  | CompleteRotation =>
      k_state k = Rotating /\ (exists e, k_previous_secret_expires_at k = Some e /\ (e <= occurred_at c)%Z) /\
      t = ending k Active EventRotationCompleted c
  | Revoke owner => owner = k_owner k /\ usable k /\ t = ending k Revoked EventRevoked c
  | Expire owner =>
      owner = k_owner k /\ usable k /\ (exists e, k_expires_at k = Some e /\ (e <= occurred_at c)%Z) /\
      t = ending k Expired EventExpired c
  end.
(** What a presentation needs to be verified. *)
Definition entitled (k : ApiKey) (p : ApiKeyPresentation) : Prop :=
  p_owner p = k_owner k /\ p_key_id p = k_id k /\ p_prefix p = k_prefix k /\ usable k /\
  (k_issued_at k <= p_presented_at p)%Z /\ unexpired k (p_presented_at p) /\ p_required_scope p ∈ k_scopes k /\
  (p_secret_digest p = k_current_secret k \/
   (k_previous_secret k = Some (p_secret_digest p) /\ exists e, k_previous_secret_expires_at k = Some e /\ (p_presented_at p < e)%Z)).

(** Keys that an issuance and accepted commands produce. *)
Inductive key_step `{ConstantTimeEq} (k : ApiKey) : ApiKey -> Prop :=
| key_command c t : transition_api_key k c = Ok t -> key_step k (key t).
Definition reachable `{ConstantTimeEq} (k : ApiKey) : Prop :=
  exists binding secret scopes validity request t,
    named (b_id binding) (b_owner binding) (b_prefix binding) /\ request_new binding secret scopes validity = Ok request /\
    issue_api_key request = Ok t /\ rtc key_step (key t) k.

(** A key of the same identity at an earlier point of its history. *)
Definition earlier (k : ApiKey) (retired : list ApiKeySecretDigest) (current : ApiKeySecretDigest) : ApiKey :=
  mk_ApiKey (k_id k) (k_owner k) (k_prefix k) current None None None retired (k_scopes k) (k_issued_at k) (k_expires_at k)
    (1 + 2 * len retired) Active.
Definition replacing (k : ApiKey) (new : ApiKeySecretDigest) (until : UtcTimestamp) : ApiKeyRotation :=
  mk_ApiKeyRotation (k_id k) (k_owner k) new until.

Definition sample_owner : ApiKeyOwner := mk_ApiKeyOwner (MkId "t") (MkId "u").
Definition sample_key : ApiKey :=
  mk_ApiKey (MkId "key") sample_owner (mk_ApiKeyPrefix "ak_1") (sample_digest Byte.x02) (Some (sample_digest Byte.x01)) (Some 10%Z)
    (Some 20%Z) [sample_digest Byte.x00] [mk_ApiKeyScope "chat"] 0%Z (Some 100%Z) 4 Rotating.
Definition sample_presentation (secret : Byte.byte) (at_ : Z) : ApiKeyPresentation :=
  mk_ApiKeyPresentation (MkId "key") sample_owner (mk_ApiKeyPrefix "ak_1") (sample_digest secret) (mk_ApiKeyScope "chat") at_.

(** ** Lemmas: scopes *)

Lemma dedup_scopes_elem l x : x ∈ dedup_scopes l <-> x ∈ l.
Proof.
  induction l as [|a [|b l] IH]; [done|done|]. change (dedup_scopes (a :: b :: l)) with (if decide (a = b) then dedup_scopes (b :: l) else a :: dedup_scopes (b :: l)).
  destruct (decide (a = b)) as [->|Hn]; [rewrite IH; set_solver|]. rewrite !elem_of_cons, IH. set_solver.
Qed.
Lemma dedup_scopes_sorted l : sorted_by scope_str l -> strictly_sorted_by scope_str (dedup_scopes l).
Proof.
  unfold sorted_by, strictly_sorted_by. induction l as [|a [|b l] IH]; [constructor|repeat constructor|]. intros [Hs Ha]%StronglySorted_inv.
  change (dedup_scopes (a :: b :: l)) with (if decide (a = b) then dedup_scopes (b :: l) else a :: dedup_scopes (b :: l)).
  destruct (decide (a = b)) as [->|Hn]; [by apply IH|]. constructor; [by apply IH|]. apply Forall_forall. intros x Hx. rewrite dedup_scopes_elem in Hx.
  pose proof Ha as Ha'. rewrite Forall_forall in Ha. pose proof (Ha x Hx) as Hle. apply ord_le_cases in Hle as [Hlt|He]; [done|].
  exfalso. apply Hn. apply StronglySorted_inv in Hs as [_ Hb]. rewrite Forall_forall in Hb. apply Forall_cons in Ha' as [Hab _].
  assert (ord_le (scope_str b) (scope_str x)) as Hbx by (apply elem_of_cons in Hx as [->|Hx]; [apply ord_le_refl|by apply Hb]).
  rewrite <- He in Hbx. assert (scope_str a = scope_str b) by (by apply ord_le_antisym). destruct a, b. cbn in *. by f_equal.
Qed.
Lemma dedup_scopes_id l : strictly_sorted_by scope_str l -> dedup_scopes l = l.
Proof.
  unfold strictly_sorted_by. induction l as [|a [|b l] IH]; [done|done|]. intros [Hs Ha]%StronglySorted_inv.
  change (dedup_scopes (a :: b :: l)) with (if decide (a = b) then dedup_scopes (b :: l) else a :: dedup_scopes (b :: l)).
  apply Forall_cons in Ha as [Hab _]. destruct (decide (a = b)) as [->|Hn]; [by apply ord_lt_irrefl in Hab|]. by rewrite IH.
Qed.
Lemma scope_str_inj x y : scope_str x = scope_str y -> x = y.
Proof. destruct x, y. cbn. by intros ->. Qed.
Lemma normalize_scopes_normal l l' : normalize_scopes l = Ok l' -> strictly_sorted_by scope_str l' /\ 0 < len l' <= MAX_API_KEY_SCOPES.
Proof.
  unfold normalize_scopes. rewrite !validated_Ok, !reject_if_Ok, !orb_false_iff, !N.eqb_neq, !N.ltb_ge. intros (_ & ((H1 & H2) & [= <-])).
  split; [apply dedup_scopes_sorted, sort_by_sorted|]. lia.
Qed.
Lemma normalize_scopes_id l : strictly_sorted_by scope_str l -> 0 < len l <= MAX_API_KEY_SCOPES -> normalize_scopes l = Ok l.
Proof.
  intros Hs Hl. unfold normalize_scopes. assert (sort_by scope_str l = l) as Hsort.
  { apply (strictly_sorted_unique scope_str).
    - apply sorted_NoDup_strict; [apply sort_by_sorted|]. rewrite sort_by_Permutation. by apply strictly_sorted_NoDup.
    - done.
    - apply sort_by_Permutation. }
  rewrite !validated_Ok, !reject_if_Ok, Hsort, dedup_scopes_id, !orb_false_iff, !N.eqb_neq, !N.ltb_ge by done. split_and!; try done; lia.
Qed.
Lemma normalize_scopes_idempotent l l' : normalize_scopes l = Ok l' -> normalize_scopes l' = Ok l'.
Proof. intros [H1 H2]%normalize_scopes_normal. by apply normalize_scopes_id. Qed.

(** ** Lemmas: snapshots *)

Lemma span_positive_then {A} (from to_ hi : Z) (k : outcome A) r : (hi <= i64_max)%Z ->
  (span ← ok_or (i64_checked_sub to_ from) InvalidArgument; reject_if ((span <=? 0)%Z || (hi <? span)%Z) InvalidArgument ;; k) = Ok r <->
  (0 < to_ - from <= hi)%Z /\ k = Ok r.
Proof.
  intros Hhi. rewrite result_bind_Ok. setoid_rewrite ok_or_Ok. setoid_rewrite validated_Ok. setoid_rewrite reject_if_Ok.
  setoid_rewrite orb_false_iff. setoid_rewrite Z.leb_gt. setoid_rewrite Z.ltb_ge. split.
  - intros (span & Hs & H1 & H2). unfold i64_checked_sub in Hs. destruct (_ && _) in Hs; [|done]. injection Hs as <-. split; [lia|done].
  - intros [H1 H2]. exists (to_ - from)%Z. split; [|split; [lia|done]]. unfold i64_checked_sub, i64_min, i64_max in *.
    rewrite (proj2 (andb_true_iff _ _)); [done|lia].
Qed.
Lemma span_positive (from to_ hi : Z) : (hi <= i64_max)%Z ->
  (span ← ok_or (i64_checked_sub to_ from) InvalidArgument; reject_if ((span <=? 0)%Z || (hi <? span)%Z) InvalidArgument) = Ok tt <->
  (0 < to_ - from <= hi)%Z.
Proof.
  intros Hhi. pose proof (span_positive_then from to_ hi (Ok tt) tt Hhi) as H. destruct (i64_checked_sub to_ from) as [span|]; cbn in *.
  - destruct (reject_if _ _) as [[]|]; cbn in H; tauto.
  - tauto.
Qed.
Lemma none_or {A} (p : A -> bool) (P : A -> Prop) (o : option A) : (forall a, p a = true <-> P a) ->
  is_none_or p o = true <-> forall a, o = Some a -> P a.
Proof. intros H. destruct o as [a|]; cbn; [rewrite H; naive_solver|naive_solver]. Qed.
Lemma nonempty_string s : is_empty s = false <-> s <> ""%string.
Proof. unfold is_empty, byte_len. destruct s; cbn; [done|]. rewrite N.eqb_neq. split; [done|lia]. Qed.

Lemma retired_digests_Ok s ds seen : validate_retired_digests s ds seen = Ok tt <->
  NoDup ds /\ Forall (fun d => d <> s_current_secret s /\ Some d <> s_previous_secret s /\ d ∉ seen) ds.
Proof.
  revert seen. induction ds as [|d ds IH]; intros seen; cbn [validate_retired_digests].
  - split; [intros _; split; constructor|done].
  - rewrite result_bind_Ok, NoDup_cons, Forall_cons. unfold validate_retired_digest. cbv zeta. split.
    + intros (seen' & Hs & Hr). destruct (_ || _) eqn:Hb in Hs; [done|]. injection Hs as <-. apply IH in Hr as [H1 H2].
      rewrite !orb_false_iff, !bool_decide_eq_false in Hb. split_and!; try tauto.
      * intros Hin. rewrite Forall_forall in H2. apply H2 in Hin as (_ & _ & Hin). set_solver.
      * eapply Forall_impl; [exact H2|]. intros d' (? & ? & ?). set_solver.
    + intros ((H1 & H2) & (H3 & H4 & H5) & H6). exists (d :: seen). split.
      * repeat rewrite bool_decide_eq_false_2 by done. done.
      * apply IH. split; [done|]. rewrite Forall_forall in *. intros d' Hin. destruct (H6 d' Hin) as (? & ? & ?). split_and!; try done. set_solver.
Qed.
Lemma snapshot_identity_Ok k : k_version k <> 0 -> validate_snapshot_identity (snapshot_state k) = Ok tt <-> named (k_id k) (k_owner k) (k_prefix k).
Proof.
  intros Hv. unfold validate_snapshot_identity, named. cbn. rewrite reject_if_Ok, negb_false_iff, !andb_true_iff, !negb_true_iff, !nonempty_string, N.eqb_neq. tauto.
Qed.
Lemma snapshot_version_Ok k : len (k_retired_secrets k) <= MAX_RETIRED_SECRETS ->
  validate_snapshot_version (snapshot_state k) = Ok tt <-> let r := len (k_retired_secrets k) in
    match k_state k with
    | Active => k_version k = 1 + 2 * r
    | Rotating => k_version k = 2 + 2 * r
    | Revoked | Expired => k_version k = 2 + 2 * r \/ (0 < r /\ k_version k = 1 + 2 * r)
    end.
Proof.
  intros Hc. unfold validate_snapshot_version, version_with_cost, validate_snapshot_state_version, valid_terminal_version, MAX_RETIRED_SECRETS in *.
  cbn [s_retired_secrets s_version s_state snapshot_state]. unfold checked_mul, checked_add, u64_max.
  rewrite (proj2 (N.leb_le _ _)) by lia. cbn [ok_or mbind result_bind]. do 2 (rewrite (proj2 (N.leb_le _ _)) by lia; cbn [ok_or mbind result_bind]).
  cbv zeta. generalize dependent (len (k_retired_secrets k)). intros r _.
  destruct (k_state k); match goal with |- context [if ?b then _ else _] => destruct b eqn:Hb end;
    rewrite ?orb_true_iff, ?orb_false_iff, ?andb_true_iff, ?andb_false_iff, ?N.eqb_eq, ?N.eqb_neq, ?N.ltb_lt, ?N.ltb_ge in Hb;
    first [split; [intros _; lia|done] | split; [done|intros HP; exfalso; lia]].
Qed.
Lemma snapshot_validity_Ok k : validate_snapshot_validity (snapshot_state k) = Ok tt <->
  match k_expires_at k with
  | Some e => (0 < e - k_issued_at k <= MAX_API_KEY_LIFETIME_SECONDS)%Z
  | None => k_state k <> Expired
  end.
Proof.
  unfold validate_snapshot_validity, validate_expired_state. cbn [s_expires_at s_issued_at s_state snapshot_state].
  destruct (k_expires_at k) as [e|]; [by apply span_positive|]. by rewrite reject_if_Ok, bool_decide_eq_false.
Qed.
Lemma snapshot_secrets_Ok k : validate_snapshot_secret_state (snapshot_state k) = Ok tt <->
  match k_state k with
  | Rotating => exists p st e, k_previous_secret k = Some p /\ k_rotation_started_at k = Some st /\ k_previous_secret_expires_at k = Some e /\
      p <> k_current_secret k /\ (0 < e - st <= MAX_OVERLAP_SECONDS)%Z /\ (k_issued_at k <= st)%Z /\ unexpired k st /\ lasts_until k e
  | _ => no_overlap k
  end.
Proof.
  unfold validate_snapshot_secret_state, validate_previous_state, validate_previous_digest, validate_snapshot_overlap, validate_rotation_start,
    validate_overlap_before_expiry, no_overlap, unexpired, lasts_until.
  cbn [s_previous_secret s_rotation_started_at s_previous_secret_expires_at s_state s_current_secret s_issued_at s_expires_at snapshot_state].
  rewrite !validated_Ok, !reject_if_Ok, !negb_false_iff, bool_decide_eq_false.
  destruct (k_previous_secret k) as [p|], (k_rotation_started_at k) as [st|], (k_previous_secret_expires_at k) as [e|]; cbn [is_some eqb andb negb];
    rewrite ?span_positive_then by done; rewrite ?validated_Ok, ?reject_if_Ok, ?orb_false_iff, ?negb_false_iff, ?Z.leb_le;
    rewrite ?(none_or _ _ _ (fun a => Z.ltb_lt st a)), ?(none_or _ _ _ (fun a => Z.leb_le e a)); destruct (k_state k); naive_solver.
Qed.
Lemma snapshot_retired_Ok k : validate_retired_secrets (snapshot_state k) = Ok tt <->
  len (k_retired_secrets k) <= MAX_RETIRED_SECRETS /\ (k_state k = Rotating -> len (k_retired_secrets k) < MAX_RETIRED_SECRETS) /\
  NoDup (k_retired_secrets k) /\ k_current_secret k ∉ k_retired_secrets k /\
  (forall p, k_previous_secret k = Some p -> p ∉ k_retired_secrets k).
Proof.
  unfold validate_retired_secrets. cbn [s_retired_secrets s_state snapshot_state]. rewrite validated_Ok, reject_if_Ok, orb_false_iff, N.ltb_ge, andb_false_iff,
    bool_decide_eq_false, N.leb_gt, retired_digests_Ok, Forall_forall. cbn [s_current_secret s_previous_secret snapshot_state]. split.
  - intros ((H1 & H2) & H3 & H4). split_and!; try done; [tauto|..].
    + intros Hin. by apply H4 in Hin as (Hin & _).
    + intros p Hp Hin. apply H4 in Hin as (_ & Hin & _). congruence.
  - intros (H1 & H2 & H3 & H4 & H5). split_and!; try done; [destruct (decide (k_state k = Rotating)); tauto|].
    intros d Hd. split_and!; [congruence|intros He; by apply (H5 d)|apply not_elem_of_nil].
Qed.

Lemma key_snapshot_Ok k : validate_snapshot (snapshot_state k) = Ok (k_scopes k) <-> key_ok k.
Proof.
  unfold validate_snapshot. rewrite !validated_Ok. cbn [s_scopes snapshot_state]. split.
  - intros (H1 & H2 & H3 & H4 & H5 & H6). apply snapshot_retired_Ok in H5 as (H5 & H5' & H5'' & H7 & H8). apply snapshot_version_Ok in H2; [|done].
    apply snapshot_identity_Ok in H1; [|destruct (k_state k); cbn in H2; lia]. apply snapshot_validity_Ok in H3. apply snapshot_secrets_Ok in H4.
    constructor; try done. cbn in H2 |- *. destruct (k_state k); try tauto. split_and!; [done|by apply H5'|].
    destruct H4 as (p & st & e & H4). exists p, st, e. naive_solver.
  - intros [H1 H2 H3 H4 H5 H6]. cbn in H6. split_and!; try done.
    + apply snapshot_identity_Ok; [destruct (k_state k); lia|done].
    + apply snapshot_version_Ok; [done|]. cbv zeta. destruct (k_state k); tauto.
    + by apply snapshot_validity_Ok.
    + apply snapshot_secrets_Ok. destruct (k_state k); try tauto. destruct H6 as (_ & _ & p & st & e & H). exists p, st, e. tauto.
    + apply snapshot_retired_Ok. split_and!; try done; try tauto.
      * intros Hr. rewrite Hr in H6. tauto.
      * intros p Hp. destruct (k_state k); destruct H6 as (_ & H); try (destruct H as (_ & p' & st & e & H); naive_solver); destruct H; congruence.
Qed.
Lemma key_ok_snapshot k : from_snapshot (snapshot_state k) = Ok k <-> key_ok k.
Proof.
  rewrite <- key_snapshot_Ok. unfold from_snapshot. rewrite result_bind_Ok. split.
  - intros (sc & Hv & [= Hk]). assert (k_scopes k = sc) as -> by (by rewrite <- Hk). done.
  - intros Hv. exists (k_scopes k). split; [done|by destruct k].
Qed.
Lemma retired_digests_ext s s' ds seen : s_current_secret s = s_current_secret s' -> s_previous_secret s = s_previous_secret s' ->
  validate_retired_digests s ds seen = validate_retired_digests s' ds seen.
Proof.
  intros H1 H2. revert seen. induction ds as [|d ds IH]; intros seen; cbn; [done|]. unfold validate_retired_digest. rewrite H1, H2.
  destruct (_ || _); cbn; [done|]. apply IH.
Qed.
Lemma from_snapshot_key_ok s k : from_snapshot s = Ok k -> key_ok k.
Proof.
  intros H. apply key_ok_snapshot. unfold from_snapshot in *. apply result_bind_Ok in H as (sc & Hv & [= <-]).
  unfold validate_snapshot in *. rewrite !validated_Ok in Hv. rewrite result_bind_Ok. exists sc. split; [|done]. rewrite !validated_Ok.
  destruct Hv as (H1 & H2 & H3 & H4 & H5 & H6). split_and!; try done; [|exact (normalize_scopes_idempotent _ _ H6)].
  unfold validate_retired_secrets in *. rewrite validated_Ok in *. destruct H5 as [H5 H7]. split; [exact H5|]. rewrite <- H7. by apply retired_digests_ext.
Qed.

(** ** Lemmas: transitions *)

Lemma key_owner_Ok k o : validate_owner k o = Ok tt <-> o = k_owner k.
Proof.
  unfold validate_owner. rewrite validated_Ok, !keeps. destruct (k_owner k), o. cbn. split; [intros [-> ->]; done|intros [= -> ->]; done].
Qed.
Lemma usable_Ok k : validate_usable_state k = Ok tt <-> usable k.
Proof. unfold validate_usable_state, usable. destruct (k_state k); naive_solver. Qed.
Lemma not_expired_Ok k at_ : validate_not_expired k at_ = Ok tt <-> unexpired k at_.
Proof. unfold validate_not_expired, unexpired. destruct (k_expires_at k); [rewrite reject_if_Ok, Z.leb_gt|]; naive_solver. Qed.
Lemma small_version k : key_ok k -> version_next (k_version k) = Ok (k_version k + 1).
Proof.
  intros Hk. pose proof (ok_capacity _ Hk) as Hc. pose proof (ok_state _ Hk) as Hs. cbv zeta in Hs. unfold MAX_RETIRED_SECRETS in *.
  unfold version_next, checked_add, u64_max. rewrite (proj2 (N.leb_le _ _)); [done|]. destruct (k_state k); lia.
Qed.
Lemma retire_run k : key_ok k -> exists how, retire_previous_secret k = Ok how /\
  forall st, advance k (mk_ApiKeyAdvance (k_version k + 1) st (k_current_secret k) None None None how) = ended k st.
Proof.
  intros Hk. unfold retire_previous_secret, ended, advance. pose proof (ok_state _ Hk) as Hs. cbv zeta in Hs.
  destruct (k_previous_secret k) as [p|] eqn:Hp.
  - exists RetirePrevious. split; [|done]. destruct (N.leb_spec MAX_RETIRED_SECRETS (len (k_retired_secrets k))); [|done].
    destruct (k_state k); destruct Hs as (_ & H'); try (destruct H' as (H' & _); lia); destruct H'; congruence.
  - exists Preserve. done.
Qed.
Lemma overlap_window_Ok k at_ until : validate_overlap_window k at_ until = Ok tt <->
  (at_ < until)%Z /\ (until - at_ <= MAX_OVERLAP_SECONDS)%Z /\ lasts_until k until.
Proof.
  unfold validate_overlap_window, validate_overlap_order, overlap_span, validate_overlap_bound, validate_overlap_absolute, lasts_until.
  rewrite validated_Ok. destruct (Z.ltb_spec at_ until); [|split; [intros [[=] _]|lia]].
  rewrite result_bind_Ok. setoid_rewrite ok_or_Ok. split.
  - intros (_ & span & Hs & Hr). apply validated_Ok in Hr as [H1 H2]. unfold i64_checked_sub in Hs. destruct (_ && _) in Hs; [|done]. injection Hs as <-.
    destruct (Z.leb_spec (until - at_) MAX_OVERLAP_SECONDS); [|done]. split_and!; [done|done|].
    intros e He. rewrite He in H2. by destruct (Z.leb_spec until e).
  - intros (_ & H1 & H2). split; [done|]. exists (until - at_)%Z. split.
    + unfold i64_checked_sub, i64_min, i64_max, MAX_OVERLAP_SECONDS in *. rewrite (proj2 (andb_true_iff _ _)); [done|lia].
    + apply validated_Ok. rewrite (proj2 (Z.leb_le _ _)) by done. split; [done|]. destruct (k_expires_at k) as [e|]; [|done].
      rewrite (proj2 (Z.leb_le _ _)); [done|by apply H2].
Qed.
Lemma api_key_issue_iff r t : issue_api_key r = Ok t <->
  match w_expires_at (r_validity r) with
  | Some e => (0 < e - w_issued_at (r_validity r) <= MAX_API_KEY_LIFETIME_SECONDS)%Z
  | None => True
  end /\ t = mk_ApiKeyTransition (issued r) (event_from (issued r) (b_actor (r_binding r)) (w_issued_at (r_validity r)) EventIssued).
Proof.
  unfold issue_api_key, validate_validity_window. rewrite validated_Ok, mret_inj_iff. apply and_iff_compat_r.
  destruct (w_expires_at (r_validity r)) as [e|]; [|done]. rewrite validated_Ok, reject_if_Ok, Z.leb_gt.
  destruct (decide (w_issued_at (r_validity r) < e)%Z); [rewrite span_at_most by (done || lia)|]; lia.
Qed.

Section compared.
Context `{ConstantTimeEqLaw}.

Lemma acceptable_iff k d at_ : secret_is_acceptable k d at_ = true <-> d = k_current_secret k \/
  (k_previous_secret k = Some d /\ exists e, k_previous_secret_expires_at k = Some e /\ (at_ < e)%Z).
Proof.
  unfold secret_is_acceptable, previous_secret_match_choice, previous_secret_is_active. cbv zeta. rewrite orb_true_iff, !andb_true_iff, ct_eq_true.
  destruct (k_previous_secret k) as [p|]; cbn [is_some]; [rewrite ct_eq_true|];
    (destruct (k_previous_secret_expires_at k) as [e|]; cbn [is_some_and]; [rewrite Z.ltb_lt|]); naive_solver.
Qed.
Lemma verify_iff k p v : verify_api_key_presentation k p = Ok v <-> entitled k p /\
  v = mk_ApiKeyVerification (k_id k) (tenant_id (k_owner k)) (user_id (k_owner k)) (p_required_scope p).
Proof.
  unfold verify_api_key_presentation, validate_presentation_identity, validate_command_time, validate_presented_secret, validate_required_scope, entitled.
  rewrite !validated_Ok, key_owner_Ok, !keeps, usable_Ok, reject_if_Ok, Z.ltb_ge, not_expired_Ok, mret_inj_iff.
  assert ((if secret_is_acceptable k (p_secret_digest p) (p_presented_at p) then Ok tt else Err SecretMismatch : outcome unit) = Ok tt <->
    secret_is_acceptable k (p_secret_digest p) (p_presented_at p) = true) as -> by (by destruct secret_is_acceptable).
  assert ((if existsb (fun s => bool_decide (s = p_required_scope p)) (k_scopes k) then Ok tt else Err ScopeDenied : outcome unit) = Ok tt <->
    p_required_scope p ∈ k_scopes k) as ->.
  { rewrite list_elem_of_In. destruct (existsb _ _) eqn:He.
    - apply existsb_exists in He as (s & Hs & He%bool_decide_eq_true). subst s. done.
    - split; [done|]. intros Hin. assert (existsb (fun s => bool_decide (s = p_required_scope p)) (k_scopes k) = true) as Ht; [|congruence].
      apply existsb_exists. exists (p_required_scope p). split; [done|]. by apply bool_decide_eq_true. }
  rewrite acceptable_iff. naive_solver.
Qed.
Lemma new_secret_Ok k d : validate_new_secret k d = Ok tt <->
  d <> k_current_secret k /\ k_previous_secret k <> Some d /\ d ∉ k_retired_secrets k.
Proof.
  unfold validate_new_secret, previous_secret_match_choice, retired_secret_match_choice. cbv zeta.
  rewrite validated_Ok, !reject_if_Ok, orb_false_iff, foldl_or_false. rewrite <- (not_true_iff_false (ct_eq _ _)), ct_eq_true.
  setoid_rewrite <- not_true_iff_false. setoid_rewrite ct_eq_true.
  destruct (k_previous_secret k) as [p|]; [rewrite ct_eq_true|]; split; intros Hd; split_and!; try naive_solver.
Qed.
Lemma apply_rotation_Ok k a at_ r t : key_ok k -> apply_rotation k a at_ r = Ok t <->
  k_state k = Active /\ ro_owner r = k_owner k /\ ro_key_id r = k_id k /\ unexpired k at_ /\
  (at_ < ro_previous_secret_expires_at r)%Z /\ (ro_previous_secret_expires_at r - at_ <= MAX_OVERLAP_SECONDS)%Z /\
  lasts_until k (ro_previous_secret_expires_at r) /\
  ro_new_secret r <> k_current_secret k /\ ro_new_secret r ∉ k_retired_secrets k /\ len (k_retired_secrets k) < MAX_RETIRED_SECRETS /\
  let next := rotating_key k (k_version k + 1) at_ r in t = mk_ApiKeyTransition next (event_from next a at_ EventRotated).
Proof.
  intros Hk. unfold apply_rotation, validate_rotation_request, validate_rotation_key, validate_retired_capacity. rewrite small_version by done.
  rewrite !validated_Ok, key_owner_Ok, not_expired_Ok, overlap_window_Ok, new_secret_Ok, reject_if_Ok, N.leb_gt. cbn [mbind result_bind]. rewrite mret_inj_iff. cbv zeta.
  assert ((if bool_decide (k_id k = ro_key_id r) then Ok tt else Err KeyMismatch : outcome unit) = Ok tt <-> ro_key_id r = k_id k) as ->
    by (case_bool_decide; naive_solver).
  assert (validate_rotation_state k = Ok tt <-> k_state k = Active) as -> by (unfold validate_rotation_state; destruct (k_state k); naive_solver).
  split; [naive_solver|]. intros (H1 & H2). split_and!; try tauto. pose proof (ok_state _ Hk) as Hs. rewrite H1 in Hs. destruct Hs as (_ & -> & _). done.
Qed.
Lemma api_key_transition_iff k c t : key_ok k -> transition_api_key k c = Ok t <-> accepts k c t.
Proof.
  intros Hk. unfold transition_api_key, accepts, validate_expected_version, validate_command_time.
  rewrite !validated_Ok, !reject_if_Ok, negb_false_iff, N.eqb_eq, Z.ltb_ge. destruct (retire_run k Hk) as (how & Hr & He).
  destruct (action c) as [r| |o|o].
  - rewrite apply_rotation_Ok by done. naive_solver.
  - unfold apply_complete_rotation. rewrite Hr, small_version by done. cbn [mbind result_bind]. rewrite He, validated_Ok, keeps, result_bind_Ok.
    setoid_rewrite ok_or_Ok. setoid_rewrite validated_Ok. setoid_rewrite reject_if_Ok. setoid_rewrite Z.ltb_ge. setoid_rewrite mret_inj_iff. naive_solver.
  - unfold apply_revoke. rewrite Hr, small_version by done. cbn [mbind result_bind]. rewrite He, !validated_Ok, key_owner_Ok, usable_Ok, mret_inj_iff. naive_solver.
  - unfold apply_expire. rewrite Hr, small_version by done. cbn [mbind result_bind]. rewrite He, !validated_Ok, key_owner_Ok, usable_Ok, result_bind_Ok.
    setoid_rewrite ok_or_Ok. setoid_rewrite validated_Ok. setoid_rewrite reject_if_Ok. setoid_rewrite Z.ltb_ge. setoid_rewrite mret_inj_iff. naive_solver.
Qed.

Lemma issued_key_ok binding secret scopes validity request t :
  named (b_id binding) (b_owner binding) (b_prefix binding) -> request_new binding secret scopes validity = Ok request ->
  issue_api_key request = Ok t -> key_ok (key t).
Proof.
  intros Hn Hr Ht. unfold request_new in Hr. apply result_bind_Ok in Hr as (sc & Hsc & [= <-]). apply api_key_issue_iff in Ht as [Hw ->].
  constructor; cbn in *; try done.
  - by apply normalize_scopes_idempotent in Hsc.
  - by destruct (w_expires_at validity).
  - split; [constructor|apply not_elem_of_nil].
Qed.
Lemma ended_retired k st : k_retired_secrets (ended k st) = k_retired_secrets k ++ option_list (k_previous_secret k).
Proof. unfold ended, advance. cbn. destruct (k_previous_secret k); cbn; [done|by rewrite app_nil_r]. Qed.
Lemma ended_ok k st : key_ok k -> usable k -> (st = Active -> k_state k = Rotating) -> st <> Rotating ->
  (st = Expired -> is_Some (k_expires_at k)) -> key_ok (ended k st).
Proof.
  intros [H1 H2 H3 [H4 H4'] H5 H6] Hu Ha Hr He. cbv zeta in H6.
  assert (NoDup (k_retired_secrets (ended k st)) /\ k_current_secret k ∉ k_retired_secrets (ended k st) /\
    len (k_retired_secrets (ended k st)) <= MAX_RETIRED_SECRETS /\
    k_version k + 1 = match k_state k with Rotating => 1 + 2 * len (k_retired_secrets (ended k st)) | _ => 2 + 2 * len (k_retired_secrets (ended k st)) end /\
    (k_state k = Rotating -> 0 < len (k_retired_secrets (ended k st)))) as (G1 & G2 & G3 & G4 & G5).
  { rewrite ended_retired. unfold len in *. rewrite length_app. destruct Hu as [Hu|Hu]; rewrite Hu in *.
    - destruct H6 as (H6 & -> & _). cbn [option_list length]. cbn; rewrite app_nil_r, Nat.add_0_r, H6. split_and!; try done. lia.
    - destruct H6 as (H6 & H7 & p & st' & e & -> & _ & _ & Hne & Hni & _). cbn [option_list length]. rewrite H6. split_and!; cbn; try lia.
      + apply NoDup_app. split; [done|]. split; [|apply NoDup_singleton]. intros d Hd ->%list_elem_of_singleton. done.
      + rewrite not_elem_of_app. split; [done|]. intros Hd%list_elem_of_singleton. congruence. }
  constructor; cbn; try done.
  - destruct (k_expires_at k); [done|]. intros ->. destruct (He eq_refl). done.
  - destruct st; [rewrite Ha in G4 by done; by split|done|..]; (split; [|done]); destruct Hu as [Hu|Hu]; rewrite Hu in G4, G5; [by left|right|by left|right]; (split; [by apply G5|done]).
Qed.
Lemma rotating_ok k a at_ r t : key_ok k -> (k_issued_at k <= at_)%Z -> apply_rotation k a at_ r = Ok t -> key_ok (key t).
Proof.
  intros Hk Hat Ht. apply apply_rotation_Ok in Ht as (Hs & _ & _ & H1 & H2 & H3 & H4 & H5 & H6 & H7 & Ht); [|done]. cbv zeta in Ht. subst t.
  destruct Hk as [G1 G2 G3 [G4 G5] G6 G7]. rewrite Hs in *. cbv zeta in G7. destruct G7 as (G7 & _).
  constructor; cbn; try done.
  - destruct (k_expires_at k); done.
  - split_and!; [lia|done|]. exists (k_current_secret k), at_, (ro_previous_secret_expires_at r). cbn. split_and!; try done; lia.
Qed.
Lemma accepts_key_ok k c t : key_ok k -> transition_api_key k c = Ok t -> key_ok (key t).
Proof.
  intros Hk Ht. pose proof Ht as Hr. apply api_key_transition_iff in Ht as (_ & Hat & Ht); [|done]. unfold transition_api_key in Hr.
  rewrite !validated_Ok in Hr. destruct Hr as (_ & _ & Hr). destruct (action c) as [r| |o|o].
  - by apply rotating_ok in Hr.
  - destruct Ht as (Hs & _ & ->). by apply ended_ok; [| right|..].
  - destruct Ht as (_ & Hu & ->). by apply ended_ok.
  - destruct Ht as (_ & Hu & (e & He & _) & ->). by apply ended_ok.
Qed.
Lemma steps_key_ok k k' : rtc key_step k k' -> key_ok k -> key_ok k'.
Proof. induction 1 as [|k1 k2 k3 [c t Ht] _ IH]; [done|]. intros Hk. apply IH. by apply (accepts_key_ok k1 c). Qed.
Lemma reachable_key_ok k : reachable k -> key_ok k.
Proof. intros (b & s & sc & v & r & t & H1 & H2 & H3 & H4). apply (steps_key_ok _ _ H4). by apply (issued_key_ok b s sc v r). Qed.

Lemma reachable_step k c t : reachable k -> transition_api_key k c = Ok t -> reachable (key t).
Proof.
  intros (b & s & sc & v & r & t0 & H1 & H2 & H3 & H4) Ht. exists b, s, sc, v, r, t0. split_and!; try done.
  eapply rtc_r; [exact H4|]. by apply key_command with c.
Qed.

(** *** A history for every key *)

Section history.
Context (k : ApiKey) (Hk : key_ok k).

Lemma base_window : match k_expires_at k with Some e => (0 < e - k_issued_at k <= MAX_API_KEY_LIFETIME_SECONDS)%Z | None => True end.
Proof. pose proof (ok_validity _ Hk). by destruct (k_expires_at k). Qed.
Lemma earlier_ok rs d : NoDup rs -> d ∉ rs -> len rs <= MAX_RETIRED_SECRETS -> key_ok (earlier k rs d).
Proof.
  intros H1 H2 H3. destruct Hk as [G1 G2 G3 G4 G5 G6]. constructor; cbn; try done. by destruct (k_expires_at k).
Qed.
(** Replacing the secret of an earlier point. *)
Lemma earlier_rotates rs d new at_ until : reachable (earlier k rs d) -> new <> d -> new ∉ rs -> len rs < MAX_RETIRED_SECRETS ->
  (k_issued_at k <= at_)%Z -> unexpired k at_ -> (at_ < until)%Z -> (until - at_ <= MAX_OVERLAP_SECONDS)%Z -> lasts_until k until ->
  reachable (rotating_key (earlier k rs d) (2 + 2 * len rs) at_ (replacing k new until)).
Proof.
  intros Hr H1 H2 H3 H4 H5 H6 H7 H8. pose proof (reachable_key_ok _ Hr) as Hok.
  refine (reachable_step _ (mk_ApiKeyCommand (1 + 2 * len rs) (MkId "") at_ (Rotate (replacing k new until))) (mk_ApiKeyTransition _ _) Hr _).
  apply api_key_transition_iff; [done|]. unfold accepts. cbn [expected_version occurred_at action actor]. split_and!; try done.
  cbv zeta. assert (2 + 2 * len rs = k_version (earlier k rs d) + 1) as -> by (cbn [k_version earlier]; lia). done.
Qed.
Lemma earlier_reachable rs d : NoDup rs -> d ∉ rs -> len rs <= MAX_RETIRED_SECRETS -> reachable (earlier k rs d).
Proof.
  revert d. induction rs as [|p rs IH] using rev_ind; intros d Hnd Hd Hl.
  - pose proof base_window as Hw. destruct Hk as [G1 G2 G3 G4 G5 G6].
    eexists (mk_ApiKeyIssueBinding (k_id k) (k_owner k) (MkId "") (k_prefix k)), d, (k_scopes k), (mk_ApiKeyValidityWindow (k_issued_at k) (k_expires_at k)), _, _.
    split_and!; [exact G1|unfold request_new; rewrite G2; reflexivity|apply api_key_issue_iff; split; [exact Hw|reflexivity]|apply rtc_refl].
  - apply NoDup_app in Hnd as (Hnd & Hp & _). rewrite not_elem_of_app, list_elem_of_singleton in Hd. destruct Hd as [Hd Hdp].
    unfold len in Hl. rewrite length_app in Hl. cbn in Hl.
    assert (len rs < MAX_RETIRED_SECRETS) as Hlr by (unfold len, MAX_RETIRED_SECRETS in *; lia).
    assert (p ∉ rs) as Hpr by (intros Hin; apply Hp in Hin; by apply Hin; left).
    pose proof (IH p Hnd Hpr ltac:(lia)) as Hr. pose proof base_window as Hw.
    pose proof (earlier_rotates rs p d (k_issued_at k) (k_issued_at k + 1)%Z Hr Hdp Hd Hlr ltac:(lia)) as Hrot.
    assert (reachable (rotating_key (earlier k rs p) (2 + 2 * len rs) (k_issued_at k) (replacing k d (k_issued_at k + 1)%Z))) as Hrr.
    { apply Hrot; unfold unexpired, lasts_until, MAX_OVERLAP_SECONDS; try lia; intros e He; rewrite He in Hw; lia. }
    pose proof (reachable_key_ok _ Hrr) as Hok.
    assert (earlier k (rs ++ [p]) d = ended (rotating_key (earlier k rs p) (2 + 2 * len rs) (k_issued_at k) (replacing k d (k_issued_at k + 1)%Z)) Active) as ->.
    { unfold ended, rotating_key, advance, earlier. cbn -[N.mul N.add len]. f_equal. unfold len. rewrite length_app. cbn [length]. lia. }
    refine (reachable_step _ (mk_ApiKeyCommand (2 + 2 * len rs) (MkId "") (k_issued_at k + 1)%Z CompleteRotation) (mk_ApiKeyTransition _ _) Hrr _).
    apply api_key_transition_iff; [done|]. unfold accepts. split_and!; try done; [cbn; lia|]. cbn [action]. split_and!; try done.
    exists (k_issued_at k + 1)%Z. split; [done|cbn; lia].
Qed.
End history.

Lemma rotating_history k : key_ok k -> k_state k = Rotating -> reachable k.
Proof.
  intros Hk Hs. pose proof Hk as [_ _ _ [G4 G5] _ G7]. rewrite Hs in G7. cbv zeta in G7.
  destruct G7 as (Hv & Hr & p & st & e & H1 & H2 & H3 & H4 & H5 & H6 & H7 & H8 & H9).
  assert (k = rotating_key (earlier k (k_retired_secrets k) p) (2 + 2 * len (k_retired_secrets k)) st (replacing k (k_current_secret k) e)) as ->.
  { unfold rotating_key, advance, earlier. cbn -[N.mul N.add len]. rewrite <- Hv, <- H1, <- H2, <- H3, <- Hs. by destruct k. }
  apply earlier_rotates; try done; try lia; try (intros He; congruence). apply earlier_reachable; try done. lia.
Qed.
(** A terminal key comes from a usable one of the same retired secrets, or of all but the last. *)
Lemma terminal_history k k0 : key_ok k -> reachable k0 -> usable k0 -> k = ended k0 (k_state k) ->
  (k_state k = Revoked \/ k_state k = Expired) -> reachable k.
Proof.
  intros Hk Hr Hu He Hs. pose proof (reachable_key_ok _ Hr) as Hok. pose proof (ok_validity _ Hk) as Hw.
  assert (k_issued_at k = k_issued_at k0 /\ k_expires_at k = k_expires_at k0) as [Hi Hx] by (by rewrite He). destruct Hs as [Hs|Hs]; rewrite Hs in *.
  - rewrite He. refine (reachable_step k0 (mk_ApiKeyCommand (k_version k0) (MkId "") (k_issued_at k0) (Revoke (k_owner k0))) (mk_ApiKeyTransition _ _) Hr _).
    apply api_key_transition_iff; [done|]. by split_and!.
  - destruct (k_expires_at k) as [e|] eqn:Hke; [|done]. rewrite He.
    refine (reachable_step k0 (mk_ApiKeyCommand (k_version k0) (MkId "") e (Expire (k_owner k0))) (mk_ApiKeyTransition _ _) Hr _).
    apply api_key_transition_iff; [done|]. unfold accepts. cbn [expected_version occurred_at action]. split_and!; try done; [rewrite <- Hi; lia|]. exists e. split; [done|]. lia.
Qed.
Lemma terminal_source k : key_ok k -> no_overlap k ->
  (let r := len (k_retired_secrets k) in k_version k = 2 + 2 * r \/ (0 < r /\ k_version k = 1 + 2 * r)) ->
  exists k0, reachable k0 /\ usable k0 /\ k = ended k0 (k_state k).
Proof.
  intros Hk (H1 & H2 & H3) Hv. pose proof Hk as [_ _ _ [G4 G5] G6 _]. cbv zeta in Hv. destruct Hv as [Hv|[Hpos Hv]].
  - exists (earlier k (k_retired_secrets k) (k_current_secret k)). split; [by apply earlier_reachable|]. split; [by left|].
    unfold ended, advance, earlier. cbn -[N.mul N.add len]. replace (1 + 2 * len (k_retired_secrets k) + 1) with (k_version k) by lia.
    destruct k. cbn in *. by subst.
  - destruct (k_retired_secrets k) as [|p rs _] eqn:Hrs using rev_ind; [by unfold len in Hpos|].
    apply NoDup_app in G4 as (Hnd & Hp & _). rewrite not_elem_of_app in G5. destruct G5 as [Hd Hdp].
    unfold len in Hv, G6. rewrite length_app in Hv, G6. cbn in Hv, G6. pose proof (base_window k Hk) as Hw.
    assert (p ∉ rs) as Hpr by (intros Hin; apply Hp in Hin; by apply Hin; left).
    assert (k_current_secret k <> p) as Hne by (intros Heq; apply Hdp; rewrite Heq; by left).
    exists (rotating_key (earlier k rs p) (2 + 2 * len rs) (k_issued_at k) (replacing k (k_current_secret k) (k_issued_at k + 1)%Z)). split; [|split; [by right|]].
    + apply earlier_rotates; unfold unexpired, lasts_until, MAX_OVERLAP_SECONDS; try done; try (unfold len; lia); try (intros e He; rewrite He in Hw; lia).
      apply earlier_reachable; try done. unfold len. lia.
    + unfold ended, rotating_key, advance, earlier. cbn -[N.mul N.add len]. replace (2 + 2 * len rs + 1) with (k_version k) by (unfold len; lia).
      rewrite <- Hrs. destruct k. cbn in *. by subst.
Qed.
Lemma key_ok_reachable k : key_ok k -> reachable k.
Proof.
  intros Hk. pose proof Hk as [G1 G2 G3 [G4 G5] G6 G7]. cbv zeta in G7. destruct (k_state k) eqn:Hs.
  - destruct G7 as (Hv & H1 & H2 & H3). assert (k = earlier k (k_retired_secrets k) (k_current_secret k)) as ->; [|by apply earlier_reachable].
    unfold earlier. rewrite <- Hv. destruct k. cbn in *. by subst.
  - by apply rotating_history.
  - destruct G7 as (Hv & Hn). assert (exists k0, reachable k0 /\ usable k0 /\ k = ended k0 (k_state k)) as (k0 & ? & ? & ?);
      [by apply terminal_source|by apply (terminal_history k k0); [..|left]].
  - destruct G7 as (Hv & Hn). assert (exists k0, reachable k0 /\ usable k0 /\ k = ended k0 (k_state k)) as (k0 & ? & ? & ?);
      [by apply terminal_source|by apply (terminal_history k k0); [..|right]].
Qed.

(** The secrets a key has put out of use. *)
Lemma accepts_retires k c t : key_ok k -> transition_api_key k c = Ok t -> k_retired_secrets k ⊆ k_retired_secrets (key t).
Proof.
  intros Hk (_ & _ & Ht)%api_key_transition_iff; [|done]. destruct (action c) as [r| |o|o].
  - destruct Ht as (_ & _ & _ & _ & _ & _ & _ & _ & _ & _ & Ht). cbv zeta in Ht. by subst t.
  - destruct Ht as (_ & _ & ->). cbn [key ending]. rewrite ended_retired. set_solver.
  - destruct Ht as (_ & _ & ->). cbn [key ending]. rewrite ended_retired. set_solver.
  - destruct Ht as (_ & _ & _ & ->). cbn [key ending]. rewrite ended_retired. set_solver.
Qed.
Lemma steps_retire k k' : rtc key_step k k' -> key_ok k -> k_retired_secrets k ⊆ k_retired_secrets k'.
Proof.
  induction 1 as [|k1 k2 k3 [c t Ht] _ IH]; [done|]. intros Hk. transitivity (k_retired_secrets (key t)); [by apply (accepts_retires k1 c)|].
  apply IH. by apply (accepts_key_ok k1 c).
Qed.

(** ** Properties *)

(** What can be persisted is exactly what can happen.  A key is read back from its
    own snapshot just when an issuance and accepted commands produce it, and whatever else is
    read back is such a key, with its scopes brought into order. *)
Theorem api_key_snapshot_exact k :
  (from_snapshot (snapshot_state k) = Ok k <-> reachable k) /\ (forall s, from_snapshot s = Ok k -> reachable k).
Proof.
  rewrite key_ok_snapshot. split; [split; [apply key_ok_reachable|apply reachable_key_ok]|].
  intros s Hs%from_snapshot_key_ok. by apply key_ok_reachable.
Qed.

(** A presentation is verified exactly when it names the key, its owner and its
    prefix, the key is usable and the instant within its validity, it has the required scope,
    and the secret is the current one, or the one being replaced until its overlap ends; the
    verification answers for that key, owner and scope. *)
Theorem api_key_verification_exact k p v : verify_api_key_presentation k p = Ok v <-> entitled k p /\
  v = mk_ApiKeyVerification (k_id k) (tenant_id (k_owner k)) (user_id (k_owner k)) (p_required_scope p).
Proof. apply verify_iff. Qed.

(** C22: a secret that was retired never works again.  Whatever commands follow, no
    presentation of it is verified and no rotation brings it back, at any instant; and a key
    that was revoked or has expired verifies nothing and accepts nothing. *)
Theorem retired_secret_stays_retired k k' d (Hk : reachable k) (Hd : d ∈ k_retired_secrets k) (Hs : rtc key_step k k') :
  (forall p, p_secret_digest p = d -> is_ok (verify_api_key_presentation k' p) = false) /\
  (forall c r, action c = Rotate r -> ro_new_secret r = d -> is_ok (transition_api_key k' c) = false) /\
  (k_state k' = Revoked \/ k_state k' = Expired ->
    (forall p, is_ok (verify_api_key_presentation k' p) = false) /\ (forall c, is_ok (transition_api_key k' c) = false)).
Proof.
  apply reachable_key_ok in Hk. pose proof (steps_key_ok _ _ Hs Hk) as Hk'. pose proof (steps_retire _ _ Hs Hk d Hd) as Hd'.
  pose proof (ok_retired _ Hk') as [_ Hc]. pose proof (ok_state _ Hk') as Hst. cbv zeta in Hst. split_and!.
  - intros p Hp. destruct (verify_api_key_presentation k' p) as [v|] eqn:Hv; [|done]. apply verify_iff in Hv as [(_ & _ & _ & _ & _ & _ & _ & He) _].
    exfalso. destruct He as [He|[He _]]; [congruence|]. destruct (k_state k'); destruct Hst as (_ & Hst); try (destruct Hst; congruence).
    destruct Hst as (_ & q & st & e & Hq & _ & _ & _ & Hn & _). congruence.
  - intros c r Ha Hr. destruct (transition_api_key k' c) as [t|] eqn:Ht; [|done]. apply api_key_transition_iff in Ht as (_ & _ & Ht); [|done].
    rewrite Ha in Ht. destruct Ht as (_ & _ & _ & _ & _ & _ & _ & _ & Hn & _). congruence.
  - intros Ht. split.
    + intros p. destruct (verify_api_key_presentation k' p) as [v|] eqn:Hv; [|done]. apply verify_iff in Hv as [(_ & _ & _ & [Hu|Hu] & _) _]; destruct Ht; congruence.
    + intros c. destruct (transition_api_key k' c) as [t|] eqn:Hc'; [|done]. apply api_key_transition_iff in Hc' as (_ & _ & Hc'); [|done].
      unfold usable in Hc'. destruct (action c); destruct Ht as [Ht|Ht]; rewrite Ht in Hc'; naive_solver.
Qed.
End compared.

(** *** A witness, with a concrete comparison *)

#[local] Instance sample_comparison : ConstantTimeEq := constant_time_digest_eq.
#[local] Instance sample_comparison_law : ConstantTimeEqLaw := constant_time_digest_eq_law.

Lemma sample_key_read : from_snapshot (snapshot_state sample_key) = Ok sample_key.
Proof. vm_compute. reflexivity. Defined.
Lemma sample_key_reachable : reachable sample_key.
Proof. apply key_ok_reachable, key_ok_snapshot, sample_key_read. Defined.
Lemma api_key_snapshot_exact_witness : reachable sample_key.
Proof. exact (proj1 (proj1 (api_key_snapshot_exact sample_key)) sample_key_read). Defined.
Lemma api_key_verification_exact_witness : entitled sample_key (sample_presentation Byte.x01 15).
Proof.
  refine (proj1 (proj1 (api_key_verification_exact sample_key (sample_presentation Byte.x01 15)
    (mk_ApiKeyVerification (MkId "key") (MkId "t") (MkId "u") (mk_ApiKeyScope "chat"))) _)). vm_compute. reflexivity.
Defined.
Lemma retired_secret_stays_retired_witness :
  is_ok (verify_api_key_presentation sample_key (sample_presentation Byte.x01 15)) = true /\
  is_ok (verify_api_key_presentation sample_key (sample_presentation Byte.x01 20)) = false /\
  is_ok (verify_api_key_presentation sample_key (sample_presentation Byte.x00 15)) = false.
Proof.
  split; [vm_compute; reflexivity|]. split; [vm_compute; reflexivity|].
  assert (sample_digest Byte.x00 ∈ k_retired_secrets sample_key) as Hd by left.
  exact (proj1 (retired_secret_stays_retired sample_key sample_key _ sample_key_reachable Hd (rtc_refl _ _)) (sample_presentation Byte.x00 15) eq_refl).
Defined.
