(* ===== verification/Encoding.v ===== *)
(** * Bytes of integers, strings and fields

    The standard library's big-endian bytes of the 64-bit integers, the bytes of a string, and
    the length-prefixed fields that [ariadnion-principal-binding] hashes
    ([append_field] and [append_digest_field]), with the lemmas that tell when two encodings
    are equal. *)

From Stdlib Require Strings.Byte.
From S2P Require Import Prelude CoreTypes Identity.
#[local] Open Scope N_scope.

(** [n as u8] of a number below 256. *)
Definition byte_of (n : N) : Byte.byte := default Byte.x00 (Byte.of_N (n mod 256)).
(** [u64::to_be_bytes] is [to_be_bytes 8]. *)
Fixpoint to_be_bytes (width : nat) (n : N) : list Byte.byte :=
  match width with
  | O => []
  | S w => to_be_bytes w (n / 256) ++ [byte_of n]
  end.
Definition u64_to_be_bytes (n : N) : list Byte.byte := to_be_bytes 8 n.
(** [i64::to_be_bytes]: the bytes of the two's complement. *)
Definition i64_to_be_bytes (z : Z) : list Byte.byte := to_be_bytes 8 (Z.to_N (z mod 2 ^ 64)).
(** [str::as_bytes]. *)
Definition as_bytes (s : string) : list Byte.byte := Stdlib.Strings.String.list_byte_of_string s.

(** [append_field(&mut digest, value)] on the bytes hashed so far. *)
Definition append_field (hashed value : list Byte.byte) : list Byte.byte := hashed ++ u64_to_be_bytes (len value) ++ value.
Definition append_fields (fields : list (list Byte.byte)) : list Byte.byte := foldl append_field [] fields.

(** ** Lemmas *)

Lemma to_N_byte_of n : Byte.to_N (byte_of n) = n mod 256.
Proof.
  unfold byte_of. destruct (Byte.of_N (n mod 256)) as [b|] eqn:Hb; cbn.
  - by apply Byte.to_of_N.
  - apply Byte.of_N_None_iff in Hb. pose proof (N.mod_lt n 256). lia.
Qed.
Lemma byte_of_inj n m : byte_of n = byte_of m -> n mod 256 = m mod 256.
Proof. intros H. by rewrite <- (to_N_byte_of n), H, to_N_byte_of. Qed.
Lemma length_to_be_bytes w n : length (to_be_bytes w n) = w.
Proof. revert n. induction w as [|w IH]; intros n; cbn; [done|]. rewrite length_app, IH. cbn. lia. Qed.
Lemma to_be_bytes_inj w n m : n < 256 ^ N.of_nat w -> m < 256 ^ N.of_nat w -> to_be_bytes w n = to_be_bytes w m -> n = m.
Proof.
  revert n m. induction w as [|w IH]; intros n m Hn Hm; cbn -[N.div N.pow].
  - cbn in Hn, Hm. lia.
  - intros [H1 [= H2]]%app_inj_2; [|done]. apply byte_of_inj in H2. rewrite Nat2N.inj_succ, N.pow_succ_r' in Hn, Hm.
    assert (n / 256 = m / 256) as H3 by (apply IH; [apply N.div_lt_upper_bound; lia|apply N.div_lt_upper_bound; lia|done]).
    rewrite (N.div_mod n 256), (N.div_mod m 256) by lia. by rewrite H2, H3.
Qed.
Lemma length_u64 n : length (u64_to_be_bytes n) = 8%nat.
Proof. apply length_to_be_bytes. Qed.
Lemma length_i64 z : length (i64_to_be_bytes z) = 8%nat.
Proof. apply length_to_be_bytes. Qed.
Lemma u64_to_be_bytes_inj n m : n <= u64_max -> m <= u64_max -> u64_to_be_bytes n = u64_to_be_bytes m -> n = m.
Proof. unfold u64_max. intros Hn Hm. apply (to_be_bytes_inj 8); change (256 ^ N.of_nat 8) with 18446744073709551616; lia. Qed.
Lemma i64_to_be_bytes_inj x y : (i64_min <= x <= i64_max)%Z -> (i64_min <= y <= i64_max)%Z -> i64_to_be_bytes x = i64_to_be_bytes y -> x = y.
Proof.
  unfold i64_min, i64_max, i64_to_be_bytes. change (2 ^ 64)%Z with 18446744073709551616%Z. intros Hx Hy H.
  pose proof (Z.mod_pos_bound x 18446744073709551616 ltac:(lia)). pose proof (Z.mod_pos_bound y 18446744073709551616 ltac:(lia)).
  apply to_be_bytes_inj in H; [|change (256 ^ N.of_nat 8) with 18446744073709551616; lia|change (256 ^ N.of_nat 8) with 18446744073709551616; lia].
  assert (x mod 18446744073709551616 = y mod 18446744073709551616)%Z as Hm by lia.
  pose proof (Z.div_mod x 18446744073709551616 ltac:(lia)). pose proof (Z.div_mod y 18446744073709551616 ltac:(lia)). lia.
Qed.
Lemma as_bytes_inj s t : as_bytes s = as_bytes t -> s = t.
Proof.
  intros H. rewrite <- (Stdlib.Strings.String.string_of_list_byte_of_string s), <- (Stdlib.Strings.String.string_of_list_byte_of_string t).
  unfold as_bytes in H. by rewrite H.
Qed.

Lemma append_fields_from hashed fields :
  foldl append_field hashed fields = hashed ++ foldr (fun value rest => u64_to_be_bytes (len value) ++ value ++ rest) [] fields.
Proof.
  revert hashed. induction fields as [|v fields IH]; intros hashed; cbn; [by rewrite app_nil_r|]. rewrite IH. unfold append_field. by rewrite <- !app_assoc.
Qed.
(** Fields of the same number are told apart by their encoding. *)
Lemma append_fields_inj fields fields' : length fields = length fields' ->
  Forall (fun v => len v <= u64_max) fields -> Forall (fun v => len v <= u64_max) fields' ->
  append_fields fields = append_fields fields' -> fields = fields'.
Proof.
  unfold append_fields. rewrite !append_fields_from. cbn [app]. revert fields'.
  induction fields as [|v fields IH]; intros [|v' fields'] Hl; try done. injection Hl as Hl. rewrite !Forall_cons. intros [Hv Hf] [Hv' Hf']. cbn [foldr]. intros He.
  apply app_inj_1 in He as [H1 H2]; [|by rewrite !length_u64]. apply u64_to_be_bytes_inj in H1; [|done|done].
  apply app_inj_1 in H2 as [-> H2]; [|unfold len in H1; lia]. f_equal. by apply IH.
Qed.
