(* ===== verification/PrincipalBinding.v ===== *)
(** * Principal bindings

    Models [crates/optional/ariadnion-principal-binding/src]: [error.rs], [ids.rs], [model.rs]
    and [transition.rs]: the binding of a principal to a user and a membership, its commitment
    to the subject, its provision, revocation and erasure with their events, and the
    reconstruction of bindings and events from what is persisted. *)

From S2P Require Import Prelude CoreTypes Identity Encoding.
From S2P Require UserDomain Organization.
#[local] Open Scope N_scope.

(** ** Errors and versions ([error.rs], [ids.rs]) *)

Inductive PrincipalBindingErrorCode :=
| InvalidArgument | TenantMismatch | PrincipalMismatch | CommitmentMismatch | InvalidSnapshot | VersionConflict | VersionExhausted
| InvalidTransition | TimestampRegression | InvalidEvent.
Definition ERROR_CODES : list string := [
  "PRINCIPAL_BINDING_INVALID_ARGUMENT"; "PRINCIPAL_BINDING_TENANT_MISMATCH"; "PRINCIPAL_BINDING_PRINCIPAL_MISMATCH";
  "PRINCIPAL_BINDING_COMMITMENT_MISMATCH"; "PRINCIPAL_BINDING_INVALID_SNAPSHOT"; "PRINCIPAL_BINDING_VERSION_CONFLICT";
  "PRINCIPAL_BINDING_VERSION_EXHAUSTED"; "PRINCIPAL_BINDING_INVALID_TRANSITION"; "PRINCIPAL_BINDING_TIMESTAMP_REGRESSION";
  "PRINCIPAL_BINDING_INVALID_EVENT" ].
Definition error_index (code : PrincipalBindingErrorCode) : nat :=
  match code with
  | InvalidArgument => 0 | TenantMismatch => 1 | PrincipalMismatch => 2 | CommitmentMismatch => 3 | InvalidSnapshot => 4
  | VersionConflict => 5 | VersionExhausted => 6 | InvalidTransition => 7 | TimestampRegression => 8 | InvalidEvent => 9
  end.
(** Indexing out of range would panic, hence the option. *)
Definition as_str (code : PrincipalBindingErrorCode) : option string := ERROR_CODES !! error_index code.
Notation outcome := (result PrincipalBindingErrorCode).

(** [PrincipalBindingVersion]: a non-zero 64-bit integer. *)
Definition version_initial : N := 1.
Definition version_new (value : N) : outcome N := if value =? 0 then Err InvalidArgument else Ok value.
Definition version_next (v : N) : outcome N := ok_or (checked_add u64_max v 1) VersionExhausted.

(** ** The aggregate ([model.rs]) *)

Notation RequestId := (Id RequestKind).
Notation UserId := UserDomain.UserId.
Notation UtcTimestamp := UserDomain.UtcTimestamp.
Notation OrganizationId := Organization.OrganizationId.
Notation MembershipId := Organization.MembershipId.

Definition SUBJECT_COMMITMENT_DOMAIN : list Byte.byte := as_bytes "ariadnion.principal-binding.subject.v1".
Record PrincipalBindingIdentity := mk_PrincipalBindingIdentity {
  i_principal : PrincipalContext; i_user_id : UserId; i_organization_id : OrganizationId; i_membership_id : MembershipId;
}.
Definition validate_principal_boundary (tenant_id : TenantId) (pid : PrincipalId) (principal : PrincipalContext) : outcome unit :=
  reject_if (bool_decide (principal_tenant_id principal <> tenant_id)) TenantMismatch ;;
  reject_if (bool_decide (principal_id principal <> pid)) PrincipalMismatch.
Definition identity_new (tenant_id : TenantId) (pid : PrincipalId) (principal : PrincipalContext) (user_id : UserId)
    (organization_id : OrganizationId) (membership_id : MembershipId) : outcome PrincipalBindingIdentity :=
  validate_principal_boundary tenant_id pid principal ;;
  mret (mk_PrincipalBindingIdentity principal user_id organization_id membership_id).
Definition validate_key (i : PrincipalBindingIdentity) (tenant_id : TenantId) (pid : PrincipalId) : outcome unit :=
  validate_principal_boundary tenant_id pid (i_principal i).

Definition SubjectCommitment := digest.
(** What the commitment hashes. *)
Definition commitment_fields (i : PrincipalBindingIdentity) : list (list Byte.byte) := [
  SUBJECT_COMMITMENT_DOMAIN; as_bytes (id_str (principal_tenant_id (i_principal i))); as_bytes (id_str (principal_id (i_principal i)));
  as_bytes (id_str (i_user_id i)); as_bytes (id_str (i_organization_id i)); as_bytes (id_str (i_membership_id i)) ].
Definition derive `{Sha256} (i : PrincipalBindingIdentity) : SubjectCommitment := sha256 (append_fields (commitment_fields i)).

Inductive PrincipalBindingState := Active | Revoked | Erased.
#[export] Instance PrincipalBindingState_eq_dec : EqDecision PrincipalBindingState.
Proof. solve_decision. Defined.
Record PrincipalBindingSnapshotData := mk_PrincipalBindingSnapshotData {
  d_tenant_id : TenantId; d_principal_id : PrincipalId; d_subject_commitment : SubjectCommitment; d_version : N;
  d_state : PrincipalBindingState; d_identity : option PrincipalBindingIdentity; d_provisioned_at : UtcTimestamp;
  d_revoked_at : option UtcTimestamp; d_erased_at : option UtcTimestamp;
}.
Record PrincipalBinding := mk_PrincipalBinding {
  p_tenant_id : TenantId; p_principal_id : PrincipalId; p_subject_commitment : SubjectCommitment; p_version : N;
  p_state : PrincipalBindingState; p_identity : option PrincipalBindingIdentity; p_provisioned_at : UtcTimestamp;
  p_revoked_at : option UtcTimestamp; p_erased_at : option UtcTimestamp;
}.
Definition from_validated_parts (d : PrincipalBindingSnapshotData) : PrincipalBinding :=
  mk_PrincipalBinding (d_tenant_id d) (d_principal_id d) (d_subject_commitment d) (d_version d) (d_state d) (d_identity d)
    (d_provisioned_at d) (d_revoked_at d) (d_erased_at d).
Definition snapshot (b : PrincipalBinding) : PrincipalBindingSnapshotData :=
  mk_PrincipalBindingSnapshotData (p_tenant_id b) (p_principal_id b) (p_subject_commitment b) (p_version b) (p_state b) (p_identity b)
    (p_provisioned_at b) (p_revoked_at b) (p_erased_at b).

Definition active_shape (d : PrincipalBindingSnapshotData) : bool :=
  (d_version d =? version_initial) && bool_decide (is_Some (d_identity d)) && bool_decide (d_revoked_at d = None) && bool_decide (d_erased_at d = None).
Definition revoked_shape (d : PrincipalBindingSnapshotData) : bool :=
  (d_version d =? 2) && bool_decide (is_Some (d_identity d)) && bool_decide (is_Some (d_revoked_at d)) && bool_decide (d_erased_at d = None).
Definition erased_shape (d : PrincipalBindingSnapshotData) : bool :=
  (d_version d =? 3) && negb (bool_decide (is_Some (d_identity d))) && bool_decide (is_Some (d_revoked_at d)) && bool_decide (is_Some (d_erased_at d)).
Definition validate_state_shape (d : PrincipalBindingSnapshotData) : outcome unit :=
  let valid := match d_state d with Active => active_shape d | Revoked => revoked_shape d | Erased => erased_shape d end in
  reject_if (negb valid) InvalidSnapshot.
Definition validate_snapshot_times (d : PrincipalBindingSnapshotData) : outcome unit :=
  reject_if (is_some_and (fun value => (value <? d_provisioned_at d)%Z) (d_revoked_at d)) TimestampRegression ;;
  reject_if (is_some_and (fun value => is_none_or (fun revoked_at => (value <? revoked_at)%Z) (d_revoked_at d)) (d_erased_at d)) TimestampRegression.
Definition validate_commitment `{Sha256} (i : PrincipalBindingIdentity) (commitment : SubjectCommitment) : outcome unit :=
  reject_if (bool_decide (derive i <> commitment)) CommitmentMismatch.
Definition validate_snapshot `{Sha256} (d : PrincipalBindingSnapshotData) : outcome unit :=
  validate_state_shape d ;;
  validate_snapshot_times d ;;
  match d_identity d with
  | Some i => validate_key i (d_tenant_id d) (d_principal_id d) ;; validate_commitment i (d_subject_commitment d)
  | None => Ok tt
  end.
Definition rehydrate `{Sha256} (d : PrincipalBindingSnapshotData) : outcome PrincipalBinding :=
  validate_snapshot d ;;
  mret (mk_PrincipalBinding (d_tenant_id d) (d_principal_id d) (d_subject_commitment d) (d_version d) (d_state d) (d_identity d)
    (d_provisioned_at d) (d_revoked_at d) (d_erased_at d)).

Inductive PrincipalBindingEventKind := EventProvisioned | EventRevoked | EventErased.
Record PrincipalBindingEventData := mk_PrincipalBindingEventData {
  ed_tenant_id : TenantId; ed_principal_id : PrincipalId; ed_version : N; ed_kind : PrincipalBindingEventKind;
  ed_occurred_at : UtcTimestamp; ed_actor : PrincipalId; ed_request_id : RequestId; ed_subject_commitment : SubjectCommitment;
}.
Record PrincipalBindingEvent := mk_PrincipalBindingEvent {
  e_tenant_id : TenantId; e_principal_id : PrincipalId; e_version : N; e_kind : PrincipalBindingEventKind;
  e_occurred_at : UtcTimestamp; e_actor : PrincipalId; e_request_id : RequestId; e_subject_commitment : SubjectCommitment;
}.
Definition validate_event_version (kind : PrincipalBindingEventKind) (version : N) : outcome unit :=
  let expected := match kind with EventProvisioned => 1 | EventRevoked => 2 | EventErased => 3 end in
  reject_if (negb (version =? expected)) InvalidEvent.
Definition event_rehydrate (d : PrincipalBindingEventData) : outcome PrincipalBindingEvent :=
  validate_event_version (ed_kind d) (ed_version d) ;;
  mret (mk_PrincipalBindingEvent (ed_tenant_id d) (ed_principal_id d) (ed_version d) (ed_kind d) (ed_occurred_at d) (ed_actor d)
    (ed_request_id d) (ed_subject_commitment d)).
Record PrincipalBindingTransition := mk_PrincipalBindingTransition {
  previous_version : option N; previous_snapshot : option PrincipalBindingSnapshotData; binding : PrincipalBinding;
  event : PrincipalBindingEvent;
}.

(** ** Commands ([transition.rs]) *)

Record PrincipalBindingCommand := mk_PrincipalBindingCommand {
  expected_version : N; actor : PrincipalId; request_id : RequestId; occurred_at : UtcTimestamp;
}.
Definition event_of (b : PrincipalBinding) (kind : PrincipalBindingEventKind) (a : PrincipalId) (request : RequestId) (at_ : UtcTimestamp)
    : PrincipalBindingEvent :=
  mk_PrincipalBindingEvent (p_tenant_id b) (p_principal_id b) (p_version b) kind at_ a request (p_subject_commitment b).
Definition transition (current b : PrincipalBinding) (kind : PrincipalBindingEventKind) (c : PrincipalBindingCommand)
    : PrincipalBindingTransition :=
  mk_PrincipalBindingTransition (Some (p_version current)) (Some (snapshot current)) b
    (event_of b kind (actor c) (request_id c) (occurred_at c)).
Definition validate_time (current : PrincipalBinding) (at_ : UtcTimestamp) : outcome unit :=
  let last := default (p_provisioned_at current) (p_revoked_at current) in
  reject_if (at_ <? last)%Z TimestampRegression.
Definition validate_command (current : PrincipalBinding) (c : PrincipalBindingCommand) (required_state : PrincipalBindingState) : outcome unit :=
  reject_if (negb (expected_version c =? p_version current)) VersionConflict ;;
  reject_if (bool_decide (p_state current <> required_state)) InvalidTransition ;;
  validate_time current (occurred_at c).
Definition provision `{Sha256} (i : PrincipalBindingIdentity) (a : PrincipalId) (request : RequestId) (at_ : UtcTimestamp)
    : outcome PrincipalBindingTransition :=
  let tenant_id := principal_tenant_id (i_principal i) in
  let pid := principal_id (i_principal i) in
  let b := from_validated_parts (mk_PrincipalBindingSnapshotData tenant_id pid (derive i) version_initial Active (Some i) at_ None None) in
  Ok (mk_PrincipalBindingTransition None None b (event_of b EventProvisioned a request at_)).
Definition revoke (current : PrincipalBinding) (c : PrincipalBindingCommand) : outcome PrincipalBindingTransition :=
  validate_command current c Active ;;
  new_version ← version_next (p_version current);
  let b := from_validated_parts (mk_PrincipalBindingSnapshotData (p_tenant_id current) (p_principal_id current)
    (p_subject_commitment current) new_version Revoked (p_identity current) (p_provisioned_at current) (Some (occurred_at c)) None) in
  mret (transition current b EventRevoked c).
Definition erase (current : PrincipalBinding) (c : PrincipalBindingCommand) : outcome PrincipalBindingTransition :=
  validate_command current c Revoked ;;
  new_version ← version_next (p_version current);
  let b := from_validated_parts (mk_PrincipalBindingSnapshotData (p_tenant_id current) (p_principal_id current)
    (p_subject_commitment current) new_version Erased None (p_provisioned_at current) (p_revoked_at current) (Some (occurred_at c))) in
  mret (transition current b EventErased c).

(** ** Specification *)

(** Identities short enough that their lengths are exact: those that parsers produce have at most 128 bytes. *)
Definition short (i : PrincipalBindingIdentity) : Prop := Forall (fun v => len v <= u64_max) (commitment_fields i).
(** Two different messages with one hash. *)
Definition collision `{Sha256} (m m' : list Byte.byte) : Prop := m <> m' /\ sha256 m = sha256 m'.

(** Bindings that a provision and accepted commands produce. *)
Inductive reachable `{Sha256} : PrincipalBinding -> Prop :=
| reachable_provision i a request at_ t : provision i a request at_ = Ok t -> reachable (binding t)
| reachable_revoke b c t : reachable b -> revoke b c = Ok t -> reachable (binding t)
| reachable_erase b c t : reachable b -> erase b c = Ok t -> reachable (binding t).
Definition subject_of `{Sha256} (b : PrincipalBinding) (i : PrincipalBindingIdentity) : Prop :=
  i_principal i = mk_PrincipalContext (p_tenant_id b) (p_principal_id b) /\ derive i = p_subject_commitment b.
(** What a binding of each state is. *)
Definition binding_ok `{Sha256} (b : PrincipalBinding) : Prop :=
  match p_state b with
  | Active => p_version b = 1 /\ (exists i, p_identity b = Some i /\ subject_of b i) /\ p_revoked_at b = None /\ p_erased_at b = None
  | Revoked => p_version b = 2 /\ (exists i, p_identity b = Some i /\ subject_of b i) /\
      (exists r, p_revoked_at b = Some r /\ (p_provisioned_at b <= r)%Z) /\ p_erased_at b = None
  | Erased => p_version b = 3 /\ p_identity b = None /\
      exists r e, p_revoked_at b = Some r /\ p_erased_at b = Some e /\ (p_provisioned_at b <= r <= e)%Z
  end.

Definition sample_hash : Sha256 := fun m => sample_digest (byte_of (len m)).
Definition sample_identity : PrincipalBindingIdentity :=
  mk_PrincipalBindingIdentity (mk_PrincipalContext (MkId "t") (MkId "p")) (MkId "u") (MkId "org") (MkId "m").
Definition sample_binding : PrincipalBinding :=
  mk_PrincipalBinding (MkId "t") (MkId "p") (@derive sample_hash sample_identity) 1 Active (Some sample_identity) 10%Z None None.
Definition sample_command : PrincipalBindingCommand := mk_PrincipalBindingCommand 1 (MkId "admin") (MkId "r") 20%Z.

(** ** Lemmas *)

Section hashed.
Context `{Sha256}.

Lemma key_Ok i t p : validate_key i t p = Ok tt <-> i_principal i = mk_PrincipalContext t p.
Proof.
  unfold validate_key, validate_principal_boundary. rewrite validated_Ok, !keeps. destruct (i_principal i). cbn. split; [intros [-> ->]; done|intros [= -> ->]; done].
Qed.
Lemma binding_snapshot_Ok b : validate_snapshot (snapshot b) = Ok tt <-> binding_ok b.
Proof.
  unfold validate_snapshot, validate_state_shape, active_shape, revoked_shape, erased_shape, validate_snapshot_times, validate_commitment, binding_ok, subject_of.
  cbn [d_state d_version d_identity d_revoked_at d_erased_at d_provisioned_at d_tenant_id d_principal_id d_subject_commitment snapshot].
  rewrite !validated_Ok, !reject_if_Ok, negb_false_iff.
  destruct (p_identity b) as [i|]; rewrite ?validated_Ok, ?key_Ok, ?keeps;
    (destruct (p_revoked_at b) as [r|]; destruct (p_erased_at b) as [e|]; cbn [is_some_and is_none_or]);
    destruct (p_state b); rewrite ?andb_true_iff, ?N.eqb_eq, ?negb_true_iff, ?bool_decide_eq_true, ?bool_decide_eq_false, ?Z.ltb_ge;
    unfold is_Some; naive_solver lia.
Qed.
Lemma rehydrate_iff d b : rehydrate d = Ok b <-> snapshot b = d /\ binding_ok b.
Proof.
  unfold rehydrate. rewrite validated_Ok, mret_inj_iff. split.
  - intros [Hv ->]. split; [by destruct d|]. apply binding_snapshot_Ok. by destruct d.
  - intros [<- Hb]. split; [by apply binding_snapshot_Ok|]. by destruct b.
Qed.
Lemma version_small b : binding_ok b -> version_next (p_version b) = Ok (p_version b + 1).
Proof. unfold binding_ok. intros Hb. destruct (p_state b); destruct Hb as (-> & _); reflexivity. Qed.
Lemma command_Ok b c st : validate_command b c st = Ok tt <-> expected_version c = p_version b /\ p_state b = st /\
  (default (p_provisioned_at b) (p_revoked_at b) <= occurred_at c)%Z.
Proof.
  unfold validate_command, validate_time. cbv zeta. rewrite !validated_Ok, keeps, !reject_if_Ok, negb_false_iff, N.eqb_eq, Z.ltb_ge. done.
Qed.
Lemma revoke_iff b c t : binding_ok b -> revoke b c = Ok t <->
  expected_version c = 1 /\ p_state b = Active /\ (p_provisioned_at b <= occurred_at c)%Z /\
  t = transition b (mk_PrincipalBinding (p_tenant_id b) (p_principal_id b) (p_subject_commitment b) 2 Revoked (p_identity b)
    (p_provisioned_at b) (Some (occurred_at c)) None) EventRevoked c.
Proof.
  intros Hb. unfold revoke. rewrite validated_Ok, command_Ok, version_small by done. cbn [mbind result_bind]. rewrite mret_inj_iff.
  unfold binding_ok in Hb. destruct (p_state b) eqn:Hs; [|split; [intros ((_ & [=] & _) & _)|intros (_ & [=] & _)]..].
  destruct Hb as (-> & _ & -> & _). naive_solver.
Qed.
Lemma erase_iff b c t : binding_ok b -> erase b c = Ok t <->
  expected_version c = 2 /\ p_state b = Revoked /\ (default (p_provisioned_at b) (p_revoked_at b) <= occurred_at c)%Z /\
  t = transition b (mk_PrincipalBinding (p_tenant_id b) (p_principal_id b) (p_subject_commitment b) 3 Erased None
    (p_provisioned_at b) (p_revoked_at b) (Some (occurred_at c))) EventErased c.
Proof.
  intros Hb. unfold erase. rewrite validated_Ok, command_Ok, version_small by done. cbn [mbind result_bind]. rewrite mret_inj_iff.
  unfold binding_ok in Hb. destruct (p_state b) eqn:Hs; [split; [intros ((_ & [=] & _) & _)|intros (_ & [=] & _)]| |split; [intros ((_ & [=] & _) & _)|intros (_ & [=] & _)]].
  destruct Hb as (-> & _). naive_solver.
Qed.
Lemma reachable_binding_ok b : reachable b -> binding_ok b.
Proof.
  induction 1 as [i a request at_ t [= <-]|b c t Hr IH Ht|b c t Hr IH Ht].
  - cbn. split_and!; try done. exists i. split; [done|]. split; [by destruct (i_principal i)|done].
  - apply revoke_iff in Ht as (_ & Hs & Hle & ->); [|done]. unfold binding_ok in *. rewrite Hs in IH. destruct IH as (_ & (i & Hi & Hsub) & _).
    cbn. split_and!; try done; [by exists i|]. by eexists.
  - apply erase_iff in Ht as (_ & Hs & Hle & ->); [|done]. unfold binding_ok in *. rewrite Hs in IH. destruct IH as (_ & _ & (r & Hr' & Hle') & _).
    rewrite Hr' in Hle. cbn in *. split_and!; try done. by exists r, (occurred_at c).
Qed.
(** The first points of the history of a binding of a known subject. *)
Lemma active_reachable i at_ :
  reachable (mk_PrincipalBinding (principal_tenant_id (i_principal i)) (principal_id (i_principal i)) (derive i) 1 Active (Some i) at_ None None).
Proof. exact (reachable_provision i (MkId "") (MkId "") at_ _ eq_refl). Qed.
Lemma revoked_reachable i at_ r : (at_ <= r)%Z -> 
  reachable (mk_PrincipalBinding (principal_tenant_id (i_principal i)) (principal_id (i_principal i)) (derive i) 2 Revoked (Some i) at_ (Some r) None).
Proof.
  intros Hle. pose proof (active_reachable i at_) as Ha. pose proof (reachable_binding_ok _ Ha) as Hok.
  refine (reachable_revoke _ (mk_PrincipalBindingCommand 1 (MkId "") (MkId "") r) (mk_PrincipalBindingTransition _ _ _ _) Ha _).
  apply revoke_iff; [done|]. by split_and!.
Qed.
Lemma binding_ok_reachable b i : binding_ok b -> subject_of b i -> (forall i', p_identity b = Some i' -> i' = i) -> reachable b.
Proof.
  intros Hb [Hp Hd] Hi. assert (p_tenant_id b = principal_tenant_id (i_principal i) /\ p_principal_id b = principal_id (i_principal i)) as [Ht Hpi] by (by rewrite Hp).
  destruct b as [tn pi sc v st id pa ra ea]. unfold binding_ok in Hb. cbn in *. rewrite Ht, Hpi, <- Hd. destruct st.
  - destruct Hb as (-> & (i' & -> & _) & -> & ->). rewrite (Hi i' eq_refl). apply active_reachable.
  - destruct Hb as (-> & (i' & -> & _) & (r & -> & Hle) & ->). rewrite (Hi i' eq_refl). by apply revoked_reachable.
  - destruct Hb as (-> & -> & r & e & -> & -> & Hle). pose proof (revoked_reachable i pa r ltac:(lia)) as Hr. pose proof (reachable_binding_ok _ Hr) as Hok.
    refine (reachable_erase _ (mk_PrincipalBindingCommand 2 (MkId "") (MkId "") e) (mk_PrincipalBindingTransition _ _ _ _) Hr _).
    apply erase_iff; [done|]. split_and!; try done. cbn. lia.
Qed.
Lemma commitment_fields_inj i j : commitment_fields i = commitment_fields j -> i = j.
Proof.
  unfold commitment_fields. destruct i as [[[t] [p]] [u] [o] [m]], j as [[[t'] [p']] [u'] [o'] [m']]. cbn [id_str i_principal i_user_id i_organization_id i_membership_id principal_tenant_id principal_id].
  intros [= H1 H2 H3 H4 H5]. apply as_bytes_inj in H1, H2, H3, H4, H5. by subst.
Qed.

Lemma commitment_Ok i c : validate_commitment i c = Ok tt <-> derive i = c.
Proof. unfold validate_commitment. apply keeps. Qed.
Lemma derive_binds i j : short i -> short j -> derive i = derive j ->
  i = j \/ collision (append_fields (commitment_fields i)) (append_fields (commitment_fields j)).
Proof.
  intros Hi Hj Hd.
  destruct (decide (append_fields (commitment_fields i) = append_fields (commitment_fields j))) as [He|Hn]; [|by right].
  left. apply commitment_fields_inj. by apply append_fields_inj.
Qed.
(** What the reconstruction checks of an identity that is kept. *)
Lemma rehydrate_subject d b i : rehydrate d = Ok b -> d_identity d = Some i ->
  p_tenant_id b = principal_tenant_id (i_principal i) /\ p_principal_id b = principal_id (i_principal i) /\ derive i = d_subject_commitment d.
Proof.
  intros [<- Hb]%rehydrate_iff Hi. cbn in *. unfold binding_ok, subject_of in Hb. destruct (p_state b); [destruct Hb as (_ & (i' & He & Hp & Hd) & _)..|];
    [rewrite Hi in He; injection He as <-; by rewrite Hp..|]. destruct Hb as (_ & Hn & _). congruence.
Qed.

(** ** Properties *)

(** What is persisted and what happens agree.  A binding that a provision and
    accepted commands produce is read back as itself; a snapshot that is read back is that of
    the binding it gives; and such a binding has happened whenever its commitment is that of
    some subject with its tenant and principal, which every binding that keeps its identity
    proves, and which an erased one can no longer show. *)
Theorem binding_snapshot_exact d b :
  (reachable b -> rehydrate (snapshot b) = Ok b) /\
  (rehydrate d = Ok b -> snapshot b = d /\ (p_state b <> Erased -> reachable b) /\
    (p_state b = Erased -> p_identity b = None /\ (reachable b <-> exists i, subject_of b i))).
Proof.
  split; [intros Hr%reachable_binding_ok; by apply rehydrate_iff|]. intros [<- Hb]%rehydrate_iff. split; [done|]. split.
  - intros Hs. assert (exists i, p_identity b = Some i /\ subject_of b i) as (i & Hi & Hsub) by (unfold binding_ok in Hb; destruct (p_state b); tauto).
    apply (binding_ok_reachable b i); [done|done|]. intros i' Hi'. congruence.
  - intros Hs. assert (p_identity b = None) as Hn by (unfold binding_ok in Hb; rewrite Hs in Hb; tauto). split; [done|]. split; [|intros [i Hi]; by apply (binding_ok_reachable b i); [..|congruence]].
    intros Hr. clear Hb Hn. destruct Hr as [i a request at_ t [= <-]|b c t Hr Ht|b c t Hr Ht]; [done|by apply revoke_iff in Ht as (_ & _ & _ & ->); [|apply reachable_binding_ok]|].
    pose proof (reachable_binding_ok _ Hr) as Hb. apply erase_iff in Ht as (_ & Hb' & _ & ->); [|done]. unfold binding_ok in Hb. rewrite Hb' in Hb.
    destruct Hb as (_ & (i & _ & Hsub) & _). by exists i.
Qed.

(** C35: a commitment binds one subject.  An identity's own commitment is accepted
    ([validate_commitment]), and two identities for which one commitment is accepted are the
    same, or their encodings are two different messages that the hash function does not tell
    apart: lengths and order of the fields cannot be confused.  So for what is persisted: two
    snapshots that keep their identities and carry one commitment, both read back
    ([rehydrate]), are of one subject, tenant and principal, or exhibit such a collision. *)
Theorem commitment_binds_subject i j c (Hi : short i) (Hj : short j) :
  validate_commitment i (derive i) = Ok tt /\
  (validate_commitment i c = Ok tt -> validate_commitment j c = Ok tt ->
    i = j \/ collision (append_fields (commitment_fields i)) (append_fields (commitment_fields j))) /\
  (forall d d' b b', rehydrate d = Ok b -> rehydrate d' = Ok b' -> d_identity d = Some i -> d_identity d' = Some j ->
    d_subject_commitment d = d_subject_commitment d' ->
    (i = j /\ p_tenant_id b = p_tenant_id b' /\ p_principal_id b = p_principal_id b') \/
    collision (append_fields (commitment_fields i)) (append_fields (commitment_fields j))).
Proof.
  split_and!; [by apply commitment_Ok| |].
  - intros Hc Hc'. apply commitment_Ok in Hc, Hc'. apply derive_binds; congruence.
  - intros d d' b b' Hd Hd' Hid Hid' Hs. destruct (rehydrate_subject d b i Hd Hid) as (-> & -> & Hc), (rehydrate_subject d' b' j Hd' Hid') as (-> & -> & Hc').
    destruct (derive_binds i j) as [->|Hx]; [done|done|congruence|by left|by right].
Qed.

(** A binding is provisioned, revoked and erased, in this order and once each.  A
    revocation is accepted exactly of an active binding, at version one and no earlier than
    the provision, an erasure exactly of a revoked one, at version two and no earlier than the
    revocation; the erased binding keeps the commitment and forgets the identity; each event
    can be read back. *)
Theorem binding_lifecycle b c (Hb : reachable b) :
  (is_ok (revoke b c) = true <-> p_state b = Active /\ expected_version c = 1 /\ (p_provisioned_at b <= occurred_at c)%Z) /\
  (is_ok (erase b c) = true <-> p_state b = Revoked /\ expected_version c = 2 /\ (default (p_provisioned_at b) (p_revoked_at b) <= occurred_at c)%Z) /\
  (forall t, revoke b c = Ok t \/ erase b c = Ok t ->
    p_subject_commitment (binding t) = p_subject_commitment b /\ previous_snapshot t = Some (snapshot b) /\
    p_version (binding t) = p_version b + 1 /\ (p_identity (binding t) = None <-> p_state (binding t) = Erased) /\
    event_rehydrate (mk_PrincipalBindingEventData (e_tenant_id (event t)) (e_principal_id (event t)) (e_version (event t)) (e_kind (event t))
      (e_occurred_at (event t)) (e_actor (event t)) (e_request_id (event t)) (e_subject_commitment (event t))) = Ok (event t)).
Proof.
  apply reachable_binding_ok in Hb. split_and!.
  - split.
    + destruct (revoke b c) as [t|] eqn:Ht; [|done]. intros _. apply revoke_iff in Ht; [|done]. tauto.
    + intros (H1 & H2 & H3). eassert (revoke b c = Ok _) as ->; [|done]. apply revoke_iff; [done|]. by split_and!.
  - split.
    + destruct (erase b c) as [t|] eqn:Ht; [|done]. intros _. apply erase_iff in Ht; [|done]. tauto.
    + intros (H1 & H2 & H3). eassert (erase b c = Ok _) as ->; [|done]. apply erase_iff; [done|]. by split_and!.
  - intros t [Ht|Ht]; [apply revoke_iff in Ht as (_ & Hs & _ & ->)|apply erase_iff in Ht as (_ & Hs & _ & ->)]; try done;
      unfold binding_ok in Hb; rewrite Hs in Hb; cbn.
    + destruct Hb as (-> & (i & -> & _) & _). by split_and!.
    + destruct Hb as (-> & _). by split_and!.
Qed.
End hashed.

(** *** Witnesses, with a concrete hash *)

Lemma binding_snapshot_exact_witness : @reachable sample_hash sample_binding /\ @rehydrate sample_hash (snapshot sample_binding) = Ok sample_binding.
Proof.
  assert (@reachable sample_hash sample_binding) as Hr by exact (@active_reachable sample_hash sample_identity 10%Z).
  split; [exact Hr|]. exact (proj1 (@binding_snapshot_exact sample_hash (snapshot sample_binding) sample_binding) Hr).
Defined.
Lemma commitment_binds_subject_witness :
  let other := mk_PrincipalBindingIdentity (mk_PrincipalContext (MkId "t") (MkId "p")) (MkId "uo") (MkId "rg") (MkId "m") in
  let b := mk_PrincipalBinding (MkId "t") (MkId "p") (@derive sample_hash other) 2 Revoked (Some other) 10%Z (Some 30%Z) None in
  is_ok (@rehydrate sample_hash (snapshot sample_binding)) = true /\ is_ok (@rehydrate sample_hash (snapshot b)) = true /\
  @collision sample_hash (append_fields (commitment_fields sample_identity)) (append_fields (commitment_fields other)).
Proof.
  intros other b.
  assert (@rehydrate sample_hash (snapshot sample_binding) = Ok sample_binding) as Hr by (vm_compute; reflexivity).
  assert (@rehydrate sample_hash (snapshot b) = Ok b) as Hr' by (vm_compute; reflexivity).
  split; [rewrite Hr; reflexivity|]. split; [rewrite Hr'; reflexivity|].
  assert (forall i, i = sample_identity \/ i = other -> short i) as Hs by (intros i [->| ->]; repeat constructor; vm_compute; discriminate).
  destruct (@commitment_binds_subject sample_hash sample_identity other (@derive sample_hash other) (Hs _ (or_introl eq_refl)) (Hs _ (or_intror eq_refl))) as (_ & _ & Hb).
  destruct (Hb _ _ _ _ Hr Hr' eq_refl eq_refl ltac:(vm_compute; reflexivity)) as [[He _]|Hc]; [discriminate He|exact Hc].
Defined.
Lemma binding_lifecycle_witness : is_ok (revoke sample_binding sample_command) = true /\ is_ok (erase sample_binding sample_command) = false.
Proof.
  assert (@reachable sample_hash sample_binding) as Hr by exact (@active_reachable sample_hash sample_identity 10%Z).
  pose proof (@binding_lifecycle sample_hash sample_binding sample_command Hr) as (H1 & _ & _). split; [|vm_compute; reflexivity].
  apply H1. split; [reflexivity|]. split; [reflexivity|]. vm_compute. discriminate.
Defined.
