(* ===== verification/PrincipalAuthenticator.v ===== *)
(** * Principal authenticators

    Models the authenticator part of [crates/optional/ariadnion-principal-binding/src]:
    [authenticator_error.rs], [authenticator_ids.rs], [authenticator_model.rs],
    [authenticator_transition.rs] and [authenticator_evidence.rs]: the link of one
    authenticator to a principal binding, its identity derived by hashing, its events, and the
    evidence that authenticated a principal.  A client of [PrincipalBinding]. *)

From Stdlib Require Import Ascii.
From S2P Require Import Prelude CoreTypes Identity Encoding.
From S2P Require UserDomain PrincipalBinding.
#[local] Existing Instances PrincipalBinding.PrincipalBindingState_eq_dec.
#[local] Open Scope N_scope.

(** ** Errors ([authenticator_error.rs]) *)

Inductive PrincipalAuthenticatorErrorCode :=
| InvalidKind | InvalidSourceId | InvalidAuthenticatorId | InvalidVersion | VersionExhausted | PrincipalBindingInactive
| InvalidSnapshot | InvalidEvent | InvalidTransition | VersionConflict | TimestampRegression | EvidenceMismatch.
Definition ERROR_CODES : list string := [
  "PRINCIPAL_AUTHENTICATOR_INVALID_KIND"; "PRINCIPAL_AUTHENTICATOR_INVALID_SOURCE_ID"; "PRINCIPAL_AUTHENTICATOR_INVALID_ID";
  "PRINCIPAL_AUTHENTICATOR_INVALID_VERSION"; "PRINCIPAL_AUTHENTICATOR_VERSION_EXHAUSTED";
  "PRINCIPAL_AUTHENTICATOR_PRINCIPAL_BINDING_INACTIVE"; "PRINCIPAL_AUTHENTICATOR_INVALID_SNAPSHOT";
  "PRINCIPAL_AUTHENTICATOR_INVALID_EVENT"; "PRINCIPAL_AUTHENTICATOR_INVALID_TRANSITION"; "PRINCIPAL_AUTHENTICATOR_VERSION_CONFLICT";
  "PRINCIPAL_AUTHENTICATOR_TIMESTAMP_REGRESSION"; "PRINCIPAL_AUTHENTICATOR_EVIDENCE_MISMATCH" ].
Definition error_index (code : PrincipalAuthenticatorErrorCode) : nat :=
  match code with
  | InvalidKind => 0 | InvalidSourceId => 1 | InvalidAuthenticatorId => 2 | InvalidVersion => 3 | VersionExhausted => 4
  | PrincipalBindingInactive => 5 | InvalidSnapshot => 6 | InvalidEvent => 7 | InvalidTransition => 8 | VersionConflict => 9
  | TimestampRegression => 10 | EvidenceMismatch => 11
  end.
(** Indexing out of range would panic, hence the option. *)
Definition as_str (code : PrincipalAuthenticatorErrorCode) : option string := ERROR_CODES !! error_index code.
Notation outcome := (result PrincipalAuthenticatorErrorCode).

(** ** Identities ([authenticator_ids.rs]) *)

Notation RequestId := (Id RequestKind).
Notation UtcTimestamp := UserDomain.UtcTimestamp.
Definition MAX_SOURCE_ID_BYTES : N := 128.
Definition AUTHENTICATOR_ID_HEX_BYTES : N := 64.
Definition AUTHENTICATOR_ID_DOMAIN : list Byte.byte := as_bytes "ariadnion.principal-authenticator-id.v1".
Definition SOURCE_COMMITMENT_DOMAIN : list Byte.byte := as_bytes "ariadnion.principal-authenticator-source.v1".
Definition LOWER_HEX : list ascii := Stdlib.Strings.String.list_ascii_of_string "0123456789abcdef".

Inductive PrincipalAuthenticatorKind := SessionFamily | ApiKey | System.
#[export] Instance PrincipalAuthenticatorKind_eq_dec : EqDecision PrincipalAuthenticatorKind.
Proof. solve_decision. Defined.
Definition kind_as_str (k : PrincipalAuthenticatorKind) : string :=
  match k with SessionFamily => "session_family" | ApiKey => "api_key" | System => "system" end.
Definition kind_parse (value : string) : outcome PrincipalAuthenticatorKind :=
  if String.eqb value "session_family" then Ok SessionFamily
  else if String.eqb value "api_key" then Ok ApiKey
  else if String.eqb value "system" then Ok System
  else Err InvalidKind.
Record PrincipalAuthenticatorSourceId := mk_PrincipalAuthenticatorSourceId { source_str : string }.
#[export] Instance PrincipalAuthenticatorSourceId_eq_dec : EqDecision PrincipalAuthenticatorSourceId.
Proof. solve_decision. Defined.
Definition is_source_id_byte (b : ascii) : bool :=
  is_ascii_alphanumeric b || Ascii.eqb b "."%char || Ascii.eqb b "_"%char || Ascii.eqb b "-"%char.
Definition source_id_is_valid (value : string) : bool :=
  negb (is_empty value) && (byte_len value <=? MAX_SOURCE_ID_BYTES) && all_bytes is_source_id_byte value.
Definition source_id_parse (value : string) : outcome PrincipalAuthenticatorSourceId :=
  if source_id_is_valid value then Ok (mk_PrincipalAuthenticatorSourceId value) else Err InvalidSourceId.
Record PrincipalAuthenticatorId := mk_PrincipalAuthenticatorId { authenticator_str : string }.
#[export] Instance PrincipalAuthenticatorId_eq_dec : EqDecision PrincipalAuthenticatorId.
Proof. solve_decision. Defined.
Definition authenticator_id_is_valid (value : string) : bool :=
  (byte_len value =? AUTHENTICATOR_ID_HEX_BYTES) && all_bytes (fun b => is_ascii_digit b || in_range 97 102 (byte b)) value.
Definition authenticator_id_parse (value : string) : outcome PrincipalAuthenticatorId :=
  if authenticator_id_is_valid value then Ok (mk_PrincipalAuthenticatorId value) else Err InvalidAuthenticatorId.

(** A half byte is always an index of the table. *)
Definition hex_digit (n : N) : ascii := default "0"%char (LOWER_HEX !! N.to_nat n).
Definition lower_hex (bytes : digest) : string :=
  Stdlib.Strings.String.string_of_list_ascii
    (concat ((fun b => [hex_digit (N.shiftr (Byte.to_N b) 4); hex_digit (N.land (Byte.to_N b) 15)]) <$> vec_to_list bytes)).
Definition source_fields (domain : list Byte.byte) (tenant_id : TenantId) (kind : PrincipalAuthenticatorKind)
    (source_id : PrincipalAuthenticatorSourceId) : list (list Byte.byte) :=
  [domain; as_bytes (id_str tenant_id); as_bytes (kind_as_str kind); as_bytes (source_str source_id)].
Definition source_digest `{Sha256} (domain : list Byte.byte) (tenant_id : TenantId) (kind : PrincipalAuthenticatorKind)
    (source_id : PrincipalAuthenticatorSourceId) : digest :=
  sha256 (append_fields (source_fields domain tenant_id kind source_id)).
Definition authenticator_id_derive `{Sha256} (tenant_id : TenantId) (kind : PrincipalAuthenticatorKind)
    (source_id : PrincipalAuthenticatorSourceId) : PrincipalAuthenticatorId :=
  mk_PrincipalAuthenticatorId (lower_hex (source_digest AUTHENTICATOR_ID_DOMAIN tenant_id kind source_id)).
Definition source_commitment_derive `{Sha256} (tenant_id : TenantId) (kind : PrincipalAuthenticatorKind)
    (source_id : PrincipalAuthenticatorSourceId) : digest :=
  source_digest SOURCE_COMMITMENT_DOMAIN tenant_id kind source_id.

(** [PrincipalAuthenticatorVersion]: a non-zero 64-bit integer. *)
Definition version_initial : N := 1.
Definition version_new (value : N) : outcome N := if value =? 0 then Err InvalidVersion else Ok value.
Definition version_next (v : N) : outcome N := ok_or (checked_add u64_max v 1) VersionExhausted.

(** ** The link and its events ([authenticator_model.rs]) *)

Inductive PrincipalAuthenticatorState := Active | Revoked.
#[export] Instance PrincipalAuthenticatorState_eq_dec : EqDecision PrincipalAuthenticatorState.
Proof. solve_decision. Defined.
Record PrincipalAuthenticatorSnapshotData := mk_PrincipalAuthenticatorSnapshotData {
  d_tenant_id : TenantId; d_authenticator_id : PrincipalAuthenticatorId; d_kind : PrincipalAuthenticatorKind;
  d_source_id : PrincipalAuthenticatorSourceId; d_principal_id : PrincipalId; d_principal_binding_version : N; d_version : N;
  d_state : PrincipalAuthenticatorState; d_linked_at : UtcTimestamp; d_revoked_at : option UtcTimestamp;
}.
Record PrincipalAuthenticatorLink := mk_PrincipalAuthenticatorLink {
  l_tenant_id : TenantId; l_authenticator_id : PrincipalAuthenticatorId; l_kind : PrincipalAuthenticatorKind;
  l_source_id : PrincipalAuthenticatorSourceId; l_principal_id : PrincipalId; l_principal_binding_version : N; l_version : N;
  l_state : PrincipalAuthenticatorState; l_linked_at : UtcTimestamp; l_revoked_at : option UtcTimestamp;
}.
Definition from_validated_parts (d : PrincipalAuthenticatorSnapshotData) : PrincipalAuthenticatorLink :=
  mk_PrincipalAuthenticatorLink (d_tenant_id d) (d_authenticator_id d) (d_kind d) (d_source_id d) (d_principal_id d)
    (d_principal_binding_version d) (d_version d) (d_state d) (d_linked_at d) (d_revoked_at d).
Definition snapshot (l : PrincipalAuthenticatorLink) : PrincipalAuthenticatorSnapshotData :=
  mk_PrincipalAuthenticatorSnapshotData (l_tenant_id l) (l_authenticator_id l) (l_kind l) (l_source_id l) (l_principal_id l)
    (l_principal_binding_version l) (l_version l) (l_state l) (l_linked_at l) (l_revoked_at l).
Definition validate_snapshot_lifecycle (d : PrincipalAuthenticatorSnapshotData) : outcome unit :=
  let valid :=
    match d_state d with
    | Active => (d_version d =? version_initial) && bool_decide (d_revoked_at d = None)
    | Revoked => (d_version d =? 2) && is_some_and (fun time => (d_linked_at d <=? time)%Z) (d_revoked_at d)
    end in
  if valid then Ok tt else Err InvalidSnapshot.
Definition validate_snapshot `{Sha256} (d : PrincipalAuthenticatorSnapshotData) : outcome unit :=
  let expected_id := authenticator_id_derive (d_tenant_id d) (d_kind d) (d_source_id d) in
  reject_if (bool_decide (d_authenticator_id d <> expected_id)) InvalidSnapshot ;;
  validate_snapshot_lifecycle d.
Definition rehydrate `{Sha256} (d : PrincipalAuthenticatorSnapshotData) : outcome PrincipalAuthenticatorLink :=
  validate_snapshot d ;; mret (from_validated_parts d).

Inductive PrincipalAuthenticatorEventKind := EventLinked | EventRevoked.
Record PrincipalAuthenticatorEvent := mk_PrincipalAuthenticatorEvent {
  e_tenant_id : TenantId; e_authenticator_id : PrincipalAuthenticatorId; e_authenticator_kind : PrincipalAuthenticatorKind;
  e_source_commitment : digest; e_principal_id : PrincipalId; e_principal_binding_version : N; e_version : N;
  e_kind : PrincipalAuthenticatorEventKind; e_occurred_at : UtcTimestamp; e_actor : PrincipalId; e_request_id : RequestId;
}.
Definition validate_event_version (kind : PrincipalAuthenticatorEventKind) (version : N) : outcome unit :=
  let valid := match kind with EventLinked => version =? version_initial | EventRevoked => version =? 2 end in
  if valid then Ok tt else Err InvalidEvent.
(** The data of an event has the fields of the event. *)
Definition event_rehydrate (d : PrincipalAuthenticatorEvent) : outcome PrincipalAuthenticatorEvent :=
  validate_event_version (e_kind d) (e_version d) ;; mret d.
Definition matches_snapshot_identity `{Sha256} (e : PrincipalAuthenticatorEvent) (d : PrincipalAuthenticatorSnapshotData) : bool :=
  bool_decide (e_tenant_id e = d_tenant_id d) && bool_decide (e_authenticator_id e = d_authenticator_id d)
    && bool_decide (e_authenticator_kind e = d_kind d) && bool_decide (e_principal_id e = d_principal_id d)
    && (e_principal_binding_version e =? d_principal_binding_version d)
    && bool_decide (e_source_commitment e = source_commitment_derive (d_tenant_id d) (d_kind d) (d_source_id d)).
Definition matches_snapshot_lifecycle (e : PrincipalAuthenticatorEvent) (d : PrincipalAuthenticatorSnapshotData) : bool :=
  if negb (e_version e =? d_version d) then false
  else
    match e_kind e with
    | EventLinked => bool_decide (d_state d = Active) && (e_occurred_at e =? d_linked_at d)%Z
    | EventRevoked => bool_decide (d_state d = Revoked) && bool_decide (d_revoked_at d = Some (e_occurred_at e))
    end.
Definition event_validate_against `{Sha256} (e : PrincipalAuthenticatorEvent) (d : PrincipalAuthenticatorSnapshotData) : outcome unit :=
  match validate_snapshot d with
  | Err _ => Err InvalidEvent
  | Ok _ => reject_if (negb (matches_snapshot_identity e d) || negb (matches_snapshot_lifecycle e d)) InvalidEvent
  end.
Record PrincipalAuthenticatorTransition := mk_PrincipalAuthenticatorTransition {
  previous_version : option N; previous_snapshot : option PrincipalAuthenticatorSnapshotData; link : PrincipalAuthenticatorLink;
  event : PrincipalAuthenticatorEvent;
}.

(** ** Commands ([authenticator_transition.rs]) *)

Record PrincipalAuthenticatorCommand := mk_PrincipalAuthenticatorCommand {
  expected_version : N; actor : PrincipalId; request_id : RequestId; occurred_at : UtcTimestamp;
}.
Definition event_of `{Sha256} (l : PrincipalAuthenticatorLink) (kind : PrincipalAuthenticatorEventKind) (a : PrincipalId) (request : RequestId)
    (at_ : UtcTimestamp) : PrincipalAuthenticatorEvent :=
  mk_PrincipalAuthenticatorEvent (l_tenant_id l) (l_authenticator_id l) (l_kind l)
    (source_commitment_derive (l_tenant_id l) (l_kind l) (l_source_id l)) (l_principal_id l) (l_principal_binding_version l) (l_version l)
    kind at_ a request.
Definition initial_transition `{Sha256} (l : PrincipalAuthenticatorLink) (a : PrincipalId) (request : RequestId) : PrincipalAuthenticatorTransition :=
  mk_PrincipalAuthenticatorTransition None None l (event_of l EventLinked a request (l_linked_at l)).
Definition existing_transition `{Sha256} (current l : PrincipalAuthenticatorLink) (c : PrincipalAuthenticatorCommand) : PrincipalAuthenticatorTransition :=
  mk_PrincipalAuthenticatorTransition (Some (l_version current)) (Some (snapshot current)) l
    (event_of l EventRevoked (actor c) (request_id c) (occurred_at c)).
Definition validate_principal_binding (b : PrincipalBinding.PrincipalBinding) (linked_at : UtcTimestamp) : outcome unit :=
  reject_if (bool_decide (PrincipalBinding.p_state b <> PrincipalBinding.Active)) PrincipalBindingInactive ;;
  reject_if (linked_at <? PrincipalBinding.p_provisioned_at b)%Z TimestampRegression.
Definition link_authenticator `{Sha256} (b : PrincipalBinding.PrincipalBinding) (kind : PrincipalAuthenticatorKind)
    (source_id : PrincipalAuthenticatorSourceId) (a : PrincipalId) (request : RequestId) (linked_at : UtcTimestamp)
    : outcome PrincipalAuthenticatorTransition :=
  validate_principal_binding b linked_at ;;
  let tenant_id := PrincipalBinding.p_tenant_id b in
  let authenticator_id := authenticator_id_derive tenant_id kind source_id in
  let l := from_validated_parts (mk_PrincipalAuthenticatorSnapshotData tenant_id authenticator_id kind source_id
    (PrincipalBinding.p_principal_id b) (PrincipalBinding.p_version b) version_initial Active linked_at None) in
  mret (initial_transition l a request).
Definition validate_revoke (current : PrincipalAuthenticatorLink) (c : PrincipalAuthenticatorCommand) : outcome unit :=
  reject_if (negb (expected_version c =? l_version current)) VersionConflict ;;
  reject_if (bool_decide (l_state current <> Active)) InvalidTransition ;;
  reject_if (occurred_at c <? l_linked_at current)%Z TimestampRegression.
Definition revoke_authenticator `{Sha256} (current : PrincipalAuthenticatorLink) (c : PrincipalAuthenticatorCommand)
    : outcome PrincipalAuthenticatorTransition :=
  validate_revoke current c ;;
  version ← version_next (l_version current);
  let l := from_validated_parts (mk_PrincipalAuthenticatorSnapshotData (l_tenant_id current) (l_authenticator_id current) (l_kind current)
    (l_source_id current) (l_principal_id current) (l_principal_binding_version current) version Revoked (l_linked_at current)
    (Some (occurred_at c))) in
  mret (existing_transition current l c).

(** ** Evidence ([authenticator_evidence.rs]) *)

Record AuthenticatedPrincipalEvidence := mk_AuthenticatedPrincipalEvidence {
  v_tenant_id : TenantId; v_principal_id : PrincipalId; v_kind : PrincipalAuthenticatorKind; v_source_id : PrincipalAuthenticatorSourceId;
  v_authenticator_id : PrincipalAuthenticatorId; v_authenticator_version : N; v_principal_binding_version : N;
}.
Definition aggregates_are_exact_and_active (l : PrincipalAuthenticatorLink) (b : PrincipalBinding.PrincipalBinding) : bool :=
  bool_decide (l_state l = Active) && bool_decide (PrincipalBinding.p_state b = PrincipalBinding.Active)
    && bool_decide (l_tenant_id l = PrincipalBinding.p_tenant_id b) && bool_decide (l_principal_id l = PrincipalBinding.p_principal_id b)
    && (l_principal_binding_version l =? PrincipalBinding.p_version b).
Definition matches_link (v : AuthenticatedPrincipalEvidence) (l : PrincipalAuthenticatorLink) : bool :=
  bool_decide (v_tenant_id v = l_tenant_id l) && bool_decide (v_principal_id v = l_principal_id l) && bool_decide (v_kind v = l_kind l)
    && bool_decide (v_source_id v = l_source_id l) && bool_decide (v_authenticator_id v = l_authenticator_id l)
    && (v_authenticator_version v =? l_version l) && (v_principal_binding_version v =? l_principal_binding_version l).
Definition evidence_validate_against (v : AuthenticatedPrincipalEvidence) (l : PrincipalAuthenticatorLink) (b : PrincipalBinding.PrincipalBinding)
    : outcome unit :=
  reject_if (negb (aggregates_are_exact_and_active l b) || negb (matches_link v l)) EvidenceMismatch.
Definition from_active_link (l : PrincipalAuthenticatorLink) (b : PrincipalBinding.PrincipalBinding) : outcome AuthenticatedPrincipalEvidence :=
  let v := mk_AuthenticatedPrincipalEvidence (l_tenant_id l) (l_principal_id l) (l_kind l) (l_source_id l) (l_authenticator_id l)
    (l_version l) (l_principal_binding_version l) in
  evidence_validate_against v l b ;; mret v.
Definition rehydrate_against (v : AuthenticatedPrincipalEvidence) (l : PrincipalAuthenticatorLink) (b : PrincipalBinding.PrincipalBinding)
    : outcome AuthenticatedPrincipalEvidence :=
  evidence_validate_against v l b ;; mret v.

(** ** Specification *)

(** Links that a reachable binding and accepted commands produce. *)
Inductive reachable `{Sha256} : PrincipalAuthenticatorLink -> Prop :=
| reachable_link b kind source a request at_ t :
    PrincipalBinding.reachable b -> link_authenticator b kind source a request at_ = Ok t -> reachable (link t)
| reachable_revoke l c t : reachable l -> revoke_authenticator l c = Ok t -> reachable (link t).
Definition link_ok `{Sha256} (l : PrincipalAuthenticatorLink) : Prop :=
  l_authenticator_id l = authenticator_id_derive (l_tenant_id l) (l_kind l) (l_source_id l) /\
  match l_state l with
  | Active => l_version l = 1 /\ l_revoked_at l = None
  | Revoked => l_version l = 2 /\ exists r, l_revoked_at l = Some r /\ (l_linked_at l <= r)%Z
  end.
(** The evidence of a link is a copy of it, and link and binding are active and refer to each other. *)
Definition authenticates (v : AuthenticatedPrincipalEvidence) (l : PrincipalAuthenticatorLink) (b : PrincipalBinding.PrincipalBinding) : Prop :=
  l_state l = Active /\ PrincipalBinding.p_state b = PrincipalBinding.Active /\
  l_tenant_id l = PrincipalBinding.p_tenant_id b /\ l_principal_id l = PrincipalBinding.p_principal_id b /\
  l_principal_binding_version l = PrincipalBinding.p_version b /\
  v = mk_AuthenticatedPrincipalEvidence (l_tenant_id l) (l_principal_id l) (l_kind l) (l_source_id l) (l_authenticator_id l) (l_version l)
    (l_principal_binding_version l).
(** Tenants and sources short enough that their lengths are exact. *)
Definition short (t : TenantId) (s : PrincipalAuthenticatorSourceId) : Prop := byte_len (id_str t) <= 128 /\ byte_len (source_str s) <= 128.

Definition is_hex_byte (a : ascii) : bool := is_ascii_digit a || in_range 97 102 (byte a).
Definition hex_of (bytes : list Byte.byte) : list ascii :=
  concat ((fun b => [hex_digit (N.shiftr (Byte.to_N b) 4); hex_digit (N.land (Byte.to_N b) 15)]) <$> bytes).

Definition sample_source : PrincipalAuthenticatorSourceId := mk_PrincipalAuthenticatorSourceId "fam".
Definition sample_link : PrincipalAuthenticatorLink :=
  mk_PrincipalAuthenticatorLink (MkId "t") (@authenticator_id_derive PrincipalBinding.sample_hash (MkId "t") SessionFamily sample_source)
    SessionFamily sample_source (MkId "p") 1 1 Active 15%Z None.
Definition sample_evidence : AuthenticatedPrincipalEvidence :=
  mk_AuthenticatedPrincipalEvidence (MkId "t") (MkId "p") SessionFamily sample_source
    (@authenticator_id_derive PrincipalBinding.sample_hash (MkId "t") SessionFamily sample_source) 1 1.

(** ** Lemmas: hexadecimal *)

Lemma byte_halves b c : N.shiftr (Byte.to_N b) 4 = N.shiftr (Byte.to_N c) 4 -> N.land (Byte.to_N b) 15 = N.land (Byte.to_N c) 15 -> b = c.
Proof.
  intros H1 H2. apply to_N_inj. rewrite !N.shiftr_div_pow2 in H1. change 15 with (N.ones 4) in H2. rewrite !N.land_ones in H2.
  change (2 ^ 4) with 16 in *. rewrite (N.div_mod (Byte.to_N b) 16), (N.div_mod (Byte.to_N c) 16) by lia. by rewrite H1, H2.
Qed.
Lemma byte_bound b : Byte.to_N b < 256.
Proof. pose proof (Byte.to_N_bounded b). lia. Qed.
Lemma high_half b : N.shiftr (Byte.to_N b) 4 < 16.
Proof. rewrite N.shiftr_div_pow2. change (2 ^ 4) with 16. pose proof (byte_bound b). apply N.div_lt_upper_bound; lia. Qed.
Lemma low_half b : N.land (Byte.to_N b) 15 < 16.
Proof. change 15 with (N.ones 4). rewrite N.land_ones. apply N.mod_lt. done. Qed.
(** The sixteen digits, one by one. *)
Lemma hex_digits : forallb (fun n => is_hex_byte (hex_digit n) && forallb (fun m => negb (Ascii.eqb (hex_digit n) (hex_digit m)) || (n =? m))
  (N.of_nat <$> seq 0 16)) (N.of_nat <$> seq 0 16) = true.
Proof. vm_compute. reflexivity. Qed.
Lemma below_sixteen n : n < 16 -> In n (N.of_nat <$> seq 0 16).
Proof. intros Hn. apply list_elem_of_In, list_elem_of_fmap. exists (N.to_nat n). rewrite N2Nat.id. split; [done|]. apply elem_of_seq. lia. Qed.
Lemma hex_digit_hex n : n < 16 -> is_hex_byte (hex_digit n) = true.
Proof. intros Hn. pose proof hex_digits as H. rewrite forallb_forall in H. specialize (H n (below_sixteen n Hn)). by apply andb_true_iff in H as [H _]. Qed.
Lemma hex_digit_inj n m : n < 16 -> m < 16 -> hex_digit n = hex_digit m -> n = m.
Proof.
  intros Hn Hm He. pose proof hex_digits as H. rewrite forallb_forall in H. specialize (H n (below_sixteen n Hn)).
  apply andb_true_iff in H as [_ H]. rewrite forallb_forall in H. specialize (H m (below_sixteen m Hm)).
  rewrite He, Ascii.eqb_refl in H. cbn in H. by apply N.eqb_eq.
Qed.
Lemma hex_of_inj l k : hex_of l = hex_of k -> l = k.
Proof.
  unfold hex_of. revert k. induction l as [|b l IH]; intros [|c k]; cbn; try done. intros [= H1 H2 H3].
  apply hex_digit_inj in H1; [|apply high_half|apply high_half]. apply hex_digit_inj in H2; [|apply low_half|apply low_half].
  rewrite (byte_halves b c) by done. f_equal. by apply IH.
Qed.
Lemma hex_of_length l : length (hex_of l) = (2 * length l)%nat.
Proof. unfold hex_of. induction l as [|b l IH]; cbn in *; [done|]. rewrite IH. lia. Qed.
Lemma hex_of_hex l : forallb is_hex_byte (hex_of l) = true.
Proof.
  unfold hex_of. induction l as [|b l IH]; cbn [fmap list_fmap concat app forallb] in *; [done|]. rewrite !hex_digit_hex; [done|apply low_half|apply high_half].
Qed.
Lemma lower_hex_inj d e : lower_hex d = lower_hex e -> d = e.
Proof.
  unfold lower_hex. intros H. apply (f_equal Stdlib.Strings.String.list_ascii_of_string) in H. rewrite !Stdlib.Strings.String.list_ascii_of_string_of_list_ascii in H.
  apply vec_to_list_inj2. by apply hex_of_inj.
Qed.
Lemma length_of_ascii s : length (Stdlib.Strings.String.list_ascii_of_string s) = String.length s.
Proof. induction s as [|a s IH]; cbn; [done|]. by rewrite IH. Qed.
Lemma lower_hex_parses d : authenticator_id_parse (lower_hex d) = Ok (mk_PrincipalAuthenticatorId (lower_hex d)).
Proof.
  unfold authenticator_id_parse, authenticator_id_is_valid. assert (byte_len (lower_hex d) = 64) as ->.
  { unfold byte_len. rewrite <- length_of_ascii. unfold lower_hex. rewrite Stdlib.Strings.String.list_ascii_of_string_of_list_ascii. fold (hex_of (vec_to_list d)). by rewrite hex_of_length, length_vec_to_list. }
  unfold all_bytes, lower_hex. rewrite Stdlib.Strings.String.list_ascii_of_string_of_list_ascii. fold (hex_of (vec_to_list d)).
  change (fun b => is_ascii_digit b || in_range 97 102 (byte b)) with is_hex_byte. by rewrite hex_of_hex.
Qed.

(** ** Lemmas: links and evidence *)

Section hashed.
Context `{Sha256}.

Lemma link_snapshot_Ok l : validate_snapshot (snapshot l) = Ok tt <-> link_ok l.
Proof.
  unfold validate_snapshot, validate_snapshot_lifecycle, link_ok. cbn [d_tenant_id d_kind d_source_id d_authenticator_id d_state d_version d_revoked_at d_linked_at snapshot].
  rewrite validated_Ok, keeps. apply and_iff_compat_l. destruct (l_state l).
  - destruct (N.eqb_spec (l_version l) version_initial) as [Hv|Hv]; [|split; [done|by intros [Hv' _]]]. case_bool_decide as Hn; cbn; [by split|split; [done|by intros [_ Hn']]].
  - destruct (N.eqb_spec (l_version l) 2) as [Hv|Hv]; [|split; [done|by intros [Hv' _]]]. destruct (l_revoked_at l) as [r|]; cbn.
    + destruct (Z.leb_spec (l_linked_at l) r); split; try done; [intros _; split; [done|by exists r]|intros (_ & r' & [= <-] & Hle); lia].
    + split; [done|by intros (_ & r' & [=] & _)].
Qed.
Lemma link_rehydrate_iff d l : rehydrate d = Ok l <-> snapshot l = d /\ link_ok l.
Proof.
  unfold rehydrate. rewrite validated_Ok, mret_inj_iff. split.
  - intros [Hv ->]. split; [by destruct d|]. apply link_snapshot_Ok. by destruct d.
  - intros [<- Hl]. split; [by apply link_snapshot_Ok|]. by destruct l.
Qed.
Lemma link_iff b kind source a request at_ t : link_authenticator b kind source a request at_ = Ok t <->
  PrincipalBinding.p_state b = PrincipalBinding.Active /\ (PrincipalBinding.p_provisioned_at b <= at_)%Z /\
  t = initial_transition (mk_PrincipalAuthenticatorLink (PrincipalBinding.p_tenant_id b)
    (authenticator_id_derive (PrincipalBinding.p_tenant_id b) kind source) kind source (PrincipalBinding.p_principal_id b)
    (PrincipalBinding.p_version b) 1 Active at_ None) a request.
Proof. unfold link_authenticator, validate_principal_binding. rewrite !validated_Ok, keeps, reject_if_Ok, Z.ltb_ge, mret_inj_iff. tauto. Qed.
Lemma revoke_link_iff l c t : link_ok l -> revoke_authenticator l c = Ok t <->
  expected_version c = 1 /\ l_state l = Active /\ (l_linked_at l <= occurred_at c)%Z /\
  t = existing_transition l (mk_PrincipalAuthenticatorLink (l_tenant_id l) (l_authenticator_id l) (l_kind l) (l_source_id l) (l_principal_id l)
    (l_principal_binding_version l) 2 Revoked (l_linked_at l) (Some (occurred_at c))) c.
Proof.
  intros [_ Hl]. unfold revoke_authenticator, validate_revoke. rewrite !validated_Ok, !keeps, !reject_if_Ok, negb_false_iff, N.eqb_eq, Z.ltb_ge, result_bind_Ok.
  destruct (l_state l); [|split; [intros ((_ & [=] & _) & _)|intros (_ & [=] & _)]]. destruct Hl as [-> Hr].
  setoid_rewrite mret_inj_iff. unfold version_next, checked_add, u64_max. cbn. naive_solver.
Qed.
Lemma reachable_link_ok l : reachable l -> link_ok l.
Proof.
  induction 1 as [b kind source a request at_ t Hb (_ & _ & ->)%link_iff|l c t Hr IH Ht]; [by split|].
  apply revoke_link_iff in Ht as (_ & _ & Hle & ->); [|done]. destruct IH as [IH _]. split; [exact IH|]. cbn. split; [done|]. by eexists.
Qed.
Lemma identity_matches e d : matches_snapshot_identity e d = true <->
  e_tenant_id e = d_tenant_id d /\ e_authenticator_id e = d_authenticator_id d /\ e_authenticator_kind e = d_kind d /\
  e_principal_id e = d_principal_id d /\ e_principal_binding_version e = d_principal_binding_version d /\
  e_source_commitment e = source_commitment_derive (d_tenant_id d) (d_kind d) (d_source_id d).
Proof. unfold matches_snapshot_identity. rewrite !andb_true_iff, !bool_decide_eq_true, N.eqb_eq. tauto. Qed.

Lemma short_fields t k s : short t s -> Forall (fun v => len v <= u64_max) (source_fields AUTHENTICATOR_ID_DOMAIN t k s).
Proof.
  intros [Ht Hs]. assert (forall x, len (as_bytes x) = byte_len x) as Hlen.
  { intros x. unfold len, byte_len, as_bytes. f_equal. induction x as [|a x IH]; cbn; [done|]. by rewrite <- IH. }
  unfold source_fields, AUTHENTICATOR_ID_DOMAIN. rewrite !Forall_cons, !Hlen. unfold u64_max. split_and!; try (lia || done). destruct k; vm_compute; discriminate.
Qed.

(** ** Properties *)

(** Evidence is exact and current.  It validates against a link and a binding exactly
    when both are active, the link is that of this binding at this version, and the evidence
    is a copy of the link; so evidence of a revoked link, or of a binding that has moved on,
    validates against nothing, and building evidence succeeds just when it would validate. *)
Theorem evidence_exact v l b :
  (evidence_validate_against v l b = Ok tt <-> authenticates v l b) /\
  (rehydrate_against v l b = Ok v <-> authenticates v l b) /\
  (from_active_link l b = Ok v <-> authenticates v l b).
Proof.
  assert (forall w, evidence_validate_against w l b = Ok tt <-> authenticates w l b) as Hw.
  { intros w. unfold evidence_validate_against, aggregates_are_exact_and_active, matches_link, authenticates.
    rewrite reject_if_Ok, orb_false_iff, !negb_false_iff, !andb_true_iff, !bool_decide_eq_true, !N.eqb_eq. destruct w. cbn. split.
    - intros H0. destruct_and!. split_and!; try done. f_equal; done.
    - intros (? & ? & ? & ? & ? & [= -> -> -> -> -> -> ->]). by split_and!. }
  split; [apply Hw|]. split.
  - unfold rehydrate_against. rewrite validated_Ok, Hw, mret_inj_iff. tauto.
  - unfold from_active_link. cbv zeta. rewrite validated_Ok, Hw, mret_inj_iff. unfold authenticates. naive_solver.
Qed.

(** Every accepted command on a reachable link emits an event that validates against
    the snapshot it leaves and against no other link of the command, and the link it leaves is
    read back from that snapshot as itself. *)
Theorem link_event_validates l c t (Hl : reachable l) (Ht : revoke_authenticator l c = Ok t) :
  rehydrate (snapshot (link t)) = Ok (link t) /\ event_validate_against (event t) (snapshot (link t)) = Ok tt /\
  event_rehydrate (event t) = Ok (event t) /\ previous_snapshot t = Some (snapshot l) /\
  event_validate_against (event t) (snapshot l) = Err InvalidEvent /\ (forall c', is_ok (revoke_authenticator (link t) c') = false).
Proof.
  pose proof (reachable_link_ok _ (reachable_revoke _ _ _ Hl Ht)) as Hok. apply reachable_link_ok in Hl as Hlok.
  split; [by apply link_rehydrate_iff|]. pose proof (proj2 (link_snapshot_Ok _) Hok) as Hs.
  assert (l_state (link t) = Revoked) as Hst by (by apply revoke_link_iff in Ht as (_ & _ & _ & ->)).
  assert (forall c', is_ok (revoke_authenticator (link t) c') = false) as Hdead.
  { intros c'. destruct (revoke_authenticator (link t) c') as [t'|] eqn:Ht'; [|done]. apply revoke_link_iff in Ht' as (_ & Hn & _); [|done]. congruence. }
  apply revoke_link_iff in Ht as (_ & Ha & _ & ->); [|done]. cbn [link event previous_snapshot existing_transition] in *.
  unfold event_validate_against. rewrite Hs. cbn [mbind result_bind]. split_and!; try done.
  - rewrite reject_if_Ok, orb_false_iff, !negb_false_iff. split; [by apply identity_matches|].
    unfold matches_snapshot_lifecycle. cbn. by rewrite !bool_decide_eq_true_2.
  - rewrite (proj2 (link_snapshot_Ok l) Hlok). unfold matches_snapshot_lifecycle. cbn [e_version e_kind event_of d_version snapshot d_state].
    destruct Hlok as [_ Hlok]. rewrite Ha in Hlok. destruct Hlok as [-> _]. cbn. by rewrite orb_true_r.
Qed.

(** The derived identity of an authenticator is a valid identity of its own, and tells
    tenants, kinds and sources apart: equal identities have equal origins, or their encodings
    are two different messages that the hash function does not tell apart. *)
Theorem authenticator_identity_distinct t k s t' k' s' (Hs : short t s) (Hs' : short t' s')
    (He : authenticator_id_derive t k s = authenticator_id_derive t' k' s') :
  authenticator_id_parse (authenticator_str (authenticator_id_derive t k s)) = Ok (authenticator_id_derive t k s) /\
  ((t, k, s) = (t', k', s') \/
   PrincipalBinding.collision (append_fields (source_fields AUTHENTICATOR_ID_DOMAIN t k s)) (append_fields (source_fields AUTHENTICATOR_ID_DOMAIN t' k' s'))).
Proof.
  split; [apply lower_hex_parses|]. injection He as He. apply lower_hex_inj in He. unfold source_digest in He.
  destruct (decide (append_fields (source_fields AUTHENTICATOR_ID_DOMAIN t k s) = append_fields (source_fields AUTHENTICATOR_ID_DOMAIN t' k' s'))) as [Hm|Hn]; [|by right].
  left. apply append_fields_inj in Hm; [|done|by apply short_fields|by apply short_fields]. injection Hm as H1 H2 H3.
  apply as_bytes_inj in H1, H2, H3. destruct t, t', s, s'. cbn in *. subst. destruct k, k'; done.
Qed.
End hashed.

(** *** Witnesses, with a concrete hash *)

Lemma sample_link_reachable : @reachable PrincipalBinding.sample_hash sample_link.
Proof.
  refine (@reachable_link PrincipalBinding.sample_hash PrincipalBinding.sample_binding SessionFamily sample_source (MkId "a") (MkId "r") 15%Z
    (mk_PrincipalAuthenticatorTransition _ _ _ _) (@PrincipalBinding.active_reachable PrincipalBinding.sample_hash PrincipalBinding.sample_identity 10%Z) _).
  reflexivity.
Defined.
Lemma link_event_validates_witness : exists t,
  @revoke_authenticator PrincipalBinding.sample_hash sample_link (mk_PrincipalAuthenticatorCommand 1 (MkId "a") (MkId "r") 20%Z) = Ok t /\
  @rehydrate PrincipalBinding.sample_hash (snapshot (link t)) = Ok (link t).
Proof.
  eexists. split; [reflexivity|].
  exact (proj1 (@link_event_validates PrincipalBinding.sample_hash sample_link (mk_PrincipalAuthenticatorCommand 1 (MkId "a") (MkId "r") 20%Z) _ sample_link_reachable eq_refl)).
Defined.
Lemma authenticator_identity_distinct_witness :
  authenticator_id_parse (authenticator_str (@authenticator_id_derive PrincipalBinding.sample_hash (MkId "t") SessionFamily sample_source)) =
    Ok (@authenticator_id_derive PrincipalBinding.sample_hash (MkId "t") SessionFamily sample_source).
Proof.
  assert (short (MkId "t") sample_source) as Hs by (split; vm_compute; discriminate).
  exact (proj1 (@authenticator_identity_distinct PrincipalBinding.sample_hash (MkId "t") SessionFamily sample_source (MkId "t") SessionFamily sample_source Hs Hs eq_refl)).
Defined.
