(* ===== verification/AuditDomain.v ===== *)
(** * Audit events

    Models [crates/optional/ariadnion-audit-domain/src]: [error.rs], [ids.rs] and [model.rs]:
    immutable security events, the canonical bytes that an event's chain digest covers, and the
    construction and reconstruction of events. *)

From Stdlib Require Import Ascii.
From Stdlib Require Strings.Byte.
From S2P Require Import Prelude CoreTypes Identity Encoding.
From S2P Require UserDomain.
#[local] Open Scope N_scope.

(** ** Errors and identities ([error.rs], [ids.rs]) *)

Inductive AuditErrorCode := InvalidArgument | SequenceExhausted | DigestMismatch | UnsupportedVersion.
Definition as_str (code : AuditErrorCode) : string :=
  match code with
  | InvalidArgument => "AUDIT_INVALID_ARGUMENT"
  | SequenceExhausted => "AUDIT_SEQUENCE_EXHAUSTED"
  | DigestMismatch => "AUDIT_DIGEST_MISMATCH"
  | UnsupportedVersion => "AUDIT_UNSUPPORTED_VERSION"
  end.
Notation outcome := (result AuditErrorCode).

Notation UtcTimestamp := UserDomain.UtcTimestamp.
Notation AuditEventId := (Id CoreTypes.AuditEventKind).
Definition MAX_IDENTIFIER_BYTES : N := 128.
Definition is_identifier_byte (b : ascii) : bool :=
  is_ascii_alphanumeric b || Ascii.eqb b "."%char || Ascii.eqb b "-"%char || Ascii.eqb b "_"%char.
Definition valid_identifier (value : string) : bool :=
  negb (is_empty value) && (byte_len value <=? MAX_IDENTIFIER_BYTES) && is_ascii value && all_bytes is_identifier_byte value.
Definition event_id_parse (value : string) : outcome AuditEventId :=
  if negb (valid_identifier value) then Err InvalidArgument else Ok (MkId value).

(** [AuditSequence]: a non-zero 64-bit integer. *)
Definition sequence_initial : N := 1.
Definition sequence_new (value : N) : outcome N := if value =? 0 then Err InvalidArgument else Ok value.
Definition sequence_next (s : N) : outcome N := ok_or (checked_add u64_max s 1) SequenceExhausted.

(** ** Events ([model.rs]) *)

Definition MAX_REASON_BYTES : N := 64.
Definition MAX_PAYLOAD_BYTES : N := 64 * 1024.
Definition PAYLOAD_DOMAIN : list Byte.byte := as_bytes "ariadnion.audit.payload.v1" ++ [Byte.x00].
Definition AUDIT_CHAIN_DIGEST_VERSION : N := 2.
Definition CHAIN_DOMAIN : list Byte.byte := as_bytes "ariadnion.audit.chain.v2" ++ [Byte.x00].

Inductive AuditSubjectKind :=
| User | Organization | Invitation | SessionFamily | ApiKey | PasswordReset | PrincipalAuthenticator | Administration.
#[export] Instance AuditSubjectKind_eq_dec : EqDecision AuditSubjectKind.
Proof. solve_decision. Defined.
Inductive AuditEventKind := Issued | Consumed | Rotated | Revoked | Expired | ReuseDetected | Administered.
#[export] Instance AuditEventKind_eq_dec : EqDecision AuditEventKind.
Proof. solve_decision. Defined.
Record AuditSubject := mk_AuditSubject { subject_kind : AuditSubjectKind; subject_digest : digest }.
#[export] Instance AuditSubject_eq_dec : EqDecision AuditSubject.
Proof. solve_decision. Defined.

Record AuditEvent := mk_AuditEvent {
  e_id : AuditEventId; e_tenant_id : TenantId; e_actor : PrincipalId; e_occurred_at : UtcTimestamp; e_sequence : N;
  e_kind : AuditEventKind; e_subject : AuditSubject; e_reason_code : string; e_payload_digest : digest;
  e_previous_chain_digest : option digest; e_chain_digest_version : N; e_chain_digest : digest;
}.
#[export] Instance AuditEvent_eq_dec : EqDecision AuditEvent.
Proof. solve_decision. Defined.
Record AuditEventBinding := mk_AuditEventBinding {
  b_id : AuditEventId; b_tenant_id : TenantId; b_actor : PrincipalId; b_occurred_at : UtcTimestamp; b_sequence : N;
}.
Record AuditEventContent := mk_AuditEventContent {
  c_kind : AuditEventKind; c_subject : AuditSubject; c_reason_code : string; c_payload_digest : digest;
  c_previous_chain_digest : option digest;
}.
Record AuditEventRequest := mk_AuditEventRequest { binding : AuditEventBinding; content : AuditEventContent }.

Definition valid_reason_byte (b : ascii) : bool := is_ascii_uppercase b || is_ascii_digit b || Ascii.eqb b "_"%char.
Definition valid_reason_bounds (value : string) : bool :=
  negb (is_empty value) && (byte_len value <=? MAX_REASON_BYTES) && is_ascii value.
Definition valid_reason_code (value : string) : bool := valid_reason_bounds value && all_bytes valid_reason_byte value.
Definition parse_reason_code (value : string) : outcome string :=
  if negb (valid_reason_code value) then Err InvalidArgument else Ok value.
Definition content_new (kind : AuditEventKind) (subject : AuditSubject) (reason_code : string) (payload_digest : digest)
    (previous_chain_digest : option digest) : outcome AuditEventContent :=
  reason ← parse_reason_code reason_code;
  mret (mk_AuditEventContent kind subject reason payload_digest previous_chain_digest).

Definition kind_label (kind : AuditEventKind) : string :=
  match kind with
  | Issued => "issued" | Consumed => "consumed" | Rotated => "rotated" | Revoked => "revoked" | Expired => "expired"
  | ReuseDetected => "reuse_detected" | Administered => "administered"
  end.
Inductive TerminalSubjectKind := TerminalPrincipalAuthenticator | TerminalAdministration.
Definition from_audit_kind (kind : AuditSubjectKind) : TerminalSubjectKind :=
  if bool_decide (kind = PrincipalAuthenticator) then TerminalPrincipalAuthenticator else TerminalAdministration.
Definition terminal_subject_kind_label (kind : TerminalSubjectKind) : string :=
  match kind with TerminalPrincipalAuthenticator => "principal_authenticator" | TerminalAdministration => "administration" end.
Definition subject_kind_label (kind : AuditSubjectKind) : string :=
  match kind with
  | User => "user" | Organization => "organization" | Invitation => "invitation" | SessionFamily => "session_family"
  | ApiKey => "api_key" | PasswordReset => "password_reset"
  | PrincipalAuthenticator | Administration => terminal_subject_kind_label (from_audit_kind kind)
  end.
Definition domain_separated_digest `{Sha256} (domain value : list Byte.byte) : digest := sha256 (domain ++ value).
Definition from_payload `{Sha256} (payload : list Byte.byte) : outcome digest :=
  if MAX_PAYLOAD_BYTES <? len payload then Err InvalidArgument else Ok (domain_separated_digest PAYLOAD_DOMAIN payload).

Record ChainDigestMaterial := mk_ChainDigestMaterial {
  m_id : AuditEventId; m_tenant_id : TenantId; m_actor : PrincipalId; m_occurred_at : UtcTimestamp; m_sequence : N;
  m_kind : AuditEventKind; m_subject : AuditSubject; m_reason_code : string; m_payload_digest : digest;
  m_previous_chain_digest : option digest;
}.
Definition from_request (r : AuditEventRequest) : ChainDigestMaterial :=
  let (b, c) := (binding r, content r) in
  mk_ChainDigestMaterial (b_id b) (b_tenant_id b) (b_actor b) (b_occurred_at b) (b_sequence b) (c_kind c) (c_subject c)
    (c_reason_code c) (c_payload_digest c) (c_previous_chain_digest c).
Definition material_from_event (e : AuditEvent) : ChainDigestMaterial :=
  mk_ChainDigestMaterial (e_id e) (e_tenant_id e) (e_actor e) (e_occurred_at e) (e_sequence e) (e_kind e) (e_subject e)
    (e_reason_code e) (e_payload_digest e) (e_previous_chain_digest e).
(** [bytes.push(0)] after each of the fields but the last. *)
Definition chain_fields (m : ChainDigestMaterial) : list (list Byte.byte) := [
  as_bytes (id_str (m_id m)); as_bytes (id_str (m_tenant_id m)); as_bytes (id_str (m_actor m));
  i64_to_be_bytes (m_occurred_at m); u64_to_be_bytes (m_sequence m); as_bytes (kind_label (m_kind m));
  as_bytes (subject_kind_label (subject_kind (m_subject m))); vec_to_list (subject_digest (m_subject m));
  as_bytes (m_reason_code m); vec_to_list (m_payload_digest m) ].
Definition chain_material (m : ChainDigestMaterial) : list Byte.byte :=
  foldl (fun bytes field => bytes ++ field ++ [Byte.x00]) [] (chain_fields m)
    ++ match m_previous_chain_digest m with
       | Some previous => vec_to_list previous
       | None => vec_to_list (vreplicate 32 Byte.x00 : digest)
       end.
Definition compute_chain_digest `{Sha256} (m : ChainDigestMaterial) : digest :=
  domain_separated_digest CHAIN_DOMAIN (chain_material m).
Definition recompute_chain_digest `{Sha256} (e : AuditEvent) : digest := compute_chain_digest (material_from_event e).

Definition build_audit_event `{Sha256} (r : AuditEventRequest) : outcome AuditEvent :=
  let chain_digest := compute_chain_digest (from_request r) in
  let (b, c) := (binding r, content r) in
  Ok (mk_AuditEvent (b_id b) (b_tenant_id b) (b_actor b) (b_occurred_at b) (b_sequence b) (c_kind c) (c_subject c)
    (c_reason_code c) (c_payload_digest c) (c_previous_chain_digest c) AUDIT_CHAIN_DIGEST_VERSION chain_digest).
Definition rehydrate_audit_event `{Sha256} (r : AuditEventRequest) (declared_chain_digest_version : N)
    (declared_chain_digest : digest) : outcome AuditEvent :=
  if negb (declared_chain_digest_version =? AUDIT_CHAIN_DIGEST_VERSION) then Err UnsupportedVersion
  else
    event ← build_audit_event r;
    if bool_decide (e_chain_digest event <> declared_chain_digest) then Err DigestMismatch else Ok event.

(** ** Specification *)

(** What the constructors of the values of an event guarantee. *)
Definition material_ok (m : ChainDigestMaterial) : Prop :=
  event_id_parse (id_str (m_id m)) = Ok (m_id m) /\
  context_id_parse TenantKind (id_str (m_tenant_id m)) = Ok (m_tenant_id m) /\
  context_id_parse PrincipalKind (id_str (m_actor m)) = Ok (m_actor m) /\
  (i64_min <= m_occurred_at m <= i64_max)%Z /\ m_sequence m <= u64_max /\
  parse_reason_code (m_reason_code m) = Ok (m_reason_code m).
Definition event_ok (e : AuditEvent) : Prop := material_ok (material_from_event e).
(** The request that persists an event. *)
Definition request_of (e : AuditEvent) : AuditEventRequest :=
  mk_AuditEventRequest (mk_AuditEventBinding (e_id e) (e_tenant_id e) (e_actor e) (e_occurred_at e) (e_sequence e))
    (mk_AuditEventContent (e_kind e) (e_subject e) (e_reason_code e) (e_payload_digest e) (e_previous_chain_digest e)).
(** What is hashed. *)
Definition chain_message (e : AuditEvent) : list Byte.byte := CHAIN_DOMAIN ++ chain_material (material_from_event e).
(** The bytes a missing predecessor stands for. *)
Definition previous_bytes (p : option digest) : digest := default (vreplicate 32 Byte.x00) p.
(** A field without the separator. *)
Definition separable (field : list Byte.byte) : Prop := Byte.x00 ∉ field.

(** ** Lemmas: separated fields *)

Lemma as_bytes_separable p s : all_bytes p s = true -> p Ascii.zero = false -> separable (as_bytes s).
Proof.
  unfold separable, all_bytes, as_bytes. intros Hs Hp. induction s as [|a s IH]; cbn in *; [by intros ?%elem_of_nil|].
  apply andb_true_iff in Hs as [Ha Hs]. rewrite elem_of_cons. intros [H0|H0]; [|by apply IH].
  apply (f_equal ascii_of_byte) in H0. rewrite ascii_of_byte_of_ascii in H0. cbn in H0. subst a. fold Ascii.zero in Ha. congruence.
Qed.
Lemma separator_inj f g r r' : separable f -> separable g -> f ++ Byte.x00 :: r = g ++ Byte.x00 :: r' -> f = g /\ r = r'.
Proof.
  unfold separable. revert g. induction f as [|x f IH]; intros [|y g]; cbn; rewrite ?elem_of_cons.
  - by intros _ _ [= ->].
  - intros _ Hg [= <- _]. exfalso. tauto.
  - intros Hf _ [= -> _]. exfalso. tauto.
  - intros Hf Hg [= -> H1]. apply IH in H1 as [-> ->]; tauto.
Qed.
Lemma separated_from acc fields : foldl (fun bytes field => bytes ++ field ++ [Byte.x00]) acc fields =
  acc ++ foldr (fun field rest => field ++ Byte.x00 :: rest) [] fields.
Proof.
  revert acc. induction fields as [|f fields IH]; intros acc; cbn; [by rewrite app_nil_r|]. rewrite IH. by rewrite <- !app_assoc.
Qed.
Lemma separated_inj fs gs r r' : Forall2 (fun f g => (separable f /\ separable g) \/ length f = length g) fs gs ->
  foldr (fun field rest => field ++ Byte.x00 :: rest) [] fs ++ r = foldr (fun field rest => field ++ Byte.x00 :: rest) [] gs ++ r' -> fs = gs /\ r = r'.
Proof.
  induction 1 as [|f g fs gs Hfg _ IH]; cbn; [done|]. rewrite <- !app_assoc. cbn. intros He.
  assert (f = g /\ foldr (fun field rest => field ++ Byte.x00 :: rest) [] fs ++ r = foldr (fun field rest => field ++ Byte.x00 :: rest) [] gs ++ r') as [-> H].
  { destruct Hfg as [[Hf Hg]|Hl]; [by apply separator_inj|]. by apply app_inj_1 in He as [-> [= H]]. }
  by apply IH in H as [-> ->].
Qed.

(** ** Lemmas: the material of the chain *)

Lemma valid_fields m : material_ok m -> separable (as_bytes (id_str (m_id m))) /\ separable (as_bytes (id_str (m_tenant_id m))) /\
  separable (as_bytes (id_str (m_actor m))) /\ separable (as_bytes (m_reason_code m)).
Proof.
  assert (forall k value, context_id_parse k value = Ok (MkId value) -> separable (as_bytes value)) as Hcontext.
  { intros k v H. unfold context_id_parse, validate_common_id, validate_id_alphabet in H. rewrite !validated_Ok, !reject_if_Ok in H. destruct H as [(_ & _ & H) _].
    apply (as_bytes_separable (fun a => negb (is_disallowed_id_byte a))); [|done]. unfold all_bytes, any_byte in *. clear -H.
    induction (Stdlib.Strings.String.list_ascii_of_string v) as [|a l IH]; cbn in *; [done|]. apply orb_false_iff in H as [-> H]. by rewrite IH. }
  intros (H1 & H2 & H3 & _ & _ & H4). split_and!.
  - unfold event_id_parse, valid_identifier in H1. destruct (all_bytes is_identifier_byte _) eqn:Hb; [|by rewrite andb_false_r in H1].
    by apply (as_bytes_separable is_identifier_byte).
  - destruct (m_tenant_id m). by apply (Hcontext TenantKind).
  - destruct (m_actor m). by apply (Hcontext PrincipalKind).
  - unfold parse_reason_code, valid_reason_code in H4. destruct (all_bytes valid_reason_byte _) eqn:Hb; [|by rewrite andb_false_r in H4].
    by apply (as_bytes_separable valid_reason_byte).
Qed.
Lemma label_separable k : separable (as_bytes (kind_label k)).
Proof. apply (as_bytes_separable (fun a => negb (byte a =? 0))); by destruct k. Qed.
Lemma subject_label_separable k : separable (as_bytes (subject_kind_label k)).
Proof. apply (as_bytes_separable (fun a => negb (byte a =? 0))); by destruct k. Qed.
Lemma kind_label_inj k k' : kind_label k = kind_label k' -> k = k'.
Proof. by destruct k, k'. Qed.
Lemma subject_kind_label_inj k k' : subject_kind_label k = subject_kind_label k' -> k = k'.
Proof. by destruct k, k'. Qed.
Lemma id_str_inj {k} (i j : Id k) : id_str i = id_str j -> i = j.
Proof. destruct i, j. cbn. by intros ->. Qed.
Lemma chain_material_inj m m' : material_ok m -> material_ok m' -> chain_material m = chain_material m' ->
  previous_bytes (m_previous_chain_digest m) = previous_bytes (m_previous_chain_digest m') /\
  m' = mk_ChainDigestMaterial (m_id m) (m_tenant_id m) (m_actor m) (m_occurred_at m) (m_sequence m) (m_kind m) (m_subject m)
    (m_reason_code m) (m_payload_digest m) (m_previous_chain_digest m').
Proof.
  intros Hm Hm' He. pose proof (valid_fields m Hm) as (H1 & H2 & H3 & H4). pose proof (valid_fields m' Hm') as (H1' & H2' & H3' & H4').
  unfold chain_material in He. rewrite !separated_from in He. cbn [app] in He. apply separated_inj in He as [Hf Hp].
  - split.
    + apply vec_to_list_inj2. unfold previous_bytes. by destruct (m_previous_chain_digest m), (m_previous_chain_digest m').
    + destruct Hm as (_ & _ & _ & Ht & Hs & _), Hm' as (_ & _ & _ & Ht' & Hs' & _). unfold chain_fields in Hf.
      pose proof (fun n => f_equal (fun l => nth n l []) Hf) as E. pose proof (E 0%nat) as E1. pose proof (E 1%nat) as E2. pose proof (E 2%nat) as E3.
      pose proof (E 3%nat) as E4. pose proof (E 4%nat) as E5. pose proof (E 5%nat) as E6. pose proof (E 6%nat) as E7. pose proof (E 7%nat) as E8.
      pose proof (E 8%nat) as E9. pose proof (E 9%nat) as E10. cbn [nth] in E1, E2, E3, E4, E5, E6, E7, E8, E9, E10. clear E.
      apply as_bytes_inj, id_str_inj in E1, E2, E3. apply i64_to_be_bytes_inj in E4; [|done|done]. apply u64_to_be_bytes_inj in E5; [|done|done].
      apply as_bytes_inj, kind_label_inj in E6. apply as_bytes_inj, subject_kind_label_inj in E7. apply vec_to_list_inj2 in E8, E10. apply as_bytes_inj in E9.
      destruct m as [? ? ? ? ? ? [] ? ? ?], m' as [? ? ? ? ? ? [] ? ? ?]. cbn in *. by subst.
  - unfold chain_fields. rewrite !Forall2_cons. split_and!; try apply Forall2_nil_2; try (by left); try (right; by rewrite ?length_i64, ?length_u64, ?length_vec_to_list);
      left; split; (apply label_separable || apply subject_label_separable).
Qed.

(** ** Properties *)

Section hashed.
Context `{Sha256}.

(** Reconstruction is exact.  A stored request, version and digest are accepted
    exactly when the version is the supported one and the digest is that of the
    event's own material, and then the event is the one the request builds; every event that was
    built is reconstructed from its own fields as itself. *)
Theorem audit_event_exact r version declared e :
  (rehydrate_audit_event r version declared = Ok e <->
     version = 2 /\ declared = recompute_chain_digest e /\ request_of e = r /\ e_chain_digest_version e = 2 /\
     e_chain_digest e = recompute_chain_digest e) /\
  (built ← build_audit_event r; rehydrate_audit_event (request_of built) (e_chain_digest_version built) (e_chain_digest built)) = build_audit_event r.
Proof.
  assert (build_audit_event r = Ok e <-> request_of e = r /\ e_chain_digest_version e = 2 /\ e_chain_digest e = recompute_chain_digest e) as Hb.
  { split.
    - destruct r as [[] []]. unfold build_audit_event. cbn. intros ->%Ok_inj_iff. done.
    - intros (<- & Hv & Hd). unfold build_audit_event. apply Ok_inj_iff. destruct e. cbn in *. rewrite Hv. f_equal. exact Hd. }
  split.
  - unfold rehydrate_audit_event. change AUDIT_CHAIN_DIGEST_VERSION with 2. destruct (N.eqb_spec version 2) as [->|Hv]; cbn [negb]; [|split; [done|by intros [? _]]].
    rewrite result_bind_Ok. split.
    + intros (e0 & H0 & H1). case_bool_decide as Hd; [done|]. apply Ok_inj_iff in H1 as ->. apply Hb in H0 as (? & ? & H2). by rewrite <- Hd, <- H2.
    + intros (_ & -> & He). exists e. split; [by apply Hb|]. destruct He as (_ & _ & ->). by rewrite bool_decide_eq_false_2 by (intros H0; by apply H0).
  - destruct (build_audit_event r) as [b|] eqn:Hr; [|done]. cbn [mbind result_bind]. clear Hb e. assert (request_of b = r /\ e_chain_digest_version b = 2) as [-> Hv].
    { destruct r as [[] []]. unfold build_audit_event in Hr. cbn in Hr. by apply Ok_inj_iff in Hr as ->. }
    unfold rehydrate_audit_event. rewrite Hv. change (negb (2 =? AUDIT_CHAIN_DIGEST_VERSION)) with false. cbn iota.
    rewrite Hr. cbn. by rewrite bool_decide_eq_false_2 by (intros H0; by apply H0).
Qed.

End hashed.

(** A missing predecessor and one of 32 zero bytes have the same material. *)
Example missing_predecessor_is_zero m :
  chain_material (mk_ChainDigestMaterial (m_id m) (m_tenant_id m) (m_actor m) (m_occurred_at m) (m_sequence m) (m_kind m) (m_subject m)
    (m_reason_code m) (m_payload_digest m) None) =
  chain_material (mk_ChainDigestMaterial (m_id m) (m_tenant_id m) (m_actor m) (m_occurred_at m) (m_sequence m) (m_kind m) (m_subject m)
    (m_reason_code m) (m_payload_digest m) (Some (vreplicate 32 Byte.x00))).
Proof. reflexivity. Qed.
