(* ===== verification/AuditStore.v ===== *)
(** * Audit logs

    Models [crates/optional/ariadnion-audit-store/src]: [error.rs] and [store.rs]: the head of a
    tenant's chain, the verification of snapshots and pages, the append of one event, and the
    export of an exact range.  A client of [AuditDomain]. *)

From S2P Require Import Prelude CoreTypes Identity Encoding.
From S2P Require AuditDomain.
#[local] Existing Instances AuditDomain.AuditEvent_eq_dec.
#[local] Open Scope N_scope.

(** ** Errors ([error.rs]) *)

Inductive AuditStoreErrorCode :=
| InvalidArgument | TenantMismatch | SequenceGap | ChainBreak | DuplicateEvent | EmptyRange | DigestMismatch | ResourceLimitExceeded
| UnsupportedVersion | IncompleteRange.
Definition AUDIT_STORE_ERROR_CODES : list string := [
  "AUDIT_STORE_INVALID_ARGUMENT"; "AUDIT_STORE_TENANT_MISMATCH"; "AUDIT_STORE_SEQUENCE_GAP"; "AUDIT_STORE_CHAIN_BREAK";
  "AUDIT_STORE_DUPLICATE_EVENT"; "AUDIT_STORE_EMPTY_RANGE"; "AUDIT_STORE_DIGEST_MISMATCH"; "AUDIT_STORE_RESOURCE_LIMIT_EXCEEDED";
  "AUDIT_STORE_UNSUPPORTED_VERSION"; "AUDIT_STORE_INCOMPLETE_RANGE" ].
Definition error_index (code : AuditStoreErrorCode) : nat :=
  match code with
  | InvalidArgument => 0 | TenantMismatch => 1 | SequenceGap => 2 | ChainBreak => 3 | DuplicateEvent => 4 | EmptyRange => 5
  | DigestMismatch => 6 | ResourceLimitExceeded => 7 | UnsupportedVersion => 8 | IncompleteRange => 9
  end.
(** Indexing out of range would panic, hence the option. *)
Definition as_str (code : AuditStoreErrorCode) : option string := AUDIT_STORE_ERROR_CODES !! error_index code.
Notation outcome := (result AuditStoreErrorCode).

(** ** Heads, cursors and snapshots ([store.rs]) *)

Notation AuditEvent := AuditDomain.AuditEvent.
Definition MAX_AUDIT_EXPORT_EVENTS : N := 1024.
Definition MAX_AUDIT_EXPORT_SPAN : N := MAX_AUDIT_EXPORT_EVENTS.
Definition MAX_AUDIT_SNAPSHOT_EVENTS : N := 1024.

Record AuditChainHead := mk_AuditChainHead {
  h_tenant_id : TenantId; h_last_sequence : option N; h_chain_digest_version : option N; h_chain_digest : option digest;
}.
Definition head_empty (tenant_id : TenantId) : AuditChainHead := mk_AuditChainHead tenant_id None None None.
Definition validate_declared_version (version : N) : outcome unit :=
  reject_if (negb (version =? AuditDomain.AUDIT_CHAIN_DIGEST_VERSION)) UnsupportedVersion.
Definition validate_event_digest `{Sha256} (event : AuditEvent) : outcome unit :=
  validate_declared_version (AuditDomain.e_chain_digest_version event) ;;
  reject_if (bool_decide (AuditDomain.recompute_chain_digest event <> AuditDomain.e_chain_digest event)) DigestMismatch.
Definition from_event `{Sha256} (event : AuditEvent) : outcome AuditChainHead :=
  validate_event_digest event ;;
  mret (mk_AuditChainHead (AuditDomain.e_tenant_id event) (Some (AuditDomain.e_sequence event))
    (Some (AuditDomain.e_chain_digest_version event)) (Some (AuditDomain.e_chain_digest event))).
Definition validate_head_boundary (tenant_id : TenantId) (last_sequence chain_digest_version : N) (chain_digest : digest)
    (boundary_event : AuditEvent) : outcome unit :=
  reject_if (bool_decide (AuditDomain.e_tenant_id boundary_event <> tenant_id)) TenantMismatch ;;
  reject_if (negb (AuditDomain.e_sequence boundary_event =? last_sequence)
    || negb (AuditDomain.e_chain_digest_version boundary_event =? chain_digest_version)
    || bool_decide (AuditDomain.e_chain_digest boundary_event <> chain_digest)) ChainBreak.
Definition head_rehydrate `{Sha256} (tenant_id : TenantId) (last_sequence chain_digest_version : N) (chain_digest : digest)
    (boundary_event : AuditEvent) : outcome AuditChainHead :=
  validate_declared_version chain_digest_version ;;
  validate_event_digest boundary_event ;;
  validate_head_boundary tenant_id last_sequence chain_digest_version chain_digest boundary_event ;;
  mret (mk_AuditChainHead tenant_id (Some last_sequence) (Some chain_digest_version) (Some chain_digest)).
Definition next_sequence (h : AuditChainHead) : outcome N :=
  match h_last_sequence h with
  | Some sequence => match AuditDomain.sequence_next sequence with Ok next => Ok next | Err _ => Err InvalidArgument end
  | None => Ok AuditDomain.sequence_initial
  end.
Definition advanced (h : AuditChainHead) (event : AuditEvent) : AuditChainHead :=
  mk_AuditChainHead (h_tenant_id h) (Some (AuditDomain.e_sequence event)) (Some (AuditDomain.e_chain_digest_version event))
    (Some (AuditDomain.e_chain_digest event)).

Record AuditExportCursor := mk_AuditExportCursor { start : N; end_inclusive : N }.
Definition validate_export_span (first last : N) : outcome unit :=
  span ← ok_or (value ← checked_sub last first; checked_add u64_max value 1) EmptyRange;
  reject_if (MAX_AUDIT_EXPORT_SPAN <? span) InvalidArgument.
Definition through (first last : N) : outcome AuditExportCursor :=
  validate_export_span first last ;; mret (mk_AuditExportCursor first last).
Definition cursor_new (first end_exclusive : N) : outcome AuditExportCursor :=
  reject_if (end_exclusive <=? first) EmptyRange ;;
  last ← ok_or (value ← checked_sub end_exclusive 1; match AuditDomain.sequence_new value with Ok s => Some s | Err _ => None end) InvalidArgument;
  through first last.
Definition end_exclusive (c : AuditExportCursor) : option N :=
  match AuditDomain.sequence_next (end_inclusive c) with Ok s => Some s | Err _ => None end.

Record AuditLogSnapshot := mk_AuditLogSnapshot { s_tenant_id : TenantId; s_events : list AuditEvent }.
Definition snapshot_empty (tenant_id : TenantId) : AuditLogSnapshot := mk_AuditLogSnapshot tenant_id [].
Definition tip (s : AuditLogSnapshot) : option AuditEvent := last (s_events s).

(** ** Verification *)

Definition validate_batch_size (event_count : N) : outcome unit :=
  reject_if (MAX_AUDIT_SNAPSHOT_EVENTS <? event_count) ResourceLimitExceeded.
Definition validate_chain_head (h : AuditChainHead) : outcome unit :=
  match h_last_sequence h, h_chain_digest_version h, h_chain_digest h with
  | None, None, None => Ok tt
  | Some _, Some version, Some _ => validate_declared_version version
  | _, _, _ => Err InvalidArgument
  end.
Definition validate_event_tenant (tenant_id : TenantId) (event : AuditEvent) : outcome unit :=
  reject_if (bool_decide (AuditDomain.e_tenant_id event <> tenant_id)) TenantMismatch.
Definition validate_event_sequence (h : AuditChainHead) (event : AuditEvent) : outcome unit :=
  next ← next_sequence h;
  reject_if (negb (AuditDomain.e_sequence event =? next)) SequenceGap.
Definition validate_previous_digest (h : AuditChainHead) (event : AuditEvent) : outcome unit :=
  reject_if (bool_decide (AuditDomain.e_previous_chain_digest event <> h_chain_digest h)) ChainBreak.
Definition verify_audit_event `{Sha256} (h : AuditChainHead) (event : AuditEvent) : outcome AuditChainHead :=
  validate_event_tenant (h_tenant_id h) event ;;
  validate_event_sequence h event ;;
  validate_previous_digest h event ;;
  validate_event_digest event ;;
  mret (advanced h event).
(** The loop over the page, with the identities it has inserted so far. *)
Fixpoint verify_events `{Sha256} (next : AuditChainHead) (event_ids : gset AuditDomain.AuditEventId) (events : list AuditEvent)
    : outcome AuditChainHead :=
  match events with
  | [] => Ok next
  | event :: rest =>
      if bool_decide (AuditDomain.e_id event ∈ event_ids) then Err DuplicateEvent
      else
        next' ← verify_audit_event next event;
        verify_events next' ({[AuditDomain.e_id event]} ∪ event_ids) rest
  end.
Definition verify_audit_batch `{Sha256} (h : AuditChainHead) (events : list AuditEvent) : outcome AuditChainHead :=
  validate_batch_size (len events) ;;
  validate_chain_head h ;;
  verify_events h ∅ events.
Definition verify_audit_chain `{Sha256} (s : AuditLogSnapshot) : outcome unit :=
  verify_audit_batch (head_empty (s_tenant_id s)) (s_events s) ;; mret tt.
Definition from_events `{Sha256} (tenant_id : TenantId) (events : list AuditEvent) : outcome AuditLogSnapshot :=
  validate_batch_size (len events) ;;
  let s := mk_AuditLogSnapshot tenant_id events in
  verify_audit_chain s ;; mret s.

(** ** Append and export *)

Definition validate_append_capacity (current : AuditLogSnapshot) : outcome unit :=
  reject_if (MAX_AUDIT_SNAPSHOT_EVENTS <=? len (s_events current)) ResourceLimitExceeded.
Definition validate_new_event_id (current : AuditLogSnapshot) (event : AuditEvent) : outcome unit :=
  reject_if (existsb (fun existing => bool_decide (AuditDomain.e_id existing = AuditDomain.e_id event)) (s_events current)) DuplicateEvent.
Definition snapshot_chain_head `{Sha256} (s : AuditLogSnapshot) : outcome AuditChainHead :=
  match tip s with
  | Some event => from_event event
  | None => Ok (head_empty (s_tenant_id s))
  end.
Definition append_audit_event `{Sha256} (current : AuditLogSnapshot) (event : AuditEvent) : outcome AuditLogSnapshot :=
  validate_append_capacity current ;;
  validate_event_tenant (s_tenant_id current) event ;;
  validate_new_event_id current event ;;
  h ← snapshot_chain_head current;
  _ ← verify_audit_batch h [event];
  mret (mk_AuditLogSnapshot (s_tenant_id current) (s_events current ++ [event])).

Definition validate_export_coverage (events : list AuditEvent) (cursor : AuditExportCursor) : outcome unit :=
  match head events, last events with
  | Some first, Some last =>
      reject_if (negb (AuditDomain.e_sequence first =? start cursor) || negb (AuditDomain.e_sequence last =? end_inclusive cursor)) IncompleteRange
  | _, _ => Err EmptyRange
  end.
Definition in_cursor (cursor : AuditExportCursor) (event : AuditEvent) : bool :=
  (start cursor <=? AuditDomain.e_sequence event) && (AuditDomain.e_sequence event <=? end_inclusive cursor).
Definition export_audit_range `{Sha256} (s : AuditLogSnapshot) (cursor : AuditExportCursor) : outcome (list AuditEvent) :=
  verify_audit_chain s ;;
  let exported := List.filter (in_cursor cursor) (s_events s) in
  validate_export_coverage exported cursor ;;
  mret exported.
Definition export_audit_batch `{Sha256} (h : AuditChainHead) (events : list AuditEvent) (cursor : AuditExportCursor)
    : outcome (list AuditEvent) :=
  _ ← verify_audit_batch h events;
  validate_export_coverage events cursor ;;
  mret events.

(** ** Specification *)

(** A run of events that continues the chain at a head: each has the tenant, the next sequence
    and the digest of its predecessor, and authenticates its own material. *)
Definition links `{Sha256} (h : AuditChainHead) (e : AuditEvent) : Prop :=
  AuditDomain.e_tenant_id e = h_tenant_id h /\ next_sequence h = Ok (AuditDomain.e_sequence e) /\
  AuditDomain.e_previous_chain_digest e = h_chain_digest h /\ AuditDomain.e_chain_digest_version e = 2 /\
  AuditDomain.recompute_chain_digest e = AuditDomain.e_chain_digest e.
Inductive chained `{Sha256} : AuditChainHead -> list AuditEvent -> AuditChainHead -> Prop :=
| chained_nil h : chained h [] h
| chained_cons h e rest h' : links h e -> chained (advanced h e) rest h' -> chained h (e :: rest) h'.
Definition unique_ids (events : list AuditEvent) : Prop := NoDup (AuditDomain.e_id <$> events).
Definition collision `{Sha256} (m m' : list Byte.byte) : Prop := m <> m' /\ sha256 m = sha256 m'.
(** The head that a tenant's first events leave. *)
Definition head_of (t : TenantId) (events : list AuditEvent) : AuditChainHead :=
  match last events with
  | None => head_empty t
  | Some e => mk_AuditChainHead t (Some (len events)) (Some 2) (Some (AuditDomain.e_chain_digest e))
  end.
(** The events of the sequences from [first] to [last] of a log that starts at 1. *)
Definition page (events : list AuditEvent) (first last : N) : list AuditEvent :=
  take (N.to_nat (last + 1 - first)) (drop (N.to_nat (first - 1)) events).

Definition sample_hash : Sha256 := fun m => vreplicate 32 (byte_of (foldr (fun b n => 31 * n + Byte.to_N b) 7 m)).
Definition sample_request (sequence : N) (previous : option digest) : AuditDomain.AuditEventRequest :=
  AuditDomain.mk_AuditEventRequest (AuditDomain.mk_AuditEventBinding (MkId (if sequence =? 1 then "a" else "b")) (MkId "t") (MkId "p") 10%Z sequence)
    (AuditDomain.mk_AuditEventContent AuditDomain.Issued (AuditDomain.mk_AuditSubject AuditDomain.User (sample_digest Byte.x01)) "REASON"
      (sample_digest Byte.x02) previous).
Definition sample_built (r : AuditDomain.AuditEventRequest) : AuditEvent :=
  match @AuditDomain.build_audit_event sample_hash r with
  | Ok e => e
  | Err _ => AuditDomain.mk_AuditEvent (MkId "") (MkId "") (MkId "") 0%Z 0 AuditDomain.Issued (AuditDomain.mk_AuditSubject AuditDomain.User (sample_digest Byte.x00)) ""
      (sample_digest Byte.x00) None 0 (sample_digest Byte.x00)
  end.
Definition sample_first : AuditEvent := sample_built (sample_request 1 None).
Definition sample_second : AuditEvent := sample_built (sample_request 2 (Some (AuditDomain.e_chain_digest sample_first))).
Definition sample_log : AuditLogSnapshot := mk_AuditLogSnapshot (MkId "t") [sample_first].

(** ** Lemmas *)

Section hashed.
Context `{Sha256}.

Lemma event_digest_Ok e : validate_event_digest e = Ok tt <->
  AuditDomain.e_chain_digest_version e = 2 /\ AuditDomain.recompute_chain_digest e = AuditDomain.e_chain_digest e.
Proof. unfold validate_event_digest, validate_declared_version. rewrite validated_Ok, keeps, reject_if_Ok, negb_false_iff, N.eqb_eq. done. Qed.
Lemma verify_event_Ok h e h' : verify_audit_event h e = Ok h' <-> links h e /\ h' = advanced h e.
Proof.
  unfold verify_audit_event, validate_event_tenant, validate_event_sequence, validate_previous_digest, links.
  rewrite !validated_Ok, !keeps, event_digest_Ok, mret_inj_iff, result_bind_Ok. setoid_rewrite reject_if_Ok.
  assert ((exists a, next_sequence h = Ok a /\ negb (AuditDomain.e_sequence e =? a) = false) <-> next_sequence h = Ok (AuditDomain.e_sequence e)) as ->; [|tauto].
  split; [intros (a & Ha & He); apply negb_false_iff, N.eqb_eq in He; congruence|]. intros Ha. eexists. split; [exact Ha|]. by rewrite N.eqb_refl.
Qed.
Lemma verify_events_Ok h seen events h' : verify_events h seen events = Ok h' <->
  chained h events h' /\ unique_ids events /\ (forall e, e ∈ events -> AuditDomain.e_id e ∉ seen).
Proof.
  unfold unique_ids. revert h seen. induction events as [|e rest IH]; intros h seen; cbn [verify_events].
  - rewrite Ok_inj_iff. split; [intros ->; split_and!; [constructor|constructor|by intros e ?%elem_of_nil]|]. intros (Hc & _). by inversion Hc.
  - rewrite fmap_cons, NoDup_cons. case_bool_decide as Hin.
    + split; [done|]. intros (_ & _ & Hf). exfalso. by eapply Hf; [left|].
    + rewrite result_bind_Ok. setoid_rewrite verify_event_Ok. setoid_rewrite IH. split.
      * intros (h1 & [Hl ->] & Hc & Hn & Hf). split_and!; [by constructor| |done|].
        -- rewrite list_elem_of_fmap. intros (x & Hx & Hi). apply (Hf _ Hi). rewrite <- Hx. set_solver.
        -- intros x [->|Hi]%elem_of_cons; [done|]. specialize (Hf _ Hi). set_solver.
      * intros (Hc & [He Hn] & Hf). inversion Hc; subst. eexists. split; [by split|]. split_and!; [done|done|].
        intros x Hi [Hx%elem_of_singleton|Hx]%elem_of_union; [|by eapply Hf; [right|]]. apply He. rewrite <- Hx. by apply list_elem_of_fmap_2.
Qed.
Lemma verify_batch_Ok h events h' : verify_audit_batch h events = Ok h' <->
  len events <= 1024 /\ validate_chain_head h = Ok tt /\ unique_ids events /\ chained h events h'.
Proof.
  unfold verify_audit_batch, validate_batch_size. rewrite !validated_Ok, reject_if_Ok, verify_events_Ok, N.ltb_ge. change MAX_AUDIT_SNAPSHOT_EVENTS with 1024.
  split; [tauto|]. intros (? & ? & ? & ?). by split_and!.
Qed.
Lemma chained_app h a b h'' : chained h (a ++ b) h'' <-> exists h', chained h a h' /\ chained h' b h''.
Proof.
  revert h. induction a as [|e a IH]; intros h; cbn [app].
  - split; [intros Hc; eexists; split; [constructor|done]|]. intros (h' & Hc & Hb). by inversion Hc; subst.
  - split.
    + inversion 1 as [|? ? ? ? Hl Hc]; subst. apply IH in Hc as (h' & Ha & Hb). exists h'. split; [by constructor|done].
    + intros (h' & Ha & Hb). inversion Ha as [|? ? ? ? Hl Hc]; subst. constructor; [done|]. apply IH. by exists h'.
Qed.
Lemma chained_one h e h' : chained h [e] h' <-> links h e /\ h' = advanced h e.
Proof.
  split; [|intros [Hl ->]; constructor; [done|apply chained_nil]]. inversion 1 as [|? ? ? ? Hl Hc]; subst. by inversion Hc.
Qed.
Lemma chained_head t events h : chained (head_empty t) events h -> h = head_of t events.
Proof.
  revert h. induction events as [|e events IH] using rev_ind; intros h; [by inversion 1|]. rewrite chained_app. intros (h1 & Hc & [(Ht & Hs & _ & Hv & _) ->]%chained_one).
  apply IH in Hc as ->. unfold head_of in *. rewrite last_snoc. unfold advanced. rewrite Hv. f_equal.
  - by destruct (last events).
  - f_equal. unfold next_sequence in Hs. unfold len. rewrite length_app. destruct (last events) eqn:Hl; cbn in Hs.
    + unfold AuditDomain.sequence_next in Hs. destruct (checked_add _ _ _) as [s|] eqn:Ha; [|done]. cbn in Hs. apply Ok_inj_iff in Hs as ->.
      apply checked_add_Some in Ha as [-> _]. unfold len. cbn. lia.
    + apply last_None in Hl as ->. apply Ok_inj_iff in Hs as ->. done.
Qed.
Lemma head_of_valid t events : validate_chain_head (head_of t events) = Ok tt.
Proof. unfold head_of. by destruct (last events). Qed.
Lemma verify_chain_Ok s : verify_audit_chain s = Ok tt <->
  len (s_events s) <= 1024 /\ unique_ids (s_events s) /\ chained (head_empty (s_tenant_id s)) (s_events s) (head_of (s_tenant_id s) (s_events s)).
Proof.
  unfold verify_audit_chain. rewrite result_bind_Ok. setoid_rewrite verify_batch_Ok. split.
  - intros (h & (Hl & _ & Hu & Hc) & _). pose proof (chained_head _ _ _ Hc) as ->. done.
  - intros (Hl & Hu & Hc). by eexists.
Qed.
(** The sequences of a log are its positions. *)
Lemma chained_sequences t events h i e : chained (head_empty t) events h -> events !! i = Some e -> AuditDomain.e_sequence e = N.of_nat i + 1.
Proof.
  intros Hc Hi. rewrite <- (take_drop_middle _ _ _ Hi) in Hc. apply chained_app in Hc as (h1 & Ha & Hb). pose proof (chained_head _ _ _ Ha) as ->.
  inversion Hb as [|? ? ? ? (_ & Hs & _) _]; subst. apply lookup_lt_Some in Hi. unfold next_sequence, head_of in Hs. destruct (last (take i events)) eqn:Hl; cbn in Hs.
  - unfold AuditDomain.sequence_next in Hs. destruct (checked_add _ _ _) as [s|] eqn:Ha'; [|done]. cbn in Hs. apply Ok_inj_iff in Hs as ->.
    apply checked_add_Some in Ha' as [-> _]. unfold len. rewrite length_take. lia.
  - apply last_None in Hl. apply (f_equal length) in Hl. rewrite length_take in Hl. cbn in Hl. apply Ok_inj_iff in Hs as ->. unfold AuditDomain.sequence_initial. lia.
Qed.
Lemma head_sequence t events e : next_sequence (head_of t events) = Ok (AuditDomain.e_sequence e) -> AuditDomain.e_sequence e = len events + 1.
Proof.
  unfold next_sequence, head_of. destruct (last events) eqn:Hl; cbn.
  - unfold AuditDomain.sequence_next. destruct (checked_add _ _ _) as [s|] eqn:Ha; [|done]. cbn. intros ->%Ok_inj_iff. by apply checked_add_Some in Ha as [-> _].
  - apply last_None in Hl as ->. by intros ->%Ok_inj_iff.
Qed.
Lemma head_digest t events : h_chain_digest (head_of t events) = AuditDomain.e_chain_digest <$> last events.
Proof. unfold head_of. by destruct (last events). Qed.
(** Two authenticated events with the same digest have the same material, up to the encoding of
    their predecessors, or collide. *)
Lemma same_digest e e' : AuditDomain.event_ok e -> AuditDomain.event_ok e' ->
  AuditDomain.recompute_chain_digest e = AuditDomain.recompute_chain_digest e' ->
  collision (AuditDomain.chain_message e) (AuditDomain.chain_message e') \/
  (AuditDomain.material_from_event e' = AuditDomain.mk_ChainDigestMaterial (AuditDomain.e_id e) (AuditDomain.e_tenant_id e) (AuditDomain.e_actor e)
     (AuditDomain.e_occurred_at e) (AuditDomain.e_sequence e) (AuditDomain.e_kind e) (AuditDomain.e_subject e) (AuditDomain.e_reason_code e)
     (AuditDomain.e_payload_digest e) (AuditDomain.e_previous_chain_digest e') /\
   AuditDomain.previous_bytes (AuditDomain.e_previous_chain_digest e) = AuditDomain.previous_bytes (AuditDomain.e_previous_chain_digest e')).
Proof.
  intros He He' Hd. destruct (decide (AuditDomain.chain_message e = AuditDomain.chain_message e')) as [Hm|Hn]; [|by left; split].
  right. apply app_inv_head in Hm. apply AuditDomain.chain_material_inj in Hm as [Hp Hm]; [|done|done]. split; [|exact Hp]. rewrite Hm. reflexivity.
Qed.
Lemma chains_agree t t' es es' h h' : chained (head_empty t) es h -> chained (head_empty t') es' h' -> Forall AuditDomain.event_ok es -> Forall AuditDomain.event_ok es' ->
  h_chain_digest h = h_chain_digest h' ->
  es = es' \/ exists e e', e ∈ es /\ e' ∈ es' /\ collision (AuditDomain.chain_message e) (AuditDomain.chain_message e').
Proof.
  revert es' h h'. induction es as [|e es IH] using rev_ind; intros es' h h' Hc Hc' Hok Hok' Hd; pose proof (chained_head _ _ _ Hc) as ->; pose proof (chained_head _ _ _ Hc') as ->.
  { rewrite !head_digest in Hd. cbn in Hd. left. by destruct (last es') eqn:Hl; [|apply last_None in Hl as ->]. }
  rewrite !head_digest, last_snoc in Hd. destruct es' as [|e' es' _] using rev_ind; [done|]. rewrite last_snoc in Hd. injection Hd as Hd.
  apply Forall_app in Hok as [Hok [Hoke _]%Forall_cons], Hok' as [Hok' [Hoke' _]%Forall_cons].
  apply chained_app in Hc as (h1 & Hc & [(Ht & Hs & Hp & Hv & Hr) _]%chained_one). apply chained_app in Hc' as (h1' & Hc' & [(Ht' & Hs' & Hp' & Hv' & Hr') _]%chained_one).
  pose proof (chained_head _ _ _ Hc) as ->. pose proof (chained_head _ _ _ Hc') as ->.
  destruct (same_digest e e') as [Hcol|[Hm Hb]]; [done|done|congruence| |].
  { right. exists e, e'. rewrite !elem_of_app, !elem_of_cons. tauto. }
  apply head_sequence in Hs, Hs'. assert (AuditDomain.e_sequence e = AuditDomain.e_sequence e') as Hseq.
  { apply (f_equal AuditDomain.m_sequence) in Hm. by cbn in Hm. }
  assert (AuditDomain.e_previous_chain_digest e = AuditDomain.e_previous_chain_digest e') as Hprev.
  { rewrite Hp, Hp', !head_digest in *. unfold len in *. destruct (last es) eqn:Hl, (last es') eqn:Hl'; cbn in Hb |- *; try done.
    - by rewrite Hb.
    - apply last_None in Hl' as ->. destruct es; cbn in *; [done|lia].
    - apply last_None in Hl as ->. destruct es'; cbn in *; [done|lia]. }
  destruct (IH es' _ _ Hc Hc' Hok Hok') as [->|(x & x' & Hx & Hx' & Hcol)]; [congruence| |].
  - left. do 2 f_equal. clear -Hm Hv Hv' Hprev Hd. destruct e, e'. cbn in *. injection Hm. intros. subst. by f_equal.
  - right. exists x, x'. rewrite !elem_of_app. tauto.
Qed.
Lemma events_prefix s e : from_events (s_tenant_id s) (s_events s ++ [e]) = Ok (mk_AuditLogSnapshot (s_tenant_id s) (s_events s ++ [e])) <->
  len (s_events s ++ [e]) <= 1024 /\ unique_ids (s_events s ++ [e]) /\ chained (head_empty (s_tenant_id s)) (s_events s ++ [e]) (head_of (s_tenant_id s) (s_events s ++ [e])).
Proof.
  unfold from_events, validate_batch_size. rewrite !validated_Ok, reject_if_Ok, verify_chain_Ok, mret_inj_iff, N.ltb_ge. cbn. change MAX_AUDIT_SNAPSHOT_EVENTS with 1024. tauto.
Qed.

(** ** Properties *)

(** C28: tamper evidence.  Two verified logs with the same final digest, of any tenants, are
    the same log, or two of their events, one of each, are a collision of the
    hash function: no event can be changed, added, removed or reordered under a kept digest. *)
Theorem tamper_evidence t t' es es' h h' (Hv : verify_audit_batch (head_empty t) es = Ok h) (Hv' : verify_audit_batch (head_empty t') es' = Ok h')
  (Hok : Forall AuditDomain.event_ok es) (Hok' : Forall AuditDomain.event_ok es') (Hd : h_chain_digest h = h_chain_digest h') :
  es = es' \/ exists e e', e ∈ es /\ e' ∈ es' /\ collision (AuditDomain.chain_message e) (AuditDomain.chain_message e').
Proof. apply verify_batch_Ok in Hv as (_ & _ & _ & Hc), Hv' as (_ & _ & _ & Hc'). by eapply chains_agree. Qed.

(** The append agrees with the verification of the whole log.  On a verified log an event
    is appended exactly when the extended list of events verifies from the start, and the result is
    that list; so logs that grow by appends always verify. *)
Theorem append_exact s e s' (Hs : verify_audit_chain s = Ok tt) :
  append_audit_event s e = Ok s' <-> from_events (s_tenant_id s) (s_events s ++ [e]) = Ok s'.
Proof.
  apply verify_chain_Ok in Hs as (Hlen & Hu & Hc).
  assert (snapshot_chain_head s = Ok (head_of (s_tenant_id s) (s_events s))) as Hhead.
  { unfold snapshot_chain_head, tip, head_of. destruct (s_events s) as [|x l _] eqn:He using rev_ind; [done|]. rewrite last_snoc. rewrite chained_app in Hc.
    destruct Hc as (h1 & Ha & [(Ht & Hq & _ & Hv & Hr) _]%chained_one). pose proof (chained_head _ _ _ Ha) as ->. unfold from_event.
    apply validated_Ok. split; [by apply event_digest_Ok|]. apply mret_inj_iff. rewrite Hv, Ht. apply head_sequence in Hq. rewrite Hq. unfold len. rewrite length_app. cbn.
    unfold head_of. destruct (last l); cbn; do 2 f_equal; lia. }
  assert (from_events (s_tenant_id s) (s_events s ++ [e]) = Ok s' <-> s' = mk_AuditLogSnapshot (s_tenant_id s) (s_events s ++ [e]) /\
    from_events (s_tenant_id s) (s_events s ++ [e]) = Ok (mk_AuditLogSnapshot (s_tenant_id s) (s_events s ++ [e]))) as ->.
  { unfold from_events. rewrite !validated_Ok, !mret_inj_iff. tauto. }
  rewrite events_prefix. unfold append_audit_event, validate_append_capacity, validate_event_tenant, validate_new_event_id.
  rewrite !validated_Ok, keeps, !reject_if_Ok, Hhead, N.leb_gt. cbn [mbind result_bind]. rewrite result_bind_Ok. setoid_rewrite verify_batch_Ok. setoid_rewrite mret_inj_iff.
  setoid_rewrite chained_one. setoid_rewrite chained_app. setoid_rewrite chained_one. change MAX_AUDIT_SNAPSHOT_EVENTS with 1024.
  unfold unique_ids. rewrite fmap_app, NoDup_app. unfold len at 1 3. rewrite length_app.
  assert (existsb (fun existing => bool_decide (AuditDomain.e_id existing = AuditDomain.e_id e)) (s_events s) = false <-> AuditDomain.e_id e ∉ AuditDomain.e_id <$> s_events s) as ->.
  { rewrite <- not_true_iff_false, existsb_exists, list_elem_of_fmap. setoid_rewrite bool_decide_eq_true. setoid_rewrite <- list_elem_of_In. naive_solver. }
  split.
  - intros (Hn & Ht & Hi & h & (_ & _ & _ & Hl & ->) & ->). split_and!; try done; [unfold len in *; cbn; lia| |apply NoDup_singleton|].
    + intros x Hx ->%list_elem_of_singleton. done.
    + exists (head_of (s_tenant_id s) (s_events s)). split_and!; [done|done|]. symmetry. apply chained_head. apply chained_app. eexists. split; [exact Hc|]. by apply chained_one.
  - intros (-> & Hn & (_ & Hi & _) & h & Hc' & Hl & _). pose proof (chained_head _ _ _ Hc') as ->. split_and!; [unfold len in *; cbn in *; lia| | |].
    + destruct Hl as (Ht & _). rewrite Ht. unfold head_of. by destruct (last _).
    + intros Hx. eapply Hi; [exact Hx|]. by apply list_elem_of_singleton.
    + eexists. split; [|done]. split_and!; [unfold len; cbn; lia|apply head_of_valid|apply NoDup_singleton|exact Hl|done].
Qed.
(** Filtering a log by its sequences is slicing it by its positions. *)
Lemma filter_page t events h cursor : chained (head_empty t) events h -> 1 <= start cursor ->
  List.filter (in_cursor cursor) events = page events (start cursor) (end_inclusive cursor).
Proof.
  intros Hc Hs. unfold page. assert (forall i e, events !! i = Some e -> in_cursor cursor e = (start cursor <=? N.of_nat i + 1) && (N.of_nat i + 1 <=? end_inclusive cursor)) as Hin.
  { intros i e Hi. unfold in_cursor. by rewrite (chained_sequences _ _ _ _ _ Hc Hi). }
  clear Hc. revert Hin. generalize (end_inclusive cursor) as last. destruct (start cursor) as [|p] eqn:Hp; [lia|]. rewrite <- Hp in *. clear Hp p. revert Hs. generalize (start cursor) as first.
  intros first Hs last Hin.
  rewrite <- (take_drop (N.to_nat (first - 1)) events) at 1. rewrite <- (take_drop (N.to_nat (last + 1 - first)) (drop (N.to_nat (first - 1)) events)) at 1.
  rewrite !List.filter_app. assert (forall l (b : bool), (forall i e, l !! i = Some e -> in_cursor cursor e = b) -> List.filter (in_cursor cursor) l = if b then l else []) as Hall.
  { intros l b. induction l as [|x l IH]; intros Hl; [by destruct b|]. cbn. rewrite (Hl 0%nat x) by done. rewrite IH by (intros i e Hi; by apply (Hl (S i))). by destruct b. }
  rewrite (Hall (take _ events) false), (Hall (take _ (drop _ _)) true), (Hall (drop _ (drop _ _)) false); [by rewrite app_nil_r| | |].
  - intros i e Hi. rewrite !lookup_drop in Hi. rewrite (Hin _ _ Hi). apply andb_false_iff. right. apply N.leb_gt. lia.
  - intros i e Hi. apply lookup_take_Some in Hi as [Hi Hl]. rewrite lookup_drop in Hi. rewrite (Hin _ _ Hi), andb_true_iff, !N.leb_le. lia.
  - intros i e Hi. apply lookup_take_Some in Hi as [Hi Hl]. rewrite (Hin _ _ Hi). apply andb_false_iff. left. apply N.leb_gt. lia.
Qed.
Lemma page_coverage t events h cursor : chained (head_empty t) events h -> 1 <= start cursor -> start cursor <= end_inclusive cursor ->
  validate_export_coverage (page events (start cursor) (end_inclusive cursor)) cursor = Ok tt <-> end_inclusive cursor <= len events.
Proof.
  intros Hc Hs Hle. set (shown := page events (start cursor) (end_inclusive cursor)).
  assert (forall i, shown !! i = if decide (i < N.to_nat (end_inclusive cursor + 1 - start cursor))%nat then events !! (N.to_nat (start cursor - 1) + i)%nat else None) as Hshown.
  { intros i. unfold shown, page. case_decide; [by rewrite lookup_take_lt, lookup_drop by done|]. apply lookup_take_ge. lia. }
  assert (length shown = Nat.min (N.to_nat (end_inclusive cursor + 1 - start cursor)) (length events - N.to_nat (start cursor - 1))) as Hlen.
  { unfold shown, page. rewrite length_take, length_drop. lia. }
  unfold validate_export_coverage. rewrite head_lookup, last_lookup. unfold len. split.
  - destruct (shown !! 0%nat) as [e|] eqn:He; [|done]. destruct (shown !! Nat.pred (length shown)) as [e'|] eqn:He'; [|done].
    rewrite reject_if_Ok, orb_false_iff, !negb_false_iff, !N.eqb_eq. intros [_ Hq]. rewrite Hshown in He'. case_decide; [|done].
    rewrite (chained_sequences _ _ _ _ _ Hc He') in Hq. apply lookup_lt_Some in He'. lia.
  - intros Hn. rewrite !Hshown. rewrite !decide_True by lia. destruct (lookup_lt_is_Some_2 events (N.to_nat (start cursor - 1) + 0)) as [e He]; [lia|].
    destruct (lookup_lt_is_Some_2 events (N.to_nat (start cursor - 1) + Nat.pred (length shown))) as [e' He']; [lia|]. rewrite He, He'.
    rewrite (chained_sequences _ _ _ _ _ Hc He), (chained_sequences _ _ _ _ _ Hc He'), reject_if_Ok, orb_false_iff, !negb_false_iff, !N.eqb_eq. lia.
Qed.

(** An export is exact.  On a verified log, an export of the sequences from [first] to
    [last] succeeds exactly when the log reaches [last], and gives exactly the
    events of these sequences, in order and none missing; a longer or an inverted range is refused. *)
Theorem export_exact s first last events (Hs : verify_audit_chain s = Ok tt) (Hf : 1 <= first <= u64_max) (Hl : last <= u64_max) :
  (cursor ← through first last; export_audit_range s cursor) = Ok events <->
  first <= last /\ last < first + 1024 /\ last <= len (s_events s) /\ events = page (s_events s) first last.
Proof.
  pose proof Hs as (_ & _ & Hc)%verify_chain_Ok. rewrite result_bind_Ok.
  assert (validate_export_span first last = Ok tt <-> first <= last /\ last < first + 1024) as Hspan.
  { unfold validate_export_span. rewrite result_bind_Ok. setoid_rewrite ok_or_Ok. setoid_rewrite reject_if_Ok. setoid_rewrite N.ltb_ge. change MAX_AUDIT_EXPORT_SPAN with 1024. split.
    - intros (span & Hsp & Hle). apply bind_Some in Hsp as (v & [-> Hv]%checked_sub_Some & [-> _]%checked_add_Some). lia.
    - intros [Hle Hlt]. exists (last - first + 1). split; [|lia]. apply bind_Some. exists (last - first). split; [by apply checked_sub_Some|]. apply checked_add_Some. lia. }
  assert (forall cursor, through first last = Ok cursor <-> (first <= last /\ last < first + 1024) /\ cursor = mk_AuditExportCursor first last) as Hthrough.
  { intros cursor. unfold through. by rewrite validated_Ok, mret_inj_iff, Hspan. }
  assert (forall r, export_audit_range s (mk_AuditExportCursor first last) = Ok r <->
    validate_export_coverage (List.filter (in_cursor (mk_AuditExportCursor first last)) (s_events s)) (mk_AuditExportCursor first last) = Ok tt /\
    r = List.filter (in_cursor (mk_AuditExportCursor first last)) (s_events s)) as Hexport.
  { intros r. unfold export_audit_range. rewrite !validated_Ok, mret_inj_iff. tauto. }
  rewrite (filter_page _ _ _ (mk_AuditExportCursor first last) Hc) in Hexport by (cbn; lia). split.
  - intros (cursor & [Hsp ->]%Hthrough & [Hcov ->]%Hexport). apply (page_coverage _ _ _ (mk_AuditExportCursor first last) Hc) in Hcov; cbn in *; [tauto|lia|lia].
  - intros (Hle & Hlt & Hn & ->). exists (mk_AuditExportCursor first last). split; [by apply Hthrough|]. apply Hexport. split; [|done]. apply (page_coverage _ _ _ (mk_AuditExportCursor first last) Hc); cbn; lia.
Qed.

(** Verification page by page is verification.  A run of events verifies from a head to another
    exactly when its parts do, each from the head that the part before it left, given that it is
    within the bound of one page and that the parts share no identity. *)
Theorem pages_compose h a b h' :
  verify_audit_batch h (a ++ b) = Ok h' <->
  len (a ++ b) <= 1024 /\ (forall e e', e ∈ a -> e' ∈ b -> AuditDomain.e_id e <> AuditDomain.e_id e') /\
  exists middle, verify_audit_batch h a = Ok middle /\ verify_audit_batch middle b = Ok h'.
Proof.
  setoid_rewrite verify_batch_Ok. rewrite chained_app. unfold unique_ids. rewrite fmap_app, NoDup_app. setoid_rewrite list_elem_of_fmap.
  assert (forall h1 m, validate_chain_head h1 = Ok tt -> chained h1 a m -> validate_chain_head m = Ok tt) as Hvalid.
  { intros h1 m Hh Hc. destruct a as [|e l _] using rev_ind; [by inversion Hc; subst|]. apply chained_app in Hc as (h2 & _ & [(_ & _ & _ & Hv & _) ->]%chained_one).
    unfold validate_chain_head, advanced. cbn. by rewrite Hv. }
  unfold len. rewrite length_app. split.
  - intros (Hn & Hh & (Ha & Hd & Hb) & m & Hca & Hcb). split_and!; [done| |].
    + intros e e' He He' Hid. apply (Hd (AuditDomain.e_id e)); [by exists e|by exists e'].
    + exists m. split_and!; try done; [lia|lia|by eapply Hvalid].
  - intros (Hn & Hd & m & (_ & Hh & Ha & Hca) & (_ & _ & Hb & Hcb)). split_and!; try done; [|by exists m].
    intros x (e & -> & He) (e' & Hid & He'). by apply (Hd e e').
Qed.
(** A head is read back exactly as its boundary event leaves it. *)
Lemma head_rehydrate_exact t n v d e h : head_rehydrate t n v d e = Ok h <-> from_event e = Ok h /\ h = mk_AuditChainHead t (Some n) (Some v) (Some d).
Proof.
  unfold head_rehydrate, from_event, validate_head_boundary, validate_declared_version. rewrite !validated_Ok, keeps, !reject_if_Ok, event_digest_Ok, !mret_inj_iff, !orb_false_iff, !negb_false_iff, !N.eqb_eq, bool_decide_eq_false.
  change AuditDomain.AUDIT_CHAIN_DIGEST_VERSION with 2. split.
  - intros (-> & [Hv Hr] & (<- & (<- & Hv') & Hd) & ->). apply dec_stable in Hd as <-. rewrite Hv. done.
  - intros ([[Hv Hr] Hh] & ->). injection Hh as -> -> -> ->. split_and!; try done. by intros Hn.
Qed.
End hashed.

(** *** Witnesses, with a concrete hash *)

Lemma tamper_evidence_witness :
  [sample_first] = [sample_first] \/ exists e e', e ∈ [sample_first] /\ e' ∈ [sample_first] /\
    @collision sample_hash (AuditDomain.chain_message e) (AuditDomain.chain_message e').
Proof.
  assert (Forall AuditDomain.event_ok [sample_first]) as Hok.
  { constructor; [|constructor]. vm_compute. split_and!; first [reflexivity|discriminate]. }
  refine (@tamper_evidence sample_hash (MkId "t") (MkId "t") [sample_first] [sample_first]
    (mk_AuditChainHead (MkId "t") (Some 1) (Some 2) (Some (AuditDomain.e_chain_digest sample_first)))
    (mk_AuditChainHead (MkId "t") (Some 1) (Some 2) (Some (AuditDomain.e_chain_digest sample_first))) _ _ Hok Hok eq_refl); vm_compute; reflexivity.
Defined.
Lemma append_exact_witness :
  @append_audit_event sample_hash sample_log sample_second = Ok (mk_AuditLogSnapshot (MkId "t") [sample_first; sample_second]) /\
  @from_events sample_hash (MkId "t") [sample_first; sample_second] = Ok (mk_AuditLogSnapshot (MkId "t") [sample_first; sample_second]).
Proof.
  assert (@verify_audit_chain sample_hash sample_log = Ok tt) as Hs by (vm_compute; reflexivity).
  assert (@append_audit_event sample_hash sample_log sample_second = Ok (mk_AuditLogSnapshot (MkId "t") [sample_first; sample_second])) as Ha by (vm_compute; reflexivity).
  exact (conj Ha (proj1 (@append_exact sample_hash sample_log sample_second _ Hs) Ha)).
Defined.
Lemma export_exact_witness : exists events,
  (cursor ← through 1 1; @export_audit_range sample_hash sample_log cursor) = Ok events /\ events = [sample_first].
Proof.
  eexists. assert (@verify_audit_chain sample_hash sample_log = Ok tt) as Hs by (vm_compute; reflexivity).
  split; [refine (proj2 (@export_exact sample_hash sample_log 1 1 _ Hs _ _) _); vm_compute; repeat split; try discriminate|vm_compute; reflexivity].
Defined.
