(* ===== verification/Password.v ===== *)
(** * Password admission and hashing

    Models [crates/optional/ariadnion-auth-password/src]: [error.rs], [secret.rs], [policy.rs] and
    [hash.rs]: the bounds of a plaintext, the denylist and the breach assessment that admit it,
    the structural checks of stored records, and hashing and verification within a budget.  The
    PHC parser and Argon2id are libraries: the classes [PhcParser] and [Argon2id], with what is
    used of their contract as the class [Argon2idLaw]. *)

From Stdlib Require Import Ascii.
From Stdlib Require Strings.Byte.
From S2P Require Import Prelude CoreTypes Identity Encoding.
#[local] Open Scope N_scope.

(** ** Errors ([error.rs]) *)

Inductive PasswordErrorCode :=
| InvalidLimits | Empty | TooShort | TooManyBytes | TooManyScalars | ContainsNul | ExplicitlyDenied | Compromised
| BreachCheckUnavailable | BreachAssessmentMismatch | TooManyDeniedFingerprints | DuplicateDeniedFingerprint
| InvalidBreachSourceVersion | InvalidHashParameters | InvalidHashRecord | HashVerificationBudgetExceeded | HashOperationFailed
| InvalidResetArgument | InvalidResetLifetime | InvalidResetEvidence | InvalidResetTime | ResetVersionConflict
| ResetVersionExhausted | ResetAlreadyConsumed | ResetRevoked | ResetExpired | ResetNotYetExpired | InvalidCredentialArgument
| CredentialVersionExhausted.
Definition ERROR_CODES : list string := [
  "PASSWORD_INVALID_LIMITS"; "PASSWORD_EMPTY"; "PASSWORD_TOO_SHORT"; "PASSWORD_TOO_MANY_BYTES"; "PASSWORD_TOO_MANY_SCALARS";
  "PASSWORD_CONTAINS_NUL"; "PASSWORD_EXPLICITLY_DENIED"; "PASSWORD_COMPROMISED"; "PASSWORD_BREACH_CHECK_UNAVAILABLE";
  "PASSWORD_BREACH_ASSESSMENT_MISMATCH"; "PASSWORD_TOO_MANY_DENIED_FINGERPRINTS"; "PASSWORD_DUPLICATE_DENIED_FINGERPRINT";
  "PASSWORD_INVALID_BREACH_SOURCE_VERSION"; "PASSWORD_INVALID_HASH_PARAMETERS"; "PASSWORD_INVALID_HASH_RECORD";
  "PASSWORD_HASH_VERIFICATION_BUDGET_EXCEEDED"; "PASSWORD_HASH_OPERATION_FAILED"; "PASSWORD_INVALID_RESET_ARGUMENT";
  "PASSWORD_INVALID_RESET_LIFETIME"; "PASSWORD_INVALID_RESET_EVIDENCE"; "PASSWORD_INVALID_RESET_TIME";
  "PASSWORD_RESET_VERSION_CONFLICT"; "PASSWORD_RESET_VERSION_EXHAUSTED"; "PASSWORD_RESET_ALREADY_CONSUMED";
  "PASSWORD_RESET_REVOKED"; "PASSWORD_RESET_EXPIRED"; "PASSWORD_RESET_NOT_YET_EXPIRED"; "PASSWORD_INVALID_CREDENTIAL_ARGUMENT";
  "PASSWORD_CREDENTIAL_VERSION_EXHAUSTED" ].
Definition error_index (code : PasswordErrorCode) : nat :=
  match code with
  | InvalidLimits => 0 | Empty => 1 | TooShort => 2 | TooManyBytes => 3 | TooManyScalars => 4 | ContainsNul => 5
  | ExplicitlyDenied => 6 | Compromised => 7 | BreachCheckUnavailable => 8 | BreachAssessmentMismatch => 9
  | TooManyDeniedFingerprints => 10 | DuplicateDeniedFingerprint => 11 | InvalidBreachSourceVersion => 12
  | InvalidHashParameters => 13 | InvalidHashRecord => 14 | HashVerificationBudgetExceeded => 15 | HashOperationFailed => 16
  | InvalidResetArgument => 17 | InvalidResetLifetime => 18 | InvalidResetEvidence => 19 | InvalidResetTime => 20
  | ResetVersionConflict => 21 | ResetVersionExhausted => 22 | ResetAlreadyConsumed => 23 | ResetRevoked => 24
  | ResetExpired => 25 | ResetNotYetExpired => 26 | InvalidCredentialArgument => 27 | CredentialVersionExhausted => 28
  end.
(** Indexing out of range would panic, hence the option. *)
Definition as_str (code : PasswordErrorCode) : option string := ERROR_CODES !! error_index code.
Notation outcome := (result PasswordErrorCode).

(** ** Plaintext ([secret.rs]) *)

Record PasswordLimits := mk_PasswordLimits { min_scalars : N; max_scalars : N; max_bytes : N }.
Definition limits_new (min max bytes : N) : outcome PasswordLimits :=
  if (min =? 0) || (max <? min) || (bytes <? max) then Err InvalidLimits else Ok (mk_PasswordLimits min max bytes).
Record PasswordSecret := mk_PasswordSecret { secret_bytes : list Byte.byte }.
(** [value.chars().count()]: the bytes of UTF-8 that start a scalar. *)
Definition scalar_count (value : string) : N :=
  len (List.filter (fun b => negb (in_range 128 191 (byte b))) (Stdlib.Strings.String.list_ascii_of_string value)).
Definition contains_nul (value : string) : bool := any_byte (fun b => byte b =? 0) value.
Definition validate_byte_length (value : string) (limits : PasswordLimits) : outcome unit :=
  reject_if (is_empty value) Empty ;;
  reject_if (max_bytes limits <? byte_len value) TooManyBytes.
Definition validate_scalars (value : string) (limits : PasswordLimits) : outcome unit :=
  reject_if (contains_nul value) ContainsNul ;;
  let count := scalar_count value in
  reject_if (count <? min_scalars limits) TooShort ;;
  reject_if (max_scalars limits <? count) TooManyScalars.
Definition secret_parse (value : string) (limits : PasswordLimits) : outcome PasswordSecret :=
  validate_byte_length value limits ;;
  validate_scalars value limits ;;
  mret (mk_PasswordSecret (as_bytes value)).

(** ** Admission ([policy.rs]) *)

Definition PasswordFingerprint := digest.
(** The derived order of the bytes. *)
#[export] Instance fingerprint_ord : Ord PasswordFingerprint :=
  fun x y => cmp (Stdlib.Strings.String.string_of_list_byte (vec_to_list x)) (Stdlib.Strings.String.string_of_list_byte (vec_to_list y)).
#[export] Instance fingerprint_eq_dec : EqDecision PasswordFingerprint.
Proof. unfold PasswordFingerprint, digest. apply _. Defined.
Definition fingerprint_from_secret `{Sha256} (secret : PasswordSecret) : PasswordFingerprint := sha256 (secret_bytes secret).
Inductive BreachStatus := NotCompromised | StatusCompromised | StatusUnavailable.
Record BreachAssessment := mk_BreachAssessment { a_fingerprint : PasswordFingerprint; a_status : BreachStatus; source_version : string }.
Definition MAX_SOURCE_VERSION_BYTES : N := 128.
Definition validate_source_version (value : string) : outcome unit :=
  reject_if (is_empty value || (MAX_SOURCE_VERSION_BYTES <? byte_len value) || negb (is_ascii value)) InvalidBreachSourceVersion.
Definition assessment_new (fingerprint : PasswordFingerprint) (status : BreachStatus) (version : string) : outcome BreachAssessment :=
  validate_source_version version ;; mret (mk_BreachAssessment fingerprint status version).
Record PasswordPolicy := mk_PasswordPolicy { limits : PasswordLimits; denied : list PasswordFingerprint }.
Definition MAX_DENIED_FINGERPRINTS : N := 4096.
Definition policy_new (bounds : PasswordLimits) (denied : list PasswordFingerprint) : outcome PasswordPolicy :=
  reject_if (MAX_DENIED_FINGERPRINTS <? len denied) TooManyDeniedFingerprints ;;
  let sorted := sort_by (fun f => f) denied in
  reject_if (adjacent_duplicate (fun f => f) sorted) DuplicateDeniedFingerprint ;;
  mret (mk_PasswordPolicy bounds sorted).
Definition require_assessment_binding (actual assessed : PasswordFingerprint) : outcome unit :=
  reject_if (negb (constant_time_digest_eq actual assessed)) BreachAssessmentMismatch.
Definition require_not_denied (fingerprint : PasswordFingerprint) (denied : list PasswordFingerprint) : outcome unit :=
  reject_if (bool_decide (is_Some (binary_search (fun f => cmp f fingerprint) denied))) ExplicitlyDenied.
Definition require_not_compromised (status : BreachStatus) : outcome unit :=
  match status with
  | NotCompromised => Ok tt
  | StatusCompromised => Err Compromised
  | StatusUnavailable => Err BreachCheckUnavailable
  end.
Definition admit_password `{Sha256} (value : string) (policy : PasswordPolicy) (assessment : BreachAssessment) : outcome PasswordSecret :=
  secret ← secret_parse value (limits policy);
  let fingerprint := fingerprint_from_secret secret in
  require_assessment_binding fingerprint (a_fingerprint assessment) ;;
  require_not_denied fingerprint (denied policy) ;;
  require_not_compromised (a_status assessment) ;;
  mret secret.

(** ** Records and hashing ([hash.rs]) *)

Definition MIN_MEMORY_KIB : N := 19456.
Definition MAX_MEMORY_KIB : N := 1048576.
Definition MIN_ITERATIONS : N := 1.
Definition MAX_ITERATIONS : N := 10.
Definition MIN_LANES : N := 1.
Definition MAX_LANES : N := 16.
Definition HASH_OUTPUT_BYTES : N := 32.
Definition SALT_BYTES : N := 16.
Record Argon2idParameters := mk_Argon2idParameters { memory_kib : N; iterations : N; lanes : N }.
#[export] Instance Argon2idParameters_eq_dec : EqDecision Argon2idParameters.
Proof. solve_decision. Defined.
Definition parameters_new (memory its lane : N) : outcome Argon2idParameters :=
  if negb (in_range MIN_MEMORY_KIB MAX_MEMORY_KIB memory) || negb (in_range MIN_ITERATIONS MAX_ITERATIONS its)
    || negb (in_range MIN_LANES MAX_LANES lane)
  then Err InvalidHashParameters else Ok (mk_Argon2idParameters memory its lane).
Definition fits_within (p maximum : Argon2idParameters) : bool :=
  (memory_kib p <=? memory_kib maximum) && (iterations p <=? iterations maximum) && (lanes p <=? lanes maximum).
Definition PasswordSalt := vec Byte.byte 16.

(** What the code reads of a parsed [password_hash::PasswordHash]: the parameters in decimal, the
    decoded salt when there is one and it decodes, and the output. *)
Record PasswordHash := mk_PasswordHash {
  ph_algorithm : string; ph_version : option N; ph_parameters : list (string * N); ph_salt : option (option (list Byte.byte));
  ph_output : option (list Byte.byte);
}.
(** [PasswordHash::new]. *)
Class PhcParser := phc_parse : string -> option PasswordHash.
(** [Argon2::new] with [Params::new], then [hash_password_into] and [hash_password]. *)
Class Argon2id := {
  hash_password_into : Argon2idParameters -> list Byte.byte -> PasswordSalt -> option digest;
  hash_password : Argon2idParameters -> list Byte.byte -> PasswordSalt -> option string;
}.

Record PasswordHashRecord := mk_PasswordHashRecord { record_str : string }.
Definition MAX_RECORD_BYTES : N := 512.
Record ParsedRecord := mk_ParsedRecord { parameters : Argon2idParameters; salt : PasswordSalt; output : digest }.
Definition validate_record_length (value : string) : outcome unit := reject_if (MAX_RECORD_BYTES <? byte_len value) InvalidHashRecord.
Definition validate_identity (hash : PasswordHash) : outcome unit :=
  reject_if (negb (String.eqb (ph_algorithm hash) "argon2id") || bool_decide (ph_version hash <> Some 19)) InvalidHashRecord.
Definition get_decimal (hash : PasswordHash) (key : string) : option N :=
  snd <$> List.find (fun p => String.eqb (fst p) key) (ph_parameters hash).
Definition parse_parameters (hash : PasswordHash) : outcome Argon2idParameters :=
  reject_if (negb (len (ph_parameters hash) =? 3)) InvalidHashRecord ;;
  memory ← ok_or (get_decimal hash "m") InvalidHashRecord;
  its ← ok_or (get_decimal hash "t") InvalidHashRecord;
  lane ← ok_or (get_decimal hash "p") InvalidHashRecord;
  match parameters_new memory its lane with Ok p => Ok p | Err _ => Err InvalidHashRecord end.
(** The bytes of a slice of the width of an array. *)
Fixpoint fixed_width (n : nat) (bytes : list Byte.byte) : option (vec Byte.byte n) :=
  match n, bytes with
  | O, [] => Some vnil
  | S n', b :: rest => vcons b <$> fixed_width n' rest
  | _, _ => None
  end.
Definition decode_salt (hash : PasswordHash) : outcome PasswordSalt :=
  encoded ← ok_or (ph_salt hash) InvalidHashRecord;
  decoded ← ok_or encoded InvalidHashRecord;
  ok_or (fixed_width 16 decoded) InvalidHashRecord.
Definition copy_output (hash : PasswordHash) : outcome digest :=
  encoded ← ok_or (ph_output hash) InvalidHashRecord;
  ok_or (fixed_width 32 encoded) InvalidHashRecord.
Definition parse_record `{PhcParser} (value : string) : outcome ParsedRecord :=
  validate_record_length value ;;
  hash ← ok_or (phc_parse value) InvalidHashRecord;
  validate_identity hash ;;
  p ← parse_parameters hash;
  s ← decode_salt hash;
  o ← copy_output hash;
  mret (mk_ParsedRecord p s o).
Definition validate_record `{PhcParser} (value : string) : outcome unit := parse_record value ;; mret tt.
Definition record_parse `{PhcParser} (value : string) : outcome PasswordHashRecord :=
  validate_record value ;; mret (mk_PasswordHashRecord value).
Definition record_parameters `{PhcParser} (r : PasswordHashRecord) : outcome Argon2idParameters :=
  parsed ← parse_record (record_str r); mret (parameters parsed).

Inductive PasswordVerification := Invalid | ValidCurrent | ValidNeedsRehash.
Record Argon2idEngine := mk_Argon2idEngine { current : Argon2idParameters; maximum_verify : Argon2idParameters }.
Definition engine_new (cur maximum : Argon2idParameters) : outcome Argon2idEngine :=
  if negb (fits_within cur maximum) then Err InvalidHashParameters else Ok (mk_Argon2idEngine cur maximum).
Definition hash `{PhcParser, Argon2id} (e : Argon2idEngine) (secret : PasswordSecret) (s : PasswordSalt) : outcome PasswordHashRecord :=
  text ← ok_or (hash_password (current e) (secret_bytes secret) s) HashOperationFailed;
  match record_parse text with Ok r => Ok r | Err _ => Err HashOperationFailed end.
Definition classify_verification (matches : bool) (record cur : Argon2idParameters) : PasswordVerification :=
  if negb matches then Invalid else if bool_decide (record = cur) then ValidCurrent else ValidNeedsRehash.
Definition verify `{ConstantTimeEq, PhcParser, Argon2id} (e : Argon2idEngine) (secret : PasswordSecret) (r : PasswordHashRecord)
    : outcome PasswordVerification :=
  parsed ← parse_record (record_str r);
  reject_if (negb (fits_within (parameters parsed) (maximum_verify e))) HashVerificationBudgetExceeded ;;
  computed ← ok_or (hash_password_into (parameters parsed) (secret_bytes secret) (salt parsed)) HashOperationFailed;
  mret (classify_verification (ct_eq computed (output parsed)) (parameters parsed) (current e)).

(** ** Specification *)

(** What is used of the documentation of [argon2]: the text that hashing prints is the PHC record
    of its parameters, its salt and the output that the same computation gives. *)
Class Argon2idLaw `{PhcParser, Argon2id} : Prop := hash_password_prints : forall p secret s text,
  hash_password p secret s = Some text ->
  exists out, hash_password_into p secret s = Some out /\
    phc_parse text = Some (mk_PasswordHash "argon2id" (Some 19) [("m", memory_kib p); ("t", iterations p); ("p", lanes p)]
      (Some (Some (vec_to_list s))) (Some (vec_to_list out))).
(** The plaintexts that the bounds accept. *)
Definition acceptable (bounds : PasswordLimits) (value : string) : Prop :=
  is_empty value = false /\ byte_len value <= max_bytes bounds /\ contains_nul value = false /\
  min_scalars bounds <= scalar_count value <= max_scalars bounds.
(** The verdict on a password whose output was [out], given the output of the record. *)
Definition verdict (out recorded : digest) (record cur : Argon2idParameters) : PasswordVerification :=
  if decide (out = recorded) then if decide (record = cur) then ValidCurrent else ValidNeedsRehash else Invalid.

Definition sample_sha : Sha256 := fun m => vreplicate 32 (byte_of (len m)).
Definition sample_parameters : Argon2idParameters := mk_Argon2idParameters 19456 2 1.
Definition sample_engine : Argon2idEngine := mk_Argon2idEngine sample_parameters sample_parameters.
Definition sample_salt : PasswordSalt := vreplicate 16 Byte.x05.
Definition sample_bounds : PasswordLimits := mk_PasswordLimits 3 8 16.
Definition sample_policy : PasswordPolicy := mk_PasswordPolicy sample_bounds [vreplicate 32 (byte_of 9)].
(** A concrete library: it hashes the sample password, and prints one text. *)
Definition sample_phc : PhcParser := fun text =>
  if String.eqb text "phc" then
    Some (mk_PasswordHash "argon2id" (Some 19) [("m", 19456); ("t", 2); ("p", 1)] (Some (Some (vec_to_list sample_salt))) (Some (vec_to_list (sample_digest Byte.x07))))
  else None.
Definition sample_argon2 : Argon2id := {|
  hash_password_into := fun p secret s => Some (if decide (secret = as_bytes "secret") then sample_digest Byte.x07 else sample_digest Byte.x08);
  hash_password := fun p secret s => if decide (p = sample_parameters /\ secret = as_bytes "secret" /\ s = sample_salt) then Some "phc" else None;
|}.
#[local] Instance sample_comparison : ConstantTimeEq := constant_time_digest_eq.

(** ** Lemmas *)

#[export] Instance fingerprint_ord_laws : OrdLaws PasswordFingerprint.
Proof.
  split; unfold cmp at 1, fingerprint_ord.
  - intros x y. rewrite cmp_eq_iff. split; [|by intros ->]. intros Hs. apply vec_to_list_inj2.
    apply (f_equal Stdlib.Strings.String.list_byte_of_string) in Hs. by rewrite !Stdlib.Strings.String.list_byte_of_string_of_list_byte in Hs.
  - intros x y. exact (@cmp_opp string _ _ _ _).
  - intros x y z. exact (@cmp_lt_trans string _ _ _ _ _).
Qed.
Lemma secret_parse_Ok value bounds secret : secret_parse value bounds = Ok secret <-> acceptable bounds value /\ secret = mk_PasswordSecret (as_bytes value).
Proof.
  unfold secret_parse, validate_byte_length, validate_scalars, acceptable. cbv zeta. rewrite !validated_Ok, !reject_if_Ok, mret_inj_iff, !N.ltb_ge. tauto.
Qed.
Lemma policy_denies bounds banned policy f : policy_new bounds banned = Ok policy ->
  limits policy = bounds /\ (require_not_denied f (denied policy) = Ok tt <-> f ∉ banned).
Proof.
  unfold policy_new. rewrite !validated_Ok, !reject_if_Ok, mret_inj_iff. intros (_ & Hd & ->). split; [done|]. cbn [denied].
  assert (strictly_sorted_by (fun x : PasswordFingerprint => x) (sort_by (fun x => x) banned)) as Hs.
  { apply sorted_NoDup_strict; [apply sort_by_sorted|]. apply adjacent_duplicate_perm in Hd. by rewrite sort_by_Permutation. }
  unfold require_not_denied. rewrite reject_if_Ok, bool_decide_eq_false, <- eq_None_not_Some, (binary_search_None _ _ _ Hs), <- (sort_by_Permutation (fun x : PasswordFingerprint => x) banned).
  split; [intros H Hf; by apply (H f)|intros H x Hx ->; done].
Qed.
Lemma fixed_width_exact n bytes (v : vec Byte.byte n) : fixed_width n bytes = Some v <-> bytes = vec_to_list v.
Proof.
  revert bytes v. induction n as [|n IH]; intros [|b bytes] v; inv_vec v; cbn; [by split|by split|by split|].
  intros x v. rewrite fmap_Some. setoid_rewrite IH. split.
  - intros (w & -> & He). apply Vector.cons_inj in He as [-> ->]. done.
  - intros [= -> ->]. by exists v.
Qed.

Section hashing.
Context `{Hct : ConstantTimeEq, !ConstantTimeEqLaw, Hphc : PhcParser, Hargon : Argon2id}.

Lemma hash_inv `{!Argon2idLaw} e secret s r : hash e secret s = Ok r ->
  exists out, hash_password_into (current e) (secret_bytes secret) s = Some out /\ parse_record (record_str r) = Ok (mk_ParsedRecord (current e) s out).
Proof.
  unfold hash. rewrite result_bind_Ok. setoid_rewrite ok_or_Ok. intros (text & Ht & Hr). destruct (record_parse text) as [r'|] eqn:Hp; [|done]. injection Hr as ->.
  unfold record_parse, validate_record in Hp. apply validated_Ok in Hp as [Hp Hr]. apply mret_inj_iff in Hr as ->. cbn [record_str]. apply result_bind_Ok in Hp as (parsed & Hp & _).
  apply hash_password_prints in Ht as (out & Hout & Hphc'). exists out. split; [exact Hout|]. rewrite Hp. f_equal.
  unfold parse_record in Hp. rewrite Hphc' in Hp. apply validated_Ok in Hp as [_ Hp]. cbn [ok_or mbind result_bind] in Hp. apply validated_Ok in Hp as [_ Hp].
  unfold parse_parameters, decode_salt, copy_output, parameters_new in Hp. cbn -[fixed_width] in Hp. destruct (_ || _); [done|]. cbn -[fixed_width] in Hp.
  rewrite (proj2 (fixed_width_exact 16 _ s) eq_refl) in Hp. cbn -[fixed_width] in Hp. rewrite (proj2 (fixed_width_exact 32 _ out) eq_refl) in Hp. cbn in Hp.
  injection Hp as <-. by destruct (current e).
Qed.

(** ** Properties *)

(** Admission is exact and fails closed.  Under a policy that was accepted for a list of
    denied fingerprints, a password is admitted exactly when its bytes and scalars are within the
    bounds, the assessment is of this very password, its fingerprint is not denied, and the
    breach source found it safe; the order in which the fingerprints were listed is irrelevant. *)
Theorem admission_exact `{Sha256} bounds banned policy value assessment secret (Hp : policy_new bounds banned = Ok policy) :
  admit_password value policy assessment = Ok secret <->
  acceptable bounds value /\ secret = mk_PasswordSecret (as_bytes value) /\
  a_fingerprint assessment = fingerprint_from_secret secret /\ fingerprint_from_secret secret ∉ banned /\ a_status assessment = NotCompromised.
Proof.
  unfold admit_password. rewrite result_bind_Ok. setoid_rewrite secret_parse_Ok.
  assert (forall s, require_not_compromised s = Ok tt <-> s = NotCompromised) as Hc by (by intros []).
  assert (forall w r, (require_assessment_binding (fingerprint_from_secret w) (a_fingerprint assessment) ;;
    require_not_denied (fingerprint_from_secret w) (denied policy) ;; require_not_compromised (a_status assessment) ;; mret w) = Ok r <->
    a_fingerprint assessment = fingerprint_from_secret w /\ fingerprint_from_secret w ∉ banned /\ a_status assessment = NotCompromised /\ r = w) as Hr.
  { intros w r. rewrite !validated_Ok, Hc, mret_inj_iff, (proj2 (policy_denies _ _ _ (fingerprint_from_secret w) Hp)).
    unfold require_assessment_binding. rewrite reject_if_Ok, negb_false_iff, constant_time_digest_eq_true. naive_solver. }
  setoid_rewrite Hr. rewrite (proj1 (policy_denies _ _ _ (sha256 []) Hp)). naive_solver.
Qed.

(** Hashing and verification agree.  A record that hashing produced verifies, within the
    budget of any engine, exactly the passwords with the same output; a match is current just
    for an engine with the same parameters, and otherwise asks for a new hash. *)
Theorem verification_exact `{!Argon2idLaw} e secret s r (Hh : hash e secret s = Ok r) e' secret' v :
  verify e' secret' r = Ok v <->
  fits_within (current e) (maximum_verify e') = true /\
  exists out out', hash_password_into (current e) (secret_bytes secret) s = Some out /\
    hash_password_into (current e) (secret_bytes secret') s = Some out' /\ v = verdict out' out (current e) (current e').
Proof.
  apply hash_inv in Hh as (out & Hout & Hp). unfold verify. rewrite Hp. cbn [mbind result_bind parameters salt output].
  rewrite validated_Ok, reject_if_Ok, negb_false_iff, result_bind_Ok. setoid_rewrite ok_or_Ok. setoid_rewrite mret_inj_iff. rewrite Hout.
  assert (forall out', classify_verification (ct_eq out' out) (current e) (current e') = verdict out' out (current e) (current e')) as Hv.
  { intros out'. unfold classify_verification, verdict. destruct (ct_eq out' out) eqn:Hc.
    - apply ct_eq_true in Hc as ->. rewrite decide_True by done. cbn. by case_bool_decide; case_decide.
    - rewrite decide_False; [done|]. intros ->. by rewrite (proj2 (ct_eq_true out out) eq_refl) in Hc. }
  split; [intros (Hf & out' & Ho & ->)|intros (Hf & ? & out' & [= <-] & Ho & ->)]; (split; [exact Hf|]); [exists out, out'|exists out']; by rewrite ?Hv.
Qed.
End hashing.

(** *** Witnesses *)

Lemma admission_exact_witness : @admit_password sample_sha "secret" sample_policy (mk_BreachAssessment (vreplicate 32 (byte_of 6)) NotCompromised "v1") =
  Ok (mk_PasswordSecret (as_bytes "secret")).
Proof.
  assert (policy_new sample_bounds [vreplicate 32 (byte_of 9)] = Ok sample_policy) as Hp by (vm_compute; reflexivity).
  apply (@admission_exact sample_sha _ _ _ _ _ _ Hp). split_and!; [split_and!; vm_compute; done|done|vm_compute; reflexivity| |done].
  rewrite list_elem_of_singleton. vm_compute. discriminate.
Defined.
#[local] Instance sample_argon2_law : @Argon2idLaw sample_phc sample_argon2.
Proof.
  intros p secret s text. cbn. case_decide as Hd; [|done]. destruct Hd as (-> & -> & ->). intros [= <-]. exists (sample_digest Byte.x07). split; reflexivity.
Qed.
#[local] Instance sample_comparison_law : ConstantTimeEqLaw.
Proof. intros a b. apply constant_time_digest_eq_true. Qed.
Lemma verification_exact_witness :
  @verify _ sample_phc sample_argon2 sample_engine (mk_PasswordSecret (as_bytes "other")) (mk_PasswordHashRecord "phc") = Ok Invalid.
Proof.
  assert (@hash sample_phc sample_argon2 sample_engine (mk_PasswordSecret (as_bytes "secret")) sample_salt = Ok (mk_PasswordHashRecord "phc")) as Hh by (vm_compute; reflexivity).
  apply (@verification_exact _ _ sample_phc sample_argon2 _ _ _ _ _ Hh). split; [reflexivity|]. exists (sample_digest Byte.x07), (sample_digest Byte.x08).
  split_and!; [vm_compute; reflexivity|vm_compute; reflexivity|]. vm_compute. reflexivity.
Defined.
