(* ===== verification/PasswordReset.v ===== *)
(** * Password credentials and recovery

    Models [crates/optional/ariadnion-auth-password/src]: [credential.rs], [reset.rs] and the
    commit intents of [repository.rs]: credentials reconstructed from what is persisted, one-time
    resets with their commands and events, the replacement that a consumed reset carries, and the
    checks that classify a transition before it is committed.  A client of [Password]. *)

From Stdlib Require Import Ascii.
From Stdlib Require Strings.Byte.
From S2P Require Import Prelude CoreTypes Identity Encoding Password.
From S2P Require UserDomain.
#[local] Open Scope N_scope.

Notation UserId := UserDomain.UserId.
Notation UtcTimestamp := UserDomain.UtcTimestamp.

(** ** Credentials ([credential.rs]) *)

Record PasswordCredentialSubject := mk_PasswordCredentialSubject { subject_tenant_id : TenantId; subject_user_id : UserId }.
#[export] Instance PasswordCredentialSubject_eq_dec : EqDecision PasswordCredentialSubject.
Proof. solve_decision. Defined.
(** Versions are non-zero 64-bit integers. *)
Definition credential_version_initial : N := 1.
Definition credential_version_new (value : N) : outcome N := if value =? 0 then Err InvalidCredentialArgument else Ok value.
Definition credential_version_next (v : N) : outcome N := ok_or (checked_add u64_max v 1) CredentialVersionExhausted.
Definition policy_version_new (value : N) : outcome N := if value =? 0 then Err InvalidCredentialArgument else Ok value.
Record PasswordCredentialSnapshot := mk_PasswordCredentialSnapshot {
  cs_subject : PasswordCredentialSubject; cs_version : N; cs_hash_policy_version : N; cs_hash_record : PasswordHashRecord;
}.
Record PasswordCredential := mk_PasswordCredential {
  c_subject : PasswordCredentialSubject; c_version : N; c_hash_policy_version : N; c_hash_record : PasswordHashRecord;
  c_hash_parameters : Argon2idParameters;
}.
Definition credential_from_snapshot `{PhcParser} (s : PasswordCredentialSnapshot) : outcome PasswordCredential :=
  match record_parameters (cs_hash_record s) with
  | Err _ => Err InvalidCredentialArgument
  | Ok hash_parameters =>
      Ok (mk_PasswordCredential (cs_subject s) (cs_version s) (cs_hash_policy_version s) (cs_hash_record s) hash_parameters)
  end.
Definition credential_snapshot_state (c : PasswordCredential) : PasswordCredentialSnapshot :=
  mk_PasswordCredentialSnapshot (c_subject c) (c_version c) (c_hash_policy_version c) (c_hash_record c).
Record PasswordCredentialReplacement := mk_PasswordCredentialReplacement {
  expected_credential_version : N; credential : PasswordCredential;
}.
Definition replacement_new `{PhcParser} (subject : PasswordCredentialSubject) (expected resulting_hash_policy_version : N)
    (hash_record : PasswordHashRecord) : outcome PasswordCredentialReplacement :=
  resulting_version ← credential_version_next expected;
  c ← credential_from_snapshot (mk_PasswordCredentialSnapshot subject resulting_version resulting_hash_policy_version hash_record);
  mret (mk_PasswordCredentialReplacement expected c).

(** ** Resets ([reset.rs]) *)

Definition MAX_RESET_ID_BYTES : N := 128.
Definition MIN_RESET_TOKEN_BYTES : N := 32.
Definition MAX_RESET_TOKEN_BYTES : N := 256.
Definition MAX_RESET_LIFETIME_SECONDS : Z := 1800.
Definition RESET_TOKEN_DOMAIN : list Byte.byte := as_bytes "ariadnion.password-recovery.token.v1" ++ [Byte.x00].
Definition PASSWORD_HASH_RECORD_DOMAIN : list Byte.byte := as_bytes "ariadnion.password-recovery.password-hash-record.v1" ++ [Byte.x00].

Record PasswordResetId := mk_PasswordResetId { reset_id_str : string }.
#[export] Instance PasswordResetId_eq_dec : EqDecision PasswordResetId.
Proof. solve_decision. Defined.
Definition is_reset_id_byte (b : ascii) : bool :=
  is_ascii_alphanumeric b || Ascii.eqb b "."%char || Ascii.eqb b "-"%char || Ascii.eqb b "_"%char.
Definition valid_reset_id (value : string) : bool :=
  negb (is_empty value) && (byte_len value <=? MAX_RESET_ID_BYTES) && is_ascii value && all_bytes is_reset_id_byte value.
Definition reset_id_parse (value : string) : outcome PasswordResetId :=
  if negb (valid_reset_id value) then Err InvalidResetArgument else Ok (mk_PasswordResetId value).
Definition reset_version_initial : N := 1.
Definition reset_version_new (value : N) : outcome N := if value =? 0 then Err InvalidResetArgument else Ok value.
Definition reset_version_next (v : N) : outcome N := ok_or (checked_add u64_max v 1) ResetVersionExhausted.
Definition domain_separated_digest `{Sha256} (domain value : list Byte.byte) : digest := sha256 (domain ++ value).
Definition token_digest_from_token `{Sha256} (token : list Byte.byte) : outcome digest :=
  if negb (in_range MIN_RESET_TOKEN_BYTES MAX_RESET_TOKEN_BYTES (len token)) then Err InvalidResetArgument
  else Ok (domain_separated_digest RESET_TOKEN_DOMAIN token).
Definition record_digest `{Sha256} (r : PasswordHashRecord) : digest :=
  domain_separated_digest PASSWORD_HASH_RECORD_DOMAIN (as_bytes (record_str r)).
Definition token_matches `{ConstantTimeEq} (stored presented : digest) : bool := ct_eq stored presented.

Inductive PasswordResetPurpose : Set := PasswordRecovery.
Inductive PasswordResetState := Issued | Consumed | Revoked | Expired.
#[export] Instance PasswordResetState_eq_dec : EqDecision PasswordResetState.
Proof. solve_decision. Defined.
Record PasswordResetSubject := mk_PasswordResetSubject { tenant_id : TenantId; user_id : UserId }.
#[export] Instance PasswordResetSubject_eq_dec : EqDecision PasswordResetSubject.
Proof. solve_decision. Defined.
Record PasswordResetValidityWindow := mk_PasswordResetValidityWindow { issued_at : UtcTimestamp; expires_at : UtcTimestamp }.
Record PasswordResetSnapshot := mk_PasswordResetSnapshot {
  s_reset_id : PasswordResetId; s_subject : PasswordResetSubject; s_token_digest : digest; s_issued_credential_version : N;
  s_validity : PasswordResetValidityWindow; s_version : N; s_purpose : PasswordResetPurpose; s_state : PasswordResetState;
  s_password_hash_digest : option digest;
}.
Record PasswordResetIssueRequest := mk_PasswordResetIssueRequest {
  q_reset_id : PasswordResetId; q_subject : PasswordResetSubject; q_actor : PrincipalId; q_token_digest : digest;
  q_validity : PasswordResetValidityWindow; q_issued_credential_version : N;
}.
Record PasswordReset := mk_PasswordReset {
  r_id : PasswordResetId; r_subject : PasswordResetSubject; r_token_digest : digest; r_issued_credential_version : N;
  r_issued_at : UtcTimestamp; r_expires_at : UtcTimestamp; r_version : N; r_purpose : PasswordResetPurpose; r_state : PasswordResetState;
  r_password_hash_digest : option digest;
}.
Definition validate_reset_lifetime (validity : PasswordResetValidityWindow) : outcome unit :=
  lifetime ← ok_or (i64_checked_sub (expires_at validity) (issued_at validity)) InvalidResetLifetime;
  reject_if (negb ((1 <=? lifetime)%Z && (lifetime <=? MAX_RESET_LIFETIME_SECONDS)%Z)) InvalidResetLifetime.
Definition validate_snapshot_lifetime (validity : PasswordResetValidityWindow) : outcome unit :=
  match validate_reset_lifetime validity with Ok u => Ok u | Err _ => Err InvalidResetArgument end.
Definition valid_snapshot_lifecycle (version : N) (state : PasswordResetState) (has_password_hash_digest : bool) : bool :=
  match state, has_password_hash_digest with
  | Issued, false => version =? 1
  | Consumed, true => version =? 2
  | Revoked, false | Expired, false => version =? 2
  | _, _ => false
  end.
Definition validate_snapshot (s : PasswordResetSnapshot) : outcome unit :=
  validate_snapshot_lifetime (s_validity s) ;;
  reject_if (negb (valid_snapshot_lifecycle (s_version s) (s_state s) (bool_decide (is_Some (s_password_hash_digest s))))) InvalidResetArgument.
Definition from_snapshot (s : PasswordResetSnapshot) : outcome PasswordReset :=
  validate_snapshot s ;;
  mret (mk_PasswordReset (s_reset_id s) (s_subject s) (s_token_digest s) (s_issued_credential_version s) (issued_at (s_validity s))
    (expires_at (s_validity s)) (s_version s) (s_purpose s) (s_state s) (s_password_hash_digest s)).
Definition snapshot_state (r : PasswordReset) : PasswordResetSnapshot :=
  mk_PasswordResetSnapshot (r_id r) (r_subject r) (r_token_digest r) (r_issued_credential_version r)
    (mk_PasswordResetValidityWindow (r_issued_at r) (r_expires_at r)) (r_version r) (r_purpose r) (r_state r) (r_password_hash_digest r).
Definition issued (q : PasswordResetIssueRequest) : PasswordReset :=
  mk_PasswordReset (q_reset_id q) (q_subject q) (q_token_digest q) (q_issued_credential_version q) (issued_at (q_validity q))
    (expires_at (q_validity q)) reset_version_initial PasswordRecovery Issued None.
Definition advance (r : PasswordReset) (version : N) (state : PasswordResetState) (password_hash_digest : option digest) : PasswordReset :=
  mk_PasswordReset (r_id r) (r_subject r) (r_token_digest r) (r_issued_credential_version r) (r_issued_at r) (r_expires_at r) version
    (r_purpose r) state password_hash_digest.

Record PasswordResetConsumption := mk_PasswordResetConsumption {
  presented_token_digest : digest; password_hash_record : PasswordHashRecord; new_hash_policy_version : N;
}.
Inductive PasswordResetAction := Consume (consumption : PasswordResetConsumption) | Revoke | Expire.
Record PasswordResetCommand := mk_PasswordResetCommand {
  expected_version : N; subject : PasswordResetSubject; actor : PrincipalId; occurred_at : UtcTimestamp; action : PasswordResetAction;
}.
Inductive PasswordResetEventKind := EventIssued | EventConsumed | EventRevoked | EventExpired.
#[export] Instance PasswordResetEventKind_eq_dec : EqDecision PasswordResetEventKind.
Proof. solve_decision. Defined.
Definition event_kind_as_str (k : PasswordResetEventKind) : string :=
  match k with
  | EventIssued => "PASSWORD_RESET_ISSUED" | EventConsumed => "PASSWORD_RESET_CONSUMED" | EventRevoked => "PASSWORD_RESET_REVOKED"
  | EventExpired => "PASSWORD_RESET_EXPIRED"
  end.
Record PasswordResetEvent := mk_PasswordResetEvent {
  e_reset_id : PasswordResetId; e_subject : PasswordResetSubject; e_actor : PrincipalId; e_occurred_at : UtcTimestamp; e_version : N;
  e_purpose : PasswordResetPurpose; e_kind : PasswordResetEventKind; e_issued_credential_version : N; e_password_hash_digest : option digest;
}.
Record PasswordResetTransition := mk_PasswordResetTransition {
  reset : PasswordReset; event : PasswordResetEvent; credential_replacement : option PasswordCredentialReplacement;
}.
Definition event_from (r : PasswordReset) (a : PrincipalId) (at_ : UtcTimestamp) (kind : PasswordResetEventKind) : PasswordResetEvent :=
  mk_PasswordResetEvent (r_id r) (r_subject r) a at_ (r_version r) (r_purpose r) kind (r_issued_credential_version r) (r_password_hash_digest r).
Definition issue_password_reset (q : PasswordResetIssueRequest) : outcome PasswordResetTransition :=
  validate_reset_lifetime (q_validity q) ;;
  let r := issued q in
  mret (mk_PasswordResetTransition r (event_from r (q_actor q) (issued_at (q_validity q)) EventIssued) None).

Definition validate_reset_evidence `{ConstantTimeEq} (r : PasswordReset) (c : PasswordResetCommand) : outcome unit :=
  let subject_matches := bool_decide (subject c = r_subject r) in
  let token_matched :=
    match action c with
    | Consume consumption => token_matches (r_token_digest r) (presented_token_digest consumption)
    | Revoke | Expire => true
    end in
  reject_if (negb subject_matches || negb token_matched) InvalidResetEvidence.
Definition validate_expected_version (r : PasswordReset) (expected : N) : outcome unit :=
  reject_if (negb (r_version r =? expected)) ResetVersionConflict.
Definition validate_command_time (r : PasswordReset) (at_ : UtcTimestamp) : outcome unit :=
  reject_if (at_ <? r_issued_at r)%Z InvalidResetTime.
Definition validate_current_state (state : PasswordResetState) : outcome unit :=
  match state with
  | Issued => Ok tt
  | Consumed => Err ResetAlreadyConsumed
  | Revoked => Err ResetRevoked
  | Expired => Err ResetExpired
  end.
Record TransitionOutcome := mk_TransitionOutcome {
  o_state : PasswordResetState; o_kind : PasswordResetEventKind; o_password_hash_digest : option digest;
  o_credential_replacement : option PasswordCredentialReplacement;
}.
Definition require_not_expired (r : PasswordReset) (at_ : UtcTimestamp) : outcome unit := reject_if (r_expires_at r <=? at_)%Z ResetExpired.
Definition apply_consumption `{Sha256, PhcParser} (r : PasswordReset) (at_ : UtcTimestamp) (consumption : PasswordResetConsumption)
    : outcome TransitionOutcome :=
  require_not_expired r at_ ;;
  let digest := record_digest (password_hash_record consumption) in
  let owner := mk_PasswordCredentialSubject (tenant_id (r_subject r)) (user_id (r_subject r)) in
  replacement ← replacement_new owner (r_issued_credential_version r) (new_hash_policy_version consumption) (password_hash_record consumption);
  mret (mk_TransitionOutcome Consumed EventConsumed (Some digest) (Some replacement)).
Definition apply_revocation (r : PasswordReset) (at_ : UtcTimestamp) : outcome TransitionOutcome :=
  require_not_expired r at_ ;; mret (mk_TransitionOutcome Revoked EventRevoked None None).
Definition apply_expiry (r : PasswordReset) (at_ : UtcTimestamp) : outcome TransitionOutcome :=
  reject_if (at_ <? r_expires_at r)%Z ResetNotYetExpired ;; mret (mk_TransitionOutcome Expired EventExpired None None).
Definition apply_action `{Sha256, PhcParser} (r : PasswordReset) (at_ : UtcTimestamp) (a : PasswordResetAction) : outcome TransitionOutcome :=
  match a with
  | Consume consumption => apply_consumption r at_ consumption
  | Revoke => apply_revocation r at_
  | Expire => apply_expiry r at_
  end.
Definition transition_password_reset `{Sha256, ConstantTimeEq, PhcParser} (current : PasswordReset) (c : PasswordResetCommand)
    : outcome PasswordResetTransition :=
  validate_reset_evidence current c ;;
  validate_expected_version current (expected_version c) ;;
  validate_command_time current (occurred_at c) ;;
  validate_current_state (r_state current) ;;
  o ← apply_action current (occurred_at c) (action c);
  version ← reset_version_next (r_version current);
  let r := advance current version (o_state o) (o_password_hash_digest o) in
  mret (mk_PasswordResetTransition r (event_from r (actor c) (occurred_at c) (o_kind o)) (o_credential_replacement o)).

(** ** Commit intents ([repository.rs]) *)

Inductive PasswordRepositoryErrorCode :=
| NotFound | Conflict | Cancelled | DeadlineExceeded | ResourceExhausted | Unavailable | CommitIndeterminate | IntegrityFailure.
Definition REPOSITORY_ERROR_CODES : list string := [
  "PASSWORD_REPOSITORY_NOT_FOUND"; "PASSWORD_REPOSITORY_CONFLICT"; "PASSWORD_REPOSITORY_CANCELLED";
  "PASSWORD_REPOSITORY_DEADLINE_EXCEEDED"; "PASSWORD_REPOSITORY_RESOURCE_EXHAUSTED"; "PASSWORD_REPOSITORY_UNAVAILABLE";
  "PASSWORD_REPOSITORY_COMMIT_INDETERMINATE"; "PASSWORD_REPOSITORY_INTEGRITY_FAILURE" ].
Definition repository_error_index (code : PasswordRepositoryErrorCode) : nat :=
  match code with
  | NotFound => 0 | Conflict => 1 | Cancelled => 2 | DeadlineExceeded => 3 | ResourceExhausted => 4 | Unavailable => 5
  | CommitIndeterminate => 6 | IntegrityFailure => 7
  end.
Definition repository_as_str (code : PasswordRepositoryErrorCode) : option string := REPOSITORY_ERROR_CODES !! repository_error_index code.
Inductive PasswordResetCommit :=
| Issuance (t : PasswordResetTransition)
| ResetOnly (t : PasswordResetTransition)
| CredentialReplacement (t : PasswordResetTransition).
Definition is_reset_only (t : PasswordResetTransition) : bool :=
  match e_kind (event t) with EventRevoked | EventExpired => true | _ => false end && bool_decide (credential_replacement t = None).
Definition is_issuance (t : PasswordResetTransition) : bool :=
  match e_kind (event t) with EventIssued => true | _ => false end && bool_decide (credential_replacement t = None).
Definition is_consumption (t : PasswordResetTransition) : bool :=
  match e_kind (event t) with EventConsumed => true | _ => false end && bool_decide (is_Some (credential_replacement t)).
Definition commit_issue (t : PasswordResetTransition) : result PasswordRepositoryErrorCode PasswordResetCommit :=
  if negb (is_issuance t) then Err IntegrityFailure else Ok (Issuance t).
Definition commit_reset_only (t : PasswordResetTransition) : result PasswordRepositoryErrorCode PasswordResetCommit :=
  if negb (is_reset_only t) then Err IntegrityFailure else Ok (ResetOnly t).
Definition commit_consume (t : PasswordResetTransition) : result PasswordRepositoryErrorCode PasswordResetCommit :=
  if negb (is_consumption t) then Err IntegrityFailure else Ok (CredentialReplacement t).
Definition verify_current_credential (t : PasswordResetTransition) (current : option PasswordCredential)
    : result PasswordRepositoryErrorCode unit :=
  c ← ok_or current Conflict;
  reject_if (bool_decide (subject_tenant_id (c_subject c) <> tenant_id (r_subject (reset t)))
    || bool_decide (subject_user_id (c_subject c) <> user_id (r_subject (reset t)))) IntegrityFailure ;;
  reject_if (negb (c_version c =? r_issued_credential_version (reset t))) Conflict.

(** ** Specification *)

(** What a command makes of an issued reset: the new state, the kind of its event, and the
    replacement that a consumption carries. *)
Definition settles `{Sha256, PhcParser} (r : PasswordReset) (c : PasswordResetCommand) (o : TransitionOutcome) : Prop :=
  match action c with
  | Consume k =>
      presented_token_digest k = r_token_digest r /\ (occurred_at c < r_expires_at r)%Z /\ r_issued_credential_version r < u64_max /\
      exists p, record_parameters (password_hash_record k) = Ok p /\
        o = mk_TransitionOutcome Consumed EventConsumed (Some (record_digest (password_hash_record k)))
              (Some (mk_PasswordCredentialReplacement (r_issued_credential_version r)
                (mk_PasswordCredential (mk_PasswordCredentialSubject (tenant_id (r_subject r)) (user_id (r_subject r)))
                  (r_issued_credential_version r + 1) (new_hash_policy_version k) (password_hash_record k) p)))
  | Revoke => (occurred_at c < r_expires_at r)%Z /\ o = mk_TransitionOutcome Revoked EventRevoked None None
  | Expire => (r_expires_at r <= occurred_at c)%Z /\ o = mk_TransitionOutcome Expired EventExpired None None
  end.
Definition accepted `{Sha256, PhcParser} (r : PasswordReset) (c : PasswordResetCommand) (t : PasswordResetTransition) : Prop :=
  subject c = r_subject r /\ expected_version c = r_version r /\ (r_issued_at r <= occurred_at c)%Z /\ r_state r = Issued /\
  exists o, settles r c o /\
    t = mk_PasswordResetTransition (advance r (r_version r + 1) (o_state o) (o_password_hash_digest o))
          (event_from (advance r (r_version r + 1) (o_state o) (o_password_hash_digest o)) (actor c) (occurred_at c) (o_kind o))
          (o_credential_replacement o).
Inductive reachable `{Sha256, ConstantTimeEq, PhcParser} : PasswordReset -> Prop :=
| reachable_issue q t : issue_password_reset q = Ok t -> reachable (reset t)
| reachable_step r c t : reachable r -> transition_password_reset r c = Ok t -> reachable (reset t).
(** The digest of a consumed reset commits to a record, and a credential was there to replace. *)
Definition committed `{Sha256, PhcParser} (r : PasswordReset) : Prop :=
  forall d, r_password_hash_digest r = Some d ->
    r_issued_credential_version r < u64_max /\ exists record, is_ok (record_parameters record) = true /\ d = record_digest record.
Definition reset_ok (r : PasswordReset) : Prop :=
  (1 <= r_expires_at r - r_issued_at r <= 1800)%Z /\
  match r_state r with
  | Issued => r_version r = 1 /\ r_password_hash_digest r = None
  | Consumed => r_version r = 2 /\ is_Some (r_password_hash_digest r)
  | Revoked | Expired => r_version r = 2 /\ r_password_hash_digest r = None
  end.
(** The one commit intent of a command's transition. *)
Definition intent (c : PasswordResetCommand) (t : PasswordResetTransition) : PasswordResetCommit :=
  match action c with Consume _ => CredentialReplacement t | _ => ResetOnly t end.
Definition commits (t : PasswordResetTransition) : list PasswordResetCommit :=
  omap (fun r : result PasswordRepositoryErrorCode PasswordResetCommit => match r with Ok k => Some k | Err _ => None end)
    [commit_issue t; commit_reset_only t; commit_consume t].

#[local] Instance sample_comparison : ConstantTimeEq := constant_time_digest_eq.
#[local] Instance sample_comparison_law : ConstantTimeEqLaw.
Proof. intros a b. apply constant_time_digest_eq_true. Qed.
Definition sample_request : PasswordResetIssueRequest :=
  mk_PasswordResetIssueRequest (mk_PasswordResetId "r") (mk_PasswordResetSubject (MkId "t") (MkId "u")) (MkId "a") (sample_digest Byte.x01)
    (mk_PasswordResetValidityWindow 100%Z 200%Z) 4.
Definition sample_reset : PasswordReset := issued sample_request.
Definition sample_consumption : PasswordResetCommand :=
  mk_PasswordResetCommand 1 (mk_PasswordResetSubject (MkId "t") (MkId "u")) (MkId "a") 150%Z
    (Consume (mk_PasswordResetConsumption (sample_digest Byte.x01) (mk_PasswordHashRecord "phc") 3)).

(** ** Lemmas *)

Section resets.
Context `{Hsha : Sha256, Hct : ConstantTimeEq, !ConstantTimeEqLaw, Hphc : PhcParser}.

Lemma replacement_Ok owner v policy record k : replacement_new owner v policy record = Ok k <->
  v < u64_max /\ exists p, record_parameters record = Ok p /\
    k = mk_PasswordCredentialReplacement v (mk_PasswordCredential owner (v + 1) policy record p).
Proof.
  unfold replacement_new, credential_version_next, credential_from_snapshot. cbn [cs_hash_record cs_subject cs_version cs_hash_policy_version].
  destruct (record_parameters record) as [p|e]; cbn [mbind result_bind].
  - rewrite result_bind_Ok. setoid_rewrite ok_or_Ok. setoid_rewrite checked_add_Some. setoid_rewrite mret_inj_iff. split.
    + intros (w & [-> Hle] & ->). split; [lia|]. by exists p.
    + intros (Hlt & p' & [= <-] & ->). exists (v + 1). split; [split; [done|lia]|done].
  - split; [|by intros (_ & p & [=] & _)]. by destruct (checked_add u64_max v 1).
Qed.
Lemma action_Ok r c o : apply_action r (occurred_at c) (action c) = Ok o /\
  match action c with Consume k => token_matches (r_token_digest r) (presented_token_digest k) = true | _ => True end <-> settles r c o.
Proof.
  unfold settles, apply_action, apply_consumption, apply_revocation, apply_expiry, require_not_expired, token_matches. destruct (action c) as [k| |].
  - rewrite validated_Ok, reject_if_Ok, Z.leb_gt, ct_eq_true, result_bind_Ok. setoid_rewrite replacement_Ok. setoid_rewrite mret_inj_iff. naive_solver.
  - rewrite validated_Ok, reject_if_Ok, Z.leb_gt, mret_inj_iff. tauto.
  - rewrite validated_Ok, reject_if_Ok, Z.ltb_ge, mret_inj_iff. tauto.
Qed.
Lemma transition_Ok r c t : r_version r < u64_max -> transition_password_reset r c = Ok t <-> accepted r c t.
Proof.
  intros Hv. unfold transition_password_reset, validate_reset_evidence, validate_expected_version, validate_command_time, accepted.
  rewrite !validated_Ok, !reject_if_Ok, orb_false_iff, !negb_false_iff, bool_decide_eq_true, N.eqb_eq, Z.ltb_ge.
  assert (validate_current_state (r_state r) = Ok tt <-> r_state r = Issued) as -> by (by destruct (r_state r)).
  rewrite result_bind_Ok. setoid_rewrite <- action_Ok. unfold reset_version_next, checked_add. rewrite (proj2 (N.leb_le _ _)) by lia. cbn [ok_or mbind result_bind].
  setoid_rewrite mret_inj_iff. destruct (action c); naive_solver.
Qed.
Lemma lifetime_Ok w : validate_reset_lifetime w = Ok tt <-> (1 <= expires_at w - issued_at w <= 1800)%Z.
Proof. unfold validate_reset_lifetime. apply span_within; unfold MAX_RESET_LIFETIME_SECONDS, i64_max; lia. Qed.
Lemma snapshot_valid r : validate_snapshot (snapshot_state r) = Ok tt <-> reset_ok r.
Proof.
  unfold validate_snapshot, validate_snapshot_lifetime, reset_ok. rewrite validated_Ok, reject_if_Ok, negb_false_iff. cbn [s_validity s_version s_state s_password_hash_digest snapshot_state].
  pose proof (lifetime_Ok (mk_PasswordResetValidityWindow (r_issued_at r) (r_expires_at r))) as Hl. cbn in Hl. rewrite <- Hl.
  assert (forall b : bool, (match validate_reset_lifetime (mk_PasswordResetValidityWindow (r_issued_at r) (r_expires_at r)) with Ok u => Ok u | Err _ => Err InvalidResetArgument end = Ok tt) <->
    validate_reset_lifetime (mk_PasswordResetValidityWindow (r_issued_at r) (r_expires_at r)) = Ok tt) as Hm by (intros _; by destruct (validate_reset_lifetime _) as [[]|]).
  rewrite (Hm true). apply and_iff_compat_l. unfold valid_snapshot_lifecycle.
  destruct (r_state r), (r_password_hash_digest r) as [d|]; cbn; rewrite ?N.eqb_eq; split; intros; destruct_and?; try done; by (split; [|eexists]) || (by match goal with Hs : is_Some None |- _ => destruct Hs end).
Qed.
Lemma from_snapshot_Ok s r : from_snapshot s = Ok r <-> snapshot_state r = s /\ reset_ok r.
Proof.
  unfold from_snapshot. rewrite validated_Ok, mret_inj_iff. split.
  - intros [Hv ->]. destruct s as [? ? ? ? [] ? ? ? ?]. split; [done|]. by apply snapshot_valid.
  - intros [<- Hr]. split; [by apply snapshot_valid|]. by destruct r.
Qed.
Lemma reset_ok_version r : reset_ok r -> r_version r < u64_max.
Proof. intros [_ Hs]. unfold u64_max. destruct (r_state r); destruct Hs; lia. Qed.
Lemma reachable_ok r : reachable r -> reset_ok r /\ committed r.
Proof.
  induction 1 as [q t Ht|r c t _ [IH _] Ht].
  - unfold issue_password_reset in Ht. apply validated_Ok in Ht as [Hl Ht]. apply mret_inj_iff in Ht as ->. apply lifetime_Ok in Hl. split; [by split|]. by intros d.
  - apply transition_Ok in Ht; [|by apply reset_ok_version]. destruct Ht as (_ & _ & _ & Hi & o & Ho & ->). destruct IH as [Hl Hs]. rewrite Hi in Hs. destruct Hs as [Hv Hd]. cbn [reset].
    unfold settles in Ho. unfold reset_ok, committed, advance. cbn. rewrite Hv. destruct (action c) as [k| |].
    + destruct Ho as (_ & _ & Hlt & p & Hp & ->). cbn. split; [split; [exact Hl|by split; [|eexists]]|]. intros d [= <-]. split; [done|]. exists (password_hash_record k). by rewrite Hp.
    + destruct Ho as [_ ->]. cbn. split; [split; [exact Hl|by split]|done].
    + destruct Ho as [_ ->]. cbn. split; [split; [exact Hl|by split]|done].
Qed.

(** The request that issues a reset as it was at first. *)
Lemma reissued r : (1 <= r_expires_at r - r_issued_at r <= 1800)%Z -> reachable (mk_PasswordReset (r_id r) (r_subject r) (r_token_digest r)
  (r_issued_credential_version r) (r_issued_at r) (r_expires_at r) 1 PasswordRecovery Issued None).
Proof.
  intros Hl. refine (reachable_issue (mk_PasswordResetIssueRequest (r_id r) (r_subject r) (MkId "") (r_token_digest r)
    (mk_PasswordResetValidityWindow (r_issued_at r) (r_expires_at r)) (r_issued_credential_version r)) (mk_PasswordResetTransition _ _ _) _).
  unfold issue_password_reset. apply validated_Ok. split; [by apply lifetime_Ok|]. reflexivity.
Qed.
Lemma ok_reachable r : reset_ok r -> committed r -> reachable r.
Proof.
  intros [Hl Hs] Hc. pose proof (reissued r Hl) as Hr. set (first := mk_PasswordReset _ _ _ _ _ _ 1 _ _ _) in Hr.
  assert (forall a at_ o, settles first (mk_PasswordResetCommand 1 (r_subject r) (MkId "") at_ a) o -> (r_issued_at r <= at_)%Z ->
    reachable (advance first 2 (o_state o) (o_password_hash_digest o))) as Hstep.
  { intros a at_ o Ho Hle. refine (reachable_step first (mk_PasswordResetCommand 1 (r_subject r) (MkId "") at_ a) (mk_PasswordResetTransition _ _ _) Hr _).
    apply transition_Ok; [done|]. unfold accepted. split_and!; try done. by exists o. }
  destruct r as [id s tok cv from till v [] state d]. unfold committed in Hc. cbn in *. destruct state; destruct Hs as [-> Hd].
  - by subst d.
  - destruct Hd as [d' ->]. destruct (Hc d' eq_refl) as (Hlt & record & Hok & ->). destruct (record_parameters record) as [p|] eqn:Hp; [|done].
    refine (Hstep (Consume (mk_PasswordResetConsumption tok record 1)) from (mk_TransitionOutcome Consumed _ _ _) _ _); [|lia].
    unfold settles. cbn. split_and!; [done|lia|done|]. exists p. split; [exact Hp|reflexivity].
  - subst d. refine (Hstep Revoke from (mk_TransitionOutcome Revoked _ None _) _ _); [|lia]. split; [cbn; lia|reflexivity].
  - subst d. refine (Hstep Expire till (mk_TransitionOutcome Expired _ None _) _ _); [|lia]. split; [cbn; lia|reflexivity].
Qed.
(** An issuance is committed only for the credential it was authorized by. *)
Lemma current_credential_exact t current : verify_current_credential t current = Ok tt <->
  exists c, current = Some c /\ subject_tenant_id (c_subject c) = tenant_id (r_subject (reset t)) /\
    subject_user_id (c_subject c) = user_id (r_subject (reset t)) /\ c_version c = r_issued_credential_version (reset t).
Proof.
  unfold verify_current_credential. rewrite result_bind_Ok. setoid_rewrite ok_or_Ok. split.
  - intros (c & -> & Hc). exists c. rewrite validated_Ok, !reject_if_Ok, orb_false_iff, !bool_decide_eq_false, negb_false_iff, N.eqb_eq in Hc.
    destruct Hc as [[H1%dec_stable H2%dec_stable] H3]. done.
  - intros (c & -> & H1 & H2 & H3). exists c. split; [done|]. rewrite validated_Ok, !reject_if_Ok, orb_false_iff, !bool_decide_eq_false, negb_false_iff, N.eqb_eq. naive_solver.
Qed.

(** ** Properties *)

(** The resets that can be read back are the resets that commands produce.  A snapshot is
    accepted exactly when its lifetime, version, state and digest are those of a reset's life; such a
    reset was reached by commands exactly when its digest, if any, commits to a valid record for
    a credential that can still be replaced. *)
Theorem reset_snapshot_exact s r :
  (from_snapshot s = Ok r <-> snapshot_state r = s /\ reset_ok r) /\ (reachable r <-> from_snapshot (snapshot_state r) = Ok r /\ committed r).
Proof.
  split; [apply from_snapshot_Ok|]. rewrite from_snapshot_Ok. split.
  - intros Hr%reachable_ok. tauto.
  - intros [[_ Hr] Hc]. by apply ok_reachable.
Qed.

(** C23: a reset replaces one credential, once.  A command on a reachable reset is accepted
    exactly when it is for its subject and version, the reset is still issued and, for a
    consumption, the token is the one issued, the time is within the window and a record is given; the
    replacement that it carries is of the credential version seen at issue, for the same
    owner, with exactly that record; one commit intent and no other fits the transition; and
    after it no command is accepted any more. *)
Theorem reset_used_once r c t (Hr : reachable r) :
  (transition_password_reset r c = Ok t <-> accepted r c t) /\
  (transition_password_reset r c = Ok t -> commits t = [intent c t] /\ forall c', is_ok (transition_password_reset (reset t) c') = false).
Proof.
  pose proof (proj1 (reachable_ok r Hr)) as Hok. pose proof (reset_ok_version r Hok) as Hv. split; [by apply transition_Ok|]. intros Ht.
  pose proof (proj1 (reachable_ok _ (reachable_step _ _ _ Hr Ht))) as Hok'%reset_ok_version. apply transition_Ok in Ht; [|done].
  destruct Ht as (_ & _ & _ & _ & o & Ho & ->). unfold settles in Ho. split.
  - unfold commits, intent, commit_issue, commit_reset_only, commit_consume, is_issuance, is_reset_only, is_consumption.
    destruct (action c) as [k| |]; [destruct Ho as (_ & _ & _ & p & _ & ->)|destruct Ho as [_ ->]|destruct Ho as [_ ->]]; reflexivity.
  - intros c'. destruct (transition_password_reset _ c') as [t'|] eqn:Ht'; [|done]. apply transition_Ok in Ht'; [|done]. destruct Ht' as (_ & _ & _ & Hi & _). cbn in Hi.
    destruct (action c) as [k| |]; [destruct Ho as (_ & _ & _ & p & _ & ->)|destruct Ho as [_ ->]|destruct Ho as [_ ->]]; done.
Qed.
End resets.

(** *** Witness *)

Lemma reset_used_once_witness :
  @reachable sample_sha _ sample_phc sample_reset /\
  exists t, @transition_password_reset sample_sha _ sample_phc sample_reset sample_consumption = Ok t /\ commits t = [CredentialReplacement t].
Proof.
  assert (@reachable sample_sha _ sample_phc sample_reset) as Hr.
  { exact (@reachable_issue sample_sha _ sample_phc sample_request (mk_PasswordResetTransition sample_reset (event_from sample_reset (MkId "a") 100%Z EventIssued) None) eq_refl). }
  split; [exact Hr|]. destruct (@transition_password_reset sample_sha _ sample_phc sample_reset sample_consumption) as [t|] eqn:Ht; [|vm_compute in Ht; discriminate Ht].
  exists t. split; [reflexivity|]. exact (proj1 (proj2 (@reset_used_once sample_sha _ _ sample_phc sample_reset sample_consumption t Hr) Ht)).
Defined.
