(* ===== verification/AccountBatch.v ===== *)
(** * Administrative account batches

    Models [crates/optional/ariadnion-account-batch/src]: [lib.rs], [lifecycle.rs],
    [execution.rs], [paging.rs] and [port.rs]: immutable plans and their idempotent replay,
    the lifecycle of a batch and its status, claims of items with their leases, outcomes, the
    receipts of committed mutations, and pages of outcomes.  A client of [AccountDomain]. *)

From Stdlib Require Import Ascii.
From S2P Require Import Prelude CoreTypes Identity.
From S2P Require AccountDomain.
#[local] Existing Instances AccountDomain.AccountStatus_eq_dec.
#[local] Open Scope N_scope.

(** ** Errors and identities ([lib.rs]) *)

Definition MAX_BATCH_ITEMS : N := 2 ^ 17.
Definition MAX_BATCH_LIFETIME_SECONDS : N := 86400.
Definition MAX_PARALLEL_ITEMS : N := 2 ^ 10.
Definition MAX_CLAIM_ITEMS : N := 2 ^ 12.
Definition MAX_ITEM_ATTEMPTS : N := 2 ^ 3.
Definition MAX_ID_BYTES : N := 2 ^ 7.
Definition MAX_IDEMPOTENCY_KEY_BYTES : N := 2 ^ 8.
Definition MAX_MUTATION_ID_BYTES : N := 2 ^ 7.
Definition MAX_CLAIM_ID_BYTES : N := 2 ^ 7.

Inductive BatchErrorCode :=
| InvalidArgument | EmptyBatch | TooManyItems | DuplicateItem | DuplicateAccount | DeadlineExceeded | LifetimeExceeded
| ResourceLimitExceeded | IdempotencyConflict | InvalidTransition | OutcomeIntentMismatch | RevisionExhausted | ClaimExpired
| InvalidStatus | ReceiptMismatch | InvalidPage.
#[export] Instance BatchErrorCode_eq_dec : EqDecision BatchErrorCode.
Proof. solve_decision. Defined.
Definition validation_error_code (code : BatchErrorCode) : string :=
  match code with
  | InvalidArgument => "ACCOUNT_BATCH_INVALID_ARGUMENT"
  | EmptyBatch => "ACCOUNT_BATCH_EMPTY"
  | TooManyItems => "ACCOUNT_BATCH_TOO_MANY_ITEMS"
  | DuplicateItem => "ACCOUNT_BATCH_DUPLICATE_ITEM"
  | DuplicateAccount => "ACCOUNT_BATCH_DUPLICATE_ACCOUNT"
  | DeadlineExceeded => "ACCOUNT_BATCH_DEADLINE_EXCEEDED"
  | _ => "ACCOUNT_BATCH_INVALID_ARGUMENT"
  end.
Definition operation_error_code (code : BatchErrorCode) : string :=
  match code with
  | LifetimeExceeded => "ACCOUNT_BATCH_LIFETIME_EXCEEDED"
  | ResourceLimitExceeded => "ACCOUNT_BATCH_RESOURCE_LIMIT_EXCEEDED"
  | IdempotencyConflict => "ACCOUNT_BATCH_IDEMPOTENCY_CONFLICT"
  | InvalidTransition => "ACCOUNT_BATCH_INVALID_TRANSITION"
  | OutcomeIntentMismatch => "ACCOUNT_BATCH_OUTCOME_INTENT_MISMATCH"
  | _ => "ACCOUNT_BATCH_INVALID_ARGUMENT"
  end.
Definition evidence_error_code (code : BatchErrorCode) : string :=
  match code with
  | RevisionExhausted => "ACCOUNT_BATCH_REVISION_EXHAUSTED"
  | ClaimExpired => "ACCOUNT_BATCH_CLAIM_EXPIRED"
  | InvalidStatus => "ACCOUNT_BATCH_INVALID_STATUS"
  | ReceiptMismatch => "ACCOUNT_BATCH_RECEIPT_MISMATCH"
  | InvalidPage => "ACCOUNT_BATCH_INVALID_PAGE"
  | _ => "ACCOUNT_BATCH_INVALID_ARGUMENT"
  end.
Definition as_str (code : BatchErrorCode) : string :=
  match code with
  | InvalidArgument | EmptyBatch | TooManyItems | DuplicateItem | DuplicateAccount | DeadlineExceeded => validation_error_code code
  | LifetimeExceeded | ResourceLimitExceeded | IdempotencyConflict | InvalidTransition | OutcomeIntentMismatch => operation_error_code code
  | RevisionExhausted | ClaimExpired | InvalidStatus | ReceiptMismatch | InvalidPage => evidence_error_code code
  end.
Notation outcome := (result BatchErrorCode).

(** [bounded_id!]: one family of types, indexed by the kind of identity. *)
Inductive batch_key_kind := OperationKind | BatchKind | ItemKind | IdempotencyKind | MutationKind | ClaimKind.
Record BatchKey (k : batch_key_kind) := mk_BatchKey { key_str : string }.
Arguments mk_BatchKey {k} _.
Arguments key_str {k} _.
#[export] Instance BatchKey_eq_dec k : EqDecision (BatchKey k).
Proof. solve_decision. Defined.
Definition key_limit (k : batch_key_kind) : N :=
  match k with
  | OperationKind | BatchKind | ItemKind => MAX_ID_BYTES
  | IdempotencyKind => MAX_IDEMPOTENCY_KEY_BYTES
  | MutationKind => MAX_MUTATION_ID_BYTES
  | ClaimKind => MAX_CLAIM_ID_BYTES
  end.
Definition valid_visible (value : string) (limit : N) : bool :=
  negb (is_empty value) && (byte_len value <=? limit) && is_ascii value && negb (any_byte is_ascii_control value).
Definition key_parse (k : batch_key_kind) (value : string) : outcome (BatchKey k) :=
  if negb (valid_visible value (key_limit k)) then Err InvalidArgument else Ok (mk_BatchKey value).
Notation OperationId := (BatchKey OperationKind).
Notation BatchId := (BatchKey BatchKind).
Notation BatchItemId := (BatchKey ItemKind).
Notation IdempotencyKey := (BatchKey IdempotencyKind).
Notation MutationId := (BatchKey MutationKind).
Notation ClaimId := (BatchKey ClaimKind).

(** ** Revisions, attempts and ordinals ([lib.rs]) *)

Definition revision_initial : N := 0.
Definition revision_next (r : N) : outcome N := ok_or (checked_add u64_max r 1) RevisionExhausted.
Definition attempt_first : N := 1.
Definition attempt_new (value : N) : outcome N :=
  reject_if (value =? 0) InvalidArgument ;;
  reject_if (MAX_ITEM_ATTEMPTS <? value) ResourceLimitExceeded ;;
  mret value.
Definition attempt_next (attempt maximum : N) : outcome N :=
  reject_if (MAX_ITEM_ATTEMPTS <? maximum) ResourceLimitExceeded ;;
  reject_if (maximum <=? attempt) ResourceLimitExceeded ;;
  ok_or (checked_add u8_max attempt 1) ResourceLimitExceeded.
Record RevisionEvidence := mk_RevisionEvidence { v_claim_revision : N; v_resulting_revision : N; v_intervening_revisions : N }.
Definition evidence_new (claim_revision resulting_revision intervening_revisions : N) : outcome RevisionEvidence :=
  next ← revision_next claim_revision;
  expected ← ok_or (checked_add u64_max next intervening_revisions) RevisionExhausted;
  reject_if (negb (expected =? resulting_revision)) ReceiptMismatch ;;
  mret (mk_RevisionEvidence claim_revision resulting_revision intervening_revisions).
Definition ordinal_new (value : N) : outcome N := if MAX_BATCH_ITEMS <=? value then Err ResourceLimitExceeded else Ok value.

(** ** Lifecycle ([lifecycle.rs]) *)

Inductive BatchTerminalState := Succeeded | CompletedWithFailures | CancelledState | DeadlineExceededState | Failed.
#[export] Instance BatchTerminalState_eq_dec : EqDecision BatchTerminalState.
Proof. solve_decision. Defined.
Inductive BatchLifecycle := Planned | Running | Cancelling | Terminal (t : BatchTerminalState).
#[export] Instance BatchLifecycle_eq_dec : EqDecision BatchLifecycle.
Proof. solve_decision. Defined.
Definition start (l : BatchLifecycle) (now deadline : N) : outcome BatchLifecycle :=
  reject_if (deadline <=? now) DeadlineExceeded ;;
  match l with Planned => Ok Running | _ => Err InvalidTransition end.
Definition request_cancellation (l : BatchLifecycle) : outcome BatchLifecycle :=
  match l with
  | Planned => Ok (Terminal CancelledState)
  | Running => Ok Cancelling
  | Cancelling | Terminal CancelledState => Ok l
  | Terminal _ => Err InvalidTransition
  end.
Definition finish_running (t : BatchTerminalState) : outcome BatchLifecycle :=
  match t with
  | Succeeded | CompletedWithFailures | Failed => Ok (Terminal t)
  | CancelledState | DeadlineExceededState => Err InvalidTransition
  end.
Definition finish_cancelling (t : BatchTerminalState) : outcome BatchLifecycle :=
  match t with
  | CancelledState | Failed | Succeeded | CompletedWithFailures => Ok (Terminal t)
  | DeadlineExceededState => Err InvalidTransition
  end.
Definition finish (l : BatchLifecycle) (t : BatchTerminalState) : outcome BatchLifecycle :=
  match l with
  | Running => finish_running t
  | Cancelling => finish_cancelling t
  | Terminal existing => if bool_decide (existing = t) then Ok l else Err InvalidTransition
  | Planned => Err InvalidTransition
  end.
Definition expire (l : BatchLifecycle) (now deadline : N) : outcome BatchLifecycle :=
  reject_if (now <? deadline) InvalidTransition ;;
  match l with
  | Terminal DeadlineExceededState => Ok l
  | Terminal _ => Err InvalidTransition
  | Planned | Running | Cancelling => Ok (Terminal DeadlineExceededState)
  end.
Inductive BatchTransition := Start | RequestCancellation | Expire | Finish (t : BatchTerminalState).
Definition validate_observed_at (t : BatchTransition) (observed_at deadline : N) : outcome unit :=
  let valid :=
    match t with
    | Start | RequestCancellation => observed_at <? deadline
    | Expire => deadline <=? observed_at
    | Finish _ => true
    end in
  if valid then Ok tt else Err DeadlineExceeded.

(** ** Plans and their replay ([lib.rs]) *)

Record BatchIdentity := mk_BatchIdentity { i_tenant_id : TenantId; i_operation_id : OperationId; i_batch_id : BatchId }.
#[export] Instance BatchIdentity_eq_dec : EqDecision BatchIdentity.
Proof. solve_decision. Defined.
Record BatchResourceLimits := mk_BatchResourceLimits { max_parallel_items : N; max_claim_items : N; max_item_attempts : N }.
#[export] Instance BatchResourceLimits_eq_dec : EqDecision BatchResourceLimits.
Proof. solve_decision. Defined.
Definition validate_resource_limits (parallel claim attempts : N) : outcome unit :=
  reject_if ((MAX_PARALLEL_ITEMS <? parallel) || (MAX_CLAIM_ITEMS <? claim) || (MAX_ITEM_ATTEMPTS <? attempts)) ResourceLimitExceeded.
Definition resources_new (parallel claim attempts : N) : outcome BatchResourceLimits :=
  reject_if (parallel =? 0) InvalidArgument ;;
  reject_if (claim =? 0) InvalidArgument ;;
  reject_if (attempts =? 0) InvalidArgument ;;
  validate_resource_limits parallel claim attempts ;;
  mret (mk_BatchResourceLimits parallel claim attempts).
Inductive BatchIntent := DryRun | Execute.
#[export] Instance BatchIntent_eq_dec : EqDecision BatchIntent.
Proof. solve_decision. Defined.
#[export] Instance action_eq_dec : EqDecision AccountDomain.AccountTransitionAction.
Proof. solve_decision. Defined.
#[export] Instance command_eq_dec : EqDecision AccountDomain.AccountTransitionCommand.
Proof. solve_decision. Defined.
Record BatchItem := mk_BatchItem { t_id : BatchItemId; t_account_id : AccountId; t_command : AccountDomain.AccountTransitionCommand }.
#[export] Instance BatchItem_eq_dec : EqDecision BatchItem.
Proof. solve_decision. Defined.
Record BatchSubmission := mk_BatchSubmission {
  s_tenant_id : TenantId; s_idempotency_key : IdempotencyKey; s_intent : BatchIntent; s_created_at : N; s_deadline : N;
  s_resources : BatchResourceLimits; s_items : list BatchItem;
}.
#[export] Instance BatchSubmission_eq_dec : EqDecision BatchSubmission.
Proof. solve_decision. Defined.
Definition validate_item_count (item_count : N) : outcome unit :=
  reject_if (item_count =? 0) EmptyBatch ;;
  reject_if (MAX_BATCH_ITEMS <? item_count) TooManyItems.
Definition validate_window (created_at deadline : N) : outcome unit :=
  lifetime ← ok_or (checked_sub deadline created_at) DeadlineExceeded;
  reject_if (lifetime =? 0) DeadlineExceeded ;;
  reject_if (MAX_BATCH_LIFETIME_SECONDS <? lifetime) LifetimeExceeded.
(** The loop of [validate_unique_items], with the two sets it has filled so far. *)
Fixpoint unique_items (item_ids : list BatchItemId) (account_ids : list AccountId) (items : list BatchItem) : outcome unit :=
  match items with
  | [] => Ok tt
  | item :: rest =>
      if bool_decide (t_id item ∈ item_ids) then Err DuplicateItem
      else if bool_decide (t_account_id item ∈ account_ids) then Err DuplicateAccount
      else unique_items (t_id item :: item_ids) (t_account_id item :: account_ids) rest
  end.
Definition validate_unique_items (items : list BatchItem) : outcome unit := unique_items [] [] items.
Definition submission_new (tenant_id : TenantId) (idempotency_key : IdempotencyKey) (intent : BatchIntent) (created_at deadline : N)
    (resources : BatchResourceLimits) (items : list BatchItem) : outcome BatchSubmission :=
  validate_item_count (len items) ;;
  validate_window created_at deadline ;;
  validate_unique_items items ;;
  mret (mk_BatchSubmission tenant_id idempotency_key intent created_at deadline resources items).
Record BatchPlan := mk_BatchPlan { p_operation_id : OperationId; p_batch_id : BatchId; p_submission : BatchSubmission }.
Definition plan_identity (p : BatchPlan) : BatchIdentity := mk_BatchIdentity (s_tenant_id (p_submission p)) (p_operation_id p) (p_batch_id p).
Inductive BatchReplayDecision := CreateNew | ReturnExisting (operation_id : OperationId) (batch_id : BatchId).
Definition replay_decision (p : BatchPlan) (candidate : BatchSubmission) : outcome BatchReplayDecision :=
  if bool_decide (s_tenant_id (p_submission p) <> s_tenant_id candidate)
    || bool_decide (s_idempotency_key (p_submission p) <> s_idempotency_key candidate) then Ok CreateNew
  else if bool_decide (p_submission p = candidate) then Ok (ReturnExisting (p_operation_id p) (p_batch_id p))
  else Err IdempotencyConflict.

(** ** Status ([lib.rs]) *)

Record BatchStatus := mk_BatchStatus {
  st_identity : BatchIdentity; st_lifecycle : BatchLifecycle; st_revision : N; st_total_items : N; st_completed_items : N; st_failed_items : N;
}.
Definition is_terminal (l : BatchLifecycle) : bool := match l with Terminal _ => true | _ => false end.
Definition validate_common_counts (total completed failed : N) : outcome unit :=
  reject_if ((total =? 0) || (MAX_BATCH_ITEMS <? total)) InvalidStatus ;;
  reject_if (total <? completed) InvalidStatus ;;
  reject_if (completed <? failed) InvalidStatus.
Definition require_no_progress (completed failed : N) : outcome unit :=
  reject_if (negb (completed =? 0) || negb (failed =? 0)) InvalidStatus.
Definition require_incomplete (total completed : N) : outcome unit := reject_if (total <=? completed) InvalidStatus.
Definition validate_succeeded (total completed failed : N) : outcome unit :=
  reject_if (negb (completed =? total) || negb (failed =? 0)) InvalidStatus.
Definition validate_completed_with_failures (total completed failed : N) : outcome unit :=
  reject_if (negb (completed =? total) || (failed =? 0)) InvalidStatus.
Definition validate_terminal_counts (t : BatchTerminalState) (total completed failed : N) : outcome unit :=
  match t with
  | Succeeded => validate_succeeded total completed failed
  | CompletedWithFailures => validate_completed_with_failures total completed failed
  | CancelledState | DeadlineExceededState => require_incomplete total completed
  | Failed => require_incomplete total completed
  end.
Definition validate_lifecycle_counts (l : BatchLifecycle) (total completed failed : N) : outcome unit :=
  match l with
  | Planned => require_no_progress completed failed
  | Running | Cancelling => require_incomplete total completed
  | Terminal t => validate_terminal_counts t total completed failed
  end.
Definition status_new (identity : BatchIdentity) (l : BatchLifecycle) (revision total completed failed : N) : outcome BatchStatus :=
  reject_if (is_terminal l) InvalidStatus ;;
  validate_common_counts total completed failed ;;
  validate_lifecycle_counts l total completed failed ;;
  mret (mk_BatchStatus identity l revision total completed failed).
(** [NoLiveClaims]: the evidence that no claim is live. *)
Record NoLiveClaims := mk_NoLiveClaims { }.
Definition no_live_claims_new (live_claims : N) : outcome NoLiveClaims :=
  if live_claims =? 0 then Ok mk_NoLiveClaims else Err InvalidStatus.
Definition status_new_terminal (identity : BatchIdentity) (l : BatchLifecycle) (revision total completed failed : N) (claims : NoLiveClaims)
    : outcome BatchStatus :=
  validate_common_counts total completed failed ;;
  reject_if (negb (is_terminal l)) InvalidStatus ;;
  validate_lifecycle_counts l total completed failed ;;
  mret (mk_BatchStatus identity l revision total completed failed).
Definition validate_no_live_claims (s : BatchStatus) (live_claims : N) : outcome unit :=
  reject_if (is_terminal (st_lifecycle s) && negb (live_claims =? 0)) InvalidStatus.

(** ** Claims ([execution.rs]) *)

Definition MAX_CLAIM_LEASE_SECONDS : N := 2 ^ 12.
Record SubmitBatch := mk_SubmitBatch { b_mutation_id : MutationId; b_plan : BatchPlan }.
Inductive BatchSubmitDisposition := Created | Replayed.
#[export] Instance BatchSubmitDisposition_eq_dec : EqDecision BatchSubmitDisposition.
Proof. solve_decision. Defined.
Record SubmissionReceipt := mk_SubmissionReceipt { sr_mutation_id : MutationId; sr_disposition : BatchSubmitDisposition; sr_status : BatchStatus }.
Definition validate_submission_binding (c : SubmitBatch) (s : BatchStatus) : outcome unit :=
  reject_if (bool_decide (st_identity s <> plan_identity (b_plan c))) ReceiptMismatch ;;
  reject_if (negb (st_total_items s =? len (s_items (p_submission (b_plan c))))) ReceiptMismatch.
Definition validate_created_submission_status (s : BatchStatus) : outcome unit :=
  reject_if (bool_decide (st_lifecycle s <> Planned)) ReceiptMismatch ;;
  reject_if (negb (st_revision s =? revision_initial)) ReceiptMismatch.
Definition validate_submission_disposition (d : BatchSubmitDisposition) (s : BatchStatus) : outcome unit :=
  if bool_decide (d = Created) then validate_created_submission_status s else Ok tt.
Definition submission_receipt_new (c : SubmitBatch) (d : BatchSubmitDisposition) (s : BatchStatus) : outcome SubmissionReceipt :=
  validate_submission_binding c s ;;
  validate_submission_disposition d s ;;
  mret (mk_SubmissionReceipt (b_mutation_id c) d s).

Definition claim_limit_new (value : N) : outcome N :=
  reject_if (value =? 0) InvalidArgument ;;
  reject_if (MAX_CLAIM_ITEMS <? value) ResourceLimitExceeded ;;
  mret value.
Record ClaimBatchItems := mk_ClaimBatchItems {
  q_mutation_id : MutationId; q_identity : BatchIdentity; q_expected_revision : N; q_claim_id : ClaimId; q_observed_at : N;
  q_lease_expires_at : N; q_limit : N;
}.
Definition validate_claim_window (observed_at lease_expires_at : N) : outcome unit :=
  lifetime ← ok_or (checked_sub lease_expires_at observed_at) ClaimExpired;
  reject_if (lifetime =? 0) ClaimExpired ;;
  reject_if (MAX_CLAIM_LEASE_SECONDS <? lifetime) ResourceLimitExceeded.
Definition claim_request_new (mutation_id : MutationId) (identity : BatchIdentity) (expected_revision : N) (claim_id : ClaimId)
    (observed_at lease_expires_at limit : N) : outcome ClaimBatchItems :=
  validate_claim_window observed_at lease_expires_at ;;
  mret (mk_ClaimBatchItems mutation_id identity expected_revision claim_id observed_at lease_expires_at limit).
Record ClaimAssignment := mk_ClaimAssignment { a_ordinal : N; a_item : BatchItem; a_attempt : N }.
Record ClaimedBatchItem := mk_ClaimedBatchItem {
  c_identity : BatchIdentity; c_claim_id : ClaimId; c_claim_revision : N; c_lease_expires_at : N; c_deadline : N; c_intent : BatchIntent;
  c_ordinal : N; c_item : BatchItem; c_attempt : N;
}.
Record BatchClaim := mk_BatchClaim {
  bc_identity : BatchIdentity; bc_claim_id : ClaimId; bc_revision : N; bc_lease_expires_at : N; bc_items : list ClaimedBatchItem;
}.
Definition validate_claim_identity (q : ClaimBatchItems) (p : BatchPlan) : outcome unit :=
  reject_if (bool_decide (q_identity q <> plan_identity p)) ReceiptMismatch.
Definition validate_claim_revision (q : ClaimBatchItems) (revision : N) : outcome unit :=
  next ← revision_next (q_expected_revision q);
  reject_if (negb (revision =? next)) ReceiptMismatch.
Definition validate_claim_limit (q : ClaimBatchItems) (p : BatchPlan) : outcome unit :=
  reject_if (max_claim_items (s_resources (p_submission p)) <? q_limit q) ResourceLimitExceeded.
Definition validate_claim_deadline (q : ClaimBatchItems) (p : BatchPlan) : outcome unit :=
  reject_if (s_deadline (p_submission p) <=? q_observed_at q) DeadlineExceeded ;;
  reject_if (s_deadline (p_submission p) <? q_lease_expires_at q) DeadlineExceeded.
Definition validate_claim_context (q : ClaimBatchItems) (p : BatchPlan) (revision : N) : outcome unit :=
  validate_claim_identity q p ;;
  validate_claim_revision q revision ;;
  validate_claim_limit q p ;;
  validate_claim_deadline q p.
Definition validate_assignment (p : BatchPlan) (a : ClaimAssignment) : outcome unit :=
  let planned := s_items (p_submission p) !! N.to_nat (a_ordinal a) in
  reject_if (bool_decide (planned <> Some (a_item a))) ReceiptMismatch ;;
  reject_if (max_item_attempts (s_resources (p_submission p)) <? a_attempt a) ResourceLimitExceeded.
(** The loop of [validate_assignments], with the ordinal before. *)
Fixpoint ordered_assignments (p : BatchPlan) (previous : option N) (assignments : list ClaimAssignment) : outcome unit :=
  match assignments with
  | [] => Ok tt
  | a :: rest =>
      validate_assignment p a ;;
      reject_if (is_some_and (fun ordinal => a_ordinal a <=? ordinal) previous) ReceiptMismatch ;;
      ordered_assignments p (Some (a_ordinal a)) rest
  end.
Definition validate_assignments (p : BatchPlan) (limit : N) (assignments : list ClaimAssignment) : outcome unit :=
  reject_if (limit <? len assignments) ResourceLimitExceeded ;;
  ordered_assignments p None assignments.
Definition claimed_item (q : ClaimBatchItems) (p : BatchPlan) (revision : N) (a : ClaimAssignment) : ClaimedBatchItem :=
  mk_ClaimedBatchItem (q_identity q) (q_claim_id q) revision (q_lease_expires_at q) (s_deadline (p_submission p)) (s_intent (p_submission p))
    (a_ordinal a) (a_item a) (a_attempt a).
Definition claim_new (q : ClaimBatchItems) (p : BatchPlan) (revision : N) (assignments : list ClaimAssignment) : outcome BatchClaim :=
  validate_claim_context q p revision ;;
  validate_assignments p (q_limit q) assignments ;;
  let items := claimed_item q p revision <$> assignments in
  mret (mk_BatchClaim (q_identity q) (q_claim_id q) revision (q_lease_expires_at q) items).
Record ClaimReceipt := mk_ClaimReceipt { cr_mutation_id : MutationId; cr_claim : BatchClaim; cr_status : BatchStatus }.
Definition claim_receipt_new (mutation_id : MutationId) (claim : BatchClaim) (s : BatchStatus) : outcome ClaimReceipt :=
  reject_if (bool_decide (bc_identity claim <> st_identity s) || negb (bc_revision claim =? st_revision s)) ReceiptMismatch ;;
  reject_if (bool_decide (st_lifecycle s <> Running)) ReceiptMismatch ;;
  mret (mk_ClaimReceipt mutation_id claim s).

(** ** Outcomes ([execution.rs]) *)

Record CompleteClaimedItem := mk_CompleteClaimedItem { ci_mutation_id : MutationId; ci_claimed_item : ClaimedBatchItem; ci_observed_at : N }.
Definition complete_new (mutation_id : MutationId) (item : ClaimedBatchItem) (observed_at : N) : outcome CompleteClaimedItem :=
  reject_if ((c_lease_expires_at item <=? observed_at) || (c_deadline item <=? observed_at)) ClaimExpired ;;
  mret (mk_CompleteClaimedItem mutation_id item observed_at).
Inductive BatchItemFailureCode :=
| AccountNotFound | FailureVersionConflict | FailureInvalidTransition | PermissionDenied | FailureCancelled | FailureDeadlineExceeded
| ResourceExhausted | AdapterUnavailable.
Inductive BatchItemResult :=
| WouldApply (event : AccountDomain.AccountLifecycleEvent)
| Applied (event : AccountDomain.AccountLifecycleEvent)
| Rejected (code : BatchItemFailureCode).
Record BatchItemOutcome := mk_BatchItemOutcome { o_claimed_item : ClaimedBatchItem; o_result : BatchItemResult; o_committed_at : N }.
Definition validate_outcome_intent (intent : BatchIntent) (result : BatchItemResult) : outcome unit :=
  let compatible :=
    match result with
    | WouldApply _ => bool_decide (intent = DryRun)
    | Applied _ => bool_decide (intent = Execute)
    | Rejected _ => true
    end in
  reject_if (negb compatible) OutcomeIntentMismatch.
Definition outcome_event (result : BatchItemResult) : option AccountDomain.AccountLifecycleEvent :=
  match result with WouldApply event | Applied event => Some event | Rejected _ => None end.
Definition event_matches_action (action : AccountDomain.AccountTransitionAction) (event : AccountDomain.AccountLifecycleEvent) : bool :=
  match action, AccountDomain.event_from event, AccountDomain.event_to event with
  | AccountDomain.Activate, (AccountDomain.Provisioning | AccountDomain.Suspended), AccountDomain.Active
  | AccountDomain.Suspend, AccountDomain.Active, AccountDomain.Suspended
  | AccountDomain.Resume, AccountDomain.Suspended, AccountDomain.Active
  | AccountDomain.Revoke, (AccountDomain.Provisioning | AccountDomain.Active | AccountDomain.Suspended), AccountDomain.Revoked
  | AccountDomain.Delete, AccountDomain.Revoked, AccountDomain.Deleted => true
  | _, _, _ => false
  end.
Definition validate_event_identity (item : ClaimedBatchItem) (event : AccountDomain.AccountLifecycleEvent) : outcome unit :=
  reject_if (bool_decide (AccountDomain.event_account_id event <> t_account_id (c_item item))) ReceiptMismatch.
Definition validate_event_version (item : ClaimedBatchItem) (event : AccountDomain.AccountLifecycleEvent) : outcome unit :=
  let expected := checked_add u64_max (AccountDomain.expected_version (t_command (c_item item))) 1 in
  reject_if (bool_decide (expected <> Some (AccountDomain.event_version event))) ReceiptMismatch.
Definition validate_event_transition (item : ClaimedBatchItem) (event : AccountDomain.AccountLifecycleEvent) : outcome unit :=
  reject_if (negb (event_matches_action (AccountDomain.action (t_command (c_item item))) event)) ReceiptMismatch.
Definition validate_outcome_event (item : ClaimedBatchItem) (result : BatchItemResult) : outcome unit :=
  match outcome_event result with
  | None => Ok tt
  | Some event =>
      validate_event_identity item event ;;
      validate_event_version item event ;;
      validate_event_transition item event
  end.
Definition outcome_new (item : ClaimedBatchItem) (result : BatchItemResult) (committed_at : N) : outcome BatchItemOutcome :=
  validate_outcome_intent (c_intent item) result ;;
  validate_outcome_event item result ;;
  mret (mk_BatchItemOutcome item result committed_at).

(** ** Receipts ([execution.rs]) *)

Record ItemCompletionReceipt := mk_ItemCompletionReceipt { ir_mutation_id : MutationId; ir_outcome : BatchItemOutcome; ir_status : BatchStatus }.
Definition new_with_revision_evidence (mutation_id : MutationId) (o : BatchItemOutcome) (s : BatchStatus) (evidence : RevisionEvidence)
    : outcome ItemCompletionReceipt :=
  reject_if (bool_decide (c_identity (o_claimed_item o) <> st_identity s)) ReceiptMismatch ;;
  reject_if (negb (v_claim_revision evidence =? c_claim_revision (o_claimed_item o)) || negb (v_resulting_revision evidence =? st_revision s))
    ReceiptMismatch ;;
  mret (mk_ItemCompletionReceipt mutation_id o s).
Definition completion_receipt_new (mutation_id : MutationId) (o : BatchItemOutcome) (s : BatchStatus) : outcome ItemCompletionReceipt :=
  evidence ← evidence_new (c_claim_revision (o_claimed_item o)) (st_revision s) 0;
  new_with_revision_evidence mutation_id o s evidence.
Definition new_with_intervening_revisions (mutation_id : MutationId) (o : BatchItemOutcome) (s : BatchStatus) (intervening_revisions : N)
    : outcome ItemCompletionReceipt :=
  count ← (if intervening_revisions <=? u32_max then Ok intervening_revisions else Err ResourceLimitExceeded);
  evidence ← evidence_new (c_claim_revision (o_claimed_item o)) (st_revision s) count;
  new_with_revision_evidence mutation_id o s evidence.
Record TransitionBatch := mk_TransitionBatch {
  x_mutation_id : MutationId; x_identity : BatchIdentity; x_expected_revision : N; x_observed_at : N; x_transition : BatchTransition;
  x_deadline : option N;
}.
Definition transition_new (mutation_id : MutationId) (identity : BatchIdentity) (expected_revision observed_at : N) (t : BatchTransition)
    : TransitionBatch := mk_TransitionBatch mutation_id identity expected_revision observed_at t None.
Definition with_deadline (mutation_id : MutationId) (identity : BatchIdentity) (expected_revision observed_at deadline : N) (t : BatchTransition)
    : TransitionBatch := mk_TransitionBatch mutation_id identity expected_revision observed_at t (Some deadline).
Record TransitionReceipt := mk_TransitionReceipt { tr_mutation_id : MutationId; tr_status : BatchStatus; tr_observed_at : N; tr_committed_at : N }.
Definition validate_transition_identity (c : TransitionBatch) (s : BatchStatus) : outcome unit :=
  reject_if (bool_decide (st_identity s <> x_identity c)) ReceiptMismatch.
Definition validate_transition_revision (c : TransitionBatch) (s : BatchStatus) : outcome unit :=
  next ← revision_next (x_expected_revision c);
  reject_if (negb (st_revision s =? next)) ReceiptMismatch.
Definition validate_transition_lifecycle (c : TransitionBatch) (s : BatchStatus) : outcome unit :=
  let compatible :=
    match x_transition c with
    | Start => bool_decide (st_lifecycle s = Running)
    | RequestCancellation => bool_decide (st_lifecycle s = Cancelling) || bool_decide (st_lifecycle s = Terminal CancelledState)
    | Expire => bool_decide (st_lifecycle s = Terminal DeadlineExceededState)
    | Finish t => bool_decide (st_lifecycle s = Terminal t)
    end in
  reject_if (negb compatible) ReceiptMismatch.
Definition new_with_committed_at (c : TransitionBatch) (s : BatchStatus) (committed_at : N) : outcome TransitionReceipt :=
  validate_transition_identity c s ;;
  validate_transition_revision c s ;;
  validate_transition_lifecycle c s ;;
  mret (mk_TransitionReceipt (x_mutation_id c) s (x_observed_at c) committed_at).
Definition transition_receipt_new (c : TransitionBatch) (s : BatchStatus) : outcome TransitionReceipt :=
  match x_deadline c with
  | Some deadline => validate_observed_at (x_transition c) (x_observed_at c) deadline
  | None => Ok tt
  end ;;
  new_with_committed_at c s (x_observed_at c).
Inductive BatchMutationKind := Submission | Claim | ItemCompletion | Transition.
#[export] Instance BatchMutationKind_eq_dec : EqDecision BatchMutationKind.
Proof. solve_decision. Defined.
Inductive BatchMutationReceipt :=
| Submitted (receipt : SubmissionReceipt)
| Claimed (receipt : ClaimReceipt)
| ItemCompleted (receipt : ItemCompletionReceipt)
| Transitioned (receipt : TransitionReceipt).
Definition receipt_kind (r : BatchMutationReceipt) : BatchMutationKind :=
  match r with Submitted _ => Submission | Claimed _ => Claim | ItemCompleted _ => ItemCompletion | Transitioned _ => Transition end.
Definition receipt_mutation_id (r : BatchMutationReceipt) : MutationId :=
  match r with
  | Submitted r => sr_mutation_id r | Claimed r => cr_mutation_id r | ItemCompleted r => ir_mutation_id r | Transitioned r => tr_mutation_id r
  end.
Definition receipt_identity (r : BatchMutationReceipt) : BatchIdentity :=
  match r with
  | Submitted r => st_identity (sr_status r) | Claimed r => st_identity (cr_status r) | ItemCompleted r => st_identity (ir_status r)
  | Transitioned r => st_identity (tr_status r)
  end.

(** ** Pages ([paging.rs]) *)

Definition MAX_OUTCOME_PAGE_ITEMS : N := 2 ^ 10.
Definition page_limit_new (value : N) : outcome N :=
  reject_if (value =? 0) InvalidArgument ;;
  reject_if (MAX_OUTCOME_PAGE_ITEMS <? value) ResourceLimitExceeded ;;
  mret value.
(** A cursor is the ordinal it is after. *)
Record OutcomePageRequest := mk_OutcomePageRequest {
  pr_identity : BatchIdentity; pr_expected_revision : N; pr_after : option N; pr_limit : N; pr_total_items : N;
}.
Record OutcomePage := mk_OutcomePage { pg_identity : BatchIdentity; pg_revision : N; pg_outcomes : list BatchItemOutcome; pg_next_cursor : option N }.
Definition outcome_ordinal (o : BatchItemOutcome) : N := c_ordinal (o_claimed_item o).
Definition validate_page_size (limit length : N) (has_more : bool) : outcome unit :=
  reject_if (limit <? length) InvalidPage ;;
  reject_if (has_more && (length =? 0)) InvalidPage.
Definition validate_page_entry (q : OutcomePageRequest) (o : BatchItemOutcome) (previous : option N) : outcome unit :=
  let valid := bool_decide (c_identity (o_claimed_item o) = pr_identity q) && (outcome_ordinal o <? pr_total_items q)
    && is_none_or (fun ordinal => ordinal <? outcome_ordinal o) previous in
  if valid then Ok tt else Err InvalidPage.
(** The loop of [validate_page_order], with the ordinal before. *)
Fixpoint ordered_page (q : OutcomePageRequest) (previous : option N) (outcomes : list BatchItemOutcome) : outcome unit :=
  match outcomes with
  | [] => Ok tt
  | o :: rest => validate_page_entry q o previous ;; ordered_page q (Some (outcome_ordinal o)) rest
  end.
Definition validate_page_order (q : OutcomePageRequest) (outcomes : list BatchItemOutcome) : outcome unit :=
  reject_if ((pr_total_items q =? 0) || (MAX_BATCH_ITEMS <? pr_total_items q)) InvalidPage ;;
  ordered_page q (pr_after q) outcomes.
Definition page_new (q : OutcomePageRequest) (outcomes : list BatchItemOutcome) (has_more : bool) : outcome OutcomePage :=
  validate_page_size (pr_limit q) (len outcomes) has_more ;;
  validate_page_order q outcomes ;;
  let next_cursor := if has_more then outcome_ordinal <$> last outcomes else None in
  mret (mk_OutcomePage (pr_identity q) (pr_expected_revision q) outcomes next_cursor).

(** ** Port errors and reconciliation ([port.rs]) *)

Inductive BatchPortErrorCode :=
| PortUnauthenticated | PortPermissionDenied | PortNotFound | PortConflict | PortClaimExpired | PortCancelled | PortDeadlineExceeded
| PortResourceExhausted | PortUnavailable | CommitIndeterminate | CorruptState.
#[export] Instance BatchPortErrorCode_eq_dec : EqDecision BatchPortErrorCode.
Proof. solve_decision. Defined.
Definition coordination_error_code (code : BatchPortErrorCode) : string :=
  match code with
  | PortUnauthenticated => "ACCOUNT_BATCH_PORT_UNAUTHENTICATED"
  | PortPermissionDenied => "ACCOUNT_BATCH_PORT_PERMISSION_DENIED"
  | PortNotFound => "ACCOUNT_BATCH_PORT_NOT_FOUND"
  | PortConflict => "ACCOUNT_BATCH_PORT_CONFLICT"
  | PortClaimExpired => "ACCOUNT_BATCH_PORT_CLAIM_EXPIRED"
  | PortCancelled => "ACCOUNT_BATCH_PORT_CANCELLED"
  | _ => "ACCOUNT_BATCH_PORT_CORRUPT_STATE"
  end.
Definition commit_error_code (code : BatchPortErrorCode) : string :=
  match code with
  | PortDeadlineExceeded => "ACCOUNT_BATCH_PORT_DEADLINE_EXCEEDED"
  | PortResourceExhausted => "ACCOUNT_BATCH_PORT_RESOURCE_EXHAUSTED"
  | PortUnavailable => "ACCOUNT_BATCH_PORT_UNAVAILABLE"
  | CommitIndeterminate => "ACCOUNT_BATCH_PORT_COMMIT_INDETERMINATE"
  | CorruptState => "ACCOUNT_BATCH_PORT_CORRUPT_STATE"
  | _ => "ACCOUNT_BATCH_PORT_CORRUPT_STATE"
  end.
Definition port_as_str (code : BatchPortErrorCode) : string :=
  match code with
  | PortUnauthenticated | PortPermissionDenied | PortNotFound | PortConflict | PortClaimExpired | PortCancelled => coordination_error_code code
  | PortDeadlineExceeded | PortResourceExhausted | PortUnavailable | CommitIndeterminate | CorruptState => commit_error_code code
  end.
Definition requires_reconciliation (code : BatchPortErrorCode) : bool := bool_decide (code = CommitIndeterminate).
(** [reconcile_mutation_kind] over the port's own [reconcile_mutation]. *)
Definition reconcile_mutation_kind (reconciled : result BatchPortErrorCode (option BatchMutationReceipt)) (expected_kind : BatchMutationKind)
    : result BatchPortErrorCode (option BatchMutationReceipt) :=
  found ← reconciled;
  mret (match found with Some r => if bool_decide (receipt_kind r = expected_kind) then Some r else None | None => None end).

(** ** Specification *)

(** What a requested transition makes of the lifecycle. *)
Definition move (l : BatchLifecycle) (t : BatchTransition) (now deadline : N) : outcome BatchLifecycle :=
  match t with
  | Start => start l now deadline
  | RequestCancellation => request_cancellation l
  | Expire => expire l now deadline
  | Finish t => finish l t
  end.
Inductive moves (deadline : N) : BatchLifecycle -> BatchLifecycle -> Prop :=
| moves_none l : moves deadline l l
| moves_more l t now l1 l2 : move l t now deadline = Ok l1 -> moves deadline l1 l2 -> moves deadline l l2.
(** The counts that a lifecycle allows. *)
Definition counts_ok (l : BatchLifecycle) (total completed failed : N) : Prop :=
  1 <= total <= MAX_BATCH_ITEMS /\ failed <= completed <= total /\
  match l with
  | Planned => completed = 0
  | Terminal Succeeded => completed = total /\ failed = 0
  | Terminal CompletedWithFailures => completed = total /\ failed <> 0
  | _ => completed < total
  end.
Definition increasing : list N -> Prop := StronglySorted N.lt.
Definition assignment_ok (p : BatchPlan) (a : ClaimAssignment) : Prop :=
  s_items (p_submission p) !! N.to_nat (a_ordinal a) = Some (a_item a) /\ a_attempt a <= max_item_attempts (s_resources (p_submission p)).
(** What the account domain makes of an item's command on an account in the state before the event. *)
Definition produced (item : ClaimedBatchItem) (event : AccountDomain.AccountLifecycleEvent) : Prop :=
  exists change, AccountDomain.apply_account_lifecycle (t_account_id (c_item item)) (AccountDomain.expected_version (t_command (c_item item)))
    (AccountDomain.event_from event) (t_command (c_item item)) = Ok change /\ AccountDomain.change_event change = event.
(** A durable log of outcomes of one batch in plan order, what an adapter serves of it, and the
    reading of all its pages, given fuel for their number. *)
Definition log_ok (i : BatchIdentity) (total : N) (log : list BatchItemOutcome) : Prop :=
  Forall (fun o => c_identity (o_claimed_item o) = i /\ outcome_ordinal o < total) log /\ increasing (outcome_ordinal <$> log).
Definition remaining (log : list BatchItemOutcome) (after : option N) : list BatchItemOutcome :=
  List.filter (fun o => is_none_or (fun ordinal => ordinal <? outcome_ordinal o) after) log.
Definition serve_page (log : list BatchItemOutcome) (q : OutcomePageRequest) : outcome OutcomePage :=
  let rest := remaining log (pr_after q) in
  page_new q (take (N.to_nat (pr_limit q)) rest) (pr_limit q <? len rest).
Fixpoint read_all (fuel : nat) (log : list BatchItemOutcome) (q : OutcomePageRequest) : option (list BatchItemOutcome) :=
  match fuel with
  | O => None
  | S fuel' =>
      match serve_page log q with
      | Err _ => None
      | Ok page =>
          match pg_next_cursor page with
          | None => Some (pg_outcomes page)
          | Some cursor =>
              rest ← read_all fuel' log (mk_OutcomePageRequest (pr_identity q) (pr_expected_revision q) (Some cursor) (pr_limit q) (pr_total_items q));
              Some (pg_outcomes page ++ rest)
          end
      end
  end.

Definition sample_item (n : string) : BatchItem := mk_BatchItem (mk_BatchKey n) (MkId n) (AccountDomain.mk_AccountTransitionCommand 4 AccountDomain.Suspend).
Definition sample_plan : BatchPlan :=
  mk_BatchPlan (mk_BatchKey "op") (mk_BatchKey "b") (mk_BatchSubmission (MkId "t") (mk_BatchKey "k") Execute 100 200 (mk_BatchResourceLimits 4 4 2)
    [sample_item "x"; sample_item "y"]).
Definition sample_claim_request : ClaimBatchItems :=
  mk_ClaimBatchItems (mk_BatchKey "m") (plan_identity sample_plan) 3 (mk_BatchKey "c") 110 150 2.
Definition sample_outcome (ordinal : N) : BatchItemOutcome :=
  mk_BatchItemOutcome (claimed_item sample_claim_request sample_plan 4 (mk_ClaimAssignment ordinal (sample_item "x") 1)) (Rejected AccountNotFound) 120.

(** ** Lemmas *)

Lemma finish_terminal l t l' : finish l t = Ok l' -> l' = Terminal t.
Proof. destruct l as [| | |t0]; cbn; [done|by destruct t; intros [= <-]|by destruct t; intros [= <-]|]. case_bool_decide as He; [|done]. intros [= <-]. by subst. Qed.
Lemma move_terminal t m now deadline l : move (Terminal t) m now deadline = Ok l -> l = Terminal t.
Proof.
  destruct m as [| | |t']; cbn.
  - unfold start. rewrite validated_Ok. by intros [_ ?].
  - by destruct t; intros [= <-].
  - unfold expire. rewrite validated_Ok. intros [_ H]. destruct t; (discriminate H || by injection H as <-).
  - case_bool_decide as He; [|done]. by intros [= <-].
Qed.
Lemma counts_exact l total completed failed :
  validate_common_counts total completed failed = Ok tt /\ validate_lifecycle_counts l total completed failed = Ok tt <-> counts_ok l total completed failed.
Proof.
  unfold validate_common_counts, counts_ok. rewrite !validated_Ok, !reject_if_Ok, orb_false_iff, N.eqb_neq, !N.ltb_ge.
  assert (validate_lifecycle_counts l total completed failed = Ok tt <-> match l with
    | Planned => completed = 0 /\ failed = 0 | Terminal Succeeded => completed = total /\ failed = 0 | Terminal CompletedWithFailures => completed = total /\ failed <> 0
    | _ => completed < total end) as ->; [|destruct l as [| | |[]]; lia].
  destruct l as [| | |[]]; cbn; unfold require_no_progress, require_incomplete, validate_succeeded, validate_completed_with_failures;
    rewrite reject_if_Ok, ?orb_false_iff, ?negb_false_iff, ?N.eqb_eq, ?N.leb_gt, ?N.eqb_neq; done.
Qed.
Lemma unique_items_Ok ids accounts items : unique_items ids accounts items = Ok tt <->
  (NoDup (t_id <$> items) /\ NoDup (t_account_id <$> items)) /\ forall i, i ∈ items -> t_id i ∉ ids /\ t_account_id i ∉ accounts.
Proof.
  revert ids accounts. induction items as [|i items IH]; intros ids accounts; cbn [unique_items].
  - split; [intros _; split; [split; constructor|by intros i ?%elem_of_nil]|done].
  - rewrite !fmap_cons, !NoDup_cons. case_bool_decide as H1; [split; [done|]; intros (_ & Hf); destruct (Hf i); [by left|done]|].
    case_bool_decide as H2; [split; [done|]; intros (_ & Hf); destruct (Hf i); [by left|done]|]. rewrite IH. setoid_rewrite elem_of_cons. rewrite !list_elem_of_fmap. split.
    + intros ([Hn1 Hn2] & Hf). split; [split; (split; [|done])|].
      * intros (j & Hj & Hin). destruct (Hf j Hin) as [Hx _]. apply Hx. by left.
      * intros (j & Hj & Hin). destruct (Hf j Hin) as [_ Hx]. apply Hx. by left.
      * intros j [->|Hin]; [done|]. specialize (Hf j Hin). tauto.
    + intros ([[Hn1 Hd1] [Hn2 Hd2]] & Hf). split; [done|]. intros j Hin. specialize (Hf j (or_intror Hin)). split; intros [He|He]; [apply Hn1; by exists j|tauto|apply Hn2; by exists j|tauto].
Qed.
Definition above (previous : option N) (n : N) : Prop := match previous with Some p => p < n | None => True end.
Lemma above_iff previous n : is_some_and (fun ordinal => n <=? ordinal) previous = false <-> above previous n.
Proof. destruct previous as [p|]; cbn; [by rewrite N.leb_gt|done]. Qed.
Lemma above_none_or previous n : is_none_or (fun ordinal => ordinal <? n) previous = true <-> above previous n.
Proof. destruct previous as [p|]; cbn; [by rewrite N.ltb_lt|done]. Qed.
Lemma increasing_cons previous n ns : increasing (n :: ns) /\ Forall (above previous) (n :: ns) <-> above previous n /\ increasing ns /\ Forall (above (Some n)) ns.
Proof.
  unfold increasing. rewrite Forall_cons. split.
  - intros [Hs [Hn _]]. inversion Hs as [|? ? Hs' Hf]; subst. done.
  - intros (Hn & Hs & Hf). split; [by constructor|]. split; [done|]. eapply Forall_impl; [exact Hf|]. intros m Hm. destruct previous as [p|]; cbn in *; [lia|done].
Qed.
Lemma ordered_assignments_Ok p previous assignments : ordered_assignments p previous assignments = Ok tt <->
  Forall (assignment_ok p) assignments /\ increasing (a_ordinal <$> assignments) /\ Forall (above previous) (a_ordinal <$> assignments).
Proof.
  revert previous. induction assignments as [|a rest IH]; intros previous; cbn [ordered_assignments]; [by repeat split; constructor|].
  rewrite !validated_Ok, reject_if_Ok, above_iff, IH, fmap_cons, increasing_cons, Forall_cons.
  assert (validate_assignment p a = Ok tt <-> assignment_ok p a) as ->; [|tauto].
  unfold validate_assignment, assignment_ok. cbv zeta. by rewrite validated_Ok, keeps, reject_if_Ok, N.ltb_ge.
Qed.
Lemma ordered_page_Ok q previous outcomes : ordered_page q previous outcomes = Ok tt <->
  Forall (fun o => c_identity (o_claimed_item o) = pr_identity q /\ outcome_ordinal o < pr_total_items q) outcomes /\
  increasing (outcome_ordinal <$> outcomes) /\ Forall (above previous) (outcome_ordinal <$> outcomes).
Proof.
  revert previous. induction outcomes as [|o rest IH]; intros previous; cbn [ordered_page]; [by repeat split; constructor|].
  rewrite validated_Ok, IH, fmap_cons, increasing_cons, Forall_cons.
  assert (validate_page_entry q o previous = Ok tt <-> (c_identity (o_claimed_item o) = pr_identity q /\ outcome_ordinal o < pr_total_items q) /\ above previous (outcome_ordinal o)) as ->; [|tauto].
  unfold validate_page_entry. cbv zeta. pose proof (above_none_or previous (outcome_ordinal o)) as Hp. pose proof (N.ltb_lt (outcome_ordinal o) (pr_total_items q)) as Hl.
  destruct (is_none_or _ previous), (outcome_ordinal o <? pr_total_items q); case_bool_decide as Hi; cbn; (split; [intros H0; try discriminate H0; tauto|]);
    intros [[H1 H2] H3]; try done; try (by apply Hl in H2); by apply Hp in H3.
Qed.
Lemma event_version_of item event : AccountDomain.version_next (AccountDomain.expected_version (t_command (c_item item))) = Ok (AccountDomain.event_version event) <->
  validate_event_version item event = Ok tt.
Proof. unfold validate_event_version. cbv zeta. rewrite keeps, AccountDomain.version_next_Ok, checked_add_Some. lia. Qed.
Lemma matches_step action event : event_matches_action action event = true <->
  AccountDomain.next_status (AccountDomain.event_from event) action = Ok (AccountDomain.event_to event).
Proof. unfold event_matches_action. destruct action, (AccountDomain.event_from event), (AccountDomain.event_to event); cbn; split; done. Qed.
Lemma validate_event_Ok item event : (validate_event_identity item event ;; validate_event_version item event ;; validate_event_transition item event) = Ok tt <-> produced item event.
Proof.
  unfold validate_event_identity, validate_event_transition, produced, AccountDomain.apply_account_lifecycle.
  rewrite !validated_Ok, keeps, reject_if_Ok, negb_false_iff, matches_step, <- event_version_of. rewrite N.eqb_refl. cbn [negb reject_if].
  destruct event as [acc from to version]. cbn [AccountDomain.event_account_id AccountDomain.event_from AccountDomain.event_to AccountDomain.event_version]. split.
  - intros (-> & Hv & Hs). rewrite Hs, Hv. cbn. unfold AccountDomain.validate_lifecycle_snapshot.
    destruct (bool_decide_reflect (from = AccountDomain.Deleted)) as [->|_]; [by destruct (AccountDomain.action (t_command (c_item item)))|]. cbn. by eexists.
  - intros (change & Hc & He). rewrite validated_Ok in Hc. destruct Hc as [_ Hc]. cbn in Hc.
    destruct (AccountDomain.next_status _ _) as [s|] eqn:Hs; [|done]. cbn in Hc. destruct (AccountDomain.version_next _) as [v|] eqn:Hv; [|done]. injection Hc as <-. by injection He as -> -> ->.
Qed.
Lemma remaining_after log after cursor : above after cursor -> remaining (remaining log after) (Some cursor) = remaining log (Some cursor).
Proof.
  intros Ha. unfold remaining. induction log as [|o log IH]; [done|]. cbn [List.filter]. destruct (is_none_or _ after) eqn:Hn; cbn [List.filter].
  - by rewrite IH.
  - rewrite IH. cbn [is_none_or]. destruct (N.ltb_spec cursor (outcome_ordinal o)) as [Hlt|]; [|done]. exfalso. apply not_true_iff_false in Hn. apply Hn.
    apply above_none_or. destruct after as [p|]; cbn in *; [lia|done].
Qed.
Lemma remaining_split rest n o : increasing (outcome_ordinal <$> rest) -> last (take n rest) = Some o -> remaining rest (Some (outcome_ordinal o)) = drop n rest.
Proof.
  intros Hs Hl. rewrite <- (take_drop n rest) at 1. rewrite <- (take_drop n rest), fmap_app in Hs. apply StronglySorted_app in Hs as (Hc & Hs1 & Hs2).
  unfold remaining. rewrite List.filter_app.
  assert (forall l (b : bool), (forall x, x ∈ l -> is_none_or (fun ordinal => ordinal <? outcome_ordinal x) (Some (outcome_ordinal o)) = b) ->
    List.filter (fun x => is_none_or (fun ordinal => ordinal <? outcome_ordinal x) (Some (outcome_ordinal o))) l = if b then l else []) as Hall.
  { intros l b. induction l as [|x l IH]; intros Hx; [by destruct b|]. cbn [List.filter]. rewrite (Hx x) by left. rewrite IH by (intros y Hy; apply Hx; by right). by destruct b. }
  apply last_Some in Hl as [l Hl]. rewrite (Hall _ false), (Hall _ true); [done| |].
  - intros x Hx. cbn. apply N.ltb_lt. apply Hc; [|by apply list_elem_of_fmap_2]. rewrite Hl, fmap_app. cbn. set_solver.
  - intros x Hx. cbn. apply N.ltb_ge. rewrite Hl in Hx, Hs1. rewrite fmap_app in Hs1. apply StronglySorted_app in Hs1 as (Hc1 & _ & _).
    apply elem_of_app in Hx as [Hx| ->%list_elem_of_singleton]; [|lia]. specialize (Hc1 (outcome_ordinal x) (outcome_ordinal o)). cbn in Hc1.
    enough (outcome_ordinal x < outcome_ordinal o) by lia. apply Hc1; [by apply list_elem_of_fmap_2|set_solver].
Qed.
Lemma remaining_ok i total log after : log_ok i total log -> log_ok i total (remaining log after) /\ Forall (above after) (outcome_ordinal <$> remaining log after).
Proof.
  unfold log_ok, increasing, remaining. intros [Hf Hs]. induction log as [|o log IH]; [by repeat split; constructor|].
  apply Forall_cons in Hf as [Ho Hf]. cbn [fmap list_fmap] in Hs. inversion Hs as [|? ? Hs' Hlt]; subst. destruct (IH Hf Hs') as [[If Is] Ia]. cbn [List.filter].
  destruct (is_none_or _ after) eqn:Hn; [|done]. apply above_none_or in Hn. rewrite fmap_cons. split_and!; [by constructor| |by constructor].
  constructor; [done|]. rewrite Forall_forall in Hlt |- *. intros n (x & -> & Hx)%list_elem_of_fmap. apply Hlt. apply list_elem_of_fmap_2. by apply elem_of_list_filter in Hx as [Hx _].
Qed.
Lemma log_ok_app i total a b : log_ok i total (a ++ b) -> log_ok i total a /\ log_ok i total b.
Proof. unfold log_ok, increasing. rewrite Forall_app, fmap_app. intros [[Ha Hb] (_ & H1 & H2)%StronglySorted_app]. done. Qed.
Lemma read_all_from fuel log i rev after limit total : log_ok i total log -> 1 <= total <= MAX_BATCH_ITEMS -> 1 <= limit ->
  (length (remaining log after) < fuel)%nat -> read_all fuel log (mk_OutcomePageRequest i rev after limit total) = Some (remaining log after).
Proof.
  intros Hlog Ht Hlim. revert after. induction fuel as [|fuel IH]; intros after Hfuel; [lia|]. cbn [read_all].
  destruct (remaining_ok _ _ _ after Hlog) as [Hrest Habove]. set (q := mk_OutcomePageRequest i rev after limit total). set (rest := remaining log after) in *.
  set (n := N.to_nat limit). set (more := limit <? len rest).
  assert (serve_page log q = Ok (mk_OutcomePage i rev (take n rest) (if more then outcome_ordinal <$> last (take n rest) else None))) as ->.
  { unfold serve_page, page_new, validate_page_size, validate_page_order. cbn [pr_after pr_limit pr_total_items pr_identity pr_expected_revision q]. fold rest n more.
    rewrite !validated_Ok, !reject_if_Ok, ordered_page_Ok, mret_inj_iff, orb_false_iff, N.eqb_neq, !N.ltb_ge. cbn [pr_identity pr_total_items].
    rewrite <- (take_drop n rest) in Hrest, Habove. rewrite fmap_app in Habove. apply log_ok_app in Hrest as [[Hr1 Hr2] _]. apply Forall_app in Habove as [Ha _].
    split_and!; try done; try lia; [unfold len, n; rewrite length_take; lia|]. unfold more. destruct (N.ltb_spec limit (len rest)) as [Hlt|]; [|done]. cbn.
    apply N.eqb_neq. unfold len, n in *. rewrite length_take. lia. }
  cbn [pg_next_cursor pg_outcomes pr_identity pr_expected_revision pr_limit pr_total_items q]. unfold more. destruct (N.ltb_spec limit (len rest)) as [Hlt|Hge].
  - destruct (last (take n rest)) as [o|] eqn:Hl; [|apply last_None in Hl; apply (f_equal length) in Hl; unfold len, n in *; rewrite length_take in Hl; cbn in Hl; lia].
    cbn [fmap option_fmap option_map]. assert (remaining log (Some (outcome_ordinal o)) = drop n rest) as Hd.
    { rewrite <- (remaining_after log after); [apply remaining_split; [by destruct Hrest|done]|]. rewrite Forall_forall in Habove. apply Habove.
      apply list_elem_of_fmap_2. apply last_Some in Hl as [l Hl]. rewrite <- (take_drop n rest), Hl. set_solver. }
    rewrite IH, Hd; [cbn; by rewrite take_drop|]. rewrite Hd, length_drop. unfold len, n in *. lia.
  - rewrite take_ge; [done|]. unfold len, n in *. lia.
Qed.
Lemma above_none ns : Forall (above None) ns.
Proof. by apply Forall_forall. Qed.

(** ** Properties *)

(** An outcome says what the account domain does.  Evidence for a claimed item is accepted
    exactly when it fits the batch's intent and its event, if any, is the very event that the
    account domain produces for the item's command on that account, from the state and the version
    the event names. *)
Theorem outcome_exact item result committed_at o :
  outcome_new item result committed_at = Ok o <->
  o = mk_BatchItemOutcome item result committed_at /\
  match result with
  | WouldApply event => c_intent item = DryRun /\ produced item event
  | Applied event => c_intent item = Execute /\ produced item event
  | Rejected _ => True
  end.
Proof.
  unfold outcome_new, validate_outcome_intent, validate_outcome_event. rewrite !validated_Ok, reject_if_Ok, negb_false_iff, mret_inj_iff.
  destruct result as [event|event|code]; cbn [outcome_event]; rewrite ?bool_decide_eq_true; [rewrite validate_event_Ok; tauto|rewrite validate_event_Ok; tauto|naive_solver].
Qed.

(** A claim is sound and exact.  For a plan that was accepted, a claim is built exactly from
    assignments of the plan's own items at their ordinals, in increasing order, within the limits of
    the request and the plan, for the next revision and a lease within the deadline; no two of the
    claimed items are the same item or target the same account. *)
Theorem claim_exact q p revision assignments c tenant key intent created deadline resources items
    (Hp : submission_new tenant key intent created deadline resources items = Ok (p_submission p)) :
  (claim_new q p revision assignments = Ok c <->
    q_identity q = plan_identity p /\ revision = q_expected_revision q + 1 /\ revision <= u64_max /\ q_limit q <= max_claim_items resources /\
    q_observed_at q < deadline /\ q_lease_expires_at q <= deadline /\ len assignments <= q_limit q /\
    Forall (assignment_ok p) assignments /\ increasing (a_ordinal <$> assignments) /\
    c = mk_BatchClaim (q_identity q) (q_claim_id q) revision (q_lease_expires_at q) (claimed_item q p revision <$> assignments)) /\
  (claim_new q p revision assignments = Ok c -> NoDup ((fun i => t_id (c_item i)) <$> bc_items c) /\ NoDup ((fun i => t_account_id (c_item i)) <$> bc_items c)).
Proof.
  unfold submission_new in Hp. rewrite !validated_Ok, mret_inj_iff in Hp. destruct Hp as (_ & _ & Hu & Hsub).
  assert (claim_new q p revision assignments = Ok c <-> q_identity q = plan_identity p /\ (revision = q_expected_revision q + 1 /\ revision <= u64_max) /\ q_limit q <= max_claim_items resources /\
    (q_observed_at q < deadline /\ q_lease_expires_at q <= deadline) /\ len assignments <= q_limit q /\ (Forall (assignment_ok p) assignments /\ increasing (a_ordinal <$> assignments)) /\
    c = mk_BatchClaim (q_identity q) (q_claim_id q) revision (q_lease_expires_at q) (claimed_item q p revision <$> assignments)) as Hc.
  { unfold claim_new, validate_claim_context, validate_claim_identity, validate_claim_limit, validate_claim_deadline, validate_assignments. rewrite !Hsub.
    cbn [s_resources s_deadline]. rewrite !validated_Ok, keeps, !reject_if_Ok, N.leb_gt, !N.ltb_ge, ordered_assignments_Ok, mret_inj_iff.
    assert (validate_claim_revision q revision = Ok tt <-> revision = q_expected_revision q + 1 /\ revision <= u64_max) as ->; [|pose proof (above_none (a_ordinal <$> assignments)); tauto].
    unfold validate_claim_revision, revision_next. rewrite result_bind_Ok. setoid_rewrite ok_or_Ok. setoid_rewrite checked_add_Some. setoid_rewrite reject_if_Ok.
    setoid_rewrite negb_false_iff. setoid_rewrite N.eqb_eq. naive_solver. }
  split; [rewrite Hc; tauto|]. intros (_ & _ & _ & _ & _ & (Hf & Hs) & ->)%Hc. cbn [bc_items]. apply unique_items_Ok in Hu as [[Hu1 Hu2] _].
  assert (forall (A : Type) (f : BatchItem -> A), NoDup (f <$> items) -> NoDup ((fun i => f (c_item i)) <$> (claimed_item q p revision <$> assignments))) as Hnd; [|split; [by apply (Hnd _ t_id)|by apply (Hnd _ t_account_id)]].
  intros A f Hn. rewrite <- list_fmap_compose. clear Hc. induction assignments as [|a rest IH]; [constructor|]. apply Forall_cons in Hf as [[Ha _] Hf]. unfold increasing in Hs. cbn in Hs |- *.
  inversion Hs as [|? ? Hs' Hlt]; subst. apply NoDup_cons. split; [|by apply IH]. intros (b & Hb & Hin)%list_elem_of_fmap. cbn in Hb.
  rewrite Forall_forall in Hf. destruct (Hf b Hin) as [Hb' _]. rewrite Hsub in Ha, Hb'. cbn in Ha, Hb'.
  assert (N.to_nat (a_ordinal a) = N.to_nat (a_ordinal b)) as He by (eapply NoDup_lookup; [exact Hn|by rewrite list_lookup_fmap, Ha|rewrite list_lookup_fmap, Hb'; cbn; by rewrite Hb]).
  rewrite Forall_forall in Hlt. specialize (Hlt (a_ordinal b)). enough (a_ordinal a < a_ordinal b) by lia. apply Hlt. by apply list_elem_of_fmap_2.
Qed.

(** Reading all pages reads the log.  Over a log of outcomes in plan order, served from a
    cursor with the page's limit, every page is accepted, and following the cursors ends, after
    at most one page more than there are outcomes, with the whole log: nothing is skipped and nothing
    is read twice. *)
Theorem paging_complete log i revision total limit (Hlog : log_ok i total log) (Ht : 1 <= total <= MAX_BATCH_ITEMS) (Hl : 1 <= limit) :
  read_all (S (length log)) log (mk_OutcomePageRequest i revision None limit total) = Some log.
Proof.
  assert (remaining log None = log) as Hr by (unfold remaining; cbn; apply list_filter_true).
  pose proof (read_all_from (S (length log)) log i revision None limit total Hlog Ht Hl) as Hread. rewrite Hr in Hread. apply Hread. lia.
Qed.

(** Receipts are of steps of the lifecycle.  A receipt of a transition with a deadline is accepted
    exactly for the next revision of the same batch, at an admissible time, when some lifecycle
    moves by this transition to the one of the status; and a terminal lifecycle is never left. *)
Theorem transition_receipt_exact m i revision now deadline t s r :
  (transition_receipt_new (with_deadline m i revision now deadline t) s = Ok r <->
    st_identity s = i /\ st_revision s = revision + 1 /\ st_revision s <= u64_max /\ validate_observed_at t now deadline = Ok tt /\
    (exists l, move l t now deadline = Ok (st_lifecycle s)) /\ r = mk_TransitionReceipt m s now now) /\
  (forall final l, moves deadline (Terminal final) l -> l = Terminal final).
Proof.
  split.
  - unfold transition_receipt_new, new_with_committed_at, validate_transition_identity. cbn [x_deadline x_transition x_observed_at x_identity x_mutation_id with_deadline].
    rewrite !validated_Ok, keeps, mret_inj_iff.
    assert (validate_transition_revision (with_deadline m i revision now deadline t) s = Ok tt <-> st_revision s = revision + 1 /\ st_revision s <= u64_max) as ->.
    { unfold validate_transition_revision, revision_next. rewrite result_bind_Ok. setoid_rewrite ok_or_Ok. setoid_rewrite checked_add_Some. setoid_rewrite reject_if_Ok.
      setoid_rewrite negb_false_iff. setoid_rewrite N.eqb_eq. cbn.
      split; [intros (n & [-> Hle] & ->); by split|intros [-> Hle]; eexists; split; [by split|done]]. }
    assert (validate_observed_at t now deadline = Ok tt -> validate_transition_lifecycle (with_deadline m i revision now deadline t) s = Ok tt <->
      exists l, move l t now deadline = Ok (st_lifecycle s)) as Hmove; [|tauto].
    intros Hv. unfold validate_transition_lifecycle. cbn [x_transition with_deadline]. rewrite reject_if_Ok, negb_false_iff. unfold validate_observed_at in Hv. destruct t as [| | |t]; cbn [move].
    + destruct (N.ltb_spec now deadline) as [Hn|]; [|done]. rewrite bool_decide_eq_true. unfold start. setoid_rewrite validated_Ok. setoid_rewrite reject_if_Ok. setoid_rewrite N.leb_gt. split.
      * intros ->. by exists Planned.
      * intros (l & _ & Hl). destruct l; try discriminate Hl. by injection Hl.
    + rewrite orb_true_iff, !bool_decide_eq_true. split.
      * intros [->| ->]; [by exists Running|by exists Planned].
      * intros (l & Hl). destruct l as [| | |[]]; try discriminate Hl; injection Hl as <-; tauto.
    + destruct (N.leb_spec deadline now) as [Hn|]; [|done]. rewrite bool_decide_eq_true. unfold expire. setoid_rewrite validated_Ok. setoid_rewrite reject_if_Ok. setoid_rewrite N.ltb_ge. split.
      * intros ->. by exists Planned.
      * intros (l & _ & Hl). destruct l as [| | |[]]; try discriminate Hl; by injection Hl.
    + rewrite bool_decide_eq_true. split; [intros ->; exists (Terminal t); cbn; by rewrite bool_decide_eq_true_2|]. by intros (l & Hl%finish_terminal).
  - intros final l Hm. remember (Terminal final) as l0 eqn:H0. induction Hm as [|l t' now' l1 l2 Hmove _ IH]; [done|]. subst l. apply move_terminal in Hmove as ->. by apply IH.
Qed.

(** *** Witnesses *)

Lemma claim_exact_witness : exists c, claim_new sample_claim_request sample_plan 4 [mk_ClaimAssignment 0 (sample_item "x") 1; mk_ClaimAssignment 1 (sample_item "y") 2] = Ok c /\
  NoDup ((fun i => t_account_id (c_item i)) <$> bc_items c).
Proof.
  assert (submission_new (MkId "t") (mk_BatchKey "k") Execute 100 200 (mk_BatchResourceLimits 4 4 2) [sample_item "x"; sample_item "y"] = Ok (p_submission sample_plan)) as Hp by (vm_compute; reflexivity).
  eexists. split; [vm_compute; reflexivity|].
  exact (proj2 (proj2 (claim_exact sample_claim_request sample_plan 4 [mk_ClaimAssignment 0 (sample_item "x") 1; mk_ClaimAssignment 1 (sample_item "y") 2] _ _ _ _ _ _ _ _ Hp) eq_refl)).
Defined.
Lemma paging_complete_witness : read_all 4 [sample_outcome 0; sample_outcome 2; sample_outcome 5] (mk_OutcomePageRequest (plan_identity sample_plan) 7 None 2 6) =
  Some [sample_outcome 0; sample_outcome 2; sample_outcome 5].
Proof.
  apply (paging_complete [sample_outcome 0; sample_outcome 2; sample_outcome 5]); [|split; vm_compute; discriminate|vm_compute; discriminate].
  split; [repeat constructor|]. repeat constructor.
Defined.
