(* ===== verification/ConfigDomain.v ===== *)
(** * Configuration documents

    Models [crates/optional/ariadnion-config-domain/src/lib.rs]: keys, bounded texts,
    typed values, versioned documents with unique keys in key order, drafts of the next
    version, and the difference of two documents.  Shown: when a document is accepted and
    what a lookup by bisection finds in it, and that the difference names every key whose
    value changed, once and in key order, and nothing else. *)

From Stdlib Require Import Ascii.
From S2P Require Import Prelude CoreTypes.

Definition MAX_FIELDS : N := 256.
Definition MAX_KEY_BYTES : N := 128.
Definition MAX_TEXT_BYTES : N := 4096.

(** [CoreError::from_code(code).with_internal_context(context)]. *)
Definition config_error (code : ErrorCode) (context : string) : CoreError :=
  with_internal_context (CoreError_from_code code) context.

(** ** Keys and values *)

Record ConfigKey := MkConfigKey { key_str : string }.

#[export] Instance ConfigKey_eq_dec : EqDecision ConfigKey.
Proof. solve_decision. Defined.
#[export] Program Instance ConfigKey_countable : Countable ConfigKey :=
  inj_countable' key_str MkConfigKey _.
Next Obligation. by intros []. Qed.
(** The derived order of the one field. *)
#[export] Instance ConfigKey_ord : Ord ConfigKey := fun x y => cmp (key_str x) (key_str y).

Definition is_invalid_key_byte (byte : ascii) : bool :=
  negb (is_ascii_alphanumeric byte) && negb (existsb (Ascii.eqb byte) ["."; "-"; "_"]%char).

Definition validate_key (value : string) : result CoreError unit :=
  reject_if (is_empty value || (MAX_KEY_BYTES <? byte_len value)%N || negb (is_ascii value))
    (config_error InvalidArgument "configuration key is outside its bound") ;;
  reject_if (any_byte is_invalid_key_byte value)
    (config_error InvalidArgument "configuration key contains an invalid byte").

Definition ConfigKey_parse (value : string) : result CoreError ConfigKey :=
  validate_key value ;; mret (MkConfigKey value).

(** [value.chars().any(char::is_control)] on the UTF-8 bytes of the text: a control
    character is one of the ASCII ones or U+0080 to U+009F, the two bytes C2 80 to C2 9F;
    the byte C2 is never a continuation byte. *)
Fixpoint any_control (value : string) : bool :=
  match value with
  | EmptyString => false
  | String a rest =>
      is_ascii_control a
      || match rest with
         | String b _ => (byte a =? 194)%N && in_range 128 159 (byte b)
         | EmptyString => false
         end
      || any_control rest
  end.

Definition validate_text (value : string) : result CoreError unit :=
  reject_if ((MAX_TEXT_BYTES <? byte_len value)%N || any_control value)
    (config_error InvalidArgument "configuration text is outside its bound").

Record ConfigText := MkConfigText { text_str : string }.
#[export] Instance ConfigText_eq_dec : EqDecision ConfigText.
Proof. solve_decision. Defined.

Definition ConfigText_new (value : string) : result CoreError ConfigText :=
  validate_text value ;; mret (MkConfigText value).

Inductive ConfigValueKind := BooleanKind | IntegerKind | TextKind.
#[export] Instance ConfigValueKind_eq_dec : EqDecision ConfigValueKind.
Proof. solve_decision. Defined.

(** [Integer] holds an [i64]. *)
Inductive ConfigValue :=
| Boolean (value : bool)
| Integer (value : Z)
| Text (value : ConfigText).
#[export] Instance ConfigValue_eq_dec : EqDecision ConfigValue.
Proof. solve_decision. Defined.

Definition kind (value : ConfigValue) : ConfigValueKind :=
  match value with
  | Boolean _ => BooleanKind
  | Integer _ => IntegerKind
  | Text _ => TextKind
  end.

Record ConfigField := mk_ConfigField { field_key : ConfigKey; field_value : ConfigValue }.
#[export] Instance ConfigField_eq_dec : EqDecision ConfigField.
Proof. solve_decision. Defined.

(** ** Documents *)

Record ConfigDocument := mk_ConfigDocument {
  schema_id : CapabilityId; schema_version : ModuleVersion; version : N; fields : list ConfigField;
}.

(** The number of elements of [iter().collect::<BTreeSet<_>>()]. *)
Definition distinct {K} `{Countable K} (keys : list K) : N :=
  N.of_nat (size (list_to_set keys : gset K)).

Definition validate_document (version : N) (fields : list ConfigField) : result CoreError unit :=
  reject_if ((version =? 0)%N || (MAX_FIELDS <? len fields)%N)
    (config_error InvalidArgument "configuration document is outside its bound") ;;
  reject_if (negb (distinct (field_key <$> fields) =? len fields)%N)
    (config_error Conflict "configuration document contains duplicate keys").

Definition ConfigDocument_new (schema_id : CapabilityId) (schema_version : ModuleVersion) (version : N)
    (fields : list ConfigField) : result CoreError ConfigDocument :=
  validate_document version fields ;;
  mret (mk_ConfigDocument schema_id schema_version version (sort_by field_key fields)).

Definition document_get (d : ConfigDocument) (key : ConfigKey) : option ConfigValue :=
  field_value <$> binary_search (fun field => cmp (field_key field) key) (fields d).

Definition clone_at_version (d : ConfigDocument) (version : N) : result CoreError ConfigDocument :=
  reject_if (version =? 0)%N
    (config_error InvalidArgument "configuration document version must be positive") ;;
  mret (mk_ConfigDocument (schema_id d) (schema_version d) version (fields d)).

(** ** Drafts *)

Record ConfigDraft := mk_ConfigDraft { base_version : N; draft_document : ConfigDocument }.

Definition ConfigDraft_new (base_version : N) (document : ConfigDocument) : result CoreError ConfigDraft :=
  expected ← ok_or (checked_add u64_max base_version 1)
    (config_error ResourceExhausted "configuration version exhausted");
  reject_if (negb (version document =? expected)%N)
    (config_error Conflict "draft version is not the next published version") ;;
  mret (mk_ConfigDraft base_version document).

(** ** Differences *)

Inductive ConfigChangeKind := Added | Removed | Modified.
Record ConfigChange := mk_ConfigChange { change_key : ConfigKey; change_kind : ConfigChangeKind }.

Definition change_of (next : ConfigDocument) (field : ConfigField) : option ConfigChange :=
  match document_get next (field_key field) with
  | None => Some (mk_ConfigChange (field_key field) Removed)
  | Some value =>
      if bool_decide (value = field_value field) then None
      else Some (mk_ConfigChange (field_key field) Modified)
  end.
Definition collect_previous_changes (previous next : ConfigDocument) (changes : list ConfigChange)
    : list ConfigChange :=
  changes ++ omap (change_of next) (fields previous).

Definition addition_of (previous : ConfigDocument) (field : ConfigField) : option ConfigChange :=
  match document_get previous (field_key field) with
  | None => Some (mk_ConfigChange (field_key field) Added)
  | Some _ => None
  end.
Definition collect_added_changes (previous next : ConfigDocument) (changes : list ConfigChange)
    : list ConfigChange :=
  changes ++ omap (addition_of previous) (fields next).

Definition ConfigDiff_between (previous next : ConfigDocument) : list ConfigChange :=
  let changes := [] in
  let changes := collect_previous_changes previous next changes in
  let changes := collect_added_changes previous next changes in
  sort_by change_key changes.

(** ** Specification *)

(** What every constructed document satisfies. *)
Definition document_wf (d : ConfigDocument) : Prop :=
  (1 <= version d)%N /\ (len (fields d) <= MAX_FIELDS)%N /\ strictly_sorted_by field_key (fields d).

(** How a key changes between two documents, by what they hold at it. *)
Definition change_between (previous next : option ConfigValue) : option ConfigChangeKind :=
  match previous, next with
  | None, None => None
  | None, Some _ => Some Added
  | Some _, None => Some Removed
  | Some v, Some w => if bool_decide (w = v) then None else Some Modified
  end.

(** ** Lemmas *)

#[export] Instance ConfigKey_ord_laws : OrdLaws ConfigKey.
Proof.
  split; unfold cmp, ConfigKey_ord.
  - intros [x] [y]; cbn. rewrite cmp_eq_iff. split; [congruence | by intros [= ->]].
  - intros [x] [y]. apply cmp_opp.
  - intros [x] [y] [z]. apply cmp_lt_trans.
Qed.

Lemma distinct_NoDup {K} `{Countable K} (keys : list K) : distinct keys = len keys <-> NoDup keys.
Proof.
  assert (forall l : list K, size (list_to_set l : gset K) <= length l) as Hle.
  { intros l. induction l as [|x l IH]; [cbn; rewrite size_empty; lia|].
    rewrite list_to_set_cons. pose proof (size_union_alt {[x]} (list_to_set l : gset K)) as ->.
    rewrite size_singleton. cbn. pose proof (subseteq_size (list_to_set l ∖ {[x]}) (list_to_set l : gset K) ltac:(set_solver)). lia. }
  unfold distinct, len. split; [|intros Hnd; by rewrite size_list_to_set].
  intros Heq%Nat2N.inj. induction keys as [|x l IH]; [constructor|].
  rewrite list_to_set_cons in Heq. cbn in Heq. destruct (decide (x ∈ l)) as [Hx|Hx].
  - replace ({[x]} ∪ list_to_set l : gset K) with (list_to_set l : gset K) in Heq by set_solver.
    specialize (Hle l). lia.
  - constructor; [done|]. apply IH. rewrite size_union, size_singleton in Heq by set_solver. lia.
Qed.

Lemma validate_document_Ok version fs :
  validate_document version fs = Ok tt <->
  (1 <= version)%N /\ (len fs <= MAX_FIELDS)%N /\ NoDup (field_key <$> fs).
Proof.
  unfold validate_document. replace (len fs) with (len (field_key <$> fs)) by (unfold len; by rewrite length_fmap).
  destruct (N.eqb_spec version 0); destruct (N.ltb_spec MAX_FIELDS (len (field_key <$> fs))); cbn;
    try (split; intros; destruct_and?; [done | lia]).
  rewrite reject_if_Ok, negb_false_iff, N.eqb_eq, distinct_NoDup. intuition lia.
Qed.

Lemma NoDup_sorted_strict fs : NoDup (field_key <$> fs) -> strictly_sorted_by field_key (sort_by field_key fs).
Proof. intros Hnd. apply sorted_NoDup_strict; [apply sort_by_sorted|]. by rewrite sort_by_Permutation. Qed.

Lemma document_get_Some d key value :
  document_wf d -> document_get d key = Some value <-> mk_ConfigField key value ∈ fields d.
Proof.
  intros (_ & _ & Hs). unfold document_get. rewrite fmap_Some.
  setoid_rewrite (binary_search_spec field_key key (fields d)); [|done]. split.
  - intros ([k v] & [Hin Hk] & ->). cbn in *. by subst.
  - intros Hin. by exists (mk_ConfigField key value).
Qed.

Lemma document_get_None d key :
  document_wf d -> document_get d key = None <-> key ∉ field_key <$> fields d.
Proof.
  intros (_ & _ & Hs). unfold document_get. rewrite fmap_None, (binary_search_None field_key key) by done.
  rewrite list_elem_of_fmap. naive_solver.
Qed.

Lemma clone_get d v d' key : clone_at_version d v = Ok d' -> document_get d' key = document_get d key.
Proof.
  unfold clone_at_version. intros (u & _ & Hd)%result_bind_Ok. injection Hd as <-. done.
Qed.

(** A field is found under its own key. *)
Lemma document_get_field d field : document_wf d -> field ∈ fields d -> document_get d (field_key field) = Some (field_value field).
Proof. intros Hd Hf. apply document_get_Some; [done|]. by destruct field. Qed.

Lemma elem_of_changes_previous previous next c :
  document_wf previous -> document_wf next ->
  c ∈ omap (change_of next) (fields previous) <->
  is_Some (document_get previous (change_key c)) /\
  change_between (document_get previous (change_key c)) (document_get next (change_key c)) = Some (change_kind c).
Proof.
  intros Hp Hn. rewrite list_elem_of_omap. unfold change_of. split.
  - intros (f & Hf & Hc). pose proof (document_get_field _ _ Hp Hf) as Hg.
    destruct (document_get next (field_key f)) as [w|] eqn:He; [case_bool_decide; [done|]|];
      injection Hc as <-; cbn; rewrite Hg, He; cbn; [by rewrite bool_decide_false|done].
  - destruct c as [k kd]; cbn. intros [[v Hv] Hc]. rewrite Hv in Hc.
    exists (mk_ConfigField k v). split; [by apply document_get_Some|]. cbn.
    destruct (document_get next k) as [w|]; cbn in Hc; [case_bool_decide; [done|]|]; congruence.
Qed.

Lemma elem_of_changes_added previous next c :
  document_wf previous -> document_wf next ->
  c ∈ omap (addition_of previous) (fields next) <->
  document_get previous (change_key c) = None /\
  change_between (document_get previous (change_key c)) (document_get next (change_key c)) = Some (change_kind c).
Proof.
  intros Hp Hn. rewrite list_elem_of_omap. unfold addition_of. split.
  - intros (f & Hf & Hc). pose proof (document_get_field _ _ Hn Hf) as Hg.
    destruct (document_get previous (field_key f)) eqn:He; [done|]. injection Hc as <-. cbn. by rewrite Hg, He.
  - destruct c as [k kd]; cbn. intros [Hv Hc]. rewrite Hv in Hc. cbn in Hc.
    destruct (document_get next k) as [w|] eqn:He; [|done]. exists (mk_ConfigField k w).
    split; [by apply document_get_Some|]. cbn. rewrite Hv. congruence.
Qed.

Lemma omap_keys_NoDup {A} (f : A -> option ConfigChange) (key : A -> ConfigKey) l :
  (forall x c, f x = Some c -> change_key c = key x) ->
  NoDup (key <$> l) -> NoDup (change_key <$> omap f l).
Proof.
  intros Hf. induction l as [|x l IH]; cbn; [constructor|]. rewrite NoDup_cons. intros [Hx Hnd].
  destruct (f x) as [c|] eqn:He; cbn; [|by apply IH]. constructor; [|by apply IH].
  intros (c' & Hk & (y & Hy & Hc)%list_elem_of_omap)%list_elem_of_fmap.
  apply Hx, list_elem_of_fmap. exists y. by rewrite <- (Hf _ _ Hc), <- Hk, (Hf _ _ He).
Qed.

Lemma elem_of_diff previous next c :
  document_wf previous -> document_wf next ->
  c ∈ ConfigDiff_between previous next <->
  change_between (document_get previous (change_key c)) (document_get next (change_key c)) = Some (change_kind c).
Proof.
  intros Hp Hn. unfold ConfigDiff_between, collect_added_changes, collect_previous_changes. cbn [app].
  rewrite sort_by_Permutation, elem_of_app, elem_of_changes_previous, elem_of_changes_added by done.
  destruct (document_get previous (change_key c)); naive_solver.
Qed.

Lemma diff_sorted previous next :
  document_wf previous -> document_wf next -> strictly_sorted_by change_key (ConfigDiff_between previous next).
Proof.
  intros Hp Hn. unfold ConfigDiff_between, collect_added_changes, collect_previous_changes. cbn [app].
  apply sorted_NoDup_strict; [apply sort_by_sorted|]. rewrite sort_by_Permutation, fmap_app. apply NoDup_app.
  split_and!.
  - apply (omap_keys_NoDup _ field_key); [|by apply strictly_sorted_NoDup, Hp].
    intros x c. unfold change_of. repeat case_match; naive_solver.
  - intros k (c & -> & Hc)%list_elem_of_fmap (c' & Hk & Hc')%list_elem_of_fmap.
    apply elem_of_changes_previous in Hc as [[v Hv] _]; [|done..].
    apply elem_of_changes_added in Hc' as [Hc' _]; [|done..]. congruence.
  - apply (omap_keys_NoDup _ field_key); [|by apply strictly_sorted_NoDup, Hn].
    intros x c. unfold addition_of. repeat case_match; naive_solver.
Qed.

(** A well-formed document is determined by what it holds at each key. *)
Lemma fields_ext d d' :
  document_wf d -> document_wf d' -> (forall key, document_get d key = document_get d' key) -> fields d = fields d'.
Proof.
  intros Hd Hd' Hg. apply (strictly_sorted_unique field_key); [apply Hd | apply Hd' |].
  apply NoDup_Permutation; [eapply NoDup_fmap_1, strictly_sorted_NoDup, Hd | eapply NoDup_fmap_1, strictly_sorted_NoDup, Hd' |].
  intros [k v]. by rewrite <- !document_get_Some, Hg by done.
Qed.

(** ** Theorems *)

(** C0. A document is accepted exactly when its version is positive and its keys are at
    most 256 and distinct; it then holds exactly the given fields, in key order, so that a
    lookup by bisection finds a key exactly when a field was given for it. *)
Theorem document_new_exact (sid : CapabilityId) (sv : ModuleVersion) (v : N) (fs : list ConfigField) (d : ConfigDocument) :
  ConfigDocument_new sid sv v fs = Ok d <->
  ((1 <= v)%N /\ (len fs <= MAX_FIELDS)%N /\ NoDup (field_key <$> fs)) /\
  schema_id d = sid /\ schema_version d = sv /\ version d = v /\ document_wf d /\
  (forall key value, document_get d key = Some value <-> mk_ConfigField key value ∈ fs).
Proof.
  unfold ConfigDocument_new. rewrite result_bind_Ok. split.
  - intros ([] & (Hv & Hl & Hnd)%validate_document_Ok & Hd). injection Hd as <-.
    assert (document_wf (mk_ConfigDocument sid sv v (sort_by field_key fs))) as Hwf.
    { split_and!; cbn; [done | unfold len in *; by rewrite sort_by_Permutation | by apply NoDup_sorted_strict]. }
    split_and!; try done. intros k w. rewrite document_get_Some by done. cbn. by rewrite sort_by_Permutation.
  - intros ((Hv & Hl & Hnd) & Hs & Hsv & Hver & Hwf & Hget). exists tt.
    split; [by apply validate_document_Ok|]. cbn. unfold mret, result_ret. f_equal.
    destruct d as [a b c gs]; cbn in *. subst. f_equal.
    apply (strictly_sorted_unique field_key); [by apply NoDup_sorted_strict | apply Hwf |].
    rewrite sort_by_Permutation. apply NoDup_Permutation.
    + by eapply NoDup_fmap_1.
    + eapply NoDup_fmap_1, strictly_sorted_NoDup, Hwf.
    + intros [k w]. by rewrite <- Hget, document_get_Some.
Qed.

(** C0. The difference of two documents lists the changed keys in strictly increasing
    order; a key is listed as added, removed or modified exactly when it is held only by
    the next document, only by the previous one, or by both with different values; and
    the list is empty exactly when the two documents hold the same fields. *)
Theorem diff_exact (previous next : ConfigDocument) (Hp : document_wf previous) (Hn : document_wf next) :
  strictly_sorted_by change_key (ConfigDiff_between previous next) /\
  (forall c, c ∈ ConfigDiff_between previous next <->
     change_between (document_get previous (change_key c)) (document_get next (change_key c))
     = Some (change_kind c)) /\
  (ConfigDiff_between previous next = [] <-> fields previous = fields next).
Proof.
  split_and!; [by apply diff_sorted | by intros c; apply elem_of_diff |]. split.
  - intros He. apply fields_ext; [done..|]. intros key.
    assert (change_between (document_get previous key) (document_get next key) = None) as Hc.
    { destruct (change_between _ _) as [kd|] eqn:Hc; [|done]. exfalso.
      apply (not_elem_of_nil (mk_ConfigChange key kd)). rewrite <- He. by apply elem_of_diff. }
    destruct (document_get previous key), (document_get next key); cbn in Hc; try done.
    case_bool_decide; [by subst | done].
  - intros He. apply elem_of_nil_inv. intros c. rewrite elem_of_diff by done.
    unfold document_get. rewrite He. destruct (_ <$> _) as [v|]; cbn; [|done]. by rewrite bool_decide_true.
Qed.

Definition sample_key (s : string) : ConfigKey := MkConfigKey s.
Definition sample_document (v : N) (fs : list ConfigField) : ConfigDocument :=
  mk_ConfigDocument (MkId "config.gateway") (mk_ModuleVersion 1 0 0) v fs.
Definition sample_previous : ConfigDocument := sample_document 1
  [mk_ConfigField (sample_key "limits.body") (Integer 1024); mk_ConfigField (sample_key "tls.enabled") (Boolean true)].
Definition sample_next : ConfigDocument := sample_document 2
  [mk_ConfigField (sample_key "limits.body") (Integer 4096); mk_ConfigField (sample_key "name") (Text (MkConfigText "edge"))].

Lemma sample_previous_wf : document_wf sample_previous.
Proof. split_and!; [by vm_compute..|]. repeat constructor. Defined.
Lemma sample_next_wf : document_wf sample_next.
Proof. split_and!; [by vm_compute..|]. repeat constructor. Defined.

Lemma diff_exact_witness :
  ConfigDiff_between sample_previous sample_next =
    [mk_ConfigChange (sample_key "limits.body") Modified; mk_ConfigChange (sample_key "name") Added;
     mk_ConfigChange (sample_key "tls.enabled") Removed] /\
  strictly_sorted_by change_key (ConfigDiff_between sample_previous sample_next).
Proof.
  split; [by vm_compute | apply (diff_exact sample_previous sample_next sample_previous_wf sample_next_wf)].
Defined.
