(* ===== verification/ConfigSchema.v ===== *)
(** * Configuration schemas

    Models [crates/optional/ariadnion-config-schema/src/lib.rs]: field and cross-field
    rules, the construction of a schema and the validation of a document against it, with
    its bounded report.  Shown: a document passes exactly when it conforms to the schema,
    and otherwise the report is the list of its issues in the order of the rules, cut to
    its limit. *)

From S2P Require Import Prelude CoreTypes ConfigDomain.

Definition MAX_FIELD_RULES : N := 256.
Definition MAX_CROSS_RULES : N := 128.
Definition MAX_ISSUES : N := 256.

Record FieldRule := mk_FieldRule { rule_key : ConfigKey; rule_kind : ConfigValueKind; required : bool }.

Inductive CrossFieldRule :=
| RequiresTogether (first second : ConfigKey)
| Conflicts (first second : ConfigKey).

Inductive ValidationIssueCode :=
| SchemaMismatch | VersionMismatch | UnknownField | MissingField | TypeMismatch | CrossFieldViolation
| IssueLimitReached.

Record ValidationIssue := mk_ValidationIssue { issue_code : ValidationIssueCode; issue_key : option ConfigKey }.

#[export] Instance ModuleVersion_eq_dec : EqDecision ModuleVersion.
Proof. solve_decision. Defined.

(** ** Reports *)

(** [ValidationReport], its issues. *)
Definition ValidationReport : Type := list ValidationIssue.

Definition replace_last {A} (l : list A) (x : A) : list A := alter (fun _ => x) (pred (length l)) l.

Definition push (report : ValidationReport) (issue : ValidationIssue) : ValidationReport :=
  if (len report <? MAX_ISSUES)%N then report ++ [issue]
  else replace_last report (mk_ValidationIssue IssueLimitReached None).

(** ** Schemas *)

Record ConfigSchema := mk_ConfigSchema {
  schema_id : CapabilityId; schema_version : ModuleVersion;
  field_rules : list FieldRule; cross_rules : list CrossFieldRule;
}.
(** [ValidatedConfig], its document. *)
Record ValidatedConfig := mk_ValidatedConfig { validated_document : ConfigDocument }.

Definition validate_rule_counts (fields cross_rules : N) : result CoreError unit :=
  reject_if ((MAX_FIELD_RULES <? fields)%N || (MAX_CROSS_RULES <? cross_rules)%N)
    (config_error ResourceExhausted "configuration schema rule limit reached").

Definition validate_unique_fields (fields : list FieldRule) : result CoreError unit :=
  reject_if (negb (distinct (rule_key <$> fields) =? len fields)%N)
    (config_error Conflict "configuration schema contains duplicate field rules").

Definition cross_rule_keys (rule : CrossFieldRule) : ConfigKey * ConfigKey :=
  match rule with
  | RequiresTogether first second | Conflicts first second => (first, second)
  end.

Definition contains_field (fields : list FieldRule) (key : ConfigKey) : bool :=
  existsb (fun field => bool_decide (rule_key field = key)) fields.

Fixpoint validate_cross_keys (fields : list FieldRule) (cross_rules : list CrossFieldRule)
    : result CoreError unit :=
  match cross_rules with
  | [] => Ok tt
  | rule :: rest =>
      let (first, second) := cross_rule_keys rule in
      reject_if (negb (contains_field fields first) || negb (contains_field fields second))
        (config_error InvalidArgument "cross-field rule references an unknown key") ;;
      validate_cross_keys fields rest
  end.

Definition ConfigSchema_new (id : CapabilityId) (version : ModuleVersion) (fields : list FieldRule)
    (cross_rules : list CrossFieldRule) : result CoreError ConfigSchema :=
  validate_rule_counts (len fields) (len cross_rules) ;;
  validate_unique_fields fields ;;
  validate_cross_keys fields cross_rules ;;
  mret (mk_ConfigSchema id version (sort_by rule_key fields) cross_rules).

Definition field_rule (s : ConfigSchema) (key : ConfigKey) : option FieldRule :=
  binary_search (fun field => cmp (rule_key field) key) (field_rules s).

(** ** Validation *)

Definition validate_header (s : ConfigSchema) (d : ConfigDocument) (report : ValidationReport)
    : ValidationReport :=
  let report :=
    if bool_decide (schema_id s = ConfigDomain.schema_id d) then report
    else push report (mk_ValidationIssue SchemaMismatch None) in
  if bool_decide (schema_version s = ConfigDomain.schema_version d) then report
  else push report (mk_ValidationIssue VersionMismatch None).

(** The body of the loop of [validate_fields]. *)
Definition validate_field (s : ConfigSchema) (report : ValidationReport) (field : ConfigField)
    : ValidationReport :=
  match field_rule s (field_key field) with
  | None => push report (mk_ValidationIssue UnknownField (Some (field_key field)))
  | Some rule =>
      if bool_decide (rule_kind rule = kind (field_value field)) then report
      else push report (mk_ValidationIssue TypeMismatch (Some (field_key field)))
  end.
Definition validate_fields (s : ConfigSchema) (d : ConfigDocument) (report : ValidationReport)
    : ValidationReport :=
  fold_left (validate_field s) (fields d) report.

Definition validate_required (s : ConfigSchema) (d : ConfigDocument) (report : ValidationReport)
    : ValidationReport :=
  fold_left (fun report rule =>
    if required rule && bool_decide (document_get d (rule_key rule) = None)
    then push report (mk_ValidationIssue MissingField (Some (rule_key rule)))
    else report) (field_rules s) report.

Definition present (d : ConfigDocument) (key : ConfigKey) : bool := bool_decide (is_Some (document_get d key)).

Definition cross_rule_violated (rule : CrossFieldRule) (d : ConfigDocument) : bool :=
  let (first, second) := cross_rule_keys rule in
  let first_present := present d first in
  let second_present := present d second in
  match rule with
  | RequiresTogether _ _ => negb (eqb first_present second_present)
  | Conflicts _ _ => first_present && second_present
  end.

Definition validate_cross_rules (s : ConfigSchema) (d : ConfigDocument) (report : ValidationReport)
    : ValidationReport :=
  fold_left (fun report rule =>
    if cross_rule_violated rule d
    then push report (mk_ValidationIssue CrossFieldViolation (Some (cross_rule_keys rule).1))
    else report) (cross_rules s) report.

Definition schema_validate (s : ConfigSchema) (d : ConfigDocument) : result ValidationReport ValidatedConfig :=
  let report := [] in
  let report := validate_header s d report in
  let report := validate_fields s d report in
  let report := validate_required s d report in
  let report := validate_cross_rules s d report in
  match report with
  | [] => Ok (mk_ValidatedConfig d)
  | _ => Err report
  end.

(** ** Specification *)

(** What every constructed schema satisfies. *)
Definition schema_wf (s : ConfigSchema) : Prop :=
  (len (field_rules s) <= MAX_FIELD_RULES)%N /\ (len (cross_rules s) <= MAX_CROSS_RULES)%N /\
  strictly_sorted_by rule_key (field_rules s) /\
  Forall (fun rule => (cross_rule_keys rule).1 ∈ rule_key <$> field_rules s /\
                      (cross_rule_keys rule).2 ∈ rule_key <$> field_rules s) (cross_rules s).

Definition rule_holds (d : ConfigDocument) (rule : CrossFieldRule) : Prop :=
  match rule with
  | RequiresTogether first second => is_Some (document_get d first) <-> is_Some (document_get d second)
  | Conflicts first second => ~ (is_Some (document_get d first) /\ is_Some (document_get d second))
  end.

(** A document of this schema: its identity and version, only declared fields of the
    declared kind, every required field, every constraint. *)
Record conforms (s : ConfigSchema) (d : ConfigDocument) : Prop := {
  conforms_id : ConfigDomain.schema_id d = schema_id s;
  conforms_version : ConfigDomain.schema_version d = schema_version s;
  conforms_fields : forall field, field ∈ fields d ->
    exists rule, rule ∈ field_rules s /\ rule_key rule = field_key field /\ rule_kind rule = kind (field_value field);
  conforms_required : forall rule, rule ∈ field_rules s -> required rule = true ->
    is_Some (document_get d (rule_key rule));
  conforms_cross : forall rule, rule ∈ cross_rules s -> rule_holds d rule;
}.

(** All issues of a document, rule by rule. *)
Definition header_issues (s : ConfigSchema) (d : ConfigDocument) : list ValidationIssue :=
  (if bool_decide (schema_id s = ConfigDomain.schema_id d) then [] else [mk_ValidationIssue SchemaMismatch None]) ++
  (if bool_decide (schema_version s = ConfigDomain.schema_version d) then [] else [mk_ValidationIssue VersionMismatch None]).
Definition field_issues (s : ConfigSchema) (field : ConfigField) : list ValidationIssue :=
  match List.find (fun rule => bool_decide (rule_key rule = field_key field)) (field_rules s) with
  | None => [mk_ValidationIssue UnknownField (Some (field_key field))]
  | Some rule => if bool_decide (rule_kind rule = kind (field_value field)) then []
                 else [mk_ValidationIssue TypeMismatch (Some (field_key field))]
  end.
Definition required_issues (d : ConfigDocument) (rule : FieldRule) : list ValidationIssue :=
  if required rule && bool_decide (rule_key rule ∉ field_key <$> fields d)
  then [mk_ValidationIssue MissingField (Some (rule_key rule))] else [].
Definition cross_issues (d : ConfigDocument) (rule : CrossFieldRule) : list ValidationIssue :=
  if cross_rule_violated rule d
  then [mk_ValidationIssue CrossFieldViolation (Some (cross_rule_keys rule).1)] else [].
Definition all_issues (s : ConfigSchema) (d : ConfigDocument) : list ValidationIssue :=
  header_issues s d ++ (fields d ≫= field_issues s) ++ (field_rules s ≫= required_issues d)
  ++ (cross_rules s ≫= cross_issues d).

(** At most [MAX_ISSUES] of them, the last one saying that there were more. *)
Definition bounded (issues : list ValidationIssue) : ValidationReport :=
  if (len issues <=? MAX_ISSUES)%N then issues
  else take (N.to_nat MAX_ISSUES - 1) issues ++ [mk_ValidationIssue IssueLimitReached None].

(** ** Lemmas *)

Lemma replace_last_app {A} (l : list A) (x y : A) : replace_last (l ++ [x]) y = l ++ [y].
Proof.
  unfold replace_last. rewrite length_app. cbn. replace (pred (length l + 1)) with (length l + 0) by lia.
  by rewrite alter_app_r.
Qed.

Lemma push_bounded issues issue : push (bounded issues) issue = bounded (issues ++ [issue]).
Proof.
  assert (N.to_nat MAX_ISSUES = 256) as HM by done.
  unfold push, bounded. assert (len (issues ++ [issue]) = (len issues + 1)%N) as ->.
  { unfold len. rewrite length_app. cbn. lia. }
  destruct (N.leb_spec (len issues) MAX_ISSUES) as [Hle|Hgt].
  - destruct (N.ltb_spec (len issues) MAX_ISSUES) as [Hlt|Hge].
    + by rewrite (proj2 (N.leb_le (len issues + 1) MAX_ISSUES)) by lia.
    + rewrite (proj2 (N.leb_gt (len issues + 1) MAX_ISSUES)) by lia.
      assert (length issues = 256) as Hn by (unfold len in *; lia).
      destruct (exists_last (l := issues)) as (l & x & ->); [by intros ->|].
      rewrite replace_last_app, length_app in *. cbn in Hn. f_equal.
      rewrite HM, <- app_assoc, take_app_length'; [done|lia].
  - rewrite (proj2 (N.leb_gt (len issues + 1) MAX_ISSUES)) by lia.
    assert (256 < length issues) as Hn by (unfold len in *; lia).
    assert (len (take (N.to_nat MAX_ISSUES - 1) issues ++ [mk_ValidationIssue IssueLimitReached None]) = MAX_ISSUES) as Hl.
    { unfold len. rewrite length_app, length_take. cbn [length]. unfold MAX_ISSUES in *. lia. }
    rewrite Hl, (proj2 (N.ltb_ge MAX_ISSUES MAX_ISSUES)) by lia.
    rewrite replace_last_app, take_app_le by (rewrite HM; lia). done.
Qed.

(** A loop that pushes the issues of each of its elements. *)
Lemma fold_push {A} (body : ValidationReport -> A -> ValidationReport) (issues_of : A -> list ValidationIssue) (l : list A) issues :
  (forall x seen, x ∈ l -> body (bounded seen) x = bounded (seen ++ issues_of x)) ->
  fold_left body l (bounded issues) = bounded (issues ++ (l ≫= issues_of)).
Proof.
  revert issues. induction l as [|x l IH]; intros issues Hb; cbn; [by rewrite app_nil_r|].
  rewrite Hb by left. rewrite IH by (intros; apply Hb; by right). by rewrite <- app_assoc.
Qed.

Lemma find_unique_key s key :
  strictly_sorted_by rule_key (field_rules s) ->
  field_rule s key = List.find (fun rule => bool_decide (rule_key rule = key)) (field_rules s).
Proof.
  intros Hs. unfold field_rule. destruct (List.find _ _) as [rule|] eqn:He.
  - apply find_some in He as [Hin Hk]. apply (binary_search_spec rule_key key); [done|].
    rewrite <- list_elem_of_In in Hin. by apply bool_decide_eq_true in Hk.
  - apply (binary_search_None rule_key key); [done|]. intros rule Hin Hk.
    rewrite list_elem_of_In in Hin. pose proof (find_none _ _ He rule Hin) as Hf. by apply bool_decide_eq_false in Hf.
Qed.

Lemma validate_header_issues s d issues :
  validate_header s d (bounded issues) = bounded (issues ++ header_issues s d).
Proof.
  unfold validate_header, header_issues.
  case_bool_decide; case_bool_decide; cbn; rewrite ?push_bounded, ?app_nil_r, <- ?app_assoc; done.
Qed.
Lemma validate_fields_issues s d issues :
  schema_wf s -> validate_fields s d (bounded issues) = bounded (issues ++ (fields d ≫= field_issues s)).
Proof.
  intros (_ & _ & Hs & _). apply fold_push. intros f seen _. unfold validate_field, field_issues.
  rewrite find_unique_key by done. case_match; [case_bool_decide|]; by rewrite ?push_bounded, ?app_nil_r.
Qed.
Lemma validate_required_issues s d issues :
  document_wf d ->
  validate_required s d (bounded issues) = bounded (issues ++ (field_rules s ≫= required_issues d)).
Proof.
  intros Hd. apply fold_push. intros rule seen _. unfold required_issues.
  rewrite (bool_decide_ext _ _ (document_get_None d (rule_key rule) Hd)).
  case_match; by rewrite ?push_bounded, ?app_nil_r.
Qed.
Lemma validate_cross_issues s d issues :
  validate_cross_rules s d (bounded issues) = bounded (issues ++ (cross_rules s ≫= cross_issues d)).
Proof.
  apply fold_push. intros rule seen _. unfold cross_issues. case_match; by rewrite ?push_bounded, ?app_nil_r.
Qed.

Lemma bounded_nil issues : bounded issues = [] <-> issues = [].
Proof.
  unfold bounded. destruct (N.leb_spec (len issues) MAX_ISSUES); [done|]. split; [by intros []%app_nil|].
  intros ->. unfold len, MAX_ISSUES in *. cbn [length] in *. lia.
Qed.

Lemma schema_validate_issues s d :
  schema_wf s -> document_wf d ->
  schema_validate s d = match all_issues s d with
                        | [] => Ok (mk_ValidatedConfig d)
                        | issues => Err (bounded issues)
                        end.
Proof.
  intros Hs Hd.
  assert (validate_cross_rules s d (validate_required s d (validate_fields s d (validate_header s d (bounded []))))
    = bounded (all_issues s d)) as Hr.
  { rewrite validate_header_issues, validate_fields_issues, validate_required_issues, validate_cross_issues by done.
    by rewrite <- !app_assoc. }
  unfold schema_validate. change (bounded []) with ([] : ValidationReport) in Hr. rewrite Hr.
  destruct (all_issues s d) as [|i l]; [done|].
  destruct (bounded (i :: l)) eqn:Hb; [apply (bounded_nil (i :: l)) in Hb; discriminate | done].
Qed.

Lemma bind_nil {A B} (f : A -> list B) l : l ≫= f = [] <-> forall x, x ∈ l -> f x = [].
Proof.
  induction l as [|x l IH]; cbn.
  - split; [by intros _ y ?%not_elem_of_nil | done].
  - rewrite app_nil, IH. split.
    + intros [Hx Hl] y [->|Hy]%elem_of_cons; auto.
    + intros H. split; [apply H; left | intros y Hy; apply H; by right].
Qed.

Lemma present_true d key : present d key = true <-> is_Some (document_get d key).
Proof. apply bool_decide_eq_true. Qed.

Lemma cross_rule_violated_false rule d : cross_rule_violated rule d = false <-> rule_holds d rule.
Proof.
  destruct rule as [a b|a b]; cbn; rewrite <- !present_true;
    destruct (present d a), (present d b); cbn; naive_solver.
Qed.

Lemma field_issues_nil s field :
  strictly_sorted_by rule_key (field_rules s) ->
  field_issues s field = [] <->
  exists rule, rule ∈ field_rules s /\ rule_key rule = field_key field /\ rule_kind rule = kind (field_value field).
Proof.
  intros Hs. unfold field_issues. rewrite <- find_unique_key by done.
  destruct (field_rule s (field_key field)) as [r|] eqn:He.
  - apply (binary_search_spec rule_key) in He as [Hin Hk]; [|done]. case_bool_decide as Hd.
    + split; [|done]. intros _. by exists r.
    + split; [done|]. intros (r' & Hin' & Hk' & Hd'). exfalso.
      assert (r' = r) as ->; [|done]. apply (NoDup_key_inj rule_key (field_rules s)); try done; [|congruence].
      by apply strictly_sorted_NoDup.
  - unfold field_rule in He. rewrite (binary_search_None rule_key) in He by done.
    split; [done|]. intros (r' & Hin' & Hk' & _). by destruct (He r' Hin').
Qed.

Lemma all_issues_nil s d : schema_wf s -> document_wf d -> all_issues s d = [] <-> conforms s d.
Proof.
  intros (_ & _ & Hs & _) Hd. unfold all_issues, header_issues. rewrite !app_nil, !bind_nil.
  assert (forall rule, required_issues d rule = [] <-> (required rule = true -> is_Some (document_get d (rule_key rule)))) as Hr.
  { intros rule. unfold required_issues. rewrite <- (bool_decide_ext _ _ (document_get_None d (rule_key rule) Hd)).
    destruct (document_get d (rule_key rule)) as [v|]; destruct (required rule); cbn; rewrite ?bool_decide_true by done; cbn;
      split; try done; try (by intros _ _; eexists); [intros H; by destruct (H eq_refl)]. }
  assert (forall rule, cross_issues d rule = [] <-> rule_holds d rule) as Hc.
  { intros rule. rewrite <- cross_rule_violated_false. unfold cross_issues. by destruct (cross_rule_violated rule d). }
  split.
  - intros ([H1 H2] & Hf & Hq & Hx). repeat case_bool_decide; try done. split; try done.
    + intros f Hin. apply field_issues_nil; auto.
    + intros rule Hin. apply Hr; auto.
    + intros rule Hin. apply Hc; auto.
  - intros [Hi Hv Hf Hq Hx]. rewrite !bool_decide_true by done. split_and!; try done.
    + intros f Hin. apply field_issues_nil; auto.
    + intros rule Hin. apply Hr; auto.
    + intros rule Hin. apply Hc; auto.
Qed.

Lemma schema_validate_Ok s d v :
  schema_wf s -> document_wf d ->
  schema_validate s d = Ok v <-> v = mk_ValidatedConfig d /\ conforms s d.
Proof.
  intros Hs Hd. rewrite <- all_issues_nil, schema_validate_issues by done.
  destruct (all_issues s d); naive_solver.
Qed.

Lemma validate_cross_keys_Ok fs rules :
  validate_cross_keys fs rules = Ok tt <->
  Forall (fun rule => (cross_rule_keys rule).1 ∈ rule_key <$> fs /\ (cross_rule_keys rule).2 ∈ rule_key <$> fs) rules.
Proof.
  assert (forall key, contains_field fs key = true <-> key ∈ rule_key <$> fs) as Hc.
  { intros key. unfold contains_field. rewrite existsb_exists, list_elem_of_fmap.
    setoid_rewrite bool_decide_eq_true. setoid_rewrite list_elem_of_In. naive_solver. }
  induction rules as [|rule rules IH]; cbn; [by split; [constructor|]|].
  rewrite Forall_cons, <- IH. destruct (cross_rule_keys rule) as [a b]; cbn. rewrite <- !Hc.
  destruct (contains_field fs a), (contains_field fs b); cbn; naive_solver.
Qed.

(** ** Theorems *)

(** C0. A schema is accepted exactly when it has at most 256 field rules with distinct
    keys and at most 128 cross-field rules over declared keys; it keeps the rules, the
    field rules in key order. *)
Theorem schema_new_exact (id : CapabilityId) (v : ModuleVersion) (fs : list FieldRule) (rules : list CrossFieldRule) (s : ConfigSchema) :
  ConfigSchema_new id v fs rules = Ok s <->
  NoDup (rule_key <$> fs) /\ schema_wf s /\
  s = mk_ConfigSchema id v (sort_by rule_key fs) rules.
Proof.
  unfold ConfigSchema_new, validate_rule_counts, validate_unique_fields, schema_wf.
  replace (distinct (rule_key <$> fs) =? len fs)%N with (distinct (rule_key <$> fs) =? len (rule_key <$> fs))%N
    by (unfold len; by rewrite length_fmap).
  split.
  - intros (u & Hn%reject_if_Ok & (u1 & Hu%reject_if_Ok & ([] & Hc%validate_cross_keys_Ok & Hs)%result_bind_Ok)%result_bind_Ok)%result_bind_Ok.
    injection Hs as <-. apply orb_false_iff in Hn as [H1%N.ltb_ge H2%N.ltb_ge].
    apply negb_false_iff, N.eqb_eq, distinct_NoDup in Hu. cbn. split_and!; try done.
    + unfold len in *. by rewrite sort_by_Permutation.
    + apply sorted_NoDup_strict; [apply sort_by_sorted | by rewrite sort_by_Permutation].
    + eapply Forall_impl; [exact Hc|]. intros rule. by rewrite !sort_by_Permutation.
  - intros (Hnd & (H1 & H2 & _ & Hc) & ->). cbn in *.
    assert (len fs <= MAX_FIELD_RULES)%N as H1' by (unfold len in *; by rewrite sort_by_Permutation in H1). clear H1.
    rewrite (proj2 (N.ltb_ge _ _) H1'), (proj2 (N.ltb_ge _ _) H2). cbn.
    rewrite (proj2 (N.eqb_eq _ _) (proj2 (distinct_NoDup _) Hnd)). cbn.
    rewrite (proj2 (validate_cross_keys_Ok fs rules)); [done|].
    eapply Forall_impl; [exact Hc|]. intros rule. cbn beta. by rewrite !(sort_by_Permutation rule_key fs).
Qed.

(** C40: Against a constructed schema a document is accepted, unchanged, exactly when it
    conforms: the schema's identity and version, only declared fields of the declared
    kind, every required field, every cross-field constraint.  Otherwise the report is
    the list of all its issues, header first, then fields, required fields and
    constraints, cut to 256 entries of which the last then says that the limit was
    reached. *)
Theorem schema_validate_exact (s : ConfigSchema) (d : ConfigDocument) (Hs : schema_wf s) (Hd : document_wf d) :
  (schema_validate s d = Ok (mk_ValidatedConfig d) <-> conforms s d) /\
  (is_ok (schema_validate s d) = false <->
     schema_validate s d = Err (bounded (all_issues s d)) /\ all_issues s d <> []) /\
  (len (bounded (all_issues s d)) <= MAX_ISSUES)%N.
Proof.
  split_and!.
  - rewrite schema_validate_Ok by done. naive_solver.
  - rewrite schema_validate_issues by done. destruct (all_issues s d); cbn; naive_solver.
  - unfold bounded. destruct (N.leb_spec (len (all_issues s d)) MAX_ISSUES); [done|].
    unfold len in *. rewrite length_app, length_take. cbn [length]. unfold MAX_ISSUES in *. lia.
Qed.

Definition sample_schema : ConfigSchema := mk_ConfigSchema (MkId "config.gateway") (mk_ModuleVersion 1 0 0)
  [mk_FieldRule (sample_key "limits.body") IntegerKind true; mk_FieldRule (sample_key "name") TextKind false;
   mk_FieldRule (sample_key "tls.enabled") BooleanKind false]
  [Conflicts (sample_key "name") (sample_key "tls.enabled")].
Lemma sample_schema_wf : schema_wf sample_schema.
Proof.
  split_and!; [by vm_compute..| | ].
  - repeat constructor.
  - constructor; [|constructor]. split; apply (bool_decide_unpack _); by vm_compute.
Defined.
Lemma schema_validate_exact_witness :
  conforms sample_schema sample_previous /\ is_ok (schema_validate sample_schema sample_previous) = true.
Proof.
  split; [|by vm_compute]. apply (schema_validate_exact sample_schema sample_previous sample_schema_wf sample_previous_wf).
  by vm_compute.
Defined.
