(* ===== verification/ConfigRuntime.v ===== *)
(** * The configuration runtime

    Models [crates/optional/ariadnion-config-runtime/src/lib.rs]: the active and the
    previous validated document under one lock that is used on after a panic, publication
    of drafts and rollback.  Shown: every reachable state serves a conforming document and
    its version and generation move together, so that neither is ever used twice; what
    publication and rollback do on every branch; and that rolling back twice restores the
    content. *)

From stdpp Require Import relations.
From S2P Require Import Prelude CoreTypes ConfigDomain ConfigSchema.
#[local] Open Scope record_scope.

Inductive PublishError :=
| Validation (report : ValidationReport)
| VersionConflict (expected actual : N)
| NoRollbackSnapshot
| GenerationExhausted
| VersionExhausted.

Record ConfigSnapshot := mk_ConfigSnapshot { snapshot_generation : N; configuration : ValidatedConfig }.

Record RuntimeState := mk_RuntimeState {
  generation : N; active : ValidatedConfig; previous : option ValidatedConfig;
}.
#[export] Instance RuntimeState_eta : Eta RuntimeState :=
  fun s => mk_RuntimeState (generation s) (active s) (previous s).

Record ConfigRuntime := mk_ConfigRuntime { schema : ConfigSchema; state : Lock RuntimeState }.

(** [Result::map_err]. *)
Definition map_err {E F A} (f : E -> F) (r : result E A) : result F A :=
  match r with Ok a => Ok a | Err e => Err (f e) end.

(** The document version of a validated configuration. *)
Definition active_version (v : ValidatedConfig) : N := version (validated_document v).

Definition ensure_version (expected actual : N) : result PublishError unit :=
  reject_if (negb (expected =? actual)%N) (VersionConflict expected actual).
Definition next_generation (current : N) : result PublishError N :=
  ok_or (checked_add u64_max current 1) GenerationExhausted.
Definition next_document_version (current : N) : result PublishError N :=
  ok_or (checked_add u64_max current 1) VersionExhausted.

(** A poisoned lock is entered as any other: [poisoned.into_inner()]. *)
Definition read_state (l : Lock RuntimeState) : RuntimeState := lock_data l.
Definition write_state {A} (body : act RuntimeState PublishError A) : act (Lock RuntimeState) PublishError A :=
  fun l => let '(s, r) := body (lock_data l) in (mk_lock (lock_poisoned l) s, r).

Definition ConfigRuntime_new (schema : ConfigSchema) (initial : ConfigDocument)
    : result ValidationReport ConfigRuntime :=
  active ← schema_validate schema initial;
  mret (mk_ConfigRuntime schema (mk_lock false (mk_RuntimeState 1 active None))).

Definition snapshot (r : ConfigRuntime) : ConfigSnapshot :=
  let state := read_state (state r) in mk_ConfigSnapshot (generation state) (active state).

(** The critical section of [publish]. *)
Definition publish_validated (base_version : N) (validated : ValidatedConfig)
    : act RuntimeState PublishError ConfigSnapshot :=
  state ← get;
  lift (ensure_version base_version (active_version (active state))) ;;
  generation ← lift (next_generation (generation state));
  put (mk_RuntimeState generation validated (Some (active state))) ;;
  mret (mk_ConfigSnapshot generation validated).

Definition publish (schema : ConfigSchema) (draft : ConfigDraft)
    : act (Lock RuntimeState) PublishError ConfigSnapshot :=
  validated ← lift (map_err Validation (schema_validate schema (draft_document draft)));
  write_state (publish_validated (base_version draft) validated).

(** The critical section of [rollback]. *)
Definition rollback_locked (schema : ConfigSchema) (expected_active : N)
    : act RuntimeState PublishError ConfigSnapshot :=
  state ← get;
  lift (ensure_version expected_active (active_version (active state))) ;;
  generation ← lift (next_generation (generation state));
  version ← lift (next_document_version (active_version (active state)));
  previous ← lift (ok_or (previous state) NoRollbackSnapshot);
  document ← lift (map_err (fun _ => VersionExhausted) (clone_at_version (validated_document previous) version));
  restored ← lift (map_err Validation (schema_validate schema document));
  put (mk_RuntimeState generation restored (Some (active state))) ;;
  mret (mk_ConfigSnapshot generation restored).

Definition rollback (schema : ConfigSchema) (expected_active : N)
    : act (Lock RuntimeState) PublishError ConfigSnapshot :=
  write_state (rollback_locked schema expected_active).

(** ** Executions *)

(** What [ConfigDraft::new] makes of a constructed document. *)
Definition draft_wf (d : ConfigDraft) : Prop :=
  document_wf (draft_document d) /\
  ConfigDraft_new (base_version d) (draft_document d) = Ok d.

(** Any thread publishes or rolls back; a panic of a thread that holds the lock poisons it. *)
Inductive runtime_step (s : ConfigSchema) : Lock RuntimeState -> Lock RuntimeState -> Prop :=
| step_publish l draft : draft_wf draft -> runtime_step s l (publish s draft l).1
| step_rollback l expected : runtime_step s l (rollback s expected l).1
| step_poison l : runtime_step s l (mk_lock true (lock_data l)).

(** The runtime of a schema and an initial document, after any steps. *)
Definition reachable (s : ConfigSchema) (initial : ConfigDocument) (l : Lock RuntimeState) : Prop :=
  exists r, ConfigRuntime_new s initial = Ok r /\ rtc (runtime_step s) (state r) l.

(** ** Specification *)

Definition valid_for (s : ConfigSchema) (v : ValidatedConfig) : Prop :=
  document_wf (validated_document v) /\ conforms s (validated_document v).

(** [first] is the version of the initial document. *)
Record runtime_inv (s : ConfigSchema) (first : N) (st : RuntimeState) : Prop := {
  inv_active : valid_for s (active st);
  inv_previous : forall p, previous st = Some p -> valid_for s p;
  inv_version : (active_version (active st) + 1 = first + generation st)%N;
  inv_first : (1 <= first)%N;
  inv_bound : (active_version (active st) <= u64_max)%N;
  inv_generation : (1 <= generation st)%N;
}.

(** The content of a document, at another version. *)
Definition at_version (d : ConfigDocument) (v : N) : ConfigDocument :=
  mk_ConfigDocument (ConfigDomain.schema_id d) (ConfigDomain.schema_version d) v (fields d).

(** Rollback without the validation, which cannot fail. *)
Definition rollback_spec (expected : N) (st : RuntimeState) : RuntimeState * result PublishError ConfigSnapshot :=
  let v := active_version (active st) in
  if negb (expected =? v)%N then (st, Err (VersionConflict expected v))
  else if (generation st =? u64_max)%N then (st, Err GenerationExhausted)
  else if (v =? u64_max)%N then (st, Err VersionExhausted)
  else match previous st with
       | None => (st, Err NoRollbackSnapshot)
       | Some p =>
           let restored := mk_ValidatedConfig (at_version (validated_document p) (v + 1)) in
           (mk_RuntimeState (generation st + 1) restored (Some (active st)),
            Ok (mk_ConfigSnapshot (generation st + 1) restored))
       end.

(** Publication of a conforming draft. *)
Definition publish_spec (draft : ConfigDraft) (st : RuntimeState) : RuntimeState * result PublishError ConfigSnapshot :=
  let v := active_version (active st) in
  if negb (base_version draft =? v)%N then (st, Err (VersionConflict (base_version draft) v))
  else
    let next := mk_ValidatedConfig (draft_document draft) in
    (mk_RuntimeState (generation st + 1) next (Some (active st)), Ok (mk_ConfigSnapshot (generation st + 1) next)).

(** ** Lemmas *)

Lemma draft_wf_inv d :
  draft_wf d ->
  document_wf (draft_document d) /\ version (draft_document d) = (base_version d + 1)%N /\ (base_version d + 1 <= u64_max)%N.
Proof.
  intros [Hd (e & He%ok_or_Ok%checked_add_Some & (u & Hr%reject_if_Ok & _)%result_bind_Ok)%result_bind_Ok].
  apply negb_false_iff, N.eqb_eq in Hr. intuition congruence.
Qed.

Lemma at_version_valid s p v : (1 <= v)%N -> valid_for s p -> valid_for s (mk_ValidatedConfig (at_version (validated_document p) v)).
Proof.
  intros Hv [(Hw1 & Hw2 & Hw3) [H1 H2 H3 H4 H5]]. split; [by split_and!|]. split; try done.
Qed.

Lemma checked_next a (e : PublishError) :
  (a <= u64_max)%N -> ok_or (checked_add u64_max a 1) e = if (a =? u64_max)%N then Err e else Ok (a + 1)%N.
Proof.
  intros Ha. unfold checked_add. destruct (N.eqb_spec a u64_max) as [->|]; [done|].
  by rewrite (proj2 (N.leb_le (a + 1) u64_max)) by lia.
Qed.

Lemma rollback_locked_spec s first expected st :
  schema_wf s -> runtime_inv s first st ->
  rollback_locked s expected st = rollback_spec expected st.
Proof.
  intros Hs [Ha Hp Hver Hf Hb Hg]. unfold rollback_locked, rollback_spec. rewrite act_get_run.
  unfold ensure_version. destruct (expected =? active_version (active st))%N; cbn [negb reject_if]; [|done].
  rewrite act_lift_run. unfold next_generation, next_document_version. rewrite !checked_next by lia.
  destruct (generation st =? u64_max)%N; [done|]. rewrite act_lift_run.
  destruct (active_version (active st) =? u64_max)%N; [done|]. rewrite act_lift_run.
  destruct (previous st) as [p|]; [|done]. cbn [ok_or]. rewrite act_lift_run.
  unfold clone_at_version. rewrite (proj2 (N.eqb_neq _ 0)) by lia. cbn [reject_if].
  change (lift (map_err _ (Ok tt ;; mret ?d)) ≫= ?f) with (@lift RuntimeState PublishError _ (Ok d) ≫= f).
  rewrite act_lift_run.
  change (mk_ConfigDocument _ _ ?v _) with (at_version (validated_document p) v).
  pose proof (at_version_valid s p (active_version (active st) + 1) ltac:(lia) (Hp p eq_refl)) as [Hw Hc].
  cbn [validated_document] in Hw, Hc.
  rewrite (proj2 (schema_validate_Ok s _ (mk_ValidatedConfig (at_version (validated_document p) (active_version (active st) + 1))) Hs Hw));
    [|split; done]. done.
Qed.

Lemma publish_runtime_run s first draft l :
  schema_wf s -> draft_wf draft -> runtime_inv s first (lock_data l) ->
  publish s draft l =
  match schema_validate s (draft_document draft) with
  | Err report => (l, Err (Validation report))
  | Ok _ => let '(st, r) := publish_spec draft (lock_data l) in (mk_lock (lock_poisoned l) st, r)
  end.
Proof.
  intros Hs (Hd & Hv & Hb)%draft_wf_inv [Ha Hp Hver Hf Hb' Hg]. unfold publish.
  destruct (schema_validate s (draft_document draft)) as [v|report] eqn:He; cbn [map_err]; [|done].
  apply schema_validate_Ok in He as [-> _]; [|done..]. rewrite act_lift_run. unfold write_state. f_equal.
  unfold publish_validated, publish_spec, ensure_version. rewrite act_get_run.
  destruct (N.eqb_spec (base_version draft) (active_version (active (lock_data l)))) as [He|]; cbn [negb reject_if]; [|done].
  rewrite act_lift_run. unfold next_generation. rewrite checked_next by lia.
  rewrite (proj2 (N.eqb_neq _ u64_max)) by lia. done.
Qed.

Lemma publish_spec_inv s first draft st :
  draft_wf draft -> conforms s (draft_document draft) -> runtime_inv s first st ->
  runtime_inv s first (publish_spec draft st).1.
Proof.
  intros (Hd & Hv & Hb)%draft_wf_inv Hc [Ha Hp Hver Hf Hb' Hg]. unfold publish_spec.
  destruct (N.eqb_spec (base_version draft) (active_version (active st))) as [He|]; cbn; [|by split].
  split; cbn; try done.
  - by intros ? [= <-].
  - unfold active_version at 1. cbn. lia.
  - unfold active_version. cbn. lia.
  - lia.
Qed.

Lemma rollback_spec_inv s first expected st :
  runtime_inv s first st -> runtime_inv s first (rollback_spec expected st).1.
Proof.
  intros Hinv. pose proof Hinv as [Ha Hp Hver Hf Hb Hg]. unfold rollback_spec.
  destruct (negb _); [exact Hinv|]. destruct (_ =? u64_max)%N; [exact Hinv|].
  destruct (N.eqb_spec (active_version (active st)) u64_max) as [|Hne]; [exact Hinv|].
  destruct (previous st) as [p|]; [|exact Hinv]. split; cbn; try done.
  - apply at_version_valid; [lia | by apply Hp].
  - by intros ? [= <-].
  - unfold active_version in *; cbn in *; lia.
  - unfold active_version in *; cbn in *; lia.
  - lia.
Qed.

Lemma rollback_run s first expected l :
  schema_wf s -> runtime_inv s first (lock_data l) ->
  rollback s expected l = (mk_lock (lock_poisoned l) (rollback_spec expected (lock_data l)).1, (rollback_spec expected (lock_data l)).2).
Proof.
  intros Hs Hi. unfold rollback, write_state. rewrite (rollback_locked_spec s first) by done.
  by destruct (rollback_spec expected (lock_data l)).
Qed.

Lemma rollback_spec_Ok expected st st' shot :
  rollback_spec expected st = (st', Ok shot) ->
  exists p, expected = active_version (active st) /\ previous st = Some p /\
    st' = mk_RuntimeState (generation st + 1)
            (mk_ValidatedConfig (at_version (validated_document p) (expected + 1))) (Some (active st)) /\
    shot = mk_ConfigSnapshot (generation st + 1)
            (mk_ValidatedConfig (at_version (validated_document p) (expected + 1))).
Proof.
  unfold rollback_spec. destruct (N.eqb_spec expected (active_version (active st))) as [->|]; cbn [negb]; [|done].
  destruct (_ =? u64_max)%N; [done|]. destruct (_ =? u64_max)%N; [done|].
  destruct (previous st) as [p|]; [|done]. intros [= <- <-]. by exists p.
Qed.

Lemma runtime_step_inv s first l l' :
  schema_wf s -> runtime_inv s first (lock_data l) -> runtime_step s l l' -> runtime_inv s first (lock_data l').
Proof.
  intros Hs Hi Hst. destruct Hst as [l0 draft Hd|l0 expected|l0]; [| |exact Hi].
  - rewrite (publish_runtime_run s first) by done. destruct (schema_validate s (draft_document draft)) eqn:He; [|exact Hi].
    apply schema_validate_Ok in He as [_ Hc]; [|done | by apply draft_wf_inv in Hd as []].
    pose proof (publish_spec_inv s first draft _ Hd Hc Hi). by destruct (publish_spec draft (lock_data l0)).
  - rewrite (rollback_run s first) by done. by apply rollback_spec_inv.
Qed.

Lemma new_runtime_inv s initial r :
  schema_wf s -> document_wf initial -> (version initial <= u64_max)%N ->
  ConfigRuntime_new s initial = Ok r -> runtime_inv s (version initial) (lock_data (state r)).
Proof.
  intros Hs Hd Hb (v & Hv & Hr)%result_bind_Ok. injection Hr as <-.
  apply schema_validate_Ok in Hv as [-> Hc]; [|done..]. split; cbn; try done; first [apply Hd | lia].
Qed.

Lemma reachable_inv s initial l :
  schema_wf s -> document_wf initial -> (version initial <= u64_max)%N ->
  reachable s initial l -> runtime_inv s (version initial) (lock_data l).
Proof.
  intros Hs Hd Hb (r & Hr & Hl). pose proof (new_runtime_inv s initial r Hs Hd Hb Hr) as Hi.
  revert Hi. apply (rtc_invariant (runtime_step s) (fun l => runtime_inv s (version initial) (lock_data l))); [|done].
  intros x y Hx Hxy. by eapply runtime_step_inv.
Qed.

(** ** Theorems *)

(** C0. Whatever is published and rolled back, the runtime serves a well-formed document
    that conforms to its schema, and so does what it would roll back to; the version it
    serves is the initial version plus the number of successful changes, which the
    generation counts, so that no version and no generation is served for two contents. *)
Theorem runtime_sound (s : ConfigSchema) (initial : ConfigDocument) (l : Lock RuntimeState)
    (Hs : schema_wf s) (Hd : document_wf initial) (Hb : (version initial <= u64_max)%N)
    (Hl : reachable s initial l) :
  let st := lock_data l in
  valid_for s (active st) /\ (forall p, previous st = Some p -> valid_for s p) /\
  (active_version (active st) + 1 = version initial + generation st)%N /\
  (1 <= generation st <= u64_max)%N /\ (version initial <= active_version (active st) <= u64_max)%N.
Proof.
  cbn. destruct (reachable_inv _ _ _ Hs Hd Hb Hl) as [Ha Hp Hv Hf Hu Hg].
  split_and!; try done; try lia. all: apply Ha.
Qed.

(** C0. In a reachable runtime a draft of the next version is published exactly when its
    document conforms to the schema and it was made from the active version; it is then
    served, under the next generation, and what was served is kept for a rollback.  Every
    refusal names its reason and changes nothing; the generation is never exhausted. *)
Theorem publish_exact (s : ConfigSchema) (initial : ConfigDocument) (l : Lock RuntimeState) (draft : ConfigDraft)
    (Hs : schema_wf s) (Hd : document_wf initial) (Hb : (version initial <= u64_max)%N)
    (Hl : reachable s initial l) (Hdraft : draft_wf draft) :
  publish s draft l =
  match schema_validate s (draft_document draft) with
  | Err report => (l, Err (Validation report))
  | Ok _ => let '(st, r) := publish_spec draft (lock_data l) in (mk_lock (lock_poisoned l) st, r)
  end.
Proof. apply (publish_runtime_run s (version initial)); [done..|by apply reachable_inv]. Qed.

(** C39: In a reachable runtime a rollback fails only for another active version, an
    exhausted generation or version, or because nothing was published yet, never for
    validation; it serves the previous content as the next version, and the same request
    against that version brings the first content back. *)
Theorem rollback_exact (s : ConfigSchema) (initial : ConfigDocument) (l : Lock RuntimeState) (expected : N)
    (Hs : schema_wf s) (Hd : document_wf initial) (Hb : (version initial <= u64_max)%N)
    (Hl : reachable s initial l) :
  rollback s expected l =
    (mk_lock (lock_poisoned l) (rollback_spec expected (lock_data l)).1, (rollback_spec expected (lock_data l)).2) /\
  (forall l' shot, rollback s expected l = (l', Ok shot) ->
     snapshot_generation shot = (generation (lock_data l) + 1)%N /\
     active (lock_data l') = configuration shot /\
     previous (lock_data l') = Some (active (lock_data l)) /\
     forall l2 again, rollback s (expected + 1) l' = (l2, Ok again) ->
       validated_document (configuration again) =
       at_version (validated_document (active (lock_data l))) (expected + 2)).
Proof.
  pose proof (reachable_inv _ _ _ Hs Hd Hb Hl) as Hi.
  assert (forall e l1 l1' r, runtime_inv s (version initial) (lock_data l1) -> rollback s e l1 = (l1', Ok r) ->
    rollback_spec e (lock_data l1) = (lock_data l1', Ok r)) as Hrun.
  { intros e l1 l1' r Hi1. rewrite (rollback_run s (version initial)) by done. intros [= <- <-]. by destruct (rollback_spec e (lock_data l1)). }
  split; [by apply (rollback_run s (version initial))|]. intros l' shot H1%Hrun; [|done].
  pose proof (rollback_spec_inv s _ expected _ Hi) as Hi'. rewrite H1 in Hi'. cbn [fst] in Hi'.
  apply rollback_spec_Ok in H1 as (p & Hv & Hprev & Hst & ->). rewrite Hst in *. cbn. split_and!; try done.
  intros l2 again H2%Hrun; [|by rewrite Hst]. rewrite Hst in H2.
  apply rollback_spec_Ok in H2 as (q & Hv2 & [= <-] & _ & ->). cbn. f_equal. unfold active_version in *. cbn. lia.
Qed.

(** A draft of the sample schema's next version, and the runtime after it was published. *)
Definition sample_draft : ConfigDraft :=
  mk_ConfigDraft 1 (sample_document 2 [mk_ConfigField (sample_key "limits.body") (Integer 4096)]).
Definition sample_start : Lock RuntimeState :=
  mk_lock false (mk_RuntimeState 1 (mk_ValidatedConfig sample_previous) None).
Definition sample_published : Lock RuntimeState := (publish sample_schema sample_draft sample_start).1.

Lemma sample_draft_wf : draft_wf sample_draft.
Proof. split; [split_and!; [by vm_compute..|repeat constructor] | by vm_compute]. Defined.
Lemma sample_start_reachable : reachable sample_schema sample_previous sample_start.
Proof. exists (mk_ConfigRuntime sample_schema sample_start). split; [by vm_compute | apply rtc_refl]. Defined.
Lemma sample_published_reachable : reachable sample_schema sample_previous sample_published.
Proof.
  exists (mk_ConfigRuntime sample_schema sample_start). split; [by vm_compute|].
  apply rtc_once, step_publish, sample_draft_wf.
Defined.

Lemma runtime_sound_witness : active_version (active (lock_data sample_published)) = 2%N /\
  valid_for sample_schema (active (lock_data sample_published)).
Proof.
  split; [by vm_compute|].
  exact (proj1 (runtime_sound sample_schema sample_previous sample_published sample_schema_wf sample_previous_wf ltac:(by vm_compute)
    sample_published_reachable)).
Defined.
Lemma publish_exact_witness : is_ok (publish sample_schema sample_draft sample_start).2 = true.
Proof.
  rewrite (publish_exact sample_schema sample_previous sample_start sample_draft sample_schema_wf sample_previous_wf ltac:(by vm_compute)
    sample_start_reachable sample_draft_wf). by vm_compute.
Defined.
Lemma rollback_exact_witness :
  is_ok (rollback sample_schema 2 sample_published).2 = true /\
  (rollback sample_schema 2 sample_published).1
  = mk_lock false (rollback_spec 2 (lock_data sample_published)).1.
Proof.
  split; [by vm_compute|].
  rewrite (proj1 (rollback_exact sample_schema sample_previous sample_published 2 sample_schema_wf sample_previous_wf ltac:(by vm_compute)
    sample_published_reachable)). reflexivity.
Defined.
