(* ===== verification/StorageDomain.v ===== *)
(** * Storage contracts and migration catalogs

    Models [crates/optional/ariadnion-storage-domain/src/lib.rs]: storage errors, bounded
    keys, cursors and pages, schema versions, and the catalog of forward migrations with the
    plans it makes.  The repository, transaction and executor ports are traits.  Shown: which
    catalogs are accepted, whatever the order they are given in, and that a plan is the one
    contiguous path of the catalog between two versions. *)

From Stdlib Require Import Ascii.
From S2P Require Import Prelude CoreTypes Identity.
#[local] Open Scope N_scope.

Definition MAX_INSTANCE_ID_BYTES : N := 128.
Definition MAX_RECORD_KEY_BYTES : N := 256.
Definition MAX_CURSOR_BYTES : N := 512.
Definition MAX_PAGE_SIZE : N := 1000.
Definition MAX_MIGRATION_ID_BYTES : N := 128.
Definition MAX_MIGRATION_DOMAIN_BYTES : N := 128.
Definition MAX_MIGRATIONS : N := 1024.

(** ** Errors *)

Inductive StorageErrorCode :=
| InvalidArgument | NotFound | Conflict | DeadlineExceeded | Cancelled | ResourceExhausted | Unavailable
| CommitIndeterminate | IntegrityFailure | MigrationRequired | Internal.
#[export] Instance StorageErrorCode_eq_dec : EqDecision StorageErrorCode.
Proof. solve_decision. Defined.

(** The codes [as_str] leaves to its helper; the arms of the helper that call back are the
    ones [as_str] never sends to it. *)
Definition system_code (code : StorageErrorCode) : option string :=
  match code with
  | Unavailable => Some "STORAGE_UNAVAILABLE"
  | CommitIndeterminate => Some "STORAGE_COMMIT_INDETERMINATE"
  | IntegrityFailure => Some "STORAGE_INTEGRITY_FAILURE"
  | MigrationRequired => Some "STORAGE_MIGRATION_REQUIRED"
  | Internal => Some "STORAGE_INTERNAL"
  | _ => None
  end%string.
Definition as_str (code : StorageErrorCode) : option string :=
  match code with
  | InvalidArgument => Some "STORAGE_INVALID_ARGUMENT"
  | NotFound => Some "STORAGE_NOT_FOUND"
  | Conflict => Some "STORAGE_CONFLICT"
  | DeadlineExceeded => Some "STORAGE_DEADLINE_EXCEEDED"
  | Cancelled => Some "STORAGE_CANCELLED"
  | ResourceExhausted => Some "STORAGE_RESOURCE_EXHAUSTED"
  | _ => system_code code
  end%string.

Record StorageError := mk_StorageError { storage_code : StorageErrorCode }.
Notation outcome := (result StorageError).
Definition storage_error (code : StorageErrorCode) : StorageError := mk_StorageError code.

(** ** Identities *)

Definition is_identifier_byte (byte : ascii) : bool :=
  is_ascii_alphanumeric byte || existsb (Ascii.eqb byte) ["."; "-"; "_"]%char.
Definition valid_identifier (value : string) (limit : N) : bool :=
  negb (is_empty value) && (byte_len value <=? limit)%N && is_ascii value && all_bytes is_identifier_byte value.

Inductive storage_key_kind := InstanceKey | MigrationKey | DomainKey.
(** [StorageInstanceId], [MigrationId] and [MigrationDomain]. *)
Record StorageKey (k : storage_key_kind) := MkStorageKey { storage_key_str : string }.
Arguments MkStorageKey {k} _.
Arguments storage_key_str {k} _.
#[export] Instance StorageKey_eq_dec k : EqDecision (StorageKey k).
Proof. solve_decision. Defined.
#[export] Program Instance StorageKey_countable k : Countable (StorageKey k) :=
  inj_countable' storage_key_str MkStorageKey _.
Next Obligation. by intros k []. Qed.

Definition StorageInstanceId := StorageKey InstanceKey.
Definition MigrationId := StorageKey MigrationKey.
Definition MigrationDomain := StorageKey DomainKey.

Definition storage_key_limit (k : storage_key_kind) : N :=
  match k with
  | InstanceKey => MAX_INSTANCE_ID_BYTES
  | MigrationKey => MAX_MIGRATION_ID_BYTES
  | DomainKey => MAX_MIGRATION_DOMAIN_BYTES
  end.
Definition storage_key_parse {k} (value : string) : outcome (StorageKey k) :=
  reject_if (negb (valid_identifier value (storage_key_limit k))) (storage_error InvalidArgument) ;;
  mret (MkStorageKey value).

(** [RecordKey::new] and [PageCursor::new]: non-empty bytes within a limit. *)
Definition bounded_bytes (limit : N) (value : list Byte.byte) : outcome (list Byte.byte) :=
  reject_if (bool_decide (value = []) || (limit <? len value)) (storage_error InvalidArgument) ;; mret value.
Definition RecordKey_new (value : list Byte.byte) : outcome (list Byte.byte) := bounded_bytes MAX_RECORD_KEY_BYTES value.
Definition PageCursor_new (value : list Byte.byte) : outcome (list Byte.byte) := bounded_bytes MAX_CURSOR_BYTES value.

(** [NonZeroU64::new(value).ok_or_else(..)] of [TransactionId] and [SchemaVersion]. *)
Definition non_zero (value : N) : outcome N :=
  reject_if (value =? 0) (storage_error InvalidArgument) ;; mret value.
Definition TransactionId_new (value : N) : outcome N := non_zero value.
Definition SchemaVersion := N.
Definition SchemaVersion_new (value : N) : outcome SchemaVersion := non_zero value.

(** ** Pages *)

Definition PageLimit_new (value : N) : outcome N :=
  value ← non_zero value;
  reject_if (MAX_PAGE_SIZE <? value) (storage_error InvalidArgument) ;;
  mret value.

Record RecordPage (R : Type) := mk_RecordPage { page_records : list R; page_next : option (list Byte.byte) }.
Arguments mk_RecordPage {R} _ _.
Arguments page_records {R} _.
Arguments page_next {R} _.
Definition RecordPage_new {R} (records : list R) (next : option (list Byte.byte)) (limit : N) : outcome (RecordPage R) :=
  reject_if (limit <? len records) (storage_error ResourceExhausted) ;; mret (mk_RecordPage records next).

(** ** Migrations *)

(** [MigrationChecksum] is the 32 bytes of a SHA-256 digest. *)
Record MigrationDescriptor := mk_MigrationDescriptor {
  migration_id : MigrationId; migration_domain : MigrationDomain; from : SchemaVersion; to : SchemaVersion;
  checksum : digest; requires_backup : bool;
}.
#[export] Instance MigrationDescriptor_eq_dec : EqDecision MigrationDescriptor.
Proof. solve_decision. Defined.

Definition MigrationDescriptor_new (id : MigrationId) (domain : MigrationDomain) (from to : SchemaVersion)
    (checksum : digest) (requires_backup : bool) : outcome MigrationDescriptor :=
  reject_if (to <=? from) (storage_error InvalidArgument) ;;
  mret (mk_MigrationDescriptor id domain from to checksum requires_backup).

(** [MigrationCatalog], its migrations. *)
Definition MigrationCatalog : Type := list MigrationDescriptor.

(** The length of [iter().map(key).collect::<BTreeSet<_>>()]. *)
Definition set_len {A K} `{Countable K} (key : A -> K) (l : list A) : N :=
  N.of_nat (size (list_to_set (key <$> l) : gset K)).

Definition validate_unique_migrations (migrations : list MigrationDescriptor) : outcome unit :=
  let ids := set_len migration_id migrations in
  let sources := set_len from migrations in
  reject_if (negb (ids =? len migrations) || negb (sources =? len migrations)) (storage_error Conflict).

(** [for pair in migrations.windows(2)]. *)
Fixpoint validate_migration_chain (migrations : list MigrationDescriptor) : outcome unit :=
  match migrations with
  | first :: ((second :: _) as rest) =>
      reject_if (negb (to first =? from second)) (storage_error MigrationRequired) ;;
      validate_migration_chain rest
  | _ => Ok tt
  end.

Definition MigrationCatalog_new (migrations : list MigrationDescriptor) : outcome MigrationCatalog :=
  reject_if (MAX_MIGRATIONS <? len migrations) (storage_error ResourceExhausted) ;;
  let migrations := sort_by from migrations in
  validate_unique_migrations migrations ;;
  validate_migration_chain migrations ;;
  mret migrations.

Record MigrationPlan := mk_MigrationPlan {
  plan_source : SchemaVersion; plan_target : SchemaVersion; plan_steps : list MigrationDescriptor;
}.

(** The loop of [plan]: [None] when the catalog ends before the target. *)
Fixpoint plan_loop (migrations : list MigrationDescriptor) (current target : SchemaVersion)
    (steps : list MigrationDescriptor) : option (list MigrationDescriptor) :=
  match migrations with
  | [] => None
  | migration :: rest =>
      let '(current, steps) :=
        if (from migration =? current) && (to migration <=? target)
        then (to migration, steps ++ [migration]) else (current, steps) in
      if current =? target then Some steps else plan_loop rest current target steps
  end.
Definition catalog_plan (catalog : MigrationCatalog) (source target : SchemaVersion) : outcome MigrationPlan :=
  reject_if (target <=? source) (storage_error InvalidArgument) ;;
  steps ← ok_or (plan_loop catalog source target []) (storage_error MigrationRequired);
  mret (mk_MigrationPlan source target steps).

Definition plan_requires_backup (plan : MigrationPlan) : bool := existsb requires_backup (plan_steps plan).

Record MigrationPreflight := mk_MigrationPreflight {
  source_authenticated : bool; target_empty : bool; backup_verified : bool;
}.
Definition preflight_permits (p : MigrationPreflight) (plan : MigrationPlan) : bool :=
  source_authenticated p && target_empty p && (negb (plan_requires_backup plan) || backup_verified p).

(** [verified_at] in seconds. *)
Record MigrationReceipt := mk_MigrationReceipt {
  receipt_source : StorageInstanceId; receipt_target : StorageInstanceId; receipt_version : SchemaVersion;
  verified_at : N;
}.

(** ** Specification *)

Definition migration_wf (m : MigrationDescriptor) : Prop := from m < to m.

(** Consecutive steps from one version to another. *)
Inductive path : SchemaVersion -> list MigrationDescriptor -> SchemaVersion -> Prop :=
| path_nil v : path v [] v
| path_cons m steps target : path (to m) steps target -> path (from m) (m :: steps) target.

(** A gap-free history: a path, whatever its ends, with distinct identities. *)
Definition catalog_wf (c : MigrationCatalog) : Prop :=
  len c <= MAX_MIGRATIONS /\ Forall migration_wf c /\ NoDup (migration_id <$> c) /\
  exists source target, path source c target.

(** ** Lemmas *)

Lemma set_len_NoDup {A K} `{Countable K} (key : A -> K) (l : list A) : set_len key l = len l <-> NoDup (key <$> l).
Proof.
  assert (forall l : list A, (size (list_to_set (key <$> l) : gset K) <= length l)%nat) as Hle.
  { intros l'. induction l' as [|x l' IH]; [cbn; rewrite size_empty; lia|].
    rewrite fmap_cons, list_to_set_cons. pose proof (size_union_alt {[key x]} (list_to_set (key <$> l') : gset K)) as ->.
    rewrite size_singleton. cbn [length].
    pose proof (subseteq_size (list_to_set (key <$> l') ∖ {[key x]}) (list_to_set (key <$> l') : gset K) ltac:(set_solver)). lia. }
  unfold set_len, len. split; [|intros Hnd; by rewrite size_list_to_set, length_fmap].
  intros Heq%Nat2N.inj. induction l as [|x l IH]; [constructor|].
  rewrite fmap_cons, list_to_set_cons in *. cbn [length] in Heq. destruct (decide (key x ∈ key <$> l)) as [Hx|Hx].
  - replace ({[key x]} ∪ list_to_set (key <$> l) : gset K) with (list_to_set (key <$> l) : gset K) in Heq by set_solver.
    specialize (Hle l). lia.
  - constructor; [done|]. apply IH. rewrite size_union, size_singleton in Heq by set_solver. lia.
Qed.

Lemma path_app v l1 l2 w : path v (l1 ++ l2) w <-> exists u, path v l1 u /\ path u l2 w.
Proof.
  split.
  - revert v. induction l1 as [|m l1 IH]; intros v Hp; cbn in *.
    + exists v. split; [constructor | done].
    + inversion Hp as [|? ? ? Hp']; subst. destruct (IH _ Hp') as (u & H1 & H3). exists u. split; [by constructor | done].
  - intros (u & H1 & H2). induction H1; cbn; [done | constructor; auto].
Qed.

Lemma path_le v l w : Forall migration_wf l -> path v l w -> v <= w.
Proof.
  intros Hwf Hp. induction Hp as [|m l w Hp IH]; [lia|]. apply Forall_cons in Hwf as [Hm Hl].
  unfold migration_wf in Hm. specialize (IH Hl). lia.
Qed.
Lemma path_bounds v l w m : Forall migration_wf l -> path v l w -> m ∈ l -> v <= from m /\ to m <= w.
Proof.
  intros Hwf Hp. induction Hp as [|x l w Hp IH]; [by intros ?%not_elem_of_nil|].
  apply Forall_cons in Hwf as [Hx Hl]. unfold migration_wf in Hx. intros [->|Hm]%elem_of_cons.
  - apply path_le in Hp; [lia|done].
  - destruct (IH Hl Hm). lia.
Qed.
Lemma path_sorted v l w : Forall migration_wf l -> path v l w -> strictly_sorted_by from l.
Proof.
  intros Hwf Hp. induction Hp as [|x l w Hp IH]; [constructor|]. apply Forall_cons in Hwf as [Hx Hl].
  constructor; [by apply IH|]. apply Forall_forall. intros m Hm.
  apply (path_bounds _ _ _ m) in Hp as [Hb _]; [|done..]. unfold migration_wf in Hx.
  unfold ord_lt, cmp, N_ord. apply N.compare_lt_iff. lia.
Qed.

Lemma validate_migration_chain_Ok c : validate_migration_chain c = Ok tt <-> exists v w, path v c w.
Proof.
  induction c as [|m c IH]; [split; [intros _; exists 0, 0; constructor | done]|].
  destruct c as [|m' c].
  { split; [intros _; exists (from m), (to m); repeat constructor | done]. }
  cbn [validate_migration_chain]. destruct (N.eqb_spec (to m) (from m')) as [He|Hne]; cbn [negb reject_if mbind result_bind].
  - rewrite IH. split; intros (v & w & Hp).
    + exists (from m), w. constructor. rewrite He. by inversion Hp; subst; constructor.
    + inversion Hp; subst. by exists (to m), w.
  - split; [done|]. intros (v & w & Hp). inversion Hp as [|? ? ? Hp']; subst. inversion Hp'; subst. congruence.
Qed.

(** ** The plan *)

Lemma plan_loop_Some c v w source target acc steps :
  Forall migration_wf c -> path v c w -> source < target ->
  plan_loop c source target acc = Some steps <->
  exists pre mid post, c = pre ++ mid ++ post /\ path source mid target /\ steps = acc ++ mid.
Proof.
  intros Hwf Hp. revert v source acc Hp. induction c as [|m c IH]; intros v source acc Hp Hlt.
  { split; [done|]. intros (pre & mid & post & He & Hm & _). symmetry in He.
    apply app_nil in He as [_ [-> _]%app_nil]. inversion Hm; subst. lia. }
  inversion Hp as [|? ? ? Hp']; subst. apply Forall_cons in Hwf as [Hm Hwf]. unfold migration_wf in Hm.
  specialize (IH Hwf). cbn [plan_loop].
  destruct (N.eqb_spec (from m) source) as [He|Hne]; [destruct (N.leb_spec (to m) target) as [Hle|Hgt]|]; cbn [andb].
  - destruct (N.eqb_spec (to m) target) as [Ht|Ht].
    + split.
      * intros [= <-]. exists [], [m], c. split_and!; [done| |done]. rewrite <- He, <- Ht. repeat constructor.
      * intros (pre & mid & post & Hc & Hmid & ->). f_equal. f_equal.
        destruct pre as [|x pre]; cbn in Hc.
        -- destruct mid as [|x mid]; [inversion Hmid; lia|]. injection Hc as -> Hc.
           inversion Hmid as [|? ? ? Hmid']; subst. destruct mid as [|y mid]; [done|].
           apply Forall_app in Hwf as [Hwf' _]. pose proof (path_bounds _ _ _ y Hwf' Hmid' ltac:(left)) as [? ?].
           apply Forall_cons in Hwf' as [Hy _]. unfold migration_wf in Hy. lia.
        -- injection Hc as -> Hc. destruct mid as [|y mid]; [inversion Hmid; lia|].
           assert (y ∈ c) as Hy by (rewrite Hc; set_solver). pose proof (path_bounds _ _ _ y Hwf Hp' Hy).
           inversion Hmid; subst. lia.
    + rewrite (IH _ _ _ Hp') by lia. split; intros (pre & mid & post & Hc & Hmid & ->).
      * destruct pre as [|x pre]; cbn in Hc.
        -- exists [], (m :: mid), post. rewrite <- He, Hc, <- app_assoc. split_and!; [done| by constructor |done].
        -- exfalso. destruct mid as [|y mid]; [inversion Hmid; lia|].
           rewrite Hc in Hp', Hwf. apply Forall_cons in Hwf as [Hx Hwf]. unfold migration_wf in Hx.
           inversion Hp' as [|? ? ? Hp'' Hfx]; clear Hp'.
           pose proof (path_bounds _ _ _ y Hwf Hp'' ltac:(set_solver)).
           inversion Hmid; subst. lia.
      * destruct pre as [|x pre]; cbn in Hc.
        -- destruct mid as [|x mid]; [inversion Hmid; lia|]. injection Hc as <- Hc. inversion Hmid; subst.
           exists [], mid, post. rewrite <- app_assoc. done.
        -- exfalso. injection Hc as -> Hc. destruct mid as [|y mid]; [inversion Hmid; lia|].
           assert (y ∈ c) as Hy by (rewrite Hc; set_solver). pose proof (path_bounds _ _ _ y Hwf Hp' Hy).
           inversion Hmid; subst. lia.
  - rewrite (proj2 (N.eqb_neq source target)), (IH _ _ _ Hp') by lia. split; intros (pre & mid & post & Hc & Hmid & ->).
    + exists (m :: pre), mid, post. by rewrite Hc.
    + destruct pre as [|x pre]; cbn in Hc.
      * exfalso. destruct mid as [|x mid]; [inversion Hmid; lia|]. injection Hc as <- Hc. inversion Hmid as [|? ? ? Hmid']; subst.
        apply Forall_app in Hwf as [Hwf' _]. apply path_le in Hmid'; [lia|done].
      * injection Hc as -> Hc. by exists pre, mid, post.
  - rewrite (proj2 (N.eqb_neq source target)), (IH _ _ _ Hp') by lia. split; intros (pre & mid & post & Hc & Hmid & ->).
    + exists (m :: pre), mid, post. by rewrite Hc.
    + destruct pre as [|x pre]; cbn in Hc.
      * exfalso. destruct mid as [|x mid]; [inversion Hmid; lia|]. injection Hc as <- Hc. inversion Hmid; subst. congruence.
      * injection Hc as -> Hc. by exists pre, mid, post.
Qed.

(** The catalog is a path once it is sorted and its checks passed, and the other way round. *)
Lemma migration_catalog_new_Ok ms c :
  MigrationCatalog_new ms = Ok c <->
  c = sort_by from ms /\ len ms <= MAX_MIGRATIONS /\ NoDup (migration_id <$> ms) /\ NoDup (from <$> ms) /\
  exists v w, path v c w.
Proof.
  unfold MigrationCatalog_new, validate_unique_migrations.
  destruct (N.ltb_spec MAX_MIGRATIONS (len ms)) as [Hl|Hl]; cbn -[set_len]; [split; [done | intros (_ & ? & _); lia]|].
  assert (set_len migration_id (sort_by from ms) = len (sort_by from ms) <-> NoDup (migration_id <$> ms)) as H1
    by by rewrite set_len_NoDup, sort_by_Permutation.
  assert (set_len from (sort_by from ms) = len (sort_by from ms) <-> NoDup (from <$> ms)) as H2
    by by rewrite set_len_NoDup, sort_by_Permutation.
  destruct (N.eqb_spec (set_len migration_id (sort_by from ms)) (len (sort_by from ms))) as [He1|He1];
    destruct (N.eqb_spec (set_len from (sort_by from ms)) (len (sort_by from ms))) as [He2|He2]; cbn -[set_len];
    try (split; [done | intros (_ & _ & ? & ? & _); tauto]).
  pose proof (validate_migration_chain_Ok (sort_by from ms)) as Hv.
  destruct (validate_migration_chain (sort_by from ms)) as [[]|].
  - apply proj1 in Hv. specialize (Hv eq_refl). split; [intros [= <-]; tauto | by intros (-> & _)].
  - split; [done|]. intros (-> & _ & _ & _ & Hc). discriminate (proj2 Hv Hc).
Qed.

Lemma migration_catalog_wf ms c : Forall migration_wf ms -> MigrationCatalog_new ms = Ok c -> catalog_wf c.
Proof.
  intros Hwf (-> & Hl & Hid & _ & Hp)%migration_catalog_new_Ok. split_and!; [|by rewrite sort_by_Permutation..|done].
  unfold len in *. by rewrite sort_by_Permutation.
Qed.

Lemma path_unique c v w source target pre mid post pre' mid' post' :
  Forall migration_wf c -> path v c w -> source < target ->
  c = pre ++ mid ++ post -> path source mid target -> c = pre' ++ mid' ++ post' -> path source mid' target -> mid = mid'.
Proof.
  intros Hwf Hp Hlt Hc Hm Hc' Hm'.
  assert (plan_loop c source target [] = Some mid) as H1 by (apply (plan_loop_Some c v w); eauto 10).
  assert (plan_loop c source target [] = Some mid') as H2 by (apply (plan_loop_Some c v w); eauto 10).
  congruence.
Qed.

(** ** Theorems *)

(** C0. A set of forward migrations is accepted as a catalog exactly when there are at most
    1024 of them, their identities differ, and some order of them is a gap-free path of
    versions; the catalog is that order, so the order they are given in does not matter. *)
Theorem migration_catalog_exact (ms : list MigrationDescriptor) (c : MigrationCatalog) (Hms : Forall migration_wf ms) :
  MigrationCatalog_new ms = Ok c <-> catalog_wf c /\ c ≡ₚ ms.
Proof.
  split.
  - intros Hc. split; [by apply (migration_catalog_wf ms)|]. apply migration_catalog_new_Ok in Hc as [-> _]. apply sort_by_Permutation.
  - intros [(Hl & Hwf & Hid & v & w & Hp) Hperm]. apply migration_catalog_new_Ok.
    pose proof (path_sorted v c w Hwf Hp) as Hs.
    assert (NoDup (from <$> ms)) as Hnd by (rewrite <- Hperm; by apply strictly_sorted_NoDup).
    assert (c = sort_by from ms) as ->.
    { apply (strictly_sorted_unique from); [done| |by rewrite sort_by_Permutation].
      apply sorted_NoDup_strict; [apply sort_by_sorted | by rewrite sort_by_Permutation]. }
    split_and!; [done| | |done|by exists v, w].
    + unfold len in *. by rewrite sort_by_Permutation in Hl.
    + by rewrite sort_by_Permutation in Hid.
Qed.

(** A well-formed catalog plans a migration between two versions exactly when they are
    increasing and a contiguous part of the catalog leads from the one to the other; the
    steps of the plan are that part.  Versions that do not increase are an invalid
    argument, and a missing path asks for a migration. *)
Theorem catalog_plan_exact (c : MigrationCatalog) (source target : SchemaVersion) (Hc : catalog_wf c) :
  (forall plan, catalog_plan c source target = Ok plan <->
     source < target /\ plan_source plan = source /\ plan_target plan = target /\
     path source (plan_steps plan) target /\ exists pre post, c = pre ++ plan_steps plan ++ post) /\
  (catalog_plan c source target = Err (storage_error InvalidArgument) <-> target <= source) /\
  (catalog_plan c source target = Err (storage_error MigrationRequired) <->
     source < target /\ forall pre steps post, c = pre ++ steps ++ post -> ~ path source steps target).
Proof.
  destruct Hc as (_ & Hwf & _ & v & w & Hp). unfold catalog_plan.
  destruct (N.leb_spec target source) as [Hle|Hlt]; cbn [reject_if mbind result_bind].
  { split_and!; [intros plan; split; [done | intros [? _]; lia] | done | split; [done | intros [? _]; lia]]. }
  pose proof (fun steps => plan_loop_Some c v w source target [] steps Hwf Hp Hlt) as Hpl. cbn [app] in Hpl.
  destruct (plan_loop c source target []) as [steps|] eqn:He; cbn [ok_or].
  - destruct (proj1 (Hpl steps) eq_refl) as (pre & mid & post & Hc & Hmid & ->). split_and!.
    + intros plan. split.
      * intros Heq. injection Heq as <-. cbn. split_and!; try done. by exists pre, post.
      * destruct plan as [a b ss]. cbn. intros (_ & -> & -> & Hss & pre' & post' & Hc').
        unfold mret, result_ret. do 2 f_equal.
        exact (path_unique c v w source target pre mid post pre' ss post' Hwf Hp Hlt Hc Hmid Hc' Hss).
    + split; [done | lia].
    + split; [done | intros [_ Hno]; by destruct (Hno _ _ _ Hc)].
  - split_and!.
    + intros plan. split; [done|]. intros (_ & _ & _ & Hss & pre & post & Hc).
      discriminate (proj2 (Hpl (plan_steps plan)) (ex_intro _ pre (ex_intro _ _ (ex_intro _ post (conj Hc (conj Hss eq_refl)))))).
    + split; [done | lia].
    + split; [|done]. intros _. split; [done|]. intros pre steps post Hc Hss.
      discriminate (proj2 (Hpl steps) (ex_intro _ pre (ex_intro _ _ (ex_intro _ post (conj Hc (conj Hss eq_refl)))))).
Qed.

Definition sample_checksum : digest := Vector.const Byte.x00 32.
Definition sample_migration (id : string) (a b : SchemaVersion) (backup : bool) : MigrationDescriptor :=
  mk_MigrationDescriptor (MkStorageKey id) (MkStorageKey "accounts") a b sample_checksum backup.
Definition sample_migrations : list MigrationDescriptor :=
  [sample_migration "m3" 4 5 false; sample_migration "m1" 1 2 false; sample_migration "m2" 2 4 true].
Definition sample_catalog : MigrationCatalog := sort_by from sample_migrations.

Lemma sample_migrations_wf : Forall migration_wf sample_migrations.
Proof. repeat constructor. Defined.
Lemma sample_catalog_wf : catalog_wf sample_catalog.
Proof.
  split_and!; [by vm_compute | repeat constructor | apply (bool_decide_unpack _); by vm_compute |].
  exists 1, 5. apply (path_cons (sample_migration "m1" 1 2 false)), (path_cons (sample_migration "m2" 2 4 true)),
    (path_cons (sample_migration "m3" 4 5 false)), path_nil.
Defined.

Lemma migration_catalog_exact_witness : MigrationCatalog_new sample_migrations = Ok sample_catalog.
Proof.
  apply (migration_catalog_exact sample_migrations sample_catalog sample_migrations_wf).
  split; [exact sample_catalog_wf | apply sort_by_Permutation].
Defined.
Lemma catalog_plan_exact_witness :
  catalog_plan sample_catalog 2 5 = Ok (mk_MigrationPlan 2 5 [sample_migration "m2" 2 4 true; sample_migration "m3" 4 5 false]) /\
  catalog_plan sample_catalog 2 3 = Err (storage_error MigrationRequired) /\
  catalog_plan sample_catalog 3 3 = Err (storage_error InvalidArgument).
Proof.
  split_and!; [by vm_compute..|]. apply (catalog_plan_exact sample_catalog 3 3 sample_catalog_wf). done.
Defined.
