(* ===== verification/StorageMigration.v ===== *)
(** * Migration registry and orchestration

    Models [crates/optional/ariadnion-storage-migration/src/registry.rs] and
    [orchestrator.rs]: the bounded registry that keeps a valid catalog, and the
    orchestration of one migration over an executor.  The executor port and the activity of
    the request's context are the class [MigrationExecutor].  Shown: a registry always holds
    a well-formed catalog, however it is filled; and data are only written for a plan of the
    catalog under a preflight that permits it, a receipt only returned for the request. *)

From stdpp Require Import relations.
From S2P Require Import Prelude CoreTypes StorageDomain.
#[local] Open Scope N_scope.

(** ** Registry ([registry.rs]) *)

Definition MAX_REGISTERED_MIGRATIONS : N := 1024.

Record MigrationRegistry := mk_MigrationRegistry { max_entries : N; registry_catalog : MigrationCatalog }.

Definition validate_registry_limit (max_entries : N) : outcome unit :=
  reject_if (max_entries =? 0) (storage_error InvalidArgument) ;;
  reject_if (MAX_REGISTERED_MIGRATIONS <? max_entries) (storage_error ResourceExhausted).

Definition MigrationRegistry_new (max_entries : N) : outcome MigrationRegistry :=
  validate_registry_limit max_entries ;;
  catalog ← MigrationCatalog_new [];
  mret (mk_MigrationRegistry max_entries catalog).

Definition ensure_capacity (current maximum : N) : outcome unit :=
  reject_if (maximum <=? current) (storage_error ResourceExhausted).

Definition register (migration : MigrationDescriptor) : act MigrationRegistry StorageError unit :=
  r ← get;
  lift (ensure_capacity (len (registry_catalog r)) (max_entries r)) ;;
  let migrations := registry_catalog r ++ [migration] in
  catalog ← lift (MigrationCatalog_new migrations);
  put (mk_MigrationRegistry (max_entries r) catalog).

Definition registry_plan (r : MigrationRegistry) (source target : SchemaVersion) : outcome MigrationPlan :=
  catalog_plan (registry_catalog r) source target.

(** Any registrations of constructed descriptors. *)
Inductive registry_step : MigrationRegistry -> MigrationRegistry -> Prop :=
| step_register r m : migration_wf m -> registry_step r (register m r).1.
Definition registry_reachable (limit : N) (r : MigrationRegistry) : Prop :=
  exists r0, MigrationRegistry_new limit = Ok r0 /\ rtc registry_step r0 r.

(** ** Orchestration ([orchestrator.rs]) *)

Record MigrationRequest := mk_MigrationRequest {
  request_source : StorageInstanceId; request_target : StorageInstanceId;
  source_version : SchemaVersion; target_version : SchemaVersion;
}.

Definition ensure_distinct_targets (source target : StorageInstanceId) : outcome unit :=
  reject_if (bool_decide (source = target)) (storage_error Conflict).
Definition ensure_forward_window (source target : SchemaVersion) : outcome unit :=
  reject_if (target <=? source) (storage_error InvalidArgument).

Definition MigrationRequest_new (source target : StorageInstanceId) (source_version target_version : SchemaVersion)
    : outcome MigrationRequest :=
  ensure_distinct_targets source target ;;
  ensure_forward_window source_version target_version ;;
  mret (mk_MigrationRequest source target source_version target_version).

(** The executor port, and what [RequestContext::check_active] finds when it is asked. *)
Class MigrationExecutor (World : Type) := {
  context_check_active : act World CoreError unit;
  executor_preflight : StorageInstanceId -> StorageInstanceId -> MigrationPlan -> act World StorageError MigrationPreflight;
  executor_apply : StorageInstanceId -> StorageInstanceId -> MigrationPlan -> MigrationPreflight -> act World StorageError unit;
  executor_verify : StorageInstanceId -> StorageInstanceId -> SchemaVersion -> act World StorageError MigrationReceipt;
}.

Definition map_context_error (error : CoreError) : StorageError :=
  storage_error (match ce_code error with
                 | CoreTypes.Cancelled => Cancelled
                 | CoreTypes.DeadlineExceeded => DeadlineExceeded
                 | _ => Internal
                 end).

Definition require_permitted_preflight (preflight : MigrationPreflight) (plan : MigrationPlan) : outcome unit :=
  reject_if (negb (preflight_permits preflight plan)) (storage_error IntegrityFailure).

Definition receipt_matches (receipt : MigrationReceipt) (request : MigrationRequest) : bool :=
  bool_decide (receipt_source receipt = request_source request)
  && bool_decide (receipt_target receipt = request_target request)
  && (receipt_version receipt =? target_version request).
Definition validate_receipt (receipt : MigrationReceipt) (request : MigrationRequest) : outcome unit :=
  reject_if (negb (receipt_matches receipt request)) (storage_error IntegrityFailure).

Definition orchestrator_plan (catalog : MigrationCatalog) (request : MigrationRequest) : outcome MigrationPlan :=
  catalog_plan catalog (source_version request) (target_version request).

Section orchestrator.
Context {World : Type} {executor : MigrationExecutor World}.

Definition check_context : act World StorageError unit :=
  fun w => match context_check_active w with
           | (w', Ok u) => (w', Ok u)
           | (w', Err e) => (w', Err (map_context_error e))
           end.

Record PreparedMigration := mk_PreparedMigration { prepared_plan : MigrationPlan; prepared_preflight : MigrationPreflight }.

Definition prepare (catalog : MigrationCatalog) (request : MigrationRequest) : act World StorageError PreparedMigration :=
  check_context ;;
  plan ← lift (orchestrator_plan catalog request);
  preflight ← executor_preflight (request_source request) (request_target request) plan;
  lift (require_permitted_preflight preflight plan) ;;
  mret (mk_PreparedMigration plan preflight).

Definition apply_and_verify (request : MigrationRequest) (prepared : PreparedMigration)
    : act World StorageError MigrationReceipt :=
  check_context ;;
  executor_apply (request_source request) (request_target request) (prepared_plan prepared) (prepared_preflight prepared) ;;
  receipt ← executor_verify (request_source request) (request_target request) (target_version request);
  lift (validate_receipt receipt request) ;;
  mret receipt.

Definition execute (catalog : MigrationCatalog) (request : MigrationRequest) : act World StorageError MigrationReceipt :=
  prepared ← prepare catalog request;
  apply_and_verify request prepared.
End orchestrator.

(** ** Lemmas *)

Lemma registry_new_Ok limit r :
  MigrationRegistry_new limit = Ok r -> r = mk_MigrationRegistry limit [] /\ 1 <= limit <= MAX_REGISTERED_MIGRATIONS.
Proof.
  unfold MigrationRegistry_new, validate_registry_limit. destruct (N.eqb_spec limit 0); [done|]. cbn [reject_if mbind result_bind].
  destruct (N.ltb_spec MAX_REGISTERED_MIGRATIONS limit); [done|]. intros [= <-]. split; [done | lia].
Qed.

Lemma catalog_empty_wf : catalog_wf [].
Proof. split_and!; [by vm_compute | constructor | constructor | exists 0, 0; constructor]. Qed.

Lemma register_cases m r :
  migration_wf m -> catalog_wf (registry_catalog r) ->
  (exists e, register m r = (r, Err e)) \/
  (exists c, register m r = (mk_MigrationRegistry (max_entries r) c, Ok tt) /\
     len (registry_catalog r) < max_entries r /\ catalog_wf c /\ c ≡ₚ m :: registry_catalog r).
Proof.
  intros Hm (Hl & Hwf & Hid & Hp). unfold register, ensure_capacity. rewrite act_get_run.
  destruct (N.leb_spec (max_entries r) (len (registry_catalog r))) as [|Hlt]; cbn [reject_if]; [left; by eexists|].
  rewrite act_lift_run. destruct (MigrationCatalog_new (registry_catalog r ++ [m])) as [c|e] eqn:Hc; [|left; by eexists].
  right. exists c. rewrite act_lift_run. split; [done|]. split; [done|].
  apply migration_catalog_new_Ok in Hc as Hc'. destruct Hc' as [-> _]. split.
  - eapply migration_catalog_wf; [|exact Hc]. apply Forall_app. by split; [|constructor].
  - rewrite sort_by_Permutation. by rewrite Permutation_app_comm.
Qed.

Lemma registry_reachable_inv limit r :
  registry_reachable limit r -> max_entries r = limit /\ len (registry_catalog r) <= limit /\ catalog_wf (registry_catalog r).
Proof.
  intros (r0 & [-> Hlim]%registry_new_Ok & Hr).
  set (I := fun r => max_entries r = limit /\ len (registry_catalog r) <= limit /\ catalog_wf (registry_catalog r)).
  apply (rtc_invariant registry_step I) with (2 := Hr).
  - intros x y (Hx & Hlen & Hwf) Hxy. destruct Hxy as [x m Hm].
    destruct (register_cases m x Hm Hwf) as [(e & ->) | (c & -> & Hlt & Hwf' & Hperm)]; [done|].
    apply Permutation_length in Hperm. cbn [length] in Hperm. split_and!; try done. unfold len in *. cbn [registry_catalog fst]. lia.
  - unfold I, len. cbn [registry_catalog max_entries length]. split_and!; [done | lia | apply catalog_empty_wf].
Qed.

Section orchestrator_facts.
Context {World : Type} {executor : MigrationExecutor World}.

(** A run of [prepare] that succeeds. *)
Lemma prepare_Ok catalog request w w' p :
  prepare catalog request w = (w', Ok p) ->
  orchestrator_plan catalog request = Ok (prepared_plan p) /\
  preflight_permits (prepared_preflight p) (prepared_plan p) = true /\
  exists w1, executor_preflight (request_source request) (request_target request) (prepared_plan p) w1 = (w', Ok (prepared_preflight p)).
Proof.
  unfold prepare. intros [(w1 & [] & _ & H)|(e & _ & ?)]%act_bind_inv; [|done].
  apply act_bind_inv in H as [(w2 & plan & Hp & H)|(e & _ & ?)]; [|done]. injection Hp as -> Hp.
  apply act_bind_inv in H as [(w3 & preflight & Hf & H)|(e & _ & ?)]; [|done].
  apply act_bind_inv in H as [(w4 & [] & Hq & H)|(e & _ & ?)]; [|done].
  injection Hq as -> Hq. injection H as -> <-. cbn. unfold require_permitted_preflight in Hq.
  apply reject_if_Ok, negb_false_iff in Hq. split_and!; try done. by exists w2.
Qed.

Lemma validate_receipt_Ok receipt request :
  validate_receipt receipt request = Ok tt ->
  receipt_source receipt = request_source request /\ receipt_target receipt = request_target request /\
  receipt_version receipt = target_version request.
Proof.
  unfold validate_receipt, receipt_matches. intros H%reject_if_Ok%negb_false_iff.
  apply andb_true_iff in H as [[H1%bool_decide_eq_true H2%bool_decide_eq_true]%andb_true_iff H3%N.eqb_eq]. done.
Qed.

(** What the parts that only look are documented not to change. *)
Context {Data : Type} (data : World -> Data).
Hypothesis check_reads : forall w, data (context_check_active w).1 = data w.
Hypothesis preflight_reads : forall s t p w, data (executor_preflight s t p w).1 = data w.
Hypothesis verify_reads : forall s t v w, data (executor_verify s t v w).1 = data w.

Lemma check_context_reads w : data (check_context w).1 = data w.
Proof. unfold check_context. rewrite <- (check_reads w). by destruct (context_check_active w) as [? []]. Qed.

Lemma reads_bind {E A B} (m : act World E A) (f : A -> act World E B) :
  (forall w, data (m w).1 = data w) -> (forall a w, data (f a w).1 = data w) -> forall w, data ((m ≫= f) w).1 = data w.
Proof.
  intros Hm Hf w. unfold mbind, act_bind. rewrite <- (Hm w). destruct (m w) as [w' [a|e]]; cbn; [apply Hf | done].
Qed.

Lemma prepare_reads catalog request w : data (prepare catalog request w).1 = data w.
Proof.
  unfold prepare. apply reads_bind; [apply check_context_reads|]. intros _ w1.
  apply reads_bind; [done|]. intros plan w2. apply reads_bind; [intros; apply preflight_reads|]. intros pf w3.
  apply reads_bind; done.
Qed.

(** After the preparation the data are those the one application leaves. *)
Lemma apply_and_verify_data request p w :
  data (apply_and_verify request p w).1 = data w \/
  exists w1, data w1 = data w /\
    data (apply_and_verify request p w).1 =
    data (executor_apply (request_source request) (request_target request) (prepared_plan p) (prepared_preflight p) w1).1.
Proof.
  unfold apply_and_verify. pose proof (check_context_reads w) as Hc. unfold mbind, act_bind.
  destruct (check_context w) as [w1 [[]|e]]; cbn in *; [|by left]. right. exists w1. split; [done|].
  destruct (executor_apply _ _ _ _ w1) as [w2 [[]|e]]; cbn; [|done].
  pose proof (verify_reads (request_source request) (request_target request) (target_version request) w2) as Hv.
  destruct (executor_verify _ _ _ w2) as [w3 [r|e]]; cbn in *; [|done]. by destruct (validate_receipt r request).
Qed.
End orchestrator_facts.

(** ** Theorems *)

(** C0. However a registry is filled, it holds a well-formed catalog within its limit; a
    registration either adds exactly its migration or refuses and changes nothing. *)
Theorem registry_sound (limit : N) (r : MigrationRegistry) (m : MigrationDescriptor)
    (Hr : registry_reachable limit r) (Hm : migration_wf m) :
  (max_entries r = limit /\ len (registry_catalog r) <= limit /\ catalog_wf (registry_catalog r)) /\
  ((exists e, register m r = (r, Err e)) \/
   (exists c, register m r = (mk_MigrationRegistry limit c, Ok tt) /\ c ≡ₚ m :: registry_catalog r)).
Proof.
  pose proof (registry_reachable_inv limit r Hr) as (<- & Hl & Hwf). split; [done|].
  destruct (register_cases m r Hm Hwf) as [?|(c & Hc & _ & _ & Hp)]; [by left | right; by exists c].
Qed.

(** When the context, the preflight and the verification of an executor only look, a
    migration leaves the data as they were unless the catalog has a plan for the request's
    versions and a preflight of this plan permitted it, and then they are what one
    application of the plan made of them; a receipt is returned only for the requested
    source, target and version. *)
Theorem execute_guarded (World Data : Type) (executor : MigrationExecutor World) (data : World -> Data)
    (catalog : MigrationCatalog) (request : MigrationRequest) (w : World)
    (Hcheck : forall w, data (context_check_active w).1 = data w)
    (Hpreflight : forall s t p w, data (executor_preflight s t p w).1 = data w)
    (Hverify : forall s t v w, data (executor_verify s t v w).1 = data w) :
  (data (execute catalog request w).1 = data w \/
   exists plan preflight w1,
     catalog_plan catalog (source_version request) (target_version request) = Ok plan /\
     preflight_permits preflight plan = true /\ data w1 = data w /\
     data (execute catalog request w).1 =
     data (executor_apply (request_source request) (request_target request) plan preflight w1).1) /\
  (forall w' receipt, execute catalog request w = (w', Ok receipt) ->
     receipt_source receipt = request_source request /\ receipt_target receipt = request_target request /\
     receipt_version receipt = target_version request).
Proof.
  unfold execute. split.
  - unfold mbind, act_bind. pose proof (prepare_reads data Hcheck Hpreflight catalog request w) as Hp.
    destruct (prepare catalog request w) as [w0 [p|e]] eqn:He; cbn in Hp; [|by left].
    apply prepare_Ok in He as (Hplan & Hperm & _). rewrite <- Hp.
    destruct (apply_and_verify_data data Hcheck Hverify request p w0) as [|(w1 & H1 & H2)]; [by left|].
    right. exists (prepared_plan p), (prepared_preflight p), w1. done.
  - intros w' receipt [(w0 & p & _ & H)|(e & _ & ?)]%act_bind_inv; [|done]. unfold apply_and_verify in H.
    apply act_bind_inv in H as [(w1 & [] & _ & H)|(e & _ & ?)]; [|done].
    apply act_bind_inv in H as [(w2 & [] & _ & H)|(e & _ & ?)]; [|done].
    apply act_bind_inv in H as [(w3 & r & _ & H)|(e & _ & ?)]; [|done].
    apply act_bind_inv in H as [(w4 & [] & Hv & H)|(e & _ & ?)]; [|done].
    injection Hv as -> Hv. injection H as _ <-. by apply validate_receipt_Ok.
Qed.

(** An executor whose data are the version of the target, as far as it was written. *)
Definition sample_executor : MigrationExecutor (option N) := {|
  context_check_active := fun w => (w, Ok tt);
  executor_preflight := fun _ _ _ w => (w, Ok (mk_MigrationPreflight true (bool_decide (w = None)) true));
  executor_apply := fun _ _ plan _ _ => (Some (plan_target plan), Ok tt);
  executor_verify := fun s t v w => (w, if bool_decide (w = Some v) then Ok (mk_MigrationReceipt s t v 7)
                                        else Err (storage_error IntegrityFailure));
|}.
Definition sample_request (a b : N) : MigrationRequest :=
  mk_MigrationRequest (MkStorageKey "old") (MkStorageKey "new") a b.

Lemma sample_registry_reachable : registry_reachable 2 (mk_MigrationRegistry 2 [sample_migration "m1" 1 2 false]).
Proof.
  exists (mk_MigrationRegistry 2 []). split; [by vm_compute|].
  apply rtc_once. apply (step_register (mk_MigrationRegistry 2 []) (sample_migration "m1" 1 2 false)). by vm_compute.
Defined.
Lemma registry_sound_witness :
  (register (sample_migration "m3" 4 5 false) (mk_MigrationRegistry 2 [sample_migration "m1" 1 2 false])).2
    = Err (storage_error MigrationRequired) /\
  catalog_wf [sample_migration "m1" 1 2 false].
Proof.
  split; [by vm_compute|].
  exact (proj2 (proj2 (proj1 (registry_sound 2 _ (sample_migration "m3" 4 5 false) sample_registry_reachable ltac:(by vm_compute))))).
Defined.
Lemma execute_guarded_witness :
  is_ok (execute (executor := sample_executor) sample_catalog (sample_request 1 5) None).2 = true /\
  (execute (executor := sample_executor) sample_catalog (sample_request 1 5) (Some 1)).1 = Some 1 /\
  (let w := execute (executor := sample_executor) sample_catalog (sample_request 1 3) None in
   w.1 = None \/ exists plan preflight w1, catalog_plan sample_catalog 1 3 = Ok plan /\
     preflight_permits preflight plan = true /\ w1 = None /\ w.1 = (@executor_apply _ sample_executor (MkStorageKey "old") (MkStorageKey "new") plan preflight w1).1).
Proof.
  split_and!; [by vm_compute..|].
  apply (execute_guarded (option N) (option N) sample_executor (fun w => w) sample_catalog (sample_request 1 3) None); done.
Defined.
