(* ===== verification/StorageUpgrade.v ===== *)
(** * Offline upgrades of a storage instance

    Models [crates/optional/ariadnion-storage-upgrade/src/model.rs] and [workflow.rs]: version
    states, immutable plans of format, schema and key steps, and the evidence a switch of the
    active instance needs: backup, preflight, inactive target, verification, authorization
    and receipt, forward and back.  Shown: a plan is accepted exactly when its steps, in
    phases, lead from the source's state to the target's without gaps; an activation is only
    authorized on complete evidence for one plan; a rollback selects exactly the source again. *)

From Stdlib Require Import Ascii.
From S2P Require Import Prelude CoreTypes Identity StorageDomain.
#[local] Open Scope N_scope.
#[local] Open Scope record_scope.

Definition MAX_IDENTIFIER_BYTES : N := 128.
Definition MAX_UPGRADE_STEPS : N := 256.
Definition MAX_UPGRADE_BYTES : N := N.shiftl 1 50.

(** ** Identities and states ([model.rs]) *)

Inductive identifier_kind := KeyVersion | SwitchAuthorizationReference.
Record BoundedIdentifier (k : identifier_kind) := MkBoundedIdentifier { identifier_str : string }.
Arguments MkBoundedIdentifier {k} _.
Arguments identifier_str {k} _.
#[export] Instance BoundedIdentifier_eq_dec k : EqDecision (BoundedIdentifier k).
Proof. solve_decision. Defined.
Definition KeyVersionId := BoundedIdentifier KeyVersion.
Definition SwitchAuthorizationId := BoundedIdentifier SwitchAuthorizationReference.

Definition valid_upgrade_identifier (value : string) : bool :=
  negb (is_empty value) && (byte_len value <=? MAX_IDENTIFIER_BYTES) && is_ascii value
  && all_bytes is_identifier_byte value.
Definition identifier_parse {k} (value : string) : outcome (BoundedIdentifier k) :=
  reject_if (negb (valid_upgrade_identifier value)) (storage_error InvalidArgument) ;;
  mret (MkBoundedIdentifier value).

Definition DatabaseFormatVersion := N.
Definition DatabaseFormatVersion_new (value : N) : outcome DatabaseFormatVersion :=
  reject_if (value =? 0) (storage_error InvalidArgument) ;; mret value.

Record StorageVersionState := mk_StorageVersionState {
  format : DatabaseFormatVersion; schema : SchemaVersion; key_version : KeyVersionId;
}.
#[export] Instance StorageVersionState_eta : Eta StorageVersionState :=
  fun s => mk_StorageVersionState (format s) (schema s) (key_version s).
#[export] Instance StorageVersionState_eq_dec : EqDecision StorageVersionState.
Proof. solve_decision. Defined.

Record UpgradeSource := mk_UpgradeSource {
  instance : StorageInstanceId; source_digest : digest; source_state : StorageVersionState;
}.
#[export] Instance UpgradeSource_eq_dec : EqDecision UpgradeSource.
Proof. solve_decision. Defined.

(** ** Steps *)

(** [SupportedVersionWindow<V>] for both kinds of version, which are numbers. *)
Record SupportedVersionWindow := mk_SupportedVersionWindow { window_from : N; window_to : N; definition_digest : digest }.
#[export] Instance SupportedVersionWindow_eq_dec : EqDecision SupportedVersionWindow.
Proof. solve_decision. Defined.

Definition create_supported_window (from to : N) (definition_digest : digest) (supported : bool)
    : outcome SupportedVersionWindow :=
  reject_if (negb supported) (storage_error MigrationRequired) ;;
  mret (mk_SupportedVersionWindow from to definition_digest).
Definition DatabaseFormatWindow_new (from to : DatabaseFormatVersion) (definition_digest : digest)
    : outcome SupportedVersionWindow :=
  let supported := bool_decide (checked_add u32_max from 1 = Some to) in
  create_supported_window from to definition_digest supported.
Definition ApplicationSchemaWindow_new (from to : SchemaVersion) (definition_digest : digest)
    : outcome SupportedVersionWindow :=
  let supported := bool_decide (checked_add u64_max from 1 = Some to) in
  create_supported_window from to definition_digest supported.

Record KeyRotationStep := mk_KeyRotationStep { key_from : KeyVersionId; key_to : KeyVersionId; key_digest : digest }.
#[export] Instance KeyRotationStep_eq_dec : EqDecision KeyRotationStep.
Proof. solve_decision. Defined.
Definition KeyRotationStep_new (from to : KeyVersionId) (definition_digest : digest) : outcome KeyRotationStep :=
  reject_if (bool_decide (from = to)) (storage_error MigrationRequired) ;;
  mret (mk_KeyRotationStep from to definition_digest).

Inductive UpgradeStep :=
| DatabaseFormat (window : SupportedVersionWindow)
| ApplicationSchema (window : SupportedVersionWindow)
| KeyRotation (rotation : KeyRotationStep).
#[export] Instance UpgradeStep_eq_dec : EqDecision UpgradeStep.
Proof. solve_decision. Defined.

(** ** Plans *)

Record UpgradePlan := mk_UpgradePlan {
  source : UpgradeSource; target : StorageInstanceId; target_state : StorageVersionState;
  steps : list UpgradeStep; plan_digest : digest;
}.
#[export] Instance UpgradePlan_eq_dec : EqDecision UpgradePlan.
Proof. solve_decision. Defined.

Definition validate_identities (source target : StorageInstanceId) : outcome unit :=
  reject_if (bool_decide (source = target)) (storage_error Conflict).

Definition validate_forward_state (source target : StorageVersionState) : outcome unit :=
  reject_if ((format target <? format source) || (schema target <? schema source)) (storage_error MigrationRequired) ;;
  reject_if (bool_decide (source = target)) (storage_error InvalidArgument).

Definition validate_step_count (steps : list UpgradeStep) : outcome unit :=
  reject_if (bool_decide (steps = [])) (storage_error InvalidArgument) ;;
  reject_if (MAX_UPGRADE_STEPS <? len steps) (storage_error ResourceExhausted).

Definition validate_step_order (previous : option N) (current : N) : outcome unit :=
  reject_if (is_some_and (fun phase => current <? phase) previous) (storage_error MigrationRequired).

Definition step_phase (step : UpgradeStep) : N :=
  match step with
  | DatabaseFormat _ => 0
  | ApplicationSchema _ => 1
  | KeyRotation _ => 2
  end.

Definition apply_format (state : StorageVersionState) (window : SupportedVersionWindow) : outcome StorageVersionState :=
  reject_if (negb (format state =? window_from window)) (storage_error MigrationRequired) ;;
  mret (state <| format := window_to window |>).
Definition apply_schema (state : StorageVersionState) (window : SupportedVersionWindow) : outcome StorageVersionState :=
  reject_if (negb (schema state =? window_from window)) (storage_error MigrationRequired) ;;
  mret (state <| schema := window_to window |>).
Definition apply_key (state : StorageVersionState) (step : KeyRotationStep) : outcome StorageVersionState :=
  reject_if (negb (bool_decide (key_version state = key_from step))) (storage_error MigrationRequired) ;;
  mret (state <| key_version := key_to step |>).
Definition apply_step (state : StorageVersionState) (step : UpgradeStep) : outcome StorageVersionState :=
  match step with
  | DatabaseFormat window => apply_format state window
  | ApplicationSchema window => apply_schema state window
  | KeyRotation rotation => apply_key state rotation
  end.

(** The loop of [replay_steps] with the phase of the step before. *)
Fixpoint replay_from (state : StorageVersionState) (previous : option N) (steps : list UpgradeStep)
    : outcome StorageVersionState :=
  match steps with
  | [] => Ok state
  | step :: rest =>
      let phase := step_phase step in
      validate_step_order previous phase ;;
      state ← apply_step state step;
      replay_from state (Some phase) rest
  end.
Definition replay_steps (source : StorageVersionState) (steps : list UpgradeStep) : outcome StorageVersionState :=
  replay_from source None steps.

Definition validate_replayed_state (actual expected : StorageVersionState) : outcome unit :=
  reject_if (negb (bool_decide (actual = expected))) (storage_error MigrationRequired).
Definition validate_steps (source target : StorageVersionState) (steps : list UpgradeStep) : outcome unit :=
  validate_step_count steps ;;
  state ← replay_steps source steps;
  validate_replayed_state state target.

Definition UpgradePlan_new (source : UpgradeSource) (target : StorageInstanceId) (target_state : StorageVersionState)
    (steps : list UpgradeStep) (digest : digest) : outcome UpgradePlan :=
  validate_identities (instance source) target ;;
  validate_forward_state (source_state source) target_state ;;
  validate_steps (source_state source) target_state steps ;;
  mret (mk_UpgradePlan source target target_state steps digest).

(** ** Evidence ([workflow.rs]) *)

Record VerifiedBackupEvidence := mk_VerifiedBackupEvidence {
  backup_source : StorageInstanceId; backup_source_digest : digest; evidence_digest : digest;
}.

Record PreflightAccessEvidence := mk_PreflightAccessEvidence {
  source_readable : bool; target_creatable : bool; selection_switchable : bool;
  backup_key_available : bool; source_key_available : bool; target_key_available : bool;
}.
Definition access_permits (a : PreflightAccessEvidence) : bool :=
  source_readable a && target_creatable a && selection_switchable a
  && backup_key_available a && source_key_available a && target_key_available a.

Record UpgradePreflightEvidence := mk_UpgradePreflightEvidence {
  preflight_plan : UpgradePlan; backup_digest : digest; preflight_target_empty : bool;
  required_bytes : N; available_bytes : N; access : PreflightAccessEvidence;
}.

Definition validate_backup (plan : UpgradePlan) (backup : VerifiedBackupEvidence) : outcome unit :=
  reject_if (negb (bool_decide (backup_source backup = instance (source plan)))) (storage_error IntegrityFailure) ;;
  reject_if (negb (bool_decide (backup_source_digest backup = source_digest (source plan)))) (storage_error IntegrityFailure).
Definition validate_capacity (required available : N) : outcome unit :=
  reject_if ((MAX_UPGRADE_BYTES <? required) || (MAX_UPGRADE_BYTES <? available)) (storage_error ResourceExhausted).

Definition UpgradePreflightEvidence_new (plan : UpgradePlan) (backup : VerifiedBackupEvidence) (target_empty : bool)
    (required_bytes available_bytes : N) (access : PreflightAccessEvidence) : outcome UpgradePreflightEvidence :=
  validate_backup plan backup ;;
  validate_capacity required_bytes available_bytes ;;
  mret (mk_UpgradePreflightEvidence plan (evidence_digest backup) target_empty required_bytes available_bytes access).

Definition preflight_matches_plan (p : UpgradePreflightEvidence) (plan : UpgradePlan) : bool :=
  bool_decide (preflight_plan p = plan).
Definition safety_checks_pass (p : UpgradePreflightEvidence) : bool :=
  preflight_target_empty p && (required_bytes p <=? available_bytes p) && access_permits (access p).
Definition upgrade_preflight_permits (p : UpgradePreflightEvidence) (plan : UpgradePlan) : bool :=
  preflight_matches_plan p plan && safety_checks_pass p.

Record InactiveUpgradeTarget := mk_InactiveUpgradeTarget { inactive_plan : UpgradePlan; applied_steps : N }.
Definition InactiveUpgradeTarget_new (plan : UpgradePlan) (preflight : UpgradePreflightEvidence) (applied_steps : N)
    : outcome InactiveUpgradeTarget :=
  reject_if (negb (preflight_matches_plan preflight plan)) (storage_error IntegrityFailure) ;;
  reject_if (negb (safety_checks_pass preflight)) (storage_error Conflict) ;;
  reject_if (negb (applied_steps =? len (steps plan))) (storage_error IntegrityFailure) ;;
  mret (mk_InactiveUpgradeTarget plan applied_steps).
Definition inactive_matches_plan (t : InactiveUpgradeTarget) (plan : UpgradePlan) : bool :=
  bool_decide (inactive_plan t = plan) && (applied_steps t =? len (steps plan)).

Record UpgradeVerificationChecks := mk_UpgradeVerificationChecks { authentication_passed : bool; structure_valid : bool }.
Definition checks_pass (c : UpgradeVerificationChecks) : bool := authentication_passed c && structure_valid c.

Record UpgradeVerificationEvidence := mk_UpgradeVerificationEvidence {
  verified_plan : UpgradePlan; verified_target_digest : digest; verification_checks : UpgradeVerificationChecks;
}.
Definition UpgradeVerificationEvidence_new (plan : UpgradePlan) (target : InactiveUpgradeTarget) (target_digest : digest)
    (checks : UpgradeVerificationChecks) : outcome UpgradeVerificationEvidence :=
  reject_if (negb (inactive_matches_plan target plan)) (storage_error IntegrityFailure) ;;
  mret (mk_UpgradeVerificationEvidence plan target_digest checks).
Definition verification_permits (v : UpgradeVerificationEvidence) (plan : UpgradePlan) : bool :=
  bool_decide (verified_plan v = plan) && checks_pass (verification_checks v).

Record RuntimeCompatibility := mk_RuntimeCompatibility {
  minimum_format : DatabaseFormatVersion; maximum_format : DatabaseFormatVersion;
  minimum_schema : SchemaVersion; maximum_schema : SchemaVersion;
}.
Definition RuntimeCompatibility_new (minimum_format maximum_format : DatabaseFormatVersion)
    (minimum_schema maximum_schema : SchemaVersion) : outcome RuntimeCompatibility :=
  reject_if ((maximum_format <? minimum_format) || (maximum_schema <? minimum_schema)) (storage_error InvalidArgument) ;;
  mret (mk_RuntimeCompatibility minimum_format maximum_format minimum_schema maximum_schema).
Definition supports (c : RuntimeCompatibility) (state : StorageVersionState) : bool :=
  (minimum_format c <=? format state) && (format state <=? maximum_format c)
  && (minimum_schema c <=? schema state) && (schema state <=? maximum_schema c).

(** ** Switches *)

Inductive SwitchPurpose := ActivateUpgrade | Rollback.
#[export] Instance SwitchPurpose_eq_dec : EqDecision SwitchPurpose.
Proof. solve_decision. Defined.

Record SwitchAuthorization := mk_SwitchAuthorization {
  authorization_id : SwitchAuthorizationId; purpose : SwitchPurpose; authorized_plan : UpgradePlan;
  selected_digest : digest;
}.
(** [SwitchReceipt] has the same fields. *)
Record SwitchReceipt := mk_SwitchReceipt {
  receipt_authorization_id : SwitchAuthorizationId; receipt_purpose : SwitchPurpose; receipt_plan : UpgradePlan;
  receipt_selected_digest : digest;
}.
Record RetainedSourceEvidence := mk_RetainedSourceEvidence {
  observed : UpgradeSource; retained_checks : UpgradeVerificationChecks; key_available : bool;
}.

Definition retained_permits (r : RetainedSourceEvidence) (receipt : SwitchReceipt) (compatibility : RuntimeCompatibility) : bool :=
  bool_decide (observed r = source (receipt_plan receipt)) && checks_pass (retained_checks r) && key_available r
  && supports compatibility (source_state (observed r)).

Definition activate (id : SwitchAuthorizationId) (plan : UpgradePlan) (verification : UpgradeVerificationEvidence)
    : outcome SwitchAuthorization :=
  reject_if (negb (verification_permits verification plan)) (storage_error IntegrityFailure) ;;
  mret (mk_SwitchAuthorization id ActivateUpgrade plan (verified_target_digest verification)).

Definition authorize_rollback (id : SwitchAuthorizationId) (upgrade_switch : SwitchReceipt) (retained : RetainedSourceEvidence)
    (compatibility : RuntimeCompatibility) : outcome SwitchAuthorization :=
  reject_if (negb (bool_decide (receipt_purpose upgrade_switch = ActivateUpgrade))) (storage_error Conflict) ;;
  reject_if (negb (retained_permits retained upgrade_switch compatibility)) (storage_error IntegrityFailure) ;;
  mret (mk_SwitchAuthorization id Rollback (receipt_plan upgrade_switch) (source_digest (observed retained))).

(** [expected_active] and [previous_active], and [target] and [active], of the purpose and plan. *)
Definition switched_from (p : SwitchPurpose) (plan : UpgradePlan) : StorageInstanceId :=
  match p with ActivateUpgrade => instance (source plan) | Rollback => target plan end.
Definition switched_to (p : SwitchPurpose) (plan : UpgradePlan) : StorageInstanceId :=
  match p with ActivateUpgrade => target plan | Rollback => instance (source plan) end.
Definition expected_active (a : SwitchAuthorization) : StorageInstanceId := switched_from (purpose a) (authorized_plan a).
Definition authorization_target (a : SwitchAuthorization) : StorageInstanceId := switched_to (purpose a) (authorized_plan a).
Definition selected_state (a : SwitchAuthorization) : StorageVersionState :=
  match purpose a with
  | ActivateUpgrade => target_state (authorized_plan a)
  | Rollback => source_state (source (authorized_plan a))
  end.
Definition previous_active (r : SwitchReceipt) : StorageInstanceId := switched_from (receipt_purpose r) (receipt_plan r).
Definition receipt_active (r : SwitchReceipt) : StorageInstanceId := switched_to (receipt_purpose r) (receipt_plan r).

Definition from_authorization (a : SwitchAuthorization) : SwitchReceipt :=
  mk_SwitchReceipt (authorization_id a) (purpose a) (authorized_plan a) (selected_digest a).

(** ** Specification *)

(** What the constructors of the steps make. *)
Definition window_wf (max : N) (w : SupportedVersionWindow) : Prop := window_to w = window_from w + 1 /\ window_to w <= max.
Definition step_wf (step : UpgradeStep) : Prop :=
  match step with
  | DatabaseFormat w => window_wf u32_max w
  | ApplicationSchema w => window_wf u64_max w
  | KeyRotation r => key_from r <> key_to r
  end.

(** Numbered windows that follow each other, and rotations that do. *)
Fixpoint windows (v : N) (ws : list SupportedVersionWindow) : Prop :=
  match ws with [] => True | w :: rest => window_from w = v /\ windows (v + 1) rest end.
Fixpoint rotations (k : KeyVersionId) (rs : list KeyRotationStep) (last : KeyVersionId) : Prop :=
  match rs with [] => k = last | r :: rest => key_from r = k /\ rotations (key_to r) rest last end.

(** The steps from one state to another: every format, then every schema, then keys. *)
Definition leads (a b : StorageVersionState) (ss : list UpgradeStep) : Prop :=
  exists formats schemas keys,
    ss = (DatabaseFormat <$> formats) ++ (ApplicationSchema <$> schemas) ++ (KeyRotation <$> keys) /\
    windows (format a) formats /\ format b = format a + len formats /\
    windows (schema a) schemas /\ schema b = schema a + len schemas /\
    rotations (key_version a) keys (key_version b).

(** ** Lemmas *)

#[local] Arguments N.ltb : simpl never.

Lemma rotations_state_eq (st st' : StorageVersionState) :
  Ok (E := StorageError) st = Ok st' <-> format st' = format st /\ schema st' = schema st /\ key_version st = key_version st'.
Proof. destruct st, st'; cbn. split; [by intros [= -> -> ->] | by intros (-> & -> & ->)]. Qed.

(** After a rotation only rotations follow. *)
Lemma replay_keys ss st st' :
  replay_from st (Some 2) ss = Ok st' <->
  exists keys, ss = KeyRotation <$> keys /\
    format st' = format st /\ schema st' = schema st /\ rotations (key_version st) keys (key_version st').
Proof.
  revert st. induction ss as [|step ss IH]; intros st.
  - cbn. rewrite rotations_state_eq. split; [intros H; by exists [] | by intros ([|] & He & H)].
  - cbn. unfold validate_step_order. cbn. destruct step as [w|w|r]; cbn.
    1,2: split; [done | by intros ([|] & He & _)].
    rewrite (proj2 (N.ltb_ge 2 2)) by done. cbn. unfold apply_key. case_bool_decide as Hk; cbn.
    + rewrite IH. cbn. split.
      * intros (keys & -> & H1 & H2 & H3). by exists (r :: keys).
      * intros ([|r' keys] & He & H1 & H2 & H3); [done|]. injection He as -> ->. cbn in H3. exists keys. by destruct H3.
    + split; [done|]. intros ([|r' keys] & He & H1 & H2 & H3); [done|]. injection He as -> ->. cbn in H3. by destruct H3.
Qed.

(** After a schema step schema steps follow, then rotations. *)
Lemma replay_schemas ss st st' :
  Forall step_wf ss ->
  replay_from st (Some 1) ss = Ok st' <->
  exists schemas keys, ss = (ApplicationSchema <$> schemas) ++ (KeyRotation <$> keys) /\
    format st' = format st /\ windows (schema st) schemas /\ schema st' = schema st + len schemas /\
    rotations (key_version st) keys (key_version st').
Proof.
  intros Hwf. revert st. induction Hwf as [|step ss Hstep Hwf IH]; intros st.
  - cbn. rewrite rotations_state_eq. split.
    + intros (H1 & H2 & H3). exists [], []. unfold len. cbn. split_and!; try done. lia.
    + intros ([|] & [|] & He & H1 & _ & H2 & H3); try done. unfold len in H2. cbn in *. split_and!; try done. lia.
  - cbn. unfold validate_step_order. cbn. destruct step as [w|w|r]; cbn in *.
    + split; [done | by intros ([|] & [|] & He & _)].
    + rewrite (proj2 (N.ltb_ge 1 1)) by done. cbn. unfold apply_schema.
      destruct Hstep as [Hto _]. destruct (N.eqb_spec (schema st) (window_from w)) as [Hs|Hs]; cbn.
      * rewrite IH. cbn. rewrite Hto, <- Hs. unfold len. split.
        -- intros (schemas & keys & -> & H1 & H2 & H3 & H4). exists (w :: schemas), keys. cbn. split_and!; try done. lia.
        -- intros ([|w' schemas] & keys & He & H1 & H2 & H3 & H4); [by destruct keys|]. injection He as -> ->.
           cbn in *. exists schemas, keys. destruct H2. split_and!; try done. lia.
      * split; [done|]. intros ([|w' schemas] & keys & He & H1 & H2 & H3 & H4); [by destruct keys|].
        injection He as -> ->. cbn in H2. destruct H2. congruence.
    + rewrite (proj2 (N.ltb_ge 2 1)) by done. cbn. unfold apply_key. case_bool_decide as Hk; cbn.
      * rewrite replay_keys. cbn. unfold len. split.
        -- intros (keys & -> & H1 & H2 & H3). exists [], (r :: keys). cbn. split_and!; try done. lia.
        -- intros ([|w' schemas] & [|r' keys] & He & H1 & H2 & H3 & H4); try done. injection He as -> ->.
           cbn in *. exists keys. destruct H4. split_and!; try done. lia.
      * split; [done|]. intros ([|w' schemas] & [|r' keys] & He & H1 & H2 & H3 & H4); try done. injection He as -> ->.
        by destruct H4.
Qed.

Lemma replay_leads ss st st' p :
  Forall step_wf ss -> p = None \/ p = Some 0 -> replay_from st p ss = Ok st' <-> leads st st' ss.
Proof.
  intros Hwf. unfold leads. revert st p. induction Hwf as [|step ss Hstep Hwf IH]; intros st p Hp.
  - cbn. rewrite rotations_state_eq. split.
    + intros (H1 & H2 & H3). exists [], [], []. unfold len. cbn. split_and!; try done; lia.
    + intros ([|] & [|] & [|] & He & H1 & H2 & H3 & H4 & H5); try done. unfold len in *. cbn in *. split_and!; try done; lia.
  - cbn. assert (validate_step_order p (step_phase step) = Ok tt) as ->.
    { unfold validate_step_order. destruct Hp as [-> | ->]; cbn; [done|]. by rewrite (proj2 (N.ltb_ge _ 0)) by lia. }
    cbn. destruct step as [w|w|r]; cbn in *.
    + unfold apply_format. destruct Hstep as [Hto _]. destruct (N.eqb_spec (format st) (window_from w)) as [Hs|Hs]; cbn.
      * rewrite IH by auto. cbn. rewrite Hto, <- Hs. unfold len. split.
        -- intros (fs & cs & ks & -> & H1 & H2 & H3 & H4 & H5). exists (w :: fs), cs, ks. cbn. split_and!; try done. lia.
        -- intros ([|w' fs] & cs & ks & He & H1 & H2 & H3 & H4 & H5); [by destruct cs, ks|]. injection He as -> ->.
           cbn in *. exists fs, cs, ks. destruct H1. split_and!; try done. lia.
      * split; [done|]. intros ([|w' fs] & cs & ks & He & H1 & _); [by destruct cs, ks|]. injection He as -> ->.
        cbn in H1. destruct H1. congruence.
    + pose proof (replay_schemas (ApplicationSchema w :: ss) st st' ltac:(by constructor)) as Hr.
      cbn in Hr. unfold validate_step_order in Hr. cbn in Hr. rewrite (proj2 (N.ltb_ge 1 1)) in Hr by done. cbn in Hr.
      rewrite Hr. split.
      * intros (cs & ks & He & H1 & H2 & H3 & H4). exists [], cs, ks. unfold len. cbn. split_and!; try done. lia.
      * intros ([|w' fs] & cs & ks & He & H1 & H2 & H3 & H4 & H5); [|done]. exists cs, ks. unfold len in H2. cbn in H2.
        split_and!; try done. lia.
    + pose proof (replay_keys (KeyRotation r :: ss) st st') as Hr.
      cbn in Hr. unfold validate_step_order in Hr. cbn in Hr. rewrite (proj2 (N.ltb_ge 2 2)) in Hr by done. cbn in Hr.
      rewrite Hr. unfold len. split.
      * intros (ks & He & H1 & H2 & H3). exists [], [], ks. cbn. split_and!; try done; lia.
      * intros ([|w' fs] & [|w2 cs] & ks & He & H1 & H2 & H3 & H4 & H5); try done. exists ks. cbn in *.
        split_and!; try done; lia.
Qed.

Lemma validate_steps_Ok a b ss :
  Forall step_wf ss ->
  validate_steps a b ss = Ok tt <-> ss <> [] /\ len ss <= MAX_UPGRADE_STEPS /\ leads a b ss.
Proof.
  intros Hwf. unfold validate_steps, validate_step_count. case_bool_decide as He; [cbn; split; [done | by intros [? _]]|].
  cbn. destruct (N.ltb_spec MAX_UPGRADE_STEPS (len ss)); cbn; [split; [done | intros (_ & ? & _); lia]|].
  rewrite <- (replay_leads ss a b None Hwf) by auto. unfold replay_steps, validate_replayed_state.
  destruct (replay_from a None ss) as [st|]; cbn; [|naive_solver].
  case_bool_decide; cbn; naive_solver.
Qed.

(** The digest of a plan is any 32 bytes. *)
Lemma validate_forward_state_Ok a b :
  validate_forward_state a b = Ok tt <-> format a <= format b /\ schema a <= schema b /\ a <> b.
Proof.
  unfold validate_forward_state. destruct (N.ltb_spec (format b) (format a)), (N.ltb_spec (schema b) (schema a)); cbn;
    try (split; [done | intros (? & ? & _); lia]).
  case_bool_decide; cbn; naive_solver.
Qed.

(** The checks of the constructors, one by one. *)
Lemma upgrade_guard_Ok {A} (b : bool) (e : StorageError) (m : outcome A) (x : A) :
  (reject_if b e ;; m) = Ok x <-> b = false /\ m = Ok x.
Proof. destruct b; cbn; naive_solver. Qed.
Lemma mret_Ok {A} (x y : A) : (mret x : outcome A) = Ok y <-> y = x.
Proof. split; [by intros [= <-] | by intros ->]. Qed.

Lemma verification_new_Ok plan t d checks v :
  UpgradeVerificationEvidence_new plan t d checks = Ok v <->
  v = mk_UpgradeVerificationEvidence plan d checks /\ inactive_plan t = plan /\ applied_steps t = len (steps plan).
Proof.
  unfold UpgradeVerificationEvidence_new, inactive_matches_plan.
  rewrite upgrade_guard_Ok, mret_Ok, negb_false_iff, andb_true_iff, bool_decide_eq_true, N.eqb_eq. tauto.
Qed.
Lemma inactive_new_Ok plan p n t :
  InactiveUpgradeTarget_new plan p n = Ok t <->
  t = mk_InactiveUpgradeTarget plan n /\ preflight_plan p = plan /\ safety_checks_pass p = true /\ n = len (steps plan).
Proof.
  unfold InactiveUpgradeTarget_new, preflight_matches_plan.
  rewrite !upgrade_guard_Ok, mret_Ok, !negb_false_iff, bool_decide_eq_true, N.eqb_eq. tauto.
Qed.
Lemma preflight_new_Ok plan backup e r a acc p :
  UpgradePreflightEvidence_new plan backup e r a acc = Ok p <->
  p = mk_UpgradePreflightEvidence plan (evidence_digest backup) e r a acc /\
  backup_source backup = instance (source plan) /\ backup_source_digest backup = source_digest (source plan) /\
  r <= MAX_UPGRADE_BYTES /\ a <= MAX_UPGRADE_BYTES.
Proof.
  assert (validate_backup plan backup = Ok tt <->
    backup_source backup = instance (source plan) /\ backup_source_digest backup = source_digest (source plan)) as Hb.
  { unfold validate_backup. rewrite upgrade_guard_Ok, reject_if_Ok, !negb_false_iff, !bool_decide_eq_true. done. }
  unfold UpgradePreflightEvidence_new, validate_capacity.
  destruct (validate_backup plan backup) as [[]|e']; cbn [mbind result_bind].
  - rewrite upgrade_guard_Ok, mret_Ok, orb_false_iff, !N.ltb_ge. tauto.
  - split; [done|]. intros (_ & H1 & H2 & _). discriminate (proj2 Hb (conj H1 H2)).
Qed.
Lemma activate_Ok id plan v a :
  activate id plan v = Ok a <->
  a = mk_SwitchAuthorization id ActivateUpgrade plan (verified_target_digest v) /\
  verified_plan v = plan /\ checks_pass (verification_checks v) = true.
Proof.
  unfold activate, verification_permits.
  rewrite upgrade_guard_Ok, mret_Ok, negb_false_iff, andb_true_iff, bool_decide_eq_true. tauto.
Qed.

(** ** Theorems *)

(** C0. An upgrade plan is accepted exactly when its target is another instance, its state
    another one that is nowhere older, and its steps, at most 256 of them and at least one,
    are format windows, then schema windows, then key rotations that lead from the source's
    state to the target's: one window for each version in between. *)
Theorem upgrade_plan_exact (src : UpgradeSource) (tgt : StorageInstanceId) (st : StorageVersionState)
    (ss : list UpgradeStep) (d : digest) (plan : UpgradePlan) (Hss : Forall step_wf ss) :
  UpgradePlan_new src tgt st ss d = Ok plan <->
  plan = mk_UpgradePlan src tgt st ss d /\ instance src <> tgt /\ source_state src <> st /\
  ss <> [] /\ len ss <= MAX_UPGRADE_STEPS /\ leads (source_state src) st ss.
Proof.
  assert (validate_identities (instance src) tgt = Ok tt <-> instance src <> tgt) as Hi
    by (unfold validate_identities; by rewrite reject_if_Ok, bool_decide_eq_false).
  pose proof (validate_forward_state_Ok (source_state src) st) as Hf.
  pose proof (validate_steps_Ok (source_state src) st ss Hss) as Hv.
  assert (leads (source_state src) st ss -> format (source_state src) <= format st /\ schema (source_state src) <= schema st) as Hl.
  { intros (fs & cs & ks & _ & _ & H1 & _ & H2 & _). lia. }
  unfold UpgradePlan_new. rewrite result_bind_Ok. split.
  - intros ([] & H1%Hi & H2). rewrite result_bind_Ok in H2. destruct H2 as ([] & H2%Hf & H3).
    rewrite result_bind_Ok in H3. destruct H3 as ([] & H3%Hv & H4). injection H4 as <-. tauto.
  - intros (-> & H1 & H2 & H3 & H4 & H5). exists tt. split; [by apply Hi|].
    rewrite (proj2 Hf) by tauto. cbn. by rewrite (proj2 Hv) by tauto.
Qed.

(** C0. An activation is authorized only on evidence for one plan throughout: a backup of
    the plan's source, an empty target with the space and every permission and key, every
    step applied, and authentication and structure verified; it expects the source to be
    active and selects the verified bytes of the target at the planned state. *)
Theorem activation_evidence (plan p1 p2 p3 : UpgradePlan) (backup : VerifiedBackupEvidence) (empty : bool) (required available : N)
    (acc : PreflightAccessEvidence) (pf : UpgradePreflightEvidence) (n : N) (t : InactiveUpgradeTarget)
    (d : digest) (checks : UpgradeVerificationChecks) (v : UpgradeVerificationEvidence) (id : SwitchAuthorizationId) (a : SwitchAuthorization)
    (Hpf : UpgradePreflightEvidence_new p1 backup empty required available acc = Ok pf)
    (Ht : InactiveUpgradeTarget_new p2 pf n = Ok t)
    (Hv : UpgradeVerificationEvidence_new p3 t d checks = Ok v)
    (Ha : activate id plan v = Ok a) :
  (p1 = plan /\ p2 = plan /\ p3 = plan) /\
  (backup_source backup = instance (source plan) /\ backup_source_digest backup = source_digest (source plan)) /\
  (empty = true /\ required <= available <= MAX_UPGRADE_BYTES /\ access_permits acc = true) /\
  n = len (steps plan) /\ checks = mk_UpgradeVerificationChecks true true /\
  expected_active a = instance (source plan) /\ authorization_target a = target plan /\
  selected_state a = target_state plan /\ selected_digest a = d.
Proof.
  apply preflight_new_Ok in Hpf as (-> & Hb1 & Hb2 & Hr & Hav). apply inactive_new_Ok in Ht as (-> & Hp2 & Hsafe & Hn).
  apply verification_new_Ok in Hv as (-> & Hp3 & Hn3). apply activate_Ok in Ha as (-> & Hp & Hc). cbn in *. subst.
  unfold safety_checks_pass in Hsafe. cbn in Hsafe. apply andb_true_iff in Hsafe as [[-> Hle%N.leb_le]%andb_true_iff Hacc].
  destruct checks as [c1 c2]. unfold checks_pass in Hc. cbn in Hc. apply andb_true_iff in Hc as [-> ->]. done.
Qed.

(** C0. A rollback is authorized exactly after an activation, when the source is observed
    unchanged, passes its checks, has its key and is within the versions the runtime reads;
    it expects the upgraded target to be active and selects exactly the source's instance,
    bytes and state; a rollback is never rolled back. *)
Theorem rollback_selects_source (id id' : SwitchAuthorizationId) (switch : SwitchReceipt) (retained retained' : RetainedSourceEvidence)
    (compat compat' : RuntimeCompatibility) :
  (forall a, authorize_rollback id switch retained compat = Ok a ->
     (receipt_purpose switch = ActivateUpgrade /\ observed retained = source (receipt_plan switch) /\
      checks_pass (retained_checks retained) = true /\ key_available retained = true /\
      supports compat (source_state (source (receipt_plan switch))) = true) /\
     expected_active a = receipt_active switch /\ authorization_target a = previous_active switch /\
     selected_digest a = source_digest (source (receipt_plan switch)) /\
     selected_state a = source_state (source (receipt_plan switch)) /\
     authorize_rollback id' (from_authorization a) retained' compat' = Err (storage_error Conflict)) /\
  (receipt_purpose switch = Rollback -> authorize_rollback id switch retained compat = Err (storage_error Conflict)).
Proof.
  split.
  - intros a. unfold authorize_rollback at 1. destruct (receipt_purpose switch) eqn:Hp; cbn; [|done].
    destruct (retained_permits retained switch compat) eqn:Hr; cbn; [|done]. intros Ha. injection Ha as <-.
    unfold retained_permits in Hr. apply andb_true_iff in Hr as [[[Ho%bool_decide_eq_true Hc]%andb_true_iff Hk]%andb_true_iff Hs].
    unfold receipt_active, previous_active. rewrite Hp. cbn. rewrite Ho in *. done.
  - unfold authorize_rollback. intros ->. done.
Qed.

Definition sample_upgrade_key (s : string) : KeyVersionId := MkBoundedIdentifier s.
Definition sample_source : UpgradeSource :=
  mk_UpgradeSource (MkStorageKey "blue") sample_checksum (mk_StorageVersionState 1 7 (sample_upgrade_key "k1")).
Definition sample_upgraded_state : StorageVersionState := mk_StorageVersionState 2 9 (sample_upgrade_key "k2").
Definition sample_steps : list UpgradeStep :=
  [DatabaseFormat (mk_SupportedVersionWindow 1 2 sample_checksum);
   ApplicationSchema (mk_SupportedVersionWindow 7 8 sample_checksum); ApplicationSchema (mk_SupportedVersionWindow 8 9 sample_checksum);
   KeyRotation (mk_KeyRotationStep (sample_upgrade_key "k1") (sample_upgrade_key "k2") sample_checksum)].
Definition sample_plan : UpgradePlan :=
  mk_UpgradePlan sample_source (MkStorageKey "green") sample_upgraded_state sample_steps sample_checksum.
Definition sample_backup : VerifiedBackupEvidence := mk_VerifiedBackupEvidence (MkStorageKey "blue") sample_checksum sample_checksum.
Definition sample_access : PreflightAccessEvidence := mk_PreflightAccessEvidence true true true true true true.

Lemma sample_steps_wf : Forall step_wf sample_steps.
Proof. repeat constructor; cbn; done. Defined.
Lemma upgrade_plan_exact_witness :
  is_ok (UpgradePlan_new sample_source (MkStorageKey "green") sample_upgraded_state sample_steps sample_checksum) = true /\
  leads (source_state sample_source) sample_upgraded_state sample_steps.
Proof.
  split; [by vm_compute|].
  apply (upgrade_plan_exact sample_source (MkStorageKey "green") sample_upgraded_state sample_steps sample_checksum sample_plan sample_steps_wf).
  by vm_compute.
Defined.
Lemma activation_evidence_witness : len (steps sample_plan) = 4 /\
  exists a, activate (MkBoundedIdentifier "switch") sample_plan
    (mk_UpgradeVerificationEvidence sample_plan sample_checksum (mk_UpgradeVerificationChecks true true)) = Ok a /\
    expected_active a = MkStorageKey "blue".
Proof.
  split; [by vm_compute|]. eexists. split; [by vm_compute|].
  apply (activation_evidence sample_plan sample_plan sample_plan sample_plan sample_backup true 10 20 sample_access _ 4 _ sample_checksum
    (mk_UpgradeVerificationChecks true true) _ (MkBoundedIdentifier "switch") _ eq_refl ltac:(by vm_compute) ltac:(by vm_compute) ltac:(by vm_compute)).
Defined.
Lemma rollback_selects_source_witness :
  authorize_rollback (MkBoundedIdentifier "r") (mk_SwitchReceipt (MkBoundedIdentifier "b") Rollback sample_plan sample_checksum)
    (mk_RetainedSourceEvidence sample_source (mk_UpgradeVerificationChecks true true) true) (mk_RuntimeCompatibility 1 2 1 9)
  = Err (storage_error Conflict).
Proof.
  apply (rollback_selects_source (MkBoundedIdentifier "r") (MkBoundedIdentifier "r")
    (mk_SwitchReceipt (MkBoundedIdentifier "b") Rollback sample_plan sample_checksum)
    (mk_RetainedSourceEvidence sample_source (mk_UpgradeVerificationChecks true true) true)
    (mk_RetainedSourceEvidence sample_source (mk_UpgradeVerificationChecks true true) true)
    (mk_RuntimeCompatibility 1 2 1 9) (mk_RuntimeCompatibility 1 2 1 9)).
  done.
Defined.
