(* ===== verification/Cancellation.v ===== *)
(** * Cancellation tokens and request contexts

    Models [crates/ariadnion-core/src/context.rs]: trees of cancellation tokens with the
    wakers registered in them, and request contexts with their deadlines.  The methods that
    several threads run at once are small-step programs, one step for each atomic access or
    critical section, so that registrations and cancellations interleave.  Shown: what a
    token observes, that it is cancelled once, that its waiters are bounded, and that a
    task which was told to wait is woken when no step of another thread comes between the
    two first steps of a cancellation; and an execution in which one does and it is not. *)

From stdpp Require Import relations.
From S2P Require Import Prelude CoreTypes.
#[local] Open Scope record_scope.

Definition MAX_CANCELLATION_WAITERS : N := N.shiftl 1 8.

(** ** Token nodes *)

(** A waiter of a node: the token that registered it and the task to wake.  Wakers of one
    task are equal: [Waker::will_wake]. *)
Record CancellationWaiter := mk_CancellationWaiter { owner : nat; waker : N }.
#[export] Instance CancellationWaiter_eq_dec : EqDecision CancellationWaiter.
Proof. solve_decision. Defined.

(** A node and whether a handle still keeps it alive, so that its weak references upgrade. *)
Record CancellationState := mk_CancellationState {
  cancelled : bool; parent : option nat; waiters : list CancellationWaiter; alive : bool;
}.
#[export] Instance CancellationState_eta : Eta CancellationState :=
  fun s => mk_CancellationState (cancelled s) (parent s) (waiters s) (alive s).

(** The nodes in order of creation, and the tasks that were woken, the last one first. *)
Record Tree := mk_Tree { nodes : list CancellationState; woken : list N }.
#[export] Instance Tree_eta : Eta Tree := fun s => mk_Tree (nodes s) (woken s).

Definition flagged (tree : Tree) (n : nat) : bool :=
  match nodes tree !! n with Some s => cancelled s | None => false end.
Definition parent_of (tree : Tree) (n : nat) : option nat := nodes tree !! n ≫= parent.
Definition waiters_of (tree : Tree) (n : nat) : list CancellationWaiter :=
  match nodes tree !! n with Some s => waiters s | None => [] end.
Definition upgrades (tree : Tree) (n : nat) : bool :=
  match nodes tree !! n with Some s => alive s | None => false end.
Definition update (tree : Tree) (n : nat) (f : CancellationState -> CancellationState) : Tree :=
  tree <| nodes := alter f n (nodes tree) |>.

(** A node and its ancestors.  A parent is older than its child, so [S n] steps reach the root. *)
Fixpoint chain_from (fuel : nat) (tree : Tree) (n : nat) : list nat :=
  match fuel with
  | O => []
  | S fuel => n :: match parent_of tree n with Some p => chain_from fuel tree p | None => [] end
  end.
Definition chain (tree : Tree) (n : nat) : list nat := chain_from (S n) tree n.

(** The loads from the node to the root are one step: flags are only ever set, so [false]
    was true of the whole chain at the first load and [true] at the last. *)
Definition is_cancelled (tree : Tree) (n : nat) : bool := existsb (flagged tree) (chain tree n).

Definition is_active (tree : Tree) (waiter : CancellationWaiter) : bool :=
  upgrades tree (owner waiter) && negb (is_cancelled tree (owner waiter)).

Definition new_token (tree : Tree) : Tree * nat :=
  (tree <| nodes := nodes tree ++ [mk_CancellationState false None [] true] |>, length (nodes tree)).
Definition child (tree : Tree) (n : nat) : Tree * nat :=
  (tree <| nodes := nodes tree ++ [mk_CancellationState false (Some n) [] true] |>, length (nodes tree)).

Definition check_active (tree : Tree) (n : nat) : result CoreError unit :=
  reject_if (is_cancelled tree n) (CoreError_from_code Cancelled).

(** ** Steps of the shared operations *)

Definition remove_waiters_if (should_remove : CancellationWaiter -> bool) (s : CancellationState) : CancellationState :=
  s <| waiters := List.filter (fun w => negb (should_remove w)) (waiters s) |>.
(** One step: the source tests the activity of each waiter in turn under the lock of the
    node, so a flag or a handle may change between two tests; both only change once. *)
Definition remove_inactive_waiters (tree : Tree) (n : nat) : Tree :=
  update tree n (remove_waiters_if (fun w => negb (is_active tree w))).
Definition remove_owner_waiters (tree : Tree) (n token : nat) : Tree :=
  update tree n (remove_waiters_if (fun w => Nat.eqb (owner w) token)).
Definition wake_waiters (tree : Tree) (taken : list CancellationWaiter) : Tree :=
  tree <| woken := rev (waker <$> taken) ++ woken tree |>.

Inductive WakerRegistration := Registered | AlreadyCancelled | Exhausted.

(** The critical section at the end of [register_local_waker]. *)
Definition push_waiter (tree : Tree) (n token : nat) (task : N) : Tree * WakerRegistration :=
  let entry := mk_CancellationWaiter token task in
  if flagged tree n then (tree, AlreadyCancelled)
  else if bool_decide (entry ∈ waiters_of tree n) then (tree, Registered)
  else if (MAX_CANCELLATION_WAITERS <=? len (waiters_of tree n))%N then (tree, Exhausted)
  else (update tree n (fun s => s <| waiters := waiters s ++ [entry] |>), Registered).

(** Where a thread is.  A registration of [task] for [token] visits the nodes of the chain
    of [token], then looks once more; a cancellation swaps the flag, takes the waiters,
    unlinks its own from the chain and wakes.  [via] says that an exhausted registration
    cancels its own token. *)
Inductive Thread :=
| LoadFlag (token : nat) (task : N) (n : nat)
| Sweep (token : nat) (task : N) (n : nat)
| Push (token : nat) (task : N) (n : nat)
| FinalCheck (token : nat) (task : N)
| Unregister (token : nat) (rest : list nat)
| SwapFlag (token : nat) (via : bool)
| TakeWaiters (token : nat) (via : bool)
| Unlink (token : nat) (rest : list nat) (taken : list CancellationWaiter) (via : bool)
| Wake (token : nat) (taken : list CancellationWaiter) (via : bool)
| Returned (result : bool).

(** [register_waker] and [cancel], about to start. *)
Definition register_waker (token : nat) (task : N) : Thread := LoadFlag token task token.
Definition cancel (token : nat) : Thread := SwapFlag token false.

(** After [self.cancel()] an exhausted registration unregisters and reports cancellation. *)
Definition cancel_returns (tree : Tree) (token : nat) (via first : bool) : Thread :=
  if via then Unregister token (chain tree token) else Returned first.

Definition thread_step (tree : Tree) (t : Thread) : Tree * Thread :=
  match t with
  | LoadFlag token task n =>
      (tree, if flagged tree n then Unregister token (chain tree token) else Sweep token task n)
  | Sweep token task n => (remove_inactive_waiters tree n, Push token task n)
  | Push token task n =>
      let '(tree', outcome) := push_waiter tree n token task in
      (tree', match outcome with
              | Registered => match parent_of tree n with
                              | Some p => LoadFlag token task p
                              | None => FinalCheck token task
                              end
              | AlreadyCancelled => Unregister token (chain tree token)
              | Exhausted => SwapFlag token true
              end)
  | FinalCheck token task =>
      (tree, if is_cancelled tree token then Unregister token (chain tree token) else Returned false)
  | Unregister token [] => (tree, Returned true)
  | Unregister token (n :: rest) => (remove_owner_waiters tree n token, Unregister token rest)
  | SwapFlag token via =>
      if flagged tree token then (tree, cancel_returns tree token via false)
      else (update tree token (fun s => s <| cancelled := true |>), TakeWaiters token via)
  | TakeWaiters token via =>
      (update tree token (fun s => s <| waiters := [] |>), Unlink token (chain tree token) (waiters_of tree token) via)
  | Unlink token [] taken via => (tree, Wake token taken via)
  | Unlink token (n :: rest) taken via => (remove_owner_waiters tree n token, Unlink token rest taken via)
  | Wake token taken via => (wake_waiters tree taken, cancel_returns tree token via true)
  | Returned r => (tree, Returned r)
  end.

(** Any number of threads over one tree. *)
Record World := mk_World { tree : Tree; threads : list Thread }.

(** ** Request contexts *)

Record RequestContext := mk_RequestContext {
  request_id : Id RequestKind; trace_id : Id TraceKind; principal : option PrincipalContext;
  deadline : option N; cancellation : nat;
}.
Record RequestContextSummary := mk_RequestContextSummary {
  summary_request_id : Id RequestKind; summary_trace_id : Id TraceKind;
  summary_tenant_id : option TenantId; summary_principal_id : option PrincipalId;
  summary_deadline : option N; summary_cancelled : bool;
}.

Definition anonymous (tree : Tree) (request_id : Id RequestKind) (trace_id : Id TraceKind) (deadline : option N)
    : Tree * RequestContext :=
  let '(tree, token) := new_token tree in
  (tree, mk_RequestContext request_id trace_id None deadline token).

Definition is_expired_at (c : RequestContext) (now : N) : bool :=
  is_some_and (fun deadline => (deadline <=? now)%N) (deadline c).
Definition is_inactive (tree : Tree) (c : RequestContext) (now : N) : bool :=
  is_cancelled tree (cancellation c) || is_expired_at c now.
Definition check_active_at (tree : Tree) (c : RequestContext) (now : N) : result CoreError unit :=
  check_active tree (cancellation c) ;;
  reject_if (is_expired_at c now) (CoreError_from_code DeadlineExceeded).
Definition remaining_at (tree : Tree) (c : RequestContext) (now : N) : result CoreError (option N) :=
  check_active tree (cancellation c) ;;
  match deadline c with
  | None => Ok None
  | Some deadline =>
      reject_if (deadline <=? now)%N (CoreError_from_code DeadlineExceeded) ;;
      Some <$> ok_or (checked_sub deadline now) (CoreError_from_code DeadlineExceeded)
  end.
Definition summary (tree : Tree) (c : RequestContext) : RequestContextSummary :=
  mk_RequestContextSummary (request_id c) (trace_id c) (principal_tenant_id <$> principal c)
    (principal_id <$> principal c) (deadline c) (is_cancelled tree (cancellation c)).

(** ** Executions *)

(** A scheduler lets any thread make its next step. *)
Definition thread_move (w : World) (i : nat) : World :=
  match threads w !! i with
  | Some t => let '(tree', t') := thread_step (tree w) t in mk_World tree' (<[i := t']> (threads w))
  | None => w
  end.

(** Other things that happen: a thread starts an operation, a token or a child is made, a
    token is dropped. *)
Inductive environment : World -> World -> Prop :=
| env_register w token task : token < length (nodes (tree w)) -> upgrades (tree w) token = true ->
    environment w (mk_World (tree w) (threads w ++ [register_waker token task]))
| env_cancel w token : token < length (nodes (tree w)) ->
    environment w (mk_World (tree w) (threads w ++ [cancel token]))
| env_new w : environment w (mk_World (new_token (tree w)).1 (threads w))
| env_child w token : token < length (nodes (tree w)) ->
    environment w (mk_World (child (tree w) token).1 (threads w))
| env_drop w token : environment w (mk_World (update (tree w) token (fun s => s <| alive := false |>)) (threads w)).

(** Any interleaving of steps. *)
Inductive world_step : World -> World -> Prop :=
| step_thread w i : world_step w (thread_move w i)
| step_environment w w' : environment w w' -> world_step w w'.

Definition swaps (w : World) (i : nat) : bool :=
  match threads w !! i with
  | Some (SwapFlag token _) => negb (flagged (tree w) token)
  | _ => false
  end.
(** The interleavings in which a cancellation takes the waiters at once when it has set the
    flag. *)
Inductive prompt_step : World -> World -> Prop :=
| prompt_thread w i : swaps w i = false -> prompt_step w (thread_move w i)
| prompt_cancel w i : swaps w i = true -> prompt_step w (thread_move (thread_move w i) i)
| prompt_environment w w' : environment w w' -> prompt_step w w'.

Definition empty_world : World := mk_World (mk_Tree [] []) [].

(** The schedule of two threads, by their numbers. *)
Definition schedule (w : World) (s : list nat) : World := fold_left thread_move s w.

(** ** Specification *)

(** A task that was told to wait: it is woken, or about to be, or its registration is
    complete and the token neither cancelled nor dropped. *)
Definition holds_waker (task : N) (t : Thread) : Prop :=
  match t with
  | Unlink _ _ taken _ | Wake _ taken _ => task ∈ waker <$> taken
  | _ => False
  end.
Definition registered_in (tr : Tree) (token : nat) (task : N) (n : nat) : Prop :=
  mk_CancellationWaiter token task ∈ waiters_of tr n.
Definition waits (tr : Tree) (token : nat) (task : N) : Prop :=
  is_cancelled tr token = false /\ forall n, n ∈ chain tr token -> registered_in tr token task n.
Definition attended (w : World) (token : nat) (task : N) : Prop :=
  task ∈ woken (tree w) \/ (exists t, t ∈ threads w /\ holds_waker task t) \/
  upgrades (tree w) token = false \/ waits (tree w) token task.

Definition tree_wf (tr : Tree) : Prop :=
  (forall n p, parent_of tr n = Some p -> p < n) /\ (forall n s, nodes tr !! n = Some s -> (len (waiters s) <= MAX_CANCELLATION_WAITERS)%N).

(** What a registration has reached: the nodes in [P] of its chain hold its entry, unless
    its token was cancelled or dropped. *)
Definition progress (tr : Tree) (token : nat) (task : N) (P : nat -> Prop) : Prop :=
  is_cancelled tr token = true \/ upgrades tr token = false \/
  forall m, m ∈ chain tr token -> P m -> registered_in tr token task m.

Definition thread_ok (tr : Tree) (t : Thread) : Prop :=
  match t with
  | LoadFlag token task n | Sweep token task n | Push token task n =>
      token < length (nodes tr) /\ n ∈ chain tr token /\ progress tr token task (fun m => n < m)
  | FinalCheck token task => token < length (nodes tr) /\ progress tr token task (fun _ => True)
  | Unregister token _ => token < length (nodes tr) /\ is_cancelled tr token = true
  | SwapFlag token _ => token < length (nodes tr)
  | TakeWaiters token _ | Unlink token _ _ _ | Wake token _ _ => token < length (nodes tr) /\ flagged tr token = true
  | Returned _ => True
  end.
Definition takes (t : Thread) : bool := match t with TakeWaiters _ _ => true | _ => false end.
Definition world_inv (w : World) : Prop :=
  tree_wf (tree w) /\ forall t, t ∈ threads w -> thread_ok (tree w) t /\ takes t = false.

(** The steps a thread has left at most, whatever the others do. *)
Definition steps_left (t : Thread) : nat :=
  let unregister token := 3 + token in
  let wake token := 1 + unregister token in
  let swap token := 5 + token + wake token in
  match t with
  | LoadFlag token _ n => 3 + 3 * n + swap token
  | Sweep token _ n => 2 + 3 * n + swap token
  | Push token _ n => 1 + 3 * n + swap token
  | FinalCheck token _ => swap token
  | Unregister token rest => 1 + length rest
  | SwapFlag token _ => swap token
  | TakeWaiters token _ => 4 + token + wake token
  | Unlink token rest _ _ => 1 + length rest + wake token
  | Wake token _ _ => wake token
  | Returned _ => 0
  end.
Definition finished (t : Thread) : bool := match t with Returned _ => true | _ => false end.

(** ** Lemmas on trees *)

Section chains.
Context (tr : Tree) (Hwf : forall n p, parent_of tr n = Some p -> p < n).

Lemma chain_from_enough fuel fuel' n : n < fuel -> n < fuel' -> chain_from fuel tr n = chain_from fuel' tr n.
Proof using Hwf.
  revert fuel' n. induction fuel as [|fuel IH]; intros fuel' n H1 H2; [lia|]. destruct fuel' as [|fuel']; [lia|]. cbn.
  f_equal. destruct (parent_of tr n) as [p|] eqn:Hp; [|done]. apply Hwf in Hp. apply IH; lia.
Qed.
Lemma chain_unfold n : chain tr n = n :: match parent_of tr n with Some p => chain tr p | None => [] end.
Proof using Hwf.
  change (chain tr n) with (n :: match parent_of tr n with Some p => chain_from n tr p | None => [] end).
  f_equal. destruct (parent_of tr n) as [p|] eqn:Hp; [|done]. apply Hwf in Hp. unfold chain.
  apply chain_from_enough; lia.
Qed.
Lemma chain_ind (P : nat -> Prop) :
  (forall n, (forall p, parent_of tr n = Some p -> P p) -> P n) -> forall n, P n.
Proof using Hwf. intros H n. induction (lt_wf n) as [n _ IH]. apply H. intros p Hp. apply IH. by apply Hwf. Qed.
Lemma chain_self n : n ∈ chain tr n.
Proof using Hwf. rewrite chain_unfold. left. Qed.
Lemma elem_of_chain n m : m ∈ chain tr n <-> m = n \/ exists p, parent_of tr n = Some p /\ m ∈ chain tr p.
Proof using Hwf.
  rewrite chain_unfold, elem_of_cons. destruct (parent_of tr n) as [p|]; [naive_solver|].
  rewrite elem_of_nil. naive_solver.
Qed.
Lemma chain_le n m : m ∈ chain tr n -> m <= n.
Proof using Hwf.
  revert m. induction n as [n IH] using chain_ind. intros m [->|(p & Hp & Hm)]%elem_of_chain; [lia|].
  pose proof (IH p Hp m Hm). apply Hwf in Hp. lia.
Qed.
Lemma chain_trans a b c : b ∈ chain tr a -> c ∈ chain tr b -> c ∈ chain tr a.
Proof using Hwf.
  revert b c. induction a as [a IH] using chain_ind. intros b c [->|(p & Hp & Hb)]%elem_of_chain Hc; [done|].
  apply elem_of_chain. right. exists p. split; [done|]. by apply (IH p Hp b).
Qed.
Lemma chain_comparable a b c : b ∈ chain tr a -> c ∈ chain tr a -> b ∈ chain tr c \/ c ∈ chain tr b.
Proof using Hwf.
  revert b c. induction a as [a IH] using chain_ind. intros b c Hb Hc.
  apply elem_of_chain in Hb as Hb'. apply elem_of_chain in Hc as Hc'.
  destruct Hb' as [->|(p & Hp & Hb')]; [by right|]. destruct Hc' as [->|(q & Hq & Hc')]; [by left|].
  simplify_eq. by apply (IH p Hp).
Qed.
(** What comes before a node's parent in a chain comes before the node, or is the node. *)
Lemma chain_before_parent a n p m :
  n ∈ chain tr a -> parent_of tr n = Some p -> m ∈ chain tr a -> p < m -> m = n \/ n < m.
Proof using Hwf.
  intros Hn Hp Hm Hlt. destruct (chain_comparable a n m Hn Hm) as [H|H].
  - apply chain_le in H. lia.
  - apply elem_of_chain in H as [->|(q & Hq & Hmq)]; [by left|]. simplify_eq. apply chain_le in Hmq. lia.
Qed.
Lemma chain_before_root a n m :
  n ∈ chain tr a -> parent_of tr n = None -> m ∈ chain tr a -> m = n \/ n < m.
Proof using Hwf.
  intros Hn Hp Hm. destruct (chain_comparable a n m Hn Hm) as [H|H].
  - apply chain_le in H. lia.
  - apply elem_of_chain in H as [->|(q & Hq & _)]; [by left|]. congruence.
Qed.
Lemma chain_length n : length (chain tr n) <= S n.
Proof using Hwf.
  induction n as [n IH] using chain_ind. rewrite chain_unfold. destruct (parent_of tr n) as [p|] eqn:Hp; cbn [length]; [|lia].
  specialize (IH p eq_refl). apply Hwf in Hp. lia.
Qed.
End chains.

Lemma is_cancelled_spec tr n : is_cancelled tr n = true <-> exists m, m ∈ chain tr n /\ flagged tr m = true.
Proof. unfold is_cancelled. rewrite existsb_exists. by setoid_rewrite list_elem_of_In. Qed.

(** How a tree may change: nodes are added, flags are set, handles are dropped. *)
Record grows (tr tr' : Tree) : Prop := {
  grows_length : length (nodes tr) <= length (nodes tr');
  grows_parent : forall n, n < length (nodes tr) -> parent_of tr' n = parent_of tr n;
  grows_flagged : forall n, flagged tr n = true -> flagged tr' n = true;
  grows_alive : forall n, n < length (nodes tr) -> upgrades tr n = false -> upgrades tr' n = false;
  grows_woken : forall task, task ∈ woken tr -> task ∈ woken tr';
}.

Lemma lookup_update tr n f m :
  nodes (update tr n f) !! m = if decide (m = n) then f <$> nodes tr !! m else nodes tr !! m.
Proof.
  unfold update. cbn. destruct (decide (m = n)) as [->|Hne]; [by rewrite list_lookup_alter_eq | by rewrite list_lookup_alter_ne].
Qed.
Lemma update_length tr n f : length (nodes (update tr n f)) = length (nodes tr).
Proof. unfold update. cbn. apply length_alter. Qed.
Lemma update_parent tr n f m : (forall s, parent (f s) = parent s) -> parent_of (update tr n f) m = parent_of tr m.
Proof.
  intros Hf. unfold parent_of. rewrite lookup_update. destruct (decide (m = n)) as [->|]; [|done].
  destruct (nodes tr !! n); cbn; [apply Hf | done].
Qed.
Lemma update_flagged tr n f m : (forall s, cancelled (f s) = cancelled s) -> flagged (update tr n f) m = flagged tr m.
Proof.
  intros Hf. unfold flagged. rewrite lookup_update. destruct (decide (m = n)) as [->|]; [|done].
  destruct (nodes tr !! n); cbn; [apply Hf | done].
Qed.
Lemma update_upgrades tr n f m : (forall s, alive (f s) = alive s) -> upgrades (update tr n f) m = upgrades tr m.
Proof.
  intros Hf. unfold upgrades. rewrite lookup_update. destruct (decide (m = n)) as [->|]; [|done].
  destruct (nodes tr !! n); cbn; [apply Hf | done].
Qed.
Lemma update_waiters tr n f m :
  waiters_of (update tr n f) m =
  if decide (m = n) then match nodes tr !! m with Some s => waiters (f s) | None => [] end else waiters_of tr m.
Proof. unfold waiters_of. rewrite lookup_update. destruct (decide (m = n)) as [->|]; [|done]. by destruct (nodes tr !! n). Qed.

Lemma grows_refl tr : grows tr tr.
Proof. by split. Qed.
Lemma grows_trans t1 t2 t3 : grows t1 t2 -> grows t2 t3 -> grows t1 t3.
Proof.
  intros [L1 P1 F1 A1 W1] [L2 P2 F2 A2 W2]. split; [lia| | by auto | | by auto].
  - intros n Hn. rewrite P2, P1 by lia. done.
  - intros n Hn H. apply A2; [lia | by apply A1].
Qed.
Lemma grows_update tr n f :
  (forall s, parent (f s) = parent s) -> (forall s, cancelled s = true -> cancelled (f s) = true) ->
  (forall s, alive s = false -> alive (f s) = false) -> grows tr (update tr n f).
Proof.
  intros Hp Hc Ha. split; [by rewrite update_length | intros; by apply update_parent | | | done].
  - intros m. unfold flagged. rewrite lookup_update. destruct (decide (m = n)) as [->|]; [|done].
    destruct (nodes tr !! n); cbn; auto.
  - intros m _. unfold upgrades. rewrite lookup_update. destruct (decide (m = n)) as [->|]; [|done].
    destruct (nodes tr !! n); cbn; auto.
Qed.

Lemma grows_chain tr tr' n :
  tree_wf tr -> tree_wf tr' -> grows tr tr' -> n < length (nodes tr) -> chain tr' n = chain tr n.
Proof.
  intros [Hwf _] [Hwf' _] [Hl Hp _ _ _]. induction n as [n IH] using (chain_ind tr Hwf). intros Hn.
  rewrite (chain_unfold tr Hwf), (chain_unfold tr' Hwf'), Hp by done. f_equal.
  destruct (parent_of tr n) as [p|] eqn:He; [|done]. apply IH; [done|]. apply Hwf in He. lia.
Qed.
Lemma grows_cancelled tr tr' n :
  tree_wf tr -> tree_wf tr' -> grows tr tr' -> n < length (nodes tr) -> is_cancelled tr n = true -> is_cancelled tr' n = true.
Proof.
  intros Hwf Hwf' Hg Hn. rewrite !is_cancelled_spec. intros (m & Hm & Hf). exists m.
  rewrite (grows_chain tr tr' n) by done. split; [done|]. by apply Hg.
Qed.

(** Wakers and nodes are the whole tree. *)
Lemma tree_same_nodes tr tr' : nodes tr' = nodes tr -> (forall n, chain tr' n = chain tr n) /\ (forall n, is_cancelled tr' n = is_cancelled tr n).
Proof.
  intros He. assert (forall f n, chain_from f tr' n = chain_from f tr n) as Hc.
  { intros f. induction f as [|f IH]; intros n; cbn; [done|]. unfold parent_of. rewrite He. f_equal. destruct (nodes tr !! n ≫= parent); [apply IH | done]. }
  split; [intros n; apply Hc|]. intros n. unfold is_cancelled, chain. rewrite Hc. apply eq_true_iff_eq. rewrite !existsb_exists.
  unfold flagged. by rewrite He.
Qed.

(** ** Lemmas on steps *)

Lemma waiters_of_bound tr n : tree_wf tr -> (len (waiters_of tr n) <= MAX_CANCELLATION_WAITERS)%N.
Proof.
  intros [_ Hw]. unfold waiters_of. destruct (nodes tr !! n) as [s|] eqn:Hn; [by apply (Hw n)|]. unfold len, MAX_CANCELLATION_WAITERS. cbn. lia.
Qed.
Lemma len_filter {A} (p : A -> bool) (l : list A) : (len (List.filter p l) <= len l)%N.
Proof. unfold len. induction l as [|x l IH]; cbn; [lia|]. destruct (p x); cbn [length]; lia. Qed.

Lemma update_wf tr n f :
  tree_wf tr -> (forall s, parent (f s) = parent s) ->
  (forall s, nodes tr !! n = Some s -> (len (waiters (f s)) <= MAX_CANCELLATION_WAITERS)%N) -> tree_wf (update tr n f).
Proof.
  intros [Hp Hw] Hf Hb. split.
  - intros m p. rewrite update_parent by done. apply Hp.
  - intros m s. rewrite lookup_update. destruct (decide (m = n)) as [->|]; [|apply Hw].
    destruct (nodes tr !! n) as [s0|] eqn:Hn; [|done]. intros [= <-]. by apply Hb.
Qed.
Lemma add_node_wf tr p :
  tree_wf tr -> (forall q, p = Some q -> q < length (nodes tr)) ->
  tree_wf (tr <| nodes := nodes tr ++ [mk_CancellationState false p [] true] |>).
Proof.
  intros [Hp Hw] Hq. split.
  - intros n m. unfold parent_of. cbn. destruct (decide (n < length (nodes tr))) as [Hn|Hn].
    + rewrite lookup_app_l by done. apply Hp.
    + rewrite lookup_app_r by lia. destruct (n - length (nodes tr)) eqn:He; cbn; [|done]. intros H. apply Hq in H. lia.
  - intros n s. cbn. intros [H|[_ H]]%lookup_app_Some; [by apply (Hw n)|]. destruct (n - length (nodes tr)) eqn:He; cbn in H; [|done].
    injection H as <-. cbn. unfold len, MAX_CANCELLATION_WAITERS. cbn. lia.
Qed.
Lemma add_node_grows tr s0 : grows tr (tr <| nodes := nodes tr ++ [s0] |>).
Proof.
  split; cbn.
  - rewrite length_app. lia.
  - intros n Hn. unfold parent_of. cbn. by rewrite lookup_app_l.
  - intros n. unfold flagged. cbn. destruct (nodes tr !! n) as [s|] eqn:Hn; [|done].
    by rewrite (lookup_app_l_Some _ _ _ _ Hn).
  - intros n Hn. unfold upgrades. cbn. by rewrite lookup_app_l.
  - done.
Qed.

(** The step of a thread, other than setting a flag or taking the waiters. *)
Definition quiet (t : Thread) (tr : Tree) : bool :=
  match t with SwapFlag token _ => flagged tr token | TakeWaiters _ _ => false | _ => true end.

Lemma push_waiter_tree tr n token task :
  (push_waiter tr n token task).1 = tr \/
  ((push_waiter tr n token task).1 = update tr n (fun s => s <| waiters := waiters s ++ [mk_CancellationWaiter token task] |>) /\
   (len (waiters_of tr n) < MAX_CANCELLATION_WAITERS)%N).
Proof.
  unfold push_waiter. destruct (flagged tr n); [by left|]. case_bool_decide; [by left|].
  destruct (N.leb_spec MAX_CANCELLATION_WAITERS (len (waiters_of tr n))); [by left | by right].
Qed.

Lemma thread_step_tree tr t :
  tree_wf tr -> tree_wf (thread_step tr t).1 /\ grows tr (thread_step tr t).1.
Proof.
  intros Hwf. pose proof (fun n => waiters_of_bound tr n Hwf) as Hb.
  assert (forall n tk, tree_wf (remove_owner_waiters tr n tk) /\ grows tr (remove_owner_waiters tr n tk)) as Hrm.
  { intros n tk. split; [|by apply grows_update]. apply update_wf; [done..|]. intros s Hs. cbn.
    etransitivity; [apply len_filter|]. destruct Hwf as [_ Hw]. by apply (Hw n). }
  destruct t as [tk task n|tk task n|tk task n|tk task|tk [|n rest]|tk via|tk via|tk [|n rest] taken via|tk taken via|r];
    cbn [thread_step fst]; try (split; [exact Hwf | apply grows_refl]); try apply Hrm.
  - split; [|by apply grows_update]. apply update_wf; [done..|]. intros s Hs. cbn.
    etransitivity; [apply len_filter|]. destruct Hwf as [_ Hw]. by apply (Hw n).
  - pose proof (push_waiter_tree tr n tk task) as Hp. destruct (push_waiter tr n tk task) as [tr' o]; cbn in *.
    destruct Hp as [->|[-> Hlt]]; [split; [exact Hwf | apply grows_refl]|]. split; [|by apply grows_update].
    apply update_wf; [done..|]. intros s Hs. cbn. unfold waiters_of in Hlt. rewrite Hs in Hlt.
    unfold len in *. rewrite length_app. cbn [length]. lia.
  - destruct (flagged tr tk); [split; [exact Hwf | apply grows_refl]|]. split; [|by apply grows_update].
    apply update_wf; [done..|]. intros s Hs. cbn. destruct Hwf as [_ Hw]. by apply (Hw tk).
  - split; [|by apply grows_update]. apply update_wf; [done..|]. intros s Hs. cbn. unfold MAX_CANCELLATION_WAITERS. unfold len. cbn. lia.
  - split; [exact Hwf|]. split; try done. intros x Hx. cbn. apply elem_of_app. by right.
Qed.

Lemma quiet_step_flagged tr t n : quiet t tr = true -> flagged (thread_step tr t).1 n = flagged tr n.
Proof.
  destruct t as [tk task m|tk task m|tk task m|tk task|tk [|m rest]|tk via|tk via|tk [|m rest] taken via|tk taken via|r];
    cbn [thread_step fst quiet]; intros Hq; try done; try (by apply update_flagged).
  - pose proof (push_waiter_tree tr m tk task) as Hp. destruct (push_waiter tr m tk task) as [tr' o]; cbn in *.
    destruct Hp as [->|[-> _]]; [done|]. by apply update_flagged.
  - by rewrite Hq.
Qed.
Lemma quiet_step_cancelled tr t n :
  tree_wf tr -> n < length (nodes tr) -> quiet t tr = true -> is_cancelled (thread_step tr t).1 n = is_cancelled tr n.
Proof.
  intros Hwf Hn Hq. destruct (thread_step_tree tr t Hwf) as [Hwf' Hg].
  unfold is_cancelled. rewrite (grows_chain tr _ n) by done. apply eq_true_iff_eq. rewrite !existsb_exists.
  split; intros (m & Hm & Hf); exists m; (split; [done|]); by rewrite quiet_step_flagged in *.
Qed.

(** A quiet step keeps the entries of a token that is neither cancelled nor dropped. *)
Lemma quiet_step_registered tr t token task m :
  thread_ok tr t -> quiet t tr = true -> is_cancelled tr token = false -> upgrades tr token = true ->
  registered_in tr token task m -> registered_in (thread_step tr t).1 token task m.
Proof.
  intros Hok Hq Hc Ha. unfold registered_in. set (e := mk_CancellationWaiter token task).
  assert (forall s n, is_cancelled tr s = true -> e ∈ waiters_of tr m -> e ∈ waiters_of (remove_owner_waiters tr n s) m) as Hrm.
  { intros s n Hs He. unfold remove_owner_waiters. rewrite update_waiters. destruct (decide (m = n)) as [->|]; [|done].
    unfold waiters_of in He. destruct (nodes tr !! n); [|done]. cbn. apply elem_of_list_filter. split; [done|].
    cbn. destruct (Nat.eqb_spec token s); [congruence | done]. }
  assert (forall s, flagged tr s = true -> s < length (nodes tr) -> is_cancelled tr s = true) as Hfl.
  { intros s Hf Hs. unfold is_cancelled, chain. cbn. by rewrite Hf. }
  destruct t as [tk tsk n|tk tsk n|tk tsk n|tk tsk|tk [|n rest]|tk via|tk via|tk [|n rest] taken via|tk taken via|r];
    cbn [thread_step fst quiet thread_ok] in *; intros He; try done.
  - unfold remove_inactive_waiters. rewrite update_waiters. destruct (decide (m = n)) as [->|]; [|done].
    unfold waiters_of in He. destruct (nodes tr !! n); [|done]. cbn. apply elem_of_list_filter. split; [done|].
    unfold is_active, e. cbn [owner]. by rewrite Ha, Hc.
  - pose proof (push_waiter_tree tr n tk tsk) as Hp. destruct (push_waiter tr n tk tsk) as [tr' o]; cbn in *.
    destruct Hp as [->|[-> _]]; [done|]. rewrite update_waiters. destruct (decide (m = n)) as [->|]; [|done].
    unfold waiters_of in He. destruct (nodes tr !! n); [|done]. cbn. apply elem_of_app. by left.
  - apply Hrm; [apply Hok | done].
  - by destruct (flagged tr tk).
  - apply Hrm; [|done]. destruct Hok. by apply Hfl.
Qed.

(** The two first steps of a cancellation together. *)
Definition flag_and_take (tr : Tree) (s : nat) : Tree :=
  update (update tr s (fun x => x <| cancelled := true |>)) s (fun x => x <| waiters := [] |>).
Lemma flag_and_take_tree tr s : tree_wf tr -> tree_wf (flag_and_take tr s) /\ grows tr (flag_and_take tr s).
Proof.
  intros Hwf. assert (tree_wf (update tr s (fun x => x <| cancelled := true |>))) as H1.
  { apply update_wf; [done..|]. intros x Hx. cbn. destruct Hwf as [_ Hw]. by apply (Hw s). }
  split.
  - apply update_wf; [done..|]. intros x Hx. unfold len, MAX_CANCELLATION_WAITERS. cbn. lia.
  - apply (grows_trans _ (update tr s (fun x => x <| cancelled := true |>))); by apply grows_update.
Qed.
Lemma flag_and_take_flagged tr s m :
  s < length (nodes tr) -> flagged (flag_and_take tr s) m = true <-> m = s \/ flagged tr m = true.
Proof.
  intros [x Hx]%lookup_lt_is_Some. unfold flag_and_take. rewrite update_flagged by done. unfold flagged. rewrite lookup_update.
  destruct (decide (m = s)) as [->|Hne]; [rewrite Hx; cbn; naive_solver | naive_solver].
Qed.
Lemma flag_and_take_cancelled tr s n :
  tree_wf tr -> s < length (nodes tr) -> n < length (nodes tr) ->
  is_cancelled (flag_and_take tr s) n = true <-> is_cancelled tr n = true \/ s ∈ chain tr n.
Proof.
  intros Hwf Hs Hn. destruct (flag_and_take_tree tr s Hwf) as [Hwf' Hg].
  rewrite !is_cancelled_spec, (grows_chain tr _ n) by done. setoid_rewrite flag_and_take_flagged; [|done]. naive_solver.
Qed.
Lemma flag_and_take_waiters tr s m : m <> s -> waiters_of (flag_and_take tr s) m = waiters_of tr m.
Proof. intros Hne. unfold flag_and_take. rewrite !update_waiters. by destruct (decide (m = s)). Qed.

(** Progress is kept by every step and by what happens around the threads. *)
Lemma progress_mono tr tr' token task (P : nat -> Prop) :
  tree_wf tr -> tree_wf tr' -> grows tr tr' -> token < length (nodes tr) ->
  (is_cancelled tr' token = false -> upgrades tr' token = true -> forall m, m ∈ chain tr token -> registered_in tr token task m -> registered_in tr' token task m) ->
  progress tr token task P -> progress tr' token task P.
Proof.
  intros Hwf Hwf' Hg Htok Hkeep Hp. unfold progress in *.
  destruct (is_cancelled tr' token) eqn:Hc; [by left|]. destruct (upgrades tr' token) eqn:Ha; [|by right; left].
  right; right. destruct Hp as [Hp|[Hp|Hp]].
  - rewrite (grows_cancelled tr tr') in Hc by done. done.
  - apply (grows_alive tr tr' Hg) in Hp; [congruence|done].
  - rewrite (grows_chain tr tr') by done. auto.
Qed.

Lemma thread_ok_mono tr tr' t :
  tree_wf tr -> tree_wf tr' -> grows tr tr' ->
  (forall token task, token < length (nodes tr) -> is_cancelled tr' token = false -> upgrades tr' token = true ->
     forall m, m ∈ chain tr token -> registered_in tr token task m -> registered_in tr' token task m) ->
  thread_ok tr t -> thread_ok tr' t.
Proof.
  intros Hwf Hwf' Hg Hkeep. pose proof (grows_length _ _ Hg) as Hl.
  assert (forall token, token < length (nodes tr) -> is_cancelled tr token = true -> is_cancelled tr' token = true) as Hcan
    by (intros; by apply (grows_cancelled tr)).
  pose proof (grows_flagged _ _ Hg) as Hfl.
  assert (forall token task (P : nat -> Prop), token < length (nodes tr) -> progress tr token task P -> progress tr' token task P) as Hpr.
  { intros token task P Htok. apply progress_mono; try done. intros. by eapply Hkeep. }
  assert (forall token n, token < length (nodes tr) -> n ∈ chain tr token -> n ∈ chain tr' token) as Hch
    by (intros; by rewrite (grows_chain tr tr')).
  destruct t; cbn [thread_ok].
  1-3: intros (Ht & Hn & Hq); split_and!; [lia | by apply Hch | by apply Hpr].
  - intros (Ht & Hq). split; [lia | by apply Hpr].
  - intros (Ht & Hq). split; [lia | by apply Hcan].
  - lia.
  - intros (Ht & Hq). split; [lia | by apply Hfl].
  - intros (Ht & Hq). split; [lia | by apply Hfl].
  - intros (Ht & Hq). split; [lia | by apply Hfl].
  - done.
Qed.

Lemma flagged_cancelled tr n : flagged tr n = true -> is_cancelled tr n = true.
Proof. intros Hf. unfold is_cancelled, chain. cbn. by rewrite Hf. Qed.
Lemma flagged_chain_cancelled tr token n : n ∈ chain tr token -> flagged tr n = true -> is_cancelled tr token = true.
Proof. intros Hn Hf. apply is_cancelled_spec. by exists n. Qed.

(** What a registration leaves at the node it pushed to. *)
Lemma push_registers tr n token task tr' :
  n < length (nodes tr) -> push_waiter tr n token task = (tr', Registered) -> registered_in tr' token task n.
Proof.
  intros [s Hs]%lookup_lt_is_Some. unfold push_waiter, registered_in. destruct (flagged tr n); [done|].
  case_bool_decide as He; [by intros [= <-]|]. destruct (_ <=? _)%N; [done|]. intros [= <-].
  rewrite update_waiters, decide_True, Hs by done. cbn. apply elem_of_app. right. by apply list_elem_of_singleton.
Qed.
Lemma push_keeps tr n token task tok tk m :
  registered_in tr tok tk m -> registered_in (push_waiter tr n token task).1 tok tk m.
Proof.
  intros He. destruct (push_waiter_tree tr n token task) as [->|[-> _]]; [done|]. unfold registered_in in *.
  rewrite update_waiters. destruct (decide (m = n)) as [->|]; [|done].
  unfold waiters_of in He. destruct (nodes tr !! n); [|done]. cbn. apply elem_of_app. by left.
Qed.

(** The next state of the thread that made a quiet step. *)
Lemma quiet_step_ok tr t :
  tree_wf tr -> thread_ok tr t -> quiet t tr = true -> takes t = false ->
  thread_ok (thread_step tr t).1 (thread_step tr t).2 /\ takes (thread_step tr t).2 = false.
Proof.
  intros Hwf Hok Hq Ht. destruct (thread_step_tree tr t Hwf) as [Hwf' Hg]. pose proof (grows_length _ _ Hg) as Hl.
  pose proof (fun n Hn => quiet_step_cancelled tr t n Hwf Hn Hq) as Hcan.
  assert (thread_ok (thread_step tr t).1 t) as Hok'.
  { apply (thread_ok_mono tr); try done. intros token task Htok Hc Ha m Hm Hr.
    rewrite Hcan in Hc by done. apply quiet_step_registered; try done. destruct (upgrades tr token) eqn:He; [done|].
    rewrite (grows_alive _ _ Hg token Htok He) in Ha. done. }
  destruct t as [tk task n|tk task n|tk task n|tk task|tk [|n rest]|tk via|tk via|tk [|n rest] taken via|tk taken via|r];
    cbn [thread_ok quiet takes] in *; try done.
  - cbn [thread_step fst snd] in *. destruct (flagged tr n) eqn:Hf; [|done]. split; [|done]. destruct Hok as (H1 & H2 & _).
    split; [done | by apply (flagged_chain_cancelled tr tk n)].
  - destruct Hok as (H1 & H2 & Hp). destruct Hok' as (H1' & _ & Hp').
    cbn [thread_step] in *. destruct (push_waiter tr n tk task) as [tr' o] eqn:He. cbn [fst snd] in *.
    assert (n < length (nodes tr)) as Hn by (apply (chain_le tr) in H2; [lia | apply Hwf]).
    assert (forall m, parent_of tr' m = parent_of tr m) as Hpar.
    { intros m. pose proof (push_waiter_tree tr n tk task) as Hpt. rewrite He in Hpt. destruct Hpt as [Ht'|[Ht' _]]; cbn in Ht'; subst; [done|]. by apply update_parent. }
    destruct o.
    + pose proof (push_registers tr n tk task tr' Hn He) as Hreg. rewrite <- Hpar.
      pose proof (grows_chain tr tr' tk Hwf Hwf' Hg H1) as Hch.
      destruct (parent_of tr' n) as [p|] eqn:Hpn; (split; [|done]).
      * split_and!; [lia | |].
        -- apply (chain_trans tr' (proj1 Hwf') tk n); [by rewrite Hch|]. apply elem_of_chain; [apply Hwf'|].
           right. exists p. split; [done | by apply chain_self, Hwf'].
        -- destruct Hp' as [?|[?|Hp']]; [by left | by right; left|]. right; right. intros m Hm Hlt.
           destruct (chain_before_parent tr' (proj1 Hwf') tk n p m) as [->|Hnm]; try done; [by rewrite Hch | by apply Hp'].
      * split; [lia|]. destruct Hp' as [?|[?|Hp']]; [by left | by right; left|]. right; right. intros m Hm _.
        destruct (chain_before_root tr' (proj1 Hwf') tk n m) as [->|Hnm]; try done; [by rewrite Hch | by apply Hp'].
    + split; [|done]. split; [lia|]. rewrite Hcan by done. apply (flagged_chain_cancelled tr tk n); [done|].
      unfold push_waiter in He. destruct (flagged tr n); [done|]. case_bool_decide; [done|]. by destruct (_ <=? _)%N.
    + split; [cbn; lia | done].
  - cbn [thread_step fst snd] in *. destruct (is_cancelled tr tk) eqn:Hc; [|done]. split; [|done]. split; [by destruct Hok | done].
  - cbn [thread_step fst snd] in *. rewrite Hq in *. destruct via; (split; [|done]); [|done]. split; [done | by apply flagged_cancelled].
  - cbn [thread_step fst snd] in *. destruct via; (split; [|done]); [|done]. destruct Hok' as [H1 H2]. split; [done|]. by apply flagged_cancelled.
Qed.

(** A quiet step leaves every waiting task attended. *)
Lemma quiet_step_waits tr t token task :
  tree_wf tr -> token < length (nodes tr) -> thread_ok tr t -> quiet t tr = true -> upgrades tr token = true ->
  waits tr token task -> waits (thread_step tr t).1 token task.
Proof.
  intros Hwf Htok Hok Hq Ha [Hc Hr]. destruct (thread_step_tree tr t Hwf) as [Hwf' Hg]. split.
  - by rewrite quiet_step_cancelled.
  - intros n. rewrite (grows_chain tr) by done. intros Hn. apply quiet_step_registered; auto.
Qed.

(** A thread that holds a waker keeps it or wakes it. *)
Lemma step_holds tr t task :
  holds_waker task t -> holds_waker task (thread_step tr t).2 \/ task ∈ woken (thread_step tr t).1.
Proof.
  destruct t as [tk tsk n|tk tsk n|tk tsk n|tk tsk|tk [|n rest]|tk via|tk via|tk [|n rest] taken via|tk taken via|r];
    cbn [holds_waker thread_step fst snd]; intros H; try done; try (by left).
  right. cbn. apply elem_of_app. left. by rewrite reverse_Permutation || (rewrite list_elem_of_In in *; by apply in_rev in H).
Qed.

Lemma thread_step_decreases tr t :
  tree_wf tr -> thread_ok tr t -> finished t = false -> steps_left (thread_step tr t).2 < steps_left t.
Proof.
  intros [Hwf _] Hok Hf. pose proof (fun n => chain_length tr Hwf n) as Hl.
  assert (forall s via first, steps_left (cancel_returns tr s via first) <= 3 + s) as Hcr.
  { intros s via first. unfold cancel_returns. destruct via; cbn -[chain]; [specialize (Hl s); lia | lia]. }
  destruct t as [tk task n|tk task n|tk task n|tk task|tk [|n rest]|tk via|tk via|tk [|n rest] taken via|tk taken via|r];
    cbn -[chain] in *; try done; try lia.
  - destruct (flagged tr n); cbn -[chain]; [specialize (Hl tk); lia | lia].
  - destruct (push_waiter tr n tk task) as [tr' []]; cbn -[chain]; [|specialize (Hl tk); lia|lia].
    destruct (parent_of tr n) as [p|] eqn:Hp; cbn; [apply Hwf in Hp|]; lia.
  - destruct (is_cancelled tr tk); cbn -[chain]; [specialize (Hl tk); lia | lia].
  - destruct (flagged tr tk); cbn -[chain]; [specialize (Hcr tk via false); lia | lia].
  - specialize (Hl tk). lia.
  - specialize (Hcr tk via true). lia.
Qed.

(** ** Lemmas on worlds *)

(** A change of the tree that keeps what the threads rely on, and one thread's new state. *)
Lemma world_inv_step w tr' ts' :
  world_inv w -> tree_wf tr' -> grows (tree w) tr' ->
  (forall token task, token < length (nodes (tree w)) -> is_cancelled tr' token = false -> upgrades tr' token = true ->
     forall m, m ∈ chain (tree w) token -> registered_in (tree w) token task m -> registered_in tr' token task m) ->
  (forall t, t ∈ ts' -> t ∈ threads w \/ (thread_ok tr' t /\ takes t = false)) ->
  world_inv (mk_World tr' ts').
Proof.
  intros [Hwf Hts] Hwf' Hg Hkeep Hnew. split; [done|]. cbn. intros t [Ht|Ht]%Hnew; [|done].
  destruct (Hts t Ht) as [Hok Htk]. split; [|done]. by apply (thread_ok_mono (tree w)).
Qed.

Lemma thread_move_eq w i t :
  threads w !! i = Some t ->
  thread_move w i = mk_World (thread_step (tree w) t).1 (<[i := (thread_step (tree w) t).2]> (threads w)).
Proof. intros Hi. unfold thread_move. rewrite Hi. by destruct (thread_step (tree w) t). Qed.

Lemma takes_swaps_quiet w i t :
  world_inv w -> threads w !! i = Some t -> swaps w i = false -> quiet t (tree w) = true.
Proof.
  intros [_ Hts] Hi Hs. destruct (Hts t) as [_ Ht]; [by eapply list_elem_of_lookup_2|].
  unfold swaps in Hs. rewrite Hi in Hs. destruct t; cbn in *; try done. by apply negb_false_iff in Hs.
Qed.

(** Both moves of a prompt cancellation. *)
Lemma prompt_cancel_eq w i s via :
  threads w !! i = Some (SwapFlag s via) -> flagged (tree w) s = false ->
  thread_move (thread_move w i) i =
  mk_World (flag_and_take (tree w) s)
    (<[i := Unlink s (chain (update (tree w) s (fun x => x <| cancelled := true |>)) s)
                     (waiters_of (update (tree w) s (fun x => x <| cancelled := true |>)) s) via]> (threads w)).
Proof.
  intros Hi Hf. rewrite (thread_move_eq w i _ Hi). cbn [thread_step]. rewrite Hf. cbn [fst snd].
  assert (i < length (threads w)) as Hl by by eapply lookup_lt_Some.
  unfold thread_move. cbn [threads tree]. rewrite list_lookup_insert_eq by done. cbn [thread_step].
  by rewrite list_insert_insert_eq.
Qed.
Lemma update_flag_waiters tr s m : waiters_of (update tr s (fun x => x <| cancelled := true |>)) m = waiters_of tr m.
Proof. rewrite update_waiters. destruct (decide (m = s)) as [->|]; [|done]. unfold waiters_of. by destruct (nodes tr !! s). Qed.

Lemma environment_tree w w' :
  tree_wf (tree w) -> environment w w' ->
  tree_wf (tree w') /\ grows (tree w) (tree w') /\
  (forall n, n < length (nodes (tree w)) -> flagged (tree w') n = flagged (tree w) n /\ waiters_of (tree w') n = waiters_of (tree w) n) /\
  (forall t, t ∈ threads w -> t ∈ threads w') /\
  (forall t, t ∈ threads w' -> t ∈ threads w \/ (thread_ok (tree w') t /\ takes t = false)).
Proof.
  intros Hwf Henv.
  assert (forall s0 n, n < length (nodes (tree w)) ->
    flagged ((tree w) <| nodes := nodes (tree w) ++ [s0] |>) n = flagged (tree w) n /\
    waiters_of ((tree w) <| nodes := nodes (tree w) ++ [s0] |>) n = waiters_of (tree w) n) as Hadd.
  { intros s0 n Hn. unfold flagged, waiters_of. cbn. by rewrite lookup_app_l. }
  destruct Henv as [w token task Htok Ha|w token Htok|w|w token Htok|w token]; cbn [tree threads fst new_token child].
  - split_and!; try apply grows_refl; try done; [set_solver |]. intros t [Ht|Ht%list_elem_of_singleton]%elem_of_app; [by left|]. subst t. right.
    split; [|done]. cbn. split_and!; [done | by apply chain_self, Hwf|]. right; right. intros m Hm Hlt.
    apply (chain_le _ (proj1 Hwf)) in Hm. lia.
  - split_and!; try apply grows_refl; try done; [set_solver |]. intros t [Ht|Ht%list_elem_of_singleton]%elem_of_app; [by left | subst t; by right].
  - split_and!; [by apply add_node_wf | apply add_node_grows | by apply Hadd | done | by left].
  - split_and!; [apply add_node_wf; [done | by intros q [= <-]] | apply add_node_grows | by apply Hadd | done | by left].
  - split_and!; [| by apply grows_update | | done | by left].
    + apply update_wf; [done..|]. intros s Hs. cbn. destruct Hwf as [_ Hw]. by apply (Hw token).
    + intros n Hn. rewrite update_flagged by done. split; [done|]. rewrite update_waiters.
      destruct (decide (n = token)) as [->|]; [|done]. unfold waiters_of. by destruct (nodes (tree w) !! token).
Qed.

(** Every prompt step keeps the invariant, lets the tree grow and leaves a waiting task
    attended. *)
Lemma prompt_step_spec w w' :
  world_inv w -> prompt_step w w' ->
  world_inv w' /\ grows (tree w) (tree w') /\
  forall token task, token < length (nodes (tree w)) -> attended w token task -> attended w' token task.
Proof.
  intros Hinv Hst. destruct Hst as [w i Hs|w i Hs|w w' Henv].
  - destruct (threads w !! i) as [t|] eqn:Hi.
    2: { unfold thread_move. rewrite Hi. split_and!; [done | apply grows_refl | done]. }
    pose proof (takes_swaps_quiet w i t Hinv Hi Hs) as Hq. pose proof Hinv as [Hwf Hts].
    destruct (Hts t) as [Hok Htk]; [by eapply list_elem_of_lookup_2|].
    destruct (thread_step_tree (tree w) t Hwf) as [Hwf' Hg]. rewrite (thread_move_eq w i t Hi).
    assert (i < length (threads w)) as Hlen by by eapply lookup_lt_Some. split_and!; [|exact Hg|].
    + apply (world_inv_step w); try done.
      * intros token task Htok Hc Ha m Hm Hr. rewrite quiet_step_cancelled in Hc by done.
        apply quiet_step_registered; try done. destruct (upgrades (tree w) token) eqn:He; [done|].
        cbn in Ha. rewrite (grows_alive _ _ Hg token Htok He) in Ha. done.
      * intros t' Ht'. apply list_elem_of_lookup in Ht' as (j & Hj).
        destruct (decide (j = i)) as [->|Hne].
        -- rewrite list_lookup_insert_eq in Hj by done. injection Hj as <-. right. by apply quiet_step_ok.
        -- rewrite list_lookup_insert_ne in Hj by done. left. by eapply list_elem_of_lookup_2.
    + intros token task Htok [Hw|[(t' & Ht' & Hh)|[Hd|Hw]]]; unfold attended; cbn [tree threads].
      * left. by apply Hg.
      * apply list_elem_of_lookup in Ht' as (j & Hj). destruct (decide (j = i)) as [->|Hne].
        -- rewrite Hi in Hj. injection Hj as ->. destruct (step_holds (tree w) t' task Hh) as [H|H]; [|by left].
           right; left. exists (thread_step (tree w) t').2. split; [|done]. eapply list_elem_of_lookup_2. by apply list_lookup_insert_eq.
        -- right; left. exists t'. split; [|done]. apply (list_elem_of_lookup_2 _ j). by rewrite list_lookup_insert_ne.
      * right; right; left. by apply Hg.
      * destruct (upgrades (tree w) token) eqn:Ha.
        -- right; right; right. by apply quiet_step_waits.
        -- right; right; left. by apply Hg.
  - unfold swaps in Hs. destruct (threads w !! i) as [[| | | | |s via| | | |]|] eqn:Hi; try done. apply negb_true_iff in Hs.
    rewrite (prompt_cancel_eq w i s via Hi Hs). pose proof Hinv as [Hwf Hts].
    destruct (Hts (SwapFlag s via)) as [Hok _]; [by eapply list_elem_of_lookup_2|]. cbn in Hok.
    destruct (flag_and_take_tree (tree w) s Hwf) as [Hwf' Hg].
    assert (i < length (threads w)) as Hlen by by eapply lookup_lt_Some.
    assert (forall token m, token < length (nodes (tree w)) -> is_cancelled (flag_and_take (tree w) s) token = false -> m ∈ chain (tree w) token ->
      waiters_of (flag_and_take (tree w) s) m = waiters_of (tree w) m) as Hkeep.
    { intros token m Htok Hc Hm. apply flag_and_take_waiters. intros ->. apply not_true_iff_false in Hc. apply Hc.
      apply flag_and_take_cancelled; auto. }
    split_and!; [|exact Hg|].
    + apply (world_inv_step w); try done.
      * intros token task Htok Hc Ha m Hm. unfold registered_in. by rewrite (Hkeep token m).
      * intros t' Ht'. apply list_elem_of_lookup in Ht' as (j & Hj). destruct (decide (j = i)) as [->|Hne].
        -- rewrite list_lookup_insert_eq in Hj by done. injection Hj as <-. right. split; [|done]. cbn.
           split; [eapply Nat.lt_le_trans; [exact Hok | apply Hg]|]. apply flag_and_take_flagged; auto.
        -- rewrite list_lookup_insert_ne in Hj by done. left. by eapply list_elem_of_lookup_2.
    + intros token task Htok [Hw|[(t' & Ht' & Hh)|[Hd|Hw]]]; unfold attended; cbn [tree threads].
      * left. by apply Hg.
      * right; left. exists t'. split; [|done]. apply list_elem_of_lookup in Ht' as (j & Hj).
        apply (list_elem_of_lookup_2 _ j). destruct (decide (j = i)) as [->|Hne]; [|by rewrite list_lookup_insert_ne].
        rewrite Hi in Hj. by injection Hj as <-.
      * right; right; left. by apply Hg.
      * destruct Hw as [Hc Hr]. destruct (decide (s ∈ chain (tree w) token)) as [Hin|Hout].
        -- right; left. eexists. split; [eapply list_elem_of_lookup_2; by apply list_lookup_insert_eq|]. cbn.
           rewrite update_flag_waiters. apply list_elem_of_fmap. exists (mk_CancellationWaiter token task). split; [done | by apply Hr].
        -- right; right; right. assert (is_cancelled (flag_and_take (tree w) s) token = false) as Hc'.
           { apply not_true_iff_false. rewrite flag_and_take_cancelled by done. intros [?|?]; congruence. }
           split; [done|]. intros n. rewrite (grows_chain (tree w)) by done. intros Hn. unfold registered_in.
           rewrite (Hkeep token n) by done. by apply Hr.
  - pose proof Hinv as [Hwf Hts]. destruct (environment_tree w w' Hwf Henv) as (Hwf' & Hg & Hsame & Hin & Hnew).
    assert (forall token m, token < length (nodes (tree w)) -> m ∈ chain (tree w) token -> m < length (nodes (tree w))) as Hlt.
    { intros token m Htok Hm. apply (chain_le _ (proj1 Hwf)) in Hm. lia. }
    split_and!; [|exact Hg|].
    + destruct w' as [tr' ts']. apply (world_inv_step w); try done. intros token task Htok _ _ m Hm. unfold registered_in.
      cbn in *. by rewrite (proj2 (Hsame m (Hlt token m Htok Hm))).
    + intros token task Htok [Hw|[(t & Ht & Hh)|[Hd|[Hc Hr]]]].
      * left. by apply Hg.
      * right; left. exists t. auto.
      * right; right; left. by apply Hg.
      * right; right; right. split.
        -- unfold is_cancelled. rewrite (grows_chain (tree w)) by done. apply not_true_iff_false. rewrite existsb_exists.
           intros (m & Hm & Hf). apply not_true_iff_false in Hc. apply Hc. apply is_cancelled_spec.
           rewrite <- list_elem_of_In in Hm. exists m. split; [done|]. by rewrite <- (proj1 (Hsame m (Hlt token m Htok Hm))).
        -- intros n. rewrite (grows_chain (tree w)) by done. intros Hn. unfold registered_in.
           rewrite (proj2 (Hsame n (Hlt token n Htok Hn))). by apply Hr.
Qed.

Lemma empty_world_inv : world_inv empty_world.
Proof. split; [split; [by intros n p | by intros n s] | by intros t ?%not_elem_of_nil]. Qed.

Lemma prompt_steps_spec w w' :
  world_inv w -> rtc prompt_step w w' ->
  world_inv w' /\ grows (tree w) (tree w') /\
  forall token task, token < length (nodes (tree w)) -> attended w token task -> attended w' token task.
Proof.
  intros Hinv Hst. revert Hinv. induction Hst as [w|w w1 w' Hst _ IH]; intros Hinv; [split_and!; [done | apply grows_refl | done]|].
  destruct (prompt_step_spec w w1 Hinv Hst) as (Hinv1 & Hg1 & Ha1). destruct (IH Hinv1) as (Hinv' & Hg' & Ha').
  split_and!; [done | by eapply grows_trans |]. intros token task Htok Ha. apply Ha'; [|by apply Ha1].
  pose proof (grows_length _ _ Hg1). lia.
Qed.

Lemma flagged_grows w w' n : rtc prompt_step w w' -> world_inv w -> flagged (tree w) n = true -> flagged (tree w') n = true.
Proof. intros Hst Hinv. destruct (prompt_steps_spec w w' Hinv Hst) as (_ & Hg & _). apply Hg. Qed.

Lemma world_step_tree w w' : tree_wf (tree w) -> world_step w w' -> tree_wf (tree w') /\ grows (tree w) (tree w').
Proof.
  intros Hwf Hst. destruct Hst as [w0 i|w0 w1 Henv].
  - unfold thread_move. destruct (threads w0 !! i) as [t|]; [|split; [done | apply grows_refl]].
    pose proof (thread_step_tree (tree w0) t Hwf) as H. destruct (thread_step (tree w0) t). exact H.
  - by destruct (environment_tree w0 w1 Hwf Henv) as (H1 & H2 & _).
Qed.
Lemma world_steps_tree w w' : tree_wf (tree w) -> rtc world_step w w' -> tree_wf (tree w') /\ grows (tree w) (tree w').
Proof.
  intros Hwf Hst. revert Hwf. induction Hst as [w|w w1 w' Hst _ IH]; intros Hwf; [split; [done | apply grows_refl]|].
  destruct (world_step_tree w w1 Hwf Hst) as [Hwf1 Hg1]. destruct (IH Hwf1) as [Hwf' Hg']. split; [done | by eapply grows_trans].
Qed.

(** ** Theorems *)

(** C0. A token observes cancellation exactly when it or an ancestor was cancelled, which
    is never taken back, whatever the interleaving; cancelling a child leaves its parent
    alone; and every node retains at most 256 waiters. *)
Theorem cancellation_observed (w w' : World) (Hw : rtc world_step empty_world w) (Hw' : rtc world_step w w') :
  (forall n, is_cancelled (tree w) n = true <-> exists m, m ∈ chain (tree w) n /\ flagged (tree w) m = true) /\
  (forall n, n < length (nodes (tree w)) -> is_cancelled (tree w) n = true -> is_cancelled (tree w') n = true) /\
  (forall n p, parent_of (tree w) n = Some p -> n ∉ chain (tree w) p) /\
  (forall n, (len (waiters_of (tree w) n) <= MAX_CANCELLATION_WAITERS)%N).
Proof.
  assert (tree_wf (tree empty_world)) as H0 by apply empty_world_inv.
  destruct (world_steps_tree _ _ H0 Hw) as [Hwf _]. destruct (world_steps_tree _ _ Hwf Hw') as [Hwf' Hg]. split_and!.
  - intros n. apply is_cancelled_spec.
  - intros n Hn. by apply grows_cancelled.
  - intros n p Hp Hin. apply (chain_le _ (proj1 Hwf)) in Hin. apply Hwf in Hp. lia.
  - intros n. by apply waiters_of_bound.
Qed.

(** C29: When no step of another thread comes between setting the flag of a cancelled token
    and taking its waiters, a task that was told to wait is never forgotten: once its token
    observes cancellation and as long as a handle of it is held, the task has been woken,
    or a thread that has yet to end is about to wake it; and every thread ends after
    boundedly many steps of its own, whatever the others do. *)
Theorem waiting_task_is_woken (w w' : World) (i token : nat) (task : N)
    (Hw : rtc prompt_step empty_world w) (Hi : threads w !! i = Some (FinalCheck token task))
    (Hwait : threads (thread_move w i) !! i = Some (Returned false))
    (Hw' : rtc prompt_step (thread_move w i) w')
    (Hcan : is_cancelled (tree w') token = true) (Hheld : upgrades (tree w') token = true) :
  (task ∈ woken (tree w') \/ exists t, t ∈ threads w' /\ holds_waker task t /\ finished t = false) /\
  (forall t, t ∈ threads w' -> finished t = false -> steps_left (thread_step (tree w') t).2 < steps_left t).
Proof.
  destruct (prompt_steps_spec _ _ empty_world_inv Hw) as (Hinv & _ & _). pose proof Hinv as [Hwf Hts].
  destruct (Hts (FinalCheck token task)) as [[Htok Hp] _]; [by eapply list_elem_of_lookup_2|].
  assert (prompt_step w (thread_move w i)) as Hst by (apply prompt_thread; unfold swaps; by rewrite Hi).
  destruct (prompt_step_spec w _ Hinv Hst) as (Hinv1 & Hg1 & _).
  destruct (prompt_steps_spec _ _ Hinv1 Hw') as ([Hwf' Hts'] & Hg' & Hatt). pose proof (grows_length _ _ Hg1).
  assert (is_cancelled (tree w) token = false /\ tree (thread_move w i) = tree w) as [Hc Htr].
  { rewrite (thread_move_eq w i _ Hi) in Hwait |- *. cbn [threads thread_step fst snd] in Hwait.
    rewrite list_lookup_insert_eq in Hwait by by eapply lookup_lt_Some. split; [|done].
    by destruct (is_cancelled (tree w) token). }
  split.
  - destruct (Hatt token task) as [H1|[(t & Ht & Hh)|[H1|[H1 _]]]]; [lia | | by left | | congruence | congruence].
    + unfold attended. rewrite Htr. right; right. destruct Hp as [Hp|[Hp|Hp]]; [congruence | by left |].
      right. split; [done|]. intros n Hn. by apply Hp.
    + right. exists t. split_and!; [done..|]. by destruct t.
  - intros t Ht Hf. apply thread_step_decreases; [done | by apply Hts' | done].
Qed.

(** Tokens 1 and 2 under token 0, and three threads about to start. *)
Definition sample_tree : Tree :=
  mk_Tree [mk_CancellationState false None [] true; mk_CancellationState false (Some 0) [] true;
           mk_CancellationState false (Some 0) [] true] [].
Definition sample_world : World := mk_World sample_tree [register_waker 1 7; register_waker 2 8; cancel 0].
(** The registration of task 7 up to its last look. *)
Definition registration_schedule : list nat := [0; 0; 0; 0; 0; 0].
(** The registration of task 8 comes to the common parent; the cancellation of the parent
    sets its flag; the registration sweeps the parent's waiters, whose tokens now observe
    cancellation; and the cancellation takes what is left. *)
Definition race_schedule : list nat := [1; 1; 1; 1] ++ [2] ++ [1; 1] ++ [1; 1; 1] ++ repeat 2 4.

Lemma schedule_steps s w : rtc world_step w (schedule w s).
Proof.
  unfold schedule. revert w. induction s as [|i s IH]; intros w; cbn; [apply rtc_refl|].
  eapply rtc_l; [apply step_thread | apply IH].
Qed.

(** How the sample world comes about. *)
Lemma sample_world_environment : rtc environment empty_world sample_world.
Proof.
  eapply rtc_l; [apply env_new|]. eapply rtc_l; [apply (env_child _ 0); cbn; lia|].
  eapply rtc_l; [apply (env_child _ 0); cbn; lia|]. eapply rtc_l; [apply (env_register _ 1 7); [cbn; lia | done]|].
  eapply rtc_l; [apply (env_register _ 2 8); [cbn; lia | done]|]. eapply rtc_l; [apply (env_cancel _ 0); cbn; lia|].
  apply rtc_refl.
Defined.

(** The prompt move of a thread. *)
Definition prompt_move (w : World) (i : nat) : World :=
  if swaps w i then thread_move (thread_move w i) i else thread_move w i.
Lemma prompt_moves_steps s w : rtc prompt_step w (fold_left prompt_move s w).
Proof.
  revert w. induction s as [|i s IH]; intros w; cbn; [apply rtc_refl|]. eapply rtc_l; [|apply IH].
  unfold prompt_move. destruct (swaps w i) eqn:Hs; [by apply prompt_cancel | by apply prompt_thread].
Defined.

(** Threads that have ended make no further step. *)
Lemma finished_stay (w : World) i : (forall t, t ∈ threads w -> finished t = true) -> thread_move w i = w.
Proof.
  intros Hall. unfold thread_move. destruct (threads w !! i) as [t|] eqn:Ht; [|done].
  pose proof (Hall t (list_elem_of_lookup_2 _ _ _ Ht)) as Hf. destruct t; try done. cbn.
  rewrite list_insert_id by done. by destruct w.
Qed.

(** C31: The comment of [register_waker] says that its final check keeps a cancellation that
    races with a registration from being missed.  There is an interleaving of one
    cancellation and two registrations in which it is.  From nothing a world is reached with
    tokens 1 and 2 under token 0 and three threads about to start: the registrations of
    task 7 for token 1 and of task 8 for token 2, and the cancellation of token 0.  The first
    registration runs to its final check, with its entry at every node of its chain, and is
    told to wait; after further steps of the other two threads everything has ended, no step
    is left, token 1 is held and observes cancellation, and task 7 was not woken. *)
Theorem racing_registration_loses_wake :
  exists w0 before w1 after w2,
    rtc world_step empty_world w0 /\ threads w0 = [register_waker 1 7; register_waker 2 8; cancel 0] /\
    parent_of (tree w0) 1 = Some 0 /\ parent_of (tree w0) 2 = Some 0 /\ woken (tree w0) = [] /\
    w1 = schedule w0 before /\ threads w1 !! 0 = Some (FinalCheck 1 7) /\ waits (tree w1) 1 7 /\
    threads (thread_move w1 0) !! 0 = Some (Returned false) /\
    w2 = schedule (thread_move w1 0) after /\ 0 ∉ after /\
    threads w2 = [Returned false; Returned true; Returned true] /\ (forall i, thread_move w2 i = w2) /\
    is_cancelled (tree w2) 1 = true /\ upgrades (tree w2) 1 = true /\ 7%N ∉ woken (tree w2).
Proof.
  exists sample_world, registration_schedule, (schedule sample_world registration_schedule), race_schedule,
    (schedule (thread_move (schedule sample_world registration_schedule) 0) race_schedule).
  assert (threads (schedule (thread_move (schedule sample_world registration_schedule) 0) race_schedule)
    = [Returned false; Returned true; Returned true]) as Hend by by vm_compute.
  split; [eapply rtc_subrel; [|exact sample_world_environment]; intros x y; apply step_environment|].
  do 6 (split; [by vm_compute|]). split; [split; [by vm_compute|]|].
  { intros n Hn. change (n ∈ [1; 0]) in Hn.
    do 2 (apply elem_of_cons in Hn as [->|Hn]; [unfold registered_in; apply (bool_decide_unpack _); vm_compute; exact I|]).
    destruct (not_elem_of_nil _ Hn). }
  do 2 (split; [by vm_compute|]). split; [apply (bool_decide_unpack _); vm_compute; exact I|]. split; [exact Hend|].
  split; [|do 2 (split; [by vm_compute|]); apply (bool_decide_unpack _); vm_compute; exact I].
  intros i. apply finished_stay. rewrite Hend. intros t Ht. clear -Ht.
  repeat (apply elem_of_cons in Ht as [->|Ht]; [done|]). destruct (not_elem_of_nil _ Ht).
Qed.

Definition sample_waiting : World := fold_left prompt_move [0; 0; 0; 0; 0; 0] sample_world.
Definition sample_woken : World := fold_left prompt_move [2; 2; 2; 2; 1; 1; 1; 1] (thread_move sample_waiting 0).
Lemma sample_waiting_reachable : rtc prompt_step empty_world sample_waiting.
Proof.
  transitivity sample_world; [|apply prompt_moves_steps].
  eapply rtc_subrel; [|exact sample_world_environment]. intros x y. apply prompt_environment.
Defined.
Lemma cancellation_observed_witness : is_cancelled (tree sample_world) 2 = false /\
  (len (waiters_of (tree sample_world) 0) <= MAX_CANCELLATION_WAITERS)%N.
Proof.
  split; [by vm_compute|]. assert (rtc world_step empty_world sample_world) as Hw.
  { eapply rtc_subrel; [|exact sample_world_environment]. intros x y. apply step_environment. }
  apply (cancellation_observed sample_world sample_world Hw (rtc_refl _ _)).
Defined.
Lemma waiting_task_is_woken_witness : 7%N ∈ woken (tree sample_woken) \/
  exists t, t ∈ threads sample_woken /\ holds_waker 7 t /\ finished t = false.
Proof.
  apply (waiting_task_is_woken sample_waiting sample_woken 0 1 7 sample_waiting_reachable ltac:(by vm_compute) ltac:(by vm_compute)
    (prompt_moves_steps _ _) ltac:(by vm_compute) ltac:(by vm_compute)).
Defined.
