(* ===== verification/EventChannel.v ===== *)
(** * Bounded event channels

    Models [crates/ariadnion-core/src/event.rs]: envelopes, the publisher that keeps the
    sequence increasing under its lock, and the subscriber that waits in bounded slices.
    The channel underneath is the standard library's bounded [mpsc] channel: its queue, its
    capacity and which ends are still there.  Shown: a subscriber receives exactly what was
    accepted, in order and with increasing sequences, within the capacity, whoever publishes
    in between; and a bounded wait ends. *)

From stdpp Require Import relations.
From S2P Require Import Prelude CoreTypes.
#[local] Open Scope N_scope.
#[local] Open Scope record_scope.

Definition MAX_EVENT_CAPACITY : N := 1048576.
(** In milliseconds, as the durations below. *)
Definition CANCELLATION_POLL_INTERVAL : N := 25.

Record EventEnvelope (E : Type) := mk_EventEnvelope {
  sequence : N; event_version : ModuleVersion; occurred_at : N; payload : E;
}.
Arguments mk_EventEnvelope {E} _ _ _ _.
Arguments sequence {E} _.
Arguments event_version {E} _.
Arguments occurred_at {E} _.
Arguments payload {E} _.

(** [EventEnvelope::new] at the time [now]. *)
Definition envelope_new {E} (now sequence : N) (version : ModuleVersion) (payload : E) : EventEnvelope E :=
  mk_EventEnvelope sequence version now payload.
Definition map_payload {E T} (event : EventEnvelope E) (map : E -> T) : EventEnvelope T :=
  mk_EventEnvelope (sequence event) (event_version event) (occurred_at event) (map (payload event)).

Inductive PublishError (E : Type) :=
| PublishCancelled (event : EventEnvelope E)
| Full (event : EventEnvelope E)
| PublishClosed (event : EventEnvelope E)
| OutOfOrder (event : EventEnvelope E).
Arguments PublishCancelled {E} _.
Arguments Full {E} _.
Arguments PublishClosed {E} _.
Arguments OutOfOrder {E} _.

Inductive ReceiveOutcome (E : Type) :=
| Event (event : EventEnvelope E)
| TimedOut
| Closed
| ReceiveCancelled.
Arguments Event {E} _.
Arguments TimedOut {E}.
Arguments Closed {E}.
Arguments ReceiveCancelled {E}.

(** ** The channel *)

(** The queue of the channel, the number of senders, whether the receiver is there, and the
    sequence published last, which all publishers share. *)
Record Channel (E : Type) := mk_Channel {
  queue : list (EventEnvelope E); capacity : N; senders : N; receiver : bool; last_sequence : option N;
}.
Arguments mk_Channel {E} _ _ _ _ _.
Arguments queue {E} _.
Arguments capacity {E} _.
Arguments senders {E} _.
Arguments receiver {E} _.
Arguments last_sequence {E} _.
#[export] Instance Channel_eta E : Eta (Channel E) :=
  fun c => mk_Channel (queue c) (capacity c) (senders c) (receiver c) (last_sequence c).

Definition validate_capacity (capacity : N) : result CoreError unit :=
  reject_if ((capacity =? 0) || (MAX_EVENT_CAPACITY <? capacity))
    (with_internal_context (CoreError_from_code InvalidArgument) "event channel capacity is outside its bound").
Definition bounded_event_channel (E : Type) (capacity : N) : result CoreError (Channel E) :=
  validate_capacity capacity ;; mret (mk_Channel [] capacity 1 true None).

Definition sequence_increases (previous : option N) (candidate : N) : bool :=
  is_none_or (fun sequence => sequence <? candidate) previous.

(** [SyncSender::try_send]: a missing receiver is noticed before a full queue. *)
Definition try_send {E} (event : EventEnvelope E) : act (Channel E) (PublishError E) unit :=
  c ← get;
  if negb (receiver c) then fail (PublishClosed event)
  else if capacity c <=? len (queue c) then fail (Full event)
  else put (c <| queue := queue c ++ [event] |>).

(** [cancelled] is what the publisher's token observes. *)
Definition try_publish {E} (cancelled : bool) (event : EventEnvelope E) : act (Channel E) (PublishError E) unit :=
  if cancelled then fail (PublishCancelled event) else
  c ← get;
  if negb (sequence_increases (last_sequence c) (sequence event)) then fail (OutOfOrder event) else
  try_send event ;;
  modify (fun c => c <| last_sequence := Some (sequence event) |>).

Definition clone_publisher {E} (c : Channel E) : Channel E := c <| senders := senders c + 1 |>.
Definition drop_publisher {E} (c : Channel E) : Channel E := c <| senders := senders c - 1 |>.
Definition drop_subscriber {E} (c : Channel E) : Channel E := c <| receiver := false |> <| queue := [] |>.

(** ** Receiving *)

(** What [Receiver::recv_timeout] finds at the end of its wait. *)
Inductive RecvResult (E : Type) := Received (event : EventEnvelope E) | Disconnected | Timeout.
Arguments Received {E} _.
Arguments Disconnected {E}.
Arguments Timeout {E}.
Definition recv {E} (c : Channel E) : Channel E * RecvResult E :=
  match queue c with
  | event :: rest => (c <| queue := rest |>, Received event)
  | [] => (c, if senders c =? 0 then Disconnected else Timeout)
  end.

Inductive ReceiveStep (E : Type) := Continue | Complete (outcome : ReceiveOutcome E).
Arguments Continue {E}.
Arguments Complete {E} _.

Definition map_receive_result {E} (r : RecvResult E) : ReceiveStep E :=
  match r with
  | Received event => Complete (Event event)
  | Disconnected => Complete Closed
  | Timeout => Continue
  end.

Definition next_receive_wait (elapsed timeout : N) : option N :=
  let remaining := timeout - elapsed in
  if remaining =? 0 then None else Some (N.min remaining CANCELLATION_POLL_INTERVAL).

(** One turn of the loop sees whether the token is cancelled, the time since the start, and
    the channel as it is when the wait ends. *)
Record Poll (E : Type) := mk_Poll { poll_cancelled : bool; poll_elapsed : N; poll_channel : Channel E }.
Arguments mk_Poll {E} _ _ _.
Arguments poll_cancelled {E} _.
Arguments poll_elapsed {E} _.
Arguments poll_channel {E} _.

Definition receive_step {E} (timeout : N) (p : Poll E) : Channel E * ReceiveStep E :=
  if poll_cancelled p then (poll_channel p, Complete ReceiveCancelled)
  else match next_receive_wait (poll_elapsed p) timeout with
       | None => (poll_channel p, Complete TimedOut)
       | Some _ => let '(c, r) := recv (poll_channel p) in (c, map_receive_result r)
       end.

(** [receive_timeout] over the turns it makes; [None] when it still waits after them. *)
Fixpoint receive_timeout {E} (timeout : N) (polls : list (Poll E)) : option (Channel E * ReceiveOutcome E) :=
  match polls with
  | [] => None
  | p :: rest =>
      match receive_step timeout p with
      | (c, Complete outcome) => Some (c, outcome)
      | (_, Continue) => receive_timeout timeout rest
      end
  end.

(** ** Executions *)

(** The channel with what was accepted and what was delivered so far. *)
Record Traffic (E : Type) := mk_Traffic {
  channel : Channel E; accepted : list (EventEnvelope E); delivered : list (EventEnvelope E);
}.
Arguments mk_Traffic {E} _ _ _.
Arguments channel {E} _.
Arguments accepted {E} _.
Arguments delivered {E} _.

(** Any publisher publishes, the subscriber polls, handles come and go. *)
Inductive traffic_step {E} : Traffic E -> Traffic E -> Prop :=
| traffic_publish t cancelled event c r : try_publish cancelled event (channel t) = (c, r) ->
    traffic_step t (mk_Traffic c (if is_ok r then accepted t ++ [event] else accepted t) (delivered t))
| traffic_receive t cancelled elapsed timeout c s : receive_step timeout (mk_Poll cancelled elapsed (channel t)) = (c, s) ->
    receiver (channel t) = true ->
    traffic_step t (mk_Traffic c (accepted t) (match s with Complete (Event e) => delivered t ++ [e] | _ => delivered t end))
| traffic_clone t : 1 <= senders (channel t) -> traffic_step t (mk_Traffic (clone_publisher (channel t)) (accepted t) (delivered t))
| traffic_drop_publisher t : traffic_step t (mk_Traffic (drop_publisher (channel t)) (accepted t) (delivered t))
| traffic_drop_subscriber t : traffic_step t (mk_Traffic (drop_subscriber (channel t)) (accepted t) (delivered t)).

Definition traffic_reachable {E} (capacity : N) (t : Traffic E) : Prop :=
  exists c, bounded_event_channel E capacity = Ok c /\ rtc traffic_step (mk_Traffic c [] []) t.

(** ** Specification *)

Definition traffic_inv {E} (cap : N) (t : Traffic E) : Prop :=
  capacity (channel t) = cap /\ len (queue (channel t)) <= cap /\
  last_sequence (channel t) = sequence <$> last (accepted t) /\
  strictly_sorted_by sequence (accepted t) /\
  (if receiver (channel t) then accepted t = delivered t ++ queue (channel t)
   else exists lost, accepted t = delivered t ++ lost).

(** A turn that waited in vain took at least its slice of time. *)
Fixpoint clocked {E} (timeout : N) (polls : list (Poll E)) : Prop :=
  match polls with
  | p :: ((q :: _) as rest) =>
      (forall wait, next_receive_wait (poll_elapsed p) timeout = Some wait -> poll_elapsed p + wait <= poll_elapsed q) /\
      clocked timeout rest
  | _ => True
  end.

(** ** Lemmas *)

Lemma try_publish_cases {E} cancelled (event : EventEnvelope E) c :
  (exists e, try_publish cancelled event c = (c, Err e) /\
     e = if cancelled then PublishCancelled event
         else if negb (sequence_increases (last_sequence c) (sequence event)) then OutOfOrder event
         else if negb (receiver c) then PublishClosed event else Full event) \/
  (try_publish cancelled event c =
     (c <| queue := queue c ++ [event] |> <| last_sequence := Some (sequence event) |>, Ok tt) /\
   cancelled = false /\ sequence_increases (last_sequence c) (sequence event) = true /\ receiver c = true /\
   len (queue c) < capacity c).
Proof.
  unfold try_publish. destruct cancelled; [left; by eexists|]. rewrite act_get_run.
  destruct (sequence_increases (last_sequence c) (sequence event)) eqn:Hs; cbn [negb]; [|left; by eexists].
  assert (try_send event c = if negb (receiver c) then (c, Err (PublishClosed event))
                             else if capacity c <=? len (queue c) then (c, Err (Full event))
                             else (c <| queue := queue c ++ [event] |>, Ok tt)) as Hsend.
  { unfold try_send. rewrite act_get_run. destruct (receiver c); [|done]. by destruct (capacity c <=? len (queue c)). }
  destruct (receiver c) eqn:Hr; cbn [negb] in *; [|left; eexists; split; [by apply act_bind_stop | done]].
  destruct (N.leb_spec (capacity c) (len (queue c))); [left; eexists; split; [by apply act_bind_stop | done]|].
  right. split_and!; try done. by rewrite (act_bind_run _ _ _ _ _ Hsend).
Qed.

Lemma sequence_increases_sorted {E} (l : list (EventEnvelope E)) (event : EventEnvelope E) :
  strictly_sorted_by sequence l -> sequence_increases (sequence <$> last l) (sequence event) = true ->
  strictly_sorted_by sequence (l ++ [event]).
Proof.
  intros Hs Hi. apply StronglySorted_app. split_and!; [|done|repeat constructor].
  intros x y Hx Hy%list_elem_of_singleton. subst y.
  destruct (last l) as [z|] eqn:Hz; [|apply last_None in Hz; subst; by apply not_elem_of_nil in Hx].
  apply last_Some in Hz as (l' & ->). cbn in Hi. apply N.ltb_lt in Hi.
  unfold ord_lt, cmp, N_ord. apply N.compare_lt_iff. apply StronglySorted_app in Hs as (Hlt & _ & _).
  apply elem_of_app in Hx as [Hx|Hx%list_elem_of_singleton]; [|by subst].
  specialize (Hlt x z Hx ltac:(by apply list_elem_of_singleton)). unfold ord_lt, cmp, N_ord in Hlt.
  apply (proj1 (N.compare_lt_iff _ _)) in Hlt. lia.
Qed.

Lemma traffic_step_inv {E} cap (t t' : Traffic E) : traffic_inv cap t -> traffic_step t t' -> traffic_inv cap t'.
Proof.
  intros (Hcap & Hlen & Hlast & Hs & Hfifo) Hst.
  destruct Hst as [t cancelled event c r Hp|t cancelled elapsed timeout c s Hr Hrec|t _|t|t]; unfold traffic_inv; cbn [channel accepted delivered] in *.
  - destruct (try_publish_cases cancelled event (channel t)) as [(e & He & _)|(He & _ & Hi & Hrc & Hlt)];
      rewrite He in Hp; injection Hp as <- <-; cbn [is_ok]; [done|].
    cbn [capacity queue last_sequence receiver]. split_and!; [done| | | |].
    + unfold len in *. cbn. rewrite length_app. cbn [length]. lia.
    + cbn. by rewrite last_snoc.
    + apply sequence_increases_sorted; [done | by rewrite <- Hlast].
    + cbn. rewrite Hrc in *. by rewrite Hfifo, app_assoc.
  - unfold receive_step in Hr. cbn in Hr. rewrite Hrec in Hfifo.
    assert (forall o, (channel t, o) = (c, s) -> (forall e, o <> Complete (Event e)) -> traffic_inv cap (mk_Traffic c (accepted t) (match s with Complete (Event e) => delivered t ++ [e] | _ => delivered t end))) as Hsame.
    { intros o Ho Hne. injection Ho as <- <-. unfold traffic_inv. cbn. rewrite Hrec. split_and!; try done. destruct o as [|[]]; done || (by destruct (Hne event)). }
    destruct cancelled; [by apply (Hsame _ Hr)|]. destruct (next_receive_wait elapsed timeout); [|by apply (Hsame _ Hr)].
    unfold recv in Hr. destruct (queue (channel t)) as [|event rest] eqn:Hq.
    + destruct (senders (channel t) =? 0); by apply (Hsame _ Hr).
    + injection Hr as <- <-. cbn. rewrite Hrec. split_and!; try done.
      * unfold len in *. cbn [length] in Hlen. lia.
      * by rewrite Hfifo, <- app_assoc.
  - split_and!; done.
  - split_and!; done.
  - cbn. split_and!; try done; [unfold len; cbn; lia|]. destruct (receiver (channel t)); [by eexists | done].
Qed.

Lemma traffic_reachable_inv {E} cap (t : Traffic E) : traffic_reachable cap t -> traffic_inv cap t.
Proof.
  intros (c & ([] & _ & Hc)%result_bind_Ok & Ht). injection Hc as <-.
  apply (rtc_invariant traffic_step (traffic_inv cap)) with (2 := Ht); [intros; by eapply traffic_step_inv|].
  unfold traffic_inv. cbn. split_and!; try done; [unfold len; cbn; lia | constructor].
Qed.

(** ** Theorems *)

(** C30: Whoever publishes and whenever the subscriber polls, a channel that was created
    holds at most its capacity, what was accepted has strictly increasing sequences, and
    what was delivered is its beginning: together with the queue it is all that was
    accepted, until the subscriber is dropped. *)
Theorem channel_is_fifo (E : Type) (cap : N) (t : Traffic E) (Ht : traffic_reachable cap t) :
  len (queue (channel t)) <= cap <= MAX_EVENT_CAPACITY /\ strictly_sorted_by sequence (accepted t) /\
  (exists pending, accepted t = delivered t ++ pending /\ (receiver (channel t) = true -> pending = queue (channel t))) /\
  strictly_sorted_by sequence (delivered t).
Proof.
  pose proof (traffic_reachable_inv cap t Ht) as (Hcap & Hlen & _ & Hs & Hfifo).
  destruct Ht as (c & ([] & Hv%reject_if_Ok & _)%result_bind_Ok & _). apply orb_false_iff in Hv as [_ Hv%N.ltb_ge].
  assert (exists pending, accepted t = delivered t ++ pending /\ (receiver (channel t) = true -> pending = queue (channel t))) as Hp.
  { destruct (receiver (channel t)); [by eexists|]. destruct Hfifo as [lost ->]. by exists lost. }
  split_and!; try done. destruct Hp as (pending & Hp & _). rewrite Hp in Hs. by apply StronglySorted_app in Hs as (_ & ? & _).
Qed.

(** C0. A bounded wait ends: when each vain turn takes its slice of time, a call makes at
    most one turn for every started 25 milliseconds of its timeout and one more. *)
Theorem receive_terminates (E : Type) (timeout : N) (polls : list (Poll E))
    (Hclock : clocked timeout polls) (Hlen : timeout / CANCELLATION_POLL_INTERVAL + 2 <= len polls) :
  is_Some (receive_timeout timeout polls).
Proof.
  assert (forall (ps : list (Poll E)) k, clocked timeout ps ->
    (forall p, head ps = Some p -> timeout - poll_elapsed p <= k * CANCELLATION_POLL_INTERVAL) ->
    k + 1 <= len ps -> is_Some (receive_timeout timeout ps)) as Hgen.
  { clear. intros ps. induction ps as [|p ps IH]; intros k Hc Hk Hl; [unfold len in Hl; cbn in Hl; lia|].
    cbn [receive_timeout]. unfold receive_step. destruct (poll_cancelled p); [by eexists|].
    specialize (Hk p eq_refl). destruct (next_receive_wait (poll_elapsed p) timeout) as [wait|] eqn:Hw; [|by eexists].
    destruct (recv (poll_channel p)) as [c r]. destruct r; cbn [map_receive_result]; [by eexists | by eexists |].
    unfold next_receive_wait in Hw. destruct (N.eqb_spec (timeout - poll_elapsed p) 0) as [|Hne]; [done|]. injection Hw as Hw.
    unfold CANCELLATION_POLL_INTERVAL in *.
    assert (1 <= k) as Hk1 by lia. unfold len in *. cbn [length] in Hl.
    apply (IH (k - 1)); [by destruct ps, Hc | | lia].
    intros q Hq. destruct ps as [|q' ps]; [done|]. injection Hq as ->. destruct Hc as [Hc _].
    unfold next_receive_wait in Hc. rewrite (proj2 (N.eqb_neq _ _) Hne) in Hc. specialize (Hc _ eq_refl).
    unfold CANCELLATION_POLL_INTERVAL in Hc. lia. }
  apply (Hgen polls (timeout / CANCELLATION_POLL_INTERVAL + 1) Hclock); [|lia]. intros p _.
  unfold CANCELLATION_POLL_INTERVAL. pose proof (N.div_mod timeout 25 ltac:(lia)). pose proof (N.mod_lt timeout 25 ltac:(lia)). lia.
Qed.

Definition sample_channel : Channel nat := mk_Channel [] 2 1 true None.
Definition sample_event (n : N) : EventEnvelope nat := mk_EventEnvelope n (mk_ModuleVersion 1 0 0) 0 0%nat.
Lemma sample_traffic : traffic_reachable 2 (mk_Traffic (mk_Channel [] 2 1 true (Some 5)) [sample_event 5] [sample_event 5]).
Proof.
  exists sample_channel. split; [by vm_compute|].
  eapply rtc_l; [apply (traffic_publish (mk_Traffic sample_channel [] []) false (sample_event 5) _ _ eq_refl)|]. cbn.
  eapply rtc_l; [eapply (traffic_receive _ false 0 10); [reflexivity | done]|]. apply rtc_refl.
Defined.
Lemma channel_is_fifo_witness : strictly_sorted_by sequence [sample_event 5].
Proof. apply (channel_is_fifo nat 2 _ sample_traffic). Defined.
Lemma receive_terminates_witness :
  is_Some (receive_timeout 30 (map (fun e => mk_Poll false e sample_channel) [0; 25; 30])).
Proof.
  apply (receive_terminates nat 30 (map (fun e => mk_Poll false e sample_channel) [0; 25; 30])); [|by vm_compute].
  cbn. split_and!; try done; by intros wait [= <-].
Defined.
