(* ===== verification/ApiValues.v ===== *)
(** * Values of the service interface

    Models [crates/optional/ariadnion-api-domain/src]: [error.rs], [request.rs],
    [response.rs], [usage.rs], [stream.rs], [chat.rs], [embedding.rs], [image.rs] and
    [file.rs]; the bounded texts, counts and payloads that requests and responses are made
    of.  A text is its UTF-8 bytes, a [usize] has 64 bits and an [f32] is its bits.  Shown:
    which collections are accepted, in which order their bounds are checked, that checked
    sums never decide anything else, and that media types have one canonical spelling. *)

From Stdlib Require Import Ascii.
From Stdlib Require Strings.Byte.
From stdpp Require Import vector.
From S2P Require Import Prelude CoreTypes Identity Encoding.
From S2P Require ConfigDomain.
#[local] Open Scope N_scope.
#[local] Open Scope record_scope.

(** ** Errors ([error.rs]) *)

Inductive ApiDomainErrorCode :=
| InvalidArgument | UnsupportedVersion | LimitExceeded | Conflict | Cancelled | DeadlineExceeded
| Unavailable | ResourceExhausted | Internal.
#[export] Instance ApiDomainErrorCode_eq_dec : EqDecision ApiDomainErrorCode.
Proof. solve_decision. Defined.

Record ApiDomainError := mk_ApiDomainError { code : ApiDomainErrorCode }.
#[export] Instance ApiDomainError_eq_dec : EqDecision ApiDomainError.
Proof. solve_decision. Defined.

Definition service_failure_machine_code (code : ApiDomainErrorCode) : string :=
  match code with
  | Unavailable => "API_DOMAIN_UNAVAILABLE"
  | ResourceExhausted => "API_DOMAIN_RESOURCE_EXHAUSTED"
  | Internal => "API_DOMAIN_INTERNAL"
  | _ => "API_DOMAIN_INTERNAL"
  end.
Definition as_str (code : ApiDomainErrorCode) : string :=
  match code with
  | InvalidArgument => "API_DOMAIN_INVALID_ARGUMENT"
  | UnsupportedVersion => "API_DOMAIN_UNSUPPORTED_VERSION"
  | LimitExceeded => "API_DOMAIN_LIMIT_EXCEEDED"
  | Conflict => "API_DOMAIN_CONFLICT"
  | Cancelled => "API_DOMAIN_CANCELLED"
  | DeadlineExceeded => "API_DOMAIN_DEADLINE_EXCEEDED"
  | Unavailable | ResourceExhausted | Internal => service_failure_machine_code code
  end.
Definition project_core_error (code : ErrorCode) : ApiDomainErrorCode :=
  match code with
  | CoreTypes.InvalidArgument => InvalidArgument
  | CoreTypes.Conflict => Conflict
  | CoreTypes.Cancelled => Cancelled
  | CoreTypes.DeadlineExceeded => DeadlineExceeded
  | CoreTypes.Unavailable => Unavailable
  | CoreTypes.ResourceExhausted => ResourceExhausted
  | CoreTypes.Internal => Internal
  end.
(** [impl From<CoreError> for ApiDomainError]. *)
Definition from_core_error (value : CoreError) : ApiDomainError := mk_ApiDomainError (project_core_error (ce_code value)).

Definition invalid_argument : ApiDomainError := mk_ApiDomainError InvalidArgument.
Definition limit_exceeded : ApiDomainError := mk_ApiDomainError LimitExceeded.

(** ** Shared checks *)

Notation outcome := (result ApiDomainError).

(** The shape that the validators of single values share: the limit first. *)
Definition bounded (limit size : N) (malformed : bool) : outcome unit :=
  reject_if (limit <? size) limit_exceeded ;; reject_if malformed invalid_argument.
(** [value.contains('\0')]. *)
Definition contains_nul (value : string) : bool := any_byte (Ascii.eqb Ascii.zero) value.
(** [items.iter().try_fold(0, |total, item| total.checked_add(..).ok_or_else(limit_exceeded))]. *)
Fixpoint checked_total {A} (size : A -> N) (total : N) (items : list A) : outcome N :=
  match items with
  | [] => Ok total
  | item :: rest => total ← ok_or (checked_add u64_max total (size item)) limit_exceeded; checked_total size total rest
  end.

(** ** Requests ([request.rs]) *)

Definition MAX_MODEL_SELECTOR_BYTES : N := 256.
Definition MAX_IDEMPOTENCY_KEY_BYTES : N := 128.
Definition MAX_TEXT_INPUT_BYTES : N := 1048576.
Definition MAX_OUTPUT_TOKENS : N := 1048576.

Inductive ServiceContractVersion : Set := V1.
#[export] Instance ServiceContractVersion_eq_dec : EqDecision ServiceContractVersion.
Proof. solve_decision. Defined.
Definition ServiceContractVersion_parse (value : N) : outcome ServiceContractVersion :=
  if value =? 1 then Ok V1 else Err (mk_ApiDomainError UnsupportedVersion).

(** The UTF-8 encodings of the characters with the property [White_Space], which [str::trim]
    removes: tab to carriage return, space, U+0085, U+00A0, U+1680, U+2000 to U+200A, U+2028,
    U+2029, U+202F, U+205F and U+3000. *)
Definition WHITE_SPACE : list (list N) :=
  [[9]; [10]; [11]; [12]; [13]; [32]; [194; 133]; [194; 160]; [225; 154; 128]]
  ++ map (fun n => [226; 128; 128 + N.of_nat n]) (seq 0 11)
  ++ [[226; 128; 168]; [226; 128; 169]; [226; 128; 175]; [226; 129; 159]; [227; 128; 128]].
Fixpoint has_prefix (prefix bytes : list N) : bool :=
  match prefix, bytes with
  | [], _ => true
  | x :: prefix, y :: bytes => (x =? y) && has_prefix prefix bytes
  | _ :: _, [] => false
  end.
(** [value.trim() != value]: the text starts or ends with white space. *)
Definition trim_changes (value : string) : bool :=
  let bytes := map byte (Stdlib.Strings.String.list_ascii_of_string value) in
  existsb (fun space => has_prefix space bytes) WHITE_SPACE
  || existsb (fun space => has_prefix (rev space) (rev bytes)) WHITE_SPACE.

Definition validate_model_selector (value : string) : outcome unit :=
  reject_if (MAX_MODEL_SELECTOR_BYTES <? byte_len value) limit_exceeded ;;
  reject_if (is_empty value || trim_changes value) invalid_argument ;;
  reject_if (ConfigDomain.any_control value) invalid_argument.
Definition validate_idempotency_key (value : string) : outcome unit :=
  reject_if (is_empty value) invalid_argument ;;
  reject_if (MAX_IDEMPOTENCY_KEY_BYTES <? byte_len value) limit_exceeded ;;
  reject_if (negb (all_bytes is_visible_ascii value)) invalid_argument.
Definition validate_text_input (value : string) : outcome unit :=
  bounded MAX_TEXT_INPUT_BYTES (byte_len value) (is_empty value || contains_nul value).

Record ModelSelector := MkModelSelector { model_str : string }.
Record IdempotencyKey := MkIdempotencyKey { key_str : string }.
Record TextInput := MkTextInput { input_str : string }.
Record OutputTokenLimit := MkOutputTokenLimit { tokens : N }.
#[export] Instance OutputTokenLimit_eq_dec : EqDecision OutputTokenLimit.
Proof. solve_decision. Defined.

Definition ModelSelector_new (value : string) : outcome ModelSelector :=
  validate_model_selector value ;; mret (MkModelSelector value).
Definition IdempotencyKey_new (value : string) : outcome IdempotencyKey :=
  validate_idempotency_key value ;; mret (MkIdempotencyKey value).
Definition TextInput_new (value : string) : outcome TextInput :=
  validate_text_input value ;; mret (MkTextInput value).
Definition OutputTokenLimit_new (value : N) : outcome OutputTokenLimit :=
  reject_if (value =? 0) invalid_argument ;;
  reject_if (MAX_OUTPUT_TOKENS <? value) limit_exceeded ;;
  mret (MkOutputTokenLimit value).

Inductive ResponseMode := Complete | Stream.

(** ** Chat messages ([chat.rs]) *)

Definition MAX_CHAT_MESSAGES : N := 128.
Definition MAX_CHAT_MESSAGE_CONTENT_BYTES : N := 262144.
Definition MAX_CHAT_MESSAGES_BYTES : N := 1048576.

Inductive ChatRole := Developer | System | User | Assistant.
Record ChatMessageContent := MkChatMessageContent { content_str : string }.
Record ChatMessage := mk_ChatMessage { role : ChatRole; content : ChatMessageContent }.
Record ChatMessages := mk_ChatMessages { messages : list ChatMessage; encoded_bytes : N }.

Definition validate_content (value : string) : outcome unit :=
  bounded MAX_CHAT_MESSAGE_CONTENT_BYTES (byte_len value) (contains_nul value).
Definition ChatMessageContent_new (value : string) : outcome ChatMessageContent :=
  validate_content value ;; mret (MkChatMessageContent value).

Definition message_bytes (message : ChatMessage) : N := byte_len (content_str (content message)).
Definition checked_message_bytes (messages : list ChatMessage) : outcome N := checked_total message_bytes 0 messages.
Definition validate_messages (messages : list ChatMessage) : outcome N :=
  reject_if (len messages =? 0) invalid_argument ;;
  reject_if (MAX_CHAT_MESSAGES <? len messages) limit_exceeded ;;
  encoded_bytes ← checked_message_bytes messages;
  reject_if (MAX_CHAT_MESSAGES_BYTES <? encoded_bytes) limit_exceeded ;;
  mret encoded_bytes.
Definition ChatMessages_new (messages : list ChatMessage) : outcome ChatMessages :=
  encoded_bytes ← validate_messages messages; mret (mk_ChatMessages messages encoded_bytes).

(** ** Embeddings ([embedding.rs]) *)

Definition MAX_EMBEDDING_INPUT_BYTES : N := 1048576.
Definition MAX_EMBEDDING_INPUTS : N := 128.
Definition MAX_EMBEDDING_INPUTS_BYTES : N := 1048576.
Definition MAX_EMBEDDING_DIMENSIONS : N := 65536.
Definition MAX_EMBEDDING_VECTORS : N := 128.
Definition MAX_EMBEDDING_SCALARS : N := 1048576.

Record EmbeddingInput := MkEmbeddingInput { embedding_str : string }.
Record EmbeddingInputs := mk_EmbeddingInputs { input_values : list EmbeddingInput; inputs_total_bytes : N }.
Record EmbeddingVector := MkEmbeddingVector { scalars : list N }.
Record EmbeddingVectors := mk_EmbeddingVectors { vectors : list EmbeddingVector; vectors_dimensions : N; total_scalars : N }.

Definition validate_input (value : string) : outcome unit :=
  bounded MAX_EMBEDDING_INPUT_BYTES (byte_len value) (is_empty value || contains_nul value).
Definition EmbeddingInput_new (value : string) : outcome EmbeddingInput :=
  validate_input value ;; mret (MkEmbeddingInput value).

Definition validate_input_count (count : N) : outcome unit := bounded MAX_EMBEDDING_INPUTS count (count =? 0).
Definition checked_input_bytes (values : list EmbeddingInput) : outcome N :=
  total ← checked_total (fun input => byte_len (embedding_str input)) 0 values;
  reject_if (MAX_EMBEDDING_INPUTS_BYTES <? total) limit_exceeded ;;
  mret total.
Definition EmbeddingInputs_new (values : list EmbeddingInput) : outcome EmbeddingInputs :=
  validate_input_count (len values) ;;
  total_bytes ← checked_input_bytes values;
  mret (mk_EmbeddingInputs values total_bytes).

(** [f32::is_finite]: the eight bits of the exponent are not all set. *)
Definition is_finite (bits : N) : bool := negb (N.land (N.shiftr bits 23) 255 =? 255).
Definition validate_vector (values : list N) : outcome unit :=
  bounded MAX_EMBEDDING_DIMENSIONS (len values) ((len values =? 0) || existsb (fun value => negb (is_finite value)) values).
Definition EmbeddingVector_new (values : list N) : outcome EmbeddingVector :=
  validate_vector values ;; mret (MkEmbeddingVector values).
Definition dimensions (vector : EmbeddingVector) : N := len (scalars vector).

Definition validate_vector_count (count expected_count : N) : outcome unit :=
  reject_if ((MAX_EMBEDDING_VECTORS <? count) || (MAX_EMBEDDING_VECTORS <? expected_count)) limit_exceeded ;;
  reject_if ((count =? 0) || negb (count =? expected_count)) invalid_argument.
Definition checked_scalar_count (count dimensions : N) : outcome N :=
  total ← ok_or (checked_mul u64_max count dimensions) limit_exceeded;
  reject_if (MAX_EMBEDDING_SCALARS <? total) limit_exceeded ;;
  mret total.
Definition validate_expected_dimensions (dimensions : N) : outcome unit :=
  bounded MAX_EMBEDDING_DIMENSIONS dimensions (dimensions =? 0).
Definition validate_dimensions (values : list EmbeddingVector) (expected_dimensions : N) : outcome unit :=
  reject_if (existsb (fun vector => negb (dimensions vector =? expected_dimensions)) values) invalid_argument.
Definition EmbeddingVectors_new (values : list EmbeddingVector) (expected_count expected_dimensions : N) : outcome EmbeddingVectors :=
  validate_vector_count (len values) expected_count ;;
  validate_expected_dimensions expected_dimensions ;;
  total_scalars ← checked_scalar_count (len values) expected_dimensions;
  validate_dimensions values expected_dimensions ;;
  mret (mk_EmbeddingVectors values expected_dimensions total_scalars).

(** ** Images ([image.rs]) *)

Definition MAX_IMAGE_PROMPT_BYTES : N := 262144.
Definition MAX_GENERATED_IMAGES : N := 8.
Definition MAX_IMAGE_EDGE : N := 8192.
Definition MAX_IMAGE_PIXELS : N := 16777216.
Definition MAX_GENERATED_IMAGE_BYTES : N := 8388608.
Definition MAX_GENERATED_IMAGES_BYTES : N := 33554432.

Definition PNG_SIGNATURE : list Byte.byte := map byte_of [137; 80; 78; 71; 13; 10; 26; 10].
Definition JPEG_SIGNATURE : list Byte.byte := map byte_of [255; 216; 255].
Definition WEBP_RIFF_SIGNATURE : list Byte.byte := as_bytes "RIFF".
Definition WEBP_FORMAT_SIGNATURE : list Byte.byte := as_bytes "WEBP".

Record ImagePrompt := MkImagePrompt { prompt_str : string }.
Record ImageCount := MkImageCount { image_count : N }.
Record ImageDimensions := mk_ImageDimensions { width : N; height : N; pixels : N }.
Inductive ImageMediaType := Png | Jpeg | WebP.
Record GeneratedImage := mk_GeneratedImage {
  image_media_type : ImageMediaType; image_dimensions : ImageDimensions; image_bytes : list Byte.byte;
}.
Record GeneratedImages := mk_GeneratedImages { images : list GeneratedImage; images_total_bytes : N }.

Definition validate_prompt (value : string) : outcome unit :=
  bounded MAX_IMAGE_PROMPT_BYTES (byte_len value) (is_empty value || contains_nul value).
Definition ImagePrompt_new (value : string) : outcome ImagePrompt :=
  validate_prompt value ;; mret (MkImagePrompt value).
Definition ImageCount_new (value : N) : outcome ImageCount :=
  bounded MAX_GENERATED_IMAGES value (value =? 0) ;; mret (MkImageCount value).

Definition validate_edges (width height : N) : outcome unit :=
  reject_if ((MAX_IMAGE_EDGE <? width) || (MAX_IMAGE_EDGE <? height)) limit_exceeded ;;
  reject_if ((width =? 0) || (height =? 0)) invalid_argument.
Definition ImageDimensions_new (width height : N) : outcome ImageDimensions :=
  validate_edges width height ;;
  pixels ← ok_or (checked_mul u64_max width height) limit_exceeded;
  reject_if (MAX_IMAGE_PIXELS <? pixels) limit_exceeded ;;
  mret (mk_ImageDimensions width height pixels).

Definition media_type_as_str (media_type : ImageMediaType) : string :=
  match media_type with Png => "image/png" | Jpeg => "image/jpeg" | WebP => "image/webp" end.
(** [bytes.starts_with(signature)]. *)
Definition starts_with (bytes signature : list Byte.byte) : bool := bool_decide (take (length signature) bytes = signature).
Definition webp_signature_matches (bytes : list Byte.byte) : bool :=
  starts_with bytes WEBP_RIFF_SIGNATURE
  && ((12 <=? len bytes) && bool_decide (take 4 (drop 8 bytes) = WEBP_FORMAT_SIGNATURE)).
Definition matches_signature (media_type : ImageMediaType) (bytes : list Byte.byte) : bool :=
  match media_type with
  | Png => starts_with bytes PNG_SIGNATURE
  | Jpeg => starts_with bytes JPEG_SIGNATURE
  | WebP => webp_signature_matches bytes
  end.
Definition validate_encoded_image (media_type : ImageMediaType) (bytes : list Byte.byte) : outcome unit :=
  bounded MAX_GENERATED_IMAGE_BYTES (len bytes) ((len bytes =? 0) || negb (matches_signature media_type bytes)).
Definition GeneratedImage_new (media_type : ImageMediaType) (dimensions : ImageDimensions) (bytes : list Byte.byte)
    : outcome GeneratedImage :=
  validate_encoded_image media_type bytes ;; mret (mk_GeneratedImage media_type dimensions bytes).

Definition validate_image_count (count expected : N) : outcome unit :=
  bounded MAX_GENERATED_IMAGES count ((count =? 0) || negb (count =? expected)).
Definition checked_image_bytes (values : list GeneratedImage) : outcome N :=
  total ← checked_total (fun image => len (image_bytes image)) 0 values;
  reject_if (MAX_GENERATED_IMAGES_BYTES <? total) limit_exceeded ;;
  mret total.
Definition GeneratedImages_new (values : list GeneratedImage) (expected_count : ImageCount) : outcome GeneratedImages :=
  validate_image_count (len values) (image_count expected_count) ;;
  total_bytes ← checked_image_bytes values;
  mret (mk_GeneratedImages values total_bytes).

(** ** Files ([file.rs]) *)

Definition MEDIA_TOKEN_PUNCTUATION : string := "!#$%&'+-.^_`|~".
Definition MAX_FILE_DISPLAY_NAME_BYTES : N := 255.
Definition MAX_FILE_MEDIA_TYPE_BYTES : N := 127.
Definition MAX_FILE_BYTES : N := 536870912.

(** Both hold 32 bytes. *)
Record FileReference := MkFileReference { reference_bytes : vec Byte.byte 32 }.
#[export] Instance FileReference_eq_dec : EqDecision FileReference.
Proof. solve_decision. Defined.
Record FileDigest := MkFileDigest { digest_bytes : vec Byte.byte 32 }.
Record FileDisplayName := MkFileDisplayName { display_name_str : string }.
Record FileMediaType := MkFileMediaType { file_media_type_str : string }.
Record FileByteLength := MkFileByteLength { file_bytes : N }.
Record FileUploadSpecification := mk_FileUploadSpecification {
  upload_display_name : FileDisplayName; upload_media_type : FileMediaType;
  upload_byte_length : FileByteLength; expected_digest : option FileDigest;
}.
Record FileDescriptor := mk_FileDescriptor {
  descriptor_reference : FileReference; descriptor_display_name : FileDisplayName;
  descriptor_media_type : FileMediaType; descriptor_byte_length : FileByteLength; descriptor_digest : FileDigest;
}.

(** The control characters among them are looked for on their own. *)
Definition forbidden_display_name_byte (byte : ascii) : bool := existsb (Ascii.eqb byte) ["/"; "\"]%char.
Definition validate_display_name (value : string) : outcome unit :=
  bounded MAX_FILE_DISPLAY_NAME_BYTES (byte_len value)
    (is_empty value || (ConfigDomain.any_control value || any_byte forbidden_display_name_byte value)).
Definition FileDisplayName_new (value : string) : outcome FileDisplayName :=
  validate_display_name value ;; mret (MkFileDisplayName value).

Definition is_media_token_byte (byte : ascii) : bool :=
  is_ascii_alphanumeric byte || any_byte (Ascii.eqb byte) MEDIA_TOKEN_PUNCTUATION.
Definition is_concrete_media_token (value : string) : bool := negb (is_empty value) && all_bytes is_media_token_byte value.
Definition validate_media_type_length (value : string) : outcome unit :=
  reject_if (MAX_FILE_MEDIA_TYPE_BYTES <? byte_len value) limit_exceeded.
Definition split_media_type (value : string) : outcome (string * string) :=
  '(top_level, subtype) ← ok_or (split_once "/" value) invalid_argument;
  reject_if (any_byte (Ascii.eqb "/"%char) subtype) invalid_argument ;;
  mret (top_level, subtype).
Definition validate_media_type_tokens (top_level subtype : string) : outcome unit :=
  reject_if (negb (is_concrete_media_token top_level) || negb (is_concrete_media_token subtype)) invalid_argument.
Definition validate_media_type (value : string) : outcome unit :=
  validate_media_type_length value ;;
  '(top_level, subtype) ← split_media_type value;
  validate_media_type_tokens top_level subtype.
Definition ascii_lowercase (a : ascii) : ascii := if is_ascii_uppercase a then ascii_of_N (byte a + 32) else a.
(** [str::to_ascii_lowercase]. *)
Fixpoint to_ascii_lowercase (value : string) : string :=
  match value with EmptyString => EmptyString | String a rest => String (ascii_lowercase a) (to_ascii_lowercase rest) end.
Definition FileMediaType_new (value : string) : outcome FileMediaType :=
  validate_media_type value ;; mret (MkFileMediaType (to_ascii_lowercase value)).
Definition FileByteLength_new (value : N) : outcome FileByteLength :=
  bounded MAX_FILE_BYTES value (value =? 0) ;; mret (MkFileByteLength value).

(** ** Responses, usage and stream events ([response.rs], [usage.rs], [stream.rs]) *)

Definition MAX_TEXT_OUTPUT_BYTES : N := 16777216.
Definition MAX_TEXT_DELTA_BYTES : N := 65536.

Record TextOutput := MkTextOutput { output_str : string }.
Inductive FinishReason := Completed | OutputLimitReached | ContentFiltered.
Record TokenUsage := mk_TokenUsage { input_tokens : N; output_tokens : N; total_tokens : N }.
Record TextServiceResponse := mk_TextServiceResponse {
  text_version : ServiceContractVersion; text_output : TextOutput; text_finish_reason : FinishReason;
}.
Record ChatServiceResponse := mk_ChatServiceResponse {
  chat_version : ServiceContractVersion; chat_output : TextOutput; chat_finish_reason : FinishReason; chat_usage : TokenUsage;
}.
Record EmbeddingServiceResponse := mk_EmbeddingServiceResponse {
  embedding_version : ServiceContractVersion; embedding_vectors : EmbeddingVectors; embedding_usage : TokenUsage;
}.
Record ImageServiceResponse := mk_ImageServiceResponse { image_version : ServiceContractVersion; response_images : GeneratedImages }.
Record TextDelta := MkTextDelta { delta_str : string }.

Definition validate_text_output (value : string) : outcome unit :=
  bounded MAX_TEXT_OUTPUT_BYTES (byte_len value) (contains_nul value).
Definition TextOutput_new (value : string) : outcome TextOutput :=
  validate_text_output value ;; mret (MkTextOutput value).
Definition TokenUsage_new (input_tokens output_tokens : N) : outcome TokenUsage :=
  total_tokens ← ok_or (checked_add u64_max input_tokens output_tokens) limit_exceeded;
  mret (mk_TokenUsage input_tokens output_tokens total_tokens).
Definition EmbeddingServiceResponse_new (version : ServiceContractVersion) (vectors : EmbeddingVectors) (usage : TokenUsage)
    : outcome EmbeddingServiceResponse :=
  reject_if (negb (output_tokens usage =? 0)) invalid_argument ;;
  mret (mk_EmbeddingServiceResponse version vectors usage).
Definition validate_text_delta (value : string) : outcome unit :=
  bounded MAX_TEXT_DELTA_BYTES (byte_len value) (is_empty value || contains_nul value).
Definition TextDelta_new (value : string) : outcome TextDelta :=
  validate_text_delta value ;; mret (MkTextDelta value).

Inductive TextStreamEvent :=
| TextStarted (version : ServiceContractVersion)
| TextDeltaEvent (delta : TextDelta)
| TextCompleted (finish_reason : FinishReason)
| TextFailed (error : ApiDomainError).
Inductive ChatStreamEvent :=
| ChatStarted (version : ServiceContractVersion)
| ChatDeltaEvent (delta : TextDelta)
| ChatCompleted (finish_reason : FinishReason) (usage : TokenUsage)
| ChatFailed (error : ApiDomainError).

(** ** Request records ([request.rs]) *)

Record ImageOutputSpecification := mk_ImageOutputSpecification {
  spec_count : ImageCount; spec_dimensions : ImageDimensions; spec_media_type : ImageMediaType;
}.
Record TextServiceRequest := mk_TextServiceRequest {
  text_request_version : ServiceContractVersion; text_request_model : ModelSelector; text_request_input : TextInput;
  text_request_limit : OutputTokenLimit; text_request_mode : ResponseMode; text_request_key : option IdempotencyKey;
}.
Record ChatServiceRequest := mk_ChatServiceRequest {
  chat_request_version : ServiceContractVersion; chat_request_model : ModelSelector; chat_request_messages : ChatMessages;
  chat_request_limit : OutputTokenLimit; chat_request_mode : ResponseMode; chat_request_key : option IdempotencyKey;
}.
Record EmbeddingServiceRequest := mk_EmbeddingServiceRequest {
  embedding_request_version : ServiceContractVersion; embedding_request_model : ModelSelector;
  embedding_request_inputs : EmbeddingInputs; embedding_request_key : option IdempotencyKey;
}.
Record ImageServiceRequest := mk_ImageServiceRequest {
  image_request_version : ServiceContractVersion; image_request_model : ModelSelector; image_request_prompt : ImagePrompt;
  image_request_output : ImageOutputSpecification; image_request_key : option IdempotencyKey;
}.

(** ** Lemmas *)

Lemma bounded_accepts limit size malformed u : bounded limit size malformed = Ok u <-> size <= limit /\ malformed = false.
Proof.
  unfold bounded. destruct u. rewrite result_bind_Ok, <- N.ltb_ge. split.
  - by intros ([] & ?%reject_if_Ok & ?%reject_if_Ok).
  - intros [H1 H2]. exists tt. by rewrite !reject_if_Ok.
Qed.

Section totals.
Context {A : Type} (size : A -> N).
Lemma checked_total_eq items total : total <= u64_max ->
  checked_total size total items =
  if u64_max <? total + sum_of size items then Err limit_exceeded else Ok (total + sum_of size items).
Proof.
  revert total. induction items as [|x items IH]; intros total Ht; cbn [checked_total].
  - rewrite N.add_0_r. destruct (N.ltb_spec u64_max total); [lia | done].
  - rewrite sum_of_cons, N.add_assoc. unfold checked_add. destruct (N.leb_spec (total + size x) u64_max) as [Hle|Hgt]; cbn.
    + by apply IH.
    + destruct (N.ltb_spec u64_max (total + size x + sum_of size items)); [done | lia].
Qed.
(** The overflow check never decides: what overflows is beyond the limit. *)
Lemma checked_total_limited {B} (limit : N) items (f : N -> outcome B) : limit <= u64_max ->
  (total ← checked_total size 0 items; reject_if (limit <? total) limit_exceeded ;; f total) =
  if limit <? sum_of size items then Err limit_exceeded else f (sum_of size items).
Proof.
  intros Hl. rewrite checked_total_eq by (unfold u64_max; lia). rewrite N.add_0_l.
  destruct (N.ltb_spec u64_max (sum_of size items)) as [H|H]; cbn.
  - destruct (N.ltb_spec limit (sum_of size items)); [done | lia].
  - by destruct (limit <? sum_of size items).
Qed.
End totals.

Lemma lowercase_slash a : Ascii.eqb (ascii_lowercase a) "/" = Ascii.eqb a "/".
Proof. by destruct a as [[] [] [] [] [] [] [] []]. Qed.
Lemma lowercase_token a : is_media_token_byte (ascii_lowercase a) = is_media_token_byte a.
Proof. by destruct a as [[] [] [] [] [] [] [] []]. Qed.
Lemma lowercase_twice a : ascii_lowercase (ascii_lowercase a) = ascii_lowercase a.
Proof. by destruct a as [[] [] [] [] [] [] [] []]. Qed.
Lemma to_ascii_lowercase_twice s : to_ascii_lowercase (to_ascii_lowercase s) = to_ascii_lowercase s.
Proof. induction s as [|a s IH]; cbn; [done|]. by rewrite lowercase_twice, IH. Qed.
Lemma to_ascii_lowercase_length s : byte_len (to_ascii_lowercase s) = byte_len s.
Proof. unfold byte_len. f_equal. induction s as [|a s IH]; cbn; congruence. Qed.
Lemma to_ascii_lowercase_bytes (p : ascii -> bool) s : (forall a, p (ascii_lowercase a) = p a) ->
  all_bytes p (to_ascii_lowercase s) = all_bytes p s /\ any_byte p (to_ascii_lowercase s) = any_byte p s.
Proof.
  intros Hp. unfold all_bytes, any_byte. induction s as [|a s [IH1 IH2]]; cbn; [done|]. by rewrite Hp, IH1, IH2.
Qed.
Lemma split_slash s : split_once "/" s =
  match s with
  | EmptyString => None
  | String a rest => if Ascii.eqb a "/" then Some (EmptyString, rest) else prod_map (String a) id <$> split_once "/" rest
  end.
Proof.
  destruct s as [|a s]; [done|]. cbn [split_once strip_prefix]. rewrite Ascii.eqb_sym. destruct (Ascii.eqb a "/"); [done|].
  by destruct (split_once "/" s) as [[]|].
Qed.
Lemma to_ascii_lowercase_split s :
  split_once "/" (to_ascii_lowercase s) = prod_map to_ascii_lowercase to_ascii_lowercase <$> split_once "/" s.
Proof.
  induction s as [|a s IH]; [done|]. rewrite (split_slash (String a s)). cbn [to_ascii_lowercase]. rewrite split_slash, lowercase_slash.
  destruct (Ascii.eqb a "/"); [done|]. rewrite IH. by destruct (split_once "/" s) as [[]|].
Qed.
Lemma split_slash_Some s l r : split_once "/" s = Some (l, r) -> s = l +:+ "/" +:+ r /\ any_byte (Ascii.eqb "/"%char) l = false.
Proof.
  revert l. induction s as [|a s IH]; intros l; [done|]. rewrite split_slash. destruct (Ascii.eqb_spec a "/") as [->|Ha].
  - by intros [= <- <-].
  - destruct (split_once "/" s) as [[l' r']|]; [|done]. intros [= <- <-]. destruct (IH l' eq_refl) as [-> Hl].
    split; [done|]. unfold any_byte in *. cbn -[Ascii.eqb]. rewrite Hl, orb_false_r. destruct (Ascii.eqb_spec "/" a); congruence.
Qed.

(** ** Theorems *)

(** The collections are accepted within their bounds, the count before the sum of the
    sizes, which they carry; no overflow of a sum is ever the reason. *)
Theorem collections_exact :
  (forall ms, ChatMessages_new ms =
     if len ms =? 0 then Err invalid_argument else if MAX_CHAT_MESSAGES <? len ms then Err limit_exceeded
     else if MAX_CHAT_MESSAGES_BYTES <? sum_of message_bytes ms then Err limit_exceeded
     else Ok (mk_ChatMessages ms (sum_of message_bytes ms))) /\
  (forall inputs, let size input := byte_len (embedding_str input) in EmbeddingInputs_new inputs =
     if MAX_EMBEDDING_INPUTS <? len inputs then Err limit_exceeded else if len inputs =? 0 then Err invalid_argument
     else if MAX_EMBEDDING_INPUTS_BYTES <? sum_of size inputs then Err limit_exceeded
     else Ok (mk_EmbeddingInputs inputs (sum_of size inputs))) /\
  (forall images count, let size image := len (image_bytes image) in GeneratedImages_new images count =
     if MAX_GENERATED_IMAGES <? len images then Err limit_exceeded
     else if (len images =? 0) || negb (len images =? image_count count) then Err invalid_argument
     else if MAX_GENERATED_IMAGES_BYTES <? sum_of size images then Err limit_exceeded
     else Ok (mk_GeneratedImages images (sum_of size images))).
Proof.
  split_and!; [intros ms | intros inputs size | intros images count size].
  - unfold ChatMessages_new, validate_messages, checked_message_bytes. destruct (len ms =? 0); [done|].
    destruct (MAX_CHAT_MESSAGES <? len ms); [done|]. cbn [reject_if mbind result_bind].
    rewrite checked_total_limited by by vm_compute. by destruct (MAX_CHAT_MESSAGES_BYTES <? _).
  - unfold EmbeddingInputs_new, validate_input_count, checked_input_bytes, bounded. destruct (MAX_EMBEDDING_INPUTS <? len inputs); [done|].
    destruct (len inputs =? 0); [done|]. cbn [reject_if mbind result_bind].
    rewrite checked_total_limited by by vm_compute. by destruct (MAX_EMBEDDING_INPUTS_BYTES <? _).
  - unfold GeneratedImages_new, validate_image_count, checked_image_bytes, bounded. destruct (MAX_GENERATED_IMAGES <? len images); [done|].
    destruct ((len images =? 0) || _); [done|]. cbn [reject_if mbind result_bind].
    rewrite checked_total_limited by by vm_compute. by destruct (MAX_GENERATED_IMAGES_BYTES <? _).
Qed.

(** Vectors are accepted exactly when they are as many and as long as was expected, within
    the bounds; then they carry the product. *)
Theorem embedding_vectors_exact values count dims r :
  EmbeddingVectors_new values count dims = Ok r <->
  len values = count /\ 1 <= count <= MAX_EMBEDDING_VECTORS /\ 1 <= dims <= MAX_EMBEDDING_DIMENSIONS /\
  count * dims <= MAX_EMBEDDING_SCALARS /\ (forall v, v ∈ values -> dimensions v = dims) /\
  r = mk_EmbeddingVectors values dims (count * dims).
Proof.
  unfold EmbeddingVectors_new, validate_vector_count, validate_expected_dimensions, bounded, checked_scalar_count, validate_dimensions.
  assert (existsb (fun v => negb (dimensions v =? dims)) values = false <-> forall v, v ∈ values -> dimensions v = dims) as Hd.
  { rewrite <- not_true_iff_false, existsb_exists. split.
    - intros H v Hv%list_elem_of_In. destruct (N.eqb_spec (dimensions v) dims); [done|]. destruct H. exists v. split; [done|]. by apply negb_true_iff, N.eqb_neq.
    - intros H (v & Hv%list_elem_of_In & Hn%negb_true_iff%N.eqb_neq). by apply Hn, H. }
  assert (MAX_EMBEDDING_SCALARS <= u64_max) as Hmax by by vm_compute. split.
  - intros ([] & ([] & H1%reject_if_Ok & H2%reject_if_Ok)%result_bind_Ok & H)%result_bind_Ok.
    apply result_bind_Ok in H as ([] & ([] & H3%reject_if_Ok & H4%reject_if_Ok)%result_bind_Ok & H).
    apply result_bind_Ok in H as (total & (t & Ht%ok_or_Ok%checked_mul_Some & ([] & H5%reject_if_Ok & [= <-])%result_bind_Ok)%result_bind_Ok & H).
    apply result_bind_Ok in H as ([] & H6%reject_if_Ok & [= <-]). pose proof (proj1 Hd H6) as Hall; clear H6. destruct Ht as [-> Ht].
    apply orb_false_iff in H1 as [H1%N.ltb_ge H1'%N.ltb_ge], H2 as [H2%N.eqb_neq H2'%negb_false_iff%N.eqb_eq].
    apply N.ltb_ge in H3, H5. apply N.eqb_neq in H4. subst count. split_and!; try done; lia.
  - intros (Hlen & Hc & Hb & Ht & Hv & ->). rewrite Hlen.
    assert (checked_mul u64_max count dims = Some (count * dims)) as -> by (apply checked_mul_Some; lia).
    apply (proj2 Hd) in Hv. rewrite Hv. rewrite (proj2 (N.eqb_eq count count) eq_refl), (proj2 (N.eqb_neq count 0) ltac:(lia)), (proj2 (N.eqb_neq dims 0) ltac:(lia)).
    rewrite (proj2 (N.ltb_ge MAX_EMBEDDING_VECTORS count) ltac:(lia)), (proj2 (N.ltb_ge MAX_EMBEDDING_DIMENSIONS dims) ltac:(lia)). cbn.
    by rewrite (proj2 (N.ltb_ge MAX_EMBEDDING_SCALARS (count * dims)) ltac:(lia)).
Qed.

(** A media type is two tokens around a slash.  Its stored form is canonical: spellings
    that differ in the case of letters are accepted together with one result, and the
    result is accepted as itself. *)
Theorem media_type_canonical (value value' : string) :
  (forall t, FileMediaType_new value = Ok t ->
     byte_len value <= MAX_FILE_MEDIA_TYPE_BYTES /\
     exists top_level subtype, value = top_level +:+ "/" +:+ subtype /\
       is_concrete_media_token top_level = true /\ is_concrete_media_token subtype = true /\
       file_media_type_str t = to_ascii_lowercase value /\ FileMediaType_new (file_media_type_str t) = Ok t) /\
  (to_ascii_lowercase value = to_ascii_lowercase value' -> FileMediaType_new value = FileMediaType_new value').
Proof.
  assert (forall v, FileMediaType_new (to_ascii_lowercase v) = FileMediaType_new v) as Hlow.
  { intros v. unfold FileMediaType_new, validate_media_type, validate_media_type_length, split_media_type, validate_media_type_tokens, is_concrete_media_token, is_empty.
    rewrite to_ascii_lowercase_length, to_ascii_lowercase_twice, to_ascii_lowercase_split.
    destruct (MAX_FILE_MEDIA_TYPE_BYTES <? byte_len v); [done|].
    destruct (split_once "/" v) as [[l r]|]; cbn [fmap option_fmap option_map prod_map fst snd ok_or reject_if mbind result_bind]; [|done].
    rewrite (proj2 (to_ascii_lowercase_bytes _ r (fun a => ltac:(by rewrite (Ascii.eqb_sym "/"), lowercase_slash, Ascii.eqb_sym)))).
    destruct (any_byte _ r); cbn; [done|].
    by rewrite !to_ascii_lowercase_length, !(proj1 (to_ascii_lowercase_bytes _ _ lowercase_token)). }
  split.
  - intros t Ht. pose proof Ht as Ht'. unfold FileMediaType_new in Ht. apply result_bind_Ok in Ht as ([] & Hv & [= <-]).
    unfold validate_media_type in Hv. apply result_bind_Ok in Hv as ([] & Hlen%reject_if_Ok%N.ltb_ge & Hv).
    apply result_bind_Ok in Hv as ([l r] & Hs & Htok%reject_if_Ok). unfold split_media_type in Hs.
    apply result_bind_Ok in Hs as ([l' r'] & Hs%ok_or_Ok%split_slash_Some & ([] & _ & [= <- <-])%result_bind_Ok).
    destruct Hs as [-> _]. apply orb_false_iff in Htok as [H1%negb_false_iff H2%negb_false_iff].
    split; [done|]. exists l', r'. split_and!; try done. cbn. by rewrite Hlow.
  - intros H. by rewrite <- (Hlow value), <- (Hlow value'), H.
Qed.
