(* ===== verification/ApiAudio.v ===== *)
(** * Generated audio

    Models [audio.rs] and [audio/generated.rs] of
    [crates/optional/ariadnion-api-domain/src]: chunks, texts and voices, output layouts, and
    complete generated audio with the parser of its WAV header.  Shown: audio is accepted
    exactly when its bytes are the canonical file of some samples in the requested layout,
    within the bounds on bytes and duration. *)

From Stdlib Require Import Ascii.
From Stdlib Require Strings.Byte.
From S2P Require Import Prelude CoreTypes Identity Encoding ApiValues.
#[local] Open Scope N_scope.
#[local] Open Scope record_scope.

Definition MAX_AUDIO_TEXT_BYTES : N := 262144.
Definition MAX_AUDIO_VOICE_SELECTOR_BYTES : N := 128.
Definition MAX_AUDIO_CHUNK_BYTES : N := 65536.
Definition WAV_HEADER_BYTES : N := 44.
Definition PCM_FORMAT_CODE : N := 1.
Definition PCM_BITS_PER_SAMPLE : N := 16.
Definition PCM_BYTES_PER_SAMPLE : N := PCM_BITS_PER_SAMPLE / 8.
Definition MAX_GENERATED_AUDIO_BYTES : N := 16777216.
Definition MAX_AUDIO_DURATION_MILLIS : N := 600000.

(** ** Values *)

Record AudioChunk := MkAudioChunk { chunk_bytes : list Byte.byte }.
Record AudioText := MkAudioText { audio_text_str : string }.
Record AudioVoiceSelector := MkAudioVoiceSelector { voice_str : string }.
Inductive AudioSampleRate := Hz8000 | Hz16000 | Hz24000 | Hz48000.
Inductive AudioChannelCount := Mono | Stereo.
Inductive AudioMediaType : Set := WavPcm16.
Record AudioOutputSpecification := mk_AudioOutputSpecification {
  spec_media_type : AudioMediaType; spec_sample_rate : AudioSampleRate; spec_channel_count : AudioChannelCount;
}.

Definition AudioChunk_new (bytes : list Byte.byte) : outcome AudioChunk :=
  reject_if (MAX_AUDIO_CHUNK_BYTES <? len bytes) limit_exceeded ;;
  reject_if (len bytes =? 0) invalid_argument ;;
  mret (MkAudioChunk bytes).
Definition validate_audio_text (value : string) : outcome unit :=
  bounded MAX_AUDIO_TEXT_BYTES (byte_len value) (is_empty value || contains_nul value).
Definition AudioText_new (value : string) : outcome AudioText :=
  validate_audio_text value ;; mret (MkAudioText value).
Definition validate_voice_selector (value : string) : outcome unit :=
  reject_if (MAX_AUDIO_VOICE_SELECTOR_BYTES <? byte_len value) limit_exceeded ;;
  reject_if (is_empty value || negb (is_ascii value)) invalid_argument ;;
  reject_if (negb (all_bytes is_visible_ascii value)) invalid_argument.
Definition AudioVoiceSelector_new (value : string) : outcome AudioVoiceSelector :=
  validate_voice_selector value ;; mret (MkAudioVoiceSelector value).

Definition as_hz (rate : AudioSampleRate) : N :=
  match rate with Hz8000 => 8000 | Hz16000 => 16000 | Hz24000 => 24000 | Hz48000 => 48000 end.
Definition as_u16 (count : AudioChannelCount) : N := match count with Mono => 1 | Stereo => 2 end.

(** ** The WAV header *)

Record WavHeader := mk_WavHeader {
  riff_bytes : N; format_bytes : N; format_code : N; channels : N; sample_rate : N;
  byte_rate : N; block_align : N; bits_per_sample : N; data_bytes : N;
}.

(** [from_le_bytes]. *)
Fixpoint from_le_bytes (bytes : list Byte.byte) : N :=
  match bytes with [] => 0 | b :: rest => Byte.to_N b + 256 * from_le_bytes rest end.
(** Indexing beyond the slice would panic; every offset read is below the length of the
    header, which is checked first. *)
Definition byte_at (bytes : list Byte.byte) (offset : nat) : Byte.byte := nth offset bytes Byte.x00.
Definition read_u16 (bytes : list Byte.byte) (offset : nat) : N :=
  from_le_bytes [byte_at bytes offset; byte_at bytes (offset + 1)].
Definition read_u32 (bytes : list Byte.byte) (offset : nat) : N :=
  from_le_bytes [byte_at bytes offset; byte_at bytes (offset + 1); byte_at bytes (offset + 2); byte_at bytes (offset + 3)].
(** [&bytes[from..to]]. *)
Definition slice (bytes : list Byte.byte) (from to : nat) : list Byte.byte := take (to - from) (drop from bytes).

Definition has_canonical_chunk_identifiers (bytes : list Byte.byte) : bool :=
  bool_decide (slice bytes 0 4 = as_bytes "RIFF") && bool_decide (slice bytes 8 12 = as_bytes "WAVE")
  && bool_decide (slice bytes 12 16 = as_bytes "fmt ") && bool_decide (slice bytes 36 40 = as_bytes "data").
Definition validate_chunk_identifiers (bytes : list Byte.byte) : outcome unit :=
  reject_if (negb (has_canonical_chunk_identifiers bytes)) invalid_argument.
Definition parse_wav_header (bytes : list Byte.byte) : outcome WavHeader :=
  reject_if (len bytes <? WAV_HEADER_BYTES) invalid_argument ;;
  validate_chunk_identifiers bytes ;;
  mret (mk_WavHeader (read_u32 bytes 4) (read_u32 bytes 16) (read_u16 bytes 20) (read_u16 bytes 22) (read_u32 bytes 24)
          (read_u32 bytes 28) (read_u16 bytes 32) (read_u16 bytes 34) (read_u32 bytes 40)).

Definition has_canonical_pcm_header (header : WavHeader) : bool :=
  (format_bytes header =? 16) && (format_code header =? PCM_FORMAT_CODE)
  && (bits_per_sample header =? PCM_BITS_PER_SAMPLE) && negb (data_bytes header =? 0).
Definition validate_pcm_header (header : WavHeader) : outcome unit :=
  reject_if (negb (has_canonical_pcm_header header)) invalid_argument.

(** [u32::try_from]. *)
Definition to_u32 (n : N) : outcome N := if n <=? u32_max then Ok n else Err limit_exceeded.
Definition expected_wav_lengths (encoded_bytes : N) : outcome (N * N) :=
  riff_bytes ← to_u32 (encoded_bytes - 8);
  data_bytes ← to_u32 (encoded_bytes - WAV_HEADER_BYTES);
  mret (riff_bytes, data_bytes).
Definition has_canonical_wav_lengths (header : WavHeader) (expected_riff expected_data : N) : bool :=
  (riff_bytes header =? expected_riff) && (data_bytes header =? expected_data)
  && negb (block_align header =? 0) && (data_bytes header mod block_align header =? 0).
Definition validate_wav_lengths (header : WavHeader) (encoded_bytes : N) : outcome unit :=
  '(expected_riff, expected_data) ← expected_wav_lengths encoded_bytes;
  reject_if (negb (has_canonical_wav_lengths header expected_riff expected_data)) invalid_argument.

Definition expected_block_align (channel_count : AudioChannelCount) : N := as_u16 channel_count * PCM_BYTES_PER_SAMPLE.
Definition validate_requested_layout (header : WavHeader) (rate : AudioSampleRate) (channel_count : AudioChannelCount) : outcome unit :=
  expected_byte_rate ← ok_or (checked_mul u32_max (as_hz rate) (expected_block_align channel_count)) limit_exceeded;
  reject_if (negb (sample_rate header =? as_hz rate) || negb (channels header =? as_u16 channel_count)) invalid_argument ;;
  reject_if (negb (block_align header =? expected_block_align channel_count) || negb (byte_rate header =? expected_byte_rate)) invalid_argument.
Definition checked_duration_millis (header : WavHeader) : outcome N :=
  let frames := data_bytes header / block_align header in
  scaled ← ok_or (checked_mul u64_max frames 1000) limit_exceeded;
  rounded ← ok_or (checked_add u64_max scaled (sample_rate header - 1)) limit_exceeded;
  let duration_millis := rounded / sample_rate header in
  reject_if (MAX_AUDIO_DURATION_MILLIS <? duration_millis) limit_exceeded ;;
  mret duration_millis.

(** ** Generated audio *)

Record GeneratedAudio := mk_GeneratedAudio {
  media_type : AudioMediaType; audio_sample_rate : AudioSampleRate; channel_count : AudioChannelCount;
  duration_millis : N; audio_bytes : list Byte.byte;
}.
(** [bind_canonical_wav_media_type] is an exhaustive match without effect.  The source
    subtracts and indexes slices without checks where its guards make that safe ([encoded_bytes
    - 8], [encoded_bytes - WAV_HEADER_BYTES], [sample_rate - 1], the header fields): the model
    is total there (truncated subtraction, a default byte), with the same guards before. *)
Definition GeneratedAudio_new (media_type : AudioMediaType) (rate : AudioSampleRate) (channel_count : AudioChannelCount)
    (bytes : list Byte.byte) : outcome GeneratedAudio :=
  reject_if (MAX_GENERATED_AUDIO_BYTES <? len bytes) limit_exceeded ;;
  header ← parse_wav_header bytes;
  validate_pcm_header header ;;
  validate_wav_lengths header (len bytes) ;;
  validate_requested_layout header rate channel_count ;;
  duration_millis ← checked_duration_millis header;
  mret (mk_GeneratedAudio media_type rate channel_count duration_millis bytes).

(** [response.rs], [request.rs] and [stream.rs] for audio. *)
Record AudioServiceResponse := mk_AudioServiceResponse { audio_version : ServiceContractVersion; response_audio : GeneratedAudio }.
Record AudioServiceRequest := mk_AudioServiceRequest {
  audio_request_version : ServiceContractVersion; audio_request_model : ModelSelector; audio_request_input : AudioText;
  audio_request_voice : AudioVoiceSelector; audio_request_output : AudioOutputSpecification;
  audio_request_mode : ResponseMode; audio_request_key : option IdempotencyKey;
}.
Inductive AudioStreamEvent :=
| AudioStarted (version : ServiceContractVersion) (output_specification : AudioOutputSpecification)
| AudioChunkEvent (chunk : AudioChunk)
| AudioCompleted
| AudioFailed (error : ApiDomainError).
Inductive ServiceRequest :=
| TextRequest (request : TextServiceRequest) | ChatRequest (request : ChatServiceRequest)
| EmbeddingRequest (request : EmbeddingServiceRequest) | ImageRequest (request : ImageServiceRequest)
| AudioRequest (request : AudioServiceRequest).
Inductive ServiceResponse :=
| TextResponse (response : TextServiceResponse) | ChatResponse (response : ChatServiceResponse)
| EmbeddingResponse (response : EmbeddingServiceResponse) | ImageResponse (response : ImageServiceResponse)
| AudioResponse (response : AudioServiceResponse).
Inductive ServiceStreamEvent :=
| TextStream (event : TextStreamEvent) | ChatStream (event : ChatStreamEvent) | AudioStream (event : AudioStreamEvent).

(** ** Specification *)

(** The [width] low bytes of a number, the least significant first. *)
Fixpoint to_le_bytes (width : nat) (n : N) : list Byte.byte :=
  match width with O => [] | S w => byte_of n :: to_le_bytes w (n / 256) end.
(** The canonical file of some samples. *)
Definition wav_file (rate : AudioSampleRate) (channel_count : AudioChannelCount) (data : list Byte.byte) : list Byte.byte :=
  let align := expected_block_align channel_count in
  as_bytes "RIFF" ++ to_le_bytes 4 (36 + len data) ++ as_bytes "WAVE"
  ++ as_bytes "fmt " ++ to_le_bytes 4 16 ++ to_le_bytes 2 1 ++ to_le_bytes 2 (as_u16 channel_count)
  ++ to_le_bytes 4 (as_hz rate) ++ to_le_bytes 4 (as_hz rate * align) ++ to_le_bytes 2 align ++ to_le_bytes 2 16
  ++ as_bytes "data" ++ to_le_bytes 4 (len data) ++ data.
(** The header that the canonical file has. *)
Definition wav_header (rate : AudioSampleRate) (channel_count : AudioChannelCount) (n : N) : WavHeader :=
  let align := expected_block_align channel_count in
  mk_WavHeader (36 + n) 16 1 (as_u16 channel_count) (as_hz rate) (as_hz rate * align) align 16 n.
(** The duration of [frames] frames, rounded up. *)
Definition millis_of (rate : AudioSampleRate) (frames : N) : N := (frames * 1000 + (as_hz rate - 1)) / as_hz rate.
Definition wav_ok (rate : AudioSampleRate) (channel_count : AudioChannelCount) (data : list Byte.byte) : Prop :=
  data <> [] /\ len data mod expected_block_align channel_count = 0 /\
  WAV_HEADER_BYTES + len data <= MAX_GENERATED_AUDIO_BYTES /\
  millis_of rate (len data / expected_block_align channel_count) <= MAX_AUDIO_DURATION_MILLIS.

(** ** Lemmas *)

Lemma from_to_le_bytes width n : n < 256 ^ N.of_nat width -> from_le_bytes (to_le_bytes width n) = n.
Proof.
  revert n. induction width as [|w IH]; intros n Hn.
  - cbn in *. lia.
  - cbn -[N.div N.pow]. rewrite Nat2N.inj_succ, N.pow_succ_r' in Hn. rewrite to_N_byte_of, IH by (apply N.div_lt_upper_bound; lia).
    rewrite (N.div_mod n 256) at 3 by lia. lia.
Qed.
Lemma byte_of_to_N b : byte_of (Byte.to_N b) = b.
Proof. by destruct b. Qed.
Lemma byte_of_mod n m : n mod 256 = m mod 256 -> byte_of n = byte_of m.
Proof. intros H. unfold byte_of. by rewrite H. Qed.
Lemma to_from_le_bytes bytes : to_le_bytes (length bytes) (from_le_bytes bytes) = bytes.
Proof.
  induction bytes as [|b bytes IH]; [done|]. cbn [length to_le_bytes from_le_bytes].
  pose proof (Byte.to_N_bounded b) as Hb. f_equal.
  - rewrite <- (byte_of_to_N b) at 2. apply byte_of_mod. rewrite N.mul_comm, N.Div0.mod_add. done.
  - rewrite N.mul_comm, N.div_add by lia. by rewrite N.div_small by lia.
Qed.
(** What was read as a number is its little-endian bytes. *)
Lemma read_u16_eq b0 b1 n : from_le_bytes [b0; b1] = n -> [b0; b1] = to_le_bytes 2 n.
Proof. intros <-. symmetry. apply (to_from_le_bytes [b0; b1]). Qed.
Lemma read_u32_eq b0 b1 b2 b3 n : from_le_bytes [b0; b1; b2; b3] = n -> [b0; b1; b2; b3] = to_le_bytes 4 n.
Proof. intros <-. symmetry. apply (to_from_le_bytes [b0; b1; b2; b3]). Qed.

Lemma expected_block_align_pos c : 2 <= expected_block_align c <= 4.
Proof. by destruct c. Qed.
Lemma as_hz_bounds r : 8000 <= as_hz r <= 48000.
Proof. by destruct r. Qed.

Lemma split_header (bytes : list Byte.byte) : WAV_HEADER_BYTES <= len bytes ->
  exists header data, bytes = header ++ data /\ length header = 44%nat.
Proof.
  intros H. exists (take 44 bytes), (drop 44 bytes). split; [by rewrite take_drop|].
  rewrite length_take. unfold len, WAV_HEADER_BYTES in H. lia.
Qed.

Lemma len_wav_file rate c data : len (wav_file rate c data) = WAV_HEADER_BYTES + len data.
Proof. change (N.of_nat (44 + length data) = 44 + N.of_nat (length data)). lia. Qed.

Lemma parse_wav_file rate c data : len data <= MAX_GENERATED_AUDIO_BYTES ->
  parse_wav_header (wav_file rate c data) = Ok (wav_header rate c (len data)).
Proof.
  intros Hlen. unfold parse_wav_header. rewrite len_wav_file.
  destruct (N.ltb_spec (WAV_HEADER_BYTES + len data) WAV_HEADER_BYTES) as [H|_]; [lia|].
  pose proof (expected_block_align_pos c). pose proof (as_hz_bounds rate). unfold MAX_GENERATED_AUDIO_BYTES in Hlen.
  assert (as_hz rate * expected_block_align c <= 192000) by (by destruct rate, c).
  assert (forall n, n < 2 ^ 32 -> from_le_bytes (to_le_bytes 4 n) = n) as H4 by (intros n ?; by apply from_to_le_bytes).
  assert (forall n, n < 2 ^ 16 -> from_le_bytes (to_le_bytes 2 n) = n) as H2 by (intros n ?; by apply from_to_le_bytes).
  change (2 ^ 32) with 4294967296 in H4. change (2 ^ 16) with 65536 in H2.
  assert (validate_chunk_identifiers (wav_file rate c data) = Ok tt) as ->.
  { unfold validate_chunk_identifiers, has_canonical_chunk_identifiers. by rewrite !bool_decide_eq_true_2. }
  cbn [reject_if mbind result_bind]. unfold wav_header. unfold mret, result_ret. f_equal. f_equal.
  - apply (H4 (36 + len data)). lia.
  - apply (H2 (as_u16 c)). by destruct c.
  - apply (H4 (as_hz rate)). lia.
  - apply (H4 (as_hz rate * expected_block_align c)). lia.
  - apply (H2 (expected_block_align c)). lia.
  - apply (H4 (len data)). lia.
Qed.

Lemma parsed_wav_file rate c bytes n : parse_wav_header bytes = Ok (wav_header rate c n) -> len bytes = WAV_HEADER_BYTES + n ->
  exists data, bytes = wav_file rate c data /\ len data = n.
Proof.
  unfold parse_wav_header. intros ([] & Hlen%reject_if_Ok%N.ltb_ge & ([] & Hid%reject_if_Ok & Hh)%result_bind_Ok)%result_bind_Ok Hn.
  destruct (split_header bytes Hlen) as (header & data & -> & Hheader).
  do 44 (destruct header as [|? header]; [discriminate Hheader|]). destruct header; [|discriminate Hheader]. clear Hheader Hlen.
  assert (len data = n) as <- by (unfold len, WAV_HEADER_BYTES in *; cbn [app length] in Hn; lia). clear Hn.
  exists data. split; [|done]. apply negb_false_iff in Hid. unfold has_canonical_chunk_identifiers, slice in Hid.
  cbn [Nat.sub take drop app] in Hid. rewrite !andb_true_iff, !bool_decide_eq_true in Hid. destruct Hid as [[[H1 H2] H3] H4].
  cbn [mret result_ret] in Hh. injection Hh as Hr Hf Hfc Hc Hsr Hbr Hba Hbps Hd.
  apply read_u32_eq in Hr, Hf, Hsr, Hbr, Hd. apply read_u16_eq in Hfc, Hc, Hba, Hbps.
  unfold wav_file. rewrite <- H1, <- H2, <- H3, <- H4, <- Hr, <- Hf, <- Hsr, <- Hbr, <- Hd, <- Hfc, <- Hc, <- Hba, <- Hbps. reflexivity.
Qed.

Lemma checks_exact rate c h n : n <= MAX_GENERATED_AUDIO_BYTES ->
  (validate_pcm_header h = Ok tt /\ validate_wav_lengths h (WAV_HEADER_BYTES + n) = Ok tt /\ validate_requested_layout h rate c = Ok tt) <->
  (h = wav_header rate c n /\ n <> 0 /\ n mod expected_block_align c = 0).
Proof.
  intros Hn. unfold MAX_GENERATED_AUDIO_BYTES in Hn. pose proof (expected_block_align_pos c) as Ha.
  assert (expected_wav_lengths (WAV_HEADER_BYTES + n) = Ok (36 + n, n)) as Hl.
  { unfold expected_wav_lengths, to_u32, WAV_HEADER_BYTES, u32_max. replace (44 + n - 8) with (36 + n) by lia. replace (44 + n - 44) with n by lia.
    rewrite (proj2 (N.leb_le (36 + n) _)) by lia. cbn. by rewrite (proj2 (N.leb_le n _)) by lia. }
  assert (checked_mul u32_max (as_hz rate) (expected_block_align c) = Some (as_hz rate * expected_block_align c)) as Hm by by destruct rate, c.
  unfold validate_pcm_header, validate_wav_lengths, validate_requested_layout, has_canonical_pcm_header, has_canonical_wav_lengths.
  rewrite Hl, Hm. cbn [ok_or mbind result_bind]. rewrite !reject_if_Ok. split.
  - intros (H1%negb_false_iff & H2%negb_false_iff & ([] & H3%reject_if_Ok & H4%reject_if_Ok)%result_bind_Ok).
    rewrite !andb_true_iff, !N.eqb_eq in H1, H2. rewrite !orb_false_iff, !negb_false_iff, !N.eqb_eq in H3, H4.
    rewrite !negb_true_iff, !N.eqb_neq in H1, H2. destruct h. unfold wav_header, PCM_FORMAT_CODE, PCM_BITS_PER_SAMPLE in *. cbn in *.
    destruct H1 as [[[? ?] ?] ?], H2 as [[[? ?] ?] ?], H3, H4. by subst.
  - intros (-> & H0 & Hmod). unfold wav_header. cbn -[N.mul N.add expected_block_align N.modulo].
    rewrite Hmod, !N.eqb_refl, (proj2 (N.eqb_neq n 0) H0), (proj2 (N.eqb_neq (expected_block_align c) 0)) by lia. by destruct c.
Qed.

Lemma duration_exact rate c n : n <= MAX_GENERATED_AUDIO_BYTES ->
  checked_duration_millis (wav_header rate c n) =
  if MAX_AUDIO_DURATION_MILLIS <? millis_of rate (n / expected_block_align c) then Err limit_exceeded
  else Ok (millis_of rate (n / expected_block_align c)).
Proof.
  intros Hn. pose proof (expected_block_align_pos c). pose proof (as_hz_bounds rate). unfold MAX_GENERATED_AUDIO_BYTES in Hn.
  assert (n / expected_block_align c <= n) by (apply N.Div0.div_le_upper_bound; nia).
  unfold checked_duration_millis, wav_header. cbn [data_bytes block_align sample_rate].
  assert (checked_mul u64_max (n / expected_block_align c) 1000 = Some (n / expected_block_align c * 1000)) as ->
    by (apply checked_mul_Some; unfold u64_max; lia).
  cbn [ok_or mbind result_bind].
  assert (checked_add u64_max (n / expected_block_align c * 1000) (as_hz rate - 1) = Some (n / expected_block_align c * 1000 + (as_hz rate - 1))) as ->
    by (apply checked_add_Some; unfold u64_max; lia).
  cbn [ok_or mbind result_bind]. fold (millis_of rate (n / expected_block_align c)). by destruct (MAX_AUDIO_DURATION_MILLIS <? _).
Qed.

(** ** Theorems *)

(** C32: Bytes are accepted as generated audio exactly when they are the canonical WAV file of
    some samples in the requested layout: at least one frame, whole frames, at most 16 MiB
    and at most ten minutes; the recorded duration is that of the frames, rounded up to a
    millisecond.  Parsing and printing the file are inverse, and no arithmetic overflows. *)
Theorem generated_audio_exact (mt : AudioMediaType) (rate : AudioSampleRate) (c : AudioChannelCount)
    (bytes : list Byte.byte) (a : GeneratedAudio) :
  GeneratedAudio_new mt rate c bytes = Ok a <->
  exists data, bytes = wav_file rate c data /\ wav_ok rate c data /\
    a = mk_GeneratedAudio mt rate c (millis_of rate (len data / expected_block_align c)) bytes.
Proof.
  unfold GeneratedAudio_new, wav_ok. split.
  - intros ([] & Hmax%reject_if_Ok%N.ltb_ge & (h & Hh & H)%result_bind_Ok)%result_bind_Ok.
    apply result_bind_Ok in H as ([] & H1 & ([] & H2 & ([] & H3 & (d & Hd & [= <-])%result_bind_Ok)%result_bind_Ok)%result_bind_Ok).
    pose proof Hh as Hlen. unfold parse_wav_header in Hlen. apply result_bind_Ok in Hlen as ([] & Hlen%reject_if_Ok%N.ltb_ge & _).
    set (n := len bytes - WAV_HEADER_BYTES). assert (len bytes = WAV_HEADER_BYTES + n) as Hn by (subst n; lia).
    assert (n <= MAX_GENERATED_AUDIO_BYTES) as Hb by lia. rewrite Hn in H2.
    destruct (proj1 (checks_exact rate c h n Hb)) as (-> & H0 & Hmod); [done|].
    destruct (parsed_wav_file rate c bytes n Hh Hn) as (data & -> & Hdata). rewrite (duration_exact rate c n Hb) in Hd.
    destruct (N.ltb_spec MAX_AUDIO_DURATION_MILLIS (millis_of rate (n / expected_block_align c))) as [|Hdur]; [done|]. injection Hd as <-.
    exists data. rewrite Hdata. split_and!; try done; [by intros -> | lia].
  - intros (data & -> & (Hne & Hmod & Hmax & Hdur) & ->). rewrite len_wav_file.
    rewrite (proj2 (N.ltb_ge MAX_GENERATED_AUDIO_BYTES _)) by lia. cbn [reject_if mbind result_bind].
    rewrite parse_wav_file by lia. cbn [mbind result_bind].
    assert (len data <> 0) as H0 by (destruct data; [done | unfold len; cbn; lia]).
    destruct (proj2 (checks_exact rate c (wav_header rate c (len data)) (len data) ltac:(lia))) as (-> & -> & ->); [done|].
    cbn [mbind result_bind]. rewrite duration_exact by lia. by rewrite (proj2 (N.ltb_ge _ _) Hdur).
Qed.

(** Four stereo frames at 8 kHz. *)
Definition sample_data : list Byte.byte := repeat (byte_of 7) 16.
Example sample_audio : duration_millis <$> GeneratedAudio_new WavPcm16 Hz8000 Stereo (wav_file Hz8000 Stereo sample_data) = Ok 1.
Proof. by vm_compute. Qed.
