(* ===== verification/ApiRealtime.v ===== *)
(** * Realtime sessions

    Models [realtime.rs] of [crates/optional/ariadnion-api-domain/src]: identities, texts,
    conversation items, the events of both directions, and the state of a session.  Shown:
    after any sequence of calls the state is what the accepted calls make it, within its
    bounds, with at most one active response, and a closed session refuses every call. *)

From Stdlib Require Import Ascii.
From S2P Require Import Prelude CoreTypes Identity Encoding ApiValues.
From S2P Require ConfigDomain.
#[local] Open Scope N_scope.
#[local] Open Scope record_scope.

Definition MAX_REALTIME_SESSION_SECONDS : N := 60 * 60.
Definition MAX_REALTIME_CONVERSATION_ITEMS : N := 128.
Definition MAX_REALTIME_ACCEPTED_TEXT_BYTES : N := 1048576.
Definition MAX_REALTIME_FRAME_BYTES : N := 262144.
Definition MAX_REALTIME_INBOUND_QUEUE_EVENTS : N := 16.
Definition MAX_REALTIME_OUTBOUND_QUEUE_EVENTS : N := 16.
Definition MAX_REALTIME_CLIENT_EVENT_ID_BYTES : N := 512.
Definition MAX_REALTIME_RUNTIME_ID_BYTES : N := 256.
Definition MAX_REALTIME_CONTENT_PARTS : N := 128.

Definition conflict : ApiDomainError := mk_ApiDomainError Conflict.

(** ** Identities and texts *)

Definition validate_opaque (value : string) (maximum : N) : outcome unit :=
  reject_if (maximum <? byte_len value) limit_exceeded ;;
  reject_if (is_empty value || ConfigDomain.any_control value) invalid_argument.
Definition is_invalid_runtime_id_byte (byte : Ascii.ascii) : bool :=
  negb (is_ascii_alphanumeric byte) && negb (existsb (Ascii.eqb byte) ["-"; "_"; "."; ":"]%char).
Definition validate_runtime_id (value : string) : outcome unit :=
  validate_opaque value MAX_REALTIME_RUNTIME_ID_BYTES ;;
  reject_if (negb (is_ascii value) || any_byte is_invalid_runtime_id_byte value) invalid_argument.
Definition validate_text (value : string) (maximum : N) : outcome unit :=
  reject_if (maximum <? byte_len value) limit_exceeded ;;
  reject_if (is_empty value || contains_nul value) invalid_argument.

Record RealtimeClientEventId := MkRealtimeClientEventId { client_event_id_str : string }.
Record RealtimeSessionId := MkRealtimeSessionId { session_id_str : string }.
Record RealtimeResponseId := MkRealtimeResponseId { response_id_str : string }.
#[export] Instance RealtimeResponseId_eq_dec : EqDecision RealtimeResponseId.
Proof. solve_decision. Defined.
Record RealtimeSessionLifetime := MkRealtimeSessionLifetime { seconds : N }.
Record RealtimeInputText := MkRealtimeInputText { input_text_str : string }.
Record RealtimeTextFrame := MkRealtimeTextFrame { frame_str : string }.

Definition RealtimeClientEventId_new (value : string) : outcome RealtimeClientEventId :=
  validate_opaque value MAX_REALTIME_CLIENT_EVENT_ID_BYTES ;; mret (MkRealtimeClientEventId value).
Definition RealtimeSessionId_new (value : string) : outcome RealtimeSessionId :=
  validate_runtime_id value ;; mret (MkRealtimeSessionId value).
Definition RealtimeResponseId_new (value : string) : outcome RealtimeResponseId :=
  validate_runtime_id value ;; mret (MkRealtimeResponseId value).
Definition RealtimeSessionLifetime_new (seconds : N) : outcome RealtimeSessionLifetime :=
  reject_if (MAX_REALTIME_SESSION_SECONDS <? seconds) limit_exceeded ;;
  reject_if (seconds =? 0) invalid_argument ;;
  mret (MkRealtimeSessionLifetime seconds).
Definition RealtimeInputText_new (value : string) : outcome RealtimeInputText :=
  validate_text value MAX_REALTIME_FRAME_BYTES ;; mret (MkRealtimeInputText value).
Definition RealtimeTextFrame_new (value : string) : outcome RealtimeTextFrame :=
  validate_text value MAX_REALTIME_FRAME_BYTES ;; mret (MkRealtimeTextFrame value).

(** ** Conversation items *)

Inductive RealtimeInputContent := Text (value : RealtimeInputText) | File (value : FileReference).
Definition content_text_bytes (content : RealtimeInputContent) : N :=
  match content with Text value => byte_len (input_text_str value) | File _ => 0 end.

Record RealtimeConversationItem := mk_RealtimeConversationItem { item_content : list RealtimeInputContent; text_bytes : N }.

Definition checked_part_bytes (total : N) (part : RealtimeInputContent) : outcome N :=
  ok_or (checked_add u64_max total (content_text_bytes part)) limit_exceeded.
(** [content.iter().try_fold(total, checked_part_bytes)]. *)
Fixpoint checked_parts (total : N) (content : list RealtimeInputContent) : outcome N :=
  match content with
  | [] => Ok total
  | part :: rest => total ← checked_part_bytes total part; checked_parts total rest
  end.
Definition RealtimeConversationItem_new (content : list RealtimeInputContent) : outcome RealtimeConversationItem :=
  reject_if (len content =? 0) invalid_argument ;;
  reject_if (MAX_REALTIME_CONTENT_PARTS <? len content) limit_exceeded ;;
  text_bytes ← checked_parts 0 content;
  reject_if (MAX_REALTIME_FRAME_BYTES <? text_bytes) limit_exceeded ;;
  mret (mk_RealtimeConversationItem content text_bytes).

(** ** Events *)

Record RealtimeResponseCreate := mk_RealtimeResponseCreate { output_token_limit : option OutputTokenLimit }.
Record RealtimeResponseCancel := mk_RealtimeResponseCancel { cancel_response_id : option RealtimeResponseId }.
Inductive RealtimeClientEvent :=
| SessionUpdate
| ConversationItemCreate (item : RealtimeConversationItem)
| ResponseCreate (create : RealtimeResponseCreate)
| ResponseCancel (cancel : RealtimeResponseCancel).
Record RealtimeInboundEvent := mk_RealtimeInboundEvent {
  inbound_correlation_id : option RealtimeClientEventId; inbound_event : RealtimeClientEvent; inbound_frame : RealtimeTextFrame;
}.
Record RealtimeSessionOpenRequest := mk_RealtimeSessionOpenRequest {
  open_model : ModelSelector; open_lifetime : RealtimeSessionLifetime; default_output_token_limit : OutputTokenLimit;
}.
Record RealtimeSessionDescriptor := mk_RealtimeSessionDescriptor {
  descriptor_id : RealtimeSessionId; descriptor_request : RealtimeSessionOpenRequest;
}.
Definition inbound_queue_limit (_ : RealtimeSessionOpenRequest) : N := MAX_REALTIME_INBOUND_QUEUE_EVENTS.
Definition outbound_queue_limit (_ : RealtimeSessionOpenRequest) : N := MAX_REALTIME_OUTBOUND_QUEUE_EVENTS.
Inductive RealtimeSessionCloseReason := CloseExpired | CloseCancelled | ProtocolDesynchronized | CloseUnavailable | CloseInternal.
Inductive RealtimeResponseFinishReason :=
| ResponseCompleted | ResponseOutputLimitReached | ResponseContentFiltered | ResponseCancelled.
Inductive RealtimeServerEvent :=
| SessionCreated (descriptor : RealtimeSessionDescriptor)
| SessionUpdated
| ResponseCreated (response_id : RealtimeResponseId)
| ResponseOutputItemAdded (response_id : RealtimeResponseId)
| ResponseContentPartAdded (response_id : RealtimeResponseId)
| ResponseOutputTextDelta (response_id : RealtimeResponseId) (delta : TextDelta)
| ResponseOutputTextDone (response_id : RealtimeResponseId)
| ResponseContentPartDone (response_id : RealtimeResponseId)
| ResponseOutputItemDone (response_id : RealtimeResponseId)
| ResponseDone (response_id : RealtimeResponseId) (finish_reason : RealtimeResponseFinishReason)
| RateLimitsUpdated
| ServerError (correlation_id : option RealtimeClientEventId) (error : ApiDomainError).
Record RealtimeOutboundEvent := mk_RealtimeOutboundEvent { outbound_event : RealtimeServerEvent; outbound_frame : RealtimeTextFrame }.

(** ** The session state *)

Record RealtimeSessionState := mk_RealtimeSessionState {
  conversation_items : N; accepted_text_bytes : N; active_response : option RealtimeResponseId; closed : bool;
}.
#[export] Instance RealtimeSessionState_eta : Eta RealtimeSessionState :=
  fun s => mk_RealtimeSessionState (conversation_items s) (accepted_text_bytes s) (active_response s) (closed s).

Notation session A := (act RealtimeSessionState ApiDomainError A).

Definition RealtimeSessionState_new : RealtimeSessionState := mk_RealtimeSessionState 0 0 None false.
Definition require_open : session unit := query (fun s => reject_if (closed s) conflict).
(** The items are counted below their limit, so the plain addition does not overflow. *)
Definition accept_conversation_item (item : RealtimeConversationItem) : session unit :=
  require_open ;;
  s ← get;
  lift (reject_if (MAX_REALTIME_CONVERSATION_ITEMS <=? conversation_items s) limit_exceeded) ;;
  total ← lift (ok_or (checked_add u64_max (accepted_text_bytes s) (text_bytes item)) limit_exceeded);
  lift (reject_if (MAX_REALTIME_ACCEPTED_TEXT_BYTES <? total) limit_exceeded) ;;
  put (s <| conversation_items := conversation_items s + 1 |> <| accepted_text_bytes := total |>).
Definition start_response (response_id : RealtimeResponseId) : session unit :=
  require_open ;;
  s ← get;
  lift (reject_if (bool_decide (is_Some (active_response s))) conflict) ;;
  put (s <| active_response := Some response_id |>).
Definition cancel_response (requested : option RealtimeResponseId) : session RealtimeResponseId :=
  require_open ;;
  s ← get;
  active ← lift (ok_or (active_response s) conflict);
  lift (reject_if (is_some_and (fun value => negb (bool_decide (value = active))) requested) conflict) ;;
  mret active.
Definition finish_response (response_id : RealtimeResponseId) : session unit :=
  require_open ;;
  s ← get;
  lift (reject_if (negb (bool_decide (active_response s = Some response_id))) conflict) ;;
  put (s <| active_response := None |>).
Definition close : session unit := modify (fun s => s <| active_response := None |> <| closed := true |>).

(** ** Specification *)

Inductive SessionCall :=
| AcceptItem (item : RealtimeConversationItem)
| StartResponse (response_id : RealtimeResponseId)
| CancelResponse (requested : option RealtimeResponseId)
| FinishResponse (response_id : RealtimeResponseId)
| CloseSession.

(** A call, with the response a cancellation names. *)
Definition serve (call : SessionCall) : session (option RealtimeResponseId) :=
  match call with
  | AcceptItem item => accept_conversation_item item ;; mret None
  | StartResponse response_id => start_response response_id ;; mret None
  | CancelResponse requested => active ← cancel_response requested; mret (Some active)
  | FinishResponse response_id => finish_response response_id ;; mret None
  | CloseSession => close ;; mret None
  end.
(** The state after some calls and the calls that were accepted. *)
Fixpoint serve_all (calls : list SessionCall) (s : RealtimeSessionState) : RealtimeSessionState * list SessionCall :=
  match calls with
  | [] => (s, [])
  | call :: rest =>
      let '(s', r) := serve call s in
      let '(s'', accepted) := serve_all rest s' in
      (s'', if is_ok r then call :: accepted else accepted)
  end.

(** What the accepted calls make of a session, by themselves. *)
Definition items_of (calls : list SessionCall) : list RealtimeConversationItem :=
  omap (fun call => match call with AcceptItem item => Some item | _ => None end) calls.
Fixpoint active_after (active : option RealtimeResponseId) (calls : list SessionCall) : option RealtimeResponseId :=
  match calls with
  | [] => active
  | StartResponse response_id :: rest => active_after (Some response_id) rest
  | FinishResponse _ :: rest | CloseSession :: rest => active_after None rest
  | _ :: rest => active_after active rest
  end.
Definition closes (call : SessionCall) : bool := match call with CloseSession => true | _ => false end.

(** The calls that the contract allows, given the accepted ones before them. *)
Definition allowed (past : list SessionCall) (call : SessionCall) : option ApiDomainError :=
  let active := active_after None past in
  if closes call then None
  else if existsb closes past then Some conflict
  else match call with
       | AcceptItem item =>
           if MAX_REALTIME_CONVERSATION_ITEMS <=? len (items_of past) then Some limit_exceeded
           else if MAX_REALTIME_ACCEPTED_TEXT_BYTES <? sum_of text_bytes (items_of past) + text_bytes item then Some limit_exceeded
           else None
       | StartResponse _ => if bool_decide (active = None) then None else Some conflict
       | CancelResponse requested =>
           match active with
           | None => Some conflict
           | Some active => if bool_decide (requested = None \/ requested = Some active) then None else Some conflict
           end
       | FinishResponse response_id => if bool_decide (active = Some response_id) then None else Some conflict
       | CloseSession => None
       end.
(** The accepted ones of some calls, by the contract. *)
Fixpoint accepted_by (past calls : list SessionCall) : list SessionCall :=
  match calls with
  | [] => past
  | call :: rest => accepted_by (match allowed past call with None => past ++ [call] | Some _ => past end) rest
  end.
(** The state as a function of the accepted calls. *)
Definition state_of (past : list SessionCall) : RealtimeSessionState :=
  mk_RealtimeSessionState (len (items_of past)) (sum_of text_bytes (items_of past)) (active_after None past) (existsb closes past).
(** Accepted calls keep the bounds, and only closing follows a close. *)
Definition within (past : list SessionCall) : Prop :=
  len (items_of past) <= MAX_REALTIME_CONVERSATION_ITEMS /\ sum_of text_bytes (items_of past) <= MAX_REALTIME_ACCEPTED_TEXT_BYTES /\
  forall before after, past = before ++ CloseSession :: after -> Forall (fun call => closes call = true) after.

(** ** Lemmas *)

Lemma checked_parts_total content total : checked_parts total content = checked_total content_text_bytes total content.
Proof.
  revert total. induction content as [|p l IH]; intros total; [done|]. cbn [checked_parts checked_total]. unfold checked_part_bytes.
  destruct (checked_add u64_max total (content_text_bytes p)) as [t|]; [apply IH | done].
Qed.

Lemma items_of_snoc past call : items_of (past ++ [call]) = items_of past ++ match call with AcceptItem item => [item] | _ => [] end.
Proof. unfold items_of. rewrite omap_app. by destruct call. Qed.
Lemma active_after_snoc past call active : active_after active (past ++ [call]) = active_after (active_after active past) [call].
Proof. revert active. induction past as [|c past IH]; intros active; [done|]. destruct c; cbn [app active_after]; apply IH. Qed.
Lemma state_of_snoc past call : state_of (past ++ [call]) =
  let s := state_of past in
  match call with
  | AcceptItem item => s <| conversation_items := conversation_items s + 1 |> <| accepted_text_bytes := accepted_text_bytes s + text_bytes item |>
  | StartResponse response_id => s <| active_response := Some response_id |>
  | CancelResponse _ => s
  | FinishResponse _ => s <| active_response := None |>
  | CloseSession => s <| active_response := None |> <| closed := true |>
  end.
Proof.
  unfold state_of. rewrite items_of_snoc, active_after_snoc, existsb_app, sum_of_app. unfold len. rewrite length_app.
  destruct call; cbn [active_after existsb closes sum_of foldr length]; rewrite ?orb_false_r, ?orb_true_r, ?Nat.add_0_r, ?N.add_0_r; cbn; try done.
  f_equal. lia.
Qed.

(** Every operation as one decision. *)
Lemma require_open_bind {A} s (f : unit -> session A) :
  (require_open ≫= f) s = if closed s then (s, Err conflict) else f tt s.
Proof. unfold require_open. destruct (closed s) eqn:H; unfold mbind, act_bind, query; by rewrite H. Qed.
Lemma act_lift_reject {A} s b e (f : unit -> session A) : (lift (reject_if b e) ≫= f) s = if b then (s, Err e) else f tt s.
Proof. by destruct b. Qed.
Lemma accept_run item s : accept_conversation_item item s =
  if closed s then (s, Err conflict)
  else if MAX_REALTIME_CONVERSATION_ITEMS <=? conversation_items s then (s, Err limit_exceeded)
  else if MAX_REALTIME_ACCEPTED_TEXT_BYTES <? accepted_text_bytes s + text_bytes item then (s, Err limit_exceeded)
  else (s <| conversation_items := conversation_items s + 1 |> <| accepted_text_bytes := accepted_text_bytes s + text_bytes item |>, Ok tt).
Proof.
  unfold accept_conversation_item. rewrite require_open_bind. destruct (closed s); [done|]. rewrite act_get_run, act_lift_reject.
  destruct (_ <=? conversation_items s); [done|]. unfold checked_add. destruct (N.leb_spec (accepted_text_bytes s + text_bytes item) u64_max) as [H|H].
  - cbn [ok_or]. rewrite act_lift_run, act_lift_reject. by destruct (_ <? _).
  - rewrite (proj2 (N.ltb_lt _ _)); [done|]. unfold u64_max, MAX_REALTIME_ACCEPTED_TEXT_BYTES in *. lia.
Qed.
Lemma start_run response_id s : start_response response_id s =
  if closed s then (s, Err conflict)
  else if bool_decide (active_response s = None) then (s <| active_response := Some response_id |>, Ok tt) else (s, Err conflict).
Proof.
  unfold start_response. rewrite require_open_bind. destruct (closed s); [done|]. rewrite act_get_run, act_lift_reject.
  by destruct (active_response s).
Qed.
Lemma cancel_run requested s : cancel_response requested s =
  if closed s then (s, Err conflict)
  else match active_response s with
       | None => (s, Err conflict)
       | Some active => if bool_decide (requested = None \/ requested = Some active) then (s, Ok active) else (s, Err conflict)
       end.
Proof.
  unfold cancel_response. rewrite require_open_bind. destruct (closed s); [done|]. rewrite act_get_run.
  destruct (active_response s) as [active|]; [|done]. cbn [ok_or]. rewrite act_lift_run, act_lift_reject.
  destruct requested as [v|]; cbn [is_some_and]; [|by rewrite bool_decide_eq_true_2 by (by left)].
  destruct (decide (v = active)) as [->|Hv].
  - by rewrite !bool_decide_eq_true_2 by naive_solver.
  - by rewrite !bool_decide_eq_false_2 by naive_solver.
Qed.
Lemma finish_run response_id s : finish_response response_id s =
  if closed s then (s, Err conflict)
  else if bool_decide (active_response s = Some response_id) then (s <| active_response := None |>, Ok tt) else (s, Err conflict).
Proof.
  unfold finish_response. rewrite require_open_bind. destruct (closed s); [done|]. rewrite act_get_run, act_lift_reject.
  by destruct (bool_decide _).
Qed.

Lemma serve_exact past call :
  match allowed past call with
  | Some e => serve call (state_of past) = (state_of past, Err e)
  | None => exists r, serve call (state_of past) = (state_of (past ++ [call]), Ok r) /\
                      match call with CancelResponse _ => r = active_after None past | _ => True end
  end.
Proof.
  unfold allowed. rewrite state_of_snoc. destruct call as [item|response_id|requested|response_id|]; cbn [serve closes]; [| | | |by eexists];
    unfold mbind, act_bind; rewrite ?accept_run, ?start_run, ?cancel_run, ?finish_run;
    change (closed (state_of past)) with (existsb closes past); change (active_response (state_of past)) with (active_after None past);
    change (conversation_items (state_of past)) with (len (items_of past)); change (accepted_text_bytes (state_of past)) with (sum_of text_bytes (items_of past));
    destruct (existsb closes past); try done.
  - destruct (_ <=? len _); [done|]. destruct (_ <? _); [done | by eexists].
  - case_bool_decide; [by eexists | done].
  - destruct (active_after None past) as [active|]; [|done]. case_bool_decide; [by eexists | done].
  - case_bool_decide; [by eexists | done].
Qed.

Lemma serve_all_exact calls past : exists acc,
  serve_all calls (state_of past) = (state_of (past ++ acc), acc) /\ accepted_by past calls = past ++ acc.
Proof.
  revert past. induction calls as [|call calls IH]; intros past.
  - exists []. by rewrite app_nil_r.
  - cbn [serve_all accepted_by]. pose proof (serve_exact past call) as Hc. destruct (allowed past call) as [e|].
    + rewrite Hc. destruct (IH past) as (acc & -> & ->). by exists acc.
    + destruct Hc as (r & -> & _). destruct (IH (past ++ [call])) as (acc & -> & ->).
      exists (call :: acc). by rewrite <- app_assoc.
Qed.

Lemma allowed_within past call : within past -> allowed past call = None -> within (past ++ [call]).
Proof.
  intros (Hi & Ht & Hc) Ha. unfold within. rewrite items_of_snoc, sum_of_app. unfold len in *. rewrite length_app. split_and!.
  1, 2: destruct call; cbn; try lia; unfold allowed in Ha; cbn [closes] in Ha; destruct (existsb closes past); [done|];
    destruct (N.leb_spec MAX_REALTIME_CONVERSATION_ITEMS (len (items_of past))); [done|]; unfold len in *;
    destruct (N.ltb_spec MAX_REALTIME_ACCEPTED_TEXT_BYTES (sum_of text_bytes (items_of past) + text_bytes item)); [done | lia].
  intros before after H. destruct after as [|x after _] using rev_ind; [constructor|].
  rewrite app_comm_cons, app_assoc in H. apply app_inj_tail in H as [-> ->]. apply Forall_app. split; [by eapply Hc|].
  constructor; [|done]. unfold allowed in Ha. destruct (closes x); [done|]. rewrite existsb_app in Ha. cbn in Ha. by rewrite orb_true_r in Ha.
Qed.
Lemma accepted_by_within past calls : within past -> within (accepted_by past calls).
Proof.
  revert past. induction calls as [|call calls IH]; intros past Hw; [done|]. cbn [accepted_by]. apply IH.
  destruct (allowed past call) as [e|] eqn:Ha; [done | by apply allowed_within].
Qed.

(** ** Theorems *)

(** A session is the fold of its contract: whatever calls are made, in whatever order, the
    accepted ones are those that the contract allows, and the state is what they make of a
    new session: the number and the text of the accepted items, within 128 items and one
    mebibyte, and the response that was started last and not ended.  Nothing but another close is
    accepted once the session is closed. *)
Theorem session_refines_contract (calls : list SessionCall) :
  let accepted := accepted_by [] calls in
  serve_all calls RealtimeSessionState_new = (state_of accepted, accepted) /\
  len (items_of accepted) <= MAX_REALTIME_CONVERSATION_ITEMS /\
  sum_of text_bytes (items_of accepted) <= MAX_REALTIME_ACCEPTED_TEXT_BYTES /\
  (forall before after, accepted = before ++ CloseSession :: after -> Forall (fun call => closes call = true) after).
Proof.
  intros accepted. split.
  - destruct (serve_all_exact calls []) as (acc & H1 & H2). subst accepted. by rewrite H2.
  - apply accepted_by_within. split_and!; [done | done|]. intros before after H. by destruct before.
Qed.

(** An item is accepted within its bounds on parts and text; its recorded text is the sum. *)
Theorem conversation_item_exact (content : list RealtimeInputContent) :
  RealtimeConversationItem_new content =
  if len content =? 0 then Err invalid_argument else if MAX_REALTIME_CONTENT_PARTS <? len content then Err limit_exceeded
  else if MAX_REALTIME_FRAME_BYTES <? sum_of content_text_bytes content then Err limit_exceeded
  else Ok (mk_RealtimeConversationItem content (sum_of content_text_bytes content)).
Proof.
  unfold RealtimeConversationItem_new. destruct (len content =? 0); [done|]. destruct (MAX_REALTIME_CONTENT_PARTS <? len content); [done|].
  cbn [reject_if mbind result_bind]. rewrite checked_parts_total, checked_total_limited by by vm_compute. by destruct (MAX_REALTIME_FRAME_BYTES <? _).
Qed.

Definition sample_item : RealtimeConversationItem := mk_RealtimeConversationItem [Text (MkRealtimeInputText "hello")] 5.
Definition sample_calls : list SessionCall :=
  [AcceptItem sample_item; StartResponse (MkRealtimeResponseId "r1"); StartResponse (MkRealtimeResponseId "r2");
   CancelResponse None; FinishResponse (MkRealtimeResponseId "r1"); CloseSession; AcceptItem sample_item].
Example sample_session : serve_all sample_calls RealtimeSessionState_new =
  (mk_RealtimeSessionState 1 5 None true,
   [AcceptItem sample_item; StartResponse (MkRealtimeResponseId "r1"); CancelResponse None; FinishResponse (MkRealtimeResponseId "r1"); CloseSession]).
Proof. reflexivity. Qed.
