(* ===== verification/ApiBatch.v ===== *)
(** * Batch operations of the service interface

    Models [batch.rs] and [batch/timestamps.rs] of [crates/optional/ariadnion-api-domain/src]:
    error projections, endpoints, completion windows and statuses with their texts, input
    files with unique custom identities, requests, counts, timestamps and the evidence of an
    operation.  Shown: which input files are accepted and what the first fault is, what a
    create request promises of its lines, that texts parse back, and what an operation's
    status implies. *)

From Stdlib Require Import Ascii.
From S2P Require Import Prelude CoreTypes Identity Encoding ApiValues.
From S2P Require ConfigDomain.
#[local] Open Scope N_scope.
#[local] Open Scope record_scope.

Definition MAX_BATCH_INPUT_BYTES : N := 200 * 1024 * 1024.
Definition MAX_BATCH_REQUESTS : N := 50000.
Definition MAX_BATCH_CUSTOM_ID_BYTES : N := 512.
Definition MAX_BATCH_OPERATION_ID_BYTES : N := 128.
Definition MAX_BATCH_ERROR_ITEMS : N := 1000.
Definition DEFAULT_BATCH_LIST_LIMIT : N := 20.
Definition MAX_BATCH_LIST_LIMIT : N := 100.

(** ** Errors *)

Inductive ApiBatchErrorCode :=
| BatchInvalidArgument | BatchLimitExceeded | Unauthenticated | NotFound | BatchConflict | IntegrityFailure
| BatchCancelled | BatchDeadlineExceeded | BatchResourceExhausted | BatchUnavailable | BatchInternal.
#[export] Instance ApiBatchErrorCode_eq_dec : EqDecision ApiBatchErrorCode.
Proof. solve_decision. Defined.
Record ApiBatchError := mk_ApiBatchError { batch_code : ApiBatchErrorCode }.
#[export] Instance ApiBatchError_eq_dec : EqDecision ApiBatchError.
Proof. solve_decision. Defined.

Definition request_error_code (code : ApiBatchErrorCode) : string :=
  match code with
  | BatchInvalidArgument => "API_BATCH_INVALID_ARGUMENT"
  | BatchLimitExceeded => "API_BATCH_LIMIT_EXCEEDED"
  | Unauthenticated => "API_BATCH_UNAUTHENTICATED"
  | NotFound => "API_BATCH_NOT_FOUND"
  | BatchConflict => "API_BATCH_CONFLICT"
  | IntegrityFailure => "API_BATCH_INTEGRITY_FAILURE"
  | _ => "API_BATCH_INTERNAL"
  end.
Definition execution_error_code (code : ApiBatchErrorCode) : string :=
  match code with
  | BatchCancelled => "API_BATCH_CANCELLED"
  | BatchDeadlineExceeded => "API_BATCH_DEADLINE_EXCEEDED"
  | BatchResourceExhausted => "API_BATCH_RESOURCE_EXHAUSTED"
  | BatchUnavailable => "API_BATCH_UNAVAILABLE"
  | BatchInternal => "API_BATCH_INTERNAL"
  | _ => "API_BATCH_INTERNAL"
  end.
Definition batch_error_as_str (code : ApiBatchErrorCode) : string :=
  match code with
  | BatchInvalidArgument | BatchLimitExceeded | Unauthenticated | NotFound | BatchConflict | IntegrityFailure => request_error_code code
  | BatchCancelled | BatchDeadlineExceeded | BatchResourceExhausted | BatchUnavailable | BatchInternal => execution_error_code code
  end.
Definition map_domain_runtime_error (code : ApiDomainErrorCode) : ApiBatchErrorCode :=
  match code with
  | Cancelled => BatchCancelled
  | DeadlineExceeded => BatchDeadlineExceeded
  | Unavailable => BatchUnavailable
  | ResourceExhausted => BatchResourceExhausted
  | Internal => BatchInternal
  | _ => BatchInternal
  end.
Definition map_domain_execution_error (code : ApiDomainErrorCode) : ApiBatchErrorCode :=
  match code with
  | InvalidArgument | UnsupportedVersion => BatchInvalidArgument
  | LimitExceeded => BatchLimitExceeded
  | Conflict => BatchConflict
  | other => map_domain_runtime_error other
  end.
Definition map_domain_error (code : ApiDomainErrorCode) : ApiBatchErrorCode :=
  match code with
  | InvalidArgument | UnsupportedVersion => BatchInvalidArgument
  | other => map_domain_execution_error other
  end.
Definition map_core_error (code : ErrorCode) : ApiBatchErrorCode :=
  match code with
  | CoreTypes.InvalidArgument => BatchInvalidArgument
  | CoreTypes.Conflict => BatchConflict
  | CoreTypes.Cancelled => BatchCancelled
  | CoreTypes.DeadlineExceeded => BatchDeadlineExceeded
  | CoreTypes.Unavailable => BatchUnavailable
  | CoreTypes.ResourceExhausted => BatchResourceExhausted
  | CoreTypes.Internal => BatchInternal
  end.

Definition batch_invalid : ApiBatchError := mk_ApiBatchError BatchInvalidArgument.
Definition batch_limit : ApiBatchError := mk_ApiBatchError BatchLimitExceeded.
Definition batch_conflict : ApiBatchError := mk_ApiBatchError BatchConflict.
Notation batch_outcome := (result ApiBatchError).

(** ** Endpoints, windows and statuses *)

Inductive BatchEndpoint := Responses | ChatCompletions | Embeddings | Completions | ImagesGenerations.
#[export] Instance BatchEndpoint_eq_dec : EqDecision BatchEndpoint.
Proof. solve_decision. Defined.
Inductive BatchCompletionWindow : Set := Hours24.
Inductive BatchStatus := Validating | Failed | InProgress | Finalizing | StatusCompleted | StatusExpired | Cancelling | StatusCancelled.
#[export] Instance BatchStatus_eq_dec : EqDecision BatchStatus.
Proof. solve_decision. Defined.

(** The literal that a text equals, in the order of the arms. *)
Fixpoint match_text {A} (arms : list (string * A)) (value : string) : option A :=
  match arms with
  | [] => None
  | (text, a) :: rest => if String.eqb value text then Some a else match_text rest value
  end.
Definition endpoint_as_str (endpoint : BatchEndpoint) : string :=
  match endpoint with
  | Responses => "/v1/responses" | ChatCompletions => "/v1/chat/completions" | Embeddings => "/v1/embeddings"
  | Completions => "/v1/completions" | ImagesGenerations => "/v1/images/generations"
  end.
Definition endpoint_parse (value : string) : batch_outcome BatchEndpoint :=
  ok_or (match_text [("/v1/responses", Responses); ("/v1/chat/completions", ChatCompletions); ("/v1/embeddings", Embeddings);
                     ("/v1/completions", Completions); ("/v1/images/generations", ImagesGenerations)] value) batch_invalid.
Definition window_as_str (window : BatchCompletionWindow) : string := "24h".
Definition window_parse (value : string) : batch_outcome BatchCompletionWindow :=
  ok_or (match_text [("24h", Hours24)] value) batch_invalid.

Definition active_status_text (status : BatchStatus) : string :=
  match status with
  | Validating => "validating" | Failed => "failed" | InProgress => "in_progress" | Finalizing => "finalizing" | _ => "internal"
  end.
Definition terminal_status_text (status : BatchStatus) : string :=
  match status with
  | StatusCompleted => "completed" | StatusExpired => "expired" | Cancelling => "cancelling" | StatusCancelled => "cancelled" | _ => "internal"
  end.
Definition status_as_str (status : BatchStatus) : string :=
  match status with
  | Validating | Failed | InProgress | Finalizing => active_status_text status
  | StatusCompleted | StatusExpired | Cancelling | StatusCancelled => terminal_status_text status
  end.
Definition parse_terminal_status (value : string) : option BatchStatus :=
  match_text [("completed", StatusCompleted); ("expired", StatusExpired); ("cancelling", Cancelling); ("cancelled", StatusCancelled)] value.
Definition parse_status (value : string) : option BatchStatus :=
  match match_text [("validating", Validating); ("failed", Failed); ("in_progress", InProgress); ("finalizing", Finalizing)] value with
  | Some status => Some status
  | None => parse_terminal_status value
  end.
Definition status_parse (value : string) : batch_outcome BatchStatus := ok_or (parse_status value) batch_invalid.

(** ** Identities and input files *)

Record BatchOperationId := MkBatchOperationId { operation_id_str : string }.
Record BatchCustomId := MkBatchCustomId { custom_id_str : string }.
#[export] Instance BatchCustomId_eq_dec : EqDecision BatchCustomId.
Proof. solve_decision. Defined.
#[export] Program Instance BatchCustomId_countable : Countable BatchCustomId := inj_countable' custom_id_str MkBatchCustomId _.
Next Obligation. by intros []. Qed.

Definition valid_identifier_byte (byte : ascii) : bool :=
  is_ascii_alphanumeric byte || existsb (Ascii.eqb byte) ["."; "-"; "_"; ":"]%char.
Definition BatchOperationId_parse (value : string) : batch_outcome BatchOperationId :=
  reject_if (MAX_BATCH_OPERATION_ID_BYTES <? byte_len value) batch_limit ;;
  reject_if (is_empty value || negb (is_ascii value) || negb (all_bytes valid_identifier_byte value)) batch_invalid ;;
  mret (MkBatchOperationId value).
Definition BatchCustomId_new (value : string) : batch_outcome BatchCustomId :=
  reject_if (MAX_BATCH_CUSTOM_ID_BYTES <? byte_len value) batch_limit ;;
  reject_if (is_empty value || ConfigDomain.any_control value) batch_invalid ;;
  mret (MkBatchCustomId value).

Record BatchRequestLine := mk_BatchRequestLine { custom_id : BatchCustomId; line_endpoint : BatchEndpoint }.
Record BatchInputFile := mk_BatchInputFile { input_reference : FileReference; input_byte_length : FileByteLength; lines : list BatchRequestLine }.
Definition BatchRequestLine_new (custom_id : string) (endpoint : BatchEndpoint) : batch_outcome BatchRequestLine :=
  custom_id ← BatchCustomId_new custom_id; mret (mk_BatchRequestLine custom_id endpoint).

(** The loop of [collect_lines], with the lines taken over and their identities so far. *)
Fixpoint collect_from (owned : list BatchRequestLine) (identifiers : gset BatchCustomId) (lines : list BatchRequestLine)
    : batch_outcome (list BatchRequestLine) :=
  match lines with
  | [] => Ok owned
  | line :: rest =>
      reject_if (MAX_BATCH_REQUESTS <=? len owned) batch_limit ;;
      reject_if (bool_decide (custom_id line ∈ identifiers)) batch_conflict ;;
      collect_from (owned ++ [line]) ({[custom_id line]} ∪ identifiers) rest
  end.
Definition collect_lines (lines : list BatchRequestLine) : batch_outcome (list BatchRequestLine) := collect_from [] ∅ lines.
Definition validate_input_size (byte_length : FileByteLength) : batch_outcome unit :=
  reject_if (MAX_BATCH_INPUT_BYTES <? file_bytes byte_length) batch_limit.
Definition from_lines (reference : FileReference) (byte_length : FileByteLength) (lines : list BatchRequestLine) : batch_outcome BatchInputFile :=
  validate_input_size byte_length ;;
  owned ← collect_lines lines;
  reject_if (len owned =? 0) batch_invalid ;;
  mret (mk_BatchInputFile reference byte_length owned).
Definition line_count (input : BatchInputFile) : N := len (lines input).
Definition targets (input : BatchInputFile) (endpoint : BatchEndpoint) : bool :=
  forallb (fun line => bool_decide (line_endpoint line = endpoint)) (lines input).

(** ** Requests *)

Record BatchCreateRequest := mk_BatchCreateRequest {
  create_input_file : BatchInputFile; create_endpoint : BatchEndpoint;
  create_completion_window : BatchCompletionWindow; create_idempotency_key : option IdempotencyKey;
}.
Definition BatchCreateRequest_new (input_file : BatchInputFile) (endpoint : BatchEndpoint) (completion_window : BatchCompletionWindow)
    (idempotency_key : option IdempotencyKey) : batch_outcome BatchCreateRequest :=
  reject_if (negb (targets input_file endpoint)) batch_invalid ;;
  mret (mk_BatchCreateRequest input_file endpoint completion_window idempotency_key).
Record BatchCancelRequest := mk_BatchCancelRequest { cancel_operation_id : BatchOperationId; cancel_idempotency_key : option IdempotencyKey }.
Record BatchListLimit := MkBatchListLimit { list_limit : N }.
Definition BatchListLimit_new (value : N) : batch_outcome BatchListLimit :=
  reject_if (value =? 0) batch_invalid ;;
  reject_if (MAX_BATCH_LIST_LIMIT <? value) batch_limit ;;
  mret (MkBatchListLimit value).
Definition BatchListLimit_default : BatchListLimit := MkBatchListLimit DEFAULT_BATCH_LIST_LIMIT.
Record BatchListRequest := mk_BatchListRequest { list_after : option BatchOperationId; list_request_limit : BatchListLimit }.

(** ** Operations *)

Record BatchValidationError := mk_BatchValidationError { validation_code : ApiBatchErrorCode; validation_line : option N }.
Definition BatchValidationError_new (code : ApiBatchErrorCode) (line : option N) : batch_outcome BatchValidationError :=
  reject_if (bool_decide (line = Some 0)) batch_invalid ;; mret (mk_BatchValidationError code line).

Record BatchRequestCounts := mk_BatchRequestCounts { total : N; completed : N; failed : N }.
Definition validate_count_total (total : N) : batch_outcome unit :=
  reject_if (total =? 0) batch_invalid ;; reject_if (MAX_BATCH_REQUESTS <? total) batch_limit.
Definition validate_count_values (total completed failed processed : N) : batch_outcome unit :=
  reject_if ((total <? completed) || (total <? failed) || (total <? processed)) batch_invalid.
Definition BatchRequestCounts_new (total completed failed : N) : batch_outcome BatchRequestCounts :=
  validate_count_total total ;;
  processed ← ok_or (checked_add u32_max completed failed) batch_invalid;
  validate_count_values total completed failed processed ;;
  mret (mk_BatchRequestCounts total completed failed).

(** Instants are counts of their unit.  The builder of transitions sets one field at a time;
    its result is this record. *)
Record BatchTimestampTransitions := mk_BatchTimestampTransitions {
  in_progress_at : option N; expires_at : option N; finalizing_at : option N; completed_at : option N;
  failed_at : option N; expired_at : option N; cancelling_at : option N; cancelled_at : option N;
}.
Record BatchTimestamps := mk_BatchTimestamps { created_at : N; transitions : BatchTimestampTransitions }.
Definition transition_times (t : BatchTimestampTransitions) : list (option N) :=
  [in_progress_at t; expires_at t; finalizing_at t; completed_at t; failed_at t; expired_at t; cancelling_at t; cancelled_at t].
Definition validate_timestamp_order (created_at : N) (values : list (option N)) : batch_outcome unit :=
  reject_if (existsb (is_some_and (fun value => value <? created_at)) values) batch_invalid.
Definition BatchTimestamps_new (created_at : N) (transitions : BatchTimestampTransitions) : batch_outcome BatchTimestamps :=
  validate_timestamp_order created_at (transition_times transitions) ;; mret (mk_BatchTimestamps created_at transitions).

Record BatchOperationEvidence := mk_BatchOperationEvidence {
  evidence_timestamps : BatchTimestamps; evidence_output_file : option FileReference; evidence_error_file : option FileReference;
  evidence_errors : list BatchValidationError; evidence_counts : BatchRequestCounts;
}.
Definition BatchOperationEvidence_new (timestamps : BatchTimestamps) (output_file error_file : option FileReference)
    (errors : list BatchValidationError) (counts : BatchRequestCounts) : batch_outcome BatchOperationEvidence :=
  reject_if (MAX_BATCH_ERROR_ITEMS <? len errors) batch_limit ;;
  mret (mk_BatchOperationEvidence timestamps output_file error_file errors counts).

(** The evidence is kept as one field here and as its five fields in the code. *)
Record BatchOperation := mk_BatchOperation {
  operation_id : BatchOperationId; operation_endpoint : BatchEndpoint; operation_input_file : FileReference;
  operation_window : BatchCompletionWindow; operation_status : BatchStatus; operation_evidence : BatchOperationEvidence;
}.
Definition active_status_timestamp (status : BatchStatus) (timestamps : BatchTimestamps) : bool :=
  let t := transitions timestamps in
  match status with
  | Failed => bool_decide (is_Some (failed_at t))
  | InProgress => bool_decide (is_Some (in_progress_at t))
  | Finalizing => bool_decide (is_Some (finalizing_at t))
  | StatusCompleted => bool_decide (is_Some (completed_at t))
  | _ => false
  end.
Definition terminal_status_timestamp (status : BatchStatus) (timestamps : BatchTimestamps) : bool :=
  let t := transitions timestamps in
  match status with
  | StatusExpired => bool_decide (is_Some (expired_at t))
  | Cancelling => bool_decide (is_Some (cancelling_at t))
  | StatusCancelled => bool_decide (is_Some (cancelled_at t))
  | _ => false
  end.
Definition status_has_timestamp (status : BatchStatus) (timestamps : BatchTimestamps) : bool :=
  match status with
  | Validating => true
  | Failed | InProgress | Finalizing | StatusCompleted => active_status_timestamp status timestamps
  | StatusExpired | Cancelling | StatusCancelled => terminal_status_timestamp status timestamps
  end.
Definition BatchOperation_new (id : BatchOperationId) (endpoint : BatchEndpoint) (input_file : FileReference)
    (completion_window : BatchCompletionWindow) (status : BatchStatus) (evidence : BatchOperationEvidence) : batch_outcome BatchOperation :=
  reject_if (negb (status_has_timestamp status (evidence_timestamps evidence))) batch_invalid ;;
  mret (mk_BatchOperation id endpoint input_file completion_window status evidence).

(** [batch/port.rs]. *)
Definition batch_integrity_failure : ApiBatchError := mk_ApiBatchError IntegrityFailure.
Record BatchPage := mk_BatchPage {
  page_data : list BatchOperation; first_id : option BatchOperationId; last_id : option BatchOperationId; has_more : bool;
}.
Definition BatchPage_new (data : list BatchOperation) (limit : BatchListLimit) (has_more : bool) : batch_outcome BatchPage :=
  reject_if (list_limit limit <? len data) batch_limit ;;
  reject_if ((len data =? 0) && has_more) batch_integrity_failure ;;
  mret (mk_BatchPage data (operation_id <$> head data) (operation_id <$> last data) has_more).

(** ** Specification *)

(** Lines of one batch: their identities differ and there are not too many. *)
Definition fresh_lines (lines : list BatchRequestLine) : Prop := NoDup (custom_id <$> lines) /\ len lines <= MAX_BATCH_REQUESTS.
(** The time at which an operation entered its status. *)
Definition entered_at (status : BatchStatus) (t : BatchTimestamps) : option N :=
  match status with
  | Validating => Some (created_at t)
  | Failed => failed_at (transitions t)
  | InProgress => in_progress_at (transitions t)
  | Finalizing => finalizing_at (transitions t)
  | StatusCompleted => completed_at (transitions t)
  | StatusExpired => expired_at (transitions t)
  | Cancelling => cancelling_at (transitions t)
  | StatusCancelled => cancelled_at (transitions t)
  end.
(** [owned] holds fresh lines and [identifiers] theirs. *)
Definition owned_ok (owned : list BatchRequestLine) (identifiers : gset BatchCustomId) : Prop :=
  fresh_lines owned /\ forall i, i ∈ identifiers <-> i ∈ custom_id <$> owned.

(** ** Lemmas *)

Lemma match_text_Some {A} (arms : list (string * A)) value a : match_text arms value = Some a -> (value, a) ∈ arms.
Proof.
  induction arms as [|[t b] arms IH]; cbn; [done|]. destruct (String.eqb_spec value t) as [->|_].
  - intros [= ->]. by left.
  - intros H. right. by apply IH.
Qed.

Lemma owned_ok_snoc owned identifiers line : owned_ok owned identifiers -> len owned < MAX_BATCH_REQUESTS ->
  custom_id line ∉ identifiers -> owned_ok (owned ++ [line]) ({[custom_id line]} ∪ identifiers).
Proof.
  intros ((Hd & Hl) & Hi) Hlen Hnew. unfold owned_ok, fresh_lines, len in *. rewrite fmap_app, length_app. cbn. split_and!.
  - apply NoDup_app. split_and!; [done | | apply NoDup_singleton]. intros x Hx Hs%list_elem_of_singleton. subst. by apply Hnew, Hi.
  - lia.
  - intros i. rewrite elem_of_union, elem_of_singleton, elem_of_app, list_elem_of_singleton, Hi. tauto.
Qed.

Lemma collect_from_spec lines owned identifiers : owned_ok owned identifiers ->
  match collect_from owned identifiers lines with
  | Ok all => all = owned ++ lines /\ fresh_lines all
  | Err e => exists before line rest, lines = before ++ line :: rest /\ fresh_lines (owned ++ before) /\
      ((len (owned ++ before) = MAX_BATCH_REQUESTS /\ e = batch_limit) \/
       (len (owned ++ before) < MAX_BATCH_REQUESTS /\ custom_id line ∈ custom_id <$> (owned ++ before) /\ e = batch_conflict))
  end.
Proof.
  revert owned identifiers. induction lines as [|line lines IH]; intros owned identifiers Hok; cbn [collect_from].
  - rewrite app_nil_r. split; [done | apply Hok].
  - pose proof Hok as ((Hd & Hl) & Hi). destruct (N.leb_spec MAX_BATCH_REQUESTS (len owned)) as [Hmax|Hmax]; cbn.
    + exists [], line, lines. rewrite app_nil_r. split_and!; [done | done|]. left. split; [lia | done].
    + case_bool_decide as Hin; cbn.
      * exists [], line, lines. rewrite app_nil_r. split_and!; [done | done|]. right. split_and!; [done | by apply Hi | done].
      * specialize (IH (owned ++ [line]) ({[custom_id line]} ∪ identifiers)). destruct (collect_from _ _ lines) as [all|e].
        -- destruct IH as [-> Hf]; [by apply owned_ok_snoc|]. by rewrite <- app_assoc in *.
        -- destruct IH as (before & bad & rest & -> & Hf & H); [by apply owned_ok_snoc|]. exists (line :: before), bad, rest.
           rewrite <- app_assoc in *. done.
Qed.

Lemma collect_lines_spec lines :
  match collect_lines lines with
  | Ok all => all = lines /\ fresh_lines lines
  | Err e => exists before line rest, lines = before ++ line :: rest /\ fresh_lines before /\
      ((len before = MAX_BATCH_REQUESTS /\ e = batch_limit) \/
       (len before < MAX_BATCH_REQUESTS /\ custom_id line ∈ custom_id <$> before /\ e = batch_conflict))
  end.
Proof.
  pose proof (collect_from_spec lines [] ∅) as H. unfold collect_lines. destruct (collect_from [] ∅ lines) as [all|e].
  - destruct H as [-> Hf]; [|done]. unfold owned_ok, fresh_lines. split; [split; [constructor | by vm_compute]|]. intros i. cbn. set_solver.
  - apply H. unfold owned_ok, fresh_lines. split; [split; [constructor | by vm_compute]|]. intros i. cbn. set_solver.
Qed.

(** ** Theorems *)

(** C0. A create request exists exactly for a file of at most 200 MiB with one to 50,000 lines
    whose custom identities all differ and which all name the endpoint; it keeps them in
    order.  Otherwise the error names the first fault: the size, then the first line that
    is one too many or repeats an identity, then an empty file. *)
Theorem batch_request_exact (reference : FileReference) (byte_length : FileByteLength) (ls : list BatchRequestLine)
    (endpoint : BatchEndpoint) (window : BatchCompletionWindow) (key : option IdempotencyKey) :
  (forall q, (file ← from_lines reference byte_length ls; BatchCreateRequest_new file endpoint window key) = Ok q <->
     file_bytes byte_length <= MAX_BATCH_INPUT_BYTES /\ ls <> [] /\ fresh_lines ls /\
     (forall line, line ∈ ls -> line_endpoint line = endpoint) /\
     q = mk_BatchCreateRequest (mk_BatchInputFile reference byte_length ls) endpoint window key) /\
  (forall e, from_lines reference byte_length ls = Err e <->
     (MAX_BATCH_INPUT_BYTES < file_bytes byte_length /\ e = batch_limit) \/
     (file_bytes byte_length <= MAX_BATCH_INPUT_BYTES /\
      ((ls = [] /\ e = batch_invalid) \/
       collect_lines ls = Err e /\ exists before line rest, ls = before ++ line :: rest /\ fresh_lines before /\
         ((len before = MAX_BATCH_REQUESTS /\ e = batch_limit) \/
          (len before < MAX_BATCH_REQUESTS /\ custom_id line ∈ custom_id <$> before /\ e = batch_conflict))))).
Proof.
  pose proof (collect_lines_spec ls) as Hc. unfold from_lines, validate_input_size. split.
  - intros q. unfold BatchCreateRequest_new, targets.
    destruct (N.ltb_spec MAX_BATCH_INPUT_BYTES (file_bytes byte_length)) as [Hs|Hs]; cbn [reject_if mbind result_bind]; [split; [done|]; lia|].
    destruct (collect_lines ls) as [all|e]; cbn [mbind result_bind].
    + destruct Hc as [-> Hf]. destruct (N.eqb_spec (len ls) 0) as [H0|H0]; cbn [reject_if mbind result_bind mret result_ret lines].
      { split; [done|]. intros (_ & Hne & _). by destruct ls. }
      destruct (forallb _ ls) eqn:Ht; cbn [negb reject_if mbind result_bind].
      * rewrite forallb_forall in Ht. split.
        -- intros [= <-]. split_and!; try done; [by intros -> |]. intros line Hl%list_elem_of_In%Ht. by apply bool_decide_eq_true in Hl.
        -- by intros (_ & _ & _ & _ & ->).
      * split; [done|]. intros (_ & _ & _ & Hall & _). apply not_true_iff_false in Ht. destruct Ht. apply forallb_forall.
        intros line Hl%list_elem_of_In. by apply bool_decide_eq_true, Hall.
    + split; [done|]. intros (_ & _ & (Hd & Hl) & _). destruct Hc as (before & line & rest & -> & (_ & Hb) & [[Hm _]|(_ & Hin & _)]).
      * unfold len in *. rewrite length_app in Hl. cbn in Hl. lia.
      * rewrite fmap_app in Hd. apply NoDup_app in Hd as (_ & Hd & _). destruct (Hd _ Hin). by left.
  - intros e. destruct (N.ltb_spec MAX_BATCH_INPUT_BYTES (file_bytes byte_length)) as [Hs|Hs]; cbn [reject_if mbind result_bind].
    + split; [intros [= <-]; by left|]. by intros [[_ ->]|[H _]]; [|lia].
    + destruct (collect_lines ls) as [all|e'] eqn:He; cbn [mbind result_bind].
      * destruct Hc as [-> Hf]. destruct (N.eqb_spec (len ls) 0) as [H0|H0]; cbn.
        -- split; [intros [= <-]; right; split; [done|]; left; by destruct ls|]. by intros [[H _]|[_ [[_ ->]|[H _]]]]; [lia | | done].
        -- split; [done|]. intros [[H _]|[_ [[-> _]|[H _]]]]; [lia | done | done].
      * split; [intros [= <-]; right; split; [done|]; by right|].
        intros [[H _]|[_ [[-> _]|[H _]]]]; [lia | discriminate He | by injection H as ->].
Qed.

(** C0. The texts of endpoints, windows and statuses parse back to what they were printed
    from, and nothing else parses. *)
Theorem batch_texts_roundtrip :
  (forall e v, endpoint_parse v = Ok e <-> v = endpoint_as_str e) /\
  (forall w v, window_parse v = Ok w <-> v = window_as_str w) /\
  (forall s v, status_parse v = Ok s <-> v = status_as_str s).
Proof.
  split_and!.
  - intros e v. unfold endpoint_parse. rewrite ok_or_Ok. split; [|intros ->; by destruct e].
    intros H%match_text_Some. repeat (apply elem_of_cons in H as [[= -> ->]|H]; [done|]). by apply not_elem_of_nil in H.
  - intros w v. unfold window_parse. rewrite ok_or_Ok. split; [|intros ->; by destruct w].
    intros H%match_text_Some. apply list_elem_of_singleton in H. by injection H as ->.
  - intros s v. unfold status_parse, parse_status, parse_terminal_status. rewrite ok_or_Ok. split; [|intros ->; by destruct s].
    destruct (match_text _ v) as [s'|] eqn:Hm; [intros [= ->] | clear Hm; intros Hm]; apply match_text_Some in Hm;
      repeat (apply elem_of_cons in Hm as [[= -> ->]|Hm]; [done|]); by apply not_elem_of_nil in Hm.
Qed.

(** An operation is built exactly when the time at which it entered its status is recorded,
    and no recorded time is before its creation. *)
Theorem operation_status_timed (id : BatchOperationId) (endpoint : BatchEndpoint) (input : FileReference) (window : BatchCompletionWindow)
    (status : BatchStatus) (evidence : BatchOperationEvidence) (created : N) (times : BatchTimestampTransitions) :
  (is_ok (BatchOperation_new id endpoint input window status evidence) = true <->
     is_Some (entered_at status (evidence_timestamps evidence))) /\
  (forall t, BatchTimestamps_new created times = Ok t ->
     created_at t = created /\ forall status' time, entered_at status' t = Some time -> created <= time).
Proof.
  split.
  - assert (status_has_timestamp status (evidence_timestamps evidence) = bool_decide (is_Some (entered_at status (evidence_timestamps evidence)))) as Hs.
    { destruct status; cbn; try done. }
    unfold BatchOperation_new. rewrite Hs. by case_bool_decide as H.
  - intros t Ht. unfold BatchTimestamps_new in Ht. apply result_bind_Ok in Ht as ([] & Hv%reject_if_Ok & [= <-]). split; [done|].
    intros status' time Ht. destruct status'; cbn in Ht; [injection Ht as <-; lia|..];
      (apply N.le_ngt; intros Hlt; apply not_true_iff_false in Hv; apply Hv, existsb_exists;
       exists (Some time); split; [cbn; rewrite Ht; tauto | cbn; by apply N.ltb_lt]).
Qed.
