(* ===== verification/ProviderContract.v ===== *)
(** * Provider contracts, attempts and failures

    Models [contract.rs], [attempt.rs] and [error.rs] of
    [crates/optional/ariadnion-provider-sdk/src]: identities, capability sets and limits of a
    provider, the evidence of how far an attempt came, and the advice on retrying a failure.
    Shown: capability sets are sets, a descriptor is accepted exactly when its dependencies
    hold, evidence only advances, and what a retry is advised on. *)

From S2P Require Import Prelude CoreTypes Identity Encoding ApiValues ApiAudio Cancellation.
#[local] Open Scope N_scope.
#[local] Open Scope record_scope.

Definition MAX_PROVIDER_ID_BYTES : N := 256.
Definition MAX_PROVIDER_MODEL_ID_BYTES : N := 256.
Definition MAX_PROVIDER_REQUEST_BYTES : N := 16777216.
Definition MAX_PROVIDER_DELTA_BYTES : N := 65536.
Definition MAX_PROVIDER_STREAM_BYTES : N := 16777216.
Definition MAX_PROVIDER_STREAM_EVENTS : N := 262144.
Definition MIN_PROVIDER_STREAM_EVENTS : N := 2.

(** ** Contracts *)

Inductive ProviderContractErrorCode := ContractInvalidArgument | ContractLimitExceeded | CapabilityConflict.
#[export] Instance ProviderContractErrorCode_eq_dec : EqDecision ProviderContractErrorCode.
Proof. solve_decision. Defined.
Definition contract_as_str (code : ProviderContractErrorCode) : string :=
  match code with
  | ContractInvalidArgument => "provider_invalid_argument"
  | ContractLimitExceeded => "provider_limit_exceeded"
  | CapabilityConflict => "provider_capability_conflict"
  end.
Notation contract_outcome := (result ProviderContractErrorCode).

Inductive ProviderCapability :=
| TextGeneration | TextStreaming | ToolCalls | StructuredOutput | VisionInput | AudioInput | AudioOutput
| EmbeddingsCapability | Files | Realtime | BatchCapability | ImageGeneration | AudioStreaming.
#[export] Instance ProviderCapability_eq_dec : EqDecision ProviderCapability.
Proof. solve_decision. Defined.
(** [capability as u8]. *)
Definition capability_index (capability : ProviderCapability) : N :=
  match capability with
  | TextGeneration => 0 | TextStreaming => 1 | ToolCalls => 2 | StructuredOutput => 3 | VisionInput => 4 | AudioInput => 5
  | AudioOutput => 6 | EmbeddingsCapability => 7 | Files => 8 | Realtime => 9 | BatchCapability => 10 | ImageGeneration => 11
  | AudioStreaming => 12
  end.
Definition bit (capability : ProviderCapability) : N := N.shiftl 1 (capability_index capability).
Definition PROVIDER_CAPABILITY_ORDER : list ProviderCapability :=
  [TextGeneration; TextStreaming; ToolCalls; StructuredOutput; VisionInput; AudioInput; AudioOutput; AudioStreaming;
   EmbeddingsCapability; ImageGeneration; Files; Realtime; BatchCapability].

(** The [u16] of flags. *)
Record ProviderCapabilities := MkProviderCapabilities { flags : N }.
Definition capabilities_new (capability : ProviderCapability) : ProviderCapabilities := MkProviderCapabilities (bit capability).
Definition with_capability (c : ProviderCapabilities) (capability : ProviderCapability) : ProviderCapabilities :=
  MkProviderCapabilities (N.lor (flags c) (bit capability)).
Definition contains (c : ProviderCapabilities) (capability : ProviderCapability) : bool :=
  negb (N.land (flags c) (bit capability) =? 0).
Definition capabilities_iter (c : ProviderCapabilities) : list ProviderCapability := List.filter (contains c) PROVIDER_CAPABILITY_ORDER.
Definition capabilities_empty (c : ProviderCapabilities) : bool := flags c =? 0.

Definition validate_identifier (value : string) (limit : N) : contract_outcome unit :=
  reject_if (is_empty value || negb (is_ascii value) || negb (all_bytes is_visible_ascii value)) ContractInvalidArgument ;;
  reject_if (limit <? byte_len value) ContractLimitExceeded.
Record ProviderId := MkProviderId { provider_id_str : string }.
Record ProviderModelId := MkProviderModelId { provider_model_id_str : string }.
Definition ProviderId_new (value : string) : contract_outcome ProviderId :=
  validate_identifier value MAX_PROVIDER_ID_BYTES ;; mret (MkProviderId value).
Definition ProviderModelId_new (value : string) : contract_outcome ProviderModelId :=
  validate_identifier value MAX_PROVIDER_MODEL_ID_BYTES ;; mret (MkProviderModelId value).

Record ProviderLimits := mk_ProviderLimits {
  max_request_bytes : N; max_delta_bytes : N; max_stream_bytes : N; max_stream_events : N;
}.
Definition validate_required_sizes (max_request_bytes max_delta_bytes max_stream_bytes : N) : contract_outcome unit :=
  reject_if ((max_request_bytes =? 0) || (max_delta_bytes =? 0) || (max_stream_bytes =? 0)) ContractInvalidArgument.
Definition validate_hard_limits (max_request_bytes max_delta_bytes max_stream_bytes max_stream_events : N) : contract_outcome unit :=
  reject_if ((MAX_PROVIDER_REQUEST_BYTES <? max_request_bytes) || (MAX_PROVIDER_DELTA_BYTES <? max_delta_bytes)
             || (MAX_PROVIDER_STREAM_BYTES <? max_stream_bytes) || (max_stream_events <? MIN_PROVIDER_STREAM_EVENTS)
             || (MAX_PROVIDER_STREAM_EVENTS <? max_stream_events)) ContractLimitExceeded.
Definition ProviderLimits_new (max_request_bytes max_delta_bytes max_stream_bytes max_stream_events : N) : contract_outcome ProviderLimits :=
  validate_required_sizes max_request_bytes max_delta_bytes max_stream_bytes ;;
  validate_hard_limits max_request_bytes max_delta_bytes max_stream_bytes max_stream_events ;;
  mret (mk_ProviderLimits max_request_bytes max_delta_bytes max_stream_bytes max_stream_events).
Definition ProviderLimits_default : ProviderLimits :=
  mk_ProviderLimits MAX_PROVIDER_REQUEST_BYTES MAX_PROVIDER_DELTA_BYTES MAX_PROVIDER_STREAM_BYTES MAX_PROVIDER_STREAM_EVENTS.

Record ProviderDescriptor := mk_ProviderDescriptor {
  provider_id : ProviderId; provider_capabilities : ProviderCapabilities; provider_limits : ProviderLimits;
}.
Definition validate_capability_dependency (c : ProviderCapabilities) (capability required : ProviderCapability) : contract_outcome unit :=
  reject_if (contains c capability && negb (contains c required)) CapabilityConflict.
Definition validate_capabilities (c : ProviderCapabilities) : contract_outcome unit :=
  reject_if (capabilities_empty c) ContractInvalidArgument ;;
  validate_capability_dependency c TextStreaming TextGeneration ;;
  validate_capability_dependency c AudioStreaming AudioOutput.
Definition with_limits (id : ProviderId) (c : ProviderCapabilities) (limits : ProviderLimits) : contract_outcome ProviderDescriptor :=
  validate_capabilities c ;; mret (mk_ProviderDescriptor id c limits).
Definition ProviderDescriptor_new (id : ProviderId) (c : ProviderCapabilities) : contract_outcome ProviderDescriptor :=
  with_limits id c ProviderLimits_default.

(** ** Attempts *)

Inductive ProviderTransmission := NotStarted | Started | Committed | Unknown.
#[export] Instance ProviderTransmission_eq_dec : EqDecision ProviderTransmission.
Proof. solve_decision. Defined.
Record ProviderAttemptProgress := mk_ProviderAttemptProgress {
  transmission : ProviderTransmission; upstream_response_started : bool; downstream_delivery_started : bool;
}.
#[export] Instance ProviderAttemptProgress_eta : Eta ProviderAttemptProgress :=
  fun p => mk_ProviderAttemptProgress (transmission p) (upstream_response_started p) (downstream_delivery_started p).
#[export] Instance ProviderAttemptProgress_eq_dec : EqDecision ProviderAttemptProgress.
Proof. solve_decision. Defined.
Definition ProviderAttemptProgress_new : ProviderAttemptProgress := mk_ProviderAttemptProgress NotStarted false false.

(** The one error of a mark, [InvalidTransition]. *)
Inductive AttemptProgressError : Set := InvalidTransition.
(** The marks on the shared evidence, whose lock is recovered when poisoned: one step each. *)
Notation evidence A := (act ProviderAttemptProgress AttemptProgressError A).
Definition mark_transmission_started : evidence unit :=
  p ← get;
  if negb (bool_decide (transmission p = NotStarted)) then fail InvalidTransition
  else put (p <| transmission := Started |>).
Definition mark_request_committed : evidence unit :=
  p ← get;
  if negb (bool_decide (transmission p = Started)) then fail InvalidTransition
  else put (p <| transmission := Committed |>).
Definition mark_transmission_unknown : evidence unit :=
  p ← get;
  if bool_decide (transmission p = Unknown) then fail InvalidTransition
  else put (p <| transmission := Unknown |>).
Definition mark_upstream_response_started : evidence unit :=
  p ← get;
  if upstream_response_started p then fail InvalidTransition
  else put (p <| upstream_response_started := true |>).
Definition mark_downstream_delivery_started : evidence unit :=
  p ← get;
  if downstream_delivery_started p then fail InvalidTransition
  else put (p <| downstream_delivery_started := true |>).

(** An attempt holds a child of the token of its request; its evidence is a shared cell, kept
    beside it. *)
Record ProviderAttempt := mk_ProviderAttempt {
  attempt_id : Id AttemptKind; attempt_model : ProviderModelId; attempt_request : ServiceRequest; attempt_context : RequestContext;
}.
Definition child_context (tree : Tree) (parent : RequestContext) : Tree * RequestContext :=
  let '(tree, token) := child tree (cancellation parent) in
  (tree, mk_RequestContext (request_id parent) (trace_id parent) (principal parent) (deadline parent) token).
Definition ProviderAttempt_new (tree : Tree) (attempt_id : Id AttemptKind) (model : ProviderModelId) (request : ServiceRequest)
    (parent : RequestContext) : Tree * ProviderAttempt :=
  let '(tree, context) := child_context tree parent in
  (tree, mk_ProviderAttempt attempt_id model request context).
Definition response_mode (request : ServiceRequest) : option ResponseMode :=
  match request with
  | TextRequest request => Some (text_request_mode request)
  | ChatRequest request => Some (chat_request_mode request)
  | EmbeddingRequest _ => Some Complete
  | ImageRequest _ => Some Complete
  | AudioRequest request => Some (audio_request_mode request)
  end.

(** ** Failures *)

(** A day, in nanoseconds, the resolution of durations. *)
Definition MAX_PROVIDER_RETRY_AFTER : N := 86400 * 1000000000.
Inductive ProviderFailureClass :=
| FailureCancelled | FailureDeadlineExceeded | AttemptTimeout | InvalidRequest | Authentication | PermissionDenied | FailureNotFound
| RateLimited | QuotaExhausted | ContentRejected | UpstreamUnavailable | ProtocolViolation | ResponseLimit | FailureInternal.
#[export] Instance ProviderFailureClass_eq_dec : EqDecision ProviderFailureClass.
Proof. solve_decision. Defined.
Definition PROVIDER_FAILURE_CODES : list string :=
  ["provider_cancelled"; "provider_deadline_exceeded"; "provider_attempt_timeout"; "provider_invalid_request";
   "provider_authentication_failed"; "provider_permission_denied"; "provider_not_found"; "provider_rate_limited";
   "provider_quota_exhausted"; "provider_content_rejected"; "provider_upstream_unavailable"; "provider_protocol_violation";
   "provider_response_limit"; "provider_internal"].
(** [self as usize]. *)
Definition failure_index (class : ProviderFailureClass) : nat :=
  match class with
  | FailureCancelled => 0 | FailureDeadlineExceeded => 1 | AttemptTimeout => 2 | InvalidRequest => 3 | Authentication => 4
  | PermissionDenied => 5 | FailureNotFound => 6 | RateLimited => 7 | QuotaExhausted => 8 | ContentRejected => 9
  | UpstreamUnavailable => 10 | ProtocolViolation => 11 | ResponseLimit => 12 | FailureInternal => 13
  end.
Definition failure_as_str (class : ProviderFailureClass) : string :=
  default "provider_internal" (PROVIDER_FAILURE_CODES !! failure_index class).

Inductive ProviderRetryAdvice := Never | SameProvider | AlternateProvider | After (delay : N).
Record ProviderFailure := mk_ProviderFailure {
  class : ProviderFailureClass; failure_progress : option ProviderAttemptProgress; retry_after : option N;
}.
#[export] Instance ProviderFailure_eta : Eta ProviderFailure :=
  fun f => mk_ProviderFailure (class f) (failure_progress f) (retry_after f).
Definition ProviderFailure_new (class : ProviderFailureClass) : ProviderFailure := mk_ProviderFailure class None None.
Definition with_retry_after (f : ProviderFailure) (delay : N) : contract_outcome ProviderFailure :=
  reject_if (MAX_PROVIDER_RETRY_AFTER <? delay) ContractLimitExceeded ;;
  mret (f <| retry_after := Some delay |>).
Definition bind_progress (f : ProviderFailure) (progress : ProviderAttemptProgress) : ProviderFailure :=
  f <| failure_progress := Some progress |>.

Definition retry_inputs (progress : option ProviderAttemptProgress) (tree : Tree) (context : RequestContext) (now : N)
    : option (ProviderAttemptProgress * option N) :=
  match remaining_at tree context now with
  | Ok remaining => progress ← progress; Some (progress, remaining)
  | Err _ => None
  end.
Definition response_started (p : ProviderAttemptProgress) : bool := upstream_response_started p || downstream_delivery_started p.
Definition transmission_allows_retry (transmission : ProviderTransmission) (replayable : bool) : bool :=
  match transmission with
  | NotStarted => true
  | Started | Committed => replayable
  | Unknown => false
  end.
Definition progress_allows_retry (p : ProviderAttemptProgress) (replayable : bool) : bool :=
  negb (response_started p) && transmission_allows_retry (transmission p) replayable.
Definition delay_fits (delay : N) (remaining : option N) : bool :=
  match remaining with Some budget => delay <? budget | None => true end.
Definition class_advice (class : ProviderFailureClass) (retry_after remaining : option N) : ProviderRetryAdvice :=
  match class, retry_after with
  | RateLimited, Some delay => if delay_fits delay remaining then After delay else Never
  | RateLimited, None => AlternateProvider
  | QuotaExhausted, _ | AttemptTimeout, _ | UpstreamUnavailable, _ => AlternateProvider
  | _, _ => Never
  end.
Definition retry_advice_at (f : ProviderFailure) (replayable : bool) (tree : Tree) (context : RequestContext) (now : N) : ProviderRetryAdvice :=
  match retry_inputs (failure_progress f) tree context now with
  | None => Never
  | Some (progress, remaining) =>
      if negb (progress_allows_retry progress replayable) then Never
      else class_advice (class f) (retry_after f) remaining
  end.

(** ** Specification *)

(** The marks by name, and one of them made by anyone who shares the evidence. *)
Inductive EvidenceMark := MarkStarted | MarkCommitted | MarkUnknown | MarkUpstream | MarkDownstream.
Definition make_mark (mark : EvidenceMark) : evidence unit :=
  match mark with
  | MarkStarted => mark_transmission_started
  | MarkCommitted => mark_request_committed
  | MarkUnknown => mark_transmission_unknown
  | MarkUpstream => mark_upstream_response_started
  | MarkDownstream => mark_downstream_delivery_started
  end.
Definition evidence_step (p p' : ProviderAttemptProgress) : Prop := exists mark, p' = (make_mark mark p).1.
Definition transmission_rank (t : ProviderTransmission) : nat :=
  match t with NotStarted => 0 | Started => 1 | Committed => 2 | Unknown => 3 end.
(** The facts that evidence has established. *)
Definition evidence_rank (p : ProviderAttemptProgress) : nat :=
  transmission_rank (transmission p) + Nat.b2n (upstream_response_started p) + Nat.b2n (downstream_delivery_started p).
Definition evidence_le (p p' : ProviderAttemptProgress) : Prop :=
  (transmission_rank (transmission p) <= transmission_rank (transmission p'))%nat /\
  (upstream_response_started p = true -> upstream_response_started p' = true) /\
  (downstream_delivery_started p = true -> downstream_delivery_started p' = true).
Definition retryable (class : ProviderFailureClass) : bool :=
  match class with RateLimited | QuotaExhausted | AttemptTimeout | UpstreamUnavailable => true | _ => false end.

(** ** Lemmas *)

Lemma capability_testbit c capability : contains c capability = N.testbit (flags c) (capability_index capability).
Proof.
  unfold contains, bit. destruct (N.testbit (flags c) (capability_index capability)) eqn:H.
  - apply negb_true_iff, N.eqb_neq. intros H0. assert (N.testbit (N.land (flags c) (N.shiftl 1 (capability_index capability))) (capability_index capability) = true) as Hb.
    { rewrite N.land_spec, H, N.shiftl_spec_high', N.sub_diag by lia. done. }
    by rewrite H0, N.bits_0 in Hb.
  - apply negb_false_iff, N.eqb_eq, N.bits_inj_0. intros i. rewrite N.land_spec.
    destruct (decide (i = capability_index capability)) as [->|Hi]; [by rewrite H|].
    rewrite N.shiftl_1_l, N.pow2_bits_false by done. apply andb_false_r.
Qed.
Lemma capability_index_inj a b : capability_index a = capability_index b -> a = b.
Proof. by destruct a, b. Qed.

Lemma mark_spec mark p :
  (exists p', make_mark mark p = (p', Ok tt) /\ (evidence_rank p < evidence_rank p')%nat /\ evidence_le p p') \/
  make_mark mark p = (p, Err InvalidTransition).
Proof.
  destruct p as [t u d]. destruct mark; cbn [make_mark];
    unfold mark_transmission_started, mark_request_committed, mark_transmission_unknown, mark_upstream_response_started, mark_downstream_delivery_started;
    rewrite act_get_run; cbn [transmission upstream_response_started downstream_delivery_started];
    [destruct t | destruct t | destruct t | destruct u | destruct d]; cbn; auto; left; eexists; (split; [reflexivity|]);
    unfold evidence_rank, evidence_le; cbn; split_and?; auto; lia.
Qed.
Lemma evidence_le_refl p : evidence_le p p.
Proof. by unfold evidence_le. Qed.
Lemma evidence_le_trans p q r : evidence_le p q -> evidence_le q r -> evidence_le p r.
Proof. unfold evidence_le. intros (? & ? & ?) (? & ? & ?). split_and!; [lia | auto..]. Qed.
Lemma evidence_steps_le p p' : rtc evidence_step p p' -> evidence_le p p'.
Proof.
  induction 1 as [p|p q r [mark ->] _ IH]; [apply evidence_le_refl|]. eapply evidence_le_trans; [|exact IH].
  destruct (mark_spec mark p) as [(p' & -> & _ & H)| ->]; [done | apply evidence_le_refl].
Qed.

Lemma class_advice_spec c ra remaining :
  (class_advice c ra remaining = Never \/ class_advice c ra remaining = AlternateProvider \/ exists delay, class_advice c ra remaining = After delay) /\
  (class_advice c ra remaining <> Never <->
     retryable c = true /\ forall delay, c = RateLimited -> ra = Some delay -> delay_fits delay remaining = true) /\
  (forall delay, class_advice c ra remaining = After delay <-> c = RateLimited /\ ra = Some delay /\ delay_fits delay remaining = true).
Proof.
  destruct c; unfold class_advice; cbn [retryable];
    try (split_and!; [by left | split; [done | by intros []] | intros delay; split; [done | by intros []]]);
    try (split_and!; [by right; left | split; [done | done] | intros delay; split; [done | by intros []]]).
  destruct ra as [d|].
  - destruct (delay_fits d remaining) eqn:Hd.
    + split_and!; [by right; right; eexists | split; [intros _; split; [done|]; by intros delay _ [= <-] | done] |].
      intros delay. split; [by intros [= <-] | by intros (_ & [= <-] & _)].
    + split_and!; [by left | split; [done|] |].
      * intros [_ H]. by rewrite (H d) in Hd.
      * intros delay. split; [done|]. intros (_ & [= <-] & H). congruence.
  - split_and!; [by right; left | split; [done | done] | intros delay; split; [done | by intros (_ & ? & _)]].
Qed.
Lemma remaining_active tree context now : is_ok (remaining_at tree context now) = negb (is_inactive tree context now).
Proof.
  unfold remaining_at, is_inactive, check_active, is_expired_at. destruct (is_cancelled tree (cancellation context)); [done|].
  cbn. destruct (deadline context) as [d|]; [|done]. cbn. destruct (N.leb_spec d now); [done|]. cbn. unfold checked_sub.
  by rewrite (proj2 (N.leb_le now d)) by lia.
Qed.
Lemma delay_fits_deadline tree context now delay remaining : remaining_at tree context now = Ok remaining ->
  delay_fits delay remaining = true <-> forall d, deadline context = Some d -> now + delay < d.
Proof.
  intros Hr. unfold remaining_at in Hr. apply result_bind_Ok in Hr as ([] & _ & Hr).
  destruct (deadline context) as [d|]; [|injection Hr as <-; done].
  apply result_bind_Ok in Hr as ([] & Hd%reject_if_Ok%N.leb_gt & Hr). unfold checked_sub in Hr. rewrite (proj2 (N.leb_le now d)) in Hr by lia.
  injection Hr as <-. cbn. rewrite N.ltb_lt. split; [intros H d' [= <-]; lia | intros H; specialize (H d eq_refl); lia].
Qed.
Lemma progress_allows_spec p replayable : progress_allows_retry p replayable = true <->
  upstream_response_started p = false /\ downstream_delivery_started p = false /\
  (transmission p = NotStarted \/ (replayable = true /\ (transmission p = Started \/ transmission p = Committed))).
Proof. destruct p as [t [] []], t, replayable; cbn; naive_solver. Qed.

(** ** Theorems *)

(** Capability sets are sets: what was added is contained and nothing else, the iteration
    lists it once, and a descriptor is accepted exactly when its set is not empty and holds
    what streaming depends on. *)
Theorem capability_sets (c : ProviderCapabilities) (a b : ProviderCapability) (id : ProviderId) (limits : ProviderLimits) :
  contains (capabilities_new a) b = bool_decide (a = b) /\
  contains (with_capability c a) b = bool_decide (a = b) || contains c b /\
  (a ∈ capabilities_iter c <-> contains c a = true) /\ NoDup (capabilities_iter c) /\
  (is_ok (with_limits id c limits) = true <->
     capabilities_empty c = false /\ (contains c TextStreaming = true -> contains c TextGeneration = true) /\
     (contains c AudioStreaming = true -> contains c AudioOutput = true)).
Proof.
  assert (N.testbit (bit a) (capability_index b) = bool_decide (a = b)) as Hbit.
  { unfold bit. rewrite N.shiftl_1_l. case_bool_decide as H; [subst; apply N.pow2_bits_true|].
    apply N.pow2_bits_false. intros Hi. by apply H, capability_index_inj. }
  split_and!.
  - by rewrite capability_testbit.
  - rewrite !capability_testbit. cbn [flags with_capability]. by rewrite N.lor_spec, Hbit, orb_comm.
  - unfold capabilities_iter. rewrite elem_of_list_filter. split; [by intros []|]. intros H. split; [|done].
    unfold PROVIDER_CAPABILITY_ORDER. destruct a; repeat (first [by left | right]).
  - unfold capabilities_iter. apply NoDup_list_filter. by apply (bool_decide_unpack (NoDup PROVIDER_CAPABILITY_ORDER)).
  - unfold with_limits, validate_capabilities, validate_capability_dependency.
    destruct (capabilities_empty c), (contains c TextStreaming), (contains c TextGeneration), (contains c AudioStreaming), (contains c AudioOutput);
      cbn; naive_solver.
Qed.

(** Evidence only advances: whoever marks, in whatever order, no fact is taken back, a mark
    that succeeds establishes a fact and one that fails changes nothing; so at most five
    marks of an attempt succeed. *)
Theorem evidence_advances (p p' : ProviderAttemptProgress) (mark : EvidenceMark) (Hsteps : rtc evidence_step p p') :
  evidence_le p p' /\ (evidence_rank p' <= 5)%nat /\
  match make_mark mark p' with
  | (p'', Ok _) => (evidence_rank p' < evidence_rank p'')%nat
  | (p'', Err _) => p'' = p'
  end.
Proof.
  split_and!; [by apply evidence_steps_le | |].
  - unfold evidence_rank. destruct p' as [t [] []], t; cbn; lia.
  - by destruct (mark_spec mark p') as [(p'' & -> & H & _)| ->].
Qed.

(** C0. A retry is advised exactly when the failure carries the progress of its attempt, the
    request is active, neither side of the response has started, nothing was sent or what
    was sent may be replayed, and the class is one that another attempt can mend; a delay is
    advised only for a rate limit, as it was asked for, and ends before the deadline. *)
Theorem retry_advice_exact (f : ProviderFailure) (replayable : bool) (tree : Tree) (context : RequestContext) (now : N) :
  let advice := retry_advice_at f replayable tree context now in
  let active := is_inactive tree context now = false in
  let fits delay := forall d, deadline context = Some d -> now + delay < d in
  (advice = Never \/ advice = AlternateProvider \/ exists delay, advice = After delay) /\
  (advice <> Never <->
     active /\ retryable (class f) = true /\
     (forall delay, class f = RateLimited -> retry_after f = Some delay -> fits delay) /\
     exists p, failure_progress f = Some p /\ upstream_response_started p = false /\ downstream_delivery_started p = false /\
       (transmission p = NotStarted \/ (replayable = true /\ (transmission p = Started \/ transmission p = Committed)))) /\
  (forall delay, advice = After delay <-> advice <> Never /\ class f = RateLimited /\ retry_after f = Some delay).
Proof.
  intros advice active fits. subst advice active. unfold retry_advice_at, retry_inputs.
  pose proof (remaining_active tree context now) as Hactive.
  destruct (remaining_at tree context now) as [remaining|e] eqn:Hr; cbn [is_ok] in Hactive; symmetry in Hactive.
  2: { apply negb_false_iff in Hactive. rewrite Hactive. split_and!; [by left | split; [done | by intros [? _]] | split; [done | by intros (? & _)]]. }
  apply negb_true_iff in Hactive. destruct (failure_progress f) as [p|]; cbn [mbind option_bind].
  2: { split_and!; [by left | split; [done | by intros (_ & _ & _ & p & ? & _)] | split; [done | by intros (? & _)]]. }
  pose proof (progress_allows_spec p replayable) as Hp. destruct (progress_allows_retry p replayable); cbn [negb].
  2: { split_and!; [by left | | split; [done | by intros (? & _)]]. split; [done|].
       intros (_ & _ & _ & p' & [= <-] & H). by apply Hp in H. }
  destruct (proj1 Hp eq_refl) as (H1 & H2 & H3). pose proof (class_advice_spec (class f) (retry_after f) remaining) as (Ha & Hb & Hc). split_and!; [done | |].
  - rewrite Hb. split.
    + intros [Hret Hd]. split_and!; [done | done | | by exists p]. intros delay Hcl Hra. exact (proj1 (delay_fits_deadline _ _ _ delay _ Hr) (Hd delay Hcl Hra)).
    + intros (_ & Hret & Hd & _). split; [done|]. intros delay Hcl Hra. exact (proj2 (delay_fits_deadline _ _ _ delay _ Hr) (Hd delay Hcl Hra)).
  - intros delay. rewrite Hc. split; [|by intros (H & Hcl & Hra); apply Hb in H as [_ H]; auto].
    intros (Hcl & Hra & Hd). split_and!; [|done..]. apply Hb. rewrite Hcl. split; [done|]. intros delay' _. rewrite Hra. by intros [= <-].
Qed.
