(* ===== verification/ProviderStream.v ===== *)
(** * Provider streams and calls

    Models [stream.rs], [provider.rs] and [health.rs] of
    [crates/optional/ariadnion-provider-sdk/src]: the bounded stream over an event channel,
    whose publisher checks phase, count and bytes of every event, and the futures that
    guard a call and a health probe of a provider.  The provider behind them is code outside
    the crate: what its futures return is an input of every poll.  Shown: the accepted events are
    a start, deltas of its kind and at most one end, within the limits, with room kept for the
    end; what is delivered is a beginning of them; a failure that the stream delivers is
    never advised to be retried; and a call ends once, with an outcome of its own attempt. *)

From stdpp Require Import relations.
From S2P Require Import Prelude CoreTypes Identity Encoding ApiValues ApiAudio Cancellation EventChannel ProviderContract.
#[local] Open Scope N_scope.
#[local] Open Scope record_scope.

(** ** Events *)

Inductive ProviderStreamEvent :=
| StreamStarted (version : ServiceContractVersion)
| ChatStreamStarted (version : ServiceContractVersion)
| StreamTextDelta (delta : TextDelta)
| StreamChatDelta (delta : TextDelta)
| StreamCompleted (finish_reason : FinishReason)
| ChatStreamCompleted (finish_reason : FinishReason) (usage : TokenUsage)
| AudioStreamStarted (version : ServiceContractVersion) (output_specification : AudioOutputSpecification)
| StreamAudioChunk (chunk : AudioChunk)
| AudioStreamCompleted
| StreamFailed (failure : ProviderFailure).
Notation Envelope := (EventEnvelope ProviderStreamEvent).

Record ProviderStreamConfig := mk_ProviderStreamConfig { config_capacity : N; config_limits : ProviderLimits }.
Definition ProviderStreamConfig_new (capacity : N) (limits : ProviderLimits) : contract_outcome ProviderStreamConfig :=
  reject_if (capacity =? 0) ContractInvalidArgument ;;
  reject_if (max_stream_events limits <? capacity) ContractLimitExceeded ;;
  mret (mk_ProviderStreamConfig capacity limits).

Inductive ProviderStreamPublishError :=
| StreamCancelled (event : Envelope) | StreamFull (event : Envelope) | StreamClosed (event : Envelope)
| StreamOutOfOrder (event : Envelope) | InvalidTransition (event : Envelope) | ResourceLimit (event : Envelope).
Definition into_event (e : ProviderStreamPublishError) : Envelope :=
  match e with
  | StreamCancelled event | StreamFull event | StreamClosed event | StreamOutOfOrder event | InvalidTransition event
  | ResourceLimit event => event
  end.
Definition publish_error_code (e : ProviderStreamPublishError) : string :=
  match e with
  | StreamCancelled _ => "provider_stream_cancelled"
  | StreamFull _ => "provider_stream_full"
  | StreamClosed _ => "provider_stream_closed"
  | StreamOutOfOrder _ => "provider_stream_out_of_order"
  | InvalidTransition _ => "provider_stream_invalid_transition"
  | ResourceLimit _ => "provider_stream_resource_limit"
  end.

(** ** The state of a stream *)

Inductive StreamPhase := AwaitingStart | TextActive | ChatActive | AudioActive | Terminal.
#[export] Instance StreamPhase_eq_dec : EqDecision StreamPhase.
Proof. solve_decision. Defined.
Record StreamState := mk_StreamState { phase : StreamPhase; published_events : N; published_bytes : N }.
Definition StreamState_new : StreamState := mk_StreamState AwaitingStart 0 0.
Record AcceptedEvent := mk_AcceptedEvent { next_phase_ : StreamPhase; next_events : N; next_bytes : N }.

Definition valid_transition (phase : StreamPhase) (event : ProviderStreamEvent) : bool :=
  match phase, event with
  | AwaitingStart, (StreamStarted _ | ChatStreamStarted _ | AudioStreamStarted _ _) => true
  | TextActive, (StreamTextDelta _ | StreamCompleted _ | StreamFailed _) => true
  | ChatActive, (StreamChatDelta _ | ChatStreamCompleted _ _ | StreamFailed _) => true
  | AudioActive, (StreamAudioChunk _ | AudioStreamCompleted | StreamFailed _) => true
  | _, _ => false
  end.
Definition next_phase (event : ProviderStreamEvent) : StreamPhase :=
  match event with
  | StreamStarted _ | StreamTextDelta _ => TextActive
  | ChatStreamStarted _ | StreamChatDelta _ => ChatActive
  | AudioStreamStarted _ _ | StreamAudioChunk _ => AudioActive
  | StreamCompleted _ | ChatStreamCompleted _ _ | AudioStreamCompleted | StreamFailed _ => Terminal
  end.
Definition is_terminal_event (event : ProviderStreamEvent) : bool :=
  match event with
  | StreamCompleted _ | ChatStreamCompleted _ _ | AudioStreamCompleted | StreamFailed _ => true
  | _ => false
  end.
Definition event_bytes (event : ProviderStreamEvent) : N :=
  match event with
  | StreamTextDelta delta | StreamChatDelta delta => byte_len (delta_str delta)
  | StreamAudioChunk chunk => len (chunk_bytes chunk)
  | _ => 0
  end.
(** [option.filter(predicate)]. *)
Definition keep_if (p : N -> bool) (o : option N) : option N := n ← o; if p n then Some n else None.
Definition checked_event_count (state : StreamState) (event : ProviderStreamEvent) (limits : ProviderLimits) : option N :=
  let reserved_terminal := if is_terminal_event event then 0 else 1 in
  available ← checked_sub (max_stream_events limits) reserved_terminal;
  keep_if (fun count => count <=? available) (checked_add u64_max (published_events state) 1).
Definition checked_stream_bytes (state : StreamState) (event : ProviderStreamEvent) (limits : ProviderLimits) : option N :=
  let delta_bytes := event_bytes event in
  if max_delta_bytes limits <? delta_bytes then None
  else keep_if (fun bytes => bytes <=? max_stream_bytes limits) (checked_add u64_max (published_bytes state) delta_bytes).
Definition validate_event (state : StreamState) (event : Envelope) (limits : ProviderLimits)
    : result ProviderStreamPublishError AcceptedEvent :=
  reject_if ((sequence event =? 0) || negb (valid_transition (phase state) (payload event))) (InvalidTransition event) ;;
  next_events ← ok_or (checked_event_count state (payload event) limits) (ResourceLimit event);
  next_bytes ← ok_or (checked_stream_bytes state (payload event) limits) (ResourceLimit event);
  mret (mk_AcceptedEvent (next_phase (payload event)) next_events next_bytes).
Definition apply_accepted (accepted : AcceptedEvent) : StreamState :=
  mk_StreamState (next_phase_ accepted) (next_events accepted) (next_bytes accepted).
Definition map_publish_error (e : PublishError ProviderStreamEvent) : ProviderStreamPublishError :=
  match e with
  | PublishCancelled event => StreamCancelled event
  | Full event => StreamFull event
  | PublishClosed event => StreamClosed event
  | OutOfOrder event => StreamOutOfOrder event
  end.
Definition bind_failure (event : Envelope) (progress : ProviderAttemptProgress) : Envelope :=
  map_payload event (fun payload =>
    match payload with
    | StreamFailed failure => StreamFailed (bind_progress failure progress)
    | other => other
    end).

(** ** Publishing and receiving *)

(** A stream: the channel, the locked state of the publisher, the shared evidence and the
    limits. *)
Record ProviderStream := mk_ProviderStream {
  stream_channel : Channel ProviderStreamEvent; stream_state : StreamState; stream_evidence : ProviderAttemptProgress;
  stream_limits : ProviderLimits;
}.
#[export] Instance ProviderStream_eta : Eta ProviderStream :=
  fun s => mk_ProviderStream (stream_channel s) (stream_state s) (stream_evidence s) (stream_limits s).

Definition bounded_provider_stream (config : ProviderStreamConfig) (evidence : ProviderAttemptProgress) : contract_outcome ProviderStream :=
  match bounded_event_channel ProviderStreamEvent (config_capacity config) with
  | Ok channel => Ok (mk_ProviderStream channel StreamState_new evidence (config_limits config))
  | Err _ => Err ContractInvalidArgument
  end.

(** The failure of a mark that someone else made first is ignored. *)
Definition mark_upstream_started (p : ProviderAttemptProgress) : ProviderAttemptProgress :=
  if upstream_response_started p then p else (mark_upstream_response_started p).1.
Definition mark_downstream_started (p : ProviderAttemptProgress) : ProviderAttemptProgress :=
  if downstream_delivery_started p then p else (mark_downstream_delivery_started p).1.

(** [cancelled] and [cancelled'] are what the token observes at the start and when the
    channel looks again; [others] is what the other holders of the evidence make of it
    between the mark and the reading that is bound to a failure. *)
Definition try_publish_event (cancelled cancelled' : bool) (others : ProviderAttemptProgress -> ProviderAttemptProgress) (event : Envelope)
    : act ProviderStream ProviderStreamPublishError unit :=
  if cancelled then fail (StreamCancelled event) else
  s ← get;
  accepted ← lift (validate_event (stream_state s) event (stream_limits s));
  let progress := others (mark_upstream_started (stream_evidence s)) in
  modify (fun s => s <| stream_evidence := progress |>) ;;
  let event := bind_failure event progress in
  let '(channel, r) := try_publish cancelled' event (stream_channel s) in
  match r with
  | Err e => modify (fun s => s <| stream_channel := channel |>) ;; fail (map_publish_error e)
  | Ok _ => modify (fun s => s <| stream_channel := channel |> <| stream_state := apply_accepted accepted |>)
  end.

(** One turn of [receive_timeout]; the evidence is marked when an event came, in the same
    step as the receive (the source marks it right after [receive_timeout] has returned). *)
Definition receive_event (timeout : N) (cancelled : bool) (elapsed : N) (s : ProviderStream) : ProviderStream * ReceiveStep ProviderStreamEvent :=
  let '(channel, r) := receive_step timeout (mk_Poll cancelled elapsed (stream_channel s)) in
  let evidence := match r with
                  | EventChannel.Complete (Event _) => mark_downstream_started (stream_evidence s)
                  | _ => stream_evidence s
                  end in
  (s <| stream_channel := channel |> <| stream_evidence := evidence |>, r).

(** ** Calls *)

Inductive ProviderRawOutcome := RawComplete (response : ServiceResponse) | RawStream (stream : ProviderStream).
Inductive ProviderAttemptOutcome :=
| OutcomeComplete (attempt_id : Id AttemptKind) (response : ServiceResponse)
| OutcomeStream (attempt_id : Id AttemptKind) (stream : ProviderStream)
| OutcomeFailed (attempt_id : Id AttemptKind) (failure : ProviderFailure).
Definition outcome_attempt_id (o : ProviderAttemptOutcome) : Id AttemptKind :=
  match o with OutcomeComplete id _ | OutcomeStream id _ | OutcomeFailed id _ => id end.

Definition failure_class (code : ErrorCode) : ProviderFailureClass :=
  match code with
  | CoreTypes.Cancelled => FailureCancelled
  | CoreTypes.DeadlineExceeded => FailureDeadlineExceeded
  | _ => FailureInternal
  end.
(** [context.check_active().err()] at the time [now]. *)
Definition inactive_failure (tree : Tree) (context : RequestContext) (now : N) : option ProviderFailure :=
  match check_active_at tree context now with Ok _ => None | Err e => Some (ProviderFailure_new (failure_class (ce_code e))) end.
Definition protocol_failure : ProviderFailure := ProviderFailure_new ProtocolViolation.
Definition internal_failure : ProviderFailure := ProviderFailure_new FailureInternal.

(** [call_inner] tells whether the provider's future is still held. *)
Record ProviderCallFuture := mk_ProviderCallFuture {
  call_inner : bool; call_attempt_id : Id AttemptKind; expected_mode : option ResponseMode;
  call_context : RequestContext; initial_failure : option ProviderFailure; completed : bool;
}.
#[export] Instance ProviderCallFuture_eta : Eta ProviderCallFuture :=
  fun f => mk_ProviderCallFuture (call_inner f) (call_attempt_id f) (expected_mode f) (call_context f) (initial_failure f) (completed f).
Definition call (tree : Tree) (now : N) (attempt : ProviderAttempt) : ProviderCallFuture :=
  let failure := inactive_failure tree (attempt_context attempt) now in
  mk_ProviderCallFuture (bool_decide (failure = None)) (attempt_id attempt) (response_mode (attempt_request attempt))
    (attempt_context attempt) failure false.

Definition failed (id : Id AttemptKind) (progress : ProviderAttemptProgress) (failure : ProviderFailure) : ProviderAttemptOutcome :=
  OutcomeFailed id (bind_progress failure progress).
Definition correlate_outcome (id : Id AttemptKind) (expected_mode : option ResponseMode) (progress : ProviderAttemptProgress)
    (r : result ProviderFailure ProviderRawOutcome) : ProviderAttemptOutcome :=
  match expected_mode, r with
  | _, Err failure => failed id progress failure
  | Some ApiValues.Complete, Ok (RawComplete response) => OutcomeComplete id response
  | Some ApiValues.Stream, Ok (RawStream stream) => OutcomeStream id stream
  | _, Ok _ => failed id progress protocol_failure
  end.

(** What a poll meets: the token tree, the time, the evidence, and what the provider's future
    returns if it is polled, [None] when it is pending. *)
Record CallPoll := mk_CallPoll {
  poll_tree : Tree; poll_now : N; poll_evidence : ProviderAttemptProgress; poll_inner : option (result ProviderFailure ProviderRawOutcome);
}.
(** [true] when the token of the context is cancelled, with the outcome. *)
Definition complete_failure (f : ProviderCallFuture) (progress : ProviderAttemptProgress) (failure : ProviderFailure)
    : ProviderCallFuture * bool * ProviderAttemptOutcome :=
  (f <| call_inner := false |> <| completed := true |>, true, failed (call_attempt_id f) progress failure).
Definition preflight_failure (f : ProviderCallFuture) (p : CallPoll) : option ProviderFailure :=
  match initial_failure f with
  | Some failure => Some failure
  | None => inactive_failure (poll_tree p) (call_context f) (poll_now p)
  end.
Definition poll_call (f : ProviderCallFuture) (p : CallPoll) : ProviderCallFuture * bool * option ProviderAttemptOutcome :=
  let taken := f <| initial_failure := None |> in
  match preflight_failure f p with
  | Some failure => let '(f, c, o) := complete_failure taken (poll_evidence p) failure in (f, c, Some o)
  | None =>
      if negb (call_inner f) then let '(f, c, o) := complete_failure taken (poll_evidence p) internal_failure in (f, c, Some o)
      else match poll_inner p with
           | None => (taken, false, None)
           | Some r => (taken <| call_inner := false |> <| completed := true |>, false,
                        Some (correlate_outcome (call_attempt_id f) (expected_mode f) (poll_evidence p) r))
           end
  end.
(** [Drop]: whether the token is cancelled. *)
Definition drop_call (f : ProviderCallFuture) : bool := negb (completed f).

(** ** Health probes *)

Inductive ProviderHealthStatus := Healthy | Degraded | HealthUnavailable.
Inductive ProviderHealthReason :=
| Ready | ElevatedLatency | HealthRateLimited | AuthenticationRejected | HealthUpstreamUnavailable | HealthProtocolViolation
| HealthCancelled | HealthDeadlineExceeded | HealthInternal.
Definition PROVIDER_HEALTH_REASON_CODES : list string :=
  ["provider_health_ready"; "provider_health_elevated_latency"; "provider_health_rate_limited";
   "provider_health_authentication_rejected"; "provider_health_upstream_unavailable"; "provider_health_protocol_violation";
   "provider_health_cancelled"; "provider_health_deadline_exceeded"; "provider_health_internal"].
(** [self as usize]. *)
Definition reason_index (reason : ProviderHealthReason) : nat :=
  match reason with
  | Ready => 0 | ElevatedLatency => 1 | HealthRateLimited => 2 | AuthenticationRejected => 3 | HealthUpstreamUnavailable => 4
  | HealthProtocolViolation => 5 | HealthCancelled => 6 | HealthDeadlineExceeded => 7 | HealthInternal => 8
  end.
Definition health_reason_as_str (reason : ProviderHealthReason) : string :=
  default "provider_health_internal" (PROVIDER_HEALTH_REASON_CODES !! reason_index reason).
Record ProviderHealthSnapshot := mk_ProviderHealthSnapshot { health_status : ProviderHealthStatus; reason : ProviderHealthReason }.
Definition health_reason (code : ErrorCode) : ProviderHealthReason :=
  match code with
  | CoreTypes.Cancelled => HealthCancelled
  | CoreTypes.DeadlineExceeded => HealthDeadlineExceeded
  | _ => HealthInternal
  end.
Definition unavailable_snapshot (reason : ProviderHealthReason) : ProviderHealthSnapshot := mk_ProviderHealthSnapshot HealthUnavailable reason.
Definition internal_snapshot : ProviderHealthSnapshot := unavailable_snapshot HealthInternal.
Definition inactive_snapshot (tree : Tree) (context : RequestContext) (now : N) : option ProviderHealthSnapshot :=
  match check_active_at tree context now with Ok _ => None | Err e => Some (unavailable_snapshot (health_reason (ce_code e))) end.

Record ProviderHealthFuture := mk_ProviderHealthFuture {
  probe_inner : bool; probe_context : RequestContext; initially_inactive : option ProviderHealthSnapshot; probe_completed : bool;
}.
#[export] Instance ProviderHealthFuture_eta : Eta ProviderHealthFuture :=
  fun f => mk_ProviderHealthFuture (probe_inner f) (probe_context f) (initially_inactive f) (probe_completed f).
Definition probe (tree : Tree) (now : N) (parent : RequestContext) : Tree * ProviderHealthFuture :=
  let '(tree, context) := child_context tree parent in
  let inactive := inactive_snapshot tree context now in
  (tree, mk_ProviderHealthFuture (match inactive with None => true | Some _ => false end) context inactive false).
Definition complete_probe (f : ProviderHealthFuture) (snapshot : ProviderHealthSnapshot) : ProviderHealthFuture * ProviderHealthSnapshot :=
  (f <| probe_inner := false |> <| probe_completed := true |>, snapshot).
Definition preflight_snapshot (f : ProviderHealthFuture) (tree : Tree) (now : N) : option ProviderHealthSnapshot :=
  match initially_inactive f with
  | Some snapshot => Some snapshot
  | None => inactive_snapshot tree (probe_context f) now
  end.
Definition poll_probe (f : ProviderHealthFuture) (tree : Tree) (now : N) (inner : option ProviderHealthSnapshot)
    : ProviderHealthFuture * bool * option ProviderHealthSnapshot :=
  let taken := f <| initially_inactive := None |> in
  match preflight_snapshot f tree now with
  | Some snapshot => let '(f, s) := complete_probe taken snapshot in (f, true, Some s)
  | None =>
      if negb (probe_inner f) then let '(f, s) := complete_probe taken internal_snapshot in (f, true, Some s)
      else match inner with
           | None => (taken, false, None)
           | Some snapshot => let '(f, s) := complete_probe taken snapshot in (f, false, Some s)
           end
  end.
Definition drop_probe (f : ProviderHealthFuture) : bool := negb (probe_completed f).

(** ** Specification *)

(** The stream with what was accepted and what was delivered. *)
Record StreamTraffic := mk_StreamTraffic {
  stream : ProviderStream; stream_accepted : list Envelope; stream_delivered : list Envelope;
}.
(** The publisher publishes, the subscriber polls, the evidence advances, either end goes. *)
Inductive stream_step : StreamTraffic -> StreamTraffic -> Prop :=
| stream_publish t cancelled cancelled' others event s r :
    (forall p, rtc evidence_step p (others p)) ->
    try_publish_event cancelled cancelled' others event (stream t) = (s, r) ->
    stream_step t (mk_StreamTraffic s
      (if is_ok r then stream_accepted t ++ [bind_failure event (stream_evidence s)] else stream_accepted t) (stream_delivered t))
| stream_receive t timeout cancelled elapsed s r :
    receiver (stream_channel (stream t)) = true -> receive_event timeout cancelled elapsed (stream t) = (s, r) ->
    stream_step t (mk_StreamTraffic s (stream_accepted t)
      (match r with EventChannel.Complete (Event e) => stream_delivered t ++ [e] | _ => stream_delivered t end))
| stream_evidence_moves t p : evidence_step (stream_evidence (stream t)) p ->
    stream_step t (mk_StreamTraffic ((stream t) <| stream_evidence := p |>) (stream_accepted t) (stream_delivered t))
| stream_publisher_drops t :
    stream_step t (mk_StreamTraffic ((stream t) <| stream_channel := drop_publisher (stream_channel (stream t)) |>) (stream_accepted t) (stream_delivered t))
| stream_subscriber_drops t :
    stream_step t (mk_StreamTraffic ((stream t) <| stream_channel := drop_subscriber (stream_channel (stream t)) |>) (stream_accepted t) (stream_delivered t)).
Definition stream_reachable (config : ProviderStreamConfig) (t : StreamTraffic) : Prop :=
  ProviderStreamConfig_new (config_capacity config) (config_limits config) = Ok config /\
  exists p s, bounded_provider_stream config p = Ok s /\ rtc stream_step (mk_StreamTraffic s [] []) t.

(** The kinds of streams, and the sentences over events: the phase after them, if they
    follow each other. *)
Fixpoint phase_after (phase : StreamPhase) (events : list ProviderStreamEvent) : option StreamPhase :=
  match events with
  | [] => Some phase
  | event :: rest => if valid_transition phase event then phase_after (next_phase event) rest else None
  end.
Inductive StreamKind := TextKind | ChatKind | AudioKind.
Definition starts (kind : StreamKind) (event : ProviderStreamEvent) : bool :=
  match kind, event with TextKind, StreamStarted _ | ChatKind, ChatStreamStarted _ | AudioKind, AudioStreamStarted _ _ => true | _, _ => false end.
Definition continues (kind : StreamKind) (event : ProviderStreamEvent) : bool :=
  match kind, event with TextKind, StreamTextDelta _ | ChatKind, StreamChatDelta _ | AudioKind, StreamAudioChunk _ => true | _, _ => false end.
Definition ends (kind : StreamKind) (event : ProviderStreamEvent) : bool :=
  match kind, event with
  | _, StreamFailed _ | TextKind, StreamCompleted _ | ChatKind, ChatStreamCompleted _ _ | AudioKind, AudioStreamCompleted => true
  | _, _ => false
  end.
(** A start, deltas of its kind, and at most one end. *)
Definition well_formed (events : list ProviderStreamEvent) : Prop :=
  events = [] \/ exists kind start deltas tail, events = start :: deltas ++ tail /\
    starts kind start = true /\ Forall (fun e => continues kind e = true) deltas /\
    (tail = [] \/ exists e, tail = [e] /\ ends kind e = true).

(** What holds of a reachable stream, beside its channel. *)
Definition stream_inv (config : ProviderStreamConfig) (t : StreamTraffic) : Prop :=
  let s := stream t in let events := payload <$> stream_accepted t in let limits := config_limits config in
  stream_limits s = limits /\
  phase_after AwaitingStart events = Some (phase (stream_state s)) /\
  published_events (stream_state s) = len events /\ published_bytes (stream_state s) = sum_of event_bytes events /\
  len events + (if decide (phase (stream_state s) = Terminal) then 0 else 1) <= max_stream_events limits /\
  sum_of event_bytes events <= max_stream_bytes limits /\
  Forall (fun e => event_bytes e <= max_delta_bytes limits) events /\
  (events <> [] -> upstream_response_started (stream_evidence s) = true) /\
  (stream_delivered t <> [] -> downstream_delivery_started (stream_evidence s) = true) /\
  Forall (fun e => sequence e <> 0 /\ forall f, payload e = StreamFailed f ->
    exists p, failure_progress f = Some p /\ upstream_response_started p = true) (stream_accepted t).
Definition channel_traffic (t : StreamTraffic) : Traffic ProviderStreamEvent :=
  mk_Traffic (stream_channel (stream t)) (stream_accepted t) (stream_delivered t).
(** The phase in which a kind of stream is between its start and its end. *)
Definition active_phase (kind : StreamKind) : StreamPhase := match kind with TextKind => TextActive | ChatKind => ChatActive | AudioKind => AudioActive end.

(** Polls until there is an outcome. *)
Fixpoint run_call (f : ProviderCallFuture) (polls : list CallPoll) : ProviderCallFuture * bool * option ProviderAttemptOutcome :=
  match polls with
  | [] => (f, false, None)
  | p :: rest =>
      match poll_call f p with
      | (f, cancels, Some o) => (f, cancels, Some o)
      | (f, _, None) => run_call f rest
      end
  end.
(** The outcome that a poll gives an unfinished call whose request is active. *)
Definition answers (attempt : ProviderAttempt) (p : CallPoll) (o : ProviderAttemptOutcome) : Prop :=
  match o with
  | OutcomeComplete _ response =>
      response_mode (attempt_request attempt) = Some ApiValues.Complete /\ poll_inner p = Some (Ok (RawComplete response))
  | OutcomeStream _ stream =>
      response_mode (attempt_request attempt) = Some ApiValues.Stream /\ poll_inner p = Some (Ok (RawStream stream))
  | OutcomeFailed _ failure => failure_progress failure = Some (poll_evidence p)
  end.

(** ** Lemmas *)

Lemma bind_failure_spec event p :
  sequence (bind_failure event p) = sequence event /\ (forall ph, valid_transition ph (payload (bind_failure event p)) = valid_transition ph (payload event)) /\
  next_phase (payload (bind_failure event p)) = next_phase (payload event) /\ event_bytes (payload (bind_failure event p)) = event_bytes (payload event) /\
  is_terminal_event (payload (bind_failure event p)) = is_terminal_event (payload event) /\
  (forall f, payload (bind_failure event p) = StreamFailed f -> failure_progress f = Some p).
Proof. destruct event as [sq v o pl]. destruct pl; cbn; split_and!; try done; intros f; try done. by intros [= <-]. Qed.

Lemma is_terminal_next event : is_terminal_event event = bool_decide (next_phase event = Terminal).
Proof. by destruct event. Qed.

Lemma phase_after_snoc phase events event phase' : phase_after phase events = Some phase' -> valid_transition phase' event = true ->
  phase_after phase (events ++ [event]) = Some (next_phase event).
Proof.
  revert phase. induction events as [|e events IH]; intros phase; cbn.
  - by intros [= ->] ->.
  - destruct (valid_transition phase e); [apply IH | done].
Qed.
Lemma phase_after_active kind events phase : phase_after (active_phase kind) events = Some phase ->
  exists deltas tail, events = deltas ++ tail /\ Forall (fun e => continues kind e = true) deltas /\
    (tail = [] \/ exists e, tail = [e] /\ ends kind e = true).
Proof.
  induction events as [|e events IH]; cbn; intros H; [by exists [], []; split_and!; [|constructor|left]|].
  destruct (valid_transition (active_phase kind) e) eqn:Hv; [|done].
  destruct (decide (next_phase e = Terminal)) as [Ht|Ht].
  - rewrite Ht in H. destruct events as [|e' events]; [|done]. exists [], [e]. split_and!; [done | constructor|]. right. exists e. split; [done|].
    by destruct kind, e.
  - assert (next_phase e = active_phase kind /\ continues kind e = true) as [Hn Hc] by by destruct kind, e.
    rewrite Hn in H. destruct (IH H) as (deltas & tail & -> & Hd & Htail). exists (e :: deltas), tail. split_and!; [done | by constructor | done].
Qed.
Lemma phase_after_well_formed events phase : phase_after AwaitingStart events = Some phase -> well_formed events.
Proof.
  destruct events as [|e events]; cbn [phase_after]; [intros _; by left|]. destruct (valid_transition AwaitingStart e) eqn:Hv; [|done]. intros H. right.
  assert (exists kind, starts kind e = true /\ next_phase e = active_phase kind) as (kind & Hs & Hn).
  { destruct e; try done; [by exists TextKind | by exists ChatKind | by exists AudioKind]. }
  rewrite Hn in H. destruct (phase_after_active _ _ _ H) as (deltas & tail & -> & Hd & Ht). by exists kind, e, deltas, tail.
Qed.

Lemma phase_after_terminal phase events phase' : phase_after phase events = Some phase' -> phase <> Terminal ->
  existsb is_terminal_event events = bool_decide (phase' = Terminal).
Proof.
  revert phase. induction events as [|e events IH]; intros phase; cbn [phase_after existsb].
  - intros [= ->] Hne. by rewrite bool_decide_eq_false_2.
  - destruct (valid_transition phase e); [|done]. rewrite is_terminal_next. intros H Hne.
    destruct (decide (next_phase e = Terminal)) as [Ht|Ht]; [rewrite (bool_decide_eq_true_2 (next_phase e = _)) by done | rewrite (bool_decide_eq_false_2 (next_phase e = _)) by done]; cbn [orb].
    + rewrite Ht in H. destruct events as [|e' events]; [|by destruct e']. injection H as <-. done.
    + by apply (IH (next_phase e)).
Qed.

Lemma mark_upstream_spec p : upstream_response_started (mark_upstream_started p) = true /\ evidence_le p (mark_upstream_started p).
Proof. destruct p as [t [] d]; split; try done; unfold evidence_le; cbn; auto. Qed.
Lemma mark_downstream_spec p : downstream_delivery_started (mark_downstream_started p) = true /\ evidence_le p (mark_downstream_started p).
Proof. destruct p as [t u []]; split; try done; unfold evidence_le; cbn; auto. Qed.

Lemma stream_event_Ok state event limits a : validate_event state event limits = Ok a ->
  sequence event <> 0 /\ valid_transition (phase state) (payload event) = true /\
  a = mk_AcceptedEvent (next_phase (payload event)) (published_events state + 1) (published_bytes state + event_bytes (payload event)) /\
  published_events state + 1 + (if is_terminal_event (payload event) then 0 else 1) <= max_stream_events limits /\
  event_bytes (payload event) <= max_delta_bytes limits /\ published_bytes state + event_bytes (payload event) <= max_stream_bytes limits.
Proof.
  unfold validate_event. intros ([] & Hv%reject_if_Ok & H)%result_bind_Ok. apply orb_false_iff in Hv as [Hs%N.eqb_neq Hv%negb_false_iff].
  apply result_bind_Ok in H as (n & Hn%ok_or_Ok & (b & Hb%ok_or_Ok & [= <-])%result_bind_Ok).
  unfold checked_event_count, checked_sub in Hn. destruct (N.leb_spec (if is_terminal_event (payload event) then 0 else 1) (max_stream_events limits)) as [Hr|]; [|done].
  cbn in Hn. unfold keep_if in Hn. destruct (checked_add u64_max (published_events state) 1) as [c|] eqn:Hc; [|done]. apply checked_add_Some in Hc as [-> _]. cbn in Hn.
  destruct (N.leb_spec (published_events state + 1) (max_stream_events limits - (if is_terminal_event (payload event) then 0 else 1))); [|done]. injection Hn as <-.
  unfold checked_stream_bytes in Hb. destruct (N.ltb_spec (max_delta_bytes limits) (event_bytes (payload event))); [done|]. unfold keep_if in Hb.
  destruct (checked_add u64_max (published_bytes state) (event_bytes (payload event))) as [c|] eqn:Hc; [|done]. apply checked_add_Some in Hc as [-> _]. cbn in Hb.
  destruct (N.leb_spec (published_bytes state + event_bytes (payload event)) (max_stream_bytes limits)); [|done]. injection Hb as <-. split_and!; try done. lia.
Qed.

(** What publishing does, in every case. *)
Lemma try_publish_event_cases cancelled cancelled' others event s :
  (exists e, try_publish_event cancelled cancelled' others event s = (s, Err e)) \/
  exists a, validate_event (stream_state s) event (stream_limits s) = Ok a /\
    let progress := others (mark_upstream_started (stream_evidence s)) in
    let bound := bind_failure event progress in
    let '(channel, r) := try_publish cancelled' bound (stream_channel s) in
    try_publish_event cancelled cancelled' others event s =
      (mk_ProviderStream channel (if is_ok r then apply_accepted a else stream_state s) progress (stream_limits s),
       match r with Ok _ => Ok tt | Err e => Err (map_publish_error e) end).
Proof.
  unfold try_publish_event. destruct cancelled; [left; by eexists|]. rewrite act_get_run.
  destruct (validate_event (stream_state s) event (stream_limits s)) as [a|e]; [|left; by eexists]. right. exists a. split; [done|].
  rewrite act_lift_run, act_modify_run. cbn beta zeta. destruct (try_publish cancelled' _ (stream_channel s)) as [channel r] eqn:Hp.
  change (stream_channel (s <| stream_evidence := others (mark_upstream_started (stream_evidence s)) |>)) with (stream_channel s).
  destruct s. cbn in *. by destruct r.
Qed.

(** Evidence that moves keeps what was established. *)
Lemma stream_inv_evidence config t p : stream_inv config t -> evidence_le (stream_evidence (stream t)) p ->
  stream_inv config (mk_StreamTraffic ((stream t) <| stream_evidence := p |>) (stream_accepted t) (stream_delivered t)).
Proof. intros (? & ? & ? & ? & ? & ? & ? & Hu & Hd & ?) (_ & Hu' & Hd'). unfold stream_inv. cbn. split_and!; auto. Qed.

(** An event that is accepted. *)
Lemma stream_inv_accept config t event a others channel :
  stream_inv config t -> (forall p, rtc evidence_step p (others p)) ->
  validate_event (stream_state (stream t)) event (stream_limits (stream t)) = Ok a ->
  let progress := others (mark_upstream_started (stream_evidence (stream t))) in
  stream_inv config (mk_StreamTraffic (mk_ProviderStream channel (apply_accepted a) progress (stream_limits (stream t)))
                       (stream_accepted t ++ [bind_failure event progress]) (stream_delivered t)).
Proof.
  intros (Hl & Hp & Hn & Hb & Hc & Hm & Hd & Hu & Hdn & Hf) Ho Ha progress.
  apply stream_event_Ok in Ha as (Hseq & Hv & -> & Hcount & Hdelta & Hbytes). rewrite Hl in Hcount, Hdelta, Hbytes.
  destruct (bind_failure_spec event progress) as (Es & Ev & En & Eb & Et & Ef).
  destruct (mark_upstream_spec (stream_evidence (stream t))) as [Hup Hle].
  assert (evidence_le (mark_upstream_started (stream_evidence (stream t))) progress) as Hle' by (apply evidence_steps_le, Ho).
  assert (upstream_response_started progress = true) as Hup' by by apply Hle'.
  unfold stream_inv. cbn [stream stream_limits stream_state stream_evidence stream_accepted stream_delivered phase published_events published_bytes apply_accepted next_phase_ next_events next_bytes]. rewrite fmap_app. cbn [fmap list_fmap]. split_and!.
  - done.
  - rewrite <- En. eapply phase_after_snoc; [exact Hp | by rewrite Ev].
  - unfold len in *. rewrite length_app. cbn [length]. lia.
  - rewrite sum_of_app, sum_of_cons, Eb. cbn [sum_of foldr]. lia.
  - rewrite is_terminal_next in Hcount. unfold len in *. rewrite length_app. cbn [length]. rewrite Hn in Hcount.
    destruct (decide (next_phase (payload event) = Terminal)) as [Ht|Ht];
      [rewrite bool_decide_eq_true_2 in Hcount by done | rewrite bool_decide_eq_false_2 in Hcount by done]; lia.
  - rewrite sum_of_app, sum_of_cons, Eb. cbn [sum_of foldr]. lia.
  - apply Forall_app. split; [done|]. constructor; [by rewrite Eb | done].
  - done.
  - intros H. apply Hle', Hle, Hdn, H.
  - apply Forall_app. split; [done|]. constructor; [|done]. rewrite Es. split; [done|]. intros f Hpay. exists progress. split; [by apply Ef | done].
Qed.

Lemma stream_step_inv config t t' : stream_inv config t -> stream_step t t' -> stream_inv config t'.
Proof.
  intros Hinv Hst. destruct Hst as [t cancelled cancelled' others event s r Ho Hp|t timeout cancelled elapsed s r Hr Hrec|t p [mark ->]|t|t].
  - destruct (try_publish_event_cases cancelled cancelled' others event (stream t)) as [[e He]|(a & Ha & Hrun)].
    + rewrite He in Hp. injection Hp as <- <-. cbn [is_ok]. by destruct t.
    + cbn beta zeta in Hrun. destruct (try_publish cancelled' _ (stream_channel (stream t))) as [channel r'] eqn:Hpub. rewrite Hrun in Hp.
      injection Hp as <- <-. destruct r' as [[]|e]; cbn [is_ok].
      * by apply stream_inv_accept.
      * destruct (mark_upstream_spec (stream_evidence (stream t))) as [_ Hle].
        pose proof (stream_inv_evidence config t _ Hinv (evidence_le_trans _ _ _ Hle (evidence_steps_le _ _ (Ho _)))) as H. exact H.
  - unfold receive_event in Hrec. destruct (receive_step timeout (mk_Poll cancelled elapsed (stream_channel (stream t)))) as [channel r'].
    injection Hrec as <- <-. destruct (mark_downstream_spec (stream_evidence (stream t))) as [Hdn Hle].
    destruct Hinv as (? & ? & ? & ? & ? & ? & ? & Hu & Hd & ?). unfold stream_inv.
    destruct r' as [|[e| | |]]; cbn; split_and!; try done. intros H'. by apply Hle, Hu.
  - apply stream_inv_evidence; [done|]. destruct (mark_spec mark (stream_evidence (stream t))) as [(p' & -> & _ & H)| ->]; [done | apply evidence_le_refl].
  - exact Hinv.
  - exact Hinv.
Qed.

(** A step of the stream is one of its channel, or none. *)
Lemma stream_step_channel t t' : stream_step t t' -> rtc traffic_step (channel_traffic t) (channel_traffic t').
Proof.
  intros Hst. destruct Hst as [t cancelled cancelled' others event s r Ho Hp|t timeout cancelled elapsed s r Hr Hrec|t p _|t|t].
  - destruct (try_publish_event_cases cancelled cancelled' others event (stream t)) as [[e He]|(a & Ha & Hrun)].
    + rewrite He in Hp. injection Hp as <- <-. cbn [is_ok]. destruct t. apply rtc_refl.
    + cbn beta zeta in Hrun. destruct (try_publish cancelled' _ (stream_channel (stream t))) as [channel r'] eqn:Hpub. rewrite Hrun in Hp.
      injection Hp as <- <-. apply rtc_once. pose proof (traffic_publish (channel_traffic t) _ _ _ _ Hpub) as H. by destruct r' as [[]|e].
  - unfold receive_event in Hrec. destruct (receive_step timeout (mk_Poll cancelled elapsed (stream_channel (stream t)))) as [channel r'] eqn:Hs.
    injection Hrec as <- <-. apply rtc_once. exact (traffic_receive (channel_traffic t) _ _ _ _ _ Hs Hr).
  - apply rtc_refl.
  - apply rtc_once. apply (traffic_drop_publisher (channel_traffic t)).
  - apply rtc_once. apply (traffic_drop_subscriber (channel_traffic t)).
Qed.

Lemma stream_reachable_spec config t : stream_reachable config t ->
  stream_inv config t /\ traffic_inv (config_capacity config) (channel_traffic t).
Proof.
  intros (Hconfig & p & s & Hs & Ht). unfold bounded_provider_stream in Hs.
  destruct (bounded_event_channel ProviderStreamEvent (config_capacity config)) as [channel|e] eqn:Hch; [|done]. injection Hs as <-. split.
  - apply (rtc_invariant stream_step (stream_inv config)) with (2 := Ht); [intros x y H1 H2; by eapply stream_step_inv|].
    unfold ProviderStreamConfig_new in Hconfig. apply result_bind_Ok in Hconfig as ([] & H0%reject_if_Ok%N.eqb_neq & Hconfig).
    apply result_bind_Ok in Hconfig as ([] & H1%reject_if_Ok%N.ltb_ge & _). unfold stream_inv. cbn. split_and!; try done; try constructor; try lia. rewrite decide_False by done. unfold len. cbn [length]. lia.
  - apply (traffic_reachable_inv (config_capacity config) (channel_traffic t)). exists channel. split; [done|].
    change (mk_Traffic channel [] []) with (channel_traffic (mk_StreamTraffic (mk_ProviderStream channel StreamState_new p (config_limits config)) [] [])).
    clear Hch. induction Ht as [|x y z H1 _ IH]; [apply rtc_refl|]. etransitivity; [by apply stream_step_channel | exact IH].
Qed.

Lemma inactive_failure_spec tree context now :
  match inactive_failure tree context now with Some _ => is_inactive tree context now = true | None => is_inactive tree context now = false end.
Proof.
  unfold inactive_failure, check_active_at, check_active, is_inactive. destruct (is_cancelled tree (cancellation context)); [done|].
  cbn. by destruct (is_expired_at context now).
Qed.

(** Once a response has started nothing advises a retry. *)
Lemma started_never_retried f p replayable tree context now : failure_progress f = Some p -> upstream_response_started p = true ->
  retry_advice_at f replayable tree context now = Never.
Proof.
  intros Hf Hp. unfold retry_advice_at, retry_inputs. rewrite Hf. destruct (remaining_at tree context now); [|done]. cbn.
  unfold progress_allows_retry, response_started. by rewrite Hp.
Qed.

(** A call that is not answered yet. *)
Lemma run_call_pending attempt polls :
  match run_call (mk_ProviderCallFuture true (attempt_id attempt) (response_mode (attempt_request attempt)) (attempt_context attempt) None false) polls with
  | (f, cancels, None) => drop_call f = true /\ forall p, p ∈ polls -> poll_inner p = None /\
      is_inactive (poll_tree p) (attempt_context attempt) (poll_now p) = false
  | (f, cancels, Some o) => drop_call f = false /\ outcome_attempt_id o = attempt_id attempt /\
      exists before p after, polls = before ++ p :: after /\ answers attempt p o /\
        (cancels = true <-> (@None ProviderFailure) <> None \/ is_inactive (poll_tree p) (attempt_context attempt) (poll_now p) = true)
  end.
Proof.
  induction polls as [|p polls IH]; cbn [run_call]; [split; [done|]; intros p Hp; by apply not_elem_of_nil in Hp|].
  pose proof (inactive_failure_spec (poll_tree p) (attempt_context attempt) (poll_now p)) as Hin.
  unfold poll_call, preflight_failure. cbn [initial_failure call_context call_inner].
  destruct (inactive_failure (poll_tree p) (attempt_context attempt) (poll_now p)) as [failure|].
  { cbn. split_and!; [done | done|]. exists [], p, polls. split_and!; [done | done|]. split; intros _; [right; exact Hin | reflexivity]. }
  cbn [negb]. destruct (poll_inner p) as [r|] eqn:Hr.
  - cbn. split_and!; [done | by destruct (response_mode _) as [[]|], r as [[]|]|]. exists [], p, polls. split_and!; [done | | split; [done|]; intros [?|?]; congruence].
    + unfold answers, correlate_outcome. destruct (response_mode _) as [[]|] eqn:Hm, r as [[]|]; cbn; done.
  - change ((mk_ProviderCallFuture true (attempt_id attempt) (response_mode (attempt_request attempt)) (attempt_context attempt) None false)
              <| initial_failure := None |>) with (mk_ProviderCallFuture true (attempt_id attempt) (response_mode (attempt_request attempt)) (attempt_context attempt) None false).
    destruct (run_call _ polls) as [[f c] [o|]].
    + destruct IH as (H1 & H2 & before & q & after & -> & H3). split_and!; [done | done|]. by exists (p :: before), q, after.
    + destruct IH as (H1 & H2). split; [done|]. intros q Hq. apply elem_of_cons in Hq as [->|Hq]; [done | by apply H2].
Qed.

(** ** Theorems *)

(** A call that is polled until it answers: the outcome is of its own attempt, a response or
    a stream only if the provider returned it and the request asked for that mode, a failure
    with the progress of the attempt; until then the call is pending and dropping it
    cancels its token, afterwards it does not. *)
Theorem call_correlated (tree : Tree) (now : N) (attempt : ProviderAttempt) (polls : list CallPoll) :
  match run_call (call tree now attempt) polls with
  | (f, cancels, None) => drop_call f = true /\ forall p, p ∈ polls -> poll_inner p = None /\
      is_inactive (poll_tree p) (attempt_context attempt) (poll_now p) = false
  | (f, cancels, Some o) => drop_call f = false /\ outcome_attempt_id o = attempt_id attempt /\
      exists before p after, polls = before ++ p :: after /\ answers attempt p o /\
        (cancels = true <-> inactive_failure tree (attempt_context attempt) now <> None \/
                            is_inactive (poll_tree p) (attempt_context attempt) (poll_now p) = true)
  end.
Proof.
  destruct (inactive_failure tree (attempt_context attempt) now) as [failure|] eqn:Hi; unfold call; rewrite Hi.
  - rewrite bool_decide_eq_false_2 by done. destruct polls as [|p polls]; [split; [done|]; intros p Hp; by apply not_elem_of_nil in Hp|].
    cbn. split_and!; [done | done|]. exists [], p, polls. split_and!; [done | done|]. split; intros _; [by left | reflexivity].
  - rewrite bool_decide_eq_true_2 by done. apply run_call_pending.
Qed.

(** C33: Whatever publisher and subscriber do, and however the evidence is advanced in
    between, the accepted events of a stream are a start, deltas of its kind and at most one
    end, with increasing sequences and within the limits on events and bytes, where room
    is kept for the end; what was delivered is a beginning of them; and a failure that was
    delivered carries the progress of its attempt, on which no retry is ever advised. *)
Theorem stream_protocol (config : ProviderStreamConfig) (t : StreamTraffic) (Ht : stream_reachable config t) :
  let events := payload <$> stream_accepted t in let limits := config_limits config in
  well_formed events /\
  len events + (if existsb is_terminal_event events then 0 else 1) <= max_stream_events limits /\
  sum_of event_bytes events <= max_stream_bytes limits /\ Forall (fun e => event_bytes e <= max_delta_bytes limits) events /\
  strictly_sorted_by sequence (stream_accepted t) /\
  (exists pending, stream_accepted t = stream_delivered t ++ pending /\
     (receiver (stream_channel (stream t)) = true -> pending = queue (stream_channel (stream t)))) /\
  (forall e f replayable tree context now, e ∈ stream_delivered t -> payload e = StreamFailed f ->
     retry_advice_at f replayable tree context now = Never).
Proof.
  intros events limits. destruct (stream_reachable_spec config t Ht) as ((Hl & Hp & Hn & Hb & Hc & Hm & Hd & Hu & Hdn & Hf) & (_ & _ & _ & Hs & Hfifo)).
  cbn [channel_traffic accepted delivered channel] in *.
  assert (exists pending, stream_accepted t = stream_delivered t ++ pending /\
    (receiver (stream_channel (stream t)) = true -> pending = queue (stream_channel (stream t)))) as Hpre.
  { destruct (receiver (stream_channel (stream t))); [by eexists|]. destruct Hfifo as [lost ->]. by exists lost. }
  split_and!; try done.
  - by eapply phase_after_well_formed.
  - assert (existsb is_terminal_event events = bool_decide (phase (stream_state (stream t)) = Terminal)) as -> by by apply (phase_after_terminal _ _ _ Hp).
    case_bool_decide; [by rewrite decide_True in Hc | by rewrite decide_False in Hc].
  - intros e f replayable tree context now He Hpay. destruct Hpre as (pending & Hpre & _). rewrite Hpre in Hf.
    apply Forall_app in Hf as [Hf _]. rewrite Forall_forall in Hf. destruct (proj2 (Hf e He) f Hpay) as (p & H1 & H2). by eapply started_never_retried.
Qed.

Definition sample_config : ProviderStreamConfig := mk_ProviderStreamConfig 2 (mk_ProviderLimits 16 4 8 3).
Definition sample_traffic : StreamTraffic :=
  mk_StreamTraffic (mk_ProviderStream (mk_Channel [] 2 1 true None) StreamState_new ProviderAttemptProgress_new (config_limits sample_config)) [] [].
Definition sample_publish (t : StreamTraffic) (n : N) (event : ProviderStreamEvent) : StreamTraffic :=
  let envelope := mk_EventEnvelope n (mk_ModuleVersion 1 0 0) 0 event in
  let '(s, r) := try_publish_event false false id envelope (stream t) in
  mk_StreamTraffic s (if is_ok r then stream_accepted t ++ [bind_failure envelope (stream_evidence s)] else stream_accepted t) (stream_delivered t).
Definition sample_receive (t : StreamTraffic) : StreamTraffic :=
  let '(s, r) := receive_event 10 false 0 (stream t) in
  mk_StreamTraffic s (stream_accepted t) (match r with EventChannel.Complete (Event e) => stream_delivered t ++ [e] | _ => stream_delivered t end).
(** A start and a failure, both received. *)
Definition sample_published : StreamTraffic :=
  sample_publish (sample_publish sample_traffic 1 (StreamStarted V1)) 2 (StreamFailed (ProviderFailure_new UpstreamUnavailable)).
Definition sample_stream : StreamTraffic := sample_receive (sample_receive sample_published).
Lemma sample_publish_step t n event : stream_step t (sample_publish t n event).
Proof.
  unfold sample_publish. destruct (try_publish_event false false id _ (stream t)) as [s r] eqn:H.
  apply (stream_publish t false false id (mk_EventEnvelope n (mk_ModuleVersion 1 0 0) 0 event) s r); [intros p; apply rtc_refl | exact H].
Defined.
Lemma sample_receive_step t : receiver (stream_channel (stream t)) = true -> stream_step t (sample_receive t).
Proof.
  intros Hr. unfold sample_receive. destruct (receive_event 10 false 0 (stream t)) as [s r] eqn:H.
  exact (stream_receive t 10 false 0 s r Hr H).
Defined.
Lemma sample_stream_reachable : stream_reachable sample_config sample_stream.
Proof.
  split; [by vm_compute|]. exists ProviderAttemptProgress_new, (stream sample_traffic). split; [by vm_compute|].
  assert (rtc stream_step sample_traffic sample_published) as Hp.
  { eapply rtc_l; [apply sample_publish_step|]. apply rtc_once. unfold sample_published. apply sample_publish_step. }
  change (rtc stream_step sample_traffic sample_stream). transitivity sample_published; [exact Hp|].
  apply (rtc_l _ _ (sample_receive sample_published)); [apply sample_receive_step; by vm_compute|].
  apply rtc_once. apply (sample_receive_step (sample_receive sample_published)). by vm_compute.
Defined.
Lemma stream_protocol_witness : len (stream_delivered sample_stream) = 2 /\
  forall e f replayable tree context now, e ∈ stream_delivered sample_stream -> payload e = StreamFailed f ->
    retry_advice_at f replayable tree context now = Never.
Proof.
  split; [by vm_compute|]. destruct (stream_protocol sample_config sample_stream sample_stream_reachable) as (_ & _ & _ & _ & _ & _ & H). exact H.
Defined.
