(* ===== verification/Capability.v ===== *)
(** * The capability graph

    Models [crates/ariadnion-core/src/capability.rs]: versioned requirements, the
    bounded graph of capability providers, batch registration and resolution. *)

From S2P Require Import Prelude CoreTypes.
#[local] Open Scope N_scope.

Definition MAX_GRAPH_CAPABILITIES : N := 256.

#[export] Instance ModuleVersion_eq_dec : EqDecision ModuleVersion.
Proof. solve_decision. Defined.
(** The derived ordering: field by field. *)
#[export] Instance ModuleVersion_ord : Ord ModuleVersion := fun x y =>
  cmp (major x, (minor x, patch x)) (major y, (minor y, patch y)).

Record CapabilityRequirement := mk_CapabilityRequirement {
  required_id : CapabilityId;
  minimum : ModuleVersion;
  maximum_major : option N;
}.
Definition accepts (requirement : CapabilityRequirement) (version : ModuleVersion) : bool :=
  negb (is_lt version (minimum requirement))
  && is_none_or (fun maximum => major version <=? maximum) (maximum_major requirement).

Record CapabilityProvider := mk_CapabilityProvider {
  provided_id : CapabilityId;
  provider_version : ModuleVersion;
  provider_module : ModuleId;
}.
Record CapabilityBinding := mk_CapabilityBinding {
  requirement : CapabilityRequirement;
  provider : CapabilityProvider;
}.
(** [CapabilityResolution] is its bindings, [CapabilityGraph] its providers. *)
Definition CapabilityResolution := list CapabilityBinding.
Definition CapabilityGraph := list CapabilityProvider.

Definition provider_for (resolution : CapabilityResolution) (id : CapabilityId) : option CapabilityProvider :=
  provider <$> List.find (fun binding => bool_decide (required_id (requirement binding) = id)) resolution.

Definition capability_error (code : ErrorCode) (context : string) : CoreError :=
  with_internal_context (CoreError_from_code code) context.

Definition validate_batch_capacity (current incoming : N) : result CoreError unit :=
  reject_if (saturating_sub MAX_GRAPH_CAPABILITIES current <? incoming)
    (capability_error ResourceExhausted "capability provider limit reached").
Definition has_existing_provider (existing incoming : list CapabilityProvider) : bool :=
  existsb (fun candidate =>
    existsb (fun registered => bool_decide (provided_id registered = provided_id candidate)) existing) incoming.
(** [enumerate().any(..)]: some later provider of the batch has the same identity. *)
Fixpoint has_batch_duplicate (providers : list CapabilityProvider) : bool :=
  match providers with
  | [] => false
  | candidate :: others =>
      existsb (fun other => bool_decide (provided_id other = provided_id candidate)) others
      || has_batch_duplicate others
  end.

Definition register_batch (providers : list CapabilityProvider) : act CapabilityGraph CoreError unit :=
  graph ← get;
  lift (validate_batch_capacity (len graph) (len providers)) ;;
  lift (reject_if (has_existing_provider graph providers || has_batch_duplicate providers)
    (capability_error Conflict "duplicate capability provider")) ;;
  modify (fun graph => graph ++ providers).
Definition register (p : CapabilityProvider) : act CapabilityGraph CoreError unit := register_batch [p].

Definition resolve_requirement (graph : CapabilityGraph) (r : CapabilityRequirement)
    : result CoreError CapabilityBinding :=
  p ← ok_or (List.find (fun candidate => bool_decide (provided_id candidate = required_id r)) graph)
        (capability_error Unavailable "required capability is missing");
  reject_if (negb (accepts r (provider_version p)))
    (capability_error Conflict "capability version is incompatible") ;;
  mret (mk_CapabilityBinding r p).
Definition resolve (graph : CapabilityGraph) (requirements : list CapabilityRequirement)
    : result CoreError CapabilityResolution :=
  reject_if (MAX_GRAPH_CAPABILITIES <? len requirements)
    (capability_error ResourceExhausted "capability resolution limit reached") ;;
  collect (resolve_requirement graph) requirements.

(** ** Specification *)

(** A graph offers each capability once, within its bound. *)
Definition graph_wf (graph : CapabilityGraph) : Prop :=
  NoDup (provided_id <$> graph) /\ len graph <= MAX_GRAPH_CAPABILITIES.

(** The graphs batches can build. *)
Definition graph_step (graph graph' : CapabilityGraph) : Prop :=
  exists batch, (register_batch batch graph).1 = graph'.

Definition sample_version (n : N) : ModuleVersion := mk_ModuleVersion n 0 0.
Definition sample_provider (c : string) (v : N) (m : string) : CapabilityProvider :=
  mk_CapabilityProvider (MkId c) (sample_version v) (MkId m).
Definition sample_requirement (c : string) (v : N) : CapabilityRequirement :=
  mk_CapabilityRequirement (MkId c) (sample_version v) (Some v).
Definition sample_graph : CapabilityGraph :=
  [sample_provider "store.blob" 1 "module.store"; sample_provider "log.sink" 2 "module.log"].

(** ** Lemmas *)

#[export] Instance ModuleVersion_ord_laws : OrdLaws ModuleVersion.
Proof.
  split; unfold cmp, ModuleVersion_ord.
  - intros [] []. rewrite cmp_eq_iff. cbn. naive_solver.
  - intros x y. apply cmp_opp.
  - intros x y z. apply cmp_lt_trans.
Qed.

Lemma existing_provider_false existing incoming :
  has_existing_provider existing incoming = false <->
  (forall p, p ∈ incoming -> provided_id p ∉ (provided_id <$> existing)).
Proof.
  unfold has_existing_provider. rewrite <- not_true_iff_false, existsb_exists. split.
  - intros Hn p Hp (q & Hq & Hin)%list_elem_of_fmap. apply Hn. exists p. split; [by apply list_elem_of_In|].
    apply existsb_exists. exists q. split; [by apply list_elem_of_In|]. by apply bool_decide_eq_true.
  - intros Hall (p & Hp%list_elem_of_In & (q & Hq%list_elem_of_In & Heq%bool_decide_eq_true)%existsb_exists).
    apply (Hall p Hp). rewrite <- Heq. by apply list_elem_of_fmap_2.
Qed.
Lemma batch_duplicate_false ps : has_batch_duplicate ps = false <-> NoDup (provided_id <$> ps).
Proof.
  induction ps as [|p ps IH]; cbn; [split; [constructor|done]|].
  rewrite orb_false_iff, NoDup_cons, IH, <- not_true_iff_false, existsb_exists. split; intros [Hn ?]; split; try done.
  - intros (q & Hq & Hin)%list_elem_of_fmap. apply Hn. exists q. split; [by apply list_elem_of_In|].
    by apply bool_decide_eq_true.
  - intros (q & Hq%list_elem_of_In & Heq%bool_decide_eq_true). apply Hn. rewrite <- Heq. by apply list_elem_of_fmap_2.
Qed.

(** What a batch registration does, on every branch. *)
Lemma register_batch_run batch graph :
  register_batch batch graph =
    if saturating_sub MAX_GRAPH_CAPABILITIES (len graph) <? len batch
    then (graph, Err (capability_error ResourceExhausted "capability provider limit reached"))
    else if has_existing_provider graph batch || has_batch_duplicate batch
    then (graph, Err (capability_error Conflict "duplicate capability provider"))
    else (graph ++ batch, Ok tt).
Proof.
  unfold register_batch, validate_batch_capacity. rewrite act_get_run.
  destruct (_ <? _); cbn [reject_if]; [by rewrite act_lift_stop|]. rewrite act_lift_run.
  destruct (_ || _); cbn [reject_if]; [by rewrite act_lift_stop|]. by rewrite act_lift_run.
Qed.
Lemma register_batch_wf batch graph : graph_wf graph -> graph_wf (register_batch batch graph).1.
Proof.
  intros [Hnd Hlen]. rewrite register_batch_run. destruct (N.ltb_spec (saturating_sub MAX_GRAPH_CAPABILITIES (len graph)) (len batch)); [done|].
  destruct (has_existing_provider graph batch) eqn:He; [done|]. destruct (has_batch_duplicate batch) eqn:Hb; [done|].
  cbn. split.
  - rewrite fmap_app. apply NoDup_app. split; [done|]. split; [|by apply batch_duplicate_false].
    intros id Hid (p & -> & Hp)%list_elem_of_fmap. by apply (proj1 (existing_provider_false _ _) He p Hp).
  - unfold len, saturating_sub in *. rewrite length_app. lia.
Qed.
Lemma graph_reachable_wf graph : rtc graph_step [] graph -> graph_wf graph.
Proof.
  intros Hr. refine (rtc_invariant _ graph_wf _ _ _ Hr _).
  - intros x y Hx [batch <-]. by apply register_batch_wf.
  - split; [constructor|done].
Qed.

(** A well-formed graph resolves a requirement to the one provider there is. *)
Lemma find_provider graph id p :
  graph_wf graph ->
  List.find (fun candidate => bool_decide (provided_id candidate = id)) graph = Some p <->
  p ∈ graph /\ provided_id p = id.
Proof.
  intros [Hnd _]. split.
  - intros [Hin Hid%bool_decide_eq_true]%List.find_some. by rewrite list_elem_of_In.
  - intros [Hin Hid]. destruct (List.find _ graph) as [q|] eqn:Hf.
    + apply List.find_some in Hf as [Hq Hqid%bool_decide_eq_true]. apply list_elem_of_In in Hq. f_equal.
      apply list_elem_of_lookup in Hin as [i Hi], Hq as [j Hj].
      assert (i = j) as ->; [|congruence].
      eapply (NoDup_lookup _ _ _ id Hnd); rewrite list_lookup_fmap, ?Hi, ?Hj; cbn; by rewrite ?Hid, ?Hqid.
    + apply list_elem_of_In in Hin. pose proof (List.find_none _ _ Hf p Hin) as Hn. cbn in Hn.
      by rewrite bool_decide_eq_false in Hn.
Qed.
Lemma resolve_requirement_Ok graph r b :
  graph_wf graph ->
  resolve_requirement graph r = Ok b <->
  requirement b = r /\ provider b ∈ graph /\ provided_id (provider b) = required_id r /\
  accepts r (provider_version (provider b)) = true.
Proof.
  intros Hg. unfold resolve_requirement. split.
  - intros H. run_steps; tidy. match goal with H : List.find _ _ = Some _ |- _ => apply (find_provider _ _ _ Hg) in H as [? ?] end.
    by split_and!.
  - destruct b as [r' p]. cbn. intros (-> & Hin & Hid & Hacc).
    rewrite (proj2 (find_provider graph (required_id r) p Hg)) by done. cbn. by rewrite Hacc.
Qed.

(** ** Properties *)

(** Registration is atomic and keeps the graph a function.
    In every graph batches can build each capability has one provider and the bound
    holds; a batch is accepted exactly when it fits and introduces only new, distinct
    capabilities, and a refused batch leaves the graph as it was. *)
Theorem registration_atomic graph batch graph' r :
  rtc graph_step [] graph -> register_batch batch graph = (graph', r) ->
  graph_wf graph' /\
  match r with
  | Ok _ => graph' = graph ++ batch
  | Err e => graph' = graph /\
      ((ce_code e = ResourceExhausted /\ MAX_GRAPH_CAPABILITIES < len graph + len batch) \/
       (ce_code e = Conflict /\ ~ NoDup (provided_id <$> graph ++ batch)))
  end.
Proof.
  intros Hg%graph_reachable_wf Hrun. pose proof (register_batch_wf batch graph Hg) as Hg'. rewrite Hrun in Hg'.
  split; [done|]. rewrite register_batch_run in Hrun.
  destruct (N.ltb_spec (saturating_sub MAX_GRAPH_CAPABILITIES (len graph)) (len batch)) as [Hlt|Hge].
  - injection Hrun as <- <-. split; [done|]. left. split; [done|]. destruct Hg. unfold saturating_sub in Hlt. lia.
  - destruct (_ || _) eqn:Hdup; injection Hrun as <- <-; [|done]. split; [done|]. right. split; [done|].
    rewrite fmap_app, NoDup_app. intros (_ & Hfresh & Hnd). apply orb_true_iff in Hdup as [Hdup|Hdup].
    + enough (has_existing_provider graph batch = false) by congruence. apply existing_provider_false.
      intros p Hp Hin. apply (Hfresh _ Hin). by apply list_elem_of_fmap_2.
    + enough (has_batch_duplicate batch = false) by congruence. by apply batch_duplicate_false.
Qed.
Lemma registration_atomic_witness : graph_wf sample_graph.
Proof.
  refine (proj1 (registration_atomic [] sample_graph sample_graph (Ok tt) (rtc_refl _ _) _)).
  vm_compute. reflexivity.
Defined.

(** Resolution succeeds exactly when every requirement has a
    registered provider of an accepted version, and binds each requirement, in order,
    to that provider; otherwise the error names the first failing requirement's
    reason. *)
Theorem resolution_exact graph requirements :
  rtc graph_step [] graph -> len requirements <= MAX_GRAPH_CAPABILITIES ->
  match resolve graph requirements with
  | Ok bindings => Forall2 (fun r b => requirement b = r /\ provider b ∈ graph /\
      provided_id (provider b) = required_id r /\ accepts r (provider_version (provider b)) = true)
      requirements bindings
  | Err e => exists r, r ∈ requirements /\
      ((ce_code e = Unavailable /\ required_id r ∉ provided_id <$> graph) \/
       (ce_code e = Conflict /\ exists p, p ∈ graph /\ provided_id p = required_id r /\
          accepts r (provider_version p) = false))
  end.
Proof.
  intros Hg%graph_reachable_wf Hlen. unfold resolve. rewrite (proj2 (N.ltb_ge _ _) Hlen). cbn [reject_if].
  change (Ok tt ≫= ?f) with (f tt). cbn beta.
  destruct (collect _ requirements) as [bindings|e] eqn:Hc.
  - apply collect_Ok in Hc. eapply Forall2_impl; [exact Hc|]. intros r b. by apply resolve_requirement_Ok.
  - apply collect_Err in Hc as (r & Hr & He). exists r. split; [done|]. unfold resolve_requirement in He.
    run_steps; tidy; [right|left]; (split; [done|]).
    + match goal with H : List.find _ _ = Some ?p |- _ => apply (find_provider _ _ _ Hg) in H as [? ?]; by exists p end.
    + intros (p & Hid & Hp)%list_elem_of_fmap.
      match goal with H : List.find _ _ = None |- _ => by rewrite (proj2 (find_provider _ _ p Hg)) in H end.
Qed.
Lemma resolution_exact_witness :
  exists b, resolve sample_graph [sample_requirement "log.sink" 2] = Ok [b] /\ provider b ∈ sample_graph.
Proof.
  pose proof (resolution_exact sample_graph [sample_requirement "log.sink" 2]
    (rtc_once _ _ (ex_intro _ sample_graph eq_refl)) ltac:(vm_compute; discriminate)) as H.
  exists (mk_CapabilityBinding (sample_requirement "log.sink" 2) (sample_provider "log.sink" 2 "module.log")).
  split; [vm_compute; reflexivity|]. apply Forall2_cons_1 in H as [(_ & H & _) _]. exact H.
Defined.
