(* ===== verification/ModuleContract.v ===== *)
(** * Module descriptors and resource budgets

    Models [crates/ariadnion-core/src/resource.rs] and the descriptor and
    configuration half of [crates/ariadnion-core/src/module.rs].  Durations are
    nanoseconds.  The traits [ModuleFactory] and [ModuleHandle] are in [Lifecycle]. *)

From Stdlib Require Import Ascii.
From S2P Require Import Prelude CoreTypes Capability.
#[local] Open Scope N_scope.

Definition contract_error (code : ErrorCode) (context : string) : CoreError :=
  with_internal_context (CoreError_from_code code) context.

(** ** Resource budgets *)

Definition MAX_LIFECYCLE_DURATION : N := 24 * 60 * 60 * 1000000000.
Definition MAX_RESTARTS : N := N.shiftl 1 10.
Definition MAX_QUEUE_CAPACITY : N := N.shiftl 1 20.
Definition MAX_TASKS : N := N.shiftl 1 16.
Definition MAX_MEMORY_BYTES : N := N.shiftl 1 40.
Definition MAX_WASM_FUEL : N := N.shiftl 1 50.

(** A budget has the fields of its input. *)
Record LifecycleBudget := mk_LifecycleBudget {
  startup_timeout : N; health_timeout : N; shutdown_timeout : N; restart_delay : N; restart_limit : N;
}.
Record WasmBudgetLimits := mk_WasmBudgetLimits { fuel : N; wasm_memory_bytes : N; epoch_timeout : N }.
Inductive WasmBudget := Disabled | Limited (limits : WasmBudgetLimits).
Record ExecutionBudget := mk_ExecutionBudget {
  max_tasks : N; queue_capacity : N; max_memory_bytes : N; wasm : WasmBudget;
}.
Record ResourceBudget := mk_ResourceBudget { lifecycle : LifecycleBudget; execution : ExecutionBudget }.

Definition validate_lifecycle_duration (value : N) : result CoreError unit :=
  reject_if ((value =? 0) || (MAX_LIFECYCLE_DURATION <? value))
    (contract_error InvalidArgument "module lifecycle duration is outside its bound").
Definition validate_restart_limit (limit : N) : result CoreError unit :=
  reject_if (MAX_RESTARTS <? limit) (contract_error InvalidArgument "module restart count is outside its bound").
Definition validate_lifecycle_input (input : LifecycleBudget) : result CoreError unit :=
  validate_lifecycle_duration (startup_timeout input) ;;
  validate_lifecycle_duration (health_timeout input) ;;
  validate_lifecycle_duration (shutdown_timeout input) ;;
  validate_lifecycle_duration (restart_delay input) ;;
  validate_restart_limit (restart_limit input).
Definition LifecycleBudget_new (input : LifecycleBudget) : result CoreError LifecycleBudget :=
  validate_lifecycle_input input ;; mret input.

Definition validate_memory_budget (bytes : N) : result CoreError unit :=
  reject_if ((bytes =? 0) || (MAX_MEMORY_BYTES <? bytes))
    (contract_error InvalidArgument "module memory budget is outside its bound").
Definition validate_wasm_fuel (fuel : N) : result CoreError unit :=
  reject_if ((fuel =? 0) || (MAX_WASM_FUEL <? fuel))
    (contract_error InvalidArgument "WASM fuel budget is outside its bound").
Definition validate_wasm_input (input : WasmBudgetLimits) : result CoreError unit :=
  validate_wasm_fuel (fuel input) ;;
  validate_memory_budget (wasm_memory_bytes input) ;;
  validate_lifecycle_duration (epoch_timeout input).
Definition WasmBudget_limited (input : WasmBudgetLimits) : result CoreError WasmBudget :=
  validate_wasm_input input ;; mret (Limited input).
Definition WasmBudget_validate (w : WasmBudget) : result CoreError unit :=
  match w with Disabled => Ok tt | Limited limits => validate_wasm_input limits end.
Definition wasm_max_memory (w : WasmBudget) : option N :=
  match w with Disabled => None | Limited limits => Some (wasm_memory_bytes limits) end.

Definition validate_task_budget (tasks : N) : result CoreError unit :=
  reject_if ((tasks =? 0) || (MAX_TASKS <? tasks))
    (contract_error InvalidArgument "module task budget is outside its bound").
Definition validate_queue_capacity (capacity : N) : result CoreError unit :=
  reject_if ((capacity =? 0) || (MAX_QUEUE_CAPACITY <? capacity))
    (contract_error InvalidArgument "module queue capacity is outside its bound").
Definition validate_execution_input (input : ExecutionBudget) : result CoreError unit :=
  validate_task_budget (max_tasks input) ;;
  validate_queue_capacity (queue_capacity input) ;;
  validate_memory_budget (max_memory_bytes input) ;;
  WasmBudget_validate (wasm input).
Definition ExecutionBudget_new (input : ExecutionBudget) : result CoreError ExecutionBudget :=
  validate_execution_input input ;; mret input.

Definition validate_wasm_memory (e : ExecutionBudget) : result CoreError unit :=
  reject_if (is_some_and (fun bytes => max_memory_bytes e <? bytes) (wasm_max_memory (wasm e)))
    (contract_error InvalidArgument "WASM memory exceeds the module memory budget").
Definition ResourceBudget_validate (b : ResourceBudget) : result CoreError unit :=
  validate_lifecycle_input (lifecycle b) ;;
  validate_execution_input (execution b) ;;
  validate_wasm_memory (execution b).
Definition ResourceBudget_new (l : LifecycleBudget) (e : ExecutionBudget) : result CoreError ResourceBudget :=
  ResourceBudget_validate (mk_ResourceBudget l e) ;; mret (mk_ResourceBudget l e).
Definition conservative : ResourceBudget :=
  mk_ResourceBudget
    (mk_LifecycleBudget (5 * 1000000000) (2 * 1000000000) (20 * 1000000000) (1 * 1000000000) 3)
    (mk_ExecutionBudget 8 128 (16 * 1024 * 1024) Disabled).

(** ** Descriptors *)

Definition MAX_CAPABILITIES : N := 128.
Definition MAX_SECRET_CAPABILITIES : N := 64.
Definition MAX_SENSITIVE_PATHS : N := 64.
Definition MAX_NAMESPACE_BYTES : N := 128.
Definition MAX_SHUTDOWN_PRIORITY : N := 4095.
Definition CONFIGURATION_DIGEST_BYTES : N := 64.

Definition ShutdownPriority_new (value : N) : result CoreError N :=
  if MAX_SHUTDOWN_PRIORITY <? value
  then Err (contract_error InvalidArgument "module shutdown priority is outside its bound") else Ok value.

Definition validate_namespace (value : string) : result CoreError unit :=
  let invalid_shape := is_empty value || (MAX_NAMESPACE_BYTES <? byte_len value) in
  let invalid_alphabet := negb (is_ascii value) || any_byte is_ascii_control value in
  reject_if (invalid_shape || invalid_alphabet) (contract_error InvalidArgument "module namespace is invalid").

Record ConfigurationContract := mk_ConfigurationContract {
  contract_schema_id : string; contract_version : ModuleVersion; supports_hot_reload : bool;
}.
Definition ConfigurationContract_new (schema_id : string) (version : ModuleVersion) (hot : bool)
    : result CoreError ConfigurationContract :=
  validate_namespace schema_id ;; mret (mk_ConfigurationContract schema_id version hot).

(** [ModuleDescriptorInput] and [ModuleDescriptor]; a secret requirement wraps a
    capability requirement. *)
Record ModuleDescriptor := mk_ModuleDescriptor {
  descriptor_id : ModuleId;
  descriptor_version : ModuleVersion;
  build_commit : string;
  abi_version : AbiVersion;
  provided : list CapabilityProvider;
  required : list CapabilityRequirement;
  required_secret_capabilities : list CapabilityRequirement;
  configuration : ConfigurationContract;
  resources : ResourceBudget;
  shutdown_priority : N;
  sensitive_paths : list string;
  observability_namespace : string;
  audit_namespace : string;
}.

Definition validate_provider_ownership (module_id : ModuleId) (providers : list CapabilityProvider)
    : result CoreError unit :=
  reject_if (existsb (fun p => bool_decide (provider_module p <> module_id)) providers)
    (contract_error Conflict "capability provider owner differs from module descriptor").
Definition validate_capability_counts (provided required required_secrets : N) : result CoreError unit :=
  let ordinary_limit_exceeded := (MAX_CAPABILITIES <? provided) || (MAX_CAPABILITIES <? required) in
  reject_if (ordinary_limit_exceeded || (MAX_SECRET_CAPABILITIES <? required_secrets))
    (contract_error ResourceExhausted "module capability declaration limit reached").
Definition validate_sensitive_paths (paths : list string) : result CoreError unit :=
  reject_if (MAX_SENSITIVE_PATHS <? len paths)
    (contract_error ResourceExhausted "module sensitive path limit reached") ;;
  collect validate_namespace paths ;;
  mret tt.
Definition validate_descriptor_input (input : ModuleDescriptor) : result CoreError unit :=
  validate_capability_counts (len (provided input)) (len (required input)) (len (required_secret_capabilities input)) ;;
  validate_provider_ownership (descriptor_id input) (provided input) ;;
  validate_namespace (build_commit input) ;;
  validate_sensitive_paths (sensitive_paths input) ;;
  validate_namespace (observability_namespace input) ;;
  validate_namespace (audit_namespace input) ;;
  ResourceBudget_validate (resources input).
Definition ModuleDescriptor_new (input : ModuleDescriptor) : result CoreError ModuleDescriptor :=
  validate_descriptor_input input ;; mret input.

Record ModuleConfigurationSnapshot := mk_ModuleConfigurationSnapshot {
  snapshot_schema_id : string; snapshot_version : N; digest : string;
}.
Definition is_ascii_hexdigit (a : ascii) : bool :=
  is_ascii_digit a || in_range 65 70 (byte a) || in_range 97 102 (byte a).
Definition validate_configuration_version (version : N) : result CoreError unit :=
  reject_if (version =? 0) (contract_error InvalidArgument "configuration snapshot version must be positive").
Definition validate_configuration_digest (digest : string) : result CoreError unit :=
  reject_if (negb ((byte_len digest =? CONFIGURATION_DIGEST_BYTES) && all_bytes is_ascii_hexdigit digest))
    (contract_error InvalidArgument "configuration snapshot digest is invalid").
Definition ModuleConfigurationSnapshot_new (schema_id : string) (version : N) (digest : string)
    : result CoreError ModuleConfigurationSnapshot :=
  validate_configuration_version version ;;
  validate_namespace schema_id ;;
  validate_configuration_digest digest ;;
  mret (mk_ModuleConfigurationSnapshot schema_id version digest).

(** ** Specification *)

Definition namespace_ok (value : string) : Prop :=
  1 <= byte_len value <= MAX_NAMESPACE_BYTES /\ is_ascii value = true /\ any_byte is_ascii_control value = false.
Definition duration_ok (value : N) : Prop := 1 <= value <= MAX_LIFECYCLE_DURATION.
Definition memory_ok (bytes : N) : Prop := 1 <= bytes <= MAX_MEMORY_BYTES.
Record lifecycle_ok (l : LifecycleBudget) : Prop := {
  lk_startup : duration_ok (startup_timeout l);
  lk_health : duration_ok (health_timeout l);
  lk_shutdown : duration_ok (shutdown_timeout l);
  lk_delay : duration_ok (restart_delay l);
  lk_restarts : restart_limit l <= MAX_RESTARTS;
}.
Record execution_ok (e : ExecutionBudget) : Prop := {
  ek_tasks : 1 <= max_tasks e <= MAX_TASKS;
  ek_queue : 1 <= queue_capacity e <= MAX_QUEUE_CAPACITY;
  ek_memory : memory_ok (max_memory_bytes e);
  (** An enabled WASM boundary is bounded, and fits the module's own memory. *)
  ek_wasm : forall limits, wasm e = Limited limits ->
    1 <= fuel limits <= MAX_WASM_FUEL /\ duration_ok (epoch_timeout limits) /\
    1 <= wasm_memory_bytes limits <= max_memory_bytes e;
}.
Record descriptor_ok (d : ModuleDescriptor) : Prop := {
  dk_provided : len (provided d) <= MAX_CAPABILITIES;
  dk_required : len (required d) <= MAX_CAPABILITIES;
  dk_secrets : len (required_secret_capabilities d) <= MAX_SECRET_CAPABILITIES;
  dk_owner : forall p, p ∈ provided d -> provider_module p = descriptor_id d;
  dk_commit : namespace_ok (build_commit d);
  dk_paths : len (sensitive_paths d) <= MAX_SENSITIVE_PATHS /\ Forall namespace_ok (sensitive_paths d);
  dk_observability : namespace_ok (observability_namespace d);
  dk_audit : namespace_ok (audit_namespace d);
  dk_lifecycle : lifecycle_ok (lifecycle (resources d));
  dk_execution : execution_ok (execution (resources d));
}.

Definition sample_descriptor : ModuleDescriptor :=
  mk_ModuleDescriptor (MkId "module.store") (sample_version 1) "0123abc" (mk_AbiVersion (sample_version 1) 1)
    [sample_provider "store.blob" 1 "module.store"] [] [] (mk_ConfigurationContract "store" (sample_version 1) false)
    conservative 10 ["secret.path"] "store" "audit.store".

(** ** Lemmas *)

Lemma bind_tt_Ok {E A} (m : result E unit) (f : unit -> result E A) a :
  m ≫= f = Ok a <-> m = Ok tt /\ f tt = Ok a.
Proof. destruct m as [[]|e]; cbn; naive_solver. Qed.
Lemma reject_if_tt {E} c (e : E) : reject_if c e = Ok tt <-> c = false.
Proof. by destruct c. Qed.
Lemma bounded_Ok {E} n max (e : E) : reject_if ((n =? 0) || (max <? n)) e = Ok tt <-> 1 <= n <= max.
Proof. rewrite reject_if_tt, orb_false_iff, N.eqb_neq, N.ltb_ge. lia. Qed.

Lemma namespace_Ok value : validate_namespace value = Ok tt <-> namespace_ok value.
Proof.
  unfold validate_namespace, namespace_ok. rewrite reject_if_tt, !orb_false_iff, N.ltb_ge, negb_false_iff.
  unfold is_empty. rewrite N.eqb_neq. split; intros; destruct_and!; split_and!; try done; lia.
Qed.
Lemma lifecycle_Ok l : validate_lifecycle_input l = Ok tt <-> lifecycle_ok l.
Proof.
  unfold validate_lifecycle_input, validate_lifecycle_duration, validate_restart_limit.
  rewrite !bind_tt_Ok, !bounded_Ok, reject_if_tt, N.ltb_ge.
  split; [by intros (? & ? & ? & ? & ?)|by intros []].
Qed.
Lemma execution_Ok e :
  validate_execution_input e = Ok tt /\ validate_wasm_memory e = Ok tt <-> execution_ok e.
Proof.
  unfold validate_execution_input, validate_task_budget, validate_queue_capacity, validate_memory_budget, validate_wasm_memory.
  rewrite !bind_tt_Ok, !bounded_Ok, reject_if_tt. destruct (wasm e) as [|limits] eqn:Hw; cbn [WasmBudget_validate wasm_max_memory is_some_and].
  - split; [intros ((? & ? & ? & _) & _); split; try done; congruence|by intros []].
  - unfold validate_wasm_input, validate_wasm_fuel, validate_memory_budget, validate_lifecycle_duration.
    rewrite !bind_tt_Ok, !bounded_Ok, N.ltb_ge. split.
    + intros ((? & ? & ? & ? & ? & ?) & ?). split; try done. rewrite Hw. intros ? [= <-].
      split_and!; try done; lia.
    + intros [? ? Hm Hwasm]. destruct (Hwasm limits Hw) as (? & ? & ?). unfold memory_ok, duration_ok in *.
      split_and!; lia.
Qed.
Lemma owner_Ok id ps : validate_provider_ownership id ps = Ok tt <-> forall p, p ∈ ps -> provider_module p = id.
Proof.
  unfold validate_provider_ownership. rewrite reject_if_tt, <- not_true_iff_false, existsb_exists. split.
  - intros Hn p Hp. apply dec_stable. intros Hne. apply Hn. exists p. split; [by apply list_elem_of_In|].
    by apply bool_decide_eq_true.
  - intros Hall (p & Hp%list_elem_of_In & Hne%bool_decide_eq_true). by apply Hne, Hall.
Qed.
Lemma paths_Ok paths :
  validate_sensitive_paths paths = Ok tt <-> len paths <= MAX_SENSITIVE_PATHS /\ Forall namespace_ok paths.
Proof.
  unfold validate_sensitive_paths. rewrite bind_tt_Ok, reject_if_tt, N.ltb_ge. apply and_iff_compat_l.
  destruct (collect validate_namespace paths) as [us|e] eqn:Hc; cbn.
  - apply collect_Ok in Hc. split; [intros _|done]. induction Hc as [|x [] xs us Hx _ IH]; constructor; [|done].
    by apply namespace_Ok.
  - split; [done|]. intros Hall. apply collect_Err in Hc as (x & Hx & He).
    rewrite Forall_forall in Hall. by rewrite (proj2 (namespace_Ok x) (Hall x Hx)) in He.
Qed.

(** ** Properties *)

(** A module descriptor is accepted, unchanged, exactly when it
    respects every bound: capability counts, ownership of what it provides, the
    namespaces and paths, and resource budgets that are non-zero, bounded and
    consistent (an enabled WASM memory fits the module's memory). *)
Theorem descriptor_accepted_iff input d :
  ModuleDescriptor_new input = Ok d <-> d = input /\ descriptor_ok input.
Proof.
  unfold ModuleDescriptor_new, validate_descriptor_input, ResourceBudget_validate, validate_capability_counts.
  rewrite !bind_tt_Ok, !namespace_Ok, lifecycle_Ok, execution_Ok, owner_Ok, paths_Ok, reject_if_tt, !orb_false_iff, !N.ltb_ge.
  split.
  - intros H. repeat match goal with H : _ /\ _ |- _ => destruct H end. match goal with H : mret _ = _ |- _ => injection H as <- end. split; [done|]. by split.
  - intros [-> []]. split; [|done]. repeat (split; [tauto|]). tauto.
Qed.
