(* ===== verification/DependencyOrder.v ===== *)
(** * Dependency orders

    The graph algorithms of [crates/ariadnion-core/src/lifecycle.rs], on module
    indices: the search behind cycle detection, the startup order (Kahn's algorithm)
    and the shutdown order.  [dependencies] has one entry per module, the indices of
    its providers; what the functions ask of a module is a parameter: whether it
    participates, whether it has a live handle, and its shutdown key. *)

From S2P Require Import Prelude CoreTypes.
#[local] Open Scope nat_scope.

(** [dependencies[index]]; every index stored in a graph is in range ([dependencies_wf]). *)
Definition providers_of (dependencies : list (list nat)) (index : nat) : list nat :=
  default [] (dependencies !! index).

(** ** Cycle detection: [dependency_path_returns_to]

    Each module is expanded at most once, so the queue sees at most the origin's
    providers and every module's providers once: that many rounds, and one more to
    see the queue empty, are enough. *)
Fixpoint search (fuel origin : nat) (dependencies : list (list nat)) (pending : list nat) (visited : list bool) : bool :=
  match pending, fuel with
  | [], _ | _, O => false
  | index :: pending, S fuel =>
      if index =? origin then true
      else if default false (visited !! index) then search fuel origin dependencies pending visited
      else search fuel origin dependencies (pending ++ providers_of dependencies index) (<[index := true]> visited)
  end.
Definition search_bound (dependencies : list (list nat)) (origin : nat) : nat :=
  S (length (providers_of dependencies origin) + sum_list_with length dependencies).
Definition dependency_path_returns_to (origin : nat) (dependencies : list (list nat)) : bool :=
  search (search_bound dependencies origin) origin dependencies
    (providers_of dependencies origin) (replicate (length dependencies) false).

(** ** Startup order: [dependency_order] *)

(** One consumer of the loop in [release_dependents]. *)
Definition release_dependent (provider : nat) (dependencies : list (list nat))
    (state : list nat * list nat) (consumer : nat) : list nat * list nat :=
  let '(indegrees, queue) := state in
  let degree := default 0 (indegrees !! consumer) in
  if bool_decide (provider ∈ providers_of dependencies consumer) && (0 <? degree)
  then (<[consumer := degree - 1]> indegrees, if degree - 1 =? 0 then queue ++ [consumer] else queue)
  else (indegrees, queue).
Definition release_dependents (provider : nat) (dependencies : list (list nat)) (indegrees queue : list nat)
    : list nat * list nat :=
  foldl (release_dependent provider dependencies) (indegrees, queue) (seq 0 (length dependencies)).

(** The loop over the queue; every module enters it at most once. *)
Fixpoint drain (fuel : nat) (dependencies : list (list nat)) (queue indegrees order : list nat) : list nat :=
  match queue, fuel with
  | [], _ | _, O => order
  | provider :: queue, S fuel =>
      let '(indegrees, queue) := release_dependents provider dependencies indegrees queue in
      drain fuel dependencies queue indegrees (order ++ [provider])
  end.
Definition initial_queue (participates : nat -> bool) (indegrees : list nat) : list nat :=
  List.filter (fun index => participates index && (default 0 (indegrees !! index) =? 0)) (seq 0 (length indegrees)).
Definition dependency_order (participates : nat -> bool) (dependencies : list (list nat)) : list nat :=
  let indegrees := length <$> dependencies in
  drain (length dependencies) dependencies (initial_queue participates indegrees) indegrees [].

(** ** Shutdown order: [shutdown_order] *)

(** [Ord::cmp] with its operands exchanged. *)
Record Reverse (A : Type) := reverse { unreverse : A }.
Arguments reverse {A} _.
Arguments unreverse {A} _.
#[export] Instance Reverse_ord {A} `{Ord A} : Ord (Reverse A) := fun x y => cmp (unreverse y) (unreverse x).

(** [saturating_add] on a [usize]. *)
Definition count_dependent (counts : list N) (provider : nat) : list N :=
  <[provider := saturating_add u64_max (default 0%N (counts !! provider)) 1]> counts.
Definition dependent_counts (dependencies : list (list nat)) : list N :=
  foldl (fun counts providers => foldl count_dependent counts providers)
    (replicate (length dependencies) 0%N) dependencies.
Definition release_shutdown_dependencies (consumer : nat) (dependencies : list (list nat)) (dependents : list N) : list N :=
  foldl (fun dependents provider =>
    <[provider := saturating_sub (default 0%N (dependents !! provider)) 1]> dependents)
    dependents (providers_of dependencies consumer).

Section shutdown.
  (** [handle.is_some()], and the shutdown priority and identity of a module. *)
  Variable live : nat -> bool.
  Variable key : nat -> Reverse N * ModuleId.

Definition shutdown_candidates (dependents : list N) (selected : list bool) (require_leaf : bool) : list nat :=
  List.filter (fun index => live index && negb (default false (selected !! index))
    && (negb require_leaf || (default 0%N (dependents !! index) =? 0)%N)) (seq 0 (length selected)).
Definition next_shutdown_module (dependents : list N) (selected : list bool) : option nat :=
  let leaves := shutdown_candidates dependents selected true in
  let eligible := if decide (leaves = []) then shutdown_candidates dependents selected false else leaves in
  head (sort_by key eligible).
Fixpoint select (fuel : nat) (dependencies : list (list nat)) (dependents : list N) (selected : list bool)
    (target : nat) (order : list nat) : list nat :=
  if target <=? length order then order
  else match next_shutdown_module dependents selected, fuel with
       | None, _ | _, O => order
       | Some index, S fuel =>
           select fuel dependencies (release_shutdown_dependencies index dependencies dependents)
             (<[index := true]> selected) target (order ++ [index])
       end.
Definition shutdown_order (dependencies : list (list nat)) : list nat :=
  let target := length (List.filter live (seq 0 (length dependencies))) in
  select target dependencies (dependent_counts dependencies) (replicate (length dependencies) false) target [].
End shutdown.

(** ** Specification *)

(** [consumer] depends on [provider]. *)
Definition depends (dependencies : list (list nat)) (consumer provider : nat) : Prop :=
  provider ∈ providers_of dependencies consumer.
(** Providers are in range and listed once. *)
Definition dependencies_wf (dependencies : list (list nat)) : Prop :=
  forall i, NoDup (providers_of dependencies i) /\ Forall (fun d => d < length dependencies) (providers_of dependencies i).

(** ** Lemmas *)

Lemma consumer_range dependencies i j : depends dependencies i j -> i < length dependencies.
Proof.
  unfold depends, providers_of. intros Hd. destruct (dependencies !! i) eqn:Hi; [by eapply lookup_lt_Some|].
  by apply not_elem_of_nil in Hd.
Qed.
Lemma provider_range dependencies i j : dependencies_wf dependencies -> depends dependencies i j -> j < length dependencies.
Proof. intros Hwf Hd. destruct (Hwf i) as [_ Hall]. by apply (proj1 (Forall_forall _ _) Hall). Qed.

Lemma providers_seq dependencies : providers_of dependencies <$> seq 0 (length dependencies) = dependencies.
Proof.
  apply list_eq. intros i. rewrite list_lookup_fmap. destruct (decide (i < length dependencies)) as [Hi|Hi].
  - rewrite lookup_seq_lt by done. cbn. unfold providers_of. destruct (lookup_lt_is_Some_2 _ _ Hi) as [ps ->]. done.
  - rewrite lookup_seq_ge, lookup_ge_None_2 by lia. done.
Qed.
Lemma ltb_succ c m : c <> m -> (c <? S m) = (c <? m).
Proof. intros Hc. destruct (Nat.ltb_spec c (S m)), (Nat.ltb_spec c m); done || lia. Qed.
Lemma sum_list_with_ext {A} (f g : A -> nat) l : (forall x, x ∈ l -> f x = g x) -> sum_list_with f l = sum_list_with g l.
Proof.
  induction l as [|x l IH]; intros H; [done|]. cbn. rewrite (H x), IH; [done|set_solver|set_solver].
Qed.
Lemma sum_list_with_fmap {A B} (f : B -> nat) (g : A -> B) l : sum_list_with f (g <$> l) = sum_list_with (fun x => f (g x)) l.
Proof. induction l as [|x l IH]; [done|]. cbn. by rewrite IH. Qed.
Lemma NoDup_range_length (l : list nat) n : NoDup l -> (forall i, i ∈ l -> i < n) -> length l <= n.
Proof.
  intros Hnd Hl. rewrite <- (length_seq n 0). apply submseteq_length, NoDup_submseteq; [done|].
  intros i Hi. apply elem_of_seq. split; [lia|]. by apply Hl.
Qed.

(** *** Cycle detection *)

Section search_facts.
  Context (dependencies : list (list nat)) (Hwf : dependencies_wf dependencies) (origin : nat).
  Notation edge := (depends dependencies).

(** The providers not yet expanded bound what may still be queued. *)
Definition unexpanded (visited : list bool) : nat :=
  sum_list_with (fun i => if default false (visited !! i) then 0 else length (providers_of dependencies i))
    (seq 0 (length dependencies)).
Record search_inv (pending : list nat) (visited : list bool) : Prop := {
  sv_length : length visited = length dependencies;
  sv_pending : forall i, i ∈ pending -> tc edge origin i;
  sv_origin : default false (visited !! origin) = false;
  sv_visited : forall i, default false (visited !! i) = true -> tc edge origin i;
  sv_first : forall j, edge origin j -> default false (visited !! j) = true \/ j ∈ pending;
  sv_closed : forall i j, default false (visited !! i) = true -> edge i j ->
    default false (visited !! j) = true \/ j ∈ pending;
}.

Lemma visit_lookup visited i j :
  i < length visited -> default false (<[i := true]> visited !! j) = (i =? j) || default false (visited !! j).
Proof.
  intros Hi. destruct (Nat.eqb_spec i j) as [->|Hne]; cbn [orb].
  - by rewrite list_lookup_insert_eq.
  - by rewrite list_lookup_insert_ne.
Qed.
Lemma unexpanded_visit visited i :
  i < length dependencies -> length visited = length dependencies -> default false (visited !! i) = false ->
  unexpanded visited = length (providers_of dependencies i) + unexpanded (<[i := true]> visited).
Proof.
  intros Hi Hlen Hv. unfold unexpanded.
  assert (seq 0 (length dependencies) = seq 0 i ++ i :: seq (S i) (length dependencies - S i)) as ->.
  { replace (length dependencies) with (i + S (length dependencies - S i)) at 1 by lia. by rewrite seq_app. }
  rewrite !sum_list_with_app. cbn [sum_list_with]. rewrite visit_lookup, Nat.eqb_refl, Hv by lia. cbn [orb].
  rewrite !(sum_list_with_ext (fun j => if default false (<[i:=true]> visited !! j) then 0 else _)
    (fun j => if default false (visited !! j) then 0 else length (providers_of dependencies j))); [lia| |];
    intros j Hj%elem_of_seq; rewrite visit_lookup by lia; destruct (Nat.eqb_spec i j); lia || done.
Qed.
Lemma tc_range i j : tc edge i j -> j < length dependencies.
Proof. induction 1 as [i j Hij|]; [by eapply provider_range|done]. Qed.
Lemma search_skip pending visited i :
  search_inv (i :: pending) visited -> default false (visited !! i) = true -> search_inv pending visited.
Proof.
  intros [Hlen Hp Ho Hv Hf Hc] Hi. split; [done| | done | done | |].
  - intros j Hj. apply Hp. by right.
  - intros j [Hj|[->|Hj]%elem_of_cons]%Hf; [by left|by left|by right].
  - intros j k Hj Hk. destruct (Hc j k Hj Hk) as [?|[->|?]%elem_of_cons]; [by left|by left|by right].
Qed.
Lemma search_expand pending visited i :
  search_inv (i :: pending) visited -> i <> origin -> default false (visited !! i) = false ->
  search_inv (pending ++ providers_of dependencies i) (<[i := true]> visited).
Proof.
  intros [Hlen Hp Ho Hv Hf Hc] Hne Hi.
  assert (Hoi : tc edge origin i) by (apply Hp; by left).
  assert (Hil : i < length visited) by (rewrite Hlen; by eapply tc_range).
  split; [by rewrite length_insert| | | | |].
  - intros j [Hj|Hj]%elem_of_app; [apply Hp; by right|]. by eapply tc_r.
  - rewrite visit_lookup, Ho by done. destruct (Nat.eqb_spec i origin); done.
  - intros j. rewrite visit_lookup by done. destruct (Nat.eqb_spec i j) as [<-|]; [done|]. apply Hv.
  - intros j Hj. rewrite visit_lookup, elem_of_app by done. destruct (Nat.eqb_spec i j) as [<-|]; [by left|].
    apply Hf in Hj as [?|[->|?]%elem_of_cons]; [by left|done|auto].
  - intros j k. rewrite !visit_lookup, elem_of_app by done.
    destruct (Nat.eqb_spec i k) as [<-|]; [by left|]. destruct (Nat.eqb_spec i j) as [<-|]; [auto|].
    intros Hj Hk. destruct (Hc j k Hj Hk) as [?|[->|?]%elem_of_cons]; [by left|done|auto].
Qed.
Lemma search_exact fuel pending visited :
  search_inv pending visited -> length pending + unexpanded visited < fuel ->
  search fuel origin dependencies pending visited = true <-> tc edge origin origin.
Proof.
  revert pending visited. induction fuel as [|fuel IH]; intros pending visited Hinv Hfuel; [lia|].
  destruct pending as [|i pending]; cbn [search].
  { split; [done|]. intros Ht. exfalso.
    assert (forall j, tc edge origin j -> default false (visited !! j) = true) as H.
    { intros j Hj. apply (tc_ind_r (R := edge) (fun j => default false (visited !! j) = true) origin); [| |done].
      - intros k Hk. by destruct (sv_first _ _ Hinv k Hk) as [|?%not_elem_of_nil].
      - intros k l _ Hkl Hk. by destruct (sv_closed _ _ Hinv k l Hk Hkl) as [|?%not_elem_of_nil]. }
    apply H in Ht. by rewrite (sv_origin _ _ Hinv) in Ht. }
  destruct (Nat.eqb_spec i origin) as [->|Hne].
  { split; [|done]. intros _. apply (sv_pending _ _ Hinv). by left. }
  cbn [length] in Hfuel. destruct (default false (visited !! i)) eqn:Hi.
  { apply IH; [by eapply search_skip|lia]. }
  pose proof (search_expand _ _ _ Hinv Hne Hi) as Hnext. apply IH; [done|].
  assert (i < length dependencies) as Hil by (eapply tc_range, (sv_pending _ _ Hinv); by left).
  rewrite length_app. rewrite (unexpanded_visit visited i) in Hfuel by (done || apply Hinv). lia.
Qed.
Lemma search_start : origin < length dependencies ->
  search_inv (providers_of dependencies origin) (replicate (length dependencies) false).
Proof.
  intros Ho. assert (forall i, default false (replicate (length dependencies) false !! i) = false) as Hr.
  { intros i. destruct (replicate _ _ !! i) as [b|] eqn:E; [|done]. by apply lookup_replicate in E as [-> _]. }
  split; [by rewrite length_replicate| |done| | |].
  - intros i Hi. by apply tc_once.
  - intros i. by rewrite Hr.
  - intros j Hj. by right.
  - intros i j. by rewrite Hr.
Qed.
Lemma unexpanded_start : unexpanded (replicate (length dependencies) false) = sum_list_with length dependencies.
Proof.
  rewrite <- (providers_seq dependencies) at 2. rewrite sum_list_with_fmap. unfold unexpanded.
  apply sum_list_with_ext. intros i _. destruct (replicate _ _ !! i) as [b|] eqn:E; [|done].
  by apply lookup_replicate in E as [-> _].
Qed.
Lemma path_returns_iff : origin < length dependencies ->
  dependency_path_returns_to origin dependencies = true <-> tc edge origin origin.
Proof.
  intros Ho. apply search_exact; [by apply search_start|]. rewrite unexpanded_start. unfold search_bound. lia.
Qed.
End search_facts.

(** *** Startup order *)

Section kahn_facts.
  Context (dependencies : list (list nat)) (Hwf : dependencies_wf dependencies).
  Context (participates : nat -> bool).
  Context (Hpart : forall i j, depends dependencies i j -> participates i = true /\ participates j = true).
  Notation edge := (depends dependencies).
  Notation n := (length dependencies).

(** Whether the loop of [release_dependents] lowers the indegree of a consumer. *)
Definition lowered (provider : nat) (indegrees : list nat) (c : nat) : bool :=
  bool_decide (provider ∈ providers_of dependencies c) && (0 <? default 0 (indegrees !! c)).

Lemma release_prefix provider indegrees queue m : length indegrees = n -> m <= n ->
  exists indegrees',
    foldl (release_dependent provider dependencies) (indegrees, queue) (seq 0 m) =
      (indegrees', queue ++ List.filter (fun c => lowered provider indegrees c && (default 0 (indegrees !! c) =? 1)) (seq 0 m)) /\
    length indegrees' = n /\
    forall c, default 0 (indegrees' !! c) =
      default 0 (indegrees !! c) - (if (c <? m) && lowered provider indegrees c then 1 else 0).
Proof.
  intros Hlen. induction m as [|m IH]; intros Hm.
  { exists indegrees. cbn. rewrite app_nil_r. split; [done|]. split; [done|]. intros c. lia. }
  destruct IH as (inds & Hfold & Hl & Hv); [lia|].
  rewrite seq_S, foldl_app, Hfold, List.filter_app. cbn [foldl plus].
  assert (default 0 (inds !! m) = default 0 (indegrees !! m)) as Hm0
    by (rewrite Hv, Nat.ltb_irrefl; cbn [andb]; lia).
  unfold release_dependent at 1. rewrite Hm0.
  fold (lowered provider indegrees m). cbn [List.filter].
  destruct (lowered provider indegrees m) eqn:Hlow; cbn [andb].
  - apply andb_true_iff in Hlow as Hpos. destruct Hpos as [_ Hpos%Nat.ltb_lt].
    exists (<[m:=default 0 (indegrees !! m) - 1]> inds). split; [|split].
    + f_equal. destruct (Nat.eqb_spec (default 0 (indegrees !! m)) 1) as [->|Hne]; cbn; [by rewrite app_assoc|].
      rewrite (proj2 (Nat.eqb_neq _ _)) by lia. by rewrite app_nil_r.
    + by rewrite length_insert.
    + intros c. destruct (decide (c = m)) as [->|Hc].
      * rewrite list_lookup_insert_eq by lia. rewrite (proj2 (Nat.ltb_lt m (S m))), Hlow by lia. done.
      * rewrite list_lookup_insert_ne, Hv by done. rewrite ltb_succ by done. done.
  - exists inds. rewrite app_nil_r. split; [done|]. split; [done|]. intros c. rewrite Hv.
    destruct (decide (c = m)) as [->|Hc]; [rewrite Hlow, !andb_false_r; done|].
    rewrite ltb_succ by done. done.
Qed.

(** The providers of [ps] that are not in [order] yet. *)
Definition missing (order ps : list nat) : nat := length (filter (fun j => j ∉ order) ps).

Lemma missing_zero order ps : missing order ps = 0 <-> forall j, j ∈ ps -> j ∈ order.
Proof.
  unfold missing. split.
  - intros H%nil_length_inv j Hj. destruct (decide (j ∈ order)) as [|Hn]; [done|].
    assert (j ∈ filter (fun j => j ∉ order) ps) as Hf by (by apply list_elem_of_filter). rewrite H in Hf. by apply not_elem_of_nil in Hf.
  - intros H. induction ps as [|p ps IH]; [done|]. rewrite filter_cons_False; [apply IH; set_solver|].
    intros Hn. apply Hn, H. by left.
Qed.
Lemma missing_snoc order ps p : NoDup ps -> p ∉ order ->
  missing order ps = missing (order ++ [p]) ps + (if decide (p ∈ ps) then 1 else 0).
Proof.
  intros Hnd Hp. unfold missing. induction Hnd as [|q ps Hq Hnd IH]; [done|].
  rewrite !filter_cons. destruct (decide (q = p)) as [->|Hne].
  - destruct (decide (p ∉ order)) as [_|]; [|done]. destruct (decide (p ∉ order ++ [p])) as [Hn|_]; [set_solver|].
    rewrite (decide_False (P := p ∈ ps)) in IH by done. rewrite decide_True by (by left). cbn [length]. lia.
  - assert (q ∉ order <-> q ∉ order ++ [p]) as E by set_solver.
    destruct (decide (q ∉ order)), (decide (q ∉ order ++ [p])); [|tauto|tauto|];
      destruct (decide (p ∈ ps)), (decide (p ∈ q :: ps)); cbn [length]; try lia; set_solver.
Qed.

Record kahn_inv (queue indegrees order : list nat) : Prop := {
  kv_length : length indegrees = n;
  kv_unique : NoDup (order ++ queue);
  kv_degree : forall c, default 0 (indegrees !! c) = missing order (providers_of dependencies c);
  kv_elem : forall c, c ∈ order ++ queue <-> c < n /\ participates c = true /\ forall j, edge c j -> j ∈ order;
  kv_before : forall a c j, order !! a = Some c -> edge c j -> j ∈ take a order;
}.

Lemma kahn_start : kahn_inv (initial_queue participates (length <$> dependencies)) (length <$> dependencies) [].
Proof.
  assert (forall c, default 0 ((length <$> dependencies) !! c) = missing [] (providers_of dependencies c)) as Hdeg.
  { intros c. rewrite list_lookup_fmap. unfold providers_of, missing. destruct (dependencies !! c) as [ps|]; [|done].
    cbn. f_equal. symmetry. induction ps as [|p ps IH]; [done|]. rewrite filter_cons_True by apply not_elem_of_nil. by rewrite IH. }
  unfold initial_queue. split; [by rewrite length_fmap| |done| |done].
  - apply NoDup_list_filter, NoDup_seq.
  - intros c. cbn [app]. rewrite elem_of_list_filter, elem_of_seq, length_fmap, andb_true_iff, Nat.eqb_eq, Hdeg, missing_zero.
    unfold depends. split; [intros [? [??]]|intros [? [??]]]; split_and!; auto; lia.
Qed.

Lemma kahn_step p queue indegrees order queue' indegrees' :
  kahn_inv (p :: queue) indegrees order ->
  release_dependents p dependencies indegrees queue = (indegrees', queue') ->
  kahn_inv queue' indegrees' (order ++ [p]).
Proof.
  intros [Hlen Hnd Hdeg Helem Hbef] Hrun.
  destruct (release_prefix p indegrees queue n) as (inds & Hfold & Hl & Hv); [done|done|].
  unfold release_dependents in Hrun. rewrite Hfold in Hrun. injection Hrun as <- <-.
  assert (Hpo : p ∉ order) by (apply NoDup_app in Hnd as (_ & Hd & _); intros Hin; by apply (Hd p Hin); left).
  assert (Hpe : p < n /\ participates p = true /\ forall j, edge p j -> j ∈ order) by (apply Helem; set_solver).
  assert (Hdeg' : forall c, default 0 (inds !! c) = missing (order ++ [p]) (providers_of dependencies c)).
  { intros c. rewrite Hv, Hdeg, (missing_snoc order _ p) by (done || apply (proj1 (Hwf _))). unfold lowered.
    destruct (decide (p ∈ providers_of dependencies c)) as [Hin|Hin].
    - rewrite bool_decide_true by done. rewrite (proj2 (Nat.ltb_lt c n)) by (by eapply consumer_range).
      rewrite (proj2 (Nat.ltb_lt 0 _)); cbn [andb]; [lia|]. rewrite Hdeg, (missing_snoc order _ p) by (done || apply (proj1 (Hwf _))).
      rewrite decide_True by done. lia.
    - rewrite bool_decide_false by done. cbn [andb]. rewrite andb_false_r. lia. }
  set (fresh := List.filter _ (seq 0 n)).
  assert (Hfresh : forall c, c ∈ fresh <-> edge c p /\ forall j, edge c j -> j ∈ order ++ [p]).
  { intros c. unfold fresh. rewrite elem_of_list_filter, elem_of_seq. unfold lowered.
    rewrite !andb_true_iff, bool_decide_eq_true, Nat.ltb_lt, Nat.eqb_eq, Hdeg, (missing_snoc order _ p) by (done || apply (proj1 (Hwf _))).
    unfold depends. rewrite <- (missing_zero (order ++ [p])).
    split.
    - intros [_ [[Hin _] Hone]]. rewrite decide_True in Hone by done. split; [done|lia].
    - intros [Hin Hz]. rewrite decide_True, Hz by done.
      assert (c < n) by (by eapply consumer_range). split_and!; done || lia. }
  split; [done| |done| |].
  - rewrite (assoc (++)). replace ((order ++ [p]) ++ queue) with (order ++ p :: queue) by (by rewrite <- (assoc (++))).
    apply NoDup_app. split; [done|]. split; [|apply NoDup_list_filter, NoDup_seq].
    intros c Hc [Hcp _]%Hfresh. apply Helem in Hc as (_ & _ & Hall). by apply Hpo, Hall.
  - intros c. rewrite (assoc (++)). replace ((order ++ [p]) ++ queue) with (order ++ p :: queue) by (by rewrite <- (assoc (++))).
    rewrite elem_of_app, Helem, Hfresh. split.
    + intros [(Hc & Hpc & Hall)|[Hcp Hall]]; [split_and!; set_solver|].
      split_and!; [by eapply consumer_range|exact (proj1 (Hpart _ _ Hcp))|done].
    + intros (Hc & Hpc & Hall). destruct (decide (p ∈ providers_of dependencies c)) as [Hcp|Hcp]; [by right|]. left.
      split_and!; [done|done|]. intros j Hj. apply Hall in Hj as Hj'. set_solver.
  - intros a c j. rewrite lookup_app. destruct (order !! a) as [x|] eqn:Ha.
    + intros [= ->] Hj. rewrite take_app_le by (by apply Nat.lt_le_incl, lookup_lt_is_Some). eauto.
    + destruct (a - length order) as [|k] eqn:Hk; [|done]. intros [= <-] Hj. apply lookup_ge_None in Ha.
      replace a with (length order) by lia. rewrite take_app_length. by apply Hpe.
Qed.

Lemma kahn_bound queue indegrees order : kahn_inv queue indegrees order -> length order + length queue <= n.
Proof.
  intros Hinv. rewrite <- length_app. apply NoDup_range_length; [apply Hinv|].
  intros i Hi. by apply (kv_elem _ _ _ Hinv).
Qed.
Lemma drain_inv fuel queue indegrees order : kahn_inv queue indegrees order -> n <= length order + fuel ->
  exists indegrees', kahn_inv [] indegrees' (drain fuel dependencies queue indegrees order).
Proof.
  revert queue indegrees order. induction fuel as [|fuel IH]; intros queue indegrees order Hinv Hfuel.
  - pose proof (kahn_bound _ _ _ Hinv). destruct queue as [|p queue]; [by exists indegrees|cbn [length] in *; lia].
  - destruct queue as [|p queue]; [by exists indegrees|]. cbn [drain].
    destruct (release_dependents p dependencies indegrees queue) as [indegrees' queue'] eqn:E.
    apply IH; [by eapply kahn_step|]. rewrite length_app. cbn [length]. lia.
Qed.

(** Kahn's algorithm leaves out exactly the modules that wait for a cycle. *)
Lemma order_avoids_cycles order : (forall a c j, order !! a = Some c -> edge c j -> j ∈ take a order) ->
  NoDup order -> forall i c, i ∈ order -> rtc edge i c -> ~ tc edge c c.
Proof.
  intros Hbef Hnd i c Hi Hic.
  assert (Hdown : forall a x y, order !! a = Some x -> tc edge x y -> exists b, b < a /\ order !! b = Some y).
  { intros a x y Ha Hxy. revert a Ha. induction Hxy as [x y Hxy|x y z Hxy _ IH]; intros a Ha;
      pose proof (Hbef _ _ _ Ha Hxy) as (b & Hb)%list_elem_of_lookup; apply lookup_take_Some in Hb as [Hb Hba].
    - by exists b.
    - destruct (IH b Hb) as (d & Hd & Hz). exists d. split; [lia|done]. }
  assert (c ∈ order) as (a & Ha)%list_elem_of_lookup.
  { induction Hic as [|x y z Hxy _ IH]; [done|]. apply IH. apply list_elem_of_lookup in Hi as (a & Ha).
    pose proof (Hbef _ _ _ Ha Hxy) as Hy. apply elem_of_take in Hy as (b & Hb & _). by eapply list_elem_of_lookup_2. }
  intros Hc. destruct (Hdown a c c Ha Hc) as (b & Hb & Hbc).
  pose proof (NoDup_lookup _ _ _ _ Hnd Ha Hbc). lia.
Qed.
Lemma kahn_complete indegrees order : kahn_inv [] indegrees order ->
  forall i, i < n -> participates i = true -> (forall c, rtc edge i c -> ~ tc edge c c) -> i ∈ order.
Proof.
  intros Hinv i Hi Hp Hacyc.
  set (R := fun x y => rtc edge i x /\ edge x y).
  assert (HR : forall x y, tc R x y -> rtc edge i x /\ tc edge x y).
  { induction 1 as [x y [Hx Hy]|x y z [Hx Hy] _ [_ IH]]; [split; [done|by apply tc_once]|].
    split; [done|]. by eapply tc_l. }
  assert (Hsn : sn R i).
  { apply tc_finite_sn.
    - intros x Hx. apply HR in Hx as [Hix Hx]. by apply (Hacyc x).
    - exists (seq 0 n). intros x [_ Hx]%HR. apply elem_of_seq. apply (tc_range _ Hwf) in Hx. lia. }
  assert (forall x, sn R x -> rtc edge i x -> x < n -> participates x = true -> x ∈ order) as Hall.
  { induction 1 as [x _ IH]. intros Hx Hxn Hxp.
    assert (x ∈ order ++ []) as Hin; [|by rewrite app_nil_r in Hin].
    apply (kv_elem _ _ _ Hinv). split_and!; [done|done|]. intros j Hj. apply IH; [by split| | |].
    - by eapply rtc_r.
    - by eapply provider_range.
    - exact (proj2 (Hpart _ _ Hj)). }
  by apply Hall.
Qed.

Lemma dependency_order_spec : let order := dependency_order participates dependencies in
  NoDup order /\
  (forall a i j, order !! a = Some i -> edge i j -> j ∈ take a order) /\
  (forall i, i ∈ order <-> i < n /\ participates i = true /\ forall c, rtc edge i c -> ~ tc edge c c).
Proof.
  intros order. destruct (drain_inv n _ _ _ kahn_start) as (inds & Hinv); [cbn; lia|].
  fold (dependency_order participates dependencies) in Hinv. fold order in Hinv.
  pose proof (kv_unique _ _ _ Hinv) as Hnd. rewrite app_nil_r in Hnd.
  pose proof (kv_before _ _ _ Hinv) as Hbef. split; [done|]. split; [done|]. intros i. split.
  - intros Hi. assert (i ∈ order ++ []) as Hi' by (by rewrite app_nil_r).
    apply (kv_elem _ _ _ Hinv) in Hi' as (Hin & Hp & _). split_and!; [done|done|]. intros c Hic. by apply (order_avoids_cycles order Hbef Hnd i c).
  - intros (Hi & Hp & Hac). by eapply kahn_complete.
Qed.
End kahn_facts.

(** *** Shutdown order *)

#[export] Instance Reverse_ord_laws {A} `{OrdLaws A} : OrdLaws (Reverse A).
Proof.
  split; [intros [x] [y]|intros [x] [y]|intros [x] [y] [z]]; unfold cmp, Reverse_ord; cbn.
  - rewrite cmp_eq_iff. split; [by intros ->|by intros [= ->]].
  - apply cmp_opp.
  - intros Hxy Hyz. by eapply cmp_lt_trans.
Qed.

(** A loop that rewrites the counters of a duplicate-free list of indices. *)
Lemma update_each (f : N -> N) ps (l : list N) : NoDup ps -> Forall (fun p => p < length l) ps ->
  let l' := foldl (fun l p => <[p := f (default 0%N (l !! p))]> l) l ps in
  length l' = length l /\
  forall j, default 0%N (l' !! j) = if decide (j ∈ ps) then f (default 0%N (l !! j)) else default 0%N (l !! j).
Proof.
  intros Hnd. revert l. induction Hnd as [|p ps Hp Hnd IH]; intros l Hall; cbn [foldl].
  { split; [done|]. intros j. by rewrite decide_False by apply not_elem_of_nil. }
  apply Forall_cons in Hall as [Hpl Hall].
  destruct (IH (<[p := f (default 0%N (l !! p))]> l)) as [Hlen Hv]; [by rewrite length_insert|].
  rewrite length_insert in Hlen. split; [done|]. intros j. rewrite Hv.
  destruct (decide (j = p)) as [->|Hne].
  - rewrite decide_False, decide_True by (done || by left). by rewrite list_lookup_insert_eq.
  - rewrite list_lookup_insert_ne by done. destruct (decide (j ∈ ps)), (decide (j ∈ p :: ps)); done || set_solver.
Qed.
Lemma head_sort_least {A K} `{OrdLaws K} (key : A -> K) l :
  match head (sort_by key l) with
  | Some x => x ∈ l /\ forall y, y ∈ l -> ord_le (key x) (key y)
  | None => l = []
  end.
Proof.
  pose proof (sort_by_Permutation key l) as Hperm. pose proof (sort_by_sorted key l) as Hsort.
  destruct (sort_by key l) as [|x s]; cbn [head]; [by apply Permutation_nil|].
  split; [rewrite <- Hperm; by left|]. intros y Hy. rewrite <- Hperm in Hy.
  apply elem_of_cons in Hy as [->|Hy]; [apply ord_le_refl|].
  apply StronglySorted_inv in Hsort as [_ Hall]. by apply (proj1 (Forall_forall _ _) Hall).
Qed.

Section shutdown_facts.
  Context (dependencies : list (list nat)) (Hwf : dependencies_wf dependencies).
  Context (live : nat -> bool) (key : nat -> Reverse N * ModuleId).
  Context (Hlive : forall i j, depends dependencies i j -> live i = true /\ live j = true).
  Context (Hsize : (len dependencies <= u64_max)%N).
  Notation edge := (depends dependencies).
  Notation n := (length dependencies).

(** The consumers of [j] outside [done]: what [dependents] counts. *)
Definition waiting (done : list nat) (j : nat) : nat :=
  length (filter (fun i => i ∉ done /\ j ∈ providers_of dependencies i) (seq 0 n)).
Definition remaining (done : list nat) (j : nat) : Prop := j < n /\ live j = true /\ j ∉ done.
Definition leaf (done : list nat) (j : nat) : Prop := remaining done j /\ forall i, edge i j -> i ∈ done.
(** [i] comes next after [done]: the least leaf, or the least module if none is a leaf. *)
Definition comes_next (done : list nat) (i : nat) : Prop :=
  leaf done i /\ (forall j, leaf done j -> ord_le (key i) (key j)) \/
  (forall j, ~ leaf done j) /\ remaining done i /\ (forall j, remaining done j -> ord_le (key i) (key j)).

Lemma waiting_zero done j : waiting done j = 0 <-> forall i, edge i j -> i ∈ done.
Proof.
  unfold waiting. split.
  - intros H%nil_length_inv i Hij. destruct (decide (i ∈ done)) as [|Hn]; [done|]. exfalso.
    apply (not_elem_of_nil i). rewrite <- H. apply list_elem_of_filter. split; [done|].
    apply elem_of_seq. apply consumer_range in Hij. lia.
  - intros H. destruct (filter _ _) as [|i l] eqn:E; [done|]. exfalso.
    assert (i ∈ i :: l) as Hi by left. rewrite <- E in Hi. apply list_elem_of_filter in Hi as [[Hd Hij] _]. by apply Hd, H.
Qed.
Lemma waiting_snoc done j c : c < n -> c ∉ done ->
  waiting done j = waiting (done ++ [c]) j + (if decide (j ∈ providers_of dependencies c) then 1 else 0).
Proof.
  intros Hc Hd. unfold waiting.
  assert (seq 0 n = seq 0 c ++ c :: seq (S c) (n - S c)) as ->.
  { replace n with (c + S (n - S c)) at 1 by lia. by rewrite seq_app. }
  assert (forall l : list nat, c ∉ l -> filter (fun i => i ∉ done ++ [c] /\ j ∈ providers_of dependencies i) l =
    filter (fun i => i ∉ done /\ j ∈ providers_of dependencies i) l) as E.
  { intros l Hl. induction l as [|i l IH]; [done|]. rewrite !filter_cons.
    rewrite IH by set_solver. destruct (decide _), (decide _); set_solver. }
  rewrite !filter_app, !filter_cons, !(E (seq _ _)) by (rewrite elem_of_seq; lia). rewrite !length_app.
  rewrite (decide_False (P := c ∉ done ++ [c] /\ _)) by set_solver.
  destruct (decide (c ∉ done /\ _)), (decide (j ∈ providers_of dependencies c)); cbn [length]; try lia; tauto.
Qed.

Record select_inv (dependents : list N) (selected : list bool) (order : list nat) : Prop := {
  iv_dependents : length dependents = n;
  iv_selected : length selected = n;
  iv_unique : NoDup order;
  iv_live : forall i, i ∈ order -> i < n /\ live i = true;
  iv_mark : forall i, default false (selected !! i) = bool_decide (i ∈ order);
  iv_count : forall j, default 0%N (dependents !! j) = N.of_nat (waiting order j);
  iv_next : forall a i, order !! a = Some i -> comes_next (take a order) i;
}.

Lemma candidates_elem dependents selected order require_leaf i : select_inv dependents selected order ->
  i ∈ shutdown_candidates live dependents selected require_leaf <->
  remaining order i /\ (require_leaf = true -> leaf order i).
Proof.
  intros [Hdl Hsl Hnd Hl Hm Hc Hn]. unfold shutdown_candidates, leaf, remaining.
  rewrite elem_of_list_filter, elem_of_seq, !andb_true_iff, orb_true_iff, Hm, Hc, Hsl, N.eqb_eq.
  rewrite negb_true_iff, bool_decide_eq_false, <- waiting_zero.
  destruct require_leaf; cbn [negb]; split.
  - intros (? & ? & [?|?]); [done|]. assert (i < n) by lia. assert (waiting order i = 0) by lia. tauto.
  - intros [(? & ? & ?) Hw]. destruct (Hw eq_refl) as [_ ->]. split_and!; done || lia || by right.
  - intros (? & [? ?] & _). split; [split_and!; done || lia|done].
  - intros [(? & ? & ?) _]. split_and!; done || lia || by left.
Qed.
Lemma next_module_spec dependents selected order : select_inv dependents selected order ->
  match next_shutdown_module live key dependents selected with
  | Some i => comes_next order i
  | None => forall i, ~ remaining order i
  end.
Proof.
  intros Hinv. unfold next_shutdown_module.
  assert (Hleaf : forall i, i ∈ shutdown_candidates live dependents selected true <-> leaf order i).
  { intros i. rewrite (candidates_elem _ _ _ true i Hinv). split; [tauto|]. intros Hi. split; [apply Hi|done]. }
  assert (Hall : forall i, i ∈ shutdown_candidates live dependents selected false <-> remaining order i).
  { intros i. rewrite (candidates_elem _ _ _ false i Hinv). split; [tauto|done]. }
  destruct (decide (shutdown_candidates live dependents selected true = [])) as [Hnil|Hne].
  - assert (forall j, ~ leaf order j) as Hno.
    { intros j Hj. apply (not_elem_of_nil j). rewrite <- Hnil. by apply Hleaf. }
    pose proof (head_sort_least key (shutdown_candidates live dependents selected false)) as Hhead.
    destruct (head _) as [i|].
    + destruct Hhead as [Hi Hmin]. right. split; [done|]. split; [by apply Hall|]. intros j Hj. by apply Hmin, Hall.
    + intros i Hi. apply (not_elem_of_nil i). rewrite <- Hhead. by apply Hall.
  - pose proof (head_sort_least key (shutdown_candidates live dependents selected true)) as Hhead.
    destruct (head _) as [i|]; [|done].
    destruct Hhead as [Hi Hmin]. left. split; [by apply Hleaf|]. intros j Hj. by apply Hmin, Hleaf.
Qed.
Lemma comes_next_remaining done i : comes_next done i -> remaining done i.
Proof. by intros [[[Hr _] _]|(_ & Hr & _)]. Qed.

Lemma select_step dependents selected order i : select_inv dependents selected order -> comes_next order i ->
  select_inv (release_shutdown_dependencies i dependencies dependents) (<[i := true]> selected) (order ++ [i]).
Proof.
  intros [Hdl Hsl Hnd Hl Hm Hc Hn] Hnext. destruct (comes_next_remaining _ _ Hnext) as (Hi & Hli & Hio).
  destruct (update_each (fun x => saturating_sub x 1) (providers_of dependencies i) dependents) as [Hlen Hv];
    [apply (proj1 (Hwf i))|rewrite Hdl; apply (proj2 (Hwf i))|].
  split.
  - unfold release_shutdown_dependencies. by rewrite Hlen.
  - by rewrite length_insert.
  - apply NoDup_app. split; [done|]. split; [set_solver|apply NoDup_singleton].
  - intros j [Hj| ->%list_elem_of_singleton]%elem_of_app; [by apply Hl|done].
  - intros j. destruct (decide (j = i)) as [->|Hne].
    + rewrite list_lookup_insert_eq, bool_decide_true by (lia || set_solver). done.
    + rewrite list_lookup_insert_ne, Hm by done. apply bool_decide_ext. set_solver.
  - intros j. unfold release_shutdown_dependencies. rewrite Hv, Hc, (waiting_snoc _ _ i) by done.
    unfold saturating_sub. destruct (decide _); lia.
  - intros a j. rewrite lookup_app. destruct (order !! a) as [x|] eqn:Ha.
    + intros [= ->]. rewrite take_app_le by (by apply Nat.lt_le_incl, lookup_lt_is_Some). eauto.
    + destruct (a - length order) as [|k] eqn:Hk; [|done]. intros [= <-]. apply lookup_ge_None in Ha.
      replace a with (length order) by lia. by rewrite take_app_length.
Qed.
Notation live_modules := (List.filter live (seq 0 n)).
Lemma live_modules_elem i : i ∈ live_modules <-> i < n /\ live i = true.
Proof. rewrite elem_of_list_filter, elem_of_seq. split; intros [??]; split; done || lia. Qed.

Lemma select_run fuel dependents selected order :
  select_inv dependents selected order -> length live_modules <= length order + fuel ->
  let result := select live key fuel dependencies dependents selected (length live_modules) order in
  (exists dependents' selected', select_inv dependents' selected' result) /\ result ≡ₚ live_modules.
Proof.
  assert (Hsub : forall dependents selected order, select_inv dependents selected order -> order ⊆+ live_modules).
  { intros ds sel o Ho. apply NoDup_submseteq; [apply Ho|]. intros i Hi. by apply live_modules_elem, (iv_live _ _ _ Ho). }
  revert dependents selected order. induction fuel as [|fuel IH]; intros dependents selected order Hinv Hfuel; cbn [select];
    destruct (Nat.leb_spec (length live_modules) (length order)) as [Hdone|Hmore].
  - split; [by exists dependents, selected|]. eapply submseteq_length_Permutation; [by eapply Hsub|lia].
  - lia.
  - split; [by exists dependents, selected|]. eapply submseteq_length_Permutation; [by eapply Hsub|lia].
  - pose proof (next_module_spec _ _ _ Hinv) as Hnext. destruct (next_shutdown_module _ _ _ _) as [i|].
    + apply IH; [by apply select_step|]. rewrite length_app. cbn [length]. lia.
    + split; [by exists dependents, selected|]. apply (anti_symm submseteq); [by eapply Hsub|].
      apply NoDup_submseteq; [apply NoDup_list_filter, NoDup_seq|]. intros i [Hi Hl]%live_modules_elem.
      destruct (decide (i ∈ order)) as [|Hio]; [done|]. by destruct (Hnext i).
Qed.

Lemma count_dependents ds counts :
  Forall (fun ps => NoDup ps /\ Forall (fun d => d < n) ps) ds -> length counts = n ->
  (forall j, (default 0 (counts !! j) + len ds <= u64_max)%N) ->
  let counts' := foldl (fun counts providers => foldl count_dependent counts providers) counts ds in
  length counts' = n /\
  forall j, default 0%N (counts' !! j) = (default 0 (counts !! j) + len (filter (fun ps => j ∈ ps) ds))%N.
Proof.
  intros Hds. revert counts. induction Hds as [|ps ds [Hnd Hps] Hds IH]; intros counts Hlen Hroom; cbn [foldl].
  { split; [done|]. intros j. rewrite filter_nil. unfold len. cbn [length]. lia. }
  destruct (update_each (fun x => saturating_add u64_max x 1) ps counts) as [Hl Hv]; [done|by rewrite Hlen|].
  fold count_dependent in Hl, Hv. change (foldl _ counts ps) with (foldl count_dependent counts ps) in Hl, Hv.
  unfold saturating_add in Hv.
  assert (forall j, default 0%N (foldl count_dependent counts ps !! j) =
    (default 0 (counts !! j) + if decide (j ∈ ps) then 1 else 0)%N) as Hone.
  { intros j. specialize (Hroom j). unfold len in Hroom. cbn [length] in Hroom. rewrite Hv. destruct (decide _); lia. }
  destruct (IH (foldl count_dependent counts ps)) as [Hl' Hv']; [by rewrite Hl|..].
  { intros j. rewrite Hone. specialize (Hroom j). unfold len in *. cbn [length] in Hroom. destruct (decide _); lia. }
  split; [done|]. intros j. rewrite Hv', Hone. unfold len. rewrite filter_cons. destruct (decide (j ∈ ps)); cbn [length]; lia.
Qed.
Lemma waiting_start j : waiting [] j = length (filter (fun ps => j ∈ ps) dependencies).
Proof.
  rewrite <- (providers_seq dependencies). unfold waiting.
  induction (seq 0 n) as [|i l IH]; [done|]. rewrite fmap_cons, !filter_cons.
  destruct (decide _) as [[??]|Hn], (decide _) as [?|?]; cbn [length]; try lia; [done|].
  exfalso. apply Hn. split; [by apply not_elem_of_nil|done].
Qed.
Lemma select_start : select_inv (dependent_counts dependencies) (replicate n false) [].
Proof.
  destruct (count_dependents dependencies (replicate n 0%N)) as [Hlen Hv].
  - apply Forall_forall. intros ps (i & Hi)%list_elem_of_lookup. specialize (Hwf i). unfold providers_of in Hwf.
    by rewrite Hi in Hwf.
  - by rewrite length_replicate.
  - intros j. destruct (replicate n 0%N !! j) as [x|] eqn:E; [|done]. by apply lookup_replicate in E as [-> _].
  - split; [done|by rewrite length_replicate|constructor|set_solver| | |done].
    + intros i. rewrite bool_decide_false by apply not_elem_of_nil.
      destruct (replicate n false !! i) as [b|] eqn:E; [|done]. by apply lookup_replicate in E as [-> _].
    + intros j. unfold dependent_counts. rewrite Hv, waiting_start. unfold len.
      destruct (replicate n 0%N !! j) as [x|] eqn:E; [|done]. by apply lookup_replicate in E as [-> _].
Qed.

(** Without cycles some leaf remains as long as a module remains. *)
Lemma leaf_exists done i : (forall c, ~ tc edge c c) -> remaining done i -> exists j, leaf done j.
Proof.
  intros Hac Hi.
  assert (Hflip : forall x y, tc (flip edge) x y -> tc edge y x).
  { induction 1 as [x y Hxy|x y z Hxy _ IH]; [by apply tc_once|]. by eapply tc_r. }
  assert (sn (flip edge) i) as Hsn.
  { apply tc_finite_sn; [intros x Hx%Hflip; by apply (Hac x)|]. exists (seq 0 n).
    intros x Hx%Hflip. apply elem_of_seq. destruct Hx as [x y Hx|x y z Hx]; apply consumer_range in Hx; lia. }
  induction Hsn as [i _ IH]. destruct (decide (waiting done i = 0)) as [Hz|Hz].
  - exists i. split; [done|]. by apply waiting_zero.
  - unfold waiting in Hz. destruct (filter _ _) as [|c l] eqn:E; [done|].
    assert (c ∈ c :: l) as Hc by left. rewrite <- E in Hc. apply list_elem_of_filter in Hc as [[Hcd Hci] _].
    apply (IH c Hci). split_and!; [by eapply consumer_range|exact (proj1 (Hlive _ _ Hci))|done].
Qed.
Lemma shutdown_order_spec : let order := shutdown_order live key dependencies in
  NoDup order /\
  (forall i, i ∈ order <-> i < n /\ live i = true) /\
  (forall a i, order !! a = Some i -> comes_next (take a order) i).
Proof.
  intros order. destruct (select_run (length live_modules) _ _ _ select_start) as ((ds & sel & Hinv) & Hperm); [lia|].
  fold (shutdown_order live key dependencies) in Hinv, Hperm. fold order in Hinv, Hperm.
  split; [apply Hinv|]. split; [|apply Hinv]. intros i. by rewrite Hperm, live_modules_elem.
Qed.
Lemma consumers_first done i c : (forall c, ~ tc edge c c) -> comes_next done i -> edge c i -> c ∈ done.
Proof.
  intros Hac [[[_ Hleaf] _]|(Hno & Hr & _)] Hci; [by apply Hleaf|].
  destruct (leaf_exists done i Hac Hr) as [j Hj]. by destruct (Hno j).
Qed.
End shutdown_facts.

(** *** A concrete graph: 0 <- 1 <- 2, the cycle 3 <-> 4, and 5 that waits for it. *)

Definition sample_dependencies : list (list nat) := [[]; [0]; [0; 1]; [4]; [3]; [4]].
Definition sample_chain : list (list nat) := [[]; [0]; [0; 1]; []].
Definition sample_key (i : nat) : Reverse N * ModuleId := (reverse (N.of_nat i), MkId "module"%string).

Lemma dependencies_wf_Forall dependencies :
  Forall (fun ps => NoDup ps /\ Forall (fun d => d < length dependencies) ps) dependencies -> dependencies_wf dependencies.
Proof.
  intros H i. unfold providers_of. destruct (dependencies !! i) as [ps|] eqn:E; [|by repeat constructor].
  apply (proj1 (Forall_forall _ _) H ps). by eapply list_elem_of_lookup_2.
Qed.
Lemma sample_dependencies_wf : dependencies_wf sample_dependencies.
Proof. apply dependencies_wf_Forall. by apply (bool_decide_unpack _). Qed.
Lemma sample_chain_wf : dependencies_wf sample_chain.
Proof. apply dependencies_wf_Forall. by apply (bool_decide_unpack _). Qed.
Lemma sample_chain_edges i j : depends sample_chain i j -> i = 1 /\ j = 0 \/ i = 2 /\ (j = 0 \/ j = 1).
Proof. unfold depends. destruct i as [|[|[|[|i]]]]; cbn; rewrite ?elem_of_cons, ?elem_of_nil; naive_solver. Qed.
Lemma sample_chain_acyclic c : ~ tc (depends sample_chain) c c.
Proof.
  assert (forall i j, tc (depends sample_chain) i j -> j < i) as H.
  { induction 1 as [i j Hij|i j k Hij _ IH]; apply sample_chain_edges in Hij; lia. }
  intros Hc%H. lia.
Qed.

(** ** Properties *)

(** The search behind cycle detection terminates and is exact: on a
    well-formed dependency graph it answers [true] for a module exactly when the
    module depends on itself through one or more edges. *)
Theorem cycle_detection_exact dependencies origin :
  dependencies_wf dependencies -> origin < length dependencies ->
  dependency_path_returns_to origin dependencies = true <-> tc (depends dependencies) origin origin.
Proof. intros Hwf. by apply path_returns_iff. Qed.
Lemma cycle_detection_exact_witness :
  tc (depends sample_dependencies) 3 3 /\ ~ tc (depends sample_dependencies) 5 5.
Proof.
  split.
  - apply (cycle_detection_exact sample_dependencies 3 sample_dependencies_wf); [cbn; lia|]. vm_compute. reflexivity.
  - intros H. apply (cycle_detection_exact sample_dependencies 5 sample_dependencies_wf) in H; [|cbn; lia].
    vm_compute in H. discriminate H.
Defined.

(** The startup order lists every participating module that waits for no
    cycle, and only those, once each, and every module comes after all its
    providers. *)
Theorem startup_order_topological dependencies participates :
  dependencies_wf dependencies ->
  (forall i j, depends dependencies i j -> participates i = true /\ participates j = true) ->
  let order := dependency_order participates dependencies in
  NoDup order /\
  (forall a i j, order !! a = Some i -> depends dependencies i j -> j ∈ take a order) /\
  (forall i, i ∈ order <->
     i < length dependencies /\ participates i = true /\
     forall c, rtc (depends dependencies) i c -> ~ tc (depends dependencies) c c).
Proof. intros Hwf Hpart. by apply dependency_order_spec. Qed.
Lemma startup_order_topological_witness :
  dependency_order (fun _ => true) sample_dependencies = [0; 1; 2] /\
  forall c, rtc (depends sample_dependencies) 2 c -> ~ tc (depends sample_dependencies) c c.
Proof.
  split; [reflexivity|].
  destruct (startup_order_topological sample_dependencies (fun _ => true) sample_dependencies_wf (fun _ _ _ => conj eq_refl eq_refl))
    as (_ & _ & H).
  apply (H 2). vm_compute. repeat constructor.
Defined.

(** The shutdown order lists every live module exactly once.  Each module
    is the least, by descending priority then identity, of the modules no remaining
    module depends on, or of all the remaining ones when there are none; so in a graph
    without cycles every consumer stops before its providers. *)
Theorem shutdown_order_consumers_first dependencies live key :
  dependencies_wf dependencies -> (len dependencies <= u64_max)%N ->
  (forall i j, depends dependencies i j -> live i = true /\ live j = true) ->
  let order := shutdown_order live key dependencies in
  NoDup order /\
  (forall i, i ∈ order <-> i < length dependencies /\ live i = true) /\
  (forall a i, order !! a = Some i -> comes_next dependencies live key (take a order) i) /\
  ((forall c, ~ tc (depends dependencies) c c) ->
   forall a i c, order !! a = Some i -> depends dependencies c i -> c ∈ take a order).
Proof.
  intros Hwf Hsize Hlive order.
  destruct (shutdown_order_spec dependencies Hwf live key Hlive Hsize) as (Hnd & Hall & Hnext).
  split_and!; [done|done|done|]. intros Hac a i c Ha Hc. eapply consumers_first; eauto.
Qed.
Lemma shutdown_order_consumers_first_witness :
  shutdown_order (fun i => negb (i =? 3)) sample_key sample_chain = [2; 1; 0] /\
  forall a i c, [2; 1; 0] !! a = Some i -> depends sample_chain c i -> c ∈ take a [2; 1; 0].
Proof.
  split; [vm_compute; reflexivity|].
  destruct (shutdown_order_consumers_first sample_chain (fun i => negb (i =? 3)) sample_key sample_chain_wf)
    as (_ & _ & _ & H).
  - vm_compute. discriminate.
  - intros i j [[-> ->]|[-> [-> | ->]]]%sample_chain_edges; split; reflexivity.
  - exact (H sample_chain_acyclic).
Defined.
