(* ===== verification/Worker.v ===== *)
(** * One bounded module operation

    Models the worker protocol of [run_bounded] in
    [crates/ariadnion-core/src/lifecycle.rs]: a worker thread publishes one output
    into a slot, the caller waits for it until a deadline and then abandons the slot,
    and an output that arrives late goes to a clean-up function.  Both sides work
    under the slot's lock, so an execution is a sequence of critical sections, in any
    order; [expired] is what the clock says at one of the caller's. *)

From S2P Require Import Prelude.
#[local] Open Scope nat_scope.

(** ** The slot *)

Inductive BoundedOutcome (T : Type) :=
  | BoundedCompleted (output : T)
  | BoundedDeadlineExceeded
  | BoundedUnavailable.
Arguments BoundedCompleted {T} _.
Arguments BoundedDeadlineExceeded {T}.
Arguments BoundedUnavailable {T}.

Record WorkerState (T : Type) := mk_WorkerState { output : option T; abandoned : bool }.
Arguments mk_WorkerState {T} _ _.
Arguments output {T} _.
Arguments abandoned {T} _.
#[export] Instance WorkerState_eta T : Eta (WorkerState T) := fun s => mk_WorkerState (output s) (abandoned s).

(** The result is [abandoned_output], what the worker then cleans up. *)
Definition publish_worker_output {T} (value : T) (state : WorkerState T) : WorkerState T * option T :=
  if abandoned state then (state, Some value)
  else (state <| output := Some value |>, None).
(** One turn of the loop; no outcome means that the caller waits again. *)
Definition await_worker_output {T} (expired : bool) (state : WorkerState T)
    : WorkerState T * option (BoundedOutcome T) :=
  match output state with
  | Some value => (state <| output := None |>, Some (BoundedCompleted value))
  | None =>
      if expired then (state <| abandoned := true |>, Some BoundedDeadlineExceeded)
      else (state, None)
  end.

(** ** An operation: the two threads and their slot *)

Inductive WorkerPhase (T : Type) := Working | CleaningUp (late : T) | Finished.
Arguments Working {T}.
Arguments CleaningUp {T} _.
Arguments Finished {T}.
Record Operation (T : Type) := mk_Operation {
  slot : WorkerState T;
  worker : WorkerPhase T;
  caller : option (BoundedOutcome T);
  cleaned : list T;
}.
Arguments mk_Operation {T} _ _ _ _.
Arguments slot {T} _.
Arguments worker {T} _.
Arguments caller {T} _.
Arguments cleaned {T} _.
#[export] Instance Operation_eta T : Eta (Operation T) :=
  fun r => mk_Operation (slot r) (worker r) (caller r) (cleaned r).

Inductive Turn := WorkerTurn | CallerTurn (expired : bool).

Section operation.
  Context {T : Type}.
  (** What [work()] returns. *)
  Variable value : T.

Definition turn (r : Operation T) (t : Turn) : Operation T :=
  match t with
  | WorkerTurn =>
      match worker r with
      | Working =>
          let '(state, late) := publish_worker_output value (slot r) in
          r <| slot := state |> <| worker := match late with Some v => CleaningUp v | None => Finished end |>
      | CleaningUp v => r <| worker := Finished |> <| cleaned := cleaned r ++ [v] |>
      | Finished => r
      end
  | CallerTurn expired =>
      match caller r with
      | Some _ => r
      | None =>
          let '(state, outcome) := await_worker_output expired (slot r) in
          r <| slot := state |> <| caller := outcome |>
      end
  end.
Definition spawned : Operation T := mk_Operation (mk_WorkerState None false) Working None [].
Definition run_bounded (turns : list Turn) : Operation T := foldl turn spawned turns.

(** ** Lemmas *)

(** Where the one output is, by what the caller has returned. *)
Definition operation_inv (r : Operation T) : Prop :=
  match caller r with
  | None => abandoned (slot r) = false /\ cleaned r = [] /\
      (worker r = Working /\ output (slot r) = None \/ worker r = Finished /\ output (slot r) = Some value)
  | Some (BoundedCompleted v) => v = value /\ worker r = Finished /\ output (slot r) = None /\ cleaned r = []
  | Some BoundedDeadlineExceeded => abandoned (slot r) = true /\ output (slot r) = None /\
      (worker r = Working /\ cleaned r = [] \/ worker r = CleaningUp value /\ cleaned r = [] \/
       worker r = Finished /\ cleaned r = [value])
  | Some BoundedUnavailable => False
  end.

Lemma turn_inv r t : operation_inv r -> operation_inv (turn r t).
Proof.
  destruct r as [[o a] w c l]. unfold operation_inv. destruct t as [|e]; destruct c as [[v| |]|]; cbn; try tauto.
  - intros (-> & -> & -> & ->). cbn. tauto.
  - intros (-> & -> & [[-> ->]|[[-> ->]|[-> ->]]]); cbn; tauto.
  - intros (-> & -> & [[-> ->]|[-> ->]]); cbn; tauto.
  - intros (-> & -> & [[-> ->]|[-> ->]]); [destruct e|]; cbn; tauto.
Qed.
Lemma run_inv turns : operation_inv (run_bounded turns).
Proof.
  unfold run_bounded. assert (operation_inv spawned) as H by (cbn; tauto). revert H. generalize spawned.
  induction turns as [|t turns IH]; intros r Hr; [done|]. apply IH, turn_inv, Hr.
Qed.
Lemma returned_stays turns r o : caller r = Some o -> caller (foldl turn r turns) = Some o.
Proof.
  revert r. induction turns as [|t turns IH]; intros r Hr; [done|]. apply IH.
  destruct t; cbn; [|by rewrite Hr]. destruct (worker r); cbn; [|done|done]. by destruct (publish_worker_output _ _).
Qed.
Lemma deadline_returns turns r : CallerTurn true ∈ turns -> is_Some (caller (foldl turn r turns)).
Proof.
  revert r. induction turns as [|t turns IH]; intros r Hin; [by apply not_elem_of_nil in Hin|].
  apply elem_of_cons in Hin as [<-|Hin]; [|by apply IH]. cbn [foldl].
  assert (exists o, caller (turn r (CallerTurn true)) = Some o) as [o Ho].
  { cbn. destruct (caller r) as [o|] eqn:Hc; [by exists o|]. unfold await_worker_output. destruct (output (slot r)); cbn; eauto. }
  exists o. by apply returned_stays.
Qed.

Definition is_worker_turn (t : Turn) : bool := match t with WorkerTurn => true | CallerTurn _ => false end.
Definition turns_left (phase : WorkerPhase T) : nat :=
  match phase with Working => 2 | CleaningUp _ => 1 | Finished => 0 end.
Lemma worker_progress turns r :
  turns_left (worker (foldl turn r turns)) <= turns_left (worker r) - length (List.filter is_worker_turn turns).
Proof.
  revert r. induction turns as [|t turns IH]; intros r; cbn [foldl List.filter]; [cbn; lia|].
  etransitivity; [apply IH|]. destruct t as [|e]; cbn [is_worker_turn turn length].
  - destruct (worker r) eqn:Hw; [|cbn; lia|rewrite Hw; cbn; lia].
    unfold publish_worker_output. destruct (abandoned (slot r)); cbn; lia.
  - destruct (caller r); [lia|]. destruct (await_worker_output e (slot r)); cbn. lia.
Qed.
End operation.

(** ** Property *)

(** The output of a bounded operation is used exactly once, in every
    interleaving of the two threads.  The caller gets it, or has returned after its
    deadline and the worker cleans it up, once it is done; never both.  The caller
    returns at the latest at its first turn after the deadline and the worker finishes
    in two turns. *)
Theorem worker_output_once {T} (value : T) turns : let r := run_bounded value turns in
  (forall v, caller r = Some (BoundedCompleted v) -> v = value /\ worker r = Finished /\ cleaned r = []) /\
  (caller r = Some BoundedDeadlineExceeded ->
     output (slot r) = None /\ (worker r = Finished -> cleaned r = [value])) /\
  (cleaned r = [] \/ cleaned r = [value] /\ caller r = Some BoundedDeadlineExceeded) /\
  (CallerTurn true ∈ turns -> is_Some (caller r)) /\
  (2 <= length (List.filter is_worker_turn turns) -> worker r = Finished).
Proof.
  intros r. pose proof (run_inv value turns) as Hinv. fold r in Hinv. unfold operation_inv in Hinv.
  pose proof (worker_progress value turns (spawned (T := T))) as Hp.
  pose proof (deadline_returns value turns (spawned (T := T))) as Hdeadline.
  fold (run_bounded value turns) in Hp, Hdeadline. fold r in Hp, Hdeadline. clearbody r.
  split_and!; [| | |done|].
  - intros v Hv. rewrite Hv in Hinv. tauto.
  - intros Hv. rewrite Hv in Hinv. destruct Hinv as (_ & Ho & Hw). split; [done|]. intros Hf.
    rewrite Hf in Hw. destruct Hw as [[? _]|[[? _]|[_ ?]]]; done.
  - destruct (caller r) as [[v| |]|]; tauto.
  - intros Htwo. destruct (worker r); cbn in Hp; [lia|lia|done].
Qed.
(** The worker is late: it finds the slot abandoned and cleans up. *)
Lemma worker_output_once_witness :
  cleaned (run_bounded 7 [CallerTurn false; CallerTurn true; WorkerTurn; WorkerTurn]) = [7].
Proof.
  destruct (worker_output_once 7 [CallerTurn false; CallerTurn true; WorkerTurn; WorkerTurn]) as (_ & H & _ & _ & Hw).
  apply H; [reflexivity|]. apply Hw. cbn. lia.
Defined.
