(* ===== verification/Health.v ===== *)
(** * Health reports

    Models [crates/ariadnion-core/src/health.rs]: module snapshots and the bounded
    aggregate report. *)

From S2P Require Import Prelude CoreTypes.
#[local] Open Scope N_scope.

Definition MAX_MODULE_REPORTS : N := 256.

Inductive HealthStatus := HealthLive | HealthReady | HealthDegraded | HealthUnavailable.
#[export] Instance HealthStatus_eq_dec : EqDecision HealthStatus.
Proof. solve_decision. Defined.
Inductive HealthReasonCode :=
  | ReasonStarting | ReasonCoreReady | ReasonDependencyDegraded | ReasonDependencyUnavailable
  | ReasonConfigurationInvalid | ReasonResourceExhausted | ReasonShutdownRequested | ReasonInternalFailure.

Definition severity (status : HealthStatus) : N :=
  match status with HealthLive => 1 | HealthReady => 0 | HealthDegraded => 2 | HealthUnavailable => 3 end.
Definition worse_status (left right : HealthStatus) : HealthStatus :=
  if severity right <=? severity left then left else right.
Definition reason_for_status (status : HealthStatus) : HealthReasonCode :=
  match status with
  | HealthLive => ReasonStarting
  | HealthReady => ReasonCoreReady
  | HealthDegraded => ReasonDependencyDegraded
  | HealthUnavailable => ReasonDependencyUnavailable
  end.

Record ModuleHealthSnapshot := mk_ModuleHealthSnapshot {
  health_module_id : ModuleId; health_status : HealthStatus; health_reason : HealthReasonCode;
}.
Record HealthReport := mk_HealthReport {
  report_status : HealthStatus; report_reason : HealthReasonCode; observed_at : N;
  report_modules : list ModuleHealthSnapshot;
}.
#[export] Instance HealthReport_eta : Eta HealthReport :=
  fun r => mk_HealthReport (report_status r) (report_reason r) (observed_at r) (report_modules r).

(** [now] is what [SystemTime::now()] returns. *)
Definition HealthReport_new (status : HealthStatus) (reason : HealthReasonCode) (now : N) : HealthReport :=
  mk_HealthReport status reason now [].
Definition core_ready (now : N) : HealthReport := HealthReport_new HealthReady ReasonCoreReady now.
Definition add_module (module : ModuleHealthSnapshot) : act HealthReport CoreError unit :=
  r ← get;
  lift (reject_if (MAX_MODULE_REPORTS <=? len (report_modules r))
    (with_internal_context (CoreError_from_code ResourceExhausted) "module health report limit reached")) ;;
  let previous_status := report_status r in
  modify (fun r => r <| report_status := worse_status previous_status (health_status module) |>) ;;
  modify (fun r => if decide (report_status r <> previous_status)
                   then r <| report_reason := reason_for_status (report_status r) |> else r) ;;
  modify (fun r => r <| report_modules := report_modules r ++ [module] |>).

(** ** Specification and lemmas *)

(** The status is the worst of [Ready] and the snapshots', and gives the reason. *)
Definition report_spec (snapshots : list ModuleHealthSnapshot) (r : HealthReport) : Prop :=
  report_modules r = snapshots /\
  (forall s, s ∈ snapshots -> severity (health_status s) <= severity (report_status r)) /\
  (report_status r = HealthReady \/ exists s, s ∈ snapshots /\ health_status s = report_status r) /\
  report_reason r = reason_for_status (report_status r).

Lemma worse_status_spec l r :
  severity l <= severity (worse_status l r) /\ severity r <= severity (worse_status l r) /\
  (worse_status l r = l \/ worse_status l r = r).
Proof. unfold worse_status. destruct (N.leb_spec (severity r) (severity l)); split_and!; auto; lia. Qed.

Lemma core_ready_spec now : report_spec [] (core_ready now).
Proof. split_and!; [done|set_solver|by left|done]. Qed.
Lemma add_module_run snapshots r s : report_spec snapshots r ->
  if MAX_MODULE_REPORTS <=? len snapshots
  then exists e, add_module s r = (r, Err e) /\ ce_code e = ResourceExhausted
  else exists r', add_module s r = (r', Ok tt) /\ report_spec (snapshots ++ [s]) r' /\ observed_at r' = observed_at r.
Proof.
  intros (Hm & Hworst & Hwit & Hreason). unfold add_module. rewrite act_get_run, Hm.
  destruct (MAX_MODULE_REPORTS <=? len snapshots); cbn [reject_if].
  { rewrite act_lift_stop. by eexists. }
  unfold mret, result_ret. rewrite act_lift_run, !act_modify_run.
  pose proof (worse_status_spec (report_status r) (health_status s)) as (Hl & Hr & Hone).
  set (w := worse_status _ _) in *.
  eexists. split; [reflexivity|].
  destruct (decide _) as [Hne|Heq]; cbn in *; (split; [|done]); unfold report_spec; cbn; rewrite Hm; split_and!; try done.
  - intros t [Ht| ->%list_elem_of_singleton]%elem_of_app; [|done]. etransitivity; [by apply Hworst|done].
  - destruct Hone as [Hw|Hw]; [done|]. right. exists s. split; [set_solver|done].
  - intros t [Ht| ->%list_elem_of_singleton]%elem_of_app; [|done]. etransitivity; [by apply Hworst|done].
  - destruct (decide (w = report_status r)) as [->|]; [|done]. destruct Hwit as [?|(t & Ht & ?)]; [by left|right; exists t; set_solver].
  - destruct (decide (w = report_status r)) as [->|]; [done|done].
Qed.
