(* ===== verification/Lifecycle.v ===== *)
(** * The lifecycle supervisor

    Models [crates/ariadnion-core/src/lifecycle.rs]: registration, validation,
    startup, health and shutdown of the statically linked modules.  What runs outside
    core is an interface, [ModuleRuntime]: factories, handles, the clock, and the fate
    of each worker thread (in time, late, or not spawned); all of them act on a world
    [W] the supervisor only passes on.  [Worker] models the thread protocol itself;
    here an operation that is late keeps what it was given, and its effects on the
    world are the runtime's.  The graph algorithms are those of [DependencyOrder], on
    the indices computed here. *)

From S2P Require Import Prelude CoreTypes Capability ModuleContract DependencyOrder Worker Health.
#[local] Open Scope nat_scope.

Definition MAX_MODULES : nat := 256.
(** [version.rs]. *)
Definition CORE_ABI_VERSION : AbiVersion := mk_AbiVersion (mk_ModuleVersion 1 0 0) 1.
#[export] Instance AbiVersion_eq_dec : EqDecision AbiVersion.
Proof. solve_decision. Defined.

Inductive ModuleState :=
  | Discovered | Validated | Starting | Ready | Degraded | ModuleUnavailable | Stopping | Stopped.
#[export] Instance ModuleState_eq_dec : EqDecision ModuleState.
Proof. solve_decision. Defined.

Definition participates_in_resolution (state : ModuleState) : bool :=
  match state with Discovered | Validated | Starting | Ready | Degraded => true | _ => false end.
Definition is_live_state (state : ModuleState) : bool :=
  match state with Starting | Ready | Degraded => true | _ => false end.
Definition state_from_health (status : HealthStatus) : ModuleState :=
  match status with
  | HealthLive => Starting | HealthReady => Ready
  | HealthDegraded => Degraded | HealthUnavailable => ModuleUnavailable
  end.

(** The token is represented by whether it observes a cancellation. *)
Record ModuleContext := mk_ModuleContext { context_cancelled : bool; context_capabilities : CapabilityResolution }.

(** What happens to the worker of one operation. *)
Inductive Fate := InTime | Late | NotSpawned.

(** Factories [F], handles [H] and the world [W].  The calls return what
    [guarded_module_call] makes of them: a panic is an internal error. *)
Class ModuleRuntime (F H W : Type) := {
  factory_descriptor : F -> ModuleDescriptor;
  factory_validate : F -> ModuleConfigurationSnapshot -> CapabilityResolution -> W -> W * result CoreError unit;
  factory_start : F -> ModuleContext -> W -> W * result CoreError H;
  handle_health : H -> W -> W * result CoreError ModuleHealthSnapshot;
  handle_shutdown : H -> N -> W -> W * result CoreError unit;
  worker_fate : N -> W -> W * Fate;
  now : W -> N;
  time_max : N;
}.

Record ManagedModule (F H : Type) := mk_ManagedModule {
  module_descriptor : ModuleDescriptor;
  module_factory : F;
  module_configuration : ModuleConfigurationSnapshot;
  module_resolution : option CapabilityResolution;
  module_handle : option H;
  module_cancelled : bool;
  module_state : ModuleState;
  module_generation : N;
  module_error : option ErrorCode;
}.
Arguments mk_ManagedModule {F H} _ _ _ _ _ _ _ _ _.
Arguments module_descriptor {F H} _.
Arguments module_factory {F H} _.
Arguments module_configuration {F H} _.
Arguments module_resolution {F H} _.
Arguments module_handle {F H} _.
Arguments module_cancelled {F H} _.
Arguments module_state {F H} _.
Arguments module_generation {F H} _.
Arguments module_error {F H} _.
#[export] Instance ManagedModule_eta F H : Eta (ManagedModule F H) := fun m =>
  mk_ManagedModule (module_descriptor m) (module_factory m) (module_configuration m) (module_resolution m)
    (module_handle m) (module_cancelled m) (module_state m) (module_generation m) (module_error m).

(** [supervisor_cancelled] is the root token every module token is a child of. *)
Record LifecycleSupervisor (F H : Type) := mk_LifecycleSupervisor {
  modules : list (ManagedModule F H);
  started_order : list nat;
  validation_order : list nat;
  supervisor_cancelled : bool;
}.
Arguments mk_LifecycleSupervisor {F H} _ _ _ _.
Arguments modules {F H} _.
Arguments started_order {F H} _.
Arguments validation_order {F H} _.
Arguments supervisor_cancelled {F H} _.
#[export] Instance LifecycleSupervisor_eta F H : Eta (LifecycleSupervisor F H) := fun s =>
  mk_LifecycleSupervisor (modules s) (started_order s) (validation_order s) (supervisor_cancelled s).

Record ModuleStatus := mk_ModuleStatus {
  status_module_id : ModuleId; status_state : ModuleState; status_generation : N; status_error : option ErrorCode;
}.
Record LifecycleReport := mk_LifecycleReport { statuses : list ModuleStatus; report_startup_order : list (option ModuleId) }.

Section supervisor.
  Context {F H W : Type} `{!ModuleRuntime F H W}.
  Notation module := (ManagedModule F H).
  Notation supervisor := (LifecycleSupervisor F H).
  Implicit Types (m : module) (ms : list module) (s : supervisor) (w : W).

Definition module_id m : ModuleId := descriptor_id (module_descriptor m).
Definition participates m : bool := participates_in_resolution (module_state m).
Definition has_handle m : bool := bool_decide (is_Some (module_handle m)).

Definition mark_unavailable (code : ErrorCode) m : module :=
  m <| module_cancelled := true |> <| module_state := ModuleUnavailable |> <| module_error := Some code |>.
Definition mark_stopped m : module := m <| module_state := Stopped |> <| module_error := None |>.
Definition module_status m : ModuleStatus :=
  mk_ModuleStatus (module_id m) (module_state m) (module_generation m) (module_error m).
(** An index in range is looked up; the indices of [startup_order] always are. *)
Definition report s : LifecycleReport :=
  mk_LifecycleReport (module_status <$> modules s) ((fun i => module_id <$> modules s !! i) <$> started_order s).
Definition new_supervisor : supervisor := mk_LifecycleSupervisor [] [] [] false.

(** ** Bounded operations *)

(** The outcome of one operation on a worker; [cell] is the shared handle cell. *)
Definition run_operation {C T} (timeout : N) (work : C -> W -> W * C * T) (cell : C) w : W * C * BoundedOutcome T :=
  match worker_fate timeout w with
  | (w, InTime) => let '(w, cell, value) := work cell w in (w, cell, BoundedCompleted value)
  | (w, Late) => (w, cell, BoundedDeadlineExceeded)
  | (w, NotSpawned) => (w, cell, BoundedUnavailable)
  end.
(** An operation that shares no cell with its caller. *)
Definition run_call {T} (timeout : N) (call : W -> W * T) w : W * BoundedOutcome T :=
  let '(w, _, outcome) := run_operation timeout (fun (_ : unit) w => let '(w, r) := call w in (w, tt, r)) tt w in
  (w, outcome).

(** ** Registration *)

Definition validate_registration s (d : ModuleDescriptor) : result CoreError unit :=
  reject_if (MAX_MODULES <=? length (modules s))
    (with_internal_context (CoreError_from_code ResourceExhausted) "module registration limit reached") ;;
  reject_if (existsb (fun m => bool_decide (module_id m = descriptor_id d)) (modules s))
    (with_internal_context (CoreError_from_code Conflict) "module identity is already registered").
Definition validate_static_contracts m : module :=
  if decide (abi_version (module_descriptor m) <> CORE_ABI_VERSION) then mark_unavailable Conflict m
  else if decide (snapshot_schema_id (module_configuration m)
                  <> contract_schema_id (configuration (module_descriptor m)))
  then mark_unavailable Conflict m else m.
Definition register_module (f : F) (c : ModuleConfigurationSnapshot) : act supervisor CoreError unit :=
  s ← get;
  lift (validate_registration s (factory_descriptor f)) ;;
  let m := mk_ManagedModule (factory_descriptor f) f c None None false Discovered 0%N None in
  modify (fun s => s <| modules := modules s ++ [validate_static_contracts m] |>).

(** ** Capabilities and dependencies *)

Definition register_module_capabilities (graph : CapabilityGraph) m : CapabilityGraph * module :=
  if negb (participates m) then (graph, m)
  else match register_batch (provided (module_descriptor m)) graph with
       | (graph, Ok _) => (graph, m)
       | (graph, Err e) => (graph, mark_unavailable (ce_code e) m)
       end.
Fixpoint register_all (graph : CapabilityGraph) ms : CapabilityGraph * list module :=
  match ms with
  | [] => (graph, [])
  | m :: ms =>
      let '(graph, m) := register_module_capabilities graph m in
      let '(graph, ms) := register_all graph ms in (graph, m :: ms)
  end.
Definition build_capability_graph ms : CapabilityGraph * list module := register_all [] ms.

Definition descriptor_requirements (d : ModuleDescriptor) : list CapabilityRequirement :=
  required d ++ required_secret_capabilities d.
Definition resolve_module (graph : CapabilityGraph) m : module :=
  if negb (participates m) then m
  else match resolve graph (descriptor_requirements (module_descriptor m)) with
       | Ok resolution => m <| module_resolution := Some resolution |>
       | Err e => mark_unavailable (ce_code e) m
       end.
Definition resolve_requirements (graph : CapabilityGraph) ms : list module := resolve_module graph <$> ms.

Definition module_index ms (id : ModuleId) : option nat := (list_find (fun m => module_id m = id) ms) ≫= fun p => Some p.1.
(** [sort_unstable] and [dedup] on indices. *)
Fixpoint dedup (l : list nat) : list nat :=
  match l with
  | x :: (y :: _) as rest => if x =? y then dedup rest else x :: dedup rest
  | _ => l
  end.
Definition sort_dedup (l : list nat) : list nat := dedup (sort_by N.of_nat l).
Definition check_at (p : module -> bool) ms (i : nat) : bool := is_some_and p (ms !! i).
(** The providers of a resolution that satisfy [p], as indices. *)
Definition provider_indices (p : module -> bool) ms (resolution : CapabilityResolution) : list nat :=
  sort_dedup (List.filter (check_at p ms)
    (omap (fun b => module_index ms (provider_module (provider b))) resolution)).
Definition dependency_indices ms : list (list nat) :=
  (fun m => if participates m
            then match module_resolution m with Some r => provider_indices participates ms r | None => [] end
            else []) <$> ms.
Definition cycle_members ms : list nat :=
  let dependencies := dependency_indices ms in
  List.filter (fun i => check_at participates ms i && dependency_path_returns_to i dependencies) (seq 0 (length ms)).
Definition mark_cycles (cycles : list nat) ms : list module :=
  foldl (fun ms i => alter (mark_unavailable Conflict) i ms) ms cycles.
Definition module_order ms : list nat := dependency_order (check_at participates ms) (dependency_indices ms).

Definition dependencies_in_states (accepted : list ModuleState) ms m : bool :=
  match module_resolution m with
  | None => false
  | Some r => forallb (fun b =>
      is_some_and (fun j => check_at (fun p => bool_decide (module_state p ∈ accepted)) ms j)
        (module_index ms (provider_module (provider b)))) r
  end.

(** ** Validation *)

Definition lifecycle_of m : LifecycleBudget := lifecycle (resources (module_descriptor m)).
Definition apply_validation_outcome (outcome : BoundedOutcome (result CoreError unit)) m : module :=
  match outcome with
  | BoundedCompleted (Ok _) => m <| module_state := Validated |> <| module_error := None |>
  | BoundedCompleted (Err e) => mark_unavailable (ce_code e) m
  | BoundedDeadlineExceeded => mark_unavailable DeadlineExceeded m
  | BoundedUnavailable => mark_unavailable Unavailable m
  end.
Definition validate_module m w : module * W :=
  match module_resolution m with
  | None => (mark_unavailable Unavailable m, w)
  | Some resolution =>
      let '(w, outcome) := run_call (startup_timeout (lifecycle_of m))
        (factory_validate (module_factory m) (module_configuration m) resolution) w in
      (apply_validation_outcome outcome m, w)
  end.
(** One round of the loop of [validate_in_order]. *)
Definition validate_one (i : nat) (st : list module * W) : list module * W :=
  let '(ms, w) := st in
  match ms !! i with
  | None => (ms, w)
  | Some m =>
      if decide (module_state m <> Discovered) then (ms, w)
      else if negb (dependencies_in_states [Validated; Ready; Degraded] ms m)
      then (<[i := mark_unavailable Unavailable m]> ms, w)
      else let '(m, w) := validate_module m w in (<[i := m]> ms, w)
  end.
Definition validate_in_order (order : list nat) (st : list module * W) : list module * W :=
  foldl (fun st i => validate_one i st) st order.

(** The modules after the capability and cycle checks of [validate_all]. *)
Definition check_dependencies ms : list module :=
  let '(graph, ms) := build_capability_graph ms in
  let ms := resolve_requirements graph ms in
  mark_cycles (cycle_members ms) ms.
Definition validate_all s w : supervisor * W :=
  let ms := check_dependencies (modules s) in
  let order := module_order ms in
  let '(ms, w) := validate_in_order order (ms, w) in
  (s <| modules := ms |> <| validation_order := order |>, w).

(** ** Startup *)

Record StartPreparation := mk_StartPreparation {
  start_context : ModuleContext; start_generation : N; start_timeout : N;
}.
Definition prepare_start (root_cancelled : bool) m : result ErrorCode StartPreparation :=
  resolution ← ok_or (module_resolution m) Unavailable;
  generation ← ok_or (checked_add u64_max (module_generation m) 1) ResourceExhausted;
  mret (mk_StartPreparation (mk_ModuleContext (root_cancelled || module_cancelled m) resolution) generation
    (startup_timeout (lifecycle_of m))).
Definition apply_start_outcome (generation : N) (outcome : BoundedOutcome (result CoreError H)) m : module * bool :=
  match outcome with
  | BoundedCompleted (Ok handle) =>
      (m <| module_handle := Some handle |> <| module_generation := generation |>
         <| module_state := Ready |> <| module_error := None |>, true)
  | BoundedCompleted (Err e) => (mark_unavailable (ce_code e) m, false)
  | BoundedDeadlineExceeded => (mark_unavailable DeadlineExceeded m, false)
  | BoundedUnavailable => (mark_unavailable Unavailable m, false)
  end.
Definition start_validated_module (root_cancelled : bool) m w : module * bool * W :=
  match prepare_start root_cancelled m with
  | Err code => (mark_unavailable code m, false, w)
  | Ok preparation =>
      let m := m <| module_state := Starting |> in
      let '(w, outcome) := run_call (start_timeout preparation)
        (factory_start (module_factory m) (start_context preparation)) w in
      (apply_start_outcome (start_generation preparation) outcome m, w)
  end.
Definition start_one (root_cancelled : bool) (i : nat) (st : list module * W) : list module * W * bool :=
  let '(ms, w) := st in
  match ms !! i with
  | None => (ms, w, false)
  | Some m =>
      if is_live_state (module_state m) then (ms, w, false)
      else if decide (module_state m <> Validated) then (ms, w, false)
      else if negb (dependencies_in_states [Ready; Degraded] ms m)
      then (<[i := mark_unavailable Unavailable m]> ms, w, false)
      else let '(m, started, w) := start_validated_module root_cancelled m w in (<[i := m]> ms, w, started)
  end.
(** One round of the loop of [start_all]. *)
Definition start_round (root_cancelled : bool) (st : list module * W * list nat) (i : nat) : list module * W * list nat :=
  let '(ms, w, started_order) := st in
  let '(ms, w, started) := start_one root_cancelled i (ms, w) in
  (ms, w, if started && negb (bool_decide (i ∈ started_order)) then started_order ++ [i] else started_order).
Definition start_all s w : supervisor * W :=
  let '(s, w) := validate_all s w in
  let '(ms, w, order) :=
    foldl (start_round (supervisor_cancelled s)) (modules s, w, started_order s) (validation_order s) in
  (s <| modules := ms |> <| started_order := order |>, w).

(** ** Shutdown of one module *)

Inductive ShutdownOutcome :=
  | ShutdownCompleted (result : result CoreError unit)
  | ShutdownDeadlineExceeded | ShutdownUnavailable | NoHandle.

Definition effective_shutdown_deadline m (caller_deadline : option N) w : N :=
  let budget_deadline := checked_add time_max (now w) (shutdown_timeout (lifecycle_of m)) in
  match budget_deadline, caller_deadline with
  | Some budget, Some caller => N.min budget caller
  | Some budget, None => budget
  | None, Some caller => caller
  | None, None => now w
  end.
Definition remaining_system_time (deadline : N) w : N := saturating_sub deadline (now w).

(** [execute_shutdown] and [execute_health]: the worker takes the handle of the cell. *)
Definition execute_shutdown (deadline : N) (cell : option H) w : W * option H * option (result CoreError unit) :=
  match cell with
  | None => (w, None, None)
  | Some handle => let '(w, r) := handle_shutdown handle deadline w in (w, None, Some r)
  end.
Definition map_shutdown_outcome (cell : option H) (outcome : BoundedOutcome (option (result CoreError unit))) m
    : module * ShutdownOutcome :=
  match outcome with
  | BoundedCompleted (Some r) => (m, ShutdownCompleted r)
  | BoundedCompleted None => (m, ShutdownUnavailable)
  | BoundedDeadlineExceeded => (m, ShutdownDeadlineExceeded)
  | BoundedUnavailable => (m <| module_handle := cell |>, ShutdownUnavailable)
  end.
Definition run_shutdown_operation (caller_deadline : option N) m w : module * ShutdownOutcome * W :=
  match module_handle m with
  | None => (m, NoHandle, w)
  | Some handle =>
      let m := m <| module_handle := None |> <| module_cancelled := true |> in
      let deadline := effective_shutdown_deadline m caller_deadline w in
      let '(w, cell, outcome) :=
        run_operation (remaining_system_time deadline w) (execute_shutdown deadline) (Some handle) w in
      (map_shutdown_outcome cell outcome m, w)
  end.

(** ** Health *)

Definition retire_unavailable (code : ErrorCode) m w : module * W :=
  let '(m, _, w) := run_shutdown_operation None (mark_unavailable code m) w in (m, w).
Definition fail_health (code : ErrorCode) m w : module * ModuleHealthSnapshot * W :=
  let '(m, w) := retire_unavailable code m w in
  (m, mk_ModuleHealthSnapshot (module_id m) HealthUnavailable ReasonInternalFailure, w).
Definition apply_health_snapshot (snapshot : ModuleHealthSnapshot) m w : module * ModuleHealthSnapshot * W :=
  if decide (health_status snapshot = HealthUnavailable)
  then let '(m, w) := retire_unavailable Unavailable m w in (m, snapshot, w)
  else (m <| module_state := state_from_health (health_status snapshot) |> <| module_error := None |>, snapshot, w).
Definition execute_health (cell : option H) w : W * option H * option (H * result CoreError ModuleHealthSnapshot) :=
  match cell with
  | None => (w, None, None)
  | Some handle => let '(w, r) := handle_health handle w in (w, None, Some (handle, r))
  end.
Definition apply_completed_health (operation : H * result CoreError ModuleHealthSnapshot) m w
    : module * ModuleHealthSnapshot * W :=
  let m := m <| module_handle := Some operation.1 |> in
  match operation.2 with
  | Ok snapshot => apply_health_snapshot snapshot m w
  | Err e => fail_health (ce_code e) m w
  end.
Definition apply_health_outcome (cell : option H)
    (outcome : BoundedOutcome (option (H * result CoreError ModuleHealthSnapshot))) m w
    : module * ModuleHealthSnapshot * W :=
  match outcome with
  | BoundedCompleted (Some operation) => apply_completed_health operation m w
  | BoundedCompleted None => fail_health Internal m w
  | BoundedDeadlineExceeded => fail_health DeadlineExceeded m w
  | BoundedUnavailable => fail_health Unavailable (m <| module_handle := cell |>) w
  end.
Definition refresh_module_health m w : module * option ModuleHealthSnapshot * W :=
  match module_handle m with
  | None => (m, None, w)
  | Some handle =>
      let m := m <| module_handle := None |> in
      let '(w, cell, outcome) := run_operation (health_timeout (lifecycle_of m)) execute_health (Some handle) w in
      let '(m, snapshot, w) := apply_health_outcome cell outcome m w in
      (m, Some snapshot, w)
  end.
(** The loop of [health]; it returns early, with the rest of the modules untouched,
    when the report is full. *)
Fixpoint refresh_all ms (r : HealthReport) w : list module * HealthReport * W :=
  match ms with
  | [] => ([], r, w)
  | m :: ms =>
      match refresh_module_health m w with
      | (m, None, w) => let '(ms, r, w) := refresh_all ms r w in (m :: ms, r, w)
      | (m, Some snapshot, w) =>
          match add_module snapshot r with
          | (r, Ok _) => let '(ms, r, w) := refresh_all ms r w in (m :: ms, r, w)
          | (_, Err _) => (m :: ms, HealthReport_new HealthUnavailable ReasonResourceExhausted (now w), w)
          end
      end
  end.
Definition health s w : supervisor * HealthReport * W :=
  let '(ms, r, w) := refresh_all (modules s) (core_ready (now w)) w in
  (s <| modules := ms |>, r, w).

(** ** Shutdown *)

Definition shutdown_dependencies ms : list (list nat) :=
  (fun m => match module_resolution m with
            | Some r => if has_handle m then provider_indices has_handle ms r else []
            | None => []
            end) <$> ms.
(** [compare_shutdown_order], as the key modules are sorted by. *)
Definition shutdown_key ms (i : nat) : Reverse N * ModuleId :=
  match ms !! i with
  | Some m => (reverse (shutdown_priority (module_descriptor m)), module_id m)
  | None => (reverse 0%N, MkId EmptyString)
  end.
Definition module_shutdown_order ms : list nat :=
  shutdown_order (check_at has_handle ms) (shutdown_key ms) (shutdown_dependencies ms).
Definition apply_shutdown_outcome (outcome : ShutdownOutcome) m : module :=
  match outcome with
  | ShutdownCompleted (Ok _) => mark_stopped m
  | ShutdownCompleted (Err e) => mark_unavailable (ce_code e) m
  | ShutdownDeadlineExceeded => mark_unavailable DeadlineExceeded m
  | ShutdownUnavailable => mark_unavailable Unavailable m
  | NoHandle => m
  end.
Definition shutdown_one (deadline : N) (i : nat) (st : list module * W) : list module * W :=
  let '(ms, w) := st in
  match ms !! i with
  | None => (ms, w)
  | Some m =>
      if has_handle m then
        let '(m, outcome, w) := run_shutdown_operation (Some deadline) (m <| module_state := Stopping |>) w in
        (<[i := apply_shutdown_outcome outcome m]> ms, w)
      else (ms, w)
  end.
Definition shutdown_all (deadline : N) s w : supervisor * W :=
  let s := s <| supervisor_cancelled := true |> in
  let '(ms, w) := foldl (fun st i => shutdown_one deadline i st) (modules s, w) (module_shutdown_order (modules s)) in
  (s <| modules := ms |>, w).


(** ** Lemmas *)

(** *** Indices *)

Lemma dedup_elem x l : x ∈ dedup l <-> x ∈ l.
Proof.
  induction l as [|y l IH]; [done|]. cbn [dedup]. destruct l as [|z l]; [done|].
  destruct (Nat.eqb_spec y z) as [->|]; rewrite ?elem_of_cons, IH, ?elem_of_cons; naive_solver.
Qed.
Lemma index_le x y : ord_le (N.of_nat x) (N.of_nat y) -> x <= y.
Proof. unfold ord_le, cmp, N_ord. intros Hle. pose proof (proj1 (N.compare_le_iff _ _) Hle). lia. Qed.
Lemma dedup_increasing l : sorted_by N.of_nat l -> StronglySorted lt (dedup l).
Proof.
  unfold sorted_by. induction 1 as [|x l Hs IH Hall]; [constructor|]. cbn [dedup]. destruct l as [|y l]; [repeat constructor|].
  destruct (Nat.eqb_spec x y) as [->|Hne]; [done|]. constructor; [done|].
  apply Forall_forall. intros z Hz. rewrite dedup_elem in Hz.
  assert (forall u, u ∈ y :: l -> x <= u) as Hx.
  { intros u Hu. apply index_le. by apply (proj1 (Forall_forall _ _) Hall). }
  pose proof (Hx y ltac:(by left)). apply elem_of_cons in Hz as [->|Hz]; [lia|].
  apply StronglySorted_inv in Hs as [_ Hs]. pose proof (index_le _ _ (proj1 (Forall_forall _ _) Hs z Hz)). lia.
Qed.
Lemma increasing_NoDup l : StronglySorted lt l -> NoDup l.
Proof.
  induction 1 as [|x l _ IH Hall]; [constructor|]. constructor; [|done].
  intros Hx. apply (proj1 (Forall_forall _ _) Hall) in Hx. lia.
Qed.
Lemma sort_dedup_spec l : NoDup (sort_dedup l) /\ forall x, x ∈ sort_dedup l <-> x ∈ l.
Proof.
  unfold sort_dedup. split; [apply increasing_NoDup, dedup_increasing, sort_by_sorted|].
  intros x. by rewrite dedup_elem, sort_by_Permutation.
Qed.

Lemma check_at_true (p : module -> bool) ms i : check_at p ms i = true <-> exists m, ms !! i = Some m /\ p m = true.
Proof. unfold check_at. destruct (ms !! i) as [m|]; cbn; naive_solver. Qed.
(** The index of a module depends on the identities only. *)
Lemma module_index_ids ms ms' id : module_id <$> ms = module_id <$> ms' -> module_index ms id = module_index ms' id.
Proof.
  unfold module_index. revert ms'. induction ms as [|m ms IH]; intros [|m' ms'] Heq; try done.
  cbn in Heq. injection Heq as Hm Heq. cbn [list_find]. rewrite Hm. destruct (decide (module_id m' = id)); [done|].
  specialize (IH ms' Heq). destruct (list_find _ ms) as [[]|], (list_find _ ms') as [[]|]; cbn in *; congruence.
Qed.
Lemma provider_indices_spec p ms r :
  NoDup (provider_indices p ms r) /\
  forall j, j ∈ provider_indices p ms r <->
    check_at p ms j = true /\ exists b, b ∈ r /\ module_index ms (provider_module (provider b)) = Some j.
Proof.
  unfold provider_indices. destruct (sort_dedup_spec (List.filter (check_at p ms)
    (omap (fun b => module_index ms (provider_module (provider b))) r))) as [Hnd Hin].
  split; [done|]. intros j. rewrite Hin, elem_of_list_filter, list_elem_of_omap. naive_solver.
Qed.
Lemma indices_wf (p q : module -> bool) ms :
  dependencies_wf ((fun m => if p m then match module_resolution m with Some r => provider_indices q ms r | None => [] end else []) <$> ms).
Proof.
  apply dependencies_wf_Forall. rewrite length_fmap. apply Forall_forall. intros ps (m & -> & _)%list_elem_of_fmap.
  destruct (p m); [|by repeat constructor]. destruct (module_resolution m) as [r|]; [|by repeat constructor].
  destruct (provider_indices_spec q ms r) as [Hnd Hin]. split; [done|].
  apply Forall_forall. intros j (Hj & _)%Hin. apply check_at_true in Hj as (x & Hx & _). by eapply lookup_lt_Some.
Qed.
Lemma dependency_indices_wf ms : dependencies_wf (dependency_indices ms).
Proof. apply indices_wf. Qed.
Lemma dependency_edge ms i j : depends (dependency_indices ms) i j <->
  exists m r b, ms !! i = Some m /\ participates m = true /\ module_resolution m = Some r /\ b ∈ r /\
    module_index ms (provider_module (provider b)) = Some j /\ check_at participates ms j = true.
Proof.
  unfold depends, providers_of, dependency_indices. rewrite list_lookup_fmap.
  destruct (ms !! i) as [m|]; cbn; [|rewrite elem_of_nil; split; [done|by intros (? & ? & ? & ? & _)]].
  destruct (participates m) eqn:Hp; [|rewrite elem_of_nil; split; [done|intros (? & ? & ? & [= <-] & ? & _); congruence]].
  destruct (module_resolution m) as [r|] eqn:Hr;
    [|rewrite elem_of_nil; split; [done|intros (? & ? & ? & [= <-] & _ & ? & _); congruence]].
  rewrite (proj2 (provider_indices_spec participates ms r)). split.
  - intros (Hj & b & Hb & Hi). by exists m, r, b.
  - intros (m' & r' & b & [= <-] & _ & Hr' & Hb & Hi & Hj). split; [done|]. exists b. split; [congruence|done].
Qed.
Lemma edge_participates ms i j : depends (dependency_indices ms) i j ->
  check_at participates ms i = true /\ check_at participates ms j = true.
Proof. intros (m & r & b & Hm & Hp & _ & _ & _ & Hj)%dependency_edge. split; [|done]. apply check_at_true. eauto. Qed.

(** *** Loops that serve each index once *)

Section turns.
  Context {S : Type} (mods : S -> list module) (step : S -> nat -> S).
  Context (step_local : forall t i j, j <> i -> mods (step t i) !! j = mods t !! j).
  Context (step_ids : forall t i, module_id <$> mods (step t i) = module_id <$> mods t).

Lemma turns_other order t j : j ∉ order -> mods (foldl step t order) !! j = mods t !! j.
Proof.
  revert t. induction order as [|i order IH]; intros t Hj; [done|]. cbn [foldl].
  rewrite IH by set_solver. apply step_local. set_solver.
Qed.
Lemma turns_ids order t : module_id <$> mods (foldl step t order) = module_id <$> mods t.
Proof. revert t. induction order as [|i order IH]; intros t; [done|]. cbn [foldl]. by rewrite IH. Qed.
(** At its turn a module is as before the loop, and the earlier ones as after it. *)
Lemma turns_at order t a i : NoDup order -> order !! a = Some i ->
  exists u, (forall j, j ∈ take a order -> mods u !! j = mods (foldl step t order) !! j) /\
    (forall j, j ∉ take a order -> mods u !! j = mods t !! j) /\
    module_id <$> mods u = module_id <$> mods t /\
    mods (foldl step t order) !! i = mods (step u i) !! i.
Proof.
  intros Hnd Ha. exists (foldl step t (take a order)).
  assert (order = take a order ++ i :: drop (Datatypes.S a) order) as Heq by (symmetry; by apply take_drop_middle).
  assert (Hrest : forall j, j ∉ drop (Datatypes.S a) order ->
    mods (foldl step t order) !! j = mods (step (foldl step t (take a order)) i) !! j).
  { intros j Hj. rewrite Heq at 1. rewrite foldl_app. cbn [foldl]. by apply turns_other. }
  rewrite Heq in Hnd. apply NoDup_app in Hnd as (_ & Hdis & Hnd). apply NoDup_cons in Hnd as [Hi _].
  split_and!.
  - intros j Hj. rewrite Hrest, step_local; [done| |].
    + intros ->. apply (Hdis i Hj). by left.
    + intros Hd. apply (Hdis j Hj). by right.
  - intros j. apply turns_other.
  - apply turns_ids.
  - by apply Hrest.
Qed.
End turns.

(** *** The checks of [validate_all] *)

Lemma mark_cycles_lookup cycles ms i :
  mark_cycles cycles ms !! i = (if decide (i ∈ cycles) then mark_unavailable Conflict else id) <$> ms !! i.
Proof.
  unfold mark_cycles. revert ms. induction cycles as [|c cycles IH]; intros ms; cbn [foldl].
  { rewrite decide_False by apply not_elem_of_nil. by destruct (ms !! i). }
  rewrite IH. destruct (decide (i = c)) as [->|Hne].
  - rewrite list_lookup_alter_eq, (decide_True (P := c ∈ c :: cycles)) by by left. destruct (ms !! c); [|done].
    by destruct (decide (c ∈ cycles)).
  - rewrite list_lookup_alter_ne by done. destruct (decide (i ∈ cycles)), (decide (i ∈ c :: cycles)); done || set_solver.
Qed.
Lemma mark_cycles_ids cycles ms : module_id <$> mark_cycles cycles ms = module_id <$> ms.
Proof.
  apply list_eq. intros i. rewrite !list_lookup_fmap, mark_cycles_lookup. destruct (ms !! i); [|done].
  cbn. by destruct (decide _).
Qed.
Lemma cycle_members_elem ms i : i ∈ cycle_members ms <->
  check_at participates ms i = true /\ tc (depends (dependency_indices ms)) i i.
Proof.
  unfold cycle_members. rewrite elem_of_list_filter, elem_of_seq, andb_true_iff. split.
  - intros [Hi [Hp Hc]]. split; [done|]. apply path_returns_iff in Hc; [done|apply dependency_indices_wf|].
    unfold dependency_indices. rewrite length_fmap. lia.
  - intros [Hp Hc]. apply check_at_true in Hp as Hm. destruct Hm as (m & Hm & _). apply lookup_lt_Some in Hm as Hlt.
    split; [lia|]. split; [done|]. apply path_returns_iff; [apply dependency_indices_wf| |done].
    unfold dependency_indices. by rewrite length_fmap.
Qed.

(** Marking the members of cycles leaves an acyclic graph. *)
Lemma marked_edges ms i j :
  depends (dependency_indices (mark_cycles (cycle_members ms) ms)) i j ->
  depends (dependency_indices ms) i j /\ i ∉ cycle_members ms.
Proof.
  rewrite !dependency_edge. intros (m & r & b & Hm & Hp & Hr & Hb & Hi & Hj).
  rewrite mark_cycles_lookup in Hm. destruct (ms !! i) as [m0|] eqn:E; [|done].
  destruct (decide (i ∈ cycle_members ms)) as [Hc|Hc]; injection Hm as <-; [done|]. split; [|done].
  exists m0, r, b. split_and!; try done.
  - rewrite <- Hi. apply module_index_ids. symmetry. apply mark_cycles_ids.
  - apply check_at_true in Hj as (p & Hp' & Hpp). apply check_at_true. rewrite mark_cycles_lookup in Hp'.
    destruct (ms !! j) as [p0|]; [|done]. exists p0. split; [done|].
    destruct (decide (j ∈ cycle_members ms)); injection Hp' as <-; done.
Qed.
Lemma marked_acyclic ms c : ~ tc (depends (dependency_indices (mark_cycles (cycle_members ms) ms))) c c.
Proof.
  intros Hc.
  assert (forall x y, tc (depends (dependency_indices (mark_cycles (cycle_members ms) ms))) x y ->
    tc (depends (dependency_indices ms)) x y /\ x ∉ cycle_members ms) as Hsub.
  { induction 1 as [x y Hxy%marked_edges|x y z Hxy%marked_edges _ [IH _]].
    - destruct Hxy as [Hxy Hx]. split; [by apply tc_once|done].
    - destruct Hxy as [Hxy Hx]. split; [by eapply tc_l|done]. }
  destruct (Hsub c c Hc) as [Hcc Hn]. apply Hn, cycle_members_elem. split; [|done].
  inversion Hcc as [x y Hxy|x y z Hxy _]; subst; by apply edge_participates in Hxy as [Hx _].
Qed.
(** So every participating module has its place in the order, after its providers. *)
Lemma module_order_spec ms0 : let ms := mark_cycles (cycle_members ms0) ms0 in
  NoDup (module_order ms) /\
  (forall i, i ∈ module_order ms <-> check_at participates ms i = true) /\
  (forall a i j, module_order ms !! a = Some i -> depends (dependency_indices ms) i j -> j ∈ take a (module_order ms)).
Proof.
  intros ms. destruct (dependency_order_spec (dependency_indices ms) (dependency_indices_wf ms)
    (check_at participates ms) (edge_participates ms)) as (Hnd & Hbef & Hin).
  split; [done|]. split; [|done]. intros i. unfold module_order. rewrite Hin. split; [tauto|].
  intros Hp. split_and!; [|done|intros c _; apply marked_acyclic].
  apply check_at_true in Hp as (m & Hm & _). unfold dependency_indices. rewrite length_fmap. by eapply lookup_lt_Some.
Qed.
End supervisor.
