(* ===== verification/LifecycleStart.v ===== *)
(** * Starting the modules

    What [LifecycleSupervisor::start_all] makes of every module, as a relation between
    the modules before and after ([start_result], [failure]), and the proof that the
    definitions of [Lifecycle] establish it.  The property itself is stated in
    [LifecycleRun]. *)

From S2P Require Import Prelude CoreTypes Capability ModuleContract DependencyOrder Worker Health Lifecycle.
#[local] Open Scope nat_scope.

Section supervisor.
  Context {F H W : Type} `{!ModuleRuntime F H W}.
  Notation module := (ManagedModule F H).
  Notation supervisor := (LifecycleSupervisor F H).
  Implicit Types (m : module) (ms : list module) (s : supervisor) (w : W).

(** *** Startup *)

Definition failure_code {A} (outcome : BoundedOutcome (result CoreError A)) : option ErrorCode :=
  match outcome with
  | BoundedCompleted (Ok _) => None
  | BoundedCompleted (Err e) => Some (ce_code e)
  | BoundedDeadlineExceeded => Some DeadlineExceeded
  | BoundedUnavailable => Some Unavailable
  end.
(** The provider a requirement is bound to is ready or degraded. *)
Definition provider_up ms (b : CapabilityBinding) : bool :=
  is_some_and (check_at (fun p => bool_decide (module_state p ∈ [Ready; Degraded])) ms)
    (module_index ms (provider_module (provider b))).
(** The modules after resolution, before cycles are marked. *)
Definition resolved ms : list module :=
  let '(graph, ms) := build_capability_graph ms in resolve_requirements graph ms.
Definition resolution_of ms m : result CoreError CapabilityResolution :=
  resolve (build_capability_graph ms).1 (descriptor_requirements (module_descriptor m)).

(** Why a start of the modules [ms], which ends in [fin], fails for [m], module [i]. *)
Inductive failure ms (fin : list module) (i : nat) m : ErrorCode -> Prop :=
  | failed_registration e :
      (register_batch (provided (module_descriptor m)) (register_all [] (take i ms)).1).2 = Err e ->
      failure ms fin i m (ce_code e)
  | failed_resolution e : resolution_of ms m = Err e -> failure ms fin i m (ce_code e)
  | failed_cycle : tc (depends (dependency_indices (resolved ms))) i i -> failure ms fin i m Conflict
  | failed_provider r b : resolution_of ms m = Ok r -> b ∈ r -> provider_up fin b = false ->
      failure ms fin i m Unavailable
  | failed_validation r w w' outcome code : resolution_of ms m = Ok r ->
      run_call (startup_timeout (lifecycle_of m))
        (factory_validate (module_factory m) (module_configuration m) r) w = (w', outcome) ->
      failure_code outcome = Some code -> failure ms fin i m code
  | failed_start r cancelled w w' outcome code : resolution_of ms m = Ok r ->
      run_call (startup_timeout (lifecycle_of m))
        (factory_start (module_factory m) (mk_ModuleContext cancelled r)) w = (w', outcome) ->
      failure_code outcome = Some code -> failure ms fin i m code
  | failed_generation : (u64_max <= module_generation m)%N -> failure ms fin i m ResourceExhausted.

(** What a failure does to a module. *)
Record downed m (code : ErrorCode) (m' : module) : Prop := {
  dn_state : module_state m' = ModuleUnavailable;
  dn_error : module_error m' = Some code;
  dn_cancelled : module_cancelled m' = true;
  dn_handle : module_handle m' = module_handle m;
  dn_generation : module_generation m' = module_generation m;
}.

(** What a start of [ms] makes of [m], module [i]. *)
Inductive start_result ms (fin : list module) (i : nat) m : module -> Prop :=
  | result_retired : participates m = false -> start_result ms fin i m m
  | result_running r : is_live_state (module_state m) = true -> resolution_of ms m = Ok r ->
      start_result ms fin i m (m <| module_resolution := Some r |>)
  | result_started r handle : (module_state m = Discovered \/ module_state m = Validated) ->
      resolution_of ms m = Ok r -> forallb (provider_up fin) r = true ->
      (module_generation m + 1 <= u64_max)%N ->
      start_result ms fin i m
        (m <| module_resolution := Some r |> <| module_handle := Some handle |>
           <| module_generation := (module_generation m + 1)%N |> <| module_state := Ready |> <| module_error := None |>)
  | result_failed code m' : participates m = true -> downed m code m' -> failure ms fin i m code ->
      start_result ms fin i m m'.

Lemma register_all_lookup graph ms i :
  (register_all graph ms).2 !! i =
  (fun m => (register_module_capabilities (register_all graph (take i ms)).1 m).2) <$> ms !! i.
Proof.
  revert graph i. induction ms as [|m ms IH]; intros graph i; [done|]. cbn [register_all].
  destruct (register_module_capabilities graph m) as [graph' m'] eqn:E.
  specialize (IH graph'). destruct (register_all graph' ms) as [g rest] eqn:Er. cbn [snd] in *.
  destruct i as [|i]; [cbn; by rewrite E|].
  change ((m' :: rest) !! Datatypes.S i) with (rest !! i). change ((m :: ms) !! Datatypes.S i) with (ms !! i).
  rewrite IH. cbn [take register_all]. rewrite E. destruct (ms !! i) as [x|]; [|done]. cbn [fmap option_fmap option_map].
  by destruct (register_all graph' (take i ms)).
Qed.
Lemma resolved_lookup ms i : resolved ms !! i =
  (fun m => resolve_module (build_capability_graph ms).1
    (register_module_capabilities (register_all [] (take i ms)).1 m).2) <$> ms !! i.
Proof.
  unfold resolved, build_capability_graph, resolve_requirements.
  pose proof (register_all_lookup [] ms i) as Hr. destruct (register_all [] ms) as [graph rest]. cbn [fst snd] in *.
  rewrite list_lookup_fmap, Hr. by destruct (ms !! i).
Qed.
Lemma check_dependencies_eq ms : check_dependencies ms = mark_cycles (cycle_members (resolved ms)) (resolved ms).
Proof. unfold check_dependencies, resolved. by destruct (build_capability_graph ms). Qed.
Lemma downed_mark code m m' : module_handle m' = module_handle m -> module_generation m' = module_generation m ->
  downed m code (mark_unavailable code m').
Proof. by split. Qed.
Lemma check_dependencies_at ms i m : ms !! i = Some m ->
  exists m', check_dependencies ms !! i = Some m' /\
    (participates m = false /\ m' = m \/
     participates m = true /\ (exists r, resolution_of ms m = Ok r /\ m' = m <| module_resolution := Some r |>) \/
     participates m = true /\ exists code, downed m code m' /\ forall fin, failure ms fin i m code).
Proof.
  intros Hm. rewrite check_dependencies_eq, mark_cycles_lookup. pose proof (resolved_lookup ms i) as Hres.
  rewrite Hm in Hres. cbn [fmap option_fmap option_map] in Hres. rewrite Hres. cbn.
  eexists. split; [reflexivity|]. unfold register_module_capabilities, resolve_module in *.
  destruct (participates m) eqn:Hp; cbn [negb] in *.
  - right. destruct (register_batch _ _) as [graph [[]|e]] eqn:Ereg; cbn [snd] in *.
    + rewrite Hp in *. cbn [negb] in *. fold (resolution_of ms m) in *.
      destruct (resolution_of ms m) as [r|e] eqn:Er; cbn [id] in *.
      * destruct (decide _) as [Hc|Hc]; [right|left].
        -- split; [done|]. exists Conflict. split; [by apply downed_mark|]. intros fin. apply failed_cycle.
           by apply cycle_members_elem in Hc as [_ Hc].
        -- split; [done|]. by exists r.
      * right. split; [done|]. exists (ce_code e). split; [|intros fin; by apply failed_resolution].
        rewrite decide_False; [by apply downed_mark|]. intros [Hc _]%cycle_members_elem.
        apply check_at_true in Hc as (x & Hx & Hxp). rewrite Hres in Hx. by injection Hx as <-.
    + right. split; [done|]. exists (ce_code e). split; [|intros fin; eapply failed_registration; by rewrite Ereg].
      cbn [participates mark_unavailable] in *. rewrite decide_False; [by apply downed_mark|]. intros [Hc _]%cycle_members_elem.
      apply check_at_true in Hc as (x & Hx & Hxp). rewrite Hres in Hx. by injection Hx as <-.
  - left. split; [done|]. cbn [snd] in *. rewrite Hp in *. cbn [negb] in *. rewrite decide_False; [done|].
    intros [Hc _]%cycle_members_elem. apply check_at_true in Hc as (x & Hx & Hxp). rewrite Hres in Hx.
    injection Hx as <-. congruence.
Qed.

(** Reading the states of a module's providers does not depend on whether the modules
    that come later have had their turn. *)
Lemma providers_settled ms0 (u fin : list module) a i m r m' accepted :
  let ms := mark_cycles (cycle_members ms0) ms0 in
  module_order ms !! a = Some i -> ms !! i = Some m -> module_resolution m = Some r -> module_resolution m' = Some r ->
  (forall j, j ∈ take a (module_order ms) -> u !! j = fin !! j) ->
  (forall j, j ∉ module_order ms -> u !! j = fin !! j) ->
  module_id <$> u = module_id <$> ms -> module_id <$> fin = module_id <$> ms ->
  dependencies_in_states accepted u m' = dependencies_in_states accepted fin m'.
Proof.
  intros ms Ha Hm Hr Hr' Hin Hout Hidu Hidf. destruct (module_order_spec ms0) as (_ & Hord & Hbef). fold ms in Hord, Hbef.
  unfold dependencies_in_states. rewrite Hr'.
  assert (forall b, b ∈ r ->
    is_some_and (fun j => check_at (fun p => bool_decide (module_state p ∈ accepted)) u j)
        (module_index u (provider_module (provider b))) =
    is_some_and (fun j => check_at (fun p => bool_decide (module_state p ∈ accepted)) fin j)
        (module_index fin (provider_module (provider b)))) as Hb.
  { intros b Hb. rewrite (module_index_ids u ms), (module_index_ids fin ms) by done.
    destruct (module_index ms (provider_module (provider b))) as [j|] eqn:Hj; [|done]. cbn [is_some_and].
    unfold check_at. destruct (check_at participates ms j) eqn:Hp.
    - rewrite Hin; [done|]. eapply Hbef; [done|]. apply dependency_edge. exists m, r, b. split_and!; try done.
      assert (check_at participates ms i = true) as Hi by (apply Hord; by eapply list_elem_of_lookup_2).
      unfold check_at in Hi. by rewrite Hm in Hi.
    - rewrite Hout; [done|]. rewrite Hord. by rewrite Hp. }
  clear - Hb. induction r as [|b r IH]; [done|]. cbn [forallb]. rewrite Hb, IH by set_solver. done.
Qed.

Lemma insert_local ms i (x : module) j : j <> i -> <[i := x]> ms !! j = ms !! j.
Proof. intros Hj. by apply list_lookup_insert_ne. Qed.
Lemma insert_ids ms i m (x : module) : ms !! i = Some m -> module_id x = module_id m ->
  module_id <$> <[i := x]> ms = module_id <$> ms.
Proof. intros Hm Hx. rewrite list_fmap_insert, Hx. apply list_insert_id. by rewrite list_lookup_fmap, Hm. Qed.
Lemma validate_module_id m w : module_id (validate_module m w).1 = module_id m.
Proof.
  unfold validate_module. destruct (module_resolution m); [|done]. destruct (run_call _ _ _) as [w' o].
  by destruct o as [[[]|e]| |].
Qed.
Lemma start_module_id c m w : module_id (start_validated_module c m w).1.1 = module_id m.
Proof.
  unfold start_validated_module. destruct (prepare_start c m) as [p|e]; [|done]. destruct (run_call _ _ _) as [w' o].
  by destruct o as [[h|e]| |].
Qed.

Lemma validate_one_local st i j : j <> i -> (validate_one i st).1 !! j = st.1 !! j.
Proof.
  intros Hj. destruct st as [ms w]. cbn. destruct (ms !! i) as [m|]; [|done].
  destruct (decide _); [done|]. destruct (negb _); [by apply insert_local|].
  destruct (validate_module m w). by apply insert_local.
Qed.
Lemma validate_one_ids st i : module_id <$> (validate_one i st).1 = module_id <$> st.1.
Proof.
  destruct st as [ms w]. cbn. destruct (ms !! i) as [m|] eqn:Hm; [|done].
  destruct (decide _); [done|]. destruct (negb _); [by eapply insert_ids|].
  pose proof (validate_module_id m w) as Hid. destruct (validate_module m w). by eapply insert_ids.
Qed.
Lemma start_round_local c (st : list module * W * list nat) i j : j <> i -> (start_round c st i).1.1 !! j = st.1.1 !! j.
Proof.
  intros Hj. destruct st as [[ms w] o]. cbn. destruct (ms !! i) as [m|]; [|done].
  destruct (is_live_state _); [done|]. destruct (decide _); [done|]. destruct (negb _); [by apply insert_local|].
  destruct (start_validated_module c m w) as [[m' b] w']. by apply insert_local.
Qed.
Lemma start_round_ids c (st : list module * W * list nat) i :
  module_id <$> (start_round c st i).1.1 = module_id <$> st.1.1.
Proof.
  destruct st as [[ms w] o]. cbn. destruct (ms !! i) as [m|] eqn:Hm; [|done].
  destruct (is_live_state _); [done|]. destruct (decide _); [done|]. destruct (negb _); [by eapply insert_ids|].
  pose proof (start_module_id c m w) as Hid. destruct (start_validated_module c m w) as [[m' b] w']. by eapply insert_ids.
Qed.

(** A loop over the order of [validate_all]: what module [i] finds at its turn. *)
Lemma order_turn {S} (mods : S -> list module) (step : S -> nat -> S)
    (step_local : forall t i j, j <> i -> mods (step t i) !! j = mods t !! j)
    (step_ids : forall t i, module_id <$> mods (step t i) = module_id <$> mods t) ms0 t i m r :
  let ms := mark_cycles (cycle_members ms0) ms0 in
  let fin := mods (foldl step t (module_order ms)) in
  ms !! i = Some m -> participates m = true -> module_resolution m = Some r -> module_id <$> mods t = module_id <$> ms ->
  exists u, mods u !! i = mods t !! i /\ fin !! i = mods (step u i) !! i /\
    forall accepted m', module_resolution m' = Some r ->
      dependencies_in_states accepted (mods u) m' = dependencies_in_states accepted fin m'.
Proof.
  intros ms fin Hm Hp Hr Hids. destruct (module_order_spec ms0) as (Hnd & Hord & _). fold ms in Hnd, Hord.
  assert (i ∈ module_order ms) as (a & Ha)%list_elem_of_lookup.
  { apply Hord. unfold check_at. by rewrite Hm. }
  destruct (turns_at mods step step_local step_ids (module_order ms) t a i Hnd Ha) as (u & Hin & Hout & Hidu & Hi).
  exists u. split; [|split; [done|]].
  - apply Hout. intros Hit. apply elem_of_take in Hit as (b & Hb & Hba). pose proof (NoDup_lookup _ _ _ _ Hnd Ha Hb). lia.
  - intros accepted m' Hr'. eapply (providers_settled ms0 (mods u) fin a i m r); try done.
    + intros j Hj. unfold fin. rewrite (turns_other mods step step_local step_ids) by done. apply Hout.
      intros Hjt. apply Hj. apply elem_of_take in Hjt as (b & Hb & _). by eapply list_elem_of_lookup_2.
    + by rewrite Hidu.
    + unfold fin. by rewrite (turns_ids mods step step_ids).
Qed.

(** The validation phase, module by module. *)
Definition validate_step (st : list module * W) (i : nat) : list module * W := validate_one i st.
Lemma validate_in_order_ids order (st : list module * W) : module_id <$> (validate_in_order order st).1 = module_id <$> st.1.
Proof. apply (turns_ids fst validate_step). intros t i. apply validate_one_ids. Qed.
Lemma validate_in_order_other order (st : list module * W) j : j ∉ order -> (validate_in_order order st).1 !! j = st.1 !! j.
Proof.
  apply (turns_other fst validate_step); [intros t i k; apply validate_one_local|intros t i; apply validate_one_ids].
Qed.
Lemma retired_not_ordered ms0 i m : let ms := mark_cycles (cycle_members ms0) ms0 in
  ms !! i = Some m -> participates m = false -> i ∉ module_order ms.
Proof.
  intros ms Hm Hp Hi. apply (module_order_spec ms0) in Hi. fold ms in Hi. unfold check_at in Hi. rewrite Hm in Hi.
  cbn in Hi. congruence.
Qed.
Lemma validate_in_order_at ms0 w0 i m r : let ms := mark_cycles (cycle_members ms0) ms0 in
  let v := (validate_in_order (module_order ms) (ms, w0)).1 in
  ms !! i = Some m -> participates m = true -> module_resolution m = Some r ->
  module_state m <> Discovered /\ v !! i = Some m \/
  module_state m = Discovered /\ dependencies_in_states [Validated; Ready; Degraded] v m = false /\
    v !! i = Some (mark_unavailable Unavailable m) \/
  module_state m = Discovered /\ exists w, v !! i = Some (validate_module m w).1.
Proof.
  intros ms v Hm Hp Hr.
  destruct (order_turn fst validate_step (fun t => validate_one_local t) validate_one_ids ms0 (ms, w0) i m r Hm Hp Hr eq_refl)
    as ([u w] & Hui & Hi & Hdeps).
  change (fst (foldl validate_step _ _)) with v in Hi, Hdeps. cbn [fst] in *. rewrite Hm in Hui.
  specialize (Hdeps [Validated; Ready; Degraded] m Hr). unfold validate_step, validate_one in Hi. rewrite Hui in Hi.
  assert (i < length u) as Hlt by by eapply lookup_lt_Some.
  destruct (decide (module_state m <> Discovered)) as [Hs|Hs%dec_stable]; [left; by rewrite Hi|right].
  rewrite Hdeps in Hi. destruct (dependencies_in_states _ v m) eqn:Hd; cbn [negb] in Hi; [right|left].
  - split; [done|]. exists w. rewrite Hi. destruct (validate_module m w). cbn. by rewrite list_lookup_insert_eq.
  - rewrite Hi. cbn. by rewrite list_lookup_insert_eq.
Qed.

(** The start phase, module by module. *)
Lemma start_loop_at c ms0 v w0 started0 i m mv r : let ms := mark_cycles (cycle_members ms0) ms0 in
  let fin := (foldl (start_round c) (v, w0, started0) (module_order ms)).1.1 in
  ms !! i = Some m -> participates m = true -> module_resolution m = Some r -> module_id <$> v = module_id <$> ms ->
  v !! i = Some mv -> module_resolution mv = Some r ->
  module_state mv <> Validated /\ fin !! i = Some mv \/
  module_state mv = Validated /\ dependencies_in_states [Ready; Degraded] fin mv = false /\
    fin !! i = Some (mark_unavailable Unavailable mv) \/
  module_state mv = Validated /\ dependencies_in_states [Ready; Degraded] fin mv = true /\
    exists w, fin !! i = Some (start_validated_module c mv w).1.1.
Proof.
  intros ms fin Hm Hp Hr Hids Hv Hrv.
  destruct (order_turn (fun t : list module * W * list nat => t.1.1) (start_round c) (start_round_local c) (start_round_ids c)
    ms0 (v, w0, started0) i m r Hm Hp Hr Hids) as ([[u w] started] & Hui & Hi & Hdeps).
  assert (fin !! i = (start_round c (u, w, started) i).1.1 !! i) as Hi' by exact Hi. clear Hi. rename Hi' into Hi.
  pose proof (Hdeps [Ready; Degraded] mv Hrv : dependencies_in_states _ u mv = dependencies_in_states _ fin mv) as Hd'.
  cbn [fst] in Hui. rewrite Hv in Hui. unfold start_round, start_one in Hi. rewrite Hui in Hi. clearbody fin.
  assert (i < length u) as Hlt by by eapply lookup_lt_Some.
  destruct (is_live_state (module_state mv)) eqn:Hl; [left; rewrite Hi; by destruct (module_state mv)|].
  destruct (decide (module_state mv <> Validated)) as [Hs|Hs%dec_stable]; [left; by rewrite Hi|right].
  rewrite Hd' in Hi. destruct (dependencies_in_states _ fin mv) eqn:Hd; cbn [negb] in Hi; [right|left].
  - split; [done|]. split; [done|]. exists w. rewrite Hi. destruct (start_validated_module c mv w) as [[m' b] w']. cbn.
    by rewrite list_lookup_insert_eq.
  - rewrite Hi. cbn. by rewrite list_lookup_insert_eq.
Qed.

(** The start phase leaves every module alone that is not validated. *)
Lemma start_round_keeps c (st : list module * W * list nat) i j p :
  st.1.1 !! j = Some p -> module_state p <> Validated -> (start_round c st i).1.1 !! j = Some p.
Proof.
  intros Hp Hs. destruct (decide (j = i)) as [->|Hne]; [|by rewrite start_round_local].
  destruct st as [[ms w] o]. cbn in *. rewrite Hp. destruct (is_live_state _); [done|]. by rewrite decide_True.
Qed.
Lemma start_loop_keeps c order (st : list module * W * list nat) j p :
  st.1.1 !! j = Some p -> module_state p <> Validated -> (foldl (start_round c) st order).1.1 !! j = Some p.
Proof.
  revert st. induction order as [|i order IH]; intros st Hp Hs; [done|]. cbn [foldl].
  apply IH; [by apply start_round_keeps|done].
Qed.
Lemma start_loop_ids c order (st : list module * W * list nat) :
  module_id <$> (foldl (start_round c) st order).1.1 = module_id <$> st.1.1.
Proof. apply (turns_ids (fun t : list module * W * list nat => t.1.1) (start_round c) (start_round_ids c)). Qed.

Lemma states_forallb accepted ms m r : module_resolution m = Some r ->
  dependencies_in_states accepted ms m = false -> exists b, b ∈ r /\
    is_some_and (fun j => check_at (fun p => bool_decide (module_state p ∈ accepted)) ms j)
      (module_index ms (provider_module (provider b))) = false.
Proof.
  intros Hr. unfold dependencies_in_states. rewrite Hr. clear Hr. induction r as [|b r IH]; [done|]. cbn [forallb].
  intros [Hb|Hrest]%andb_false_iff; [by exists b; split; [left|]|].
  destruct (IH Hrest) as (b' & Hb' & Hf). exists b'. by split; [right|].
Qed.
Lemma provider_stays_down v fin b :
  module_id <$> fin = module_id <$> v ->
  (forall j p, v !! j = Some p -> module_state p <> Validated -> fin !! j = Some p) ->
  is_some_and (fun j => check_at (fun p => bool_decide (module_state p ∈ [Validated; Ready; Degraded])) v j)
    (module_index v (provider_module (provider b))) = false ->
  provider_up fin b = false.
Proof.
  intros Hids Hkeep. unfold provider_up. rewrite (module_index_ids fin v) by done.
  destruct (module_index v (provider_module (provider b))) as [j|]; [|done]. cbn [is_some_and]. unfold check_at.
  destruct (v !! j) as [p|] eqn:Hp; cbn [is_some_and].
  - intros Hno%bool_decide_eq_false. rewrite (Hkeep j p Hp) by set_solver. cbn [is_some_and].
    apply bool_decide_eq_false. set_solver.
  - intros _. assert (fin !! j = None) as ->; [|done].
    apply lookup_ge_None. apply lookup_ge_None in Hp. apply (f_equal length) in Hids. rewrite !length_fmap in Hids. lia.
Qed.

(** What a start makes of a validated module whose providers are up. *)
Lemma start_validated_result c ms fin i m mv r w :
  participates m = true -> (module_state m = Discovered \/ module_state m = Validated) ->
  resolution_of ms m = Ok r -> forallb (provider_up fin) r = true ->
  module_resolution mv = Some r ->
  mv <| module_state := module_state m |> <| module_error := module_error m |> = m <| module_resolution := Some r |> ->
  start_result ms fin i m (start_validated_module c mv w).1.1.
Proof.
  intros Hp Hs Hr Hup Hrv Heq. destruct m as [d f cfg res h can st g e], mv as [d' f' cfg' res' h' can' st' g' e'].
  cbn in *. injection Heq as -> -> -> -> -> -> ->. clear Hrv.
  unfold start_validated_module, prepare_start. cbn [module_resolution module_generation ok_or].
  destruct (checked_add u64_max g 1) as [g1|] eqn:Hg.
  - apply checked_add_Some in Hg as [-> Hmax].
    cbn -[run_call u64_max].
    match goal with |- context [run_call ?t ?call ?w] => destruct (run_call t call w) as [w' outcome] eqn:Hrun end.
    assert (forall code, failure_code outcome = Some code ->
      failure ms fin i (mk_ManagedModule d f cfg res h can st g e) code) as Hfail.
    { intros code Hcode. eapply failed_start; [done| |done]. exact Hrun. }
    destruct outcome as [[handle|err]| |]; cbn in *.
    + by apply (result_started ms fin i (mk_ManagedModule d f cfg res h can st g e) r handle).
    + eapply result_failed; [done| |by apply Hfail]. by split.
    + eapply result_failed; [done| |by apply Hfail]. by split.
    + eapply result_failed; [done| |by apply Hfail]. by split.
  - apply checked_add_None in Hg. cbn. eapply result_failed; [done| |apply failed_generation]; [by split|].
    cbn. lia.
Qed.

(** The states of a start: after the checks, the validation and the start phase. *)
Lemma start_all_unfold s w : exists v wv,
  let ms1 := check_dependencies (modules s) in
  (v, wv) = validate_in_order (module_order ms1) (ms1, w) /\
  modules (start_all s w).1 =
    (foldl (start_round (supervisor_cancelled s)) (v, wv, started_order s) (module_order ms1)).1.1.
Proof.
  destruct (validate_in_order (module_order (check_dependencies (modules s))) (check_dependencies (modules s), w)) as [v wv] eqn:E.
  exists v, wv. cbn zeta. split; [by rewrite E|]. unfold start_all, validate_all. rewrite E.
  cbn [modules validation_order started_order supervisor_cancelled set_field eta LifecycleSupervisor_eta].
  by destruct (foldl _ _ _) as [[ms w'] o].
Qed.

Lemma start_failed_provider ms fin i m mv code r b :
  participates m = true -> resolution_of ms m = Ok r -> b ∈ r -> provider_up fin b = false ->
  downed m code mv -> code = Unavailable -> start_result ms fin i m mv.
Proof. intros Hp Hr Hb Hup Hd ->. eapply result_failed; [done|done|]. by eapply failed_provider. Qed.

Section start_run.
  Context (s : supervisor) (w0 : W) (v : list module) (wv : W).
  Notation ms1 := (check_dependencies (modules s)).
  Notation fin := (foldl (start_round (supervisor_cancelled s)) (v, wv, started_order s) (module_order ms1)).1.1.
  Context (Hval : (v, wv) = validate_in_order (module_order ms1) (ms1, w0)).

Lemma start_keeps j p : v !! j = Some p -> module_state p <> Validated -> fin !! j = Some p.
Proof. intros Hp Hs. by apply start_loop_keeps. Qed.
Lemma validated_ids : module_id <$> v = module_id <$> ms1.
Proof. pose proof (validate_in_order_ids (module_order ms1) (ms1, w0)) as Hids. by rewrite <- Hval in Hids. Qed.
Lemma retired_stays i m : ms1 !! i = Some m -> participates m = false -> fin !! i = Some m.
Proof.
  intros Hm Hp. apply start_keeps; [|intros Hs; unfold participates in Hp; by rewrite Hs in Hp].
  pose proof (validate_in_order_other (module_order ms1) (ms1, w0) i) as Hother. rewrite <- Hval in Hother.
  cbn [fst] in Hother. rewrite Hother, Hm; [done|]. rewrite check_dependencies_eq in *. by apply (retired_not_ordered _ _ m).
Qed.
(** A module that is validated and resolved when the start phase begins. *)
Lemma start_phase i m m1 mv r : modules s !! i = Some m -> ms1 !! i = Some m1 -> m1 = m <| module_resolution := Some r |> ->
  participates m = true -> resolution_of (modules s) m = Ok r ->
  v !! i = Some mv -> module_state mv = Validated -> module_resolution mv = Some r ->
  (module_state m = Discovered \/ module_state m = Validated) ->
  mv <| module_state := module_state m |> <| module_error := module_error m |> = m1 ->
  exists m', fin !! i = Some m' /\ start_result (modules s) fin i m m'.
Proof.
  intros Hm Hm1 Heq Hp Hr Hv Hs Hrv Hsm Hsame.
  pose proof (start_loop_at (supervisor_cancelled s) (resolved (modules s)) v wv (started_order s) i m1 mv r) as Hat.
  cbn zeta in Hat. rewrite <- check_dependencies_eq in Hat. rewrite Heq in Hsame.
  destruct Hat as [[? _]|[(_ & Hdeps & Hfin)|(_ & Hdeps & w' & Hfin)]]; try done; try (by subst m1); [apply validated_ids| |].
  - exists (mark_unavailable Unavailable mv). split; [done|].
    destruct (states_forallb _ _ _ _ Hrv Hdeps) as (b & Hb & Hdown).
    eapply (start_failed_provider _ _ _ _ _ Unavailable r b); try done.
    apply downed_mark; [by apply (f_equal module_handle) in Hsame|by apply (f_equal module_generation) in Hsame].
  - eexists. split; [done|]. unfold dependencies_in_states in Hdeps. rewrite Hrv in Hdeps.
    by eapply start_validated_result.
Qed.
(** A module that passes the checks of [validate_all]. *)
Lemma checked_start i m r : modules s !! i = Some m -> ms1 !! i = Some (m <| module_resolution := Some r |>) ->
  participates m = true -> resolution_of (modules s) m = Ok r ->
  exists m', fin !! i = Some m' /\ start_result (modules s) fin i m m'.
Proof.
  intros Hm Hm1 Hp Hr. set (m1 := m <| module_resolution := Some r |>) in *.
  assert (Hp1 : participates m1 = true) by done. assert (Hr1 : module_resolution m1 = Some r) by done.
  pose proof (validate_in_order_at (resolved (modules s)) w0 i m1 r) as Hvat. cbn zeta in Hvat.
  rewrite <- check_dependencies_eq, <- Hval in Hvat. cbn [fst] in Hvat.
  destruct (Hvat Hm1 Hp1 Hr1) as [[Hs Hv]|[(Hs & Hdeps & Hv)|(Hs & w' & Hv)]].
  - destruct (decide (module_state m = Validated)) as [Hval'|Hnv].
    + apply (start_phase i m m1 m1 r); done || by right.
    + exists m1. split; [by apply start_keeps|]. apply result_running; [|done].
      change (module_state m1) with (module_state m) in Hs. unfold participates in Hp. by destruct (module_state m).
  - destruct (states_forallb _ _ _ _ Hr1 Hdeps) as (b & Hb & Hdown).
    exists (mark_unavailable Unavailable m1). split; [by apply start_keeps|].
    eapply (start_failed_provider _ _ _ _ _ Unavailable r b); try done.
    apply (provider_stays_down v fin b); [by rewrite start_loop_ids|exact start_keeps|done].
  - unfold validate_module in Hv. rewrite Hr1 in Hv. destruct (run_call _ _ w') as [w'' outcome] eqn:Hcall. cbn [fst] in Hv.
    destruct (failure_code outcome) as [code|] eqn:Hcode.
    + exists (apply_validation_outcome outcome m1).
      assert (downed m code (apply_validation_outcome outcome m1)) as Hd.
      { destruct outcome as [[[]|e]| |]; cbn in Hcode; try done; injection Hcode as <-; by apply downed_mark. }
      split; [apply start_keeps; [done|]; by rewrite (dn_state _ _ _ Hd)|].
      eapply result_failed; [done|done|]. by eapply failed_validation.
    + destruct outcome as [[[]|e]| |]; try done.
      eapply (start_phase i m m1 _ r Hm Hm1 eq_refl Hp Hr Hv); [done|done|by left|]. by destruct m; cbn in *; subst.
Qed.
End start_run.

Lemma start_all_at s w i m : modules s !! i = Some m ->
  exists m', modules (start_all s w).1 !! i = Some m' /\
    start_result (modules s) (modules (start_all s w).1) i m m'.
Proof.
  intros Hm. destruct (start_all_unfold s w) as (v & wv & Hval & ->). cbn zeta in Hval.
  destruct (check_dependencies_at _ _ _ Hm) as (m1 & Hm1 & Hcases).
  destruct Hcases as [[Hp ->]|[[Hp (r & Hr & ->)]|[Hp (code & Hd & Hfail)]]].
  - exists m. split; [by eapply retired_stays|by apply result_retired].
  - by eapply checked_start.
  - exists m1. split; [eapply retired_stays; [done|done|]; unfold participates; by rewrite (dn_state _ _ _ Hd)|].
    by eapply result_failed.
Qed.
End supervisor.
