(* ===== verification/LifecycleRun.v ===== *)
(** * Executions of the lifecycle supervisor

    The invariant of the supervisor of [Lifecycle] over sequences of requests, what a
    health pass and a shutdown make of every module, a concrete system, and the
    properties of the component. *)

From S2P Require Import Prelude CoreTypes Capability ModuleContract DependencyOrder Worker Health Lifecycle LifecycleStart.
#[local] Open Scope nat_scope.

Section supervisor.
  Context {F H W : Type} `{!ModuleRuntime F H W}.
  Notation module := (ManagedModule F H).
  Notation supervisor := (LifecycleSupervisor F H).
  Implicit Types (m : module) (ms : list module) (s : supervisor) (w : W).

(** *** What holds of every module and of every supervisor *)

Record module_inv m : Prop := {
  mi_live : is_live_state (module_state m) = true -> is_Some (module_handle m);
  mi_idle : module_state m ∈ [Discovered; Validated; Stopped] -> module_handle m = None;
  mi_settled : module_state m <> Stopping;
  mi_error : is_Some (module_error m) <-> module_state m = ModuleUnavailable;
  mi_cancelled : module_state m ∈ [ModuleUnavailable; Stopped] -> module_cancelled m = true;
  mi_started : is_Some (module_handle m) -> is_Some (module_resolution m) /\ module_generation m = 1%N;
  mi_fresh : module_state m ∈ [Discovered; Validated] -> module_cancelled m = false /\ module_generation m = 0%N;
  mi_stopped : module_state m = Stopped -> module_generation m = 1%N;
  mi_generation : (module_generation m <= 1)%N;
}.
Record supervisor_inv s : Prop := {
  si_modules : Forall module_inv (modules s);
  si_unique : NoDup (module_id <$> modules s);
  si_bounded : length (modules s) <= MAX_MODULES;
  si_started : NoDup (started_order s);
  si_range : Forall (fun i => i < length (modules s)) (started_order s);
}.

(** Refutes that a state is in a list without it. *)
Ltac other_state := let Hin := fresh in intros Hin; repeat (apply elem_of_cons in Hin as [Hin|Hin]; [discriminate Hin|]);
  by apply not_elem_of_nil in Hin.
Lemma mark_inv code m : module_inv m -> module_inv (mark_unavailable code m).
Proof. intros [Hl Hi Hs He Hc Hg Hf Hst Hb]. split; cbn; try done; other_state. Qed.
Lemma resolve_inv r m : module_inv m -> module_inv (m <| module_resolution := Some r |>).
Proof. intros [Hl Hi Hs He Hc Hg Hf Hst Hb]. split; cbn; try done. intros Hh. split; [by eexists|by apply Hg]. Qed.
Lemma downed_inv m code m' : downed m code m' -> module_resolution m' = module_resolution m -> module_inv m -> module_inv m'.
Proof.
  intros [Hs He Hc Hh Hg] Hr [_ _ _ _ _ Hst _ _ Hb]. split; rewrite ?Hs, ?He, ?Hh, ?Hr, ?Hg; try done; other_state.
Qed.
Lemma validate_module_inv m w : module_state m = Discovered -> module_inv m -> module_inv (validate_module m w).1.
Proof.
  intros Hs Hm. unfold validate_module. destruct (module_resolution m) as [r|] eqn:Hr; [|by apply mark_inv].
  destruct (run_call _ _ w) as [w' o]. destruct o as [[[]|e]| |]; cbn [fst apply_validation_outcome]; try by apply mark_inv.
  assert (module_handle m = None) as Hh by (apply (mi_idle _ Hm); rewrite Hs; by left).
  destruct Hm as [_ _ _ _ _ Hg Hf _ Hb]. split; cbn; try done; [other_state|]. intros _. apply Hf. rewrite Hs. by left.
Qed.
Lemma start_module_inv c m w : module_state m = Validated -> module_inv m -> module_inv (start_validated_module c m w).1.1.
Proof.
  intros Hs Hm. unfold start_validated_module, prepare_start.
  destruct (module_resolution m) as [r|] eqn:Hr; cbn -[run_call u64_max]; [|by apply mark_inv].
  destruct (checked_add u64_max (module_generation m) 1) as [g|] eqn:Hg; cbn -[run_call u64_max]; [|by apply mark_inv].
  apply checked_add_Some in Hg as [-> Hmax].
  match goal with |- context [run_call ?t ?call ?w] => destruct (run_call t call w) as [w' o] end.
  destruct Hm as [Hl Hi Hst He Hc Hgen Hf Hsp Hb]. destruct (Hf ltac:(rewrite Hs; by right; left)) as [_ Hzero]. rewrite Hs in Hi.
  destruct o as [[h|e]| |]; split; cbn -[u64_max]; rewrite ?(Hi ltac:(by right; left)); try done; try other_state.
  - intros _. rewrite Hr, Hzero. by split; [eexists|].
  - by rewrite Hzero.
Qed.

Lemma Forall_alter_inv (P : module -> Prop) f i ms : Forall P ms -> (forall m, P m -> P (f m)) -> Forall P (alter f i ms).
Proof.
  intros Hall Hf. apply Forall_lookup. intros j m Hj. destruct (decide (j = i)) as [->|Hne].
  - rewrite list_lookup_alter_eq in Hj. destruct (ms !! i) as [x|] eqn:Hx; [|done]. injection Hj as <-.
    apply Hf. by eapply Forall_lookup_1.
  - rewrite list_lookup_alter_ne in Hj by done. by eapply Forall_lookup_1.
Qed.
Lemma check_dependencies_inv ms : Forall module_inv ms -> Forall module_inv (check_dependencies ms).
Proof.
  intros Hall. rewrite check_dependencies_eq. unfold mark_cycles.
  assert (Forall module_inv (resolved ms)) as Hres.
  { apply Forall_lookup. intros i m Hi. rewrite resolved_lookup in Hi. destruct (ms !! i) as [x|] eqn:Hx; [|done].
    injection Hi as <-. pose proof (Forall_lookup_1 _ _ _ _ Hall Hx) as Hm.
    assert (module_inv (register_module_capabilities (register_all [] (take i ms)).1 x).2) as Hreg.
    { unfold register_module_capabilities. destruct (negb _); [done|]. destruct (register_batch _ _) as [g [[]|e]]; [done|by apply mark_inv]. }
    unfold resolve_module. destruct (negb _); [done|]. destruct (resolve _ _) as [r|e]; [by apply resolve_inv|by apply mark_inv]. }
  revert Hres. generalize (cycle_members (resolved ms)). intros cycles. generalize (resolved ms).
  induction cycles as [|c cycles IH]; intros l Hl; [done|]. cbn [foldl]. apply IH, Forall_alter_inv; [done|apply mark_inv].
Qed.
Lemma check_dependencies_ids ms : module_id <$> check_dependencies ms = module_id <$> ms.
Proof.
  rewrite check_dependencies_eq, mark_cycles_ids. apply list_eq. intros i. rewrite !list_lookup_fmap, resolved_lookup.
  destruct (ms !! i) as [m|]; [|done]. cbn. f_equal. unfold resolve_module, register_module_capabilities.
  destruct (negb (participates m)); [cbn|destruct (register_batch _ _) as [g [[]|e]]; cbn];
    by repeat (case_match; cbn).
Qed.
Lemma validate_one_inv st i : Forall module_inv st.1 -> Forall module_inv (validate_one i st).1.
Proof.
  destruct st as [ms w]. cbn. intros Hall. destruct (ms !! i) as [m|] eqn:Hm; [|done].
  pose proof (Forall_lookup_1 _ _ _ _ Hall Hm) as Hinv. destruct (decide _) as [|Hs%dec_stable]; [done|].
  destruct (negb _); [by apply Forall_insert, mark_inv|].
  pose proof (validate_module_inv m w Hs Hinv). destruct (validate_module m w). by apply Forall_insert.
Qed.
Lemma validate_in_order_inv order (st : list module * W) :
  Forall module_inv st.1 -> Forall module_inv (validate_in_order order st).1.
Proof. revert st. induction order as [|i order IH]; intros st Hst; [done|]. by apply IH, validate_one_inv. Qed.
Lemma start_round_inv c (st : list module * W * list nat) i :
  Forall module_inv st.1.1 -> Forall module_inv (start_round c st i).1.1.
Proof.
  destruct st as [[ms w] o]. cbn. intros Hall. destruct (ms !! i) as [m|] eqn:Hm; [|done].
  pose proof (Forall_lookup_1 _ _ _ _ Hall Hm) as Hinv. destruct (is_live_state _); [done|].
  destruct (decide _) as [|Hs%dec_stable]; [done|]. destruct (negb _); [by apply Forall_insert, mark_inv|].
  pose proof (start_module_inv c m w Hs Hinv). destruct (start_validated_module c m w) as [[m' b] w']. by apply Forall_insert.
Qed.
(** The indices of started modules: in range, each once. *)
Definition order_ok (st : list module * W * list nat) : Prop :=
  NoDup st.2 /\ Forall (fun j => j < length st.1.1) st.2.
Lemma start_round_order c (st : list module * W * list nat) i : order_ok st -> order_ok (start_round c st i).
Proof.
  pose proof (f_equal length (start_round_ids c st i)) as Hlen. rewrite !length_fmap in Hlen.
  destruct st as [[ms w] o]. unfold order_ok. intros [Hnd Hall]. cbn [fst snd] in *. rewrite Hlen. unfold start_round.
  destruct (start_one c i (ms, w)) as [[ms' w'] started] eqn:E. cbn [snd].
  destruct started; cbn [andb]; [|done]. destruct (decide (i ∈ o)) as [Hi|Hi]; [by rewrite bool_decide_true|].
  rewrite bool_decide_false by done. cbn [negb]. split.
  - apply NoDup_app. split; [done|]. split; [|apply NoDup_singleton]. intros j Hj ->%list_elem_of_singleton. done.
  - apply Forall_app. split; [done|]. apply Forall_singleton. cbn in E.
    destruct (ms !! i) as [m|] eqn:Hm; [by eapply lookup_lt_Some|by injection E].
Qed.
Lemma start_loop_inv c order (st : list module * W * list nat) :
  Forall module_inv st.1.1 -> order_ok st ->
  Forall module_inv (foldl (start_round c) st order).1.1 /\ order_ok (foldl (start_round c) st order).
Proof.
  revert st. induction order as [|i order IH]; intros st Hst Ho; [done|]. cbn [foldl].
  apply IH; [by apply start_round_inv|by apply start_round_order].
Qed.

(** What the loops of the supervisor keep of the list of modules. *)
Lemma supervisor_inv_update s s' :
  supervisor_inv s -> module_id <$> modules s' = module_id <$> modules s -> Forall module_inv (modules s') ->
  NoDup (started_order s') -> Forall (fun i => i < length (modules s)) (started_order s') -> supervisor_inv s'.
Proof.
  intros [Hm Hu Hb Hs Hr] Hids Hinv Hnd Hrange. pose proof (f_equal length Hids) as Hlen. rewrite !length_fmap in Hlen.
  by split; rewrite ?Hids, ?Hlen.
Qed.
Lemma validate_all_inv s w : supervisor_inv s -> supervisor_inv (validate_all s w).1.
Proof.
  intros Hs. unfold validate_all.
  pose proof (validate_in_order_inv (module_order (check_dependencies (modules s))) (check_dependencies (modules s), w)
    (check_dependencies_inv _ (si_modules _ Hs))) as Hinv.
  pose proof (validate_in_order_ids (module_order (check_dependencies (modules s))) (check_dependencies (modules s), w)) as Hids.
  destruct (validate_in_order _ _) as [v w']. cbn [fst] in *.
  apply (supervisor_inv_update s); cbn; [done| |done|apply Hs..]. by rewrite Hids, check_dependencies_ids.
Qed.
Lemma start_all_inv s w : supervisor_inv s -> supervisor_inv (start_all s w).1.
Proof.
  intros Hs. unfold start_all. pose proof (validate_all_inv s w Hs) as Hv. destruct (validate_all s w) as [s1 w1].
  cbn [fst] in Hv. set (st := (modules s1, w1, started_order s1)).
  destruct (start_loop_inv (supervisor_cancelled s1) (validation_order s1) st) as [Hinv [Hnd Hrange]];
    [apply Hv|by split; apply Hv|].
  pose proof (start_loop_ids (supervisor_cancelled s1) (validation_order s1) st) as Hids.
  destruct (foldl _ st _) as [[ms w'] o]. cbn [fst snd] in *. pose proof (f_equal length Hids) as Hlen.
  rewrite !length_fmap in Hlen. apply (supervisor_inv_update s1); cbn; [done|done|done|done|]. by rewrite Hlen in Hrange.
Qed.

Lemma register_module_run f c s :
  match register_module f c s with
  | (s', Ok _) => length (modules s) < MAX_MODULES /\
      descriptor_id (factory_descriptor f) ∉ (module_id <$> modules s) /\
      s' = s <| modules := modules s ++ [validate_static_contracts
             (mk_ManagedModule (factory_descriptor f) f c None None false Discovered 0%N None)] |>
  | (s', Err e) => s' = s /\
      (ce_code e = ResourceExhausted /\ MAX_MODULES <= length (modules s) \/
       ce_code e = Conflict /\ descriptor_id (factory_descriptor f) ∈ (module_id <$> modules s))
  end.
Proof.
  unfold register_module. rewrite act_get_run. unfold validate_registration.
  destruct (Nat.leb_spec MAX_MODULES (length (modules s))) as [Hfull|Hroom]; cbn [reject_if].
  { cbn. split; [done|]. by left. }
  destruct (existsb _ _) eqn:Hex.
  - cbn. split; [done|]. right. split; [done|]. apply existsb_exists in Hex as (m & Hm & Heq%bool_decide_eq_true).
    rewrite <- Heq. apply list_elem_of_fmap_2. by apply list_elem_of_In.
  - cbn. split; [done|]. split; [|done]. intros (m & Heq & Hm)%list_elem_of_fmap.
    assert (existsb (fun m => bool_decide (module_id m = descriptor_id (factory_descriptor f))) (modules s) = true) as Ht; [|congruence].
    apply existsb_exists. exists m. split; [by apply list_elem_of_In|]. by apply bool_decide_eq_true.
Qed.
Lemma contracts_inv m : module_inv m -> module_inv (validate_static_contracts m).
Proof. intros Hm. unfold validate_static_contracts. by repeat case_decide; try apply mark_inv. Qed.
Lemma contracts_id m : module_id (validate_static_contracts m) = module_id m.
Proof. unfold validate_static_contracts. by repeat case_decide. Qed.
Lemma register_inv f c s : supervisor_inv s -> supervisor_inv (register_module f c s).1.
Proof.
  intros Hs. pose proof (register_module_run f c s) as Hrun. destruct (register_module f c s) as [s' [u|e]]; cbn [fst];
    [|by destruct Hrun as [-> _]]. destruct Hrun as (Hroom & Hnew & ->). destruct Hs as [Hm Hu Hb Hst Hr].
  split; cbn; rewrite ?fmap_app, ?length_app.
  - apply Forall_app. split; [done|]. apply Forall_singleton, contracts_inv. split; cbn; done || other_state.
  - apply NoDup_app. split; [done|]. split; [|apply NoDup_singleton]. cbn. rewrite contracts_id.
    intros id Hid ->%list_elem_of_singleton. done.
  - cbn. lia.
  - done.
  - eapply Forall_impl; [done|]. cbn. lia.
Qed.

(** *** Health *)

(** What a refresh makes of a module. *)
Inductive health_result m : module -> Prop :=
  | health_absent : module_handle m = None -> health_result m m
  | health_live state : is_Some (module_handle m) -> is_live_state state = true ->
      health_result m (m <| module_state := state |> <| module_error := None |>)
  | health_retired code m' : is_Some (module_handle m) ->
      module_state m' = ModuleUnavailable -> module_error m' = Some code -> module_cancelled m' = true ->
      (module_handle m' = None \/ module_handle m' = module_handle m) ->
      module_generation m' = module_generation m -> module_resolution m' = module_resolution m ->
      module_descriptor m' = module_descriptor m -> health_result m m'.

(** A shutdown leaves a module without its handle, or returns the handle because no
    worker took it. *)
Lemma run_shutdown_fields d m w :
  let '(m', o, _) := run_shutdown_operation d m w in
  match module_handle m with
  | None => m' = m /\ o = NoHandle
  | Some _ => o <> NoHandle /\
      (m' = m <| module_handle := None |> <| module_cancelled := true |> \/
       o = ShutdownUnavailable /\ m' = m <| module_cancelled := true |>)
  end.
Proof.
  destruct m as [md f cfg res [h|] can st g e]; [|done]. unfold run_shutdown_operation, run_operation. cbn.
  destruct (worker_fate _ w) as [w' []]; cbn; [|by split; [|left]|by split; [|right]].
  destruct (handle_shutdown _ _ _) as [w'' r]. cbn. by split; [|left].
Qed.
Lemma retire_result code m w :
  let m' := (retire_unavailable code m w).1 in
  module_state m' = ModuleUnavailable /\ module_error m' = Some code /\ module_cancelled m' = true /\
  (module_handle m' = None \/ module_handle m' = module_handle m) /\
  module_generation m' = module_generation m /\ module_resolution m' = module_resolution m /\
  module_descriptor m' = module_descriptor m.
Proof.
  unfold retire_unavailable. pose proof (run_shutdown_fields None (mark_unavailable code m) w) as Hrun.
  destruct (run_shutdown_operation _ _ _) as [[m' o] w'].
  change (module_handle (mark_unavailable code m)) with (module_handle m) in Hrun.
  destruct (module_handle m) as [h|] eqn:Hh; [destruct Hrun as (_ & [->|[_ ->]])|destruct Hrun as [-> _]];
    cbn; rewrite ?Hh; split_and!; auto.
Qed.
(** [m0] is the module before the operation took its handle. *)
Lemma fail_health_result code m0 m w :
  m = m0 \/ m = m0 <| module_handle := None |> -> is_Some (module_handle m0) ->
  let '(m', snapshot, _) := fail_health code m w in
  health_result m0 m' /\ module_state m' = state_from_health (health_status snapshot).
Proof.
  intros Hm Hs. unfold fail_health. pose proof (retire_result code m w) as Hret.
  destruct (retire_unavailable code m w) as [m' w']. cbn [fst] in Hret. destruct Hret as (Hst & ? & ? & Hh & ? & ? & ?).
  split; [|by rewrite Hst]. destruct Hm as [->| ->]; apply (health_retired _ code); try done.
  cbn in Hh. destruct Hh; auto.
Qed.
Lemma restore_handle m h : module_handle m = Some h -> m <| module_handle := None |> <| module_handle := Some h |> = m.
Proof. destruct m. cbn. by intros ->. Qed.
Lemma refresh_result m w :
  let '(m', snapshot, _) := refresh_module_health m w in
  health_result m m' /\
  match snapshot with
  | None => module_handle m = None
  | Some s => is_Some (module_handle m) /\ module_state m' = state_from_health (health_status s)
  end.
Proof.
  unfold refresh_module_health. destruct (module_handle m) as [h|] eqn:Hh; [|by split; [apply health_absent|]].
  assert (is_Some (module_handle m)) as Hsome by (by rewrite Hh).
  unfold run_operation. destruct (worker_fate _ w) as [w1 []]; cbn [execute_health apply_health_outcome].
  - destruct (handle_health h w1) as [w2 [snapshot|e]] eqn:Hrun; cbn [apply_health_outcome apply_completed_health fst snd];
      rewrite (restore_handle m h Hh).
    + unfold apply_health_snapshot. destruct (decide (health_status snapshot = HealthUnavailable)) as [Hu|Hu].
      * pose proof (retire_result Unavailable m w2) as Hret. destruct (retire_unavailable Unavailable m w2) as [m' w'].
        cbn [fst] in Hret. destruct Hret as (Hst & ? & ? & ? & ? & ? & ?).
        split; [by apply (health_retired _ Unavailable)|]. split; [done|]. by rewrite Hst, Hu.
      * split; [|done]. apply health_live; [done|]. by destruct (health_status snapshot).
    + pose proof (fail_health_result (ce_code e) m m w2 (or_introl eq_refl) Hsome) as Hf.
      destruct (fail_health (ce_code e) m w2) as [[m' s'] w']. destruct Hf. split; [done|]. by split; [eexists|].
  - pose proof (fail_health_result DeadlineExceeded m _ w1 (or_intror eq_refl) Hsome) as Hf.
    destruct (fail_health DeadlineExceeded _ w1) as [[m' s'] w']. destruct Hf. split; [done|]. by split; [eexists|].
  - rewrite (restore_handle m h Hh). pose proof (fail_health_result Unavailable m m w1 (or_introl eq_refl) Hsome) as Hf.
    destruct (fail_health Unavailable m w1) as [[m' s'] w']. destruct Hf. split; [done|]. by split; [eexists|].
Qed.
Lemma health_result_inv m m' : module_inv m -> health_result m m' -> module_inv m' /\ module_id m' = module_id m.
Proof.
  intros Hm Hr. pose proof Hm as [Hl Hi Hs He Hc Hst Hf Hsp Hb]. destruct Hr as [Hh|state Hh Hlive|code m' Hh Hst' Herr Hcan Hh' Hg Hres Hd].
  - done.
  - split; [|done]. destruct (Hst Hh) as [_ Hone]. split; cbn; try done.
    + destruct state; try done; other_state.
    + by destruct state.
    + split; [by intros [? ?]|]. by destruct state.
    + destruct state; try done; other_state.
    + destruct state; try done; other_state.
  - split; [|unfold module_id; by rewrite Hd].
    split; rewrite ?Hst', ?Herr, ?Hg, ?Hres; try done; [other_state| |other_state]. destruct Hh' as [->| ->]; [by intros [? ?]|done].
Qed.

(** The snapshots of one pass over the modules, and what the report makes of them. *)
Definition snapshot_of m (m' : module) (snapshot : ModuleHealthSnapshot) : Prop :=
  is_Some (module_handle m) /\ module_state m' = state_from_health (health_status snapshot).
Definition handle_count ms : nat := length (List.filter has_handle ms).

Lemma refresh_all_run ms snapshots r w : report_spec snapshots r ->
  (len snapshots + N.of_nat (length ms) <= MAX_MODULE_REPORTS)%N ->
  let '(ms', r', _) := refresh_all ms r w in
  Forall2 health_result ms ms' /\
  exists new, report_spec (snapshots ++ new) r' /\ length new = handle_count ms /\
    forall snap, snap ∈ new -> exists i m m', ms !! i = Some m /\ ms' !! i = Some m' /\ snapshot_of m m' snap.
Proof.
  revert snapshots r w. induction ms as [|m ms IH]; intros snapshots r w Hr Hroom; cbn [refresh_all].
  { split; [constructor|]. exists []. rewrite app_nil_r. split; [done|]. split; [done|]. intros s Hs. by apply not_elem_of_nil in Hs. }
  pose proof (refresh_result m w) as Hone. destruct (refresh_module_health m w) as [[m1 snapshot] w1].
  destruct Hone as [Hres Hsnap]. unfold handle_count. cbn [List.filter length] in *. unfold has_handle at 1.
  destruct snapshot as [snap|].
  - destruct Hsnap as [Hh Hst]. pose proof (add_module_run snapshots r snap Hr) as Hadd.
    destruct (MAX_MODULE_REPORTS <=? len snapshots)%N eqn:Hfull; [apply N.leb_le in Hfull; lia|].
    destruct Hadd as (r1 & Hadd & Hr1 & _). rewrite Hadd.
    specialize (IH (snapshots ++ [snap]) r1 w1 Hr1). destruct (refresh_all ms r1 w1) as [[ms1 r2] w2].
    destruct IH as (Hall & new & Hspec & Hlen & Hnew); [unfold len in *; rewrite length_app; cbn; lia|].
    split; [by constructor|]. exists (snap :: new). rewrite <- app_assoc in Hspec. split; [done|].
    rewrite bool_decide_true by done. split; [cbn; by rewrite Hlen|].
    intros s [->|Hs]%elem_of_cons; [by exists 0, m, m1|]. destruct (Hnew s Hs) as (i & x & x' & ? & ? & ?).
    by exists (Datatypes.S i), x, x'.
  - specialize (IH snapshots r w1 Hr). destruct (refresh_all ms r w1) as [[ms1 r2] w2].
    destruct IH as (Hall & new & Hspec & Hlen & Hnew); [lia|]. split; [by constructor|]. exists new.
    rewrite bool_decide_false by (rewrite Hsnap; by intros [? ?]). split; [done|]. split; [done|].
    intros s Hs. destruct (Hnew s Hs) as (i & x & x' & ? & ? & ?). by exists (Datatypes.S i), x, x'.
Qed.
(** Every pass keeps the invariant, also one that a full report cuts short. *)
Lemma refresh_all_inv ms r w : Forall module_inv ms ->
  let '(ms', _, _) := refresh_all ms r w in Forall module_inv ms' /\ module_id <$> ms' = module_id <$> ms.
Proof.
  revert r w. induction ms as [|m ms IH]; intros r w Hall; cbn [refresh_all]; [done|].
  apply Forall_cons in Hall as [Hm Hall]. pose proof (refresh_result m w) as Hone.
  destruct (refresh_module_health m w) as [[m1 snapshot] w1]. destruct Hone as [Hres _].
  destruct (health_result_inv _ _ Hm Hres) as [Hm1 Hid]. destruct snapshot as [snap|].
  - destruct (add_module snap r) as [r1 [[]|e]].
    + specialize (IH r1 w1 Hall). destruct (refresh_all ms r1 w1) as [[ms1 r2] w2]. destruct IH as [? Hids].
      split; [by constructor|]. cbn. by rewrite Hid, Hids.
    + split; [by constructor|]. cbn. by rewrite Hid.
  - specialize (IH r w1 Hall). destruct (refresh_all ms r w1) as [[ms1 r2] w2]. destruct IH as [? Hids].
    split; [by constructor|]. cbn. by rewrite Hid, Hids.
Qed.
Lemma health_inv s w : supervisor_inv s -> supervisor_inv (health s w).1.1.
Proof.
  intros Hs. unfold health. pose proof (refresh_all_inv (modules s) (core_ready (now w)) w (si_modules _ Hs)) as Hall.
  destruct (refresh_all _ _ _) as [[ms r] w']. destruct Hall as [Hinv Hids].
  by apply (supervisor_inv_update s); cbn; [done|done|done|apply Hs|apply Hs].
Qed.

(** *** Shutdown *)

(** What a shutdown makes of a module. *)
Inductive shutdown_result m : module -> Prop :=
  | shutdown_absent : module_handle m = None -> shutdown_result m m
  | shutdown_stopped m' : is_Some (module_handle m) -> module_state m' = Stopped -> module_error m' = None ->
      module_cancelled m' = true -> module_handle m' = None -> module_generation m' = module_generation m ->
      module_descriptor m' = module_descriptor m -> shutdown_result m m'
  | shutdown_failed code m' : is_Some (module_handle m) -> module_state m' = ModuleUnavailable ->
      module_error m' = Some code -> module_cancelled m' = true ->
      (module_handle m' = None \/ module_handle m' = module_handle m) ->
      module_generation m' = module_generation m -> module_resolution m' = module_resolution m ->
      module_descriptor m' = module_descriptor m -> shutdown_result m m'.

Lemma shutdown_one_at deadline ms w i m : ms !! i = Some m ->
  exists m', (shutdown_one deadline i (ms, w)).1 !! i = Some m' /\ shutdown_result m m'.
Proof.
  intros Hm. assert (i < length ms) as Hlt by by eapply lookup_lt_Some.
  unfold shutdown_one. rewrite Hm. unfold has_handle. destruct (module_handle m) as [h|] eqn:Hh;
    [rewrite bool_decide_true by by eexists
    |rewrite bool_decide_false by (by intros [? ?]); exists m; split; [done|by apply shutdown_absent]].
  pose proof (run_shutdown_fields (Some deadline) (m <| module_state := Stopping |>) w) as Hrun.
  destruct (run_shutdown_operation _ _ _) as [[m1 o] w1]. change (module_handle (m <| module_state := Stopping |>)) with (module_handle m) in Hrun.
  rewrite Hh in Hrun. exists (apply_shutdown_outcome o m1). cbn [fst]. rewrite list_lookup_insert_eq by done. split; [done|].
  assert (is_Some (module_handle m)) as Hs by by rewrite Hh.
  destruct Hrun as (Ho & [->|[-> ->]]).
  - destruct o as [[[]|e]| | |]; [by apply shutdown_stopped|..|done]; eapply shutdown_failed; by auto.
  - eapply shutdown_failed; by auto.
Qed.
Lemma shutdown_result_inv m m' : module_inv m -> shutdown_result m m' -> module_inv m' /\ module_id m' = module_id m.
Proof.
  intros Hm Hr. pose proof Hm as [Hl Hi Hs He Hc Hst Hf Hsp Hb].
  destruct Hr as [Hh|m' Hh Hst' Herr Hcan Hh' Hg Hd|code m' Hh Hst' Herr Hcan Hh' Hg Hres Hd]; [done|..];
    (split; [|unfold module_id; by rewrite Hd]).
  - destruct (Hst Hh) as [_ Hone]. split; rewrite ?Hst', ?Herr, ?Hh', ?Hg; try done; other_state.
  - split; rewrite ?Hst', ?Herr, ?Hg, ?Hres; try done; [other_state| |other_state]. destruct Hh' as [->| ->]; [by intros [? ?]|done].
Qed.
Lemma shutdown_one_local d (st : list module * W) i j : j <> i -> (shutdown_one d i st).1 !! j = st.1 !! j.
Proof.
  intros Hj. destruct st as [ms w]. unfold shutdown_one. destruct (ms !! i) as [m|]; [|done]. destruct (has_handle m); [|done].
  destruct (run_shutdown_operation _ _ _) as [[m1 o] w1]. by apply insert_local.
Qed.
Lemma shutdown_one_ids d (st : list module * W) i : module_id <$> (shutdown_one d i st).1 = module_id <$> st.1.
Proof.
  apply list_eq. intros j. rewrite !list_lookup_fmap. destruct (decide (j = i)) as [->|Hj]; [|by rewrite shutdown_one_local].
  destruct st as [ms w]. cbn [fst]. destruct (ms !! i) as [m|] eqn:Hm; [|unfold shutdown_one; rewrite Hm; cbn [fst]; by rewrite Hm].
  destruct (shutdown_one_at d ms w i m Hm) as (m' & -> & Hr). cbn. f_equal. destruct Hr as [?|? ? ? ? ? ? ? Hd|? ? ? ? ? ? ? ? ? Hd];
    [done|unfold module_id; by rewrite Hd..].
Qed.
Lemma shutdown_dependencies_shape ms : shutdown_dependencies ms =
  (fun m => if has_handle m then match module_resolution m with Some r => provider_indices has_handle ms r | None => [] end
            else []) <$> ms.
Proof. unfold shutdown_dependencies. apply list_fmap_ext. intros _ m _. by destruct (has_handle m), (module_resolution m). Qed.
Lemma shutdown_edge_handles ms i j : depends (shutdown_dependencies ms) i j ->
  check_at has_handle ms i = true /\ check_at has_handle ms j = true.
Proof.
  rewrite shutdown_dependencies_shape. unfold depends, providers_of. rewrite list_lookup_fmap. unfold check_at at 1.
  destruct (ms !! i) as [m|]; cbn; [|by intros ?%not_elem_of_nil]. destruct (has_handle m); [|by intros ?%not_elem_of_nil].
  destruct (module_resolution m) as [r|]; [|by intros ?%not_elem_of_nil].
  intros Hj. split; [done|]. by apply (proj2 (provider_indices_spec has_handle ms r)) in Hj as [Hj _].
Qed.
Lemma module_shutdown_spec ms : length ms <= MAX_MODULES ->
  NoDup (module_shutdown_order ms) /\
  (forall i, i ∈ module_shutdown_order ms <-> check_at has_handle ms i = true) /\
  ((forall c, ~ tc (depends (shutdown_dependencies ms)) c c) ->
   forall a i c, module_shutdown_order ms !! a = Some i -> depends (shutdown_dependencies ms) c i ->
     c ∈ take a (module_shutdown_order ms)).
Proof.
  intros Hlen. assert (length (shutdown_dependencies ms) = length ms) as Hl by (unfold shutdown_dependencies; by rewrite length_fmap).
  assert (dependencies_wf (shutdown_dependencies ms)) as Hwf by (rewrite shutdown_dependencies_shape; apply indices_wf).
  assert (len (shutdown_dependencies ms) <= u64_max)%N as Hsize by (unfold len; rewrite Hl; unfold MAX_MODULES in Hlen; unfold u64_max; lia).
  destruct (shutdown_order_spec _ Hwf (check_at has_handle ms) (shutdown_key ms) (shutdown_edge_handles ms) Hsize)
    as (Hnd & Hin & Hnext).
  split; [done|]. split.
  - intros i. unfold module_shutdown_order. rewrite Hin, Hl. split; [tauto|]. intros Hi. split; [|done].
    apply check_at_true in Hi as (m & Hm & _). by eapply lookup_lt_Some.
  - intros Hac a i c Ha Hc. apply Hnext in Ha. eapply consumers_first; first [exact (shutdown_edge_handles ms)|done].
Qed.

Lemma shutdown_all_at deadline s w i m : supervisor_inv s -> modules s !! i = Some m ->
  exists m', modules (shutdown_all deadline s w).1 !! i = Some m' /\ shutdown_result m m'.
Proof.
  intros Hs Hm. unfold shutdown_all. cbn [modules set_field eta LifecycleSupervisor_eta].
  set (step := fun (st : list module * W) i => shutdown_one deadline i st).
  assert (Hlocal : forall t i j, j <> i -> fst (step t i) !! j = fst t !! j) by (intros; by apply shutdown_one_local).
  assert (Hids : forall t i, module_id <$> fst (step t i) = module_id <$> fst t) by (intros; apply shutdown_one_ids).
  destruct (module_shutdown_spec (modules s) (si_bounded _ Hs)) as (Hnd & Hin & _).
  change (modules (mk_LifecycleSupervisor (modules s) (started_order s) (validation_order s) true)) with (modules s).
  set (order := module_shutdown_order (modules s)) in *.
  enough (exists m', (foldl step (modules s, w) order).1 !! i = Some m' /\ shutdown_result m m') as (m' & Hm' & Hr).
  { exists m'. split; [|done]. destruct (foldl step _ order). exact Hm'. }
  destruct (decide (i ∈ order)) as [Hi|Hi].
  - apply list_elem_of_lookup in Hi as [a Ha].
    destruct (turns_at fst step Hlocal Hids order (modules s, w) a i Hnd Ha) as ([u w'] & _ & Hout & _ & Hi).
    assert (u !! i = Some m) as Hu.
    { cbn [fst] in Hout. rewrite Hout; [done|]. intros Hit. apply elem_of_take in Hit as (b & Hb & Hba).
      pose proof (NoDup_lookup _ _ _ _ Hnd Ha Hb). lia. }
    rewrite Hi. by apply shutdown_one_at.
  - exists m. rewrite (turns_other fst step Hlocal Hids) by done. split; [done|]. apply shutdown_absent.
    destruct (module_handle m) as [h|] eqn:Hh; [|done]. exfalso. apply Hi, Hin, check_at_true. exists m. split; [done|].
    unfold has_handle. by rewrite Hh.
Qed.
Lemma shutdown_all_ids deadline s w : module_id <$> modules (shutdown_all deadline s w).1 = module_id <$> modules s.
Proof.
  unfold shutdown_all. set (st := (_, w)).
  pose proof (turns_ids fst (fun (st : list module * W) i => shutdown_one deadline i st) (fun t i => shutdown_one_ids deadline t i)
    (module_shutdown_order (modules (s <| supervisor_cancelled := true |>))) st) as Hids.
  by destruct (foldl _ st _).
Qed.
Lemma shutdown_all_inv deadline s w : supervisor_inv s -> supervisor_inv (shutdown_all deadline s w).1.
Proof.
  intros Hs. pose proof (shutdown_all_ids deadline s w) as Hids.
  assert (Forall module_inv (modules (shutdown_all deadline s w).1)) as Hall.
  { apply Forall_lookup. intros i m' Hm'. pose proof (f_equal (lookup i) Hids) as Hi. rewrite !list_lookup_fmap, Hm' in Hi.
    destruct (modules s !! i) as [m|] eqn:Hm; [|done]. destruct (shutdown_all_at deadline s w i m Hs Hm) as (m2 & Hm2 & Hr).
    rewrite Hm' in Hm2. injection Hm2 as <-. eapply shutdown_result_inv; [|done]. by eapply Forall_lookup_1; [apply Hs|]. }
  assert (started_order (shutdown_all deadline s w).1 = started_order s) as Hord by (unfold shutdown_all; by destruct (foldl _ _ _)).
  apply (supervisor_inv_update s); rewrite ?Hord; [done|done|done|apply Hs|apply Hs].
Qed.
End supervisor.

(** ** Executions *)

Inductive lifecycle_request (F : Type) :=
  | RequestRegister (factory : F) (c : ModuleConfigurationSnapshot)
  | RequestValidate | RequestStart | RequestHealth | RequestShutdown (deadline : N).
Arguments RequestRegister {F} _ _.
Arguments RequestValidate {F}.
Arguments RequestStart {F}.
Arguments RequestHealth {F}.
Arguments RequestShutdown {F} _.

Section executions.
  Context {F H W : Type} `{!ModuleRuntime F H W}.
Definition serve (r : lifecycle_request F) (s : LifecycleSupervisor F H) (w : W) : LifecycleSupervisor F H * W :=
  match r with
  | RequestRegister f c => ((register_module f c s).1, w)
  | RequestValidate => validate_all s w
  | RequestStart => start_all s w
  | RequestHealth => let '(s, _, w) := health s w in (s, w)
  | RequestShutdown deadline => shutdown_all deadline s w
  end.
(** The world may change in any way between two requests. *)
Definition lifecycle_step (s s' : LifecycleSupervisor F H) : Prop := exists r w, (serve r s w).1 = s'.
Definition reachable (s : LifecycleSupervisor F H) : Prop := rtc lifecycle_step new_supervisor s.

Lemma new_supervisor_inv : supervisor_inv (new_supervisor : LifecycleSupervisor F H).
Proof. split; cbn; try constructor. unfold MAX_MODULES. lia. Qed.
Lemma serve_inv r s w : supervisor_inv s -> supervisor_inv (serve r s w).1.
Proof.
  intros Hs. destruct r as [f c| | | |d]; cbn.
  - by apply register_inv.
  - by apply validate_all_inv.
  - by apply start_all_inv.
  - pose proof (health_inv s w Hs). by destruct (health s w) as [[s' r] w'].
  - by apply shutdown_all_inv.
Qed.
Lemma lifecycle_reachable_inv s : reachable s -> supervisor_inv s.
Proof.
  intros Hs. eapply rtc_invariant; [|exact Hs|apply new_supervisor_inv]. intros x y Hx (r & w & <-). by apply serve_inv.
Qed.
End executions.

(** ** A concrete system

    A store and a client that needs it; the world is the list of modules whose health
    probe fails.  Every worker is in time. *)

Definition sample_module (id : string) (priority : N) (provides : list CapabilityProvider)
    (needs : list CapabilityRequirement) : ModuleDescriptor :=
  mk_ModuleDescriptor (MkId id) (sample_version 1) "0123abc" CORE_ABI_VERSION provides needs []
    (mk_ConfigurationContract id (sample_version 1) false) conservative priority [] id id.
Definition sample_store : ModuleDescriptor :=
  sample_module "module.store" 10 [sample_provider "store.blob" 1 "module.store"] [].
Definition sample_client : ModuleDescriptor :=
  sample_module "module.client" 20 [] [sample_requirement "store.blob" 1].
(** A module that fails to start. *)
Definition sample_broken : ModuleDescriptor := sample_module "module.broken" 5 [] [].
Definition sample_configuration (d : ModuleDescriptor) : ModuleConfigurationSnapshot :=
  mk_ModuleConfigurationSnapshot (contract_schema_id (configuration d)) 1 "".
Definition sample_error : CoreError := CoreError_from_code Internal.
#[local] Instance sample_runtime : ModuleRuntime ModuleDescriptor ModuleId (list ModuleId) := {|
  factory_descriptor := id;
  factory_validate := fun _ _ _ w => (w, Ok tt);
  factory_start := fun f _ w => (w, if decide (descriptor_id f = MkId "module.broken") then Err sample_error
                                    else Ok (descriptor_id f));
  handle_health := fun h w => (w, if decide (h ∈ w) then Err sample_error
                                  else Ok (mk_ModuleHealthSnapshot h HealthReady ReasonCoreReady));
  handle_shutdown := fun _ _ w => (w, Ok tt);
  worker_fate := fun _ w => (w, InTime);
  now := fun _ => 0%N;
  time_max := u64_max;
|}.
Definition sample_run (rs : list (lifecycle_request ModuleDescriptor * list ModuleId))
    : LifecycleSupervisor ModuleDescriptor ModuleId :=
  foldl (fun s r => (serve r.1 s r.2).1) new_supervisor rs.
Definition sample_requests : list (lifecycle_request ModuleDescriptor * list ModuleId) :=
  [(RequestRegister sample_client (sample_configuration sample_client), []);
   (RequestRegister sample_store (sample_configuration sample_store), []);
   (RequestRegister sample_broken (sample_configuration sample_broken), [])].
Definition sample_registered := sample_run sample_requests.
Definition sample_started := sample_run (sample_requests ++ [(RequestStart, [])]).
Definition sample_states (s : LifecycleSupervisor ModuleDescriptor ModuleId) : list ModuleState := module_state <$> modules s.
Lemma sample_run_reachable rs : reachable (sample_run rs).
Proof.
  unfold sample_run. assert (reachable (new_supervisor : LifecycleSupervisor ModuleDescriptor ModuleId)) as H by apply rtc_refl.
  revert H. generalize (new_supervisor : LifecycleSupervisor ModuleDescriptor ModuleId).
  induction rs as [|[r w] rs IH]; intros s Hs; [done|]. cbn [foldl]. apply IH. eapply rtc_r; [exact Hs|]. by exists r, w.
Qed.

Lemma triple_eta {A B C} (p : A * B * C) : p = (p.1.1, p.1.2, p.2).
Proof. by destruct p as [[a b] c]. Qed.

(** ** Properties *)

(** C16: starting isolates failures.  Every module ends in one of four ways:
    retired modules are left alone; running ones keep running; one that was discovered
    or validated becomes ready, with the capabilities it was resolved to, every provider
    ready or degraded, and the next generation; and otherwise it becomes unavailable for
    a reason of its own (its declarations, requirements, a cycle, its validation or its
    start) or because a provider it is bound to is down at the end.  Whether another
    module fails plays no other part. *)
Theorem start_isolates_failures {F H W} `{!ModuleRuntime F H W} (s s' : LifecycleSupervisor F H) w w' i m :
  start_all s w = (s', w') -> modules s !! i = Some m ->
  exists m', modules s' !! i = Some m' /\ start_result (modules s) (modules s') i m m'.
Proof. intros Hrun Hm. pose proof (start_all_at s w i m Hm) as Hat. by rewrite Hrun in Hat. Qed.
Lemma start_isolates_failures_witness :
  sample_states (start_all sample_registered []).1 = [Ready; Ready; ModuleUnavailable] /\
  exists m', modules (start_all sample_registered []).1 !! 0 = Some m' /\
    start_result (modules sample_registered) (modules (start_all sample_registered []).1) 0
      (mk_ManagedModule sample_client sample_client (sample_configuration sample_client) None None false Discovered 0 None) m'.
Proof.
  split; [vm_compute; reflexivity|].
  apply (start_isolates_failures sample_registered (start_all sample_registered []).1 [] (start_all sample_registered []).2 0);
    [apply surjective_pairing|vm_compute; reflexivity].
Defined.


(** A health pass refreshes exactly the modules with a handle.  Each is
    left running in the state of its snapshot, or made unavailable with its context
    cancelled; and the report lists one snapshot per module with a handle, with the worst
    status of all. *)
Theorem health_refreshes {F H W} `{!ModuleRuntime F H W} (s s' : LifecycleSupervisor F H) r w w' :
  supervisor_inv s -> health s w = (s', r, w') ->
  Forall2 health_result (modules s) (modules s') /\
  exists snapshots, report_spec snapshots r /\ length snapshots = handle_count (modules s) /\
    forall snap, snap ∈ snapshots -> exists i m m', modules s !! i = Some m /\ modules s' !! i = Some m' /\ snapshot_of m m' snap.
Proof.
  intros Hs Hrun. unfold health in Hrun.
  pose proof (refresh_all_run (modules s) [] (core_ready (now w)) w (core_ready_spec _)) as Hall.
  destruct (refresh_all _ _ _) as [[ms r'] w'']. injection Hrun as <- <- <-. apply Hall.
  pose proof (si_bounded _ Hs) as Hb. unfold MAX_MODULES in Hb. unfold MAX_MODULE_REPORTS, len. cbn. lia.
Qed.
Lemma health_refreshes_witness :
  let s := sample_run [(RequestRegister sample_store (sample_configuration sample_store), []); (RequestStart, [])] in
  sample_states (health s [MkId "module.store"]).1.1 = [ModuleUnavailable] /\
  Forall2 health_result (modules s) (modules (health s [MkId "module.store"]).1.1).
Proof.
  intros s. split; [vm_compute; reflexivity|].
  exact (proj1 (health_refreshes s _ _ _ _ (lifecycle_reachable_inv (W := list ModuleId) s (sample_run_reachable _))
    (triple_eta (health s [MkId "module.store"])))).
Defined.

(** A shutdown serves every module that has a handle, once, consumers
    before providers when the bindings have no cycle, and settles each one: it is stopped
    and has given its handle up, or unavailable with the reason recorded; its context is
    cancelled either way.  The other modules are left alone. *)
Theorem shutdown_settles {F H W} `{!ModuleRuntime F H W} (s s' : LifecycleSupervisor F H) deadline w w' :
  supervisor_inv s -> shutdown_all deadline s w = (s', w') ->
  (forall i m, modules s !! i = Some m -> exists m', modules s' !! i = Some m' /\ shutdown_result m m') /\
  let order := module_shutdown_order (modules s) in
  NoDup order /\ (forall i, i ∈ order <-> check_at has_handle (modules s) i = true) /\
  ((forall c, ~ tc (depends (shutdown_dependencies (modules s))) c c) ->
   forall a i c, order !! a = Some i -> depends (shutdown_dependencies (modules s)) c i -> c ∈ take a order).
Proof.
  intros Hs Hrun. split; [|by apply module_shutdown_spec, si_bounded].
  intros i m Hm. pose proof (shutdown_all_at deadline s w i m Hs Hm) as Hat. by rewrite Hrun in Hat.
Qed.
Lemma shutdown_settles_witness : let s := sample_started in
  sample_states (shutdown_all 100 s []).1 = [Stopped; Stopped; ModuleUnavailable] /\
  module_shutdown_order (modules s) = [0; 1] /\ NoDup (module_shutdown_order (modules s)).
Proof.
  intros s. split; [vm_compute; reflexivity|]. split; [vm_compute; reflexivity|].
  exact (proj1 (proj2 (shutdown_settles s _ 100 [] _
    (lifecycle_reachable_inv (W := list ModuleId) s (sample_run_reachable _)) (surjective_pairing (shutdown_all 100 s []))))).
Defined.

(** The store fails its probe and is retired; the next start therefore finds the
    requirement of the running client unmet, makes it unavailable and cancels its context,
    but leaves it its handle; the health pass after that reports it ready again. *)
Example health_revives_unavailable :
  let ill := [MkId "module.store"] in
  let before := [(RequestRegister sample_client (sample_configuration sample_client), []);
    (RequestRegister sample_store (sample_configuration sample_store), []);
    (RequestStart, []); (RequestHealth, ill); (RequestStart, ill)] in
  sample_states (sample_run before) = [ModuleUnavailable; ModuleUnavailable] /\
  sample_states (sample_run (before ++ [(RequestHealth, ill)])) = [Ready; ModuleUnavailable] /\
  (module_cancelled <$> modules (sample_run (before ++ [(RequestHealth, ill)]))) = [true; true].
Proof. vm_compute. split_and!; reflexivity. Qed.
