(* ===== verification/AccountVault.v ===== *)
(** * The credential vault's contract

    Models [crates/optional/ariadnion-account-vault/src/error.rs], [secret.rs] and [port.rs]:
    stable errors, encrypted envelopes, secret material, expiring leases of it, and the
    requests and receipts of the port.  [SystemTime] is nanoseconds around the Unix epoch in
    the range of a 64-bit count of seconds; [Duration] is nanoseconds.  Shown: a lease
    discloses its material exactly inside its window, which is never longer than a minute. *)

From Stdlib Require Strings.Byte.
From stdpp Require Import vector.
From S2P Require Import Prelude CoreTypes.
From S2P Require AccountDomain.
#[local] Open Scope N_scope.

(** ** Errors ([error.rs]) *)

Inductive VaultErrorCode :=
| InvalidArgument | Unauthenticated | PermissionDenied | NotFound | Conflict | LimitExceeded | Expired
| Cancelled | DeadlineExceeded | ResourceExhausted | Unavailable | IntegrityFailure | CommitIndeterminate | Internal.
#[export] Instance VaultErrorCode_eq_dec : EqDecision VaultErrorCode.
Proof. solve_decision. Defined.
(** [as_str]; its three parts only fall through to each other on codes that are not theirs. *)
Definition as_str (code : VaultErrorCode) : string :=
  match code with
  | InvalidArgument => "VAULT_INVALID_ARGUMENT"
  | Unauthenticated => "VAULT_UNAUTHENTICATED"
  | PermissionDenied => "VAULT_PERMISSION_DENIED"
  | NotFound => "VAULT_NOT_FOUND"
  | Conflict => "VAULT_CONFLICT"
  | LimitExceeded => "VAULT_LIMIT_EXCEEDED"
  | Expired => "VAULT_EXPIRED"
  | Cancelled => "VAULT_CANCELLED"
  | DeadlineExceeded => "VAULT_DEADLINE_EXCEEDED"
  | ResourceExhausted => "VAULT_RESOURCE_EXHAUSTED"
  | Unavailable => "VAULT_UNAVAILABLE"
  | IntegrityFailure => "VAULT_INTEGRITY_FAILURE"
  | CommitIndeterminate => "VAULT_COMMIT_INDETERMINATE"
  | Internal => "VAULT_INTERNAL"
  end.
Definition from_core_error (value : CoreError) : VaultErrorCode :=
  match ce_code value with
  | CoreTypes.InvalidArgument => InvalidArgument
  | CoreTypes.Conflict => Conflict
  | CoreTypes.Cancelled => Cancelled
  | CoreTypes.DeadlineExceeded => DeadlineExceeded
  | CoreTypes.Unavailable => Unavailable
  | CoreTypes.ResourceExhausted => ResourceExhausted
  | CoreTypes.Internal => Internal
  end.
Notation outcome := (result VaultErrorCode).

(** ** Time *)

Definition NANOS : N := 1000000000.
Definition system_time_min : Z := (i64_min * 1000000000)%Z.
Definition system_time_max : Z := (i64_max * 1000000000 + 999999999)%Z.
(** [SystemTime::checked_add]. *)
Definition system_time_add (time : Z) (duration : N) : option Z :=
  let later := (time + Z.of_N duration)%Z in
  if (later <=? system_time_max)%Z then Some later else None.

(** ** Secrets ([secret.rs]) *)

Definition MAX_SECRET_BYTES : N := 64 * 1024.
Definition MAX_CIPHERTEXT_BYTES : N := N.shiftl 1 17.
Definition MAX_LEASE_LIFETIME : N := 60 * NANOS.

Definition VaultKeyVersion_new (value : N) : outcome N := if value =? 0 then Err InvalidArgument else Ok value.

Record EncryptedSecretEnvelope := mk_EncryptedSecretEnvelope {
  envelope_key_version : N; nonce : vec Byte.byte 24; ciphertext : list Byte.byte;
}.
Definition EncryptedSecretEnvelope_new (key_version : N) (nonce : vec Byte.byte 24) (ciphertext : list Byte.byte)
    : outcome EncryptedSecretEnvelope :=
  reject_if ((len ciphertext =? 0) || (MAX_CIPHERTEXT_BYTES <? len ciphertext)) InvalidArgument ;;
  mret (mk_EncryptedSecretEnvelope key_version nonce ciphertext).
(** [Zeroize], which [Drop] runs. *)
Definition zeroize (e : EncryptedSecretEnvelope) : EncryptedSecretEnvelope :=
  mk_EncryptedSecretEnvelope (envelope_key_version e) (vreplicate 24 Byte.x00) (replicate (length (ciphertext e)) Byte.x00).

Definition SecretMaterial := list Byte.byte.
Definition SecretMaterial_from_bytes (bytes : list Byte.byte) : outcome SecretMaterial :=
  reject_if ((len bytes =? 0) || (MAX_SECRET_BYTES <? len bytes)) InvalidArgument ;; mret bytes.
Definition SecretLeaseId := vec Byte.byte 32.

Definition SecretLeaseLifetime_new (value : N) : outcome N :=
  reject_if ((value =? 0) || (MAX_LEASE_LIFETIME <? value))
    (if MAX_LEASE_LIFETIME <? value then LimitExceeded else InvalidArgument) ;;
  reject_if (negb (value mod NANOS mod 1000 =? 0)) InvalidArgument ;;
  mret value.

Record SecretLease := mk_SecretLease {
  lease_reference : AccountDomain.SecretRef;
  lease_module : ModuleId;
  lease_id : SecretLeaseId;
  issued_at : Z;
  expires_at : Z;
  material : SecretMaterial;
}.
Definition issue (reference : AccountDomain.SecretRef) (module : ModuleId) (id : SecretLeaseId) (issued : Z) (lifetime : N)
    (secret : SecretMaterial) : outcome SecretLease :=
  expires ← ok_or (system_time_add issued lifetime) InvalidArgument;
  mret (mk_SecretLease reference module id issued expires secret).
Definition is_valid_at (l : SecretLease) (now : Z) : bool := (issued_at l <=? now)%Z && (now <? expires_at l)%Z.
Definition material_at (l : SecretLease) (now : Z) : outcome SecretMaterial :=
  reject_if (negb (is_valid_at l now)) Expired ;; mret (material l).

(** ** Requests and receipts ([port.rs]) *)

Record SecretReadRequest := mk_SecretReadRequest {
  read_reference : AccountDomain.SecretRef; read_module : ModuleId; read_lifetime : N;
}.
Record SecretStoreRequest := mk_SecretStoreRequest {
  store_reference : AccountDomain.SecretRef; store_envelope : EncryptedSecretEnvelope;
}.
Inductive VaultRevokeReason := Operator | RotationFailure | RiskEvent.
Record VaultRevokeRequest := mk_VaultRevokeRequest {
  revoke_reference : AccountDomain.SecretRef; revoke_reason : VaultRevokeReason;
}.
Record SecretStoreReceipt := mk_SecretStoreReceipt {
  stored_reference : AccountDomain.SecretRef; stored_version : N; stored_key_version : N; stored_at : Z;
}.
Record SecretRevokeReceipt := mk_SecretRevokeReceipt {
  revoked_reference : AccountDomain.SecretRef; revoked_version : N; revoked_at : Z;
}.
Inductive VaultMutationReceipt := Stored (receipt : SecretStoreReceipt) | Revoked (receipt : SecretRevokeReceipt).
Definition reference (r : VaultMutationReceipt) : AccountDomain.SecretRef :=
  match r with Stored receipt => stored_reference receipt | Revoked receipt => revoked_reference receipt end.
Definition committed_at (r : VaultMutationReceipt) : Z :=
  match r with Stored receipt => stored_at receipt | Revoked receipt => revoked_at receipt end.
Definition stored (r : VaultMutationReceipt) : option SecretStoreReceipt :=
  match r with Stored receipt => Some receipt | Revoked _ => None end.
Definition revoked (r : VaultMutationReceipt) : option SecretRevokeReceipt :=
  match r with Stored _ => None | Revoked receipt => Some receipt end.
(** The provided method of [VaultPort]. *)
Definition new_lease_id : outcome SecretLeaseId := Err Unavailable.

(** Samples. *)
Definition sample_ref (version : N) : AccountDomain.SecretRef := AccountDomain.mk_SecretRef "vault" "accounts/a" version "api".
Definition sample_lease_id : SecretLeaseId := vreplicate 32 Byte.x01.

(** ** Lemmas *)

#[export] Instance SecretRef_eq_dec : EqDecision AccountDomain.SecretRef.
Proof. solve_decision. Defined.

Lemma system_time_add_Some t d t' : system_time_add t d = Some t' <-> t' = (t + Z.of_N d)%Z /\ (t' <= system_time_max)%Z.
Proof.
  unfold system_time_add. cbv zeta. destruct (Z.leb_spec (t + Z.of_N d) system_time_max); split.
  - by intros [= <-].
  - by intros [-> _].
  - done.
  - intros [-> ?]. lia.
Qed.

(** A lifetime is accepted exactly when it is a whole number of microseconds in (0, 60 s]. *)
Lemma lease_lifetime_Ok value v : SecretLeaseLifetime_new value = Ok v <->
  v = value /\ 1 <= value <= MAX_LEASE_LIFETIME /\ value mod 1000 = 0.
Proof.
  unfold SecretLeaseLifetime_new.
  assert (value mod NANOS mod 1000 = value mod 1000) as ->.
  { assert (value = NANOS * (value / NANOS) + value mod NANOS) as E by (apply N.div_mod; discriminate).
    rewrite E at 2. replace (NANOS * (value / NANOS) + value mod NANOS) with (value mod NANOS + 1000000 * (value / NANOS) * 1000)
      by (unfold NANOS; lia).
    by rewrite N.Div0.mod_add. }
  split.
  - intros H. run_steps. tidy. lia.
  - intros (-> & Hr & Hm).
    destruct (N.eqb_spec value 0), (N.ltb_spec MAX_LEASE_LIFETIME value); [lia..|]. cbn [orb]. by rewrite Hm.
Qed.

(** *** Disclosure

    A lease that was issued for an accepted lifetime discloses its material at an instant
    exactly when the instant lies in the window [issued, issued + lifetime), which is at
    most sixty seconds long; outside of it every read reports an expired lease, and the
    reference, module and identity are those of the request. *)
Theorem lease_disclosure ref module id issued value lifetime secret l now
    (Hlife : SecretLeaseLifetime_new value = Ok lifetime) (Hissue : issue ref module id issued lifetime secret = Ok l) :
  lease_reference l = ref /\ lease_module l = module /\ lease_id l = id /\
  (expires_at l - issued_at l <= 60000000000)%Z /\
  (material_at l now = Ok secret <-> (issued <= now < issued + Z.of_N value)%Z) /\
  (material_at l now <> Ok secret -> material_at l now = Err Expired).
Proof.
  apply lease_lifetime_Ok in Hlife as (-> & Hr & _). unfold issue in Hissue. run_steps.
  match goal with H : system_time_add _ _ = Some _ |- _ => apply system_time_add_Some in H as [-> _] end.
  unfold material_at, is_valid_at, MAX_LEASE_LIFETIME, NANOS in *. cbn [lease_reference lease_module lease_id issued_at expires_at material].
  split_and!; [done..|lia| |].
  - destruct (Z.leb_spec issued now), (Z.ltb_spec now (issued + Z.of_N value)); cbn; split; intros; try done; lia.
  - destruct ((issued <=? now)%Z && (now <? issued + Z.of_N value)%Z); cbn; [by intros []|done].
Qed.
Lemma lease_disclosure_witness : exists l, issue (sample_ref 1) (MkId "a.b") sample_lease_id 5 1000 [Byte.x2a] = Ok l /\
  material_at l 1004 = Ok [Byte.x2a] /\ material_at l 1005 = Err Expired.
Proof.
  eexists. split; [reflexivity|]. split.
  - apply (lease_disclosure (sample_ref 1) (MkId "a.b") sample_lease_id 5 1000 1000 [Byte.x2a] _ 1004 eq_refl eq_refl). lia.
  - apply (lease_disclosure (sample_ref 1) (MkId "a.b") sample_lease_id 5 1000 1000 [Byte.x2a] _ 1005 eq_refl eq_refl). discriminate.
Defined.
