(* ===== verification/VaultRotation.v ===== *)
(** * Credential rotation

    Models [crates/optional/ariadnion-account-vault/src/rotation.rs] and [rotation_port.rs]:
    plans that move an account from one version of a secret to a later one, the journal of
    a rotation and its transitions, and the requests and receipts of the durable port.
    Shown: whatever calls a journal receives, it holds exactly the evidence of its phase; the
    previous version is only revoked once the next one has been stored and active for the
    whole overlap, and never in a rotation that compensates. *)

From Stdlib Require Import Ascii.
From Stdlib Require Strings.Byte.
From S2P Require Import Prelude CoreTypes AccountVault.
From S2P Require AccountDomain.
#[local] Open Scope N_scope.

(** ** Plans ([rotation.rs]) *)

Definition MAX_ROTATION_OVERLAP : N := 86400 * NANOS.
Definition MAX_ROTATION_ID_BYTES : N := 128.

Definition RotationWindow_new (value : N) : outcome N :=
  reject_if (value =? 0) InvalidArgument ;;
  reject_if (MAX_ROTATION_OVERLAP <? value) LimitExceeded ;;
  mret value.

Definition valid_rotation_id (value : string) : bool :=
  negb (is_empty value) && (byte_len value <=? MAX_ROTATION_ID_BYTES) && is_ascii value
  && all_bytes is_visible_ascii value.
Definition same_locator (previous next : AccountDomain.SecretRef) : bool :=
  bool_decide (AccountDomain.secret_provider previous = AccountDomain.secret_provider next) &&
  bool_decide (AccountDomain.secret_path previous = AccountDomain.secret_path next) &&
  bool_decide (AccountDomain.secret_purpose previous = AccountDomain.secret_purpose next).

Record CredentialRotationPlan := mk_CredentialRotationPlan {
  account_id : AccountId;
  rotation_id : string;
  previous : AccountDomain.SecretRef;
  next : AccountDomain.SecretRef;
  overlap : N;
}.
Definition CredentialRotationPlan_new (account_id : AccountId) (rotation_id : string) (previous next : AccountDomain.SecretRef)
    (overlap : N) : outcome CredentialRotationPlan :=
  reject_if (negb (valid_rotation_id rotation_id)) InvalidArgument ;;
  reject_if (negb (same_locator previous next) ||
    (AccountDomain.secret_version next <=? AccountDomain.secret_version previous)) Conflict ;;
  mret (mk_CredentialRotationPlan account_id rotation_id previous next overlap).

(** ** The journal *)

Inductive RotationPhase := Prepared | NewVersionStored | Active | Completed | Compensating | Failed.
#[export] Instance RotationPhase_eq_dec : EqDecision RotationPhase.
Proof. solve_decision. Defined.

Record RotationJournal := mk_RotationJournal {
  plan : CredentialRotationPlan;
  phase : RotationPhase;
  new_receipt : option SecretStoreReceipt;
  activated_at : option Z;
  overlap_expires_at : option Z;
  old_revoke_receipt : option SecretRevokeReceipt;
  compensation_receipt : option SecretRevokeReceipt;
}.
#[export] Instance RotationJournal_eta : Eta RotationJournal := fun j =>
  mk_RotationJournal (plan j) (phase j) (new_receipt j) (activated_at j) (overlap_expires_at j)
    (old_revoke_receipt j) (compensation_receipt j).
Notation journal_act := (act RotationJournal VaultErrorCode).

Definition RotationJournal_new (plan : CredentialRotationPlan) : RotationJournal :=
  mk_RotationJournal plan Prepared None None None None None.
Definition ensure_phase (actual expected : RotationPhase) : outcome unit :=
  reject_if (bool_decide (actual <> expected)) Conflict.

Definition record_new_version (receipt : SecretStoreReceipt) (now : Z) : journal_act unit :=
  j ← get;
  lift (ensure_phase (phase j) Prepared) ;;
  lift (reject_if (bool_decide (stored_reference receipt <> next (plan j)) ||
    negb (stored_version receipt =? AccountDomain.secret_version (next (plan j))) ||
    (now <? stored_at receipt)%Z) Conflict) ;;
  modify (fun j => j <| new_receipt := Some receipt |>) ;;
  modify (fun j => j <| phase := NewVersionStored |>).

Definition activate (at_ : Z) : journal_act unit :=
  j ← get;
  lift (ensure_phase (phase j) NewVersionStored) ;;
  committed ← lift (ok_or (stored_at <$> new_receipt j) Conflict);
  lift (reject_if (at_ <? committed)%Z Conflict) ;;
  expires ← lift (ok_or (system_time_add at_ (overlap (plan j))) InvalidArgument);
  modify (fun j => j <| activated_at := Some at_ |>) ;;
  modify (fun j => j <| overlap_expires_at := Some expires |>) ;;
  modify (fun j => j <| phase := Active |>).

Definition validate_previous_revoke (plan : CredentialRotationPlan) (receipt : SecretRevokeReceipt) (now expires : Z) : outcome unit :=
  reject_if ((now <? expires)%Z || bool_decide (revoked_reference receipt <> previous plan) ||
    negb (revoked_version receipt =? AccountDomain.secret_version (previous plan)) ||
    (revoked_at receipt <? expires)%Z || (now <? revoked_at receipt)%Z) Conflict.
Definition revoke_previous (receipt : SecretRevokeReceipt) (now : Z) : journal_act unit :=
  j ← get;
  lift (ensure_phase (phase j) Active) ;;
  expires ← lift (ok_or (overlap_expires_at j) Conflict);
  lift (validate_previous_revoke (plan j) receipt now expires) ;;
  modify (fun j => j <| old_revoke_receipt := Some receipt |>) ;;
  modify (fun j => j <| phase := Completed |>).

Definition begin_compensation : journal_act (option VaultRevokeRequest) :=
  j ← get;
  match phase j with
  | NewVersionStored | Active =>
      modify (fun j => j <| phase := Compensating |>) ;;
      mret (Some (mk_VaultRevokeRequest (next (plan j)) RotationFailure))
  | Prepared | Completed | Compensating | Failed => mret None
  end.

Definition record_compensation (receipt : SecretRevokeReceipt) (now : Z) : journal_act unit :=
  j ← get;
  lift (ensure_phase (phase j) Compensating) ;;
  lift (reject_if (bool_decide (revoked_reference receipt <> next (plan j)) ||
    negb (revoked_version receipt =? AccountDomain.secret_version (next (plan j))) ||
    (now <? revoked_at receipt)%Z) Conflict) ;;
  modify (fun j => j <| compensation_receipt := Some receipt |>) ;;
  modify (fun j => j <| phase := Failed |>).

(** ** The durable port ([rotation_port.rs]) *)

Definition MAX_ROTATION_MUTATION_ID_BYTES : N := 128.
Definition valid_identity (value : string) (max : N) : bool :=
  negb (is_empty value) && (byte_len value <=? max) && is_ascii value && all_bytes is_visible_ascii value.
Definition RotationMutationId := string.
Definition RotationMutationId_parse (value : string) : outcome RotationMutationId :=
  reject_if (negb (valid_identity value MAX_ROTATION_MUTATION_ID_BYTES)) InvalidArgument ;; mret value.

Definition RotationRevision := N.
Definition ZERO : RotationRevision := 0.
Definition checked_next (r : RotationRevision) : outcome RotationRevision := ok_or (checked_add u64_max r 1) LimitExceeded.

Inductive RotationTransition :=
| Prepare (plan : CredentialRotationPlan)
| RecordNewVersion (receipt : SecretStoreReceipt)
| Activate (at_ : Z)
| Complete (receipt : SecretRevokeReceipt)
| BeginCompensation
| RecordCompensation (receipt : SecretRevokeReceipt).
Definition transition_str (t : RotationTransition) : string :=
  match t with
  | Prepare _ => "prepare"
  | RecordNewVersion _ => "record-new-version"
  | Activate _ => "activate"
  | Complete _ => "complete"
  | BeginCompensation => "begin-compensation"
  | RecordCompensation _ => "record-compensation"
  end.

Record RotationMutationRequest := mk_RotationMutationRequest {
  request_mutation_id : RotationMutationId; request_rotation_id : string;
  expected_revision : RotationRevision; transition : RotationTransition;
}.
Definition RotationMutationRequest_new (mutation_id : RotationMutationId) (rotation_id : string) (expected : RotationRevision)
    (t : RotationTransition) : outcome RotationMutationRequest :=
  reject_if (negb (valid_identity rotation_id MAX_ROTATION_ID_BYTES)) InvalidArgument ;;
  mret (mk_RotationMutationRequest mutation_id rotation_id expected t).
Definition prepare_request (mutation_id : RotationMutationId) (plan : CredentialRotationPlan) : outcome RotationMutationRequest :=
  RotationMutationRequest_new mutation_id (rotation_id plan) ZERO (Prepare plan).
Definition record_new_version_request (mutation_id : RotationMutationId) (rotation_id : string) (expected : RotationRevision)
    (receipt : SecretStoreReceipt) : outcome RotationMutationRequest :=
  RotationMutationRequest_new mutation_id rotation_id expected (RecordNewVersion receipt).
Definition activate_request (mutation_id : RotationMutationId) (rotation_id : string) (expected : RotationRevision)
    (at_ : Z) : outcome RotationMutationRequest :=
  RotationMutationRequest_new mutation_id rotation_id expected (Activate at_).
Definition complete_request (mutation_id : RotationMutationId) (rotation_id : string) (expected : RotationRevision)
    (receipt : SecretRevokeReceipt) : outcome RotationMutationRequest :=
  RotationMutationRequest_new mutation_id rotation_id expected (Complete receipt).
Definition begin_compensation_request (mutation_id : RotationMutationId) (rotation_id : string) (expected : RotationRevision)
    : outcome RotationMutationRequest :=
  RotationMutationRequest_new mutation_id rotation_id expected BeginCompensation.
Definition record_compensation_request (mutation_id : RotationMutationId) (rotation_id : string) (expected : RotationRevision)
    (receipt : SecretRevokeReceipt) : outcome RotationMutationRequest :=
  RotationMutationRequest_new mutation_id rotation_id expected (RecordCompensation receipt).

Record RotationMutationReceipt := mk_RotationMutationReceipt {
  receipt_mutation_id : RotationMutationId; receipt_rotation_id : string;
  prior_revision : RotationRevision; receipt_revision : RotationRevision;
  receipt_phase : RotationPhase; receipt_committed_at : Z;
}.
Definition RotationMutationReceipt_new (mutation_id : RotationMutationId) (rotation_id : string) (prior revision : RotationRevision)
    (p : RotationPhase) (committed : Z) : outcome RotationMutationReceipt :=
  reject_if (negb (valid_identity rotation_id MAX_ROTATION_ID_BYTES) ||
    bool_decide (checked_add u64_max prior 1 <> Some revision)) InvalidArgument ;;
  mret (mk_RotationMutationReceipt mutation_id rotation_id prior revision p committed).
Record RotationSnapshot := mk_RotationSnapshot {
  snapshot_journal : RotationJournal; snapshot_revision : RotationRevision; updated_at : Z;
}.

(** ** Specification *)

(** The calls a journal can receive; the plan is validated by its constructor. *)
Inductive journal_call :=
| CallRecord (receipt : SecretStoreReceipt) (now : Z)
| CallActivate (at_ : Z)
| CallRevoke (receipt : SecretRevokeReceipt) (now : Z)
| CallCompensate
| CallCompensated (receipt : SecretRevokeReceipt) (now : Z).
Definition serve (call : journal_call) : journal_act (option VaultRevokeRequest) :=
  match call with
  | CallRecord receipt now => record_new_version receipt now ;; mret None
  | CallActivate at_ => activate at_ ;; mret None
  | CallRevoke receipt now => revoke_previous receipt now ;; mret None
  | CallCompensate => begin_compensation
  | CallCompensated receipt now => record_compensation receipt now ;; mret None
  end.
Definition journal_step (j j' : RotationJournal) : Prop := exists call, (serve call j).1 = j'.
Definition plan_wf (p : CredentialRotationPlan) : Prop :=
  same_locator (previous p) (next p) = true /\ AccountDomain.secret_version (previous p) < AccountDomain.secret_version (next p).

(** Evidence that the next version is stored. *)
Definition stored_next (j : RotationJournal) : Prop := exists r, new_receipt j = Some r /\
  stored_reference r = next (plan j) /\ stored_version r = AccountDomain.secret_version (next (plan j)).
(** Evidence that it was made active, after it was stored, and when the overlap ends. *)
Definition made_active (j : RotationJournal) (finish : Z) : Prop := exists r at_, new_receipt j = Some r /\
  activated_at j = Some at_ /\ overlap_expires_at j = Some finish /\
  (stored_at r <= at_)%Z /\ finish = (at_ + Z.of_N (overlap (plan j)))%Z.
(** The previous version has not been revoked, nor the next one. *)
Definition revokes_nothing (j : RotationJournal) : Prop := old_revoke_receipt j = None /\ compensation_receipt j = None.
Definition idle (j : RotationJournal) : Prop := activated_at j = None /\ overlap_expires_at j = None.

(** What a journal holds in each phase. *)
Definition journal_inv (j : RotationJournal) : Prop :=
  match phase j with
  | Prepared => new_receipt j = None /\ idle j /\ revokes_nothing j
  | NewVersionStored => stored_next j /\ idle j /\ revokes_nothing j
  | Active => stored_next j /\ (exists finish, made_active j finish) /\ revokes_nothing j
  | Completed => stored_next j /\ compensation_receipt j = None /\
      exists finish v, made_active j finish /\ old_revoke_receipt j = Some v /\ revoked_reference v = previous (plan j) /\
        revoked_version v = AccountDomain.secret_version (previous (plan j)) /\ (finish <= revoked_at v)%Z
  | Compensating => stored_next j /\ (idle j \/ exists finish, made_active j finish) /\ revokes_nothing j
  | Failed => stored_next j /\ (idle j \/ exists finish, made_active j finish) /\ old_revoke_receipt j = None /\
      exists v, compensation_receipt j = Some v /\ revoked_reference v = next (plan j) /\
        revoked_version v = AccountDomain.secret_version (next (plan j))
  end.

(** The phase each successful call leads to. *)
Inductive phase_move : RotationPhase -> RotationPhase -> Prop :=
| move_stored : phase_move Prepared NewVersionStored
| move_active : phase_move NewVersionStored Active
| move_completed : phase_move Active Completed
| move_abandon_stored : phase_move NewVersionStored Compensating
| move_abandon_active : phase_move Active Compensating
| move_failed : phase_move Compensating Failed.
Definition terminal (p : RotationPhase) : bool := match p with Completed | Failed => true | _ => false end.

(** A sample rotation, completed. *)
Definition sample_plan : CredentialRotationPlan := mk_CredentialRotationPlan (MkId "a") "r1" (sample_ref 1) (sample_ref 2) 100.
Definition sample_calls : list journal_call :=
  [CallRecord (mk_SecretStoreReceipt (sample_ref 2) 2 1 10) 20; CallActivate 30;
   CallRevoke (mk_SecretRevokeReceipt (sample_ref 1) 1 130) 140].
Definition sample_completed : RotationJournal := fold_left (fun j call => (serve call j).1) sample_calls (RotationJournal_new sample_plan).
Example sample_rotation_completes : phase sample_completed = Completed.
Proof. reflexivity. Qed.

(** ** Lemmas *)

Lemma ensure_phase_Ok actual expected u : ensure_phase actual expected = Ok u <-> actual = expected.
Proof. unfold ensure_phase. destruct u. case_bool_decide; cbn; split; try done; by intros ->. Qed.

(** The plans the constructor accepts. *)
Lemma rotation_plan_new_wf account rotation p n window pl : CredentialRotationPlan_new account rotation p n window = Ok pl ->
  pl = mk_CredentialRotationPlan account rotation p n window /\ plan_wf pl.
Proof. unfold CredentialRotationPlan_new. intros H. run_steps. tidy. split; [done|]. split; cbn; [done|lia]. Qed.




Lemma conflict_if b (u : unit) : reject_if b Conflict = Ok u <-> b = false.
Proof. destruct b, u; cbn; split; done. Qed.

(** What each call does when it succeeds; a refusal changes nothing. *)
Definition settled {A} (m : journal_act A) (j : RotationJournal) (P : RotationJournal -> Prop) : Prop :=
  match m j with (j', Ok _) => P j' | (j', Err _) => j' = j end.
Lemma record_settled receipt now j : settled (record_new_version receipt now) j (fun j' =>
  phase j = Prepared /\ stored_reference receipt = next (plan j) /\
  stored_version receipt = AccountDomain.secret_version (next (plan j)) /\
  j' = j <| new_receipt := Some receipt |> <| phase := NewVersionStored |>).
Proof.
  unfold settled. destruct (record_new_version receipt now j) as [j' [u|e]] eqn:E; unfold record_new_version in E; run_steps; try done.
  all: try (unfold ensure_phase in *; run_steps). all: tidy; done.
Qed.
Lemma activate_settled at_ j : settled (activate at_) j (fun j' =>
  phase j = NewVersionStored /\ exists r, new_receipt j = Some r /\ (stored_at r <= at_)%Z /\
  j' = j <| activated_at := Some at_ |> <| overlap_expires_at := Some (at_ + Z.of_N (overlap (plan j)))%Z |> <| phase := Active |>).
Proof.
  unfold settled. destruct (activate at_ j) as [j' [u|e]] eqn:E; unfold activate in E; run_steps; try done.
  all: unfold ensure_phase in *; run_steps; tidy.
  match goal with H : _ <$> _ = Some _ |- _ => apply fmap_Some in H as (r & Hr & ->) end.
  match goal with H : system_time_add _ _ = _ |- _ => apply system_time_add_Some in H as [-> _] end.
  split; [done|]. exists r. split_and!; [done| |done]. by apply Z.ltb_ge.
Qed.
Lemma revoke_settled receipt now j : settled (revoke_previous receipt now) j (fun j' =>
  phase j = Active /\ exists finish, overlap_expires_at j = Some finish /\ (finish <= revoked_at receipt <= now)%Z /\
  revoked_reference receipt = previous (plan j) /\ revoked_version receipt = AccountDomain.secret_version (previous (plan j)) /\
  j' = j <| old_revoke_receipt := Some receipt |> <| phase := Completed |>).
Proof.
  unfold settled. destruct (revoke_previous receipt now j) as [j' [u|e]] eqn:E; unfold revoke_previous in E; run_steps; try done.
  all: unfold ensure_phase, validate_previous_revoke in *; run_steps; tidy.
  split; [done|]. eexists. split_and!; [done|..]; try done; lia.
Qed.
Lemma compensate_settled j : begin_compensation j =
  match phase j with
  | NewVersionStored | Active =>
      (j <| phase := Compensating |>, Ok (Some (mk_VaultRevokeRequest (next (plan j)) RotationFailure)))
  | _ => (j, Ok None)
  end.
Proof. unfold begin_compensation, mbind, act_bind, get. destruct (phase j); reflexivity. Qed.
Lemma compensated_settled receipt now j : settled (record_compensation receipt now) j (fun j' =>
  phase j = Compensating /\ revoked_reference receipt = next (plan j) /\
  revoked_version receipt = AccountDomain.secret_version (next (plan j)) /\
  j' = j <| compensation_receipt := Some receipt |> <| phase := Failed |>).
Proof.
  unfold settled. destruct (record_compensation receipt now j) as [j' [u|e]] eqn:E; unfold record_compensation in E; run_steps; try done.
  all: unfold ensure_phase in *; run_steps; tidy; done.
Qed.

Lemma settled_bind {A B} (m : journal_act A) (b : B) j P : settled m j P ->
  ((m ;; mret b) j).1 = j \/ P ((m ;; mret b) j).1.
Proof. unfold settled, mbind, act_bind. destruct (m j) as [j' [a|e]]; cbn; auto. Qed.

Ltac by_phase H := unfold journal_inv in *; rewrite H; intros Hinv; cbn.

(** A call changes nothing, or moves the phase, keeps the plan and keeps the evidence in order. *)
Lemma serve_journal_inv call j : (serve call j).1 = j \/
  (plan (serve call j).1 = plan j /\ phase_move (phase j) (phase (serve call j).1) /\
   (journal_inv j -> journal_inv (serve call j).1)).
Proof.
  destruct call as [receipt now|at_|receipt now| |receipt now]; cbn [serve].
  - destruct (settled_bind _ (None : option VaultRevokeRequest) _ _ (record_settled receipt now j)) as [|(Hp & Href & Hv & ->)]; [by left|right].
    cbn. rewrite Hp. split_and!; [done|constructor|]. by_phase Hp. destruct Hinv as (_ & Hidle & Hno).
    split_and!; [|done..]. by exists receipt.
  - destruct (settled_bind _ (None : option VaultRevokeRequest) _ _ (activate_settled at_ j)) as [|(Hp & r & Hr & Hle & ->)]; [by left|right].
    cbn. rewrite Hp. split_and!; [done|constructor|]. by_phase Hp. destruct Hinv as (Hs & Hidle & Hno).
    split_and!; [done| |done]. eexists. exists r, at_. by cbn.
  - destruct (settled_bind _ (None : option VaultRevokeRequest) _ _ (revoke_settled receipt now j)) as [|(Hp & finish & Ho & Hle & Href & Hv & ->)]; [by left|right].
    cbn. rewrite Hp. split_and!; [done|constructor|]. by_phase Hp. destruct Hinv as (Hs & (finish' & Hact) & Hno & Hc).
    assert (finish' = finish) as -> by (destruct Hact as (? & ? & _ & _ & Hf & _); congruence).
    split_and!; [done..|]. exists finish, receipt. split_and!; try done; lia.
  - rewrite compensate_settled. destruct (phase j) eqn:Hp; try (by left); right; cbn; (split_and!; [done|constructor|]);
      unfold journal_inv; rewrite Hp; cbn; intros (? & ? & ?); auto.
  - destruct (settled_bind _ (None : option VaultRevokeRequest) _ _ (compensated_settled receipt now j)) as [|(Hp & Href & Hv & ->)]; [by left|right].
    cbn. rewrite Hp. split_and!; [done|constructor|]. by_phase Hp. destruct Hinv as (Hs & Hact & Hno & _).
    split_and!; [done..|]. by exists receipt.
Qed.

Lemma journal_reachable p j : rtc journal_step (RotationJournal_new p) j -> plan j = p /\ journal_inv j.
Proof.
  intros Hreach. remember (RotationJournal_new p) as j0 eqn:E.
  assert (plan j0 = p /\ journal_inv j0) as H0 by (subst j0; by cbn).
  clear E. revert H0. induction Hreach as [|x y z [call <-] _ IH]; [done|]. intros [Hp Hi]. apply IH.
  destruct (serve_journal_inv call x) as [->|(Hplan & _ & Hk)]; [done|]. split; [congruence|auto].
Qed.

(** ** Theorems *)

(** C26: A rotation that starts from an accepted plan never strands its account, whatever
    calls its journal receives in whatever order: the journal holds exactly the evidence of
    its phase; when the previous version has been revoked, the receipt names that version
    and not the next one, the next version had been stored and made active before, the
    whole overlap had passed, and the next version has not been revoked; a journal that
    completed or failed is final. *)
Theorem rotation_never_strands account rotation p n window pl j
    (Hplan : CredentialRotationPlan_new account rotation p n window = Ok pl)
    (Hreach : rtc journal_step (RotationJournal_new pl) j) :
  plan j = pl /\ journal_inv j /\
  (forall v, old_revoke_receipt j = Some v ->
    revoked_reference v = p /\ p <> n /\ compensation_receipt j = None /\
    exists r at_, new_receipt j = Some r /\ stored_reference r = n /\ activated_at j = Some at_ /\
      (stored_at r <= at_)%Z /\ (at_ + Z.of_N window <= revoked_at v)%Z) /\
  (terminal (phase j) = true -> forall call, (serve call j).1 = j).
Proof.
  apply rotation_plan_new_wf in Hplan as [-> [_ Hlt]]. cbn in Hlt. destruct (journal_reachable _ _ Hreach) as [Hp Hi].
  split_and!; [done..| |].
  - intros v Hv. unfold journal_inv in Hi. destruct (phase j).
    all: try (exfalso; unfold revokes_nothing in Hi; naive_solver).
    destruct Hi as ((r & Hr & Href & _) & Hc & finish & v' & (r' & at_ & Hr' & Hat & Ho & Hle & ->) & Hv' & Hrp & _ & Hf).
    rewrite Hp in *. cbn in *. rewrite Hr in Hr'. injection Hr' as ->.
    rewrite Hv' in Hv. injection Hv as ->. split_and!; [done| |done|].
    + intros E. rewrite E in Hlt. lia.
    + exists r', at_. by split_and!.
  - intros Ht call. destruct (serve_journal_inv call j) as [|(_ & Hm & _)]; [done|].
    exfalso. revert Hm Ht. generalize (phase (serve call j).1). destruct (phase j); intros q Hm; inversion Hm; done.
Qed.
Lemma rotation_never_strands_witness : old_revoke_receipt sample_completed = Some (mk_SecretRevokeReceipt (sample_ref 1) 1 130) /\
  journal_inv sample_completed.
Proof.
  split; [reflexivity|].
  apply (rotation_never_strands (MkId "a") "r1" (sample_ref 1) (sample_ref 2) 100 sample_plan sample_completed).
  - reflexivity.
  - apply (rtc_l _ _ (serve (CallRecord (mk_SecretStoreReceipt (sample_ref 2) 2 1 10) 20) (RotationJournal_new sample_plan)).1);
      [eexists; reflexivity|].
    apply (rtc_l _ _ (serve (CallActivate 30) (serve (CallRecord (mk_SecretStoreReceipt (sample_ref 2) 2 1 10) 20) (RotationJournal_new sample_plan)).1).1);
      [eexists; reflexivity|].
    apply rtc_once. exists (CallRevoke (mk_SecretRevokeReceipt (sample_ref 1) 1 130) 140). reflexivity.
Defined.
