(* ===== verification/AccountImport.v ===== *)
(** * Account imports

    Models [crates/optional/ariadnion-account-import/src/lib.rs]: import batches, opaque
    credential digests, the classification of a batch against the accounts that exist, and
    the coordinator that publishes one prepared batch per generation.  Shown: a dry run
    reports exactly the batch a publication would select, every refusal included; of the
    intents prepared at one generation at most one is ever accepted; digests and their
    hexadecimal texts correspond. *)

From Stdlib Require Import Ascii.
From Stdlib Require Strings.Byte.
From stdpp Require Import vector.
From S2P Require Import Prelude CoreTypes Identity.
From S2P Require AccountDomain Encoding.
#[local] Open Scope N_scope.

Definition MAX_IMPORT_ENTRIES : N := N.shiftl 1 17.
Definition DIGEST_HEX_BYTES : N := 64.
Definition CURRENT_SCHEMA_VERSION : N := 1.

Inductive ImportErrorCode :=
| InvalidArgument | UnsupportedSchemaVersion | TooManyEntries | DuplicateEntry
| Conflict | GenerationConflict | GenerationExhausted | StateUnavailable.
#[export] Instance ImportErrorCode_eq_dec : EqDecision ImportErrorCode.
Proof. solve_decision. Defined.
Definition import_validation_error_code (code : ImportErrorCode) : string :=
  match code with
  | InvalidArgument => "ACCOUNT_IMPORT_INVALID_ARGUMENT"
  | UnsupportedSchemaVersion => "ACCOUNT_IMPORT_UNSUPPORTED_SCHEMA_VERSION"
  | TooManyEntries => "ACCOUNT_IMPORT_TOO_MANY_ENTRIES"
  | DuplicateEntry => "ACCOUNT_IMPORT_DUPLICATE_ENTRY"
  | _ => "ACCOUNT_IMPORT_INVALID_ARGUMENT"
  end.
Definition import_publication_error_code (code : ImportErrorCode) : string :=
  match code with
  | Conflict => "ACCOUNT_IMPORT_CONFLICT"
  | GenerationConflict => "ACCOUNT_IMPORT_GENERATION_CONFLICT"
  | GenerationExhausted => "ACCOUNT_IMPORT_GENERATION_EXHAUSTED"
  | StateUnavailable => "ACCOUNT_IMPORT_STATE_UNAVAILABLE"
  | _ => "ACCOUNT_IMPORT_INVALID_ARGUMENT"
  end.
Definition as_str (code : ImportErrorCode) : string :=
  match code with
  | InvalidArgument | UnsupportedSchemaVersion | TooManyEntries | DuplicateEntry => import_validation_error_code code
  | Conflict | GenerationConflict | GenerationExhausted | StateUnavailable => import_publication_error_code code
  end.
Notation outcome := (result ImportErrorCode).

(** ** Versions, generations and digests *)

Definition ImportSchemaVersion := N.
Definition current : ImportSchemaVersion := CURRENT_SCHEMA_VERSION.
Definition supported (v : ImportSchemaVersion) : bool := v =? CURRENT_SCHEMA_VERSION.

Definition ImportGeneration := N.
Definition initial : ImportGeneration := 0.
Definition next (g : ImportGeneration) : outcome ImportGeneration := ok_or (checked_add u64_max g 1) GenerationExhausted.

Definition OpaqueDigest := digest.
Definition hex_nibble (value : N) : outcome N :=
  if in_range 48 57 value then Ok (value - 48)
  else if in_range 97 102 value then Ok (value - 97 + 10)
  else if in_range 65 70 value then Ok (value - 65 + 10)
  else Err InvalidArgument.
(** The loop over the pairs of bytes; positions it does not reach keep their zero. *)
Fixpoint parse_pairs (n : nat) (value : list ascii) : outcome (vec Byte.byte n) :=
  match n with
  | O => Ok [#]
  | S n =>
      match value with
      | high :: low :: rest =>
          high ← hex_nibble (byte high);
          low ← hex_nibble (byte low);
          bytes ← parse_pairs n rest;
          mret (Encoding.byte_of (N.lor (N.shiftl high 4) low) ::: bytes)
      | _ => Ok (vreplicate (S n) Byte.x00)
      end
  end.
Definition parse_hex (value : string) : outcome OpaqueDigest :=
  reject_if (negb (byte_len value =? DIGEST_HEX_BYTES) || negb (is_ascii value)) InvalidArgument ;;
  parse_pairs 32 (Stdlib.Strings.String.list_ascii_of_string value).
(** [{byte:02x}]. *)
Definition hex_digit (n : N) : ascii := ascii_of_N (if n <? 10 then 48 + n else 87 + n).
Definition hex_byte (b : Byte.byte) : list ascii := [hex_digit (Byte.to_N b / 16); hex_digit (Byte.to_N b mod 16)].
Definition display_digest (d : OpaqueDigest) : string :=
  Stdlib.Strings.String.string_of_list_ascii (flat_map hex_byte (vec_to_list d)).

(** ** Entries, batches and intents *)

Inductive ConflictStrategy := Reject | SkipExisting | ReplaceExisting.
#[export] Instance ConflictStrategy_eq_dec : EqDecision ConflictStrategy.
Proof. solve_decision. Defined.

Record ImportEntry := mk_ImportEntry {
  account_id : AccountId; provider_id : ProviderId; provider_label : option AccountDomain.BoundedText;
  account_label : option AccountDomain.BoundedText; external_account_id : option AccountDomain.BoundedText;
  config_version : N; secret_ref : AccountDomain.SecretRef; default_model : option AccountDomain.ModelName;
  max_concurrency : N; routing_priority : N; routing_weight : N;
  effective_window : AccountDomain.AccountEffectiveWindow; credential_digest : OpaqueDigest;
}.
Definition ImportEntry_new (account : AccountId) (provider : ProviderId) (secret : AccountDomain.SecretRef) (d : OpaqueDigest) : ImportEntry :=
  mk_ImportEntry account provider None None None AccountDomain.initial secret None 1 0 1 AccountDomain.OPEN d.
Definition configured (account : AccountId) (provider : AccountDomain.ProviderMetadata) (metadata : AccountDomain.AccountMetadata)
    (config : AccountDomain.AccountConfig) (d : OpaqueDigest) : ImportEntry :=
  mk_ImportEntry account (AccountDomain.provider_id provider) (Some (AccountDomain.provider_label provider))
    (Some (AccountDomain.label metadata)) (AccountDomain.external_id metadata) (AccountDomain.config_version config)
    (AccountDomain.secret_ref config) (AccountDomain.default_model config) (AccountDomain.max_concurrency config)
    (AccountDomain.routing_priority config) (AccountDomain.routing_weight config) (AccountDomain.effective_window config) d.
(** The labels an entry without explicit ones falls back to. *)
Definition provider_label_of (e : ImportEntry) : string := default (id_str (provider_id e)) (provider_label e).
Definition account_label_of (e : ImportEntry) : string := default (id_str (account_id e)) (account_label e).
Definition has_explicit_configuration (e : ImportEntry) : bool := bool_decide (is_Some (provider_label e)).

Record ImportBatch := mk_ImportBatch { schema_version : ImportSchemaVersion; entries : list ImportEntry }.
Definition ImportBatch_new (v : ImportSchemaVersion) (xs : list ImportEntry) : outcome ImportBatch :=
  reject_if (MAX_IMPORT_ENTRIES <? len xs) TooManyEntries ;; mret (mk_ImportBatch v xs).
Record DryRunReport := mk_DryRunReport {
  total_count : N; selected_count : N; skipped_count : N; conflict_count : N; report_strategy : ConflictStrategy;
}.
Record PublishIntent := mk_PublishIntent {
  expected_generation : ImportGeneration; intent_strategy : ConflictStrategy; intent_entries : list ImportEntry;
}.
Record PublishReceipt := mk_PublishReceipt { receipt_generation : ImportGeneration; published_count : N }.

(** ** Classification *)

Definition validate_batch (batch : ImportBatch) : outcome unit :=
  reject_if (negb (supported (schema_version batch))) UnsupportedSchemaVersion ;;
  reject_if (negb (all_fresh account_id [] (entries batch))) DuplicateEntry.
Definition existing_accounts (existing : list AccountId) : outcome (gset AccountId) :=
  reject_if (MAX_IMPORT_ENTRIES <? len existing) TooManyEntries ;;
  reject_if (negb (all_fresh (fun id => id) [] existing)) DuplicateEntry ;;
  mret (list_to_set existing).
(** The loop over the entries, with its counts of selected, skipped and conflicting ones. *)
Fixpoint classify_loop (existing : gset AccountId) (strategy : ConflictStrategy) (xs : list ImportEntry)
    (counts : N * N * N) : outcome (N * N * N) :=
  match xs with
  | [] => mret counts
  | e :: xs =>
      let '(selected, skipped, conflicts) := counts in
      if decide (account_id e ∈ existing) then
        match strategy with
        | Reject => Err Conflict
        | SkipExisting => classify_loop existing strategy xs (selected, skipped + 1, conflicts + 1)
        | ReplaceExisting => classify_loop existing strategy xs (selected + 1, skipped, conflicts + 1)
        end
      else classify_loop existing strategy xs (selected + 1, skipped, conflicts)
  end.
Definition classify_entries (batch : ImportBatch) (existing : gset AccountId) (strategy : ConflictStrategy) : outcome (N * N * N) :=
  validate_batch batch ;; classify_loop existing strategy (entries batch) (0, 0, 0).
Definition keeps (existing : gset AccountId) (strategy : ConflictStrategy) (e : ImportEntry) : bool :=
  negb (bool_decide (account_id e ∈ existing) && bool_decide (strategy = SkipExisting)).
Definition select_entries (batch : ImportBatch) (existing : gset AccountId) (strategy : ConflictStrategy) : outcome (list ImportEntry) :=
  classify_entries batch existing strategy ;;
  mret (List.filter (keeps existing strategy) (entries batch)).

(** ** The coordinator *)

(** [RwLock<CoordinatorState>]. *)
Definition ImportCoordinator := Lock ImportGeneration.
Definition from_generation (g : ImportGeneration) : ImportCoordinator := mk_lock false g.
Definition ImportCoordinator_new : ImportCoordinator := from_generation initial.
Notation import_act := (act ImportCoordinator ImportErrorCode).

Definition dry_run (batch : ImportBatch) (existing : list AccountId) (strategy : ConflictStrategy) : outcome DryRunReport :=
  known ← existing_accounts existing;
  '(selected, skipped, conflicts) ← classify_entries batch known strategy;
  mret (mk_DryRunReport (len (entries batch)) selected skipped conflicts strategy).
Definition generation : import_act ImportGeneration := locked StateUnavailable get.
Definition prepare (batch : ImportBatch) (existing : list AccountId) (strategy : ConflictStrategy) : import_act PublishIntent :=
  known ← lift (existing_accounts existing);
  selected ← lift (select_entries batch known strategy);
  g ← generation;
  mret (mk_PublishIntent g strategy selected).
Definition accept_body (intent : PublishIntent) : act ImportGeneration ImportErrorCode PublishReceipt :=
  g ← get;
  lift (reject_if (negb (g =? expected_generation intent)) GenerationConflict) ;;
  g' ← lift (next g);
  put g' ;;
  mret (mk_PublishReceipt g' (len (intent_entries intent))).
Definition accept_intent (intent : PublishIntent) : import_act PublishReceipt := locked StateUnavailable (accept_body intent).
Definition publish := accept_intent.

(** ** Specification *)

(** The entries of a batch that name an existing account. *)
Definition clashing (existing : list AccountId) (batch : ImportBatch) : list ImportEntry :=
  List.filter (fun e => bool_decide (account_id e ∈ existing)) (entries batch).
(** Why a batch is refused, in the order the code checks. *)
Definition refusal (batch : ImportBatch) (existing : list AccountId) (strategy : ConflictStrategy) : option ImportErrorCode :=
  if MAX_IMPORT_ENTRIES <? len existing then Some TooManyEntries
  else if bool_decide (~ NoDup existing) then Some DuplicateEntry
  else if bool_decide (schema_version batch <> CURRENT_SCHEMA_VERSION) then Some UnsupportedSchemaVersion
  else if bool_decide (~ NoDup (account_id <$> entries batch)) then Some DuplicateEntry
  else if bool_decide (strategy = Reject /\ clashing existing batch <> []) then Some Conflict
  else None.

(** The operations a coordinator receives. *)
Inductive import_step : ImportCoordinator -> ImportCoordinator -> Prop :=
| step_prepare batch existing strategy s : import_step s (prepare batch existing strategy s).1
| step_accept intent s : import_step s (accept_intent intent s).1
| step_generation s : import_step s (generation s).1.

(** Samples. *)
Definition sample_zero : OpaqueDigest := vreplicate 32 Byte.x00.
Definition sample_entry (name : string) : ImportEntry :=
  ImportEntry_new (MkId name) (MkId "p") (AccountDomain.mk_SecretRef "vault" "accounts" 1 "api") sample_zero.
Definition sample_batch : ImportBatch := mk_ImportBatch 1 [sample_entry "a"; sample_entry "b"].

(** ** Lemmas *)

Lemma bytes_of_text s : length (Stdlib.Strings.String.list_ascii_of_string s) = String.length s.
Proof. induction s; cbn; congruence. Qed.
Lemma hex_pair b : parse_pairs 1 (hex_byte b) = Ok [# b].
Proof. destruct b; reflexivity. Qed.
Lemma parse_hex_bytes n (v : vec Byte.byte n) : parse_pairs n (flat_map hex_byte (vec_to_list v)) = Ok v.
Proof.
  induction v as [|b n v IH]; [done|]. pose proof (hex_pair b) as Hb. unfold hex_byte in Hb.
  cbn [parse_pairs flat_map vec_to_list hex_byte app] in *.
  destruct (hex_nibble (byte (hex_digit (Byte.to_N b / 16)))) as [h|]; [|done].
  destruct (hex_nibble (byte (hex_digit (Byte.to_N b mod 16)))) as [l|]; [|done].
  cbn [mbind result_bind] in *. rewrite IH. cbn. injection Hb as Hb. by rewrite Hb.
Qed.
Lemma hex_byte_ascii b : forallb is_ascii_byte (hex_byte b) = true.
Proof. destruct b; reflexivity. Qed.
Lemma hex_length n (v : vec Byte.byte n) : length (flat_map hex_byte (vec_to_list v)) = (n * 2)%nat.
Proof. induction v; cbn; lia. Qed.
Lemma hex_ascii l : forallb is_ascii_byte (flat_map hex_byte l) = true.
Proof. induction l as [|b l IH]; [done|]. cbn [flat_map]. rewrite forallb_app, IH, hex_byte_ascii. done. Qed.


Ltac counts := match goal with |- Ok (?a, ?b, ?c) = Ok (?x, ?y, ?z) =>
  replace x with a by lia; replace y with b by lia; replace z with c by lia; reflexivity end.
Lemma entries_len_cons {A} (x : A) l : len (x :: l) = len l + 1.
Proof. unfold len. cbn. lia. Qed.
Lemma keeps_known known strategy e : account_id e ∈ known ->
  keeps known strategy e = match strategy with SkipExisting => false | _ => true end.
Proof. intros Hin. unfold keeps. rewrite bool_decide_eq_true_2 by done. by destruct strategy. Qed.
Lemma keeps_new known strategy e : account_id e ∉ known -> keeps known strategy e = true.
Proof. intros Hin. unfold keeps. by rewrite bool_decide_eq_false_2. Qed.
Lemma classify_loop_run known strategy xs s k c : classify_loop known strategy xs (s, k, c) =
  let clash := List.filter (fun e => bool_decide (account_id e ∈ known)) xs in
  if bool_decide (strategy = Reject /\ clash <> []) then Err Conflict
  else Ok (s + len (List.filter (keeps known strategy) xs),
           k + (if decide (strategy = SkipExisting) then len clash else 0), c + len clash).
Proof.
  cbv zeta. revert s k c. induction xs as [|e xs IH]; intros s k c.
  { cbn -[decide]. rewrite bool_decide_eq_false_2 by (by intros [_ []]). unfold mret, result_ret.
    destruct (decide _); unfold len; cbn; by rewrite !N.add_0_r. }
  cbn -[decide bool_decide keeps]. destruct (decide (account_id e ∈ known)) as [Hin|Hin].
  - rewrite keeps_known by done. rewrite !(bool_decide_eq_true_2 (account_id e ∈ known)) by done. destruct strategy; cbn -[decide bool_decide keeps].
    + by rewrite bool_decide_eq_true_2 by done.
    + rewrite IH. rewrite !bool_decide_eq_false_2 by (by intros []). destruct (decide _); [|done]. rewrite !entries_len_cons. counts.
    + rewrite IH. rewrite !bool_decide_eq_false_2 by (by intros []). destruct (decide _); [done|]. rewrite !entries_len_cons. counts.
  - rewrite !(bool_decide_eq_false_2 (account_id e ∈ known)) by done. rewrite keeps_new by done. rewrite IH.
    destruct (bool_decide _); [done|]. rewrite entries_len_cons. counts.
Qed.
Lemma kept_count known strategy xs :
  len (List.filter (keeps known strategy) xs) +
    (if decide (strategy = SkipExisting) then len (List.filter (fun e => bool_decide (account_id e ∈ known)) xs) else 0) = len xs.
Proof.
  induction xs as [|e xs IH]; [by destruct (decide _)|]. cbn -[decide bool_decide keeps].
  destruct (decide (account_id e ∈ known)) as [Hin|Hin].
  - rewrite keeps_known, bool_decide_eq_true_2 by done.
    destruct strategy; destruct (decide _) as [H|H]; try done; rewrite !entries_len_cons; lia.
  - rewrite keeps_new, bool_decide_eq_false_2 by done. rewrite !entries_len_cons. lia.
Qed.

Lemma fresh_nodup {A K} `{EqDecision K} (key : A -> K) l : all_fresh key [] l = bool_decide (NoDup (key <$> l)).
Proof.
  apply eq_true_iff_eq. rewrite bool_decide_eq_true, all_fresh_NoDup. split; [by intros []|]. intros H. split; [done|].
  intros x _ Hx. by apply elem_of_nil in Hx.
Qed.

Lemma existing_accounts_run existing : existing_accounts existing =
  if MAX_IMPORT_ENTRIES <? len existing then Err TooManyEntries
  else if bool_decide (~ NoDup existing) then Err DuplicateEntry else Ok (list_to_set existing).
Proof.
  unfold existing_accounts. rewrite fresh_nodup, list_fmap_id. destruct (_ <? _); [done|].
  rewrite bool_decide_not. by destruct (bool_decide (NoDup existing)).
Qed.
Lemma validate_batch_run batch : validate_batch batch =
  if bool_decide (schema_version batch <> CURRENT_SCHEMA_VERSION) then Err UnsupportedSchemaVersion
  else if bool_decide (~ NoDup (account_id <$> entries batch)) then Err DuplicateEntry else Ok tt.
Proof.
  unfold validate_batch, supported. rewrite fresh_nodup, !bool_decide_not.
  destruct (N.eqb_spec (schema_version batch) CURRENT_SCHEMA_VERSION);
    [rewrite (bool_decide_eq_true_2 (_ = CURRENT_SCHEMA_VERSION)) by done | by rewrite (bool_decide_eq_false_2 (_ = CURRENT_SCHEMA_VERSION))].
  by destruct (bool_decide (NoDup _)).
Qed.
Lemma clashing_set existing (xs : list ImportEntry) :
  List.filter (fun e => bool_decide (account_id e ∈ (list_to_set existing : gset AccountId))) xs =
  List.filter (fun e => bool_decide (account_id e ∈ existing)) xs.
Proof. apply List.filter_ext. intros e. apply bool_decide_ext, elem_of_list_to_set. Qed.

(** Both operations read the same verdict. *)
Lemma classified batch existing strategy :
  (known ← existing_accounts existing; counts ← classify_entries batch known strategy; mret (known, counts)) =
  match refusal batch existing strategy with
  | Some e => Err e
  | None => Ok (list_to_set existing, (len (List.filter (keeps (list_to_set existing) strategy) (entries batch)),
      (if decide (strategy = SkipExisting) then len (clashing existing batch) else 0), len (clashing existing batch)))
  end.
Proof.
  rewrite existing_accounts_run. unfold refusal. destruct (_ <? _); [done|]. destruct (bool_decide (~ NoDup existing)); [done|].
  cbn [mbind result_bind]. unfold classify_entries. rewrite validate_batch_run.
  destruct (bool_decide (schema_version _ <> _)); [done|]. destruct (bool_decide (~ NoDup (account_id <$> _))); [done|].
  cbn [mbind result_bind]. rewrite classify_loop_run. cbv zeta. rewrite clashing_set. unfold clashing.
  by destruct (bool_decide (strategy = Reject /\ _)).
Qed.

Lemma prepare_state batch existing strategy s : (prepare batch existing strategy s).1 = s.
Proof.
  destruct s as [b g]. destruct (prepare batch existing strategy (mk_lock b g)) as [s' r] eqn:E. unfold prepare in E. run_steps; try done.
  all: unfold generation in *; destruct b; cbn in *; congruence.
Qed.
Lemma accept_intent_run intent g : accept_intent intent (mk_lock false g) =
  if g =? expected_generation intent then
    match next g with
    | Ok g' => (mk_lock false g', Ok (mk_PublishReceipt g' (len (intent_entries intent))))
    | Err e => (mk_lock false g, Err e)
    end
  else (mk_lock false g, Err GenerationConflict).
Proof.
  unfold accept_intent. rewrite locked_run. unfold accept_body, mbind, act_bind, get, lift.
  destruct (g =? _); cbn; [|done]. by destruct (next g).
Qed.
Lemma step_monotone s s' : import_step s s' -> lock_poisoned s = false ->
  lock_poisoned s' = false /\ lock_data s <= lock_data s'.
Proof.
  intros Hst Hp. destruct s as [b g]. cbn in Hp. subst b. inversion Hst; subst.
  - by rewrite prepare_state.
  - rewrite accept_intent_run. destruct (_ =? _); [|done]. unfold next. destruct (checked_add u64_max g 1) eqn:E; [|done].
    apply checked_add_Some in E as [-> _]. cbn. split; [done|lia].
  - done.
Qed.
Lemma steps_monotone s s' : rtc import_step s s' -> lock_poisoned s = false ->
  lock_poisoned s' = false /\ lock_data s <= lock_data s'.
Proof.
  induction 1 as [s|s t u Hst _ IH]; [done|]. intros Hp. destruct (step_monotone _ _ Hst Hp) as [Hp' Hle].
  destruct (IH Hp') as [Hp'' Hle']. split; [done|lia].
Qed.

(** ** Theorems *)

(** C34: a dry run and the preparation of the same batch against the same accounts agree on
    every input: both refuse, with the first reason that applies (too many or repeated
    existing accounts, an unknown schema, a repeated entry, a conflict the strategy
    rejects), or the report counts exactly the entries the prepared intent carries:
    all of them, or, when existing accounts are skipped, those that name none. *)
Theorem dry_run_predicts_publication batch existing strategy g :
  let s := from_generation g in
  match refusal batch existing strategy with
  | Some e => dry_run batch existing strategy = Err e /\ prepare batch existing strategy s = (s, Err e)
  | None => exists report chosen,
      dry_run batch existing strategy = Ok report /\
      prepare batch existing strategy s = (s, Ok (mk_PublishIntent g strategy chosen)) /\
      chosen = (if decide (strategy = SkipExisting)
                then List.filter (fun e => bool_decide (account_id e ∉ existing)) (entries batch) else entries batch) /\
      selected_count report = len chosen /\ selected_count report + skipped_count report = total_count report /\
      total_count report = len (entries batch) /\ conflict_count report = len (clashing existing batch)
  end.
Proof.
  pose proof (classified batch existing strategy) as Hc. cbv zeta. unfold dry_run, prepare, select_entries.
  destruct (existing_accounts existing) as [known|e] eqn:Hk.
  2: { cbn in Hc. destruct (refusal _ _ _); [|done]. by injection Hc as ->. }
  cbn [mbind result_bind] in *. destruct (classify_entries batch known strategy) as [[[sel sk] c]|e] eqn:Hcl.
  2: { cbn in Hc. destruct (refusal _ _ _) as [e'|]; [|done]. injection Hc as ->.
       unfold mbind, act_bind, lift. cbn. by rewrite Hcl. }
  cbn [mbind result_bind mret result_ret] in Hc. destruct (refusal _ _ _); [done|]. injection Hc as -> -> -> ->.
  eexists _, _. split; [reflexivity|]. split.
  { unfold mbind, act_bind, lift. cbn -[List.filter]. by rewrite Hcl. }
  cbn [selected_count skipped_count total_count conflict_count].
  pose proof (kept_count (list_to_set existing) strategy (entries batch)) as Hn. rewrite clashing_set in Hn.
  split_and!; [|done|exact Hn|done|done].
  destruct (decide (strategy = SkipExisting)) as [->|Hs].
  - apply List.filter_ext. intros e. unfold keeps. rewrite (bool_decide_eq_true_2 (SkipExisting = _)), andb_true_r by done.
    rewrite <- bool_decide_not. apply bool_decide_ext. by rewrite elem_of_list_to_set.
  - transitivity (List.filter (fun _ : ImportEntry => true) (entries batch)).
    + apply List.filter_ext. intros e. unfold keeps. by rewrite (bool_decide_eq_false_2 (strategy = _)), andb_false_r.
    + clear. induction (entries batch) as [|e xs IH]; [done|]. cbn. by rewrite IH.
Qed.

(** *** One publication per generation

    An accepted intent publishes the next generation.  From then on, whatever the
    coordinator is asked, every intent prepared at that generation or an earlier one is
    refused for its generation and changes nothing. *)
Theorem one_publication_per_generation intent s s1 receipt s2 other
    (Haccept : accept_intent intent s = (s1, Ok receipt)) (Hlater : rtc import_step s1 s2)
    (Hother : expected_generation other <= expected_generation intent) :
  receipt_generation receipt = expected_generation intent + 1 /\ published_count receipt = len (intent_entries intent) /\
  lock_data s1 = receipt_generation receipt /\
  accept_intent other s2 = (s2, Err GenerationConflict).
Proof.
  destruct s as [[|] g]; [done|]. rewrite accept_intent_run in Haccept. destruct (N.eqb_spec g (expected_generation intent)) as [->|]; [|done].
  unfold next in Haccept. destruct (checked_add u64_max _ 1) as [g'|] eqn:E; [|done]. cbn in Haccept. injection Haccept as <- <-.
  apply checked_add_Some in E as [-> _]. split_and!; try done.
  destruct (steps_monotone _ _ Hlater eq_refl) as [Hp Hle]. destruct s2 as [b g2]. cbn in *. subst b.
  rewrite accept_intent_run. by rewrite (proj2 (N.eqb_neq g2 _)) by lia.
Qed.
Lemma one_publication_per_generation_witness : exists receipt,
  accept_intent (mk_PublishIntent 4 Reject [sample_entry "a"]) (from_generation 4) = (from_generation 5, Ok receipt) /\
  accept_intent (mk_PublishIntent 4 Reject []) (from_generation 5) = (from_generation 5, Err GenerationConflict).
Proof.
  eexists. split; [reflexivity|].
  apply (one_publication_per_generation (mk_PublishIntent 4 Reject [sample_entry "a"]) (from_generation 4) (from_generation 5)
    (mk_PublishReceipt 5 1) (from_generation 5) (mk_PublishIntent 4 Reject [])); [reflexivity|apply rtc_refl|reflexivity].
Defined.

(** *** Digests

    Printing a digest and parsing the text is the identity. *)
Theorem digest_roundtrip d : parse_hex (display_digest d) = Ok d.
Proof.
  unfold parse_hex, display_digest. rewrite Stdlib.Strings.String.list_ascii_of_string_of_list_ascii.
  assert (byte_len (Stdlib.Strings.String.string_of_list_ascii (flat_map hex_byte (vec_to_list d))) = DIGEST_HEX_BYTES) as ->.
  { unfold byte_len. rewrite <- bytes_of_text.
    by rewrite Stdlib.Strings.String.list_ascii_of_string_of_list_ascii, hex_length. }
  unfold is_ascii, all_bytes. rewrite Stdlib.Strings.String.list_ascii_of_string_of_list_ascii, hex_ascii. cbn [negb orb reject_if mbind result_bind N.eqb DIGEST_HEX_BYTES Pos.eqb].
  apply parse_hex_bytes.
Qed.
