(* ===== verification/ImportPort.v ===== *)
(** * The durable import and projection ports

    Models [crates/optional/ariadnion-account-import/src/port.rs]: the errors of the ports,
    mutation identities, credential references and the requests for them, the durable
    projection of accounts, whose rows are those [AccountPool] reads, and publication requests and receipts.  Shown: a projection is
    accepted exactly when it is one tenant's accounts in strict order, none from a
    generation after it; a credential reference is what its revalidation asks for. *)

From Stdlib Require Import Ascii.
From S2P Require Import Prelude CoreTypes.
From S2P Require AccountDomain AccountVault AccountImport AccountPool.
#[local] Open Scope N_scope.

Definition MAX_IMPORT_MUTATION_ID_BYTES : N := N.shiftl 1 7.

Inductive ImportPortErrorCode :=
| InvalidArgument | Unauthenticated | PermissionDenied | ProjectionConflict | Conflict | Cancelled | DeadlineExceeded
| ResourceExhausted | Unavailable | CommitIndeterminate | CorruptState.
#[export] Instance ImportPortErrorCode_eq_dec : EqDecision ImportPortErrorCode.
Proof. solve_decision. Defined.
Definition request_error_code (code : ImportPortErrorCode) : option string :=
  match code with
  | InvalidArgument => Some "ACCOUNT_IMPORT_PORT_INVALID_ARGUMENT"
  | Unauthenticated => Some "ACCOUNT_IMPORT_PORT_UNAUTHENTICATED"
  | PermissionDenied => Some "ACCOUNT_IMPORT_PORT_PERMISSION_DENIED"
  | Conflict => Some "ACCOUNT_IMPORT_PORT_CONFLICT"
  | ProjectionConflict => Some "ACCOUNT_IMPORT_PORT_PROJECTION_CONFLICT"
  | _ => None
  end%string.
Definition execution_error_code (code : ImportPortErrorCode) : option string :=
  match code with
  | Cancelled => Some "ACCOUNT_IMPORT_PORT_CANCELLED"
  | DeadlineExceeded => Some "ACCOUNT_IMPORT_PORT_DEADLINE_EXCEEDED"
  | ResourceExhausted => Some "ACCOUNT_IMPORT_PORT_RESOURCE_EXHAUSTED"
  | _ => None
  end%string.
Definition adapter_error_code (code : ImportPortErrorCode) : string :=
  match code with
  | Unavailable => "ACCOUNT_IMPORT_PORT_UNAVAILABLE"
  | CommitIndeterminate => "ACCOUNT_IMPORT_PORT_COMMIT_INDETERMINATE"
  | CorruptState => "ACCOUNT_IMPORT_PORT_CORRUPT_STATE"
  | _ => "ACCOUNT_IMPORT_PORT_CORRUPT_STATE"
  end.
Definition as_str (code : ImportPortErrorCode) : string :=
  match request_error_code code with
  | Some text => text
  | None => match execution_error_code code with Some text => text | None => adapter_error_code code end
  end.
Definition requires_reconciliation (code : ImportPortErrorCode) : bool := bool_decide (code = CommitIndeterminate).
Notation outcome := (result ImportPortErrorCode).

(** ** Mutation identities *)

Definition valid_mutation_id_byte (a : ascii) : bool :=
  is_ascii_alphanumeric a || Ascii.eqb a "." || Ascii.eqb a "-" || Ascii.eqb a "_" || Ascii.eqb a ":".
Definition valid_mutation_id (value : string) : bool :=
  match value with
  | EmptyString => false
  | String first _ =>
      is_ascii_alphanumeric first && (byte_len value <=? MAX_IMPORT_MUTATION_ID_BYTES) && all_bytes valid_mutation_id_byte value
  end.
Definition ImportMutationId := string.
Definition ImportMutationId_parse (value : string) : outcome ImportMutationId :=
  reject_if (negb (valid_mutation_id value)) InvalidArgument ;; mret value.

(** ** Credential references *)

Record AccountProjectionRequest := mk_AccountProjectionRequest { projection_expected_generation : AccountImport.ImportGeneration }.

Record AccountCredentialReferenceRequest := mk_AccountCredentialReferenceRequest {
  request_account : AccountId; request_provider : ProviderId; request_config_version : N; request_purpose : string;
  request_generation : AccountImport.ImportGeneration;
}.
#[export] Instance AccountCredentialReferenceRequest_eq_dec : EqDecision AccountCredentialReferenceRequest.
Proof. solve_decision. Defined.
Definition AccountCredentialReferenceRequest_new (account : AccountId) (provider : ProviderId) (config_version : N) (purpose : string)
    (generation : AccountImport.ImportGeneration) : outcome AccountCredentialReferenceRequest :=
  reject_if ((config_version =? 0) || (generation =? AccountImport.initial)) InvalidArgument ;;
  mret (mk_AccountCredentialReferenceRequest account provider config_version purpose generation).

Record AccountCredentialReference := mk_AccountCredentialReference {
  reference_tenant : TenantId; reference_account : AccountId; reference_provider : ProviderId; reference_config_version : N;
  reference_purpose : string; reference_generation : AccountImport.ImportGeneration; reference_secret : AccountDomain.SecretRef;
}.
Definition AccountCredentialReference_new (tenant : TenantId) (account : AccountId) (provider : ProviderId) (config_version : N)
    (purpose : string) (generation : AccountImport.ImportGeneration) (secret : AccountDomain.SecretRef)
    : outcome AccountCredentialReference :=
  reject_if ((config_version =? 0) || (generation =? AccountImport.initial) ||
    bool_decide (AccountDomain.secret_purpose secret <> purpose)) InvalidArgument ;;
  mret (mk_AccountCredentialReference tenant account provider config_version purpose generation secret).
Definition revalidation_request (r : AccountCredentialReference) : AccountCredentialReferenceRequest :=
  mk_AccountCredentialReferenceRequest (reference_account r) (reference_provider r) (reference_config_version r)
    (reference_purpose r) (reference_generation r).

(** ** Durable projections *)

Record DurableAccountIdentity := mk_DurableAccountIdentity {
  identity_tenant : TenantId; identity_account : AccountId; identity_provider : ProviderId;
  identity_model : option AccountDomain.ModelName;
}.
Record DurableRoutingState := mk_DurableRoutingState { priority : N; weight : N }.
(** [DurableRoutingState::default], of the defaults of its fields. *)
Definition DurableRoutingState_default : DurableRoutingState := mk_DurableRoutingState 0 1.
Record DurableAccountState := mk_DurableAccountState {
  state_max_concurrency : N; state_config_version : N; state_account_version : N; state_status : AccountDomain.AccountStatus;
  state_generation : AccountImport.ImportGeneration; state_routing : DurableRoutingState;
  state_window : AccountDomain.AccountEffectiveWindow;
}.
#[export] Instance DurableAccountState_eta : Eta DurableAccountState := fun s =>
  mk_DurableAccountState (state_max_concurrency s) (state_config_version s) (state_account_version s) (state_status s)
    (state_generation s) (state_routing s) (state_window s).
Definition with_routing (max_concurrency config_version account_version : N) (status : AccountDomain.AccountStatus)
    (generation : AccountImport.ImportGeneration) (routing : DurableRoutingState) : outcome DurableAccountState :=
  reject_if ((max_concurrency =? 0) || (config_version =? 0) || (account_version =? 0) || (generation =? AccountImport.initial) ||
    (bool_decide (status = AccountDomain.Deleted) && (account_version =? 1))) InvalidArgument ;;
  mret (mk_DurableAccountState max_concurrency config_version account_version status generation routing AccountDomain.OPEN).
Definition DurableAccountState_new (max_concurrency config_version account_version : N) (status : AccountDomain.AccountStatus)
    (generation : AccountImport.ImportGeneration) : outcome DurableAccountState :=
  with_routing max_concurrency config_version account_version status generation DurableRoutingState_default.
Definition with_effective_window (s : DurableAccountState) (window : AccountDomain.AccountEffectiveWindow) : DurableAccountState :=
  s <| state_window := window |>.

Notation DurableAccountProjection := AccountPool.DurableAccountProjection (only parsing).
Notation AccountProjectionSnapshot := AccountPool.AccountProjectionSnapshot (only parsing).
Definition DurableAccountProjection_new (i : DurableAccountIdentity) (s : DurableAccountState) : DurableAccountProjection :=
  AccountPool.mk_DurableAccountProjection (identity_tenant i) (identity_account i) (identity_provider i) (identity_model i)
    (state_max_concurrency s) (state_config_version s) (state_account_version s) (state_status s) (state_generation s)
    (priority (state_routing s)) (weight (state_routing s)) (state_window s).
(** [AccountProjectionSnapshot::new] with the error of the port; its test is that of [AccountPool]. *)
Definition projection_new (g : AccountImport.ImportGeneration) (rows : list DurableAccountProjection)
    : outcome AccountProjectionSnapshot :=
  ok_or (AccountPool.AccountProjectionSnapshot_new g rows) InvalidArgument.

(** ** Publication *)

Record DurablePublishRequest := mk_DurablePublishRequest { publish_mutation : ImportMutationId; publish_intent : AccountImport.PublishIntent }.
Record DurablePublishReceipt := mk_DurablePublishReceipt {
  receipt_mutation : ImportMutationId; receipt_generation : AccountImport.ImportGeneration; receipt_count : N; receipt_at : Z;
}.
Definition DurablePublishReceipt_new (mutation : ImportMutationId) (g : AccountImport.ImportGeneration) (count : N) (at_ : Z)
    : outcome DurablePublishReceipt :=
  reject_if ((g =? AccountImport.initial) || (AccountImport.MAX_IMPORT_ENTRIES <? count)) InvalidArgument ;;
  mret (mk_DurablePublishReceipt mutation g count at_).

(** ** Lemmas *)

#[local] Existing Instance AccountVault.SecretRef_eq_dec.
#[export] Instance AccountCredentialReference_eq_dec : EqDecision AccountCredentialReference.
Proof. solve_decision. Defined.

(** One tenant's accounts in strictly increasing order. *)
Definition row_before (a b : DurableAccountProjection) : Prop :=
  AccountPool.durable_tenant_id a = AccountPool.durable_tenant_id b /\
  ord_lt (AccountPool.durable_account_id a) (AccountPool.durable_account_id b).
#[export] Instance row_before_trans : Transitive row_before.
Proof. intros a b c [Hab Lab] [Hbc Lbc]. split; [congruence|]. by eapply ord_lt_trans. Qed.
Lemma rows_ordered l : AccountPool.rows_unordered l = false <-> StronglySorted row_before l.
Proof.
  induction l as [|x l IH]; [split; [constructor|done]|]. destruct l as [|y l].
  { split; [intros _; repeat constructor | done]. }
  change (AccountPool.rows_unordered (x :: y :: l)) with
    (bool_decide (AccountPool.durable_tenant_id x <> AccountPool.durable_tenant_id y) ||
     negb (is_lt (AccountPool.durable_account_id x) (AccountPool.durable_account_id y)) || AccountPool.rows_unordered (y :: l)).
  assert (bool_decide (AccountPool.durable_tenant_id x <> AccountPool.durable_tenant_id y) ||
     negb (is_lt (AccountPool.durable_account_id x) (AccountPool.durable_account_id y)) = false <-> row_before x y) as Hxy.
  { rewrite orb_false_iff, bool_decide_eq_false, negb_false_iff. unfold row_before, ord_lt, is_lt.
    destruct (cmp _ _); split; intros [H1 H2]; try done; (split; [first [by apply dec_stable | intros Hn; by apply Hn]|done]). }
  rewrite orb_false_iff, Hxy, IH. split.
  - intros [Hr Hs]. constructor; [done|]. constructor; [done|]. inversion Hs; subst.
    eapply Forall_impl; [done|]. cbn. intros z Hz. by transitivity y.
  - intros Hs. inversion Hs as [|?? Hs' Hall]; subst. split; [by inversion Hall|done].
Qed.

(** ** Theorems *)

(** *** Projections

    A projection is accepted exactly when it has at most 2^17 rows, all of one tenant, in
    strictly increasing order of account, none of a generation after the projection's, and
    the initial generation is empty. *)
Theorem durable_projection_exact g rows p : projection_new g rows = Ok p <->
  p = AccountPool.mk_AccountProjectionSnapshot g rows /\ len rows <= 131072 /\ (g = 0 -> rows = []) /\
  (forall row, row ∈ rows -> AccountPool.import_generation row <= g) /\ StronglySorted row_before rows.
Proof.
  unfold projection_new, AccountPool.AccountProjectionSnapshot_new. rewrite ok_or_Ok.
  assert (existsb (fun row => g <? AccountPool.import_generation row) rows = false <->
    forall row, row ∈ rows -> AccountPool.import_generation row <= g) as Hg.
  { rewrite <- not_true_iff_false, existsb_exists. setoid_rewrite N.ltb_lt. split.
    - intros Hn row Hrow. apply N.le_ngt. intros Hlt. apply Hn. exists row. by rewrite <- list_elem_of_In.
    - intros Hall (row & Hrow%list_elem_of_In & Hlt). specialize (Hall row Hrow). lia. }
  assert ((g =? 0) && negb (bool_decide (rows = [])) = false <-> (g = 0 -> rows = [])) as He.
  { destruct (N.eqb_spec g 0), rows; cbn; split; intros H; try done; by specialize (H ltac:(assumption)). }
  rewrite <- rows_ordered, <- Hg, <- He, <- N.ltb_ge. change 131072 with AccountPool.MAX_ACCOUNT_PROJECTION_ACCOUNTS.
  destruct (_ <? _), (_ && _), (existsb _ _), (AccountPool.rows_unordered _); cbn [orb]; naive_solver.
Qed.

(** *** Credential references

    A reference is only made for a positive configuration, a published generation and a
    secret of its own purpose; the request that revalidates it is one the constructor of
    requests accepts, and it names the same account, provider, configuration, purpose and
    generation. *)
Theorem reference_revalidates tenant account provider version purpose g secret r
    (Hr : AccountCredentialReference_new tenant account provider version purpose g secret = Ok r) :
  AccountCredentialReferenceRequest_new account provider version purpose g = Ok (revalidation_request r) /\
  AccountDomain.secret_purpose (reference_secret r) = purpose.
Proof.
  unfold AccountCredentialReference_new in Hr. run_steps. tidy. unfold AccountCredentialReferenceRequest_new. cbn.
  rewrite (proj2 (N.eqb_neq version 0)), (proj2 (N.eqb_neq g AccountImport.initial)) by done. done.
Qed.
Lemma reference_revalidates_witness : exists r, AccountCredentialReference_new (MkId "t") (MkId "a") (MkId "p") 1 "api" 3
    (AccountDomain.mk_SecretRef "vault" "accounts" 1 "api") = Ok r /\
  AccountCredentialReferenceRequest_new (MkId "a") (MkId "p") 1 "api" 3 = Ok (revalidation_request r).
Proof.
  eexists. split; [reflexivity|].
  apply (reference_revalidates (MkId "t") (MkId "a") (MkId "p") 1 "api" 3 (AccountDomain.mk_SecretRef "vault" "accounts" 1 "api") _ eq_refl).
Defined.
