(* ===== verification/CircuitProbe.v ===== *)
(** * Circuit probes of the routing runtime

    Models [crates/optional/ariadnion-routing-runtime/src/circuit_probe.rs]: the registry of
    account circuits, the leases it issues for one execution, and the guard that completes a
    lease on every way out.  The circuits are those of [AccountCircuit], behind their locks.

    Whatever happens outside of the crate is read from [outside]: the instant and the state
    of the cancellation tree a context is checked at, the reading of the probe clock, and
    what other threads did to the circuits before.  Each such point takes one tick.  Shown:
    the registry finds exactly the registration of a key; a lease is only worth something
    where it was issued; and what a lease validates as and completes as is decided by the
    circuit's own generation and lease records. *)

From stdpp Require Import functions.
From S2P Require Import Prelude CoreTypes AccountCircuit.
From S2P Require Cancellation.
#[local] Open Scope N_scope.

Definition MAX_CIRCUIT_PROBE_ACCOUNTS : N := N.shiftl 1 17.

Record CircuitProbeKey := mk_CircuitProbeKey {
  key_tenant : TenantId; key_account : AccountId; key_config_version : N; key_import_generation : N;
}.
#[export] Instance CircuitProbeKey_eq_dec : EqDecision CircuitProbeKey.
Proof. solve_decision. Defined.
(** The derived order: field by field. *)
Definition key_fields (k : CircuitProbeKey) : TenantId * (AccountId * (N * N)) :=
  (key_tenant k, (key_account k, (key_config_version k, key_import_generation k))).
#[export] Instance CircuitProbeKey_ord : Ord CircuitProbeKey := fun x y => cmp (key_fields x) (key_fields y).

Inductive CircuitProbeErrorCode := Unavailable | Rejected | Cancelled | DeadlineExceeded.
#[export] Instance CircuitProbeErrorCode_eq_dec : EqDecision CircuitProbeErrorCode.
Proof. solve_decision. Defined.
Definition display_probe_error (code : CircuitProbeErrorCode) : string :=
  match code with
  | Unavailable => "CIRCUIT_PROBE_UNAVAILABLE"
  | Rejected => "CIRCUIT_PROBE_REJECTED"
  | Cancelled => "CIRCUIT_PROBE_CANCELLED"
  | DeadlineExceeded => "CIRCUIT_PROBE_DEADLINE_EXCEEDED"
  end.
Inductive CircuitProbeValidation := Valid | Invalidated.
#[export] Instance CircuitProbeValidation_eq_dec : EqDecision CircuitProbeValidation.
Proof. solve_decision. Defined.
Inductive CircuitProbeRegistryErrorCode := DuplicateKey | RegistryAccountMismatch | CapacityExceeded.
Definition display_registry_error (code : CircuitProbeRegistryErrorCode) : string :=
  match code with
  | DuplicateKey => "CIRCUIT_PROBE_REGISTRY_DUPLICATE_KEY"
  | RegistryAccountMismatch => "CIRCUIT_PROBE_REGISTRY_ACCOUNT_MISMATCH"
  | CapacityExceeded => "CIRCUIT_PROBE_REGISTRY_CAPACITY_EXCEEDED"
  end.

(** ** Registrations and leases *)

(** An [AccountCircuit]: its two immutable fields and the place of its locked state. *)
Record Circuit := mk_Circuit { circuit_account : AccountId; circuit_policy : CircuitPolicy; circuit_place : nat }.
Record CircuitProbeRegistration := mk_CircuitProbeRegistration {
  reg_key : CircuitProbeKey; reg_circuit : Circuit; reg_issuer : nat;
}.
(** [issuer] is the identity of the [Arc] the constructor allocates. *)
Definition CircuitProbeRegistration_new (issuer : nat) (key : CircuitProbeKey) (circuit : Circuit)
    : result CircuitProbeRegistryErrorCode CircuitProbeRegistration :=
  reject_if (bool_decide (circuit_account circuit <> key_account key)) RegistryAccountMismatch ;;
  mret (mk_CircuitProbeRegistration key circuit issuer).

Record CircuitProbeClockReading := mk_CircuitProbeClockReading { observed_at : N; monotonic : N }.
(** [ProcessCircuitProbeClock::observe]: the clocks' readings in whole milliseconds. *)
Definition duration_millis (nanos : N) : result unit N := reject_if (u64_max <? nanos / 1000000) tt ;; mret (nanos / 1000000).
Definition process_observe (since_epoch : option N) (elapsed : N) : result unit CircuitProbeClockReading :=
  since ← ok_or since_epoch tt;
  at_ ← duration_millis since;
  m ← duration_millis elapsed;
  m ← match MonotonicMillis_new m with Ok m => Ok m | Err _ => Err tt end;
  mret (mk_CircuitProbeClockReading at_ m).

Inductive CircuitProbeLeaseKind := ClosedLease (generation : N) | HalfOpenLease (inner : ProbeLease).
Record CircuitProbeLease := mk_CircuitProbeLease {
  lease_key : CircuitProbeKey; lease_kind : CircuitProbeLeaseKind; lease_issuer : option nat;
}.
#[export] Instance CircuitProbeLease_eta : Eta CircuitProbeLease := fun l =>
  mk_CircuitProbeLease (lease_key l) (lease_kind l) (lease_issuer l).
Definition closed (key : CircuitProbeKey) (generation : N) : CircuitProbeLease := mk_CircuitProbeLease key (ClosedLease generation) None.
Definition CircuitProbeLease_new (key : CircuitProbeKey) (inner : ProbeLease) : result CircuitProbeErrorCode CircuitProbeLease :=
  reject_if (bool_decide (pl_account_id inner <> key_account key)) Rejected ;;
  mret (mk_CircuitProbeLease key (HalfOpenLease inner) None).
Definition into_probe (l : CircuitProbeLease) : option ProbeLease :=
  match lease_kind l with ClosedLease _ => None | HalfOpenLease inner => Some inner end.
Definition with_issuer (l : CircuitProbeLease) (issuer : nat) : CircuitProbeLease := l <| lease_issuer := Some issuer |>.
Definition is_issued_by (l : CircuitProbeLease) (issuer : nat) : bool := is_some_and (fun bound => bool_decide (bound = issuer)) (lease_issuer l).
Inductive CircuitProbeAcquisition := ClosedAcquisition (lease : CircuitProbeLease) | HalfOpenAcquisition (lease : CircuitProbeLease).

(** ** Errors *)

Definition map_snapshot_error (_ : AccountCircuitErrorCode) : CircuitProbeErrorCode := Unavailable.
Definition map_acquisition_error (code : AccountCircuitErrorCode) : CircuitProbeErrorCode :=
  match code with
  | AccountMismatch | GenerationConflict | TimestampOutOfOrder | InvalidTransition | RecoveryWindowClosed
  | ProbeLimitReached | LeaseExpired | AdministrativeResetRequired => Rejected
  | _ => Unavailable
  end.
Definition map_completion_error (_ : AccountCircuitErrorCode) : CircuitProbeErrorCode := Unavailable.
Definition is_stale_probe_error (code : AccountCircuitErrorCode) : bool :=
  match code with
  | AccountMismatch | GenerationConflict | InvalidTransition | RecoveryWindowClosed | ProbeLimitReached
  | LeaseConflict | LeaseExpired | AdministrativeResetRequired => true
  | _ => false
  end.

(** ** The registry *)

Record Outside := mk_Outside {
  others : (nat -> Lock CircuitStateData) -> (nat -> Lock CircuitStateData);
  tree : Cancellation.Tree;
  now : N;
  reading : result unit CircuitProbeClockReading;
}.
Record ProbeWorld := mk_ProbeWorld { circuits : nat -> Lock CircuitStateData; tick : nat }.
#[export] Instance ProbeWorld_eta : Eta ProbeWorld := fun w => mk_ProbeWorld (circuits w) (tick w).
Notation probe_act := (act ProbeWorld CircuitProbeErrorCode).

(** A call into a circuit, with its error mapped. *)
Definition on_circuit {A} (c : Circuit) (m : act (Lock CircuitStateData) AccountCircuitErrorCode A)
    : act ProbeWorld AccountCircuitErrorCode A := fun w =>
  let '(l, r) := m (circuits w (circuit_place c)) in (w <| circuits := <[circuit_place c := l]> (circuits w) |>, r).
Definition mapping {A} (f : AccountCircuitErrorCode -> CircuitProbeErrorCode) (m : act ProbeWorld AccountCircuitErrorCode A)
    : probe_act A := fun w =>
  let '(w', r) := m w in (w', match r with Ok a => Ok a | Err e => Err (f e) end).

Definition CircuitProbeRegistry := list CircuitProbeRegistration.
Definition validate_registry_capacity (count : N) : result CircuitProbeRegistryErrorCode unit :=
  reject_if (MAX_CIRCUIT_PROBE_ACCOUNTS <? count) CapacityExceeded.
Definition validate_unique_keys (registrations : list CircuitProbeRegistration) : result CircuitProbeRegistryErrorCode unit :=
  reject_if (adjacent_duplicate reg_key registrations) DuplicateKey.
Definition CircuitProbeRegistry_new (registrations : list CircuitProbeRegistration)
    : result CircuitProbeRegistryErrorCode CircuitProbeRegistry :=
  validate_registry_capacity (len registrations) ;;
  let sorted := sort_by reg_key registrations in
  validate_unique_keys sorted ;;
  mret sorted.
Definition registration (registry : CircuitProbeRegistry) (key : CircuitProbeKey) : result CircuitProbeErrorCode CircuitProbeRegistration :=
  ok_or (binary_search (fun r => cmp (reg_key r) key) registry) Rejected.

Section registry.
  Variable outside : nat -> Outside.
  Variable registry : CircuitProbeRegistry.

(** One point at which the crate looks outside. *)
Definition look {E} : act ProbeWorld E Outside := fun w =>
  let o := outside (tick w) in (mk_ProbeWorld (others o (circuits w)) (S (tick w)), Ok o).
Definition ensure_context_active (context : Cancellation.RequestContext) : probe_act unit :=
  o ← look;
  match Cancellation.check_active_at (tree o) context (now o) with
  | Ok _ => mret tt
  | Err e => fail (match ce_code e with
                   | CoreTypes.Cancelled => Cancelled
                   | CoreTypes.DeadlineExceeded => DeadlineExceeded
                   | _ => Unavailable
                   end)
  end.
Definition observe_clock : probe_act CircuitProbeClockReading :=
  o ← look;
  match reading o with Ok r => mret r | Err _ => fail Unavailable end.

Definition acquire_recovery_probe (key : CircuitProbeKey) (r : CircuitProbeRegistration) (generation : N)
    (context : Cancellation.RequestContext) : probe_act CircuitProbeAcquisition :=
  ensure_context_active context ;;
  reading ← observe_clock;
  ensure_context_active context ;;
  inner ← mapping map_acquisition_error (on_circuit (reg_circuit r)
    (acquire_probe (circuit_account (reg_circuit r)) (circuit_policy (reg_circuit r)) generation (observed_at reading) (monotonic reading)));
  lease ← lift (CircuitProbeLease_new key inner);
  mret (HalfOpenAcquisition (with_issuer lease (reg_issuer r))).

Definition registry_acquire_probe (key : CircuitProbeKey) (context : Cancellation.RequestContext) : probe_act CircuitProbeAcquisition :=
  ensure_context_active context ;;
  r ← lift (registration registry key);
  snapshot ← mapping map_snapshot_error (on_circuit (reg_circuit r) snapshot_value);
  match cs_state snapshot with
  | Closed => mret (ClosedAcquisition (with_issuer (closed key (cs_generation snapshot)) (reg_issuer r)))
  | Open | HalfOpen => acquire_recovery_probe key r (cs_generation snapshot) context
  | Terminal => fail Rejected
  end.

Definition validate_closed_probe (r : CircuitProbeRegistration) (generation : N) : probe_act CircuitProbeValidation :=
  snapshot ← mapping map_snapshot_error (on_circuit (reg_circuit r) snapshot_value);
  mret (if bool_decide (cs_state snapshot = Closed) && (cs_generation snapshot =? generation) then Valid else Invalidated).
(** The match on the circuit's answer. *)
Definition judged (m : act ProbeWorld AccountCircuitErrorCode unit) : probe_act CircuitProbeValidation := fun w =>
  let '(w', result) := m w in
  (w', match result with
       | Ok _ => Ok Valid
       | Err e => if is_stale_probe_error e then Ok Invalidated else Err Unavailable
       end).
Definition validate_half_open_probe (r : CircuitProbeRegistration) (inner : ProbeLease) : probe_act CircuitProbeValidation :=
  reading ← observe_clock;
  judged (on_circuit (reg_circuit r)
    (validate_probe (circuit_account (reg_circuit r)) (circuit_policy (reg_circuit r)) inner (observed_at reading) (monotonic reading))).
Definition validate_registered_probe (lease : CircuitProbeLease) (r : CircuitProbeRegistration) : probe_act CircuitProbeValidation :=
  match lease_kind lease with
  | ClosedLease generation => validate_closed_probe r generation
  | HalfOpenLease inner => validate_half_open_probe r inner
  end.
Definition registry_validate_probe (key : CircuitProbeKey) (lease : CircuitProbeLease) : probe_act CircuitProbeValidation :=
  lift (reject_if (bool_decide (lease_key lease <> key)) Rejected) ;;
  r ← lift (registration registry key);
  lift (reject_if (negb (is_issued_by lease (reg_issuer r))) Rejected) ;;
  validate_registered_probe lease r.

Definition complete_circuit_execution (c : Circuit) (key : CircuitProbeKey) (lease : CircuitProbeLease) (outcome : CircuitOutcome)
    (reading : CircuitProbeClockReading) : probe_act unit :=
  mapping map_completion_error (on_circuit c
    (match lease_kind lease with
     | ClosedLease generation =>
         observe (circuit_account c) (circuit_policy c)
           (mk_CircuitObservation (key_account key) generation (observed_at reading) (monotonic reading) outcome)
     | HalfOpenLease inner =>
         complete_probe (circuit_account c) (circuit_policy c) inner outcome (observed_at reading) (monotonic reading)
     end)) ;;
  mret tt.
Definition registry_complete_probe (key : CircuitProbeKey) (lease : CircuitProbeLease) (outcome : CircuitOutcome) : probe_act unit :=
  lift (reject_if (bool_decide (lease_key lease <> key)) Rejected) ;;
  r ← lift (registration registry key);
  lift (reject_if (negb (is_issued_by lease (reg_issuer r))) Rejected) ;;
  reading ← observe_clock;
  complete_circuit_execution (reg_circuit r) key lease outcome reading.
End registry.

(** ** The port and its guard *)

(** [CircuitProbePort]; [provided_validate] is its provided method. *)
Record CircuitProbePort := mk_CircuitProbePort {
  port_acquire : CircuitProbeKey -> Cancellation.RequestContext -> probe_act CircuitProbeAcquisition;
  port_validate : CircuitProbeKey -> CircuitProbeLease -> probe_act CircuitProbeValidation;
  port_complete : CircuitProbeKey -> CircuitProbeLease -> CircuitOutcome -> probe_act unit;
}.
Definition provided_validate (key : CircuitProbeKey) (lease : CircuitProbeLease) : probe_act CircuitProbeValidation :=
  lift (reject_if (bool_decide (lease_key lease <> key)) Rejected) ;; mret Valid.
Definition registry_port (outside : nat -> Outside) (registry : CircuitProbeRegistry) : CircuitProbePort :=
  mk_CircuitProbePort (registry_acquire_probe outside registry) (registry_validate_probe outside registry)
    (registry_complete_probe outside registry).

Record CircuitProbeGuard := mk_CircuitProbeGuard { guard_lease : option CircuitProbeLease; drop_outcome : CircuitOutcome }.
#[export] Instance CircuitProbeGuard_eta : Eta CircuitProbeGuard := fun g => mk_CircuitProbeGuard (guard_lease g) (drop_outcome g).
Definition CircuitProbeGuard_new (lease : CircuitProbeLease) : CircuitProbeGuard := mk_CircuitProbeGuard (Some lease) Neutral.
Definition arm_retryable_drop (g : CircuitProbeGuard) : CircuitProbeGuard := g <| drop_outcome := RetryableFailure |>.
Definition guard_validate (port : CircuitProbePort) (g : CircuitProbeGuard) : probe_act CircuitProbeValidation :=
  match guard_lease g with
  | None => mret Invalidated
  | Some lease => port_validate port (lease_key lease) lease
  end.
Definition guard_disarm (g : CircuitProbeGuard) : CircuitProbeGuard := g <| guard_lease := None |>.
Definition guard_complete (port : CircuitProbePort) (g : CircuitProbeGuard) (outcome : CircuitOutcome) : probe_act unit :=
  match guard_lease g with
  | None => mret tt
  | Some lease => port_complete port (lease_key lease) lease outcome
  end.
(** [Drop]: completes what the guard still holds and ignores the result. *)
Definition guard_drop (port : CircuitProbePort) (g : CircuitProbeGuard) (w : ProbeWorld) : ProbeWorld :=
  match guard_lease g with
  | None => w
  | Some lease => (port_complete port (lease_key lease) lease (drop_outcome g) w).1
  end.

(** ** Specification *)

(** Other threads run any operations of the circuit of a registration. *)
Definition others_use (r : CircuitProbeRegistration) (outside : nat -> Outside) : Prop := forall k h,
  rtc (circuit_step (circuit_account (reg_circuit r)) (circuit_policy (reg_circuit r)))
    (lock_data (h (circuit_place (reg_circuit r)))) (lock_data (others (outside k) h (circuit_place (reg_circuit r)))).
(** The state of the circuit of a registration. *)
Definition circuit_of (r : CircuitProbeRegistration) (w : ProbeWorld) : CircuitStateData := lock_data (circuits w (circuit_place (reg_circuit r))).

(** A sample registry of one circuit, half open with one probe out. *)
Definition sample_key : CircuitProbeKey := mk_CircuitProbeKey (MkId "t") sample_account 1 1.
Definition sample_registration : CircuitProbeRegistration :=
  mk_CircuitProbeRegistration sample_key (mk_Circuit sample_account sample_policy 0) 7.
Definition sample_outside (k : nat) : Outside :=
  mk_Outside (fun h => h) (Cancellation.mk_Tree [] []) 0 (Ok (mk_CircuitProbeClockReading 1030 60)).
Definition sample_probe_lease : CircuitProbeLease := mk_CircuitProbeLease sample_key (HalfOpenLease sample_lease) (Some 7%nat).
Definition sample_probe_world : ProbeWorld := mk_ProbeWorld (fun _ => mk_lock false sample_half_open) 0.

(** ** Lemmas *)

#[export] Instance CircuitProbeKey_ord_laws : OrdLaws CircuitProbeKey.
Proof.
  assert (forall x y, key_fields x = key_fields y -> x = y) as Hinj by (intros [] []; unfold key_fields; cbn; congruence).
  split.
  - intros x y. change (cmp (key_fields x) (key_fields y) = Eq <-> x = y). rewrite cmp_eq_iff. split; [apply Hinj|congruence].
  - intros x y. exact (cmp_opp (key_fields x) (key_fields y)).
  - intros x y z. exact (cmp_lt_trans (key_fields x) (key_fields y) (key_fields z)).
Qed.

(** The registry of a list of registrations: accepted when small and of distinct keys. *)
Lemma probe_registry_new_Ok regs registry : CircuitProbeRegistry_new regs = Ok registry <->
  registry = sort_by reg_key regs /\ len regs <= MAX_CIRCUIT_PROBE_ACCOUNTS /\ NoDup (reg_key <$> regs).
Proof.
  unfold CircuitProbeRegistry_new, validate_registry_capacity, validate_unique_keys. cbv zeta. split.
  - intros H. run_steps. tidy. split_and!; [done|done|]. by apply (proj1 (adjacent_duplicate_perm reg_key regs)).
  - intros (-> & Hl & Hnd). rewrite (proj2 (N.ltb_ge _ _)) by done. apply (proj2 (adjacent_duplicate_perm reg_key regs)) in Hnd. by rewrite Hnd.
Qed.
(** A lookup by bisection finds exactly the registration of the key. *)
Lemma registration_Ok regs registry key r : CircuitProbeRegistry_new regs = Ok registry ->
  registration registry key = Ok r <-> r ∈ regs /\ reg_key r = key.
Proof.
  intros (-> & _ & Hnd)%probe_registry_new_Ok. unfold registration. rewrite ok_or_Ok, binary_search_spec.
  - by rewrite sort_by_Permutation.
  - apply sorted_NoDup_strict; [apply sort_by_sorted|]. by rewrite sort_by_Permutation.
Qed.
Lemma registration_Err registry key e : registration registry key = Err e -> e = Rejected.
Proof. unfold registration. by intros [_ ->]%ok_or_Err. Qed.

(** What one look does to the circuits. *)
Lemma look_run {E} outside w : look (E := E) outside w =
  (mk_ProbeWorld (others (outside (tick w)) (circuits w)) (S (tick w)), Ok (outside (tick w))).
Proof. done. Qed.
Lemma observe_clock_run outside w : observe_clock outside w =
  (mk_ProbeWorld (others (outside (tick w)) (circuits w)) (S (tick w)),
   match reading (outside (tick w)) with Ok r => Ok r | Err _ => Err Unavailable end).
Proof. unfold observe_clock, mbind, act_bind. rewrite look_run. by destruct (reading _). Qed.

(** A lease of another issuer, key or registry. *)
Lemma foreign_lease outside registry key lease : lease_key lease <> key \/ (forall r, registration registry key = Ok r -> is_issued_by lease (reg_issuer r) = false) ->
  forall outcome w, registry_validate_probe outside registry key lease w = (w, Err Rejected) /\
    registry_complete_probe outside registry key lease outcome w = (w, Err Rejected).
Proof.
  intros Hf outcome w. unfold registry_validate_probe, registry_complete_probe, mbind, act_bind, lift.
  destruct (decide (lease_key lease = key)) as [Hk|Hk].
  2: { by rewrite bool_decide_eq_true_2. }
  rewrite bool_decide_eq_false_2 by (intros H; by apply H). cbn [reject_if].
  destruct (registration registry key) as [r|e] eqn:Hr.
  - destruct Hf as [Hf|Hf]; [done|]. rewrite (Hf r eq_refl). done.
  - by apply registration_Err in Hr as ->.
Qed.

Section spent_leases.
  Context (outside : nat -> Outside) (regs : list CircuitProbeRegistration) (registry : CircuitProbeRegistry).
  Context (r : CircuitProbeRegistration) (inner : ProbeLease).
  Hypothesis Hreg : CircuitProbeRegistry_new regs = Ok registry.
  Hypothesis Hr : r ∈ regs.
  Hypothesis Hothers : others_use r outside.
  Notation account := (circuit_account (reg_circuit r)).
  Notation policy := (circuit_policy (reg_circuit r)).

Lemma registered : registration registry (reg_key r) = Ok r.
Proof. by apply (registration_Ok regs). Qed.

(** Completing a half-open lease that the registration issued is completing it in the circuit. *)
Lemma complete_run lease outcome w : lease_key lease = reg_key r -> lease_kind lease = HalfOpenLease inner ->
  is_issued_by lease (reg_issuer r) = true ->
  registry_complete_probe outside registry (reg_key r) lease outcome w =
    let o := outside (tick w) in
    let h := others o (circuits w) in
    match reading o with
    | Err _ => (mk_ProbeWorld h (S (tick w)), Err Unavailable)
    | Ok rd =>
        let '(l, res) := complete_probe account policy inner outcome (observed_at rd) (monotonic rd) (h (circuit_place (reg_circuit r))) in
        (mk_ProbeWorld (<[circuit_place (reg_circuit r) := l]> h) (S (tick w)),
         match res with Ok _ => Ok tt | Err _ => Err Unavailable end)
    end.
Proof.
  intros Hk Hkind Hi. unfold registry_complete_probe, mbind, act_bind, lift.
  rewrite bool_decide_eq_false_2 by (intros H; by apply H). cbn [reject_if]. rewrite registered, Hi. cbn [negb reject_if].
  rewrite observe_clock_run. cbv zeta. destruct (reading (outside (tick w))) as [rd|]; [|done].
  unfold complete_circuit_execution, mbind, act_bind, mapping, on_circuit. rewrite Hkind. cbn [circuits].
  destruct (complete_probe _ _ _ _ _ _ _) as [l [?|?]]; done.
Qed.
Lemma validate_run lease w : lease_key lease = reg_key r -> lease_kind lease = HalfOpenLease inner ->
  is_issued_by lease (reg_issuer r) = true ->
  registry_validate_probe outside registry (reg_key r) lease w =
    let o := outside (tick w) in
    let h := others o (circuits w) in
    match reading o with
    | Err _ => (mk_ProbeWorld h (S (tick w)), Err Unavailable)
    | Ok rd =>
        let '(l, res) := validate_probe account policy inner (observed_at rd) (monotonic rd) (h (circuit_place (reg_circuit r))) in
        (mk_ProbeWorld (<[circuit_place (reg_circuit r) := l]> h) (S (tick w)),
         match res with Ok _ => Ok Valid | Err e => if is_stale_probe_error e then Ok Invalidated else Err Unavailable end)
    end.
Proof.
  intros Hk Hkind Hi. unfold registry_validate_probe, mbind, act_bind, lift.
  rewrite bool_decide_eq_false_2 by (intros H; by apply H). cbn [reject_if]. rewrite registered, Hi. cbn [negb reject_if].
  unfold validate_registered_probe. rewrite Hkind. unfold validate_half_open_probe, mbind, act_bind.
  rewrite observe_clock_run. cbv zeta. destruct (reading (outside (tick w))) as [rd|]; [|done].
  unfold judged, on_circuit. cbn [circuits].
  destruct (validate_probe _ _ _ _ _ _) as [l [?|?]]; done.
Qed.

(** A completion that succeeded spends the lease in the circuit. *)
Lemma complete_probe_spends (l l' : Lock CircuitStateData) outcome t m s :
  circuit_inv account policy (lock_data l) -> complete_probe account policy inner outcome t m l = (l', Ok s) ->
  spent (pl_id inner) (lock_data l').
Proof.
  intros Hinv Hrun. unfold complete_probe in Hrun. apply locked_inv in Hrun as [[_ ?]|(s' & Hrun & -> & _)]; [done|].
  by eapply complete_spends.
Qed.
Lemma complete_probe_spent (l : Lock CircuitStateData) outcome t m :
  spent (pl_id inner) (lock_data l) -> exists e, (complete_probe account policy inner outcome t m l).2 = Err e.
Proof.
  intros Hs. destruct l as [[|] st]; [by eexists|]. unfold complete_probe. rewrite locked_run. cbn [snd].
  unfold complete_probe_body, get, mbind, act_bind, lift.
  destruct (validate_lease_request st account inner t m) as [index|e] eqn:E; [by apply spent_refused in E|by eexists].
Qed.
Lemma validate_probe_spent (l : Lock CircuitStateData) t m :
  spent (pl_id inner) (lock_data l) -> exists e, (validate_probe account policy inner t m l).2 = Err e.
Proof.
  intros Hs. destruct l as [[|] st]; [by eexists|]. unfold validate_probe. rewrite locked_run. cbn [snd].
  unfold validate_probe_body, get, mbind, act_bind, lift.
  destruct (validate_lease_request st account inner t m) as [index|e] eqn:E; [by apply spent_refused in E|by eexists].
Qed.
End spent_leases.

Lemma circuit_step_inv account policy st st' : circuit_inv account policy st -> rtc (circuit_step account policy) st st' ->
  CircuitPolicy_wf policy -> circuit_inv account policy st'.
Proof.
  intros Hi Hr Hwf. refine (rtc_invariant _ (circuit_inv account policy) _ _ _ Hr Hi).
  intros x y Hx [request <-]. eauto using effect_preserves, serve_effect.
Qed.

(** ** Theorems *)

(** C27: A probe lease is honoured once.  When the registry completed a half-open lease
    that it had issued, then however other threads use the circuit afterwards, the lease
    never validates again and no completion of it is ever accepted, whatever outcome it
    reports; neither is a lease of another issuer or key, which is refused before any clock
    is read or circuit touched. *)
Theorem probe_lease_honoured_once outside regs registry r inner lease outcome w w1 w2
    (Hreg : CircuitProbeRegistry_new regs = Ok registry) (Hr : r ∈ regs)
    (Hpolicy : CircuitPolicy_wf (circuit_policy (reg_circuit r)))
    (Hothers : others_use r outside)
    (Hcircuit : circuit_inv (circuit_account (reg_circuit r)) (circuit_policy (reg_circuit r)) (circuit_of r w))
    (Hkey : lease_key lease = reg_key r) (Hkind : lease_kind lease = HalfOpenLease inner)
    (Hcomplete : registry_complete_probe outside registry (reg_key r) lease outcome w = (w1, Ok tt))
    (Hlater : rtc (circuit_step (circuit_account (reg_circuit r)) (circuit_policy (reg_circuit r))) (circuit_of r w1) (circuit_of r w2)) :
  (registry_validate_probe outside registry (reg_key r) lease w2).2 <> Ok Valid /\
  (forall outcome', exists e, (registry_complete_probe outside registry (reg_key r) lease outcome' w2).2 = Err e) /\
  (forall forged outcome', lease_key forged <> reg_key r \/ lease_issuer forged <> Some (reg_issuer r) ->
    registry_validate_probe outside registry (reg_key r) forged w2 = (w2, Err Rejected) /\
    registry_complete_probe outside registry (reg_key r) forged outcome' w2 = (w2, Err Rejected)).
Proof.
  pose proof (registered regs registry r Hreg Hr) as Hfind.
  assert (forall forged outcome' w', lease_key forged <> reg_key r \/ lease_issuer forged <> Some (reg_issuer r) ->
    registry_validate_probe outside registry (reg_key r) forged w' = (w', Err Rejected) /\
    registry_complete_probe outside registry (reg_key r) forged outcome' w' = (w', Err Rejected)) as Hforeign.
  { intros forged outcome' w' Hf. apply foreign_lease. destruct Hf as [Hf|Hf]; [by left|right].
    rewrite Hfind. intros r' [= <-]. unfold is_issued_by. destruct (lease_issuer forged); [|done]. cbn.
    apply bool_decide_eq_false_2. congruence. }
  assert (is_issued_by lease (reg_issuer r) = true) as Hi.
  { unfold is_issued_by. destruct (decide (lease_issuer lease = Some (reg_issuer r))) as [->|Hn]; [by apply bool_decide_eq_true_2|].
    rewrite (proj2 (Hforeign lease outcome w (or_intror Hn))) in Hcomplete. done. }
  rewrite (complete_run outside regs registry r inner Hreg Hr) in Hcomplete by done. cbv zeta in Hcomplete.
  destruct (reading (outside (tick w))) as [rd|]; [|done].
  destruct (complete_probe _ _ _ _ _ _ _) as [l [s|e]] eqn:Hrun in Hcomplete; [|done]. injection Hcomplete as <-.
  assert (spent (pl_id inner) (circuit_of r w2)) as Hs.
  { eapply spent_reachable; [|exact Hlater]. unfold circuit_of. cbn [circuits]. rewrite fn_lookup_insert.
    eapply complete_probe_spends; [|exact Hrun]. eapply circuit_step_inv; [exact Hcircuit|apply Hothers|done]. }
  assert (spent (pl_id inner) (lock_data (others (outside (tick w2)) (circuits w2) (circuit_place (reg_circuit r))))) as Hs'.
  { eapply spent_reachable; [exact Hs|apply Hothers]. }
  clear Hrun. split_and!; [| |intros; by apply Hforeign].
  - rewrite (validate_run outside regs registry r inner Hreg Hr) by done. cbv zeta.
    destruct (reading (outside (tick w2))) as [rd'|]; [|done].
    destruct (validate_probe_spent r inner _ (observed_at rd') (monotonic rd') Hs') as [e He].
    destruct (validate_probe _ _ _ _ _ _) as [l' res]. cbn in He. subst res. cbn. by destruct (is_stale_probe_error e).
  - intros outcome'. rewrite (complete_run outside regs registry r inner Hreg Hr) by done. cbv zeta.
    destruct (reading (outside (tick w2))) as [rd'|]; [|by eexists].
    destruct (complete_probe_spent r inner _ outcome' (observed_at rd') (monotonic rd') Hs') as [e He].
    destruct (complete_probe _ _ _ _ _ _ _) as [l' res]. cbn in He. subst res. by eexists.
Qed.
Lemma probe_lease_honoured_once_witness :
  (registry_validate_probe sample_outside [sample_registration] sample_key sample_probe_lease
    (registry_complete_probe sample_outside [sample_registration] sample_key sample_probe_lease Success sample_probe_world).1).2 <> Ok Valid.
Proof.
  destruct (probe_lease_honoured_once sample_outside [sample_registration] [sample_registration] sample_registration sample_lease
    sample_probe_lease Success sample_probe_world
    (registry_complete_probe sample_outside [sample_registration] sample_key sample_probe_lease Success sample_probe_world).1
    (registry_complete_probe sample_outside [sample_registration] sample_key sample_probe_lease Success sample_probe_world).1)
    as (H & _); [..|exact H].
  - reflexivity.
  - left.
  - exact sample_policy_wf.
  - intros k h. apply rtc_refl.
  - apply circuit_reachable_inv; [exact sample_policy_wf|]. apply serve_all_reachable.
  - reflexivity.
  - reflexivity.
  - vm_compute. reflexivity.
  - apply rtc_refl.
Defined.
