(* ===== verification/RuntimeExecution.v ===== *)
(** * The routing runtime: requests, outcomes and checks

    Models, of [crates/optional/ariadnion-routing-runtime/src], the stable errors
    ([error_code.rs], [lib.rs]), the contract with the executor of a request and its outcomes
    ([execution.rs]), attempt schedules ([lib.rs]) and the checks and error maps the runtime
    makes between its ports ([runtime_support.rs]).  The runtime itself is [RoutingRuntime]. *)

From S2P Require Import Prelude CoreTypes.
From S2P Require AccountDomain AccountVault AccountPool AccountProxy AccountCircuit ImportPort ModelCatalog ModelDomain.
From S2P Require ModelPricing AccountAffinity RateLimit RoutingFailover RoutingUsage RoutingAdmission RouteSelection RoutingCoordinator Cancellation CircuitProbe.
#[local] Open Scope N_scope.
#[local] Existing Instances RoutingFailover.StreamCommitment_eq_dec AccountVault.SecretRef_eq_dec
  ImportPort.AccountCredentialReference_eq_dec.

Definition MAX_RUNTIME_ATTEMPTS : N := RoutingFailover.MAX_ATTEMPTS.

(** ** Errors ([lib.rs], [error_code.rs]) *)

Inductive RoutingRuntimeErrorCode :=
| InvalidArgument | DuplicateAttempt | Unauthenticated | TenantMismatch | Cancelled | DeadlineExceeded
| ProjectionUnavailable | PoolUnavailable | ModelUnavailable | MonotonicClockUnavailable | CoordinationFailed
| UnsupportedProxyProfile | CredentialUnavailable | CredentialMismatch | VaultUnavailable | InvalidLease
| InvalidExecutionOutcome | CircuitProbeUnavailable | CircuitProbeFinalizeFailed | AdmissionFinalizeFailed
| AttemptsExhausted | InvariantViolation.
#[export] Instance RoutingRuntimeErrorCode_eq_dec : EqDecision RoutingRuntimeErrorCode.
Proof. solve_decision. Defined.
Definition request_error_code (code : RoutingRuntimeErrorCode) : option string :=
  match code with
  | InvalidArgument => Some "ROUTING_RUNTIME_INVALID_ARGUMENT"
  | DuplicateAttempt => Some "ROUTING_RUNTIME_DUPLICATE_ATTEMPT"
  | Unauthenticated => Some "ROUTING_RUNTIME_UNAUTHENTICATED"
  | TenantMismatch => Some "ROUTING_RUNTIME_TENANT_MISMATCH"
  | Cancelled => Some "ROUTING_RUNTIME_CANCELLED"
  | DeadlineExceeded => Some "ROUTING_RUNTIME_DEADLINE_EXCEEDED"
  | _ => None
  end%string.
Definition state_error_code (code : RoutingRuntimeErrorCode) : option string :=
  match code with
  | ProjectionUnavailable => Some "ROUTING_RUNTIME_PROJECTION_UNAVAILABLE"
  | PoolUnavailable => Some "ROUTING_RUNTIME_POOL_UNAVAILABLE"
  | ModelUnavailable => Some "ROUTING_RUNTIME_MODEL_UNAVAILABLE"
  | MonotonicClockUnavailable => Some "ROUTING_RUNTIME_MONOTONIC_CLOCK_UNAVAILABLE"
  | CoordinationFailed => Some "ROUTING_RUNTIME_COORDINATION_FAILED"
  | UnsupportedProxyProfile => Some "ROUTING_RUNTIME_UNSUPPORTED_PROXY_PROFILE"
  | _ => None
  end%string.
Definition adapter_error_code (code : RoutingRuntimeErrorCode) : option string :=
  match code with
  | CredentialUnavailable => Some "ROUTING_RUNTIME_CREDENTIAL_UNAVAILABLE"
  | CredentialMismatch => Some "ROUTING_RUNTIME_CREDENTIAL_MISMATCH"
  | VaultUnavailable => Some "ROUTING_RUNTIME_VAULT_UNAVAILABLE"
  | CircuitProbeUnavailable => Some "ROUTING_RUNTIME_CIRCUIT_PROBE_UNAVAILABLE"
  | _ => None
  end%string.
Definition execution_error_code (code : RoutingRuntimeErrorCode) : string :=
  match code with
  | InvalidLease => "ROUTING_RUNTIME_INVALID_LEASE"
  | InvalidExecutionOutcome => "ROUTING_RUNTIME_INVALID_EXECUTION_OUTCOME"
  | AdmissionFinalizeFailed => "ROUTING_RUNTIME_ADMISSION_FINALIZE_FAILED"
  | CircuitProbeFinalizeFailed => "ROUTING_RUNTIME_CIRCUIT_PROBE_FINALIZE_FAILED"
  | AttemptsExhausted => "ROUTING_RUNTIME_ATTEMPTS_EXHAUSTED"
  | _ => "ROUTING_RUNTIME_INVARIANT_VIOLATION"
  end.
Definition as_str (code : RoutingRuntimeErrorCode) : string :=
  match request_error_code code with
  | Some text => text
  | None => match state_error_code code with
            | Some text => text
            | None => match adapter_error_code code with Some text => text | None => execution_error_code code end
            end
  end.

(** ** Attempts and their evidence ([execution.rs]) *)

Record PhysicalAttemptIdentity := mk_PhysicalAttemptIdentity {
  usage_confirmation : RoutingUsage.UsageConfirmationId;
  identity_candidate : RoutingFailover.CandidateKey;
  identity_provider : ProviderId;
  identity_model : ModelDomain.ProviderModelId;
  identity_proxy : option AccountProxy.AccountProxyProfile;
}.
Record RoutingRuntimeError := mk_RoutingRuntimeError { error_code : RoutingRuntimeErrorCode; error_accepted : list PhysicalAttemptIdentity }.
Definition runtime_error (code : RoutingRuntimeErrorCode) : RoutingRuntimeError := mk_RoutingRuntimeError code [].
(** [usage_confirmation_id]: that of the last attempt that was accepted. *)
Definition error_usage_confirmation (e : RoutingRuntimeError) : option RoutingUsage.UsageConfirmationId :=
  usage_confirmation <$> last (error_accepted e).
Definition with_accepted (e : RoutingRuntimeError) (identity : PhysicalAttemptIdentity) : RoutingRuntimeError :=
  mk_RoutingRuntimeError (error_code e) (error_accepted e ++ [identity]).
Definition prepend_accepted (e : RoutingRuntimeError) (prior : list PhysicalAttemptIdentity) : RoutingRuntimeError :=
  match prior with [] => e | _ => mk_RoutingRuntimeError (error_code e) (prior ++ error_accepted e) end.
Definition with_optional_accepted (e : RoutingRuntimeError) (accepted : option PhysicalAttemptIdentity) : RoutingRuntimeError :=
  match accepted with Some identity => with_accepted e identity | None => e end.
Notation outcome := (result RoutingRuntimeError).
(** A guard that fails with a code and no evidence, and a port's answer. *)
Definition fail_if (b : bool) (code : RoutingRuntimeErrorCode) : outcome unit := reject_if b (runtime_error code).
Definition or_code {A} (o : option A) (code : RoutingRuntimeErrorCode) : outcome A := ok_or o (runtime_error code).
Definition or_map {E A} (r : result E A) (f : E -> RoutingRuntimeErrorCode) : outcome A :=
  match r with Ok a => Ok a | Err e => Err (runtime_error (f e)) end.

Inductive PhysicalExecutionAcceptance := NotAccepted | Accepted.
#[export] Instance PhysicalExecutionAcceptance_eq_dec : EqDecision PhysicalExecutionAcceptance.
Proof. solve_decision. Defined.
Inductive ProviderExecutionInterruption := InterruptedByCancellation | InterruptedByDeadline.
Definition runtime_error_code (i : ProviderExecutionInterruption) : RoutingRuntimeErrorCode :=
  match i with InterruptedByCancellation => Cancelled | InterruptedByDeadline => DeadlineExceeded end.
Inductive ProviderExecutionOutcome :=
| OutcomeAccepted (commitment : RoutingFailover.StreamCommitment)
| OutcomeFailed (acceptance : PhysicalExecutionAcceptance) (commitment : RoutingFailover.StreamCommitment)
    (failure : RoutingFailover.FailureClass)
| OutcomeInterrupted (acceptance : PhysicalExecutionAcceptance) (commitment : RoutingFailover.StreamCommitment)
    (interruption : ProviderExecutionInterruption).
Definition validate_disposition (acceptance : PhysicalExecutionAcceptance) (commitment : RoutingFailover.StreamCommitment) : outcome unit :=
  fail_if (bool_decide (acceptance = NotAccepted) && bool_decide (commitment = RoutingFailover.FirstByteSent)) InvalidExecutionOutcome.
Definition failed (acceptance : PhysicalExecutionAcceptance) (commitment : RoutingFailover.StreamCommitment)
    (failure : RoutingFailover.FailureClass) : outcome ProviderExecutionOutcome :=
  validate_disposition acceptance commitment ;; mret (OutcomeFailed acceptance commitment failure).
Definition interrupted (acceptance : PhysicalExecutionAcceptance) (commitment : RoutingFailover.StreamCommitment)
    (interruption : ProviderExecutionInterruption) : outcome ProviderExecutionOutcome :=
  validate_disposition acceptance commitment ;; mret (OutcomeInterrupted acceptance commitment interruption).

(** Proxies the provider client supports: none, direct, or plain HTTP without credentials. *)
Definition validate_execution_proxy (profile : option AccountProxy.AccountProxyProfile) : outcome unit :=
  match profile with
  | None => mret tt
  | Some profile =>
      let endpoint := AccountProxy.endpoint profile in
      let supported := negb (bool_decide (is_Some (AccountProxy.authentication profile))) &&
        (AccountProxy.is_direct endpoint ||
         match endpoint with AccountProxy.Proxy AccountProxy.Http _ _ => true | _ => false end) in
      fail_if (negb supported) UnsupportedProxyProfile
  end.

Record ProviderExecutionRequest := mk_ProviderExecutionRequest {
  request_candidate : RoutingFailover.CandidateKey;
  request_account : AccountId;
  request_provider : ProviderId;
  request_model : ModelDomain.ProviderModelId;
  request_proxy : option AccountProxy.AccountProxyProfile;
  request_usage : RoutingUsage.UsageConfirmationId;
  request_credential : AccountVault.SecretLease;
}.
Record RuntimeSuccess := mk_RuntimeSuccess {
  final_attempt : PhysicalAttemptIdentity; success_accepted : list PhysicalAttemptIdentity;
  success_commitment : RoutingFailover.StreamCommitment;
}.
Inductive RuntimeFailureReason := FailoverStopped | ReasonAttemptsExhausted.
Record RuntimeFailure := mk_RuntimeFailure {
  failure_reason : RuntimeFailureReason; failure_class : RoutingFailover.FailureClass;
  failure_commitment : RoutingFailover.StreamCommitment; failure_accepted : list PhysicalAttemptIdentity;
}.
Inductive RuntimeOutcome := Succeeded (s : RuntimeSuccess) | Failed (f : RuntimeFailure).

(** ** Schedules and requests ([lib.rs]) *)

Definition RuntimeAttempt := Id AttemptKind.
Definition AttemptSchedule := list RuntimeAttempt.
Definition AttemptSchedule_new (attempts : list RuntimeAttempt) : outcome AttemptSchedule :=
  fail_if ((len attempts =? 0) || (MAX_RUNTIME_ATTEMPTS <? len attempts)) InvalidArgument ;;
  fail_if (negb (all_fresh (fun attempt => attempt) [] attempts)) DuplicateAttempt ;;
  mret attempts.
(** [windows(2).any(..)]: some neighbours are of different scopes. *)
Fixpoint scopes_differ (requests : list RouteSelection.CoordinationRequest) : bool :=
  match requests with
  | x :: ((y :: _) as requests') => negb (RouteSelection.has_same_routing_scope x y) || scopes_differ requests'
  | _ => false
  end.
(** The executor of a request is the [outside] of [RoutingRuntime]. *)
Record RuntimeRequest := mk_RuntimeRequest { schedule : AttemptSchedule; coordination : list RouteSelection.CoordinationRequest }.
Definition RuntimeRequest_new (s : AttemptSchedule) (requests : list RouteSelection.CoordinationRequest) : outcome RuntimeRequest :=
  fail_if (negb (len requests =? len s)) InvalidArgument ;;
  fail_if (scopes_differ requests) InvalidArgument ;;
  mret (mk_RuntimeRequest s requests).
Record RuntimeSignals := mk_RuntimeSignals {
  signal_pricing : RouteSelection.OptionalSnapshot (list ModelPricing.ModelPricingSchedule);
  signal_eligibility : RouteSelection.EligibilitySnapshots;
  signal_affinity : RouteSelection.OptionalSnapshot AccountAffinity.AffinitySnapshot;
}.
Definition snapshots (s : RuntimeSignals) (pool : AccountPool.CandidateSnapshot) (models : ModelCatalog.ModelCatalogSnapshot)
    : RouteSelection.CoordinationSnapshots :=
  RouteSelection.mk_CoordinationSnapshots pool models (signal_pricing s) (signal_eligibility s) (signal_affinity s).

(** ** Checks between the ports ([runtime_support.rs]) *)

Record LoadedState := mk_LoadedState {
  loaded_tenant : TenantId;
  loaded_projection : AccountPool.AccountProjectionSnapshot;
  loaded_pool : AccountPool.CandidateSnapshot;
  loaded_models : ModelCatalog.ModelCatalogSnapshot;
}.
Record OwnedTarget := mk_OwnedTarget {
  target_account : AccountId; target_provider : ProviderId; target_config_version : N; target_generation : N;
}.

Definition validate_projection (projection : AccountPool.AccountProjectionSnapshot) (tenant : TenantId) (generation : N) : outcome unit :=
  fail_if (negb (AccountPool.projection_generation projection =? generation)) ProjectionUnavailable ;;
  fail_if (existsb (fun a => bool_decide (AccountPool.durable_tenant_id a <> tenant)) (AccountPool.accounts projection)) TenantMismatch.
Definition pool_generation (pool : AccountPool.CandidateSnapshot) : outcome N :=
  fail_if (negb (AccountPool.snapshot_id pool =? AccountPool.snapshot_version pool)) PoolUnavailable ;;
  mret (AccountPool.snapshot_version pool).
Definition find_candidate (pool : AccountPool.CandidateSnapshot) (key : RoutingFailover.CandidateKey) : outcome AccountPool.CandidateMetadata :=
  or_code (List.find (fun c => String.eqb (AccountPool.id c) (id_str key)) (AccountPool.candidates pool)) InvariantViolation.
Definition validate_candidate_binding (c : AccountPool.CandidateMetadata) (route : RoutingCoordinator.CoordinatedRoute) (tenant : TenantId)
    : outcome unit :=
  fail_if (bool_decide (AccountPool.account_id c <> RoutingCoordinator.selected_account route) ||
    bool_decide (AccountPool.tenant_id c <> Some tenant)) TenantMismatch.
Definition validate_projection_binding (c : AccountPool.CandidateMetadata) (projection : AccountPool.AccountProjectionSnapshot)
    (tenant : TenantId) : outcome (N * N) :=
  row ← or_code (List.find (fun row => bool_decide (AccountPool.durable_account_id row = AccountPool.account_id c))
          (AccountPool.accounts projection)) InvariantViolation;
  fail_if (bool_decide (AccountPool.durable_provider_id row <> AccountPool.provider_id c) ||
    bool_decide (AccountPool.durable_tenant_id row <> tenant)) InvariantViolation ;;
  version ← or_map (AccountDomain.version_new (AccountPool.durable_config_version row)) (fun _ => InvariantViolation);
  mret (version, AccountPool.import_generation row).
Definition validate_provider_model (c : AccountPool.CandidateMetadata) (route : RoutingCoordinator.CoordinatedRoute) : outcome unit :=
  model ← or_code (AccountPool.model c) InvariantViolation;
  fail_if (negb (String.eqb model (RoutingCoordinator.route_model route))) InvariantViolation.
Definition validate_route_target (route : RoutingCoordinator.CoordinatedRoute) (loaded : LoadedState) : outcome OwnedTarget :=
  c ← find_candidate (loaded_pool loaded) (RoutingCoordinator.selected_candidate route);
  validate_candidate_binding c route (loaded_tenant loaded) ;;
  '(config_version, generation) ← validate_projection_binding c (loaded_projection loaded) (loaded_tenant loaded);
  validate_provider_model c route ;;
  mret (mk_OwnedTarget (AccountPool.account_id c) (AccountPool.provider_id c) config_version generation).
Definition circuit_probe_key (target : OwnedTarget) (loaded : LoadedState) : CircuitProbe.CircuitProbeKey :=
  CircuitProbe.mk_CircuitProbeKey (loaded_tenant loaded) (target_account target) (target_config_version target) (target_generation target).

Definition map_projection_error (code : ImportPort.ImportPortErrorCode) : RoutingRuntimeErrorCode :=
  match code with
  | ImportPort.Unauthenticated => Unauthenticated
  | ImportPort.Cancelled => Cancelled
  | ImportPort.DeadlineExceeded => DeadlineExceeded
  | _ => ProjectionUnavailable
  end.
Definition map_credential_error (code : ImportPort.ImportPortErrorCode) : RoutingRuntimeErrorCode :=
  match code with
  | ImportPort.Unauthenticated => Unauthenticated
  | ImportPort.Cancelled => Cancelled
  | ImportPort.DeadlineExceeded => DeadlineExceeded
  | _ => CredentialUnavailable
  end.
Definition map_vault_error (code : AccountVault.VaultErrorCode) : RoutingRuntimeErrorCode :=
  match code with
  | AccountVault.Cancelled => Cancelled
  | AccountVault.DeadlineExceeded => DeadlineExceeded
  | _ => VaultUnavailable
  end.
Definition map_circuit_probe_acquire_error (code : CircuitProbe.CircuitProbeErrorCode) : RoutingRuntimeErrorCode :=
  match code with
  | CircuitProbe.Cancelled => Cancelled
  | CircuitProbe.DeadlineExceeded => DeadlineExceeded
  | CircuitProbe.Unavailable | CircuitProbe.Rejected => CircuitProbeUnavailable
  end.

Definition validate_credential_identity (request : ImportPort.AccountCredentialReferenceRequest)
    (resolved : ImportPort.AccountCredentialReference) (tenant : TenantId) : outcome unit :=
  fail_if (bool_decide (ImportPort.reference_tenant resolved <> tenant) ||
    bool_decide (ImportPort.reference_account resolved <> ImportPort.request_account request) ||
    bool_decide (ImportPort.reference_provider resolved <> ImportPort.request_provider request) ||
    negb (ImportPort.reference_config_version resolved =? ImportPort.request_config_version request)) CredentialMismatch.
Definition validate_credential_scope (request : ImportPort.AccountCredentialReferenceRequest)
    (resolved : ImportPort.AccountCredentialReference) : outcome unit :=
  fail_if (negb (String.eqb (ImportPort.reference_purpose resolved) (ImportPort.request_purpose request)) ||
    negb (ImportPort.reference_generation resolved =? ImportPort.request_generation request) ||
    negb (String.eqb (AccountDomain.secret_purpose (ImportPort.reference_secret resolved)) (ImportPort.request_purpose request)))
    CredentialMismatch.
Definition validate_credential (request : ImportPort.AccountCredentialReferenceRequest)
    (resolved : ImportPort.AccountCredentialReference) (tenant : TenantId) : outcome unit :=
  validate_credential_identity request resolved tenant ;; validate_credential_scope request resolved.
Definition validate_revalidated_credential (expected current : ImportPort.AccountCredentialReference) : outcome unit :=
  fail_if (bool_decide (current <> expected)) CredentialMismatch.
Definition validate_lease (lease : AccountVault.SecretLease) (resolved : ImportPort.AccountCredentialReference)
    (module : ModuleId) (purpose : string) (now : Z) : outcome unit :=
  fail_if (bool_decide (AccountVault.lease_reference lease <> ImportPort.reference_secret resolved) ||
    bool_decide (AccountVault.lease_module lease <> module) ||
    negb (String.eqb (AccountDomain.secret_purpose (AccountVault.lease_reference lease)) purpose) ||
    negb (AccountVault.is_valid_at lease now)) InvalidLease.
Definition validate_usage_binding (identity : RoutingUsage.UsageConfirmationId) (tenant : TenantId)
    (context : Cancellation.RequestContext) : outcome unit :=
  fail_if (bool_decide (RoutingUsage.tenant identity <> tenant) ||
    bool_decide (RoutingUsage.request identity <> Cancellation.request_id context)) InvariantViolation.

Definition contradictory_acceptance (acceptance : PhysicalExecutionAcceptance) (commitment : RoutingFailover.StreamCommitment) : bool :=
  match acceptance, commitment with NotAccepted, RoutingFailover.FirstByteSent => true | _, _ => false end.
Definition combine_finalizations {T} (admission : outcome T) (probe : outcome unit) (accepted : option PhysicalAttemptIdentity) : outcome T :=
  value ← admission;
  match probe with
  | Ok _ => Ok value
  | Err e => Err (with_optional_accepted e accepted)
  end.
Definition circuit_failure_outcome (failure : RoutingFailover.FailureClass) : AccountCircuit.CircuitOutcome :=
  match failure with
  | RoutingFailover.Authentication => AccountCircuit.TerminalFailure
  | RoutingFailover.Transport | RoutingFailover.TransientServer | RoutingFailover.RateLimited => AccountCircuit.RetryableFailure
  | RoutingFailover.InvalidRequest | RoutingFailover.Policy => AccountCircuit.Neutral
  end.
Definition circuit_interruption_outcome (acceptance : PhysicalExecutionAcceptance) : AccountCircuit.CircuitOutcome :=
  match acceptance with NotAccepted => AccountCircuit.Neutral | Accepted => AccountCircuit.RetryableFailure end.

Definition next_candidate (action : RoutingFailover.FailoverAction) (current : RoutingFailover.CandidateKey)
    : option RoutingFailover.CandidateKey :=
  match action with
  | RoutingFailover.RetrySame => Some current
  | RoutingFailover.SwitchCandidate candidate => Some candidate
  | RoutingFailover.Stop => None
  end.
Inductive TargetCoordinationFailure :=
| AdmissionFailure (refusal : RoutingFailover.AdmissionRefusal) (initial_retry_context : option RouteSelection.InitialAdmissionRetryContext)
| RuntimeFailureOf (e : RoutingRuntimeError).
Definition refusal_from_scope (scope : option RateLimit.AdmissionRefusalScope) : RoutingFailover.AdmissionRefusal :=
  match scope with Some RateLimit.AccountRefusal => RoutingFailover.CandidateUnavailable | _ => RoutingFailover.RequestRejected end.
Definition map_target_coordination_error (e : RouteSelection.CoordinatorError) : TargetCoordinationFailure :=
  let refusal :=
    match RouteSelection.error_code e with
    | RouteSelection.ConcurrencyLimited | RouteSelection.RateLimited | RouteSelection.BudgetRejected =>
        Some (refusal_from_scope (RouteSelection.admission_scope e))
    | RouteSelection.AdmissionUnavailable | RouteSelection.PolicyUnavailable => Some RoutingFailover.RequestRejected
    | _ => None
    end in
  match refusal with
  | Some refusal => AdmissionFailure refusal (RouteSelection.initial_admission_retry_context e)
  | None => RuntimeFailureOf (runtime_error CoordinationFailed)
  end.
Definition next_candidate_after_admission (plan : RouteSelection.RoutingRetryPlan) (candidate : RoutingFailover.CandidateKey)
    (ordinal : N) (commitment : RoutingFailover.StreamCommitment) (refusal : RoutingFailover.AdmissionRefusal)
    : outcome (option RoutingFailover.CandidateKey) :=
  decision ← or_map (RouteSelection.decide_attempt_outcome plan candidate ordinal commitment (RoutingFailover.AdmissionRejected refusal))
    (fun _ => InvariantViolation);
  mret (match RoutingFailover.action decision with RoutingFailover.SwitchCandidate next => Some next | _ => None end).

Definition failed_runtime_outcome (reason : RuntimeFailureReason) (failure : RoutingFailover.FailureClass)
    (commitment : RoutingFailover.StreamCommitment) (accepted : list PhysicalAttemptIdentity) : RuntimeOutcome :=
  Failed (mk_RuntimeFailure reason failure commitment accepted).
Definition success_outcome (identity : PhysicalAttemptIdentity) (commitment : RoutingFailover.StreamCommitment)
    (accepted : list PhysicalAttemptIdentity) : RuntimeOutcome :=
  Succeeded (mk_RuntimeSuccess identity (accepted ++ [identity]) commitment).
Definition retain_accepted (accepted : list PhysicalAttemptIdentity) (identity : option PhysicalAttemptIdentity)
    : list PhysicalAttemptIdentity :=
  accepted ++ option_list identity.
