(* ===== verification/RoutingRuntime.v ===== *)
(** * The routing runtime

    Models [RoutingRuntime] of [crates/optional/ariadnion-routing-runtime/src/lib.rs], with the
    states of its loop and the guard of a dispatched attempt ([runtime_support.rs]): a request
    is authenticated, its state loaded, a route coordinated and admitted, its credential
    resolved, leased and revalidated under a circuit probe, dispatched, settled, and retried
    along its failover plan while attempts are left.

    Everything the runtime asks of others is an answer of [outside]: the tick counts the
    questions, so two questions may be answered differently, and at each of them other
    threads may have changed the circuits and the admission stores.  [trace] records the calls
    whose effects leave the runtime.  Shown: the run ends within its schedule; the evidence it
    returns names exactly the attempts providers accepted; nothing is dispatched without a
    probe of its own account, and every probe is completed as its attempt ended. *)

From Stdlib Require Strings.Byte.
From S2P Require Import Prelude CoreTypes RuntimeExecution.
From S2P Require AccountDomain AccountVault AccountPool AccountProxy AccountCircuit AccountImport ImportPort ModelCatalog ModelDomain.
From S2P Require RateLimit RoutingFailover RoutingUsage RoutingAdmission RouteSelection RoutingCoordinator Cancellation CircuitProbe.
#[local] Open Scope N_scope.
#[local] Existing Instances CircuitProbe.CircuitProbeKey_eq_dec CircuitProbe.ProbeWorld_eta.

Notation CoordinatedRoute := RoutingCoordinator.CoordinatedRoute (only parsing).
Notation CircuitProbeGuard := CircuitProbe.CircuitProbeGuard (only parsing).
Notation StreamCommitment := RoutingFailover.StreamCommitment (only parsing).
Notation CandidateKey := RoutingFailover.CandidateKey (only parsing).

(** [PROVIDER_HTTP_CREDENTIAL_MODULE] and [PROVIDER_HTTP_CREDENTIAL_PURPOSE]. *)
Definition CREDENTIAL_MODULE : string := "org.ariadnion.provider.http".
Definition CREDENTIAL_PURPOSE : string := "provider-request-authentication".

(** ** The world *)

(** The answers at one point: what others did before it, the contexts' instant and the probe
    clock, the process clocks, and the ports. *)
Record Outside := mk_Outside {
  probing : CircuitProbe.Outside;
  store_others : RoutingAdmission.World -> RoutingAdmission.World;
  interfere : nat -> RoutingAdmission.World -> RoutingAdmission.World;
  monotonic_now : option N;
  system_now : Z;
  pool_answer : option AccountPool.CandidateSnapshot;
  projection_answer : ImportPort.AccountProjectionRequest -> result ImportPort.ImportPortErrorCode AccountPool.AccountProjectionSnapshot;
  models_answer : option ModelCatalog.ModelCatalogSnapshot;
  credential_answer : ImportPort.AccountCredentialReferenceRequest ->
    result ImportPort.ImportPortErrorCode ImportPort.AccountCredentialReference;
  vault_answer : AccountVault.SecretReadRequest -> result AccountVault.VaultErrorCode AccountVault.SecretLease;
  execution_answer : ProviderExecutionRequest -> ProviderExecutionOutcome;
}.
(** The calls that are recorded. *)
Inductive Event :=
| ProbeAcquired (key : CircuitProbe.CircuitProbeKey)
| Dispatched (request : ProviderExecutionRequest) (answer : ProviderExecutionOutcome)
| AdmissionReleased
| AdmissionFinalized
| AdmissionDropped
| ProbeCompleted (key : CircuitProbe.CircuitProbeKey) (outcome : AccountCircuit.CircuitOutcome).
Record World := mk_World {
  probes : CircuitProbe.ProbeWorld;
  stores : RoutingAdmission.World;
  trace : list Event;
}.
#[export] Instance World_eta : Eta World := fun w => mk_World (probes w) (stores w) (trace w).
Notation runtime_act := (act World RoutingRuntimeError).

Record RoutingRuntime := mk_RoutingRuntime {
  coordinator : RoutingCoordinator.RoutingCoordinator;
  circuit_probes : option CircuitProbe.CircuitProbePort;
  module : ModuleId;
  purpose : string;
  lease_lifetime : N;
}.
Definition RoutingRuntime_new (coordinator : RoutingCoordinator.RoutingCoordinator)
    (circuit_probes : option CircuitProbe.CircuitProbePort) (lease_lifetime : N) : outcome RoutingRuntime :=
  module ← or_map (ModuleId_parse CREDENTIAL_MODULE) (fun _ => InvariantViolation);
  purpose ← or_code (if valid_id CREDENTIAL_PURPOSE then Some CREDENTIAL_PURPOSE else None) InvariantViolation;
  mret (mk_RoutingRuntime coordinator circuit_probes module purpose lease_lifetime).

(** ** States of the loop ([runtime_support.rs]) *)

Record ExecutionState := mk_ExecutionState {
  route : CoordinatedRoute;
  attempt : RuntimeAttempt;
  retry_plan : RouteSelection.RoutingRetryPlan;
  current : CandidateKey;
  ordinal : N;
  accepted : list PhysicalAttemptIdentity;
  remaining_attempts : list RuntimeAttempt;
  remaining_coordination : list RouteSelection.CoordinationRequest;
}.
Record ExecutionRemainder := mk_ExecutionRemainder {
  rest_plan : RouteSelection.RoutingRetryPlan;
  rest_current : CandidateKey;
  rest_ordinal : N;
  rest_accepted : list PhysicalAttemptIdentity;
  rest_attempts : list RuntimeAttempt;
  rest_coordination : list RouteSelection.CoordinationRequest;
}.
#[export] Instance ExecutionRemainder_eta : Eta ExecutionRemainder := fun r =>
  mk_ExecutionRemainder (rest_plan r) (rest_current r) (rest_ordinal r) (rest_accepted r) (rest_attempts r) (rest_coordination r).
Inductive LoopControl := Continue (s : ExecutionState) | Finished (o : RuntimeOutcome).
Record RetryDirective := mk_RetryDirective {
  directive_candidate : CandidateKey; directive_failure : RoutingFailover.FailureClass; directive_commitment : StreamCommitment;
}.
#[export] Instance RetryDirective_eta : Eta RetryDirective := fun d =>
  mk_RetryDirective (directive_candidate d) (directive_failure d) (directive_commitment d).
Record FailedAttempt := mk_FailedAttempt {
  attempt_failure : RoutingFailover.FailureClass; attempt_commitment : StreamCommitment; attempt_accepted : option PhysicalAttemptIdentity;
}.
Inductive AttemptProgress := AttemptSucceeded (identity : PhysicalAttemptIdentity) (commitment : StreamCommitment) | AttemptFailed (f : FailedAttempt).
Record PreparedRoute := mk_PreparedRoute {
  prepared_route : CoordinatedRoute; prepared_execution : ProviderExecutionRequest;
  prepared_identity : PhysicalAttemptIdentity; prepared_probe : option CircuitProbeGuard;
}.
Record RetrySlot := mk_RetrySlot { slot_attempt : RuntimeAttempt; slot_request : RouteSelection.CoordinationRequest }.
(** The slot, and what is left of the remainder. *)
Definition take_retry_slot (r : ExecutionRemainder) : outcome (option (RetrySlot * ExecutionRemainder)) :=
  match rest_attempts r with
  | [] => mret None
  | attempt :: attempts =>
      match rest_coordination r with
      | [] => Err (runtime_error InvariantViolation)
      | request :: requests =>
          ordinal ← or_code (checked_add u8_max (rest_ordinal r) 1) InvariantViolation;
          mret (Some (mk_RetrySlot attempt request,
            mk_ExecutionRemainder (rest_plan r) (rest_current r) ordinal (rest_accepted r) attempts requests))
      end
  end.

Record PendingExecutionGuard := mk_PendingExecutionGuard {
  pending_route : option CoordinatedRoute; pending_identity : option PhysicalAttemptIdentity;
  pending_probe : option CircuitProbeGuard; pending_time : N;
}.
Definition PendingExecutionGuard_new (route : CoordinatedRoute) (identity : PhysicalAttemptIdentity) (probe : option CircuitProbeGuard)
    (dispatch_time : N) : PendingExecutionGuard :=
  mk_PendingExecutionGuard (Some route) (Some identity) (CircuitProbe.arm_retryable_drop <$> probe) dispatch_time.
Definition pending_disarm (g : PendingExecutionGuard) : outcome (CoordinatedRoute * PhysicalAttemptIdentity * option CircuitProbeGuard) :=
  route ← or_code (pending_route g) InvariantViolation;
  identity ← or_code (pending_identity g) InvariantViolation;
  mret (route, identity, pending_probe g).

(** ** Operations *)

Section runtime.
  Variable outside : nat -> Outside.
  Variable rt : RoutingRuntime.

(** One question to the outside. *)
Definition look {E} : act World E Outside := fun w =>
  let p := probes w in
  let o := outside (CircuitProbe.tick p) in
  (mk_World (CircuitProbe.mk_ProbeWorld (CircuitProbe.others (probing o) (CircuitProbe.circuits p)) (S (CircuitProbe.tick p)))
     (store_others o (stores w)) (trace w), Ok o).
Definition emit {E} (e : Event) : act World E unit := modify (fun w => w <| trace := trace w ++ [e] |>).
(** A call of the probe port, its result as a value. *)
Definition on_port {E A} (m : act CircuitProbe.ProbeWorld CircuitProbe.CircuitProbeErrorCode A)
    : act World E (result CircuitProbe.CircuitProbeErrorCode A) := fun w =>
  let '(p, r) := m (probes w) in (w <| probes := p |>, Ok r).
(** A call into the admission stores, its result as a value. *)
Definition in_stores {E F A} (m : act RoutingAdmission.World F A) : act World E (result F A) := fun w =>
  let '(s, r) := m (stores w) in (w <| stores := s |>, Ok r).
Definition on_stores {E F A} (m : (nat -> RoutingAdmission.World -> RoutingAdmission.World) -> act RoutingAdmission.World F A)
    : act World E (result F A) :=
  o ← look; in_stores (m (interfere o)).
Definition answer {A} (r : outcome A) : runtime_act A := lift r.

Definition ensure_active (context : Cancellation.RequestContext) : runtime_act unit :=
  o ← look;
  match Cancellation.check_active_at (CircuitProbe.tree (probing o)) context (CircuitProbe.now (probing o)) with
  | Ok _ => mret tt
  | Err e => fail (runtime_error (match ce_code e with
                                  | CoreTypes.Cancelled => Cancelled
                                  | CoreTypes.DeadlineExceeded => DeadlineExceeded
                                  | _ => InvariantViolation
                                  end))
  end.
Definition authenticated_tenant (context : Cancellation.RequestContext) : runtime_act TenantId :=
  ensure_active context ;;
  answer (or_code (principal_tenant_id <$> Cancellation.principal context) Unauthenticated).

Definition load_state (tenant : TenantId) (context : Cancellation.RequestContext) : runtime_act LoadedState :=
  ensure_active context ;;
  o ← look;
  pool ← answer (or_code (pool_answer o) PoolUnavailable);
  generation ← answer (pool_generation pool);
  o ← look;
  projection ← answer (or_map (projection_answer o (ImportPort.mk_AccountProjectionRequest generation)) map_projection_error);
  answer (validate_projection projection tenant generation) ;;
  o ← look;
  models ← answer (or_code (models_answer o) ModelUnavailable);
  ensure_active context ;;
  mret (mk_LoadedState tenant projection pool models).

(** *** Settling an admission lease and a probe *)

Definition release_route (r : CoordinatedRoute) (now : N) : runtime_act unit :=
  emit AdmissionReleased ;;
  released ← on_stores (fun interfere => RoutingAdmission.release interfere now (RoutingCoordinator.admission_lease r));
  answer (or_map released (fun _ => AdmissionFinalizeFailed)).
Definition finalize_accepted_route (r : CoordinatedRoute) (now : option N) (identity : PhysicalAttemptIdentity) : runtime_act unit :=
  emit AdmissionFinalized ;;
  settled ← on_stores (fun interfere => RoutingAdmission.finalize_accepted interfere now (RoutingCoordinator.admission_lease r));
  match settled with
  | Ok _ => mret tt
  | Err _ => fail (with_accepted (runtime_error AdmissionFinalizeFailed) identity)
  end.
(** A route no call consumed is dropped with its lease. *)
Definition drop_route {E} (r : CoordinatedRoute) : act World E unit :=
  emit AdmissionDropped ;;
  on_stores (fun interfere => (modify (fun s =>
    RoutingAdmission.drop_lease interfere (RoutingAdmission.mk_Handle s (RoutingCoordinator.admission_lease r))) :
    act RoutingAdmission.World unit unit)) ;;
  mret tt.
Definition complete_circuit_probe (probe : option CircuitProbeGuard) (outcome : AccountCircuit.CircuitOutcome) : runtime_act unit :=
  match circuit_probes rt, probe with
  | Some port, Some g =>
      (match CircuitProbe.guard_lease g with
       | Some lease => emit (ProbeCompleted (CircuitProbe.lease_key lease) outcome)
       | None => mret tt
       end) ;;
      completed ← on_port (CircuitProbe.guard_complete port g outcome);
      answer (or_map completed (fun _ => CircuitProbeFinalizeFailed))
  | _, _ => mret tt
  end.
(** [self.finalization_time(None)], then [release_route]; without a time the route is dropped. *)
Definition release_now (r : CoordinatedRoute) : runtime_act unit :=
  o ← look;
  match monotonic_now o with
  | Some now => release_route r now
  | None => drop_route r ;; fail (runtime_error MonotonicClockUnavailable)
  end.
Definition release_pre_dispatch {T} (r : CoordinatedRoute) (probe : option CircuitProbeGuard) (original : RoutingRuntimeError)
    : runtime_act T :=
  admission ← Prelude.attempt (release_now r);
  completed ← Prelude.attempt (complete_circuit_probe probe AccountCircuit.Neutral);
  answer (combine_finalizations admission completed None) ;;
  fail original.
Definition finalize_accepted_admission (r : CoordinatedRoute) (identity : PhysicalAttemptIdentity) : runtime_act unit :=
  o ← look;
  settled ← Prelude.attempt (finalize_accepted_route r (monotonic_now o) identity);
  match monotonic_now o with
  | None => fail (with_accepted (runtime_error MonotonicClockUnavailable) identity)
  | Some _ => answer settled
  end.
Definition finalize_disposition (r : CoordinatedRoute) (identity : PhysicalAttemptIdentity) (dispatch_time : N)
    (acceptance : PhysicalExecutionAcceptance)
    : runtime_act (outcome (option PhysicalAttemptIdentity) * option PhysicalAttemptIdentity) :=
  match acceptance with
  | NotAccepted =>
      o ← look;
      admission ← Prelude.attempt (release_route r (default dispatch_time (monotonic_now o)));
      mret ((fun _ => None) <$> admission, None)
  | Accepted =>
      admission ← Prelude.attempt (finalize_accepted_admission r identity);
      mret ((fun _ => Some identity) <$> admission, Some identity)
  end.

Definition finalize_success (r : CoordinatedRoute) (identity : PhysicalAttemptIdentity) (probe : option CircuitProbeGuard)
    (commitment : StreamCommitment) : runtime_act AttemptProgress :=
  admission ← Prelude.attempt (finalize_accepted_admission r identity);
  completed ← Prelude.attempt (complete_circuit_probe probe AccountCircuit.Success);
  answer (combine_finalizations admission completed (Some identity)) ;;
  mret (AttemptSucceeded identity commitment).
Definition finalize_contradiction (r : CoordinatedRoute) (identity : PhysicalAttemptIdentity) (probe : option CircuitProbeGuard)
    : runtime_act AttemptProgress :=
  admission ← Prelude.attempt (finalize_accepted_admission r identity);
  completed ← Prelude.attempt (complete_circuit_probe probe AccountCircuit.RetryableFailure);
  answer (combine_finalizations admission completed (Some identity)) ;;
  fail (with_accepted (runtime_error InvalidExecutionOutcome) identity).
Definition finalize_failure (r : CoordinatedRoute) (identity : PhysicalAttemptIdentity) (probe : option CircuitProbeGuard)
    (dispatch_time : N) (acceptance : PhysicalExecutionAcceptance) (commitment : StreamCommitment)
    (failure : RoutingFailover.FailureClass) : runtime_act AttemptProgress :=
  if contradictory_acceptance acceptance commitment then finalize_contradiction r identity probe
  else
    settled ← finalize_disposition r identity dispatch_time acceptance;
    completed ← Prelude.attempt (complete_circuit_probe probe (circuit_failure_outcome failure));
    accepted ← answer (combine_finalizations settled.1 completed settled.2);
    mret (AttemptFailed (mk_FailedAttempt failure commitment accepted)).
Definition finalize_interruption (r : CoordinatedRoute) (identity : PhysicalAttemptIdentity) (probe : option CircuitProbeGuard)
    (dispatch_time : N) (acceptance : PhysicalExecutionAcceptance) (commitment : StreamCommitment)
    (interruption : ProviderExecutionInterruption) : runtime_act AttemptProgress :=
  if contradictory_acceptance acceptance commitment then finalize_contradiction r identity probe
  else
    settled ← finalize_disposition r identity dispatch_time acceptance;
    completed ← Prelude.attempt (complete_circuit_probe probe (circuit_interruption_outcome acceptance));
    accepted ← answer (combine_finalizations settled.1 completed settled.2);
    fail (with_optional_accepted (runtime_error (runtime_error_code interruption)) accepted).
Definition finalize_execution (r : CoordinatedRoute) (identity : PhysicalAttemptIdentity) (probe : option CircuitProbeGuard)
    (dispatch_time : N) (answered : ProviderExecutionOutcome) : runtime_act AttemptProgress :=
  match answered with
  | OutcomeAccepted commitment => finalize_success r identity probe commitment
  | OutcomeFailed acceptance commitment failure => finalize_failure r identity probe dispatch_time acceptance commitment failure
  | OutcomeInterrupted acceptance commitment interruption =>
      finalize_interruption r identity probe dispatch_time acceptance commitment interruption
  end.
(** [Drop] of the pending guard: a dispatch whose future went away while it waited. *)
Definition pending_drop (g : PendingExecutionGuard) : runtime_act unit :=
  (match pending_route g with
   | None => mret tt
   | Some r =>
       o ← look;
       emit AdmissionFinalized ;;
       on_stores (fun interfere => RoutingAdmission.commit_dispatch_unknown interfere (default (pending_time g) (monotonic_now o))
         (RoutingCoordinator.admission_lease r)) ;;
       mret tt
   end) ;;
  match pending_probe g with
  | None => mret tt
  | Some probe => Prelude.attempt (complete_circuit_probe (Some probe) (CircuitProbe.drop_outcome probe)) ;; mret tt
  end.

(** *** Preparing an attempt *)

Definition resolve_credential (target : OwnedTarget) (loaded : LoadedState) (context : Cancellation.RequestContext)
    : runtime_act ImportPort.AccountCredentialReference :=
  ensure_active context ;;
  request ← answer (or_map (ImportPort.AccountCredentialReferenceRequest_new (target_account target) (target_provider target)
    (target_config_version target) (purpose rt) (AccountPool.projection_generation (loaded_projection loaded))) map_credential_error);
  o ← look;
  resolved ← answer (or_map (credential_answer o request) map_credential_error);
  answer (validate_credential request resolved (loaded_tenant loaded)) ;;
  mret resolved.
Definition issue_lease (resolved : ImportPort.AccountCredentialReference) (context : Cancellation.RequestContext)
    : runtime_act AccountVault.SecretLease :=
  o ← look;
  lease ← answer (or_map (vault_answer o (AccountVault.mk_SecretReadRequest (ImportPort.reference_secret resolved) (module rt)
    (lease_lifetime rt))) map_vault_error);
  ensure_active context ;;
  o ← look;
  answer (validate_lease lease resolved (module rt) (purpose rt) (system_now o)) ;;
  mret lease.
Definition revalidate_credential (resolved : ImportPort.AccountCredentialReference) (context : Cancellation.RequestContext)
    : runtime_act unit :=
  ensure_active context ;;
  let request := ImportPort.revalidation_request resolved in
  o ← look;
  current ← answer (or_map (credential_answer o request) map_credential_error);
  ensure_active context ;;
  answer (validate_credential request current (ImportPort.reference_tenant resolved)) ;;
  answer (validate_revalidated_credential resolved current).
Definition build_execution (r : CoordinatedRoute) (a : RuntimeAttempt) (loaded : LoadedState) (target : OwnedTarget)
    (lease : AccountVault.SecretLease) (context : Cancellation.RequestContext)
    : outcome (ProviderExecutionRequest * PhysicalAttemptIdentity) :=
  let usage := RoutingCoordinator.usage_confirmation_id r a in
  validate_usage_binding usage (loaded_tenant loaded) context ;;
  let proxy := RoutingCoordinator.selected_proxy_profile r in
  mret (mk_ProviderExecutionRequest (RoutingCoordinator.selected_candidate r) (target_account target) (target_provider target)
          (RoutingCoordinator.route_model r) proxy usage lease,
        mk_PhysicalAttemptIdentity usage (RoutingCoordinator.selected_candidate r) (target_provider target)
          (RoutingCoordinator.route_model r) proxy).
Definition prepare_execution (r : CoordinatedRoute) (a : RuntimeAttempt) (loaded : LoadedState) (target : OwnedTarget)
    (context : Cancellation.RequestContext) : runtime_act (ProviderExecutionRequest * PhysicalAttemptIdentity) :=
  resolved ← resolve_credential target loaded context;
  lease ← issue_lease resolved context;
  revalidate_credential resolved context ;;
  answer (build_execution r a loaded target lease context).

Definition prepare_target (r : CoordinatedRoute) (loaded : LoadedState) : outcome OwnedTarget :=
  validate_execution_proxy (RoutingCoordinator.selected_proxy_profile r) ;; validate_route_target r loaded.
Definition finish_probe_rejection {T} (probe : CircuitProbeGuard) (original : RoutingRuntimeError) : runtime_act T :=
  complete_circuit_probe (Some probe) AccountCircuit.Neutral ;; fail original.
Definition accept_probe_acquisition (key : CircuitProbe.CircuitProbeKey) (acquisition : CircuitProbe.CircuitProbeAcquisition)
    (context : Cancellation.RequestContext) : runtime_act (option CircuitProbeGuard) :=
  let lease := match acquisition with CircuitProbe.ClosedAcquisition lease | CircuitProbe.HalfOpenAcquisition lease => lease end in
  emit (ProbeAcquired (CircuitProbe.lease_key lease)) ;;
  checked ← (if decide (CircuitProbe.lease_key lease = key) then Prelude.attempt (ensure_active context)
             else mret (Err (runtime_error InvariantViolation)));
  let guard := CircuitProbe.CircuitProbeGuard_new lease in
  match checked with
  | Err e => finish_probe_rejection guard e
  | Ok _ => mret (Some guard)
  end.
Definition acquire_circuit_probe (key : CircuitProbe.CircuitProbeKey) (context : Cancellation.RequestContext)
    : runtime_act (option CircuitProbeGuard) :=
  ensure_active context ;;
  port ← answer (or_code (circuit_probes rt) CircuitProbeUnavailable);
  acquired ← on_port (CircuitProbe.port_acquire port key context);
  acquisition ← answer (or_map acquired map_circuit_probe_acquire_error);
  accept_probe_acquisition key acquisition context.
Definition prepare_target_and_probe (r : CoordinatedRoute) (loaded : LoadedState) (context : Cancellation.RequestContext)
    : runtime_act (OwnedTarget * option CircuitProbeGuard) :=
  target ← answer (prepare_target r loaded);
  probe ← acquire_circuit_probe (circuit_probe_key target loaded) context;
  mret (target, probe).
Definition prepare_route (r : CoordinatedRoute) (a : RuntimeAttempt) (loaded : LoadedState) (context : Cancellation.RequestContext)
    : runtime_act PreparedRoute :=
  prepared ← Prelude.attempt (prepare_target_and_probe r loaded context);
  match prepared with
  | Err e => release_pre_dispatch r None e
  | Ok (target, probe) =>
      executed ← Prelude.attempt (prepare_execution r a loaded target context);
      match executed with
      | Ok (execution, identity) => mret (mk_PreparedRoute r execution identity probe)
      | Err e => release_pre_dispatch r probe e
      end
  end.
(** The probe after the check, and the verdict. *)
Definition validate_prepared_probe (probe : option CircuitProbeGuard) : runtime_act (option CircuitProbeGuard * outcome unit) :=
  match circuit_probes rt, probe with
  | Some port, Some g =>
      validation ← on_port (CircuitProbe.guard_validate port g);
      mret (match validation with
            | Ok CircuitProbe.Valid => (probe, Ok tt)
            | Ok CircuitProbe.Invalidated => (Some (CircuitProbe.guard_disarm g), Err (runtime_error CircuitProbeUnavailable))
            | Err _ => (probe, Err (runtime_error CircuitProbeUnavailable))
            end)
  | _, _ => mret (probe, Ok tt)
  end.
Definition execute_route (r : CoordinatedRoute) (a : RuntimeAttempt) (loaded : LoadedState) (context : Cancellation.RequestContext)
    : runtime_act AttemptProgress :=
  prepared ← prepare_route r a loaded context;
  o ← look;
  match monotonic_now o with
  | None => release_pre_dispatch (prepared_route prepared) (prepared_probe prepared) (runtime_error MonotonicClockUnavailable)
  | Some dispatch_time =>
      checked ← validate_prepared_probe (prepared_probe prepared);
      match checked.2 with
      | Err e => release_pre_dispatch (prepared_route prepared) checked.1 e
      | Ok _ =>
          let pending := PendingExecutionGuard_new (prepared_route prepared) (prepared_identity prepared) checked.1 dispatch_time in
          o ← look;
          let answered := execution_answer o (prepared_execution prepared) in
          emit (Dispatched (prepared_execution prepared) answered) ;;
          disarmed ← answer (pending_disarm pending);
          let '(r, identity, probe) := disarmed in
          finalize_execution r identity probe dispatch_time answered
      end
  end.

(** *** Coordination and retries *)

Definition coordinate (request : RouteSelection.CoordinationRequest) (pool : AccountPool.CandidateSnapshot)
    (models : ModelCatalog.ModelCatalogSnapshot) (signals : RuntimeSignals) : runtime_act (result TargetCoordinationFailure CoordinatedRoute) :=
  coordinated ← on_stores (fun interfere =>
    RoutingCoordinator.coordinate (coordinator rt) interfere request (snapshots signals pool models));
  mret (match coordinated with Ok r => Ok r | Err e => Err (map_target_coordination_error e) end).
Definition coordinate_target (request : RouteSelection.CoordinationRequest) (target : CandidateKey) (loaded : LoadedState)
    (signals : RuntimeSignals) : runtime_act (result TargetCoordinationFailure CoordinatedRoute) :=
  match find_candidate (loaded_pool loaded) target with
  | Err e => mret (Err (RuntimeFailureOf e))
  | Ok c =>
      match AccountPool.CandidateSnapshot_new (AccountPool.snapshot_id (loaded_pool loaded))
              (AccountPool.snapshot_version (loaded_pool loaded)) [c] with
      | Err _ => mret (Err (RuntimeFailureOf (runtime_error InvariantViolation)))
      | Ok pool =>
          coordinated ← coordinate request pool (loaded_models loaded) signals;
          match coordinated with
          | Ok r =>
              if decide (RoutingCoordinator.selected_candidate r = target) then mret (Ok r)
              else drop_route r ;; mret (Err (RuntimeFailureOf (runtime_error InvariantViolation)))
          | Err e => mret (Err e)
          end
      end
  end.

(** [retry_after_admission], of the [retry] it continues with. *)
Definition retry_after_admission (retry : RetryDirective -> ExecutionRemainder -> runtime_act LoopControl)
    (directive : RetryDirective) (r : ExecutionRemainder) (refusal : RoutingFailover.AdmissionRefusal) : runtime_act LoopControl :=
  next ← answer (next_candidate_after_admission (rest_plan r) (directive_candidate directive) (rest_ordinal r)
    (directive_commitment directive) refusal);
  match next with
  | Some candidate => retry (directive <| directive_candidate := candidate |>) r
  | None => fail (runtime_error CoordinationFailed)
  end.
Definition prepare_retry_step (retry : RetryDirective -> ExecutionRemainder -> runtime_act LoopControl)
    (loaded : LoadedState) (signals : RuntimeSignals) (directive : RetryDirective) (r : ExecutionRemainder) : runtime_act LoopControl :=
  slot ← answer (take_retry_slot r);
  match slot with
  | None => mret (Finished (failed_runtime_outcome ReasonAttemptsExhausted (directive_failure directive)
              (directive_commitment directive) (rest_accepted r)))
  | Some (slot, r) =>
      coordinated ← coordinate_target (slot_request slot) (directive_candidate directive) loaded signals;
      match coordinated with
      | Ok route => mret (Continue (mk_ExecutionState route (slot_attempt slot) (rest_plan r) (directive_candidate directive)
          (rest_ordinal r) (rest_accepted r) (rest_attempts r) (rest_coordination r)))
      | Err (AdmissionFailure refusal _) => retry_after_admission retry directive r refusal
      | Err (RuntimeFailureOf e) => fail e
      end
  end.
(** The two functions call each other; each round takes an attempt off the remainder. *)
Fixpoint prepare_retry_fuel (fuel : nat) (loaded : LoadedState) (signals : RuntimeSignals) (directive : RetryDirective)
    (r : ExecutionRemainder) : runtime_act LoopControl :=
  match fuel with
  | O => fail (runtime_error InvariantViolation)
  | S fuel => prepare_retry_step (prepare_retry_fuel fuel loaded signals) loaded signals directive r
  end.
Definition prepare_retry (loaded : LoadedState) (signals : RuntimeSignals) (directive : RetryDirective) (r : ExecutionRemainder)
    : runtime_act LoopControl :=
  prepare_retry_fuel (S (length (rest_attempts r))) loaded signals directive r.

Definition advance_failed_inner (f : FailedAttempt) (r : ExecutionRemainder) (loaded : LoadedState) (signals : RuntimeSignals)
    : runtime_act LoopControl :=
  decision ← answer (or_map (RouteSelection.decide_attempt (rest_plan r) (rest_current r) (rest_ordinal r) (attempt_commitment f)
    (attempt_failure f)) (fun _ => InvariantViolation));
  match next_candidate (RoutingFailover.decision_action decision) (rest_current r) with
  | Some candidate => prepare_retry loaded signals (mk_RetryDirective candidate (attempt_failure f) (attempt_commitment f)) r
  | None => mret (Finished (failed_runtime_outcome FailoverStopped (attempt_failure f) (attempt_commitment f) (rest_accepted r)))
  end.
(** [map_err(|error| error.prepend_accepted(..))]. *)
Definition prepending {A} (prior : list PhysicalAttemptIdentity) (m : runtime_act A) : runtime_act A := fun w =>
  let '(w', r) := m w in (w', match r with Ok a => Ok a | Err e => Err (prepend_accepted e prior) end).
Definition advance_failed (f : FailedAttempt) (r : ExecutionRemainder) (loaded : LoadedState) (signals : RuntimeSignals)
    : runtime_act LoopControl :=
  let r := r <| rest_accepted := retain_accepted (rest_accepted r) (attempt_accepted f) |> in
  prepending (rest_accepted r) (advance_failed_inner f r loaded signals).
Definition run_state (s : ExecutionState) (loaded : LoadedState) (signals : RuntimeSignals) (context : Cancellation.RequestContext)
    : runtime_act LoopControl :=
  progress ← prepending (accepted s) (execute_route (route s) (attempt s) loaded context);
  let r := mk_ExecutionRemainder (retry_plan s) (current s) (ordinal s) (accepted s) (remaining_attempts s) (remaining_coordination s) in
  match progress with
  | AttemptSucceeded identity commitment => mret (Finished (success_outcome identity commitment (rest_accepted r)))
  | AttemptFailed f => advance_failed f r loaded signals
  end.
Definition start_state (loaded : LoadedState) (attempts : list RuntimeAttempt) (requests : list RouteSelection.CoordinationRequest)
    (signals : RuntimeSignals) : runtime_act LoopControl :=
  match attempts, requests with
  | attempt :: attempts, request :: requests =>
      coordinated ← coordinate request (loaded_pool loaded) (loaded_models loaded) signals;
      match coordinated with
      | Ok r => mret (Continue (mk_ExecutionState r attempt (RoutingCoordinator.retry_plan r) (RoutingCoordinator.selected_candidate r) 1 []
                  attempts requests))
      | Err (AdmissionFailure refusal (Some kept)) =>
          retry_after_admission (prepare_retry loaded signals)
            (mk_RetryDirective (RouteSelection.retry_candidate kept) RoutingFailover.RateLimited RoutingFailover.Uncommitted)
            (mk_ExecutionRemainder (RouteSelection.retry_plan_kept kept) (RouteSelection.retry_candidate kept) 1 [] attempts requests)
            refusal
      | Err (AdmissionFailure _ None) => fail (runtime_error CoordinationFailed)
      | Err (RuntimeFailureOf e) => fail e
      end
  | _, _ => fail (runtime_error InvalidArgument)
  end.
(** The loop of [execute_loaded]; each round takes an attempt off the state. *)
Fixpoint run_loop (fuel : nat) (control : LoopControl) (loaded : LoadedState) (signals : RuntimeSignals)
    (context : Cancellation.RequestContext) : runtime_act RuntimeOutcome :=
  match fuel with
  | O => fail (runtime_error InvariantViolation)
  | S fuel =>
      match control with
      | Continue s => control ← run_state s loaded signals context; run_loop fuel control loaded signals context
      | Finished o => mret o
      end
  end.
Definition execute_loaded (loaded : LoadedState) (attempts : list RuntimeAttempt) (requests : list RouteSelection.CoordinationRequest)
    (signals : RuntimeSignals) (context : Cancellation.RequestContext) : runtime_act RuntimeOutcome :=
  control ← start_state loaded attempts requests signals;
  run_loop (S (length attempts)) control loaded signals context.
Definition execute (request : RuntimeRequest) (signals : RuntimeSignals) (context : Cancellation.RequestContext) : runtime_act RuntimeOutcome :=
  tenant ← authenticated_tenant context;
  loaded ← load_state tenant context;
  execute_loaded loaded (schedule request) (coordination request) signals context.
End runtime.

(** ** Specification *)

Definition identity_of (q : ProviderExecutionRequest) : PhysicalAttemptIdentity :=
  mk_PhysicalAttemptIdentity (request_usage q) (request_candidate q) (request_provider q) (request_model q) (request_proxy q).
(** Did the provider accept the attempt?  An answer that sent bytes without accepting counts. *)
Definition physically_accepted (o : ProviderExecutionOutcome) : bool :=
  match o with
  | OutcomeAccepted _ => true
  | OutcomeFailed acceptance commitment _ | OutcomeInterrupted acceptance commitment _ =>
      bool_decide (acceptance = Accepted) || contradictory_acceptance acceptance commitment
  end.
(** What the circuit of the account learns from an answer. *)
Definition probe_outcome (o : ProviderExecutionOutcome) : AccountCircuit.CircuitOutcome :=
  match o with
  | OutcomeAccepted _ => AccountCircuit.Success
  | OutcomeFailed acceptance commitment failure =>
      if contradictory_acceptance acceptance commitment then AccountCircuit.RetryableFailure else circuit_failure_outcome failure
  | OutcomeInterrupted acceptance commitment _ =>
      if contradictory_acceptance acceptance commitment then AccountCircuit.RetryableFailure else circuit_interruption_outcome acceptance
  end.
(** The attempts a trace dispatched, and those of them that were accepted, in order. *)
Definition dispatched (t : list Event) : list RuntimeAttempt :=
  omap (fun e => match e with Dispatched q _ => Some (RoutingUsage.attempt (request_usage q)) | _ => None end) t.
Definition accepted_in (t : list Event) : list PhysicalAttemptIdentity :=
  omap (fun e => match e with Dispatched q o => if physically_accepted o then Some (identity_of q) else None | _ => None end) t.
(** The evidence a result carries. *)
Definition outcome_accepted (o : RuntimeOutcome) : list PhysicalAttemptIdentity :=
  match o with Succeeded s => success_accepted s | Failed f => failure_accepted f end.
Definition reported (r : outcome RuntimeOutcome) : list PhysicalAttemptIdentity :=
  match r with Ok o => outcome_accepted o | Err e => error_accepted e end.
Definition progress_evidence (r : outcome AttemptProgress) : list PhysicalAttemptIdentity :=
  match r with
  | Ok (AttemptSucceeded identity _) => [identity]
  | Ok (AttemptFailed f) => option_list (attempt_accepted f)
  | Err e => error_accepted e
  end.

(** The end of an admission that was not dispatched. *)
Inductive unused : Event -> Prop := unused_released : unused AdmissionReleased | unused_dropped : unused AdmissionDropped.
(** The recorded calls of one attempt: refused before it held a probe, or with a probe that
    it gave back, or whose probe went stale; or dispatched under a probe of its own account,
    settled as the provider answered, and the probe completed as it answered. *)
Inductive attempt_trace (tenant : TenantId) (r : CoordinatedRoute) (a : RuntimeAttempt) : list Event -> Prop :=
| trace_refused e : unused e -> attempt_trace tenant r a [e]
| trace_rejected k e : unused e -> attempt_trace tenant r a [ProbeAcquired k; ProbeCompleted k AccountCircuit.Neutral; e]
| trace_returned k e : unused e -> attempt_trace tenant r a [ProbeAcquired k; e; ProbeCompleted k AccountCircuit.Neutral]
| trace_stale k e : unused e -> attempt_trace tenant r a [ProbeAcquired k; e]
| trace_dispatched k q o :
    CircuitProbe.key_tenant k = tenant -> CircuitProbe.key_account k = request_account q ->
    request_usage q = RoutingCoordinator.usage_confirmation_id r a ->
    request_candidate q = RoutingCoordinator.selected_candidate r ->
    attempt_trace tenant r a
      [ProbeAcquired k; Dispatched q o; (if physically_accepted o then AdmissionFinalized else AdmissionReleased);
       ProbeCompleted k (probe_outcome o)].
(** The recorded calls of a run over a schedule: its attempts in order, each at most once;
    an attempt may be passed over, and the run may end with a route that is dropped. *)
Inductive run_trace (tenant : TenantId) : list RuntimeAttempt -> list Event -> Prop :=
| run_done attempts : run_trace tenant attempts []
| run_dropped attempts : run_trace tenant attempts [AdmissionDropped]
| run_passed a attempts t : run_trace tenant attempts t -> run_trace tenant (a :: attempts) t
| run_attempt a attempts r t t' : attempt_trace tenant r a t -> run_trace tenant attempts t' ->
    run_trace tenant (a :: attempts) (t ++ t').

(** A sample run: the stores of [RoutingCoordinator]'s sample, closed circuits for the accounts
    [a] and [b], and a provider that fails [b] before accepting and accepts [a]. *)
Definition sample_row (name : string) : AccountPool.DurableAccountProjection :=
  AccountPool.mk_DurableAccountProjection (MkId "t") (MkId name) (MkId "p") (Some "m2"%string) 2 1 1 AccountDomain.Active 1 1 10 AccountDomain.OPEN.
Definition sample_secret (account : AccountId) : AccountDomain.SecretRef :=
  AccountDomain.mk_SecretRef "vault" (id_str account) 1 CREDENTIAL_PURPOSE.
Definition sample_outside (k : nat) : Outside := mk_Outside
  (CircuitProbe.mk_Outside (fun h => h) (Cancellation.mk_Tree [] []) 0 (Ok (CircuitProbe.mk_CircuitProbeClockReading 10 10)))
  (fun s => s) RoutingAdmission.quiet (Some 1000) 5%Z
  (Some (RouteSelection.pool RouteSelection.sample_snapshots))
  (fun q => Ok (AccountPool.mk_AccountProjectionSnapshot 1 [sample_row "a"; sample_row "b"; sample_row "c"]))
  (Some (RouteSelection.models RouteSelection.sample_snapshots))
  (fun q => Ok (ImportPort.mk_AccountCredentialReference (MkId "t") (ImportPort.request_account q) (ImportPort.request_provider q)
    (ImportPort.request_config_version q) (ImportPort.request_purpose q) (ImportPort.request_generation q)
    (sample_secret (ImportPort.request_account q))))
  (fun q => AccountVault.issue (AccountVault.read_reference q) (AccountVault.read_module q) AccountVault.sample_lease_id 0
    (AccountVault.read_lifetime q) [Byte.x2a])
  (fun q => if bool_decide (request_account q = MkId "b")
            then OutcomeFailed NotAccepted RoutingFailover.Uncommitted RoutingFailover.Transport
            else OutcomeAccepted RoutingFailover.Uncommitted).
Definition sample_registration (place : nat) (name : string) : CircuitProbe.CircuitProbeRegistration :=
  CircuitProbe.mk_CircuitProbeRegistration (CircuitProbe.mk_CircuitProbeKey (MkId "t") (MkId name) 1 1)
    (CircuitProbe.mk_Circuit (MkId name) AccountCircuit.sample_policy place) place.
Definition sample_port : CircuitProbe.CircuitProbePort :=
  CircuitProbe.registry_port (fun k => probing (sample_outside k)) [sample_registration 0 "a"; sample_registration 1 "b"].
Definition sample_reservation (name : string) : RouteSelection.CoordinationRequest :=
  let q := RouteSelection.sample_request in
  RouteSelection.mk_CoordinationRequest (RouteSelection.context q) (RouteSelection.destination_region q) (RouteSelection.pricing_timestamp q)
    (RouteSelection.pricing q)
    (RouteSelection.mk_AdmissionTemplate (MkId name) 3 (RouteSelection.mk_AdmissionTimes 1000 0 10 500) None)
    (RouteSelection.retry q) (RouteSelection.affinity q).
Definition sample_attempts : list RuntimeAttempt := [MkId "x1"; MkId "x2"].
Definition sample_runtime_request : RuntimeRequest := mk_RuntimeRequest sample_attempts [sample_reservation "r1"; sample_reservation "r2"].
Definition sample_context : Cancellation.RequestContext :=
  Cancellation.mk_RequestContext (MkId "r") (MkId "trace") (Some (mk_PrincipalContext (MkId "t") (MkId "me"))) None 0.
Definition sample_signals : RuntimeSignals :=
  let s := RouteSelection.sample_snapshots in
  mk_RuntimeSignals (RouteSelection.pricing_catalog s) (RouteSelection.eligibility s) (RouteSelection.affinity_snapshot s).
Definition sample_run : option (World * outcome RuntimeOutcome) :=
  match RoutingCoordinator.sample_build with
  | Ok (c, stores) =>
      match RoutingRuntime_new c (Some sample_port) 1000000 with
      | Ok rt => Some (execute sample_outside rt sample_runtime_request sample_signals sample_context
          (mk_World (CircuitProbe.mk_ProbeWorld (fun place => AccountCircuit.AccountCircuit_new (MkId (if decide (place = 0%nat) then "a" else "b"))) 0) stores []))
      | Err _ => None
      end
  | Err _ => None
  end.
Definition event_name (e : Event) : string :=
  match e with
  | ProbeAcquired k => "acquired " +:+ id_str (CircuitProbe.key_account k)
  | Dispatched q _ => "dispatched " +:+ id_str (request_account q)
  | AdmissionReleased => "released"
  | AdmissionFinalized => "finalized"
  | AdmissionDropped => "dropped"
  | ProbeCompleted k AccountCircuit.Success => "success " +:+ id_str (CircuitProbe.key_account k)
  | ProbeCompleted k _ => "failure " +:+ id_str (CircuitProbe.key_account k)
  end%string.
Example sample_runs : match sample_run with
  | Some (w, r) => (event_name <$> trace w, id_str ∘ identity_candidate <$> reported r)
  | None => ([], [])
  end = (["acquired b"; "dispatched b"; "released"; "failure b"; "acquired a"; "dispatched a"; "finalized"; "success a"]%string, ["a"%string]).
Proof. vm_compute. reflexivity. Qed.

(** ** Lemmas *)

(** Every run of [m] extends the trace, by events and with a result that satisfy [P]. *)
Definition yields {A} (m : runtime_act A) (P : list Event -> outcome A -> Prop) : Prop := forall w,
  exists t, trace (m w).1 = trace w ++ t /\ P t (m w).2.

Lemma yields_mono {A} (m : runtime_act A) P Q : yields m P -> (forall t r, P t r -> Q t r) -> yields m Q.
Proof. intros Hm HPQ w. destruct (Hm w) as (t & Ht & HP). eauto. Qed.
Lemma yields_bind {A B} (m : runtime_act A) (f : A -> runtime_act B) P Q :
  yields m P -> (forall t e, P t (Err e) -> Q t (Err e)) ->
  (forall t a, P t (Ok a) -> yields (f a) (fun t' r => Q (t ++ t') r)) -> yields (m ≫= f) Q.
Proof.
  intros Hm He Hf w. destruct (Hm w) as (t & Ht & HP). unfold mbind, act_bind. destruct (m w) as [w' [a|e]]; cbn in *; [|eauto].
  destruct (Hf t a HP w') as (t' & Ht' & HQ). exists (t ++ t'). rewrite app_assoc, <- Ht. eauto.
Qed.
Lemma yields_attempt {A} (m : runtime_act A) P Q : yields m P -> (forall t r, P t r -> Q t (Ok r)) -> yields (Prelude.attempt m) Q.
Proof. intros Hm HQ w. destruct (Hm w) as (t & Ht & HP). unfold Prelude.attempt. destruct (m w); cbn in *. eauto. Qed.

Lemma bind_lift {A B} (r : outcome A) (f : A -> runtime_act B) (Q : list Event -> outcome B -> Prop) :
  (forall e, r = Err e -> Q [] (Err e)) -> (forall a, r = Ok a -> yields (f a) Q) -> yields (lift r ≫= f) Q.
Proof.
  intros He Hf. destruct r as [a|e]; [by apply Hf|]. intros w. exists []. rewrite app_nil_r. split; [done|by apply He].
Qed.

(** Steps that record nothing. *)
Definition silent {A} (m : runtime_act A) : Prop := forall w, trace (m w).1 = trace w.
Lemma silent_yields {A} (m : runtime_act A) (P : list Event -> outcome A -> Prop) : silent m -> (forall r, P [] r) -> yields m P.
Proof. intros Hm HP w. exists []. by rewrite app_nil_r. Qed.
Lemma silent_bind {A B} (m : runtime_act A) (f : A -> runtime_act B) : silent m -> (forall a, silent (f a)) -> silent (m ≫= f).
Proof.
  intros Hm Hf w. unfold mbind, act_bind. pose proof (Hm w). destruct (m w) as [w' [a|e]]; cbn in *; [|done]. by rewrite Hf.
Qed.
Lemma bind_silent {A B} (m : runtime_act A) (f : A -> runtime_act B) (P : list Event -> outcome B -> Prop) :
  silent m -> (forall e, P [] (Err e)) -> (forall a, yields (f a) P) -> yields (m ≫= f) P.
Proof.
  intros Hm He Hf. apply (yields_bind _ _ (fun t _ => t = [])); [by apply silent_yields| |].
  - by intros t e ->.
  - by intros t a ->.
Qed.
Lemma bind_emit {B} e (f : unit -> runtime_act B) (P : list Event -> outcome B -> Prop) :
  yields (f tt) (fun t r => P (e :: t) r) -> yields (emit e ≫= f) P.
Proof.
  intros Hf. apply (yields_bind _ _ (fun t r => t = [e] /\ r = Ok tt)).
  - intros w. exists [e]. done.
  - by intros t e' [_ ?].
  - intros t [] [-> _]. exact Hf.
Qed.
Lemma yields_ret {A} (r : outcome A) (P : list Event -> outcome A -> Prop) : P [] r -> yields (lift r) P.
Proof. intros HP w. exists []. by rewrite app_nil_r. Qed.

Section facts.
  Context (outside : nat -> Outside) (rt : RoutingRuntime).

Lemma silent_look : silent (look outside).
Proof. done. Qed.
Lemma silent_lift {A} (r : outcome A) : silent (lift r).
Proof. done. Qed.
Lemma silent_ret {A} (a : A) : silent (mret a).
Proof. done. Qed.
Lemma silent_fail {A} e : silent (fail e : runtime_act A).
Proof. done. Qed.
Lemma silent_port {A} (m : act CircuitProbe.ProbeWorld CircuitProbe.CircuitProbeErrorCode A) : silent (on_port m).
Proof. intros w. unfold on_port. by destruct (m (probes w)). Qed.
Lemma silent_in_stores {F A} (m : act RoutingAdmission.World F A) : silent (in_stores m).
Proof. intros w. unfold in_stores. by destruct (m (stores w)). Qed.
Lemma silent_on_stores {F A} m : silent (on_stores outside (F := F) (A := A) m).
Proof. apply silent_bind; [apply silent_look|]. intros o. apply silent_in_stores. Qed.
Lemma silent_attempt {A} (m : runtime_act A) : silent m -> silent (Prelude.attempt m).
Proof. intros Hm w. unfold Prelude.attempt. specialize (Hm w). by destruct (m w). Qed.
Lemma silent_active context : silent (ensure_active outside context).
Proof. apply silent_bind; [apply silent_look|]. intros o. by destruct (Cancellation.check_active_at _ _ _). Qed.

Ltac quiet := repeat first
  [ apply silent_active | apply silent_look | apply silent_on_stores | apply silent_port | apply silent_lift | apply silent_ret
  | apply silent_fail | apply silent_attempt | apply silent_bind; [|intros] ].

Lemma silent_load tenant context : silent (load_state outside tenant context).
Proof. unfold load_state, answer. quiet. Qed.
Lemma silent_prepare r a loaded target context : silent (prepare_execution outside rt r a loaded target context).
Proof. unfold prepare_execution, resolve_credential, issue_lease, revalidate_credential, answer. cbv zeta. quiet. Qed.
Lemma silent_coordinate request pool models signals : silent (coordinate outside rt request pool models signals).
Proof. unfold coordinate. quiet. Qed.
Lemma silent_validate_probe probe : silent (validate_prepared_probe rt probe).
Proof. unfold validate_prepared_probe. destruct (circuit_probes rt), probe; quiet. Qed.

(** Questions: they record nothing and cannot fail. *)
Definition asks {A} (m : runtime_act A) : Prop := silent m /\ forall w, exists a, (m w).2 = Ok a.
Lemma bind_asks {A B} (m : runtime_act A) (f : A -> runtime_act B) (P : list Event -> outcome B -> Prop) :
  asks m -> (forall a, yields (f a) P) -> yields (m ≫= f) P.
Proof.
  intros [Hs Ho] Hf w. specialize (Hs w). destruct (Ho w) as [a Ha]. unfold mbind, act_bind.
  destruct (m w) as [w' r]. cbn in *. subst r. rewrite <- Hs. apply Hf.
Qed.
Lemma asks_look : asks (look outside).
Proof. split; [apply silent_look|]. intros w. by eexists. Qed.
Lemma asks_port {A} (m : act CircuitProbe.ProbeWorld CircuitProbe.CircuitProbeErrorCode A) : asks (on_port m).
Proof. split; [apply silent_port|]. intros w. unfold on_port. destruct (m (probes w)). by eexists. Qed.
Lemma asks_on_stores {F A} m : asks (on_stores outside (F := F) (A := A) m).
Proof.
  split; [apply silent_on_stores|]. intros w. unfold on_stores, mbind, act_bind, look, in_stores. cbn.
  destruct (m _ _). by eexists.
Qed.
Lemma asks_attempt {A} (m : runtime_act A) : silent m -> asks (Prelude.attempt m).
Proof. intros Hm. split; [by apply silent_attempt|]. intros w. unfold Prelude.attempt. destruct (m w). by eexists. Qed.
Lemma bind_attempt {A B} (m : runtime_act A) (f : outcome A -> runtime_act B) P (Q : list Event -> outcome B -> Prop) :
  yields m P -> (forall t r, P t r -> yields (f r) (fun t' r' => Q (t ++ t') r')) -> yields (Prelude.attempt m ≫= f) Q.
Proof.
  intros Hm Hf. apply (yields_bind _ _ (fun t r => exists r', r = Ok r' /\ P t r')).
  - apply (yields_attempt m P); [done|]. intros t r HP. by exists r.
  - by intros t e (r' & [=] & _).
  - intros t r (r' & [= ->] & HP). by apply Hf.
Qed.

(** Results whose errors carry some evidence, or none. *)
Definition carries {A} (ids : list PhysicalAttemptIdentity) (r : outcome A) : Prop := forall e, r = Err e -> error_accepted e = ids.
Notation plain := (carries []).
Lemma carries_Ok {A} ids (a : A) : carries ids (Ok a).
Proof. by intros e [=]. Qed.
Lemma plain_or_map {E A} (r : result E A) f : plain (or_map r f).
Proof. intros e. destruct r; cbn; [done|]. by intros [= <-]. Qed.
Lemma plain_or_code {A} (o : option A) code : plain (or_code o code).
Proof. intros e. unfold or_code. destruct o; cbn; [done|]. by intros [= <-]. Qed.
Lemma plain_fail_if b code : plain (fail_if b code).
Proof. intros e. unfold fail_if, reject_if. destruct b; [|done]. by intros [= <-]. Qed.
Lemma plain_code {A} code : plain (Err (runtime_error code) : outcome A).
Proof. by intros e [= <-]. Qed.
Lemma plain_bind {A B} (r : outcome A) (f : A -> outcome B) : plain r -> (forall a, plain (f a)) -> plain (r ≫= f).
Proof. intros Hr Hf e. destruct r as [a|e']; cbn; [apply Hf|]. intros [= <-]. by apply Hr. Qed.
Lemma combine_carries {T} (admission : outcome T) (probe : outcome unit) acc :
  carries (option_list acc) admission -> plain probe -> carries (option_list acc) (combine_finalizations admission probe acc).
Proof.
  intros Ha Hp e. unfold combine_finalizations. destruct admission as [v|e']; cbn; [|intros [= <-]; by apply Ha].
  destruct probe as [|e']; [done|]. specialize (Hp e' eq_refl). intros [= <-]. destruct acc; cbn; by rewrite Hp.
Qed.
Lemma combine_Ok {T} (admission : outcome T) probe acc v : combine_finalizations admission probe acc = Ok v -> admission = Ok v.
Proof. unfold combine_finalizations. destruct admission; [|done]. cbn. by destruct probe. Qed.

(** The completion a guard still owes. *)
Definition completions (probe : option CircuitProbeGuard) (o : AccountCircuit.CircuitOutcome) : list Event :=
  match circuit_probes rt, probe with
  | Some _, Some g =>
      match CircuitProbe.guard_lease g with Some lease => [ProbeCompleted (CircuitProbe.lease_key lease) o] | None => [] end
  | _, _ => []
  end.
Lemma complete_yields probe o : yields (complete_circuit_probe rt probe o) (fun t r => t = completions probe o /\ plain r).
Proof.
  unfold complete_circuit_probe, completions. destruct (circuit_probes rt) as [port|]; [|apply yields_ret; split; [done|apply carries_Ok]].
  destruct probe as [g|]; [|apply yields_ret; split; [done|apply carries_Ok]].
  destruct (CircuitProbe.guard_lease g); [apply bind_emit | apply bind_asks; [by split; [|intros; eexists]|intros _]];
    (apply bind_asks; [apply asks_port|]; intros a; apply yields_ret; split; [done|apply plain_or_map]).
Qed.

Lemma release_yields r now : yields (release_route outside r now) (fun t res => t = [AdmissionReleased] /\ plain res).
Proof.
  apply bind_emit, bind_asks; [apply asks_on_stores|]. intros a. apply yields_ret. split; [done|apply plain_or_map].
Qed.
Lemma drop_yields {P : list Event -> outcome unit -> Prop} r : P [AdmissionDropped] (Ok tt) -> yields (drop_route outside r) P.
Proof.
  intros HP. apply bind_emit, bind_asks; [apply asks_on_stores|]. intros a. by apply yields_ret.
Qed.
Lemma release_now_yields r : yields (release_now outside r) (fun t res => (exists e, unused e /\ t = [e]) /\ plain res).
Proof.
  apply bind_asks; [apply asks_look|]. intros o. destruct (monotonic_now o).
  - eapply yields_mono; [apply release_yields|]. intros t res [-> Hp]. split; [|done]. eexists. split; [constructor|done].
  - apply (yields_bind _ _ (fun t res => t = [AdmissionDropped] /\ res = Ok tt)); [by apply drop_yields| |].
    + by intros t e [_ ?].
    + intros t [] [-> _]. apply (yields_ret (Err _)). split; [|apply plain_code]. eexists. split; [constructor|done].
Qed.
(** An attempt that ends before its dispatch. *)
Lemma pre_dispatch_yields {T} r probe original : error_accepted original = [] ->
  yields (release_pre_dispatch outside rt r probe original : runtime_act T) (fun t res =>
    exists e, unused e /\ t = e :: completions probe AccountCircuit.Neutral /\ exists e', res = Err e' /\ error_accepted e' = []).
Proof.
  intros Ho. eapply bind_attempt; [apply release_now_yields|]. intros t adm [(e & He & ->) Hadm].
  eapply bind_attempt; [apply complete_yields|]. intros t' res [-> Hres].
  pose proof (combine_carries adm res None Hadm Hres) as Hc. apply bind_lift.
  - intros e' E. exists e. rewrite app_nil_r. split_and!; [done|done|]. exists e'. split; [done|by apply Hc].
  - intros [] _. apply (yields_ret (Err original)). exists e. rewrite app_nil_r. split_and!; [done|done|]. by exists original.
Qed.

Lemma finalize_accepted_yields r identity : yields (finalize_accepted_admission outside r identity) (fun t res =>
  t = [AdmissionFinalized] /\ carries [identity] res).
Proof.
  apply bind_asks; [apply asks_look|]. intros o.
  apply (bind_attempt _ _ (fun t res => t = [AdmissionFinalized] /\ carries [identity] res)).
  - apply bind_emit, bind_asks; [apply asks_on_stores|]. intros [?|?]; [by apply (yields_ret (Ok _))|].
    apply (yields_ret (Err _)). split; [done|]. by intros ? [= <-].
  - intros t res [-> Hres]. destruct (monotonic_now o); [by apply yields_ret|].
    apply (yields_ret (Err _)). split; [done|]. by intros ? [= <-].
Qed.
Definition settlement (acc : bool) : Event := if acc then AdmissionFinalized else AdmissionReleased.
Lemma finalize_disposition_yields r identity time acceptance : yields (finalize_disposition outside r identity time acceptance) (fun t res =>
  let acc := bool_decide (acceptance = Accepted) in
  let own := if acc then Some identity else None in
  t = [settlement acc] /\ exists adm, res = Ok (adm, own) /\ carries (option_list own) adm /\ (forall x, adm = Ok x -> x = own)).
Proof.
  destruct acceptance; cbn.
  - apply bind_asks; [apply asks_look|]. intros o.
    eapply bind_attempt; [apply release_yields|]. intros t res [-> Hres]. apply (yields_ret (Ok _)). split; [done|].
    eexists. split; [done|]. destruct res as [u|e]; cbn; split; try done; [by intros x [= <-]|].
    intros e' [= <-]. by apply Hres.
  - eapply bind_attempt; [apply finalize_accepted_yields|]. intros t res [-> Hres]. apply (yields_ret (Ok _)). split; [done|].
    eexists. split; [done|]. destruct res as [u|e]; cbn; split; try done; [by intros x [= <-]|].
    intros e' [= <-]. by apply Hres.
Qed.

(** How a dispatched attempt is settled. *)
Definition settled (probe : option CircuitProbeGuard) (identity : PhysicalAttemptIdentity) (acc : bool) (o : AccountCircuit.CircuitOutcome)
    (t : list Event) (res : outcome AttemptProgress) : Prop :=
  t = settlement acc :: completions probe o /\ progress_evidence res = if acc then [identity] else [].
Lemma contradiction_yields r identity probe : yields (finalize_contradiction outside rt r identity probe)
  (settled probe identity true AccountCircuit.RetryableFailure).
Proof.
  eapply bind_attempt; [apply finalize_accepted_yields|]. intros t adm [-> Hadm].
  eapply bind_attempt; [apply complete_yields|]. intros t' res [-> Hres].
  pose proof (combine_carries adm res (Some identity) Hadm Hres) as Hc. apply bind_lift.
  - intros e E. rewrite app_nil_r. split; [done|]. by apply Hc.
  - intros [] _. apply (yields_ret (Err _)). rewrite app_nil_r. by split.
Qed.
Lemma success_yields r identity probe commitment : yields (finalize_success outside rt r identity probe commitment)
  (settled probe identity true AccountCircuit.Success).
Proof.
  eapply bind_attempt; [apply finalize_accepted_yields|]. intros t adm [-> Hadm].
  eapply bind_attempt; [apply complete_yields|]. intros t' res [-> Hres].
  pose proof (combine_carries adm res (Some identity) Hadm Hres) as Hc. apply bind_lift.
  - intros e E. rewrite app_nil_r. split; [done|]. by apply Hc.
  - intros [] _. apply (yields_ret (Ok _)). rewrite app_nil_r. by split.
Qed.
(** The part a failure and an interruption share. *)
Lemma disposed_yields r identity probe time acceptance o (k : option PhysicalAttemptIdentity -> runtime_act AttemptProgress) :
  let acc := bool_decide (acceptance = Accepted) in
  (forall own, own = (if acc then Some identity else None) ->
    exists res, k own = lift res /\ progress_evidence res = option_list own) ->
  yields (disposition ← finalize_disposition outside r identity time acceptance;
          completed ← Prelude.attempt (complete_circuit_probe rt probe o);
          accepted ← answer (combine_finalizations disposition.1 completed disposition.2);
          k accepted) (settled probe identity acc o).
Proof.
  intros acc Hk. eapply yields_bind; [apply finalize_disposition_yields| |].
  { by intros t e (_ & adm & [=] & _). }
  intros t [adm own'] (-> & adm' & [= <- ->] & Hadm & Hval). cbn [fst snd].
  eapply bind_attempt; [apply complete_yields|]. intros t' res [-> Hres].
  fold acc. assert ((if acc then [identity] else []) = option_list (if acc then Some identity else None)) as Hids by by destruct acc.
  pose proof (combine_carries adm res _ Hadm Hres) as Hc. apply bind_lift.
  - intros e E. unfold settled. rewrite app_nil_r, Hids. split; [done|]. by apply Hc.
  - intros own E. apply combine_Ok in E. specialize (Hval own E). destruct (Hk own Hval) as (res' & -> & Hev).
    apply yields_ret. unfold settled. rewrite app_nil_r, Hids, Hev, Hval. done.
Qed.
Lemma execution_yields r identity probe time o : yields (finalize_execution outside rt r identity probe time o)
  (settled probe identity (physically_accepted o) (probe_outcome o)).
Proof.
  destruct o as [commitment|acceptance commitment failure|acceptance commitment interruption]; cbn [finalize_execution physically_accepted probe_outcome].
  - apply success_yields.
  - unfold finalize_failure. destruct (contradictory_acceptance acceptance commitment).
    { rewrite orb_true_r. apply contradiction_yields. }
    rewrite orb_false_r. apply disposed_yields. intros own _. eexists. split; [reflexivity|]. done.
  - unfold finalize_interruption. destruct (contradictory_acceptance acceptance commitment).
    { rewrite orb_true_r. apply contradiction_yields. }
    rewrite orb_false_r. apply disposed_yields. intros own _. eexists. split; [reflexivity|]. by destruct own.
Qed.

(** Steps that record nothing and whose errors carry no evidence. *)
Definition calm {A} (m : runtime_act A) : Prop := yields m (fun t res => t = [] /\ plain res).
Lemma calm_bind {A B} (m : runtime_act A) (f : A -> runtime_act B) : calm m -> (forall a, calm (f a)) -> calm (m ≫= f).
Proof.
  intros Hm Hf. eapply yields_bind; [exact Hm| |].
  - intros t e [-> He]. split; [done|]. intros e' [= <-]. by apply He.
  - intros t a [-> _]. apply Hf.
Qed.
Lemma calm_lift {A} (r : outcome A) : plain r -> calm (lift r).
Proof. intros Hr. by apply yields_ret. Qed.
Lemma calm_ret {A} (a : A) : calm (mret a).
Proof. apply (yields_ret (Ok a)). split; [done|apply carries_Ok]. Qed.
Lemma calm_code {A} code : calm (fail (runtime_error code) : runtime_act A).
Proof. apply (yields_ret (Err _)). split; [done|apply plain_code]. Qed.
Lemma calm_asks {A B} (m : runtime_act A) (f : A -> runtime_act B) : asks m -> (forall a, calm (f a)) -> calm (m ≫= f).
Proof. intros Hm Hf. by apply bind_asks. Qed.
Lemma calm_active context : calm (ensure_active outside context).
Proof.
  apply calm_asks; [apply asks_look|]. intros o. destruct (Cancellation.check_active_at _ _ _); [apply calm_ret|apply calm_code].
Qed.
Ltac calmly := repeat first
  [ apply calm_active | apply calm_ret | apply calm_code
  | apply calm_lift; first [apply plain_or_map | apply plain_or_code | apply plain_fail_if]
  | apply calm_asks; [apply asks_look|intros] | apply calm_asks; [apply asks_port|intros] | apply calm_asks; [apply asks_on_stores|intros]
  | apply calm_bind; [|intros] ].
Lemma calm_credential request resolved tenant : plain (validate_credential request resolved tenant).
Proof. apply plain_bind; intros; apply plain_fail_if. Qed.
Lemma calm_resolve target loaded context : calm (resolve_credential outside rt target loaded context).
Proof. unfold resolve_credential, answer. calmly. apply calm_lift, calm_credential. Qed.
Lemma calm_issue resolved context : calm (issue_lease outside rt resolved context).
Proof. unfold issue_lease, answer. calmly. Qed.
Lemma calm_revalidate resolved context : calm (revalidate_credential outside resolved context).
Proof. unfold revalidate_credential, answer. cbv zeta. calmly. apply calm_lift, calm_credential. Qed.
Lemma calm_tenant context : calm (authenticated_tenant outside context).
Proof. unfold authenticated_tenant, answer. calmly. Qed.
Lemma calm_load tenant context : calm (load_state outside tenant context).
Proof.
  unfold load_state, answer. calmly.
  - apply calm_lift, plain_bind; [apply plain_fail_if|]. intros. apply carries_Ok.
  - apply calm_lift, plain_bind; intros; apply plain_fail_if.
Qed.
Lemma plain_target r loaded : plain (prepare_target r loaded).
Proof.
  unfold prepare_target, validate_execution_proxy, validate_route_target, validate_candidate_binding, validate_projection_binding, validate_provider_model, find_candidate.
  apply plain_bind; [destruct (RoutingCoordinator.selected_proxy_profile r); [apply plain_fail_if|apply carries_Ok]|intros].
  repeat first [apply plain_bind; [|intros] | apply plain_or_code | apply plain_fail_if | apply plain_or_map | apply carries_Ok | case_match].
Qed.

(** What a built request carries. *)
Definition built (r : CoordinatedRoute) (a : RuntimeAttempt) (target : OwnedTarget) (q : ProviderExecutionRequest) (identity : PhysicalAttemptIdentity) : Prop :=
  identity = identity_of q /\ request_account q = target_account target /\
  request_usage q = RoutingCoordinator.usage_confirmation_id r a /\ request_candidate q = RoutingCoordinator.selected_candidate r.
Lemma prepare_yields r a loaded target context : yields (prepare_execution outside rt r a loaded target context)
  (fun t res => t = [] /\ plain res /\ forall q identity, res = Ok (q, identity) -> built r a target q identity).
Proof.
  assert (forall {A B} (m : runtime_act A) (f : A -> runtime_act B) Q, calm m -> (forall a, yields (f a) (fun t res => t = [] /\ plain res /\ Q res)) ->
    (forall e, Q (Err e)) -> yields (m ≫= f) (fun t res => t = [] /\ plain res /\ Q res)) as Hbind.
  { intros A B m f Q Hm Hf He. eapply yields_bind; [exact Hm| |].
    - intros t e [-> Hp]. split_and!; [done| |done]. intros e' [= <-]. by apply Hp.
    - intros t b [-> _]. apply Hf. }
  unfold prepare_execution. apply Hbind; [apply calm_resolve| |done]. intros resolved.
  apply Hbind; [apply calm_issue| |done]. intros lease. apply Hbind; [apply calm_revalidate| |done]. intros _.
  apply yields_ret. unfold build_execution. split_and!; [done| |].
  - apply plain_bind; [apply plain_fail_if|]. intros. apply carries_Ok.
  - intros q identity. destruct (validate_usage_binding _ _ _); [|done]. intros [= <- <-]. by unfold built.
Qed.

(** What an attempt holds once it has its probe. *)
Lemma acquire_yields key context : yields (acquire_circuit_probe outside rt key context) (fun t res =>
  match res with
  | Ok probe => t = [ProbeAcquired key] /\ exists lease, probe = Some (CircuitProbe.CircuitProbeGuard_new lease) /\
      CircuitProbe.lease_key lease = key /\ is_Some (circuit_probes rt)
  | Err e => error_accepted e = [] /\ (t = [] \/ exists k, t = [ProbeAcquired k; ProbeCompleted k AccountCircuit.Neutral])
  end).
Proof.
  unfold acquire_circuit_probe. eapply yields_bind; [apply calm_active|intros t e [-> He]; split; [by apply He|by left]|].
  intros t [] [-> _]. apply bind_lift.
  { intros e He. split; [by apply (plain_or_code _ _ e He)|by left]. }
  intros port Hport. unfold or_code in Hport. apply ok_or_Ok in Hport. apply bind_asks; [apply asks_port|]. intros acquired.
  apply bind_lift.
  { intros e He. split; [by apply (plain_or_map _ _ e He)|by left]. }
  intros acquisition _. unfold accept_probe_acquisition.
  set (lease := match acquisition with CircuitProbe.ClosedAcquisition l | CircuitProbe.HalfOpenAcquisition l => l end).
  apply bind_emit.
  apply (yields_bind _ _ (fun t res => t = [] /\ exists checked, res = Ok checked /\ plain checked /\ (is_ok checked = true -> CircuitProbe.lease_key lease = key))).
  { destruct (decide (CircuitProbe.lease_key lease = key)) as [Hk|Hk].
    - eapply yields_attempt; [apply calm_active|]. intros t res [-> Hp]. split; [done|]. by exists res.
    - apply (yields_ret (Ok _)). split; [done|]. eexists. split; [done|]. split; [apply plain_code|done]. }
  { by intros t e (_ & checked & [=] & _). }
  intros t checked (-> & checked' & [= <-] & Hp & Hk). destruct checked as [[]|e].
  - apply (yields_ret (Ok _)). specialize (Hk eq_refl). rewrite Hk. split; [done|]. exists lease. by rewrite Hport.
  - unfold finish_probe_rejection. eapply yields_bind; [apply complete_yields| |].
    + intros t e' [-> Hc]. split; [by apply Hc|]. right. exists (CircuitProbe.lease_key lease). unfold completions. by rewrite Hport.
    + intros t [] [-> _]. apply (yields_ret (Err e)). split; [by apply Hp|]. right. exists (CircuitProbe.lease_key lease).
      unfold completions. by rewrite Hport.
Qed.

(** An attempt that was prepared: its probe, of the target the request names. *)
Definition prepared_for (r : CoordinatedRoute) (a : RuntimeAttempt) (loaded : LoadedState) (p : PreparedRoute) (k : CircuitProbe.CircuitProbeKey) : Prop :=
  prepared_route p = r /\ prepared_identity p = identity_of (prepared_execution p) /\
  CircuitProbe.key_tenant k = loaded_tenant loaded /\ CircuitProbe.key_account k = request_account (prepared_execution p) /\
  request_usage (prepared_execution p) = RoutingCoordinator.usage_confirmation_id r a /\
  request_candidate (prepared_execution p) = RoutingCoordinator.selected_candidate r /\
  is_Some (circuit_probes rt) /\
  exists lease, prepared_probe p = Some (CircuitProbe.CircuitProbeGuard_new lease) /\ CircuitProbe.lease_key lease = k.
Lemma completions_new lease o : is_Some (circuit_probes rt) ->
  completions (Some (CircuitProbe.CircuitProbeGuard_new lease)) o = [ProbeCompleted (CircuitProbe.lease_key lease) o].
Proof. intros [port Hport]. unfold completions. by rewrite Hport. Qed.
Lemma completions_none o : completions None o = [].
Proof. unfold completions. by destruct (circuit_probes rt). Qed.

Lemma target_yields r loaded context : yields (prepare_target_and_probe outside rt r loaded context) (fun t res =>
  match res with
  | Ok (target, probe) => exists lease, t = [ProbeAcquired (CircuitProbe.lease_key lease)] /\
      probe = Some (CircuitProbe.CircuitProbeGuard_new lease) /\
      CircuitProbe.lease_key lease = circuit_probe_key target loaded /\ is_Some (circuit_probes rt)
  | Err e => error_accepted e = [] /\ (t = [] \/ exists k, t = [ProbeAcquired k; ProbeCompleted k AccountCircuit.Neutral])
  end).
Proof.
  unfold prepare_target_and_probe. apply bind_lift.
  { intros e He. split; [by apply (plain_target r loaded)|by left]. }
  intros target _. eapply yields_bind; [apply acquire_yields| |].
  { intros t e [He Ht]. by split. }
  intros t probe (-> & lease & -> & Hk & Hp). apply (yields_ret (Ok _)). exists lease. by rewrite Hk.
Qed.
Lemma prepare_route_yields r a loaded context : yields (prepare_route outside rt r a loaded context) (fun t res =>
  match res with
  | Ok p => exists k, t = [ProbeAcquired k] /\ prepared_for r a loaded p k
  | Err e => error_accepted e = [] /\ attempt_trace (loaded_tenant loaded) r a t /\ accepted_in t = []
  end).
Proof.
  unfold prepare_route. eapply bind_attempt; [apply target_yields|]. intros t [[target probe]|e].
  - intros (lease & -> & -> & Hk & Hport). eapply bind_attempt; [apply prepare_yields|].
    intros t [[q identity]|e] (-> & Hp & Hb).
    + apply (yields_ret (Ok _)). exists (CircuitProbe.lease_key lease). split; [done|].
      destruct (Hb q identity eq_refl) as (-> & Hacc & Husage & Hcand). unfold prepared_for. cbn. rewrite Hacc, Hk. cbn.
      split_and!; try done. exists lease. by rewrite Hk.
    + eapply yields_mono; [apply pre_dispatch_yields; by apply Hp|].
      intros t res (ev & Hev & -> & e' & -> & He'). split; [done|]. rewrite completions_new by done. cbn.
      split; [by apply trace_returned|by destruct Hev].
  - intros [He Ht]. eapply yields_mono; [by apply pre_dispatch_yields|].
    intros t' res (ev & Hev & -> & e' & -> & He'). split; [done|]. rewrite completions_none.
    destruct Ht as [->|[k ->]]; cbn; (split; [by constructor|by destruct Hev]).
Qed.

Lemma validate_probe_asks probe : yields (validate_prepared_probe rt probe) (fun t res => t = [] /\ exists probe' verdict,
  res = Ok (probe', verdict) /\ plain verdict /\
  (probe' = probe \/ (is_ok verdict = false /\ forall o, completions probe' o = [])) ).
Proof.
  unfold validate_prepared_probe. destruct (circuit_probes rt) as [port|] eqn:Hport.
  2: { apply (yields_ret (Ok _)). split; [done|]. exists probe, (Ok tt). split_and!; [done|apply carries_Ok|by left]. }
  destruct probe as [g|]; [|apply (yields_ret (Ok _)); split; [done|]; exists None, (Ok tt); split_and!; [done|apply carries_Ok|by left]].
  apply bind_asks; [apply asks_port|]. intros [[|]|e]; apply (yields_ret (Ok _)); (split; [done|]); eexists _, _;
    (split; [reflexivity|]).
  - split; [apply carries_Ok|by left].
  - split; [apply plain_code|right]. split; [done|]. intros o. unfold completions. by rewrite Hport.
  - split; [apply plain_code|by left].
Qed.

(** One attempt: its recorded calls, and the evidence of its result. *)
Lemma execute_route_yields r a loaded context : yields (execute_route outside rt r a loaded context) (fun t res =>
  attempt_trace (loaded_tenant loaded) r a t /\ progress_evidence res = accepted_in t).
Proof.
  unfold execute_route. eapply yields_bind; [apply prepare_route_yields| |].
  { intros t e (He & Ht & Hacc). by rewrite Hacc. }
  intros t p (k & -> & Hr & Hid & Hkt & Hka & Husage & Hcand & Hport & lease & Hprobe & Hlease).
  apply bind_asks; [apply asks_look|]. intros o. destruct (monotonic_now o) as [time|].
  2: { eapply yields_mono; [by apply pre_dispatch_yields|]. intros t res (ev & Hev & -> & e' & -> & He').
       rewrite Hprobe, completions_new, Hlease by done. cbn. split; [by apply trace_returned|]. by destruct Hev. }
  eapply yields_bind; [apply validate_probe_asks| |].
  { by intros t e (_ & probe' & verdict & [=] & _). }
  intros t checked (-> & probe' & verdict & [= ->] & Hplain & Hprobe'). cbn [fst snd]. destruct verdict as [[]|e].
  2: { eapply yields_mono; [apply pre_dispatch_yields; by apply Hplain|]. intros t res (ev & Hev & -> & e' & -> & He').
       destruct Hprobe' as [->|[_ Hnone]].
       - rewrite Hprobe, completions_new, Hlease by done. cbn. split; [by apply trace_returned|]. by destruct Hev.
       - rewrite Hnone. cbn. split; [by apply trace_stale|]. by destruct Hev. }
  destruct Hprobe' as [->|[? _]]; [|done]. rewrite Hr, Hid, Hprobe. cbv zeta.
  apply bind_asks; [apply asks_look|]. intros o'. apply bind_emit. apply bind_lift; [done|]. intros disarmed [= <-].
  eapply yields_mono; [apply execution_yields|]. intros t res [-> Hev].
  set (answered := execution_answer o' (prepared_execution p)) in *.
  match goal with |- context [completions ?probe ?out] => assert (completions probe out = [ProbeCompleted k out]) as -> end.
  { destruct Hport as [port Hport]. unfold completions. rewrite Hport. cbn. by rewrite Hlease. }
  cbn [app]. split.
  - unfold settlement. by apply trace_dispatched.
  - rewrite Hev. unfold accepted_in, settlement. cbn. by destruct (physically_accepted answered).
Qed.

(** *** Retries *)

Lemma coordinate_yields request pool models signals : yields (coordinate outside rt request pool models signals) (fun t res =>
  t = [] /\ exists v, res = Ok v /\ forall e, v = Err (RuntimeFailureOf e) -> error_accepted e = []).
Proof.
  apply bind_asks; [apply asks_on_stores|]. intros [r|e]; apply (yields_ret (Ok _)); (split; [done|]); eexists; (split; [reflexivity|]); [done|].
  unfold map_target_coordination_error. cbv zeta. intros e' [= H]. destruct (RouteSelection.error_code e); try discriminate H; by injection H as <-.
Qed.
(** What a target coordination leaves behind. *)
Definition coordinated (t : list Event) (res : outcome (result TargetCoordinationFailure CoordinatedRoute)) : Prop :=
  exists v, res = Ok v /\
    match v with
    | Err (RuntimeFailureOf e) => error_accepted e = [] /\ (t = [] \/ t = [AdmissionDropped])
    | _ => t = []
    end.
Lemma coordinate_target_yields request target loaded signals : yields (coordinate_target outside rt request target loaded signals) coordinated.
Proof.
  unfold coordinate_target. destruct (find_candidate _ _) as [c|e] eqn:Hf.
  2: { apply (yields_ret (Ok _)). eexists. split; [done|]. split; [by apply (plain_or_code _ _ e Hf)|by left]. }
  destruct (AccountPool.CandidateSnapshot_new _ _ _); [|apply (yields_ret (Ok _)); eexists; split; [done|]; split; [done|by left]].
  eapply yields_bind; [apply coordinate_yields|by intros t e (_ & v & [=] & _)|].
  intros t v (-> & v' & [= <-] & Hv). destruct v as [r|[refusal kept|e]].
  - destruct (decide _); [apply (yields_ret (Ok _)); by eexists|].
    apply (yields_bind _ _ (fun t res => t = [AdmissionDropped] /\ res = Ok tt)); [by apply drop_yields|by intros ? ? [_ ?]|].
    intros t [] [-> _]. apply (yields_ret (Ok _)). eexists. split; [done|]. split; [done|by right].
  - apply (yields_ret (Ok _)). by eexists.
  - apply (yields_ret (Ok _)). eexists. split; [done|]. split; [by apply Hv|by left].
Qed.

(** How the run goes on with what is left of the schedule. *)
Definition continued (attempts : list RuntimeAttempt) (ids : list PhysicalAttemptIdentity) (t : list Event) (res : outcome LoopControl) : Prop :=
  match res with
  | Ok (Continue s) => t = [] /\ accepted s = ids /\ exists passed, attempts = passed ++ attempt s :: remaining_attempts s
  | Ok (Finished o) => t = [] /\ outcome_accepted o = ids
  | Err e => error_accepted e = [] /\ (t = [] \/ t = [AdmissionDropped])
  end.
Lemma continued_later passed attempts ids t res : continued attempts ids t res -> continued (passed ++ attempts) ids t res.
Proof.
  destruct res as [[s|o]|e]; [|done|done]. intros (-> & Ha & passed' & ->). split_and!; [done..|]. exists (passed ++ passed'). by rewrite app_assoc.
Qed.
Lemma take_slot_Ok r slot r' : take_retry_slot r = Ok (Some (slot, r')) ->
  rest_attempts r = slot_attempt slot :: rest_attempts r' /\ rest_accepted r' = rest_accepted r.
Proof.
  unfold take_retry_slot. destruct (rest_attempts r) as [|a attempts]; [done|]. destruct (rest_coordination r); [done|].
  destruct (or_code _ _); [|done]. by intros [= <- <-].
Qed.
Lemma take_slot_Err r e : take_retry_slot r = Err e -> error_accepted e = [].
Proof.
  unfold take_retry_slot. destruct (rest_attempts r); [done|]. destruct (rest_coordination r); [by intros [= <-]|].
  unfold or_code. destruct (checked_add _ _ _); cbn; [done|]. by intros [= <-].
Qed.
Lemma retry_yields (retry : RetryDirective -> ExecutionRemainder -> runtime_act LoopControl) directive r refusal :
  (forall d, yields (retry d r) (continued (rest_attempts r) (rest_accepted r))) ->
  yields (retry_after_admission retry directive r refusal) (continued (rest_attempts r) (rest_accepted r)).
Proof.
  intros Hretry. unfold retry_after_admission. apply bind_lift.
  - intros e He. split; [|by left]. unfold next_candidate_after_admission in He. revert He.
    apply (plain_bind (or_map _ _)); [apply plain_or_map|intros; apply carries_Ok].
  - intros [candidate|] _; [apply Hretry|]. apply (yields_ret (Err _)). split; [done|by left].
Qed.
Lemma prepare_retry_yields loaded signals fuel directive r : (length (rest_attempts r) < fuel)%nat ->
  yields (prepare_retry_fuel outside rt fuel loaded signals directive r) (continued (rest_attempts r) (rest_accepted r)).
Proof.
  revert directive r. induction fuel as [|fuel IH]; intros directive r Hf; [lia|]. cbn [prepare_retry_fuel]. unfold prepare_retry_step.
  apply bind_lift; [intros e He; split; [by eapply take_slot_Err|by left]|]. intros [[slot r']|] Hslot.
  2: { apply (yields_ret (Ok _)). by split. }
  apply take_slot_Ok in Hslot as [Hat Hacc].
  eapply yields_bind; [apply coordinate_target_yields|by intros t e (v & [=] & _)|].
  intros t v (v' & [= <-] & Hv). destruct v as [route|[refusal kept|e]].
  - subst t. apply (yields_ret (Ok _)). split_and!; [done|done|]. exists []. by rewrite Hat.
  - subst t. rewrite Hat, <- Hacc. eapply yields_mono; [|intros ? ?; apply (continued_later [slot_attempt slot])].
    apply retry_yields. intros d. apply IH. rewrite Hat in Hf. cbn in Hf. lia.
  - destruct Hv as [He Ht]. apply (yields_ret (Err e)). rewrite app_nil_r. by split.
Qed.

(** *** The loop *)

Lemma prepend_evidence e prior : error_accepted (prepend_accepted e prior) = prior ++ error_accepted e.
Proof. by destruct prior. Qed.
Lemma prepending_yields {A} ids (m : runtime_act A) P : yields m P -> yields (prepending ids m) (fun t res =>
  match res with Ok a => P t (Ok a) | Err e => exists e', P t (Err e') /\ error_accepted e = ids ++ error_accepted e' end).
Proof.
  intros Hm w. destruct (Hm w) as (t & Ht & HP). unfold prepending. destruct (m w) as [w' [a|e]]; cbn in *; exists t; (split; [done|]); [done|].
  exists e. by rewrite prepend_evidence.
Qed.
Lemma advance_yields f r loaded signals : yields (advance_failed outside rt f r loaded signals) (fun t res =>
  let ids := rest_accepted r ++ option_list (attempt_accepted f) in
  match res with
  | Err e => error_accepted e = ids /\ (t = [] \/ t = [AdmissionDropped])
  | Ok _ => continued (rest_attempts r) ids t res
  end).
Proof.
  unfold advance_failed. cbv zeta. set (r' := r <| rest_accepted := _ |>).
  change (rest_accepted r ++ option_list (attempt_accepted f)) with (rest_accepted r').
  change (rest_attempts r) with (rest_attempts r').
  eapply yields_mono; [apply prepending_yields with (P := continued (rest_attempts r') (rest_accepted r'))|].
  - unfold advance_failed_inner. apply bind_lift; [intros e He; split; [by apply (plain_or_map _ _ e He)|by left]|].
    intros decision _. destruct (next_candidate _ _).
    + apply prepare_retry_yields. lia.
    + apply (yields_ret (Ok _)). by split.
  - intros t [[s|o]|e]; [done..|]. intros (e' & [He' Ht] & ->). rewrite He', app_nil_r. by split.
Qed.

Lemma run_trace_passed tenant passed attempts t : run_trace tenant attempts t -> run_trace tenant (passed ++ attempts) t.
Proof. induction passed; [done|]. intros. cbn. apply run_passed. auto. Qed.
Lemma accepted_app t t' : accepted_in (t ++ t') = accepted_in t ++ accepted_in t'.
Proof. apply omap_app. Qed.
Lemma run_state_yields s loaded signals context : yields (run_state outside rt s loaded signals context) (fun t res =>
  match res with
  | Ok (Continue s') => attempt_trace (loaded_tenant loaded) (route s) (attempt s) t /\ accepted s' = accepted s ++ accepted_in t /\
      exists passed, remaining_attempts s = passed ++ attempt s' :: remaining_attempts s'
  | Ok (Finished o) => attempt_trace (loaded_tenant loaded) (route s) (attempt s) t /\ outcome_accepted o = accepted s ++ accepted_in t
  | Err e => run_trace (loaded_tenant loaded) (attempt s :: remaining_attempts s) t /\ error_accepted e = accepted s ++ accepted_in t
  end).
Proof.
  assert (forall t t', attempt_trace (loaded_tenant loaded) (route s) (attempt s) t -> t' = [] \/ t' = [AdmissionDropped] ->
    run_trace (loaded_tenant loaded) (attempt s :: remaining_attempts s) (t ++ t')) as Hlast.
  { intros t t' Ht [-> | ->]; (eapply run_attempt; [exact Ht|constructor]). }
  unfold run_state. cbv zeta. eapply yields_bind; [apply prepending_yields, execute_route_yields| |].
  { intros t e (e' & [Ht Hev] & ->). cbn in Hev. rewrite Hev. split; [|done]. rewrite <- (app_nil_r t). apply Hlast; [done|by left]. }
  intros t progress [Ht Hev]. destruct progress as [identity commitment|f]; cbn in Hev.
  - apply (yields_ret (Ok _)). rewrite app_nil_r. split; [done|]. by rewrite <- Hev.
  - eapply yields_mono; [apply advance_yields|]. cbn [rest_accepted rest_attempts]. rewrite Hev.
    intros t' [[s'|o]|e]; cbn.
    + intros (-> & Ha & Hp). rewrite app_nil_r. by split_and!.
    + intros [-> Ho]. rewrite app_nil_r. by split.
    + intros [He Ht']. rewrite accepted_app. split; [by apply Hlast|]. rewrite He. destruct Ht' as [-> | ->]; cbn; by rewrite app_nil_r.
Qed.

Lemma run_loop_yields fuel s loaded signals context : (S (length (remaining_attempts s)) < fuel)%nat ->
  yields (run_loop outside rt fuel (Continue s) loaded signals context) (fun t res =>
    reported res = accepted s ++ accepted_in t /\ run_trace (loaded_tenant loaded) (attempt s :: remaining_attempts s) t).
Proof.
  revert s. induction fuel as [|fuel IH]; intros s Hf; [lia|]. cbn [run_loop].
  eapply yields_bind; [apply run_state_yields| |].
  { intros t e [Ht He]. by split. }
  intros t [s'|o].
  - intros (Ht & Ha & passed & Hp). eapply yields_mono; [apply IH|].
    { rewrite Hp, length_app in Hf. cbn in Hf. lia. }
    intros t' res [Hr Ht']. rewrite accepted_app, Hr, Ha, app_assoc. split; [done|].
    eapply run_attempt; [exact Ht|]. rewrite Hp. by apply run_trace_passed.
  - intros [Ht Ho]. destruct fuel as [|fuel]; [lia|]. apply (yields_ret (Ok o)). rewrite app_nil_r. split; [done|].
    rewrite <- (app_nil_r t). eapply run_attempt; [exact Ht|constructor].
Qed.

Lemma start_yields loaded attempts requests signals : yields (start_state outside rt loaded attempts requests signals) (continued attempts []).
Proof.
  unfold start_state. destruct attempts as [|a attempts]; [apply (yields_ret (Err _)); split; [done|by left]|].
  destruct requests as [|request requests]; [apply (yields_ret (Err _)); split; [done|by left]|].
  eapply yields_bind; [apply coordinate_yields|by intros t e (_ & v & [=] & _)|].
  intros t v (-> & v' & [= <-] & Hv). destruct v as [r|[refusal [kept|]|e]].
  - apply (yields_ret (Ok _)). split_and!; [done|done|]. by exists [].
  - eapply yields_mono; [|intros ? ?; apply (continued_later [a])].
    apply (retry_yields _ _ (mk_ExecutionRemainder (RouteSelection.retry_plan_kept kept) (RouteSelection.retry_candidate kept) 1 [] attempts requests)).
    intros d. apply prepare_retry_yields. lia.
  - apply (yields_ret (Err _)). split; [done|by left].
  - apply (yields_ret (Err e)). split; [by apply Hv|by left].
Qed.
Lemma execute_loaded_yields loaded attempts requests signals context :
  yields (execute_loaded outside rt loaded attempts requests signals context) (fun t res =>
    reported res = accepted_in t /\ run_trace (loaded_tenant loaded) attempts t).
Proof.
  unfold execute_loaded. eapply yields_bind; [apply start_yields| |].
  { intros t e [He Ht]. cbn. rewrite He. destruct Ht as [-> | ->]; (split; [done|constructor]). }
  intros t [s|o].
  - intros (-> & Ha & passed & ->). eapply yields_mono; [apply run_loop_yields|].
    { rewrite length_app. cbn. lia. }
    intros t res [Hr Ht]. rewrite Hr, Ha. split; [done|]. by apply run_trace_passed.
  - intros [-> Ho]. cbn [run_loop]. apply (yields_ret (Ok o)). split; [done|constructor].
Qed.
Lemma loaded_tenant_is tenant context w w' loaded : load_state outside tenant context w = (w', Ok loaded) -> loaded_tenant loaded = tenant.
Proof.
  unfold load_state. intros H. unfold answer in H. run_steps; done.
Qed.
Lemma execute_yields request signals context : yields (execute outside rt request signals context) (fun t res =>
  reported res = accepted_in t /\
  match Cancellation.principal context with
  | Some p => run_trace (principal_tenant_id p) (schedule request) t
  | None => t = []
  end).
Proof.
  assert (forall res : outcome RuntimeOutcome, reported res = [] -> reported res = accepted_in [] /\
    match Cancellation.principal context with Some p => run_trace (principal_tenant_id p) (schedule request) [] | None => [] = [] :> list Event end) as Hnone.
  { intros res Hr. split; [done|]. destruct (Cancellation.principal context); [constructor|done]. }
  unfold execute. apply (yields_bind _ _ (fun t res => t = [] /\ plain res /\
    forall tenant, res = Ok tenant -> exists p, Cancellation.principal context = Some p /\ tenant = principal_tenant_id p)).
  - unfold authenticated_tenant. eapply yields_bind; [apply calm_active|intros t e [-> Hp]; split_and!; [done|intros e' [= <-]; by apply Hp|done]|].
    intros t [] [-> _]. apply yields_ret. split_and!; [done|apply plain_or_code|]. intros tenant. unfold or_code.
    destruct (Cancellation.principal context) as [p|]; [|done]. intros [= <-]. by exists p.
  - intros t e (-> & Hp & _). apply Hnone. by apply Hp.
  - intros t tenant (-> & _ & Ht). destruct (Ht tenant eq_refl) as (p & Hprin & ->). rewrite Hprin in *.
    intros w. destruct (calm_load (principal_tenant_id p) context w) as (t & Htr & -> & Hplain).
    unfold mbind, act_bind. destruct (load_state outside (principal_tenant_id p) context w) as [w' [loaded|e]] eqn:E; cbn in Htr, Hplain.
    + destruct (execute_loaded_yields loaded (schedule request) (coordination request) signals context w') as (t & Htr' & Hr & Hrun).
      apply loaded_tenant_is in E. rewrite E in Hrun. exists t. cbn [app]. rewrite Htr', Htr, app_nil_r. done.
    + exists []. split; [done|]. apply Hnone. by apply Hplain.
Qed.

(** *** Fuel *)

Lemma retry_step_congr loaded signals retry retry' directive r w :
  (forall d r' w', (length (rest_attempts r') < length (rest_attempts r))%nat -> retry d r' w' = retry' d r' w') ->
  prepare_retry_step outside rt retry loaded signals directive r w = prepare_retry_step outside rt retry' loaded signals directive r w.
Proof.
  intros Heq. unfold prepare_retry_step, mbind, act_bind, answer, lift.
  destruct (take_retry_slot r) as [[[slot r']|]|] eqn:Hslot; [|done|done].
  apply take_slot_Ok in Hslot as [Hat _].
  destruct (coordinate_target _ _ _ _ _ _ w) as [w' [[route|[refusal kept|e]]|]]; try done.
  unfold retry_after_admission, mbind, act_bind, answer, lift.
  destruct (next_candidate_after_admission _ _ _ _ _) as [[candidate|]|]; try done.
  apply Heq. rewrite Hat. cbn. lia.
Qed.
Lemma retry_fuel loaded signals fuel fuel' directive r w :
  (length (rest_attempts r) < fuel)%nat -> (length (rest_attempts r) < fuel')%nat ->
  prepare_retry_fuel outside rt fuel loaded signals directive r w = prepare_retry_fuel outside rt fuel' loaded signals directive r w.
Proof.
  revert fuel' directive r w. induction fuel as [|fuel IH]; intros fuel' directive r w Hf Hf'; [lia|].
  destruct fuel' as [|fuel']; [lia|]. cbn [prepare_retry_fuel]. apply retry_step_congr. intros d r' w' Hlt. apply IH; lia.
Qed.
(** The rounds a control still needs. *)
Definition rounds (control : LoopControl) : nat := match control with Continue s => S (S (length (remaining_attempts s))) | Finished _ => 1 end.
Lemma loop_fuel fuel fuel' control loaded signals context w : (rounds control <= fuel)%nat -> (rounds control <= fuel')%nat ->
  run_loop outside rt fuel control loaded signals context w = run_loop outside rt fuel' control loaded signals context w.
Proof.
  revert fuel' control w. induction fuel as [|fuel IH]; intros fuel' control w Hf Hf'; [destruct control; cbn in Hf; lia|].
  destruct fuel' as [|fuel']; [destruct control; cbn in Hf'; lia|]. cbn [run_loop]. destruct control as [s|o]; [|done].
  destruct (run_state_yields s loaded signals context w) as (t & _ & Hs).
  unfold mbind, act_bind. destruct (run_state _ _ s _ _ _ w) as [w' [control'|]]; [|done]. cbn in Hs.
  assert (rounds control' <= S (length (remaining_attempts s)))%nat as Hlt.
  { destruct control' as [s'|o]; cbn; [|lia]. destruct Hs as (_ & _ & passed & ->). rewrite length_app. cbn. lia. }
  cbn in Hf, Hf'. apply IH; lia.
Qed.

Lemma dispatched_app t t' : dispatched (t ++ t') = dispatched t ++ dispatched t'.
Proof. apply omap_app. Qed.
Lemma run_trace_dispatched tenant attempts t : run_trace tenant attempts t -> dispatched t `sublist_of` attempts.
Proof.
  induction 1 as [attempts|attempts|a attempts t _ IH|a attempts r t t' Ht _ IH].
  - apply sublist_nil_l.
  - apply sublist_nil_l.
  - by apply sublist_cons.
  - rewrite dispatched_app. destruct Ht as [e He|k e He|k e He|k e He|k q o _ _ Hq _].
    1-4: destruct He; by apply sublist_cons.
    cbn. destruct (physically_accepted o); cbn; rewrite Hq; by apply sublist_skip.
Qed.
End facts.

(** ** Theorems *)

(** C3: The evidence is exact.  Whatever the ports answer and others do, a run returns the
    identities of exactly the attempts it dispatched that a provider accepted, in the order
    of their dispatch, each once: with a success, with a failure, and with every error,
    also when a lease, a probe or a clock failed after the dispatch. *)
Theorem run_evidence_exact outside rt request signals context w :
  exists t, trace (execute outside rt request signals context w).1 = trace w ++ t /\
    reported (execute outside rt request signals context w).2 = accepted_in t.
Proof. destruct (execute_yields outside rt request signals context w) as (t & Ht & Hr & _). by exists t. Qed.

(** C4: Every recorded call of a run follows the protocol: without a principal nothing is
    called; otherwise the calls are those of attempts of the schedule, each taken at most
    once and in order, and an attempt that is dispatched was dispatched under a probe of
    the principal's tenant and the account it names, then had its admission finalized when
    the provider accepted and released when not, and then completed that probe, once, as
    the provider answered; an attempt that was not dispatched gave its admission back, and
    its probe if it had one that was still valid. *)
Theorem dispatch_protocol outside rt request signals context w :
  exists t, trace (execute outside rt request signals context w).1 = trace w ++ t /\
    match Cancellation.principal context with
    | None => t = []
    | Some p => run_trace (principal_tenant_id p) (schedule request) t
    end.
Proof. destruct (execute_yields outside rt request signals context w) as (t & Ht & _ & Hrun). by exists t. Qed.

(** C37: A run ends within its schedule.  For a request the constructors accept, at most
    eight attempts are dispatched, each an attempt of the schedule, in its order and none
    twice; and the loops of the runtime need no more rounds than the schedule has attempts:
    with at least so many, the main loop gives one and the same result, and the retry
    recursion satisfies the equation the code writes. *)
Theorem run_terminates attempts sched requests request outside rt signals context loaded w
    (Hsched : AttemptSchedule_new attempts = Ok sched) (Hrequest : RuntimeRequest_new sched requests = Ok request) :
  (exists t, trace (execute outside rt request signals context w).1 = trace w ++ t /\
    dispatched t `sublist_of` attempts /\ NoDup (dispatched t) /\ (length (dispatched t) <= 8)%nat) /\
  (forall fuel, (length attempts < fuel)%nat ->
    (control ← start_state outside rt loaded (schedule request) (coordination request) signals;
     run_loop outside rt fuel control loaded signals context) w =
    execute_loaded outside rt loaded (schedule request) (coordination request) signals context w) /\
  (forall directive r w', prepare_retry outside rt loaded signals directive r w' =
    prepare_retry_step outside rt (prepare_retry outside rt loaded signals) loaded signals directive r w').
Proof.
  assert (schedule request = attempts /\ NoDup attempts /\ (length attempts <= 8)%nat) as (Hat & Hnd & Hlen).
  { unfold AttemptSchedule_new, fail_if in Hsched. run_steps. tidy. unfold RuntimeRequest_new, fail_if in Hrequest. run_steps.
    match goal with H : all_fresh _ _ _ = true |- _ => apply all_fresh_NoDup in H as [Hf _] end. rewrite list_fmap_id in Hf.
    split_and!; [done|done|]. unfold MAX_RUNTIME_ATTEMPTS, RoutingFailover.MAX_ATTEMPTS, len in *. lia. }
  split_and!.
  - destruct (execute_yields outside rt request signals context w) as (t & Ht & _ & Hrun). exists t. split; [done|].
    assert (dispatched t `sublist_of` attempts) as Hsub.
    { destruct (Cancellation.principal context); [|subst t; apply sublist_nil_l]. rewrite <- Hat. by eapply run_trace_dispatched. }
    split_and!; [done|by eapply sublist_NoDup|]. apply sublist_length in Hsub. lia.
  - intros fuel Hfuel. unfold execute_loaded, mbind, act_bind.
    destruct (start_yields outside rt loaded (schedule request) (coordination request) signals w) as (t & _ & Hs).
    destruct (start_state _ _ _ _ _ _ w) as [w' [control|]]; [|done]. cbn in Hs. rewrite Hat in *.
    assert (rounds control <= S (length attempts))%nat as Hr.
    { destruct control as [s|o]; cbn; [|lia]. destruct Hs as (_ & _ & passed & ->). rewrite length_app. cbn. lia. }
    apply loop_fuel; lia.
  - intros directive r w'. unfold prepare_retry at 1. cbn [prepare_retry_fuel]. apply retry_step_congr.
    intros d r' w'' Hlt. apply retry_fuel; lia.
Qed.
Lemma run_terminates_witness : match sample_run with
  | Some (w, _) => (length (dispatched (trace w)) <= 8)%nat
  | None => False
  end.
Proof.
  unfold sample_run. destruct RoutingCoordinator.sample_build as [[c stores]|e] eqn:Hc; [|vm_compute in Hc; discriminate Hc].
  destruct (RoutingRuntime_new c (Some sample_port) 1000000) as [rt|e] eqn:Hrt; [|discriminate Hrt].
  set (w0 := mk_World _ stores []).
  destruct (run_terminates sample_attempts sample_attempts [sample_reservation "r1"; sample_reservation "r2"] sample_runtime_request
    sample_outside rt sample_signals sample_context (mk_LoadedState (MkId "t") (AccountPool.mk_AccountProjectionSnapshot 1 [])
      (RouteSelection.pool RouteSelection.sample_snapshots) (RouteSelection.models RouteSelection.sample_snapshots)) w0)
    as ((t & Ht & _ & _ & Hl) & _); [vm_compute; reflexivity|vm_compute; reflexivity|].
  destruct (execute _ _ _ _ _ w0) as [w r]. cbn in Ht. rewrite Ht. exact Hl.
Defined.
