(* ===== verification/ApiFiles.v ===== *)
(** * Files of the API: values, tickets and records

    Models [crates/optional/ariadnion-api-files/src/lib.rs], [access.rs] and [catalog.rs]:
    stable errors and their projections, chunks, cursors and pages, the validity of access
    tickets in whole microseconds, and catalog records.  [SystemTime] is nanoseconds around
    the Unix epoch, [Duration] is nanoseconds.  The ports of [port.rs] are traits whose
    implementations are elsewhere.  Shown: a window is accepted exactly when its bounds are
    whole microseconds in range, in order and at most fifteen minutes apart, and it is then
    valid at exactly the instants between them. *)

From Stdlib Require Strings.Byte.
From stdpp Require Import vector.
From S2P Require Import Prelude CoreTypes Identity.
From S2P Require ApiValues Cancellation.
#[local] Open Scope N_scope.

Definition MAX_FILE_CHUNK_BYTES : N := 65536.
Definition MAX_FILE_LIST_CURSOR_BYTES : N := 512.
Definition MAX_FILE_PAGE_RESULTS : N := 1000.

(** ** Errors *)

Inductive ApiFilesErrorCode :=
| InvalidArgument | LimitExceeded | Unauthenticated | NotFound | Conflict | IntegrityFailure | PolicyRejected | Cancelled
| DeadlineExceeded | ResourceExhausted | Unavailable | CommitIndeterminate | Internal.
#[export] Instance ApiFilesErrorCode_eq_dec : EqDecision ApiFilesErrorCode.
Proof. solve_decision. Defined.
Notation outcome := (result ApiFilesErrorCode).

Definition availability_machine_code (code : ApiFilesErrorCode) : string :=
  match code with
  | Unavailable => "API_FILES_UNAVAILABLE"
  | CommitIndeterminate => "API_FILES_COMMIT_INDETERMINATE"
  | _ => "API_FILES_INTERNAL"
  end.
Definition execution_machine_code (code : ApiFilesErrorCode) : string :=
  match code with
  | PolicyRejected => "API_FILES_POLICY_REJECTED"
  | Cancelled => "API_FILES_CANCELLED"
  | DeadlineExceeded => "API_FILES_DEADLINE_EXCEEDED"
  | ResourceExhausted => "API_FILES_RESOURCE_EXHAUSTED"
  | Unavailable | CommitIndeterminate | Internal => availability_machine_code code
  | _ => "API_FILES_INTERNAL"
  end.
Definition as_str (code : ApiFilesErrorCode) : string :=
  match code with
  | InvalidArgument => "API_FILES_INVALID_ARGUMENT"
  | LimitExceeded => "API_FILES_LIMIT_EXCEEDED"
  | Unauthenticated => "API_FILES_UNAUTHENTICATED"
  | NotFound => "API_FILES_NOT_FOUND"
  | Conflict => "API_FILES_CONFLICT"
  | IntegrityFailure => "API_FILES_INTEGRITY_FAILURE"
  | PolicyRejected | Cancelled | DeadlineExceeded | ResourceExhausted | Unavailable | CommitIndeterminate | Internal =>
      execution_machine_code code
  end.
Definition project_core_error (code : ErrorCode) : ApiFilesErrorCode :=
  match code with
  | CoreTypes.InvalidArgument => InvalidArgument
  | CoreTypes.Conflict => Conflict
  | CoreTypes.Cancelled => Cancelled
  | CoreTypes.DeadlineExceeded => DeadlineExceeded
  | CoreTypes.ResourceExhausted => ResourceExhausted
  | CoreTypes.Unavailable => Unavailable
  | CoreTypes.Internal => Internal
  end.
Definition project_domain_service_error (code : ApiValues.ApiDomainErrorCode) : ApiFilesErrorCode :=
  match code with
  | ApiValues.DeadlineExceeded => DeadlineExceeded
  | ApiValues.ResourceExhausted => ResourceExhausted
  | ApiValues.Unavailable => Unavailable
  | ApiValues.Internal => Internal
  | _ => Internal
  end.
Definition project_domain_error (code : ApiValues.ApiDomainErrorCode) : ApiFilesErrorCode :=
  match code with
  | ApiValues.InvalidArgument | ApiValues.UnsupportedVersion => InvalidArgument
  | ApiValues.LimitExceeded => LimitExceeded
  | ApiValues.Conflict => Conflict
  | ApiValues.Cancelled => Cancelled
  | _ => project_domain_service_error code
  end.
Definition from_core_error (value : CoreError) : ApiFilesErrorCode := project_core_error (ce_code value).

(** ** Chunks, cursors and pages *)

Definition validate_non_empty_length (length maximum : N) : outcome unit :=
  reject_if (maximum <? length) LimitExceeded ;; reject_if (length =? 0) InvalidArgument.
Definition FileChunk := list Byte.byte.
Definition FileChunk_new (bytes : list Byte.byte) : outcome FileChunk :=
  validate_non_empty_length (len bytes) MAX_FILE_CHUNK_BYTES ;; mret bytes.
Definition FileListCursor := list Byte.byte.
Definition FileListCursor_new (bytes : list Byte.byte) : outcome FileListCursor :=
  validate_non_empty_length (len bytes) MAX_FILE_LIST_CURSOR_BYTES ;; mret bytes.
Definition FilePageLimit_new (value : N) : outcome N :=
  reject_if (MAX_FILE_PAGE_RESULTS <? value) LimitExceeded ;; reject_if (value =? 0) InvalidArgument ;; mret value.
Record FileListRequest := mk_FileListRequest { list_cursor : option FileListCursor; list_limit : N }.
Record FileListPage := mk_FileListPage { files : list ApiValues.FileDescriptor; next_cursor : option FileListCursor }.
Definition validate_page_result (result_count : N) (next_cursor_present : bool) (requested_limit : N) : outcome unit :=
  reject_if ((requested_limit <? result_count) || ((result_count =? 0) && next_cursor_present)) IntegrityFailure.
Definition FileListPage_new (xs : list ApiValues.FileDescriptor) (next : option FileListCursor) (requested_limit : N)
    : outcome FileListPage :=
  validate_page_result (len xs) (bool_decide (is_Some next)) requested_limit ;; mret (mk_FileListPage xs next).

Record FileUploadRequest := mk_FileUploadRequest { specification : ApiValues.FileUploadSpecification; upload_key : string }.
Record FileDeleteRequest := mk_FileDeleteRequest { delete_reference : ApiValues.FileReference; delete_key : string }.
Inductive FileUploadReconciliation := UploadCommitted (descriptor : ApiValues.FileDescriptor) | UploadNotCommitted.
Inductive FileDeleteReconciliation := Deleted | NotDeleted.

(** ** Access tickets ([access.rs]) *)

Definition MAX_LIFETIME_MICROS : Z := 900000000.
Definition ENVELOPE_RETENTION_MICROS : Z := 86400000000.
Definition TERMINAL_RETENTION_MICROS : Z := 2592000000000.
Definition FileAccessTicket := vec Byte.byte 32.
Definition MAXIMUM : N := 15 * 60 * 1000000000.
Definition FileAccessTicketLifetime_new (value : N) : outcome N :=
  reject_if (MAXIMUM <? value) LimitExceeded ;;
  reject_if ((value =? 0) || negb (value mod 1000 =? 0)) InvalidArgument ;;
  mret value.
Definition as_micros (lifetime : N) : N := truncate u64_max (lifetime / 1000).

(** [SystemTime::duration_since] the epoch: the distance, and whether it is before. *)
Definition since_epoch (value : Z) : N * bool := (Z.abs_N value, (value <? 0)%Z).
Definition signed_negative_micros (micros : N) : outcome Z :=
  if (micros =? Z.to_N i64_max + 1) then Ok i64_min
  else if (micros <=? Z.to_N i64_max) then Ok (- Z.of_N micros)%Z else Err InvalidArgument.
Definition signed_micros (duration : N) (before_epoch : bool) : outcome Z :=
  let micros := duration / 1000 in
  if before_epoch then signed_negative_micros micros
  else if (micros <=? Z.to_N i64_max) then Ok (Z.of_N micros) else Err InvalidArgument.
Definition exact_unix_micros (value : Z) : outcome Z :=
  let '(duration, before_epoch) := since_epoch value in
  reject_if (negb (duration mod 1000 =? 0)) InvalidArgument ;;
  signed_micros duration before_epoch.
(** The sum of the [u128]s cannot overflow for a [SystemTime]. *)
Definition floor_unix_micros (value : Z) : outcome Z :=
  let '(duration, before_epoch) := since_epoch value in
  if before_epoch then signed_negative_micros (duration / 1000 + (if duration mod 1000 =? 0 then 0 else 1))
  else signed_micros duration false.

Definition i64_checked_add (a b : Z) : option Z :=
  if ((i64_min <=? a + b) && (a + b <=? i64_max))%Z then Some (a + b)%Z else None.
Definition checked_window_length (issued_micros expires_micros : Z) : outcome Z :=
  reject_if (expires_micros <=? issued_micros)%Z InvalidArgument ;;
  length ← ok_or (i64_checked_sub expires_micros issued_micros) InvalidArgument;
  reject_if (MAX_LIFETIME_MICROS <? length)%Z LimitExceeded ;;
  mret length.
Definition ensure_retention_cutoffs (expires_micros : Z) : outcome unit :=
  ok_or (i64_checked_add expires_micros ENVELOPE_RETENTION_MICROS) InvalidArgument ;;
  ok_or (i64_checked_add expires_micros TERMINAL_RETENTION_MICROS) InvalidArgument ;;
  mret tt.
Record FileAccessTicketValidityWindow := mk_FileAccessTicketValidityWindow { issued_at : Z; expires_at : Z }.
Definition FileAccessTicketValidityWindow_new (issued_at expires_at : Z) : outcome FileAccessTicketValidityWindow :=
  issued_micros ← exact_unix_micros issued_at;
  expires_micros ← exact_unix_micros expires_at;
  checked_window_length issued_micros expires_micros ;;
  ensure_retention_cutoffs expires_micros ;;
  mret (mk_FileAccessTicketValidityWindow issued_at expires_at).
Definition is_valid_at (w : FileAccessTicketValidityWindow) (now : Z) : bool :=
  match floor_unix_micros now, exact_unix_micros (issued_at w), exact_unix_micros (expires_at w) with
  | Ok now_micros, Ok issued_micros, Ok expires_micros => ((issued_micros <=? now_micros) && (now_micros <? expires_micros))%Z
  | _, _, _ => false
  end.
Record FileAccessTicketIssueRequest := mk_FileAccessTicketIssueRequest {
  issue_reference : ApiValues.FileReference; issue_key : string; lifetime : N;
}.
Record FileAccessTicketGrant := mk_FileAccessTicketGrant {
  ticket : FileAccessTicket; grant_reference : ApiValues.FileReference; validity : FileAccessTicketValidityWindow;
}.
Inductive FileAccessTicketIssueReconciliation := IssueCommitted (grant : FileAccessTicketGrant) | IssueNotCommitted.

(** ** Catalog records ([catalog.rs]) *)

Record FileCatalogRecord := mk_FileCatalogRecord {
  owner : PrincipalContext; record_request : FileUploadRequest; descriptor : ApiValues.FileDescriptor;
}.
Definition validate_expected_digest (expected : option ApiValues.FileDigest) (verified : ApiValues.FileDigest) : outcome unit :=
  reject_if (is_some_and (fun e => negb (bool_decide (ApiValues.digest_bytes e = ApiValues.digest_bytes verified))) expected)
    IntegrityFailure.
Definition validate_descriptor (request : FileUploadRequest) (d : ApiValues.FileDescriptor) : outcome unit :=
  let s := specification request in
  reject_if (negb (String.eqb (ApiValues.display_name_str (ApiValues.upload_display_name s))
                     (ApiValues.display_name_str (ApiValues.descriptor_display_name d))) ||
             negb (String.eqb (ApiValues.file_media_type_str (ApiValues.upload_media_type s))
                     (ApiValues.file_media_type_str (ApiValues.descriptor_media_type d))) ||
             negb (ApiValues.file_bytes (ApiValues.upload_byte_length s) =?
                     ApiValues.file_bytes (ApiValues.descriptor_byte_length d))) IntegrityFailure ;;
  validate_expected_digest (ApiValues.expected_digest s) (ApiValues.descriptor_digest d).
Definition FileCatalogRecord_new (o : PrincipalContext) (request : FileUploadRequest) (d : ApiValues.FileDescriptor)
    : outcome FileCatalogRecord :=
  validate_descriptor request d ;; mret (mk_FileCatalogRecord o request d).
Definition from_authenticated_context (context : Cancellation.RequestContext) (request : FileUploadRequest)
    (d : ApiValues.FileDescriptor) : outcome FileCatalogRecord :=
  match Cancellation.principal context with
  | None => Err Unauthenticated
  | Some o => FileCatalogRecord_new o request d
  end.

(** ** Lemmas *)

Lemma chunk_new_Ok bytes c : FileChunk_new bytes = Ok c <-> c = bytes /\ bytes <> [] /\ len bytes <= MAX_FILE_CHUNK_BYTES.
Proof.
  unfold FileChunk_new, validate_non_empty_length, reject_if.
  destruct (N.ltb_spec MAX_FILE_CHUNK_BYTES (len bytes)); cbn; [split; [done|intros (_ & _ & ?); lia]|].
  destruct (N.eqb_spec (len bytes) 0) as [E|E]; cbn.
  - split; [done|]. intros (_ & Hn & _). destruct bytes; [done|]. unfold len in E. cbn in E. lia.
  - split; [intros [= <-]; split_and!; [done| |lia]; by intros ->|by intros (-> & _ & _)].
Qed.

Definition in_i64 (z : Z) : bool := ((i64_min <=? z) && (z <=? i64_max))%Z.
Lemma signed_negative_spec m : signed_negative_micros m = if in_i64 (- Z.of_N m) then Ok (- Z.of_N m)%Z else Err InvalidArgument.
Proof.
  unfold signed_negative_micros, in_i64, i64_min, i64_max.
  destruct (N.eqb_spec m (Z.to_N 9223372036854775807 + 1)) as [->|Hn]; [reflexivity|].
  destruct (N.leb_spec m (Z.to_N 9223372036854775807)), (Z.leb_spec (-9223372036854775808) (- Z.of_N m)),
    (Z.leb_spec (- Z.of_N m) 9223372036854775807); cbn; try done; lia.
Qed.
Lemma signed_positive_spec d : signed_micros d false = if in_i64 (Z.of_N (d / 1000)) then Ok (Z.of_N (d / 1000)) else Err InvalidArgument.
Proof.
  unfold signed_micros, in_i64, i64_min, i64_max. generalize (d / 1000) as m. intros m.
  destruct (N.leb_spec m (Z.to_N 9223372036854775807)), (Z.leb_spec (-9223372036854775808) (Z.of_N m)),
    (Z.leb_spec (Z.of_N m) 9223372036854775807); cbn; try done; lia.
Qed.
Lemma floor_spec t : floor_unix_micros t = if in_i64 (t / 1000) then Ok (t / 1000)%Z else Err InvalidArgument.
Proof.
  unfold floor_unix_micros, since_epoch. destruct (Z.ltb_spec t 0) as [Hneg|Hpos].
  - rewrite signed_negative_spec.
    assert (- Z.of_N (Z.abs_N t / 1000 + (if Z.abs_N t mod 1000 =? 0 then 0 else 1))%N = t / 1000)%Z as ->; [|done].
    rewrite N2Z.inj_add, N2Z.inj_div, N2Z.inj_abs_N. change (Z.of_N 1000) with 1000%Z.
    assert (Z.of_N (Z.abs_N t mod 1000)%N = (Z.abs t) mod 1000)%Z as Hm by by rewrite N2Z.inj_mod, N2Z.inj_abs_N.
    pose proof (Z.div_mod (Z.abs t) 1000 ltac:(lia)). pose proof (Z.mod_pos_bound (Z.abs t) 1000 ltac:(lia)).
    pose proof (Z.div_mod t 1000 ltac:(lia)). pose proof (Z.mod_pos_bound t 1000 ltac:(lia)).
    destruct (N.eqb_spec (Z.abs_N t mod 1000) 0); lia.
  - rewrite signed_positive_spec. assert (Z.of_N (Z.abs_N t / 1000)%N = t / 1000)%Z as ->; [|done].
    rewrite N2Z.inj_div, N2Z.inj_abs_N. by rewrite Z.abs_eq.
Qed.
Lemma exact_spec t : exact_unix_micros t = if (t mod 1000 =? 0)%Z && in_i64 (t / 1000) then Ok (t / 1000)%Z else Err InvalidArgument.
Proof.
  unfold exact_unix_micros, since_epoch.
  assert ((Z.abs_N t mod 1000 =? 0) = (t mod 1000 =? 0)%Z) as Hm.
  { assert (Z.of_N (Z.abs_N t mod 1000)%N = (Z.abs t) mod 1000)%Z as E by by rewrite N2Z.inj_mod, N2Z.inj_abs_N.
    pose proof (Z.div_mod (Z.abs t) 1000 ltac:(lia)). pose proof (Z.mod_pos_bound (Z.abs t) 1000 ltac:(lia)).
    pose proof (Z.div_mod t 1000 ltac:(lia)). pose proof (Z.mod_pos_bound t 1000 ltac:(lia)).
    destruct (N.eqb_spec (Z.abs_N t mod 1000) 0), (Z.eqb_spec (t mod 1000) 0); try done; lia. }
  rewrite Hm. destruct (Z.eqb_spec (t mod 1000) 0) as [E|E]; [cbn [negb andb]|reflexivity]. cbn [reject_if mbind result_bind].
  rewrite <- (floor_spec t). unfold floor_unix_micros, since_epoch, signed_micros.
  destruct (t <? 0)%Z; [|reflexivity]. rewrite Hm. by rewrite N.add_0_r.
Qed.

(** ** Theorems *)

(** A window is accepted exactly when both bounds are whole microseconds that a signed
    64-bit count represents, with room for the retention of what it leaves behind, the
    second is later than the first and by at most fifteen minutes; an accepted window is
    valid at exactly the instants from the first to before the second, and of the
    instants outside the representable ones it is valid at none. *)
Theorem validity_window_exact issued expires w :
  FileAccessTicketValidityWindow_new issued expires = Ok w <->
  w = mk_FileAccessTicketValidityWindow issued expires /\
  (issued mod 1000 = 0 /\ expires mod 1000 = 0)%Z /\
  (i64_min <= issued / 1000)%Z /\ (expires / 1000 + TERMINAL_RETENTION_MICROS <= i64_max)%Z /\
  (issued < expires)%Z /\ (expires - issued <= Z.of_N MAXIMUM)%Z.
Proof.
  unfold FileAccessTicketValidityWindow_new. rewrite !exact_spec.
  destruct (Z.eqb_spec (issued mod 1000) 0) as [Hi|Hi]; cbn [andb]; [|split; [done|intros (_ & [? _] & _); done]].
  destruct (in_i64 (issued / 1000)) eqn:Ei; cbn [mbind result_bind].
  2: { split; [done|]. intros (_ & [_ He] & Hlo & Hhi & Hlt & _). exfalso. unfold in_i64 in Ei.
       apply andb_false_iff in Ei. unfold i64_min, i64_max, TERMINAL_RETENTION_MICROS in *.
       assert (issued / 1000 <= expires / 1000)%Z by (apply Z.div_le_mono; lia).
       rewrite !Z.leb_gt in Ei. lia. }
  destruct (Z.eqb_spec (expires mod 1000) 0) as [He|He]; cbn [andb]; [|split; [done|intros (_ & [_ ?] & _); done]].
  pose proof (Z.div_mod issued 1000 ltac:(lia)) as Di. pose proof (Z.div_mod expires 1000 ltac:(lia)) as De.
  set (i := (issued / 1000)%Z) in *. set (e := (expires / 1000)%Z) in *.
  unfold in_i64 in Ei. apply andb_true_iff in Ei as [Ei1%Z.leb_le Ei2%Z.leb_le].
  destruct (in_i64 e) eqn:Ee; cbn [mbind result_bind].
  2: { split; [done|]. intros (_ & _ & Hlo & Hhi & Hlt & _). exfalso. unfold in_i64 in Ee.
       apply andb_false_iff in Ee. rewrite !Z.leb_gt in Ee. unfold i64_min, i64_max, TERMINAL_RETENTION_MICROS in *. lia. }
  unfold in_i64 in Ee. apply andb_true_iff in Ee as [Ee1%Z.leb_le Ee2%Z.leb_le].
  unfold checked_window_length, ensure_retention_cutoffs, reject_if, i64_checked_sub, i64_checked_add,
    MAX_LIFETIME_MICROS, ENVELOPE_RETENTION_MICROS, TERMINAL_RETENTION_MICROS, i64_min, i64_max, MAXIMUM in *.
  destruct (Z.leb_spec e i); cbn; [split; [done|intros (_ & _ & _ & _ & ? & _); lia]|].
  destruct (Z.leb_spec (-9223372036854775808) (e - i)); [|lia].
  destruct (Z.leb_spec (e - i) 9223372036854775807); cbn.
  2: { split; [done|]. intros (_ & _ & _ & _ & _ & ?). lia. }
  destruct (Z.ltb_spec 900000000 (e - i)); cbn; [split; [done|intros (_ & _ & _ & _ & _ & ?); lia]|].
  destruct (Z.leb_spec (-9223372036854775808) (e + 86400000000)); [|lia].
  destruct (Z.leb_spec (e + 86400000000) 9223372036854775807); cbn.
  2: { split; [done|]. intros (_ & _ & _ & ? & _). lia. }
  destruct (Z.leb_spec (-9223372036854775808) (e + 2592000000000)); [|lia].
  destruct (Z.leb_spec (e + 2592000000000) 9223372036854775807); cbn.
  2: { split; [done|]. intros (_ & _ & _ & ? & _). lia. }
  split; [intros [= <-]; split_and!; try done; lia|by intros (-> & _)].
Qed.

Theorem validity_exact issued expires w now
    (Hw : FileAccessTicketValidityWindow_new issued expires = Ok w) :
  is_valid_at w now = true <-> (issued_at w <= now < expires_at w)%Z.
Proof.
  apply validity_window_exact in Hw as (-> & [Hi He] & Hlo & Hhi & Hlt & Hlen). cbn [issued_at expires_at].
  unfold is_valid_at. cbn [issued_at expires_at]. rewrite floor_spec, !exact_spec.
  pose proof (Z.div_mod issued 1000 ltac:(lia)) as Di. pose proof (Z.div_mod expires 1000 ltac:(lia)) as De.
  pose proof (Z.div_mod now 1000 ltac:(lia)) as Dn. pose proof (Z.mod_pos_bound now 1000 ltac:(lia)) as Bn.
  rewrite (proj2 (Z.eqb_eq _ _) Hi), (proj2 (Z.eqb_eq _ _) He). cbn [andb].
  unfold i64_min, i64_max, TERMINAL_RETENTION_MICROS in *.
  assert (in_i64 (issued / 1000) = true /\ in_i64 (expires / 1000) = true) as [-> ->].
  { unfold in_i64, i64_min, i64_max. rewrite !andb_true_iff, !Z.leb_le. lia. }
  unfold in_i64, i64_min, i64_max.
  destruct (Z.leb_spec (-9223372036854775808) (now / 1000)); cbn [andb]; [|split; [done|lia]].
  destruct (Z.leb_spec (now / 1000) 9223372036854775807); cbn [andb]; [|split; [done|lia]].
  rewrite andb_true_iff, Z.leb_le, Z.ltb_lt. lia.
Qed.
Lemma validity_exact_witness : exists w, FileAccessTicketValidityWindow_new (-1000) 2000 = Ok w /\ is_valid_at w (-1) = true /\
  is_valid_at w 2000 = false.
Proof.
  eexists. split; [reflexivity|]. split.
  - apply (proj2 (validity_exact (-1000) 2000 _ (-1) eq_refl)). cbn. lia.
  - destruct (is_valid_at _ 2000) eqn:E; [|done]. apply (validity_exact (-1000) 2000 _ 2000 eq_refl) in E. cbn in E. lia.
Defined.
