(* ===== verification/FilePipe.v ===== *)
(** * The bounded pipe of the file service

    Models [crates/optional/ariadnion-file-service/src/pipe.rs]: one chunk at a time crosses
    between an asynchronous end and a blocking one, by a mutex, a condition variable and one
    registered waker.  An upload has an asynchronous sender and a blocking reader, a
    download a blocking writer and an asynchronous receiver; an abort handle, a failed
    context, a waker that panics or a dropped end aborts the pipe.

    The unit of interleaving is the critical section: each [..._section] is what one
    acquisition of the mutex does, and an operation is the sequence of its sections with
    whatever the other threads do before each ([others] of [outside]).  A waker whose drop
    panics under the lock poisons the mutex, which the next acquisition finds, aborts the
    pipe for and clears.  [Pipe] holds the shared state, the fields of both ends, the
    future of an offer that is under way and, for the specification only, the bytes
    [accepted] into the pipe and [delivered] out of it.  Loops that wait carry fuel: [None]
    is a wait that has not ended yet. *)

From Stdlib Require Strings.Byte.
From S2P Require Import Prelude CoreTypes.
From S2P Require ApiFiles Cancellation.
#[local] Open Scope N_scope.

Notation bytes := (list Byte.byte).
Notation Waker := nat (only parsing).
Notation outcome := (result ApiFiles.ApiFilesErrorCode).

(** [Duration] is nanoseconds. *)
Definition WAIT_QUANTUM : N := 10 * 1000000.

(** ** The state behind the mutex *)

Inductive TerminalState := Open | PublishingEof | Eof | Aborted.
#[export] Instance TerminalState_eq_dec : EqDecision TerminalState.
Proof. solve_decision. Defined.
Record PipeState := mk_PipeState {
  retained : option (N * bytes); in_flight : option N; terminal : TerminalState; async_waker : option Waker;
  receiver_waker_updates : N; io_fault_observed : bool;
}.
#[export] Instance PipeState_eta : Eta PipeState := fun s =>
  mk_PipeState (retained s) (in_flight s) (terminal s) (async_waker s) (receiver_waker_updates s) (io_fault_observed s).
Definition PipeState_new : PipeState := mk_PipeState None None Open None 0 false.
Definition abort (io_fault : bool) (s : PipeState) : PipeState * option Waker :=
  if bool_decide (terminal s = Eof) then (s, None)
  else (mk_PipeState None None Aborted None (receiver_waker_updates s) (io_fault_observed s || io_fault), async_waker s).

(** [std::io::ErrorKind], as far as the pipe raises it. *)
Inductive IoError := BrokenPipe | Interrupted | TimedOut | Other.
Definition internal_error : ApiFiles.ApiFilesErrorCode := ApiFiles.Internal.
Definition aborted_error (s : PipeState) : ApiFiles.ApiFilesErrorCode :=
  if io_fault_observed s then ApiFiles.Unavailable else ApiFiles.Internal.
Definition internal_io_error : IoError := Other.
Definition aborted_io_error (s : PipeState) : IoError := if io_fault_observed s then BrokenPipe else internal_io_error.
Definition aborted_or_internal_io_error (s : PipeState) : IoError :=
  if bool_decide (terminal s = Aborted) then aborted_io_error s else internal_io_error.
Definition api_to_io (error : ApiFiles.ApiFilesErrorCode) : IoError :=
  match error with
  | ApiFiles.Cancelled => Interrupted
  | ApiFiles.DeadlineExceeded => TimedOut
  | ApiFiles.Unavailable => BrokenPipe
  | _ => internal_io_error
  end.
Definition core_to_io (error : CoreError) : IoError :=
  match ce_code error with
  | CoreTypes.Cancelled => Interrupted
  | CoreTypes.DeadlineExceeded => TimedOut
  | _ => internal_io_error
  end.

(** A poll of a future; [Unwound] is a panic that leaves it. *)
Inductive Poll (A : Type) := Ready (r : outcome A) | Pending | Unwound.
Arguments Ready {A} r.
Arguments Pending {A}.
Arguments Unwound {A}.

(** *** The sender of an upload *)

Definition retained_sequence (s : PipeState) : option N := fst <$> retained s.
(** [state.async_waker = Some(waker)], which drops the waker it replaces. *)
Definition register (waker : Waker) (drop_ok : bool) (s : PipeState) : PipeState * Poll unit :=
  (s <| async_waker := Some waker |>, if bool_decide (is_Some (async_waker s)) && negb drop_ok then Unwound else Pending).
Definition begin_offer (sequence : N) (held : option bytes) (waker : Waker) (drop_ok : bool) (s : PipeState)
    : PipeState * (option bytes * Poll unit) :=
  if bool_decide (is_Some (retained s)) || bool_decide (is_Some (in_flight s)) then
    let '(s, polled) := register waker drop_ok s in (s, (held, polled))
  else
    let '(s, polled) := register waker drop_ok (s <| retained := pair sequence <$> held |>) in (s, (None, polled)).
Definition finish_offer_poll (sequence : N) (waker : Waker) (drop_ok : bool) (s : PipeState) : PipeState * Poll unit :=
  if negb (bool_decide (is_Some (retained s))) && negb (bool_decide (is_Some (in_flight s))) then (s, Ready (Ok tt))
  else if bool_decide (retained_sequence s = Some sequence) || bool_decide (in_flight s = Some sequence)
  then register waker drop_ok s
  else ((abort false s).1, Ready (Err internal_error)).
Definition poll_offered_state (sequence : N) (held : option bytes) (waker : Waker) (drop_ok : bool) (s : PipeState)
    : PipeState * (option bytes * Poll unit) :=
  match terminal s with
  | Aborted => (s, (held, Ready (Err (aborted_error s))))
  | PublishingEof | Eof => (s, (held, Ready (Err internal_error)))
  | Open =>
      if bool_decide (is_Some held) then begin_offer sequence held waker drop_ok s
      else let '(s, polled) := finish_offer_poll sequence waker drop_ok s in (s, (held, polled))
  end.
Definition finished_terminal_poll (s : PipeState) : option (Poll unit) :=
  match terminal s with
  | Open => None
  | Eof => Some (Ready (Ok tt))
  | PublishingEof => Some (Ready (Err internal_error))
  | Aborted => Some (Ready (Err (aborted_error s)))
  end.
Definition poll_finish_state (waker : Waker) (drop_ok : bool) (s : PipeState) : PipeState * Poll unit :=
  match finished_terminal_poll s with
  | Some polled => (s, polled)
  | None =>
      if bool_decide (is_Some (retained s)) || bool_decide (is_Some (in_flight s)) then register waker drop_ok s
      else (s <| terminal := Eof |>, Ready (Ok tt))
  end.

(** *** The reader of an upload *)

Inductive ReadStep := Data (copied : bytes) (waker : option Waker) | WaitRead | EofRead | AbortedRead (e : IoError).
Definition empty_read_step (s : PipeState) : ReadStep :=
  match terminal s with
  | Open => WaitRead
  | Eof => EofRead
  | PublishingEof => AbortedRead internal_io_error
  | Aborted => AbortedRead (aborted_io_error s)
  end.
Definition finish_blocking_read (s : PipeState) (offset : N) : PipeState * N * option Waker :=
  if is_some_and (fun '(_, b) => offset =? len b) (retained s)
  then (s <| retained := None |> <| in_flight := None |> <| async_waker := None |>, 0, async_waker s)
  else (s, offset, None).
(** The output has [room] for so many bytes. *)
Definition read_step (offset room : N) (s : PipeState) : PipeState * N * ReadStep :=
  match retained s with
  | None => (s, offset, empty_read_step s)
  | Some (sequence, b) =>
      let s := match in_flight s with None => s <| in_flight := Some sequence |> | Some _ => s end in
      if bool_decide (in_flight s <> Some sequence) || (len b <=? offset)
      then ((abort false s).1, offset, AbortedRead internal_io_error)
      else
        let count := N.min room (len b - offset) in
        let copied := take (N.to_nat count) (drop (N.to_nat offset) b) in
        let '(s, offset, waker) := finish_blocking_read s (offset + count) in
        (s, offset, Data copied waker)
  end.

(** *** The receiver of a download *)

Record PipeReceivedChunk := mk_PipeReceivedChunk { sequence : N; chunk : ApiFiles.FileChunk }.
Record ReceiveReady := mk_ReceiveReady { received : outcome (option PipeReceivedChunk); notification : option Waker }.
Inductive ReceivePollStep := ReadyStep (ready : ReceiveReady) | RegisterWaker.
Record ReceiverWakerInstallation := mk_ReceiverWakerInstallation {
  step : ReceivePollStep; discarded : option Waker; installation_failed : bool;
}.
Definition ready_receive_error (error : ApiFiles.ApiFilesErrorCode) (waker : option Waker) : ReceiveReady :=
  mk_ReceiveReady (Err error) waker.
Definition receive_error (error : ApiFiles.ApiFilesErrorCode) (waker : option Waker) : ReceivePollStep :=
  ReadyStep (mk_ReceiveReady (Err error) waker).
Definition receive_retained (seq : N) (b : bytes) (s : PipeState) : PipeState * ReceiveReady :=
  match ApiFiles.FileChunk_new b with
  | Err _ => let '(s, waker) := abort false s in (s, ready_receive_error internal_error waker)
  | Ok c => (s <| in_flight := Some seq |>, mk_ReceiveReady (Ok (Some (mk_PipeReceivedChunk seq c))) None)
  end.
Definition begin_receiver_waker_update (s : PipeState) : PipeState * ReceivePollStep :=
  match checked_add u64_max (receiver_waker_updates s) 1 with
  | Some next => (s <| receiver_waker_updates := next |>, RegisterWaker)
  | None => let '(s, waker) := abort false s in (s, receive_error internal_error waker)
  end.
Definition terminal_receive_poll_step (s : PipeState) : PipeState * ReceivePollStep :=
  match terminal s with
  | Open | PublishingEof => begin_receiver_waker_update s
  | Eof => (s, ReadyStep (mk_ReceiveReady (Ok None) None))
  | Aborted => (s, receive_error (aborted_error s) None)
  end.
Definition receive_poll_step (s : PipeState) : PipeState * ReceivePollStep :=
  if bool_decide (is_Some (in_flight s)) then begin_receiver_waker_update s
  else match retained s with
       | Some (seq, b) => let '(s, ready) := receive_retained seq b (s <| retained := None |>) in (s, ReadyStep ready)
       | None => terminal_receive_poll_step s
       end.
Definition install_pending_receiver_waker (waker : Waker) (s : PipeState) : PipeState * ReceiverWakerInstallation :=
  (s <| async_waker := Some waker |>, mk_ReceiverWakerInstallation RegisterWaker (async_waker s) false).
Definition install_ready_receiver_waker (ready : ReceiveReady) (waker : Waker) : ReceiverWakerInstallation :=
  mk_ReceiverWakerInstallation (ReadyStep ready) (Some waker) false.
Definition install_terminal_receiver_waker (waker : Waker) (s : PipeState) : PipeState * ReceiverWakerInstallation :=
  match terminal s with
  | Open | PublishingEof => install_pending_receiver_waker waker s
  | Eof => (s, install_ready_receiver_waker (mk_ReceiveReady (Ok None) None) waker)
  | Aborted => (s, install_ready_receiver_waker (ready_receive_error (aborted_error s) None) waker)
  end.
Definition install_receiver_waker_state (waker : Waker) (s : PipeState) : PipeState * ReceiverWakerInstallation :=
  if bool_decide (is_Some (in_flight s)) then install_pending_receiver_waker waker s
  else match retained s with
       | Some (seq, b) =>
           let '(s, ready) := receive_retained seq b (s <| retained := None |>) in (s, install_ready_receiver_waker ready waker)
       | None => install_terminal_receiver_waker waker s
       end.
Definition decrement_receiver_waker_updates (s : PipeState) : PipeState * bool :=
  match checked_sub (receiver_waker_updates s) 1 with
  | Some remaining => (s <| receiver_waker_updates := remaining |>, true)
  | None => (s, false)
  end.
Definition take_receive_notification (st : ReceivePollStep) : option Waker :=
  match st with ReadyStep ready => notification ready | RegisterWaker => None end.
Definition resolve_receive_poll_step (st : ReceivePollStep) : Poll (option PipeReceivedChunk) :=
  match st with ReadyStep ready => Ready (received ready) | RegisterWaker => Pending end.

(** *** The writer of a download *)

Inductive EmptyWaitState := EmptyReady | EmptyWait | EmptyAborted (e : IoError).
Definition empty_wait_state (s : PipeState) : EmptyWaitState :=
  match terminal s with
  | Aborted => EmptyAborted (aborted_io_error s)
  | PublishingEof | Eof => EmptyAborted internal_io_error
  | Open => if negb (bool_decide (is_Some (retained s))) && negb (bool_decide (is_Some (in_flight s))) then EmptyReady else EmptyWait
  end.
Inductive AcknowledgementState := Acknowledged | AckWait | AckInvalid | AckAborted (e : IoError).
Definition acknowledgement_state (seq : N) (s : PipeState) : AcknowledgementState :=
  match terminal s, retained_sequence s, in_flight s with
  | Aborted, _, _ => AckAborted (aborted_io_error s)
  | _, None, None => Acknowledged
  | _, kept, flying =>
      if is_some_and (N.eqb seq) kept then AckWait else if is_some_and (N.eqb seq) flying then AckWait else AckInvalid
  end.
Definition retain_blocking (seq : N) (input : bytes) (s : PipeState) : PipeState * result IoError (option Waker) :=
  if negb (bool_decide (terminal s = Open)) || bool_decide (is_Some (retained s)) || bool_decide (is_Some (in_flight s))
  then (s, Err (aborted_or_internal_io_error s))
  else (s <| retained := Some (seq, input) |> <| async_waker := None |>, Ok (async_waker s)).
Inductive BlockingFinishStep := Deliver (waker : Waker) | Recheck | Published | FinishAborted (e : IoError).
Definition publishing_finish_step (s : PipeState) : PipeState * BlockingFinishStep :=
  if negb (receiver_waker_updates s =? 0) then (s, Recheck)
  else match async_waker s with
       | Some waker => (s <| async_waker := None |>, Deliver waker)
       | None => (s <| terminal := Eof |>, Published)
       end.
Definition next_blocking_finish_step (s : PipeState) : PipeState * BlockingFinishStep :=
  match terminal s with
  | PublishingEof => publishing_finish_step s
  | Eof => (s, Published)
  | Aborted => (s, FinishAborted (aborted_io_error s))
  | Open => (s, FinishAborted internal_io_error)
  end.
Definition begin_blocking_finish (s : PipeState) : PipeState * BlockingFinishStep :=
  match terminal s with
  | Open => next_blocking_finish_step (s <| terminal := PublishingEof |>)
  | Eof => (s, Published)
  | PublishingEof => (s, FinishAborted internal_io_error)
  | Aborted => (s, FinishAborted (aborted_io_error s))
  end.

(** ** The pipe and its critical sections *)

(** Where the poll of a receiver is: between polls, or after its first or second section. *)
Inductive ReceiverStage := Idle | Begun | Installed.
#[export] Instance ReceiverStage_eq_dec : EqDecision ReceiverStage.
Proof. solve_decision. Defined.
Record Pipe := mk_Pipe {
  shared : Lock PipeState;
  next_sequence : N;           (* of the sender or the writer *)
  offset : N;                  (* of the reader *)
  offering : option N;         (* the sequence of the last offer *)
  held : option bytes;         (* what it has not handed over yet *)
  stage : ReceiverStage;
  cleared : bool;              (* the writer found the pipe empty and has not filled it since *)
  accepted : bytes;
  taken : bytes;
}.
#[export] Instance Pipe_eta : Eta Pipe := fun p =>
  mk_Pipe (shared p) (next_sequence p) (offset p) (offering p) (held p) (stage p) (cleared p) (accepted p) (taken p).
(** [upload_pipe] and [download_pipe] make the same shared state. *)
Definition new_pipe : Pipe := mk_Pipe (mk_lock false PipeState_new) 0 0 None None Idle false [] [].
Definition state (p : Pipe) : PipeState := lock_data (shared p).
Definition set_state (s : PipeState) (p : Pipe) : Pipe := p <| shared := mk_lock (lock_poisoned (shared p)) s |>.
Definition on_state {A} (f : PipeState -> PipeState * A) (p : Pipe) : Pipe * A :=
  let '(s, a) := f (state p) in (set_state s p, a).

(** What a poll leaves behind: a poisoned lock if it unwound, no future if it is done. *)
Definition unwound {A} (polled : Poll A) : bool := match polled with Unwound => true | _ => false end.
Definition still_pending {A} (polled : Poll A) : bool := match polled with Pending => true | _ => false end.
Definition handed_over (before after : option bytes) : bytes :=
  match before, after with Some b, None => b | _, _ => [] end.
Definition offer_section (seq : N) (waker : Waker) (drop_ok : bool) (p : Pipe) : Pipe * Poll unit :=
  let '(s, (rest, polled)) := poll_offered_state seq (held p) waker drop_ok (state p) in
  (p <| shared := mk_lock (unwound polled) s |> <| held := rest |> <| accepted := accepted p ++ handed_over (held p) rest |>, polled).
Definition finish_section (waker : Waker) (drop_ok : bool) (p : Pipe) : Pipe * Poll unit :=
  let '(s, polled) := poll_finish_state waker drop_ok (state p) in
  (p <| shared := mk_lock (unwound polled) s |>, polled).
Definition copied_by (st : ReadStep) : bytes := match st with Data copied _ => copied | _ => [] end.
Definition read_section (room : N) (p : Pipe) : Pipe * ReadStep :=
  let '(s, offset', st) := read_step (offset p) room (state p) in
  (set_state s p <| offset := offset' |> <| taken := taken p ++ copied_by st |>, st).

Definition empty_section (p : Pipe) : Pipe * EmptyWaitState :=
  let found := empty_wait_state (state p) in
  (match found with EmptyReady => p <| cleared := true |> | _ => p end, found).
Definition retain_section (seq : N) (input : bytes) (p : Pipe) : Pipe * result IoError (option Waker) :=
  let '(p', r) := on_state (retain_blocking seq input) p in
  (match r with Ok _ => p' <| cleared := false |> <| accepted := accepted p ++ input |> | Err _ => p' end, r).
Definition chunk_of (st : ReceivePollStep) : bytes :=
  match st with ReadyStep (mk_ReceiveReady (Ok (Some c)) _) => chunk c | _ => [] end.
Definition begin_receive_section (p : Pipe) : Pipe * ReceivePollStep :=
  let '(p', st) := on_state receive_poll_step p in
  (p' <| taken := taken p ++ chunk_of st |> <| stage := match st with RegisterWaker => Begun | _ => stage p end |>, st).
Definition install_section (waker : Waker) (p : Pipe) : Pipe * ReceiverWakerInstallation :=
  let '(p', i) := on_state (install_receiver_waker_state waker) p in
  (p' <| taken := taken p ++ chunk_of (step i) |> <| stage := Installed |>, i).
Definition complete_section (failing : bool) (p : Pipe) : Pipe * (option Waker * bool) :=
  let '(p', decremented) := on_state decrement_receiver_waker_updates p in
  let failed := failing || negb decremented in
  let '(p', waker) := if failed then on_state (abort false) p' else (p', None) in
  (p' <| stage := Idle |>, (waker, failed)).
(** [None] is a sequence that is not the one in flight. *)
Definition acknowledge_section (seq : N) (p : Pipe) : Pipe * option (option Waker) :=
  on_state (fun s =>
    if negb (bool_decide (in_flight s = Some seq)) || bool_decide (is_Some (retained s)) then (s, None)
    else (s <| in_flight := None |> <| async_waker := None |>, Some (async_waker s))) p.
Definition unpublished_section (p : Pipe) : Pipe * option Waker :=
  on_state (fun s => match terminal s with Open | PublishingEof => abort false s | _ => (s, None) end) p.
(** The two acquisitions of [lock_state] and [relock_poisoned_state] that find a poisoned lock. *)
Definition recover_section (p : Pipe) : Pipe * option Waker :=
  let '(s, waker) := abort false (state p) in (p <| shared := mk_lock false s |>, waker).
Definition relock_section (p : Pipe) : Pipe :=
  if lock_poisoned (shared p) && negb (bool_decide (terminal (state p) = Eof))
  then set_state ((state p) <| terminal := Aborted |> <| retained := None |> <| in_flight := None |>) p else p.

(** ** Operations *)

Record Outside := mk_Outside {
  others : Pipe -> Pipe; tree : Cancellation.Tree; now : N; clone_ok : bool; wake_ok : bool; drop_ok : bool;
}.
Record World := mk_World { pipe : Pipe; tick : nat }.
(** How a blocking call ends early. *)
Inductive Stop := Raised (e : IoError) | StillWaiting.

Section pipe.
  Variable outside : nat -> Outside.

(** A point where other threads act, and one under the lock, where they do not. *)
Definition look {E} : act World E Outside := fun w =>
  let o := outside (tick w) in (mk_World (others o (pipe w)) (S (tick w)), Ok o).
Definition peek {E} : act World E Outside := fun w => (mk_World (pipe w) (S (tick w)), Ok (outside (tick w))).
Definition run {E A} (f : Pipe -> Pipe * A) : act World E A := fun w =>
  let '(p, a) := f (pipe w) in (mk_World p (tick w), Ok a).
Definition wake_caught {E} (waker : option Waker) : act World E bool :=
  match waker with None => mret true | Some _ => o ← look; mret (wake_ok o) end.
Definition drop_waker_caught {E} (waker : option Waker) : act World E bool :=
  match waker with None => mret true | Some _ => o ← look; mret (drop_ok o) end.
(** [lock_state] and what is done with its guard, told whether the lock was poisoned. *)
Definition critical {E A} (body : bool -> Pipe -> Pipe * A) : act World E A :=
  look ;;
  w ← get;
  if lock_poisoned (shared (pipe w)) then
    waker ← run recover_section;
    wake_caught waker ;;
    look ;;
    run (fun p => body true (relock_section p))
  else run (body false).
Definition abort_shared {E} (io_fault : bool) : act World E unit :=
  waker ← critical (fun _ => on_state (abort io_fault)); wake_caught waker ;; mret tt.
Definition abort_if_unpublished {E} : act World E unit :=
  waker ← critical (fun _ => unpublished_section); wake_caught waker ;; mret tt.
Definition wake_or_abort {E} (waker : option Waker) : act World E (outcome unit) :=
  woken ← wake_caught waker;
  if woken : bool then mret (Ok tt) else abort_shared false ;; mret (Err internal_error).
Definition check_context {E} (context : Cancellation.RequestContext) : act World E (result CoreError unit) :=
  o ← look; mret (Cancellation.check_active_at (tree o) context (now o)).

(** *** Sender *)

Definition advance_sequence {E} : act World E (outcome N) :=
  w ← get;
  let sequence := next_sequence (pipe w) in
  match checked_add u64_max sequence 1 with
  | None => abort_shared false ;; mret (Err internal_error)
  | Some following => run (fun p => (p <| next_sequence := following |>, tt)) ;; mret (Ok sequence)
  end.
(** [offer] up to its first poll. *)
Definition start_offer {E} (c : ApiFiles.FileChunk) : act World E (outcome N) :=
  sequence ← advance_sequence;
  match sequence with
  | Ok seq => run (fun p => (p <| offering := Some seq |> <| held := Some c |>, tt)) ;; mret (Ok seq)
  | Err e => mret (Err e)
  end.
Definition poll_sender {E} (context : Cancellation.RequestContext) (body : bool -> Pipe -> Pipe * Poll unit) : act World E (Poll unit) :=
  active ← check_context context;
  match active with
  | Err e => abort_shared true ;; mret (Ready (Err (ApiFiles.from_core_error e)))
  | Ok _ =>
      o ← look;
      if clone_ok o then
        o ← peek;
        critical (fun poisoned p => if poisoned : bool then (p, Ready (Err internal_error)) else body (drop_ok o) p)
      else abort_shared false ;; mret (Ready (Err internal_error))
  end.
Definition poll_offer {E} (seq : N) (context : Cancellation.RequestContext) (task : Waker) : act World E (Poll unit) :=
  poll_sender context (fun ok => offer_section seq task ok).
Definition poll_finish {E} (context : Cancellation.RequestContext) (task : Waker) : act World E (Poll unit) :=
  poll_sender context (fun ok => finish_section task ok).

(** *** Receiver *)

Definition acknowledge {E} (seq : N) : act World E (outcome unit) :=
  found ← critical (fun poisoned p => if poisoned : bool then (p, None) else let '(p, r) := acknowledge_section seq p in (p, Some r));
  match found with
  | None => mret (Err internal_error)
  | Some None => abort_shared false ;; mret (Err internal_error)
  | Some (Some waker) => wake_or_abort waker
  end.
Definition begin_receive_poll {E} : act World E ReceivePollStep :=
  critical (fun poisoned p => if poisoned : bool then (p, receive_error internal_error None) else begin_receive_section p).
Definition finish_receive_ready {E} (ready : ReceiveReady) : act World E (Poll (option PipeReceivedChunk)) :=
  wake_caught (notification ready) ;; mret (Ready (received ready)).
Definition install_receiver_waker {E} (waker : Waker) : act World E ReceiverWakerInstallation :=
  critical (fun poisoned p =>
    if poisoned : bool then (p, mk_ReceiverWakerInstallation (receive_error internal_error None) (Some waker) true)
    else install_section waker p).
Definition complete_receiver_waker_update {E} (succeeded : bool) : act World E (option Waker * bool) :=
  critical (fun poisoned => complete_section (negb succeeded || poisoned)).
Definition fail_receiver_waker_update {E} : act World E (Poll (option PipeReceivedChunk)) :=
  '(waker, _) ← complete_receiver_waker_update false;
  wake_caught waker ;; mret (Ready (Err internal_error)).
Definition resolve_receiver_waker_installation {E} (i : ReceiverWakerInstallation) : act World E (Poll (option PipeReceivedChunk)) :=
  discarded_cleanly ← drop_waker_caught (discarded i);
  '(completion, completion_failed) ← complete_receiver_waker_update (negb (installation_failed i) && discarded_cleanly);
  wake_caught (take_receive_notification (step i)) ;;
  wake_caught completion ;;
  mret (if installation_failed i || negb discarded_cleanly || completion_failed then Ready (Err internal_error)
        else resolve_receive_poll_step (step i)).
Definition register_receiver_waker {E} (task : Waker) : act World E (Poll (option PipeReceivedChunk)) :=
  o ← look;
  if clone_ok o then i ← install_receiver_waker task; resolve_receiver_waker_installation i else fail_receiver_waker_update.
Definition poll_receive {E} (context : Cancellation.RequestContext) (task : Waker) : act World E (Poll (option PipeReceivedChunk)) :=
  active ← check_context context;
  match active with
  | Err e => abort_shared true ;; mret (Ready (Err (ApiFiles.from_core_error e)))
  | Ok _ =>
      found ← begin_receive_poll;
      match found with
      | ReadyStep ready => finish_receive_ready ready
      | RegisterWaker => register_receiver_waker task
      end
  end.

(** *** Blocking calls *)

Definition raised {A} (r : result IoError A) : act World Stop A :=
  lift (match r with Ok a => Ok a | Err e => Err (Raised e) end).
Definition check_blocking_context (context : Cancellation.RequestContext) : act World Stop unit :=
  active ← check_context context;
  match active with Ok _ => mret tt | Err e => abort_shared true ;; fail (Raised (core_to_io e)) end.
Definition bounded_wait_duration (o : Outside) (context : Cancellation.RequestContext) : result IoError N :=
  match Cancellation.remaining_at (tree o) context (now o) with
  | Ok (Some remaining) => Ok (N.min remaining WAIT_QUANTUM)
  | Ok None => Ok WAIT_QUANTUM
  | Err e => Err (core_to_io e)
  end.
(** Called with the guard in hand, which it gives back while it waits. *)
Definition wait_for_change (context : Cancellation.RequestContext) : act World Stop unit :=
  o ← peek;
  match bounded_wait_duration o context with
  | Err e => abort_shared true ;; fail (Raised e)
  | Ok _ =>
      look ;;
      w ← get;
      if lock_poisoned (shared (pipe w)) then
        waker ← run (on_state (abort false)); wake_caught waker ;; fail (Raised internal_io_error)
      else mret tt
  end.
(** A section of a blocking call, which a poisoned lock ends. *)
Definition blocking_section {A} (body : Pipe -> Pipe * A) : act World Stop A :=
  found ← critical (fun poisoned p => if poisoned : bool then (p, None) else let '(p, a) := body p in (p, Some a));
  match found with Some a => mret a | None => fail (Raised internal_io_error) end.

Definition resolve_read_step (context : Cancellation.RequestContext) (st : ReadStep) : act World Stop (option bytes) :=
  match st with
  | Data copied waker => wake_or_abort waker ;; mret (Some copied)
  | EofRead => mret (Some [])
  | AbortedRead e => fail (Raised e)
  | WaitRead => wait_for_change context ;; mret None
  end.
Fixpoint read_non_empty (fuel : nat) (context : Cancellation.RequestContext) (room : N) : act World Stop bytes :=
  match fuel with
  | O => fail StillWaiting
  | S fuel =>
      check_blocking_context context ;;
      st ← blocking_section (read_section room);
      done ← resolve_read_step context st;
      match done with Some copied => mret copied | None => read_non_empty fuel context room end
  end.
(** The bytes copied into the output; their number is what [read] returns. *)
Definition read (fuel : nat) (context : Cancellation.RequestContext) (room : N) : act World Stop bytes :=
  if room =? 0 then mret [] else read_non_empty fuel context room.

Definition resolve_empty_wait (context : Cancellation.RequestContext) (found : EmptyWaitState) : act World Stop bool :=
  match found with
  | EmptyReady => mret true
  | EmptyWait => wait_for_change context ;; mret false
  | EmptyAborted e => fail (Raised e)
  end.
Fixpoint wait_until_empty (fuel : nat) (context : Cancellation.RequestContext) : act World Stop unit :=
  match fuel with
  | O => fail StillWaiting
  | S fuel =>
      check_blocking_context context ;;
      found ← blocking_section empty_section;
      empty ← resolve_empty_wait context found;
      if empty : bool then mret tt else wait_until_empty fuel context
  end.
Definition resolve_acknowledgement (context : Cancellation.RequestContext) (found : AcknowledgementState) : act World Stop bool :=
  match found with
  | Acknowledged => mret true
  | AckWait => wait_for_change context ;; mret false
  | AckAborted e => fail (Raised e)
  | AckInvalid => abort_shared false ;; fail (Raised internal_io_error)
  end.
Fixpoint wait_for_acknowledgement (fuel : nat) (context : Cancellation.RequestContext) (seq : N) : act World Stop unit :=
  match fuel with
  | O => fail StillWaiting
  | S fuel =>
      check_blocking_context context ;;
      found ← blocking_section (fun p => (p, acknowledgement_state seq (state p)));
      acknowledged ← resolve_acknowledgement context found;
      if acknowledged : bool then mret tt else wait_for_acknowledgement fuel context seq
  end.
Definition retain_blocking_chunk (seq : N) (input : bytes) : act World Stop (option Waker) :=
  kept ← blocking_section (retain_section seq input); raised kept.
Definition to_io {A} (r : outcome A) : result IoError A := match r with Ok a => Ok a | Err e => Err (api_to_io e) end.
Definition next_blocking_sequence : act World Stop N := sequence ← advance_sequence; raised (to_io sequence).
Definition write_chunk (fuel : nat) (context : Cancellation.RequestContext) (input : bytes) : act World Stop unit :=
  wait_until_empty fuel context ;;
  seq ← next_blocking_sequence;
  waker ← retain_blocking_chunk seq input;
  woken ← wake_or_abort waker;
  raised (to_io woken) ;;
  wait_for_acknowledgement fuel context seq.
Definition write (fuel : nat) (context : Cancellation.RequestContext) (input : bytes) : act World Stop N :=
  if len input =? 0 then mret 0
  else
    let size := N.min (len input) ApiFiles.MAX_FILE_CHUNK_BYTES in
    write_chunk fuel context (take (N.to_nat size) input) ;; mret size.
Definition flush (fuel : nat) (context : Cancellation.RequestContext) : act World Stop unit := wait_until_empty fuel context.

Definition deliver_blocking_finish_waker (waker : Waker) : act World Stop BlockingFinishStep :=
  woken ← wake_caught (Some waker);
  if woken : bool then mret Recheck else abort_shared false ;; mret (FinishAborted internal_io_error).
Definition recheck_blocking_finish (context : Cancellation.RequestContext) : act World Stop BlockingFinishStep :=
  active ← attempt (check_blocking_context context);
  match active with
  | Err (Raised e) => mret (FinishAborted e)
  | Err StillWaiting => fail StillWaiting
  | Ok _ =>
      st ← critical (fun poisoned p =>
        if poisoned : bool then (p, FinishAborted internal_io_error) else on_state next_blocking_finish_step p);
      match st with
      | Recheck =>
          waited ← attempt (wait_for_change context);
          match waited with
          | Ok _ => mret Recheck
          | Err (Raised e) => mret (FinishAborted e)
          | Err StillWaiting => fail StillWaiting
          end
      | st => mret st
      end
  end.
Fixpoint drive_blocking_finish (fuel : nat) (context : Cancellation.RequestContext) (st : BlockingFinishStep) : act World Stop unit :=
  match fuel with
  | O => fail StillWaiting
  | S fuel =>
      match st with
      | Deliver waker => st ← deliver_blocking_finish_waker waker; drive_blocking_finish fuel context st
      | Recheck => st ← recheck_blocking_finish context; drive_blocking_finish fuel context st
      | Published => mret tt
      | FinishAborted e => fail (Raised e)
      end
  end.
Definition finish (fuel : nat) (context : Cancellation.RequestContext) : act World Stop unit :=
  wait_until_empty fuel context ;;
  st ← blocking_section (on_state begin_blocking_finish);
  drive_blocking_finish fuel context st.

(** *** Abort handle and ends that go away *)

Definition handle_abort : act World Stop unit := abort_shared false.
Definition abort_io_fault : act World Stop unit := abort_shared true.
Definition query_io_fault : act World Stop bool :=
  critical (fun poisoned p => (p, poisoned || io_fault_observed (state p))).
(** Both lengths of [PipeSnapshot], which are the same. *)
Definition snapshot : act World Stop (option N) :=
  critical (fun _ p => (p, (fun r => len r.2) <$> retained (state p))).
(** [Drop] of an end; a sender that goes away takes its offer with it. *)
Definition drop_end : act World Stop unit := abort_if_unpublished.
End pipe.
