(* ===== verification/PipeTransfer.v ===== *)
(** * What crosses a pipe

    The theorems of [FilePipe].  The critical sections of the two ends, of the abort handle
    and of the recovery of a poisoned lock, in any interleaving, are the steps of
    [upload_step] and [download_step]; the operations are shown to be paths of these steps,
    whatever the other threads, which are held to such paths themselves, do in between.
    Shown: bytes come out as they went in, each once and in order; an end that is told of a
    success or of the end of the stream is told the truth; nothing moves after the end; and
    a registered waker is never left behind with something to do. *)

From stdpp Require Import relations.
From S2P Require Import Prelude CoreTypes FilePipe.
From S2P Require ApiFiles Cancellation.
#[local] Open Scope N_scope.
#[local] Existing Instances PipeState_eta Pipe_eta TerminalState_eq_dec.

(** ** Steps *)

(** What a step does with the waker that was registered: it hands one out to be woken, or it
    is a poll, which registers the task anew or has no need to. *)
Inductive label := Handed (waker : option nat) | Polled.

(** The abort handle, a failing context, a dropped end, a panicking waker, a poisoned lock. *)
Inductive common_step (p : Pipe) : label -> Pipe -> Prop :=
| step_abort io : common_step p (Handed (on_state (abort io) p).2) (on_state (abort io) p).1
| step_recover : common_step p (Handed (recover_section p).2) (recover_section p).1.

(** The sender of an upload: a new sequence, an offer that starts or goes away, polls. *)
Definition chunk_wf (b : bytes) : Prop := b <> [] /\ len b <= ApiFiles.MAX_FILE_CHUNK_BYTES.
Inductive sender_step (p : Pipe) : label -> Pipe -> Prop :=
| send_sequence n : sender_step p (Handed None) (p <| next_sequence := n |>)
| send_start seq b : chunk_wf b -> sender_step p (Handed None) (p <| offering := Some seq |> <| held := Some b |>)
| send_withdraw : sender_step p (Handed None) (p <| offering := None |> <| held := None |>)
| send_offer seq waker ok : lock_poisoned (shared p) = false -> sender_step p Polled (offer_section seq waker ok p).1
| send_finish waker ok : lock_poisoned (shared p) = false -> sender_step p Polled (finish_section waker ok p).1.
(** The reader. *)
Definition waker_of_read (st : ReadStep) : option nat := match st with Data _ waker => waker | _ => None end.
Inductive reader_step (p : Pipe) : label -> Pipe -> Prop :=
| read_bytes room : lock_poisoned (shared p) = false -> 0 < room ->
    reader_step p (Handed (waker_of_read (read_section room p).2)) (read_section room p).1.
Inductive upload_step (p : Pipe) (l : label) (p' : Pipe) : Prop :=
| upload_common : common_step p l p' -> upload_step p l p'
| upload_sender : sender_step p l p' -> upload_step p l p'
| upload_reader : reader_step p l p' -> upload_step p l p'.
Definition upload_move (p p' : Pipe) : Prop := exists l, upload_step p l p'.

(** ** Specification *)

(** Nothing moves any more. *)
Definition final (p : Pipe) : Prop := terminal (state p) = Eof \/ terminal (state p) = Aborted.
(** What the pipe holds and the reader has not copied yet. *)
Definition unread (p : Pipe) : bytes :=
  match retained (state p) with Some (_, b) => drop (N.to_nat (offset p)) b | None => [] end.
Definition vacant (s : PipeState) : Prop := retained s = None /\ in_flight s = None /\ async_waker s = None.
Definition upload_inv (p : Pipe) : Prop :=
  let s := state p in
  (forall b, held p = Some b -> chunk_wf b) /\
  match terminal s with
  | Open =>
      accepted p = taken p ++ unread p /\
      match retained s with
      | Some (seq, b) => offset p < len b /\ chunk_wf b /\ (in_flight s = None \/ in_flight s = Some seq)
      | None => vacant s /\ offset p = 0
      end
  | PublishingEof => False
  | Eof => vacant s /\ accepted p = taken p
  | Aborted => vacant s /\ taken p `prefix_of` accepted p
  end.

(** ** Lemmas: the upload *)

Lemma set_state_state s p : state (set_state s p) = s. Proof. done. Qed.
Lemma abort_spec io s : abort io s = if decide (terminal s = Eof) then (s, None)
  else (mk_PipeState None None Aborted None (receiver_waker_updates s) (io_fault_observed s || io), async_waker s).
Proof. unfold abort. by destruct (terminal s). Qed.

Lemma upload_inv_aborted io p : upload_inv p -> upload_inv (p <| shared := mk_lock (lock_poisoned (shared p)) (abort io (state p)).1 |>).
Proof.
  unfold upload_inv. intros [Hh Hs]. rewrite abort_spec. destruct (decide (terminal (state p) = Eof)) as [E|E].
  - split; [done|]. cbn. unfold state in *. cbn. by rewrite E in *.
  - split; [done|]. cbn. split; [done|]. destruct (terminal (state p)); try done.
    + destruct Hs as [-> _]. by eexists.
    + by destruct Hs as [_ ?].
Qed.
Lemma upload_inv_lock b p : upload_inv (p <| shared := mk_lock b (state p) |>) <-> upload_inv p.
Proof. done. Qed.
Lemma common_inv p l p' : common_step p l p' -> upload_inv p -> upload_inv p'.
Proof.
  intros [io|] Hinv.
  - pose proof (upload_inv_aborted io p Hinv) as H. unfold on_state. by destruct (abort io (state p)).
  - pose proof (upload_inv_aborted false p Hinv) as H. unfold recover_section. destruct (abort false (state p)) as [s w].
    apply (upload_inv_lock false) in H. exact H.
Qed.

Lemma register_spec waker ok s : register waker ok s =
  (s <| async_waker := Some waker |>, if bool_decide (is_Some (async_waker s)) && negb ok then Unwound else Pending).
Proof. done. Qed.

(** What a poll of an offer does, by the state it finds. *)
Lemma offer_open seq waker ok p : upload_inv p -> terminal (state p) = Open ->
  match held p, retained (state p) with
  | _, Some (kept, b) => exists r s, offer_section seq waker ok p =
      (p <| shared := mk_lock (unwound r) s |>, r) /\
      (s = (state p) <| async_waker := Some waker |> /\ r <> Ready (Ok tt) \/
       s = (abort false (state p)).1 /\ r = Ready (Err internal_error))
  | Some b, None => exists r, r <> Ready (Ok tt) /\ offer_section seq waker ok p =
      (p <| shared := mk_lock (unwound r) ((state p) <| retained := Some (seq, b) |> <| async_waker := Some waker |>) |>
         <| held := None |> <| accepted := accepted p ++ b |>, r)
  | None, None => offer_section seq waker ok p = (p <| shared := mk_lock false (state p) |>, Ready (Ok tt))
  end.
Proof.
  intros [_ Hs] Ho. rewrite Ho in Hs. destruct Hs as [_ Hs].
  unfold offer_section, poll_offered_state. rewrite Ho. destruct p as [[po s] n off offr h st cl acc tk]. cbn in *.
  destruct s as [ret fl t aw up io]. unfold vacant in Hs. cbn in *.
  destruct h as [b|], ret as [[kept b']|]; cbn.
  - cbn. rewrite app_nil_r. eexists _, _. split; [reflexivity|left]. split; [done|]. by destruct (_ && _).
  - destruct Hs as [[_ [-> ->]] _]. by exists Pending.
  - unfold finish_offer_poll. cbn. destruct (_ || _).
    + cbn. rewrite app_nil_r. eexists _, _. split; [reflexivity|left]. split; [done|]. by destruct (_ && _).
    + cbn. rewrite app_nil_r. exists (Ready (Err internal_error)). eexists. split; [reflexivity|by right].
  - destruct Hs as [[_ [-> ->]] _]. cbn. by rewrite app_nil_r.
Qed.
Lemma offer_closed seq waker ok p : upload_inv p -> terminal (state p) <> Open ->
  exists e, offer_section seq waker ok p = (p <| shared := mk_lock false (state p) |>, Ready (Err e)).
Proof.
  intros _ Ho. unfold offer_section, poll_offered_state. destruct p as [[po s] n off offr h st cl acc tk]. cbn in *.
  destruct (terminal s) eqn:E; try done; eexists; cbn; unfold handed_over; destruct h; by rewrite app_nil_r.
Qed.
Lemma offer_inv seq waker ok p : upload_inv p -> upload_inv (offer_section seq waker ok p).1.
Proof.
  intros Hinv. destruct (decide (terminal (state p) = Open)) as [Ho|Ho].
  2: { by destruct (offer_closed seq waker ok p Hinv Ho) as [e ->]. }
  pose proof (offer_open seq waker ok p Hinv Ho) as H. pose proof Hinv as [Hheld Hs]. rewrite Ho in Hs. destruct Hs as [Hlog Hs].
  destruct (retained (state p)) as [[kept b']|] eqn:Hret.
  - assert (exists r s, offer_section seq waker ok p = (p <| shared := mk_lock (unwound r) s |>, r) /\
      (s = (state p) <| async_waker := Some waker |> \/ s = (abort false (state p)).1)) as (r & s & -> & [->| ->]).
    { destruct (held p); destruct H as (r & s & E & [[Hx _]|[Hx _]]); exists r, s; auto. }
    + split; [done|]. cbn. rewrite Ho. unfold unread in *. cbn. by rewrite Hret in *.
    + exact (upload_inv_aborted false p Hinv).
  - destruct (held p) as [b|] eqn:Hheld'; [|by rewrite H].
    destruct H as (r & _ & ->). destruct Hs as [[_ [Hf _]] Hoff]. split; [done|]. cbn. rewrite Ho. unfold unread in *. cbn. rewrite Hret in Hlog.
    rewrite Hlog, Hoff, app_nil_r. cbn. split; [done|]. rewrite Hf. destruct (Hheld b eq_refl) as [Hne Hlen].
    split; [|split; [by split|by left]]. destruct b; [done|]. unfold len. cbn. lia.
Qed.
Lemma finish_spec waker ok p : upload_inv p -> exists r s, finish_section waker ok p = (p <| shared := mk_lock (unwound r) s |>, r) /\
  (s = state p /\ r <> Ready (Ok tt) \/
   s = state p /\ terminal s = Eof \/
   s = (state p) <| async_waker := Some waker |> /\ terminal s = Open /\ is_Some (retained s) /\ r <> Ready (Ok tt) \/
   s = (state p) <| terminal := Eof |> /\ terminal (state p) = Open /\ vacant s).
Proof.
  intros [_ Hs]. unfold finish_section, poll_finish_state, finished_terminal_poll.
  destruct p as [[po s] n off offr h st cl acc tk]. cbn in *. destruct s as [ret fl t aw up io]. unfold vacant in *. cbn in *.
  destruct t; cbn.
  - destruct ret as [[kept b]|]; cbn.
    + eexists _, _. split; [reflexivity|]. do 2 right. left. split_and!; [done|done|by eexists|]. by destruct (_ && _).
    + destruct Hs as [_ [(_ & -> & ->) _]]. cbn. eexists (Ready _), _. split; [reflexivity|]. by do 3 right.
  - eexists (Ready _), _. split; [reflexivity|]. by left.
  - eexists (Ready _), _. split; [reflexivity|]. by right; left.
  - eexists (Ready _), _. split; [reflexivity|]. by left.
Qed.
Lemma finish_inv waker ok p : upload_inv p -> upload_inv (finish_section waker ok p).1.
Proof.
  intros Hinv. destruct (finish_spec waker ok p Hinv) as (r & s & -> & [[-> _]|[[-> _]|[(-> & Ho & [x Hr] & _)|(-> & Ho & Hv)]]]);
    [exact Hinv|exact Hinv| |]; destruct Hinv as [Hh Hs]; (split; [exact Hh|]); cbn in *; rewrite Ho in *; unfold unread in *; cbn in *.
  - by rewrite Hr in *.
  - destruct Hv as (Hret & Hv). cbn in Hret. rewrite Hret in Hs. destruct Hs as [-> _]. split; [by split|]. by rewrite app_nil_r.
Qed.

(** What a read does. *)
Lemma read_found room p kept b : upload_inv p -> terminal (state p) = Open -> retained (state p) = Some (kept, b) -> 0 < room ->
  exists s off copied waker, read_section room p = (p <| shared := mk_lock (lock_poisoned (shared p)) s |> <| offset := off |> <| taken := taken p ++ copied |>, Data copied waker) /\
    copied <> [] /\ len copied <= room /\ unread p = copied ++ drop (length copied) (unread p) /\ terminal s = Open /\
    ((len copied < len (unread p) /\ s = (state p) <| in_flight := Some kept |> /\ off = offset p + len copied /\ waker = None) \/
     (copied = unread p /\ vacant s /\ off = 0 /\ waker = async_waker (state p))).
Proof.
  intros [_ Hs] Ho Hret Hroom. cbn in Hs. rewrite Ho, Hret in Hs. destruct Hs as [_ (Hoff & Hwf & Hfl)].
  unfold read_section, read_step, unread. rewrite Hret.
  set (s1 := match in_flight (state p) with None => _ | Some _ => _ end).
  assert (s1 = (state p) <| in_flight := Some kept |>) as Es1.
  { unfold s1. destruct (state p). cbn in *. by destruct Hfl as [->| ->]. }
  rewrite Es1. cbn [in_flight]. rewrite bool_decide_eq_false_2; [|intros H; by apply H]. cbn [orb].
  destruct (N.leb_spec (len b) (offset p)); [lia|].
  set (rest := drop (N.to_nat (offset p)) b). set (count := N.min room (len b - offset p)).
  assert (Hrest : len rest = len b - offset p) by (unfold rest, len; rewrite length_drop; lia).
  assert (Hc : 0 < count /\ count <= room /\ count <= len rest) by (unfold count; lia).
  assert (Hcount : length (take (N.to_nat count) rest) = N.to_nat count).
  { rewrite length_take. unfold len in Hc. lia. }
  clearbody count. unfold finish_blocking_read. cbn [retained set_field]. cbn. rewrite Hret. cbn.
  destruct (N.eqb_spec (offset p + count) (len b)) as [E|E].
  - eexists _, _, _, _. split; [reflexivity|]. unfold len at 1. rewrite Hcount.
    split_and!; try done; try lia.
    + intros Hn. apply (f_equal length) in Hn. rewrite Hcount in Hn. cbn in Hn. lia.
    + symmetry. apply take_drop.
    + right. split_and!; try done. apply take_ge. unfold len in *. lia.
  - eexists _, _, _, _. split; [reflexivity|]. unfold len at 1. rewrite Hcount.
    split_and!; try done; try lia.
    + intros Hn. apply (f_equal length) in Hn. rewrite Hcount in Hn. cbn in Hn. lia.
    + symmetry. apply take_drop.
    + left. unfold len at 1. rewrite Hcount. split_and!; try done; [lia|]. cbn. unfold len. rewrite Hcount. lia.
Qed.
Lemma read_vacant room p : upload_inv p -> retained (state p) = None -> read_section room p =
  (p <| taken := taken p ++ [] |>, match terminal (state p) with Open => WaitRead | Eof => EofRead | _ => AbortedRead (aborted_io_error (state p)) end).
Proof.
  intros [_ Hs] Hret. unfold read_section, read_step, empty_read_step. rewrite Hret. unfold set_state, state in *. destruct p as [[po s] n off offr h st cl acc tk]. cbn in *.
  by destruct (terminal s).
Qed.
Lemma read_inv room p : upload_inv p -> 0 < room -> upload_inv (read_section room p).1.
Proof.
  intros Hinv Hroom. destruct (retained (state p)) as [[kept b]|] eqn:Hret.
  2: { rewrite (read_vacant room p Hinv Hret), app_nil_r. by destruct p. }
  pose proof Hinv as [Hh Hs]. destruct (terminal (state p)) eqn:Ho; try (destruct Hs as [[Hs _] _]; congruence); [|done].
  rewrite Hret in Hs. destruct Hs as [Hlog (Hoff & Hwf & Hfl)].
  destruct (read_found room p kept b Hinv Ho Hret Hroom) as (s & off & copied & waker & -> & Hne & Hlen & Hun & Hopen & Hcase).
  split; [done|]. cbn. rewrite Hopen. unfold unread at 1. cbn. rewrite Hlog, Hun at 1.
  destruct Hcase as [(Hlt & -> & -> & _)|(-> & Hv & -> & _)].
  - cbn. rewrite Hret. cbn. unfold unread. rewrite Hret, drop_drop. unfold len.
    assert (len (unread p) = len b - offset p) as Hu by (unfold unread; rewrite Hret; unfold len; rewrite length_drop; lia).
    split; [|split; [unfold len in *; lia|split; [done|by right]]].
    rewrite <- app_assoc. do 2 f_equal. f_equal. lia.
  - destruct Hv as (Hv1 & Hv2 & Hv3). rewrite Hv1. rewrite drop_all, !app_nil_r. done.
Qed.
Lemma common_quiet p l p' : common_step p l p' -> accepted p' = accepted p /\ taken p' = taken p /\ held p' = held p /\
  offset p' = offset p /\ (final p -> terminal (state p') = terminal (state p)) /\ (terminal (state p') <> terminal (state p) -> final p').
Proof.
  assert (forall io, (final p -> terminal (abort io (state p)).1 = terminal (state p)) /\
    (terminal (abort io (state p)).1 <> terminal (state p) -> terminal (abort io (state p)).1 = Aborted)) as H.
  { intros io. rewrite abort_spec. unfold final. destruct (decide _); [done|]. cbn. split; [|done]. by intros [| ->]. }
  intros [io|].
  - specialize (H io). unfold on_state. destruct (abort io (state p)) as [s w]. cbn in *. destruct H as [H1 H2].
    split_and!; try done. intros Hx. right. by apply H2.
  - specialize (H false). unfold recover_section. destruct (abort false (state p)) as [s w]. cbn in *. destruct H as [H1 H2].
    split_and!; try done. intros Hx. right. by apply H2.
Qed.

Lemma sender_inv p l p' : sender_step p l p' -> upload_inv p -> upload_inv p'.
Proof.
  intros [n|seq b Hb| |seq waker ok _|waker ok _] Hinv.
  - exact Hinv.
  - destruct Hinv as [_ Hs]. split; [|exact Hs]. cbn. by intros b' [= <-].
  - destruct Hinv as [_ Hs]. split; [|exact Hs]. done.
  - by apply offer_inv.
  - by apply finish_inv.
Qed.
Lemma upload_step_inv p l p' : upload_step p l p' -> upload_inv p -> upload_inv p'.
Proof.
  intros [H|H|H] Hinv; [by eapply common_inv|by eapply sender_inv|]. destruct H as [room _ Hroom]. by apply read_inv.
Qed.
Lemma upload_moves_inv p p' : rtc upload_move p p' -> upload_inv p -> upload_inv p'.
Proof. induction 1 as [|? ? ? [l H] _ IH]; [done|]. intros ?. apply IH. by eapply upload_step_inv. Qed.
Lemma new_pipe_inv : upload_inv new_pipe.
Proof. by split. Qed.

Lemma final_vacant p : upload_inv p -> final p -> vacant (state p).
Proof. intros [_ H] [E|E]; rewrite E in H; by destruct H. Qed.
Lemma sender_quiet p l p' : sender_step p l p' -> upload_inv p -> taken p' = taken p /\ offset p' = offset p /\
  (final p -> accepted p' = accepted p /\ terminal (state p') = terminal (state p)).
Proof.
  intros [n|seq b Hb| |seq waker ok _|waker ok _] Hinv; try done.
  - destruct (decide (terminal (state p) = Open)) as [Ho|Ho].
    + pose proof (offer_open seq waker ok p Hinv Ho) as H. split_and!.
      3: { intros [E|E]; congruence. }
      all: destruct (held p), (retained (state p)) as [[? ?]|]; try destruct H as (r & s & -> & _); try destruct H as (r & _ & ->); by rewrite ?H.
    + by destruct (offer_closed seq waker ok p Hinv Ho) as [e ->].
  - destruct (finish_spec waker ok p Hinv) as (r & s & -> & H). split_and!; [done..|]. intros Hf. split; [done|]. cbn.
    destruct H as [[-> _]|[[-> _]|[(-> & _)|(-> & Ho & _)]]]; try done. destruct Hf; congruence.
Qed.
Lemma reader_quiet p l p' : reader_step p l p' -> upload_inv p -> accepted p' = accepted p /\ held p' = held p /\
  terminal (state p') = terminal (state p) /\ (final p -> taken p' = taken p).
Proof.
  intros [room _ Hroom] Hinv. destruct (retained (state p)) as [[kept b]|] eqn:Hret.
  - destruct (decide (terminal (state p) = Open)) as [Ho|Ho].
    + destruct (read_found room p kept b Hinv Ho Hret Hroom) as (s & off & copied & waker & -> & _ & _ & _ & Ho' & _).
      split_and!; try done; cbn; [congruence|]. intros [E|E]; congruence.
    + destruct Hinv as [_ Hs]. destruct (terminal (state p)); try done; destruct Hs as [[Hv _] _]; congruence.
  - rewrite (read_vacant room p Hinv Hret). cbn. by rewrite app_nil_r.
Qed.
Lemma final_step p l p' : upload_step p l p' -> upload_inv p -> final p ->
  final p' /\ terminal (state p') = terminal (state p) /\ accepted p' = accepted p /\ taken p' = taken p.
Proof.
  intros Hst Hinv Hf.
  assert (terminal (state p') = terminal (state p) /\ accepted p' = accepted p /\ taken p' = taken p) as (Ht & Ha & Htk).
  { destruct Hst as [H|H|H].
    - destruct (common_quiet _ _ _ H) as (? & ? & _ & _ & ? & _). auto.
    - destruct (sender_quiet _ _ _ H Hinv) as (? & _ & Hx). destruct (Hx Hf). auto.
    - destruct (reader_quiet _ _ _ H Hinv) as (? & _ & ? & Hx). auto. }
  split_and!; try done. unfold final in *. by rewrite Ht.
Qed.
Lemma final_moves p p' : rtc upload_move p p' -> upload_inv p -> final p ->
  final p' /\ terminal (state p') = terminal (state p) /\ accepted p' = accepted p /\ taken p' = taken p.
Proof.
  induction 1 as [|p q r [l H] _ IH]; [done|]. intros Hinv Hf. destruct (final_step _ _ _ H Hinv Hf) as (Hf' & H1 & H2 & H3).
  destruct (IH (upload_step_inv _ _ _ H Hinv) Hf') as (? & -> & -> & ->). done.
Qed.

(** A registered waker is handed out by the step that leaves its task something to do. *)
Lemma waker_waits p t : upload_inv p -> async_waker (state p) = Some t -> terminal (state p) = Open /\ unread p <> [].
Proof.
  intros [_ Hs] Hw. unfold vacant, unread in *. destruct (terminal (state p)); try done; try (destruct Hs as [(_ & _ & E) _]; congruence).
  destruct Hs as [_ Hs]. destruct (retained (state p)) as [[kept b]|]; [|destruct Hs as [(_ & _ & E) _]; congruence].
  split; [done|]. destruct Hs as (Hoff & _). intros Hd. apply (f_equal length) in Hd. rewrite length_drop in Hd. cbn in Hd. unfold len in Hoff. lia.
Qed.
Lemma waker_handed p l p' t : upload_step p l p' -> upload_inv p -> async_waker (state p) = Some t ->
  match l with Handed w => w = Some t \/ async_waker (state p') = Some t | Polled => True end.
Proof.
  intros Hst Hinv Hw. destruct (waker_waits p t Hinv Hw) as [Ho _].
  destruct Hst as [[io|]|[| | | |]|[room _ Hroom]]; try (by right); try done.
  - left. unfold on_state. rewrite abort_spec. destruct (decide _); [congruence|done].
  - left. unfold recover_section. rewrite abort_spec. destruct (decide _); [congruence|done].
  - destruct (retained (state p)) as [[kept b]|] eqn:Hret.
    + destruct (read_found room p kept b Hinv Ho Hret Hroom) as (s & off & copied & waker & -> & _ & _ & _ & _ & [(_ & -> & _ & _)|(_ & _ & _ & ->)]); cbn; auto.
    + rewrite (read_vacant room p Hinv Hret). cbn. rewrite Ho. by right.
Qed.
Lemma upload_prefix p : upload_inv p -> taken p `prefix_of` accepted p.
Proof.
  intros [_ Hs]. destruct (terminal (state p)); try done.
  - destruct Hs as [-> _]. by eexists.
  - by destruct Hs as [_ ->].
  - by destruct Hs as [_ ?].
Qed.

(** Calls that cannot fail. *)
Lemma bind_total {S E A B} (m : act S E A) (f : A -> act S E B) :
  (forall w, is_ok (m w).2 = true) -> (forall a w, is_ok (f a w).2 = true) -> forall w, is_ok ((m ≫= f) w).2 = true.
Proof. intros Hm Hf w. specialize (Hm w). unfold mbind, act_bind. destruct (m w) as [w' [a|e]]; [apply Hf|done]. Qed.
Lemma wake_total {E} outside waker w : is_ok (wake_caught (E := E) outside waker w).2 = true.
Proof. by destruct waker. Qed.
Lemma run_total {E A} (f : Pipe -> Pipe * A) w : is_ok (run (E := E) f w).2 = true.
Proof. unfold run. by destruct (f (pipe w)). Qed.
Lemma critical_total {E A} outside (body : bool -> Pipe -> Pipe * A) w : is_ok (critical (E := E) outside body w).2 = true.
Proof.
  revert w. unfold critical. apply bind_total; [done|]. intros _. apply bind_total; [done|]. intros w0 w. destruct (lock_poisoned _); [|apply run_total].
  revert w. apply bind_total; [apply run_total|]. intros waker. apply bind_total; [apply wake_total|]. intros _. apply bind_total; [done|].
  intros _ w. apply run_total.
Qed.
Lemma abort_shared_total {E} outside io w : is_ok (abort_shared (E := E) outside io w).2 = true.
Proof.
  revert w. unfold abort_shared. apply bind_total; [apply critical_total|]. intros waker. apply bind_total; [apply wake_total|]. done.
Qed.
Lemma wake_or_abort_total {E} outside waker w : is_ok (wake_or_abort (E := E) outside waker w).2 = true.
Proof.
  revert w. unfold wake_or_abort. apply bind_total; [apply wake_total|]. intros [|]; [done|]. by apply bind_total; [apply abort_shared_total|].
Qed.

(** ** A logic for operations

    An operation of one end is a path of the system that extends the end's own [log]; the
    others leave that log alone, and the [local] state of the end as well. *)

Section logic.
Variable outside : nat -> Outside.
Variable R : Pipe -> Pipe -> Prop.
Variable inv : Pipe -> Prop.
Variable log : Pipe -> bytes.
Context {X : Type}.
Variable local : Pipe -> X.
Hypothesis inv_R : forall p p', R p p' -> inv p -> inv p'.
Hypothesis final_R : forall p p', R p p' -> inv p -> final p -> final p'.
Hypothesis abort_R : forall io p, R p (on_state (abort io) p).1.
Hypothesis recover_R : forall p, R p (recover_section p).1.
Hypothesis log_shared : forall p l, log (p <| shared := l |>) = log p.
Hypothesis local_shared : forall p l, local (p <| shared := l |>) = local p.
Hypothesis relock_final : forall p, inv p -> final p -> relock_section p = p.
Hypothesis others_R : forall k p, inv p -> rtc R p (others (outside k) p) /\
  log (others (outside k) p) = log p /\ local (others (outside k) p) = local p.

Definition does_at {E A} (w : World) (m : act World E A) (P : bytes -> Pipe -> result E A -> Prop) : Prop :=
  rtc R (pipe w) (pipe (m w).1) /\
  exists d, log (pipe (m w).1) = log (pipe w) ++ d /\ P d (pipe (m w).1) (m w).2.
(** An operation that leaves its end alone. *)
Definition quiet_at {E A} (w : World) (m : act World E A) : Prop :=
  does_at w m (fun d p _ => d = [] /\ local p = local (pipe w)).

Lemma rtc_inv p p' : rtc R p p' -> inv p -> inv p'.
Proof. induction 1; eauto. Qed.
Lemma rtc_final p p' : rtc R p p' -> inv p -> final p -> final p'.
Proof. induction 1; eauto. Qed.

Lemma does_ret {E A} w (a : A) (P : bytes -> Pipe -> result E A -> Prop) : P [] (pipe w) (Ok a) -> does_at w (mret a) P.
Proof. intros H. split; [apply rtc_refl|]. exists []. by rewrite app_nil_r. Qed.
Lemma does_fail {E A} w (e : E) (P : bytes -> Pipe -> result E A -> Prop) : P [] (pipe w) (Err e) -> does_at w (fail e) P.
Proof. intros H. split; [apply rtc_refl|]. exists []. by rewrite app_nil_r. Qed.
Lemma does_get {E} w (P : bytes -> Pipe -> result E World -> Prop) : P [] (pipe w) (Ok w) -> does_at w get P.
Proof. intros H. split; [apply rtc_refl|]. exists []. by rewrite app_nil_r. Qed.
Lemma does_weaken {E A} w (m : act World E A) (P Q : bytes -> Pipe -> result E A -> Prop) : inv (pipe w) -> does_at w m P ->
  (forall d p r, rtc R (pipe w) p -> inv p -> P d p r -> Q d p r) -> does_at w m Q.
Proof. intros Hi (Hr & d & Hl & HP) H. split; [done|]. exists d. split; [done|]. apply H; [done|by eapply rtc_inv|done]. Qed.
Lemma does_bind {E A B} w (m : act World E A) (f : A -> act World E B) (Q : bytes -> Pipe -> result E A -> Prop)
    (P : bytes -> Pipe -> result E B -> Prop) :
  inv (pipe w) -> does_at w m Q ->
  (forall a d w', inv (pipe w') -> rtc R (pipe w) (pipe w') -> Q d (pipe w') (Ok a) -> does_at w' (f a) (fun d' => P (d ++ d'))) ->
  (forall d p e, Q d p (Err e) -> P d p (Err e)) -> does_at w (m ≫= f) P.
Proof.
  intros Hi (Hr & d & Hl & HQ) Hf He. unfold does_at, mbind, act_bind. destruct (m w) as [w' [a|e]]; cbn in *.
  - destruct (Hf a d w' (rtc_inv _ _ Hr Hi) Hr HQ) as (Hr' & d' & Hl' & HP). split; [by etrans|].
    exists (d ++ d'). by rewrite Hl', Hl, app_assoc.
  - split; [done|]. exists d. auto.
Qed.
(** After a quiet operation. *)
Lemma does_then {E A B} w (m : act World E A) (f : A -> act World E B) (P : bytes -> Pipe -> result E B -> Prop) :
  inv (pipe w) -> quiet_at w m ->
  (forall a w', inv (pipe w') -> rtc R (pipe w) (pipe w') -> local (pipe w') = local (pipe w) -> does_at w' (f a) P) ->
  (forall p e, local p = local (pipe w) -> P [] p (Err e)) -> does_at w (m ≫= f) P.
Proof.
  intros Hi Hm Hf He. eapply does_bind; [done|exact Hm| |].
  - intros a d w' Hi' Hr [-> Hloc]. eapply does_weaken; [done|by apply Hf|]. done.
  - intros d p e [-> ?]. auto.
Qed.
Lemma quiet_then {E A B} w (m : act World E A) (f : A -> act World E B) :
  inv (pipe w) -> quiet_at w m -> (forall a w', inv (pipe w') -> quiet_at w' (f a)) -> quiet_at w (m ≫= f).
Proof.
  intros Hi Hm Hf. apply does_then; [done|done| |done]. intros a w' Hi' _ Hloc.
  eapply does_weaken; [done|by apply Hf|]. intros d p r _ _ [-> Hl]. by rewrite Hl.
Qed.
Lemma quiet_ret {E A} w (a : A) : quiet_at (E := E) w (mret a).
Proof. by apply does_ret. Qed.
Lemma quiet_fail {E A} w (e : E) : quiet_at (A := A) w (fail e).
Proof. by apply does_fail. Qed.
Lemma quiet_attempt {E A} w (m : act World E A) : quiet_at w m -> quiet_at w (attempt m).
Proof. unfold quiet_at, does_at, attempt. by destruct (m w). Qed.

Lemma does_total {E A} w (m : act World E A) (P : bytes -> Pipe -> result E A -> Prop) :
  does_at w m P -> (forall w', is_ok (m w').2 = true) -> does_at w m (fun d p r => P d p r /\ is_ok r = true).
Proof. intros (Hr & d & Hl & HP) H. split; [done|]. exists d. split_and!; auto. Qed.

Lemma look_quiet {E} w : inv (pipe w) -> quiet_at w (look (E := E) outside).
Proof.
  intros Hi. destruct (others_R (tick w) (pipe w) Hi) as (Hr & Hl & Hloc). split; [exact Hr|]. exists []. by rewrite app_nil_r.
Qed.
Lemma peek_quiet {E} w : quiet_at w (peek (E := E) outside).
Proof. split; [apply rtc_refl|]. exists []. by rewrite app_nil_r. Qed.
Lemma run_does {E A} (f : Pipe -> Pipe * A) (P : bytes -> Pipe -> result E A -> Prop) w d :
  rtc R (pipe w) (f (pipe w)).1 -> log (f (pipe w)).1 = log (pipe w) ++ d -> P d (f (pipe w)).1 (Ok (f (pipe w)).2) ->
  does_at w (run f) P.
Proof. unfold does_at, run. destruct (f (pipe w)) as [p a]. cbn. intros. split; [done|]. by exists d. Qed.
Lemma on_abort_quiet {E} io w : quiet_at w (run (E := E) (on_state (abort io))).
Proof.
  apply run_does with (d := []); [by apply rtc_once, abort_R|rewrite app_nil_r|split; [done|]]; unfold on_state;
    destruct (abort io (state (pipe w))); [apply log_shared|apply local_shared].
Qed.
Lemma wake_quiet {E} waker w : inv (pipe w) -> quiet_at w (wake_caught (E := E) outside waker).
Proof.
  intros Hi. destruct waker; [|apply quiet_ret]. apply quiet_then; [done|by apply look_quiet|]. intros. apply quiet_ret.
Qed.
Lemma drop_quiet {E} waker w : inv (pipe w) -> quiet_at w (drop_waker_caught (E := E) outside waker).
Proof.
  intros Hi. destruct waker; [|apply quiet_ret]. apply quiet_then; [done|by apply look_quiet|]. intros. apply quiet_ret.
Qed.

Lemma recovered_final p : final (recover_section p).1.
Proof. unfold recover_section. rewrite abort_spec. unfold final. destruct (decide _); cbn; auto. Qed.
Lemma critical_does {E A} (body : bool -> Pipe -> Pipe * A) (P : bytes -> Pipe -> result E A -> Prop) w : inv (pipe w) ->
  (forall p, inv p -> lock_poisoned (shared p) = false -> local p = local (pipe w) -> rtc R p (body false p).1 /\
    exists d, log (body false p).1 = log p ++ d /\ P d (body false p).1 (Ok (body false p).2)) ->
  (forall p, inv p -> final p -> local p = local (pipe w) -> rtc R p (body true p).1 /\
    exists d, log (body true p).1 = log p ++ d /\ P d (body true p).1 (Ok (body true p).2)) ->
  (forall p e, local p = local (pipe w) -> P [] p (Err e)) ->
  does_at w (critical outside body) P.
Proof.
  intros Hi Hok Hpo He. unfold critical. apply does_then; [done|by apply look_quiet| |done]. intros _ w1 Hi1 _ Hloc1.
  apply does_bind with (Q := fun d p r => d = [] /\ r = Ok w1 /\ p = pipe w1); [done|by apply does_get| |by intros ? ? ? (_ & ? & _)].
  intros a d w1' _ _ (-> & [= ->] & Hp). cbn [app]. destruct (lock_poisoned (shared (pipe w1))) eqn:El.
  - assert (does_at w1' (run (E := E) recover_section) (fun d p _ => d = [] /\ final p /\ local p = local (pipe w))) as Hrec.
    { apply run_does with (d := []); [by apply rtc_once, recover_R| |split_and!; [done|apply recovered_final|]].
      - rewrite app_nil_r. unfold recover_section. destruct (abort false (state (pipe w1'))). apply log_shared.
      - unfold recover_section. destruct (abort false (state (pipe w1'))). etrans; [apply local_shared|by rewrite Hp]. }
    rewrite <- Hp in Hi1. eapply does_bind; [done|exact Hrec| |intros d p e (-> & _ & ?); auto]. intros waker d2 w2 Hi2 _ (-> & Hf2 & Hl2).
    eapply does_then; [done|by apply wake_quiet| |cbn; intros; apply He; congruence]. intros _ w3 Hi3 Hr3 Hl3.
    eapply does_then; [done|by apply look_quiet| |cbn; intros; apply He; congruence]. intros _ w4 Hi4 Hr4 Hl4.
    assert (final (pipe w4)) as Hf4 by (eapply rtc_final; [exact Hr4|done|]; by eapply rtc_final).
    destruct (Hpo (pipe w4) Hi4 Hf4 ltac:(congruence)) as (Hr & d & Hl & HP).
    eapply run_does with (d := d); rewrite (relock_final _ Hi4 Hf4); done.
  - rewrite <- Hp in *. destruct (Hok (pipe w1') Hi1 El Hloc1) as (Hr & d & Hl & HP). by eapply run_does.
Qed.
Lemma critical_quiet {E A} (body : bool -> Pipe -> Pipe * A) w : inv (pipe w) ->
  (forall b p, inv p -> rtc R p (body b p).1 /\ log (body b p).1 = log p /\ local (body b p).1 = local p) ->
  quiet_at (E := E) w (critical outside body).
Proof.
  intros Hi H. apply critical_does; [done| | |done]; intros p Hp _ Hl.
  - destruct (H false p Hp) as (Hr & Hlog & Hloc). split; [done|]. exists []. rewrite app_nil_r. split_and!; [done|done|congruence].
  - destruct (H true p Hp) as (Hr & Hlog & Hloc). split; [done|]. exists []. rewrite app_nil_r. split_and!; [done|done|congruence].
Qed.
Lemma abort_shared_quiet {E} io w : inv (pipe w) -> quiet_at w (abort_shared (E := E) outside io).
Proof.
  intros Hi. unfold abort_shared. apply quiet_then; [done| |].
  - apply critical_quiet; [done|]. intros b p Hp. split; [by apply rtc_once, abort_R|]. unfold on_state.
    destruct (abort io (state p)). split; [apply log_shared|apply local_shared].
  - intros waker w' Hi'. apply quiet_then; [done|by apply wake_quiet|]. intros. apply quiet_ret.
Qed.
Lemma unpublished_quiet {E} w : inv (pipe w) -> quiet_at w (abort_if_unpublished (E := E) outside).
Proof.
  intros Hi. unfold abort_if_unpublished. apply quiet_then; [done| |].
  - apply critical_quiet; [done|]. intros b p Hp. unfold unpublished_section.
    pose proof (abort_R false p) as Ha. unfold on_state in *. destruct (terminal (state p)).
    1,2: destruct (abort false (state p)) as [s x]; split; [by apply rtc_once|split; [apply log_shared|apply local_shared]].
    all: split; [|split; [apply log_shared|apply local_shared]]; unfold set_state, state; destruct p as [[? ?] ?]; apply rtc_refl.
  - intros waker w' Hi'. apply quiet_then; [done|by apply wake_quiet|]. intros. apply quiet_ret.
Qed.
Lemma wake_or_abort_quiet {E} waker w : inv (pipe w) -> quiet_at w (wake_or_abort (E := E) outside waker).
Proof.
  intros Hi. apply quiet_then; [done|by apply wake_quiet|]. intros [|] w' Hi'; [apply quiet_ret|].
  apply quiet_then; [done|by apply abort_shared_quiet|]. intros. apply quiet_ret.
Qed.
Lemma check_quiet {E} context w : inv (pipe w) -> quiet_at w (check_context (E := E) outside context).
Proof. intros Hi. apply quiet_then; [done|by apply look_quiet|]. intros. apply quiet_ret. Qed.
Lemma check_blocking_quiet context w : inv (pipe w) -> quiet_at w (check_blocking_context outside context).
Proof.
  intros Hi. apply quiet_then; [done|by apply check_quiet|]. intros [?|?] w' Hi'; [apply quiet_ret|].
  apply quiet_then; [done|by apply abort_shared_quiet|]. intros. apply quiet_fail.
Qed.
Lemma get_quiet {E} w : quiet_at w (get (E := E)).
Proof. by apply does_get. Qed.
Lemma wait_quiet context w : inv (pipe w) -> quiet_at w (wait_for_change outside context).
Proof.
  intros Hi. apply quiet_then; [done|apply peek_quiet|]. intros o w1 Hi1. destruct (bounded_wait_duration o context).
  - apply quiet_then; [done|by apply look_quiet|]. intros _ w2 Hi2. apply quiet_then; [done|apply get_quiet|].
    intros w3 w4 Hi4. destruct (lock_poisoned _); [|apply quiet_ret].
    apply quiet_then; [done|apply on_abort_quiet|]. intros waker w5 Hi5. apply quiet_then; [done|by apply wake_quiet|]. intros. apply quiet_fail.
  - apply quiet_then; [done|by apply abort_shared_quiet|]. intros. apply quiet_fail.
Qed.
(** A blocking section: its rule, which a poisoned lock leaves quietly. *)
Lemma blocking_does {A} (body : Pipe -> Pipe * A) (P : bytes -> Pipe -> result Stop A -> Prop) w : inv (pipe w) ->
  (forall p, inv p -> lock_poisoned (shared p) = false -> local p = local (pipe w) -> rtc R p (body p).1 /\
    exists d, log (body p).1 = log p ++ d /\ P d (body p).1 (Ok (body p).2)) ->
  (forall p e, local p = local (pipe w) -> P [] p (Err e)) -> does_at w (blocking_section outside body) P.
Proof.
  intros Hi Hb He. unfold blocking_section.
  eapply does_bind with (Q := fun d p r => match r with Ok (Some a) => P d p (Ok a) | _ => d = [] /\ local p = local (pipe w) end); [done| | |].
  - apply critical_does; [done| | |done].
    + intros p Hp Hl Hloc. destruct (Hb p Hp Hl Hloc) as (Hr & d & Hlog & HP). destruct (body p) as [p' a]. eauto.
    + intros p Hp _ Hloc. split; [apply rtc_refl|]. exists []. by rewrite app_nil_r.
  - intros [a|] d w' Hi' _ H; [apply does_ret; by rewrite app_nil_r|destruct H as [-> H]]. by apply does_fail, He.
  - intros d p e [-> H]. auto.
Qed.
(** A sender's poll around its section. *)
Lemma poll_sender_does {E} context (body : bool -> Pipe -> Pipe * Poll unit) (P : bytes -> Pipe -> result E (Poll unit) -> Prop) w :
  inv (pipe w) ->
  (forall ok p, inv p -> lock_poisoned (shared p) = false -> rtc R p (body ok p).1 /\
    exists d, log (body ok p).1 = log p ++ d /\ P d (body ok p).1 (Ok (body ok p).2)) ->
  (forall p e, P [] p (Ok (Ready (Err e)))) -> (forall p e, P [] p (Err e)) ->
  does_at w (poll_sender outside context body) P.
Proof.
  intros Hi Hb Hr He. apply does_then; [done|by apply check_quiet| |done]. intros [u|e] w1 Hi1 _ _.
  - apply does_then; [done|by apply look_quiet| |done]. intros o w2 Hi2 _ _. destruct (clone_ok o).
    + apply does_then; [done|apply peek_quiet| |done]. intros o' w3 Hi3 _ _. apply critical_does; [done| | |done].
      * intros p Hp Hl _. apply Hb; done.
      * intros p Hp _ _. split; [apply rtc_refl|]. exists []. cbn. rewrite app_nil_r. by split.
    + apply does_then; [done|by apply abort_shared_quiet| |done]. intros. by apply does_ret.
  - apply does_then; [done|by apply abort_shared_quiet| |done]. intros. by apply does_ret.
Qed.
End logic.

(** ** The calls of an upload *)

Definition sender_move (p p' : Pipe) : Prop := exists l, common_step p l p' \/ sender_step p l p'.
Definition reader_move (p p' : Pipe) : Prop := exists l, common_step p l p' \/ reader_step p l p'.
(** What the sender has been given to send. *)
Definition promised (p : Pipe) : bytes := accepted p ++ default [] (held p).

Lemma sender_moves p p' : upload_inv p -> rtc sender_move p p' -> rtc upload_move p p' /\ taken p' = taken p.
Proof.
  intros Hi Hr. revert Hi. induction Hr as [|p q r [l H] _ IH]; [done|]. intros Hi.
  assert (upload_step p l q) as Hst by (destruct H; [by apply upload_common|by apply upload_sender]).
  destruct (IH (upload_step_inv _ _ _ Hst Hi)) as [Hr ->]. split; [by eapply rtc_l; [by exists l|]|].
  destruct H as [H|H]; [by destruct (common_quiet _ _ _ H) as (_ & ? & _)|by destruct (sender_quiet _ _ _ H Hi)].
Qed.
Lemma reader_moves p p' : upload_inv p -> rtc reader_move p p' -> rtc upload_move p p' /\ promised p' = promised p.
Proof.
  intros Hi Hr. revert Hi. induction Hr as [|p q r [l H] _ IH]; [done|]. intros Hi.
  assert (upload_step p l q) as Hst by (destruct H; [by apply upload_common|by apply upload_reader]).
  destruct (IH (upload_step_inv _ _ _ Hst Hi)) as [Hr ->]. split; [by eapply rtc_l; [by exists l|]|]. unfold promised.
  destruct H as [H|H]; [destruct (common_quiet _ _ _ H) as (-> & _ & -> & _)|destruct (reader_quiet _ _ _ H Hi) as (-> & -> & _)]; done.
Qed.

Lemma upload_move_inv p p' : upload_move p p' -> upload_inv p -> upload_inv p'.
Proof. intros [l H]. by eapply upload_step_inv. Qed.
Lemma upload_move_final p p' : upload_move p p' -> upload_inv p -> final p -> final p'.
Proof. intros [l H] Hi Hf. by destruct (final_step _ _ _ H Hi Hf). Qed.
Lemma upload_move_abort io p : upload_move p (on_state (abort io) p).1.
Proof. eexists. apply upload_common, step_abort. Qed.
Lemma upload_move_recover p : upload_move p (recover_section p).1.
Proof. eexists. apply upload_common, step_recover. Qed.
Lemma upload_relock p : upload_inv p -> final p -> relock_section p = p.
Proof.
  intros Hi Hf. destruct (final_vacant p Hi Hf) as (H1 & H2 & _). unfold relock_section, set_state, state in *.
  destruct p as [[po [ret fl t aw up io]] n off offr h st cl acc tk]. cbn in *. subst. destruct Hf as [E|E]; cbn in E; subst t;
    by destruct po.
Qed.

Ltac upload_side := eauto using upload_move_inv, upload_move_final, upload_move_abort, upload_move_recover, upload_relock.
Section upload.
Variable outside : nat -> Outside.
Notation does := (does_at upload_move).
Notation own := (fun _ : Pipe => tt).

Lemma read_non_empty_does fuel context room w
    (Hothers : forall k p, upload_inv p -> rtc sender_move p (others (outside k) p)) :
  upload_inv (pipe w) -> 0 < room ->
  does taken w (read_non_empty outside fuel context room) (fun d p r =>
    match r with
    | Ok copied => d = copied /\ len copied <= room /\ (copied = [] -> terminal (state p) = Eof)
    | Err _ => d = []
    end).
Proof.
  intros Hi Hroom.
  assert (forall k p, upload_inv p -> rtc upload_move p (others (outside k) p) /\
    taken (others (outside k) p) = taken p /\ tt = tt) as Ho.
  { intros k p Hp. split_and!; [by apply sender_moves, Hothers..|done]. }
  revert w Hi. induction fuel as [|fuel IH]; intros w Hi; [by apply does_fail|].
  cbn [read_non_empty]. eapply does_then with (local := own); [exact upload_move_inv|done| | |done].
  { by apply check_blocking_quiet with (inv := upload_inv) (local := own); upload_side. }
  intros _ w1 Hi1 _ _.
  eapply does_bind with (Q := fun d p r => match r with
    | Ok (Data copied _) => d = copied /\ copied <> [] /\ len copied <= room
    | Ok EofRead => d = [] /\ terminal (state p) = Eof
    | _ => d = [] end); [exact upload_move_inv|done| | |by intros d p e ->].
  { apply blocking_does with (inv := upload_inv) (local := own); upload_side.
    intros p Hp Hl _. split; [apply rtc_once; eexists; by apply upload_reader, (read_bytes p room)|].
    destruct (retained (state p)) as [[kept b]|] eqn:Hret.
    - destruct (decide (terminal (state p) = Open)) as [Hopen|Hopen].
      + destruct (read_found room p kept b Hp Hopen Hret Hroom) as (s & off & copied & waker & -> & Hne & Hlen & _).
        exists copied. done.
      + destruct Hp as [_ Hs]. destruct (terminal (state p)); try done; destruct Hs as [[Hv _] _]; congruence.
    - rewrite (read_vacant room p Hp Hret). exists []. split; [done|]. cbn. destruct (terminal (state p)) eqn:Et; done. }
  intros st d w2 Hi2 _ HQ. destruct st as [copied waker| | |e].
  - destruct HQ as (-> & Hne & Hlen). eapply does_bind with (Q := fun d p r => d = [] /\ r = Ok (Some copied)); [exact upload_move_inv|done| | |by intros ? ? ? [_ ?]].
    + cbn [resolve_read_step]. eapply does_bind; [exact upload_move_inv|done| | |].
      * apply does_total; [|apply wake_or_abort_total].
        by apply wake_or_abort_quiet with (inv := upload_inv) (local := own); upload_side.
      * intros a d w3 _ _ [[-> _] _]. by apply does_ret.
      * by intros ? ? ? [_ ?].
    + intros a d w3 _ _ [-> [= ->]]. apply does_ret. by rewrite !app_nil_r.
  - subst d. eapply does_bind with (Q := fun d p r => d = [] /\ match r with Ok (Some _) => False | _ => True end); [exact upload_move_inv|done| | |by intros ? ? ? [-> _]].
    + cbn [resolve_read_step]. eapply does_then with (local := own); [exact upload_move_inv|done| | |done].
      * by apply wait_quiet with (inv := upload_inv) (local := own); upload_side.
      * intros. by apply does_ret.
    + intros [?|] d w3 Hi3 _ [-> ?]; [done|]. by apply IH.
  - destruct HQ as [-> Heof]. eapply does_bind with (Q := fun d p r => d = [] /\ p = pipe w2 /\ r = Ok (Some [])); [exact upload_move_inv|done|by apply does_ret| |by intros ? ? ? (_ & _ & ?)].
    intros a d w3 _ _ (-> & Hp & [= ->]). apply does_ret. rewrite Hp. split_and!; [done|unfold len; cbn; lia|done].
  - subst d. eapply does_bind with (Q := fun d p r => d = [] /\ is_ok r = false); [exact upload_move_inv|done|by apply does_fail|by intros ? ? ? ? ? [_ ?]|by intros ? ? ? [-> _]].
Qed.

Lemma poll_sender_upload {E} (body : bool -> Pipe -> Pipe * Poll unit) (Q : Pipe -> Prop) context w
    (Hothers : forall k p, upload_inv p -> rtc reader_move p (others (outside k) p))
    (Hstep : forall ok p, lock_poisoned (shared p) = false -> upload_move p (body ok p).1)
    (Hbody : forall ok p, upload_inv p -> promised (body ok p).1 = promised p /\
      ((body ok p).2 = Ready (Ok tt) -> Q (body ok p).1)) :
  upload_inv (pipe w) -> does promised w (poll_sender (E := E) outside context body) (fun d p r =>
    d = [] /\ (r = Ok (Ready (Ok tt)) -> Q p)).
Proof.
  intros Hi.
  assert (forall k p, upload_inv p -> rtc upload_move p (others (outside k) p) /\
    promised (others (outside k) p) = promised p /\ tt = tt) as Ho.
  { intros k p Hp. split_and!; [by apply reader_moves, Hothers..|done]. }
  apply poll_sender_does with (inv := upload_inv) (local := own); try (by upload_side).
  intros ok p Hp Hl. destruct (Hbody ok p Hp) as [Hpr HQ]. split; [by apply rtc_once, Hstep|]. exists []. rewrite app_nil_r.
  split_and!; [done|done|]. intros [= E1]. by apply HQ.
Qed.
End upload.

Lemma offer_promised seq waker ok p : upload_inv p -> promised (offer_section seq waker ok p).1 = promised p /\
  ((offer_section seq waker ok p).2 = Ready (Ok tt) ->
   taken (offer_section seq waker ok p).1 = promised (offer_section seq waker ok p).1).
Proof.
  intros Hi. unfold promised. destruct (decide (terminal (state p) = Open)) as [Ho|Ho].
  2: { destruct (offer_closed seq waker ok p Hi Ho) as [e ->]. done. }
  pose proof (offer_open seq waker ok p Hi Ho) as H. destruct (held p) as [b|] eqn:Hh, (retained (state p)) as [[kept b']|] eqn:Hret.
  - destruct H as (r & s & -> & [[_ ?]|[_ ->]]); cbn; by rewrite Hh.
  - destruct H as (r & ? & ->). cbn. by rewrite app_nil_r.
  - destruct H as (r & s & -> & [[_ ?]|[_ ->]]); cbn; by rewrite Hh.
  - rewrite H. cbn. rewrite Hh. split; [done|]. intros _. destruct Hi as [_ Hs]. rewrite Ho in Hs. destruct Hs as [-> _].
    unfold unread. by rewrite Hret, !app_nil_r.
Qed.
Lemma finish_promised waker ok p : upload_inv p -> promised (finish_section waker ok p).1 = promised p /\
  ((finish_section waker ok p).2 = Ready (Ok tt) ->
   terminal (state (finish_section waker ok p).1) = Eof /\ taken (finish_section waker ok p).1 = accepted (finish_section waker ok p).1).
Proof.
  intros Hi. pose proof (finish_inv waker ok p Hi) as [_ Hs]. destruct (finish_spec waker ok p Hi) as (r & s & E & H). rewrite E in *.
  cbn in *. split; [done|]. intros ->.
  assert (terminal s = Eof) as Et.
  { destruct H as [[_ ?]|[[_ ?]|[(_ & _ & _ & ?)|(-> & _ & _)]]]; done. }
  rewrite Et in Hs. by destruct Hs as [_ ->].
Qed.

(** ** Theorems of the upload *)

(** C10: In every interleaving of the sections of both ends, of aborts and of recoveries, the
    reader has got the bytes that went in, each once and in their order, and the pipe holds
    the rest, at most one chunk; after the end of the stream it has got all of them; and
    after an end or an abort nothing moves.  A registered waker waits for bytes that are
    not read yet, and the step that changes this hands it out to be woken. *)
Theorem upload_in_order p (Hreach : rtc upload_move new_pipe p) :
  taken p `prefix_of` accepted p /\
  (terminal (state p) = Open -> accepted p = taken p ++ unread p /\ len (unread p) <= ApiFiles.MAX_FILE_CHUNK_BYTES) /\
  (terminal (state p) = Eof -> taken p = accepted p) /\
  (final p -> forall p', rtc upload_move p p' ->
    terminal (state p') = terminal (state p) /\ taken p' = taken p /\ accepted p' = accepted p) /\
  (forall t, async_waker (state p) = Some t -> terminal (state p) = Open /\ unread p <> [] /\
    forall l p', upload_step p l p' ->
      match l with Handed waker => waker = Some t \/ async_waker (state p') = Some t | Polled => True end).
Proof.
  pose proof (upload_moves_inv _ _ Hreach new_pipe_inv) as Hi. split; [by apply upload_prefix|]. split; [|split; [|split]].
  - intros Ho. pose proof Hi as [_ Hs]. rewrite Ho in Hs. destruct Hs as [Hl Hs]. split; [done|]. unfold unread.
    destruct (retained (state p)) as [[kept b]|]; [|done]. destruct Hs as (_ & [_ Hb] & _). unfold len in *. rewrite length_drop. lia.
  - intros He. destruct Hi as [_ Hs]. rewrite He in Hs. by destruct Hs.
  - intros Hf p' Hm. by destruct (final_moves _ _ Hm Hi Hf) as (_ & ? & ? & ?).
  - intros t Ht. destruct (waker_waits p t Hi Ht) as [? ?]. split_and!; [done|done|]. intros l p' Hst. by eapply waker_handed.
Qed.

(** C5: The calls of both ends tell the truth, whatever the other threads do between their
    sections.  A read copies the next bytes, at most as many as there is room for; it
    returns none only at the end of the stream, when all that went in has come out; and a
    read that fails has copied nothing.  A poll of an offer keeps what was promised, and
    answers that the offer is done only when all of it has been read; a finish answers so
    only at the end of the stream. *)
Theorem upload_calls_exact outside w (Hi : upload_inv (pipe w)) :
  ((forall k p, upload_inv p -> rtc sender_move p (others (outside k) p)) ->
   forall fuel context room, 0 < room ->
   let '(w', r) := read outside fuel context room w in
   rtc upload_move (pipe w) (pipe w') /\
   match r with
   | Ok copied => taken (pipe w') = taken (pipe w) ++ copied /\ len copied <= room /\
       (copied = [] -> terminal (state (pipe w')) = Eof /\ taken (pipe w') = accepted (pipe w'))
   | Err _ => taken (pipe w') = taken (pipe w)
   end) /\
  ((forall k p, upload_inv p -> rtc reader_move p (others (outside k) p)) ->
   forall context task,
   (forall seq, let '(w', r) := poll_offer (E := Empty_set) outside seq context task w in
    rtc upload_move (pipe w) (pipe w') /\ promised (pipe w') = promised (pipe w) /\
    (r = Ok (Ready (Ok tt)) -> taken (pipe w') = promised (pipe w))) /\
   (let '(w', r) := poll_finish (E := Empty_set) outside context task w in
    rtc upload_move (pipe w) (pipe w') /\ promised (pipe w') = promised (pipe w) /\
    (r = Ok (Ready (Ok tt)) -> terminal (state (pipe w')) = Eof /\ taken (pipe w') = accepted (pipe w')))).
Proof.
  split.
  - intros Ho fuel context room Hroom. destruct (read_non_empty_does outside fuel context room w Ho Hi Hroom) as (Hr & d & Hl & HP).
    unfold read. rewrite (proj2 (N.eqb_neq room 0)) by lia. destruct (read_non_empty _ _ _ _ w) as [w' [copied|e]]; cbn in *.
    + destruct HP as (-> & Hlen & He). split_and!; try done. intros Hn. pose proof (He Hn) as Et. split; [done|].
      pose proof (upload_moves_inv _ _ Hr Hi) as [_ Hs]. rewrite Et in Hs. by destruct Hs.
    + subst d. by rewrite app_nil_r in Hl.
  - intros Ho context task. split; [intros seq|].
    + destruct (poll_sender_upload (E := Empty_set) outside (fun ok => offer_section seq task ok) (fun p => taken p = promised p) context w Ho)
        as (Hr & d & Hl & -> & HQ); [|by intros; apply offer_promised|done|].
      { intros ok p Hl. eexists. by apply upload_sender, send_offer. }
      rewrite app_nil_r in Hl. unfold poll_offer. destruct (poll_sender _ _ _ w) as [w' r]. cbn in *. split_and!; try done.
      intros Hx. by rewrite HQ.
    + destruct (poll_sender_upload (E := Empty_set) outside (fun ok => finish_section task ok) (fun p => terminal (state p) = Eof /\ taken p = accepted p) context w Ho)
        as (Hr & d & Hl & -> & HQ); [|by intros; apply finish_promised|done|].
      { intros ok p Hl. eexists. by apply upload_sender, send_finish. }
      rewrite app_nil_r in Hl. unfold poll_finish. by destruct (poll_sender _ _ _ w) as [w' r].
Qed.

(** ** Samples *)

Definition sample_bytes : bytes := [Byte.x01; Byte.x02; Byte.x03].
Definition sample_context : Cancellation.Tree * Cancellation.RequestContext :=
  Cancellation.anonymous (Cancellation.mk_Tree [] []) (MkId "r") (MkId "t") None.
Definition sample_calm (act : Pipe -> Pipe) (k : nat) : Outside := mk_Outside act sample_context.1 0 true true true.
(** A sender that polls its offer while it holds one and then its finish. *)
Definition sample_sender (p : Pipe) : Pipe :=
  if lock_poisoned (shared p) then p
  else match held p with Some _ => (offer_section 0 7 true p).1 | None => (finish_section 7 true p).1 end.
Definition sample_offered : Pipe := new_pipe <| offering := Some 0 |> <| held := Some sample_bytes |>.
(** Three reads with room for two bytes each: two bytes, one byte, the end. *)
Definition sample_reads (w : World) : World * list (result Stop bytes) :=
  let read_one w := read (sample_calm sample_sender) 2 sample_context.2 2 w in
  let '(w1, r1) := read_one w in let '(w2, r2) := read_one w1 in let '(w3, r3) := read_one w2 in (w3, [r1; r2; r3]).
Example sample_upload_runs : (sample_reads (mk_World sample_offered 0)).2 = [Ok [Byte.x01; Byte.x02]; Ok [Byte.x03]; Ok []].
Proof. vm_compute. reflexivity. Qed.
Lemma sample_sender_moves k p : upload_inv p -> rtc sender_move p (others (sample_calm sample_sender k) p).
Proof.
  intros _. cbn. unfold sample_sender. destruct (lock_poisoned (shared p)) eqn:E; [apply rtc_refl|]. apply rtc_once. eexists. right.
  destruct (held p); [by apply send_offer|by apply send_finish].
Qed.
Lemma sample_offered_moves : rtc upload_move new_pipe sample_offered.
Proof. apply rtc_once. eexists. by apply upload_sender, send_start. Qed.

Lemma upload_in_order_witness : let p := (read_section 2 (offer_section 0 7 true sample_offered).1).1 in
  taken p = [Byte.x01; Byte.x02] /\ taken p `prefix_of` accepted p /\ unread p <> [].
Proof.
  cbv zeta. set (p := (read_section _ _).1).
  assert (rtc upload_move new_pipe p) as Hr.
  { etrans; [apply sample_offered_moves|]. eapply rtc_l; [eexists; by apply upload_sender, send_offer|].
    apply rtc_once. eexists. by apply upload_reader, (read_bytes _ 2). }
  destruct (upload_in_order p Hr) as (H & _ & _ & _ & Hw). split; [reflexivity|]. split; [exact H|].
  by destruct (Hw 7%nat eq_refl) as (_ & ? & _).
Defined.
Lemma upload_calls_exact_witness : let w := mk_World sample_offered 0 in
  let '(w', r) := read (sample_calm sample_sender) 2 sample_context.2 2 w in
  r = Ok [Byte.x01; Byte.x02] /\ taken (pipe w') = [Byte.x01; Byte.x02] /\ accepted (pipe w') = sample_bytes.
Proof.
  cbv zeta. assert (upload_inv (pipe (mk_World sample_offered 0))) as Hi by apply (upload_moves_inv _ _ sample_offered_moves new_pipe_inv).
  destruct (upload_calls_exact (sample_calm sample_sender) _ Hi) as [H _].
  specialize (H sample_sender_moves 2%nat sample_context.2 2 eq_refl). revert H.
  assert (accepted (pipe (read (sample_calm sample_sender) 2 sample_context.2 2 (mk_World sample_offered 0)).1) = sample_bytes /\
    (read (sample_calm sample_sender) 2 sample_context.2 2 (mk_World sample_offered 0)).2 = Ok [Byte.x01; Byte.x02]) as [Ha Hr]
    by (vm_compute; by split).
  destruct (read _ _ _ _ _) as [w' r]. cbn in Ha, Hr. subst r. intros (_ & Ht & _). by rewrite Ht.
Defined.
