(* ===== verification/PipeDownload.v ===== *)
(** * What crosses a download

    The download half of [FilePipe]: the sections of the blocking writer and of the
    asynchronous receiver, whose registration of a waker takes two sections, as the steps of
    [download_step], and the calls of both ends as paths of these steps, by the logic of
    [PipeTransfer].  Shown: chunks come out as they were written, in order; a write is
    answered only when its chunk has been acknowledged; the end of the stream is published
    only after everything and never past a receiver that is about to wait. *)

From stdpp Require Import relations.
From S2P Require Import Prelude CoreTypes FilePipe PipeTransfer.
From S2P Require ApiFiles Cancellation.
#[local] Open Scope N_scope.
#[local] Existing Instances PipeState_eta Pipe_eta TerminalState_eq_dec ReceiverStage_eq_dec.

(** ** Steps *)

Definition waker_of_finish (st : BlockingFinishStep) : option nat := match st with Deliver waker => Some waker | _ => None end.
Definition waker_of_retain (r : result IoError (option nat)) : option nat := match r with Ok waker => waker | Err _ => None end.
(** The writer finds the pipe empty, fills it, publishes the end in one section or more. *)
Inductive writer_step (p : Pipe) : label -> Pipe -> Prop :=
| write_sequence n : writer_step p (Handed None) (p <| next_sequence := n |>)
| write_empty : lock_poisoned (shared p) = false -> writer_step p (Handed None) (empty_section p).1
| write_retain seq input : lock_poisoned (shared p) = false -> chunk_wf input ->
    writer_step p (Handed (waker_of_retain (retain_section seq input p).2)) (retain_section seq input p).1
| write_begin_finish : lock_poisoned (shared p) = false -> cleared p = true ->
    writer_step p (Handed (waker_of_finish (on_state begin_blocking_finish p).2)) (on_state begin_blocking_finish p).1
| write_next_finish : lock_poisoned (shared p) = false ->
    writer_step p (Handed (waker_of_finish (on_state next_blocking_finish_step p).2)) (on_state next_blocking_finish_step p).1.
(** The receiver polls, in up to three sections, and acknowledges. *)
Definition failing_waker (failing : bool) (p : Pipe) : option nat := (complete_section failing p).2.1.
Inductive receiver_step (p : Pipe) : label -> Pipe -> Prop :=
| receive_begin : lock_poisoned (shared p) = false -> stage p = Idle -> receiver_step p Polled (begin_receive_section p).1
| receive_install waker : lock_poisoned (shared p) = false -> stage p = Begun -> receiver_step p Polled (install_section waker p).1
| receive_complete failing : stage p <> Idle -> (failing = false -> stage p = Installed) ->
    receiver_step p (Handed (failing_waker failing p)) (complete_section failing p).1
| receive_acknowledge seq : lock_poisoned (shared p) = false ->
    receiver_step p (Handed (default None (acknowledge_section seq p).2)) (acknowledge_section seq p).1.
Inductive download_step (p : Pipe) (l : label) (p' : Pipe) : Prop :=
| download_common : common_step p l p' -> download_step p l p'
| download_writer : writer_step p l p' -> download_step p l p'
| download_receiver : receiver_step p l p' -> download_step p l p'.
Definition download_move (p p' : Pipe) : Prop := exists l, download_step p l p'.

(** ** Specification *)

(** What was written and has not been received yet. *)
Definition unreceived (p : Pipe) : bytes := match retained (state p) with Some (_, b) => b | None => [] end.
Definition empty (s : PipeState) : Prop := retained s = None /\ in_flight s = None.
Definition updating (p : Pipe) : N := match stage p with Idle => 0 | _ => 1 end.
Definition download_inv (p : Pipe) : Prop :=
  let s := state p in
  receiver_waker_updates s = updating p /\
  (cleared p = true -> empty s) /\
  match terminal s with
  | Open | PublishingEof =>
      accepted p = taken p ++ unreceived p /\
      (terminal s = PublishingEof -> cleared p = true) /\
      match retained s with
      | Some (_, b) => chunk_wf b /\ in_flight s = None /\ async_waker s = None
      | None => True
      end
  | Eof => vacant s /\ accepted p = taken p /\ stage p = Idle
  | Aborted => vacant s /\ taken p `prefix_of` accepted p
  end.

(** ** Lemmas: sections *)

Lemma new_pipe_download : download_inv new_pipe.
Proof. done. Qed.
Lemma download_inv_lock b p : download_inv (p <| shared := mk_lock b (state p) |>) <-> download_inv p.
Proof. done. Qed.
Lemma download_prefix p : download_inv p -> taken p `prefix_of` accepted p.
Proof.
  intros (_ & _ & Hs). destruct (terminal (state p)).
  - destruct Hs as [-> _]. by eexists.
  - destruct Hs as [-> _]. by eexists.
  - by destruct Hs as (_ & -> & _).
  - by destruct Hs as [_ ?].
Qed.
(** Aborting, with the updates of the wakers as they will be. *)
Lemma aborted_inv io b p st : download_inv p -> (terminal (state p) = Eof -> st = stage p) ->
  download_inv (p <| shared := mk_lock b ((abort io (state p)).1 <| receiver_waker_updates := match st with Idle => 0 | _ => 1 end |>) |>
    <| stage := st |>).
Proof.
  intros Hinv Hst. pose proof (download_prefix p Hinv) as Hpre. destruct Hinv as (Hu & Hc & Hs). rewrite abort_spec.
  destruct (decide (terminal (state p) = Eof)) as [E|E].
  - split; [done|]. split; [done|]. cbn. rewrite E in *. rewrite (Hst eq_refl). done.
  - done.
Qed.
Lemma download_aborted io b p : download_inv p -> download_inv (p <| shared := mk_lock b (abort io (state p)).1 |>).
Proof.
  intros Hinv. pose proof (aborted_inv io b p (stage p) Hinv ltac:(done)) as H. destruct Hinv as (Hu & _).
  assert ((abort io (state p)).1 = (abort io (state p)).1 <| receiver_waker_updates := match stage p with Idle => 0 | _ => 1 end |>) as ->.
  { rewrite abort_spec. unfold updating in Hu. rewrite <- Hu. destruct (decide _); [|done]. by destruct (state p). }
  by destruct p.
Qed.
Lemma common_download p l p' : common_step p l p' -> download_inv p -> download_inv p'.
Proof.
  intros [io|] Hinv.
  - pose proof (download_aborted io (lock_poisoned (shared p)) p Hinv) as H. unfold on_state. by destruct (abort io (state p)).
  - pose proof (download_aborted false false p Hinv) as H. unfold recover_section. by destruct (abort false (state p)).
Qed.

Ltac open_pipe p := destruct p as [[?po [?ret ?fl ?t ?aw ?up ?io]] ?n ?off ?offr ?h ?st ?cl ?acc ?tk].
Ltac opened := unfold download_inv, empty, vacant, unreceived, updating, state, final in *; cbn in *.

Lemma empty_section_inv p : download_inv p -> download_inv (empty_section p).1.
Proof.
  intros Hinv. unfold empty_section. destruct (empty_wait_state (state p)) eqn:E; [|exact Hinv..]. revert E Hinv.
  unfold empty_wait_state. open_pipe p. opened. intros E (Hu & Hc & Hs). destruct t; try done. destruct ret, fl; try done.
  destruct Hs as (Hl & _ & _). split_and!; try done.
Qed.
Lemma empty_section_ready p : (empty_section p).2 = EmptyReady -> cleared (empty_section p).1 = true.
Proof. unfold empty_section. by destruct (empty_wait_state (state p)). Qed.
Lemma retain_spec seq input p : download_inv p -> chunk_wf input ->
  (exists e, retain_section seq input p = (p, Err e)) \/
  (empty (state p) /\ terminal (state p) = Open /\ retain_section seq input p =
    (set_state ((state p) <| retained := Some (seq, input) |> <| async_waker := None |>) p <| cleared := false |> <| accepted := accepted p ++ input |>,
     Ok (async_waker (state p)))).
Proof.
  intros Hinv Hw. unfold retain_section, retain_blocking, on_state, set_state. open_pipe p. opened. destruct Hinv as (Hu & Hc & Hs).
  destruct t; cbn; try (left; by eexists). destruct ret; cbn; [left; by eexists|]. destruct fl; cbn; [left; by eexists|]. by right.
Qed.
Lemma retain_inv seq input p : download_inv p -> chunk_wf input -> download_inv (retain_section seq input p).1.
Proof.
  intros Hinv Hw. destruct (retain_spec seq input p Hinv Hw) as [[e ->]|([He1 He2] & Ho & ->)]; [done|].
  open_pipe p. opened. subst. destruct Hinv as (Hu & Hc & [Hl _]). rewrite app_nil_r in Hl. split_and!; try done. by rewrite Hl.
Qed.
Lemma begin_finish_spec p : download_inv p -> cleared p = true ->
  let '(p', st) := on_state begin_blocking_finish p in
  download_inv p' /\ accepted p' = accepted p /\ taken p' = taken p /\ stage p' = stage p /\ cleared p' = true /\
  (final p -> terminal (state p') = terminal (state p)) /\
  (st = Published -> terminal (state p') = Eof) /\ (forall t, async_waker (state p) = Some t -> st = Deliver t \/ async_waker (state p') = Some t).
Proof.
  unfold on_state, begin_blocking_finish, next_blocking_finish_step, publishing_finish_step, set_state.
  open_pipe p. opened. intros (Hu & Hc & Hs) Hcl. destruct (Hc Hcl) as [-> ->]. destruct t; cbn in *.
  - destruct Hs as (Hl & _). destruct st; cbn in *; subst up; cbn; [destruct aw; cbn|..]; split_and!; try done; try (by intros [? |?]); try naive_solver.
    by rewrite app_nil_r in Hl.
  - split_and!; try done; try naive_solver.
  - split_and!; try done; try naive_solver.
  - split_and!; try done; try naive_solver.
Qed.
Lemma next_finish_spec p : download_inv p ->
  let '(p', st) := on_state next_blocking_finish_step p in
  download_inv p' /\ accepted p' = accepted p /\ taken p' = taken p /\ stage p' = stage p /\ cleared p' = cleared p /\
  (final p -> terminal (state p') = terminal (state p)) /\
  (st = Published -> terminal (state p') = Eof) /\ (forall t, async_waker (state p) = Some t -> st = Deliver t \/ async_waker (state p') = Some t).
Proof.
  unfold on_state, next_blocking_finish_step, publishing_finish_step, set_state.
  open_pipe p. opened. intros (Hu & Hc & Hs). destruct t; cbn in *.
  - split_and!; try done; try naive_solver.
  - destruct Hs as (Hl & Hcl & Hr). destruct (Hc (Hcl eq_refl)) as [-> ->].
    destruct st; cbn in *; subst up; cbn; [destruct aw; cbn|..]; split_and!; try done; try (by intros [? |?]); try naive_solver.
    by rewrite app_nil_r in Hl.
  - split_and!; try done; try naive_solver.
  - split_and!; try done; try naive_solver.
Qed.

(** What a poll takes out and what it reports. *)
Definition reports (p : Pipe) (st : ReceivePollStep) : Prop :=
  match st with
  | RegisterWaker => True
  | ReadyStep ready =>
      notification ready = None /\
      match received ready with
      | Ok (Some c) => True
      | Ok None => terminal (state p) = Eof
      | Err _ => terminal (state p) = Aborted
      end
  end.
Lemma chunk_wf_new b : chunk_wf b -> ApiFiles.FileChunk_new b = Ok b.
Proof. intros [? ?]. by apply ApiFiles.chunk_new_Ok. Qed.

(** The invariant of a state whose parts are known. *)
Ltac settle Hc Hs := split_and!; try done; try (by intros [? | ?]); try (by intros Hx; destruct (Hc Hx)); try (by rewrite ?app_nil_r in *);
  try exact Hs; try (by destruct Hs as [(_ & ? & _) _]); try (by destruct Hs as [? [? ?]]); try (rewrite ?app_nil_r in *; intuition congruence).

Lemma begin_receive_spec p : download_inv p -> stage p = Idle ->
  let '(p', st) := begin_receive_section p in
  download_inv p' /\ accepted p' = accepted p /\ cleared p' = cleared p /\ taken p' = taken p ++ chunk_of st /\
  stage p' = (match st with RegisterWaker => Begun | _ => Idle end) /\ terminal (state p') = terminal (state p) /\
  (final p -> chunk_of st = []) /\ reports p' st.
Proof.
  unfold begin_receive_section, on_state, receive_poll_step, set_state. open_pipe p. opened. intros (Hu & Hc & Hs) ->. cbn in Hu. subst up.
  destruct fl as [f|]; cbn.
  - unfold begin_receiver_waker_update. change (checked_add u64_max _ 1) with (Some 1). cbn. rewrite app_nil_r.
    destruct t; settle Hc Hs.
  - destruct ret as [[seq b]|]; cbn.
    + destruct t; cbn in *; try (destruct Hs as [(? & ? & ?) _]; done).
      all: destruct Hs as (Hl & Hcl & Hw & _ & ->); unfold receive_retained; rewrite (chunk_wf_new b Hw); cbn; settle Hc Hl.
    + unfold terminal_receive_poll_step, begin_receiver_waker_update. change (checked_add u64_max _ 1) with (Some 1).
      destruct t; cbn in *; rewrite ?app_nil_r; settle Hc Hs.
Qed.
Lemma install_spec waker p : download_inv p -> stage p = Begun ->
  let '(p', i) := install_section waker p in
  download_inv p' /\ accepted p' = accepted p /\ cleared p' = cleared p /\ taken p' = taken p ++ chunk_of (step i) /\
  stage p' = Installed /\ terminal (state p') = terminal (state p) /\ (final p -> chunk_of (step i) = []) /\
  reports p' (step i) /\ installation_failed i = false /\
  (step i = RegisterWaker -> async_waker (state p') = Some waker).
Proof.
  unfold install_section, on_state, install_receiver_waker_state, set_state. open_pipe p. opened. intros (Hu & Hc & Hs) ->. cbn in Hu. subst up.
  destruct fl as [f|]; cbn.
  - rewrite app_nil_r. destruct t; settle Hc Hs; destruct ret as [[? ?]|]; try done; by destruct Hs as (_ & _ & _ & ? & _).
  - destruct ret as [[seq b]|]; cbn.
    + destruct t; cbn in *; try (destruct Hs as [(? & ? & ?) _]; done).
      all: destruct Hs as (Hl & Hcl & Hw & _ & ->); unfold receive_retained; rewrite (chunk_wf_new b Hw); cbn; settle Hc Hl.
    + destruct t; cbn in *; rewrite ?app_nil_r; settle Hc Hs; by destruct Hs as (_ & _ & ?).
Qed.
Lemma complete_spec failing p : download_inv p -> stage p <> Idle ->
  let '(p', (waker, failed)) := complete_section failing p in
  download_inv p' /\ accepted p' = accepted p /\ cleared p' = cleared p /\ taken p' = taken p /\ stage p' = Idle /\ failed = failing /\
  (failing = true -> terminal (state p') = Aborted) /\ (failing = false -> terminal (state p') = terminal (state p)) /\
  (final p -> terminal (state p') = terminal (state p)) /\
  (forall t, async_waker (state p) = Some t -> waker = Some t \/ async_waker (state p') = Some t).
Proof.
  intros Hinv Hst. pose proof (download_prefix p Hinv) as Hpre.
  assert (terminal (state p) <> Eof) as Hne by (intros E; destruct Hinv as (_ & _ & Hs); rewrite E in Hs; by destruct Hs as (_ & _ & ?)).
  unfold complete_section, on_state, decrement_receiver_waker_updates, set_state, checked_sub.
  assert (receiver_waker_updates (state p) = 1) as -> by (destruct Hinv as (-> & _); unfold updating; by destruct (stage p)).
  change (1 <=? 1) with true. cbv iota. change (1 - 1) with 0.
  open_pipe p. opened. destruct Hinv as (Hu & Hc & Hs).
  destruct failing; cbn.
  - rewrite abort_spec. cbn. destruct (decide (t = Eof)); [done|]. cbn. settle Hc Hs.
  - destruct t; settle Hc Hs.
Qed.
Lemma acknowledge_spec seq p : download_inv p ->
  let '(p', r) := acknowledge_section seq p in
  download_inv p' /\ accepted p' = accepted p /\ cleared p' = cleared p /\ taken p' = taken p /\ stage p' = stage p /\
  terminal (state p') = terminal (state p) /\
  (forall t, async_waker (state p) = Some t -> default None r = Some t \/ async_waker (state p') = Some t).
Proof.
  unfold acknowledge_section, on_state, set_state. open_pipe p. opened. intros (Hu & Hc & Hs).
  destruct (decide (fl = Some seq)) as [->|Hf].
  - rewrite bool_decide_eq_true_2 by done. cbn. destruct ret as [[k b]|]; cbn.
    + destruct t; settle Hc Hs.
    + destruct t; settle Hc Hs.
  - rewrite bool_decide_eq_false_2 by done. cbn. destruct t; settle Hc Hs.
Qed.

(** ** Lemmas: steps *)

Lemma writer_inv p l p' : writer_step p l p' -> download_inv p -> download_inv p'.
Proof.
  intros [n|Hl|seq input Hl Hw|Hl Hcl|Hl] Hinv.
  - exact Hinv.
  - by apply empty_section_inv.
  - by apply retain_inv.
  - pose proof (begin_finish_spec p Hinv Hcl) as H. destruct (on_state _ p). by destruct H.
  - pose proof (next_finish_spec p Hinv) as H. destruct (on_state _ p). by destruct H.
Qed.
Lemma receiver_inv p l p' : receiver_step p l p' -> download_inv p -> download_inv p'.
Proof.
  intros [Hl Hst|waker Hl Hst|failing Hst _|seq Hl] Hinv.
  - pose proof (begin_receive_spec p Hinv Hst) as H. destruct (begin_receive_section p). by destruct H.
  - pose proof (install_spec waker p Hinv Hst) as H. destruct (install_section waker p). by destruct H.
  - pose proof (complete_spec failing p Hinv Hst) as H. destruct (complete_section failing p) as [? [? ?]]. by destruct H.
  - pose proof (acknowledge_spec seq p Hinv) as H. destruct (acknowledge_section seq p). by destruct H.
Qed.
Lemma download_move_inv p p' : download_move p p' -> download_inv p -> download_inv p'.
Proof. intros [l [H|H|H]]; [by eapply common_download|by eapply writer_inv|by eapply receiver_inv]. Qed.
Lemma download_moves_inv p p' : rtc download_move p p' -> download_inv p -> download_inv p'.
Proof. induction 1 as [|? ? ? H _ IH]; [done|]. intros ?. apply IH. by eapply download_move_inv. Qed.

Lemma final_vacant_download p : download_inv p -> final p -> vacant (state p).
Proof. intros (_ & _ & H) [E|E]; rewrite E in H; by destruct H. Qed.
(** What each side leaves alone. *)
Lemma writer_quiet p l p' : writer_step p l p' -> download_inv p ->
  taken p' = taken p /\ stage p' = stage p /\ (final p -> accepted p' = accepted p /\ terminal (state p') = terminal (state p)).
Proof.
  intros [n|Hl|seq input Hl Hw|Hl Hcl|Hl] Hinv; try done.
  - unfold empty_section. by destruct (empty_wait_state (state p)).
  - destruct (retain_spec seq input p Hinv Hw) as [[e ->]|(_ & Ho & ->)]; [done|]. split_and!; try done. intros [E|E]; congruence.
  - pose proof (begin_finish_spec p Hinv Hcl) as H. destruct (on_state _ p). naive_solver.
  - pose proof (next_finish_spec p Hinv) as H. destruct (on_state _ p). naive_solver.
Qed.
Lemma receiver_quiet p l p' : receiver_step p l p' -> download_inv p ->
  accepted p' = accepted p /\ cleared p' = cleared p /\ (final p -> taken p' = taken p /\ terminal (state p') = terminal (state p)).
Proof.
  intros [Hl Hst|waker Hl Hst|failing Hst _|seq Hl] Hinv.
  - pose proof (begin_receive_spec p Hinv Hst) as H. destruct (begin_receive_section p) as [q s]. destruct H as (_ & ? & ? & Ht & _ & ? & Hf & _).
    split_and!; try done. intros Hfin. cbn. rewrite (Hf Hfin), app_nil_r in Ht. done.
  - pose proof (install_spec waker p Hinv Hst) as H. destruct (install_section waker p) as [q s]. destruct H as (_ & ? & ? & Ht & _ & ? & Hf & _).
    split_and!; try done. intros Hfin. cbn. rewrite (Hf Hfin), app_nil_r in Ht. done.
  - pose proof (complete_spec failing p Hinv Hst) as H. destruct (complete_section failing p) as [? [? ?]]. naive_solver.
  - pose proof (acknowledge_spec seq p Hinv) as H. destruct (acknowledge_section seq p). naive_solver.
Qed.
Lemma common_keeps p l p' : common_step p l p' -> cleared p' = cleared p /\ stage p' = stage p.
Proof. intros [io|]; unfold on_state, recover_section; by destruct (abort _ (state p)). Qed.
Lemma final_download p p' : download_move p p' -> download_inv p -> final p ->
  final p' /\ terminal (state p') = terminal (state p) /\ accepted p' = accepted p /\ taken p' = taken p.
Proof.
  intros [l Hst] Hinv Hf.
  assert (terminal (state p') = terminal (state p) /\ accepted p' = accepted p /\ taken p' = taken p) as (Ht & Ha & Htk).
  { destruct Hst as [H|H|H].
    - destruct (common_quiet _ _ _ H) as (? & ? & _ & _ & ? & _). auto.
    - destruct (writer_quiet _ _ _ H Hinv) as (? & _ & Hx). destruct (Hx Hf). auto.
    - destruct (receiver_quiet _ _ _ H Hinv) as (? & _ & Hx). destruct (Hx Hf). auto. }
  split_and!; try done. unfold final in *. by rewrite Ht.
Qed.
Lemma finals_download p p' : rtc download_move p p' -> download_inv p -> final p ->
  final p' /\ terminal (state p') = terminal (state p) /\ accepted p' = accepted p /\ taken p' = taken p.
Proof.
  induction 1 as [|p q r H _ IH]; [done|]. intros Hinv Hf. destruct (final_download _ _ H Hinv Hf) as (Hf' & H1 & H2 & H3).
  destruct (IH (download_move_inv _ _ H Hinv) Hf') as (? & -> & -> & ->). done.
Qed.

(** A registered waker is handed out by the step that leaves its task something to do. *)
Lemma waker_waits_download p t : download_inv p -> async_waker (state p) = Some t -> unreceived p = [] /\ ~ final p.
Proof.
  intros (_ & _ & Hs) Hw. unfold vacant, unreceived, final in *. destruct (terminal (state p)).
  1,2: destruct Hs as (_ & _ & Hs); destruct (retained (state p)) as [[k b]|]; [by destruct Hs as (_ & _ & ?); congruence|];
    split; [done|]; by intros [?|?].
  all: destruct Hs as [(_ & _ & ?) _]; congruence.
Qed.
Lemma waker_handed_download p l p' t : download_step p l p' -> download_inv p -> async_waker (state p) = Some t ->
  match l with Handed w => w = Some t \/ async_waker (state p') = Some t | Polled => True end.
Proof.
  intros Hst Hinv Hw. destruct (waker_waits_download p t Hinv Hw) as [_ Hf].
  destruct Hst as [[io|]|[n|Hl|seq input Hl Hwf|Hl Hcl|Hl]|[Hl Hst|waker Hl Hst|failing Hst _|seq Hl]]; try (by right); try done.
  - left. unfold on_state. rewrite abort_spec. destruct (decide _); [|done]. exfalso. apply Hf. by left.
  - left. unfold recover_section. rewrite abort_spec. destruct (decide _); [|done]. exfalso. apply Hf. by left.
  - unfold empty_section. destruct (empty_wait_state (state p)); by right.
  - destruct (retain_spec seq input p Hinv Hwf) as [[e ->]|(_ & _ & ->)]; [by right|by left].
  - pose proof (begin_finish_spec p Hinv Hcl) as H. destruct (on_state _ p) as [q st].
    destruct H as (_ & _ & _ & _ & _ & _ & _ & H). destruct (H t Hw) as [->|?]; [by left|by right].
  - pose proof (next_finish_spec p Hinv) as H. destruct (on_state _ p) as [q st].
    destruct H as (_ & _ & _ & _ & _ & _ & _ & H). destruct (H t Hw) as [->|?]; [by left|by right].
  - pose proof (complete_spec failing p Hinv Hst) as H. unfold failing_waker. destruct (complete_section failing p) as [q [w f]].
    destruct H as (_ & _ & _ & _ & _ & _ & _ & _ & _ & H). cbn. auto.
  - pose proof (acknowledge_spec seq p Hinv) as H. destruct (acknowledge_section seq p) as [q r].
    destruct H as (_ & _ & _ & _ & _ & _ & H). cbn. auto.
Qed.

(** ** The calls of a download *)

Definition writer_move (p p' : Pipe) : Prop := exists l, common_step p l p' \/ writer_step p l p'.
Definition receiver_move (p p' : Pipe) : Prop := exists l, common_step p l p' \/ receiver_step p l p'.
Lemma writer_moves p p' : download_inv p -> rtc writer_move p p' -> rtc download_move p p' /\ taken p' = taken p /\ stage p' = stage p.
Proof.
  intros Hi Hr. revert Hi. induction Hr as [|p q r [l H] _ IH]; [done|]. intros Hi.
  assert (download_move p q) as Hm by (exists l; destruct H; [by apply download_common|by apply download_writer]).
  destruct (IH (download_move_inv _ _ Hm Hi)) as (Hr & -> & ->). split; [by eapply rtc_l|].
  destruct H as [H|H].
  - destruct (common_quiet _ _ _ H) as (_ & -> & _). by destruct (common_keeps _ _ _ H) as [_ ->].
  - by destruct (writer_quiet _ _ _ H Hi) as (-> & -> & _).
Qed.
Lemma receiver_moves p p' : download_inv p -> rtc receiver_move p p' -> rtc download_move p p' /\ accepted p' = accepted p /\ cleared p' = cleared p.
Proof.
  intros Hi Hr. revert Hi. induction Hr as [|p q r [l H] _ IH]; [done|]. intros Hi.
  assert (download_move p q) as Hm by (exists l; destruct H; [by apply download_common|by apply download_receiver]).
  destruct (IH (download_move_inv _ _ Hm Hi)) as (Hr & -> & ->). split; [by eapply rtc_l|].
  destruct H as [H|H].
  - destruct (common_quiet _ _ _ H) as (-> & _). by destruct (common_keeps _ _ _ H) as [-> _].
  - by destruct (receiver_quiet _ _ _ H Hi) as (-> & -> & _).
Qed.
Lemma download_move_final p p' : download_move p p' -> download_inv p -> final p -> final p'.
Proof. intros H Hi Hf. by destruct (final_download _ _ H Hi Hf). Qed.
Lemma download_move_abort io p : download_move p (on_state (abort io) p).1.
Proof. eexists. apply download_common, step_abort. Qed.
Lemma download_move_recover p : download_move p (recover_section p).1.
Proof. eexists. apply download_common, step_recover. Qed.
Lemma download_relock p : download_inv p -> final p -> relock_section p = p.
Proof.
  intros Hi Hf. destruct (final_vacant_download p Hi Hf) as (H1 & H2 & _). unfold relock_section, set_state, state in *.
  open_pipe p. cbn in *. subst. destruct Hf as [E|E]; cbn in E; subst t; by destruct po.
Qed.
Ltac download_side := eauto using download_move_inv, download_move_final, download_move_abort, download_move_recover, download_relock.

Section writer.
Variable outside : nat -> Outside.
Hypothesis Hothers : forall k p, download_inv p -> rtc receiver_move p (others (outside k) p).
Notation does := (does_at download_move accepted).
Lemma writer_others k p : download_inv p -> rtc download_move p (others (outside k) p) /\
  accepted (others (outside k) p) = accepted p /\ cleared (others (outside k) p) = cleared p.
Proof. intros Hp. by apply receiver_moves, Hothers. Qed.
#[local] Hint Resolve writer_others : core.

Lemma wait_until_empty_does fuel context w : download_inv (pipe w) ->
  does w (wait_until_empty outside fuel context) (fun d p r => d = [] /\ (r = Ok tt -> cleared p = true)).
Proof.
  revert w. induction fuel as [|fuel IH]; intros w Hi; [by apply does_fail|]. cbn [wait_until_empty].
  eapply does_then with (local := cleared); [exact download_move_inv|done| | |done].
  { by apply check_blocking_quiet with (inv := download_inv) (local := cleared); download_side. }
  intros _ w1 Hi1 _ _.
  eapply does_bind with (Q := fun d p r => d = [] /\ (r = Ok EmptyReady -> cleared p = true)); [exact download_move_inv|done| | |by intros d p e [-> _]].
  { apply blocking_does with (inv := download_inv) (local := cleared); download_side; [|done].
    intros p Hp Hl _. split; [apply rtc_once; eexists; by apply download_writer, write_empty|]. exists []. rewrite app_nil_r.
    split; [unfold empty_section; by destruct (empty_wait_state (state p))|]. split; [done|]. intros [= E]. by apply empty_section_ready. }
  intros found d w2 Hi2 _ [-> Hcl]. destruct found as [| |e]; cbn [resolve_empty_wait].
  - eapply does_bind with (Q := fun d p r => d = [] /\ p = pipe w2 /\ r = Ok true); [exact download_move_inv|done|by apply does_ret| |by intros ? ? ? (_ & _ & ?)].
    intros a d w3 _ _ (-> & Hp & [= ->]). apply does_ret. split; [done|]. rewrite Hp. auto.
  - eapply does_bind with (Q := fun d p r => d = [] /\ r <> Ok true); [exact download_move_inv|done| | |by intros ? ? ? [-> _]].
    + eapply does_then with (local := cleared); [exact download_move_inv|done| | |done].
      * by apply wait_quiet with (inv := download_inv) (local := cleared); download_side.
      * intros. by apply does_ret.
    + intros [|] d w3 Hi3 _ [-> ?]; [done|by apply IH].
  - eapply does_bind with (Q := fun d p r => d = [] /\ is_ok r = false); [exact download_move_inv|done|by apply does_fail|by intros ? ? ? ? ? [_ ?]|by intros ? ? ? [-> _]].
Qed.
Lemma wait_for_acknowledgement_does fuel context seq w : download_inv (pipe w) ->
  does w (wait_for_acknowledgement outside fuel context seq) (fun d p r => d = [] /\ (r = Ok tt -> taken p = accepted p)).
Proof.
  revert w. induction fuel as [|fuel IH]; intros w Hi; [by apply does_fail|]. cbn [wait_for_acknowledgement].
  eapply does_then with (local := cleared); [exact download_move_inv|done| | |done].
  { by apply check_blocking_quiet with (inv := download_inv) (local := cleared); download_side. }
  intros _ w1 Hi1 _ _.
  eapply does_bind with (Q := fun d p r => d = [] /\ (r = Ok Acknowledged -> taken p = accepted p)); [exact download_move_inv|done| | |by intros d p e [-> _]].
  { apply blocking_does with (inv := download_inv) (local := cleared); download_side; [|done].
    intros p Hp Hl _. split; [apply rtc_refl|]. exists []. rewrite app_nil_r. split_and!; [done|done|]. cbn. intros [= E].
    destruct Hp as (_ & _ & Hs). unfold acknowledgement_state, retained_sequence, unreceived in *.
    destruct (terminal (state p)), (retained (state p)) as [[k b]|], (in_flight (state p)); cbn in E; try done;
      repeat (destruct (seq =? _); cbn in E; try done).
    all: first [destruct Hs as [-> _]; by rewrite app_nil_r | by destruct Hs as (_ & -> & _)]. }
  intros found d w2 Hi2 _ [-> Hack]. destruct found as [| | |e]; cbn [resolve_acknowledgement].
  - eapply does_bind with (Q := fun d p r => d = [] /\ p = pipe w2 /\ r = Ok true); [exact download_move_inv|done|by apply does_ret| |by intros ? ? ? (_ & _ & ?)].
    intros a d w3 _ _ (-> & Hp & [= ->]). apply does_ret. split; [done|]. rewrite Hp. auto.
  - eapply does_bind with (Q := fun d p r => d = [] /\ r <> Ok true); [exact download_move_inv|done| | |by intros ? ? ? [-> _]].
    + eapply does_then with (local := cleared); [exact download_move_inv|done| | |done].
      * by apply wait_quiet with (inv := download_inv) (local := cleared); download_side.
      * intros. by apply does_ret.
    + intros [|] d w3 Hi3 _ [-> ?]; [done|by apply IH].
  - eapply does_bind with (Q := fun d p r => d = [] /\ is_ok r = false); [exact download_move_inv|done| |by intros ? ? ? ? ? [_ ?]|by intros ? ? ? [-> _]].
    eapply does_then with (local := cleared); [exact download_move_inv|done| | |].
    + by apply abort_shared_quiet with (inv := download_inv) (local := cleared); download_side.
    + intros. by apply does_fail.
    + done.
  - eapply does_bind with (Q := fun d p r => d = [] /\ is_ok r = false); [exact download_move_inv|done|by apply does_fail|by intros ? ? ? ? ? [_ ?]|by intros ? ? ? [-> _]].
Qed.
Lemma advance_sequence_quiet {E} w : download_inv (pipe w) -> quiet_at download_move accepted cleared w (advance_sequence (E := E) outside).
Proof.
  intros Hi. unfold advance_sequence. apply quiet_then with (inv := download_inv); download_side; [by apply does_get|].
  intros w1 w2 Hi2. destruct (checked_add _ _ _).
  - apply quiet_then with (inv := download_inv); download_side; [|intros; apply quiet_ret].
    apply run_does with (d := []); [|by rewrite app_nil_r|done]. apply rtc_once. eexists. apply download_writer, write_sequence.
  - apply quiet_then with (inv := download_inv); download_side; [|intros; apply quiet_ret].
    by apply abort_shared_quiet with (inv := download_inv) (local := cleared); download_side.
Qed.
Lemma raised_does {A} (r : result IoError A) w (P : bytes -> Pipe -> result Stop A -> Prop) :
  P [] (pipe w) (match r with Ok a => Ok a | Err e => Err (Raised e) end) -> does w (raised r) P.
Proof. intros H. destruct r; [by apply does_ret|by apply does_fail]. Qed.
Lemma write_chunk_does fuel context input w : download_inv (pipe w) -> chunk_wf input ->
  does w (write_chunk outside fuel context input) (fun d p r =>
    match r with Ok _ => d = input /\ taken p = accepted p | Err _ => d = [] \/ d = input end).
Proof.
  intros Hi Hw. unfold write_chunk.
  eapply does_bind; [exact download_move_inv|done|by apply wait_until_empty_does| |by intros d p e [-> _]; left].
  intros [] d w1 Hi1 _ [-> _]. cbn [app].
  eapply does_then with (local := cleared); [exact download_move_inv|done| | |by left].
  { apply quiet_then with (inv := download_inv); download_side; [by apply advance_sequence_quiet|]. intros a w' Hi'.
    apply raised_does. by destruct a. }
  intros seq w2 Hi2 _ _.
  eapply does_bind with (Q := fun d p r => match r with Ok _ => d = input | Err _ => d = [] end); [exact download_move_inv|done| | |by left].
  { unfold retain_blocking_chunk.
    eapply does_bind with (Q := fun d p r => match r with Ok (Ok _) => d = input | _ => d = [] end); [exact download_move_inv|done| | |done].
    - apply blocking_does with (inv := download_inv) (local := cleared); download_side.
      intros p Hp Hl _. split; [apply rtc_once; eexists; by apply download_writer, write_retain|].
      destruct (retain_spec seq input p Hp Hw) as [[e ->]|(_ & _ & ->)]; [exists []; by rewrite app_nil_r|by exists input].
    - intros a d w' Hi' _ HQ. apply raised_does. destruct a; by rewrite HQ, ?app_nil_r. }
  intros waker d w3 Hi3 _ ->.
  eapply does_then with (local := cleared); [exact download_move_inv|done| | |by rewrite app_nil_r; right].
  { by apply wake_or_abort_quiet with (inv := download_inv) (local := cleared); download_side. }
  intros woken w4 Hi4 _ _.
  eapply does_then with (local := cleared); [exact download_move_inv|done| | |by rewrite app_nil_r; right].
  { apply raised_does. by destruct woken. }
  intros [] w5 Hi5 _ _. eapply does_weaken; [exact download_move_inv|done|by apply wait_for_acknowledgement_does|].
  intros d p r _ _ [-> Hr]. rewrite app_nil_r. destruct r as [[]|e]; auto.
Qed.
Lemma drive_does fuel context st w : download_inv (pipe w) -> (st = Published -> terminal (state (pipe w)) = Eof) ->
  does w (drive_blocking_finish outside fuel context st) (fun d p r => d = [] /\ (r = Ok tt -> terminal (state p) = Eof)).
Proof.
  revert st w. induction fuel as [|fuel IH]; intros st w Hi Hst; [by apply does_fail|]. cbn [drive_blocking_finish]. destruct st as [waker| | |e].
  - eapply does_bind with (Q := fun d p r => d = [] /\ r <> Ok Published); [exact download_move_inv|done| | |by intros ? ? ? [-> _]].
    + unfold deliver_blocking_finish_waker. eapply does_then with (local := cleared); [exact download_move_inv|done| | |done].
      * by apply wake_quiet with (inv := download_inv) (local := cleared); download_side.
      * intros [|] w1 Hi1 _ _; [by apply does_ret|]. eapply does_then with (local := cleared); [exact download_move_inv|done| | |done].
        { by apply abort_shared_quiet with (inv := download_inv) (local := cleared); download_side. }
        intros. by apply does_ret.
    + intros st d w1 Hi1 _ [-> Hne]. apply IH; [done|]. intros ->. done.
  - eapply does_bind with (Q := fun d p r => d = [] /\ (r = Ok Published -> terminal (state p) = Eof)); [exact download_move_inv|done| | |by intros ? ? ? [-> _]].
    + unfold recheck_blocking_finish. eapply does_then with (local := cleared); [exact download_move_inv|done| | |done].
      { apply quiet_attempt. by apply check_blocking_quiet with (inv := download_inv) (local := cleared); download_side. }
      intros [u|[e|]] w1 Hi1 _ _; [|by apply does_ret|by apply does_fail].
      eapply does_bind with (Q := fun d p r => d = [] /\ (r = Ok Published -> terminal (state p) = Eof)); [exact download_move_inv|done| | |by intros ? ? ? [-> _]].
      * apply critical_does with (inv := download_inv) (local := cleared); download_side; [| |done].
        { intros p Hp Hl _. split; [apply rtc_once; eexists; by apply download_writer, write_next_finish|].
          pose proof (next_finish_spec p Hp) as H. destruct (on_state _ p) as [q s]. destruct H as (_ & H & _ & _ & _ & _ & H' & _).
          exists []. rewrite app_nil_r. split_and!; [done|done|]. intros [= ->]. by apply H'. }
        { intros p Hp _ _. split; [apply rtc_refl|]. exists []. rewrite app_nil_r. done. }
      * intros st d w2 Hi2 _ [-> Hpub]. destruct st as [waker| | |e]; [by apply does_ret| |apply does_ret; auto|by apply does_ret].
        eapply does_then with (local := cleared); [exact download_move_inv|done| | |done].
        { apply quiet_attempt. by apply wait_quiet with (inv := download_inv) (local := cleared); download_side. }
        intros [u'|[e|]] w3 Hi3 _ _; [by apply does_ret|by apply does_ret|by apply does_fail].
    + intros st d w1 Hi1 _ [-> Hpub]. apply IH; [done|]. intros ->. auto.
  - apply does_ret. auto.
  - by apply does_fail.
Qed.
Lemma finish_does fuel context w : download_inv (pipe w) ->
  does w (FilePipe.finish outside fuel context) (fun d p r => d = [] /\ (r = Ok tt -> terminal (state p) = Eof)).
Proof.
  intros Hi. unfold FilePipe.finish. eapply does_bind; [exact download_move_inv|done|by apply wait_until_empty_does| |by intros d p e [-> _]].
  intros [] d w1 Hi1 _ [-> Hcl]. specialize (Hcl eq_refl).
  eapply does_bind with (Q := fun d p r => d = [] /\ (r = Ok Published -> terminal (state p) = Eof)); [exact download_move_inv|done| | |by intros ? ? ? [-> _]].
  - apply blocking_does with (inv := download_inv) (local := cleared); download_side; [|done].
    intros p Hp Hl Hloc. rewrite Hcl in Hloc. split; [apply rtc_once; eexists; by apply download_writer, write_begin_finish|].
    pose proof (begin_finish_spec p Hp Hloc) as H. destruct (on_state _ p) as [q s]. destruct H as (_ & H & _ & _ & _ & _ & H' & _).
    exists []. rewrite app_nil_r. split_and!; [done|done|]. intros [= ->]. by apply H'.
  - intros st d w2 Hi2 _ [-> Hpub]. apply drive_does; [done|]. intros ->. auto.
Qed.
End writer.

Section receiver.
Variable outside : nat -> Outside.
Hypothesis Hothers : forall k p, download_inv p -> rtc writer_move p (others (outside k) p).
Notation does := (does_at download_move taken).
Lemma receiver_others k p : download_inv p -> rtc download_move p (others (outside k) p) /\
  taken (others (outside k) p) = taken p /\ stage (others (outside k) p) = stage p.
Proof. intros Hp. by apply writer_moves, Hothers. Qed.
#[local] Hint Resolve receiver_others : core.

(** What a poll of the receiver answers. *)
Definition answers (d : bytes) (p : Pipe) (polled : Poll (option PipeReceivedChunk)) : Prop :=
  match polled with
  | Ready (Ok (Some c)) => d = chunk c
  | Ready (Ok None) => d = [] /\ terminal (state p) = Eof
  | Ready (Err _) => d = [] \/ terminal (state p) = Aborted
  | Pending => d = []
  | Unwound => False
  end.
Lemma aborted_stays p p' : rtc download_move p p' -> download_inv p -> terminal (state p) = Aborted -> terminal (state p') = Aborted.
Proof. intros Hr Hi Ha. destruct (finals_download _ _ Hr Hi (or_intror Ha)) as (_ & -> & _). done. Qed.

Lemma complete_does {E} succeeded w : download_inv (pipe w) -> stage (pipe w) <> Idle -> (succeeded = true -> stage (pipe w) = Installed) ->
  does w (complete_receiver_waker_update (E := E) outside succeeded) (fun d p r =>
    match r with
    | Ok (_, failed) => d = [] /\ stage p = Idle /\ (failed = true -> terminal (state p) = Aborted) /\ (succeeded = false -> failed = true)
    | Err _ => True
    end).
Proof.
  intros Hi Hne Hs. unfold complete_receiver_waker_update.
  assert (forall b p, download_inv p -> stage p = stage (pipe w) -> rtc download_move p (complete_section (negb succeeded || b) p).1 /\
    exists d, taken (complete_section (negb succeeded || b) p).1 = taken p ++ d /\
      match (complete_section (negb succeeded || b) p).2 with
      | (_, failed) => d = [] /\ stage (complete_section (negb succeeded || b) p).1 = Idle /\
          (failed = true -> terminal (state (complete_section (negb succeeded || b) p).1) = Aborted) /\ (succeeded = false -> failed = true)
      end) as H.
  { intros b p Hp Hst. split.
    - apply rtc_once. eexists. apply download_receiver, receive_complete; [congruence|]. intros Hf. rewrite Hst. apply Hs.
      by destruct succeeded.
    - pose proof (complete_spec (negb succeeded || b) p Hp ltac:(congruence)) as H.
      destruct (complete_section (negb succeeded || b) p) as [q [x f]]. destruct H as (_ & _ & _ & H1 & H2 & -> & H3 & _). cbn.
      exists []. rewrite app_nil_r. split_and!; try done. by intros ->. }
  apply critical_does with (inv := download_inv) (local := stage); download_side.
Qed.
Lemma resolve_installation_does {E} i d0 w : download_inv (pipe w) -> stage (pipe w) <> Idle ->
  (installation_failed i = false -> stage (pipe w) = Installed /\ d0 = chunk_of (step i) /\ reports (pipe w) (step i)) ->
  does w (resolve_receiver_waker_installation (E := E) outside i) (fun d p r =>
    match r with Ok polled => answers (d0 ++ d) p polled /\ stage p = Idle | Err _ => True end).
Proof.
  intros Hi Hne Hok. unfold resolve_receiver_waker_installation.
  eapply does_then with (local := stage); [exact download_move_inv|done| | |done].
  { by apply drop_quiet with (inv := download_inv) (local := stage); download_side. }
  intros clean w1 Hi1 Hr1 Hst1.
  eapply does_bind; [exact download_move_inv|done| | |].
  { apply complete_does; [done|congruence|]. intros Hx. rewrite Hst1. apply Hok. by destruct (installation_failed i). }
  2: { by intros d p e _. }
  intros [completion failed] d w2 Hi2 Hr2 (-> & Hst2 & Hf & Hs). cbn [app].
  eapply does_then with (local := stage); [exact download_move_inv|done| | |done].
  { by apply wake_quiet with (inv := download_inv) (local := stage); download_side. }
  intros _ w3 Hi3 Hr3 Hst3. eapply does_then with (local := stage); [exact download_move_inv|done| | |done].
  { by apply wake_quiet with (inv := download_inv) (local := stage); download_side. }
  intros _ w4 Hi4 Hr4 Hst4. apply does_ret. split; [|congruence]. rewrite app_nil_r.
  destruct (installation_failed i) eqn:Ei; [|destruct clean; [|]]; cbn in *.
  - right. apply (aborted_stays (pipe w2)); [by etrans|done|auto].
  - destruct failed; cbn.
    + right. apply (aborted_stays (pipe w2)); [by etrans|done|auto].
    + destruct (Hok eq_refl) as (Hinst & -> & Hrep). destruct (step i) as [[[[c|]|e] nt]|]; cbn in *; try done.
      * destruct Hrep as [_ He]. exfalso. destruct Hi as (_ & _ & Hx). rewrite He in Hx. destruct Hx as (_ & _ & ?). congruence.
      * by left.
  - right. apply (aborted_stays (pipe w2)); [by etrans|done|auto].
Qed.
Lemma register_receiver_waker_does {E} task w : download_inv (pipe w) -> stage (pipe w) = Begun ->
  does w (register_receiver_waker (E := E) outside task) (fun d p r =>
    match r with Ok polled => answers d p polled /\ stage p = Idle | Err _ => True end).
Proof.
  intros Hi Hst. unfold register_receiver_waker.
  eapply does_then with (local := stage); [exact download_move_inv|done| | |done].
  { by apply look_quiet with (inv := download_inv) (local := stage); download_side. }
  intros o w1 Hi1 _ Hst1. destruct (clone_ok o).
  - eapply does_bind with (Q := fun d p r => match r with
      | Ok i => stage p <> Idle /\ (installation_failed i = false -> stage p = Installed /\ d = chunk_of (step i) /\ reports p (step i))
      | Err _ => True end); [exact download_move_inv|done| | |done].
    + apply critical_does with (inv := download_inv) (local := stage); download_side.
      * intros p Hp Hl Hloc. assert (stage p = Begun) as Hb by congruence.
        split; [apply rtc_once; eexists; by apply download_receiver, receive_install|].
        pose proof (install_spec task p Hp Hb) as H. destruct (install_section task p) as [q i].
        destruct H as (_ & _ & _ & H1 & H2 & _ & _ & H3 & _). exists (chunk_of (step i)). cbn in *. split; [done|]. rewrite H2. done.
      * intros p Hp _ Hloc. split; [apply rtc_refl|]. exists []. rewrite app_nil_r. cbn. split; [done|]. split; [congruence|done].
    + intros i d w2 Hi2 _ [Hne Hok]. by apply resolve_installation_does.
  - unfold fail_receiver_waker_update. eapply does_bind; [exact download_move_inv|done| | |].
    { apply complete_does; [done|congruence|done]. }
    2: { by intros d p e _. }
    intros [x f] d w2 Hi2 _ (-> & Hst2 & _). cbn [app].
    eapply does_then with (local := stage); [exact download_move_inv|done| | |done].
    { by apply wake_quiet with (inv := download_inv) (local := stage); download_side. }
    intros _ w3 Hi3 _ Hst3. apply does_ret. split; [by left|congruence].
Qed.
Lemma poll_receive_does {E} context task w : download_inv (pipe w) -> stage (pipe w) = Idle ->
  does w (poll_receive (E := E) outside context task) (fun d p r =>
    match r with Ok polled => answers d p polled /\ stage p = Idle | Err _ => True end).
Proof.
  intros Hi Hst. unfold poll_receive.
  eapply does_then with (local := stage); [exact download_move_inv|done| | |done].
  { by apply check_quiet with (inv := download_inv) (local := stage); download_side. }
  intros [u|e] w1 Hi1 _ Hst1.
  - eapply does_bind with (Q := fun d p r => match r with
      | Ok RegisterWaker => d = [] /\ stage p = Begun
      | Ok (ReadyStep ready) => answers d p (Ready (received ready)) /\ stage p = Idle /\ notification ready = None
      | Err _ => True end); [exact download_move_inv|done| | |done].
    + apply critical_does with (inv := download_inv) (local := stage); download_side.
      * intros p Hp Hl Hloc. assert (stage p = Idle) as Hb by congruence.
        split; [apply rtc_once; eexists; by apply download_receiver, receive_begin|].
        pose proof (begin_receive_spec p Hp Hb) as H. destruct (begin_receive_section p) as [q st].
        destruct H as (_ & _ & _ & H1 & H2 & _ & _ & H3). exists (chunk_of st). cbn in *. split; [done|].
        destruct st as [[[[c|]|e] nt]|]; cbn in *; try (by split); destruct H3 as [-> ?]; split_and!; try done. by left.
      * intros p Hp _ Hloc. split; [apply rtc_refl|]. exists []. rewrite app_nil_r. cbn. split_and!; [done|by left|congruence|done].
    + intros st d w2 Hi2 _ HQ. destruct st as [ready|].
      * destruct HQ as (Ha & Hs & Hn). unfold finish_receive_ready. rewrite Hn. cbn [wake_caught].
        eapply does_bind with (Q := fun d p _ => d = [] /\ p = pipe w2); [exact download_move_inv|done|by apply does_ret| |by intros].
        intros a d' w3 _ _ [-> Hp]. apply does_ret. by rewrite Hp, !app_nil_r.
      * destruct HQ as [-> Hb]. by apply register_receiver_waker_does.
  - eapply does_then with (local := stage); [exact download_move_inv|done| | |done].
    { by apply abort_shared_quiet with (inv := download_inv) (local := stage); download_side. }
    intros _ w2 Hi2 _ Hst2. apply does_ret. split; [by left|congruence].
Qed.
Lemma acknowledge_does {E} seq w : download_inv (pipe w) ->
  does w (acknowledge (E := E) outside seq) (fun d p r => d = []).
Proof.
  intros Hi. unfold acknowledge. eapply does_bind with (Q := fun d p r => d = []); [exact download_move_inv|done| | |done].
  - apply critical_does with (inv := download_inv) (local := stage); download_side.
    + intros p Hp Hl _. pose proof (receive_acknowledge p seq Hl) as Hst. pose proof (acknowledge_spec seq p Hp) as H.
      destruct (acknowledge_section seq p) as [q r]. destruct H as (_ & _ & _ & H & _). split; [apply rtc_once; eexists; by apply download_receiver|].
      exists []. by rewrite app_nil_r.
    + intros p Hp _ _. split; [apply rtc_refl|]. exists []. by rewrite app_nil_r.
  - intros found d w1 Hi1 _ ->. cbn [app]. destruct found as [[waker|]|].
    + eapply does_weaken with (P := fun d p _ => d = [] /\ stage p = stage (pipe w1)); [exact download_move_inv|done| |by intros d p r _ _ [-> _]].
      by apply wake_or_abort_quiet with (inv := download_inv) (local := stage); download_side.
    + eapply does_then with (local := stage); [exact download_move_inv|done| |by intros; apply does_ret|done].
      by apply abort_shared_quiet with (inv := download_inv) (local := stage); download_side.
    + by apply does_ret.
Qed.
End receiver.

(** ** Theorems *)

(** In every interleaving of the sections of the writer, of the receiver, of aborts and of
    recoveries, the receiver has got the chunks that were written, each once and in their
    order, and the pipe holds the rest, at most one chunk; after the end of the stream it
    has got all of them and is not registering any waker; and after an end or an abort
    nothing moves.  A registered waker has nothing to receive, and the step that changes
    this hands it out to be woken. *)
Theorem download_in_order p (Hreach : rtc download_move new_pipe p) :
  taken p `prefix_of` accepted p /\
  (~ final p -> accepted p = taken p ++ unreceived p /\ len (unreceived p) <= ApiFiles.MAX_FILE_CHUNK_BYTES) /\
  (terminal (state p) = Eof -> taken p = accepted p /\ receiver_waker_updates (state p) = 0) /\
  (final p -> forall p', rtc download_move p p' ->
    terminal (state p') = terminal (state p) /\ taken p' = taken p /\ accepted p' = accepted p) /\
  (forall t, async_waker (state p) = Some t -> unreceived p = [] /\ ~ final p /\
    forall l p', download_step p l p' ->
      match l with Handed waker => waker = Some t \/ async_waker (state p') = Some t | Polled => True end).
Proof.
  pose proof (download_moves_inv _ _ Hreach new_pipe_download) as Hi. split; [by apply download_prefix|]. split; [|split; [|split]].
  - intros Hf. destruct Hi as (_ & _ & Hs). unfold final, unreceived in *. destruct (terminal (state p)).
    3,4: exfalso; apply Hf; auto.
    all: destruct Hs as (Hl & _ & Hs); split; [done|]; destruct (retained (state p)) as [[k b]|]; [by destruct Hs as [[_ ?] _]|done].
  - intros He. destruct Hi as (Hu & _ & Hs). rewrite He in Hs. destruct Hs as (_ & -> & Hst). split; [done|]. unfold updating in Hu. by rewrite Hst in Hu.
  - intros Hf p' Hm. by destruct (finals_download _ _ Hm Hi Hf) as (_ & ? & ? & ?).
  - intros t Ht. destruct (waker_waits_download p t Hi Ht) as [? ?]. split_and!; [done|done|]. intros l p' Hst. by eapply waker_handed_download.
Qed.

(** C6: The calls of both ends tell the truth, whatever the other threads do between their
    sections.  A write that is answered has put in the bytes it counts, from the front of
    its input and at most a chunk, and everything that went in has been taken out; one that
    fails has put in these or nothing.  A finish is answered only at the end of the stream.
    A poll of the receiver that is ready with a chunk has taken exactly its bytes out; one
    that is ready without is at the end, with everything taken; one that is pending has
    taken nothing. *)
Theorem download_calls_exact outside w (Hi : download_inv (pipe w)) :
  ((forall k p, download_inv p -> rtc receiver_move p (others (outside k) p)) ->
   forall fuel context input,
   (let '(w', r) := write outside fuel context input w in
    let chunk := take (N.to_nat (N.min (len input) ApiFiles.MAX_FILE_CHUNK_BYTES)) input in
    rtc download_move (pipe w) (pipe w') /\
    match r with
    | Ok count => count = len chunk /\ accepted (pipe w') = accepted (pipe w) ++ chunk /\
        (chunk <> [] -> taken (pipe w') = accepted (pipe w'))
    | Err _ => accepted (pipe w') = accepted (pipe w) \/ accepted (pipe w') = accepted (pipe w) ++ chunk
    end) /\
   (let '(w', r) := FilePipe.finish outside fuel context w in
    rtc download_move (pipe w) (pipe w') /\ accepted (pipe w') = accepted (pipe w) /\
    (r = Ok tt -> terminal (state (pipe w')) = Eof /\ taken (pipe w') = accepted (pipe w')))) /\
  ((forall k p, download_inv p -> rtc writer_move p (others (outside k) p)) -> stage (pipe w) = Idle ->
   forall context task,
   let '(w', r) := poll_receive (E := Empty_set) outside context task w in
   rtc download_move (pipe w) (pipe w') /\ stage (pipe w') = Idle /\
   match r with
   | Ok (Ready (Ok (Some c))) => taken (pipe w') = taken (pipe w) ++ chunk c
   | Ok (Ready (Ok None)) => taken (pipe w') = taken (pipe w) /\ terminal (state (pipe w')) = Eof /\ taken (pipe w') = accepted (pipe w')
   | Ok (Ready (Err _)) => taken (pipe w') = taken (pipe w) \/ terminal (state (pipe w')) = Aborted
   | Ok Pending => taken (pipe w') = taken (pipe w)
   | _ => False
   end).
Proof.
  assert (forall p', rtc download_move (pipe w) p' -> terminal (state p') = Eof -> taken p' = accepted p') as Hend.
  { intros p' Hr He. pose proof (download_moves_inv _ _ Hr Hi) as (_ & _ & Hs). rewrite He in Hs. by destruct Hs as (_ & -> & _). }
  split; [intros Ho fuel context input; split|intros Ho Hst context task].
  - unfold write. destruct (N.eqb_spec (len input) 0) as [E|E].
    + cbn. split; [apply rtc_refl|]. assert (input = []) as -> by (destruct input; [done|unfold len in E; cbn in E; lia]).
      cbn. rewrite app_nil_r. done.
    + set (size := N.min (len input) ApiFiles.MAX_FILE_CHUNK_BYTES). set (b := take (N.to_nat size) input).
      assert (len b = size) as Hlen.
      { unfold b, len. rewrite length_take. unfold size, len in *. lia. }
      assert (chunk_wf b) as Hw.
      { split; [|rewrite Hlen; unfold size; lia]. intros Hb. rewrite Hb in Hlen. unfold len in Hlen, E. cbn in Hlen.
        unfold size, len in Hlen. unfold ApiFiles.MAX_FILE_CHUNK_BYTES in Hlen. lia. }
      destruct (write_chunk_does outside Ho fuel context b w Hi Hw) as (Hr & d & Hl & HP).
      unfold mbind, act_bind. destruct (write_chunk _ _ _ _ w) as [w' [[]|e]]; cbn in *.
      * destruct HP as [-> Ht]. split_and!; try done.
      * split; [done|]. destruct HP as [->| ->]; [left; by rewrite app_nil_r in Hl|by right].
  - destruct (finish_does outside Ho fuel context w Hi) as (Hr & d & Hl & -> & HP). rewrite app_nil_r in Hl.
    destruct (FilePipe.finish _ _ _ w) as [w' r]. cbn in *. split_and!; try done. intros Hx. split; [auto|]. apply Hend; auto.
  - destruct (poll_receive_does (E := Empty_set) outside Ho context task w Hi Hst) as (Hr & d & Hl & HP).
    destruct (poll_receive _ _ _ w) as [w' r]. cbn in *. split; [done|]. destruct r as [polled|[]]. destruct HP as [Ha Hst']. split; [done|].
    destruct polled as [[[c|]|e]| |]; cbn in *; try done.
    + by subst d.
    + destruct Ha as [-> He]. rewrite app_nil_r in Hl. auto.
    + destruct Ha as [->|?]; [left; by rewrite app_nil_r in Hl|by right].
    + subst d. by rewrite app_nil_r in Hl.
Qed.

(** ** Samples *)

(** A receiver that takes a chunk that is there and acknowledges the one in flight. *)
Definition sample_receiver (p : Pipe) : Pipe :=
  if lock_poisoned (shared p) then p
  else match in_flight (state p) with
       | Some seq => (acknowledge_section seq p).1
       | None => if decide (stage p = Idle /\ is_Some (retained (state p))) then (begin_receive_section p).1 else p
       end.
(** A write of three bytes and the end of the stream. *)
Definition sample_writes (w : World) : World * result Stop unit :=
  let m := write (sample_calm sample_receiver) 9 sample_context.2 sample_bytes in
  let '(w1, r1) := m w in FilePipe.finish (sample_calm sample_receiver) 9 sample_context.2 w1.
Example sample_download_runs : let '(w, r) := sample_writes (mk_World new_pipe 0) in
  r = Ok tt /\ taken (pipe w) = sample_bytes /\ terminal (state (pipe w)) = Eof.
Proof. vm_compute. done. Qed.
Lemma sample_receiver_moves k p : download_inv p -> rtc receiver_move p (others (sample_calm sample_receiver k) p).
Proof.
  intros _. cbn. unfold sample_receiver. destruct (lock_poisoned (shared p)) eqn:E; [apply rtc_refl|].
  destruct (in_flight (state p)) as [seq|]; [apply rtc_once; eexists; right; by apply receive_acknowledge|].
  destruct (decide _) as [[? _]|]; [|apply rtc_refl]. apply rtc_once. eexists. right. by apply receive_begin.
Qed.
Lemma download_in_order_witness : let p := (begin_receive_section (retain_section 0 sample_bytes new_pipe).1).1 in
  rtc download_move new_pipe p /\ taken p = sample_bytes /\ taken p `prefix_of` accepted p.
Proof.
  cbv zeta. set (p := (begin_receive_section _).1).
  assert (rtc download_move new_pipe p) as Hr.
  { eapply rtc_l; [eexists; by apply download_writer, (write_retain _ 0 sample_bytes)|].
    apply rtc_once. eexists. by apply download_receiver, receive_begin. }
  destruct (download_in_order p Hr) as [H _]. split; [exact Hr|]. split; [reflexivity|exact H].
Defined.
Lemma download_calls_exact_witness : let '(w', r) := write (sample_calm sample_receiver) 9 sample_context.2 sample_bytes (mk_World new_pipe 0) in
  r = Ok 3 /\ accepted (pipe w') = sample_bytes /\ taken (pipe w') = sample_bytes.
Proof.
  destruct (download_calls_exact (sample_calm sample_receiver) (mk_World new_pipe 0) new_pipe_download) as [H _].
  destruct (H sample_receiver_moves 9%nat sample_context.2 sample_bytes) as [Hw _]. revert Hw.
  assert ((write (sample_calm sample_receiver) 9 sample_context.2 sample_bytes (mk_World new_pipe 0)).2 = Ok 3) as Hr by (vm_compute; done).
  destruct (write _ _ _ _ _) as [w' r]. cbn in Hr. subst r. intros (_ & _ & Ha & Ht). rewrite Ht, Ha; done.
Defined.
